(* ===== verification/_CoqProject ===== *)
-Q . S2P
Prelude.v
RustStr.v
Bytes.v
Manifest.v
HostFs.v
Framing.v
FsLogic.v
Registry.v
Policy.v
Permissions.v
PermissionPrompt.v
Tasks.v
ResourceGovernor.v
Intent.v
MediaSession.v
DocumentPrompt.v
Thumbnail.v
TaskJournal.v
Checkpoint.v
Sandbox.v
Lifecycle.v
Package.v
Installer.v
InstallerTree.v
InstallerMatch.v
InstallerLogic.v
Protocol.v
Server.v
ServerLogic.v
Transparency.v
OsUpdate.v
ServerInstall.v
StorageProtocol.v
Storage.v
StorageLogic.v
StorageRefine.v
StoreMetadata.v
StoreControl.v
StoreControlLogic.v
StoreControlProps.v
NetworkProtocol.v
Network.v
StorageClient.v
PhotoLibrary.v
PhotoLibraryLogic.v
PhotoLibraryRep.v
PhotoLibraryTriples.v
PhotoLibraryImport.v
PhotoLibraryRemove.v
PhotoLibraryService.v
PhotoLibraryProps.v
Descriptor.v
DocumentProtocol.v
AudioProtocol.v
GpioProtocol.v
RadioProtocol.v
CameraProtocol.v
CapabilityClients.v
PhotoView.v
PhotoViewProps.v
BrokerProtocol.v
Broker.v
BrokerLogic.v
BrokerReplies.v
BrokerProps.v
StoreCatalog.v
StoreCatalogProps.v
