(* ===== verification/Prelude.v ===== *)
(** * Verification of the CardputerZero operating system services

    CardputerZero OS runs WebAssembly applications on a small handheld device.
    This library models, in the kernel's language and executably, the programs
    that decide what an application may do: the application service (crate
    cp0-appd), the formats and daemons it stands on, the rules of system
    updates, and the Store's public log, listings and control plane.

    ** The parts and how they meet

    An application arrives as a signed package (cp0-package), which the
    installer (cp0-appd/src/installer.rs) checks against the keys on the device
    and unpacks; its manifest (cp0-manifest) is validated; the registry gives it
    a permanent Unix account; the manager (lifecycle.rs) starts it in a sandbox
    (cp0-appd/src/lib.rs) under systemd; the server (server.rs) serves two
    sockets: the control socket, where the shell, the Store service and the
    operator send commands, and the broker socket, where running applications
    ask for capabilities.  A capability needs a permission (permissions.rs,
    permission_prompt.rs), within what the device policy (policy.rs) allows.
    The broker checks the caller and forwards the request to a service of its
    own per capability, over a protocol crate and a client in cp0-appd/src:
    private storage (cp0-storaged, cp0-storage-protocol), HTTPS requests
    (cp0-networkd, cp0-network-protocol), sound, camera, GPIO, radio and
    documents (cp0-audio-protocol and its likes).  Photos are kept for all
    applications in the private storage of the system (photo_library.rs), and
    shown zoomed by photo_view.rs.  The Store
    reviews what developers submit and releases it (cp0-store-control, on the
    listings and state machines of cp0-store-metadata), publishes signed
    catalogues (cp0-store-protocol) and logs them in a Merkle tree
    (cp0-store-transparency), and the system itself is updated
    in two slots (cp0-os-update).

    ** The files

    - [Prelude], [RustStr], [Bytes]: the error type [result] (with [Panicked]
      for a Rust panic), machine integers, strings, paths and byte cursors of
      Rust's standard library, tactics and hints.
    - [HostFs]: the file system as a state monad over a disk, with faults,
      interference by other processes, and a trace of the disks at which the
      device may stop.  [FsLogic]: three program logics over it (invariants of
      all intermediate disks, crash specifications, triples).
    - [Framing]: the line-framed messages that all protocol crates share,
      behind the interface [FrameErrors]; [Protocol], [StorageProtocol] and
      [NetworkProtocol] instantiate it.
    - [Manifest]: cp0-manifest.  [Registry], [Policy], [Permissions],
      [PermissionPrompt], [Tasks], [ResourceGovernor], [Intent],
      [MediaSession], [DocumentPrompt], [Thumbnail], [TaskJournal],
      [Checkpoint], [Lifecycle], [Protocol], [Server]: the files of
      cp0-appd/src with the same name; [Sandbox]: its lib.rs; [Installer]:
      installer.rs; [ServerInstall]: the installing commands of server.rs.
    - [ServerLogic]: a Hoare logic for the handlers of [Server], with other
      threads acting at every lock, and the theorems about the server.
      [InstallerTree], [InstallerMatch], [InstallerLogic]: the theorems about
      the installer.
    - [Package]: cp0-package.  [Transparency]: cp0-store-transparency.
      [OsUpdate]: cp0-os-update.
    - [Storage]: cp0-storaged; [StorageLogic] and [StorageRefine]: its safety
      and its refinement of a map with a quota.
    - [StorageClient]: storage_client.rs.  [PhotoLibrary]: photo_library.rs over
      the interface [PhotoStorage]; [PhotoLibraryLogic]: the laws of that
      interface, in which a write may be carried out and still report an error,
      and a Hoare logic with an invariant of every store passed through and
      another of what follows such a write of the head; [PhotoLibraryRep]: the
      index a store represents; [PhotoLibraryTriples], [PhotoLibraryImport],
      [PhotoLibraryRemove]: the operations; [PhotoLibraryService]: the storage
      service of [StorageRefine], with requests and replies that are lost, keeps
      the laws; [PhotoLibraryProps]: the theorems.
    - [NetworkProtocol]: cp0-network-protocol.  [Network]: cp0-networkd, with
      the parser of IP addresses and the HTTP client behind the class [Ureq].
    - [AudioProtocol], [GpioProtocol], [RadioProtocol], [DocumentProtocol],
      [CameraProtocol]: the crates of these names; [Descriptor]: their frames
      that carry a file descriptor.  [CapabilityClients]: network_client.rs,
      audio_client.rs, gpio_client.rs, radio_client.rs, document_client.rs,
      camera_client.rs and the opening of blobs in storage_client.rs, over the
      interfaces [Daemon] and [FdDaemon].  [PhotoView], [PhotoViewProps]:
      photo_view.rs.
    - [BrokerProtocol]: broker.rs.  [Broker]: the broker socket of server.rs,
      from the bytes of a connection to the answer, in a monad over the
      services, the server and the world.  [BrokerLogic]: which requests a
      command makes the services receive, and for whom; [BrokerReplies]: what
      the handlers answer; [BrokerProps]: the theorems about connections.
    - [StoreMetadata]: cp0-store-metadata (listings, PNG files, the states of
      submissions and releases).  [StoreControl]: cp0-store-control, with the
      rules of its requests as the relation [effect]; [StoreControlLogic]: that
      the code follows them, and what all sequences of requests keep;
      [StoreControlProps]: the theorems.  [StoreCatalog], [StoreCatalogProps]:
      the catalogues of cp0-store-protocol.

    A struct of the source is a record, an enum an inductive type, and a method
    a function of the same name, prefixed with its type where names repeat.  A
    method that changes its object returns the outcome together with the object
    it leaves, also on an error.

    ** What the theorems show

    - Identity: accounts are permanent and never shared; the registry, the
      permission prompts and the server keep their invariants in every
      reachable state; no handler of the lifecycle panics.
    - Consent: the answers of the permission engine refine a specification on
      the history of the user's choices; a broker call is served only for the
      process of an installed application that declares and was granted the
      permission.
    - The broker: whatever arrives on its socket, the services receive only
      requests that the command stands for, from an application that the user's
      decisions and the policy allow it; only the caller's own store changes, or the photo library with the permission
      for it; every answer passes the checks of the protocol; a photo view
      never reads outside the photo.
    - Packages: an accepted file is the one encoding of its package; what is
      installed carries signatures under keys the device trusts; an
      installation is all or nothing at every crash point; the Store installs
      exactly what it announced and never an older version.
    - Sandbox and lifecycle: what is started is the verified plan of the
      manifest; starting either activates the right task or runs a new one;
      uninstalling removes the package and every consent, and nothing else.
    - Storage: the daemon refines a map with a quota; it never leaves the
      directory of the application; a write is atomic at every crash point; a
      stored value is read back.
    - Photos: adding and removing a photo is atomic at every crash point and
      touches no other photo, unless the reply to a write of the head is lost,
      for which the theorems list what may be left; an imported photo is listed
      and described as it was given.
    - Network: the address filter is the list of the reserved blocks, and differs
      from its document on IPv4-mapped addresses; the
      daemon contacts public addresses only, for trusted peers only; its answers
      are well formed and bounded.
    - Updates: the confirmed release moves only forward, and only to a release
      that was staged, booted and healthy; an update that is never confirmed
      falls back for good after its attempts; one torn boot record loses
      nothing.
    - The public log: the root identifies the log; an accepted extension keeps
      the history; an honest log is accepted.
    - Catalogues: a set of shards is accepted exactly when it is, whole and in
      order, what the signed index announces.
    - The Store: a request to the control plane has exactly the effect its
      rules list, or none; every reachable plane keeps its invariant; what is
      recorded stays; what is released was scanned and approved; a request can
      be repeated safely and its key serves no other.  The PNG check accepts
      exactly the files of a grammar.
    - Some theorems exhibit defects of the code: an interrupted write blocks an
      application's storage, a failed save still grants, a failed stop leaves a
      dead task that cannot be closed, an old tombstone blocks uninstalling, a
      team can declare its release published without the publisher, one
      reviewer is enough for an approval that should need two, a lost reply
      breaks the photo library for good, a screenshot takes on the original of a
      photo whose import was cut short, a removal that was cut short hides
      all photos, and the broker refuses every request of more than 4 KiB.

    ** Bounds and fuel

    The walk over an application's files ([usage_loop]) has the source's own
    bound MAX_USAGE_TREE_ENTRIES as fuel.  Path resolution follows at most 40
    symbolic links, as Linux does.  The loops that wait for a unit run as often
    as the source's deadline allows.  [tree_hash] gets the length of its slice,
    enough by [tree_hash_Some]; [collect_installed_files] one more than the
    number of names on the disk, enough by [matches_no_panic]; [put_chunks] the
    length of the blob, enough by [pt_put_chunks]; [png_loop] the
    length of the file, enough by [png_structure_iff].  Everything else
    is structurally recursive.  Integers are unbounded [Z] with the bounds of
    their type in the invariants, and with the overflow behaviour of the
    operation the source uses (checked, saturating or wrapping) written out.

    ** What is a parameter

    The host ([Host]: which operation fails, what other processes do; [Space]:
    free space and clock; [System]: systemd and the password database;
    [Threads]: what other threads do between two locks), the JSON coding of
    serde ([Codec]), SHA-256 and Ed25519 ([Crypto]), the order of semantic
    versions ([Semver]), the HTTP client ([Ureq]), the JPEG decoder
    ([JpegDecoder]), and behind the clients the services themselves
    ([Daemon], [FdDaemon], [PhotoStorage]).  A theorem names what it needs of them, and its witness
    instantiates them.

    ** What is not modelled

    Sockets and kernel credentials beyond the bytes and descriptors they
    deliver; the lock of the photo library, which orders the requests of
    concurrent connections; the texts of error messages; the log, export and
    screenshot commands of the control socket; the Wayland shell and the image
    services; the drivers behind the audio, camera, GPIO, radio, display, power
    and USB daemons; the Store's network services (the device side cp0-stored
    with the messages of its socket in cp0-store-protocol, and the servers,
    publisher and workers around the control core), which mostly move data between
    databases, HTTP and the pure cores modelled here; command line tools. *)

From stdpp Require Export base list strings gmap sorting.
From Stdlib Require Export Sorted Ascii.

(** Comparisons of concrete bounds stay folded under [simpl]. *)
Global Arguments Nat.leb : simpl never.
Global Arguments Nat.ltb : simpl never.
Global Arguments Nat.eqb : simpl never.
Global Arguments Nat.div : simpl never.

(** ** Outcomes of Rust functions

    A function that returns [Result<A, E>] is modelled with three outcomes:
    the two of the source and [Panicked], which stands for a failed
    [expect]/[unwrap], an index out of range or any other Rust panic.  Theorems
    that rule a panic out are therefore statements about the model and not a
    convention of it. *)

Inductive result (E A : Type) : Type :=
  | Ok (a : A)
  | Err (e : E)
  | Panicked.
Arguments Ok {E A} _.
Arguments Err {E A} _.
Arguments Panicked {E A}.

Declare Scope rust_scope.
Delimit Scope rust_scope with rust.

(** [let? x := m in k] is the [?] operator: continue with the value or return
    the error; [map_err] stands for the [From] implementation that converts it. *)
Notation "'let?' x ':=' m 'in' k" :=
  (match m with Ok x => k | Err e => Err e | Panicked => Panicked end)
  (at level 10, x name, m at level 100, k at level 200,
   format "'[v' 'let?'  x  ':='  m  'in' '/' k ']'") : rust_scope.
Notation "'let?' ' p ':=' m 'in' k" :=
  (match m with Ok p => k | Err e => Err e | Panicked => Panicked end)
  (at level 10, p strict pattern, m at level 100, k at level 200) : rust_scope.
Open Scope rust_scope.

Definition is_ok {E A} (r : result E A) : bool :=
  match r with Ok _ => true | _ => false end.

Definition map_err {E F A} (f : E → F) (r : result E A) : result F A :=
  match r with Ok a => Ok a | Err e => Err (f e) | Panicked => Panicked end.

(** [Option::ok_or]. *)
Definition ok_or {E A} (o : option A) (e : E) : result E A :=
  match o with Some a => Ok a | None => Err e end.

(** [Option::expect]. *)
Definition expect {E A} (o : option A) : result E A :=
  match o with Some a => Ok a | None => Panicked end.

Global Instance result_eq_dec {E A} `{EqDecision E, EqDecision A} : EqDecision (result E A).
Proof. solve_decision. Defined.

(** ** Machine integers

    An unsigned integer of the source is a [Z]; the operations write the width
    out. *)

Definition u8_max : Z := 2 ^ 8 - 1.
Definition u16_max : Z := 2 ^ 16 - 1.
Definition u32_max : Z := 2 ^ 32 - 1.
Definition u64_max : Z := 2 ^ 64 - 1.

Definition checked_add_u64 (a b : Z) : option Z :=
  if (a + b <=? u64_max)%Z then Some (a + b)%Z else None.
Definition wrapping_add_u64 (a b : Z) : Z := ((a + b) mod 2 ^ 64)%Z.
Definition saturating_add_u64 (a b : Z) : Z := Z.min (a + b) u64_max.

(** [x.checked_add(1).unwrap_or(1)]: the sequence counters of the source. *)
Definition next_or_one (x : Z) : Z :=
  match checked_add_u64 x 1 with Some y => y | None => 1%Z end.

(** [x.wrapping_add(1).max(1)]: the prompt counters of the source. *)
Definition wrapping_next_nonzero (x : Z) : Z := Z.max (wrapping_add_u64 x 1) 1.

(** ** Vec and slice operations of the source *)

Section vec.
  Context {A : Type}.
  Implicit Types (l : list A) (f : A → bool) (g : A → A).

(** [iter().position(f)]. *)
Fixpoint position f l : option nat :=
  match l with
  | [] => None
  | x :: l => if f x then Some 0 else S <$> position f l
  end.

(** [iter_mut().find(f)] followed by a modification of the element found. *)
Fixpoint update_first f g l : list A :=
  match l with
  | [] => []
  | x :: l => if f x then g x :: l else x :: update_first f g l
  end.

(** [Vec::remove(i)]: panics out of range in the source, where every call is
    guarded; the model removes nothing there. *)
Fixpoint vec_remove (i : nat) l : list A :=
  match l, i with
  | [], _ => []
  | _ :: l, 0 => l
  | x :: l, S i => x :: vec_remove i l
  end.

(** [windows(2).all(R)]. *)
Fixpoint windows2_all (R : A → A → bool) l : bool :=
  match l with
  | [] => true
  | x :: l' => match l' with [] => true | y :: _ => R x y && windows2_all R l' end
  end.

(** [windows(2).any(R)]. *)
Definition windows2_any (R : A → A → bool) l : bool :=
  negb (windows2_all (λ x y, negb (R x y)) l).

(** [iter().filter(f).count()]. *)
Definition count_if f l : nat := length (List.filter f l).

(** A stable insertion sort, the reference for [sort_by_key]: [le x y] says
    that [x] may stay before [y]. *)
Fixpoint insert_sorted (le : A → A → bool) (x : A) l : list A :=
  match l with
  | [] => [x]
  | y :: l' => if le x y then x :: y :: l' else y :: insert_sorted le x l'
  end.
Definition stable_sort (le : A → A → bool) l : list A :=
  foldr (insert_sorted le) [] l.

End vec.

(** ** Tactics *)

(** Split every boolean conjunction, comparison and [bool_decide] of the
    context into the proposition it decides. *)
Ltac unbool_hyps :=
  repeat match goal with
  | H : andb _ _ = true |- _ => apply andb_true_iff in H as [? ?]
  | H : orb _ _ = false |- _ => apply orb_false_iff in H as [? ?]
  | H : negb _ = true |- _ => apply negb_true_iff in H
  | H : negb _ = false |- _ => apply negb_false_iff in H
  | H : bool_decide _ = true |- _ => apply bool_decide_eq_true_1 in H
  | H : bool_decide _ = false |- _ => apply bool_decide_eq_false_1 in H
  | H : (_ <=? _)%Z = true |- _ => apply Z.leb_le in H
  | H : (_ <=? _)%Z = false |- _ => apply Z.leb_gt in H
  | H : (_ <? _)%Z = true |- _ => apply Z.ltb_lt in H
  | H : (_ <? _)%Z = false |- _ => apply Z.ltb_ge in H
  | H : (_ =? _)%Z = true |- _ => apply Z.eqb_eq in H
  | H : (_ =? _)%Z = false |- _ => apply Z.eqb_neq in H
  | H : (_ <=? _)%nat = true |- _ => apply Nat.leb_le in H
  | H : (_ <=? _)%nat = false |- _ => apply Nat.leb_gt in H
  | H : (_ <? _)%nat = true |- _ => apply Nat.ltb_lt in H
  | H : (_ <? _)%nat = false |- _ => apply Nat.ltb_ge in H
  | H : (_ =? _)%nat = true |- _ => apply Nat.eqb_eq in H
  | H : (_ =? _)%nat = false |- _ => apply Nat.eqb_neq in H
  end.

(** Case analysis on every [match] and [if] a hypothesis or the goal scrutinises. *)
Ltac cases := repeat (case_match; simplify_eq/=).

(** ** Lemmas on lists *)

Create HintDb rust discriminated.

Section vec_lemmas.
  Context {A : Type}.
  Implicit Types (l : list A) (f : A → bool) (g : A → A).

Lemma forallb_Forall f l : forallb f l = true ↔ Forall (λ x, f x = true) l.
Proof.
  induction l as [|x l IH]; simpl; [by split|]. by rewrite andb_true_iff, Forall_cons, IH.
Qed.

Lemma forallb_ext_elem f f' l :
  (∀ x, x ∈ l → f x = f' x) → forallb f l = forallb f' l.
Proof.
  induction l as [|x l IH]; intros Hf; simpl; [done|].
  rewrite (Hf x) by set_solver. rewrite IH; [done|set_solver].
Qed.

Lemma find_some_elem f l x : List.find f l = Some x → x ∈ l ∧ f x = true.
Proof. intros H. apply find_some in H as [Hin Hf]. by rewrite list_elem_of_In. Qed.

Lemma find_none_elem f l x : List.find f l = None → x ∈ l → f x = false.
Proof. intros H Hx. apply (find_none _ _ H). by apply list_elem_of_In. Qed.

Lemma find_ext f f' l : (∀ x, x ∈ l → f x = f' x) → List.find f l = List.find f' l.
Proof.
  induction l as [|x l IH]; intros Hf; simpl; [done|].
  rewrite (Hf x) by set_solver. destruct (f' x); [done|]. apply IH. set_solver.
Qed.

Lemma position_lookup f l i : position f l = Some i → ∃ x, l !! i = Some x ∧ f x = true.
Proof.
  revert i. induction l as [|x l IH]; intros i Hi; simplify_eq/=.
  destruct (f x) eqn:E; simplify_eq/=; [eauto|].
  destruct (position f l) as [j|] eqn:Hj; simplify_eq/=. eauto.
Qed.

Lemma position_find f l :
  List.find f l = match position f l with Some i => l !! i | None => None end.
Proof.
  induction l as [|x l IH]; simpl; [done|].
  destruct (f x); simpl; [done|]. rewrite IH. by destruct (position f l).
Qed.

Lemma vec_remove_delete i l : vec_remove i l = delete i l.
Proof. revert i. induction l as [|x l IH]; intros [|i]; simpl; auto. by rewrite IH. Qed.

Lemma vec_remove_position_perm f l i x :
  position f l = Some i → l !! i = Some x → l ≡ₚ x :: vec_remove i l.
Proof. intros _ Hx. rewrite vec_remove_delete. by apply delete_Permutation. Qed.

Lemma sublist_vec_remove i l : vec_remove i l `sublist_of` l.
Proof. rewrite vec_remove_delete. apply sublist_delete. Qed.

(** *** [update_first] *)

Lemma length_update_first f g l : length (update_first f g l) = length l.
Proof. induction l as [|x l IH]; simpl; [done|]. destruct (f x); simpl; auto. Qed.

(** A projection the update does not touch is unchanged, element by element. *)
Lemma map_update_first {B} (p : A → B) f g l :
  (∀ x, x ∈ l → f x = true → p (g x) = p x) → map p (update_first f g l) = map p l.
Proof.
  induction l as [|x l IH]; intros Hp; simpl; [done|].
  destruct (f x) eqn:E; simpl; f_equal; [apply Hp; set_solver|apply IH; set_solver].
Qed.

Lemma update_first_none f g l : (∀ x, x ∈ l → f x = false) → update_first f g l = l.
Proof.
  induction l as [|x l IH]; intros Hf; simpl; [done|].
  rewrite Hf by set_solver. f_equal. apply IH. set_solver.
Qed.

Lemma Forall_update_first (P : A → Prop) f g l :
  Forall P l → (∀ x, x ∈ l → f x = true → P x → P (g x)) → Forall P (update_first f g l).
Proof.
  induction 1 as [|x l Hx Hl IH]; intros Hg; simpl; [done|].
  destruct (f x) eqn:E; constructor; auto; [apply Hg; set_solver|apply IH; set_solver].
Qed.

Lemma update_first_elem f g l x :
  x ∈ update_first f g l → x ∈ l ∨ ∃ y, y ∈ l ∧ f y = true ∧ x = g y.
Proof.
  induction l as [|z l IH]; simpl; [by intros ?%elem_of_nil|].
  setoid_rewrite elem_of_cons. destruct (f z) eqn:E; rewrite elem_of_cons; naive_solver.
Qed.

Lemma find_update_first f g l x :
  List.find f l = Some x → g x ∈ update_first f g l.
Proof.
  induction l as [|z l IH]; simpl; [done|].
  destruct (f z) eqn:E; intros ?; simplify_eq/=; set_solver.
Qed.

End vec_lemmas.

(** *** Sorted slices *)

Section sorted.
  Context {A : Type} (R : A → A → Prop) (r : A → A → bool).
  Hypothesis r_spec : ∀ x y, r x y = true ↔ R x y.

Lemma windows2_all_Sorted l : windows2_all r l = true ↔ Sorted R l.
Proof.
  induction l as [|x l IH]; simpl; [split; [constructor|done]|]. destruct l as [|y l'].
  - split; [intros; by repeat constructor|done].
  - rewrite andb_true_iff, r_spec, IH. split.
    + intros [??]. constructor; [done|]. by constructor.
    + intros H. apply Sorted_inv in H as [? H]. by inversion H.
Qed.

Lemma windows2_all_StronglySorted `{!Transitive R} l :
  windows2_all r l = true ↔ StronglySorted R l.
Proof.
  rewrite windows2_all_Sorted. split; [|apply StronglySorted_Sorted].
  apply Sorted_StronglySorted. exact (transitivity (R := R)).
Qed.

End sorted.

Lemma StronglySorted_lookup_lt {A} (R : A → A → Prop) l i j x y :
  StronglySorted R l → (i < j)%nat → l !! i = Some x → l !! j = Some y → R x y.
Proof.
  intros Hs. revert i j. induction Hs as [|z l Hs IH Hz]; intros [|i] [|j] Hij Hx Hy; simplify_eq/=; try lia.
  - rewrite Forall_forall in Hz. apply Hz. by eapply list_elem_of_lookup_2.
  - eapply (IH i j); auto; lia.
Qed.

Lemma StronglySorted_NoDup_proj {A B} (R : B → B → Prop) `{!Irreflexive R} (p : A → B) l :
  StronglySorted (λ x y, R (p x) (p y)) l → NoDup (map p l).
Proof.
  induction 1 as [|x l Hs IH Hx]; simpl; [constructor|]. constructor; [|done].
  rewrite list_elem_of_fmap. intros (y&Heq&Hy). rewrite Forall_forall in Hx.
  specialize (Hx y Hy). rewrite Heq in Hx. by eapply (irreflexivity R).
Qed.

Lemma sublist_StronglySorted {A} (R : A → A → Prop) l k :
  l `sublist_of` k → StronglySorted R k → StronglySorted R l.
Proof.
  induction 1 as [|x l k Hl IH|x l k Hl IH]; intros Hk; [done| |].
  - inversion_clear Hk as [|?? Hs Hx]. constructor; [auto|].
    rewrite Forall_forall in *. intros y Hy. apply Hx. by eapply elem_of_sublist.
  - inversion_clear Hk. auto.
Qed.

Lemma StronglySorted_snoc {A} (R : A → A → Prop) l x :
  StronglySorted R l → (∀ y, y ∈ l → R y x) → StronglySorted R (l ++ [x]).
Proof.
  induction 1 as [|y l Hs IH Hy]; intros Hx; simpl; [by repeat constructor|].
  constructor; [apply IH; set_solver|].
  apply Forall_app. split; [done|]. constructor; [apply Hx; set_solver|done].
Qed.

(** *** The stable sort *)

Section stable_sort.
  Context {A : Type} (le : A → A → bool).
  Hypothesis le_total : ∀ x y, le x y = false → le y x = true.
  Hypothesis le_trans : ∀ x y z, le x y = true → le y z = true → le x z = true.

Lemma insert_sorted_perm x l : insert_sorted le x l ≡ₚ x :: l.
Proof.
  induction l as [|y l IH]; simpl; [done|]. destruct (le x y); [done|].
  rewrite IH. apply Permutation_swap.
Qed.

Lemma stable_sort_perm l : stable_sort le l ≡ₚ l.
Proof.
  induction l as [|x l IH]; simpl; [done|]. by rewrite insert_sorted_perm, IH.
Qed.

Lemma insert_sorted_Sorted x l :
  StronglySorted (λ y z, le y z = true) l → StronglySorted (λ y z, le y z = true) (insert_sorted le x l).
Proof.
  induction 1 as [|y l Hs IH Hy]; simpl; [by repeat constructor|].
  destruct (le x y) eqn:E.
  - constructor; [by constructor|]. constructor; [done|].
    rewrite Forall_forall in *. eauto.
  - constructor; [done|]. rewrite Forall_forall in *. intros z.
    rewrite insert_sorted_perm, elem_of_cons. intros [->|?]; auto.
Qed.

Lemma stable_sort_Sorted l : StronglySorted (λ y z, le y z = true) (stable_sort le l).
Proof. induction l; simpl; [constructor|]. by apply insert_sorted_Sorted. Qed.

End stable_sort.

(** *** Counters *)

Lemma next_or_one_lt x : (0 ≤ x < u64_max)%Z → next_or_one x = (x + 1)%Z.
Proof.
  intros Hx. unfold next_or_one, checked_add_u64, u64_max in *.
  destruct (_ <=? _)%Z eqn:E; unbool_hyps; lia.
Qed.

Lemma next_or_one_range x : (0 ≤ x ≤ u64_max)%Z → (1 ≤ next_or_one x ≤ u64_max)%Z.
Proof.
  intros Hx. unfold next_or_one, checked_add_u64, u64_max in *.
  destruct (_ <=? _)%Z eqn:E; unbool_hyps; lia.
Qed.

Lemma wrapping_next_nonzero_range x :
  (0 ≤ x ≤ u64_max)%Z → (1 ≤ wrapping_next_nonzero x ≤ u64_max)%Z.
Proof.
  intros Hx. unfold wrapping_next_nonzero, wrapping_add_u64, u64_max in *.
  pose proof (Z.mod_pos_bound (x + 1) (2 ^ 64) ltac:(lia)). lia.
Qed.

(** The prompt counters never hand out the same value twice in a row. *)
Lemma wrapping_next_nonzero_ne x : (1 ≤ x ≤ u64_max)%Z → wrapping_next_nonzero x ≠ x.
Proof.
  intros Hx. unfold wrapping_next_nonzero, wrapping_add_u64, u64_max in *.
  destruct (decide (x = 2 ^ 64 - 1)%Z) as [->|]; [done|].
  rewrite Z.mod_small by lia. lia.
Qed.

#[export] Hint Resolve next_or_one_range wrapping_next_nonzero_range : rust.
