(* ===== verification/RustStr.v ===== *)
(** * Strings, paths and ordered collections of the Rust standard library

    A Rust [String] or [&str] is the sequence of its UTF-8 bytes, a Rocq
    [string]; [len()] is the number of bytes and [chars().count()] the number
    of bytes that do not continue a code point.  Paths are the byte strings the
    source builds with [join] and [format!], read through [components()] as
    [std::path] does on Unix.  The order on strings is the byte order of
    [Ord for str], [binary_search_by] is the standard library's loop, and the
    iteration order of a [BTreeMap] is the sorted list of its entries. *)

From stdpp Require Import pretty.
From S2P Require Import Prelude.

(** ** Bytes *)

Definition byte_of (a : ascii) : Z := Z.of_N (N_of_ascii a).
Definition byte_in (lo hi : Z) (a : ascii) : bool :=
  (lo <=? byte_of a)%Z && (byte_of a <=? hi)%Z.

Definition is_ascii_lowercase : ascii → bool := byte_in 97 122.
Definition is_ascii_uppercase : ascii → bool := byte_in 65 90.
Definition is_ascii_digit : ascii → bool := byte_in 48 57.
Definition is_ascii_alphanumeric (a : ascii) : bool :=
  is_ascii_lowercase a || is_ascii_uppercase a || is_ascii_digit a.
Definition is_ascii_hexdigit (a : ascii) : bool :=
  is_ascii_digit a || byte_in 97 102 a || byte_in 65 70 a.

Definition bytes (s : string) : list ascii := String.list_ascii_of_string s.

(** [s.bytes().all(f)]. *)
Definition bytes_all (f : ascii → bool) (s : string) : bool := forallb f (bytes s).

(** [s.chars().count()]: every byte but the continuation bytes [10xxxxxx]. *)
Definition chars_count (s : string) : nat :=
  count_if (λ a, negb (byte_in 128 191 a)) (bytes s).

Definition str_is_empty (s : string) : bool :=
  match s with EmptyString => true | _ => false end.

(** [s.as_bytes().first()] and [s.as_bytes().last()]. *)
Definition first_byte (s : string) : option ascii := head (bytes s).
Definition last_byte (s : string) : option ascii := last (bytes s).

Definition starts_with_char (c : ascii) (s : string) : bool :=
  bool_decide (first_byte s = Some c).
Definition ends_with_char (c : ascii) (s : string) : bool :=
  bool_decide (last_byte s = Some c).

(** [s.strip_prefix(p)], [s.starts_with(p)], [s.ends_with(p)]. *)
Fixpoint strip_prefix (p s : string) : option string :=
  match p, s with
  | EmptyString, _ => Some s
  | String _ _, EmptyString => None
  | String a p, String b s => if bool_decide (a = b) then strip_prefix p s else None
  end.
Definition starts_with (p s : string) : bool := bool_decide (is_Some (strip_prefix p s)).
Definition str_rev (s : string) : string :=
  String.string_of_list_ascii (reverse (bytes s)).
Definition ends_with (p s : string) : bool := starts_with (str_rev p) (str_rev s).

(** [s.split(c)], collected: never empty. *)
Fixpoint str_split (c : ascii) (s : string) : list string :=
  match s with
  | EmptyString => [EmptyString]
  | String a s =>
      if bool_decide (a = c) then EmptyString :: str_split c s
      else match str_split c s with
           | [] => [String a EmptyString]
           | p :: ps => String a p :: ps
           end
  end.

(** [s.split_once(c)]. *)
Fixpoint split_once (c : ascii) (s : string) : option (string * string) :=
  match s with
  | EmptyString => None
  | String a s =>
      if bool_decide (a = c) then Some (EmptyString, s)
      else match split_once c s with
           | Some (l, r) => Some (String a l, r)
           | None => None
           end
  end.

(** [parts.join(c)], the inverse of [str_split]. *)
Fixpoint str_join (c : ascii) (ps : list string) : string :=
  match ps with
  | [] => EmptyString
  | p :: ps' => match ps' with [] => p | _ => p +:+ String c (str_join c ps') end
  end.

(** [str::lines]: a line ends with a newline, which may follow a carriage
    return; the last line may lack it. *)
Definition strip_suffix_char (c : ascii) (s : string) : string :=
  match str_rev s with
  | String a t => if bool_decide (a = c) then str_rev t else s
  | EmptyString => s
  end.
Fixpoint lines_of (parts : list string) : list string :=
  match parts with
  | [] => []
  | [p] => if str_is_empty p then [] else [p]
  | p :: ps => strip_suffix_char (ascii_of_nat 13) p :: lines_of ps
  end.
Definition str_lines (s : string) : list string := lines_of (str_split (ascii_of_nat 10) s).

(** [chars().any(char::is_control)]: the control characters are U+0000 to
    U+001F, U+007F and U+0080 to U+009F, of which the last need two bytes. *)
Fixpoint control_in (l : list ascii) : bool :=
  match l with
  | [] => false
  | a :: l' =>
      byte_in 0 31 a || byte_in 127 127 a
      || byte_in 194 194 a && match l' with b :: _ => byte_in 128 159 b | [] => false end
      || control_in l'
  end.
Definition has_control (s : string) : bool := control_in (bytes s).

(** The encodings of the characters with the property White_Space, which are
    what [char::is_whitespace] and [str::trim] recognise.  UTF-8 synchronises
    itself: where such a sequence of bytes occurs, the character occurs. *)
Definition whitespace_chars : list (list ascii) :=
  map (map (λ z, ascii_of_N (Z.to_N z)))
    ([[9]; [10]; [11]; [12]; [13]; [32]; [194; 133]; [194; 160]; [225; 154; 128]]
     ++ map (λ k, [226; 128; 128 + k]) [0; 1; 2; 3; 4; 5; 6; 7; 8; 9; 10; 40; 41; 47]
     ++ [[226; 129; 159]; [227; 128; 128]])%Z.
Definition whitespace_first (l : list ascii) : bool := existsb (λ c, bool_decide (c `prefix_of` l)) whitespace_chars.
Definition whitespace_last (l : list ascii) : bool := existsb (λ c, bool_decide (c `suffix_of` l)) whitespace_chars.
Fixpoint whitespace_in (l : list ascii) : bool :=
  match l with [] => false | a :: l' => whitespace_first l || whitespace_in l' end.
(** [value.trim() == value]. *)
Definition is_trimmed (s : string) : bool := negb (whitespace_first (bytes s)) && negb (whitespace_last (bytes s)).

(** [str::contains] of a string. *)
Fixpoint str_contains (p s : string) : bool :=
  starts_with p s || match s with EmptyString => false | String _ s' => str_contains p s' end.

(** [str::split_ascii_whitespace]. *)
Definition is_ascii_whitespace (a : ascii) : bool :=
  bool_decide (byte_of a ∈ [9; 10; 12; 13; 32]%Z).
Definition split_ascii_whitespace (s : string) : list string :=
  List.filter (λ w, negb (str_is_empty w))
    (str_split " " (String.string_of_list_ascii
       (map (λ a, if is_ascii_whitespace a then " "%char else a) (bytes s)))).

(** [format!] of an unsigned integer. *)
Definition decimal (n : Z) : string := pretty (Z.to_N n).

(** ** Ordering *)

Definition str_ltb (s t : string) : bool := String.ltb s t.
Definition str_leb (s t : string) : bool := String.leb s t.

(** [slice.binary_search_by(cmp)]: the loop of the standard library. *)
Fixpoint bs_loop {A} (fuel : nat) (cmp : A → comparison) (l : list A) (base size : nat) : nat :=
  match fuel with
  | 0 => base
  | S fuel =>
      if (size <=? 1)%nat then base
      else
        let half := size `div` 2 in
        let mid := base + half in
        let base' := match cmp <$> l !! mid with
                     | Some Gt | None => base
                     | Some _ => mid
                     end in
        bs_loop fuel cmp l base' (size - half)
  end.

Definition binary_search_by {A} (cmp : A → comparison) (l : list A) : result nat nat :=
  match l with
  | [] => Err 0
  | _ =>
      let base := bs_loop (length l) cmp l 0 (length l) in
      match cmp <$> l !! base with
      | Some Eq => Ok base
      | Some Lt => Err (S base)
      | Some Gt => Err base
      | None => Panicked
      end
  end.

(** [BTreeMap::iter()]: the entries in key order. *)
Definition btree_iter {K V} `{Countable K} (leb : K → K → bool) (m : gmap K V) : list (K * V) :=
  stable_sort (λ x y, leb x.1 y.1) (map_to_list m).

(** ** Paths *)

Inductive Component := RootDir | CurDir | ParentDir | Normal (s : string).

Global Instance Component_eq_dec : EqDecision Component.
Proof. solve_decision. Defined.

Definition slash : ascii := "/".
Definition dot : ascii := ".".

Definition component_of (part : string) : option Component :=
  if str_is_empty part || bool_decide (part = ".") then None
  else if bool_decide (part = "..") then Some ParentDir
  else Some (Normal part).

(** [Path::components()] on Unix: empty parts and inner [.] are skipped, a
    leading [.] of a relative path is kept. *)
Definition path_components (p : string) : list Component :=
  let parts := str_split slash p in
  if starts_with_char slash p then RootDir :: omap component_of parts
  else match parts with
       | d :: _ => if bool_decide (d = ".") then CurDir :: omap component_of parts
                   else omap component_of parts
       | [] => []
       end.

Definition path_is_absolute (p : string) : bool := starts_with_char slash p.

(** [Path::file_name()]. *)
Definition path_file_name (p : string) : option string :=
  match last (path_components p) with Some (Normal s) => Some s | _ => None end.

(** [Path::extension()]: what follows the last dot of the file name, unless the
    dot is missing or leads the name. *)
Definition path_extension (p : string) : option string :=
  match path_file_name p with
  | None => None
  | Some name =>
      match reverse (str_split dot name) with
      | ext :: (_ :: _) as rest =>
          if bool_decide (name = String dot ext) then None else Some ext
      | _ => None
      end
  end.

(** [Path::join()]. *)
Definition path_join (base p : string) : string :=
  if path_is_absolute p then p
  else if str_is_empty base || ends_with_char slash base then base +:+ p
  else base +:+ String slash p.

Definition component_text (c : Component) : string :=
  match c with RootDir => EmptyString | CurDir => "." | ParentDir => ".." | Normal s => s end.

(** [Path::parent()], for the normalized paths the source uses: the last
    component is dropped and the rest written again. *)
Definition path_parent (p : string) : option string :=
  match reverse (path_components p) with
  | [] | RootDir :: _ => None
  | _ :: rest =>
      Some (match reverse rest with
            | [RootDir] => "/"
            | cs => str_join slash (map component_text cs)
            end)
  end.

(** ** Lemmas on bytes and splitting *)

Local Arguments String.append !_ _ / : simpl nomatch.

Lemma bytes_app s t : bytes (s +:+ t) = bytes s ++ bytes t.
Proof. induction s as [|a s IH]; simpl; [done|]. unfold bytes in *. simpl. by rewrite IH. Qed.

Lemma length_bytes s : length (bytes s) = String.length s.
Proof. induction s as [|a s IH]; simpl; [done|]. unfold bytes in *. simpl. by rewrite IH. Qed.

Lemma str_length_app s t : String.length (s +:+ t) = (String.length s + String.length t)%nat.
Proof. by rewrite <- !length_bytes, bytes_app, length_app. Qed.

Lemma bytes_all_cons f a s : bytes_all f (String a s) = f a && bytes_all f s.
Proof. done. Qed.

Lemma bytes_all_app f s t : bytes_all f (s +:+ t) = bytes_all f s && bytes_all f t.
Proof. unfold bytes_all. by rewrite bytes_app, forallb_app. Qed.

Lemma bytes_all_impl f g s :
  (∀ a, f a = true → g a = true) → bytes_all f s = true → bytes_all g s = true.
Proof.
  intros Hfg. induction s as [|a s IH]; [done|].
  rewrite !bytes_all_cons, !andb_true_iff. intros [??]. auto.
Qed.

Lemma str_app_assoc s t u : (s +:+ t) +:+ u = s +:+ (t +:+ u).
Proof. induction s as [|a s IH]; [done|]. simpl. f_equal. exact IH. Qed.

Lemma str_app_nil_r s : s +:+ EmptyString = s.
Proof. induction s as [|a s IH]; [done|]. simpl. f_equal. exact IH. Qed.

Lemma str_split_nonempty c s : str_split c s ≠ [].
Proof. destruct s as [|a s]; simpl; [done|]. case_bool_decide; [done|]. by destruct (str_split c s). Qed.

(** Splitting loses nothing. *)
Lemma str_join_split c s : str_join c (str_split c s) = s.
Proof.
  induction s as [|a s IH]; [done|]. simpl str_split. case_bool_decide as Hac.
  - subst. simpl. pose proof (str_split_nonempty c s).
    destruct (str_split c s) as [|p ps]; [done|]. by rewrite IH.
  - pose proof (str_split_nonempty c s).
    destruct (str_split c s) as [|p ps]; [done|]. simpl in *.
    destruct ps; simpl in *; by rewrite IH.
Qed.

Lemma str_split_app c s t :
  str_split c (s +:+ String c t) = str_split c s ++ str_split c t.
Proof.
  induction s as [|a s IH]; simpl; [by rewrite bool_decide_eq_true_2|].
  case_bool_decide; [by rewrite IH|]. rewrite IH.
  pose proof (str_split_nonempty c s). by destruct (str_split c s).
Qed.

Lemma str_split_single c s :
  bytes_all (λ a, negb (bool_decide (a = c))) s = true → str_split c s = [s].
Proof.
  induction s as [|a s IH]; [done|]. rewrite bytes_all_cons. simpl. intros H. unbool_hyps.
  rewrite bool_decide_eq_false_2 by done. by rewrite IH.
Qed.

(** A class of bytes that holds of every part holds of the whole but for the
    separator. *)
Lemma str_split_bytes_all c f s :
  Forall (λ p, bytes_all f p = true) (str_split c s) →
  bytes_all (λ a, f a || bool_decide (a = c)) s = true.
Proof.
  induction s as [|a s IH]; [done|]. simpl str_split. rewrite bytes_all_cons.
  case_bool_decide as Hac.
  - intros [_ H]%Forall_cons. by rewrite (IH H), orb_true_r.
  - pose proof (str_split_nonempty c s).
    destruct (str_split c s) as [|p ps]; [done|].
    rewrite Forall_cons, bytes_all_cons, andb_true_iff. intros [[Ha Hp] Hps].
    rewrite Ha. simpl. apply IH. by constructor.
Qed.

(** The separator never occurs in a part. *)
Lemma str_split_no_sep c s :
  Forall (λ p, bytes_all (λ a, negb (bool_decide (a = c))) p = true) (str_split c s).
Proof.
  induction s as [|a s IH]; simpl; [by repeat constructor|]. case_bool_decide as Hac.
  - by constructor.
  - destruct (str_split c s) as [|p ps]; inversion IH; subst; constructor; auto;
      rewrite bytes_all_cons, bool_decide_eq_false_2 by done; done.
Qed.

Lemma strip_prefix_app p s : strip_prefix p (p +:+ s) = Some s.
Proof. induction p as [|a p IH]; simpl; [done|]. rewrite bool_decide_eq_true_2 by done. done. Qed.

Lemma strip_prefix_Some p s t : strip_prefix p s = Some t → s = p +:+ t.
Proof.
  revert s. induction p as [|a p IH]; intros s; cbn [strip_prefix]; [intros [= ->]; reflexivity|].
  destruct s as [|b s]; [done|]. case_bool_decide; [|done]. intros Hs. subst.
  change (String b s = String b (p +:+ t)). f_equal. auto.
Qed.

Lemma starts_with_app p s : starts_with p (p +:+ s) = true.
Proof. unfold starts_with. rewrite strip_prefix_app. by apply bool_decide_eq_true_2. Qed.

Lemma split_once_Some c s l r :
  split_once c s = Some (l, r) → s = l +:+ String c r.
Proof.
  revert l. induction s as [|a s IH]; intros l; simpl; [done|].
  case_bool_decide; [by intros; simplify_eq|].
  destruct (split_once c s) as [[l' r']|] eqn:E; intros; simplify_eq/=. by rewrite (IH l').
Qed.

(** ** The string order *)

Definition str_lt (s t : string) : Prop := String.compare s t = Lt.

Lemma str_compare_refl s : String.compare s s = Eq.
Proof.
  pose proof (String.compare_antisym s s) as H. destruct (String.compare s s); done.
Qed.

Lemma ascii_compare_refl a : Ascii.compare a a = Eq.
Proof. unfold Ascii.compare. by rewrite N.compare_refl. Qed.

Global Instance str_lt_irrefl : Irreflexive str_lt.
Proof. intros s. unfold complement, str_lt. by rewrite str_compare_refl. Qed.

Global Instance str_lt_trans : Transitive str_lt.
Proof.
  unfold str_lt. intros s. induction s as [|a s IH]; intros [|b t] [|c u]; simpl; try done.
  unfold Ascii.compare.
  destruct (N.compare_spec (N_of_ascii a) (N_of_ascii b)) as [Hab|Hab|Hab]; try done;
    destruct (N.compare_spec (N_of_ascii b) (N_of_ascii c)) as [Hbc|Hbc|Hbc]; try done;
    destruct (N.compare_spec (N_of_ascii a) (N_of_ascii c)) as [Hac|Hac|Hac]; try done;
    try lia. apply IH.
Qed.

Lemma str_ltb_lt s t : str_ltb s t = true ↔ str_lt s t.
Proof. unfold str_ltb, String.ltb, str_lt. by destruct (String.compare s t). Qed.

Lemma str_compare_Gt s t : String.compare s t = Gt ↔ str_lt t s.
Proof.
  unfold str_lt. rewrite (String.compare_antisym s t). by destruct (String.compare t s).
Qed.

Lemma str_compare_Eq s t : String.compare s t = Eq ↔ s = t.
Proof. split; [apply String.compare_eq_iff|intros ->; apply str_compare_refl]. Qed.

(** ** Binary search *)

Section binary_search.
  Context {A : Type} (cmp : A → comparison) (l : list A).
  (** The three-way comparison splits the slice into a smaller part, at most
      one equal element and a greater part. *)
  Hypothesis cmp_sorted : ∀ i j x y,
    (i < j)%nat → l !! i = Some x → l !! j = Some y → cmp x = Lt ∨ cmp y = Gt.

Lemma bs_loop_finds fuel base size k x :
  (size ≤ fuel)%nat → (base + size ≤ length l)%nat →
  l !! k = Some x → cmp x = Eq → (base ≤ k < base + size)%nat →
  bs_loop fuel cmp l base size = k.
Proof.
  revert base size. induction fuel as [|fuel IH]; intros base size Hf Hlen Hk Hx Hbk; cbn [bs_loop]; [lia|].
  destruct (size <=? 1)%nat eqn:Hs; unbool_hyps; [lia|].
  pose proof (Nat.div_lt size 2 ltac:(lia) ltac:(lia)).
  assert (0 < size `div` 2)%nat by (apply Nat.div_str_pos; lia).
  assert (2 * (size `div` 2) ≤ size)%nat by (apply Nat.Div0.mul_div_le).
  set (half := size `div` 2) in *. clearbody half.
  destruct (lookup_lt_is_Some_2 l (base + half) ltac:(lia)) as [y Hy].
  rewrite Hy. simpl. destruct (decide (k < base + half)%nat) as [Hlt|Hge].
  - destruct (cmp_sorted _ _ _ _ Hlt Hk Hy) as [?|Hgt]; [congruence|].
    rewrite Hgt. apply IH; auto; lia.
  - assert (cmp y ≠ Gt) as Hny.
    { intros Hgt. destruct (decide (k = base + half)%nat) as [->|]; [congruence|].
      assert (base + half < k)%nat as Hlt by lia.
      destruct (cmp_sorted _ _ _ _ Hlt Hy Hk); congruence. }
    destruct (cmp y); try done; apply IH; auto; lia.
Qed.

Lemma binary_search_by_ok : is_ok (binary_search_by cmp l) = true ↔ ∃ x, x ∈ l ∧ cmp x = Eq.
Proof.
  unfold binary_search_by. split.
  - destruct l as [|z l']; [done|]. destruct (_ !! bs_loop _ _ _ _ _) as [y|] eqn:Hy; simpl; [|done].
    destruct (cmp y) eqn:E; try done. intros _. exists y. split; [|done].
    by apply list_elem_of_lookup_2 in Hy.
  - intros (x&Hx&HEq). apply list_elem_of_lookup in Hx as [k Hk].
    pose proof (lookup_lt_Some _ _ _ Hk).
    rewrite (bs_loop_finds (length l) 0 (length l) k x); auto with lia.
    rewrite Hk. simpl. rewrite HEq. destruct l; [done|]. done.
Qed.

End binary_search.

(** The loop stays inside of the slice, whatever the order of its elements. *)
Lemma bs_loop_bound {A} fuel (cmp : A → comparison) l base size :
  (1 ≤ size)%nat → (base + size ≤ length l)%nat → (bs_loop fuel cmp l base size < length l)%nat.
Proof.
  revert base size. induction fuel as [|fuel IH]; intros base size Hs Hl; cbn [bs_loop]; [lia|].
  destruct (size <=? 1)%nat eqn:E; unbool_hyps; [lia|].
  pose proof (Nat.div_lt size 2 ltac:(lia) ltac:(lia)). assert (0 < size `div` 2)%nat by (apply Nat.div_str_pos; lia).
  repeat case_match; apply IH; lia.
Qed.

Lemma binary_search_by_spec {A} (cmp : A → comparison) l :
  match binary_search_by cmp l with
  | Ok i => ∃ x, l !! i = Some x ∧ cmp x = Eq
  | Err _ => True
  | Panicked => False
  end.
Proof.
  unfold binary_search_by. destruct l as [|y l']; [done|]. set (l := y :: l').
  destruct (lookup_lt_is_Some_2 l (bs_loop (length l) cmp l 0 (length l))) as [x Hx].
  { apply bs_loop_bound; simpl; lia. }
  rewrite Hx. simpl. destruct (cmp x) eqn:E; [|done|done]. eauto.
Qed.

(** Membership by binary search, for slices validated as strictly sorted. *)
Lemma binary_search_str l s :
  StronglySorted str_lt l →
  is_ok (binary_search_by (λ candidate, String.compare candidate s) l) = true ↔ s ∈ l.
Proof.
  intros Hs. rewrite binary_search_by_ok.
  - setoid_rewrite str_compare_Eq. naive_solver.
  - intros i j x y Hij Hx Hy. rewrite str_compare_Gt.
    pose proof (StronglySorted_lookup_lt _ _ _ _ _ _ Hs Hij Hx Hy) as Hxy.
    destruct (String.compare x s) eqn:E; auto; right.
    + apply str_compare_Eq in E as ->. done.
    + apply str_compare_Gt in E. by transitivity x.
Qed.

(** ** Ordered maps *)

Lemma btree_iter_perm {K V} `{Countable K} leb (m : gmap K V) :
  btree_iter leb m ≡ₚ map_to_list m.
Proof. apply stable_sort_perm. Qed.

Lemma elem_of_btree_iter {K V} `{Countable K} leb (m : gmap K V) k v :
  (k, v) ∈ btree_iter leb m ↔ m !! k = Some v.
Proof. by rewrite btree_iter_perm, elem_of_map_to_list. Qed.

Lemma NoDup_btree_iter_keys {K V} `{Countable K} leb (m : gmap K V) :
  NoDup (btree_iter leb m).*1.
Proof. rewrite btree_iter_perm. apply NoDup_fst_map_to_list. Qed.

(** ** Decimal numbers *)

Lemma decimal_inj m n : (0 ≤ m)%Z → (0 ≤ n)%Z → decimal m = decimal n → m = n.
Proof. unfold decimal. intros ?? H. apply (inj pretty) in H. lia. Qed.

Lemma pretty_N_char_digit x : is_ascii_digit (pretty_N_char x) = true.
Proof. unfold pretty_N_char. by repeat case_match. Qed.

Lemma pretty_N_char_nonzero x : (0 < x < 10)%N → pretty_N_char x ≠ "0"%char.
Proof. intros Hx Heq. apply (pretty_N_char_inj x 0) in Heq; lia. Qed.

Lemma pretty_N_go_digits x s :
  bytes_all is_ascii_digit s = true → bytes_all is_ascii_digit (pretty_N_go x s) = true.
Proof.
  revert s. induction (N.lt_wf_0 x) as [x _ IH]; intros s Hs.
  destruct (decide (x = 0)%N) as [->|]; [by rewrite pretty_N_go_0|].
  rewrite pretty_N_go_step by lia. apply IH; [by apply N.div_lt; lia|].
  by rewrite bytes_all_cons, pretty_N_char_digit, Hs.
Qed.

Lemma pretty_N_go_first x s :
  (0 < x)%N → ∃ a t, pretty_N_go x s = String a t ∧ a ≠ "0"%char.
Proof.
  revert s. induction (N.lt_wf_0 x) as [x _ IH]; intros s Hx.
  rewrite pretty_N_go_step by done. destruct (decide (x < 10)%N) as [Hlt|Hge].
  - rewrite N.div_small, pretty_N_go_0, N.mod_small by done.
    eexists _, _. split; [done|]. by apply pretty_N_char_nonzero.
  - apply IH; [by apply N.div_lt|]. apply N.div_str_pos. lia.
Qed.

Lemma decimal_digits n : bytes_all is_ascii_digit (decimal n) = true.
Proof.
  unfold decimal, pretty, pretty_N. case_decide; [done|]. by apply pretty_N_go_digits.
Qed.

(** The decimal form has a leading zero only for zero. *)
Lemma decimal_first n : decimal n = "0" ∨ ∃ a t, decimal n = String a t ∧ a ≠ "0"%char.
Proof.
  unfold decimal, pretty, pretty_N. case_decide; [by left|]. right. apply pretty_N_go_first. lia.
Qed.

Lemma split_once_None c s :
  bytes_all (λ a, negb (bool_decide (a = c))) s = true → split_once c s = None.
Proof.
  induction s as [|a s IH]; [done|]. rewrite bytes_all_cons. simpl. intros H. unbool_hyps.
  rewrite bool_decide_eq_false_2 by done. by rewrite IH.
Qed.

(** ** Paths *)

(** A byte string that names one directory entry: not empty, not [.] or [..],
    without a slash. *)
Definition plain_name (s : string) : Prop :=
  s ≠ EmptyString ∧ s ≠ "." ∧ s ≠ ".." ∧ bytes_all (λ a, negb (bool_decide (a = slash))) s = true.

Lemma component_of_plain s : plain_name s → component_of s = Some (Normal s).
Proof.
  intros (?&?&?&?). unfold component_of. rewrite !bool_decide_eq_false_2 by done. by destruct s.
Qed.

Lemma plain_name_not_absolute s : plain_name s → path_is_absolute s = false.
Proof.
  intros (?&_&_&Hs). unfold path_is_absolute, starts_with_char, first_byte.
  destruct s as [|a s]; [done|]. rewrite bytes_all_cons in Hs. unbool_hyps.
  apply bool_decide_eq_false_2. simpl. naive_solver.
Qed.

Lemma starts_with_char_app c s t :
  s ≠ EmptyString → starts_with_char c (s +:+ t) = starts_with_char c s.
Proof. by destruct s. Qed.

Lemma last_byte_snoc s c : last_byte s = Some c → ∃ s', s = s' +:+ String c EmptyString.
Proof.
  induction s as [|a s IH]; [done|]. unfold last_byte, bytes in *. simpl.
  destruct s as [|b s]; simpl in *.
  - intros [= ->]. by exists EmptyString.
  - intros H. destruct (IH H) as [s' Hs']. exists (String a s'). simpl. by rewrite Hs'.
Qed.

Lemma path_components_relative p :
  path_is_absolute p = false → head (str_split slash p) ≠ Some "." →
  path_components p = omap component_of (str_split slash p).
Proof.
  unfold path_is_absolute, path_components. intros -> Hp.
  destruct (str_split slash p) as [|d ps]; [done|]. simpl in Hp.
  rewrite bool_decide_eq_false_2 by congruence. done.
Qed.

(** Joining a relative path onto an absolute one appends its components: the
    result stays below the base unless the path itself climbs. *)
Lemma path_components_join_rel base p :
  path_is_absolute base = true → path_is_absolute p = false →
  head (str_split slash p) ≠ Some "." →
  path_components (path_join base p) = path_components base ++ path_components p.
Proof.
  intros Hbase Hrel Hdot. rewrite (path_components_relative p) by done.
  assert (base ≠ EmptyString) as Hne by (by intros ->).
  unfold path_join. rewrite Hrel. unfold path_is_absolute in Hbase.
  assert (str_is_empty base = false) as -> by (by destruct base). simpl.
  destruct (ends_with_char slash base) eqn:E; unfold path_components;
    rewrite starts_with_char_app by done; rewrite Hbase.
  - unfold ends_with_char in E. unbool_hyps. apply last_byte_snoc in E as [b' ->].
    rewrite str_app_assoc. simpl. rewrite !str_split_app, !omap_app. simpl.
    by rewrite app_nil_r.
  - by rewrite str_split_app, omap_app.
Qed.

Lemma path_join_absolute base p :
  path_is_absolute base = true → path_is_absolute (path_join base p) = true.
Proof.
  intros Hbase. assert (base ≠ EmptyString) as Hne by (by intros ->).
  unfold path_join. destruct (path_is_absolute p) eqn:E; [done|]. unfold path_is_absolute in *.
  destruct (_ || _); by rewrite starts_with_char_app.
Qed.

(** Joining a plain name appends exactly one component. *)
Lemma path_components_join base s :
  path_is_absolute base = true → plain_name s →
  path_components (path_join base s) = path_components base ++ [Normal s].
Proof.
  intros Hbase Hs. pose proof (plain_name_not_absolute _ Hs) as Habs.
  pose proof (component_of_plain _ Hs) as Hc. destruct Hs as (_&Hd&_&Hs).
  apply str_split_single in Hs.
  rewrite path_components_join_rel; [|done|done|rewrite Hs; simpl; congruence].
  rewrite (path_components_relative s) by (done || (rewrite Hs; simpl; congruence)).
  rewrite Hs. simpl. by rewrite Hc.
Qed.

(** The components of a path that starts with [.] are not all normal. *)
Lemma all_normal_no_dot p :
  path_is_absolute p = false →
  Forall (λ c, ∃ s, c = Normal s) (path_components p) →
  head (str_split slash p) ≠ Some ".".
Proof.
  unfold path_is_absolute, path_components. intros -> Hall Hd.
  destruct (str_split slash p) as [|d ps]; [done|]. simplify_eq/=.
  apply Forall_cons in Hall as [[? ?] _]. done.
Qed.

Lemma component_of_Normal part s : component_of part = Some (Normal s) → s = part.
Proof. unfold component_of. repeat case_match; naive_solver. Qed.

(** A file name is a plain name. *)
Lemma path_file_name_plain p s : path_file_name p = Some s → plain_name s.
Proof.
  unfold path_file_name. destruct (last _) as [[]|] eqn:Hl; try done. intros [= ->].
  apply last_Some_elem_of in Hl.
  assert (∃ part, part ∈ str_split slash p ∧ component_of part = Some (Normal s)) as (part&Hin&Hc).
  { assert (Normal s ∈ omap component_of (str_split slash p)) as Ho.
    { unfold path_components in Hl. destruct (starts_with_char _ _).
      - by apply elem_of_cons in Hl as [|].
      - destruct (str_split slash p) as [|d ps]; [done|]. case_bool_decide; [|done].
        by apply elem_of_cons in Hl as [|]. }
    apply list_elem_of_omap in Ho as (part&?&?). eauto. }
  pose proof (component_of_Normal _ _ Hc) as ->.
  pose proof (str_split_no_sep slash p) as Hns. rewrite Forall_forall in Hns.
  unfold plain_name. split_and!; [..|by apply Hns]; intros ->; by vm_compute in Hc.
Qed.

Lemma path_file_name_join base s :
  path_is_absolute base = true → plain_name s → path_file_name (path_join base s) = Some s.
Proof.
  intros. unfold path_file_name. by rewrite path_components_join, last_snoc.
Qed.

Lemma path_components_absolute p :
  path_is_absolute p = true → ∃ cs, path_components p = RootDir :: cs.
Proof. unfold path_is_absolute, path_components. intros ->. eauto. Qed.

Lemma path_parent_absolute p q :
  path_is_absolute p = true → path_parent p = Some q → path_is_absolute q = true.
Proof.
  intros [cs Hcs]%path_components_absolute. unfold path_parent. rewrite Hcs.
  destruct cs as [|c cs _] using rev_ind; [done|].
  rewrite (app_comm_cons cs [c] RootDir), reverse_snoc.
  destruct c; try done; rewrite reverse_involutive; destruct cs; by intros [= <-].
Qed.

(** ** Directory entries *)

Lemma last_byte_app s t : t ≠ EmptyString → last_byte (s +:+ t) = last_byte t.
Proof.
  intros Ht. induction s as [|a s IH]; [done|]. unfold last_byte, bytes in *. simpl. rewrite <- IH.
  by destruct s, t.
Qed.

Lemma plain_name_last s : plain_name s → last_byte s ≠ Some slash.
Proof.
  intros (_&_&_&Hs) Hl. unfold last_byte in Hl. apply last_Some_elem_of in Hl.
  unfold bytes_all in Hs. eapply forallb_forall in Hs; [|by apply list_elem_of_In]. by rewrite bool_decide_eq_true_2 in Hs.
Qed.

Lemma decimal_no_slash k : bytes_all (λ a, negb (bool_decide (a = slash))) (decimal k) = true.
Proof.
  eapply bytes_all_impl, (decimal_digits k). intros a Ha. rewrite bool_decide_eq_false_2; [done|]. by intros ->.
Qed.

(** The directory part of [path_join base s]: it depends on [base] only. *)
Definition join_prefix (base : string) : string :=
  if str_is_empty base || ends_with_char slash base then base else base +:+ "/".

Lemma path_join_plain base s : plain_name s → path_join base s = join_prefix base +:+ s.
Proof.
  intros Hs. unfold path_join, join_prefix. rewrite plain_name_not_absolute by done.
  destruct (_ || _); [done|]. by rewrite str_app_assoc.
Qed.

Lemma path_join_entry base s t :
  plain_name s → plain_name t → path_join (path_join base s) t = path_join base s +:+ "/" +:+ t.
Proof.
  intros Hs Ht. rewrite (path_join_plain _ t) by done. unfold join_prefix.
  assert (str_is_empty (path_join base s) = false) as ->.
  { rewrite path_join_plain by done. destruct Hs as (Hs&_). by destruct (join_prefix base), s. }
  assert (ends_with_char slash (path_join base s) = false) as ->.
  { apply bool_decide_eq_false_2. rewrite path_join_plain by done. rewrite last_byte_app by apply Hs.
    by apply plain_name_last. }
  simpl. by rewrite str_app_assoc.
Qed.

(** A plain name ends at the first slash. *)
Lemma plain_app_slash s t u v :
  bytes_all (λ a, negb (bool_decide (a = slash))) s = true → bytes_all (λ a, negb (bool_decide (a = slash))) t = true →
  s +:+ String slash u = t +:+ String slash v → s = t ∧ u = v.
Proof.
  revert t. induction s as [|a s IH]; intros [|b t]; rewrite ?bytes_all_cons; intros Hs Ht Heq;
    cbn [String.append] in Heq; injection Heq; clear Heq.
  - done.
  - intros _ <-. unbool_hyps. done.
  - intros _ ->. unbool_hyps. done.
  - intros Heq <-. apply andb_true_iff in Hs as [_ Hs], Ht as [_ Ht]. destruct (IH t Hs Ht) as [-> ->]; done.
Qed.
Lemma plain_no_slash s t u :
  bytes_all (λ a, negb (bool_decide (a = slash))) s = true → s ≠ t +:+ String slash u.
Proof.
  intros Hs ->. rewrite bytes_all_app, bytes_all_cons in Hs. unbool_hyps. done.
Qed.
