(* ===== verification/Bytes.v ===== *)
(** * Byte strings (little-endian fields, cursors and UTF-8)

    What the binary formats of the source use of the Rust standard library:
    [to_le_bytes]/[from_le_bytes] and [to_be_bytes] of unsigned integers, a
    [Cursor<&[u8]>] read with [read_exact] (the cursor is the bytes that are
    left), and the check of [String::from_utf8].

    The lemmas: an integer survives its little-endian bytes when it fits, bytes
    survive their integer, a cursor gives back what was put in front of it and
    what it gives was in front of it; a prefix of fixed length determines the
    rest. *)

From S2P Require Import Prelude RustStr.

(** ** Integers as bytes *)

Definition byte_of_Z (z : Z) : ascii := ascii_of_N (Z.to_N (z mod 256)).

(** The [n] little-endian bytes of [z]. *)
Fixpoint le_bytes (n : nat) (z : Z) : list ascii :=
  match n with 0 => [] | S n => byte_of_Z z :: le_bytes n (z / 256) end.

Fixpoint le_value (l : list ascii) : Z :=
  match l with [] => 0 | b :: l => byte_of b + 256 * le_value l end.

Definition be_bytes (n : nat) (z : Z) : list ascii := reverse (le_bytes n z).

Lemma byte_of_range b : (0 ≤ byte_of b < 256)%Z.
Proof. unfold byte_of. pose proof (N_ascii_bounded b). lia. Qed.

Lemma byte_of_of_Z z : byte_of (byte_of_Z z) = (z mod 256)%Z.
Proof.
  unfold byte_of, byte_of_Z. pose proof (Z.mod_pos_bound z 256 ltac:(lia)).
  rewrite N_ascii_embedding by lia. lia.
Qed.

Lemma byte_of_Z_of b : byte_of_Z (byte_of b) = b.
Proof.
  pose proof (byte_of_range b) as Hb. unfold byte_of_Z. rewrite Z.mod_small by lia.
  unfold byte_of. by rewrite N2Z.id, ascii_N_embedding.
Qed.

Lemma byte_of_inj b c : byte_of b = byte_of c → b = c.
Proof. intros Hbc. by rewrite <- (byte_of_Z_of b), Hbc, byte_of_Z_of. Qed.

Lemma length_le_bytes n z : length (le_bytes n z) = n.
Proof. revert z. induction n; intros z; simpl; auto. Qed.

Lemma length_be_bytes n z : length (be_bytes n z) = n.
Proof. unfold be_bytes. by rewrite length_reverse, length_le_bytes. Qed.

Lemma le_value_bytes n z : (0 ≤ z < 256 ^ Z.of_nat n)%Z → le_value (le_bytes n z) = z.
Proof.
  revert z. induction n as [|n IH]; intros z Hz; cbn [le_bytes le_value].
  - change (256 ^ Z.of_nat 0)%Z with 1%Z in Hz. lia.
  - rewrite Nat2Z.inj_succ, Z.pow_succ_r in Hz by lia. rewrite byte_of_of_Z, IH.
    + pose proof (Z.div_mod z 256). lia.
    + split; [apply Z.div_pos; lia|apply Z.div_lt_upper_bound; lia].
Qed.

Lemma le_value_range l : (0 ≤ le_value l < 256 ^ Z.of_nat (length l))%Z.
Proof.
  induction l as [|b l IH]; cbn [le_value length]; [done|]. pose proof (byte_of_range b).
  rewrite Nat2Z.inj_succ, Z.pow_succ_r by lia. lia.
Qed.

Lemma le_bytes_value l : le_bytes (length l) (le_value l) = l.
Proof.
  induction l as [|b l IH]; cbn [le_value length le_bytes]; [done|]. pose proof (byte_of_range b).
  rewrite (Z.add_comm (byte_of b)), (Z.mul_comm 256). f_equal.
  - rewrite <- (byte_of_Z_of b) at 2. unfold byte_of_Z. rewrite Z.add_comm, Z.mod_add by lia. done.
  - rewrite Z.div_add_l by lia. rewrite (Z.div_small (byte_of b)) by lia. by rewrite Z.add_0_r.
Qed.

Lemma le_bytes_inj n y z :
  (0 ≤ y < 256 ^ Z.of_nat n)%Z → (0 ≤ z < 256 ^ Z.of_nat n)%Z → le_bytes n y = le_bytes n z → y = z.
Proof. intros Hy Hz Heq. by rewrite <- (le_value_bytes n y), Heq, le_value_bytes. Qed.

Lemma be_bytes_inj n y z :
  (0 ≤ y < 256 ^ Z.of_nat n)%Z → (0 ≤ z < 256 ^ Z.of_nat n)%Z → be_bytes n y = be_bytes n z → y = z.
Proof. intros Hy Hz Heq. apply (le_bytes_inj n); [done..|]. by apply (inj reverse). Qed.

(** ** Cursors *)

Definition cursor : Type := list ascii.

(** [reader.read_exact(&mut [0; n])]: the bytes and the cursor behind them. *)
Definition read_exact (n : nat) (c : cursor) : option (list ascii * cursor) :=
  if (length c <? n)%nat then None else Some (take n c, drop n c).

Lemma read_exact_app n l c : length l = n → read_exact n (l ++ c) = Some (l, c).
Proof.
  intros <-. unfold read_exact. rewrite length_app. rewrite (proj2 (Nat.ltb_ge _ _)) by lia.
  by rewrite take_app_length, drop_app_length.
Qed.

Lemma read_exact_Some n c l c' : read_exact n c = Some (l, c') ↔ c = l ++ c' ∧ length l = n.
Proof.
  split; [|intros [-> Hl]; by apply read_exact_app].
  unfold read_exact. destruct (length c <? n)%nat eqn:Hn; [done|]. intros [= <- <-]. unbool_hyps.
  by rewrite take_drop, length_take_le.
Qed.

(** [from_le_bytes] of the next [n] bytes. *)
Definition read_le (n : nat) (c : cursor) : option (Z * cursor) :=
  match read_exact n c with Some (l, c) => Some (le_value l, c) | None => None end.

Lemma read_le_app n z c : (0 ≤ z < 256 ^ Z.of_nat n)%Z → read_le n (le_bytes n z ++ c) = Some (z, c).
Proof. intros Hz. unfold read_le. rewrite read_exact_app by apply length_le_bytes. by rewrite le_value_bytes. Qed.

Lemma read_le_Some n c z c' : read_le n c = Some (z, c') → c = le_bytes n z ++ c' ∧ (0 ≤ z < 256 ^ Z.of_nat n)%Z.
Proof.
  unfold read_le. destruct (read_exact n c) as [[l r]|] eqn:Hr; [|done]. intros [= <- <-].
  apply read_exact_Some in Hr as [-> <-]. rewrite le_bytes_value. split; [done|apply le_value_range].
Qed.

(** ** UTF-8 *)

(** The well-formed sequences of the Unicode standard, as [str::from_utf8]
    checks them. *)
Fixpoint valid_utf8 (l : list ascii) : bool :=
  match l with
  | [] => true
  | a :: l1 =>
      if byte_in 0 127 a then valid_utf8 l1
      else match l1 with
      | [] => false
      | b :: l2 =>
          if byte_in 194 223 a then byte_in 128 191 b && valid_utf8 l2
          else match l2 with
          | [] => false
          | c :: l3 =>
              if byte_in 224 239 a then
                (if (byte_of a =? 224)%Z then byte_in 160 191 b
                 else if (byte_of a =? 237)%Z then byte_in 128 159 b else byte_in 128 191 b)
                && byte_in 128 191 c && valid_utf8 l3
              else match l3 with
              | [] => false
              | d :: l4 =>
                  byte_in 240 244 a
                  && (if (byte_of a =? 240)%Z then byte_in 144 191 b
                      else if (byte_of a =? 244)%Z then byte_in 128 143 b else byte_in 128 191 b)
                  && byte_in 128 191 c && byte_in 128 191 d && valid_utf8 l4
              end
          end
      end
  end.

(** [String::from_utf8]. *)
Definition from_utf8 (l : list ascii) : option string :=
  if valid_utf8 l then Some (String.string_of_list_ascii l) else None.

Lemma from_utf8_bytes s : valid_utf8 (bytes s) = true → from_utf8 (bytes s) = Some s.
Proof. unfold from_utf8, bytes. intros ->. by rewrite String.string_of_list_ascii_of_string. Qed.

Lemma from_utf8_Some l s : from_utf8 l = Some s → l = bytes s ∧ valid_utf8 (bytes s) = true.
Proof.
  unfold from_utf8, bytes. destruct (valid_utf8 l) eqn:Hv; [|done]. intros [= <-].
  by rewrite String.list_ascii_of_string_of_list_ascii.
Qed.

Example utf8_examples :
  valid_utf8 (map (λ z, byte_of_Z z) [99; 195; 169; 226; 130; 172; 240; 159; 152; 128]%Z) = true ∧
  valid_utf8 (map (λ z, byte_of_Z z) [237; 160; 128]%Z) = false ∧
  valid_utf8 (map (λ z, byte_of_Z z) [192; 128]%Z) = false.
Proof. by vm_compute. Qed.
