(* ===== verification/Manifest.v ===== *)
(** * Application manifests (crates/cp0-manifest/src/lib.rs)

    The manifest record an application package declares, the validator that
    every other component relies on, and the three identifier grammars
    (application id, intent action, version).  A validation message of the
    source is a constructor of [ManifestIssue] that carries the values the
    message interpolates; the order of the issues is the order of the source.

    The theorems give the validator's meaning as a specification
    ([manifest_wf]), and the two facts the file-system code of the service
    relies on: a valid application id and a valid version each name exactly
    one directory entry. *)

From S2P Require Import Prelude RustStr.

(** ** Data *)

Definition SCHEMA_VERSION : Z := 1.
Definition MAX_APP_MEMORY_MB : Z := 96.
Definition MAX_APP_STORAGE_MB : Z := 512.
Definition MAX_INTENTS_PER_MANIFEST : nat := 8.
Definition MAX_INTENT_ACTION_BYTES : nat := 96.

Inductive Runtime := Wamr.
Inductive DisplayMode := Standard | Immersive.

Record ResourceLimits := mkResourceLimits { memory_mb : Z; storage_mb : Z }.

Inductive Permission :=
  | NetworkClient | DocumentsOpen | AudioPlayback | AudioCapture | CameraCapture
  | RadioLora | HardwareGpio | NotificationsPost | PhotosRead | PhotosWrite.

Record PermissionRequest := mkPermissionRequest { pr_name : Permission; pr_reason : string }.

Record AppManifest := mkAppManifest {
  m_schema_version : Z;
  m_id : string;
  m_name : string;
  m_version : string;
  m_sdk_version : string;
  m_runtime : Runtime;
  m_entrypoint : string;
  m_display : DisplayMode;
  m_resources : ResourceLimits;
  m_permissions : list PermissionRequest;
  m_intents : list string;
}.

Global Instance Runtime_eq_dec : EqDecision Runtime.
Proof. solve_decision. Defined.
Global Instance DisplayMode_eq_dec : EqDecision DisplayMode.
Proof. solve_decision. Defined.
Global Instance ResourceLimits_eq_dec : EqDecision ResourceLimits.
Proof. solve_decision. Defined.
Global Instance Permission_eq_dec : EqDecision Permission.
Proof. solve_decision. Defined.
Global Instance PermissionRequest_eq_dec : EqDecision PermissionRequest.
Proof. solve_decision. Defined.
Global Instance AppManifest_eq_dec : EqDecision AppManifest.
Proof. solve_decision. Defined.

(** [Permission::ALL]. *)
Definition Permission_ALL : list Permission :=
  [NetworkClient; DocumentsOpen; AudioPlayback; AudioCapture; CameraCapture;
   RadioLora; HardwareGpio; NotificationsPost; PhotosRead; PhotosWrite].

(** [Permission::as_str]. *)
Definition Permission_as_str (p : Permission) : string :=
  match p with
  | NetworkClient => "network.client"
  | DocumentsOpen => "documents.open"
  | AudioPlayback => "audio.playback"
  | AudioCapture => "audio.capture"
  | CameraCapture => "camera.capture"
  | RadioLora => "radio.lora"
  | HardwareGpio => "hardware.gpio"
  | NotificationsPost => "notifications.post"
  | PhotosRead => "photos.read"
  | PhotosWrite => "photos.write"
  end.

(** The derived [Ord]: declaration order. *)
Definition Permission_index (p : Permission) : nat :=
  match p with
  | NetworkClient => 0 | DocumentsOpen => 1 | AudioPlayback => 2 | AudioCapture => 3
  | CameraCapture => 4 | RadioLora => 5 | HardwareGpio => 6 | NotificationsPost => 7
  | PhotosRead => 8 | PhotosWrite => 9
  end.
Definition Permission_cmp (p q : Permission) : comparison :=
  Nat.compare (Permission_index p) (Permission_index q).
Definition Permission_ltb (p q : Permission) : bool :=
  (Permission_index p <? Permission_index q)%nat.

Global Program Instance Permission_countable : Countable Permission := {|
  encode p := encode (Permission_index p);
  decode n := decode n ≫= λ i, Permission_ALL !! i
|}.
Next Obligation. intros []; vm_compute; done. Qed.

Inductive ManifestIssue :=
  | SchemaVersionMismatch (got : Z)
  | InvalidAppId
  | InvalidName
  | InvalidVersion
  | InvalidSdkVersion
  | InvalidEntrypoint
  | MemoryOutOfRange
  | StorageOutOfRange
  | DuplicatePermission (p : Permission)
  | InvalidReason (p : Permission)
  | TooManyIntents
  | InvalidIntentAction (action : string)
  | DuplicateIntentAction (action : string).

Inductive ManifestError :=
  | ManifestIo
  | ManifestJson
  | ManifestInvalid (issues : list ManifestIssue).

(** ** Identifier grammars *)

Definition dash : ascii := "-".

(** The predicate on one dot-separated part that the application id and the
    intent action share. *)
Definition valid_id_part (part : string) : bool :=
  (String.length part <=? 32)%nat
  && match first_byte part with Some b => is_ascii_lowercase b | None => false end
  && negb (ends_with_char dash part)
  && bytes_all (λ b, is_ascii_lowercase b || is_ascii_digit b || bool_decide (b = dash)) part.

Definition is_valid_app_id (app_id : string) : bool :=
  if (128 <? String.length app_id)%nat then false
  else
    let parts := str_split dot app_id in
    (3 <=? length parts)%nat && forallb valid_id_part parts.

Definition is_valid_intent_action (action : string) : bool :=
  if str_is_empty action || (MAX_INTENT_ACTION_BYTES <? String.length action)%nat then false
  else
    let parts := str_split dot action in
    (3 <=? length parts)%nat
    && forallb (λ part, negb (str_is_empty part) && valid_id_part part) parts.

Definition valid_numeric_identifier (identifier : string) : bool :=
  negb (str_is_empty identifier)
  && bytes_all is_ascii_digit identifier
  && (bool_decide (identifier = "0") || negb (starts_with_char "0" identifier)).

Definition valid_semver_identifiers (value : string) : bool :=
  negb (str_is_empty value)
  && forallb (λ part, negb (str_is_empty part)
                      && bytes_all (λ b, is_ascii_alphanumeric b || bool_decide (b = dash)) part)
             (str_split dot value).

Definition valid_prerelease_identifiers (value : string) : bool :=
  valid_semver_identifiers value
  && forallb (λ part, negb (bytes_all is_ascii_digit part) || valid_numeric_identifier part)
             (str_split dot value).

Definition is_valid_app_version (v : string) : bool :=
  if str_is_empty v || (64 <? String.length v)%nat then false
  else
    let '(without_build, build) :=
      match split_once "+" v with Some (l, r) => (l, Some r) | None => (v, None) end in
    let '(core, prerelease) :=
      match split_once dash without_build with
      | Some (l, r) => (l, Some r)
      | None => (without_build, None)
      end in
    let core_parts := str_split dot core in
    (length core_parts =? 3)%nat
    && forallb valid_numeric_identifier core_parts
    && match prerelease with Some p => valid_prerelease_identifiers p | None => true end
    && match build with Some b => valid_semver_identifiers b | None => true end.

Definition valid_sdk_version (v : string) : bool :=
  let parts := str_split dot v in
  (length parts =? 2)%nat && forallb valid_numeric_identifier parts.

Definition valid_entrypoint (path : string) : bool :=
  negb (str_is_empty path)
  && negb (path_is_absolute path)
  && forallb (λ c, match c with Normal _ => true | _ => false end) (path_components path)
  && match path_extension path with
     | Some ext => bool_decide (ext = "wasm") || bool_decide (ext = "aot")
     | None => false
     end.

(** ** Validation *)

(** The loop over the requested permissions, with the set of names seen. *)
Fixpoint permission_issues (seen : gset Permission) (ps : list PermissionRequest)
    : list ManifestIssue :=
  match ps with
  | [] => []
  | p :: ps =>
      let reason_len := chars_count (pr_reason p) in
      (if bool_decide (pr_name p ∈ seen) then [DuplicatePermission (pr_name p)] else [])
      ++ (if (5 <=? reason_len)%nat && (reason_len <=? 160)%nat then [] else [InvalidReason (pr_name p)])
      ++ permission_issues ({[pr_name p]} ∪ seen) ps
  end.

(** The loop over the declared intents, with the set of actions seen. *)
Fixpoint intent_issues (seen : gset string) (actions : list string) : list ManifestIssue :=
  match actions with
  | [] => []
  | a :: actions =>
      (if is_valid_intent_action a then [] else [InvalidIntentAction a])
      ++ (if bool_decide (a ∈ seen) then [DuplicateIntentAction a] else [])
      ++ intent_issues ({[a]} ∪ seen) actions
  end.

Definition manifest_issues (m : AppManifest) : list ManifestIssue :=
  (if (m_schema_version m =? SCHEMA_VERSION)%Z then [] else [SchemaVersionMismatch (m_schema_version m)])
  ++ (if is_valid_app_id (m_id m) then [] else [InvalidAppId])
  ++ (let name_len := chars_count (m_name m) in
      if (1 <=? name_len)%nat && (name_len <=? 32)%nat then [] else [InvalidName])
  ++ (if is_valid_app_version (m_version m) then [] else [InvalidVersion])
  ++ (if valid_sdk_version (m_sdk_version m) then [] else [InvalidSdkVersion])
  ++ (if valid_entrypoint (m_entrypoint m) then [] else [InvalidEntrypoint])
  ++ (if (8 <=? memory_mb (m_resources m))%Z && (memory_mb (m_resources m) <=? MAX_APP_MEMORY_MB)%Z
      then [] else [MemoryOutOfRange])
  ++ (if (1 <=? storage_mb (m_resources m))%Z && (storage_mb (m_resources m) <=? MAX_APP_STORAGE_MB)%Z
      then [] else [StorageOutOfRange])
  ++ permission_issues ∅ (m_permissions m)
  ++ (if (MAX_INTENTS_PER_MANIFEST <? length (m_intents m))%nat then [TooManyIntents] else [])
  ++ intent_issues ∅ (m_intents m).

Definition manifest_validate (m : AppManifest) : result (list ManifestIssue) unit :=
  match manifest_issues m with [] => Ok tt | errors => Err errors end.

(** [parse_and_validate]; the JSON decoder of serde is a parameter. *)
Definition parse_and_validate (from_slice : list ascii → option AppManifest) (encoded : list ascii)
    : result ManifestError AppManifest :=
  match from_slice encoded with
  | None => Err ManifestJson
  | Some m => let? _ := map_err ManifestInvalid (manifest_validate m) in Ok m
  end.

(** ** Specification *)

(** What a validated manifest promises to the rest of the system. *)
Record manifest_wf (m : AppManifest) : Prop := {
  wf_schema : m_schema_version m = SCHEMA_VERSION;
  wf_id : is_valid_app_id (m_id m) = true;
  wf_name : (1 ≤ chars_count (m_name m) ≤ 32)%nat;
  wf_version : is_valid_app_version (m_version m) = true;
  wf_sdk : valid_sdk_version (m_sdk_version m) = true;
  wf_entrypoint : valid_entrypoint (m_entrypoint m) = true;
  wf_memory : (8 ≤ memory_mb (m_resources m) ≤ MAX_APP_MEMORY_MB)%Z;
  wf_storage : (1 ≤ storage_mb (m_resources m) ≤ MAX_APP_STORAGE_MB)%Z;
  wf_permissions : NoDup (map pr_name (m_permissions m));
  wf_reasons : Forall (λ p, (5 ≤ chars_count (pr_reason p) ≤ 160)%nat) (m_permissions m);
  wf_intent_count : (length (m_intents m) ≤ MAX_INTENTS_PER_MANIFEST)%nat;
  wf_intent_actions : Forall (λ a, is_valid_intent_action a = true) (m_intents m);
  wf_intents : NoDup (m_intents m);
}.

(** The manifest of examples/hello-card/app.json, used as a concrete input. *)
Definition hello_manifest : AppManifest := {|
  m_schema_version := 1; m_id := "dev.cardputerzero.hello"; m_name := "Hello Card";
  m_version := "0.1.0"; m_sdk_version := "1.0"; m_runtime := Wamr;
  m_entrypoint := "bin/hello-card.wasm"; m_display := Standard;
  m_resources := mkResourceLimits 24 8;
  m_permissions := [
    mkPermissionRequest NotificationsPost "Show the result of the Hello Card action";
    mkPermissionRequest NetworkClient "Run the user-requested HTTPS connectivity check";
    mkPermissionRequest DocumentsOpen "Open a document selected in the trusted system picker";
    mkPermissionRequest AudioPlayback "Play the user-requested audio test tone";
    mkPermissionRequest AudioCapture "Capture a short microphone sample when requested";
    mkPermissionRequest CameraCapture "Capture a frame after the user presses the camera key";
    mkPermissionRequest HardwareGpio
      "Toggle the logical Grove function output after the user presses G";
    mkPermissionRequest RadioLora "Receive a bounded LoRa packet after the user presses L"];
  m_intents := ["dev.cardputerzero.hello.open"]
|}.

(** ** Lemmas *)

Lemma app_nil_iff {A} (l k : list A) : l ++ k = [] ↔ l = [] ∧ k = [].
Proof. destruct l; naive_solver. Qed.

Lemma if_nil_iff {A} (b : bool) (x : A) : (if b then [] else [x]) = [] ↔ b = true.
Proof. by destruct b. Qed.

Lemma if_not_nil_iff {A} (b : bool) (x : A) : (if b then [x] else []) = [] ↔ b = false.
Proof. by destruct b. Qed.

Lemma permission_issues_nil seen ps :
  permission_issues seen ps = [] ↔
  NoDup (map pr_name ps) ∧ Forall (λ p, pr_name p ∉ seen) ps ∧
  Forall (λ p, (5 ≤ chars_count (pr_reason p) ≤ 160)%nat) ps.
Proof.
  revert seen. induction ps as [|p ps IH]; intros seen; simpl.
  { split; [|done]. repeat split; constructor. }
  rewrite !app_nil_iff, if_not_nil_iff, if_nil_iff, IH, bool_decide_eq_false.
  rewrite andb_true_iff, !Nat.leb_le, NoDup_cons, !Forall_cons, !Forall_forall, list_elem_of_fmap.
  setoid_rewrite elem_of_union. setoid_rewrite elem_of_singleton.
  split.
  - intros (Hp&[??]&Hnd&Hs&Hrs). split_and!; auto.
    + intros (q&Heq&Hq). apply (Hs q Hq). auto.
    + intros q Hq ?. apply (Hs q Hq). auto.
  - intros ([Hn Hnd]&[Hp Hs]&Hr&Hrs). split_and!; try tauto.
    intros q Hq [Heq|Hin]; [apply Hn; eauto|by apply (Hs q Hq)].
Qed.

Lemma intent_issues_nil seen l :
  intent_issues seen l = [] ↔
  NoDup l ∧ Forall (λ a, a ∉ seen) l ∧ Forall (λ a, is_valid_intent_action a = true) l.
Proof.
  revert seen. induction l as [|a l IH]; intros seen; simpl.
  { split; [|done]. repeat split; constructor. }
  rewrite !app_nil_iff, if_not_nil_iff, if_nil_iff, IH, bool_decide_eq_false.
  rewrite NoDup_cons, !Forall_cons, !Forall_forall.
  setoid_rewrite elem_of_union. setoid_rewrite elem_of_singleton.
  split.
  - intros (Ha&Hs&Hnd&Hss&Hv). split_and!; auto.
    + intros Hin. apply (Hss a Hin). auto.
    + intros b Hb ?. apply (Hss b Hb). auto.
  - intros ([Hn Hnd]&[Ha Hs]&Hv&Hvs). split_and!; auto.
    intros b Hb [->|Hin]; [done|by apply (Hs b Hb)].
Qed.

Lemma first_byte_in_bytes s b f :
  first_byte s = Some b → bytes_all f s = true → f b = true.
Proof.
  destruct s; [done|]. rewrite bytes_all_cons, andb_true_iff. by intros [= ->] [? _].
Qed.

Lemma valid_id_part_bytes part :
  valid_id_part part = true →
  part ≠ EmptyString ∧ (String.length part ≤ 32)%nat ∧
  bytes_all (λ b, is_ascii_lowercase b || is_ascii_digit b || bool_decide (b = dash)) part = true.
Proof.
  unfold valid_id_part. intros H. unbool_hyps. repeat split; auto. by intros ->.
Qed.

(** Bytes of the identifier alphabets differ from the slash. *)
Lemma id_byte_not_slash b :
  is_ascii_lowercase b || is_ascii_digit b || bool_decide (b = dash) || bool_decide (b = dot) = true →
  negb (bool_decide (b = slash)) = true.
Proof.
  intros H. destruct (decide (b = slash)) as [->|]; [by vm_compute in H|].
  by rewrite bool_decide_eq_false_2.
Qed.

Lemma semver_byte_not_slash b :
  is_ascii_alphanumeric b || bool_decide (b = dash) || bool_decide (b = dot) || bool_decide (b = "+"%char) = true →
  negb (bool_decide (b = slash)) = true.
Proof.
  intros H. destruct (decide (b = slash)) as [->|]; [by vm_compute in H|].
  by rewrite bool_decide_eq_false_2.
Qed.

Lemma is_valid_app_id_parts s :
  is_valid_app_id s = true →
  (String.length s ≤ 128)%nat ∧ (3 ≤ length (str_split dot s))%nat ∧
  Forall (λ part, valid_id_part part = true) (str_split dot s).
Proof.
  unfold is_valid_app_id. intros H. destruct (128 <? _)%nat eqn:E; [done|].
  unbool_hyps. repeat split; auto. by apply forallb_Forall.
Qed.

(** A decision on strings that refuses the three special names and only
    accepts bytes other than the slash accepts plain names only. *)
Lemma plain_name_by (valid : string → bool) s :
  valid EmptyString = false → valid "." = false → valid ".." = false →
  valid s = true → bytes_all (λ a, negb (bool_decide (a = slash))) s = true → plain_name s.
Proof. intros He Hd Hdd Hs Hb. unfold plain_name. split_and!; [..|done]; intros ->; congruence. Qed.

Lemma app_id_plain s : is_valid_app_id s = true → plain_name s.
Proof.
  intros H. apply (plain_name_by is_valid_app_id); [done..|].
  apply is_valid_app_id_parts in H as (_&_&H).
  eapply bytes_all_impl; [apply id_byte_not_slash|]. apply str_split_bytes_all.
  eapply Forall_impl; [exact H|]. by intros p (_&_&?)%valid_id_part_bytes.
Qed.

(** The alphabet of versions. *)
Definition semver_byte (b : ascii) : bool :=
  is_ascii_alphanumeric b || bool_decide (b = dash) || bool_decide (b = dot)
  || bool_decide (b = "+"%char).

Lemma numeric_identifier_bytes s :
  valid_numeric_identifier s = true → s ≠ EmptyString ∧ bytes_all is_ascii_digit s = true.
Proof. unfold valid_numeric_identifier. intros H. unbool_hyps. split; [by intros ->|done]. Qed.

Lemma semver_identifiers_bytes s :
  valid_semver_identifiers s = true → bytes_all semver_byte s = true.
Proof.
  unfold valid_semver_identifiers. intros H. unbool_hyps.
  match goal with H : forallb _ _ = true |- _ => apply forallb_Forall in H; rename H into Hp end.
  eapply bytes_all_impl, (str_split_bytes_all dot).
  2: { eapply Forall_impl; [exact Hp|]. intros p Hq. simpl in Hq. unbool_hyps. eassumption. }
  intros b. unfold semver_byte. intros ->. by rewrite orb_true_l.
Qed.

Lemma core_bytes parts s :
  str_split dot s = parts → forallb valid_numeric_identifier parts = true →
  bytes_all semver_byte s = true.
Proof.
  intros <- Hp. apply forallb_Forall in Hp.
  eapply bytes_all_impl, (str_split_bytes_all dot is_ascii_digit).
  2: { eapply Forall_impl; [exact Hp|]. by intros p [_ ?]%numeric_identifier_bytes. }
  intros b. unfold semver_byte, is_ascii_alphanumeric.
  intros [->| ->]%orb_true_iff; by rewrite ?orb_true_r.
Qed.

Lemma split_once_bytes_all c s f l r :
  split_once c s = Some (l, r) → f c = true →
  bytes_all f l = true → bytes_all f r = true → bytes_all f s = true.
Proof.
  intros ->%split_once_Some Hc Hl Hr. by rewrite bytes_all_app, bytes_all_cons, Hc, Hl, Hr.
Qed.

Lemma app_version_bytes s : is_valid_app_version s = true → bytes_all semver_byte s = true.
Proof.
  unfold is_valid_app_version. intros H. destruct (_ || _); [done|].
  assert (∀ wb, (let '(core, pre) := match split_once dash wb with
                  | Some (l, r) => (l, Some r) | None => (wb, None) end in
                 forallb valid_numeric_identifier (str_split dot core)
                 && match pre with Some p => valid_prerelease_identifiers p | None => true end) = true →
          bytes_all semver_byte wb = true) as Hwb.
  { intros wb. destruct (split_once dash wb) as [[l r]|] eqn:E; intros Hw; unbool_hyps.
    - eapply split_once_bytes_all; [exact E|done|by eapply core_bytes|].
      unfold valid_prerelease_identifiers in *. unbool_hyps. by apply semver_identifiers_bytes.
    - by eapply core_bytes. }
  destruct (split_once "+" s) as [[l r]|] eqn:E.
  - eapply split_once_bytes_all; [exact E|done| |].
    + apply Hwb. destruct (split_once dash l) as [[]|]; unbool_hyps; apply andb_true_iff; auto.
    + destruct (split_once dash l) as [[]|]; unbool_hyps; by apply semver_identifiers_bytes.
  - apply Hwb. destruct (split_once dash s) as [[]|]; unbool_hyps; apply andb_true_iff; auto.
Qed.

Lemma app_version_plain s : is_valid_app_version s = true → plain_name s.
Proof.
  intros H. apply (plain_name_by is_valid_app_version); [done..|].
  eapply bytes_all_impl; [apply semver_byte_not_slash|]. by apply app_version_bytes.
Qed.

#[export] Hint Resolve app_id_plain app_version_plain : rust.

Lemma manifest_validate_wf m : manifest_validate m = Ok tt ↔ manifest_wf m.
Proof.
  unfold manifest_validate. transitivity (manifest_issues m = []).
  { by destruct (manifest_issues m). }
  unfold manifest_issues.
  rewrite !app_nil_iff, !if_nil_iff, if_not_nil_iff, permission_issues_nil, intent_issues_nil.
  rewrite !andb_true_iff, !Nat.leb_le, !Z.leb_le, Z.eqb_eq, Nat.ltb_ge. split.
  - intros (?&?&?&?&?&?&?&?&(?&?&?)&?&?&?&?). by constructor.
  - intros []. split_and!; try done; try tauto; apply Forall_true; set_solver.
Qed.

Lemma valid_entrypoint_components e :
  valid_entrypoint e = true →
  path_is_absolute e = false ∧ path_components e ≠ [] ∧
  Forall (λ c, ∃ s, c = Normal s) (path_components e).
Proof.
  unfold valid_entrypoint. intros H. unbool_hyps. split_and!; [done| |].
  - intros Hnil. unfold path_extension, path_file_name in *. by rewrite Hnil in *.
  - match goal with H : forallb _ _ = true |- _ => apply forallb_Forall in H; rename H into Hc end.
    eapply Forall_impl; [exact Hc|]. intros []; naive_solver.
Qed.

Lemma valid_id_part_nonempty part : valid_id_part part = true → str_is_empty part = false.
Proof. intros (?&_)%valid_id_part_bytes. by destruct part. Qed.

(** Every version printed from three numbers is valid, within the length bound. *)
Definition print_version (major minor patch : Z) : string :=
  decimal major +:+ "." +:+ decimal minor +:+ "." +:+ decimal patch.

Lemma decimal_numeric n : valid_numeric_identifier (decimal n) = true.
Proof.
  unfold valid_numeric_identifier. rewrite decimal_digits.
  destruct (decimal_first n) as [->|(a&t&->&Ha)]; [done|]. simpl.
  rewrite orb_true_iff. right. unfold starts_with_char.
  rewrite bool_decide_eq_false_2; [done|]. intros [= ->]. done.
Qed.

Lemma print_version_no_sep c a b d :
  is_ascii_digit c = false → c ≠ dot →
  bytes_all (λ x, negb (bool_decide (x = c))) (print_version a b d) = true.
Proof.
  intros Hc Hd. assert (∀ n, bytes_all (λ x, negb (bool_decide (x = c))) (decimal n) = true) as Hn.
  { intros n. eapply bytes_all_impl, (decimal_digits n). intros x Hx.
    rewrite bool_decide_eq_false_2; [done|]. intros ->. congruence. }
  unfold print_version. change "." with (String dot EmptyString).
  rewrite !bytes_all_app, !Hn, !bytes_all_cons. by rewrite bool_decide_eq_false_2.
Qed.

Lemma print_version_split a b d :
  str_split dot (print_version a b d) = [decimal a; decimal b; decimal d].
Proof.
  assert (∀ n, str_split dot (decimal n) = [decimal n]) as Hn.
  { intros n. apply str_split_single. eapply bytes_all_impl, (decimal_digits n).
    intros x Hx. rewrite bool_decide_eq_false_2; [done|]. by intros ->. }
  unfold print_version.
  change ("." +:+ decimal b +:+ "." +:+ decimal d)
    with (String dot (decimal b +:+ String dot (decimal d))).
  by rewrite !str_split_app, !Hn.
Qed.

(** ** Properties *)

(** The manifest validator accepts exactly the manifests that satisfy the
    specification [manifest_wf]: schema, identifier, name, version, entry point
    and resource bounds, permissions declared once with a reason of 5 to 160
    characters, and at most eight distinct valid intent actions. *)
Theorem manifest_validate_ok_iff m : manifest_validate m = Ok tt ↔ manifest_wf m.
Proof. apply manifest_validate_wf. Qed.

(** The files of a validated application stay below the roots of the
    service: the package directory is the root extended by exactly the id and
    the version, the data directory by exactly the id, and the entry point only
    descends from the package directory. *)
Theorem manifest_paths_confined m apps_root data_root :
  manifest_validate m = Ok tt →
  path_is_absolute apps_root = true → path_is_absolute data_root = true →
  let package := path_join (path_join apps_root (m_id m)) (m_version m) in
  path_components package = path_components apps_root ++ [Normal (m_id m); Normal (m_version m)] ∧
  path_components (path_join data_root (m_id m)) = path_components data_root ++ [Normal (m_id m)] ∧
  ∃ names, names ≠ [] ∧
    path_components (path_join package (m_entrypoint m)) = path_components package ++ map Normal names.
Proof.
  intros Hv Happs Hdata. apply manifest_validate_wf in Hv as [].
  assert (path_is_absolute (path_join apps_root (m_id m)) = true) by auto using path_join_absolute.
  simpl. split_and!.
  - rewrite !path_components_join by eauto with rust. by rewrite <- app_assoc.
  - by rewrite path_components_join by eauto with rust.
  - destruct (valid_entrypoint_components _ wf_entrypoint0) as (Habs&Hne&Hall).
    pose proof (all_normal_no_dot _ Habs Hall) as Hdot.
    assert (∃ names, path_components (m_entrypoint m) = map Normal names) as [names Hnames].
    { clear -Hall. induction Hall as [|c cs [s ->] _ [ns ->]]; [by exists []|by exists (s :: ns)]. }
    exists names. split; [intros ->; by rewrite Hnames in Hne|].
    rewrite path_components_join_rel by auto using path_join_absolute. by rewrite Hnames.
Qed.

Lemma manifest_paths_confined_witness :
  manifest_validate hello_manifest = Ok tt ∧
  path_components (path_join (path_join "/var/lib/cardputerzero/apps" "dev.cardputerzero.hello") "0.1.0")
  = path_components "/var/lib/cardputerzero/apps" ++ [Normal "dev.cardputerzero.hello"; Normal "0.1.0"].
Proof.
  split; [by vm_compute|].
  apply (manifest_paths_confined hello_manifest "/var/lib/cardputerzero/apps" "/var/lib/cardputerzero/data");
    by vm_compute.
Defined.

(** The intent action grammar is the application id grammar with the
    shorter bound of 96 bytes; the two copies of the check in the source agree. *)
Theorem intent_action_is_bounded_app_id a :
  is_valid_intent_action a = (String.length a <=? MAX_INTENT_ACTION_BYTES)%nat && is_valid_app_id a.
Proof.
  unfold is_valid_intent_action, is_valid_app_id, MAX_INTENT_ACTION_BYTES.
  destruct (String.length a <=? 96)%nat eqn:E; unbool_hyps.
  - rewrite (proj2 (Nat.ltb_ge 96 _)) by lia. rewrite (proj2 (Nat.ltb_ge 128 _)) by lia.
    rewrite orb_false_r. destruct a as [|b a]; [done|]. simpl str_is_empty. cbv iota.
    rewrite andb_true_l. f_equal. apply forallb_ext_elem. intros p _.
    destruct (valid_id_part p) eqn:Hp; [|by rewrite andb_false_r].
    by rewrite valid_id_part_nonempty.
  - rewrite (proj2 (Nat.ltb_lt 96 _)) by lia. by rewrite orb_true_r.
Qed.

(** The version grammar accepts every [major.minor.patch] printed from
    three numbers without leading zeros, up to the bound of 64 bytes. *)
Theorem print_version_valid a b d :
  (String.length (print_version a b d) ≤ 64)%nat →
  is_valid_app_version (print_version a b d) = true.
Proof.
  intros Hlen. unfold is_valid_app_version.
  rewrite (proj2 (Nat.ltb_ge 64 _)) by done.
  rewrite !split_once_None by (by apply print_version_no_sep).
  rewrite print_version_split. simpl. rewrite !decimal_numeric.
  pose proof (print_version_split a b d) as Hs. destruct (print_version a b d); [done|done].
Qed.

Lemma print_version_valid_witness :
  is_valid_app_version (print_version 1 20 3) = true.
Proof. apply (print_version_valid 1 20 3). vm_compute. lia. Defined.
