(* ===== verification/HostFs.v ===== *)
(** * The host: files, faults and interference

    The part of [std::fs] and [std::io] that the service uses, as a state
    monad over a disk.  A disk maps path names to inode numbers and inode
    numbers to inodes, so that a rename moves a name and an open file keeps its
    inode.  Two things outside the program are parameters, gathered in the
    class [Host]: which operation fails with an I/O error ([host_fault], with
    the number of bytes a failing write still stores) and what other processes
    do to the disk before an operation ([host_env]).  Every operation records
    the disk it leaves in [w_trace]; a crash can happen at any of these points.

    [i_synced] says that the contents of an inode are on stable storage: a
    write clears it and [sync_all] sets it.

    The file also holds the replace-by-rename idiom, which the registry, the
    permission database, the task journal, the checkpoints and the device mode
    markers of the source repeat line by line. *)

From S2P Require Import Prelude RustStr.

(** ** The disk *)

Inductive FileKind := RegularFile | Directory | Symlink | Socket.
Global Instance FileKind_eq_dec : EqDecision FileKind.
Proof. solve_decision. Defined.

Record Inode := mkInode {
  i_kind : FileKind;
  i_data : list ascii;
  i_uid : Z;
  i_mode : Z;
  i_synced : bool;
}.

Record Disk := mkDisk {
  d_names : gmap string Z;
  d_inodes : gmap Z Inode;
  d_next : Z;
}.

(** [fs::Metadata]. *)
Record Metadata := mkMetadata {
  md_kind : FileKind;
  md_len : Z;
  md_uid : Z;
  md_mode : Z;
  md_ino : Z;
}.

Inductive IoError := NotFound | AlreadyExists | PermissionDenied | OtherIo.
Global Instance IoError_eq_dec : EqDecision IoError.
Proof. solve_decision. Defined.

Class Host := {
  host_pid : Z;
  host_uid : Z;
  host_fault : nat → option (IoError * nat);
  host_env : nat → Disk → Disk;
}.

(** The static temporary-name counters, one per source file. *)
Inductive Counter := RegistryTemp | PermissionTemp | JournalTemp | CheckpointTemp | PolicyTemp | InstallSequence.
Global Instance Counter_eq_dec : EqDecision Counter.
Proof. solve_decision. Defined.

Record World := mkWorld {
  w_disk : Disk;
  w_tick : nat;
  w_trace : list Disk;
  w_sequence : Counter → Z;
}.

(** The JSON encoder and decoder that serde derives for a type; both belong to
    a third-party library.  [to_json] is [None] when the encoder fails. *)
Class Codec (A : Type) := {
  to_json : A → option (list ascii);
  from_json : list ascii → option A;
}.

(** [semver::Version] of a third-party library: parsing, the build metadata
    and the order. *)
Class Semver := {
  Version : Type;
  version_parse : string → option Version;
  version_build : Version → string;
  version_lt : Version → Version → bool;
}.

Definition newline : ascii := ascii_of_nat 10.
(** [to_writer(..)] followed by [write_all(newline)]. *)
Definition encode_line {A} `{Codec A} (a : A) : option (list ascii) :=
  (λ bs, bs ++ [newline]) <$> to_json a.

(** ** The monad *)

Definition IO (E A : Type) : Type := World → result E A * World.

Definition io_ret {E A} (a : A) : IO E A := λ w, (Ok a, w).
Definition io_err {E A} (e : E) : IO E A := λ w, (Err e, w).
Definition io_bind {E A B} (m : IO E A) (k : A → IO E B) : IO E B := λ w,
  match m w with
  | (Ok a, w') => k a w'
  | (Err e, w') => (Err e, w')
  | (Panicked, w') => (Panicked, w')
  end.
Definition io_lift {E A} (r : result E A) : IO E A := λ w, (r, w).
Definition io_map_err {E F A} (f : E → F) (m : IO E A) : IO F A := λ w,
  let '(r, w') := m w in (map_err f r, w').
(** Run [m] and hand its outcome, error or not, to [k]: a [match] on a result. *)
Definition io_try {E F A B} (m : IO E A) (k : result E A → IO F B) : IO F B := λ w,
  let '(r, w') := m w in k r w'.

(** [if b { return Err(e) }]. *)
Definition io_guard {E} (b : bool) (e : E) : IO E unit := io_lift (if b then Err e else Ok tt).

Notation "'let!' x ':=' m 'in' k" := (io_bind m (λ x, k))
  (at level 10, x name, m at level 100, k at level 200,
   format "'[v' 'let!'  x  ':='  m  'in' '/' k ']'") : rust_scope.

(** ** Operations *)

Section operations.
  Context `{Host}.

(** One operation: other processes act first, then the operation fails with a
    fault (leaving [partial]) or runs. *)
Definition io_op {A} (partial : nat → Disk → Disk) (f : Disk → result IoError A * Disk)
    : IO IoError A := λ w,
  let d := host_env (w_tick w) (w_disk w) in
  let '(r, d') := match host_fault (w_tick w) with
                  | Some (e, n) => (Err e, partial n d)
                  | None => f d
                  end in
  (r, {| w_disk := d'; w_tick := S (w_tick w); w_trace := d' :: w_trace w;
         w_sequence := w_sequence w |}).

Definition metadata_of (ino : Z) (n : Inode) : Metadata :=
  {| md_kind := i_kind n; md_len := Z.of_nat (length (i_data n)); md_uid := i_uid n;
     md_mode := i_mode n; md_ino := ino |}.

Definition node_at (d : Disk) (p : string) : option (Z * Inode) :=
  match d_names d !! p with
  | Some ino => match d_inodes d !! ino with Some n => Some (ino, n) | None => None end
  | None => None
  end.

(** [fs::symlink_metadata]. *)
Definition fs_symlink_metadata (p : string) : IO IoError Metadata :=
  io_op (λ _ d, d) (λ d,
    match node_at d p with
    | Some (ino, n) => (Ok (metadata_of ino n), d)
    | None => (Err NotFound, d)
    end).

(** Opening for reading with [O_NOFOLLOW]; the handle is the inode number. *)
Definition fs_open_nofollow (p : string) : IO IoError Z :=
  io_op (λ _ d, d) (λ d,
    match node_at d p with
    | Some (ino, n) =>
        if bool_decide (i_kind n = Symlink) then (Err OtherIo, d) else (Ok ino, d)
    | None => (Err NotFound, d)
    end).

(** The node a name denotes when symbolic links are followed: the data of a
    link is its target, and the kernel gives up after forty links. *)
Fixpoint resolve (fuel : nat) (d : Disk) (p : string) : option (Z * Inode) :=
  match node_at d p with
  | Some (ino, n) =>
      if bool_decide (i_kind n = Symlink) then
        match fuel with
        | 0 => None
        | S fuel => resolve fuel d (String.string_of_list_ascii (i_data n))
        end
      else Some (ino, n)
  | None => None
  end.

(** [File::open]. *)
Definition fs_open (p : string) : IO IoError Z :=
  io_op (λ _ d, d) (λ d,
    match resolve 40 d p with
    | Some (ino, _) => (Ok ino, d)
    | None => (Err NotFound, d)
    end).

(** [Path::exists]: following links, and no for any error. *)
Definition fs_exists {E} (p : string) : IO E bool :=
  io_try (fs_open p) (λ outcome, io_lift match outcome with
                                         | Ok _ => Ok true | Err _ => Ok false | Panicked => Panicked end).

(** [File::metadata] on an open file. *)
Definition fs_file_metadata (ino : Z) : IO IoError Metadata :=
  io_op (λ _ d, d) (λ d,
    match d_inodes d !! ino with
    | Some n => (Ok (metadata_of ino n), d)
    | None => (Err OtherIo, d)
    end).

(** [read_to_end] on an open file. *)
Definition fs_read_to_end (ino : Z) : IO IoError (list ascii) :=
  io_op (λ _ d, d) (λ d,
    match d_inodes d !! ino with
    | Some n => (Ok (i_data n), d)
    | None => (Err OtherIo, d)
    end).

(** [OpenOptions::new().write(true).create_new(true).mode(mode).open(p)]. *)
Definition fs_create_new (p : string) (mode : Z) : IO IoError Z :=
  io_op (λ _ d, d) (λ d,
    match d_names d !! p with
    | Some _ => (Err AlreadyExists, d)
    | None =>
        let n := {| i_kind := RegularFile; i_data := []; i_uid := host_uid; i_mode := mode;
                    i_synced := false |} in
        (Ok (d_next d),
         {| d_names := <[p := d_next d]> (d_names d);
            d_inodes := <[d_next d := n]> (d_inodes d);
            d_next := d_next d + 1 |})
    end).

Definition append_data (bs : list ascii) (n : Inode) : Inode :=
  {| i_kind := i_kind n; i_data := i_data n ++ bs; i_uid := i_uid n; i_mode := i_mode n;
     i_synced := false |}.
Definition set_synced (n : Inode) : Inode :=
  {| i_kind := i_kind n; i_data := i_data n; i_uid := i_uid n; i_mode := i_mode n;
     i_synced := true |}.
Definition alter_inode (f : Inode → Inode) (ino : Z) (d : Disk) : Disk :=
  {| d_names := d_names d; d_inodes := alter f ino (d_inodes d); d_next := d_next d |}.

Definition set_mode (mode : Z) (n : Inode) : Inode :=
  {| i_kind := i_kind n; i_data := i_data n; i_uid := i_uid n; i_mode := mode; i_synced := i_synced n |}.

(** [File::set_permissions] and [fs::set_permissions], which follows links. *)
Definition fs_file_set_permissions (ino mode : Z) : IO IoError unit :=
  io_op (λ _ d, d) (λ d, (Ok tt, alter_inode (set_mode mode) ino d)).
Definition fs_set_permissions (p : string) (mode : Z) : IO IoError unit :=
  io_op (λ _ d, d) (λ d,
    match resolve 40 d p with
    | Some (ino, _) => (Ok tt, alter_inode (set_mode mode) ino d)
    | None => (Err NotFound, d)
    end).

(** [write_all] and the flush of the buffered writer: a fault stores a prefix. *)
Definition fs_write_all (ino : Z) (bs : list ascii) : IO IoError unit :=
  io_op (λ k d, alter_inode (append_data (take k bs)) ino d)
        (λ d, (Ok tt, alter_inode (append_data bs) ino d)).

(** [seek(SeekFrom::Start(offset))] and [write_all]: the bytes of the file from
    [offset] on are replaced, and a gap reads as zeros. *)
Definition write_data (offset : nat) (bs : list ascii) (n : Inode) : Inode :=
  {| i_kind := i_kind n;
     i_data := take offset (i_data n) ++ replicate (offset - length (i_data n)) Ascii.zero
               ++ bs ++ drop (offset + length bs) (i_data n);
     i_uid := i_uid n; i_mode := i_mode n; i_synced := false |}.
Definition fs_write_at (ino : Z) (offset : nat) (bs : list ascii) : IO IoError unit :=
  io_op (λ k d, alter_inode (write_data offset (take k bs)) ino d)
        (λ d, (Ok tt, alter_inode (write_data offset bs) ino d)).

(** [seek(SeekFrom::Start(offset))] and [read_exact] of [n] bytes. *)
Definition fs_read_at (ino : Z) (offset n : nat) : IO IoError (list ascii) :=
  io_op (λ _ d, d) (λ d,
    match d_inodes d !! ino with
    | Some node =>
        let bs := take n (drop offset (i_data node)) in
        if (length bs <? n)%nat then (Err OtherIo, d) else (Ok bs, d)
    | None => (Err OtherIo, d)
    end).

(** [OpenOptions::new().write(true).custom_flags(O_NOFOLLOW).open(p)]. *)
Definition fs_open_write_nofollow (p : string) : IO IoError Z :=
  io_op (λ _ d, d) (λ d,
    match node_at d p with
    | Some (ino, n) => if bool_decide (i_kind n = RegularFile) then (Ok ino, d) else (Err OtherIo, d)
    | None => (Err NotFound, d)
    end).

(** [DirBuilder::new().mode(mode).create(p)]. *)
Definition fs_create_dir (p : string) (mode : Z) : IO IoError unit :=
  io_op (λ _ d, d) (λ d,
    match d_names d !! p with
    | Some _ => (Err AlreadyExists, d)
    | None =>
        let n := {| i_kind := Directory; i_data := []; i_uid := host_uid; i_mode := mode; i_synced := false |} in
        (Ok tt,
         {| d_names := <[p := d_next d]> (d_names d);
            d_inodes := <[d_next d := n]> (d_inodes d);
            d_next := d_next d + 1 |})
    end).

(** [File::sync_all]. *)
Definition fs_sync_all (ino : Z) : IO IoError unit :=
  io_op (λ _ d, d) (λ d, (Ok tt, alter_inode set_synced ino d)).

(** [fs::rename]: replaces the target name. *)
Definition fs_rename (from to : string) : IO IoError unit :=
  io_op (λ _ d, d) (λ d,
    match d_names d !! from with
    | Some ino =>
        (Ok tt, {| d_names := <[to := ino]> (delete from (d_names d));
                   d_inodes := d_inodes d; d_next := d_next d |})
    | None => (Err NotFound, d)
    end).

(** [fs::remove_file]. *)
Definition fs_remove_file (p : string) : IO IoError unit :=
  io_op (λ _ d, d) (λ d,
    match node_at d p with
    | Some (_, n) =>
        if bool_decide (i_kind n = Directory) then (Err OtherIo, d)
        else (Ok tt, {| d_names := delete p (d_names d); d_inodes := d_inodes d;
                        d_next := d_next d |})
    | None => (Err NotFound, d)
    end).

(** *** Directories

    A directory is a name; what it contains are the names below it. *)

Definition below (dir p : string) : bool := starts_with (dir +:+ "/") p.

(** The name a path has after [from] was renamed to [to]. *)
Definition moved (from to p : string) : string :=
  if bool_decide (p = from) then to
  else match strip_prefix (from +:+ "/") p with
       | Some rest => to +:+ "/" +:+ rest
       | None => p
       end.

Definition with_names (names : gmap string Z) (d : Disk) : Disk :=
  {| d_names := names; d_inodes := d_inodes d; d_next := d_next d |}.

(** [fs::rename] where directories are involved: everything below the source
    moves along.  A directory cannot replace a file or a directory with
    contents, a file cannot replace a directory, and a directory cannot move
    below itself. *)
Definition is_directory (d : Disk) (p : string) : bool :=
  match node_at d p with Some (_, n) => bool_decide (i_kind n = Directory) | None => false end.
Definition rename_refused (d : Disk) (from to : string) : bool :=
  below from to || existsb (λ e, below to e.1) (map_to_list (d_names d))
  || bool_decide (is_Some (d_names d !! to)) && xorb (is_directory d from) (is_directory d to).
Definition fs_rename_dir (from to : string) : IO IoError unit :=
  io_op (λ _ d, d) (λ d,
    match d_names d !! from with
    | None => (Err NotFound, d)
    | Some _ =>
        if bool_decide (from = to) then (Ok tt, d)
        else if rename_refused d from to then (Err OtherIo, d)
        else (Ok tt, with_names
               (list_to_map (map (λ e, (moved from to e.1, e.2)) (map_to_list (delete to (d_names d))))) d)
    end).

(** [fs::remove_dir_all]: a fault leaves some of the names below. *)
Definition fs_remove_dir_all (p : string) : IO IoError unit :=
  io_op (λ k d, with_names (foldr delete (d_names d) (take k (List.filter (below p) (map_to_list (d_names d)).*1))) d)
        (λ d, match d_names d !! p with
              | None => (Err NotFound, d)
              | Some _ => (Ok tt, with_names (filter (λ e, e.1 ≠ p ∧ below p e.1 = false) (d_names d)) d)
              end).

(** [fs::read_dir]: the names directly below, in no particular order. *)
Definition child_of (dir p : string) : bool :=
  match strip_prefix (dir +:+ "/") p with
  | Some rest => negb (str_is_empty rest) && bytes_all (λ a, negb (bool_decide (a = slash))) rest
  | None => false
  end.
Definition fs_read_dir (p : string) : IO IoError (list string) :=
  io_op (λ _ d, d) (λ d,
    match node_at d p with
    | Some (_, n) =>
        if bool_decide (i_kind n = Directory)
        then (Ok (List.filter (child_of p) (map_to_list (d_names d)).*1), d) else (Err OtherIo, d)
    | None => (Err NotFound, d)
    end).

(** Reading the next entry of an open directory, which may fail by itself. *)
Definition fs_next_entry : IO IoError unit := io_op (λ _ d, d) (λ d, (Ok tt, d)).

(** [File::open(directory)?.sync_all()?]: opening and syncing a directory do
    not change the names the program sees. *)
Definition fs_sync_directory (p : string) : IO IoError unit :=
  let! _ := io_op (λ _ d, d) (λ d, (Ok tt, d)) in
  io_op (λ _ d, d) (λ d, (Ok tt, d)).

(** [COUNTER.fetch_add(1, Relaxed)]. *)
Definition fetch_add {E} (c : Counter) : IO E Z := λ w,
  (Ok (w_sequence w c),
   {| w_disk := w_disk w; w_tick := w_tick w; w_trace := w_trace w;
      w_sequence := λ c', if decide (c' = c) then wrapping_add_u64 (w_sequence w c) 1
                          else w_sequence w c' |}).

(** Opening a file and reading all of it, as [from_reader(BufReader::new(..))]
    does before the decoder sees the contents. *)
Definition fs_read_file (p : string) : IO IoError (list ascii) :=
  let! file := fs_open p in fs_read_to_end file.

(** ** Replace by rename *)

Inductive AtomicError := AtomicNoParent | AtomicNoFileName | AtomicIo (e : IoError) | AtomicJson.

(** [format!(".{file_name}.tmp-{pid}-{sequence}")]. *)
Definition temporary_name (file_name : string) (sequence : Z) : string :=
  "." +:+ file_name +:+ ".tmp-" +:+ decimal host_pid +:+ "-" +:+ decimal sequence.

(** The closure of every [save_atomic]: create the temporary file, write the
    encoded value ([None] when the encoder fails), make it durable, rename it
    over the target and sync the directory. *)
Definition replace_steps (temporary path parent : string) (encoded : option (list ascii))
    : IO AtomicError unit :=
  let! file := io_map_err AtomicIo (fs_create_new temporary 384 (* 0o600 *)) in
  let! contents := io_lift (ok_or encoded AtomicJson) in
  let! _ := io_map_err AtomicIo (fs_write_all file contents) in
  let! _ := io_map_err AtomicIo (fs_sync_all file) in
  let! _ := io_map_err AtomicIo (fs_rename temporary path) in
  io_map_err AtomicIo (fs_sync_directory parent).

Definition atomic_replace (c : Counter) (path : string) (encoded : option (list ascii))
    : IO AtomicError unit :=
  let! parent := io_lift (ok_or (path_parent path) AtomicNoParent) in
  let! file_name := io_lift (ok_or (path_file_name path) AtomicNoFileName) in
  let! sequence := fetch_add c in
  let temporary := path_join parent (temporary_name file_name sequence) in
  io_try (replace_steps temporary path parent encoded) (λ result,
    match result with
    | Err e => io_try (fs_remove_file temporary) (λ _, io_err e)
    | _ => io_lift result
    end).

End operations.

(** ** A crash logic

    [crash_spec P m C Q]: from a disk satisfying [P], every disk that [m]
    passes through satisfies the crash condition [C], and the outcome and the
    final disk satisfy [Q].  The host may fail any operation. *)

Definition file_at (d : Disk) (p : string) : option Inode := snd <$> node_at d p.

(** Inode numbers in use are below the next one to allocate. *)
Definition disk_wf (d : Disk) : Prop :=
  (∀ p i, d_names d !! p = Some i → i < d_next d)%Z ∧
  (∀ i n, d_inodes d !! i = Some n → i < d_next d)%Z.

(** No other process touches the disk. *)
Definition quiet (H : Host) : Prop := ∀ t d, host_env t d = d.

Section crash_logic.
  Context `{Host} (Hquiet : quiet _).
  Implicit Types (P C : Disk → Prop).

Definition crash_spec {E A} P (m : IO E A) C (Q : result E A → Disk → Prop) : Prop :=
  ∀ w, P (w_disk w) → ∃ tr, w_trace (m w).2 = tr ++ w_trace w ∧ Forall C tr ∧
    Q (m w).1 (w_disk (m w).2).

Lemma crash_consequence {E A} P P' (m : IO E A) C (Q Q' : result E A → Disk → Prop) :
  crash_spec P m C Q → (∀ d, P' d → P d) → (∀ r d, Q r d → Q' r d) → crash_spec P' m C Q'.
Proof. intros Hm HP HQ w Hw. destruct (Hm w (HP _ Hw)) as (tr&?&?&?). eauto. Qed.

Lemma crash_pure {E A} (φ : Prop) P (m : IO E A) C Q :
  (φ → crash_spec P m C Q) → crash_spec (λ d, φ ∧ P d) m C Q.
Proof. intros Hm w [Hφ Hw]. by apply Hm. Qed.

Lemma crash_lift {E A} P (r : result E A) C : crash_spec P (io_lift r) C (λ r' d, r' = r ∧ P d).
Proof. intros w Hw. exists []. by repeat split. Qed.

Lemma crash_fetch_add {E} P c C :
  crash_spec P (@fetch_add E c) C (λ r d, (∃ n, r = Ok n) ∧ P d).
Proof. intros w Hw. exists []. repeat split; eauto. Qed.

Lemma crash_try {E F A B} P (m : IO E A) (k : result E A → IO F B) C R Q :
  crash_spec P m C R → (∀ r, crash_spec (R r) (k r) C Q) → crash_spec P (io_try m k) C Q.
Proof.
  intros Hm Hk w Hw. unfold io_try. destruct (Hm w Hw) as (tr&Htr&Hall&HR).
  destruct (m w) as [r w']. simpl in *. destruct (Hk r w' HR) as (tr'&Htr'&Hall'&HQ).
  exists (tr' ++ tr). rewrite Htr', Htr, <- app_assoc. split; [done|]. by rewrite Forall_app.
Qed.

Lemma crash_bind {E A B} P (m : IO E A) (k : A → IO E B) C R Q :
  crash_spec P m C R →
  (∀ a, crash_spec (R (Ok a)) (k a) C Q) →
  (∀ e d, R (Err e) d → Q (Err e) d) → (∀ d, R Panicked d → Q Panicked d) →
  crash_spec P (io_bind m k) C Q.
Proof.
  intros Hm Hk He Hp w Hw. destruct (Hm w Hw) as (tr&Htr&Hall&HR). unfold io_bind.
  destruct (m w) as [[a|e|] w']; simpl in *; [|by eauto|by eauto].
  destruct (Hk a w' HR) as (tr'&Htr'&Hall'&HQ).
  exists (tr' ++ tr). rewrite Htr', Htr, <- app_assoc. split; [done|]. by rewrite Forall_app.
Qed.

Lemma crash_map_err {E F A} (f : E → F) P (m : IO E A) C Q :
  crash_spec P m C (λ r d, Q (map_err f r) d) → crash_spec P (io_map_err f m) C Q.
Proof.
  intros Hm w Hw. destruct (Hm w Hw) as (tr&?&?&?). unfold io_map_err.
  destruct (m w) as [r w']. eauto.
Qed.

Lemma crash_op {A} P partial (f : Disk → result IoError A * Disk) C Q :
  (∀ d e n, P d → C (partial n d) ∧ Q (Err e) (partial n d)) →
  (∀ d, P d → C (f d).2 ∧ Q (f d).1 (f d).2) →
  crash_spec P (io_op partial f) C Q.
Proof.
  intros Hfault Hok w Hw. unfold io_op. rewrite Hquiet.
  destruct (host_fault (w_tick w)) as [[e n]|].
  - destruct (Hfault _ e n Hw) as [??]. exists [partial n (w_disk w)]. auto.
  - destruct (Hok _ Hw) as [??]. destruct (f (w_disk w)) as [r d]. exists [d]. auto.
Qed.

End crash_logic.

(** *** The disks of a replace *)

Lemma file_at_ino d p : 
  file_at d p = match d_names d !! p with Some i => d_inodes d !! i | None => None end.
Proof. unfold file_at, node_at. destruct (d_names d !! p); [|done]. by destruct (d_inodes d !! _). Qed.

Lemma file_at_alter_inode f ino d p :
  d_names d !! p ≠ Some ino → file_at (alter_inode f ino d) p = file_at d p.
Proof.
  rewrite !file_at_ino. simpl. destruct (d_names d !! p) as [i|]; [|done]. intros Hi.
  by rewrite lookup_alter_ne by congruence.
Qed.

Lemma file_at_alter_inode_eq f ino d p :
  d_names d !! p = Some ino → file_at (alter_inode f ino d) p = f <$> file_at d p.
Proof. rewrite !file_at_ino. simpl. intros ->. apply lookup_alter_eq. Qed.

Section replace.
  Context `{Host} (Hquiet : quiet _) (d0 : Disk) (Hwf : disk_wf d0).
  Context (temporary path parent : string) (Hne : temporary ≠ path) (contents : list ascii).

(** The durable file the replace installs. *)
Definition new_inode : Inode := mkInode RegularFile contents host_uid 384 true.

(** The target is the old file or the complete new one, and nothing else but
    the temporary name has changed. *)
Definition old_or_new (d : Disk) : Prop :=
  (file_at d path = file_at d0 path ∨ file_at d path = Some new_inode) ∧
  (∀ q, q ≠ path → q ≠ temporary → file_at d q = file_at d0 q).

(** The temporary file holds inode [n] and every other name is as before. *)
Definition staged (n : Inode) (d : Disk) : Prop :=
  d_names d = <[temporary := d_next d0]> (d_names d0) ∧ file_at d temporary = Some n ∧
  (∀ q, q ≠ temporary → file_at d q = file_at d0 q).

Lemma staged_old_or_new n d : staged n d → old_or_new d.
Proof. intros (_&_&Hq). split; [left|]; auto. Qed.

Lemma staged_alter n d f : staged n d → staged (f n) (alter_inode f (d_next d0) d).
Proof.
  intros (Hn&Ht&Hq). split_and!; [done| |].
  - rewrite file_at_alter_inode_eq by (rewrite Hn; apply lookup_insert_eq). by rewrite Ht.
  - intros q Hqt. rewrite file_at_alter_inode; [auto|].
    rewrite Hn, lookup_insert_ne by done. intros Hi. destruct Hwf as [Hlt _]. apply Hlt in Hi. lia.
Qed.

Lemma crash_create :
  crash_spec (λ d, d = d0) (io_map_err AtomicIo (fs_create_new temporary 384)) old_or_new
    (λ r d, match r with
            | Ok i => i = d_next d0 ∧ staged (mkInode RegularFile [] host_uid 384 false) d
            | Err _ => d = d0
            | Panicked => False
            end).
Proof.
  apply crash_map_err, crash_op; [done| |]; intros d.
  - intros e n ->. split; [|done]. split; auto.
  - intros ->. destruct (d_names d0 !! temporary) as [i0|] eqn:Hfree; simpl.
    { split; [|done]. split; auto. }
    assert (staged (mkInode RegularFile [] host_uid 384 false)
      {| d_names := <[temporary := d_next d0]> (d_names d0);
         d_inodes := <[d_next d0 := mkInode RegularFile [] host_uid 384 false]> (d_inodes d0);
         d_next := d_next d0 + 1 |}) as Hst.
    { split_and!; [done| |].
      - rewrite file_at_ino. simpl. by rewrite lookup_insert_eq, lookup_insert_eq.
      - intros q Hq. rewrite !file_at_ino. simpl. rewrite lookup_insert_ne by done.
        destruct (d_names d0 !! q) as [i|] eqn:Hi; [|done]. destruct Hwf as [Hlt _].
        apply Hlt in Hi. rewrite lookup_insert_ne by lia. done. }
    split; [by eapply staged_old_or_new|]. by split.
Qed.

Lemma crash_write n :
  crash_spec (staged n) (io_map_err AtomicIo (fs_write_all (d_next d0) contents)) old_or_new
    (λ r d, match r with
            | Ok _ => staged (append_data contents n) d
            | Err _ => ∃ n', staged n' d
            | Panicked => False
            end).
Proof.
  apply crash_map_err, crash_op; [done| |]; intros d.
  - intros e k Hd. pose proof (staged_alter _ _ (append_data (take k contents)) Hd).
    split; [by eapply staged_old_or_new|simpl; eauto].
  - intros Hd. pose proof (staged_alter _ _ (append_data contents) Hd).
    split; [by eapply staged_old_or_new|done].
Qed.

Lemma crash_sync n :
  crash_spec (staged n) (io_map_err AtomicIo (fs_sync_all (d_next d0))) old_or_new
    (λ r d, match r with
            | Ok _ => staged (set_synced n) d
            | Err _ => ∃ n', staged n' d
            | Panicked => False
            end).
Proof.
  apply crash_map_err, crash_op; [done| |]; intros d.
  - intros e k Hd. split; [by eapply staged_old_or_new|simpl; eauto].
  - intros Hd. pose proof (staged_alter _ _ set_synced Hd).
    split; [by eapply staged_old_or_new|done].
Qed.

(** After the rename the new file is in place. *)
Definition installed (d : Disk) : Prop :=
  file_at d path = Some new_inode ∧ file_at d temporary = None ∧
  (∀ q, q ≠ path → q ≠ temporary → file_at d q = file_at d0 q).

Lemma installed_old_or_new d : installed d → old_or_new d.
Proof. intros (?&_&?). split; auto. Qed.

Lemma crash_rename :
  crash_spec (staged new_inode) (io_map_err AtomicIo (fs_rename temporary path)) old_or_new
    (λ r d, match r with Ok _ => installed d | Err _ => ∃ n', staged n' d | Panicked => False end).
Proof.
  apply crash_map_err, crash_op; [done| |]; intros d.
  - intros e k Hd. split; [by eapply staged_old_or_new|simpl; eauto].
  - intros (Hn&Ht&Hq). rewrite Hn, lookup_insert_eq. simpl.
    match goal with |- old_or_new ?d' ∧ _ => assert (installed d') as Hi end.
    { rewrite file_at_ino, Hn, lookup_insert_eq in Ht.
      split_and!; [|..|intros q Hqp Hqt; rewrite <- (Hq q Hqt)]; rewrite !file_at_ino; simpl.
      - by rewrite lookup_insert_eq.
      - rewrite lookup_insert_ne by done. by rewrite lookup_delete_eq.
      - rewrite lookup_insert_ne, lookup_delete_ne by done. by rewrite Hn. }
    split; [by apply installed_old_or_new|done].
Qed.

Lemma crash_sync_directory :
  crash_spec installed (io_map_err AtomicIo (fs_sync_directory parent)) old_or_new
    (λ r d, r ≠ Panicked ∧ installed d).
Proof.
  apply crash_map_err. unfold fs_sync_directory. eapply crash_bind with (R := λ r d, r ≠ Panicked ∧ installed d).
  - apply crash_op; [done| |]; intros; eauto using installed_old_or_new.
  - intros [] . apply crash_op; [done| |]; intros; simpl; naive_solver eauto using installed_old_or_new.
  - naive_solver.
  - naive_solver.
Qed.

(** The outcome of the replace closure: installed on success; on an error the
    old file or, when only the directory sync failed, the new one. *)
Definition replaced (r : result AtomicError unit) (d : Disk) : Prop :=
  match r with
  | Ok _ => installed d
  | Err _ => installed d ∨ d = d0 ∨ ∃ n, staged n d
  | Panicked => False
  end.

Lemma crash_replace_steps :
  crash_spec (λ d, d = d0) (replace_steps temporary path parent (Some contents)) old_or_new replaced.
Proof.
  unfold replace_steps.
  eapply crash_bind; [apply crash_create| |naive_solver|naive_solver].
  intros file. apply crash_pure. intros ->.
  eapply crash_bind; [apply crash_lift| |naive_solver|naive_solver].
  intros c. apply crash_pure. intros [= Hc]. rewrite Hc.
  eapply crash_bind; [apply crash_write| |naive_solver|naive_solver]. intros [].
  eapply crash_bind; [apply crash_sync| |naive_solver|naive_solver]. intros [].
  eapply crash_bind; [apply crash_rename| |naive_solver|naive_solver]. intros [].
  eapply crash_consequence; [apply crash_sync_directory|done|].
  intros [] d [? Hd]; simpl; auto.
Qed.

(** Dropping the temporary name keeps the target. *)
Lemma file_at_delete_name d p q :
  q ≠ p →
  file_at {| d_names := delete p (d_names d); d_inodes := d_inodes d; d_next := d_next d |} q
  = file_at d q.
Proof. intros Hq. rewrite !file_at_ino. simpl. by rewrite lookup_delete_ne. Qed.

Lemma crash_cleanup {E A} (e : E) :
  crash_spec old_or_new (io_try (fs_remove_file temporary) (λ _, io_err (A := A) e)) old_or_new
    (λ r d, r = Err e ∧ old_or_new d).
Proof.
  eapply crash_try with (R := λ _ d, old_or_new d).
  - apply crash_op; [done| |]; intros d; [done|]. intros [Hp Hq].
    assert (old_or_new d) by (by split).
    destruct (node_at d temporary) as [[i n]|]; simpl; [|done].
    case_bool_decide; simpl; [done|].
    assert (old_or_new {| d_names := delete temporary (d_names d); d_inodes := d_inodes d;
                          d_next := d_next d |}).
    { split; [by rewrite file_at_delete_name|]. intros q ??. rewrite file_at_delete_name; auto. }
    by split.
  - intros r w Hw. exists []. split_and!; [done|constructor|done|exact Hw].
Qed.

Lemma replaced_Err_old_or_new e d : replaced (Err e) d → old_or_new d.
Proof.
  intros [?|[->|[n ?]]]; [by apply installed_old_or_new| |by eapply staged_old_or_new].
  split; auto.
Qed.

End replace.

(** The temporary name of a target path never is the target itself. *)
Lemma temporary_name_plain `{Host} f n : plain_name f → plain_name (temporary_name f n).
Proof.
  intros (_&_&_&Hf). unfold temporary_name.
  split_and!; [done| | |by rewrite !bytes_all_app, Hf, !decimal_no_slash];
    intros Heq; apply (f_equal String.length) in Heq; rewrite !str_length_app in Heq;
    simpl in Heq; lia.
Qed.

Lemma temporary_name_ne `{Host} f n : temporary_name f n ≠ f.
Proof.
  intros Heq. apply (f_equal String.length) in Heq. unfold temporary_name in Heq.
  rewrite !str_length_app in Heq. simpl in Heq. lia.
Qed.

Lemma temporary_path_ne `{Host} path parent f n :
  path_is_absolute path = true → path_parent path = Some parent → path_file_name path = Some f →
  path_join parent (temporary_name f n) ≠ path.
Proof.
  intros Habs Hp Hf Heq. pose proof (path_file_name_plain _ _ Hf) as Hplain.
  pose proof (path_parent_absolute _ _ Habs Hp).
  apply (f_equal path_file_name) in Heq. rewrite Hf in Heq.
  rewrite path_file_name_join in Heq by auto using temporary_name_plain.
  injection Heq. apply temporary_name_ne.
Qed.

(** Whatever operation fails and wherever the host stops, the target of a
    replace holds either the file it held before or the complete, durable new
    one, and no other name changes but the temporary one. *)
Lemma atomic_replace_safe `{Host} c path parent f contents w :
  quiet _ → disk_wf (w_disk w) → path_is_absolute path = true →
  path_parent path = Some parent → path_file_name path = Some f →
  let temporary := path_join parent (temporary_name f (w_sequence w c)) in
  let run := atomic_replace c path (Some contents) w in
  ∃ tr, w_trace run.2 = tr ++ w_trace w ∧
    Forall (old_or_new (w_disk w) temporary path contents) tr ∧
    match run.1 with
    | Ok _ => installed (w_disk w) temporary path contents (w_disk run.2)
    | Err _ => old_or_new (w_disk w) temporary path contents (w_disk run.2)
    | Panicked => False
    end.
Proof.
  intros Hquiet Hwf Habs Hp Hf temporary.
  assert (temporary ≠ path) as Hne by (by apply temporary_path_ne).
  unfold atomic_replace. rewrite Hp, Hf. unfold io_bind, io_lift, ok_or, fetch_add.
  set (w0 := {| w_disk := w_disk w; w_tick := w_tick w; w_trace := w_trace w; w_sequence := _ |}).
  pose proof (crash_replace_steps Hquiet _ Hwf temporary path parent Hne contents) as Hsteps.
  pose proof (crash_try _ _ (λ result,
    match result with
    | Err e => io_try (fs_remove_file temporary) (λ _, io_err e)
    | _ => io_lift result
    end) _ _ (λ r d, match r with
              | Ok _ => installed (w_disk w) temporary path contents d
              | Err _ => old_or_new (w_disk w) temporary path contents d
              | Panicked => False
              end) Hsteps) as Htry.
  match type of Htry with ?T → _ => assert T as Hk end;
    [|destruct (Htry Hk w0 eq_refl) as (tr&?&?&?); by exists tr].
  intros [[]|e|].
  - eapply crash_consequence; [apply crash_lift|done|]. by intros ? d [-> ?].
  - eapply crash_consequence; [by apply (crash_cleanup Hquiet (w_disk w) temporary path Hne contents e)| |].
    + intros d Hd. eapply replaced_Err_old_or_new; eauto.
    + by intros ? d [-> ?].
  - by intros ? [].
Qed.

(** ** Inversion of successful runs *)

Lemma io_bind_Ok {E A B} (m : IO E A) (k : A → IO E B) w b w' :
  io_bind m k w = (Ok b, w') → ∃ a w1, m w = (Ok a, w1) ∧ k a w1 = (Ok b, w').
Proof. unfold io_bind. destruct (m w) as [[a|e|] w1]; intros; simplify_eq. eauto. Qed.

Lemma io_map_err_Ok {E F A} (f : E → F) (m : IO E A) w a w' :
  io_map_err f m w = (Ok a, w') → m w = (Ok a, w').
Proof. unfold io_map_err. destruct (m w) as [[a'|e|] w1]; intros; simplify_eq/=. done. Qed.

Lemma io_lift_Ok {E A} (r : result E A) w a w' : io_lift r w = (Ok a, w') → r = Ok a ∧ w' = w.
Proof. unfold io_lift. by intros [= -> ->]. Qed.

Lemma ok_or_Ok {E A} (o : option A) (e : E) a : ok_or o e = Ok a → o = Some a.
Proof. destruct o; simpl; congruence. Qed.

(** A successful operation ran on the disk that the other processes left. *)
Lemma io_op_Ok `{Host} {A} partial (f : Disk → result IoError A * Disk) w a w' :
  io_op partial f w = (Ok a, w') →
  f (host_env (w_tick w) (w_disk w)) = (Ok a, w_disk w') ∧
  w_trace w' = w_disk w' :: w_trace w ∧ w_tick w' = S (w_tick w).
Proof.
  unfold io_op. destruct (host_fault _) as [[??]|]; [done|].
  destruct (f _) as [r d]. by intros [= -> <-].
Qed.

Lemma io_op_sequence `{Host} {A} partial (f : Disk → result IoError A * Disk) w :
  w_sequence (io_op partial f w).2 = w_sequence w.
Proof. unfold io_op. destruct (host_fault _) as [[??]|]; [done|]. by destruct (f _). Qed.

(** ** Absence of panics *)

Definition never_panics {E A} (m : IO E A) : Prop := ∀ w, (m w).1 ≠ Panicked.

Lemma never_panics_ret {E A} (a : A) : never_panics (@io_ret E A a).
Proof. done. Qed.
Lemma never_panics_err {E A} (e : E) : never_panics (@io_err E A e).
Proof. done. Qed.
Lemma never_panics_lift {E A} (r : result E A) : r ≠ Panicked → never_panics (io_lift r).
Proof. by intros ? w. Qed.
Lemma never_panics_bind {E A B} (m : IO E A) (k : A → IO E B) :
  never_panics m → (∀ a, never_panics (k a)) → never_panics (io_bind m k).
Proof.
  intros Hm Hk w. unfold io_bind. specialize (Hm w). destruct (m w) as [[a|e|] w']; [apply Hk|done..].
Qed.
Lemma never_panics_map_err {E F A} (f : E → F) (m : IO E A) :
  never_panics m → never_panics (io_map_err f m).
Proof. intros Hm w. unfold io_map_err. specialize (Hm w). by destruct (m w) as [[a|e|] w']. Qed.
Lemma never_panics_try {E F A B} (m : IO E A) (k : result E A → IO F B) :
  never_panics m → (∀ r, r ≠ Panicked → never_panics (k r)) → never_panics (io_try m k).
Proof.
  intros Hm Hk w. unfold io_try. specialize (Hm w). destruct (m w) as [r w']. by apply Hk.
Qed.
Lemma never_panics_op `{Host} {A} partial (f : Disk → result IoError A * Disk) :
  (∀ d, (f d).1 ≠ Panicked) → never_panics (io_op partial f).
Proof.
  intros Hf w. unfold io_op. destruct (host_fault _) as [[??]|]; [done|].
  specialize (Hf (host_env (w_tick w) (w_disk w))). by destruct (f _).
Qed.
Lemma ok_or_no_panic {E A} (o : option A) (e : E) : ok_or o e ≠ Panicked.
Proof. by destruct o. Qed.

#[export] Hint Resolve never_panics_ret never_panics_err never_panics_lift never_panics_bind
  never_panics_map_err never_panics_try never_panics_op ok_or_no_panic : rust.

Section operations_no_panic.
  Context `{Host}.

Lemma fs_symlink_metadata_np p : never_panics (fs_symlink_metadata p).
Proof. apply never_panics_op. intros d. by repeat case_match. Qed.
Lemma fs_open_nofollow_np p : never_panics (fs_open_nofollow p).
Proof. apply never_panics_op. intros d. by repeat case_match. Qed.
Lemma fs_open_np p : never_panics (fs_open p).
Proof. apply never_panics_op. intros d. by repeat case_match. Qed.
Lemma fs_file_metadata_np i : never_panics (fs_file_metadata i).
Proof. apply never_panics_op. intros d. by repeat case_match. Qed.
Lemma fs_read_to_end_np i : never_panics (fs_read_to_end i).
Proof. apply never_panics_op. intros d. by repeat case_match. Qed.

Lemma fs_create_new_np p m : never_panics (fs_create_new p m).
Proof. apply never_panics_op. intros d. by repeat case_match. Qed.
Lemma fs_rename_np p q : never_panics (fs_rename p q).
Proof. apply never_panics_op. intros d. by repeat case_match. Qed.
Lemma fs_remove_file_np p : never_panics (fs_remove_file p).
Proof. apply never_panics_op. intros d. by repeat case_match. Qed.
Lemma fs_read_file_np p : never_panics (fs_read_file p).
Proof. apply never_panics_bind; [apply fs_open_np|intros; apply fs_read_to_end_np]. Qed.

(** A replace reports every failure as an error. *)
Lemma atomic_replace_np c path encoded : never_panics (atomic_replace c path encoded).
Proof.
  assert (∀ i bs, never_panics (fs_write_all i bs)) as Hwrite by (intros; by apply never_panics_op).
  assert (∀ i, never_panics (fs_sync_all i)) as Hsync by (intros; by apply never_panics_op).
  assert (∀ p, never_panics (fs_sync_directory p)) as Hdir
    by (intros; apply never_panics_bind; [by apply never_panics_op|intros; by apply never_panics_op]).
  unfold atomic_replace. do 2 (apply never_panics_bind; [apply never_panics_lift, ok_or_no_panic|intros ?]).
  apply never_panics_bind; [done|intros ?]. apply never_panics_try.
  - unfold replace_steps.
    apply never_panics_bind; [apply never_panics_map_err, fs_create_new_np|intros ?].
    apply never_panics_bind; [apply never_panics_lift, ok_or_no_panic|intros ?].
    do 2 (apply never_panics_bind; [by apply never_panics_map_err|intros ?]).
    apply never_panics_bind; [apply never_panics_map_err, fs_rename_np|intros ?].
    by apply never_panics_map_err.
  - intros [u|e|] Hr; [done| |done]. apply never_panics_try; [apply fs_remove_file_np|done].
Qed.

End operations_no_panic.
#[export] Hint Resolve atomic_replace_np fs_read_file_np fs_symlink_metadata_np fs_open_nofollow_np fs_open_np fs_file_metadata_np
  fs_read_to_end_np : rust.

(** ** Runs without faults *)

Definition no_faults (H : Host) : Prop := ∀ t, host_fault t = None.

(** The world after one operation that left disk [d]. *)
Definition after (d : Disk) (w : World) : World :=
  {| w_disk := d; w_tick := S (w_tick w); w_trace := d :: w_trace w; w_sequence := w_sequence w |}.

Section no_faults.
  Context `{Host} (Hquiet : quiet _) (Hnf : no_faults _).

Lemma io_op_runs {A} partial (f : Disk → result IoError A * Disk) w :
  io_op partial f w = ((f (w_disk w)).1, after (f (w_disk w)).2 w).
Proof. unfold io_op. rewrite Hquiet, Hnf. by destruct (f (w_disk w)). Qed.

(** A file that is not a symbolic link is read as it is. *)
Lemma fs_read_file_at p n w :
  file_at (w_disk w) p = Some n → i_kind n ≠ Symlink → (fs_read_file p w).1 = Ok (i_data n).
Proof.
  unfold file_at. intros Hf Hk. destruct (node_at (w_disk w) p) as [[i n']|] eqn:Hn; simplify_eq/=.
  unfold fs_read_file, io_bind, fs_open. rewrite io_op_runs.
  assert (resolve 40 (w_disk w) p = Some (i, n)) as ->.
  { unfold resolve. rewrite Hn, bool_decide_eq_false_2 by done. done. }
  simpl. unfold fs_read_to_end. rewrite io_op_runs. simpl. unfold node_at in Hn.
  destruct (d_names (w_disk w) !! p); [|done]. destruct (d_inodes (w_disk w) !! _) eqn:Hi; simplify_eq/=.
  by rewrite Hi.
Qed.

(** With a free temporary name the replace succeeds. *)
Lemma atomic_replace_succeeds c path parent f contents w :
  path_parent path = Some parent → path_file_name path = Some f →
  d_names (w_disk w) !! path_join parent (temporary_name f (w_sequence w c)) = None →
  (atomic_replace c path (Some contents) w).1 = Ok tt.
Proof.
  intros Hp Hf Hfree. unfold atomic_replace. rewrite Hp, Hf.
  unfold io_bind, io_lift, ok_or, fetch_add, io_try, replace_steps, io_bind, io_map_err, io_lift, ok_or.
  unfold fs_create_new. rewrite io_op_runs. cbn [w_disk]. rewrite Hfree. simpl.
  unfold fs_write_all. rewrite io_op_runs. simpl. unfold fs_sync_all. rewrite io_op_runs. simpl.
  unfold fs_rename. rewrite io_op_runs. simpl. rewrite lookup_insert_eq. simpl.
  unfold fs_sync_directory, io_bind. rewrite io_op_runs. simpl. by rewrite io_op_runs.
Qed.

(** What a replace wrote is what the next reader gets. *)
Lemma replace_then_read c path parent f contents w :
  disk_wf (w_disk w) → path_is_absolute path = true →
  path_parent path = Some parent → path_file_name path = Some f →
  d_names (w_disk w) !! path_join parent (temporary_name f (w_sequence w c)) = None →
  ∃ w', atomic_replace c path (Some contents) w = (Ok tt, w') ∧
    (fs_read_file path w').1 = Ok contents.
Proof.
  intros Hd Habs Hp Hf Hfree.
  destruct (atomic_replace_safe c path parent f contents w Hquiet Hd Habs Hp Hf) as (_&_&_&Hout).
  pose proof (atomic_replace_succeeds c path parent f contents w Hp Hf Hfree) as Hok.
  destruct (atomic_replace _ _ _ _) as [o w']. simpl in *. subst o. exists w'. split; [done|].
  destruct Hout as (Hat&_&_). by rewrite (fs_read_file_at path _ w' Hat).
Qed.

End no_faults.

(** ** Directories *)

(** [q] is [dir] or lies below it. *)
Definition under (dir q : string) : bool := bool_decide (q = dir) || below dir q.

Lemma under_false dir q : under dir q = false ↔ q ≠ dir ∧ strip_prefix (dir +:+ "/") q = None.
Proof.
  unfold under, below, starts_with. rewrite orb_false_iff, !bool_decide_eq_false.
  by rewrite eq_None_not_Some.
Qed.

Lemma moved_outside from to p q : under to q = false → moved from to p = q → p = q ∧ under from q = false.
Proof.
  intros [Hne Hs]%under_false. unfold moved. case_bool_decide as Hp; [by intros ->|].
  destruct (strip_prefix (from +:+ "/") p) as [rest|] eqn:Hm.
  - intros <-. by rewrite <- str_app_assoc, strip_prefix_app in Hs.
  - intros ->. split; [done|]. by apply under_false.
Qed.

Lemma moved_id from to q : under from q = false → moved from to q = q.
Proof. intros [Hne Hs]%under_false. unfold moved. by rewrite bool_decide_eq_false_2, Hs. Qed.

(** The names outside the target after a rename. *)
Lemma renamed_lookup from to (names : gmap string Z) q :
  under to q = false →
  (list_to_map (map (λ e, (moved from to e.1, e.2)) (map_to_list (delete to names))) : gmap string Z) !! q
  = if under from q then None else names !! q.
Proof.
  intros Hto. set (l := map _ _).
  assert (∀ x, (q, x) ∈ l ↔ under from q = false ∧ names !! q = Some x) as Hl.
  { intros x. unfold l. rewrite list_elem_of_fmap. split.
    - intros ([p y]&[= Hq ->]&Hin). apply elem_of_map_to_list in Hin.
      destruct (moved_outside from to p q Hto) as [-> ?]; [done|].
      apply under_false in Hto as [??]. by rewrite lookup_delete_ne in Hin.
    - intros [Hf Hn]. exists (q, x). simpl. rewrite moved_id by done. split; [done|].
      apply elem_of_map_to_list. apply under_false in Hto as [??]. by rewrite lookup_delete_ne. }
  apply option_eq. intros x. split.
  - intros [Hf Hn]%elem_of_list_to_map_2%Hl. by rewrite Hf.
  - destruct (under from q) eqn:Hf; [done|]. intros Hn. apply elem_of_list_to_map'; [|by apply Hl].
    intros y _ [_ Hy]%Hl. congruence.
Qed.

Section directories.
  Context `{Host} (Hquiet : quiet _).

Lemma fs_rename_dir_Ok from to w w' :
  from ≠ to → fs_rename_dir from to w = (Ok tt, w') →
  (∀ q, under to q = false →
     file_at (w_disk w') q = if under from q then None else file_at (w_disk w) q) ∧
  (disk_wf (w_disk w) → disk_wf (w_disk w')) ∧ w_sequence w' = w_sequence w.
Proof.
  intros Hne Hrun. assert (w_sequence w' = w_sequence w) as Hs.
  { apply (f_equal (w_sequence ∘ snd)) in Hrun. simpl in Hrun. rewrite <- Hrun. apply io_op_sequence. }
  apply io_op_Ok in Hrun as (Hrun&_&_). rewrite Hquiet in Hrun.
  destruct (d_names (w_disk w) !! from); [|done]. rewrite bool_decide_eq_false_2 in Hrun by done.
  case_match; simplify_eq/=. destruct w' as [d' ? ? ?]. simpl in *. subst d'. split_and!; [| |done].
  - intros q Hq. rewrite !file_at_ino. cbn [with_names d_names d_inodes].
    rewrite renamed_lookup by done. by destruct (under from q).
  - intros [Hn Hi]. split; [|done]. cbn [with_names d_names d_next]. intros p i Hp.
    apply elem_of_list_to_map_2, list_elem_of_fmap in Hp as ([p' i']&[= -> ->]&Hin).
    apply elem_of_map_to_list, lookup_delete_Some in Hin as [_ Hin]. eauto.
Qed.

Lemma fs_remove_dir_all_Ok p w w' :
  fs_remove_dir_all p w = (Ok tt, w') →
  ∀ q, file_at (w_disk w') q = if under p q then None else file_at (w_disk w) q.
Proof.
  intros (Hrun&_&_)%io_op_Ok q. rewrite Hquiet in Hrun.
  destruct (d_names (w_disk w) !! p); simplify_eq/=. rewrite <- Hrun, !file_at_ino.
  cbn [with_names d_names d_inodes]. unfold under.
  destruct (bool_decide (q = p)) eqn:Hqp; [|destruct (below p q) eqn:Hb]; cbn [orb];
    apply bool_decide_eq_true in Hqp || apply bool_decide_eq_false in Hqp.
  - rewrite map_lookup_filter_None_2; [done|]. right. intros x _ [??]. done.
  - rewrite map_lookup_filter_None_2; [done|]. right. intros x _ [_ Hx]. simpl in Hx. congruence.
  - rewrite map_lookup_filter. destruct (d_names (w_disk w) !! q); simpl; [|done].
    by rewrite option_guard_True.
Qed.

(** A directory cannot be renamed onto one with contents. *)
Lemma fs_rename_dir_occupied from to q i w :
  no_faults _ → is_Some (d_names (w_disk w) !! from) → from ≠ to →
  d_names (w_disk w) !! q = Some i → below to q = true →
  (fs_rename_dir from to w).1 = Err OtherIo ∧ w_disk (fs_rename_dir from to w).2 = w_disk w.
Proof.
  intros Hnf [j Hj] Hne Hq Hb. unfold fs_rename_dir. rewrite io_op_runs by done. rewrite Hj.
  rewrite bool_decide_eq_false_2 by done.
  assert (rename_refused (w_disk w) from to = true) as ->; [|done].
  unfold rename_refused. apply orb_true_iff. left. apply orb_true_iff. right.
  apply existsb_exists. exists (q, i). split; [|done]. by apply list_elem_of_In, elem_of_map_to_list.
Qed.

End directories.

(** A host without interference or faults, on an empty disk. *)
Definition calm_host : Host :=
  {| host_pid := 1; host_uid := 0; host_fault := λ _, None; host_env := λ _ d, d |}.
Definition empty_world : World :=
  {| w_disk := mkDisk ∅ ∅ 0; w_tick := 0; w_trace := []; w_sequence := λ _, 0%Z |}.

(** A disk with the files and directories of a list. *)
Definition disk_of (l : list (string * Inode)) : Disk :=
  foldr (λ e d, mkDisk (<[e.1 := d_next d]> (d_names d)) (<[d_next d := e.2]> (d_inodes d)) (d_next d + 1))
        (mkDisk ∅ ∅ 0) l.
Definition world_of (l : list (string * Inode)) : World :=
  {| w_disk := disk_of l; w_tick := 0; w_trace := []; w_sequence := λ _, 0%Z |}.

Lemma disk_of_wf l : disk_wf (disk_of l).
Proof.
  assert (disk_wf (disk_of l) ∧ 0 ≤ d_next (disk_of l))%Z as [??]; [|done].
  induction l as [|e l [[Hn Hi] H0]]; simpl; [by split; [split|]|].
  split; [|lia]. split; simpl.
  - intros p i [[_ <-]|[_ ?%Hn]]%lookup_insert_Some; lia.
  - intros i n [[<- _]|[_ ?%Hi]]%lookup_insert_Some; lia.
Qed.

(** ** A concrete codec

    An encoder and decoder for any countable type, which shows that the
    assumptions on serde made in the theorems can hold. *)

Fixpoint bits_of (p : positive) : list ascii :=
  match p with
  | xH => []
  | xO p => "0"%char :: bits_of p
  | xI p => "1"%char :: bits_of p
  end.
Fixpoint of_bits (l : list ascii) : positive :=
  match l with
  | [] => xH
  | a :: l => if decide (a = "0"%char) then xO (of_bits l)
              else if decide (a = "1"%char) then xI (of_bits l) else xH
  end.
Definition bits_codec {A} `{Countable A} : Codec A :=
  {| to_json := λ a, Some (bits_of (encode a)); from_json := λ bs, decode (of_bits bs) |}.

Lemma of_bits_of p : of_bits (bits_of p ++ [newline]) = p.
Proof. induction p as [p IH|p IH|]; simpl; [by rewrite IH..|done]. Qed.

(** serde reads back what it wrote. *)
Definition codec_roundtrip {A} (C : Codec A) : Prop :=
  ∀ a, ∃ bs, to_json a = Some bs ∧ from_json (bs ++ [newline]) = Some a.

Lemma bits_codec_roundtrip {A} `{Countable A} : codec_roundtrip (A := A) bits_codec.
Proof. intros a. eexists. split; [done|]. simpl. by rewrite of_bits_of, decode_encode. Qed.
