(* ===== verification/Framing.v ===== *)
(** * Framed JSON messages

    Every protocol crate of the repository (cp0-appd/src/protocol.rs and
    broker.rs, cp0-storage-protocol, cp0-network-protocol, ...) has its own
    copy of the same four functions: [read_frame], [write_frame] and, on top of
    them, the reading and writing of a validated message.  They differ only in
    the largest frame and in the error type, which are parameters here: the
    class [FrameErrors] holds the error constructors of a protocol.  The reader
    gets its bytes in pieces, as [BufRead::fill_buf] delivers them, and any of
    these reads may fail. *)

From S2P Require Import Prelude RustStr HostFs.

(** What a reader still delivers: the pieces of successive [fill_buf] calls. *)
Definition Reader : Type := list (result IoError (list ascii)).

Definition is_newline (b : ascii) : bool := bool_decide (b = newline).

Class FrameErrors (E : Type) := {
  frame_io : IoError → E;
  frame_json : E;
  frame_too_large : E;
  frame_unterminated : E;
}.

Section framing.
  Context {E : Type} `{FrameErrors E} (max : nat).

(** The loop of [read_frame]: the frame so far, whether it is terminated, and
    the reader after [consume]. *)
Fixpoint read_frame_loop (frame : list ascii) (r : Reader) : result E (list ascii * bool) * Reader :=
  match r with
  | [] => (Ok (frame, false), [])
  | Err e :: r => (Err (frame_io e), r)
  | Panicked :: r => (Panicked, r)
  | Ok [] :: r => (Ok (frame, false), r)
  | Ok available :: r =>
      let consumed := match position is_newline available with Some p => S p | None => length available end in
      if (max <? length frame + consumed)%nat then (Err frame_too_large, Ok available :: r)
      else
        let terminated := match available !! (consumed - 1)%nat with Some b => is_newline b | None => false end in
        let frame := frame ++ take consumed available in
        if terminated
        then (Ok (frame, true), match drop consumed available with [] => r | rest => Ok rest :: r end)
        else read_frame_loop frame r
  end.

Definition read_frame (r : Reader) : result E (option (list ascii)) * Reader :=
  let '(loop, r) := read_frame_loop [] r in
  (match loop with
   | Ok ([], _) => Ok None
   | Ok (frame, true) => Ok (Some (removelast frame))
   | Ok (_, false) => Err frame_unterminated
   | Err e => Err e
   | Panicked => Panicked
   end, r).

(** [write_frame]: the bytes handed to the writer; [None] is a failing encoder. *)
Definition write_frame (encoded : option (list ascii)) : result E (list ascii) :=
  match encoded with
  | None => Err frame_json
  | Some encoded =>
      if (max <? length encoded + 1)%nat then Err frame_too_large else Ok (encoded ++ [newline])
  end.

(** Reading and writing a message of type [M] with its check. *)
Definition read_message {M} (validate : M → result E unit) (from_slice : list ascii → option M) (r : Reader)
    : result E (option M) * Reader :=
  let '(frame, r) := read_frame r in
  (match frame with
   | Ok None => Ok None
   | Ok (Some frame) =>
       let? message := ok_or (from_slice frame) frame_json in
       let? _ := validate message in
       Ok (Some message)
   | Err e => Err e
   | Panicked => Panicked
   end, r).

Definition write_message {M} (validate : M → result E unit) (to_vec : M → option (list ascii)) (message : M)
    : result E (list ascii) :=
  let? _ := validate message in
  write_frame (to_vec message).

End framing.

(** ** Lemmas *)

Lemma position_split {A} (f : A → bool) l p :
  position f l = Some p → ∃ a x b, l = a ++ x :: b ∧ length a = p ∧ f x = true ∧ Forall (λ y, f y = false) a.
Proof.
  revert p. induction l as [|y l IH]; intros p; simpl; [done|]. destruct (f y) eqn:Hy.
  - intros [= <-]. by exists [], y, l.
  - destruct (position f l) as [q|] eqn:Hq; [|done]. intros [= <-].
    destruct (IH q eq_refl) as (a&x&b&->&<-&?&?). exists (y :: a), x, b. split_and!; [done..|]. by constructor.
Qed.

Lemma position_None {A} (f : A → bool) l : position f l = None → Forall (λ y, f y = false) l.
Proof.
  induction l as [|y l IH]; simpl; [constructor|]. destruct (f y) eqn:Hy; [done|].
  destruct (position f l); [done|]. constructor; auto.
Qed.

Lemma first_newline_unique a b c d :
  Forall (λ y, is_newline y = false) a → Forall (λ y, is_newline y = false) c →
  a ++ newline :: b = c ++ newline :: d → a = c ∧ b = d.
Proof.
  revert c. induction a as [|x a IH]; intros [|y c] Ha Hc; simpl; intros Heq; simplify_eq.
  - done.
  - by apply Forall_cons in Hc as [? _].
  - by apply Forall_cons in Ha as [? _].
  - apply Forall_cons in Ha as [_ Ha], Hc as [_ Hc]. by destruct (IH c Ha Hc) as [-> ->].
Qed.

Definition reader_of (chunks : list (list ascii)) : Reader := Ok <$> chunks.

(** The bytes a reader still delivers before the first failure. *)
Fixpoint reader_bytes (r : Reader) : list ascii :=
  match r with Ok bs :: r => bs ++ reader_bytes r | _ => [] end.

Lemma reader_bytes_of chunks : reader_bytes (reader_of chunks) = concat chunks.
Proof. induction chunks as [|c l IH]; simpl; [done|]. by rewrite <- IH. Qed.

Section framing_lemmas.
  Context {E : Type} `{FrameErrors E} (max : nat).

Lemma read_frame_loop_finds chunks frame pre rest :
  Forall (λ c, c ≠ []) chunks → Forall (λ y, is_newline y = false) pre →
  concat chunks = pre ++ newline :: rest → (length frame + length pre + 1 ≤ max)%nat →
  ∃ r', read_frame_loop max frame (reader_of chunks) = (Ok (frame ++ pre ++ [newline], true), r') ∧
    reader_bytes r' = rest.
Proof.
  revert frame pre. induction chunks as [|c l IH]; intros frame pre Hne Hpre Hcat Hmax; simpl in *.
  { by destruct pre. }
  apply Forall_cons in Hne as [Hc Hne]. destruct c as [|b0 c0] eqn:Hc0; [done|]. rewrite <- Hc0 in *. clear Hc0 b0 c0.
  destruct (position is_newline c) as [p|] eqn:Hp.
  - apply position_split in Hp as (a&x&b&->&<-&Hx&Ha). apply bool_decide_eq_true in Hx as ->.
    rewrite <- app_assoc in Hcat. simpl in Hcat. apply first_newline_unique in Hcat as [-> <-]; [|done..].
    destruct (Nat.ltb_spec max (length frame + S (length pre))) as [|_]; [lia|].
    replace (S (length pre) - 1)%nat with (length pre) by lia. rewrite lookup_app_r, Nat.sub_diag by lia. simpl.
    replace (pre ++ newline :: b) with ((pre ++ [newline]) ++ b) by (by rewrite <- app_assoc).
    rewrite take_app_length', drop_app_length' by (rewrite length_app; simpl; lia).
    eexists. split; [done|]. destruct b; simpl; by rewrite reader_bytes_of.
  - apply position_None in Hp as Hc1.
    assert (∃ pre', pre = c ++ pre' ∧ concat l = pre' ++ newline :: rest) as (pre'&->&Hl).
    { clear -Hcat Hc1. revert pre Hcat. induction c as [|y c IHc]; intros pre Hcat; [by exists pre|].
      apply Forall_cons in Hc1 as [Hy Hc1]. destruct pre as [|z pre]; simplify_eq/=.
      destruct (IHc Hc1 pre) as (pre'&->&?); [done|]. by exists pre'. }
    apply Forall_app in Hpre as [_ Hpre]. rewrite length_app in Hmax.
    destruct (Nat.ltb_spec max (length frame + length c)) as [|_]; [lia|].
    assert (match c !! (length c - 1)%nat with Some b => is_newline b | None => false end = false) as ->.
    { destruct (c !! _) as [b|] eqn:Hb; [|done]. apply (Forall_lookup_1 _ _ _ _ Hc1) in Hb. done. }
    rewrite take_ge by lia. destruct (IH (frame ++ c) pre') as (r'&Hr&Hrest); [done..|rewrite length_app; lia|].
    exists r'. rewrite Hr. by rewrite <- !app_assoc.
Qed.

Lemma read_frame_finds chunks encoded rest :
  Forall (λ c, c ≠ []) chunks → newline ∉ encoded → (length encoded < max)%nat →
  concat chunks = encoded ++ newline :: rest →
  ∃ r', read_frame max (reader_of chunks) = (Ok (Some encoded), r') ∧ reader_bytes r' = rest.
Proof.
  intros Hne Hnl Hlen Hcat. destruct (read_frame_loop_finds chunks [] encoded rest) as (r'&Hr&Hrest); [done| |done| |].
  - apply Forall_forall. intros y Hy. apply bool_decide_eq_false_2. by intros ->.
  - simpl. lia.
  - exists r'. split; [|done]. unfold read_frame. rewrite Hr. rewrite app_nil_l.
    destruct encoded as [|b encoded]; [done|]. simpl app. cbv iota.
    change (b :: encoded ++ [newline]) with ((b :: encoded) ++ [newline]). by rewrite removelast_last.
Qed.

(** serde reads back what it wrote, on one line. *)
Definition line_codec {M} (to_vec : M → option (list ascii)) (from_slice : list ascii → option M) : Prop :=
  ∀ m bs, to_vec m = Some bs → from_slice bs = Some m ∧ newline ∉ bs.

(** A message that was written is read back whatever the sizes of the pieces,
    and the reader is left at the first byte after it. *)
Lemma message_roundtrip {M} (validate : M → result E unit) to_vec from_slice message bytes chunks rest :
  line_codec to_vec from_slice → write_message max validate to_vec message = Ok bytes →
  Forall (λ c, c ≠ []) chunks → concat chunks = bytes ++ rest →
  ∃ r', read_message max validate from_slice (reader_of chunks) = (Ok (Some message), r') ∧ reader_bytes r' = rest.
Proof.
  intros Hcodec Hw Hne Hcat. unfold write_message in Hw.
  destruct (validate message) as [[]| |] eqn:Hv; [|done..].
  unfold write_frame in Hw. destruct (to_vec message) as [bs|] eqn:Hbs; [|done].
  destruct (Hcodec _ _ Hbs) as [Hfrom Hnl].
  destruct (Nat.ltb_spec max (length bs + 1)) as [|Hlen]; [done|]. injection Hw as <-.
  rewrite <- app_assoc in Hcat. destruct (read_frame_finds chunks bs rest) as (r'&Hr&Hrest); [done..|lia|done|].
  exists r'. split; [|done]. unfold read_message. rewrite Hr. simpl. by rewrite Hfrom; simpl; rewrite Hv.
Qed.

(** Whatever is read passed the check. *)
Lemma read_message_valid {M} (validate : M → result E unit) from_slice r message r' :
  read_message max validate from_slice r = (Ok (Some message), r') → validate message = Ok tt.
Proof.
  unfold read_message. destruct (read_frame max r) as [[[frame|]| |] r1]; intros [= Hm _].
  destruct (from_slice frame) as [m|]; simpl in Hm; [|done].
  destruct (validate m) as [[]| |] eqn:Hv; simpl in Hm; congruence.
Qed.

End framing_lemmas.
