(* ===== verification/FsLogic.v ===== *)
(** * Invariants of file system programs

    [safe I m φ]: run from a disk that satisfies [I], every disk that [m] passes
    through satisfies [I], whatever operation fails and wherever the device
    stops, and a result satisfies [φ].  [frame I may own] collects what an
    invariant must tolerate so that a program that only touches the names [may]
    and the inodes [own] keeps it; the programs are proved safe once, for every
    frame.  Three frames are used: a set of names is left alone ([kept]),
    everything outside a directory ([confined]), and one file ([pinned]). *)

From S2P Require Import Prelude RustStr HostFs.

(** ** Safe programs *)

Section safe.
  Context `{Host} (Hquiet : quiet _) (I : Disk → Prop).

Definition safe {E A} (m : IO E A) (φ : A → Prop) : Prop :=
  crash_spec I m I (λ r d, I d ∧ ∀ a, r = Ok a → φ a).

Lemma safe_weaken {E A} (m : IO E A) (φ ψ : A → Prop) : safe m φ → (∀ a, φ a → ψ a) → safe m ψ.
Proof. intros Hm Hφ. eapply crash_consequence; [exact Hm|done|]. intros r d [??]. eauto. Qed.

Lemma safe_lift {E A} (r : result E A) φ : (∀ a, r = Ok a → φ a) → safe (io_lift r) φ.
Proof. intros Hr w Hw. exists []. split_and!; [done|constructor|done|exact Hr]. Qed.
Lemma safe_ret {E A} (a : A) (φ : A → Prop) : φ a → safe (@io_ret E A a) φ.
Proof. intros Ha. apply (safe_lift (Ok a)). by intros ? [= <-]. Qed.
Lemma safe_err {E A} (e : E) (φ : A → Prop) : safe (@io_err E A e) φ.
Proof. by apply (safe_lift (Err e)). Qed.
Lemma safe_guard {E} b (e : E) : safe (io_guard b e) (λ _, b = false).
Proof. apply safe_lift. by destruct b. Qed.

Lemma safe_bind {E A B} (m : IO E A) (k : A → IO E B) φ ψ :
  safe m φ → (∀ a, φ a → safe (k a) ψ) → safe (io_bind m k) ψ.
Proof.
  intros Hm Hk. eapply crash_bind; [exact Hm| |by intros e d [??]; split|by intros d [??]; split].
  intros a w [Hw Ha]. by apply (Hk a (Ha a eq_refl)).
Qed.

Lemma safe_try {E F A B} (m : IO E A) (k : result E A → IO F B) φ ψ :
  safe m φ → (∀ r, (∀ a, r = Ok a → φ a) → safe (k r) ψ) → safe (io_try m k) ψ.
Proof. intros Hm Hk. eapply crash_try; [exact Hm|]. intros r w [Hw Hr]. by apply (Hk r Hr). Qed.

Lemma safe_map_err {E F A} (f : E → F) (m : IO E A) φ : safe m φ → safe (io_map_err f m) φ.
Proof.
  intros Hm. apply crash_map_err. eapply crash_consequence; [exact Hm|done|].
  intros r d [? Hr]. split; [done|]. intros b Hb. apply Hr. by destruct r; simplify_eq/=.
Qed.

Lemma safe_op {A} partial (f : Disk → result IoError A * Disk) (φ : A → Prop) :
  (∀ d n, I d → I (partial n d)) → (∀ d, I d → I (f d).2) → (∀ d a, I d → (f d).1 = Ok a → φ a) →
  safe (io_op partial f) φ.
Proof. intros Hp Hf Hφ. apply crash_op; [done| |]; intros; split_and!; eauto; by intros. Qed.

(** Reading the disk; the fact [φ] may come from the invariant. *)
Lemma safe_read {A} (f : Disk → result IoError A * Disk) (φ : A → Prop) :
  (∀ d, (f d).2 = d) → (∀ d a, I d → (f d).1 = Ok a → φ a) → safe (io_op (λ _ d, d) f) φ.
Proof. intros Hf Hφ. apply safe_op; [done| |done]. intros d Hd. by rewrite Hf. Qed.

Lemma safe_fs_symlink_metadata p :
  safe (fs_symlink_metadata p) (λ md, ∃ d i n, I d ∧ node_at d p = Some (i, n) ∧ md = metadata_of i n).
Proof.
  apply safe_read; [intros d; by repeat case_match|]. intros d md Hd.
  destruct (node_at d p) as [[i n]|] eqn:Hn; [|done]. intros [= <-]. eauto 6.
Qed.
Lemma safe_fs_open_nofollow p : safe (fs_open_nofollow p) (λ i, ∃ d n, I d ∧ node_at d p = Some (i, n)).
Proof.
  apply safe_read; [intros d; by repeat case_match|]. intros d j Hd.
  destruct (node_at d p) as [[i n]|] eqn:Hn; [|done]. case_match; [done|]. intros [= <-]. eauto.
Qed.
Lemma safe_fs_open_write p : safe (fs_open_write_nofollow p) (λ i, ∃ d n, I d ∧ node_at d p = Some (i, n)).
Proof.
  apply safe_read; [intros d; by repeat case_match|]. intros d j Hd.
  destruct (node_at d p) as [[i n]|] eqn:Hn; [|done]. case_match; [|done]. intros [= <-]. eauto.
Qed.
Lemma safe_fs_file_metadata i : safe (fs_file_metadata i) (λ _, True).
Proof. apply safe_read; [intros d; by repeat case_match|done]. Qed.
Lemma safe_fs_read_to_end i : safe (fs_read_to_end i) (λ _, True).
Proof. apply safe_read; [intros d; by repeat case_match|done]. Qed.
Lemma safe_fs_read_at i o n : safe (fs_read_at i o n) (λ _, True).
Proof. apply safe_read; [|done]. intros d. destruct (d_inodes d !! i); cbn zeta; by repeat case_match. Qed.
Lemma safe_fs_next_entry : safe fs_next_entry (λ _, True).
Proof. by apply safe_read. Qed.
Lemma safe_fs_sync_directory p : safe (fs_sync_directory p) (λ _, True).
Proof. apply (safe_bind _ _ (λ _, True)); [by apply safe_read|]. intros. by apply safe_read. Qed.

(** The entries read from a directory are all the names the disk has in it. *)
Lemma safe_fs_read_dir p :
  safe (fs_read_dir p) (λ l, ∃ d, I d ∧ ∀ q, q ∈ l ↔ is_Some (d_names d !! q) ∧ child_of p q = true).
Proof.
  apply safe_read; [intros d; by repeat case_match|]. intros d l Hd.
  destruct (node_at d p) as [[i n]|]; [|done]. case_match; [|done]. intros [= <-]. exists d. split; [done|].
  intros q. rewrite list_elem_of_In, filter_In, <- list_elem_of_In, list_elem_of_fmap. split.
  - intros [([q' j]&->&Hj)Hc]. apply elem_of_map_to_list in Hj. simpl. eauto.
  - intros [[j Hj] Hc]. split; [|done]. exists (q, j). by rewrite elem_of_map_to_list.
Qed.

(** Steps whose result does not matter. *)
Lemma safe_any {E A} (m : IO E A) φ : safe m φ → safe m (λ _, True).
Proof. intros Hm. by apply (safe_weaken _ _ _ Hm). Qed.
Lemma safe_then {E A B} (m : IO E A) (k : A → IO E B) ψ :
  safe m (λ _, True) → (∀ a, safe (k a) ψ) → safe (io_bind m k) ψ.
Proof. intros Hm Hk. by apply (safe_bind _ _ _ _ Hm). Qed.
Lemma safe_or {E F A B} (m : IO E A) (k : result E A → IO F B) ψ :
  safe m (λ _, True) → (∀ r, safe (k r) ψ) → safe (io_try m k) ψ.
Proof. intros Hm Hk. by apply (safe_try _ _ _ _ Hm). Qed.
Lemma safe_guard_any {E} b (e : E) : safe (io_guard b e) (λ _, True).
Proof. eapply safe_any, safe_guard. Qed.
Lemma safe_metadata p : safe (fs_symlink_metadata p) (λ _, True).
Proof. eapply safe_any, safe_fs_symlink_metadata. Qed.
Lemma safe_open p : safe (fs_open_nofollow p) (λ _, True).
Proof. eapply safe_any, safe_fs_open_nofollow. Qed.
Lemma safe_look {A} (f : Disk → A) : safe (io_op (λ _ d, d) (λ d, (Ok (f d), d))) (λ _, True).
Proof. by apply safe_read. Qed.
Lemma safe_list p : safe (fs_read_dir p) (λ _, True).
Proof. eapply safe_any, safe_fs_read_dir. Qed.

End safe.

(** The steps that only read, and the bookkeeping around them. *)
Ltac safe_step :=
  match goal with
  | |- safe _ (io_ret _) _ => by apply safe_ret
  | |- safe _ (io_err _) _ => apply safe_err
  | |- safe _ (io_lift _) _ => by apply safe_lift
  | |- safe _ (io_guard _ _) _ => apply safe_guard_any
  | |- safe _ (fs_symlink_metadata _) _ => by apply safe_metadata
  | |- safe _ (fs_open_nofollow _) _ => by apply safe_open
  | |- safe _ (fs_file_metadata _) _ => by apply safe_fs_file_metadata
  | |- safe _ (fs_read_to_end _) _ => by apply safe_fs_read_to_end
  | |- safe _ (fs_read_at _ _ _) _ => by apply safe_fs_read_at
  | |- safe _ (fs_read_dir _) _ => by apply safe_list
  | |- safe _ fs_next_entry _ => by apply safe_fs_next_entry
  | |- safe _ (fs_sync_directory _) _ => by apply safe_fs_sync_directory
  | |- safe _ (io_op (λ _ d, d) (λ d, (Ok _, d))) _ => by apply safe_look
  | |- safe _ (io_map_err _ _) _ => apply safe_map_err
  | |- safe _ (io_bind _ _) _ => apply safe_then; [|intros ?]
  | |- safe _ (io_try _ _) _ => apply safe_or; [|intros ?]
  | |- safe _ (if ?b then _ else _) _ => destruct b eqn:?
  | |- safe _ (match ?x with _ => _ end) _ => destruct x eqn:?
  | |- safe _ (let _ := _ in _) _ => cbv zeta
  end.
Ltac safe_steps := repeat safe_step.

(** ** Frames *)

(** A disk with a new inode under a new name. *)
Definition new_node (p : string) (n : Inode) (d : Disk) : Disk :=
  {| d_names := <[p := d_next d]> (d_names d); d_inodes := <[d_next d := n]> (d_inodes d); d_next := d_next d + 1 |}.

Record frame (I : Disk → Prop) (may : string → Prop) (own : Z → Prop) : Prop := {
  fr_create : ∀ d p n, I d → may p → d_names d !! p = None → I (new_node p n d);
  fr_fresh : ∀ d, I d → own (d_next d);
  fr_open : ∀ d p i n, I d → may p → node_at d p = Some (i, n) → own i;
  fr_alter : ∀ d f i, I d → own i → I (alter_inode f i d);
  fr_rename : ∀ d p q i, I d → may p → may q → d_names d !! p = Some i →
    I (with_names (<[q := i]> (delete p (d_names d))) d);
  fr_remove : ∀ d p, I d → may p → I (with_names (delete p (d_names d)) d);
}.

Section frame.
  Context `{Host} (Hquiet : quiet _) (I : Disk → Prop) (may : string → Prop) (own : Z → Prop).
  Context (Hframe : frame I may own).
  Local Notation safe := (safe I).

Lemma frame_create_new p mode : may p → safe (fs_create_new p mode) own.
Proof.
  intros Hp. apply safe_op; [done|done|..].
  - intros d Hd. case_match eqn:Hn; [done|]. by apply (fr_create _ _ _ Hframe d p).
  - intros d i Hd. case_match; [done|]. intros [= <-]. by apply (fr_fresh _ _ _ Hframe).
Qed.
Lemma frame_create_dir p mode : may p → safe (fs_create_dir p mode) (λ _, True).
Proof.
  intros Hp. apply safe_op; [done|done|..|done].
  intros d Hd. case_match eqn:Hn; [done|]. by apply (fr_create _ _ _ Hframe d p).
Qed.
Lemma frame_open_write p : may p → safe (fs_open_write_nofollow p) own.
Proof.
  intros Hp. eapply safe_weaken; [by apply safe_fs_open_write|]. intros i (d&n&Hd&Hn).
  by apply (fr_open _ _ _ Hframe d p i n).
Qed.
Lemma frame_write_all i bs : own i → safe (fs_write_all i bs) (λ _, True).
Proof. intros Hi. apply safe_op; [done|..|done]; intros; by apply (fr_alter _ _ _ Hframe). Qed.
Lemma frame_write_at i o bs : own i → safe (fs_write_at i o bs) (λ _, True).
Proof. intros Hi. apply safe_op; [done|..|done]; intros; by apply (fr_alter _ _ _ Hframe). Qed.
Lemma frame_sync_all i : own i → safe (fs_sync_all i) (λ _, True).
Proof. intros Hi. apply safe_op; [done..| |done]. intros; by apply (fr_alter _ _ _ Hframe). Qed.
Lemma frame_rename p q : may p → may q → safe (fs_rename p q) (λ _, True).
Proof.
  intros Hp Hq. apply safe_op; [done..| |done]. intros d Hd. case_match eqn:Hn; [|done].
  by apply (fr_rename _ _ _ Hframe d p q).
Qed.
Lemma frame_remove_file p : may p → safe (fs_remove_file p) (λ _, True).
Proof.
  intros Hp. apply safe_op; [done..| |done]. intros d Hd. case_match eqn:Hn; [|done]. repeat case_match; [done|].
  by apply (fr_remove _ _ _ Hframe d p).
Qed.

(** The steps of a replace. *)
Lemma frame_replace_steps temporary path parent encoded :
  may temporary → may path → safe (replace_steps temporary path parent encoded) (λ _, True).
Proof.
  intros Ht Hp. unfold replace_steps.
  eapply safe_bind; [by apply safe_map_err, frame_create_new|]. intros i Hi.
  eapply (safe_bind _ _ _ (λ _, True)); [by apply safe_lift|]. intros bs _.
  eapply safe_bind; [by apply safe_map_err, frame_write_all|]. intros _ _.
  eapply safe_bind; [by apply safe_map_err, frame_sync_all|]. intros _ _.
  eapply safe_bind; [by apply safe_map_err, frame_rename|]. intros _ _.
  by apply safe_map_err, safe_fs_sync_directory.
Qed.

End frame.

(** ** A set of names is left alone *)

Lemma disk_wf_new p n d : disk_wf d → disk_wf (new_node p n d).
Proof.
  intros [Hn Hi]. split; simpl.
  - intros q j [[_ <-]|[_ ?%Hn]]%lookup_insert_Some; lia.
  - intros j m [[<- _]|[_ ?%Hi]]%lookup_insert_Some; lia.
Qed.
Lemma disk_wf_alter f i d : disk_wf d → disk_wf (alter_inode f i d).
Proof.
  intros [Hn Hi]. split; [done|]. simpl. intros j m Hj.
  destruct (decide (j = i)) as [->|]; [|rewrite lookup_alter_ne in Hj by done; eauto].
  rewrite lookup_alter_eq in Hj. destruct (d_inodes d !! i) eqn:Hd; [|done]. eauto.
Qed.
Lemma disk_wf_names names d :
  disk_wf d → (∀ p i, names !! p = Some i → ∃ q, d_names d !! q = Some i) → disk_wf (with_names names d).
Proof. intros [Hn Hi] Hnames. split; [|done]. simpl. intros p i [q ?]%Hnames. eauto. Qed.
Lemma renamed_names p q i (names : gmap string Z) r j :
  names !! p = Some i → <[q := i]> (delete p names) !! r = Some j → ∃ r', names !! r' = Some j.
Proof. intros Hp [[_ <-]|[_ [_ ?]%lookup_delete_Some]]%lookup_insert_Some; eauto. Qed.

Section kept.
  Context (outside : string → Prop) (d0 : Disk).

(** No name outside denotes the inode. *)
Definition inside_inode (i : Z) : Prop := ∀ q, outside q → d_names d0 !! q ≠ Some i.

(** The names [outside] and the files they denote are those of [d0]. *)
Record kept (d : Disk) : Prop := {
  cf_wf : disk_wf d;
  cf_names : ∀ q, outside q → d_names d !! q = d_names d0 !! q;
  cf_files : ∀ q, outside q → file_at d q = file_at d0 q;
  cf_inside : ∀ p i, ¬ outside p → d_names d !! p = Some i → inside_inode i;
}.

Lemma kept_frame : frame kept (λ p, ¬ outside p) inside_inode.
Proof.
  assert (∀ d q i, kept d → d_names d0 !! q = Some i → outside q → (i < d_next d)%Z) as Hold.
  { intros d q i Hd Hq Ho. apply (proj1 (cf_wf _ Hd)) with q. by rewrite (cf_names _ Hd). }
  constructor.
  - intros d p n Hd Hp Hfree. split.
    + by apply disk_wf_new, Hd.
    + intros q Hq. simpl. rewrite lookup_insert_ne by congruence. by apply Hd.
    + intros q Hq. rewrite <- (cf_files _ Hd) by done. rewrite !file_at_ino. simpl.
      rewrite lookup_insert_ne by congruence. destruct (d_names d !! q) as [j|] eqn:Hj; [|done].
      apply (proj1 (cf_wf _ Hd)) in Hj. rewrite lookup_insert_ne by lia. done.
    + simpl. intros q i Hq [[_ <-]|[_ ?]]%lookup_insert_Some; [|by apply (cf_inside _ Hd q)].
      intros r Hr Hi. apply (Hold d) in Hi; [lia|done..].
  - intros d Hd q Hq Hi. apply (Hold d) in Hi; [lia|done..].
  - intros d p i n Hd Hp Hn. apply (cf_inside _ Hd p); [done|]. unfold node_at in Hn.
    destruct (d_names d !! p); [|done]. by case_match; simplify_eq.
  - intros d f i Hd Hi. split; [by apply disk_wf_alter, Hd|apply Hd| |apply Hd].
    intros q Hq. rewrite <- (cf_files _ Hd) by done. apply file_at_alter_inode.
    rewrite (cf_names _ Hd) by done. by apply Hi.
  - intros d p q i Hd Hp Hq Hi.
    assert (∀ r, outside r → <[q:=i]> (delete p (d_names d)) !! r = d_names d !! r) as Hsame.
    { intros r Hr. rewrite lookup_insert_ne, lookup_delete_ne by congruence. done. }
    split.
    + apply disk_wf_names; [apply Hd|]. intros r j. by apply renamed_names.
    + intros r Hr. simpl. rewrite Hsame by done. by apply Hd.
    + intros r Hr. rewrite <- (cf_files _ Hd) by done. rewrite !file_at_ino. simpl. by rewrite Hsame.
    + simpl. intros r j Hr [[_ <-]|[_ [_ Hj]%lookup_delete_Some]]%lookup_insert_Some;
        [by apply (cf_inside _ Hd p)|by apply (cf_inside _ Hd r)].
  - intros d p Hd Hp.
    assert (∀ r, outside r → delete p (d_names d) !! r = d_names d !! r) as Hsame.
    { intros r Hr. rewrite lookup_delete_ne by congruence. done. }
    split.
    + apply disk_wf_names; [apply Hd|]. intros r j [_ ?]%lookup_delete_Some. eauto.
    + intros r Hr. simpl. rewrite Hsame by done. by apply Hd.
    + intros r Hr. rewrite <- (cf_files _ Hd) by done. rewrite !file_at_ino. simpl. by rewrite Hsame.
    + simpl. intros r j Hr [_ ?]%lookup_delete_Some. by apply (cf_inside _ Hd r).
Qed.

End kept.

(** A directory and everything below it may change, nothing else. *)
Definition outside (dir q : string) : Prop := under dir q = false.
Notation confined dir := (kept (outside dir)).

(** ** One file is left alone *)

(** The name [p] denotes inode [i], which holds [n] and has no other name. *)
Record pinned (p : string) (i : Z) (n : Inode) (d : Disk) : Prop := {
  pn_wf : disk_wf d;
  pn_name : d_names d !! p = Some i;
  pn_inode : d_inodes d !! i = Some n;
  pn_single : ∀ q, d_names d !! q = Some i → q = p;
}.

Lemma pinned_frame p i n : frame (pinned p i n) (λ q, q ≠ p) (λ j, j ≠ i).
Proof.
  assert (∀ d, pinned p i n d → (i < d_next d)%Z) as Hlt.
  { intros d Hd. by apply (proj1 (pn_wf _ _ _ _ Hd) p), Hd. }
  constructor.
  - intros d q m Hd Hq Hfree. specialize (Hlt d Hd). split; simpl.
    + by apply disk_wf_new, Hd.
    + rewrite lookup_insert_ne by done. apply Hd.
    + rewrite lookup_insert_ne by lia. apply Hd.
    + intros r [[_ ?]|[_ ?]]%lookup_insert_Some; [lia|by apply Hd].
  - intros d Hd. specialize (Hlt d Hd). lia.
  - intros d q j m Hd Hq Hn ->. apply Hq, (pn_single _ _ _ _ Hd). unfold node_at in Hn.
    destruct (d_names d !! q); [|done]. by case_match; simplify_eq.
  - intros d f j Hd Hj. split; [by apply disk_wf_alter, Hd|apply Hd| |apply Hd].
    simpl. rewrite lookup_alter_ne by done. apply Hd.
  - intros d q r j Hd Hq Hr Hj. split; simpl.
    + apply disk_wf_names; [apply Hd|]. intros s k. by apply renamed_names.
    + rewrite lookup_insert_ne, lookup_delete_ne by done. apply Hd.
    + apply Hd.
    + intros s [[_ ->]|[_ [_ ?]%lookup_delete_Some]]%lookup_insert_Some; [|by apply Hd].
      by apply (pn_single _ _ _ _ Hd) in Hj.
  - intros d q Hd Hq. split; simpl.
    + apply disk_wf_names; [apply Hd|]. intros r j [_ ?]%lookup_delete_Some. eauto.
    + rewrite lookup_delete_ne by done. apply Hd.
    + apply Hd.
    + intros r [_ ?]%lookup_delete_Some. by apply Hd.
Qed.

(** ** Programs that only read *)

Section exact.
  Context `{Host} (Hquiet : quiet _) (d0 : Disk).
  Local Notation exactly := (safe (λ d, d = d0)).

(** Under the invariant that the disk is [d0], what is read is what [d0] holds. *)
Lemma exact_metadata p :
  exactly (fs_symlink_metadata p) (λ md, ∃ i n, node_at d0 p = Some (i, n) ∧ md = metadata_of i n).
Proof.
  eapply safe_weaken; [by apply safe_fs_symlink_metadata|]. intros md (d&i&n&->&Hn&->). eauto.
Qed.
Lemma exact_open_nofollow p :
  exactly (fs_open_nofollow p) (λ i, ∃ n, node_at d0 p = Some (i, n) ∧ i_kind n ≠ Symlink).
Proof.
  apply safe_read; [done|intros d; by repeat case_match|]. intros d i ->.
  destruct (node_at d0 p) as [[j n]|]; [|done]. case_bool_decide; [done|]. intros [= <-]. eauto.
Qed.
Lemma exact_open p : exactly (fs_open p) (λ i, ∃ n, resolve 40 d0 p = Some (i, n)).
Proof.
  apply safe_read; [done|intros d; by repeat case_match|]. intros d i ->.
  destruct (resolve 40 d0 p) as [[j n]|]; [|done]. intros [= <-]. eauto.
Qed.
Lemma exact_file_metadata i :
  exactly (fs_file_metadata i) (λ md, ∃ n, d_inodes d0 !! i = Some n ∧ md = metadata_of i n).
Proof.
  apply safe_read; [done|intros d; by repeat case_match|]. intros d md ->.
  destruct (d_inodes d0 !! i) as [n|]; [|done]. intros [= <-]. eauto.
Qed.
Lemma exact_read_to_end i :
  exactly (fs_read_to_end i) (λ bs, ∃ n, d_inodes d0 !! i = Some n ∧ bs = i_data n).
Proof.
  apply safe_read; [done|intros d; by repeat case_match|]. intros d bs ->.
  destruct (d_inodes d0 !! i) as [n|]; [|done]. intros [= <-]. eauto.
Qed.

Lemma node_at_iff d p i n : node_at d p = Some (i, n) ↔ d_names d !! p = Some i ∧ d_inodes d !! i = Some n.
Proof.
  unfold node_at. destruct (d_names d !! p) as [j|]; [|naive_solver].
  destruct (d_inodes d !! j) as [m|] eqn:Hj; split; naive_solver congruence.
Qed.

(** A name that is not a link resolves to itself. *)
Lemma resolve_node fuel d p i n : node_at d p = Some (i, n) → i_kind n ≠ Symlink → resolve fuel d p = Some (i, n).
Proof. intros Hn Hk. destruct fuel; simpl; by rewrite Hn, bool_decide_false. Qed.

Lemma exact_read_file p i n :
  node_at d0 p = Some (i, n) → i_kind n ≠ Symlink → exactly (fs_read_file p) (λ bs, bs = i_data n).
Proof.
  intros Hn Hk. eapply safe_bind; [apply exact_open|]. intros j [m Hm].
  rewrite (resolve_node _ _ _ _ _ Hn Hk) in Hm. simplify_eq.
  eapply safe_weaken; [apply exact_read_to_end|]. intros bs (m'&Hm'&->).
  apply node_at_iff in Hn as [_ Hn]. congruence.
Qed.

(** No fault pretends that a name is missing. *)
Definition honest (h : Host) : Prop := ∀ t e n, @host_fault h t = Some (e, n) → e ≠ NotFound.

(** On an honest host a missing name is missing. *)
Lemma exact_missing {E B} p (k : result IoError Metadata → IO E B) φ :
  honest _ →
  (∀ md, (∃ i n, node_at d0 p = Some (i, n) ∧ md = metadata_of i n) → exactly (k (Ok md)) φ) →
  (node_at d0 p = None → exactly (k (Err NotFound)) φ) → (∀ e, e ≠ NotFound → exactly (k (Err e)) φ) →
  exactly (io_try (fs_symlink_metadata p) k) φ.
Proof.
  intros Hh Hok Hnone Herr. eapply (crash_try _ _ _ _ (λ r d, d = d0 ∧ match r with
    | Ok md => ∃ i n, node_at d0 p = Some (i, n) ∧ md = metadata_of i n
    | Err NotFound => node_at d0 p = None
    | _ => r ≠ Panicked
    end)).
  - intros w Hw. unfold fs_symlink_metadata, io_op. rewrite Hquiet, Hw.
    destruct (host_fault (w_tick w)) as [[e n]|] eqn:Hf.
    + apply Hh in Hf. exists [d0]. simpl. split_and!; [done|by repeat constructor|done|]. by destruct e.
    + destruct (node_at d0 p) as [[i n]|] eqn:Hn; exists [d0]; simpl;
        (split_and!; [done|by repeat constructor|done|eauto]).
  - intros [md|[]|]; intros w [Hw Hr]; first
      [by apply (Hok md Hr)|by apply (Hnone Hr)|by apply Herr|done].
Qed.

End exact.

(** ** Triples

    [triple I P m φ]: as [safe], and moreover from a disk with [P] a result [a]
    comes with a disk that satisfies [φ a]. *)

Section triple.
  Context `{Host} (Hquiet : quiet _) (I : Disk → Prop).
  Implicit Types P : Disk → Prop.

Definition triple {E A} P (m : IO E A) (φ : A → Disk → Prop) : Prop :=
  crash_spec (λ d, I d ∧ P d) m I (λ r d, I d ∧ ∀ a, r = Ok a → φ a d).

Lemma triple_weaken {E A} P P' (m : IO E A) (φ φ' : A → Disk → Prop) :
  triple P m φ → (∀ d, I d → P' d → P d) → (∀ a d, I d → φ a d → φ' a d) → triple P' m φ'.
Proof.
  intros Hm HP Hφ. eapply crash_consequence; [exact Hm|naive_solver|]. intros r d [Hd Hr].
  split; [done|]. intros a ->. by apply Hφ, Hr.
Qed.

Lemma triple_post {E A} P (m : IO E A) (φ φ' : A → Disk → Prop) :
  triple P m φ → (∀ a d, I d → φ a d → φ' a d) → triple P m φ'.
Proof. intros Hm Hφ. by eapply triple_weaken. Qed.

Lemma triple_lift {E A} P (r : result E A) (φ : A → Disk → Prop) :
  (∀ a d, r = Ok a → I d → P d → φ a d) → triple P (io_lift r) φ.
Proof. intros Hr w [Hw HP]. exists []. split_and!; [done|constructor|done|]. intros a Ha. by apply Hr. Qed.
Lemma triple_ret {E A} P (a : A) (φ : A → Disk → Prop) : (∀ d, I d → P d → φ a d) → triple P (@io_ret E A a) φ.
Proof. intros Ha. apply (triple_lift _ (Ok a)). intros b d [= <-]. apply Ha. Qed.
Lemma triple_err {E A} P (e : E) (φ : A → Disk → Prop) : triple P (io_err e) φ.
Proof. apply (triple_lift _ (Err e)). by intros. Qed.
Lemma triple_guard {E} P b (e : E) : triple P (io_guard b e) (λ _ d, P d ∧ b = false).
Proof. apply triple_lift. intros [] d Hb _ Hd. by destruct b. Qed.

Lemma triple_bind {E A B} P (m : IO E A) (k : A → IO E B) φ ψ :
  triple P m φ → (∀ a, triple (φ a) (k a) ψ) → triple P (io_bind m k) ψ.
Proof.
  intros Hm Hk. eapply crash_bind; [exact Hm| |by intros e d [??]; split|by intros d [??]; split].
  intros a w [Hw Ha]. apply (Hk a). split; [done|]. by apply Ha.
Qed.

(** A triple in front of a program with another crash condition. *)
Lemma triple_then {E A B} P (m : IO E A) (k : A → IO E B) φ C Q :
  triple P m φ → (∀ a, crash_spec (λ d, I d ∧ φ a d) (k a) C Q) →
  (∀ d, I d → C d) → (∀ e d, I d → Q (Err e) d) → (∀ d, I d → Q Panicked d) →
  crash_spec (λ d, I d ∧ P d) (io_bind m k) C Q.
Proof.
  intros Hm Hk HC He Hp w Hw. destruct (Hm w Hw) as (tr&Htr&Hall&Hd&Hr). unfold io_bind.
  assert (Forall C tr) as Htr' by (eapply Forall_impl; [exact Hall|exact HC]).
  destruct (m w) as [[a|e|] w']; simpl in *; [|by eauto|by eauto].
  destruct (Hk a w' (conj Hd (Hr a eq_refl))) as (tr'&Heq&Hall'&HQ).
  exists (tr' ++ tr). rewrite Heq, Htr, <- app_assoc. split; [done|]. by rewrite Forall_app.
Qed.

Lemma triple_pure {E A} (X : Prop) P (m : IO E A) φ : (X → triple P m φ) → triple (λ d, X ∧ P d) m φ.
Proof. intros Hm w (Hw&HX&HP). by apply (Hm HX). Qed.

Lemma triple_map_err {E F A} (f : E → F) P (m : IO E A) φ : triple P m φ → triple P (io_map_err f m) φ.
Proof.
  intros Hm. apply crash_map_err. eapply crash_consequence; [exact Hm|done|].
  intros r d [? Hr]. split; [done|]. intros b Hb. apply Hr. by destruct r; simplify_eq/=.
Qed.

Lemma triple_op {A} P partial (f : Disk → result IoError A * Disk) (φ : A → Disk → Prop) :
  (∀ d n, I d → P d → I (partial n d)) →
  (∀ d, I d → P d → I (f d).2 ∧ ∀ a, (f d).1 = Ok a → φ a (f d).2) → triple P (io_op partial f) φ.
Proof.
  intros Hp Hf. apply crash_op; [done|..].
  - intros d e n [Hd HP]. split_and!; auto; by intros.
  - intros d [Hd HP]. destruct (Hf d Hd HP). auto.
Qed.

(** Reading, with what is known of the disk. *)
Lemma triple_metadata P p :
  triple P (fs_symlink_metadata p)
    (λ md d, P d ∧ ∃ i n, node_at d p = Some (i, n) ∧ md = metadata_of i n).
Proof.
  apply triple_op; [done|]. intros d Hd HP. destruct (node_at d p) as [[i n]|] eqn:Hn; (split; [done|]); [|done].
  intros md [= <-]. eauto 6.
Qed.
Lemma triple_sync_directory P p : triple P (fs_sync_directory p) (λ _, P).
Proof.
  eapply (triple_bind _ _ _ (λ _, P)); [|intros []]; apply triple_op; try done; intros d Hd HP; split; try done;
    by intros.
Qed.

Lemma triple_pre {E A} (Q P : Disk → Prop) (m : IO E A) φ :
  (∀ d, Q d → I d ∧ P d) → triple P m φ → crash_spec Q m I (λ r d, I d ∧ ∀ a, r = Ok a → φ a d).
Proof. intros HQ Hm. by eapply crash_consequence. Qed.

(** Ends without a result need the invariant only. *)
Lemma triple_stop {E A} Q (r : result E A) (φ : A → Disk → Prop) :
  (∀ d, Q d → I d) → is_ok r = false → crash_spec Q (io_lift r) I (λ r d, I d ∧ ∀ a, r = Ok a → φ a d).
Proof.
  intros HQ Hr w Hw. exists []. split_and!; [done|constructor|by apply HQ|]. intros a Ha. simpl in Ha. by rewrite Ha in Hr.
Qed.

(** Triples are safe. *)
Lemma triple_safe {E A} (m : IO E A) φ : triple (λ _, True) m φ → safe I m (λ _, True).
Proof. intros Hm. eapply crash_consequence; [exact Hm|done|]. intros r d [??]. by split. Qed.
Lemma safe_triple {E A} P (m : IO E A) (φ : A → Prop) : safe I m φ → triple P m (λ a _, φ a).
Proof. intros Hm. eapply crash_consequence; [exact Hm|by intros d []|]. intros r d [??]. by split. Qed.

End triple.

(** A program that only reads, from any disk that satisfies [P]. *)
Lemma crash_exact `{Host} {E A} (P : Disk → Prop) (m : IO E A) (φ : Disk → A → Prop) :
  (∀ d, P d → safe (λ d', d' = d) m (φ d)) → crash_spec P m P (λ r d, P d ∧ ∀ a, r = Ok a → φ d a).
Proof.
  intros Hm w Hw. destruct (Hm _ Hw w eq_refl) as (tr&Htr&Hall&Hd&Hr). exists tr. rewrite Hd.
  split_and!; [done| |done|done]. eapply Forall_impl; [exact Hall|]. by intros d ->.
Qed.

(** The disks passed through satisfy less. *)
Lemma crash_weaken `{Host} {E A} P (m : IO E A) (C C' : Disk → Prop) Q :
  crash_spec P m C Q → (∀ d, C d → C' d) → crash_spec P m C' Q.
Proof.
  intros Hm HC w Hw. destruct (Hm w Hw) as (tr&?&Hall&?). exists tr. split_and!; [done| |done].
  eapply Forall_impl; [exact Hall|exact HC].
Qed.

(** ** Directories in frames *)

Definition plain_dir (d : Disk) (p : string) : Prop := ∃ i n, node_at d p = Some (i, n) ∧ i_kind n = Directory.

Section frame_directories.
  Context `{Host} (Hquiet : quiet _) (I : Disk → Prop) (may : string → Prop) (own : Z → Prop).
  Context (Hframe : frame I may own).

(** Permissions of a directory, whose name is not a link. *)
Lemma frame_chmod_dir P (φ : Disk → Prop) p mode :
  may p → (∀ d, P d → plain_dir d p) →
  (∀ d i n, I d → P d → node_at d p = Some (i, n) → i_kind n = Directory → φ (alter_inode (set_mode mode) i d)) →
  triple I P (fs_set_permissions p mode) (λ _, φ).
Proof.
  intros Hp Hdir Hφ. apply triple_op; [done|done|]. intros d Hd HP. destruct (Hdir d HP) as (i&n&Hn&Hk).
  rewrite (resolve_node _ _ _ _ _ Hn) by (by rewrite Hk). simpl. split.
  - apply (fr_alter _ _ _ Hframe); [done|]. by apply (fr_open _ _ _ Hframe d p i n).
  - intros _ _. by eapply Hφ.
Qed.

(** Removing the names of a list, one after the other. *)
Lemma frame_remove_names l d :
  I d → Forall may l → I (with_names (foldr delete (d_names d) l) d).
Proof.
  intros Hd. induction 1 as [|p l Hp _ IH]; simpl; [by destruct d|].
  by apply (fr_remove _ _ _ Hframe _ p) in IH.
Qed.

Lemma frame_remove_dir_all p : (∀ q, under p q = true → may q) → safe I (fs_remove_dir_all p) (λ _, True).
Proof.
  intros Hmay. apply safe_op; [done|..|done].
  - intros d n Hd. apply frame_remove_names; [done|]. apply Forall_take, Forall_forall. intros q Hq.
    apply list_elem_of_In, filter_In in Hq as [_ Hq]. apply Hmay. unfold under. by rewrite Hq, orb_true_r.
  - intros d Hd. destruct (d_names d !! p) eqn:Hp; [|done]. simpl.
    set (l := p :: List.filter (below p) (map_to_list (d_names d)).*1).
    assert (filter (λ e, e.1 ≠ p ∧ below p e.1 = false) (d_names d) = foldr delete (d_names d) l) as ->.
    { apply map_eq. intros q. assert (∀ k, foldr delete (d_names d) k !! q
        = if bool_decide (q ∈ k) then None else d_names d !! q) as Hk.
      { induction k as [|r k IH]; simpl; [done|]. destruct (decide (q = r)) as [->|Hne].
        - rewrite lookup_delete_eq, bool_decide_true; [done|]. set_solver.
        - rewrite lookup_delete_ne, IH by done. by rewrite (bool_decide_ext _ (q ∈ r :: k)) by set_solver. }
      rewrite Hk, map_lookup_filter. destruct (d_names d !! q) as [i|] eqn:Hq; [|by case_bool_decide]. simpl.
      assert (q ∈ l ↔ ¬ (q ≠ p ∧ below p q = false)) as Hl.
      { unfold l. rewrite elem_of_cons, list_elem_of_In, filter_In, <- list_elem_of_In.
        assert (q ∈ (map_to_list (d_names d)).*1).
        { apply list_elem_of_fmap. exists (q, i). by rewrite elem_of_map_to_list. }
        destruct (below p q), (decide (q = p)); naive_solver. }
      case_bool_decide as Hin; [rewrite option_guard_False by (by apply Hl)|rewrite option_guard_True]; try done.
      apply dec_stable. by rewrite <- Hl. }
    apply frame_remove_names; [done|]. apply Forall_forall. intros q Hq. apply Hmay. unfold under, l in *.
    apply elem_of_cons in Hq as [->|Hq]; [by rewrite bool_decide_true|].
    apply list_elem_of_In, filter_In in Hq as [_ Hq]. by rewrite Hq, orb_true_r.
Qed.

End frame_directories.

(** ** Programs that only read and do not panic *)

Section no_panic.
  Context `{Host} (d : Disk).

Definition no_panic_on {E A} (m : IO E A) : Prop := ∀ w, w_disk w = d → (m w).1 ≠ Panicked.

Lemma no_panic_bind {E A B} (m : IO E A) (k : A → IO E B) φ :
  safe (λ d', d' = d) m φ → no_panic_on m → (∀ a, φ a → no_panic_on (k a)) → no_panic_on (io_bind m k).
Proof.
  intros Hs Hm Hk w Hw. specialize (Hm w Hw). destruct (Hs w Hw) as (tr&_&_&Hd&Hφ). unfold io_bind.
  destruct (m w) as [[a|e|] w']; simpl in *; [|done..]. apply (Hk a); auto.
Qed.

Lemma never_panics_on {E A} (m : IO E A) : never_panics m → no_panic_on m.
Proof. intros Hm w _. apply Hm. Qed.

End no_panic.
