(* ===== verification/Registry.v ===== *)
(** * The application registry (crates/cp0-appd/src/registry.rs)

    The registry gives every application id a permanent Unix account and keeps
    the installed version with at most two versions to roll back to.  A
    mutating method of the source is a function from the registry to its
    outcome and the registry it leaves, so that the state after an error is
    visible.  [SystemTime::now] is an argument.

    The theorems: the validator decides the invariant [registry_wf]; every
    operation keeps it; accounts are permanent and never shared; rollback is an
    involution; a saved registry is on disk completely or not at all. *)

From S2P Require Import Prelude RustStr Manifest HostFs.

(** ** Data *)

Definition REGISTRY_SCHEMA_VERSION : Z := 1.
Definition FIRST_APP_ACCOUNT_ID : Z := 20000.
Definition LAST_APP_ACCOUNT_ID : Z := 20063.
Definition MAX_ROLLBACK_VERSIONS : nat := 2.

Record AppAccount := mkAppAccount {
  account_id : Z;
  unix_user : string;
  unix_uid : Z;
  installed_version : option string;
  previous_versions : list string;
  installed_at_unix_seconds : option Z;
}.
Global Instance AppAccount_eq_dec : EqDecision AppAccount.
Proof. solve_decision. Defined.

Record AppRegistry := mkAppRegistry {
  reg_schema_version : Z;
  next_account_id : Z;
  apps : gmap string AppAccount;
}.

Inductive RegistryInvalid :=
  | RegInvalidAppId (app_id : string)
  | RegInvalidManifest (issues : list ManifestIssue)
  | RegNoAccount (app_id : string)
  | RegNotInstalled (app_id : string)
  | RegNoRollback (app_id : string)
  | RegSchemaVersion
  | RegNextIdOutsideRange
  | RegContainsInvalidId (app_id : string)
  | RegAccountOutsideRange (account : Z)
  | RegInconsistentIdentity (account : Z)
  | RegSharedIdentity
  | RegInvalidInstalledVersion (account : Z)
  | RegTooManyRollbacks (account : Z)
  | RegMetadataWhileUninstalled (account : Z)
  | RegInvalidHistory (account : Z)
  | RegWouldRecycle
  | RegNoParent
  | RegNoFileName.

Inductive RegistryError :=
  | RegIo (e : IoError)
  | RegJson
  | RegInvalid (why : RegistryInvalid)
  | RegExhausted.

Definition set_version (v : option string) (prev : list string) (at_ : option Z) (a : AppAccount)
    : AppAccount :=
  {| account_id := account_id a; unix_user := unix_user a; unix_uid := unix_uid a;
     installed_version := v; previous_versions := prev; installed_at_unix_seconds := at_ |}.

Definition set_apps (m : gmap string AppAccount) (r : AppRegistry) : AppRegistry :=
  {| reg_schema_version := reg_schema_version r; next_account_id := next_account_id r; apps := m |}.

(** [impl Default for AppRegistry]. *)
Definition AppRegistry_default : AppRegistry :=
  {| reg_schema_version := REGISTRY_SCHEMA_VERSION; next_account_id := FIRST_APP_ACCOUNT_ID;
     apps := ∅ |}.

(** ** Operations *)

Definition AppRegistry_account (r : AppRegistry) (app_id : string) : option AppAccount :=
  apps r !! app_id.

(** The first installed application, in key order, that runs under [uid]. *)
Definition AppRegistry_installed_app_for_uid (r : AppRegistry) (uid : Z)
    : option (string * AppAccount) :=
  List.find (λ e, (unix_uid e.2 =? uid)%Z && bool_decide (is_Some (installed_version e.2)))
            (btree_iter str_leb (apps r)).

Definition unix_user_of (account : Z) : string := "cp0-app-" +:+ decimal account.

Definition fresh_account (account : Z) : AppAccount :=
  {| account_id := account; unix_user := unix_user_of account; unix_uid := account;
     installed_version := None; previous_versions := []; installed_at_unix_seconds := None |}.

Definition AppRegistry_assign (r : AppRegistry) (app_id : string)
    : result RegistryError AppAccount * AppRegistry :=
  if negb (is_valid_app_id app_id) then (Err (RegInvalid (RegInvalidAppId app_id)), r)
  else match apps r !! app_id with
  | Some account => (Ok account, r)
  | None =>
      if (LAST_APP_ACCOUNT_ID <? next_account_id r)%Z then (Err RegExhausted, r)
      else
        let account := fresh_account (next_account_id r) in
        (Ok account,
         {| reg_schema_version := reg_schema_version r;
            next_account_id := next_account_id r + 1;
            apps := <[app_id := account]> (apps r) |})
  end.

(** [retain(|version| version != v)]. *)
Definition retain_ne (v : string) (vs : list string) : list string :=
  List.filter (λ x, negb (bool_decide (x = v))) vs.

(** The account part of [mark_installed]. *)
Definition account_mark_installed (now : Z) (v : string) (a : AppAccount) : AppAccount :=
  let at_ := match installed_version a with
             | None => Some now
             | Some _ => installed_at_unix_seconds a
             end in
  if bool_decide (installed_version a = Some v)
  then set_version (installed_version a) (previous_versions a) at_ a
  else
    let prev := retain_ne v (previous_versions a) in
    let prev := match installed_version a with
                | Some current => take MAX_ROLLBACK_VERSIONS (current :: retain_ne current prev)
                | None => prev
                end in
    set_version (Some v) prev at_ a.

Definition AppRegistry_mark_installed (now : Z) (r : AppRegistry) (m : AppManifest)
    : result RegistryError AppAccount * AppRegistry :=
  match manifest_validate m with
  | Err issues => (Err (RegInvalid (RegInvalidManifest issues)), r)
  | Panicked => (Panicked, r)
  | Ok _ =>
      match AppRegistry_assign r (m_id m) with
      | (Ok account, r) =>
          let account := account_mark_installed now (m_version m) account in
          (Ok account, set_apps (<[m_id m := account]> (apps r)) r)
      | (e, r) => (e, r)
      end
  end.

(** The loop over the rollback history in [validate]. *)
Fixpoint history_ok (installed : option string) (seen : gset string) (vs : list string) : bool :=
  match vs with
  | [] => true
  | v :: vs =>
      if negb (is_valid_app_version v) || bool_decide (installed = Some v) || bool_decide (v ∈ seen)
      then false
      else history_ok installed ({[v]} ∪ seen) vs
  end.

(** The loop over the accounts in [validate]; returns the highest account id. *)
Fixpoint validate_accounts (ids : gset Z) (users : gset string) (highest : option Z)
    (l : list (string * AppAccount)) : result RegistryError (option Z) :=
  match l with
  | [] => Ok highest
  | (app_id, a) :: l =>
      if negb (is_valid_app_id app_id) then Err (RegInvalid (RegContainsInvalidId app_id))
      else if negb ((FIRST_APP_ACCOUNT_ID <=? account_id a)%Z && (account_id a <=? LAST_APP_ACCOUNT_ID)%Z)
      then Err (RegInvalid (RegAccountOutsideRange (account_id a)))
      else if negb (bool_decide (unix_user a = unix_user_of (account_id a)))
              || negb (unix_uid a =? account_id a)%Z
      then Err (RegInvalid (RegInconsistentIdentity (account_id a)))
      else if bool_decide (account_id a ∈ ids) || bool_decide (unix_user a ∈ users)
      then Err (RegInvalid RegSharedIdentity)
      else if match installed_version a with Some v => negb (is_valid_app_version v) | None => false end
      then Err (RegInvalid (RegInvalidInstalledVersion (account_id a)))
      else if (MAX_ROLLBACK_VERSIONS <? length (previous_versions a))%nat
      then Err (RegInvalid (RegTooManyRollbacks (account_id a)))
      else if bool_decide (installed_version a = None)
              && (bool_decide (is_Some (installed_at_unix_seconds a))
                  || negb (bool_decide (previous_versions a = [])))
      then Err (RegInvalid (RegMetadataWhileUninstalled (account_id a)))
      else if negb (history_ok (installed_version a) ∅ (previous_versions a))
      then Err (RegInvalid (RegInvalidHistory (account_id a)))
      else
        let highest := match highest with
                       | Some h => Some (Z.max h (account_id a))
                       | None => Some (account_id a)
                       end in
        validate_accounts ({[account_id a]} ∪ ids) ({[unix_user a]} ∪ users) highest l
  end.

Definition AppRegistry_validate (r : AppRegistry) : result RegistryError unit :=
  if negb (reg_schema_version r =? REGISTRY_SCHEMA_VERSION)%Z then Err (RegInvalid RegSchemaVersion)
  else if negb ((FIRST_APP_ACCOUNT_ID <=? next_account_id r)%Z
                && (next_account_id r <=? LAST_APP_ACCOUNT_ID + 1)%Z)
  then Err (RegInvalid RegNextIdOutsideRange)
  else
    let? highest := validate_accounts ∅ ∅ None (btree_iter str_leb (apps r)) in
    if match highest with Some h => (next_account_id r <=? h)%Z | None => false end
    then Err (RegInvalid RegWouldRecycle)
    else Ok tt.

Definition AppRegistry_uninstall (r : AppRegistry) (app_id : string)
    : result RegistryError AppAccount * AppRegistry :=
  match apps r !! app_id with
  | None => (Err (RegInvalid (RegNoAccount app_id)), r)
  | Some a =>
      if bool_decide (installed_version a = None)
      then (Err (RegInvalid (RegNotInstalled app_id)), r)
      else
        let a := set_version None [] None a in
        let r := set_apps (<[app_id := a]> (apps r)) r in
        (match AppRegistry_validate r with Ok _ => Ok a | Err e => Err e | Panicked => Panicked end, r)
  end.

Definition AppRegistry_rollback (r : AppRegistry) (app_id : string)
    : result RegistryError AppAccount * AppRegistry :=
  match apps r !! app_id with
  | None => (Err (RegInvalid (RegNoAccount app_id)), r)
  | Some a =>
      match installed_version a with
      | None => (Err (RegInvalid (RegNotInstalled app_id)), r)
      | Some current =>
          match previous_versions a with
          | [] => (Err (RegInvalid (RegNoRollback app_id)), r)
          | target :: rest =>
              let prev := take MAX_ROLLBACK_VERSIONS (current :: retain_ne current rest) in
              let a := set_version (Some target) prev (installed_at_unix_seconds a) a in
              let r := set_apps (<[app_id := a]> (apps r)) r in
              (match AppRegistry_validate r with Ok _ => Ok a | Err e => Err e | Panicked => Panicked end, r)
          end
      end
  end.

(** ** Persistence *)

Definition registry_atomic_error (e : AtomicError) : RegistryError :=
  match e with
  | AtomicNoParent => RegInvalid RegNoParent
  | AtomicNoFileName => RegInvalid RegNoFileName
  | AtomicIo e => RegIo e
  | AtomicJson => RegJson
  end.

Section persistence.
  Context `{Host} `{Codec AppRegistry}.

Definition AppRegistry_load (path : string) : IO RegistryError AppRegistry :=
  let! contents := io_map_err RegIo (fs_read_file path) in
  let! registry := io_lift (ok_or (from_json contents) RegJson) in
  let! _ := io_lift (AppRegistry_validate registry) in
  io_ret registry.

Definition AppRegistry_save_atomic (r : AppRegistry) (path : string) : IO RegistryError unit :=
  let! _ := io_lift (AppRegistry_validate r) in
  io_map_err registry_atomic_error (atomic_replace RegistryTemp path (encode_line r)).

End persistence.

(** ** The invariant *)

Record account_wf (a : AppAccount) : Prop := {
  aw_range : (FIRST_APP_ACCOUNT_ID ≤ account_id a ≤ LAST_APP_ACCOUNT_ID)%Z;
  aw_user : unix_user a = unix_user_of (account_id a);
  aw_uid : unix_uid a = account_id a;
  aw_installed : ∀ v, installed_version a = Some v → is_valid_app_version v = true;
  aw_length : (length (previous_versions a) ≤ MAX_ROLLBACK_VERSIONS)%nat;
  aw_uninstalled : installed_version a = None →
    installed_at_unix_seconds a = None ∧ previous_versions a = [];
  aw_previous : Forall (λ v, is_valid_app_version v = true ∧ installed_version a ≠ Some v)
                       (previous_versions a);
  aw_distinct : NoDup (previous_versions a);
}.

(** Every application has its own account below the next one to hand out. *)
Record registry_wf (r : AppRegistry) : Prop := {
  rw_schema : reg_schema_version r = REGISTRY_SCHEMA_VERSION;
  rw_next : (FIRST_APP_ACCOUNT_ID ≤ next_account_id r ≤ LAST_APP_ACCOUNT_ID + 1)%Z;
  rw_apps : ∀ k a, apps r !! k = Some a →
    is_valid_app_id k = true ∧ account_wf a ∧ (account_id a < next_account_id r)%Z;
  rw_distinct : ∀ k1 k2 a1 a2, apps r !! k1 = Some a1 → apps r !! k2 = Some a2 →
    account_id a1 = account_id a2 → k1 = k2;
}.

(** *** The validator decides the invariant *)

Lemma history_ok_iff installed seen vs :
  history_ok installed seen vs = true ↔
  Forall (λ v, is_valid_app_version v = true ∧ installed ≠ Some v) vs ∧ NoDup vs ∧
  Forall (λ v, v ∉ seen) vs.
Proof.
  revert seen. induction vs as [|v vs IH]; intros seen; simpl.
  { split; [|done]. intros. split_and!; constructor. }
  rewrite !Forall_cons, NoDup_cons. destruct (_ || _ || _) eqn:E.
  - split; [done|]. intros (([Hv Hi]&_)&_&Hs&_). rewrite Hv in E. simpl in E.
    apply orb_true_iff in E as [?|?]; unbool_hyps; done.
  - unbool_hyps. rewrite IH, !(Forall_forall (λ v, v ∉ _)).
    setoid_rewrite elem_of_union. setoid_rewrite elem_of_singleton. split.
    + intros (Hall&Hnd&Hs). split_and!; auto; [intros Hin; apply (Hs v Hin); auto|].
      intros x Hx ?. apply (Hs x Hx). auto.
    + intros ((_&Hall)&(Hnin&Hnd)&_&Hs). split_and!; auto.
      intros x Hx [->|?]; [done|]. by apply (Hs x Hx).
Qed.

(** The checks of one account. *)
Definition entry_ok (e : string * AppAccount) : Prop :=
  is_valid_app_id e.1 = true ∧ account_wf e.2.

Definition max_id (highest : option Z) (l : list (string * AppAccount)) : option Z :=
  foldl (λ h e, Some (match h with Some x => Z.max x (account_id e.2) | None => account_id e.2 end))
        highest l.

Lemma max_id_below next highest l :
  match max_id highest l with Some h => (next <=? h)%Z | None => false end = false ↔
  match highest with Some h => (h < next)%Z | None => True end ∧
  Forall (λ e, (account_id e.2 < next)%Z) l.
Proof.
  revert highest. induction l as [|e l IH]; intros highest; simpl.
  - destruct highest; rewrite ?Z.leb_gt; naive_solver constructor.
  - rewrite IH, Forall_cons. destruct highest; naive_solver lia.
Qed.

(** The identity sets of the loop: the users seen are those of the ids seen. *)
Definition users_of (ids : gset Z) (users : gset string) : Prop :=
  (∀ u, u ∈ users ↔ ∃ i, i ∈ ids ∧ u = unix_user_of i) ∧ (∀ i, i ∈ ids → (0 ≤ i)%Z).

Lemma unix_user_of_inj i j :
  (0 ≤ i)%Z → (0 ≤ j)%Z → unix_user_of i = unix_user_of j → i = j.
Proof. unfold unix_user_of. intros ?? Heq. apply decimal_inj; [done..|]. by injection Heq. Qed.

Lemma validate_accounts_ok ids users highest l :
  users_of ids users →
  Forall entry_ok l → NoDup (map (account_id ∘ snd) l) →
  Forall (λ e, account_id e.2 ∉ ids) l →
  validate_accounts ids users highest l = Ok (max_id highest l).
Proof.
  revert ids users highest. induction l as [|[k a] l IH]; intros ids users highest Hu Hok Hnd Hids; [done|].
  apply Forall_cons in Hok as [[Hk Ha] Hok]. apply Forall_cons in Hids as [Hid Hids].
  simpl in Hnd. apply NoDup_cons in Hnd as [Hnin Hnd]. simpl in *.
  destruct Ha as [Hr Huser Huid Hinst Hlen Hun Hprev Hdist].
  unfold FIRST_APP_ACCOUNT_ID, LAST_APP_ACCOUNT_ID in *.
  rewrite Hk. rewrite (proj2 (Z.leb_le _ _)) by lia. rewrite (proj2 (Z.leb_le _ _)) by lia.
  rewrite bool_decide_eq_true_2 by done. rewrite (proj2 (Z.eqb_eq _ _)) by done. simpl.
  rewrite (bool_decide_eq_false_2 (account_id a ∈ ids)) by done.
  rewrite (bool_decide_eq_false_2 (unix_user a ∈ users)).
  2: { rewrite Huser, (proj1 Hu). intros (i&Hi&Heq). apply unix_user_of_inj in Heq; [|lia|by apply Hu].
       by subst. }
  simpl. assert (match installed_version a with Some v => negb (is_valid_app_version v) | None => false end
    = false) as ->.
  { destruct (installed_version a) as [v|]; [|done]. by rewrite Hinst. }
  rewrite (proj2 (Nat.ltb_ge _ _)) by done.
  assert (bool_decide (installed_version a = None)
     && (bool_decide (is_Some (installed_at_unix_seconds a)) || negb (bool_decide (previous_versions a = [])))
     = false) as ->.
  { case_bool_decide as Hi; [|done]. destruct (Hun Hi) as [-> ->]. done. }
  rewrite (proj2 (history_ok_iff _ _ _)) by (split_and!; [done..|apply Forall_true; set_solver]).
  simpl. rewrite IH; [by destruct highest|..]; auto.
  - split.
    + intros u. rewrite elem_of_union, elem_of_singleton, (proj1 Hu). setoid_rewrite elem_of_union.
      setoid_rewrite elem_of_singleton. rewrite Huser. naive_solver.
    + intros i. rewrite elem_of_union, elem_of_singleton. intros [->|?]; [lia|by apply Hu].
  - rewrite Forall_forall in *. intros e He. rewrite elem_of_union, elem_of_singleton.
    intros [Heq|?]; [|by apply (Hids e He)]. apply Hnin. rewrite <- Heq.
    apply list_elem_of_fmap. by exists e.
Qed.

Lemma validate_accounts_inv ids users highest l h :
  validate_accounts ids users highest l = Ok h →
  h = max_id highest l ∧ Forall entry_ok l ∧ NoDup (map (account_id ∘ snd) l) ∧
  Forall (λ e, account_id e.2 ∉ ids) l.
Proof.
  revert ids users highest. induction l as [|[k a] l IH]; intros ids users highest; simpl.
  { intros [= ->]. split_and!; constructor. }
  intros Hv. repeat (case_match; [done|]). apply IH in Hv as (->&Hok&Hnd&Hids).
  unbool_hyps. split_and!; [by destruct highest|..].
  - constructor; [|done]. split; [done|]. simpl.
    assert (history_ok (installed_version a) ∅ (previous_versions a) = true) as Hh by done.
    apply history_ok_iff in Hh as (Hp&Hd&_). constructor; auto.
    + intros v Hv. rewrite Hv in *. by unbool_hyps.
    + intros Hn. match goal with H : (_ && _) = false |- _ => rename H into Hm end.
      rewrite bool_decide_eq_true_2 in Hm by done. simpl in Hm. unbool_hyps.
      split; [|done]. by apply eq_None_not_Some.
  - constructor; [|done]. rewrite list_elem_of_fmap. intros ((k'&a')&Heq&Hin).
    rewrite Forall_forall in Hids. apply (Hids _ Hin). simpl in *. set_solver.
  - constructor; [done|]. eapply Forall_impl; [exact Hids|]. set_solver.
Qed.

(** Distinct accounts in the iteration are distinct accounts in the map. *)
Lemma account_ids_NoDup (m : gmap string AppAccount) :
  NoDup (map (account_id ∘ snd) (btree_iter str_leb m)) ↔
  ∀ k1 k2 a1 a2, m !! k1 = Some a1 → m !! k2 = Some a2 →
    account_id a1 = account_id a2 → k1 = k2.
Proof.
  pose proof (NoDup_btree_iter_keys str_leb m) as Hk. split.
  - rewrite NoDup_alt. intros Hnd k1 k2 a1 a2 H1 H2 Heq.
    apply (elem_of_btree_iter str_leb) in H1, H2.
    apply list_elem_of_lookup in H1 as [i Hi], H2 as [j Hj].
    assert (i = j) as ->.
    { apply (Hnd i j (account_id a1)); rewrite list_lookup_fmap.
      - by rewrite Hi.
      - rewrite Hj. simpl. by rewrite Heq. }
    congruence.
  - intros Hinj. rewrite NoDup_alt. intros i j x. rewrite !list_lookup_fmap.
    destruct (btree_iter str_leb m !! i) as [[k1 a1]|] eqn:Hi; [|done].
    destruct (btree_iter str_leb m !! j) as [[k2 a2]|] eqn:Hj; [|done].
    simpl. intros [= H1] [= H2]. rewrite NoDup_alt in Hk.
    assert (k1 = k2) as ->.
    { apply (Hinj k1 k2 a1 a2); [..|congruence];
        apply (elem_of_btree_iter str_leb), list_elem_of_lookup; eauto. }
    apply (Hk i j k2); rewrite list_lookup_fmap; by rewrite ?Hi, ?Hj.
Qed.

Lemma btree_iter_Forall (P : string * AppAccount → Prop) (m : gmap string AppAccount) :
  Forall P (btree_iter str_leb m) ↔ ∀ k a, m !! k = Some a → P (k, a).
Proof.
  rewrite Forall_forall. setoid_rewrite <- (elem_of_btree_iter str_leb m).
  split; [auto|]. intros HP [k a]. apply HP.
Qed.

Lemma validate_no_panic r : AppRegistry_validate r ≠ Panicked.
Proof.
  unfold AppRegistry_validate. repeat (case_match; [done|]).
  assert (∀ l ids users highest, validate_accounts ids users highest l ≠ Panicked) as Hl.
  { induction l as [|[k a] l IH]; intros; simpl; [done|]. repeat match goal with |- (if ?b then _ else _) ≠ _ => destruct b; [done|] end. apply IH. }
  pose proof (Hl (btree_iter str_leb (apps r)) ∅ ∅ None).
  destruct (validate_accounts _ _ _ _); [by case_match|done..].
Qed.

Lemma validate_iff_wf r : AppRegistry_validate r = Ok tt ↔ registry_wf r.
Proof.
  unfold AppRegistry_validate. split.
  - intros Hv. repeat (case_match; [done|]). case_match eqn:Hva; [|done|done].
    apply validate_accounts_inv in Hva as (->&Hok&Hnd&_). case_match eqn:Hmax; [done|].
    apply max_id_below in Hmax as [_ Hlt]. unbool_hyps.
    rewrite btree_iter_Forall in Hok, Hlt. constructor; [done|done| |by apply account_ids_NoDup].
    intros k a Ha. destruct (Hok k a Ha). split_and!; [done|done|by apply (Hlt k a)].
  - intros []. rewrite (proj2 (Z.eqb_eq _ _)) by done.
    rewrite !(proj2 (Z.leb_le _ _)) by lia. simpl.
    rewrite validate_accounts_ok; [|..].
    + rewrite (proj2 (max_id_below _ _ _)); [done|]. split; [done|].
      apply btree_iter_Forall. intros k a Ha. by apply rw_apps0 in Ha as (?&?&?).
    + split; set_solver.
    + apply btree_iter_Forall. intros k a Ha. by apply rw_apps0 in Ha as (?&?&?).
    + by apply account_ids_NoDup.
    + apply Forall_true. set_solver.
Qed.

(** *** The operations keep the invariant *)

Lemma retain_ne_notin v vs : v ∉ vs → retain_ne v vs = vs.
Proof.
  induction vs as [|x vs IH]; intros Hv; simpl; [done|].
  rewrite bool_decide_eq_false_2 by set_solver. simpl. rewrite IH; set_solver.
Qed.

Lemma elem_of_retain_ne v vs x : x ∈ retain_ne v vs ↔ x ∈ vs ∧ x ≠ v.
Proof.
  unfold retain_ne. rewrite !list_elem_of_In, filter_In, negb_true_iff, bool_decide_eq_false. done.
Qed.

Lemma sublist_retain_ne v vs : retain_ne v vs `sublist_of` vs.
Proof.
  induction vs as [|x vs IH]; simpl; [done|]. destruct (negb _); by constructor.
Qed.

(** The rollback list the source builds: the current version in front of the
    others, at most two entries. *)
Lemma push_history_wf v current prev :
  is_valid_app_version current = true → current ≠ v →
  Forall (λ x, is_valid_app_version x = true) prev → v ∉ prev → NoDup prev →
  let h := take MAX_ROLLBACK_VERSIONS (current :: retain_ne current prev) in
  (length h ≤ MAX_ROLLBACK_VERSIONS)%nat ∧
  Forall (λ x, is_valid_app_version x = true ∧ Some v ≠ Some x) h ∧ NoDup h.
Proof.
  intros Hc Hcv Hall Hv Hnd h. split_and!; subst h.
  - rewrite length_take. lia.
  - apply Forall_take. constructor; [split; congruence|]. rewrite Forall_forall in *.
    intros x [Hx Hne]%elem_of_retain_ne. split; [auto|]. intros [= ->]. done.
  - eapply sublist_NoDup; [|apply sublist_take]. constructor.
    + rewrite elem_of_retain_ne. naive_solver.
    + eapply sublist_NoDup; [exact Hnd|apply sublist_retain_ne].
Qed.

Lemma account_mark_installed_wf now v a :
  account_wf a → is_valid_app_version v = true → account_wf (account_mark_installed now v a).
Proof.
  intros [] Hv. unfold account_mark_installed. case_bool_decide as Hiv.
  { constructor; simpl; auto. intros Hn. congruence. }
  assert (Forall (λ x, is_valid_app_version x = true) (retain_ne v (previous_versions a))) as Hall.
  { rewrite Forall_forall in *. intros x [Hx _]%elem_of_retain_ne. by apply aw_previous0. }
  assert (NoDup (retain_ne v (previous_versions a))) as Hnd
    by (eapply sublist_NoDup; [done|apply sublist_retain_ne]).
  assert (v ∉ retain_ne v (previous_versions a)) as Hnin by (rewrite elem_of_retain_ne; tauto).
  destruct (installed_version a) as [current|] eqn:Hi.
  - destruct (push_history_wf v current (retain_ne v (previous_versions a))) as (Hlen&Hf&Hd); auto.
    { congruence. }
    constructor; simpl; auto; naive_solver.
  - destruct aw_uninstalled0 as [_ ->]; [done|].
    constructor; simpl; auto; try naive_solver; unfold MAX_ROLLBACK_VERSIONS; first [lia|constructor].
Qed.

Definition account_rollback (target : string) (rest : list string) (current : string) (a : AppAccount) :=
  set_version (Some target) (take MAX_ROLLBACK_VERSIONS (current :: retain_ne current rest))
    (installed_at_unix_seconds a) a.

Lemma account_rollback_wf target rest current a :
  account_wf a → installed_version a = Some current → previous_versions a = target :: rest →
  account_wf (account_rollback target rest current a).
Proof.
  intros [] Hi Hp. rewrite Hp in *. rewrite Hi in *.
  apply Forall_cons in aw_previous0 as [[Ht Htc] Hrest]. apply NoDup_cons in aw_distinct0 as [Hnin Hnd].
  destruct (push_history_wf target current rest) as (?&?&?); auto.
  { congruence. }
  { eapply Forall_impl; [exact Hrest|]. naive_solver. }
  constructor; simpl; auto; naive_solver.
Qed.

Lemma account_uninstall_wf a : account_wf a → account_wf (set_version None [] None a).
Proof.
  intros []. constructor; simpl; auto; try done;
    unfold MAX_ROLLBACK_VERSIONS; first [lia|constructor].
Qed.

Lemma registry_wf_update r k a a' :
  registry_wf r → apps r !! k = Some a → account_wf a' → account_id a' = account_id a →
  registry_wf (set_apps (<[k := a']> (apps r)) r).
Proof.
  intros [] Hk Ha' Hid. constructor; simpl; auto.
  - intros k' b. destruct (decide (k = k')) as [<-|]; simplify_map_eq.
    + intros [= <-]. destruct (rw_apps0 _ _ Hk) as (?&?&?). rewrite Hid. auto.
    + eauto.
  - intros k1 k2 a1 a2. rewrite !lookup_insert. repeat case_decide; subst; intros; simplify_eq; auto.
    all: eapply rw_distinct0; eauto; congruence.
Qed.

Lemma assign_wf r k : registry_wf r → registry_wf (AppRegistry_assign r k).2.
Proof.
  intros Hwf. unfold AppRegistry_assign. destruct (is_valid_app_id k) eqn:Hk; simpl; [|done].
  destruct (apps r !! k) as [a|] eqn:Ha; [done|]. case_match eqn:Hn; [done|]. unbool_hyps. simpl.
  destruct Hwf. unfold LAST_APP_ACCOUNT_ID, FIRST_APP_ACCOUNT_ID in *.
  assert (∀ k' b, apps r !! k' = Some b → (account_id b < next_account_id r)%Z) as Hlt.
  { intros k' b Hb. by destruct (rw_apps0 _ _ Hb) as (?&?&?). }
  constructor; simpl; auto; [unfold LAST_APP_ACCOUNT_ID, FIRST_APP_ACCOUNT_ID; lia|..].
  - intros k' b. destruct (decide (k = k')) as [<-|]; simplify_map_eq.
    + intros [= <-]. split_and!; [done| |simpl; lia].
      constructor; simpl; auto; unfold LAST_APP_ACCOUNT_ID, FIRST_APP_ACCOUNT_ID; try lia; try done.
      all: unfold MAX_ROLLBACK_VERSIONS; first [lia|constructor].
    + intros Hb. destruct (rw_apps0 _ _ Hb) as (?&?&?). split_and!; auto; lia.
  - intros k1 k2 a1 a2. rewrite !lookup_insert. repeat case_decide; subst; intros; simplify_eq/=; auto.
    + exfalso. apply Hlt in H1. lia.
    + exfalso. apply Hlt in H0. lia.
    + eauto.
Qed.

Lemma validate_update_ok r k a a' :
  registry_wf r → apps r !! k = Some a → account_wf a' → account_id a' = account_id a →
  AppRegistry_validate (set_apps (<[k := a']> (apps r)) r) = Ok tt.
Proof. intros. apply validate_iff_wf. eauto using registry_wf_update. Qed.

(** The outcomes of [assign], by the account the id has or gets. *)
Lemma assign_account r k a :
  (AppRegistry_assign r k).1 = Ok a → apps (AppRegistry_assign r k).2 !! k = Some a.
Proof.
  unfold AppRegistry_assign. repeat (case_match; simpl); try done; intros; simplify_map_eq; done.
Qed.

(** The evaluated forms of the three operations on an installed application. *)
Lemma uninstall_ok r k a v :
  registry_wf r → apps r !! k = Some a → installed_version a = Some v →
  AppRegistry_uninstall r k =
    (Ok (set_version None [] None a), set_apps (<[k := set_version None [] None a]> (apps r)) r).
Proof.
  intros Hwf Ha Hv. unfold AppRegistry_uninstall. rewrite Ha. rewrite bool_decide_eq_false_2 by congruence.
  destruct (rw_apps _ Hwf _ _ Ha) as (_&Haw&_).
  by rewrite (validate_update_ok r k a) by eauto using account_uninstall_wf.
Qed.

Lemma rollback_ok r k a current target rest :
  registry_wf r → apps r !! k = Some a → installed_version a = Some current →
  previous_versions a = target :: rest →
  AppRegistry_rollback r k =
    (Ok (account_rollback target rest current a),
     set_apps (<[k := account_rollback target rest current a]> (apps r)) r).
Proof.
  intros Hwf Ha Hv Hp. unfold AppRegistry_rollback. rewrite Ha, Hv, Hp.
  destruct (rw_apps _ Hwf _ _ Ha) as (_&Haw&_).
  rewrite (validate_update_ok r k a); eauto. by apply account_rollback_wf.
Qed.

Lemma mark_installed_ok now r m a r' :
  registry_wf r → manifest_validate m = Ok tt → AppRegistry_assign r (m_id m) = (Ok a, r') →
  AppRegistry_mark_installed now r m =
    (Ok (account_mark_installed now (m_version m) a),
     set_apps (<[m_id m := account_mark_installed now (m_version m) a]> (apps r')) r').
Proof. intros Hwf Hm Ha. unfold AppRegistry_mark_installed. by rewrite Hm, Ha. Qed.

(** One call of a mutating method, whatever its outcome. *)
Inductive registry_step : AppRegistry → AppRegistry → Prop :=
  | step_assign r k : registry_step r (AppRegistry_assign r k).2
  | step_mark_installed now r m : registry_step r (AppRegistry_mark_installed now r m).2
  | step_uninstall r k : registry_step r (AppRegistry_uninstall r k).2
  | step_rollback r k : registry_step r (AppRegistry_rollback r k).2.

(** What a call does to the map: nothing, a fresh account, or a new version
    state for an existing account. *)
Inductive registry_effect (r : AppRegistry) : AppRegistry → Prop :=
  | effect_none : registry_effect r r
  | effect_fresh k r' a : AppRegistry_assign r k = (Ok a, r') → registry_effect r r'
  | effect_update k r' a a' :
      r' = r ∨ (∃ b, AppRegistry_assign r k = (Ok b, r')) →
      apps r' !! k = Some a → account_wf a' →
      account_id a' = account_id a → unix_user a' = unix_user a → unix_uid a' = unix_uid a →
      registry_effect r (set_apps (<[k := a']> (apps r')) r').

Lemma set_version_effect r k a v prev at_ :
  apps r !! k = Some a → account_wf (set_version v prev at_ a) →
  registry_effect r (set_apps (<[k := set_version v prev at_ a]> (apps r)) r).
Proof. intros. eapply effect_update; eauto. Qed.

Lemma registry_step_effect r r' : registry_wf r → registry_step r r' → registry_effect r r'.
Proof.
  intros Hwf Hstep. destruct Hstep as [r k|now r m|r k|r k].
  - destruct (AppRegistry_assign r k) as [[a|e|] r'] eqn:E; simpl; [by eapply effect_fresh|..];
      unfold AppRegistry_assign in E; repeat case_match; simplify_eq; constructor.
  - unfold AppRegistry_mark_installed. destruct (manifest_validate m) as [[]| |] eqn:Hm; [|constructor..].
    destruct (AppRegistry_assign r (m_id m)) as [[a|e|] r'] eqn:E; simpl.
    + pose proof (assign_wf r (m_id m) Hwf) as Hwf'. pose proof (assign_account r (m_id m) a) as Ha.
      rewrite E in Hwf', Ha. simpl in *. specialize (Ha eq_refl).
      destruct (rw_apps _ Hwf' _ _ Ha) as (_&Haw&_). apply manifest_validate_wf in Hm as [].
      eapply effect_update; [right; by eexists|exact Ha|by apply account_mark_installed_wf|..];
        unfold account_mark_installed; by case_match.
    + unfold AppRegistry_assign in E. repeat case_match; simplify_eq; constructor.
    + unfold AppRegistry_assign in E. repeat case_match; simplify_eq; constructor.
  - unfold AppRegistry_uninstall. destruct (apps r !! k) as [a|] eqn:Ha; [|constructor].
    case_bool_decide; [constructor|]. simpl. destruct (rw_apps _ Hwf _ _ Ha) as (_&Haw&_).
    by apply set_version_effect, account_uninstall_wf.
  - unfold AppRegistry_rollback. destruct (apps r !! k) as [a|] eqn:Ha; [|constructor].
    destruct (installed_version a) as [current|] eqn:Hc; [|constructor].
    destruct (previous_versions a) as [|target rest] eqn:Hp; [constructor|]. simpl.
    destruct (rw_apps _ Hwf _ _ Ha) as (_&Haw&_).
    apply set_version_effect; [done|]. by apply account_rollback_wf.
Qed.

Lemma registry_effect_wf r r' : registry_wf r → registry_effect r r' → registry_wf r'.
Proof.
  intros Hwf [|k r1 a Ha|k r1 a a' Hr Ha Ha' Hid _ _]; [done| |].
  - pose proof (assign_wf r k Hwf) as H. by rewrite Ha in H.
  - assert (registry_wf r1).
    { destruct Hr as [->|[b Hb]]; [done|]. pose proof (assign_wf r k Hwf) as H. by rewrite Hb in H. }
    by eapply registry_wf_update.
Qed.

Lemma assign_preserves r k a r' k' b :
  AppRegistry_assign r k = (Ok a, r') → apps r !! k' = Some b → apps r' !! k' = Some b.
Proof.
  unfold AppRegistry_assign. intros Ha Hb. repeat case_match; simplify_eq/=; [done|].
  rewrite lookup_insert_ne; [done|]. intros ->. congruence.
Qed.

Definition same_identity (a b : AppAccount) : Prop :=
  account_id a = account_id b ∧ unix_user a = unix_user b ∧ unix_uid a = unix_uid b.

Lemma registry_effect_identity r r' k a :
  registry_effect r r' → apps r !! k = Some a →
  ∃ a', apps r' !! k = Some a' ∧ same_identity a' a.
Proof.
  intros [|k1 r1 a1 Ha1|k1 r1 a1 a1' Hr Ha Ha' Hid Hu Hi] Hk.
  - exists a. by repeat split.
  - exists a. split; [by eapply assign_preserves|by repeat split].
  - assert (apps r1 !! k = Some a) as Hk1.
    { destruct Hr as [->|[b Hb]]; [done|by eapply assign_preserves]. }
    simpl. destruct (decide (k1 = k)) as [->|]; simplify_map_eq.
    + eexists. split; [done|]. by repeat split.
    + exists a. split; [done|by repeat split].
Qed.

Lemma registry_steps_wf r r' : registry_wf r → rtc registry_step r r' → registry_wf r'.
Proof.
  intros Hwf Hs. induction Hs as [|r r1 r2 H1 _ IH]; [done|].
  apply IH. eapply registry_effect_wf; [done|]. by apply registry_step_effect.
Qed.

Lemma default_wf : registry_wf AppRegistry_default.
Proof. by apply validate_iff_wf. Qed.

Lemma registry_steps_identity r r' k a :
  registry_wf r → rtc registry_step r r' → apps r !! k = Some a →
  ∃ a', apps r' !! k = Some a' ∧ same_identity a' a.
Proof.
  intros Hwf Hs. revert a. induction Hs as [r|r r1 r2 H1 _ IH]; intros a Ha.
  { exists a. by repeat split. }
  pose proof (registry_step_effect _ _ Hwf H1) as He.
  destruct (registry_effect_identity _ _ _ _ He Ha) as (b&Hb&Hid1&Hid2&Hid3).
  destruct (IH (registry_effect_wf _ _ Hwf He) b Hb) as (c&Hc&?&?&?).
  exists c. split; [done|]. repeat split; congruence.
Qed.

#[export] Hint Resolve default_wf registry_steps_wf : rust.

Lemma find_unique {A} (f : A → bool) l x :
  x ∈ l → f x = true → (∀ y, y ∈ l → f y = true → y = x) → List.find f l = Some x.
Proof.
  intros Hx Hf Hu. destruct (List.find f l) as [y|] eqn:E.
  - apply find_some_elem in E as [??]. f_equal. auto.
  - pose proof (find_none_elem _ _ _ E Hx). congruence.
Qed.

(** A sample registry, two applications in, for the concrete instances. *)
Definition sample_registry : AppRegistry :=
  (AppRegistry_assign (AppRegistry_mark_installed 1700000000 AppRegistry_default hello_manifest).2
     "dev.cardputerzero.camera").2.

Definition hello_upgrade : AppManifest :=
  {| m_schema_version := m_schema_version hello_manifest; m_id := m_id hello_manifest;
     m_name := m_name hello_manifest; m_version := "0.2.0";
     m_sdk_version := m_sdk_version hello_manifest; m_runtime := Wamr;
     m_entrypoint := m_entrypoint hello_manifest; m_display := Standard;
     m_resources := m_resources hello_manifest; m_permissions := m_permissions hello_manifest;
     m_intents := m_intents hello_manifest |}.

Definition sample_account (installed : string) (previous : list string) : AppAccount :=
  mkAppAccount 20000 "cp0-app-20000" 20000 (Some installed) previous (Some 1700000000%Z).

(** ** Properties *)

(** The registry validator decides the invariant: it accepts exactly the
    registries in which every account is well formed, belongs to one
    application and lies below the next account to hand out. *)
Theorem registry_validate_iff r : AppRegistry_validate r = Ok tt ↔ registry_wf r.
Proof. apply validate_iff_wf. Qed.

(** C2: every registry that a sequence of assign, mark-installed, uninstall and
    rollback calls makes from the empty one is accepted by the validator, so
    loading a registry that the service saved never refuses it. *)
Theorem registry_reachable_valid r :
  rtc registry_step AppRegistry_default r → AppRegistry_validate r = Ok tt.
Proof. intros. apply validate_iff_wf. eauto with rust. Qed.

Lemma registry_reachable_valid_witness :
  rtc registry_step AppRegistry_default sample_registry ∧ AppRegistry_validate sample_registry = Ok tt.
Proof.
  assert (rtc registry_step AppRegistry_default sample_registry) as H.
  { eapply rtc_l; [apply (step_mark_installed 1700000000 _ hello_manifest)|].
    eapply rtc_l; [apply (step_assign _ "dev.cardputerzero.camera")|]. apply rtc_refl. }
  split; [exact H|apply (registry_reachable_valid _ H)].
Defined.

(** C1: an account is permanent: whatever calls follow, uninstalling included,
    an application keeps its Unix user and uid, and no other application ever
    gets them. *)
Theorem account_identity_permanent r r' k a :
  AppRegistry_validate r = Ok tt → rtc registry_step r r' → apps r !! k = Some a →
  ∃ a', apps r' !! k = Some a' ∧ same_identity a' a ∧
    ∀ k2 b, k2 ≠ k → apps r' !! k2 = Some b →
      unix_uid b ≠ unix_uid a ∧ unix_user b ≠ unix_user a.
Proof.
  intros Hv%validate_iff_wf Hs Ha.
  destruct (registry_steps_identity _ _ _ _ Hv Hs Ha) as (a'&Ha'&Hid1&Hid2&Hid3).
  exists a'. split_and!; [done|by repeat split|]. intros k2 b Hk Hb.
  assert (registry_wf r') as Hwf by eauto with rust.
  destruct (rw_apps _ Hwf _ _ Ha') as (_&[]&_). destruct (rw_apps _ Hwf _ _ Hb) as (_&[]&_).
  split; intros Heq; apply Hk, (rw_distinct _ Hwf _ _ _ _ Hb Ha'); [congruence|].
  unfold FIRST_APP_ACCOUNT_ID in *. apply unix_user_of_inj; [lia..|congruence].
Qed.

Lemma account_identity_permanent_witness :
  ∃ a', apps (AppRegistry_uninstall sample_registry "dev.cardputerzero.hello").2
          !! "dev.cardputerzero.hello" = Some a' ∧
        same_identity a' (sample_account "0.1.0" []).
Proof.
  destruct (account_identity_permanent sample_registry
    (AppRegistry_uninstall sample_registry "dev.cardputerzero.hello").2
    "dev.cardputerzero.hello" (sample_account "0.1.0" [])) as (a'&?&?&?).
  - by vm_compute.
  - eapply rtc_l; [apply step_uninstall|apply rtc_refl].
  - by vm_compute.
  - by exists a'.
Defined.

(** In a valid registry a uid identifies at most one installed application,
    and the lookup by uid finds exactly it. *)
Theorem uid_identifies_app r uid k a :
  AppRegistry_validate r = Ok tt →
  AppRegistry_installed_app_for_uid r uid = Some (k, a) ↔
  apps r !! k = Some a ∧ unix_uid a = uid ∧ is_Some (installed_version a).
Proof.
  intros Hwf%validate_iff_wf. unfold AppRegistry_installed_app_for_uid. split.
  - intros [Hin Hf]%find_some_elem. apply elem_of_btree_iter in Hin. simpl in Hf. unbool_hyps. auto.
  - intros (Ha&Hu&Hi). apply find_unique.
    + by apply elem_of_btree_iter.
    + simpl. rewrite bool_decide_eq_true_2 by done. by rewrite (proj2 (Z.eqb_eq _ _)).
    + intros [k' a'] Hin. apply elem_of_btree_iter in Hin. simpl. intros Hf. unbool_hyps.
      destruct (rw_apps _ Hwf _ _ Ha) as (_&[]&_). destruct (rw_apps _ Hwf _ _ Hin) as (_&[]&_).
      assert (k' = k) as -> by (eapply (rw_distinct _ Hwf); eauto; congruence). congruence.
Qed.

Lemma uid_identifies_app_witness :
  AppRegistry_installed_app_for_uid sample_registry 20000
  = Some ("dev.cardputerzero.hello", sample_account "0.1.0" []).
Proof. apply uid_identifies_app; [by vm_compute|]. split_and!; [by vm_compute|done|]. by exists "0.1.0". Defined.

(** Rolling back twice restores the registry exactly: the first call
    installs the newest previous version and keeps the current one to return
    to. *)
Theorem rollback_involutive r k a current target rest :
  AppRegistry_validate r = Ok tt → apps r !! k = Some a →
  installed_version a = Some current → previous_versions a = target :: rest →
  let r1 := (AppRegistry_rollback r k).2 in
  (∃ a1, (AppRegistry_rollback r k).1 = Ok a1 ∧ installed_version a1 = Some target ∧
         previous_versions a1 = current :: rest) ∧
  (AppRegistry_rollback r1 k).1 = Ok a ∧ (AppRegistry_rollback r1 k).2 = r.
Proof.
  intros Hwf%validate_iff_wf Ha Hc Hp. destruct (rw_apps _ Hwf _ _ Ha) as (_&Haw&_).
  destruct Haw as [_ _ _ _ Hlen _ Hprev Hnd]. rewrite Hp, Hc in *.
  apply Forall_cons in Hprev as [[_ Htc] Hrest]. apply NoDup_cons in Hnd as [Htn _].
  assert (current ∉ rest) as Hcr.
  { rewrite Forall_forall in Hrest. intros Hin. by apply Hrest in Hin as [_ ?]. }
  assert (length rest ≤ 1)%nat as Hr1 by (unfold MAX_ROLLBACK_VERSIONS in Hlen; simpl in Hlen; lia).
  assert (∀ x, take MAX_ROLLBACK_VERSIONS (x :: rest) = x :: rest) as Htake
    by (intros; apply take_ge; unfold MAX_ROLLBACK_VERSIONS; simpl; lia).
  rewrite (rollback_ok r k a current target rest) by done. simpl.
  assert (account_rollback target rest current a =
    set_version (Some target) (current :: rest) (installed_at_unix_seconds a) a) as Heq1.
  { unfold account_rollback. by rewrite retain_ne_notin, Htake. }
  split; [rewrite Heq1; by eexists|].
  assert (registry_wf (set_apps (<[k := account_rollback target rest current a]> (apps r)) r)) as Hwf1.
  { eapply registry_wf_update; eauto. destruct (rw_apps _ Hwf _ _ Ha) as (_&Haw&_).
    by apply account_rollback_wf. }
  rewrite (rollback_ok _ k (account_rollback target rest current a) target current rest);
    [|done|by simpl; rewrite lookup_insert_eq|done|by rewrite Heq1].
  assert (account_rollback current rest target (account_rollback target rest current a) = a) as ->.
  { rewrite Heq1. unfold account_rollback. rewrite retain_ne_notin, Htake by done.
    unfold set_version. simpl. rewrite <- Hc, <- Hp. by destruct a. }
  simpl.
  split; [done|]. rewrite insert_insert_eq, insert_id by done. by destruct r.
Qed.

Lemma rollback_involutive_witness :
  let r := (AppRegistry_mark_installed 1 sample_registry hello_upgrade).2 in
  (AppRegistry_rollback (AppRegistry_rollback r "dev.cardputerzero.hello").2
     "dev.cardputerzero.hello").2 = r.
Proof.
  apply (rollback_involutive _ _ (sample_account "0.2.0" ["0.1.0"]) "0.2.0" "0.1.0" []); by vm_compute.
Defined.

(** Installing a different version and rolling back brings the earlier
    version back, with the newer one as the version to return to. *)
Theorem upgrade_then_rollback now r m a old :
  AppRegistry_validate r = Ok tt → manifest_validate m = Ok tt →
  apps r !! m_id m = Some a → installed_version a = Some old → m_version m ≠ old →
  let r1 := (AppRegistry_mark_installed now r m).2 in
  (∃ a1, (AppRegistry_mark_installed now r m).1 = Ok a1 ∧ installed_version a1 = Some (m_version m)) ∧
  ∃ a2 rest, (AppRegistry_rollback r1 (m_id m)).1 = Ok a2 ∧ installed_version a2 = Some old ∧
    previous_versions a2 = m_version m :: rest.
Proof.
  intros Hwf%validate_iff_wf Hm Ha Ho Hne.
  assert (AppRegistry_assign r (m_id m) = (Ok a, r)) as Hassign.
  { unfold AppRegistry_assign. destruct (rw_apps _ Hwf _ _ Ha) as (->&_&_). simpl. by rewrite Ha. }
  rewrite (mark_installed_ok now r m a r) by done. simpl.
  destruct (rw_apps _ Hwf _ _ Ha) as (_&Haw&_).
  pose proof (proj1 (manifest_validate_wf m) Hm) as Hmw.
  pose proof (account_mark_installed_wf now (m_version m) a Haw (wf_version _ Hmw)) as Haw1.
  assert (account_id (account_mark_installed now (m_version m) a) = account_id a) as Hid
    by (unfold account_mark_installed; by case_match).
  assert (installed_version (account_mark_installed now (m_version m) a) = Some (m_version m)) as Hi1.
  { unfold account_mark_installed. case_bool_decide; simpl; [congruence|done]. }
  assert (∃ rest, previous_versions (account_mark_installed now (m_version m) a) = old :: rest) as [rest Hp1].
  { unfold account_mark_installed. rewrite Ho, bool_decide_eq_false_2 by congruence. simpl. eauto. }
  split; [eauto|].
  rewrite (rollback_ok _ (m_id m) (account_mark_installed now (m_version m) a) (m_version m) old rest);
    [|by eapply registry_wf_update|by simpl; rewrite lookup_insert_eq|done..].
  simpl. eexists _, _. split_and!; done.
Qed.

Lemma upgrade_then_rollback_witness :
  ∃ a2 rest, (AppRegistry_rollback (AppRegistry_mark_installed 5 sample_registry hello_upgrade).2
                "dev.cardputerzero.hello").1 = Ok a2 ∧
    installed_version a2 = Some "0.1.0" ∧ previous_versions a2 = "0.2.0" :: rest.
Proof.
  apply (upgrade_then_rollback 5 sample_registry hello_upgrade (sample_account "0.1.0" []) "0.1.0");
    by vm_compute.
Defined.

(** A call that fails leaves a valid registry unchanged; in particular the
    validation inside uninstall and rollback never fails after the change. *)
Theorem registry_error_unchanged now r k m :
  AppRegistry_validate r = Ok tt →
  (is_ok (AppRegistry_assign r k).1 = false → (AppRegistry_assign r k).2 = r) ∧
  (is_ok (AppRegistry_mark_installed now r m).1 = false → (AppRegistry_mark_installed now r m).2 = r) ∧
  (is_ok (AppRegistry_uninstall r k).1 = false → (AppRegistry_uninstall r k).2 = r) ∧
  (is_ok (AppRegistry_rollback r k).1 = false → (AppRegistry_rollback r k).2 = r).
Proof.
  intros Hwf%validate_iff_wf.
  assert (∀ k', is_ok (AppRegistry_assign r k').1 = false → (AppRegistry_assign r k').2 = r) as Hassign.
  { intros k'. unfold AppRegistry_assign. by repeat case_match. }
  split_and!; [apply Hassign|..].
  - unfold AppRegistry_mark_installed. destruct (manifest_validate m); try done.
    specialize (Hassign (m_id m)). destruct (AppRegistry_assign r (m_id m)) as [[] ?]; simpl in *; [done|auto..].
  - destruct (apps r !! k) as [a|] eqn:Ha; [|unfold AppRegistry_uninstall; by rewrite Ha].
    destruct (installed_version a) as [v|] eqn:Hv; [by rewrite (uninstall_ok r k a v)|].
    unfold AppRegistry_uninstall. rewrite Ha. by rewrite bool_decide_eq_true_2.
  - destruct (apps r !! k) as [a|] eqn:Ha; [|unfold AppRegistry_rollback; by rewrite Ha].
    destruct (installed_version a) as [v|] eqn:Hv; [|unfold AppRegistry_rollback; by rewrite Ha, Hv].
    destruct (previous_versions a) as [|t rest] eqn:Hp; [unfold AppRegistry_rollback; by rewrite Ha, Hv, Hp|].
    by rewrite (rollback_ok r k a v t rest).
Qed.

Lemma registry_error_unchanged_witness :
  (AppRegistry_rollback sample_registry "dev.cardputerzero.hello").2 = sample_registry.
Proof.
  destruct (registry_error_unchanged 0 sample_registry "dev.cardputerzero.hello" hello_manifest)
    as (_&_&_&H); [by vm_compute|]. apply H. by vm_compute.
Defined.

(** Whatever operation of [save_atomic] fails and wherever the device
    loses power, the registry path holds the file it held before or the
    complete new registry on stable storage, and no other file changes except
    the temporary one.  When the call succeeds the new registry is in place. *)
Theorem registry_save_crash_safe `{Host} `{Codec AppRegistry} r bs path parent f w :
  quiet _ → disk_wf (w_disk w) → path_is_absolute path = true →
  path_parent path = Some parent → path_file_name path = Some f → to_json r = Some bs →
  let temporary := path_join parent (temporary_name f (w_sequence w RegistryTemp)) in
  let safe := old_or_new (w_disk w) temporary path (bs ++ [newline]) in
  let run := AppRegistry_save_atomic r path w in
  (∃ tr, w_trace run.2 = tr ++ w_trace w ∧ Forall safe tr) ∧ safe (w_disk run.2) ∧
  (run.1 = Ok tt → file_at (w_disk run.2) path = Some (new_inode (bs ++ [newline]))) ∧
  run.1 ≠ Panicked.
Proof.
  intros Hq Hd Habs Hp Hf Hbs. simpl. unfold AppRegistry_save_atomic, io_bind, io_lift, encode_line.
  rewrite Hbs. simpl.
  destruct (AppRegistry_validate r) as [[]|e|] eqn:Hv; simpl.
  - destruct (atomic_replace_safe RegistryTemp path parent f (bs ++ [newline]) w Hq Hd Habs Hp Hf)
      as (tr&Htr&Hall&Hout).
    unfold io_map_err. destruct (atomic_replace _ _ _ _) as [[[]|e|] w']; simpl in *; [..|done].
    + split_and!; [eauto|by apply installed_old_or_new|intros _; apply Hout|done].
    + split_and!; [eauto|done..].
  - split_and!; [by exists []|by split; auto|done..].
  - exfalso. by eapply validate_no_panic.
Qed.

(** A codec that knows one registry. *)
Definition sample_codec : Codec AppRegistry :=
  {| to_json := λ _, Some ["{"%char; "}"%char]; from_json := λ _, Some sample_registry |}.

Lemma registry_save_crash_safe_witness :
  let run := @AppRegistry_save_atomic calm_host sample_codec sample_registry "/var/lib/registry.json" empty_world in
  run.1 ≠ Panicked ∧ w_trace run.2 ≠ [].
Proof.
  split; [|by vm_compute].
  apply (@registry_save_crash_safe calm_host sample_codec sample_registry ["{"%char; "}"%char]
    "/var/lib/registry.json" "/var/lib" "registry.json" empty_world); [done|by split|by vm_compute..].
Defined.

(** A valid registry that is saved is the registry the next start loads,
    when no operation fails and serde reads back what it wrote. *)
Theorem registry_save_load `{Host} `{Codec AppRegistry} r bs path parent f w :
  quiet _ → no_faults _ → disk_wf (w_disk w) → path_is_absolute path = true →
  path_parent path = Some parent → path_file_name path = Some f →
  d_names (w_disk w) !! path_join parent (temporary_name f (w_sequence w RegistryTemp)) = None →
  AppRegistry_validate r = Ok tt →
  to_json r = Some bs → from_json (bs ++ [newline]) = Some r →
  let saved := AppRegistry_save_atomic r path w in
  saved.1 = Ok tt ∧ (AppRegistry_load path saved.2).1 = Ok r.
Proof.
  intros Hq Hnf Hd Habs Hp Hf Hfree Hv Hto Hfrom.
  destruct (replace_then_read Hq Hnf RegistryTemp path parent f (bs ++ [newline]) w)
    as (w'&Hsave&Hread); [done..|].
  unfold AppRegistry_save_atomic, io_bind at 1 2, io_lift, encode_line. rewrite Hv, Hto. simpl.
  unfold io_map_err at 1 2. rewrite Hsave. simpl. split; [done|].
  unfold AppRegistry_load, io_bind, io_map_err. destruct (fs_read_file path w') as [o w'']. simpl in *.
  subst o. simpl. unfold io_lift, ok_or. by rewrite Hfrom, Hv.
Qed.

Lemma registry_save_load_witness :
  let saved := @AppRegistry_save_atomic calm_host sample_codec sample_registry "/var/lib/registry.json" empty_world in
  (@AppRegistry_load calm_host sample_codec "/var/lib/registry.json" saved.2).1 = Ok sample_registry.
Proof.
  apply (@registry_save_load calm_host sample_codec sample_registry ["{"%char; "}"%char]
    "/var/lib/registry.json" "/var/lib" "registry.json" empty_world); [done|done|by split|by vm_compute..].
Defined.
