(* ===== verification/Policy.v ===== *)
(** * The device policy (crates/cp0-appd/src/policy.rs)

    The policy file that a parent or an organisation installs, the two device
    modes with their marker files, and the secure loader.  The modelled disk is
    one file system, so the comparison of device and inode numbers is the
    comparison of inode numbers.

    The theorems: the validator decides [policy_wf]; on a validated policy the
    binary searches are membership; the loader only ever decodes the contents
    of a root-owned regular file, whatever other processes do to the path
    between its steps; a locked mode stays off; a mode that is set is the mode
    the settings report. *)

From S2P Require Import Prelude RustStr Manifest HostFs.

Definition DEVICE_POLICY_SCHEMA_VERSION : Z := 1.
Definition MAX_POLICY_BYTES : Z := 16 * 1024.
Definition MAX_ALLOWED_APPS : nat := 64.
Definition MODE_CONTENTS : list ascii := bytes "enabled" ++ [newline].

Inductive ManagementAuthority := Personal | Parent | Organization.
Inductive AppLaunchPolicy := AllowAll | AllowListed.
Inductive DeviceMode := Developer | Recovery.

Global Instance AppLaunchPolicy_eq_dec : EqDecision AppLaunchPolicy.
Proof. solve_decision. Defined.

Record DevicePolicy := mkDevicePolicy {
  dp_schema_version : Z;
  dp_authority : ManagementAuthority;
  developer_mode_allowed : bool;
  recovery_mode_allowed : bool;
  store_install_allowed : bool;
  store_auto_update_allowed : bool;
  store_metrics_allowed : bool;
  app_launch_policy : AppLaunchPolicy;
  allowed_apps : list string;
  denied_permissions : list Permission;
}.

Record DeviceSettings := mkDeviceSettings {
  ds_authority : ManagementAuthority;
  ds_developer_mode : bool;
  ds_developer_mode_allowed : bool;
  ds_recovery_mode : bool;
  ds_recovery_mode_allowed : bool;
  ds_store_install_allowed : bool;
  ds_app_launch_restricted : bool;
  ds_denied_permission_count : Z;
}.

Record DeviceModePaths := mkDeviceModePaths { mp_developer : string; mp_recovery : string }.

(** [impl Default for DeviceModePaths]. *)
Definition DeviceModePaths_default : DeviceModePaths :=
  {| mp_developer := "/var/lib/cardputerzero/registry/developer-mode";
     mp_recovery := "/var/lib/cardputerzero/registry/recovery-mode" |}.

Record DevicePolicyEngine := mkDevicePolicyEngine {
  engine_policy : DevicePolicy;
  engine_mode_paths : DeviceModePaths;
  engine_enforce_root : bool;
}.

Inductive SecureName := DevicePolicyFile | DeviceModeMarker.

Inductive PolicyInvalid :=
  | PolNotRegular (name : SecureName)
  | PolNotRootOwned (name : SecureName)
  | PolSize
  | PolChangedWhileOpened (name : SecureName)
  | PolChangedWhileRead
  | PolSchemaVersion
  | PolTooManyApps
  | PolInvalidAppId
  | PolAppsNotSorted
  | PolAppsWithAllowAll
  | PolPermissionsNotSorted
  | PolMarkerContents
  | PolNoParent
  | PolNotUtf8
  | PolParentNotDirectory
  | PolParentNotRootOwned.

Inductive PolicyError :=
  | PolIo (e : IoError)
  | PolJson
  | PolInvalid (why : PolicyInvalid)
  | PolLocked (mode : DeviceMode).

(** [impl Default for DevicePolicy]. *)
Definition DevicePolicy_default : DevicePolicy :=
  {| dp_schema_version := DEVICE_POLICY_SCHEMA_VERSION; dp_authority := Personal;
     developer_mode_allowed := true; recovery_mode_allowed := true;
     store_install_allowed := true; store_auto_update_allowed := true;
     store_metrics_allowed := true; app_launch_policy := AllowAll;
     allowed_apps := []; denied_permissions := [] |}.

(** ** Pure operations *)

Definition DevicePolicy_allows_app (p : DevicePolicy) (app_id : string) : bool :=
  bool_decide (app_launch_policy p = AllowAll)
  || is_ok (binary_search_by (λ candidate, String.compare candidate app_id) (allowed_apps p)).

Definition DevicePolicy_denies_permission (p : DevicePolicy) (permission : Permission) : bool :=
  is_ok (binary_search_by (λ candidate, Permission_cmp candidate permission) (denied_permissions p)).

Definition DevicePolicy_validate (p : DevicePolicy) : result PolicyError unit :=
  if negb (dp_schema_version p =? DEVICE_POLICY_SCHEMA_VERSION)%Z
  then Err (PolInvalid PolSchemaVersion)
  else if (MAX_ALLOWED_APPS <? length (allowed_apps p))%nat
  then Err (PolInvalid PolTooManyApps)
  else if existsb (λ app_id, negb (is_valid_app_id app_id)) (allowed_apps p)
  then Err (PolInvalid PolInvalidAppId)
  else if windows2_any (λ x y, negb (str_ltb x y)) (allowed_apps p)
  then Err (PolInvalid PolAppsNotSorted)
  else if bool_decide (app_launch_policy p = AllowAll) && negb (bool_decide (allowed_apps p = []))
  then Err (PolInvalid PolAppsWithAllowAll)
  else if (length Permission_ALL <? length (denied_permissions p))%nat
          || windows2_any (λ x y, negb (Permission_ltb x y)) (denied_permissions p)
  then Err (PolInvalid PolPermissionsNotSorted)
  else Ok tt.

Definition DevicePolicyEngine_allows_store_install (e : DevicePolicyEngine) (app_id : string) : bool :=
  store_install_allowed (engine_policy e) && DevicePolicy_allows_app (engine_policy e) app_id.
Definition DevicePolicyEngine_allows_store_auto_update (e : DevicePolicyEngine) (app_id : string)
    : bool :=
  store_install_allowed (engine_policy e) && store_auto_update_allowed (engine_policy e)
  && DevicePolicy_allows_app (engine_policy e) app_id.
Definition DevicePolicyEngine_allows_app (e : DevicePolicyEngine) (app_id : string) : bool :=
  DevicePolicy_allows_app (engine_policy e) app_id.
Definition DevicePolicyEngine_denies_permission (e : DevicePolicyEngine) (p : Permission) : bool :=
  DevicePolicy_denies_permission (engine_policy e) p.

Definition DevicePolicyEngine_unmanaged : DevicePolicyEngine :=
  {| engine_policy := DevicePolicy_default; engine_mode_paths := DeviceModePaths_default;
     engine_enforce_root := true |}.

(** [(enforce && uid != 0) || mode & 0o022 != 0]. *)
Definition insecure_owner (enforce_root_ownership : bool) (md : Metadata) : bool :=
  (enforce_root_ownership && negb (md_uid md =? 0)%Z) || negb (Z.land (md_mode md) 18 =? 0)%Z.

Definition validate_secure_file (md : Metadata) (enforce_root_ownership : bool) (name : SecureName)
    : result PolicyError unit :=
  if negb (bool_decide (md_kind md = RegularFile)) then Err (PolInvalid (PolNotRegular name))
  else if insecure_owner enforce_root_ownership md then Err (PolInvalid (PolNotRootOwned name))
  else Ok tt.

(** ** Operations on the host *)

Definition policy_atomic_error (e : AtomicError) : PolicyError :=
  match e with
  | AtomicNoParent => PolInvalid PolNoParent
  | AtomicNoFileName => PolInvalid PolNotUtf8
  | AtomicIo e => PolIo e
  | AtomicJson => PolJson
  end.

Definition policy_guard (b : bool) (why : PolicyInvalid) : IO PolicyError unit :=
  io_lift (if b then Err (PolInvalid why) else Ok tt).

Section host.
  Context `{Host} `{Codec DevicePolicy}.

Definition DevicePolicy_load_secure (path : string) (enforce_root_ownership : bool)
    : IO PolicyError DevicePolicy :=
  let! metadata := io_map_err PolIo (fs_symlink_metadata path) in
  let! _ := io_lift (validate_secure_file metadata enforce_root_ownership DevicePolicyFile) in
  let! _ := policy_guard ((md_len metadata =? 0)%Z || (MAX_POLICY_BYTES <? md_len metadata)%Z) PolSize in
  let! file := io_map_err PolIo (fs_open_nofollow path) in
  let! opened := io_map_err PolIo (fs_file_metadata file) in
  let! _ := io_lift (validate_secure_file opened enforce_root_ownership DevicePolicyFile) in
  let! _ := policy_guard (negb (md_ino opened =? md_ino metadata)%Z)
                         (PolChangedWhileOpened DevicePolicyFile) in
  let! _ := policy_guard ((md_len opened =? 0)%Z || (MAX_POLICY_BYTES <? md_len opened)%Z) PolSize in
  let! _ := policy_guard (negb (md_len opened =? md_len metadata)%Z)
                         (PolChangedWhileOpened DevicePolicyFile) in
  let! encoded := io_map_err PolIo (fs_read_to_end file) in
  let! _ := policy_guard (negb (Z.of_nat (length encoded) =? md_len opened)%Z) PolChangedWhileRead in
  let! policy := io_lift (ok_or (from_json encoded) PolJson) in
  let! _ := io_lift (DevicePolicy_validate policy) in
  io_ret policy.

Definition validate_secure_directory (path : string) (enforce_root_ownership : bool)
    : IO PolicyError unit :=
  let! metadata := io_map_err PolIo (fs_symlink_metadata path) in
  let! _ := policy_guard (negb (bool_decide (md_kind metadata = Directory))
                          || bool_decide (md_kind metadata = Symlink)) PolParentNotDirectory in
  policy_guard (insecure_owner enforce_root_ownership metadata) PolParentNotRootOwned.

Definition mode_enabled (path : string) (enforce_root_ownership : bool) : IO PolicyError bool :=
  io_try (fs_symlink_metadata path) (λ outcome,
  match outcome with
  | Err NotFound => io_ret false
  | Err error => io_err (PolIo error)
  | Panicked => io_lift Panicked
  | Ok metadata =>
      let! _ := io_lift (validate_secure_file metadata enforce_root_ownership DeviceModeMarker) in
      let! _ := policy_guard (negb (md_len metadata =? Z.of_nat (length MODE_CONTENTS))%Z)
                             PolMarkerContents in
      let! file := io_map_err PolIo (fs_open_nofollow path) in
      let! opened := io_map_err PolIo (fs_file_metadata file) in
      let! _ := io_lift (validate_secure_file opened enforce_root_ownership DeviceModeMarker) in
      let! _ := policy_guard (negb (md_ino opened =? md_ino metadata)%Z
                              || negb (md_len opened =? md_len metadata)%Z)
                             (PolChangedWhileOpened DeviceModeMarker) in
      let! contents := io_map_err PolIo (fs_read_to_end file) in
      io_ret (bool_decide (contents = MODE_CONTENTS))
  end).

Definition set_mode_marker (path : string) (enabled enforce_root_ownership : bool)
    : IO PolicyError unit :=
  let! parent := io_lift (ok_or (path_parent path) (PolInvalid PolNoParent)) in
  let! _ := validate_secure_directory parent enforce_root_ownership in
  if negb enabled then
    io_try (fs_remove_file path) (λ outcome,
      match outcome with
      | Ok _ => io_map_err PolIo (fs_sync_directory parent)
      | Err NotFound => io_ret tt
      | Err error => io_err (PolIo error)
      | Panicked => io_lift Panicked
      end)
  else
    io_map_err policy_atomic_error (atomic_replace PolicyTemp path (Some MODE_CONTENTS)).

Definition DevicePolicyEngine_load (policy_path : string) (mode_paths : DeviceModePaths)
    (enforce_root_ownership : bool) : IO PolicyError DevicePolicyEngine :=
  let! policy := DevicePolicy_load_secure policy_path enforce_root_ownership in
  let! _ := (if negb (developer_mode_allowed policy)
             then set_mode_marker (mp_developer mode_paths) false enforce_root_ownership
             else io_ret tt) in
  let! _ := (if negb (recovery_mode_allowed policy)
             then set_mode_marker (mp_recovery mode_paths) false enforce_root_ownership
             else io_ret tt) in
  io_ret {| engine_policy := policy; engine_mode_paths := mode_paths;
            engine_enforce_root := enforce_root_ownership |}.

(** [u8::try_from(n).expect(..)]. *)
Definition u8_try_from (n : nat) : result PolicyError Z :=
  if (Z.of_nat n <=? u8_max)%Z then Ok (Z.of_nat n) else Panicked.

Definition DevicePolicyEngine_settings (e : DevicePolicyEngine) : IO PolicyError DeviceSettings :=
  let policy := engine_policy e in
  let! developer_mode :=
    (if developer_mode_allowed policy
     then mode_enabled (mp_developer (engine_mode_paths e)) (engine_enforce_root e)
     else io_ret false) in
  let! recovery_mode :=
    (if recovery_mode_allowed policy
     then mode_enabled (mp_recovery (engine_mode_paths e)) (engine_enforce_root e)
     else io_ret false) in
  let! denied := io_lift (u8_try_from (length (denied_permissions policy))) in
  io_ret {| ds_authority := dp_authority policy; ds_developer_mode := developer_mode;
            ds_developer_mode_allowed := developer_mode_allowed policy;
            ds_recovery_mode := recovery_mode;
            ds_recovery_mode_allowed := recovery_mode_allowed policy;
            ds_store_install_allowed := store_install_allowed policy;
            ds_app_launch_restricted := bool_decide (app_launch_policy policy = AllowListed);
            ds_denied_permission_count := denied |}.

Definition mode_allowed (e : DevicePolicyEngine) (mode : DeviceMode) : bool :=
  match mode with
  | Developer => developer_mode_allowed (engine_policy e)
  | Recovery => recovery_mode_allowed (engine_policy e)
  end.
Definition mode_path (e : DevicePolicyEngine) (mode : DeviceMode) : string :=
  match mode with
  | Developer => mp_developer (engine_mode_paths e)
  | Recovery => mp_recovery (engine_mode_paths e)
  end.

Definition DevicePolicyEngine_set_mode (e : DevicePolicyEngine) (mode : DeviceMode) (enabled : bool)
    : IO PolicyError unit :=
  if enabled && negb (mode_allowed e mode) then io_err (PolLocked mode)
  else set_mode_marker (mode_path e mode) enabled (engine_enforce_root e).

Definition developer_install_allowed (policy_path marker_path : string)
    (enforce_root_ownership : bool) : IO PolicyError bool :=
  let! policy := DevicePolicy_load_secure policy_path enforce_root_ownership in
  if negb (developer_mode_allowed policy) then io_ret false
  else mode_enabled marker_path enforce_root_ownership.

End host.

(** ** The invariant *)

Definition permission_lt (p q : Permission) : Prop := (Permission_index p < Permission_index q)%nat.

Record policy_wf (p : DevicePolicy) : Prop := {
  pw_schema : dp_schema_version p = DEVICE_POLICY_SCHEMA_VERSION;
  pw_count : (length (allowed_apps p) ≤ MAX_ALLOWED_APPS)%nat;
  pw_ids : Forall (λ a, is_valid_app_id a = true) (allowed_apps p);
  pw_apps : StronglySorted str_lt (allowed_apps p);
  pw_allow_all : app_launch_policy p = AllowAll → allowed_apps p = [];
  pw_permissions : StronglySorted permission_lt (denied_permissions p);
}.

(** A file that only root can write. *)
Definition secure_inode (enforce : bool) (n : Inode) : Prop :=
  i_kind n = RegularFile ∧ (enforce = true → i_uid n = 0%Z) ∧ Z.land (i_mode n) 18 = 0%Z.

(** Other processes may rename, replace and remove names at will, but they do
    not write or free a file that only root can write. *)
Definition protects_secure (H : Host) (enforce : bool) : Prop :=
  ∀ t d i n, d_inodes d !! i = Some n → secure_inode enforce n →
    d_inodes (host_env t d) !! i = Some n.

Global Instance permission_lt_trans : Transitive permission_lt.
Proof. intros p q r. unfold permission_lt. lia. Qed.
Global Instance permission_lt_irrefl : Irreflexive permission_lt.
Proof. intros p. unfold complement, permission_lt. lia. Qed.

Lemma Permission_ltb_lt p q : Permission_ltb p q = true ↔ permission_lt p q.
Proof. apply Nat.ltb_lt. Qed.

Lemma Permission_cmp_Eq p q : Permission_cmp p q = Eq ↔ p = q.
Proof.
  unfold Permission_cmp. rewrite Nat.compare_eq_iff. split; [|by intros ->].
  by destruct p, q.
Qed.

Lemma windows2_any_negb {A} (r : A → A → bool) l :
  windows2_any (λ x y, negb (r x y)) l = negb (windows2_all r l).
Proof.
  unfold windows2_any. f_equal. induction l as [|x [|y l] IH]; simpl in *; [done..|].
  by rewrite IH, negb_involutive.
Qed.

(** Strictly sorted permissions are distinct, so there are at most as many as
    the vocabulary has. *)
Lemma sorted_permissions_length l :
  StronglySorted permission_lt l → (length l ≤ length Permission_ALL)%nat.
Proof.
  intros Hs. apply submseteq_length, NoDup_submseteq.
  - pose proof (StronglySorted_NoDup_proj permission_lt id l Hs) as Hnd. by rewrite map_id in Hnd.
  - intros p _. by destruct p; vm_compute; repeat constructor.
Qed.

Lemma existsb_negb_Forall {A} (f : A → bool) l :
  existsb (λ x, negb (f x)) l = false ↔ Forall (λ x, f x = true) l.
Proof.
  induction l as [|x l IH]; simpl; [done|].
  by rewrite orb_false_iff, Forall_cons, IH, negb_false_iff.
Qed.

Lemma policy_validate_wf p : DevicePolicy_validate p = Ok tt ↔ policy_wf p.
Proof.
  unfold DevicePolicy_validate. rewrite !windows2_any_negb. split.
  - intros Hv. repeat (case_match; [done|]). unbool_hyps.
    constructor; auto.
    + by apply existsb_negb_Forall.
    + by apply (windows2_all_StronglySorted _ _ str_ltb_lt).
    + intros Ha. match goal with H : _ && _ = false |- _ => rename H into Hc end.
      rewrite bool_decide_eq_true_2 in Hc by done. simpl in Hc. by unbool_hyps.
    + by apply (windows2_all_StronglySorted _ _ Permission_ltb_lt).
  - intros [Hs Hc Hi Ha Hall Hp].
    rewrite (proj2 (Z.eqb_eq _ _)), (proj2 (Nat.ltb_ge _ _)), (proj2 (existsb_negb_Forall _ _)) by done.
    rewrite (proj2 (windows2_all_StronglySorted _ _ str_ltb_lt _)) by done.
    rewrite (proj2 (windows2_all_StronglySorted _ _ Permission_ltb_lt _)) by done.
    rewrite (proj2 (Nat.ltb_ge _ _)) by (by apply sorted_permissions_length). simpl.
    case_bool_decide; [|done]. by rewrite bool_decide_eq_true_2 by auto.
Qed.

Lemma binary_search_permission l p :
  StronglySorted permission_lt l →
  is_ok (binary_search_by (λ candidate, Permission_cmp candidate p) l) = true ↔ p ∈ l.
Proof.
  intros Hs. rewrite binary_search_by_ok.
  - setoid_rewrite Permission_cmp_Eq. naive_solver.
  - intros i j x y Hij Hx Hy. unfold Permission_cmp.
    rewrite Nat.compare_lt_iff, Nat.compare_gt_iff.
    pose proof (StronglySorted_lookup_lt _ _ _ _ _ _ Hs Hij Hx Hy) as Hxy.
    unfold permission_lt in Hxy. lia.
Qed.

(** *** Inverting the secure reads *)

Ltac io_inv :=
  repeat match goal with
  | H : io_bind _ _ _ = (Ok _, _) |- _ => apply io_bind_Ok in H as (?&?&?&?)
  | H : io_map_err _ _ _ = (Ok _, _) |- _ => apply io_map_err_Ok in H
  | H : io_lift _ _ = (Ok _, _) |- _ => apply io_lift_Ok in H as [? ->]
  | H : policy_guard _ _ _ = (Ok _, _) |- _ => apply io_lift_Ok in H as [? ->]
  | H : io_ret _ _ = (Ok _, _) |- _ => injection H as ? ?; subst
  | H : ok_or _ _ = Ok _ |- _ => apply ok_or_Ok in H
  | H : (if ?b then Err _ else Ok tt) = Ok _ |- _ => destruct b eqn:?; [discriminate H|clear H]
  end.

Lemma validate_secure_file_ok ino n enforce name u :
  validate_secure_file (metadata_of ino n) enforce name = Ok u → secure_inode enforce n.
Proof.
  unfold validate_secure_file, insecure_owner, secure_inode. simpl. intros Hv.
  repeat (case_match; [done|]). unbool_hyps. split_and!; [done| |done].
  intros ->. simpl in *. by unbool_hyps.
Qed.

Lemma node_at_Some d p i n : node_at d p = Some (i, n) → d_names d !! p = Some i ∧ d_inodes d !! i = Some n.
Proof.
  unfold node_at. destruct (d_names d !! p); [|done]. destruct (d_inodes d !! _) eqn:E; [|done].
  intros. by simplify_eq.
Qed.

Section secure.
  Context `{Host} (enforce : bool) (Hprot : protects_secure _ enforce).

Lemma symlink_metadata_inv p w md w1 :
  fs_symlink_metadata p w = (Ok md, w1) →
  ∃ i n, md = metadata_of i n ∧ node_at (w_disk w1) p = Some (i, n) ∧
    w_trace w1 = w_disk w1 :: w_trace w.
Proof.
  intros (Hf&Htr&_)%io_op_Ok. case_match eqn:Hn; [|done]. case_match; simplify_eq.
  eexists _, _. split_and!; [done|congruence|done].
Qed.

Lemma open_nofollow_inv p w i0 n0 i w1 :
  d_inodes (w_disk w) !! i0 = Some n0 → secure_inode enforce n0 →
  fs_open_nofollow p w = (Ok i, w1) →
  d_names (w_disk w1) !! p = Some i ∧ d_inodes (w_disk w1) !! i0 = Some n0 ∧
  w_trace w1 = w_disk w1 :: w_trace w.
Proof.
  intros Hi Hs (Hf&Htr&_)%io_op_Ok. case_match eqn:Hn; [|done]. case_match; simplify_eq.
  case_match; simplify_eq. apply node_at_Some in Hn as [? _].
  match goal with He : _ = w_disk w1 |- _ => rewrite <- He end. split_and!; [done|by apply Hprot|congruence].
Qed.

Lemma file_metadata_inv i w i0 n0 md w1 :
  d_inodes (w_disk w) !! i0 = Some n0 → secure_inode enforce n0 →
  fs_file_metadata i w = (Ok md, w1) →
  d_inodes (w_disk w1) !! i0 = Some n0 ∧ (∃ n, md = metadata_of i n) ∧
  (i = i0 → md = metadata_of i0 n0) ∧ w_trace w1 = w_disk w1 :: w_trace w.
Proof.
  intros Hi Hs (Hf&Htr&_)%io_op_Ok. apply (Hprot (w_tick w)) in Hi; [|done].
  case_match eqn:Hn; simplify_eq. match goal with He : _ = w_disk w1 |- _ => rewrite <- He end.
  split_and!; [done|by eexists|by intros ->; simplify_eq|congruence].
Qed.

Lemma read_to_end_inv w i0 n0 bs w1 :
  d_inodes (w_disk w) !! i0 = Some n0 → secure_inode enforce n0 →
  fs_read_to_end i0 w = (Ok bs, w1) → bs = i_data n0 ∧ w_trace w1 = w_disk w1 :: w_trace w.
Proof.
  intros Hi Hs (Hf&Htr&_)%io_op_Ok. apply (Hprot (w_tick w)) in Hi; [|done].
  rewrite Hi in Hf. by simplify_eq.
Qed.

(** The check-open-check-read sequence: the bytes are those of a secure file
    that the path named when it was opened. *)
Lemma secure_read path name w md w1 u i w2 op w3 bs w4 :
  fs_symlink_metadata path w = (Ok md, w1) → validate_secure_file md enforce name = Ok u →
  fs_open_nofollow path w1 = (Ok i, w2) → fs_file_metadata i w2 = (Ok op, w3) →
  md_ino op = md_ino md → fs_read_to_end i w3 = (Ok bs, w4) →
  ∃ n, w_trace w4 = [w_disk w4; w_disk w3; w_disk w2; w_disk w1] ++ w_trace w ∧ file_at (w_disk w2) path = Some n ∧ secure_inode enforce n ∧
    bs = i_data n ∧ md_len md = Z.of_nat (length (i_data n)).
Proof.
  intros (i0&n0&->&Hnode&Htr1)%symlink_metadata_inv Hsec%validate_secure_file_ok Hopen Hmeta Hino Hread.
  apply node_at_Some in Hnode as [_ Hi0].
  apply (open_nofollow_inv _ _ _ _ _ _ Hi0 Hsec) in Hopen as (Hname&Hi2&Htr2).
  apply (file_metadata_inv _ _ _ _ _ _ Hi2 Hsec) in Hmeta as (Hi3&(n&->)&_&Htr3).
  simpl in Hino. subst i. apply (read_to_end_inv _ _ _ _ _ Hi3 Hsec) in Hread as (->&Htr4).
  exists n0. split_and!; [|by rewrite file_at_ino, Hname|done..].
  by rewrite Htr4, Htr3, Htr2, Htr1.
Qed.

End secure.

(** *** The markers *)

(** A fault is some other error than a missing file. *)
Definition honest_faults (H : Host) : Prop := ∀ t n, host_fault t ≠ Some (NotFound, n).

Lemma fs_remove_file_gone `{Host} path w out w' :
  quiet _ → honest_faults _ → fs_remove_file path w = (out, w') →
  out = Ok tt ∨ out = Err NotFound → file_at (w_disk w') path = None.
Proof.
  intros Hq Hh Hrm Hout. unfold fs_remove_file, io_op in Hrm. rewrite Hq in Hrm.
  destruct (host_fault (w_tick w)) as [[e n]|] eqn:Hf.
  { destruct Hout; simplify_eq. by apply Hh in Hf. }
  unfold file_at. destruct (node_at (w_disk w) path) as [[i n]|] eqn:Hn; simpl in *.
  - case_bool_decide; destruct Hout; simplify_eq/=. unfold node_at. simpl.
    by rewrite lookup_delete_eq.
  - destruct Hout; simplify_eq/=. by rewrite Hn.
Qed.

Lemma fs_sync_directory_disk `{Host} p w out w' :
  quiet _ → fs_sync_directory p w = (out, w') → w_disk w' = w_disk w.
Proof.
  intros Hq. unfold fs_sync_directory, io_bind, io_op. rewrite Hq.
  destruct (host_fault _) as [[??]|]; [by intros; simplify_eq|]. simpl. rewrite Hq.
  destruct (host_fault _) as [[??]|]; by intros; simplify_eq.
Qed.

(** A marker that was switched off is gone. *)
Lemma set_mode_marker_off `{Host} path enforce w w' :
  quiet _ → honest_faults _ → set_mode_marker path false enforce w = (Ok tt, w') →
  file_at (w_disk w') path = None.
Proof.
  intros Hq Hh Hs. unfold set_mode_marker in Hs. simpl in Hs. io_inv.
  match goal with Hs : io_try _ _ ?w0 = _ |- _ => rename Hs into Htry; rename w0 into w1 end.
  unfold io_try in Htry. destruct (fs_remove_file path w1) as [out w2] eqn:Hrm.
  assert (out = Ok tt ∨ out = Err NotFound) as Hout.
  { destruct out as [[]|[]|]; unfold io_err, io_lift in Htry; simplify_eq; auto. }
  pose proof (fs_remove_file_gone _ _ _ _ Hq Hh Hrm Hout) as Hgone.
  destruct Hout as [->| ->]; simpl in Htry; [io_inv; by erewrite fs_sync_directory_disk|].
  by unfold io_ret in Htry; simplify_eq.
Qed.

(** Nothing but the marker changes, and the marker only by its removal. *)
Lemma set_mode_marker_off_only `{Host} path enforce w out w' q :
  quiet _ → set_mode_marker path false enforce w = (out, w') →
  q ≠ path → file_at (w_disk w') q = file_at (w_disk w) q.
Proof.
  intros Hq Hs Hne. unfold set_mode_marker, io_bind, io_lift in Hs.
  destruct (path_parent path) as [parent|]; simpl in Hs; [|by simplify_eq].
  assert (w_disk (validate_secure_directory parent enforce w).2 = w_disk w) as Hdir.
  { unfold validate_secure_directory, io_bind, io_map_err, fs_symlink_metadata, io_op, policy_guard, io_lift.
    rewrite Hq. destruct (host_fault _) as [[??]|]; [done|]. destruct (node_at _ _) as [[??]|]; [|done].
    simpl. by repeat case_match; simplify_eq/=. }
  destruct (validate_secure_directory parent enforce w) as [[[]|e|] w1]; simplify_eq/=; [|by rewrite Hdir..].
  unfold io_try in Hs. rewrite <- Hdir. destruct (fs_remove_file path w1) as [o w2] eqn:Hrm.
  assert (file_at (w_disk w2) q = file_at (w_disk w1) q) as <-.
  { unfold fs_remove_file, io_op in Hrm. rewrite Hq in Hrm.
    destruct (host_fault _) as [[??]|]; [by simplify_eq|].
    destruct (node_at _ _) as [[??]|]; [|by simplify_eq]. case_bool_decide; simplify_eq/=; [done|].
    by rewrite file_at_delete_name. }
  destruct o as [[]|[]|]; unfold io_err, io_lift, io_ret in Hs; simplify_eq; try done.
  unfold io_map_err in Hs. destruct (fs_sync_directory parent w2) as [o3 w3] eqn:Hsd; simplify_eq.
  by erewrite fs_sync_directory_disk.
Qed.

(** ** Properties *)

(** The policy validator accepts exactly the well-formed policies: current
    schema, at most 64 valid application ids and a permission list, both
    strictly sorted, and no application list with allow-all. *)
Theorem policy_validate_iff p : DevicePolicy_validate p = Ok tt ↔ policy_wf p.
Proof. apply policy_validate_wf. Qed.

(** On a validated policy the binary searches decide membership, so an
    allow-list admits exactly the listed applications and a denied permission
    is denied. *)
Theorem policy_decisions_are_membership p :
  DevicePolicy_validate p = Ok tt →
  (∀ a, DevicePolicy_allows_app p a = true ↔ app_launch_policy p = AllowAll ∨ a ∈ allowed_apps p) ∧
  (∀ q, DevicePolicy_denies_permission p q = true ↔ q ∈ denied_permissions p).
Proof.
  intros [_ _ _ Ha _ Hp]%policy_validate_wf. split.
  - intros a. unfold DevicePolicy_allows_app.
    by rewrite orb_true_iff, bool_decide_eq_true, binary_search_str.
  - intros q. by apply binary_search_permission.
Qed.

Definition school_policy : DevicePolicy :=
  {| dp_schema_version := 1; dp_authority := Organization;
     developer_mode_allowed := false; recovery_mode_allowed := true;
     store_install_allowed := true; store_auto_update_allowed := false;
     store_metrics_allowed := false; app_launch_policy := AllowListed;
     allowed_apps := ["dev.cardputerzero.hello"; "dev.cardputerzero.notes"];
     denied_permissions := [AudioCapture; CameraCapture] |}.

Lemma policy_decisions_witness :
  DevicePolicy_allows_app school_policy "dev.cardputerzero.hello" = true ∧
  DevicePolicy_denies_permission school_policy CameraCapture = true.
Proof.
  destruct (policy_decisions_are_membership school_policy) as [Ha Hd]; [by vm_compute|]. split.
  - apply Ha. right. by apply list_elem_of_In; left.
  - apply Hd. by apply list_elem_of_In; right; left.
Defined.

(** A policy that loads was decoded from the whole contents of one
    regular file that only root can write and that the path named when it was
    opened, and it is valid; whatever other processes do to the path between
    the steps of the loader, as long as they cannot write such a file. *)
Theorem policy_load_reads_secure_file `{Host} `{Codec DevicePolicy} path enforce w p w' :
  protects_secure _ enforce →
  DevicePolicy_load_secure path enforce w = (Ok p, w') →
  DevicePolicy_validate p = Ok tt ∧
  ∃ tr d n, w_trace w' = tr ++ w_trace w ∧ d ∈ tr ∧ file_at d path = Some n ∧ secure_inode enforce n ∧
    from_json (i_data n) = Some p ∧ (0 < Z.of_nat (length (i_data n)) ≤ MAX_POLICY_BYTES)%Z.
Proof.
  intros Hprot Hl. unfold DevicePolicy_load_secure in Hl. io_inv. unbool_hyps.
  match goal with H : DevicePolicy_validate _ = Ok ?x |- _ => destruct x; split; [exact H|] end.
  edestruct (secure_read enforce Hprot) as (n&Htr&Hat&Hsec&Hbs&Hlen); [eassumption..|].
  eexists _, _, n. split_and!; [exact Htr| |exact Hat|exact Hsec|congruence|lia..].
  rewrite !elem_of_cons. auto.
Qed.

(** The device of the school: a policy file and a secure registry directory. *)
Definition policy_codec : Codec DevicePolicy :=
  {| to_json := λ _, None; from_json := λ bs, if decide (bs = bytes "{}") then Some school_policy else None |}.
Definition school_world : World :=
  world_of [("/etc/policy.json", mkInode RegularFile (bytes "{}") 0 420 true);
            ("/registry", mkInode Directory [] 0 493 true);
            ("/registry/developer-mode", mkInode RegularFile MODE_CONTENTS 0 384 true)].

Lemma policy_load_reads_secure_file_witness :
  DevicePolicy_validate school_policy = Ok tt ∧
  (@DevicePolicy_load_secure calm_host policy_codec "/etc/policy.json" true school_world).1 = Ok school_policy.
Proof.
  split; [|by vm_compute].
  apply (@policy_load_reads_secure_file calm_host policy_codec "/etc/policy.json" true school_world
    school_policy (@DevicePolicy_load_secure calm_host policy_codec "/etc/policy.json" true school_world).2);
    [|by vm_compute].
  by intros ?????.
Defined.

(** Another process that swaps the path for its own file after the first check
    is caught when the file is opened. *)
Definition swapping_host : Host :=
  {| host_pid := 1; host_uid := 0; host_fault := λ _, None;
     host_env := λ t d, if decide (t = 1) then
       mkDisk (<["/etc/policy.json" := 99%Z]> (d_names d))
              (<[99%Z := mkInode RegularFile (bytes "{}") 0 420 true]> (d_inodes d)) 100
       else d |}.

Example policy_load_detects_swap :
  (@DevicePolicy_load_secure swapping_host policy_codec "/etc/policy.json" true school_world).1
  = Err (PolInvalid (PolChangedWhileOpened DevicePolicyFile)).
Proof. by vm_compute. Qed.

Definition settings_mode (s : DeviceSettings) (mode : DeviceMode) : bool :=
  match mode with Developer => ds_developer_mode s | Recovery => ds_recovery_mode s end.

(** A mode that the policy forbids is off: after the engine loads its
    marker is gone, switching it on is refused without touching the device, and
    the settings never report it as on. *)
Theorem locked_mode_stays_off `{Host} `{Codec DevicePolicy} policy_path paths enforce w e w' mode :
  quiet _ → honest_faults _ →
  DevicePolicyEngine_load policy_path paths enforce w = (Ok e, w') →
  mode_allowed e mode = false →
  file_at (w_disk w') (mode_path e mode) = None ∧
  (∀ w2, DevicePolicyEngine_set_mode e mode true w2 = (Err (PolLocked mode), w2)) ∧
  (∀ w2 s w3, DevicePolicyEngine_settings e w2 = (Ok s, w3) → settings_mode s mode = false).
Proof.
  intros Hq Hh Hload Hlocked. split_and!.
  - unfold DevicePolicyEngine_load in Hload. io_inv. simpl in *.
    match goal with H : (if negb (developer_mode_allowed ?p) then _ else _) _ = (Ok ?u, _) |- _ =>
      destruct u; rename H into Hdev end.
    match goal with H : (if negb (recovery_mode_allowed ?p) then _ else _) _ = (Ok ?u, _) |- _ =>
      destruct u; rename H into Hrec end.
    destruct mode; simpl in *; [rewrite Hlocked in Hdev|rewrite Hlocked in Hrec]; simpl in *.
    + apply set_mode_marker_off in Hdev; [|done..].
      destruct (decide (mp_developer paths = mp_recovery paths)) as [Heq|Hne]; destruct (negb _).
      * rewrite Heq. by apply set_mode_marker_off in Hrec.
      * by injection Hrec as <-.
      * by rewrite (set_mode_marker_off_only _ _ _ _ _ _ Hq Hrec Hne).
      * by injection Hrec as <-.
    + by apply set_mode_marker_off in Hrec.
  - intros w2. unfold DevicePolicyEngine_set_mode. by rewrite Hlocked.
  - intros w2 s w3 Hs. unfold DevicePolicyEngine_settings in Hs. io_inv. simpl.
    destruct mode; simpl in *;
      match goal with H : (if ?b then _ else _) _ = _ |- _ => rewrite Hlocked in H end; by io_inv.
Qed.

Definition school_paths : DeviceModePaths :=
  {| mp_developer := "/registry/developer-mode"; mp_recovery := "/registry/recovery-mode" |}.
Definition school_engine : DevicePolicyEngine :=
  {| engine_policy := school_policy; engine_mode_paths := school_paths; engine_enforce_root := true |}.

Lemma locked_mode_stays_off_witness :
  let run := @DevicePolicyEngine_load calm_host policy_codec "/etc/policy.json" school_paths true school_world in
  file_at (w_disk school_world) "/registry/developer-mode" ≠ None ∧
  file_at (w_disk run.2) "/registry/developer-mode" = None.
Proof.
  split; [by vm_compute|].
  apply (@locked_mode_stays_off calm_host policy_codec "/etc/policy.json" school_paths true school_world
    school_engine (@DevicePolicyEngine_load calm_host policy_codec "/etc/policy.json" school_paths true
      school_world).2 Developer); [done|done|by vm_compute|done].
Defined.

Lemma validate_secure_file_np md enforce name : validate_secure_file md enforce name ≠ Panicked.
Proof. unfold validate_secure_file. by repeat case_match. Qed.
Lemma policy_guard_np b why : never_panics (policy_guard b why).
Proof. apply never_panics_lift. by destruct b. Qed.
#[local] Hint Resolve validate_secure_file_np policy_guard_np : rust.

Lemma mode_enabled_np `{Host} path enforce : never_panics (mode_enabled path enforce).
Proof.
  unfold mode_enabled. apply never_panics_try; [auto with rust|]. intros [md|[]|] Hr; auto with rust.
  repeat (apply never_panics_bind; [auto with rust|intros ?]). auto with rust.
Qed.

(** Reading the settings never panics: a validated policy cannot list more
    permissions than the counter of the reply holds. *)
Theorem settings_never_panics `{Host} e :
  DevicePolicy_validate (engine_policy e) = Ok tt → never_panics (DevicePolicyEngine_settings e).
Proof.
  intros [_ _ _ _ _ Hp]%policy_validate_wf. apply sorted_permissions_length in Hp.
  unfold DevicePolicyEngine_settings.
  apply never_panics_bind; [case_match; auto using mode_enabled_np with rust|intros ?].
  apply never_panics_bind; [case_match; auto using mode_enabled_np with rust|intros ?].
  apply never_panics_bind; [|auto with rust]. apply never_panics_lift. unfold u8_try_from.
  rewrite (proj2 (Z.leb_le _ _)); [done|]. unfold u8_max. simpl in Hp. lia.
Qed.

Lemma settings_never_panics_witness : never_panics (@DevicePolicyEngine_settings calm_host school_engine).
Proof. apply (@settings_never_panics calm_host school_engine). by vm_compute. Defined.

(** Reading a marker on a quiet host without faults. *)
Lemma mode_enabled_present `{Host} path enforce n w :
  quiet _ → no_faults _ → file_at (w_disk w) path = Some n → secure_inode enforce n →
  i_data n = MODE_CONTENTS → (mode_enabled path enforce w).1 = Ok true.
Proof.
  intros Hq Hnf Hat (Hk&Hu&Hm) Hdata. unfold file_at in Hat.
  destruct (node_at (w_disk w) path) as [[i n']|] eqn:Hn; simplify_eq/=.
  assert (validate_secure_file (metadata_of i n) enforce DeviceModeMarker = Ok tt) as Hv.
  { unfold validate_secure_file, insecure_owner. simpl. rewrite Hk, Hm. simpl.
    destruct enforce; [by rewrite Hu|done]. }
  unfold mode_enabled, io_try, fs_symlink_metadata. rewrite io_op_runs, Hn by done. cbn [fst snd].
  unfold io_bind, io_map_err, policy_guard, io_lift. rewrite Hv. cbn [md_len metadata_of]. rewrite Hdata.
  rewrite Z.eqb_refl. cbn [negb]. unfold fs_open_nofollow. rewrite io_op_runs by done.
  cbn [w_disk after]. rewrite Hn, bool_decide_eq_false_2 by congruence. cbn [fst snd map_err].
  apply node_at_Some in Hn as [_ Hi].
  unfold fs_file_metadata. rewrite io_op_runs by done. cbn [w_disk after]. rewrite Hi. cbn [fst snd map_err].
  rewrite Hv. cbn [md_len md_ino metadata_of]. rewrite Hdata, !Z.eqb_refl. cbn [negb orb].
  unfold fs_read_to_end. rewrite io_op_runs by done. cbn [w_disk after]. rewrite Hi. cbn [fst snd map_err].
  rewrite Hdata. done.
Qed.

Lemma mode_enabled_absent `{Host} path enforce w :
  quiet _ → no_faults _ → file_at (w_disk w) path = None → (mode_enabled path enforce w).1 = Ok false.
Proof.
  intros Hq Hnf Hat. unfold file_at in Hat.
  destruct (node_at (w_disk w) path) as [[i n']|] eqn:Hn; [done|].
  unfold mode_enabled, io_try, fs_symlink_metadata. by rewrite io_op_runs, Hn by done.
Qed.

(** When the service, running as root, switches a mode on or off and no
    operation fails, the marker reads back as that mode. *)
Theorem set_mode_takes_effect `{Host} e mode enabled parent f w w' :
  quiet _ → no_faults _ → disk_wf (w_disk w) → host_uid = 0%Z →
  path_is_absolute (mode_path e mode) = true →
  path_parent (mode_path e mode) = Some parent → path_file_name (mode_path e mode) = Some f →
  DevicePolicyEngine_set_mode e mode enabled w = (Ok tt, w') →
  (mode_enabled (mode_path e mode) (engine_enforce_root e) w').1 = Ok enabled.
Proof.
  intros Hq Hnf Hwf Hroot Habs Hp Hf Hs. unfold DevicePolicyEngine_set_mode in Hs.
  destruct enabled; simpl in Hs.
  - destruct (negb (mode_allowed e mode)); [done|]. unfold set_mode_marker in Hs. rewrite Hp in Hs. simpl in Hs.
    io_inv. match goal with H : validate_secure_directory _ _ _ = (Ok _, ?w0) |- _ => rename w0 into w1 end.
    assert (w_disk w1 = w_disk w) as Hd.
    { match goal with H : validate_secure_directory _ _ _ = _ |- _ => unfold validate_secure_directory in H end.
      io_inv. match goal with H : fs_symlink_metadata _ _ = _ |- _ => apply io_op_Ok in H as (Hm&_) end.
      rewrite Hq in Hm. by repeat case_match; simplify_eq. }
    destruct (atomic_replace_safe PolicyTemp (mode_path e mode) parent f MODE_CONTENTS w1)
      as (_&_&_&Hout); [done|by rewrite Hd|done..|].
    match goal with H : atomic_replace _ _ _ _ = _ |- _ => rewrite H in Hout end.
    destruct Hout as (Hat&_). eapply mode_enabled_present; [done|done|exact Hat| |done].
    unfold secure_inode, new_inode. simpl. by rewrite Hroot.
  - apply set_mode_marker_off in Hs; [by apply mode_enabled_absent|done|]. intros t n. by rewrite Hnf.
Qed.

Lemma set_mode_takes_effect_witness :
  let w' := (@DevicePolicyEngine_set_mode calm_host school_engine Recovery true school_world).2 in
  (@mode_enabled calm_host "/registry/recovery-mode" true w').1 = Ok true.
Proof.
  apply (@set_mode_takes_effect calm_host school_engine Recovery true "/registry" "recovery-mode"
    school_world (@DevicePolicyEngine_set_mode calm_host school_engine Recovery true school_world).2);
    [done|done|apply disk_of_wf|by vm_compute..].
Defined.
