(* ===== verification/Permissions.v ===== *)
(** * Permission decisions (crates/cp0-appd/src/permissions.rs)

    The permission database and the engine that answers whether an application
    may use a capability.  The engine keeps the stored decisions and the
    grants of the session ([allow_once]).  A method that changes the engine
    returns its outcome with the engine it leaves: the source changes the
    decisions in memory before it writes the file, so a failed write is visible
    in the model as an error with a changed engine.

    The theorems: the answers of the engine refine a specification on the
    history of the user's choices; a grant always goes back to a consent that
    nothing has revoked since; decisions survive a restart and session grants do
    not. *)

From S2P Require Import Prelude RustStr Manifest HostFs.

Definition PERMISSION_SCHEMA_VERSION : Z := 1.

Inductive StoredDecision := StoredAllow | StoredDeny.

(** [AppDecisions { decisions: BTreeMap<Permission, StoredDecision> }]. *)
Notation AppDecisions := (gmap Permission StoredDecision).

Record PermissionStore := mkPermissionStore {
  ps_schema_version : Z;
  ps_apps : gmap string AppDecisions;
}.

Inductive Authorization := AuthAllow | AuthDeny | AuthPrompt | AuthUndeclared.
Inductive PermissionChoice := AllowOnce | AllowAlways | Deny.

Inductive PermissionInvalid :=
  | PermNotRegular
  | PermNotRootOwned
  | PermNoParent
  | PermNoFileName
  | PermSchemaVersion
  | PermInvalidAppId (app_id : string).

Inductive PermissionError :=
  | PermIo (e : IoError)
  | PermJson
  | PermInvalid (why : PermissionInvalid)
  | PermUndeclared.

Global Instance StoredDecision_eq_dec : EqDecision StoredDecision.
Proof. solve_decision. Defined.
Global Instance Authorization_eq_dec : EqDecision Authorization.
Proof. solve_decision. Defined.
Global Instance PermissionChoice_eq_dec : EqDecision PermissionChoice.
Proof. solve_decision. Defined.

(** [impl Default for PermissionStore]. *)
Definition PermissionStore_default : PermissionStore :=
  {| ps_schema_version := PERMISSION_SCHEMA_VERSION; ps_apps := ∅ |}.

Definition set_ps_apps (m : gmap string AppDecisions) (s : PermissionStore) : PermissionStore :=
  {| ps_schema_version := ps_schema_version s; ps_apps := m |}.

(** ** The store *)

Definition PermissionStore_decision (s : PermissionStore) (app_id : string) (p : Permission)
    : option StoredDecision :=
  match ps_apps s !! app_id with
  | Some app => app !! p
  | None => None
  end.

Definition PermissionStore_set (s : PermissionStore) (app_id : string) (p : Permission)
    (decision : StoredDecision) : PermissionStore :=
  let app := default ∅ (ps_apps s !! app_id) in
  set_ps_apps (<[app_id := <[p := decision]> app]> (ps_apps s)) s.

Definition PermissionStore_reset (s : PermissionStore) (app_id : string) (p : Permission)
    : PermissionStore :=
  match ps_apps s !! app_id with
  | Some app =>
      let app := delete p app in
      if bool_decide (app = ∅) then set_ps_apps (delete app_id (ps_apps s)) s
      else set_ps_apps (<[app_id := app]> (ps_apps s)) s
  | None => s
  end.

Definition PermissionStore_reset_app (s : PermissionStore) (app_id : string) : PermissionStore :=
  set_ps_apps (delete app_id (ps_apps s)) s.

Definition PermissionStore_validate (s : PermissionStore) : result PermissionError unit :=
  if negb (ps_schema_version s =? PERMISSION_SCHEMA_VERSION)%Z then Err (PermInvalid PermSchemaVersion)
  else match List.find (λ app_id, negb (is_valid_app_id app_id)) (btree_iter str_leb (ps_apps s)).*1 with
       | Some app_id => Err (PermInvalid (PermInvalidAppId app_id))
       | None => Ok tt
       end.

Definition permission_atomic_error (e : AtomicError) : PermissionError :=
  match e with
  | AtomicNoParent => PermInvalid PermNoParent
  | AtomicNoFileName => PermInvalid PermNoFileName
  | AtomicIo e => PermIo e
  | AtomicJson => PermJson
  end.

(** ** The engine *)

Record PermissionEngine := mkPermissionEngine {
  pe_path : string;
  pe_store : PermissionStore;
  allow_once : gset (string * Permission);
}.

(** The private helper [declares]. *)
Definition declares (m : AppManifest) (p : Permission) : bool :=
  existsb (λ request, bool_decide (pr_name request = p)) (m_permissions m).

Definition PermissionEngine_new (path : string) (s : PermissionStore)
    : result PermissionError PermissionEngine :=
  let? _ := PermissionStore_validate s in
  Ok {| pe_path := path; pe_store := s; allow_once := ∅ |}.

Definition PermissionEngine_authorize (e : PermissionEngine) (m : AppManifest) (p : Permission)
    : Authorization :=
  if negb (declares m p) then AuthUndeclared
  else if bool_decide ((m_id m, p) ∈ allow_once e) then AuthAllow
  else match PermissionStore_decision (pe_store e) (m_id m) p with
       | Some StoredAllow => AuthAllow
       | Some StoredDeny => AuthDeny
       | None => AuthPrompt
       end.

(** [allow_once.retain(|(id, _)| id != app_id)]. *)
Definition retain_other_apps (app_id : string) (s : gset (string * Permission))
    : gset (string * Permission) :=
  filter (λ e, e.1 ≠ app_id) s.

Definition PermissionEngine_clear_session (e : PermissionEngine) (app_id : string) : PermissionEngine :=
  {| pe_path := pe_path e; pe_store := pe_store e;
     allow_once := retain_other_apps app_id (allow_once e) |}.

Section persistence.
  Context `{Host} `{Codec PermissionStore}.

Definition PermissionStore_load (path : string) : IO PermissionError PermissionStore :=
  let! contents := io_map_err PermIo (fs_read_file path) in
  let! store := io_lift (ok_or (from_json contents) PermJson) in
  let! _ := io_lift (PermissionStore_validate store) in
  io_ret store.

Definition PermissionStore_load_secure (path : string) : IO PermissionError PermissionStore :=
  let! metadata := io_map_err PermIo (fs_symlink_metadata path) in
  let! _ := io_lift (if negb (bool_decide (md_kind metadata = RegularFile))
                     then Err (PermInvalid PermNotRegular) else Ok tt) in
  let! _ := io_lift (if negb (md_uid metadata =? 0)%Z || negb (Z.land (md_mode metadata) 18 =? 0)%Z
                     then Err (PermInvalid PermNotRootOwned) else Ok tt) in
  PermissionStore_load path.

Definition PermissionStore_save_atomic (s : PermissionStore) (path : string) : IO PermissionError unit :=
  let! _ := io_lift (PermissionStore_validate s) in
  io_map_err permission_atomic_error (atomic_replace PermissionTemp path (encode_line s)).

(** A change in memory followed by [self.store.save_atomic(&self.path)]. *)
Definition engine_save (e : PermissionEngine) : World → (result PermissionError unit * PermissionEngine) * World :=
  λ w, let '(r, w) := PermissionStore_save_atomic (pe_store e) (pe_path e) w in ((r, e), w).

Definition PermissionEngine_resolve (e : PermissionEngine) (m : AppManifest) (p : Permission)
    (choice : PermissionChoice) : World → (result PermissionError unit * PermissionEngine) * World :=
  λ w,
  if negb (declares m p) then ((Err PermUndeclared, e), w)
  else match choice with
  | AllowOnce =>
      ((Ok tt, {| pe_path := pe_path e; pe_store := pe_store e;
                  allow_once := {[(m_id m, p)]} ∪ allow_once e |}), w)
  | AllowAlways =>
      engine_save {| pe_path := pe_path e;
                     pe_store := PermissionStore_set (pe_store e) (m_id m) p StoredAllow;
                     allow_once := allow_once e |} w
  | Deny =>
      engine_save {| pe_path := pe_path e;
                     pe_store := PermissionStore_set (pe_store e) (m_id m) p StoredDeny;
                     allow_once := allow_once e ∖ {[(m_id m, p)]} |} w
  end.

Definition PermissionEngine_reset (e : PermissionEngine) (m : AppManifest) (p : Permission)
    : World → (result PermissionError unit * PermissionEngine) * World :=
  λ w,
  if negb (declares m p) then ((Err PermUndeclared, e), w)
  else engine_save {| pe_path := pe_path e; pe_store := PermissionStore_reset (pe_store e) (m_id m) p;
                      allow_once := allow_once e ∖ {[(m_id m, p)]} |} w.

Definition PermissionEngine_reset_app (e : PermissionEngine) (app_id : string)
    : World → (result PermissionError unit * PermissionEngine) * World :=
  λ w, engine_save {| pe_path := pe_path e; pe_store := PermissionStore_reset_app (pe_store e) app_id;
                      allow_once := retain_other_apps app_id (allow_once e) |} w.

(** ** The specification: the user's choices *)

(** What can happen to the engine between its creation and a question. *)
Inductive PermissionEvent :=
  | EvResolve (m : AppManifest) (p : Permission) (choice : PermissionChoice)
  | EvClearSession (app_id : string)
  | EvReset (m : AppManifest) (p : Permission)
  | EvResetApp (app_id : string).

Definition permission_step (e : PermissionEngine) (ev : PermissionEvent) (w : World)
    : PermissionEngine * World :=
  match ev with
  | EvResolve m p c => let '((_, e), w) := PermissionEngine_resolve e m p c w in (e, w)
  | EvClearSession a => (PermissionEngine_clear_session e a, w)
  | EvReset m p => let '((_, e), w) := PermissionEngine_reset e m p w in (e, w)
  | EvResetApp a => let '((_, e), w) := PermissionEngine_reset_app e a w in (e, w)
  end.

Fixpoint permission_run (e : PermissionEngine) (evs : list PermissionEvent) (w : World)
    : PermissionEngine * World :=
  match evs with
  | [] => (e, w)
  | ev :: evs => let '(e, w) := permission_step e ev w in permission_run e evs w
  end.

End persistence.

(** An event about application [a] and permission [p]. *)
Definition about (a : string) (p : Permission) (m : AppManifest) (q : Permission) : bool :=
  bool_decide (m_id m = a) && bool_decide (p = q) && declares m q.

(** The stored decision that a history, newest event first, leaves. *)
Fixpoint stored_by (a : string) (p : Permission) (history : list PermissionEvent) (start : option StoredDecision)
    : option StoredDecision :=
  match history with
  | [] => start
  | ev :: history =>
      let before := stored_by a p history start in
      match ev with
      | EvResolve m q AllowAlways => if about a p m q then Some StoredAllow else before
      | EvResolve m q Deny => if about a p m q then Some StoredDeny else before
      | EvReset m q => if about a p m q then None else before
      | EvResetApp b => if bool_decide (a = b) then None else before
      | _ => before
      end
  end.

(** Whether the history leaves a grant for the session. *)
Fixpoint granted_once_by (a : string) (p : Permission) (history : list PermissionEvent) : bool :=
  match history with
  | [] => false
  | ev :: history =>
      let before := granted_once_by a p history in
      match ev with
      | EvResolve m q AllowOnce => if about a p m q then true else before
      | EvResolve m q Deny => if about a p m q then false else before
      | EvResolve _ _ AllowAlways => before
      | EvReset m q => if about a p m q then false else before
      | EvResetApp b | EvClearSession b => if bool_decide (a = b) then false else before
      end
  end.

(** The answer that the history commands. *)
Definition verdict (m : AppManifest) (p : Permission) (history : list PermissionEvent)
    (start : option StoredDecision) : Authorization :=
  if negb (declares m p) then AuthUndeclared
  else if granted_once_by (m_id m) p history then AuthAllow
  else match stored_by (m_id m) p history start with
       | Some StoredAllow => AuthAllow
       | Some StoredDeny => AuthDeny
       | None => AuthPrompt
       end.

(** An event that takes a grant for [a] and [p] back. *)
Definition revokes (a : string) (p : Permission) (ev : PermissionEvent) : bool :=
  match ev with
  | EvResolve m q Deny | EvReset m q => about a p m q
  | EvResetApp b => bool_decide (a = b)
  | _ => false
  end.

(** No application keeps an empty entry, and the ids are valid. *)
Definition store_wf (s : PermissionStore) : Prop :=
  ps_schema_version s = PERMISSION_SCHEMA_VERSION ∧
  map_Forall (λ a ds, is_valid_app_id a = true ∧ ds ≠ ∅) (ps_apps s).

(** ** Lemmas *)

Lemma declares_elem m p : declares m p = true ↔ ∃ r, r ∈ m_permissions m ∧ pr_name r = p.
Proof.
  unfold declares. rewrite existsb_exists. setoid_rewrite list_elem_of_In.
  setoid_rewrite bool_decide_eq_true. done.
Qed.

Lemma decision_set s a p d b q :
  PermissionStore_decision (PermissionStore_set s a p d) b q =
  if bool_decide (a = b) && bool_decide (q = p) then Some d else PermissionStore_decision s b q.
Proof.
  unfold PermissionStore_decision, PermissionStore_set. simpl. case_bool_decide as Hab; simpl.
  - subst. rewrite lookup_insert_eq. case_bool_decide as Hpq.
    + subst. by rewrite lookup_insert_eq.
    + rewrite lookup_insert_ne by congruence. by destruct (ps_apps s !! b).
  - by rewrite lookup_insert_ne.
Qed.

Lemma decision_reset s a p b q :
  PermissionStore_decision (PermissionStore_reset s a p) b q =
  if bool_decide (a = b) && bool_decide (q = p) then None else PermissionStore_decision s b q.
Proof.
  unfold PermissionStore_decision, PermissionStore_reset.
  destruct (decide (a = b)) as [->|Hne].
  - rewrite (bool_decide_eq_true_2 (b = b)) by done. simpl.
    destruct (ps_apps s !! b) as [app|] eqn:Hb; simpl; [|rewrite Hb; by case_bool_decide].
    case_bool_decide as He; simpl.
    + rewrite lookup_delete_eq. case_bool_decide as Hpq; [done|].
      rewrite <- (lookup_delete_ne app p q) by congruence. by rewrite He.
    + rewrite lookup_insert_eq. case_bool_decide as Hpq; [subst; by rewrite lookup_delete_eq|].
      by rewrite lookup_delete_ne by congruence.
  - rewrite (bool_decide_eq_false_2 (a = b)) by done. simpl.
    destruct (ps_apps s !! a) as [app|]; [|done]. case_bool_decide; simpl.
    + by rewrite lookup_delete_ne.
    + by rewrite lookup_insert_ne.
Qed.

Lemma decision_reset_app s a b q :
  PermissionStore_decision (PermissionStore_reset_app s a) b q =
  if bool_decide (b = a) then None else PermissionStore_decision s b q.
Proof.
  unfold PermissionStore_decision, PermissionStore_reset_app. simpl. case_bool_decide as Hab.
  - subst. by rewrite lookup_delete_eq.
  - by rewrite lookup_delete_ne by congruence.
Qed.

(** The engine a save leaves is the engine it was given. *)
Lemma engine_save_engine `{Host} `{Codec PermissionStore} e w :
  (engine_save e w).1.2 = e ∧ (engine_save e w).1.1 = (PermissionStore_save_atomic (pe_store e) (pe_path e) w).1
  ∧ (engine_save e w).2 = (PermissionStore_save_atomic (pe_store e) (pe_path e) w).2.
Proof. unfold engine_save. by destruct (PermissionStore_save_atomic _ _ _). Qed.

(** [e] holds exactly what the history, newest first, says. *)
Definition agrees (e : PermissionEngine) (history : list PermissionEvent)
    (start : string → Permission → option StoredDecision) : Prop :=
  ∀ a p, PermissionStore_decision (pe_store e) a p = stored_by a p history (start a p) ∧
         bool_decide ((a, p) ∈ allow_once e) = granted_once_by a p history.

Lemma bool_decide_retain a p b s :
  bool_decide ((a, p) ∈ retain_other_apps b s) =
  if bool_decide (a = b) then false else bool_decide ((a, p) ∈ s).
Proof.
  unfold retain_other_apps. destruct (decide (a = b)) as [Hab|Hab];
    [rewrite (bool_decide_eq_true_2 (a = b)) by done|rewrite (bool_decide_eq_false_2 (a = b)) by done].
  - apply bool_decide_eq_false. rewrite elem_of_filter. naive_solver.
  - apply bool_decide_ext. rewrite elem_of_filter. naive_solver.
Qed.

Lemma bool_decide_add (a b : string) (p q : Permission) (s : gset (string * Permission)) :
  bool_decide ((a, p) ∈ {[(b, q)]} ∪ s) =
  if bool_decide (b = a) && bool_decide (p = q) then true else bool_decide ((a, p) ∈ s).
Proof.
  repeat case_bool_decide; simpl; subst; try done; set_solver.
Qed.

Lemma bool_decide_del (a b : string) (p q : Permission) (s : gset (string * Permission)) :
  bool_decide ((a, p) ∈ s ∖ {[(b, q)]}) =
  if bool_decide (b = a) && bool_decide (p = q) then false else bool_decide ((a, p) ∈ s).
Proof.
  repeat case_bool_decide; simpl; subst; try done; set_solver.
Qed.

Section history.
  Context `{Host} `{Codec PermissionStore}.

(** The engine a step leaves, whatever the file system does. *)
Lemma permission_step_engine e ev w :
  (permission_step e ev w).1 =
  match ev with
  | EvResolve m p c =>
      if declares m p then
        match c with
        | AllowOnce => mkPermissionEngine (pe_path e) (pe_store e) ({[(m_id m, p)]} ∪ allow_once e)
        | AllowAlways => mkPermissionEngine (pe_path e)
            (PermissionStore_set (pe_store e) (m_id m) p StoredAllow) (allow_once e)
        | Deny => mkPermissionEngine (pe_path e)
            (PermissionStore_set (pe_store e) (m_id m) p StoredDeny) (allow_once e ∖ {[(m_id m, p)]})
        end
      else e
  | EvClearSession a => PermissionEngine_clear_session e a
  | EvReset m p =>
      if declares m p then
        mkPermissionEngine (pe_path e) (PermissionStore_reset (pe_store e) (m_id m) p)
          (allow_once e ∖ {[(m_id m, p)]})
      else e
  | EvResetApp a => mkPermissionEngine (pe_path e) (PermissionStore_reset_app (pe_store e) a)
      (retain_other_apps a (allow_once e))
  end.
Proof.
  assert (∀ e w, (let '((_, e), w) := engine_save e w in (e, w)).1 = e) as Hsave.
  { intros e' w'. unfold engine_save. by destruct (PermissionStore_save_atomic _ _ _). }
  destruct ev as [m p []|a|m p|a]; simpl;
    unfold PermissionEngine_resolve, PermissionEngine_reset, PermissionEngine_reset_app;
    try destruct (declares m p); simpl; done || apply Hsave.
Qed.

Lemma permission_step_agrees e ev w history start :
  agrees e history start → agrees (permission_step e ev w).1 (ev :: history) start.
Proof.
  intros Ha a p. destruct (Ha a p) as [Hs Ho]. rewrite permission_step_engine.
  destruct ev as [m q []|b|m q|b]; simpl; unfold about; rewrite <- Hs, <- Ho.
  1-3,5: destruct (declares m q); [|by rewrite andb_false_r]; rewrite !andb_true_r; simpl.
  all: rewrite ?decision_set, ?decision_reset, ?decision_reset_app, ?bool_decide_add, ?bool_decide_del,
    ?bool_decide_retain; done.
Qed.

Lemma permission_run_agrees e evs w history start :
  agrees e history start → agrees (permission_run e evs w).1 (rev evs ++ history) start.
Proof.
  revert e w history. induction evs as [|ev evs IH]; intros e w history Ha; simpl; [done|].
  pose proof (permission_step_agrees e ev w history start Ha) as Hstep.
  destruct (permission_step e ev w) as [e' w']. rewrite <- app_assoc. by apply IH.
Qed.

End history.

Lemma agrees_new e : allow_once e = ∅ → agrees e [] (PermissionStore_decision (pe_store e)).
Proof. intros He a p. split; [done|]. rewrite He. apply bool_decide_eq_false. set_solver. Qed.

Lemma agrees_authorize e history start m p :
  agrees e history start →
  PermissionEngine_authorize e m p = verdict m p history (start (m_id m) p).
Proof.
  intros Ha. destruct (Ha (m_id m) p) as [Hs Ho]. unfold PermissionEngine_authorize, verdict.
  by rewrite Ho, Hs.
Qed.

(** A session grant goes back to a consent that nothing has revoked. *)
Lemma granted_once_split a p history :
  granted_once_by a p history = true →
  ∃ post m q pre, history = post ++ EvResolve m q AllowOnce :: pre ∧ about a p m q = true ∧
    Forall (λ ev, revokes a p ev = false ∧ ev ≠ EvClearSession a) post.
Proof.
  induction history as [|ev history IH]; simpl; [done|]. intros Hg.
  assert (granted_once_by a p history = true → revokes a p ev = false → ev ≠ EvClearSession a →
    ∃ post m q pre, ev :: history = post ++ EvResolve m q AllowOnce :: pre ∧ about a p m q = true ∧
      Forall (λ ev, revokes a p ev = false ∧ ev ≠ EvClearSession a) post) as Hgo.
  { intros Hh Hr Hc. destruct (IH Hh) as (post&m&q&pre&->&Hab&Hf).
    exists (ev :: post), m, q, pre. by rewrite Forall_cons. }
  destruct ev as [m q []|b|m q|b]; simpl in *.
  - destruct (about a p m q) eqn:Hab; [by exists [], m, q, history|by apply Hgo].
  - by apply Hgo.
  - destruct (about a p m q) eqn:Hab; [done|by apply Hgo].
  - case_bool_decide; [done|]. apply Hgo; congruence.
  - destruct (about a p m q) eqn:Hab; [done|by apply Hgo].
  - case_bool_decide; [done|]. by apply Hgo.
Qed.

(** So does a stored one, when nothing was stored at the start. *)
Lemma stored_allow_split a p history :
  stored_by a p history None = Some StoredAllow →
  ∃ post m q pre, history = post ++ EvResolve m q AllowAlways :: pre ∧ about a p m q = true ∧
    Forall (λ ev, revokes a p ev = false) post.
Proof.
  induction history as [|ev history IH]; simpl; [done|]. intros Hg.
  assert (stored_by a p history None = Some StoredAllow → revokes a p ev = false →
    ∃ post m q pre, ev :: history = post ++ EvResolve m q AllowAlways :: pre ∧ about a p m q = true ∧
      Forall (λ ev, revokes a p ev = false) post) as Hgo.
  { intros Hh Hr. destruct (IH Hh) as (post&m&q&pre&->&Hab&Hf).
    exists (ev :: post), m, q, pre. by rewrite Forall_cons. }
  destruct ev as [m q []|b|m q|b]; simpl in *.
  - by apply Hgo.
  - destruct (about a p m q) eqn:Hab; [by exists [], m, q, history|by apply Hgo].
  - destruct (about a p m q) eqn:Hab; [done|by apply Hgo].
  - by apply Hgo.
  - destruct (about a p m q) eqn:Hab; [done|by apply Hgo].
  - case_bool_decide; [done|]. by apply Hgo.
Qed.

Lemma about_spec a p m q : about a p m q = true → m_id m = a ∧ p = q ∧ declares m q = true.
Proof. unfold about. intros. by unbool_hyps. Qed.

(** *** Saving and restarting *)

Lemma store_save_load `{Host} `{Codec PermissionStore} s path parent f w :
  quiet _ → no_faults _ → codec_roundtrip _ → disk_wf (w_disk w) → path_is_absolute path = true →
  path_parent path = Some parent → path_file_name path = Some f →
  d_names (w_disk w) !! path_join parent (temporary_name f (w_sequence w PermissionTemp)) = None →
  PermissionStore_validate s = Ok tt →
  ∃ w', PermissionStore_save_atomic s path w = (Ok tt, w') ∧ (PermissionStore_load path w').1 = Ok s.
Proof.
  intros Hq Hnf Hcodec Hd Habs Hp Hf Hfree Hv. destruct (Hcodec s) as (bs&Hto&Hfrom).
  destruct (replace_then_read Hq Hnf PermissionTemp path parent f (bs ++ [newline]) w)
    as (w'&Hsave&Hread); [done..|].
  exists w'. unfold PermissionStore_save_atomic, io_bind at 1, io_lift, encode_line. rewrite Hv, Hto. simpl.
  unfold io_map_err at 1. rewrite Hsave. simpl. split; [done|].
  unfold PermissionStore_load, io_bind, io_map_err. destruct (fs_read_file path w') as [o w'']. simpl in *.
  subst o. simpl. unfold io_lift, ok_or. by rewrite Hfrom, Hv.
Qed.

(** *** The store invariant *)

Lemma store_validate_wf s : store_wf s → PermissionStore_validate s = Ok tt.
Proof.
  intros [Hs Hm]. unfold PermissionStore_validate. rewrite (proj2 (Z.eqb_eq _ _)) by done. simpl.
  destruct (List.find _ _) as [a|] eqn:Hf; [|done]. apply find_some_elem in Hf as [Hin Hv].
  apply list_elem_of_fmap in Hin as ([k ds]&->&Hin). apply elem_of_btree_iter in Hin.
  apply (map_Forall_lookup_1 _ _ _ _ Hm) in Hin as [Hid _]. simpl in *. by rewrite Hid in Hv.
Qed.

Lemma store_wf_set s a p d : is_valid_app_id a = true → store_wf s → store_wf (PermissionStore_set s a p d).
Proof.
  intros Ha [Hs Hm]. split; [done|]. simpl. apply map_Forall_insert_2; [|done].
  split; [done|]. apply insert_non_empty.
Qed.

Lemma store_wf_reset s a p : store_wf s → store_wf (PermissionStore_reset s a p).
Proof.
  intros [Hs Hm]. unfold PermissionStore_reset. destruct (ps_apps s !! a) as [app|] eqn:Ha; [|by split].
  case_bool_decide; (split; [done|]); simpl.
  - by apply map_Forall_delete.
  - apply map_Forall_insert_2; [|done]. apply (map_Forall_lookup_1 _ _ _ _ Hm) in Ha as [? _]. by split.
Qed.

Lemma store_wf_reset_app s a : store_wf s → store_wf (PermissionStore_reset_app s a).
Proof. intros [Hs Hm]. split; [done|]. by apply map_Forall_delete. Qed.

(** The manifests the service passes have been validated. *)
Definition event_valid (ev : PermissionEvent) : bool :=
  match ev with
  | EvResolve m _ _ | EvReset m _ => is_valid_app_id (m_id m)
  | _ => true
  end.

Lemma permission_run_wf `{Host} `{Codec PermissionStore} e evs w :
  forallb event_valid evs = true → store_wf (pe_store e) →
  store_wf (pe_store (permission_run e evs w).1) ∧ pe_path (permission_run e evs w).1 = pe_path e.
Proof.
  revert e w. induction evs as [|ev evs IH]; intros e w Hv Hwf; simpl in *; [done|].
  unbool_hyps. pose proof (permission_step_engine e ev w) as He.
  destruct (permission_step e ev w) as [e' w']. simpl in He.
  assert (store_wf (pe_store e') ∧ pe_path e' = pe_path e) as [Hwf' <-]; [|by apply IH].
  subst e'. destruct ev as [m q []|b|m q|b]; simpl in *; try destruct (declares m q); simpl;
    auto using store_wf_set, store_wf_reset, store_wf_reset_app.
Qed.

Lemma rev_split {A} (l : list A) post x pre : rev l = post ++ x :: pre → l = rev pre ++ x :: rev post.
Proof.
  intros Heq%(f_equal (@rev _)). rewrite rev_involutive, rev_app_distr in Heq. simpl in Heq.
  by rewrite <- app_assoc in Heq.
Qed.

(** ** Properties *)

(** C3: the answers of the engine are those the history of the user's choices
    commands, whatever writes of the database fail in between: the newest
    decision about an application and a permission wins, a denial and a reset
    end a session grant, and other applications and permissions are not
    affected. *)
Theorem authorize_refines_history `{Host} `{Codec PermissionStore} path s e evs w m p :
  PermissionEngine_new path s = Ok e →
  PermissionEngine_authorize (permission_run e evs w).1 m p
  = verdict m p (rev evs) (PermissionStore_decision s (m_id m) p).
Proof.
  unfold PermissionEngine_new. intros Hnew. case_match; simplify_eq.
  pose proof (agrees_new (mkPermissionEngine path s ∅) eq_refl) as Ha.
  apply (permission_run_agrees _ evs w) in Ha.
  rewrite app_nil_r in Ha. exact (agrees_authorize _ _ _ m p Ha).
Qed.

Definition permission_codec : Codec PermissionStore :=
  {| to_json := λ _, None; from_json := λ _, None |}.

Lemma authorize_refines_history_witness :
  PermissionEngine_authorize
    (@permission_run calm_host permission_codec (mkPermissionEngine "/p.json" PermissionStore_default ∅)
       [EvResolve hello_manifest AudioPlayback AllowOnce; EvResolve hello_manifest AudioPlayback Deny]
       empty_world).1 hello_manifest AudioPlayback = AuthDeny.
Proof.
  rewrite (@authorize_refines_history calm_host permission_codec "/p.json" PermissionStore_default
    (mkPermissionEngine "/p.json" PermissionStore_default ∅)); by vm_compute.
Defined.

(** C4: starting from an empty database, a capability is only ever granted to
    an application that declares it and after the user consented to it for that
    application; no denial and no reset came after the consent, and a one-time
    consent has not outlived its session. *)
Theorem grant_needs_consent `{Host} `{Codec PermissionStore} path evs w m p :
  let e := mkPermissionEngine path PermissionStore_default ∅ in
  PermissionEngine_authorize (permission_run e evs w).1 m p = AuthAllow →
  declares m p = true ∧
  ∃ pre m' c post, evs = pre ++ EvResolve m' p c :: post ∧ m_id m' = m_id m ∧ declares m' p = true ∧
    Forall (λ ev, revokes (m_id m) p ev = false) post ∧
    (c = AllowAlways ∨ c = AllowOnce ∧ EvClearSession (m_id m) ∉ post).
Proof.
  intros e. pose proof (agrees_new e eq_refl) as Ha. apply (permission_run_agrees _ evs w) in Ha.
  rewrite app_nil_r in Ha. rewrite (agrees_authorize _ _ _ m p Ha). unfold verdict.
  replace (PermissionStore_decision (pe_store e) (m_id m) p) with (@None StoredDecision) by done.
  destruct (declares m p); [|done]. simpl. intros Hv. split; [done|].
  destruct (granted_once_by (m_id m) p (rev evs)) eqn:Hg.
  - apply granted_once_split in Hg as (post&m'&q&pre&Heq%rev_split&(Hid&<-&Hd)%about_spec&Hf%Forall_rev).
    exists (rev pre), m', AllowOnce, (rev post). rewrite Forall_forall in Hf.
    split_and!; [done..| |right; split; [done|]].
    + rewrite Forall_forall. intros ev Hin. by apply Hf.
    + intros Hin. by apply Hf in Hin as [_ ?].
  - destruct (stored_by (m_id m) p (rev evs) None) as [[]|] eqn:Hs; simplify_eq.
    apply stored_allow_split in Hs as (post&m'&q&pre&Heq%rev_split&(Hid&<-&Hd)%about_spec&Hf%Forall_rev).
    exists (rev pre), m', AllowAlways, (rev post). split_and!; auto.
Qed.

Lemma grant_needs_consent_witness :
  let evs := [EvResolve hello_manifest AudioPlayback AllowOnce] in
  declares hello_manifest AudioPlayback = true.
Proof.
  apply (@grant_needs_consent calm_host permission_codec "/p.json"
    [EvResolve hello_manifest AudioPlayback AllowOnce] empty_world hello_manifest AudioPlayback).
  by vm_compute.
Defined.

(** An interrupted or failing write of the database leaves the file that
    was there or the complete new one. *)
Lemma permission_save_crash_safe `{Host} `{Codec PermissionStore} s bs path parent f w :
  quiet _ → disk_wf (w_disk w) → path_is_absolute path = true →
  path_parent path = Some parent → path_file_name path = Some f → to_json s = Some bs →
  let temporary := path_join parent (temporary_name f (w_sequence w PermissionTemp)) in
  let safe := old_or_new (w_disk w) temporary path (bs ++ [newline]) in
  let run := PermissionStore_save_atomic s path w in
  (∃ tr, w_trace run.2 = tr ++ w_trace w ∧ Forall safe tr) ∧ safe (w_disk run.2).
Proof.
  intros Hq Hd Habs Hp Hf Hbs. simpl. unfold PermissionStore_save_atomic, io_bind, io_lift, encode_line.
  rewrite Hbs. simpl.
  destruct (PermissionStore_validate s) as [[]|e|]; simpl; [|by split; [exists []|by split; auto]..].
  destruct (atomic_replace_safe PermissionTemp path parent f (bs ++ [newline]) w Hq Hd Habs Hp Hf)
    as (tr&Htr&Hall&Hout).
  unfold io_map_err. destruct (atomic_replace _ _ _ _) as [[[]|e|] w']; simpl in *; [..|done];
    (split; [by exists tr|]); [by apply installed_old_or_new|done].
Qed.

(** A permanent choice of the user that is saved answers the same question
    after a restart of the service, and no session grant survives the restart. *)
Theorem decision_survives_restart `{Host} `{Codec PermissionStore} e m p c parent f w :
  quiet _ → no_faults _ → codec_roundtrip _ → disk_wf (w_disk w) →
  path_is_absolute (pe_path e) = true →
  path_parent (pe_path e) = Some parent → path_file_name (pe_path e) = Some f →
  d_names (w_disk w) !! path_join parent (temporary_name f (w_sequence w PermissionTemp)) = None →
  store_wf (pe_store e) → is_valid_app_id (m_id m) = true → declares m p = true → c ≠ AllowOnce →
  let run := PermissionEngine_resolve e m p c w in
  run.1.1 = Ok tt ∧
  ∃ s e', (PermissionStore_load (pe_path e) run.2).1 = Ok s ∧ PermissionEngine_new (pe_path e) s = Ok e' ∧
    PermissionEngine_authorize e' m p = (if decide (c = AllowAlways) then AuthAllow else AuthDeny) ∧
    allow_once e' = ∅.
Proof.
  intros Hq Hnf Hcodec Hd Habs Hp Hf Hfree Hwf Hid Hdecl Hc run.
  assert (∃ d once, (c = AllowAlways ∧ d = StoredAllow ∨ c = Deny ∧ d = StoredDeny) ∧
    run = engine_save (mkPermissionEngine (pe_path e) (PermissionStore_set (pe_store e) (m_id m) p d) once) w)
    as (d&once&Hcd&->).
  { unfold run, PermissionEngine_resolve. rewrite Hdecl. destruct c; [done|eauto 10..]. }
  destruct (store_save_load (PermissionStore_set (pe_store e) (m_id m) p d) (pe_path e) parent f w)
    as (w'&Hsave&Hload); [done..|by apply store_validate_wf, store_wf_set|].
  unfold engine_save. simpl. rewrite Hsave. simpl. split; [done|].
  eexists _, _. split; [exact Hload|]. unfold PermissionEngine_new.
  rewrite store_validate_wf by (by apply store_wf_set). split; [done|]. split; [|done].
  unfold PermissionEngine_authorize. rewrite Hdecl. simpl.
  rewrite bool_decide_eq_false_2 by set_solver. rewrite decision_set, !bool_decide_eq_true_2 by done.
  by destruct Hcd as [[-> ->]|[-> ->]].
Qed.

Global Instance StoredDecision_countable : Countable StoredDecision.
Proof.
  refine (inj_countable' (λ d, bool_decide (d = StoredAllow)) (λ b : bool, if b then StoredAllow else StoredDeny) _).
  by intros [].
Defined.
Global Instance PermissionStore_eq_dec : EqDecision PermissionStore.
Proof. solve_decision. Defined.
Global Instance PermissionStore_countable : Countable PermissionStore.
Proof.
  refine (inj_countable' (λ s, (ps_schema_version s, ps_apps s)) (λ e, mkPermissionStore e.1 e.2) _).
  by intros [].
Defined.

Lemma decision_survives_restart_witness :
  let e := mkPermissionEngine "/var/permissions.json" PermissionStore_default ∅ in
  ∃ s e', (@PermissionStore_load calm_host bits_codec "/var/permissions.json"
      (@PermissionEngine_resolve calm_host bits_codec e hello_manifest AudioPlayback AllowAlways empty_world).2).1
    = Ok s ∧ PermissionEngine_new "/var/permissions.json" s = Ok e' ∧
    PermissionEngine_authorize e' hello_manifest AudioPlayback = AuthAllow ∧ allow_once e' = ∅.
Proof.
  apply (@decision_survives_restart calm_host bits_codec
    (mkPermissionEngine "/var/permissions.json" PermissionStore_default ∅) hello_manifest AudioPlayback
    AllowAlways "/var" "permissions.json" empty_world);
    [done|done|apply bits_codec_roundtrip|by split|by vm_compute..|by split|by vm_compute|by vm_compute|done].
Defined.
