(* ===== verification/PermissionPrompt.v ===== *)
(** * The permission prompt (crates/cp0-appd/src/permission_prompt.rs)

    One prompt at a time stands between an application that asks for a
    capability and the engine of [Permissions].  The coordinator hands prompt
    ids out with a wrapping counter that skips zero.

    The theorems, by induction over the operations: a prompt always belongs to
    a declared permission and carries its reason; an answer only takes effect
    when it names the prompt that is shown, and then for that application and
    permission only; the [expect] in [request] cannot fail. *)

From S2P Require Import Prelude RustStr Manifest HostFs Permissions.

Record PermissionPrompt := mkPermissionPrompt {
  prompt_id : Z;
  pp_app_id : string;
  pp_app_name : string;
  pp_permission : Permission;
  pp_reason : string;
}.
Global Instance PermissionPrompt_eq_dec : EqDecision PermissionPrompt.
Proof. solve_decision. Defined.

Inductive PermissionRequestResult :=
  | ReqAllow
  | ReqDeny
  | ReqUndeclared
  | ReqPrompt (prompt : PermissionPrompt).

Inductive PermissionPromptError :=
  | PromptBusy (prompt : PermissionPrompt)
  | NoPendingPrompt
  | StalePrompt
  | PromptPermission (e : PermissionError).

Record PermissionCoordinator := mkPermissionCoordinator {
  pc_engine : PermissionEngine;
  pc_pending : option PermissionPrompt;
  pc_next_prompt_id : Z;
}.

Definition PermissionCoordinator_new (e : PermissionEngine) : PermissionCoordinator :=
  {| pc_engine := e; pc_pending := None; pc_next_prompt_id := 1 |}.

Definition pc_set_pending (p : option PermissionPrompt) (c : PermissionCoordinator)
    : PermissionCoordinator :=
  {| pc_engine := pc_engine c; pc_pending := p; pc_next_prompt_id := pc_next_prompt_id c |}.
Definition pc_set_engine (e : PermissionEngine) (c : PermissionCoordinator) : PermissionCoordinator :=
  {| pc_engine := e; pc_pending := pc_pending c; pc_next_prompt_id := pc_next_prompt_id c |}.

(** [allocate_prompt_id]. *)
Definition PermissionCoordinator_allocate_prompt_id (c : PermissionCoordinator)
    : Z * PermissionCoordinator :=
  (pc_next_prompt_id c,
   {| pc_engine := pc_engine c; pc_pending := pc_pending c;
      pc_next_prompt_id := wrapping_next_nonzero (pc_next_prompt_id c) |}).

Definition PermissionCoordinator_request (c : PermissionCoordinator) (m : AppManifest) (p : Permission)
    : result PermissionPromptError PermissionRequestResult * PermissionCoordinator :=
  match PermissionEngine_authorize (pc_engine c) m p with
  | AuthAllow => (Ok ReqAllow, c)
  | AuthDeny => (Ok ReqDeny, c)
  | AuthUndeclared => (Ok ReqUndeclared, c)
  | AuthPrompt =>
      match pc_pending c with
      | Some prompt =>
          if bool_decide (pp_app_id prompt = m_id m) && bool_decide (pp_permission prompt = p)
          then (Ok (ReqPrompt prompt), c)
          else (Err (PromptBusy prompt), c)
      | None =>
          match List.find (λ request, bool_decide (pr_name request = p)) (m_permissions m) with
          | None => (Panicked, c)
          | Some request =>
              let '(id, c) := PermissionCoordinator_allocate_prompt_id c in
              let prompt := {| prompt_id := id; pp_app_id := m_id m; pp_app_name := m_name m;
                               pp_permission := p; pp_reason := pr_reason request |} in
              (Ok (ReqPrompt prompt), pc_set_pending (Some prompt) c)
          end
      end
  end.

Definition PermissionCoordinator_pending (c : PermissionCoordinator) : option PermissionPrompt :=
  pc_pending c.
Definition PermissionCoordinator_authorization (c : PermissionCoordinator) (m : AppManifest)
    (p : Permission) : Authorization :=
  PermissionEngine_authorize (pc_engine c) m p.

Definition PermissionCoordinator_clear_app_session (c : PermissionCoordinator) (app_id : string)
    : PermissionCoordinator :=
  let c := pc_set_engine (PermissionEngine_clear_session (pc_engine c) app_id) c in
  match pc_pending c with
  | Some prompt => if bool_decide (pp_app_id prompt = app_id) then pc_set_pending None c else c
  | None => c
  end.

Section persistence.
  Context `{Host} `{Codec PermissionStore}.

Definition PermissionCoordinator_resolve (c : PermissionCoordinator) (id : Z) (m : AppManifest)
    (choice : PermissionChoice)
    : World → (result PermissionPromptError PermissionPrompt * PermissionCoordinator) * World := λ w,
  match pc_pending c with
  | None => ((Err NoPendingPrompt, c), w)
  | Some prompt =>
      if negb (prompt_id prompt =? id)%Z || negb (bool_decide (pp_app_id prompt = m_id m))
      then ((Err StalePrompt, c), w)
      else
        let '((r, e), w) := PermissionEngine_resolve (pc_engine c) m (pp_permission prompt) choice w in
        let c := pc_set_engine e c in
        match r with
        | Ok _ => ((Ok prompt, pc_set_pending None c), w)
        | Err e => ((Err (PromptPermission e), c), w)
        | Panicked => ((Panicked, c), w)
        end
  end.

Definition PermissionCoordinator_reset (c : PermissionCoordinator) (m : AppManifest) (p : Permission)
    : World → (result PermissionPromptError unit * PermissionCoordinator) * World := λ w,
  let reset :=
    let '((r, e), w) := PermissionEngine_reset (pc_engine c) m p w in
    ((map_err PromptPermission r, pc_set_engine e c), w) in
  match pc_pending c with
  | Some prompt =>
      if bool_decide (pp_app_id prompt = m_id m) && bool_decide (pp_permission prompt = p)
      then ((Err (PromptBusy prompt), c), w)
      else reset
  | None => reset
  end.

Definition PermissionCoordinator_reset_app (c : PermissionCoordinator) (app_id : string)
    : World → (result PermissionPromptError unit * PermissionCoordinator) * World := λ w,
  let c := match pc_pending c with
           | Some prompt => if bool_decide (pp_app_id prompt = app_id) then pc_set_pending None c else c
           | None => c
           end in
  let '((r, e), w) := PermissionEngine_reset_app (pc_engine c) app_id w in
  ((map_err PromptPermission r, pc_set_engine e c), w).

(** ** The operations as steps *)

Inductive coordinator_step : PermissionCoordinator → PermissionCoordinator → Prop :=
  | step_request c m p : coordinator_step c (PermissionCoordinator_request c m p).2
  | step_resolve c id m choice w : coordinator_step c (PermissionCoordinator_resolve c id m choice w).1.2
  | step_clear c a : coordinator_step c (PermissionCoordinator_clear_app_session c a)
  | step_reset c m p w : coordinator_step c (PermissionCoordinator_reset c m p w).1.2
  | step_reset_app c a w : coordinator_step c (PermissionCoordinator_reset_app c a w).1.2.

(** A prompt names a permission that a manifest of the application declares,
    with that manifest's reason; its id was handed out. *)
Record coordinator_inv (c : PermissionCoordinator) : Prop := {
  ci_next : (1 ≤ pc_next_prompt_id c ≤ u64_max)%Z;
  ci_pending : ∀ prompt, pc_pending c = Some prompt →
    (1 ≤ prompt_id prompt ≤ u64_max)%Z ∧ prompt_id prompt ≠ pc_next_prompt_id c ∧
    ∃ m, m_id m = pp_app_id prompt ∧ m_name m = pp_app_name prompt ∧
      mkPermissionRequest (pp_permission prompt) (pp_reason prompt) ∈ m_permissions m;
}.

End persistence.

(** ** Lemmas *)

Lemma coordinator_inv_weaken c c' :
  pc_next_prompt_id c' = pc_next_prompt_id c →
  (pc_pending c' = pc_pending c ∨ pc_pending c' = None) →
  coordinator_inv c → coordinator_inv c'.
Proof.
  intros Hn Hp [H1 H2]. constructor; rewrite Hn; [done|].
  intros prompt Hpr. apply H2. destruct Hp; congruence.
Qed.

Lemma declares_find m p :
  declares m p = true ↔ is_Some (List.find (λ r, bool_decide (pr_name r = p)) (m_permissions m)).
Proof.
  unfold declares. induction (m_permissions m) as [|r l IH]; simpl.
  - split; [done|]. by intros [? ?].
  - case_bool_decide; simpl; [|done]. split; [by eexists|done].
Qed.

Lemma authorize_prompt_declares e m p : PermissionEngine_authorize e m p = AuthPrompt → declares m p = true.
Proof. unfold PermissionEngine_authorize. by destruct (declares m p). Qed.

Lemma coordinator_inv_request c m p :
  coordinator_inv c → coordinator_inv (PermissionCoordinator_request c m p).2.
Proof.
  intros Hi. unfold PermissionCoordinator_request.
  destruct (PermissionEngine_authorize _ _ _); [done..| |done].
  destruct (pc_pending c) as [prompt|] eqn:Hp; [by case_match|].
  destruct (List.find _ _) as [request|] eqn:Hf; [|done]. simpl.
  destruct Hi as [Hn _]. constructor; simpl; [apply wrapping_next_nonzero_range; lia|].
  intros prompt [= <-]. simpl. split_and!; [lia|lia| |].
  - apply not_eq_sym, wrapping_next_nonzero_ne. lia.
  - apply find_some_elem in Hf as [Hin Hname]. unbool_hyps. exists m. split_and!; [done..|].
    subst p. by destruct request.
Qed.

Lemma coordinator_inv_step `{Host} `{Codec PermissionStore} c c' :
  coordinator_step c c' → coordinator_inv c → coordinator_inv c'.
Proof.
  destruct 1 as [c m p|c id m choice w|c a|c m p w|c a w].
  - apply coordinator_inv_request.
  - apply coordinator_inv_weaken; unfold PermissionCoordinator_resolve;
      destruct (pc_pending c) eqn:?; simpl; try destruct (_ || _); simpl; auto;
      destruct (PermissionEngine_resolve _ _ _ _ _) as [[[] ?] ?]; simpl; auto.
  - apply coordinator_inv_weaken; unfold PermissionCoordinator_clear_app_session; simpl;
      destruct (pc_pending c) eqn:?; try case_bool_decide; simpl; auto.
  - apply coordinator_inv_weaken; unfold PermissionCoordinator_reset;
      destruct (PermissionEngine_reset _ _ _ _) as [[? ?] ?];
      destruct (pc_pending c) eqn:?; try case_match; simpl; auto.
  - apply coordinator_inv_weaken; unfold PermissionCoordinator_reset_app;
      destruct (pc_pending c) eqn:?; try case_bool_decide; simpl;
      destruct (PermissionEngine_reset_app _ _ _) as [[? ?] ?]; simpl; auto.
Qed.

Lemma store_validate_np s : PermissionStore_validate s ≠ Panicked.
Proof. unfold PermissionStore_validate. by repeat case_match. Qed.

Lemma engine_resolve_np `{Host} `{Codec PermissionStore} e m p choice w :
  (PermissionEngine_resolve e m p choice w).1.1 ≠ Panicked.
Proof.
  assert (∀ e, (engine_save e w).1.1 ≠ Panicked) as Hsave.
  { intros e'. destruct (engine_save_engine e' w) as (_&->&_).
    apply (never_panics_bind (io_lift _)); auto using store_validate_np with rust. }
  unfold PermissionEngine_resolve. case_match; [done|]. by destruct choice; [|apply Hsave..].
Qed.

(** The answers after a choice: its application and permission are decided, the
    others are as before. *)
Lemma authorize_after_resolve `{Host} `{Codec PermissionStore} e m p choice w m' q :
  declares m p = true →
  PermissionEngine_authorize (PermissionEngine_resolve e m p choice w).1.2 m' q =
  if bool_decide (m_id m = m_id m') && bool_decide (q = p) then
    (if negb (declares m' q) then AuthUndeclared
     else if decide (choice = Deny) then AuthDeny else AuthAllow)
  else PermissionEngine_authorize e m' q.
Proof.
  intros Hd. assert (∀ e, (engine_save e w).1.2 = e) as Hsave by (intros; apply engine_save_engine).
  unfold PermissionEngine_resolve, PermissionEngine_authorize. rewrite Hd. simpl.
  destruct choice; rewrite ?Hsave; simpl;
    rewrite ?decision_set, ?bool_decide_add, ?bool_decide_del;
    destruct (bool_decide _ && bool_decide _); simpl; repeat case_match; done.
Qed.

(** ** Properties *)

(** In every state the coordinator can reach, the prompt on the screen
    names a permission that a manifest of that application declares, with the
    reason of that manifest, and its id is not the next one to be handed out. *)
Theorem coordinator_reachable_inv `{Host} `{Codec PermissionStore} e c :
  rtc coordinator_step (PermissionCoordinator_new e) c → coordinator_inv c.
Proof.
  intros Hr. assert (coordinator_inv (PermissionCoordinator_new e)) as Hi
    by (by constructor; [unfold u64_max; simpl; lia|]).
  induction Hr; eauto using coordinator_inv_step.
Qed.

Lemma coordinator_reachable_inv_witness :
  let e := mkPermissionEngine "/p.json" PermissionStore_default ∅ in
  coordinator_inv (PermissionCoordinator_request (PermissionCoordinator_new e) hello_manifest AudioPlayback).2.
Proof.
  apply (@coordinator_reachable_inv calm_host permission_codec
    (mkPermissionEngine "/p.json" PermissionStore_default ∅)).
  eapply rtc_l; [|apply rtc_refl]. apply (@step_request calm_host permission_codec).
Defined.

(** Asking for a permission never panics, never opens a second prompt, and
    shows a prompt exactly when the permission is declared and undecided. *)
Theorem request_behaviour c m p :
  let run := PermissionCoordinator_request c m p in
  run.1 ≠ Panicked ∧ pc_engine run.2 = pc_engine c ∧
  match PermissionEngine_authorize (pc_engine c) m p, pc_pending c with
  | AuthPrompt, None =>
      ∃ prompt, run.1 = Ok (ReqPrompt prompt) ∧ pc_pending run.2 = Some prompt ∧
        prompt_id prompt = pc_next_prompt_id c ∧ pp_app_id prompt = m_id m ∧ pp_permission prompt = p
  | AuthPrompt, Some shown =>
      run.2 = c ∧ (run.1 = Ok (ReqPrompt shown) ∧ pp_app_id shown = m_id m ∧ pp_permission shown = p ∨
                   run.1 = Err (PromptBusy shown) ∧ (pp_app_id shown ≠ m_id m ∨ pp_permission shown ≠ p))
  | _, _ => run.2 = c ∧ ∀ prompt, run.1 ≠ Ok (ReqPrompt prompt)
  end.
Proof.
  simpl. unfold PermissionCoordinator_request.
  destruct (PermissionEngine_authorize (pc_engine c) m p) eqn:Ha; [done..| |done].
  destruct (pc_pending c) as [shown|] eqn:Hp.
  - destruct (bool_decide (pp_app_id shown = m_id m)) eqn:H1; simpl;
      [destruct (bool_decide (pp_permission shown = p)) eqn:H2|]; unbool_hyps; simpl; split_and!; auto.
  - apply authorize_prompt_declares, declares_find in Ha as [request ->]. simpl.
    split_and!; [done..|]. eexists. by split_and!.
Qed.

(** An answer takes effect only when it names the prompt on the screen and
    its application; then it decides that application and permission and no
    other, and the prompt closes.  A stale or missing prompt changes nothing. *)
Theorem answer_bound_to_prompt `{Host} `{Codec PermissionStore} c id m choice w :
  let run := PermissionCoordinator_resolve c id m choice w in
  match run.1.1 with
  | Ok prompt =>
      pc_pending c = Some prompt ∧ prompt_id prompt = id ∧ pp_app_id prompt = m_id m ∧
      pc_pending run.1.2 = None ∧
      PermissionCoordinator_authorization run.1.2 m (pp_permission prompt)
        = (if decide (choice = Deny) then AuthDeny else AuthAllow) ∧
      (∀ m' q, m_id m' ≠ m_id m ∨ q ≠ pp_permission prompt →
        PermissionCoordinator_authorization run.1.2 m' q = PermissionCoordinator_authorization c m' q)
  | Err (PromptPermission _) => pc_pending run.1.2 = pc_pending c
  | Err _ => run = ((run.1.1, c), w)
  | Panicked => False
  end.
Proof.
  simpl. unfold PermissionCoordinator_resolve.
  destruct (pc_pending c) as [prompt|] eqn:Hp; [|done].
  destruct (negb _ || negb _) eqn:E; [done|]. unbool_hyps.
  pose proof (engine_resolve_np (pc_engine c) m (pp_permission prompt) choice w) as Hnp.
  pose proof (λ m' q, authorize_after_resolve (pc_engine c) m (pp_permission prompt) choice w m' q) as Ha.
  destruct (declares m (pp_permission prompt)) eqn:Hd;
    [|unfold PermissionEngine_resolve; by rewrite Hd].
  destruct (PermissionEngine_resolve _ _ _ _ _) as [[[[]|err|] e'] w']; simpl in *; [|done|done].
  unfold PermissionCoordinator_authorization. simpl. split_and!; [done..| |].
  - by rewrite Ha, !bool_decide_eq_true_2, Hd by done.
  - intros m' q Hne. rewrite Ha by done.
    rewrite (proj2 (andb_false_iff _ _)); [done|].
    rewrite !bool_decide_eq_false. destruct Hne; auto.
Qed.

(** When the database cannot be written, the error reaches the caller and
    the prompt stays on the screen, but a permanent grant is already in effect
    for the rest of the session. *)
Theorem failed_save_still_grants `{Host} `{Codec PermissionStore} c prompt m w err :
  pc_pending c = Some prompt → pp_app_id prompt = m_id m → declares m (pp_permission prompt) = true →
  let run := PermissionCoordinator_resolve c (prompt_id prompt) m AllowAlways w in
  run.1.1 = Err err →
  pc_pending run.1.2 = Some prompt ∧
  PermissionCoordinator_request run.1.2 m (pp_permission prompt) = (Ok ReqAllow, run.1.2).
Proof.
  intros Hp Hid Hd run. unfold run, PermissionCoordinator_resolve.
  rewrite Hp, Z.eqb_refl, bool_decide_eq_true_2 by done. simpl.
  pose proof (authorize_after_resolve (pc_engine c) m (pp_permission prompt) AllowAlways w m
    (pp_permission prompt) Hd) as Ha.
  rewrite !bool_decide_eq_true_2, Hd in Ha by done. simpl in Ha.
  destruct (PermissionEngine_resolve _ _ _ _ _) as [[[[]|e|] e'] w']; simpl in *; [done| |done].
  intros _. split; [done|]. unfold PermissionCoordinator_request. simpl. by rewrite Ha.
Qed.

Definition pending_coordinator : PermissionCoordinator :=
  (PermissionCoordinator_request
    (PermissionCoordinator_new (mkPermissionEngine "/p.json" PermissionStore_default ∅))
    hello_manifest AudioPlayback).2.

Lemma failed_save_still_grants_witness :
  let run := @PermissionCoordinator_resolve calm_host permission_codec pending_coordinator 1 hello_manifest
    AllowAlways empty_world in
  run.1.1 = Err (PromptPermission PermJson) ∧
  PermissionCoordinator_request run.1.2 hello_manifest AudioPlayback = (Ok ReqAllow, run.1.2).
Proof.
  split; [by vm_compute|].
  apply (@failed_save_still_grants calm_host permission_codec pending_coordinator
    (mkPermissionPrompt 1 "dev.cardputerzero.hello" "Hello Card" AudioPlayback "Play the user-requested audio test tone")
    hello_manifest empty_world (PromptPermission PermJson)); by vm_compute.
Defined.
