(* ===== verification/Tasks.v ===== *)
(** * The task registry (crates/cp0-appd/src/tasks.rs)

    The tasks the switcher shows: at most [capacity] of them in creation order,
    at most one in the foreground.  Task ids and activation sequence numbers
    come from two 64-bit counters.  A method of the source that takes
    [&mut self] is a function to its outcome and the registry it leaves.

    The theorems: [restore] accepts exactly the snapshots of well-formed
    registries; every operation keeps the registry well-formed while the
    counters have not run through 64 bits, so a snapshot always restores; no
    [expect] fails; launching evicts the oldest task and nothing else; the
    switcher shows the tasks by recency with the foreground task first. *)

From S2P Require Import Prelude RustStr Manifest.

Definition MAX_TASKS : nat := 10.
Definition TASK_SNAPSHOT_SCHEMA_VERSION : Z := 1.

Inductive TaskState := Foreground | Background | Frozen | Checkpointed | Crashed.
Global Instance TaskState_eq_dec : EqDecision TaskState.
Proof. solve_decision. Defined.

Definition TaskState_is_resident (s : TaskState) : bool :=
  match s with Foreground | Background | Frozen => true | _ => false end.

Inductive CheckpointFailure := CkUnsupported | CkTimeout | CkFailed | CkTooLarge | CkVersionMismatch.
Global Instance CheckpointFailure_eq_dec : EqDecision CheckpointFailure.
Proof. solve_decision. Defined.

Inductive CheckpointStatus :=
  | NotRequested
  | Available (schema_version bytes : Z)
  | Unavailable (reason : CheckpointFailure).
Global Instance CheckpointStatus_eq_dec : EqDecision CheckpointStatus.
Proof. solve_decision. Defined.

Definition CheckpointStatus_is_available (s : CheckpointStatus) : bool :=
  match s with Available _ _ => true | _ => false end.

Record RuntimeBinding := mkRuntimeBinding { token : Z; unit_name : string }.
Global Instance RuntimeBinding_eq_dec : EqDecision RuntimeBinding.
Proof. solve_decision. Defined.

Record TaskRecord := mkTaskRecord {
  task_id : Z;
  t_app_id : string;
  t_version : string;
  t_state : TaskState;
  created_sequence : Z;
  last_activated_sequence : Z;
  t_checkpoint : CheckpointStatus;
  thumbnail_generation : option Z;
  t_runtime : option RuntimeBinding;
}.
Global Instance TaskRecord_eq_dec : EqDecision TaskRecord.
Proof. solve_decision. Defined.

Record TaskRegistrySnapshot := mkTaskRegistrySnapshot {
  sn_schema_version : Z;
  sn_capacity : nat;
  sn_next_task_id : Z;
  sn_next_sequence : Z;
  sn_tasks : list TaskRecord;
}.

Record EvictionCheckpoint := mkEvictionCheckpoint { ev_task_id : Z; ev_status : CheckpointStatus }.
Record EvictedTask := mkEvictedTask { evicted_task : TaskRecord; evicted_checkpoint : CheckpointStatus }.
Record LaunchOutcome := mkLaunchOutcome {
  lo_task_id : Z; lo_backgrounded : option Z; lo_evicted : option EvictedTask }.
Record ActivationOutcome := mkActivationOutcome {
  ao_task_id : Z; ao_backgrounded : option Z; ao_requires_thaw : bool }.

Inductive SnapshotInvalid :=
  | SnapSchema | SnapCapacity | SnapTooMany | SnapInvariants | SnapZeroNext | SnapIdentity
  | SnapDuplicate | SnapRuntime | SnapThumbnail | SnapCheckpoint | SnapReuse.

Inductive TaskError :=
  | InvalidCapacity
  | InvalidRuntimeToken
  | InvalidRuntimeUnit
  | AppAlreadyResident (app_id : string)
  | TaskNotFound (id : Z)
  | TaskNotResident (id : Z)
  | ForegroundCannotFreeze (id : Z)
  | ForegroundCannotCheckpoint (id : Z)
  | MissingEvictionCheckpoint (id : Z)
  | UnexpectedEvictionCheckpoint (id : Z)
  | StaleEvictionCheckpoint (expected provided : Z)
  | InvalidSnapshot (why : SnapshotInvalid).

Definition RuntimeBinding_new (token : Z) (unit : string) : result TaskError RuntimeBinding :=
  if (token =? 0)%Z then Err InvalidRuntimeToken
  else if str_is_empty unit then Err InvalidRuntimeUnit
  else Ok {| token := token; unit_name := unit |}.

Record TaskRegistry := mkTaskRegistry {
  capacity : nat;
  next_task_id : Z;
  next_sequence : Z;
  tasks : list TaskRecord;
}.

Definition TaskRegistry_new (capacity : nat) : result TaskError TaskRegistry :=
  if (capacity =? 0)%nat then Err InvalidCapacity
  else Ok {| capacity := capacity; next_task_id := 1; next_sequence := 1; tasks := [] |}.

Definition set_tasks (l : list TaskRecord) (r : TaskRegistry) : TaskRegistry :=
  {| capacity := capacity r; next_task_id := next_task_id r; next_sequence := next_sequence r;
     tasks := l |}.
Definition set_state (s : TaskState) (t : TaskRecord) : TaskRecord :=
  {| task_id := task_id t; t_app_id := t_app_id t; t_version := t_version t; t_state := s;
     created_sequence := created_sequence t; last_activated_sequence := last_activated_sequence t;
     t_checkpoint := t_checkpoint t; thumbnail_generation := thumbnail_generation t;
     t_runtime := t_runtime t |}.

(** ** Queries *)

Definition is_foreground (t : TaskRecord) : bool := bool_decide (t_state t = Foreground).
Definition has_id (id : Z) (t : TaskRecord) : bool := (task_id t =? id)%Z.
Definition has_token (tok : Z) (t : TaskRecord) : bool :=
  match t_runtime t with Some b => (token b =? tok)%Z | None => false end.

Definition TaskRegistry_foreground (r : TaskRegistry) : option TaskRecord :=
  List.find is_foreground (tasks r).
Definition TaskRegistry_task (r : TaskRegistry) (id : Z) : option TaskRecord :=
  List.find (has_id id) (tasks r).
Definition TaskRegistry_task_for_app (r : TaskRegistry) (app_id : string) : option TaskRecord :=
  List.find (λ t, bool_decide (t_app_id t = app_id)) (tasks r).
Definition TaskRegistry_oldest_task (r : TaskRegistry) : option TaskRecord := head (tasks r).

(** [sort_by_key(|task| Reverse(task.last_activated_sequence))]. *)
Definition TaskRegistry_switcher_order (r : TaskRegistry) : list TaskRecord :=
  stable_sort (λ x y, (last_activated_sequence y <=? last_activated_sequence x)%Z) (tasks r).

Definition TaskRegistry_snapshot (r : TaskRegistry) : TaskRegistrySnapshot :=
  {| sn_schema_version := TASK_SNAPSHOT_SCHEMA_VERSION; sn_capacity := capacity r;
     sn_next_task_id := next_task_id r; sn_next_sequence := next_sequence r; sn_tasks := tasks r |}.

(** ** Validation *)

Definition TaskRegistry_invariants_hold (r : TaskRegistry) : bool :=
  (length (tasks r) <=? capacity r)%nat
  && windows2_all (λ x y, (created_sequence x <? created_sequence y)%Z) (tasks r)
  && (count_if is_foreground (tasks r) <=? 1)%nat
  && forallb (λ t, Bool.eqb (TaskState_is_resident (t_state t)) (bool_decide (is_Some (t_runtime t)))
                   && negb (task_id t =? 0)%Z && negb (created_sequence t =? 0)%Z
                   && negb (last_activated_sequence t =? 0)%Z) (tasks r).

Definition valid_unit (u : string) : bool :=
  (String.length u <=? 128)%nat && starts_with "cardputerzero-app-" u && ends_with ".service" u.

Definition valid_checkpoint (c : CheckpointStatus) : bool :=
  match c with
  | Available schema_version bytes => negb ((schema_version =? 0)%Z || (8 * 1024 <? bytes)%Z)
  | _ => true
  end.

(** The loop of [validate_snapshot]; returns the largest id and sequence. *)
Fixpoint validate_tasks (task_ids : gset Z) (app_ids : gset string) (runtime_tokens : gset Z)
    (max_task_id max_sequence : Z) (l : list TaskRecord) : result TaskError (Z * Z) :=
  match l with
  | [] => Ok (max_task_id, max_sequence)
  | t :: l =>
      if negb (is_valid_app_id (t_app_id t)) || negb (is_valid_app_version (t_version t))
      then Err (InvalidSnapshot SnapIdentity)
      else if bool_decide (task_id t ∈ task_ids) || bool_decide (t_app_id t ∈ app_ids)
      then Err (InvalidSnapshot SnapDuplicate)
      else if match t_runtime t with
              | Some b => negb (valid_unit (unit_name b)) || bool_decide (token b ∈ runtime_tokens)
              | None => false
              end
      then Err (InvalidSnapshot SnapRuntime)
      else if bool_decide (thumbnail_generation t = Some 0%Z) then Err (InvalidSnapshot SnapThumbnail)
      else if negb (valid_checkpoint (t_checkpoint t)) then Err (InvalidSnapshot SnapCheckpoint)
      else
        validate_tasks ({[task_id t]} ∪ task_ids) ({[t_app_id t]} ∪ app_ids)
          (match t_runtime t with Some b => {[token b]} ∪ runtime_tokens | None => runtime_tokens end)
          (Z.max max_task_id (task_id t))
          (Z.max (Z.max max_sequence (created_sequence t)) (last_activated_sequence t)) l
  end.

Definition TaskRegistry_validate_snapshot (r : TaskRegistry) : result TaskError unit :=
  if negb (TaskRegistry_invariants_hold r) then Err (InvalidSnapshot SnapInvariants)
  else if (next_task_id r =? 0)%Z || (next_sequence r =? 0)%Z then Err (InvalidSnapshot SnapZeroNext)
  else
    let? 'maxima := validate_tasks ∅ ∅ ∅ 0 0 (tasks r) in
    if (next_task_id r <=? maxima.1)%Z || (next_sequence r <=? maxima.2)%Z
    then Err (InvalidSnapshot SnapReuse)
    else Ok tt.

Definition TaskRegistry_restore (s : TaskRegistrySnapshot) : result TaskError TaskRegistry :=
  if negb (sn_schema_version s =? TASK_SNAPSHOT_SCHEMA_VERSION)%Z then Err (InvalidSnapshot SnapSchema)
  else if (sn_capacity s =? 0)%nat || (MAX_TASKS <? sn_capacity s)%nat
  then Err (InvalidSnapshot SnapCapacity)
  else if (sn_capacity s <? length (sn_tasks s))%nat then Err (InvalidSnapshot SnapTooMany)
  else
    let registry := {| capacity := sn_capacity s; next_task_id := sn_next_task_id s;
                       next_sequence := sn_next_sequence s; tasks := sn_tasks s |} in
    let? _ := TaskRegistry_validate_snapshot registry in
    Ok registry.

(** ** Operations *)

Definition TaskRegistry_take_sequence (r : TaskRegistry) : Z * TaskRegistry :=
  (next_sequence r,
   {| capacity := capacity r; next_task_id := next_task_id r;
      next_sequence := next_or_one (next_sequence r); tasks := tasks r |}).

Definition TaskRegistry_background_foreground (r : TaskRegistry) (except : option Z)
    : option Z * TaskRegistry :=
  let f t := is_foreground t && negb (bool_decide (Some (task_id t) = except)) in
  (task_id <$> List.find f (tasks r), set_tasks (update_first f (set_state Background) (tasks r)) r).

(** The modification that bringing a task to the foreground makes. *)
Definition bring_to_front (sequence : Z) (t : TaskRecord) : TaskRecord :=
  {| task_id := task_id t; t_app_id := t_app_id t; t_version := t_version t; t_state := Foreground;
     created_sequence := created_sequence t; last_activated_sequence := sequence;
     t_checkpoint := t_checkpoint t; thumbnail_generation := thumbnail_generation t;
     t_runtime := t_runtime t |}.
Definition relaunch (sequence : Z) (version : string) (runtime : RuntimeBinding) (t : TaskRecord)
    : TaskRecord :=
  {| task_id := task_id t; t_app_id := t_app_id t; t_version := version; t_state := Foreground;
     created_sequence := created_sequence t; last_activated_sequence := sequence;
     t_checkpoint := t_checkpoint t; thumbnail_generation := thumbnail_generation t;
     t_runtime := Some runtime |}.

Definition TaskRegistry_evict_capacity_victim (r : TaskRegistry) (eviction : EvictionCheckpoint)
    : result TaskError EvictedTask * TaskRegistry :=
  if negb (length (tasks r) =? capacity r)%nat
  then (Err (UnexpectedEvictionCheckpoint (ev_task_id eviction)), r)
  else match tasks r with
  | [] => (Panicked, r)
  | oldest :: rest =>
      if negb (task_id oldest =? ev_task_id eviction)%Z
      then (Err (StaleEvictionCheckpoint (task_id oldest) (ev_task_id eviction)), r)
      else (Ok {| evicted_task := oldest; evicted_checkpoint := ev_status eviction |}, set_tasks rest r)
  end.

(** The end of [launch]: the new task in the foreground. *)
Definition launch_new (r : TaskRegistry) (app_id version : string) (runtime : RuntimeBinding)
    (evicted : option EvictedTask) : result TaskError LaunchOutcome * TaskRegistry :=
  let '(backgrounded, r) := TaskRegistry_background_foreground r None in
  let id := next_task_id r in
  let '(sequence, r) := TaskRegistry_take_sequence
    {| capacity := capacity r; next_task_id := next_or_one (next_task_id r);
       next_sequence := next_sequence r; tasks := tasks r |} in
  (Ok {| lo_task_id := id; lo_backgrounded := backgrounded; lo_evicted := evicted |},
   set_tasks (tasks r ++ [{| task_id := id; t_app_id := app_id; t_version := version;
                             t_state := Foreground; created_sequence := sequence;
                             last_activated_sequence := sequence; t_checkpoint := NotRequested;
                             thumbnail_generation := None; t_runtime := Some runtime |}]) r).

Definition TaskRegistry_launch (r : TaskRegistry) (app_id version : string) (runtime : RuntimeBinding)
    (eviction : option EvictionCheckpoint) : result TaskError LaunchOutcome * TaskRegistry :=
  match TaskRegistry_task_for_app r app_id with
  | Some existing =>
      if TaskState_is_resident (t_state existing) then (Err (AppAlreadyResident app_id), r)
      else match eviction with
      | Some eviction => (Err (UnexpectedEvictionCheckpoint (ev_task_id eviction)), r)
      | None =>
          let id := task_id existing in
          let '(backgrounded, r) := TaskRegistry_background_foreground r (Some id) in
          let '(sequence, r) := TaskRegistry_take_sequence r in
          match TaskRegistry_task r id with
          | None => (Panicked, r)
          | Some _ =>
              (Ok {| lo_task_id := id; lo_backgrounded := backgrounded; lo_evicted := None |},
               set_tasks (update_first (has_id id) (relaunch sequence version runtime) (tasks r)) r)
          end
      end
  | None =>
      if (length (tasks r) =? capacity r)%nat then
        match tasks r with
        | [] => (Panicked, r)
        | oldest :: _ =>
            match eviction with
            | None => (Err (MissingEvictionCheckpoint (task_id oldest)), r)
            | Some eviction =>
                match TaskRegistry_evict_capacity_victim r eviction with
                | (Ok evicted, r) => launch_new r app_id version runtime (Some evicted)
                | (Err e, r) => (Err e, r)
                | (Panicked, r) => (Panicked, r)
                end
            end
        end
      else match eviction with
      | Some eviction => (Err (UnexpectedEvictionCheckpoint (ev_task_id eviction)), r)
      | None => launch_new r app_id version runtime None
      end
  end.

Definition TaskRegistry_activate (r : TaskRegistry) (id : Z)
    : result TaskError ActivationOutcome * TaskRegistry :=
  match TaskRegistry_task r id with
  | None => (Err (TaskNotFound id), r)
  | Some t =>
      if negb (TaskState_is_resident (t_state t)) then (Err (TaskNotResident id), r)
      else
        let requires_thaw := bool_decide (t_state t = Frozen) in
        let '(backgrounded, r) := TaskRegistry_background_foreground r (Some id) in
        let '(sequence, r) := TaskRegistry_take_sequence r in
        match TaskRegistry_task r id with
        | None => (Panicked, r)
        | Some _ =>
            (Ok {| ao_task_id := id; ao_backgrounded := backgrounded; ao_requires_thaw := requires_thaw |},
             set_tasks (update_first (has_id id) (bring_to_front sequence) (tasks r)) r)
        end
  end.

Definition TaskRegistry_freeze (r : TaskRegistry) (id : Z) : result TaskError unit * TaskRegistry :=
  match TaskRegistry_task r id with
  | None => (Err (TaskNotFound id), r)
  | Some t =>
      match t_state t with
      | Foreground => (Err (ForegroundCannotFreeze id), r)
      | Background | Frozen =>
          (Ok tt, set_tasks (update_first (has_id id) (set_state Frozen) (tasks r)) r)
      | Checkpointed | Crashed => (Err (TaskNotResident id), r)
      end
  end.

Definition set_checkpointed (status : CheckpointStatus) (t : TaskRecord) : TaskRecord :=
  {| task_id := task_id t; t_app_id := t_app_id t; t_version := t_version t; t_state := Checkpointed;
     created_sequence := created_sequence t; last_activated_sequence := last_activated_sequence t;
     t_checkpoint := status; thumbnail_generation := thumbnail_generation t; t_runtime := None |}.

Definition TaskRegistry_checkpoint (r : TaskRegistry) (id : Z) (status : CheckpointStatus)
    : result TaskError unit * TaskRegistry :=
  match TaskRegistry_task r id with
  | None => (Err (TaskNotFound id), r)
  | Some t =>
      if bool_decide (t_state t = Foreground) then (Err (ForegroundCannotCheckpoint id), r)
      else (Ok tt, set_tasks (update_first (has_id id) (set_checkpointed status) (tasks r)) r)
  end.

Definition set_crashed (t : TaskRecord) : TaskRecord :=
  {| task_id := task_id t; t_app_id := t_app_id t; t_version := t_version t; t_state := Crashed;
     created_sequence := created_sequence t; last_activated_sequence := last_activated_sequence t;
     t_checkpoint := t_checkpoint t; thumbnail_generation := thumbnail_generation t;
     t_runtime := None |}.

Definition TaskRegistry_runtime_exited (r : TaskRegistry) (runtime_token : Z)
    : option Z * TaskRegistry :=
  match List.find (has_token runtime_token) (tasks r) with
  | None => (None, r)
  | Some t => (Some (task_id t), set_tasks (update_first (has_token runtime_token) set_crashed (tasks r)) r)
  end.

Definition set_thumbnail (generation : Z) (t : TaskRecord) : TaskRecord :=
  {| task_id := task_id t; t_app_id := t_app_id t; t_version := t_version t; t_state := t_state t;
     created_sequence := created_sequence t; last_activated_sequence := last_activated_sequence t;
     t_checkpoint := t_checkpoint t; thumbnail_generation := Some generation;
     t_runtime := t_runtime t |}.

Definition TaskRegistry_update_thumbnail (r : TaskRegistry) (id generation : Z)
    : result TaskError unit * TaskRegistry :=
  match TaskRegistry_task r id with
  | None => (Err (TaskNotFound id), r)
  | Some _ => (Ok tt, set_tasks (update_first (has_id id) (set_thumbnail generation) (tasks r)) r)
  end.

Definition TaskRegistry_close (r : TaskRegistry) (id : Z) : result TaskError TaskRecord * TaskRegistry :=
  match position (has_id id) (tasks r) with
  | None => (Err (TaskNotFound id), r)
  | Some index =>
      match tasks r !! index with
      | Some t => (Ok t, set_tasks (vec_remove index (tasks r)) r)
      | None => (Panicked, r)
      end
  end.

(** ** The invariant *)

Definition tokens (l : list TaskRecord) : list Z := omap (λ t, token <$> t_runtime t) l.

Record task_wf (t : TaskRecord) : Prop := {
  tw_resident : TaskState_is_resident (t_state t) = bool_decide (is_Some (t_runtime t));
  tw_id : task_id t ≠ 0%Z;
  tw_created : created_sequence t ≠ 0%Z;
  tw_activated : last_activated_sequence t ≠ 0%Z;
  tw_app : is_valid_app_id (t_app_id t) = true;
  tw_version : is_valid_app_version (t_version t) = true;
  tw_unit : ∀ b, t_runtime t = Some b → valid_unit (unit_name b) = true;
  tw_thumbnail : thumbnail_generation t ≠ Some 0%Z;
  tw_checkpoint : valid_checkpoint (t_checkpoint t) = true;
}.

Definition created_lt (x y : TaskRecord) : Prop := (created_sequence x < created_sequence y)%Z.

Record tasks_wf (r : TaskRegistry) : Prop := {
  kw_length : (length (tasks r) ≤ capacity r)%nat;
  kw_order : StronglySorted created_lt (tasks r);
  kw_foreground : (count_if is_foreground (tasks r) ≤ 1)%nat;
  kw_tasks : Forall task_wf (tasks r);
  kw_ids : NoDup (map task_id (tasks r));
  kw_apps : NoDup (map t_app_id (tasks r));
  kw_tokens : NoDup (tokens (tasks r));
  kw_below : Forall (λ t, (task_id t < next_task_id r)%Z ∧ (created_sequence t < next_sequence r)%Z ∧
                          (last_activated_sequence t < next_sequence r)%Z) (tasks r);
  kw_next : (0 < next_task_id r)%Z ∧ (0 < next_sequence r)%Z;
}.

(** ** The validator decides the invariant *)

Global Instance created_lt_trans : Transitive created_lt.
Proof. intros x y z. unfold created_lt. lia. Qed.

Lemma invariants_hold_iff r :
  TaskRegistry_invariants_hold r = true ↔
  (length (tasks r) ≤ capacity r)%nat ∧
  StronglySorted created_lt (tasks r) ∧
  (count_if is_foreground (tasks r) ≤ 1)%nat ∧
  Forall (λ t, TaskState_is_resident (t_state t) = bool_decide (is_Some (t_runtime t)) ∧
    task_id t ≠ 0%Z ∧ created_sequence t ≠ 0%Z ∧ last_activated_sequence t ≠ 0%Z) (tasks r).
Proof.
  unfold TaskRegistry_invariants_hold. rewrite !andb_true_iff, !Nat.leb_le, forallb_Forall.
  rewrite (windows2_all_StronglySorted created_lt _ (λ x y, Z.ltb_lt _ _)).
  match goal with |- _ ∧ Forall ?P _ ↔ _ ∧ _ ∧ _ ∧ Forall ?Q _ => assert (∀ t, P t ↔ Q t) as HPQ end.
  { intros t. rewrite !andb_true_iff, !negb_true_iff, !Z.eqb_neq, eqb_true_iff. tauto. }
  rewrite (Forall_iff _ _ _ HPQ). tauto.
Qed.

(** The checks of the loop that concern one task. *)
Record record_ok (t : TaskRecord) : Prop := {
  ro_app : is_valid_app_id (t_app_id t) = true;
  ro_version : is_valid_app_version (t_version t) = true;
  ro_unit : ∀ b, t_runtime t = Some b → valid_unit (unit_name b) = true;
  ro_thumbnail : thumbnail_generation t ≠ Some 0%Z;
  ro_checkpoint : valid_checkpoint (t_checkpoint t) = true;
}.

Definition maxima (m : Z * Z) (l : list TaskRecord) : Z * Z :=
  foldl (λ m t, (Z.max m.1 (task_id t),
                 Z.max (Z.max m.2 (created_sequence t)) (last_activated_sequence t))) m l.

Lemma maxima_below i s m l :
  ((maxima m l).1 < i ∧ (maxima m l).2 < s)%Z ↔
  (m.1 < i ∧ m.2 < s)%Z ∧
  Forall (λ t, task_id t < i ∧ created_sequence t < s ∧ last_activated_sequence t < s)%Z l.
Proof.
  revert m. induction l as [|t l IH]; intros m; simpl; [rewrite Forall_nil; tauto|].
  rewrite IH, Forall_cons. simpl. rewrite !Z.max_lub_lt_iff. tauto.
Qed.

Lemma validate_tasks_ok ids apps toks i s l :
  Forall record_ok l →
  NoDup (map task_id l) → Forall (λ t, task_id t ∉ ids) l →
  NoDup (map t_app_id l) → Forall (λ t, t_app_id t ∉ apps) l →
  NoDup (tokens l) → Forall (λ k, k ∉ toks) (tokens l) →
  validate_tasks ids apps toks i s l = Ok (maxima (i, s) l).
Proof.
  revert ids apps toks i s. induction l as [|t l IH]; intros ids apps toks i s Hok Hni Hi Hna Ha Hnt Ht; [done|].
  apply Forall_cons in Hok as [[Ho1 Ho2 Ho3 Ho4 Ho5] Hok]. simpl in Hni, Hna.
  apply NoDup_cons in Hni as [Hni1 Hni], Hna as [Hna1 Hna].
  apply Forall_cons in Hi as [Hi1 Hi], Ha as [Ha1 Ha]. simpl.
  rewrite Ho1, Ho2, (bool_decide_eq_false_2 _ Hi1), (bool_decide_eq_false_2 _ Ha1). simpl.
  assert (match t_runtime t with
          | Some b => negb (valid_unit (unit_name b)) || bool_decide (token b ∈ toks)
          | None => false end = false) as ->.
  { unfold tokens in Ht. simpl in Ht. destruct (t_runtime t) as [b|]; [|done]. simpl in Ht.
    apply Forall_cons in Ht as [Ht1 _]. by rewrite (Ho3 b), bool_decide_eq_false_2. }
  rewrite (bool_decide_eq_false_2 _ Ho4), Ho5. simpl. apply IH; auto.
  - rewrite Forall_forall in *. intros x Hx. rewrite elem_of_union, elem_of_singleton.
    intros [Heq|?]; [|by apply (Hi x)]. apply Hni1. rewrite <- Heq. by apply list_elem_of_fmap_2.
  - rewrite Forall_forall in *. intros x Hx. rewrite elem_of_union, elem_of_singleton.
    intros [Heq|?]; [|by apply (Ha x)]. apply Hna1. rewrite <- Heq. by apply list_elem_of_fmap_2.
  - unfold tokens in *. simpl in *. destruct (t_runtime t); [|done]. by apply NoDup_cons in Hnt as [_ ?].
  - unfold tokens in *. simpl in *. destruct (t_runtime t) as [b|]; [|done]. simpl in *.
    apply Forall_cons in Ht as [_ Ht]. apply NoDup_cons in Hnt as [Hnt1 _].
    rewrite Forall_forall in *. intros k Hk. rewrite elem_of_union, elem_of_singleton.
    intros [->|?]; [done|by apply (Ht k)].
Qed.

Lemma validate_tasks_inv ids apps toks i s l out :
  validate_tasks ids apps toks i s l = Ok out →
  out = maxima (i, s) l ∧ Forall record_ok l ∧
  (NoDup (map task_id l) ∧ Forall (λ t, task_id t ∉ ids) l) ∧
  (NoDup (map t_app_id l) ∧ Forall (λ t, t_app_id t ∉ apps) l) ∧
  (NoDup (tokens l) ∧ Forall (λ k, k ∉ toks) (tokens l)).
Proof.
  revert ids apps toks i s. induction l as [|t l IH]; intros ids apps toks i s; simpl.
  { intros [= <-]. split_and!; done || constructor. }
  intros Hv. repeat (case_match; [done|]).
  match type of Hv with validate_tasks _ _ ?k _ _ _ = _ => set (toks' := k) in * end.
  apply IH in Hv as (->&Hok&[Hni Hi]&[Hna Ha]&[Hnt Ht]). unbool_hyps.
  rewrite !NoDup_cons, !Forall_cons. rewrite !list_elem_of_fmap. rewrite Forall_forall in Hi, Ha.
  setoid_rewrite elem_of_union in Hi. setoid_rewrite elem_of_singleton in Hi.
  setoid_rewrite elem_of_union in Ha. setoid_rewrite elem_of_singleton in Ha.
  split_and!; [done| |done| |done|done| | |done|done| | |].
  - constructor; auto. intros b Hb. match goal with H : match t_runtime t with _ => _ end = false |- _ =>
      rewrite Hb in H end. by unbool_hyps.
  - intros (x&Heq&Hx). eapply Hi; eauto.
  - rewrite Forall_forall. intros x Hx ?. eapply Hi; eauto.
  - intros (x&Heq&Hx). eapply Ha; eauto.
  - rewrite Forall_forall. intros x Hx ?. eapply Ha; eauto.
  - unfold tokens in *. simpl. destruct (t_runtime t) as [b|]; [|done]. simpl.
    rewrite Forall_forall in Ht. constructor; [|done]. intros Hin. eapply Ht; [done|]. set_solver.
  - unfold tokens in *. simpl. destruct (t_runtime t) as [b|]; [|done]. simpl. unbool_hyps.
    constructor; [done|]. eapply Forall_impl; [exact Ht|]. set_solver.
Qed.

Lemma validate_snapshot_wf r : TaskRegistry_validate_snapshot r = Ok tt ↔ tasks_wf r.
Proof.
  unfold TaskRegistry_validate_snapshot. split.
  - intros Hv. repeat (case_match; [done|]). case_match eqn:Hva; [|done|done]. case_match eqn:Hmax; [done|].
    apply validate_tasks_inv in Hva as (->&Hok&[Hni _]&[Hna _]&[Hnt _]). unbool_hyps.
    match goal with H : TaskRegistry_invariants_hold r = true |- _ =>
      apply invariants_hold_iff in H as (Hl&Ho&Hf&Ht) end.
    destruct (proj1 (maxima_below (next_task_id r) (next_sequence r) (0, 0)%Z (tasks r))) as [[??] Hb];
      [simpl in *; lia|].
    constructor; auto. rewrite Forall_forall in *. intros t Hin.
    destruct (Hok t Hin), (Ht t Hin) as (?&?&?&?). by constructor.
  - intros [Hl Ho Hf Ht Hni Hna Hnt Hb [H1 H2]].
    assert (TaskRegistry_invariants_hold r = true) as ->.
    { apply invariants_hold_iff. split_and!; auto. eapply Forall_impl; [exact Ht|]. intros t []. by split_and!. }
    simpl. rewrite !(proj2 (Z.eqb_neq _ _)) by lia. simpl.
    rewrite validate_tasks_ok; auto.
    + destruct (proj2 (maxima_below (next_task_id r) (next_sequence r) (0, 0)%Z (tasks r))) as [??]; [done|].
      by rewrite !(proj2 (Z.leb_gt _ _)).
    + eapply Forall_impl; [exact Ht|]. intros t []. by constructor.
    + apply Forall_true. set_solver.
    + apply Forall_true. set_solver.
    + apply Forall_true. set_solver.
Qed.

Lemma restore_snapshot_iff s r :
  TaskRegistry_restore s = Ok r ↔
  s = TaskRegistry_snapshot r ∧ (1 ≤ capacity r ≤ MAX_TASKS)%nat ∧ tasks_wf r.
Proof.
  unfold TaskRegistry_restore. split.
  - intros Hr. repeat (case_match; [done|]). case_match eqn:Hv; [|done|done]. simplify_eq.
    match type of Hv with _ = Ok ?u => destruct u end. apply validate_snapshot_wf in Hv. unbool_hyps.
    split_and!; [|simpl; lia..|done]. destruct s. simpl in *. by subst.
  - intros (->&[??]&Hwf). simpl. pose proof (kw_length _ Hwf). unfold MAX_TASKS in *.
    rewrite (proj2 (Nat.eqb_neq _ _)), !(proj2 (Nat.ltb_ge _ _)) by lia. simpl.
    rewrite (proj2 (validate_snapshot_wf _)); [by destruct r|by destruct r].
Qed.

(** ** Updates of one task *)

Section update.
  Context (f : TaskRecord → bool) (g : TaskRecord → TaskRecord).

Lemma count_if_update_first_le (h : TaskRecord → bool) l :
  (∀ t, t ∈ l → f t = true → h (g t) = true → h t = true) →
  (count_if h (update_first f g l) ≤ count_if h l)%nat.
Proof.
  unfold count_if. induction l as [|t l IH]; intros Hh; simpl; [done|].
  assert (∀ t, t ∈ l → f t = true → h (g t) = true → h t = true) as Hh' by (intros; apply Hh; auto using list_elem_of_further).
  destruct (f t) eqn:E; simpl.
  - destruct (h (g t)) eqn:Eg; [rewrite (Hh t) by (auto using list_elem_of_here); done|].
    destruct (h t); simpl; lia.
  - specialize (IH Hh'). destruct (h t); simpl; lia.
Qed.

Lemma tokens_cons t l : tokens (t :: l) = match t_runtime t with Some b => token b :: tokens l | None => tokens l end.
Proof. unfold tokens. simpl. by destruct (t_runtime t). Qed.

Lemma tokens_elem l k : k ∈ tokens l ↔ ∃ t b, t ∈ l ∧ t_runtime t = Some b ∧ token b = k.
Proof.
  unfold tokens. rewrite list_elem_of_omap. split.
  - intros (t&Ht&Hk). destruct (t_runtime t) eqn:Hb; simplify_eq/=. eauto 10.
  - intros (t&b&Ht&Hb&<-). exists t. by rewrite Hb.
Qed.

Lemma tokens_tail t l k : k ∈ tokens l → k ∈ tokens (t :: l).
Proof. rewrite tokens_cons. destruct (t_runtime t); [apply list_elem_of_further|done]. Qed.

(** An update that keeps, drops or freshly binds a runtime keeps the tokens
    distinct. *)
Lemma tokens_update_first l :
  NoDup (tokens l) →
  (∀ t, t ∈ l → f t = true →
     t_runtime (g t) = None ∨ t_runtime (g t) = t_runtime t ∨
     ∃ b, t_runtime (g t) = Some b ∧ token b ∉ tokens l) →
  NoDup (tokens (update_first f g l)).
Proof.
  induction l as [|t l IH]; intros Hnd Hg; simpl; [done|].
  assert (NoDup (tokens l)) as Hl.
  { rewrite tokens_cons in Hnd. destruct (t_runtime t); [by apply NoDup_cons in Hnd as [_ ?]|done]. }
  destruct (f t) eqn:Hf.
  - rewrite tokens_cons. destruct (Hg t) as [->|[->|(b&->&Hb)]]; [apply list_elem_of_here|done|done| |].
    + by rewrite tokens_cons in Hnd.
    + constructor; [|done]. intros Hin. by apply Hb, tokens_tail.
  - assert (NoDup (tokens (update_first f g l))) as Hupd.
    { apply IH; [done|]. intros x Hx Hfx. destruct (Hg x (list_elem_of_further _ _ _ Hx) Hfx) as [?|[?|(b&?&Hb)]]; auto.
      right. right. exists b. split; [done|]. intros ?. by apply Hb, tokens_tail. }
    rewrite tokens_cons in *. destruct (t_runtime t) as [b|] eqn:Hb; [|done].
    constructor; [|done]. apply NoDup_cons in Hnd as [Hnin _]. intros (x&b'&Hx&Hbx&Heq)%tokens_elem.
    destruct (update_first_elem f g l x Hx) as [Hin|(y&Hy&Hfy&->)].
    + apply Hnin, tokens_elem. eauto.
    + destruct (Hg y (list_elem_of_further _ _ _ Hy) Hfy) as [?|[Hs|(b2&Hb2&Hfresh)]]; [congruence| |].
      * apply Hnin, tokens_elem. exists y, b'. by rewrite <- Hs.
      * assert (b2 = b') as -> by congruence. apply Hfresh. rewrite Heq. apply list_elem_of_here.
Qed.

End update.

Lemma tokens_update_same f g l :
  (∀ t, t_runtime (g t) = t_runtime t) → tokens (update_first f g l) = tokens l.
Proof.
  intros Hg. induction l as [|t l IH]; simpl; [done|].
  destruct (f t); rewrite !tokens_cons; [rewrite Hg|rewrite IH]; by destruct (t_runtime t).
Qed.

(** Sublists keep every part of the invariant. *)
Lemma tokens_sublist l k : l `sublist_of` k → tokens l `sublist_of` tokens k.
Proof.
  induction 1 as [|t l k Hl IH|t l k Hl IH]; [done|..]; rewrite !tokens_cons || rewrite tokens_cons;
    destruct (t_runtime t); by try constructor.
Qed.

Lemma count_if_sublist (h : TaskRecord → bool) l k : l `sublist_of` k → (count_if h l ≤ count_if h k)%nat.
Proof.
  unfold count_if. induction 1 as [|t l k Hl IH|t l k Hl IH]; simpl; [done|..]; destruct (h t); simpl; lia.
Qed.

Lemma tasks_wf_sublist r l : l `sublist_of` tasks r → tasks_wf r → tasks_wf (set_tasks l r).
Proof.
  intros Hl [H1 H2 H3 H4 H5 H6 H7 H8 H9].
  assert (∀ P : TaskRecord → Prop, Forall P (tasks r) → Forall P l) as Hsub.
  { intros P. rewrite !Forall_forall. intros HP x Hx. by eapply HP, elem_of_sublist. }
  constructor; simpl; auto.
  - apply sublist_length in Hl. lia.
  - by eapply sublist_StronglySorted.
  - pose proof (count_if_sublist is_foreground _ _ Hl). lia.
  - eapply sublist_NoDup; [exact H5|by apply fmap_sublist].
  - eapply sublist_NoDup; [exact H6|by apply fmap_sublist].
  - eapply sublist_NoDup; [exact H7|by apply tokens_sublist].
Qed.

(** The obligations of changing one task in place: identity and creation stay,
    the new record is well-formed, its runtime is kept, dropped or fresh, and
    the sequence counter may move on. *)
Lemma tasks_wf_update r f g seq :
  tasks_wf r → (next_sequence r ≤ seq)%Z →
  (count_if is_foreground (update_first f g (tasks r)) ≤ 1)%nat →
  (∀ t, t ∈ tasks r → f t = true →
     task_id (g t) = task_id t ∧ t_app_id (g t) = t_app_id t ∧ created_sequence (g t) = created_sequence t ∧
     task_wf (g t) ∧ (last_activated_sequence (g t) < seq)%Z ∧
     (t_runtime (g t) = None ∨ t_runtime (g t) = t_runtime t ∨
      ∃ b, t_runtime (g t) = Some b ∧ token b ∉ tokens (tasks r))) →
  tasks_wf {| capacity := capacity r; next_task_id := next_task_id r; next_sequence := seq;
              tasks := update_first f g (tasks r) |}.
Proof.
  intros [H1 H2 H3 H4 H5 H6 H7 H8 H9] Hseq Hfg Hg. constructor; simpl; auto.
  - by rewrite length_update_first.
  - assert (StronglySorted Z.lt (map created_sequence (update_first f g (tasks r)))) as Hs.
    { rewrite map_update_first by (intros t Ht Hf; by destruct (Hg t Ht Hf) as (?&?&?&_)). clear -H2. induction H2 as [|x l Hs IH Hx]; simpl; constructor; [done|].
      apply Forall_fmap. eapply Forall_impl; [exact Hx|]. done. }
    clear -Hs. induction (update_first f g (tasks r)) as [|x l IH]; [constructor|]. simpl in Hs.
    inversion_clear Hs as [|?? Hs' Hx]. constructor; [auto|]. exact (proj1 (Forall_fmap _ _ _) Hx).
  - apply Forall_update_first; [done|]. intros t Ht Hf _. by apply Hg.
  - by rewrite map_update_first by (intros t Ht Hf; by destruct (Hg t Ht Hf) as (?&?&?&_)).
  - by rewrite map_update_first by (intros t Ht Hf; by destruct (Hg t Ht Hf) as (?&?&?&_)).
  - apply tokens_update_first; [done|]. intros t Ht Hf. by apply Hg.
  - apply Forall_update_first.
    + eapply Forall_impl; [exact H8|]. simpl. lia.
    + intros t Ht Hf _. destruct (Hg t Ht Hf) as (->&_&->&_&?&_).
      rewrite Forall_forall in H8. specialize (H8 t Ht). simpl in *. lia.
  - lia.
Qed.

(** ** The foreground *)

Lemma count_if_zero (h : TaskRecord → bool) l : (∀ t, t ∈ l → h t = false) → count_if h l = 0.
Proof.
  unfold count_if. induction l as [|t l IH]; intros Hh; simpl; [done|].
  rewrite Hh by apply list_elem_of_here. apply IH. intros x Hx. by apply Hh, list_elem_of_further.
Qed.

Lemma count_if_pos (h : TaskRecord → bool) l t : t ∈ l → h t = true → (1 ≤ count_if h l)%nat.
Proof.
  unfold count_if. induction 1 as [t l|t y l Ht IH]; intros Hh; simpl.
  - rewrite Hh. simpl. lia.
  - destruct (h y); simpl; [lia|auto].
Qed.

(** After the first match of [h && p] has lost [h], any [h] left fails [p]. *)
Lemma update_first_demotes (h p : TaskRecord → bool) g l x :
  (∀ y, h (g y) = false) → (count_if h l ≤ 1)%nat →
  x ∈ update_first (λ t, h t && p t) g l → h x = true → p x = false.
Proof.
  intros Hg. induction l as [|z l IH]; simpl; [by intros _ ?%elem_of_nil|].
  intros Hc Hx Hh. destruct (h z) eqn:Hz; simpl in *.
  - assert (count_if h l = 0) as Hc0 by (unfold count_if in *; simpl in Hc; rewrite Hz in Hc; simpl in Hc; lia).
    assert (x ∉ l) as Hxl by (intros Hin; pose proof (count_if_pos h l x Hin Hh); lia).
    destruct (p z) eqn:Hp.
    + apply elem_of_cons in Hx as [->|?]; [by rewrite Hg in Hh|by destruct Hxl].
    + apply elem_of_cons in Hx as [->|Hx]; [done|].
      apply update_first_elem in Hx as [?|(y&Hy&_&->)]; [by destruct Hxl|by rewrite Hg in Hh].
  - apply elem_of_cons in Hx as [->|Hx]; [congruence|]. apply IH; auto.
    unfold count_if in *. simpl in Hc. by rewrite Hz in Hc.
Qed.

Lemma count_if_same_id (h : TaskRecord → bool) id l :
  NoDup (map task_id l) → (∀ t, t ∈ l → h t = true → task_id t = id) → (count_if h l ≤ 1)%nat.
Proof.
  induction l as [|z l IH]; intros Hnd Hh; simpl in *; [unfold count_if; simpl; lia|].
  apply NoDup_cons in Hnd as [Hnin Hnd]. unfold count_if in *. simpl.
  destruct (h z) eqn:Hz; simpl.
  - assert (task_id z = id) as Hid by (apply Hh; [apply list_elem_of_here|done]).
    assert (count_if h l = 0) as Hc0; [|unfold count_if in Hc0; lia]. apply count_if_zero. intros t Ht.
    destruct (h t) eqn:Htt; [|done]. exfalso. apply Hnin. apply list_elem_of_fmap. exists t.
    rewrite (Hh t) by (auto using list_elem_of_further). auto.
  - apply IH; [done|]. intros t Ht. apply Hh. by apply list_elem_of_further.
Qed.

Lemma background_wf r except : tasks_wf r → tasks_wf (TaskRegistry_background_foreground r except).2.
Proof.
  intros Hwf. unfold TaskRegistry_background_foreground. simpl.
  apply tasks_wf_update; [done|done|..].
  - etrans; [apply count_if_update_first_le|apply Hwf]. done.
  - intros t Ht Hf. unbool_hyps. destruct Hwf as [_ _ _ Hts _ _ _ Hb _]. rewrite Forall_forall in Hts, Hb.
    destruct (Hts t Ht) as [Hres ? ? ? ? ? ? ? ?]. unfold is_foreground in *. unbool_hyps.
    split_and!; [done..| |simpl; specialize (Hb t Ht); simpl in *; lia|auto].
    constructor; simpl; auto. rewrite <- Hres. match goal with H : t_state t = Foreground |- _ => by rewrite H end.
Qed.

Lemma background_foreground_left r except t :
  tasks_wf r → t ∈ tasks (TaskRegistry_background_foreground r except).2 →
  is_foreground t = true → Some (task_id t) = except.
Proof.
  intros Hwf Ht Hfg. simpl in Ht.
  apply (update_first_demotes is_foreground (λ t, negb (bool_decide (Some (task_id t) = except)))) in Ht;
    [by unbool_hyps|done|apply Hwf|done].
Qed.

(** The other parts of the registry stay. *)
Lemma background_same r except :
  let r' := (TaskRegistry_background_foreground r except).2 in
  capacity r' = capacity r ∧ next_task_id r' = next_task_id r ∧ next_sequence r' = next_sequence r ∧
  length (tasks r') = length (tasks r) ∧ map task_id (tasks r') = map task_id (tasks r) ∧
  map t_app_id (tasks r') = map t_app_id (tasks r) ∧ tokens (tasks r') = tokens (tasks r).
Proof.
  simpl. split_and!; [done|done|done|apply length_update_first|by apply map_update_first|by apply map_update_first|].
  by apply tokens_update_same.
Qed.

Lemma find_id_iff id l : is_Some (List.find (has_id id) l) ↔ id ∈ map task_id l.
Proof.
  induction l as [|t l IH]; simpl; [split; [by intros []|by intros ?%elem_of_nil]|].
  rewrite elem_of_cons, <- IH. unfold has_id at 1. destruct (task_id t =? id)%Z eqn:E; unbool_hyps.
  - split; [auto|by eexists].
  - split; [auto|]. intros [?|?]; [congruence|done].
Qed.

Lemma task_after_background r except id :
  is_Some (TaskRegistry_task (TaskRegistry_background_foreground r except).2 id) ↔
  is_Some (TaskRegistry_task r id).
Proof.
  unfold TaskRegistry_task. rewrite !find_id_iff.
  by destruct (background_same r except) as (_&_&_&_&->&_).
Qed.

(** Bringing a task to the front after the old foreground was demoted. *)
Lemma front_wf r id g :
  tasks_wf r → (next_sequence r < u64_max)%Z →
  (∀ t, t ∈ tasks (TaskRegistry_background_foreground r (Some id)).2 → task_id t = id →
     task_id (g t) = task_id t ∧ t_app_id (g t) = t_app_id t ∧ created_sequence (g t) = created_sequence t ∧
     task_wf (g t) ∧ last_activated_sequence (g t) = next_sequence r ∧
     (t_runtime (g t) = t_runtime t ∨ ∃ b, t_runtime (g t) = Some b ∧ token b ∉ tokens (tasks r))) →
  tasks_wf (set_tasks (update_first (has_id id) g (tasks (TaskRegistry_background_foreground r (Some id)).2))
    (TaskRegistry_take_sequence (TaskRegistry_background_foreground r (Some id)).2).2).
Proof.
  intros Hwf Hseq Hg. pose proof (background_wf r (Some id) Hwf) as Hwf1.
  pose proof (background_same r (Some id)) as (_&_&Hs&_&_&_&Htok).
  pose proof (λ t, background_foreground_left r (Some id) t Hwf) as Hleft.
  set (r1 := (TaskRegistry_background_foreground r (Some id)).2) in *.
  assert (next_or_one (next_sequence r1) = next_sequence r1 + 1)%Z as Hn.
  { apply next_or_one_lt. rewrite Hs. pose proof (kw_next _ Hwf). lia. }
  clearbody r1. unfold TaskRegistry_take_sequence, set_tasks. simpl. apply tasks_wf_update; [done|lia| |].
  - apply (count_if_same_id _ id).
    + rewrite map_update_first; [apply Hwf1|]. intros t Ht Hf. unfold has_id in Hf. unbool_hyps.
      by destruct (Hg t Ht Hf) as (?&_).
    + intros t Ht Hfg. apply update_first_elem in Ht as [Ht|(y&Hy&Hf&->)].
      * specialize (Hleft t Ht Hfg). congruence.
      * unfold has_id in Hf. unbool_hyps. destruct (Hg y Hy Hf) as (->&_). done.
  - intros t Ht Hf. unfold has_id in Hf. unbool_hyps.
    destruct (Hg t Ht Hf) as (?&?&?&?&?&Hrt). split_and!; [done..|lia|]. rewrite Htok.
    destruct Hrt; auto.
Qed.

(** ** Every operation keeps the invariant *)

(** What the service guarantees of a launch request: the manifest was validated,
    the unit name was built by the service and the token was never used. *)
Record launch_ok (r : TaskRegistry) (app_id version : string) (b : RuntimeBinding) : Prop := {
  lk_app : is_valid_app_id app_id = true;
  lk_version : is_valid_app_version version = true;
  lk_unit : valid_unit (unit_name b) = true;
  lk_token : token b ∉ tokens (tasks r);
}.

Definition counters_left (r : TaskRegistry) : Prop :=
  (next_task_id r < u64_max)%Z ∧ (next_sequence r < u64_max)%Z.

Lemma find_app_none r app : TaskRegistry_task_for_app r app = None → app ∉ map t_app_id (tasks r).
Proof.
  intros Hf. rewrite list_elem_of_fmap. intros (t&->&Ht).
  apply (find_none_elem _ _ _ Hf) in Ht. by unbool_hyps.
Qed.

Lemma tokens_app l k : tokens (l ++ k) = tokens l ++ tokens k.
Proof. unfold tokens. apply omap_app. Qed.

Lemma launch_new_wf r app v b ev :
  tasks_wf r → counters_left r → launch_ok r app v b → app ∉ map t_app_id (tasks r) →
  (length (tasks r) < capacity r)%nat → tasks_wf (launch_new r app v b ev).2.
Proof.
  intros Hwf [Hc1 Hc2] [Ha Hv Hu Htk] Happ Hlen. unfold launch_new.
  pose proof (background_wf r None Hwf) as Hwf1.
  pose proof (background_same r None) as (Hcap&Hid&Hs&Hl&Hids&Happs&Htoks).
  pose proof (λ t, background_foreground_left r None t Hwf) as Hleft.
  destruct (TaskRegistry_background_foreground r None) as [bg r1]. simpl in *.
  pose proof (kw_next _ Hwf). rewrite !next_or_one_lt by lia.
  destruct Hwf1 as [H1 H2 H3 H4 H5 H6 H7 H8 H9].
  assert (∀ t, t ∈ tasks r1 → task_id t < next_task_id r1 ∧ created_sequence t < next_sequence r1 ∧
    last_activated_sequence t < next_sequence r1)%Z as Hb by (by rewrite Forall_forall in H8).
  constructor; simpl.
  - rewrite length_app. simpl. lia.
  - apply StronglySorted_snoc; [done|]. intros y Hy. by apply Hb.
  - unfold count_if. rewrite List.filter_app, length_app. simpl.
    assert (count_if is_foreground (tasks r1) = 0) as Hz.
    { apply count_if_zero. intros t Ht. destruct (is_foreground t) eqn:E; [|done]. by specialize (Hleft t Ht E). }
    unfold count_if in Hz. lia.
  - apply Forall_app. split; [done|]. constructor; [|done]. constructor; simpl; auto; try lia.
    by intros b' [= <-].
  - rewrite map_app. apply NoDup_app. split_and!; [done| |apply NoDup_singleton].
    intros i Hi ->%list_elem_of_singleton. apply list_elem_of_fmap in Hi as (t&Heq&Ht). specialize (Hb t Ht).
    simpl in Heq. lia.
  - rewrite map_app. apply NoDup_app. split_and!; [done| |apply NoDup_singleton].
    intros i Hi ->%list_elem_of_singleton. simpl in Hi. by rewrite Happs in Hi.
  - rewrite tokens_app. apply NoDup_app. split_and!; [done| |apply NoDup_singleton].
    intros i Hi ->%list_elem_of_singleton. by rewrite Htoks in Hi.
  - apply Forall_app. split; [|constructor; [simpl; lia|done]].
    rewrite Forall_forall. intros t Ht. specialize (Hb t Ht). lia.
  - lia.
Qed.

Lemma evict_ok r ev out r' :
  TaskRegistry_evict_capacity_victim r ev = (Ok out, r') →
  ∃ oldest rest, tasks r = oldest :: rest ∧ r' = set_tasks rest r ∧
    out = mkEvictedTask oldest (ev_status ev) ∧ task_id oldest = ev_task_id ev ∧
    length (tasks r) = capacity r.
Proof.
  unfold TaskRegistry_evict_capacity_victim. intros He. case_match; [done|].
  destruct (tasks r) as [|oldest rest] eqn:Ht; [done|]. case_match; [done|]. simplify_eq. unbool_hyps.
  eexists _, _. by split_and!.
Qed.

Lemma evict_err r ev : is_ok (TaskRegistry_evict_capacity_victim r ev).1 = false →
  (TaskRegistry_evict_capacity_victim r ev).2 = r.
Proof. unfold TaskRegistry_evict_capacity_victim. by repeat case_match. Qed.

Lemma evict_wf r ev : tasks_wf r → tasks_wf (TaskRegistry_evict_capacity_victim r ev).2.
Proof.
  intros Hwf. destruct (TaskRegistry_evict_capacity_victim r ev) as [out r'] eqn:He.
  destruct (is_ok out) eqn:Hok.
  - destruct out; try done. apply evict_ok in He as (o&rest&Ht&->&_). simpl.
    apply tasks_wf_sublist; [|done]. rewrite Ht. by constructor.
  - pose proof (evict_err r ev) as Hsame. rewrite He in Hsame. simpl in *. by rewrite Hsame.
Qed.

(** The element a search by id or application finds. *)
Lemma task_elem r id t : TaskRegistry_task r id = Some t → t ∈ tasks r ∧ task_id t = id.
Proof. intros [Hin Hf]%find_some_elem. unfold has_id in Hf. by unbool_hyps. Qed.

Lemma unique_by_id r t t' : tasks_wf r → t ∈ tasks r → t' ∈ tasks r → task_id t = task_id t' → t = t'.
Proof.
  intros Hwf Ht Ht' Heq. pose proof (kw_ids _ Hwf) as Hnd. rewrite NoDup_alt in Hnd.
  apply list_elem_of_lookup in Ht as [i Hi], Ht' as [j Hj].
  assert (i = j) as ->; [|congruence].
  apply (Hnd i j (task_id t)); rewrite list_lookup_fmap; [by rewrite Hi|rewrite Hj; simpl; congruence].
Qed.

(** A task of the registry after demotion comes from one with the same id; the
    resident ones stay resident. *)
Lemma background_elem r except t :
  t ∈ tasks (TaskRegistry_background_foreground r except).2 →
  ∃ t0, t0 ∈ tasks r ∧ task_id t = task_id t0 ∧ TaskState_is_resident (t_state t) = TaskState_is_resident (t_state t0).
Proof.
  simpl. intros [?|(y&Hy&Hf&->)]%update_first_elem; [eauto|].
  exists y. split_and!; [done..|]. unfold is_foreground in Hf. unbool_hyps.
  match goal with H : t_state y = Foreground |- _ => by rewrite H end.
Qed.

Lemma launch_wf r app v b ev :
  tasks_wf r → counters_left r → launch_ok r app v b → tasks_wf (TaskRegistry_launch r app v b ev).2.
Proof.
  intros Hwf Hc Hl. unfold TaskRegistry_launch.
  destruct (TaskRegistry_task_for_app r app) as [existing|] eqn:Happ.
  - case_match; [done|]. destruct ev; [done|].
    pose proof (front_wf r (task_id existing)
      (relaunch (next_sequence r) v b) Hwf (proj2 Hc)) as Hfront.
    pose proof (background_wf r (Some (task_id existing)) Hwf) as Hwf1.
    pose proof (background_same r (Some (task_id existing))) as (_&_&Hs&_).
    pose proof (task_after_background r (Some (task_id existing)) (task_id existing)) as Hfind.
    apply find_some_elem in Happ as [Hin _].
    destruct (TaskRegistry_background_foreground r (Some (task_id existing))) as [bg r1]. simpl in *.
    destruct (proj2 Hfind) as [t1 Ht1].
    { apply find_id_iff. by apply list_elem_of_fmap_2. }
    unfold TaskRegistry_task in *. simpl. rewrite Ht1. rewrite Hs in *. simpl. apply Hfront.
    intros t Ht Hid. destruct Hl. pose proof (kw_tasks _ Hwf1) as Hts. rewrite Forall_forall in Hts.
    destruct (Hts t Ht). pose proof (kw_next _ Hwf).
    split_and!; [done..| |done|by eauto]. constructor; simpl; auto; [lia|]. by intros ? [= <-].
  - apply find_app_none in Happ. case_match eqn:Hlen; unbool_hyps.
    + destruct (tasks r) as [|o rest] eqn:Ht; [done|]. destruct ev as [ev|]; [|done].
      destruct (TaskRegistry_evict_capacity_victim r ev) as [[out|e|] r'] eqn:He.
      * pose proof (evict_wf r ev Hwf) as Hwf'. rewrite He in Hwf'. simpl in Hwf'.
        apply evict_ok in He as (o'&rest'&Ht'&->&_). rewrite Ht in Ht'. injection Ht' as <- <-.
        apply launch_new_wf; [done|done| | |].
        -- destruct Hl as [??? Htk]. constructor; auto. simpl. intros Hin. apply Htk. rewrite Ht. by apply tokens_tail.
        -- simpl. intros Hin. apply Happ. simpl. by apply list_elem_of_further.
        -- simpl in *. lia.
      * pose proof (evict_wf r ev Hwf) as Hwf'. by rewrite He in Hwf'.
      * pose proof (evict_wf r ev Hwf) as Hwf'. by rewrite He in Hwf'.
    + destruct ev; [done|]. apply launch_new_wf; auto. pose proof (kw_length _ Hwf). lia.
Qed.

Lemma activate_wf r id : tasks_wf r → counters_left r → tasks_wf (TaskRegistry_activate r id).2.
Proof.
  intros Hwf Hc. unfold TaskRegistry_activate. destruct (TaskRegistry_task r id) as [t0|] eqn:H0; [|done].
  case_match eqn:Hres; [done|]. apply negb_false_iff in Hres.
  pose proof (front_wf r id (bring_to_front (next_sequence r)) Hwf (proj2 Hc)) as Hfront.
  pose proof (background_wf r (Some id) Hwf) as Hwf1.
  pose proof (background_same r (Some id)) as (_&_&Hs&_).
  pose proof (task_after_background r (Some id) id) as Hfind.
  pose proof (λ t, background_elem r (Some id) t) as Hel.
  destruct (TaskRegistry_background_foreground r (Some id)) as [bg r1]. simpl in *.
  destruct (proj2 Hfind) as [t1 Ht1]; [by eexists|].
  unfold TaskRegistry_task in *. simpl. rewrite Ht1. rewrite Hs in *. simpl. apply Hfront.
  intros t Ht Hid. pose proof (kw_tasks _ Hwf1) as Hts. rewrite Forall_forall in Hts.
  apply task_elem in H0 as [Hin0 Hid0].
  destruct (Hel t Ht) as (t0'&Hin'&Hid'&Hr').
  assert (t0' = t0) as -> by (apply (unique_by_id r t0' t0); [exact Hwf|exact Hin'|exact Hin0|congruence]).
  destruct (Hts t Ht). pose proof (kw_next _ Hwf).
  split_and!; [done..| |done|by left]. constructor; simpl; auto; [|lia]. congruence.
Qed.

Lemma update_id_wf r id g :
  tasks_wf r →
  (∀ t, t ∈ tasks r → task_id t = id → is_foreground (g t) = true → is_foreground t = true) →
  (∀ t, t ∈ tasks r → task_id t = id → task_wf t →
     task_id (g t) = task_id t ∧ t_app_id (g t) = t_app_id t ∧ created_sequence (g t) = created_sequence t ∧
     last_activated_sequence (g t) = last_activated_sequence t ∧ task_wf (g t) ∧
     (t_runtime (g t) = None ∨ t_runtime (g t) = t_runtime t)) →
  tasks_wf (set_tasks (update_first (has_id id) g (tasks r)) r).
Proof.
  intros Hwf Hfg Hg. apply tasks_wf_update; [done|done|..].
  - etrans; [apply count_if_update_first_le|apply Hwf]. intros t Ht Hf. unfold has_id in Hf. unbool_hyps. auto.
  - intros t Ht Hf. unfold has_id in Hf. unbool_hyps.
    destruct Hwf as [_ _ _ Hts _ _ _ Hb _]. rewrite Forall_forall in Hts, Hb.
    destruct (Hg t Ht Hf (Hts t Ht)) as (?&?&?&Hla&?&Hr). specialize (Hb t Ht). simpl in Hb.
    split_and!; auto; [lia|]. destruct Hr; auto.
Qed.

Lemma freeze_wf r id : tasks_wf r → tasks_wf (TaskRegistry_freeze r id).2.
Proof.
  intros Hwf. unfold TaskRegistry_freeze. destruct (TaskRegistry_task r id) as [t0|] eqn:H0; [|done].
  apply task_elem in H0 as [Hin0 Hid0].
  destruct (t_state t0) eqn:Hst; try done; apply update_id_wf; try done;
    intros t Ht Hid [Hres]; assert (t = t0) as -> by (apply (unique_by_id r); congruence);
    (split_and!; [done..| |by right]); constructor; simpl; auto; rewrite <- Hres; by rewrite Hst.
Qed.

Lemma checkpoint_wf r id status :
  valid_checkpoint status = true → tasks_wf r → tasks_wf (TaskRegistry_checkpoint r id status).2.
Proof.
  intros Hs Hwf. unfold TaskRegistry_checkpoint. destruct (TaskRegistry_task r id) as [t0|]; [|done].
  case_match; [done|]. apply update_id_wf; try done.
  intros t Ht Hid []. split_and!; [done..| |by left]. by constructor.
Qed.

Lemma thumbnail_wf r id gen : gen ≠ 0%Z → tasks_wf r → tasks_wf (TaskRegistry_update_thumbnail r id gen).2.
Proof.
  intros Hg Hwf. unfold TaskRegistry_update_thumbnail. destruct (TaskRegistry_task r id) as [t0|]; [|done].
  apply update_id_wf; try done. intros t Ht Hid []. split_and!; [done..| |by right].
  constructor; simpl; auto. congruence.
Qed.

Lemma runtime_exited_wf r tok : tasks_wf r → tasks_wf (TaskRegistry_runtime_exited r tok).2.
Proof.
  intros Hwf. unfold TaskRegistry_runtime_exited. destruct (List.find _ _) as [t0|]; [|done].
  apply tasks_wf_update; [done|done|..].
  - etrans; [apply count_if_update_first_le|apply Hwf]. done.
  - intros t Ht _. destruct Hwf as [_ _ _ Hts _ _ _ Hb _]. rewrite Forall_forall in Hts, Hb.
    destruct (Hts t Ht). specialize (Hb t Ht). simpl in *. split_and!; [done..| |lia|by left]. by constructor.
Qed.

Lemma close_wf r id : tasks_wf r → tasks_wf (TaskRegistry_close r id).2.
Proof.
  intros Hwf. unfold TaskRegistry_close. destruct (position _ _); [|done]. destruct (_ !! _); [|done].
  apply tasks_wf_sublist; [apply sublist_vec_remove|done].
Qed.

(** The operations as steps, with what the service guarantees of their
    arguments. *)
Inductive task_step : TaskRegistry → TaskRegistry → Prop :=
  | ts_launch r app v b ev : launch_ok r app v b → task_step r (TaskRegistry_launch r app v b ev).2
  | ts_evict r ev : task_step r (TaskRegistry_evict_capacity_victim r ev).2
  | ts_activate r id : task_step r (TaskRegistry_activate r id).2
  | ts_freeze r id : task_step r (TaskRegistry_freeze r id).2
  | ts_checkpoint r id status :
      valid_checkpoint status = true → task_step r (TaskRegistry_checkpoint r id status).2
  | ts_exited r tok : task_step r (TaskRegistry_runtime_exited r tok).2
  | ts_thumbnail r id gen : gen ≠ 0%Z → task_step r (TaskRegistry_update_thumbnail r id gen).2
  | ts_close r id : task_step r (TaskRegistry_close r id).2.

Lemma task_step_wf r r' : task_step r r' → counters_left r → tasks_wf r → tasks_wf r'.
Proof.
  destruct 1; intros Hc Hwf; auto using launch_wf, evict_wf, activate_wf, freeze_wf, checkpoint_wf,
    runtime_exited_wf, thumbnail_wf, close_wf.
Qed.

Lemma task_step_capacity r r' : task_step r r' → capacity r' = capacity r.
Proof.
  destruct 1; unfold TaskRegistry_launch, launch_new, TaskRegistry_evict_capacity_victim, TaskRegistry_activate,
    TaskRegistry_freeze, TaskRegistry_checkpoint, TaskRegistry_runtime_exited, TaskRegistry_update_thumbnail,
    TaskRegistry_close; repeat (case_match; simplify_eq/=; try done).
Qed.

Definition task_reachable (capacity : nat) : TaskRegistry → Prop :=
  λ r, ∃ r0, TaskRegistry_new capacity = Ok r0 ∧ rtc (λ r r', counters_left r ∧ task_step r r') r0 r.

Lemma task_reachable_wf n r : task_reachable n r → tasks_wf r ∧ capacity r = n ∧ (0 < n)%nat.
Proof.
  intros (r0&Hnew&Hr). unfold TaskRegistry_new in Hnew. case_match; simplify_eq. unbool_hyps.
  assert (∀ r1 r2, rtc (λ r r', counters_left r ∧ task_step r r') r1 r2 →
    tasks_wf r1 → tasks_wf r2 ∧ capacity r2 = capacity r1) as Hgo.
  { induction 1 as [|r1 r2 r3 [Hc Hs] _ IH]; [done|]. intros Hwf. rewrite <- (task_step_capacity _ _ Hs).
    by apply IH, (task_step_wf r1). }
  destruct (Hgo _ _ Hr) as [? ->]; [|simpl; split_and!; [done|done|lia]].
  constructor; simpl; try by constructor. lia.
Qed.

(** ** Bringing a task to the front *)

(** Task [id] is the only foreground task of [r'] and was activated last; every
    other task is one of [r], perhaps moved to the background. *)
Definition brought_front (r r' : TaskRegistry) (id : Z) : Prop :=
  (∃ t, t ∈ tasks r' ∧ task_id t = id ∧ t_state t = Foreground ∧
        last_activated_sequence t = next_sequence r) ∧
  (∀ t, t ∈ tasks r' → task_id t ≠ id →
     is_foreground t = false ∧ ∃ t0, t0 ∈ tasks r ∧ (t = t0 ∨ t = set_state Background t0)).

Lemma background_from r except t :
  t ∈ tasks (TaskRegistry_background_foreground r except).2 →
  ∃ t0, t0 ∈ tasks r ∧ (t = t0 ∨ t = set_state Background t0).
Proof. simpl. intros [?|(y&Hy&Hf&->)]%update_first_elem; eauto. Qed.

Lemma front_brought r id g :
  tasks_wf r → id ∈ map task_id (tasks r) →
  (∀ t, task_id (g t) = task_id t ∧ t_state (g t) = Foreground ∧ last_activated_sequence (g t) = next_sequence r) →
  brought_front r
    (set_tasks (update_first (has_id id) g (tasks (TaskRegistry_background_foreground r (Some id)).2))
      (TaskRegistry_take_sequence (TaskRegistry_background_foreground r (Some id)).2).2) id.
Proof.
  intros Hwf Hid Hg. pose proof (background_same r (Some id)) as (_&_&_&_&Hids&_).
  pose proof (λ t, background_foreground_left r (Some id) t Hwf) as Hleft.
  pose proof (λ t, background_from r (Some id) t) as Hfrom.
  destruct (TaskRegistry_background_foreground r (Some id)) as [bg r1]. simpl in *. split; simpl.
  - rewrite <- Hids in Hid. apply find_id_iff in Hid as [t1 Ht1]. exists (g t1).
    pose proof (find_update_first _ g _ _ Ht1). apply find_some_elem in Ht1 as [_ Hf]. unfold has_id in Hf.
    unbool_hyps. destruct (Hg t1) as (->&->&->). done.
  - intros t [Ht|(y&Hy&Hf&->)]%update_first_elem Hne.
    + split; [|auto]. destruct (is_foreground t) eqn:E; [|done]. specialize (Hleft t Ht E). congruence.
    + unfold has_id in Hf. unbool_hyps. destruct (Hg y) as (Hgy&_). congruence.
Qed.

Lemma launch_new_brought r r0 app v b ev :
  tasks_wf r → (next_sequence r = next_sequence r0) → (∀ t, t ∈ tasks r → t ∈ tasks r0) →
  ∃ o r', launch_new r app v b ev = (Ok o, r') ∧ brought_front r0 r' (lo_task_id o) ∧ lo_evicted o = ev ∧
    ∃ t, t ∈ tasks r' ∧ task_id t = lo_task_id o ∧ t_app_id t = app ∧ t_version t = v ∧ t_runtime t = Some b.
Proof.
  intros Hwf Hs Hsub. unfold launch_new.
  pose proof (background_same r None) as (_&_&Hseq&_).
  pose proof (λ t, background_foreground_left r None t Hwf) as Hleft.
  pose proof (λ t, background_from r None t) as Hfrom.
  destruct (TaskRegistry_background_foreground r None) as [bg r1]. simpl in *.
  eexists _, _. split; [done|]. simpl. split; [split|split; [done|]].
  - eexists. split; [apply elem_of_app; right; apply list_elem_of_here|]. simpl. split_and!; [done..|congruence].
  - intros t [Ht| ->%list_elem_of_singleton]%elem_of_app Hne; [|done]. split.
    + destruct (is_foreground t) eqn:E; [|done]. by specialize (Hleft t Ht E).
    + destruct (Hfrom t Ht) as (t0&?&?). eauto.
  - eexists. split; [apply elem_of_app; right; apply list_elem_of_here|]. done.
Qed.

Lemma activate_brought r id o r' :
  tasks_wf r → TaskRegistry_activate r id = (Ok o, r') → brought_front r r' id.
Proof.
  intros Hwf. unfold TaskRegistry_activate. destruct (TaskRegistry_task r id) as [t0|] eqn:H0; [|done].
  case_match; [done|]. apply task_elem in H0 as [Hin Hid].
  assert (id ∈ map task_id (tasks r)) as Hmem by (rewrite <- Hid; by apply list_elem_of_fmap_2).
  pose proof (front_brought r id (bring_to_front (next_sequence r)) Hwf Hmem ltac:(done)) as Hf.
  pose proof (background_same r (Some id)) as (_&_&Hseq&_).
  destruct (TaskRegistry_background_foreground r (Some id)) as [bg r1]. simpl in *. rewrite Hseq in *.
  by case_match; intros; simplify_eq.
Qed.

Lemma launch_brought r app v b ev o r' :
  tasks_wf r → TaskRegistry_launch r app v b ev = (Ok o, r') →
  brought_front r r' (lo_task_id o) ∧
  ∃ t, t ∈ tasks r' ∧ task_id t = lo_task_id o ∧ t_app_id t = app ∧ t_version t = v ∧ t_runtime t = Some b.
Proof.
  intros Hwf. unfold TaskRegistry_launch. destruct (TaskRegistry_task_for_app r app) as [t0|] eqn:Happ.
  - case_match; [done|]. destruct ev; [done|]. apply find_some_elem in Happ as [Hin Hap]. unbool_hyps.
    assert (task_id t0 ∈ map task_id (tasks r)) as Hmem by (by apply list_elem_of_fmap_2).
    pose proof (front_brought r (task_id t0) (relaunch (next_sequence r) v b) Hwf Hmem ltac:(done)) as Hf.
    pose proof (background_same r (Some (task_id t0))) as (_&_&Hseq&_).
    pose proof (λ t, background_from r (Some (task_id t0)) t) as Hfrom.
    destruct (TaskRegistry_background_foreground r (Some (task_id t0))) as [bg r1]. simpl in *. rewrite Hseq in *.
    case_match eqn:Hfind; [|done]. intros [= <- <-]. split; [done|]. simpl.
    pose proof (find_update_first _ (relaunch (next_sequence r) v b) _ _ Hfind) as Hup.
    apply task_elem in Hfind as [Hin1 Hid1]. simpl in Hin1. eexists. split; [exact Hup|].
    split_and!; [done| |done|done]. simpl. destruct (Hfrom _ Hin1) as (t2&Hin2&Ht2).
    assert (task_id t2 = task_id t0 ∧ t_app_id t2 = t_app_id (t : TaskRecord)) as [Hid2 <-]
      by (destruct Ht2 as [->| ->]; done).
    by assert (t2 = t0) as -> by (by apply (unique_by_id r)).
  - case_match eqn:Hlen.
    + destruct (tasks r) as [|o' rest] eqn:Ht; [done|]. destruct ev as [ev|]; [|done].
      destruct (TaskRegistry_evict_capacity_victim r ev) as [[out|e|] r1] eqn:He; [|done|done].
      pose proof (evict_wf r ev Hwf) as Hwf1. rewrite He in Hwf1. simpl in Hwf1.
      apply evict_ok in He as (o2&rest2&Ht2&->&_).
      destruct (launch_new_brought (set_tasks rest2 r) r app v b (Some out)) as (o3&r3&->&?&_&?); [done|done| |].
      { simpl. intros t Hin. rewrite Ht2. by apply list_elem_of_further. }
      by intros [= <- <-].
    + destruct ev; [done|].
      destruct (launch_new_brought r r app v b None) as (o3&r3&->&?&_&?); [done|done|done|].
      by intros [= <- <-].
Qed.

(** ** The switcher *)

Lemma foreground_unique r t : tasks_wf r → t ∈ tasks r → is_foreground t = true → TaskRegistry_foreground r = Some t.
Proof.
  intros Hwf Ht Hf. pose proof (kw_foreground _ Hwf) as Hc. unfold TaskRegistry_foreground.
  induction (tasks r) as [|z l IH]; [by apply elem_of_nil in Ht|]. simpl. unfold count_if in Hc. simpl in Hc.
  destruct (is_foreground z) eqn:Hz; simpl in Hc.
  - apply elem_of_cons in Ht as [->|Ht]; [done|]. pose proof (count_if_pos _ _ _ Ht Hf) as Hp.
    unfold count_if in Hp. lia.
  - apply elem_of_cons in Ht as [->|Ht]; [congruence|]. by apply IH.
Qed.

Lemma switcher_order_sorted r :
  TaskRegistry_switcher_order r ≡ₚ tasks r ∧
  StronglySorted (λ x y, (last_activated_sequence y ≤ last_activated_sequence x)%Z) (TaskRegistry_switcher_order r).
Proof.
  split; [apply stable_sort_perm|].
  assert (StronglySorted (λ x y, (last_activated_sequence y <=? last_activated_sequence x)%Z = true)
    (TaskRegistry_switcher_order r)) as Hs.
  { apply stable_sort_Sorted; intros; unbool_hyps; apply Z.leb_le; lia. }
  induction Hs as [|x l Hs IH Hx]; constructor; [done|]. eapply Forall_impl; [exact Hx|]. intros y. apply Z.leb_le.
Qed.

(** The most recently activated task comes first. *)
Lemma switcher_head r t :
  t ∈ tasks r → (∀ t', t' ∈ tasks r → t' ≠ t → last_activated_sequence t' < last_activated_sequence t)%Z →
  head (TaskRegistry_switcher_order r) = Some t.
Proof.
  intros Ht Hmax. destruct (switcher_order_sorted r) as [Hperm Hs].
  rewrite <- Hperm in Ht. destruct (TaskRegistry_switcher_order r) as [|x l]; [by apply elem_of_nil in Ht|].
  simpl. f_equal. destruct (decide (x = t)) as [|Hne]; [done|]. exfalso.
  assert (x ∈ tasks r) as Hx by (rewrite <- Hperm; apply list_elem_of_here).
  specialize (Hmax x Hx Hne). inversion_clear Hs as [|?? _ Hall]. rewrite Forall_forall in Hall.
  apply elem_of_cons in Ht as [?|Ht]; [congruence|]. specialize (Hall t Ht). simpl in Hall. lia.
Qed.

Lemma brought_front_switcher r r' id :
  tasks_wf r → tasks_wf r' → brought_front r r' id →
  ∃ t, TaskRegistry_foreground r' = Some t ∧ task_id t = id ∧
    head (TaskRegistry_switcher_order r') = Some t.
Proof.
  intros Hwf Hwf' [(t&Ht&Hid&Hst&Hla) Hrest]. exists t. split_and!; [|done|].
  - apply foreground_unique; [done|done|]. unfold is_foreground. by rewrite bool_decide_eq_true_2.
  - apply switcher_head; [done|]. intros t' Ht' Hne. rewrite Hla.
    assert (task_id t' ≠ id) as Hidne.
    { intros Heq. apply Hne. apply (unique_by_id r'); congruence. }
    destruct (Hrest t' Ht' Hidne) as (_&t0&Ht0&Heq).
    pose proof (kw_below _ Hwf) as Hb. rewrite Forall_forall in Hb. specialize (Hb t0 Ht0). simpl in Hb.
    destruct Heq as [->| ->]; simpl; lia.
Qed.

(** ** Failures *)

(** No panic, and a failure leaves the registry as it was. *)
Definition all_or_nothing {A} (r : TaskRegistry) (run : result TaskError A * TaskRegistry) : Prop :=
  run.1 ≠ Panicked ∧ (is_ok run.1 = false → run.2 = r).

Lemma evict_all_or_nothing r e : (0 < capacity r)%nat → all_or_nothing r (TaskRegistry_evict_capacity_victim r e).
Proof.
  intros Hcap. unfold all_or_nothing, TaskRegistry_evict_capacity_victim.
  destruct (_ =? _)%nat eqn:Hl; simpl; [|done]. destruct (tasks r); [unbool_hyps; simpl in *; lia|].
  by case_match.
Qed.

Lemma activate_all_or_nothing r id : all_or_nothing r (TaskRegistry_activate r id).
Proof.
  unfold all_or_nothing, TaskRegistry_activate. destruct (TaskRegistry_task r id) as [t|] eqn:Ht; [|done].
  case_match; [done|]. pose proof (task_after_background r (Some id) id) as Hf. rewrite Ht in Hf.
  destruct (TaskRegistry_background_foreground r (Some id)) as [bg r1]. simpl in *.
  destruct (proj2 Hf) as [t1 Ht1]; [by eexists|]. unfold TaskRegistry_task in *. simpl. by rewrite Ht1.
Qed.

Lemma launch_all_or_nothing r app v b ev :
  (0 < capacity r)%nat → all_or_nothing r (TaskRegistry_launch r app v b ev).
Proof.
  intros Hcap. unfold all_or_nothing, TaskRegistry_launch.
  destruct (TaskRegistry_task_for_app r app) as [t|] eqn:Happ.
  - case_match; [done|]. destruct ev; [done|].
    pose proof (task_after_background r (Some (task_id t)) (task_id t)) as Hf.
    destruct (TaskRegistry_background_foreground r (Some (task_id t))) as [bg r1]. simpl in *.
    destruct (proj2 Hf) as [t1 Ht1].
    { apply find_id_iff. apply find_some_elem in Happ as [? _]. by apply list_elem_of_fmap_2. }
    unfold TaskRegistry_task in *. simpl. by rewrite Ht1.
  - case_match eqn:Hl.
    + destruct (tasks r) as [|o rest] eqn:Ht; [unbool_hyps; simpl in *; lia|]. destruct ev as [e|]; [|done].
      pose proof (evict_all_or_nothing r e Hcap) as [Hnp Hsame].
      destruct (TaskRegistry_evict_capacity_victim r e) as [[out|err|] r1]; simpl in *; [done| |done].
      split; [done|auto].
    + by destruct ev.
Qed.

Lemma unique_by_token r t t' b b' :
  NoDup (tokens (tasks r)) → t ∈ tasks r → t' ∈ tasks r → t_runtime t = Some b → t_runtime t' = Some b' →
  token b = token b' → t = t'.
Proof.
  induction (tasks r) as [|z l IH]; intros Hnd Ht Ht' Hb Hb' Heq; [by apply elem_of_nil in Ht|].
  rewrite tokens_cons in Hnd.
  assert (NoDup (tokens l)) as Hl by (destruct (t_runtime z); [by apply NoDup_cons in Hnd as [_ ?]|done]).
  apply elem_of_cons in Ht as [->|Ht], Ht' as [->|Ht']; [done|..|by apply IH].
  - rewrite Hb in Hnd. apply NoDup_cons in Hnd as [Hn _]. destruct Hn. apply tokens_elem. eauto.
  - rewrite Hb' in Hnd. apply NoDup_cons in Hnd as [Hn _]. destruct Hn. apply tokens_elem. eauto.
Qed.

Lemma update_first_ext (f f' : TaskRecord → bool) g l :
  (∀ t, f t = f' t) → update_first f g l = update_first f' g l.
Proof. intros Hf. induction l as [|t l IH]; simpl; [done|]. rewrite Hf. by rewrite IH. Qed.

Lemma update_first_keeps (f : TaskRecord → bool) g l t :
  t ∈ l → f t = false → t ∈ update_first f g l.
Proof.
  induction 1 as [t l|t z l Ht IH]; intros Hf; simpl.
  - rewrite Hf. apply list_elem_of_here.
  - destruct (f z); [by apply list_elem_of_further|]. by apply list_elem_of_further, IH.
Qed.

(** A running product registry, as a concrete input. *)
Definition sample_binding (n : Z) : RuntimeBinding :=
  mkRuntimeBinding n ("cardputerzero-app-" +:+ decimal n +:+ ".service").
Definition one_task : TaskRegistry :=
  (TaskRegistry_launch (mkTaskRegistry 2 1 1 []) "dev.cardputerzero.hello" "0.1.0" (sample_binding 7) None).2.
Definition two_tasks : TaskRegistry :=
  (TaskRegistry_launch one_task "dev.cardputerzero.notes" "0.2.0" (sample_binding 8) None).2.

Lemma two_tasks_wf : tasks_wf two_tasks.
Proof. apply validate_snapshot_wf. by vm_compute. Qed.

(** ** Properties *)

(** A snapshot restores exactly when it is the snapshot of a well-formed
    registry of admissible capacity, and then to that registry. *)
Theorem task_restore_iff s r :
  TaskRegistry_restore s = Ok r ↔
  s = TaskRegistry_snapshot r ∧ (1 ≤ capacity r ≤ MAX_TASKS)%nat ∧ tasks_wf r.
Proof. apply restore_snapshot_iff. Qed.

(** Whatever the service does to the task registry, it stays well-formed
    and its snapshot restores to it, as long as the 64-bit counters have not
    run out: at most [capacity] tasks, one foreground task, unique ids,
    applications and runtime tokens, creation order. *)
Theorem task_snapshot_roundtrip n r :
  task_reachable n r → (n ≤ MAX_TASKS)%nat →
  TaskRegistry_invariants_hold r = true ∧ TaskRegistry_restore (TaskRegistry_snapshot r) = Ok r.
Proof.
  intros (Hwf&Hcap&Hpos)%task_reachable_wf Hn. split.
  - apply validate_snapshot_wf in Hwf. unfold TaskRegistry_validate_snapshot in Hwf.
    by destruct (TaskRegistry_invariants_hold r).
  - apply restore_snapshot_iff. split_and!; [done|lia|lia|done].
Qed.

Lemma task_snapshot_roundtrip_witness : TaskRegistry_restore (TaskRegistry_snapshot two_tasks) = Ok two_tasks.
Proof.
  apply (task_snapshot_roundtrip 2); [|unfold MAX_TASKS; lia].
  exists (mkTaskRegistry 2 1 1 []). split; [done|].
  apply (rtc_l _ _ one_task); [|apply (rtc_l _ _ two_tasks); [|apply rtc_refl]].
  - split; [split; done|]. apply ts_launch. constructor; [by vm_compute..|by intros H%elem_of_nil].
  - split; [split; done|]. apply ts_launch. constructor; [by vm_compute..|].
    intros [H|H]%elem_of_cons; [by vm_compute in H|by apply elem_of_nil in H].
Defined.

(** A launch or an activation that succeeds leaves its task as the only
    foreground task and first in the switcher; every other task is as it was,
    except that the former foreground task moves to the background, and a new
    launch runs the requested version under the requested unit. *)
Theorem front_task_first r :
  tasks_wf r → counters_left r →
  (∀ id o r', TaskRegistry_activate r id = (Ok o, r') →
     brought_front r r' id ∧
     ∃ t, TaskRegistry_foreground r' = Some t ∧ task_id t = id ∧ head (TaskRegistry_switcher_order r') = Some t) ∧
  (∀ app v b ev o r', launch_ok r app v b → TaskRegistry_launch r app v b ev = (Ok o, r') →
     brought_front r r' (lo_task_id o) ∧
     ∃ t, TaskRegistry_foreground r' = Some t ∧ task_id t = lo_task_id o ∧
       t_app_id t = app ∧ t_version t = v ∧ t_runtime t = Some b ∧
       head (TaskRegistry_switcher_order r') = Some t).
Proof.
  intros Hwf Hc. split.
  - intros id o r' Ha. pose proof (activate_wf r id Hwf Hc) as Hwf'. rewrite Ha in Hwf'. simpl in Hwf'.
    pose proof (activate_brought _ _ _ _ Hwf Ha) as Hb.
    split; [done|]. exact (brought_front_switcher _ _ _ Hwf Hwf' Hb).
  - intros app v b ev o r' Hl Hlaunch. pose proof (launch_wf r app v b ev Hwf Hc Hl) as Hwf'. rewrite Hlaunch in Hwf'. simpl in Hwf'.
    destruct (launch_brought _ _ _ _ _ _ _ Hwf Hlaunch) as (Hb&t&Hin&Hid&?&?&?). split; [done|].
    destruct (brought_front_switcher _ _ _ Hwf Hwf' Hb) as (t'&Hf&Hid'&Hh). exists t'.
    assert (t' = t) as ->; [|done]. apply (unique_by_id _ _ _ Hwf'); [|done|congruence].
    by apply find_some_elem in Hf as [? _].
Qed.

Lemma front_task_first_witness :
  ∃ t, TaskRegistry_foreground (TaskRegistry_activate two_tasks 1).2 = Some t ∧ task_id t = 1%Z ∧
    head (TaskRegistry_switcher_order (TaskRegistry_activate two_tasks 1).2) = Some t.
Proof.
  apply (proj1 (front_task_first two_tasks two_tasks_wf ltac:(by split)) 1%Z
    (mkActivationOutcome 1 (Some 2%Z) false)). by vm_compute.
Defined.

(** When the registry is full, a launch needs the checkpoint outcome of
    the oldest task and evicts exactly that task; otherwise it evicts nothing. *)
Theorem launch_evicts_oldest r app v b ev o r' :
  tasks_wf r → TaskRegistry_launch r app v b ev = (Ok o, r') →
  match lo_evicted o with
  | Some e =>
      length (tasks r) = capacity r ∧ TaskRegistry_oldest_task r = Some (evicted_task e) ∧
      ev = Some (mkEvictionCheckpoint (task_id (evicted_task e)) (evicted_checkpoint e)) ∧
      (∀ t, t ∈ tasks r → created_sequence (evicted_task e) ≤ created_sequence t)%Z ∧
      task_id (evicted_task e) ∉ map task_id (removelast (tasks r')) ∧ length (tasks r') = length (tasks r)
  | None =>
      ev = None ∧ ∀ t, t ∈ tasks r → task_id t ∈ map task_id (tasks r')
  end.
Proof.
  intros Hwf. unfold TaskRegistry_launch. destruct (TaskRegistry_task_for_app r app) as [t0|] eqn:Happ.
  - case_match; [done|]. destruct ev; [done|].
    pose proof (background_same r (Some (task_id t0))) as (_&_&_&_&Hids&_).
    destruct (TaskRegistry_background_foreground r (Some (task_id t0))) as [bg r1]. simpl in *.
    case_match; [|done]. intros [= <- <-]. simpl. split; [done|]. intros x Hx.
    rewrite map_update_first by done. rewrite Hids. by apply list_elem_of_fmap_2.
  - case_match eqn:Hlen.
    + destruct (tasks r) as [|o' rest] eqn:Ht; [done|]. destruct ev as [ev|]; [|done].
      destruct (TaskRegistry_evict_capacity_victim r ev) as [[out|e|] r1] eqn:He; [|done|done].
      apply evict_ok in He as (o2&rest2&Ht2&->&->&Hid&_). rewrite Ht in Ht2. injection Ht2 as <- <-.
      unfold launch_new. pose proof (background_same (set_tasks rest r) None) as (_&_&_&Hl&Hids&_).
      destruct (TaskRegistry_background_foreground (set_tasks rest r) None) as [bg r1]. simpl in *.
      intros [= <- <-]. simpl. unbool_hyps. unfold TaskRegistry_oldest_task. rewrite Ht.
      split_and!; [done|done|by rewrite Hid; destruct ev| | |].
      * intros t [->|Hin]%elem_of_cons; [done|]. pose proof (kw_order _ Hwf) as Ho. rewrite Ht in Ho.
        inversion_clear Ho as [|?? _ Hall]. rewrite Forall_forall in Hall. specialize (Hall t Hin).
        unfold created_lt in Hall. lia.
      * rewrite removelast_last, Hids. pose proof (kw_ids _ Hwf) as Hnd. rewrite Ht in Hnd.
        by apply NoDup_cons in Hnd as [? _].
      * rewrite length_app, Hl. simpl. lia.
    + destruct ev; [done|]. unfold launch_new. pose proof (background_same r None) as (_&_&_&_&Hids&_).
      destruct (TaskRegistry_background_foreground r None) as [bg r1]. simpl in *.
      intros [= <- <-]. simpl. split; [done|]. intros t Ht. rewrite map_app, Hids. apply elem_of_app.
      left. by apply list_elem_of_fmap_2.
Qed.

Lemma launch_evicts_oldest_witness :
  let run := TaskRegistry_launch two_tasks "dev.cardputerzero.chess" "1.0.0" (sample_binding 9)
    (Some (mkEvictionCheckpoint 1 (Unavailable CkTimeout))) in
  match run.1 with
  | Ok o => ∃ e, lo_evicted o = Some e ∧ TaskRegistry_oldest_task two_tasks = Some (evicted_task e)
  | _ => False
  end.
Proof.
  intros run. pose proof (launch_evicts_oldest two_tasks "dev.cardputerzero.chess" "1.0.0" (sample_binding 9)
    (Some (mkEvictionCheckpoint 1 (Unavailable CkTimeout)))) as H.
  assert (is_ok run.1 = true ∧ ∀ o, run.1 = Ok o → is_Some (lo_evicted o)) as [Hok Hev].
  { split; [by vm_compute|]. vm_compute. intros o [= <-]. by eexists. }
  destruct run as [[o|e|] r'] eqn:Hrun; [|done..]. specialize (H o r' two_tasks_wf Hrun).
  destruct (Hev o eq_refl) as [e He]. rewrite He in H. exists e. split; [done|]. apply H.
Defined.

(** On a well-formed registry no operation panics, and one that fails
    changes nothing. *)
Theorem task_errors_change_nothing r app v b ev e id status tok gen :
  tasks_wf r → (0 < capacity r)%nat →
  all_or_nothing r (TaskRegistry_launch r app v b ev) ∧
  all_or_nothing r (TaskRegistry_evict_capacity_victim r e) ∧
  all_or_nothing r (TaskRegistry_activate r id) ∧ all_or_nothing r (TaskRegistry_freeze r id) ∧
  all_or_nothing r (TaskRegistry_checkpoint r id status) ∧
  all_or_nothing r (TaskRegistry_update_thumbnail r id gen) ∧ all_or_nothing r (TaskRegistry_close r id) ∧
  ((TaskRegistry_runtime_exited r tok).1 = None → (TaskRegistry_runtime_exited r tok).2 = r).
Proof.
  intros Hwf Hcap. split_and!; auto using launch_all_or_nothing, evict_all_or_nothing, activate_all_or_nothing.
  - unfold TaskRegistry_freeze, all_or_nothing. by repeat case_match.
  - unfold TaskRegistry_checkpoint, all_or_nothing. by repeat case_match.
  - unfold TaskRegistry_update_thumbnail, all_or_nothing. by repeat case_match.
  - unfold TaskRegistry_close, all_or_nothing. case_match eqn:Hp; [|done].
    apply position_lookup in Hp as (x&->&_). done.
  - unfold TaskRegistry_runtime_exited. by case_match.
Qed.

Lemma task_errors_change_nothing_witness :
  all_or_nothing two_tasks (TaskRegistry_launch two_tasks "dev.cardputerzero.chess" "1.0.0" (sample_binding 9) None).
Proof.
  apply (task_errors_change_nothing two_tasks "dev.cardputerzero.chess" "1.0.0" (sample_binding 9) None
    (mkEvictionCheckpoint 1 NotRequested) 1 NotRequested 7 1 two_tasks_wf). vm_compute. lia.
Defined.

(** The exit of a runtime is charged to the one task bound to its token,
    which is then crashed and unbound; a second report finds nothing. *)
Theorem runtime_exit_hits_its_task r t b :
  tasks_wf r → t ∈ tasks r → t_runtime t = Some b →
  let run := TaskRegistry_runtime_exited r (token b) in
  run.1 = Some (task_id t) ∧ set_crashed t ∈ tasks run.2 ∧
  (∀ t', t' ∈ tasks r → t' ≠ t → t' ∈ tasks run.2) ∧
  TaskRegistry_runtime_exited run.2 (token b) = (None, run.2).
Proof.
  intros Hwf Ht Hb. simpl. unfold TaskRegistry_runtime_exited.
  assert (∀ t', t' ∈ tasks r → has_token (token b) t' = true → t' = t) as Huniq.
  { intros t' Ht' Hh. unfold has_token in Hh. destruct (t_runtime t') as [b'|] eqn:Hb'; [|done]. unbool_hyps.
    eapply (unique_by_token r); eauto using kw_tokens. }
  assert (has_token (token b) t = true) as Htok by (unfold has_token; rewrite Hb; apply Z.eqb_refl).
  destruct (List.find _ _) as [x|] eqn:Hf.
  2: { by rewrite (find_none_elem _ _ _ Hf Ht) in Htok. }
  pose proof Hf as Hf'. apply find_some_elem in Hf as [Hx Hhx]. rewrite (Huniq x Hx Hhx) in *. simpl.
  assert (∀ y, y ∈ update_first (has_token (token b)) set_crashed (tasks r) → has_token (token b) y = false) as Hnone.
  { intros y Hy. destruct (has_token (token b) y) eqn:Hhy; [|done].
    eapply (update_first_demotes (has_token (token b)) (λ _, true) set_crashed (tasks r)) in Hhy;
      [done|done| |].
    - eapply (count_if_same_id _ (task_id t)); [apply Hwf|]. intros z Hz Hhz. by rewrite (Huniq z Hz Hhz).
    - rewrite (update_first_ext _ (has_token (token b))) by (intros; apply andb_true_r). done. }
  split_and!; [done|by apply find_update_first| |].
  - intros t' Ht' Hne. apply update_first_keeps; [done|].
    destruct (has_token (token b) t') eqn:Hh; [|done]. by apply Huniq in Hh.
  - destruct (List.find _ (update_first _ _ _)) as [y|] eqn:Hy; [|done].
    apply find_some_elem in Hy as [Hy Hhy]. by rewrite Hnone in Hhy.
Qed.

Lemma runtime_exit_hits_its_task_witness :
  (TaskRegistry_runtime_exited two_tasks 7).1 = Some 1%Z.
Proof.
  apply (runtime_exit_hits_its_task two_tasks
    (mkTaskRecord 1 "dev.cardputerzero.hello" "0.1.0" Background 1 1 NotRequested None (Some (sample_binding 7)))
    (sample_binding 7) two_tasks_wf); [|done]. vm_compute. apply list_elem_of_here.
Defined.
