(* ===== verification/ResourceGovernor.v ===== *)
(** * The resource governor (crates/cp0-appd/src/resource_governor.rs)

    Which CPU weights to set and which one background task to freeze or stop
    under memory pressure.  The plan is a pure function of the task registry of
    [Tasks].

    The theorems: the plan gives every resident task the weight of its state,
    contains at most one disruptive action, never touches the foreground task,
    picks the least recently used candidate, and the registry accepts the
    action. *)

From S2P Require Import Prelude RustStr Manifest Tasks.

Definition FOREGROUND_CPU_WEIGHT : Z := 100.
Definition BACKGROUND_CPU_WEIGHT : Z := 20.
Definition FROZEN_CPU_WEIGHT : Z := 1.

Inductive MemoryPressure := Healthy | Constrained | Critical.

Inductive ResourceAction :=
  | SetCpuWeight (task_id weight : Z)
  | Freeze (task_id : Z)
  | CheckpointAndStop (task_id : Z)
  | RevokeForegroundLeases (task_id : Z).

Inductive BackgroundCapability := CapNetwork | CapAudioPlayback | CapCamera | CapAudioCapture
  | CapGpioOutput | CapRadioTransmit.

Definition BackgroundCapability_may_continue (c : BackgroundCapability) : bool :=
  match c with CapNetwork | CapAudioPlayback => true | _ => false end.

(** [Iterator::min_by_key]: the first of the smallest elements. *)
Definition min_by_key (key : TaskRecord → Z) (l : list TaskRecord) : option TaskRecord :=
  foldl (λ best t, match best with
                   | Some b => if (key t <? key b)%Z then Some t else Some b
                   | None => Some t
                   end) None l.

Definition least_recent (r : TaskRegistry) (state : TaskState) : option Z :=
  task_id <$> min_by_key last_activated_sequence
                (List.filter (λ t, bool_decide (t_state t = state)) (tasks r)).

Definition cpu_weight (t : TaskRecord) : option ResourceAction :=
  match t_state t with
  | Foreground => Some (SetCpuWeight (task_id t) FOREGROUND_CPU_WEIGHT)
  | Background => Some (SetCpuWeight (task_id t) BACKGROUND_CPU_WEIGHT)
  | Frozen => Some (SetCpuWeight (task_id t) FROZEN_CPU_WEIGHT)
  | Checkpointed | Crashed => None
  end.

Definition plan_resources (r : TaskRegistry) (pressure : MemoryPressure) : list ResourceAction :=
  omap cpu_weight (List.filter (λ t, TaskState_is_resident (t_state t)) (tasks r))
  ++ match pressure with
     | Healthy => []
     | Constrained =>
         match least_recent r Background with Some id => [Freeze id] | None => [] end
     | Critical =>
         match least_recent r Frozen with
         | Some id => [CheckpointAndStop id]
         | None => match least_recent r Background with Some id => [Freeze id] | None => [] end
         end
     end.

Definition plan_foreground_change (previous : option Z) (next : Z) : list ResourceAction :=
  match previous with
  | Some p => if (p =? next)%Z then [] else [RevokeForegroundLeases p]
  | None => []
  end.

(** ** Lemmas *)

Lemma min_by_key_spec key l :
  match min_by_key key l with
  | None => l = []
  | Some m => m ∈ l ∧ ∀ t, t ∈ l → (key m ≤ key t)%Z
  end.
Proof.
  unfold min_by_key.
  assert (∀ l (pre : list TaskRecord) best, (match best with
      | None => pre = []
      | Some m => m ∈ pre ∧ ∀ t, t ∈ pre → (key m ≤ key t)%Z end) →
    match foldl (λ best t, match best with
                   | Some b => if (key t <? key b)%Z then Some t else Some b
                   | None => Some t end) best l with
    | None => pre ++ l = []
    | Some m => m ∈ pre ++ l ∧ ∀ t, t ∈ pre ++ l → (key m ≤ key t)%Z
    end) as Hgo.
  { clear l. induction l as [|t l IH]; intros pre best Hb; simpl; [by rewrite app_nil_r|].
    replace (pre ++ t :: l) with ((pre ++ [t]) ++ l) by (by rewrite <- app_assoc). apply IH.
    assert (∀ x, x ∈ pre ++ [t] ↔ x ∈ pre ∨ x = t) as Hel
      by (intros; by rewrite elem_of_app, list_elem_of_singleton).
    destruct best as [b|].
    - destruct Hb as [Hin Hle]. destruct (key t <? key b)%Z eqn:E; unbool_hyps; setoid_rewrite Hel.
      + split; [by right|]. intros x [Hx| ->]; [|lia]. specialize (Hle x Hx). lia.
      + split; [by left|]. intros x [Hx| ->]; [auto|lia].
    - subst pre. setoid_rewrite Hel. split; [by right|]. intros x [Hx| ->]; [by apply elem_of_nil in Hx|lia]. }
  exact (Hgo l [] None eq_refl).
Qed.

Lemma least_recent_spec r state id :
  least_recent r state = Some id →
  ∃ t, t ∈ tasks r ∧ task_id t = id ∧ t_state t = state ∧
    ∀ t', t' ∈ tasks r → t_state t' = state → (last_activated_sequence t ≤ last_activated_sequence t')%Z.
Proof.
  unfold least_recent. intros Hl.
  pose proof (min_by_key_spec last_activated_sequence
    (List.filter (λ t, bool_decide (t_state t = state)) (tasks r))) as Hm.
  destruct (min_by_key _ _) as [m|]; [|done]. injection Hl as Hid. destruct Hm as [Hin Hmin].
  rewrite list_elem_of_In, filter_In, <- list_elem_of_In in Hin. destruct Hin as [Hin Hst]. unbool_hyps.
  exists m. split_and!; [done..|]. intros t' Ht' Hs. apply Hmin.
  rewrite list_elem_of_In, filter_In, <- list_elem_of_In. split; [done|]. by apply bool_decide_eq_true_2.
Qed.

(** The task an id stands for, by search. *)
Lemma task_find r t : tasks_wf r → t ∈ tasks r → TaskRegistry_task r (task_id t) = Some t.
Proof.
  intros Hwf Ht. destruct (TaskRegistry_task r (task_id t)) as [x|] eqn:Hx.
  - apply task_elem in Hx as [Hin Hid]. f_equal. by apply (unique_by_id r).
  - exfalso. assert (is_Some (TaskRegistry_task r (task_id t))) as [? ?]; [|congruence].
    apply find_id_iff. by apply list_elem_of_fmap_2.
Qed.

Definition disruptive (a : ResourceAction) : bool :=
  match a with SetCpuWeight _ _ => false | _ => true end.

(** The plan without the weights. *)
Lemma plan_disruptive r pressure a :
  a ∈ plan_resources r pressure → disruptive a = true →
  (∃ id, a = Freeze id ∧ least_recent r Background = Some id ∧ pressure ≠ Healthy ∧
         (pressure = Critical → least_recent r Frozen = None)) ∨
  (∃ id, a = CheckpointAndStop id ∧ least_recent r Frozen = Some id ∧ pressure = Critical).
Proof.
  unfold plan_resources. intros [Ha|Ha]%elem_of_app Hd.
  - apply list_elem_of_omap in Ha as (t&_&Ht). unfold cpu_weight in Ht. by destruct (t_state t); simplify_eq.
  - destruct pressure; [by apply elem_of_nil in Ha|..]; repeat case_match;
      first [by apply elem_of_nil in Ha|apply list_elem_of_singleton in Ha as ->].
    + left. eexists. by split_and!.
    + right. by eexists.
    + left. eexists. by split_and!.
Qed.

(** ** Properties *)

(** Under any memory pressure the plan leaves the foreground task alone and
    disrupts at most one task: the least recently used background task is
    frozen, or under critical pressure the least recently used frozen task is
    checkpointed and stopped; and the task registry accepts the action. *)
Theorem pressure_spares_foreground r pressure a :
  tasks_wf r → a ∈ plan_resources r pressure → disruptive a = true →
  (∀ a', a' ∈ plan_resources r pressure → disruptive a' = true → a' = a) ∧
  ∃ t, t ∈ tasks r ∧ t_state t ≠ Foreground ∧
    (∀ t', t' ∈ tasks r → t_state t' = t_state t →
       (last_activated_sequence t ≤ last_activated_sequence t')%Z) ∧
    ((a = Freeze (task_id t) ∧ t_state t = Background ∧
      (TaskRegistry_freeze r (task_id t)).1 = Ok tt) ∨
     (a = CheckpointAndStop (task_id t) ∧ t_state t = Frozen ∧ pressure = Critical ∧
      ∀ status, (TaskRegistry_checkpoint r (task_id t) status).1 = Ok tt)).
Proof.
  intros Hwf Ha Hd. split.
  - intros a' Ha' Hd'.
    destruct (plan_disruptive _ _ _ Ha Hd) as [(id&->&Hl&?&Hn)|(id&->&Hl&?)],
      (plan_disruptive _ _ _ Ha' Hd') as [(id'&->&Hl'&?&Hn')|(id'&->&Hl'&?)]; try congruence.
    + specialize (Hn ltac:(done)). congruence.
    + specialize (Hn' ltac:(done)). congruence.
  - destruct (plan_disruptive _ _ _ Ha Hd) as [(id&->&Hl&_)|(id&->&Hl&Hp)];
      apply least_recent_spec in Hl as (t&Hin&<-&Hst&Hmin); exists t; rewrite Hst;
      pose proof (task_find r t Hwf Hin) as Hf; (split_and!; [done..|]).
    + left. unfold TaskRegistry_freeze. by rewrite Hf, Hst.
    + right. split_and!; [done..|]. intros status. unfold TaskRegistry_checkpoint. by rewrite Hf, Hst.
Qed.

Lemma pressure_spares_foreground_witness :
  ∃ t, t ∈ tasks two_tasks ∧ t_state t ≠ Foreground.
Proof.
  destruct (pressure_spares_foreground two_tasks Constrained (Freeze 1) two_tasks_wf) as (_&t&?&?&_);
    [|done|by exists t].
  vm_compute. by do 2 apply list_elem_of_further; apply list_elem_of_here.
Defined.

(** Every resident task gets exactly the weight of its state. *)
Lemma plan_weights r pressure id weight :
  SetCpuWeight id weight ∈ plan_resources r pressure ↔
  ∃ t, t ∈ tasks r ∧ task_id t = id ∧
    ((t_state t = Foreground ∧ weight = FOREGROUND_CPU_WEIGHT) ∨
     (t_state t = Background ∧ weight = BACKGROUND_CPU_WEIGHT) ∨
     (t_state t = Frozen ∧ weight = FROZEN_CPU_WEIGHT)).
Proof.
  unfold plan_resources. rewrite elem_of_app, list_elem_of_omap. split.
  - intros [(t&Ht&Hw)|Ha].
    + rewrite list_elem_of_In, filter_In, <- list_elem_of_In in Ht. destruct Ht as [Ht _]. exists t.
      unfold cpu_weight in Hw. destruct (t_state t) eqn:Hs; simplify_eq; (split_and!; [done..|]); auto.
    + destruct pressure; [by apply elem_of_nil in Ha|..]; repeat case_match;
        first [by apply elem_of_nil in Ha|by apply list_elem_of_singleton in Ha].
  - intros (t&Ht&<-&Hs). left. exists t. rewrite list_elem_of_In, filter_In, <- list_elem_of_In. unfold cpu_weight.
    by destruct Hs as [[-> ->]|[[-> ->]|[-> ->]]].
Qed.
