(* ===== verification/Intent.v ===== *)
(** * Intents between applications (crates/cp0-appd/src/intent.rs)

    One bounded queue carries the messages of all applications.  The
    specification gives every application a mailbox of its own: the theorem
    shows that the shared queue with its search by target refines them.  Ids
    are handed out in increasing order and never twice. *)

From S2P Require Import Prelude RustStr Manifest.

Definition MAX_PENDING_INTENTS : nat := 8.
Definition MAX_INTENT_PAYLOAD_BYTES : nat := 1024.

Record PendingIntent := mkPendingIntent {
  intent_id : Z;
  sender_app_id : string;
  target_app_id : string;
  in_action : string;
  in_payload : list ascii;
}.

Inductive IntentQueueError := IqInvalidAction | IqPayloadTooLarge | IqFull | IqExhausted.

Record IntentQueue := mkIntentQueue { iq_next_id : Z; iq_pending : list PendingIntent }.

(** [#[derive(Default)]]. *)
Definition IntentQueue_default : IntentQueue := {| iq_next_id := 0; iq_pending := [] |}.

Definition IntentQueue_enqueue (q : IntentQueue) (sender target action : string) (payload : list ascii)
    : result IntentQueueError Z * IntentQueue :=
  if negb (is_valid_intent_action action) then (Err IqInvalidAction, q)
  else if (MAX_INTENT_PAYLOAD_BYTES <? length payload)%nat then (Err IqPayloadTooLarge, q)
  else if (MAX_PENDING_INTENTS <=? length (iq_pending q))%nat then (Err IqFull, q)
  else match checked_add_u64 (iq_next_id q) 1 with
  | None => (Err IqExhausted, q)
  | Some id =>
      (Ok id, {| iq_next_id := id;
                 iq_pending := iq_pending q ++
                   [{| intent_id := id; sender_app_id := sender; target_app_id := target;
                       in_action := action; in_payload := payload |}] |})
  end.

Definition for_target (target : string) (i : PendingIntent) : bool :=
  bool_decide (target_app_id i = target).

Definition IntentQueue_take (q : IntentQueue) (target : string) : option PendingIntent * IntentQueue :=
  match position (for_target target) (iq_pending q) with
  | None => (None, q)
  | Some index => (iq_pending q !! index, mkIntentQueue (iq_next_id q) (vec_remove index (iq_pending q)))
  end.

Definition IntentQueue_cancel (q : IntentQueue) (id : Z) : bool * IntentQueue :=
  match position (λ i, (intent_id i =? id)%Z) (iq_pending q) with
  | None => (false, q)
  | Some index => (true, mkIntentQueue (iq_next_id q) (vec_remove index (iq_pending q)))
  end.

(** ** The specification: one mailbox per application *)

Definition mailbox (q : IntentQueue) (target : string) : list PendingIntent :=
  List.filter (for_target target) (iq_pending q).

Record intent_queue_wf (q : IntentQueue) : Prop := {
  iw_next : (0 ≤ iq_next_id q ≤ u64_max)%Z;
  iw_length : (length (iq_pending q) ≤ MAX_PENDING_INTENTS)%nat;
  iw_order : StronglySorted (λ x y, (intent_id x < intent_id y)%Z) (iq_pending q);
  iw_items : Forall (λ i, (1 ≤ intent_id i ≤ iq_next_id q)%Z ∧ is_valid_intent_action (in_action i) = true ∧
                          (length (in_payload i) ≤ MAX_INTENT_PAYLOAD_BYTES)%nat) (iq_pending q);
}.

Inductive intent_step : IntentQueue → IntentQueue → Prop :=
  | is_enqueue q s t a p : intent_step q (IntentQueue_enqueue q s t a p).2
  | is_take q t : intent_step q (IntentQueue_take q t).2
  | is_cancel q id : intent_step q (IntentQueue_cancel q id).2.

(** ** Lemmas *)

Lemma intent_wf_remove q i : intent_queue_wf q → intent_queue_wf (mkIntentQueue (iq_next_id q) (vec_remove i (iq_pending q))).
Proof.
  intros [H1 H2 H3 H4]. pose proof (sublist_vec_remove i (iq_pending q)) as Hs. constructor; simpl; [done|..].
  - apply sublist_length in Hs. lia.
  - by eapply sublist_StronglySorted.
  - rewrite Forall_forall in *. intros x Hx. by eapply H4, elem_of_sublist.
Qed.

Lemma intent_wf_enqueue q s t a p : intent_queue_wf q → intent_queue_wf (IntentQueue_enqueue q s t a p).2.
Proof.
  intros Hwf. pose proof Hwf as [H1 H2 H3 H4]. unfold IntentQueue_enqueue.
  do 3 (case_match; [done|]). unfold checked_add_u64. destruct (_ <=? _)%Z eqn:Hid; [|done]. simpl. unbool_hyps.
  constructor; simpl; [lia|rewrite length_app; simpl; lia|..].
  - apply StronglySorted_snoc; [done|]. rewrite Forall_forall in H4. intros y Hy. specialize (H4 y Hy). simpl in *. lia.
  - apply Forall_app. split.
    + eapply Forall_impl; [exact H4|]. simpl. intros x (?&?&?). split_and!; auto; lia.
    + constructor; [|done]. simpl. split_and!; [lia|lia|done|done].
Qed.

Lemma intent_step_wf q q' : intent_step q q' → intent_queue_wf q → intent_queue_wf q'.
Proof.
  destruct 1; intros Hwf; [by apply intent_wf_enqueue| |]; unfold IntentQueue_take, IntentQueue_cancel;
    case_match; simpl; auto using intent_wf_remove.
Qed.

(** Removing the first match: its mailbox loses the head, the others nothing. *)
Lemma filter_remove_own (f : PendingIntent → bool) l i :
  position f l = Some i → List.filter f (vec_remove i l) = tail (List.filter f l).
Proof.
  revert i. induction l as [|x l IH]; intros i Hp; simplify_eq/=.
  destruct (f x) eqn:Hf; simplify_eq/=; [done|].
  destruct (position f l) as [j|]; simplify_eq/=. rewrite Hf. auto.
Qed.

Lemma filter_remove_other (g : PendingIntent → bool) l i x :
  l !! i = Some x → g x = false → List.filter g (vec_remove i l) = List.filter g l.
Proof.
  revert i. induction l as [|y l IH]; intros [|i] Hx Hg; simplify_eq/=; [by rewrite Hg|].
  by rewrite (IH i).
Qed.

Lemma position_none_filter (f : PendingIntent → bool) l : position f l = None → List.filter f l = [].
Proof.
  induction l as [|x l IH]; simpl; [done|]. destruct (f x); [done|].
  destruct (position f l); [done|]. auto.
Qed.

Lemma position_head_filter (f : PendingIntent → bool) l i :
  position f l = Some i → head (List.filter f l) = l !! i.
Proof.
  revert i. induction l as [|x l IH]; intros i Hp; simplify_eq/=.
  destruct (f x); simplify_eq/=; [done|]. destruct (position f l) as [j|]; simplify_eq/=. auto.
Qed.

(** ** Properties *)

(** The shared queue refines one mailbox per application: an accepted
    message goes to the end of its target's mailbox and no other; taking
    returns the oldest message of the caller's own mailbox, exactly once, and
    no other mailbox changes; and in every reachable queue there are at most
    eight messages, with increasing ids, valid actions and bounded payloads. *)
Theorem intent_queue_refines_mailboxes q :
  rtc intent_step IntentQueue_default q →
  intent_queue_wf q ∧
  (∀ s t a p id q' u, IntentQueue_enqueue q s t a p = (Ok id, q') →
     mailbox q' u = mailbox q u ++ (if decide (t = u) then [mkPendingIntent id s t a p] else []) ∧
     id ∉ map intent_id (iq_pending q)) ∧
  (∀ t u, (IntentQueue_take q t).1 = head (mailbox q t) ∧
     mailbox (IntentQueue_take q t).2 u = if decide (t = u) then tail (mailbox q u) else mailbox q u).
Proof.
  intros Hr. assert (intent_queue_wf q) as Hwf.
  { assert (intent_queue_wf IntentQueue_default) as H0 by (constructor; simpl; [unfold u64_max; lia|unfold MAX_PENDING_INTENTS; lia|constructor..]).
    revert H0. induction Hr; eauto using intent_step_wf. }
  split_and!; [done|..].
  - intros s t a p id q' u He. unfold IntentQueue_enqueue in He. do 3 (case_match; [done|]).
    case_match eqn:Hid; [|done]. injection He as <- <-. unfold mailbox. simpl.
    rewrite List.filter_app. simpl. unfold for_target at 2. simpl. split.
    + case_bool_decide; destruct (decide (t = u)); done.
    + rewrite list_elem_of_fmap. intros (x&Heq&Hx). destruct Hwf as [_ _ _ Hi]. rewrite Forall_forall in Hi.
      specialize (Hi x Hx). unfold checked_add_u64 in Hid. case_match; simplify_eq. lia.
  - intros t u. unfold IntentQueue_take, mailbox. destruct (position _ _) as [i|] eqn:Hp; simpl.
    + rewrite (position_head_filter _ _ _ Hp). split; [done|].
      destruct (position_lookup _ _ _ Hp) as (x&Hx&Hfx). unfold for_target in Hfx. unbool_hyps.
      destruct (decide (t = u)) as [<-|Hne]; [by apply filter_remove_own|].
      apply (filter_remove_other _ _ _ _ Hx). unfold for_target. apply bool_decide_eq_false_2. congruence.
    + rewrite (position_none_filter _ _ Hp). split; [done|]. destruct (decide (t = u)) as [<-|]; [|done].
      by rewrite (position_none_filter _ _ Hp).
Qed.

Lemma intent_queue_refines_mailboxes_witness :
  let q := (IntentQueue_enqueue IntentQueue_default "dev.cardputerzero.a" "dev.cardputerzero.b"
              "dev.cardputerzero.documents.open" []).2 in
  (IntentQueue_take q "dev.cardputerzero.b").1 = head (mailbox q "dev.cardputerzero.b").
Proof.
  apply (intent_queue_refines_mailboxes (IntentQueue_enqueue IntentQueue_default "dev.cardputerzero.a"
    "dev.cardputerzero.b" "dev.cardputerzero.documents.open" []).2); [|exact EmptyString].
  eapply rtc_l; [apply is_enqueue|apply rtc_refl].
Defined.

(** Cancelling removes the message with that id and no other. *)
Lemma cancel_removes_one q id :
  intent_queue_wf q →
  let run := IntentQueue_cancel q id in
  (run.1 = true ↔ id ∈ map intent_id (iq_pending q)) ∧
  (∀ i, i ∈ iq_pending run.2 ↔ i ∈ iq_pending q ∧ intent_id i ≠ id).
Proof.
  intros Hwf. simpl. unfold IntentQueue_cancel. destruct (position _ _) as [i|] eqn:Hp; simpl.
  - destruct (position_lookup _ _ _ Hp) as (x&Hx&Hid). unbool_hyps.
    pose proof (vec_remove_position_perm _ _ _ _ Hp Hx) as Hperm.
    assert (NoDup (map intent_id (iq_pending q))) as Hnd.
    { apply (StronglySorted_NoDup_proj Z.lt), Hwf. }
    pose proof Hnd as Hnd2. apply (Permutation_map intent_id) in Hperm as Hpm. rewrite Hpm in Hnd2. simpl in Hnd2.
    apply NoDup_cons in Hnd2 as [Hnin _]. split.
    + split; [|done]. intros _. rewrite Hpm. simpl. rewrite Hid. apply list_elem_of_here.
    + intros y. assert (y ∈ iq_pending q ↔ y = x ∨ y ∈ vec_remove i (iq_pending q)) as ->
        by (etrans; [by rewrite Hperm at 1|apply elem_of_cons]).
      split.
      * intros Hy. split; [by right|]. intros Heq. apply Hnin. rewrite Hid, <- Heq. by apply list_elem_of_fmap_2.
      * intros [[->|?] ?]; congruence.
  - assert (∀ x, x ∈ iq_pending q → intent_id x ≠ id) as Hno.
    { intros x Hx. pose proof (position_find (λ i, (intent_id i =? id)%Z) (iq_pending q)) as Hf. rewrite Hp in Hf.
      apply (find_none_elem _ _ _ Hf) in Hx. by unbool_hyps. }
    split.
    + split; [done|]. rewrite list_elem_of_fmap. intros (x&->&Hx). by apply Hno in Hx.
    + intros y. split; [auto|by intros [? _]].
Qed.
