(* ===== verification/MediaSession.v ===== *)
(** * Media sessions (crates/cp0-appd/src/media_session.rs)

    The one application that plays media and the keys the shell sends it.
    Supported actions are a bit mask of an unsigned byte.

    The theorems: the queue of a session never holds more than four actions nor
    one the application does not support; actions reach exactly the runtime
    they were dispatched to, in order. *)

From S2P Require Import Prelude.

Definition MEDIA_ACTION_PLAY_PAUSE : Z := Z.shiftl 1 0.
Definition MEDIA_ACTION_PREVIOUS : Z := Z.shiftl 1 1.
Definition MEDIA_ACTION_NEXT : Z := Z.shiftl 1 2.
Definition MEDIA_ACTION_ALL : Z :=
  Z.lor (Z.lor MEDIA_ACTION_PLAY_PAUSE MEDIA_ACTION_PREVIOUS) MEDIA_ACTION_NEXT.
Definition MAX_PENDING_MEDIA_ACTIONS : nat := 4.

Inductive MediaPlaybackState := Inactive | Paused | Playing.
Inductive MediaAction := PlayPause | Previous | Next.
Global Instance MediaPlaybackState_eq_dec : EqDecision MediaPlaybackState.
Proof. solve_decision. Defined.
Global Instance MediaAction_eq_dec : EqDecision MediaAction.
Proof. solve_decision. Defined.

(** [!x] on a [u8]. *)
Definition not_u8 (x : Z) : Z := Z.lxor x 255.

Definition valid_media_session_update (state : MediaPlaybackState) (supported_actions : Z) : bool :=
  if negb (Z.land supported_actions (not_u8 MEDIA_ACTION_ALL) =? 0)%Z then false
  else match state with
       | Inactive => (supported_actions =? 0)%Z
       | Paused | Playing => negb (supported_actions =? 0)%Z
       end.

Definition MediaAction_capability (a : MediaAction) : Z :=
  match a with
  | PlayPause => MEDIA_ACTION_PLAY_PAUSE
  | Previous => MEDIA_ACTION_PREVIOUS
  | Next => MEDIA_ACTION_NEXT
  end.

Inductive MediaSessionError := MediaUnavailable | MediaUnsupported | MediaFull.

Record MediaSession := mkMediaSession {
  ms_app_id : string;
  ms_runtime_token : Z;
  ms_state : MediaPlaybackState;
  ms_supported_actions : Z;
  ms_actions : list MediaAction;
}.

(** [MediaSessionBroker { session }]. *)
Record MediaSessionBroker := mkMediaSessionBroker { mb_session : option MediaSession }.
Definition MediaSessionBroker_default : MediaSessionBroker := mkMediaSessionBroker None.

Definition belongs_to (app_id : string) (tok : Z) (s : MediaSession) : bool :=
  bool_decide (ms_app_id s = app_id) && (ms_runtime_token s =? tok)%Z.

Definition supports (supported_actions : Z) (a : MediaAction) : bool :=
  negb (Z.land supported_actions (MediaAction_capability a) =? 0)%Z.

Definition MediaSessionBroker_clear_app (b : MediaSessionBroker) (app_id : string) : MediaSessionBroker :=
  match mb_session b with
  | Some s => if bool_decide (ms_app_id s = app_id) then mkMediaSessionBroker None else b
  | None => b
  end.

Definition MediaSessionBroker_update (b : MediaSessionBroker) (app_id : string) (tok : Z)
    (state : MediaPlaybackState) (supported_actions : Z) : MediaSessionBroker :=
  if bool_decide (state = Inactive) then MediaSessionBroker_clear_app b app_id
  else
    let fresh := {| ms_app_id := app_id; ms_runtime_token := tok; ms_state := state;
                    ms_supported_actions := supported_actions; ms_actions := [] |} in
    let session := default fresh (mb_session b) in
    if negb (belongs_to app_id tok session) then mkMediaSessionBroker (Some fresh)
    else mkMediaSessionBroker (Some
      {| ms_app_id := ms_app_id session; ms_runtime_token := ms_runtime_token session; ms_state := state;
         ms_supported_actions := supported_actions;
         ms_actions := List.filter (supports supported_actions) (ms_actions session) |}).

Definition set_actions (l : list MediaAction) (s : MediaSession) : MediaSession :=
  {| ms_app_id := ms_app_id s; ms_runtime_token := ms_runtime_token s; ms_state := ms_state s;
     ms_supported_actions := ms_supported_actions s; ms_actions := l |}.

Definition MediaSessionBroker_dispatch (b : MediaSessionBroker) (app_id : string) (tok : Z)
    (action : MediaAction) : result MediaSessionError unit * MediaSessionBroker :=
  match mb_session b with
  | None => (Err MediaUnavailable, b)
  | Some s =>
      if negb (belongs_to app_id tok s) then (Err MediaUnavailable, b)
      else if negb (supports (ms_supported_actions s) action) then (Err MediaUnsupported, b)
      else if (MAX_PENDING_MEDIA_ACTIONS <=? length (ms_actions s))%nat then (Err MediaFull, b)
      else (Ok tt, mkMediaSessionBroker (Some (set_actions (ms_actions s ++ [action]) s)))
  end.

Definition MediaSessionBroker_take (b : MediaSessionBroker) (app_id : string) (tok : Z)
    : option MediaAction * MediaSessionBroker :=
  match mb_session b with
  | None => (None, b)
  | Some s =>
      if negb (belongs_to app_id tok s) then (None, b)
      else match ms_actions s with
      | [] => (None, b)
      | a :: rest => (Some a, mkMediaSessionBroker (Some (set_actions rest s)))
      end
  end.

Definition MediaSessionBroker_clear_runtime (b : MediaSessionBroker) (app_id : string) (tok : Z)
    : MediaSessionBroker :=
  match mb_session b with
  | Some s => if belongs_to app_id tok s then mkMediaSessionBroker None else b
  | None => b
  end.

Definition MediaSessionBroker_clear (b : MediaSessionBroker) : MediaSessionBroker :=
  mkMediaSessionBroker None.

(** ** The invariant *)

Definition session_wf (s : MediaSession) : Prop :=
  (length (ms_actions s) ≤ MAX_PENDING_MEDIA_ACTIONS)%nat ∧
  Forall (λ a, supports (ms_supported_actions s) a = true) (ms_actions s) ∧ ms_state s ≠ Inactive ∧
  valid_media_session_update (ms_state s) (ms_supported_actions s) = true.

Definition broker_wf (b : MediaSessionBroker) : Prop :=
  ∀ s, mb_session b = Some s → session_wf s.

(** The service checks an update before it reaches the broker. *)
Inductive media_step : MediaSessionBroker → MediaSessionBroker → Prop :=
  | md_update b app tok state sup :
      valid_media_session_update state sup = true → media_step b (MediaSessionBroker_update b app tok state sup)
  | md_dispatch b app tok a : media_step b (MediaSessionBroker_dispatch b app tok a).2
  | md_take b app tok : media_step b (MediaSessionBroker_take b app tok).2
  | md_clear_runtime b app tok : media_step b (MediaSessionBroker_clear_runtime b app tok)
  | md_clear_app b app : media_step b (MediaSessionBroker_clear_app b app)
  | md_clear b : media_step b (MediaSessionBroker_clear b).

Lemma filter_length_le {A} (f : A → bool) l : (length (List.filter f l) ≤ length l)%nat.
Proof. induction l as [|x l IH]; simpl; [lia|]. destruct (f x); simpl; lia. Qed.

Lemma clear_app_wf b app : broker_wf b → broker_wf (MediaSessionBroker_clear_app b app).
Proof.
  intros Hb. unfold MediaSessionBroker_clear_app. destruct (mb_session b) eqn:E; [|done].
  by case_bool_decide.
Qed.

Lemma update_wf b app tok state sup :
  valid_media_session_update state sup = true → broker_wf b →
  broker_wf (MediaSessionBroker_update b app tok state sup).
Proof.
  intros Hv Hb. unfold MediaSessionBroker_update. case_bool_decide as Hi; [by apply clear_app_wf|].
  assert (session_wf (mkMediaSession app tok state sup [])) as Hfresh
    by (split_and!; [unfold MAX_PENDING_MEDIA_ACTIONS; simpl; lia|constructor|done|done]).
  case_match; intros s [= <-]; [done|].
  destruct (mb_session b) as [s|] eqn:Hs; simpl in *; [|done]. destruct (Hb s Hs) as (Hl&Hf&_&_).
  split_and!; simpl; [|..|done|done].
  - etrans; [apply filter_length_le|done].
  - apply Forall_forall. intros a Ha. rewrite list_elem_of_In, filter_In in Ha. by apply Ha.
Qed.

Lemma media_step_wf b b' : media_step b b' → broker_wf b → broker_wf b'.
Proof.
  destruct 1; intros Hb; auto using update_wf, clear_app_wf.
  - unfold MediaSessionBroker_dispatch. destruct (mb_session b) as [s|] eqn:Hs; [|done].
    do 3 (case_match; [done|]). simpl. intros s' [= <-]. destruct (Hb s Hs) as (Hl&Hf&?&?). unbool_hyps.
    split_and!; simpl; [rewrite length_app; simpl; lia| |done|done].
    apply Forall_app. split; [done|]. by constructor.
  - unfold MediaSessionBroker_take. destruct (mb_session b) as [s|] eqn:Hs; [|done].
    case_match; [done|]. destruct (ms_actions s) as [|a rest] eqn:Ha; [done|]. simpl. intros s' [= <-].
    destruct (Hb s Hs) as (Hl&Hf&?&?). rewrite Ha in *. apply Forall_cons in Hf as [_ Hf].
    split_and!; simpl in *; [lia|done..].
  - unfold MediaSessionBroker_clear_runtime. destruct (mb_session b) as [s|] eqn:Hs; [|done]. by case_match.
  - done.
Qed.

(** The actions that a runtime will receive. *)
Definition media_queue (b : MediaSessionBroker) (app : string) (tok : Z) : list MediaAction :=
  match mb_session b with
  | Some s => if belongs_to app tok s then ms_actions s else []
  | None => []
  end.

(** ** Properties *)

(** In every reachable state the pending media keys are at most four and
    all supported by the application that plays, which is not inactive. *)
Theorem media_session_invariant b : rtc media_step MediaSessionBroker_default b → broker_wf b.
Proof.
  intros Hr. assert (broker_wf MediaSessionBroker_default) as H0 by done. revert H0.
  induction Hr; eauto using media_step_wf.
Qed.

Lemma media_session_invariant_witness :
  broker_wf (MediaSessionBroker_update MediaSessionBroker_default "dev.cardputerzero.player" 7 Playing 5).
Proof. apply media_session_invariant. apply rtc_once, md_update. by vm_compute. Defined.

(** A media key that is accepted is delivered to the runtime it was
    dispatched to, after the keys already pending and exactly once; another
    runtime, even of the same application, receives nothing. *)
Theorem media_keys_delivered_in_order b app tok a app' tok' :
  let run := MediaSessionBroker_dispatch b app tok a in
  (run.1 = Ok tt → media_queue run.2 app tok = media_queue b app tok ++ [a]) ∧
  (run.1 ≠ Ok tt → run.2 = b) ∧
  (MediaSessionBroker_take b app tok).1 = head (media_queue b app tok) ∧
  media_queue (MediaSessionBroker_take b app tok).2 app tok = tail (media_queue b app tok) ∧
  (app' ≠ app ∨ tok' ≠ tok →
   (MediaSessionBroker_take run.2 app' tok').1 = (MediaSessionBroker_take b app' tok').1).
Proof.
  simpl. unfold MediaSessionBroker_dispatch, MediaSessionBroker_take, media_queue.
  destruct (mb_session b) as [s|] eqn:Hs; [|simpl; rewrite ?Hs; split_and!; by intros].
  destruct (belongs_to app tok s) eqn:Hb; simpl; [|rewrite ?Hs, ?Hb; split_and!; by intros].
  assert (∀ l, belongs_to app tok (set_actions l s) = true) as Hset by done.
  split_and!.
  - case_match; [done|]. case_match; [done|]. simpl. by rewrite Hset.
  - by repeat case_match.
  - by destruct (ms_actions s).
  - destruct (ms_actions s) eqn:Ha; simpl; [by rewrite Hs, Hb|by rewrite Hset].
  - intros Hne. assert (belongs_to app' tok' s = false) as Hb'.
    { unfold belongs_to in *. unbool_hyps. apply andb_false_iff. rewrite bool_decide_eq_false, Z.eqb_neq.
      destruct Hne; [left|right]; congruence. }
    assert (∀ l, belongs_to app' tok' (set_actions l s) = false) as Hb2 by done.
    destruct (supports _ _); simpl; [destruct (_ <=? _)%nat; simpl|]; rewrite ?Hs, ?Hb', ?Hb2; simpl; rewrite ?Hs, ?Hb'; done.
Qed.
