(* ===== verification/DocumentPrompt.v ===== *)
(** * The document picker (crates/cp0-appd/src/document_prompt.rs)

    An application asks for a document, the user picks one of the documents
    shown, and the application collects the answer with its next poll.  The
    grammar of document ids is that of crates/cp0-document-protocol.

    The theorems: a selection is one of the documents that the prompt showed;
    it reaches the application that asked, exactly once, and no other. *)

From S2P Require Import Prelude RustStr.

Definition DOCUMENT_ID_BYTES : nat := 32.

Record DocumentSummary := mkDocumentSummary {
  document_id : string;
  document_name : string;
  size_bytes : Z;
}.

Definition is_valid_document_id (value : string) : bool :=
  (String.length value =? DOCUMENT_ID_BYTES)%nat
  && bytes_all (λ b, is_ascii_digit b || byte_in 97 102 b) value.

Record DocumentPrompt := mkDocumentPrompt {
  dpr_prompt_id : Z;
  dpr_app_id : string;
  dpr_app_name : string;
  dpr_documents : list DocumentSummary;
}.

Inductive DocumentRequestResult :=
  | NeedsDocuments
  | Pending (prompt : DocumentPrompt)
  | Selected (document_id : string)
  | Cancelled.

Inductive ResolvedSelection := ResSelected (document_id : string) | ResCancelled.

Inductive DocumentPromptError :=
  | DocBusy (prompt : DocumentPrompt)
  | DocNoPendingPrompt
  | DocStalePrompt
  | DocInvalidSelection
  | DocEmptyDocumentList.

Record DocumentCoordinator := mkDocumentCoordinator {
  dc_pending : option DocumentPrompt;
  dc_resolved : option (string * ResolvedSelection);
  dc_next_prompt_id : Z;
}.

Definition DocumentCoordinator_default : DocumentCoordinator :=
  {| dc_pending := None; dc_resolved := None; dc_next_prompt_id := 0 |}.

Definition delivered (s : ResolvedSelection) : DocumentRequestResult :=
  match s with ResSelected d => Selected d | ResCancelled => Cancelled end.

Definition DocumentCoordinator_poll (c : DocumentCoordinator) (app_id : string)
    : result DocumentPromptError DocumentRequestResult * DocumentCoordinator :=
  let pending :=
    match dc_pending c with
    | Some prompt =>
        if bool_decide (dpr_app_id prompt = app_id) then (Ok (Pending prompt), c)
        else (Err (DocBusy prompt), c)
    | None => (Ok NeedsDocuments, c)
    end in
  match dc_resolved c with
  | Some (resolved_app, selection) =>
      if bool_decide (resolved_app = app_id)
      then (Ok (delivered selection),
            {| dc_pending := dc_pending c; dc_resolved := None; dc_next_prompt_id := dc_next_prompt_id c |})
      else pending
  | None => pending
  end.

Definition DocumentCoordinator_request (c : DocumentCoordinator) (app_id app_name : string)
    (documents : list DocumentSummary)
    : result DocumentPromptError DocumentRequestResult * DocumentCoordinator :=
  match DocumentCoordinator_poll c app_id with
  | (Ok NeedsDocuments, c) =>
      if bool_decide (documents = []) then (Err DocEmptyDocumentList, c)
      else
        let id := wrapping_next_nonzero (dc_next_prompt_id c) in
        let prompt := {| dpr_prompt_id := id; dpr_app_id := app_id; dpr_app_name := app_name;
                         dpr_documents := documents |} in
        (Ok (Pending prompt),
         {| dc_pending := Some prompt; dc_resolved := dc_resolved c; dc_next_prompt_id := id |})
  | (r, c) => (r, c)
  end.

Definition DocumentCoordinator_pending (c : DocumentCoordinator) : option DocumentPrompt := dc_pending c.

Definition DocumentCoordinator_resolve (c : DocumentCoordinator) (id : Z) (choice : option string)
    : result DocumentPromptError (string * option string) * DocumentCoordinator :=
  match dc_pending c with
  | None => (Err DocNoPendingPrompt, c)
  | Some pending =>
      if negb (dpr_prompt_id pending =? id)%Z then (Err DocStalePrompt, c)
      else
        let finish selection selected :=
          (Ok (dpr_app_id pending, selected),
           {| dc_pending := None; dc_resolved := Some (dpr_app_id pending, selection);
              dc_next_prompt_id := dc_next_prompt_id c |}) in
        match choice with
        | Some d =>
            if is_valid_document_id d
               && existsb (λ doc, bool_decide (document_id doc = d)) (dpr_documents pending)
            then finish (ResSelected d) (Some d)
            else (Err DocInvalidSelection, c)
        | None => finish ResCancelled None
        end
  end.

Definition DocumentCoordinator_clear_app (c : DocumentCoordinator) (app_id : string) : DocumentCoordinator :=
  {| dc_pending := match dc_pending c with
                   | Some p => if bool_decide (dpr_app_id p = app_id) then None else Some p
                   | None => None
                   end;
     dc_resolved := match dc_resolved c with
                    | Some (a, s) => if bool_decide (a = app_id) then None else Some (a, s)
                    | None => None
                    end;
     dc_next_prompt_id := dc_next_prompt_id c |}.

(** ** Reachable states *)

Inductive document_step : DocumentCoordinator → DocumentCoordinator → Prop :=
  | ds_poll c a : document_step c (DocumentCoordinator_poll c a).2
  | ds_request c a n ds : document_step c (DocumentCoordinator_request c a n ds).2
  | ds_resolve c id ch : document_step c (DocumentCoordinator_resolve c id ch).2
  | ds_clear c a : document_step c (DocumentCoordinator_clear_app c a).

(** A prompt shows at least one document under an id that was handed out; an
    undelivered selection has the form of a document id. *)
Record document_wf (c : DocumentCoordinator) : Prop := {
  dw_next : (0 ≤ dc_next_prompt_id c ≤ u64_max)%Z;
  dw_pending : ∀ p, dc_pending c = Some p →
    dpr_documents p ≠ [] ∧ dpr_prompt_id p = dc_next_prompt_id c ∧ (1 ≤ dpr_prompt_id p)%Z;
  dw_resolved : ∀ a d, dc_resolved c = Some (a, ResSelected d) → is_valid_document_id d = true;
}.

Lemma document_poll_wf c a : document_wf c → document_wf (DocumentCoordinator_poll c a).2.
Proof.
  intros Hwf. unfold DocumentCoordinator_poll.
  assert (document_wf (match dc_pending c with
    | Some prompt =>
        if bool_decide (dpr_app_id prompt = a) then (@Ok DocumentPromptError _ (Pending prompt), c)
        else (Err (DocBusy prompt), c)
    | None => (Ok NeedsDocuments, c)
    end).2) as Hp by (by destruct (dc_pending c); [case_bool_decide|]).
  destruct (dc_resolved c) as [[b s]|]; [|done]. case_bool_decide; [|done].
  destruct Hwf. by constructor.
Qed.

Lemma document_step_wf c c' : document_step c c' → document_wf c → document_wf c'.
Proof.
  destruct 1 as [c a|c a n ds|c id ch|c a]; intros Hwf.
  - by apply document_poll_wf.
  - apply (document_poll_wf c a) in Hwf. unfold DocumentCoordinator_request.
    destruct (DocumentCoordinator_poll c a) as [[[]| |] c1]; simpl in *; try done.
    case_bool_decide; simpl; [done|]. destruct Hwf as [Hn Hp Hr].
    pose proof (wrapping_next_nonzero_range _ Hn).
    constructor; simpl; [lia| |done]. intros p [= <-]. simpl. split_and!; [done|done|lia].
  - unfold DocumentCoordinator_resolve. destruct (dc_pending c) as [p|] eqn:Hp; [|done].
    case_match; [done|]. destruct ch as [d|]; [|by destruct Hwf; constructor].
    destruct (is_valid_document_id d) eqn:Hd; simpl; [|done]. case_match; simpl; [|done].
    destruct Hwf as [Hn Hpp Hr]. constructor; simpl; [done|done|]. by intros ? ? [= _ <-].
  - destruct Hwf as [Hn Hpp Hr]. unfold DocumentCoordinator_clear_app. constructor; simpl; [done|..].
    + intros p. destruct (dc_pending c) as [p'|]; [|done]. case_bool_decide; [done|]. apply Hpp.
    + intros b d. destruct (dc_resolved c) as [[b' s]|]; [|done]. case_bool_decide; [done|]. apply Hr.
Qed.

(** ** Properties *)

(** The answer to a picker is one of the documents it showed; the
    application that asked receives it with its next poll and only once, and
    the poll of another application neither sees nor consumes it. *)
Theorem selection_delivered_once c id choice app selected c1 :
  DocumentCoordinator_resolve c id choice = (Ok (app, selected), c1) →
  (∃ p, dc_pending c = Some p ∧ dpr_prompt_id p = id ∧ dpr_app_id p = app ∧ selected = choice ∧
     match choice with
     | Some d => is_valid_document_id d = true ∧ d ∈ map document_id (dpr_documents p)
     | None => True
     end) ∧
  (DocumentCoordinator_poll c1 app).1 = Ok (match choice with Some d => Selected d | None => Cancelled end) ∧
  (DocumentCoordinator_poll (DocumentCoordinator_poll c1 app).2 app).1 = Ok NeedsDocuments ∧
  (∀ other, other ≠ app → DocumentCoordinator_poll c1 other = (Ok NeedsDocuments, c1)).
Proof.
  unfold DocumentCoordinator_resolve. destruct (dc_pending c) as [p|] eqn:Hp; [|done].
  destruct (dpr_prompt_id p =? id)%Z eqn:Hid; simpl; [|done]. unbool_hyps.
  assert (∀ sel, let c1 := mkDocumentCoordinator None (Some (dpr_app_id p, sel)) (dc_next_prompt_id c) in
    (DocumentCoordinator_poll c1 (dpr_app_id p)).1 = Ok (delivered sel) ∧
    (DocumentCoordinator_poll (DocumentCoordinator_poll c1 (dpr_app_id p)).2 (dpr_app_id p)).1 = Ok NeedsDocuments ∧
    (∀ other, other ≠ dpr_app_id p → DocumentCoordinator_poll c1 other = (Ok NeedsDocuments, c1))) as Hpoll.
  { intros sel. simpl. unfold DocumentCoordinator_poll. simpl. rewrite bool_decide_eq_true_2 by done.
    split_and!; [done|done|]. intros other Ho. by rewrite bool_decide_eq_false_2 by congruence. }
  destruct choice as [d|].
  - destruct (is_valid_document_id d) eqn:Hd; simpl; [|done]. destruct (existsb _ _) eqn:He; [|done].
    intros [= <- <- <-]. split; [|apply (Hpoll (ResSelected d))]. exists p. split_and!; [done..|].
    apply existsb_exists in He as (doc&Hin&Heq). unbool_hyps. rewrite <- Heq.
    apply list_elem_of_fmap_2. by apply list_elem_of_In.
  - intros [= <- <- <-]. split; [by exists p|apply (Hpoll ResCancelled)].
Qed.

Definition picker_document : DocumentSummary :=
  mkDocumentSummary "0123456789abcdef0123456789abcdef" "notes.txt" 12.

Lemma selection_delivered_once_witness :
  let c := (DocumentCoordinator_request DocumentCoordinator_default "dev.cardputerzero.notes" "Notes" [picker_document]).2 in
  let c1 := (DocumentCoordinator_resolve c 1 (Some "0123456789abcdef0123456789abcdef")).2 in
  (DocumentCoordinator_poll c1 "dev.cardputerzero.notes").1 = Ok (Selected "0123456789abcdef0123456789abcdef").
Proof.
  apply (selection_delivered_once
    (DocumentCoordinator_request DocumentCoordinator_default "dev.cardputerzero.notes" "Notes" [picker_document]).2
    1 (Some "0123456789abcdef0123456789abcdef") "dev.cardputerzero.notes"
    (Some "0123456789abcdef0123456789abcdef")). by vm_compute.
Defined.

(** In every reachable state the pending picker shows at least one document
    under the id handed out last, and an undelivered selection is a document
    id. *)
Theorem document_reachable_wf c : rtc document_step DocumentCoordinator_default c → document_wf c.
Proof.
  intros Hr. assert (document_wf DocumentCoordinator_default) as H0
    by (by constructor; [unfold u64_max; simpl; lia|..]).
  revert H0. induction Hr; eauto using document_step_wf.
Qed.

Lemma document_reachable_wf_witness :
  document_wf (DocumentCoordinator_request DocumentCoordinator_default "dev.cardputerzero.notes" "Notes" [picker_document]).2.
Proof. apply document_reachable_wf. apply rtc_once, ds_request. Defined.
