(* ===== verification/Thumbnail.v ===== *)
(** * The thumbnail cache (crates/cp0-appd/src/thumbnail.rs)

    The last frame of every task, for the switcher.  The theorems: the cache
    stays within its memory bound, a frame belongs to the task, account and
    runtime that the service trusts, and a task is refreshed with increasing
    generations at most twice a second. *)

From S2P Require Import Prelude RustStr Manifest Tasks.

Definition THUMBNAIL_WIDTH : nat := 160.
Definition THUMBNAIL_HEIGHT : nat := 85.
Definition THUMBNAIL_PIXELS : nat := THUMBNAIL_WIDTH * THUMBNAIL_HEIGHT.
Definition THUMBNAIL_BYTES : nat := THUMBNAIL_PIXELS * 2.
Definition THUMBNAIL_REFRESH_MILLISECONDS : Z := 500.
Definition MAX_THUMBNAIL_CACHE_BYTES : nat := MAX_TASKS * THUMBNAIL_BYTES.

Record ThumbnailIdentity := mkThumbnailIdentity {
  ti_task_id : Z;
  ti_account_uid : Z;
  ti_runtime_generation : Z;
  ti_thumbnail_generation : Z;
}.

Record ThumbnailFrame := mkThumbnailFrame {
  tf_identity : ThumbnailIdentity;
  tf_captured : Z;
  tf_pixels : list Z;
}.

Inductive ThumbnailError := ThInvalidPixels | ThInvalidIdentity | ThIdentityMismatch | ThStaleGeneration
  | ThRefreshLimited | ThCacheFull.

(** [ThumbnailCache { frames }]. *)
Record ThumbnailCache := mkThumbnailCache { tc_frames : gmap Z ThumbnailFrame }.
Definition ThumbnailCache_default : ThumbnailCache := mkThumbnailCache ∅.

Definition ThumbnailCache_insert_trusted (c : ThumbnailCache) (t : TaskRecord) (account_uid : Z)
    (identity : ThumbnailIdentity) (captured : Z) (pixels : list Z)
    : result ThumbnailError unit * ThumbnailCache :=
  if negb (length pixels =? THUMBNAIL_PIXELS)%nat then (Err ThInvalidPixels, c)
  else if (account_uid =? 0)%Z || (ti_account_uid identity =? 0)%Z
          || (ti_runtime_generation identity =? 0)%Z || (ti_thumbnail_generation identity =? 0)%Z
  then (Err ThInvalidIdentity, c)
  else if negb (ti_task_id identity =? task_id t)%Z || negb (ti_account_uid identity =? account_uid)%Z
          || negb (bool_decide (token <$> t_runtime t = Some (ti_runtime_generation identity)))
  then (Err ThIdentityMismatch, c)
  else
    let insert := (Ok tt, mkThumbnailCache
      (<[task_id t := {| tf_identity := identity; tf_captured := captured; tf_pixels := pixels |}]> (tc_frames c))) in
    match tc_frames c !! task_id t with
    | Some previous =>
        if (ti_thumbnail_generation identity <=? ti_thumbnail_generation (tf_identity previous))%Z
        then (Err ThStaleGeneration, c)
        else if (captured <? saturating_add_u64 (tf_captured previous) THUMBNAIL_REFRESH_MILLISECONDS)%Z
        then (Err ThRefreshLimited, c)
        else insert
    | None => if (size (tc_frames c) =? MAX_TASKS)%nat then (Err ThCacheFull, c) else insert
    end.

Definition ThumbnailCache_frame (c : ThumbnailCache) (id : Z) (runtime_generation : option Z)
    : option ThumbnailFrame :=
  match tc_frames c !! id with
  | None => None
  | Some f =>
      if bool_decide (is_Some runtime_generation)
         && negb (bool_decide (runtime_generation = Some (ti_runtime_generation (tf_identity f))))
      then None else Some f
  end.

Definition ThumbnailCache_retain_last_frame (c : ThumbnailCache) (id : Z) : option ThumbnailFrame :=
  tc_frames c !! id.

Definition ThumbnailCache_remove (c : ThumbnailCache) (id : Z) : option ThumbnailFrame * ThumbnailCache :=
  (tc_frames c !! id, mkThumbnailCache (delete id (tc_frames c))).

Definition ThumbnailCache_memory_bytes (c : ThumbnailCache) : nat := size (tc_frames c) * THUMBNAIL_BYTES.

(** ** The invariant *)

Record thumbnail_wf (c : ThumbnailCache) : Prop := {
  hw_size : (size (tc_frames c) ≤ MAX_TASKS)%nat;
  hw_frames : ∀ id f, tc_frames c !! id = Some f →
    ti_task_id (tf_identity f) = id ∧ length (tf_pixels f) = THUMBNAIL_PIXELS ∧
    ti_account_uid (tf_identity f) ≠ 0%Z ∧ ti_runtime_generation (tf_identity f) ≠ 0%Z ∧
    ti_thumbnail_generation (tf_identity f) ≠ 0%Z;
}.

Inductive thumbnail_step : ThumbnailCache → ThumbnailCache → Prop :=
  | hs_insert c t uid i ms px : thumbnail_step c (ThumbnailCache_insert_trusted c t uid i ms px).2
  | hs_remove c id : thumbnail_step c (ThumbnailCache_remove c id).2.

(** What an accepted frame satisfies. *)
Lemma insert_trusted_ok c t uid i ms px u c' :
  ThumbnailCache_insert_trusted c t uid i ms px = (Ok u, c') →
  c' = mkThumbnailCache (<[task_id t := mkThumbnailFrame i ms px]> (tc_frames c)) ∧
  length px = THUMBNAIL_PIXELS ∧ ti_task_id i = task_id t ∧ ti_account_uid i = uid ∧ uid ≠ 0%Z ∧
  (token <$> t_runtime t) = Some (ti_runtime_generation i) ∧ ti_runtime_generation i ≠ 0%Z ∧
  ti_thumbnail_generation i ≠ 0%Z ∧
  match tc_frames c !! task_id t with
  | Some previous =>
      (ti_thumbnail_generation (tf_identity previous) < ti_thumbnail_generation i)%Z ∧
      (saturating_add_u64 (tf_captured previous) THUMBNAIL_REFRESH_MILLISECONDS ≤ ms)%Z
  | None => size (tc_frames c) ≠ MAX_TASKS
  end.
Proof.
  unfold ThumbnailCache_insert_trusted. do 3 (case_match; [done|]). unbool_hyps.
  destruct (tc_frames c !! task_id t) as [previous|] eqn:Hp.
  - do 2 (case_match; [done|]). intros [= _ <-]. unbool_hyps. by split_and!.
  - case_match; [done|]. intros [= _ <-]. unbool_hyps. by split_and!.
Qed.

Lemma insert_trusted_err c t uid i ms px :
  is_ok (ThumbnailCache_insert_trusted c t uid i ms px).1 = false →
  (ThumbnailCache_insert_trusted c t uid i ms px).2 = c.
Proof. unfold ThumbnailCache_insert_trusted. repeat case_match; done. Qed.

Lemma thumbnail_step_wf c c' : thumbnail_step c c' → thumbnail_wf c → thumbnail_wf c'.
Proof.
  destruct 1 as [c t uid i ms px|c id]; intros Hwf.
  - destruct (is_ok (ThumbnailCache_insert_trusted c t uid i ms px).1) eqn:Hok; [|by rewrite insert_trusted_err].
    destruct (ThumbnailCache_insert_trusted c t uid i ms px) as [[u| |] c'] eqn:Hi; try done.
    apply insert_trusted_ok in Hi as (->&Hlen&Hid&Huid&Hu&_&Hr&Hg&Hprev). destruct Hwf as [Hs Hf].
    constructor; simpl.
    + destruct (tc_frames c !! task_id t) eqn:Hp.
      * rewrite map_size_insert_Some by (by eexists). done.
      * rewrite map_size_insert_None by done. lia.
    + intros id f [[<- <-]|[_ ?]]%lookup_insert_Some; [|auto]. simpl. split_and!; congruence.
  - destruct Hwf as [Hs Hf]. constructor; simpl.
    + rewrite map_size_delete. destruct (tc_frames c !! id); unfold Datatypes.id; lia.
    + intros id' f [_ ?]%lookup_delete_Some. auto.
Qed.

(** ** Properties *)

(** Whatever frames arrive, the cache keeps at most one frame per task slot
    and stays within its memory bound, and every frame is a full picture under
    the identity of its task. *)
Theorem thumbnail_cache_bounded c :
  rtc thumbnail_step ThumbnailCache_default c →
  thumbnail_wf c ∧ (ThumbnailCache_memory_bytes c ≤ MAX_THUMBNAIL_CACHE_BYTES)%nat.
Proof.
  intros Hr. assert (thumbnail_wf c) as Hwf.
  { assert (thumbnail_wf ThumbnailCache_default) as H0
      by (by constructor; [vm_compute; lia|]).
    revert H0. induction Hr; eauto using thumbnail_step_wf. }
  split; [done|]. unfold ThumbnailCache_memory_bytes, MAX_THUMBNAIL_CACHE_BYTES.
  apply Nat.mul_le_mono_r, Hwf.
Qed.

Lemma thumbnail_cache_bounded_witness : thumbnail_wf (ThumbnailCache_remove ThumbnailCache_default 3).2.
Proof. apply thumbnail_cache_bounded. apply rtc_once, hs_remove. Defined.

(** A frame is only accepted for the runtime the task runs now and under
    the account the service trusts, with a newer generation and half a second
    after the frame it replaces; a rejected frame changes nothing; a reader that
    names another runtime does not see it. *)
Theorem thumbnail_accepts_trusted_only c t uid i ms px :
  let run := ThumbnailCache_insert_trusted c t uid i ms px in
  (run.1 = Ok tt →
     (∃ b, t_runtime t = Some b ∧ token b = ti_runtime_generation i) ∧ ti_account_uid i = uid ∧
     (∀ previous, tc_frames c !! task_id t = Some previous →
        (ti_thumbnail_generation (tf_identity previous) < ti_thumbnail_generation i)%Z ∧
        (Z.min (tf_captured previous + 500) u64_max ≤ ms)%Z) ∧
     ThumbnailCache_frame run.2 (task_id t) (Some (ti_runtime_generation i)) = Some (mkThumbnailFrame i ms px) ∧
     (∀ g, g ≠ ti_runtime_generation i → ThumbnailCache_frame run.2 (task_id t) (Some g) = None)) ∧
  (run.1 ≠ Ok tt → run.2 = c).
Proof.
  simpl. split.
  - destruct (ThumbnailCache_insert_trusted c t uid i ms px) as [r c'] eqn:Hi. simpl. intros ->.
    apply insert_trusted_ok in Hi as (->&_&_&Hu&_&Hrt&_&_&Hprev).
    destruct (t_runtime t) as [b|]; simplify_eq/=. split_and!; [by exists b|done| | |].
    + intros previous Hp. rewrite Hp in Hprev. exact Hprev.
    + unfold ThumbnailCache_frame. simpl. rewrite lookup_insert_eq. simpl.
      by rewrite !bool_decide_eq_true_2 by (congruence || by eexists).
    + intros g Hg. unfold ThumbnailCache_frame. simpl. rewrite lookup_insert_eq. simpl.
      by rewrite bool_decide_eq_false_2 by congruence.
  - intros Hne. apply insert_trusted_err.
    destruct (ThumbnailCache_insert_trusted c t uid i ms px) as [[[]| |] c']; done.
Qed.
