(* ===== verification/TaskJournal.v ===== *)
(** * The task journal (crates/cp0-appd/src/task_journal.rs)

    The durable copy of the task registry with the last 64 capacity evictions.
    After a restart of the service the journal is reconciled with the runtime
    units that are still active; whether a unit is active is a question to
    systemd and therefore an argument.

    The theorems: the validator decides [journal_wf]; recording an eviction
    keeps a valid journal valid and bounded; reconciliation marks exactly the
    tasks whose unit is gone as crashed and reports exactly the others; an
    interrupted write leaves the old journal or the new one. *)

From S2P Require Import Prelude RustStr Manifest HostFs Tasks.

Definition TASK_JOURNAL_SCHEMA_VERSION : Z := 1.
Definition MAX_EVICTION_HISTORY : nat := 64.

Inductive EvictionReason := ReasonCapacity.

Record EvictionRecord := mkEvictionRecord {
  event_sequence : Z;
  er_reason : EvictionReason;
  er_task_id : Z;
  er_app_id : string;
  er_version : string;
  er_final_state : TaskState;
  er_created_sequence : Z;
  er_last_activated_sequence : Z;
  er_checkpoint : CheckpointStatus;
}.

Record TaskJournal := mkTaskJournal {
  tj_schema_version : Z;
  next_event_sequence : Z;
  tj_registry : TaskRegistrySnapshot;
  evictions : list EvictionRecord;
}.

Record RecoveredRuntime := mkRecoveredRuntime {
  rr_task_id : Z;
  rr_runtime_generation : Z;
  rr_app_id : string;
  rr_version : string;
  rr_unit : string;
  rr_foreground : bool;
}.

Inductive JournalInvalid := JnFile | JnExhausted | JnNoParent | JnFileName | JnSchema | JnBounds | JnEviction.

Inductive TaskJournalError :=
  | JnIo (e : IoError)
  | JnJson
  | JnTask (e : TaskError)
  | JnInvalid (why : JournalInvalid).

Definition TaskJournal_new (r : TaskRegistry) : TaskJournal :=
  {| tj_schema_version := TASK_JOURNAL_SCHEMA_VERSION; next_event_sequence := 1;
     tj_registry := TaskRegistry_snapshot r; evictions := [] |}.

Definition set_tj_registry (s : TaskRegistrySnapshot) (j : TaskJournal) : TaskJournal :=
  {| tj_schema_version := tj_schema_version j; next_event_sequence := next_event_sequence j;
     tj_registry := s; evictions := evictions j |}.

Definition TaskJournal_restored_registry (j : TaskJournal) : result TaskJournalError TaskRegistry :=
  map_err JnTask (TaskRegistry_restore (tj_registry j)).

Definition TaskJournal_record_registry (j : TaskJournal) (r : TaskRegistry)
    : result TaskJournalError unit * TaskJournal :=
  match TaskRegistry_restore (TaskRegistry_snapshot r) with
  | Ok _ => (Ok tt, set_tj_registry (TaskRegistry_snapshot r) j)
  | Err e => (Err (JnTask e), j)
  | Panicked => (Panicked, j)
  end.

(** The loop of [reconcile_resident_units]. *)
Fixpoint reconcile_loop (unit_is_active : string → bool) (resident : list TaskRecord) (r : TaskRegistry)
    : result TaskJournalError (list RecoveredRuntime * TaskRegistry) :=
  match resident with
  | [] => Ok ([], r)
  | t :: resident =>
      match t_runtime t with
      | None => Panicked
      | Some b =>
          if unit_is_active (unit_name b) then
            let? 'rest := reconcile_loop unit_is_active resident r in
            Ok ({| rr_task_id := task_id t; rr_runtime_generation := token b; rr_app_id := t_app_id t;
                   rr_version := t_version t; rr_unit := unit_name b;
                   rr_foreground := bool_decide (t_state t = Foreground) |} :: rest.1, rest.2)
          else reconcile_loop unit_is_active resident (TaskRegistry_runtime_exited r (token b)).2
      end
  end.

Definition TaskJournal_reconcile_resident_units (j : TaskJournal) (unit_is_active : string → bool)
    : result TaskJournalError (list RecoveredRuntime) * TaskJournal :=
  match TaskJournal_restored_registry j with
  | Err e => (Err e, j)
  | Panicked => (Panicked, j)
  | Ok r =>
      match reconcile_loop unit_is_active
              (List.filter (λ t, TaskState_is_resident (t_state t)) (tasks r)) r with
      | Err e => (Err e, j)
      | Panicked => (Panicked, j)
      | Ok (recovered, r) =>
          match TaskJournal_record_registry j r with
          | (Ok _, j) => (Ok recovered, j)
          | (Err e, j) => (Err e, j)
          | (Panicked, j) => (Panicked, j)
          end
      end
  end.

(** The loop over the evictions in [validate]. *)
Fixpoint evictions_ok (next previous : Z) (l : list EvictionRecord) : bool :=
  match l with
  | [] => true
  | e :: l =>
      if (event_sequence e <=? previous)%Z || (next <=? event_sequence e)%Z || (er_task_id e =? 0)%Z
         || (er_created_sequence e =? 0)%Z || (er_last_activated_sequence e =? 0)%Z
         || negb (is_valid_app_id (er_app_id e)) || negb (is_valid_app_version (er_version e))
      then false
      else evictions_ok next (event_sequence e) l
  end.

Definition TaskJournal_validate (j : TaskJournal) : result TaskJournalError unit :=
  if negb (tj_schema_version j =? TASK_JOURNAL_SCHEMA_VERSION)%Z then Err (JnInvalid JnSchema)
  else
    let? _ := map_err JnTask (TaskRegistry_restore (tj_registry j)) in
    if (next_event_sequence j =? 0)%Z || (MAX_EVICTION_HISTORY <? length (evictions j))%nat
    then Err (JnInvalid JnBounds)
    else if negb (evictions_ok (next_event_sequence j) 0 (evictions j)) then Err (JnInvalid JnEviction)
    else Ok tt.

Definition eviction_record (sequence : Z) (evicted : EvictedTask) : EvictionRecord :=
  let t := evicted_task evicted in
  {| event_sequence := sequence; er_reason := ReasonCapacity; er_task_id := task_id t;
     er_app_id := t_app_id t; er_version := t_version t; er_final_state := t_state t;
     er_created_sequence := created_sequence t; er_last_activated_sequence := last_activated_sequence t;
     er_checkpoint := evicted_checkpoint evicted |}.

Definition TaskJournal_record_capacity_eviction (j : TaskJournal) (r : TaskRegistry) (evicted : EvictedTask)
    : result TaskJournalError unit * TaskJournal :=
  match checked_add_u64 (next_event_sequence j) 1 with
  | None => (Err (JnInvalid JnExhausted), j)
  | Some next =>
      let history := evictions j ++ [eviction_record (next_event_sequence j) evicted] in
      let history := if (MAX_EVICTION_HISTORY <? length history)%nat then vec_remove 0 history else history in
      let j := {| tj_schema_version := tj_schema_version j; next_event_sequence := next;
                  tj_registry := tj_registry j; evictions := history |} in
      match TaskJournal_record_registry j r with
      | (Ok _, j) => (TaskJournal_validate j, j)
      | (Err e, j) => (Err e, j)
      | (Panicked, j) => (Panicked, j)
      end
  end.

Definition journal_atomic_error (e : AtomicError) : TaskJournalError :=
  match e with
  | AtomicNoParent => JnInvalid JnNoParent
  | AtomicNoFileName => JnInvalid JnFileName
  | AtomicIo e => JnIo e
  | AtomicJson => JnJson
  end.

Section persistence.
  Context `{Host} `{Codec TaskJournal}.

Definition TaskJournal_load (path : string) (enforce_root_owner : bool) : IO TaskJournalError TaskJournal :=
  let! metadata := io_map_err JnIo (fs_symlink_metadata path) in
  let! _ := io_lift (if bool_decide (md_kind metadata = Symlink)
                        || negb (bool_decide (md_kind metadata = RegularFile))
                        || negb (Z.land (md_mode metadata) 18 =? 0)%Z
                        || (enforce_root_owner && negb (md_uid metadata =? 0)%Z)
                     then Err (JnInvalid JnFile) else Ok tt) in
  let! contents := io_map_err JnIo (fs_read_file path) in
  let! journal := io_lift (ok_or (from_json contents) JnJson) in
  let! _ := io_lift (TaskJournal_validate journal) in
  io_ret journal.

Definition TaskJournal_save_atomic (j : TaskJournal) (path : string) : IO TaskJournalError unit :=
  let! _ := io_lift (TaskJournal_validate j) in
  io_map_err journal_atomic_error (atomic_replace JournalTemp path (encode_line j)).

End persistence.

(** ** The invariant *)

Definition eviction_wf (e : EvictionRecord) : Prop :=
  er_task_id e ≠ 0%Z ∧ er_created_sequence e ≠ 0%Z ∧ er_last_activated_sequence e ≠ 0%Z ∧
  is_valid_app_id (er_app_id e) = true ∧ is_valid_app_version (er_version e) = true.

Definition event_lt (x y : EvictionRecord) : Prop := (event_sequence x < event_sequence y)%Z.
Global Instance event_lt_trans : Transitive event_lt.
Proof. intros x y z. unfold event_lt. lia. Qed.

Record journal_wf (j : TaskJournal) : Prop := {
  jw_schema : tj_schema_version j = TASK_JOURNAL_SCHEMA_VERSION;
  jw_registry : is_ok (TaskRegistry_restore (tj_registry j)) = true;
  jw_next : next_event_sequence j ≠ 0%Z;
  jw_length : (length (evictions j) ≤ MAX_EVICTION_HISTORY)%nat;
  jw_order : StronglySorted event_lt (evictions j);
  jw_records : Forall (λ e, eviction_wf e ∧ (0 < event_sequence e < next_event_sequence j)%Z) (evictions j);
}.

Lemma evictions_ok_iff next previous l :
  evictions_ok next previous l = true ↔
  StronglySorted event_lt l ∧
  Forall (λ e, eviction_wf e ∧ (previous < event_sequence e < next)%Z) l.
Proof.
  revert previous. induction l as [|e l IH]; intros previous; simpl; [split; [split; constructor|done]|].
  rewrite Forall_cons. split.
  - case_match; [done|]. unbool_hyps. intros [Hs Hf]%IH. split; [|split; [split; [by split_and!|lia]|]].
    + constructor; [done|]. eapply Forall_impl; [exact Hf|]. unfold event_lt. simpl. intros x [_ ?]. lia.
    + eapply Forall_impl; [exact Hf|]. simpl. intros x [? ?]. split; [done|lia].
  - intros (Hs&[(H1&H2&H3&H4&H5) [Hp Hn]]&Hf). rewrite H4, H5.
    rewrite !(proj2 (Z.leb_gt _ _)), !(proj2 (Z.eqb_neq _ _)) by lia. simpl. apply IH.
    inversion_clear Hs as [|?? Hs' Hall]. split; [done|]. rewrite Forall_forall in *. intros x Hx.
    specialize (Hall x Hx). destruct (Hf x Hx). unfold event_lt in *. split; [done|lia].
Qed.

Lemma journal_validate_wf j : TaskJournal_validate j = Ok tt ↔ journal_wf j.
Proof.
  unfold TaskJournal_validate. split.
  - intros Hv. case_match; [done|]. destruct (TaskRegistry_restore (tj_registry j)) eqn:Hr; try done. simpl in Hv.
    do 2 (case_match; [done|]). unbool_hyps.
    match goal with H : evictions_ok _ _ _ = true |- _ => apply evictions_ok_iff in H as [??] end.
    constructor; auto. by rewrite Hr.
  - intros [Hs Hr Hn Hl Ho Hf]. rewrite (proj2 (Z.eqb_eq _ _)) by done. simpl.
    destruct (TaskRegistry_restore (tj_registry j)) eqn:Hres; try done. simpl.
    rewrite (proj2 (Z.eqb_neq _ _)), (proj2 (Nat.ltb_ge _ _)) by done. simpl.
    by rewrite (proj2 (evictions_ok_iff _ _ _)).
Qed.

(** ** Recording *)

Lemma record_registry_ok j r :
  tasks_wf r → (1 ≤ capacity r ≤ MAX_TASKS)%nat →
  TaskJournal_record_registry j r = (Ok tt, set_tj_registry (TaskRegistry_snapshot r) j) ∧
  TaskRegistry_restore (TaskRegistry_snapshot r) = Ok r.
Proof.
  intros Hwf Hcap. assert (TaskRegistry_restore (TaskRegistry_snapshot r) = Ok r) as Hr
    by (by apply restore_snapshot_iff).
  unfold TaskJournal_record_registry. by rewrite Hr.
Qed.

(** The bounded history: everything but the oldest record when it was full. *)
Lemma history_suffix {A} (n : nat) (l : list A) x :
  (0 < n)%nat → (length l ≤ n)%nat →
  let h := l ++ [x] in
  let h' := if (n <? length h)%nat then vec_remove 0 h else h in
  (length h' ≤ n)%nat ∧ h' `sublist_of` h ∧ x ∈ h'.
Proof.
  intros Hn Hl. simpl. rewrite length_app. simpl. destruct (n <? _)%nat eqn:E; unbool_hyps.
  - destruct l as [|y l]; simpl in *; [lia|]. rewrite length_app. simpl. split_and!; [lia| |].
    + by constructor.
    + apply elem_of_app. right. apply list_elem_of_here.
  - rewrite length_app. simpl. split_and!; [lia|done|]. apply elem_of_app. right. apply list_elem_of_here.
Qed.

(** ** Reconciliation *)

(** What reconciliation makes of a task. *)
Definition crash_inactive (active : string → bool) (t : TaskRecord) : TaskRecord :=
  match t_runtime t with
  | Some b => if active (unit_name b) then t else set_crashed t
  | None => t
  end.

(** The runtime that a resident task reports as recovered. *)
Definition recovered_of (active : string → bool) (t : TaskRecord) : option RecoveredRuntime :=
  match t_runtime t with
  | Some b =>
      if active (unit_name b)
      then Some (mkRecoveredRuntime (task_id t) (token b) (t_app_id t) (t_version t) (unit_name b)
                   (bool_decide (t_state t = Foreground)))
      else None
  | None => None
  end.

Section reconcile.
  Context (active : string → bool).

(** The tasks of [rs] whose unit is gone claim [x]. *)
Definition gone (rs : list TaskRecord) (x : TaskRecord) : bool :=
  existsb (λ t, match t_runtime t with
                | Some b => negb (active (unit_name b)) && has_token (token b) x
                | None => false
                end) rs.
Definition crash_gone (rs : list TaskRecord) (x : TaskRecord) : TaskRecord :=
  if gone rs x then set_crashed x else x.

Lemma tokens_disjoint_update k l :
  k ∉ tokens l → map (λ x, if has_token k x then set_crashed x else x) l = l.
Proof.
  intros Hk. rewrite <- (map_id l) at 2. apply map_ext_in. intros x Hx.
  destruct (has_token k x) eqn:E; [|done]. unfold has_token in E. destruct (t_runtime x) as [b|] eqn:Hb; [|done].
  unbool_hyps. destruct Hk. apply tokens_elem. exists x, b. by rewrite list_elem_of_In.
Qed.

(** With distinct tokens the first match is the only one. *)
Lemma runtime_exited_map r k :
  NoDup (tokens (tasks r)) →
  tasks (TaskRegistry_runtime_exited r k).2 = map (λ x, if has_token k x then set_crashed x else x) (tasks r).
Proof.
  intros Hnd. assert (tasks (TaskRegistry_runtime_exited r k).2 = update_first (has_token k) set_crashed (tasks r)) as ->.
  { unfold TaskRegistry_runtime_exited. destruct (List.find _ _) eqn:Hf; [done|].
    simpl. symmetry. apply update_first_none. intros x. by apply find_none_elem. }
  induction (tasks r) as [|x l IH]; simpl; [done|].
  assert (NoDup (tokens l)) as Hl by (rewrite tokens_cons in Hnd; destruct (t_runtime x); [by apply NoDup_cons in Hnd as [_ ?]|done]).
  destruct (has_token k x) eqn:E; [|by rewrite IH]. f_equal. symmetry. apply tokens_disjoint_update.
  unfold has_token in E. rewrite tokens_cons in Hnd. destruct (t_runtime x) as [b|]; [|done]. unbool_hyps.
  apply NoDup_cons in Hnd as [? _]. congruence.
Qed.

Lemma runtime_exited_same r k :
  let r' := (TaskRegistry_runtime_exited r k).2 in
  capacity r' = capacity r ∧ next_task_id r' = next_task_id r ∧ next_sequence r' = next_sequence r.
Proof. unfold TaskRegistry_runtime_exited. by destruct (List.find _ _). Qed.

Lemma crash_gone_step t rs b x :
  t_runtime t = Some b → active (unit_name b) = false →
  crash_gone rs (if has_token (token b) x then set_crashed x else x) = crash_gone (t :: rs) x.
Proof.
  intros Hb Ha. unfold crash_gone, gone at 2. simpl. rewrite Hb, Ha. simpl.
  destruct (has_token (token b) x); simpl; [|done].
  assert (gone rs (set_crashed x) = false) as ->; [|done].
  unfold gone. clear. induction rs as [|y rs IH]; simpl; [done|]. rewrite IH.
  destruct (t_runtime y); [|done]. by rewrite andb_false_r.
Qed.

Lemma reconcile_loop_spec rs r :
  tasks_wf r → Forall (λ t, is_Some (t_runtime t)) rs →
  ∃ r', reconcile_loop active rs r = Ok (omap (recovered_of active) rs, r') ∧ tasks_wf r' ∧
    tasks r' = map (crash_gone rs) (tasks r) ∧ capacity r' = capacity r ∧
    next_task_id r' = next_task_id r ∧ next_sequence r' = next_sequence r.
Proof.
  revert r. induction rs as [|t rs IH]; intros r Hwf Hrs; simpl.
  { exists r. split_and!; try done. rewrite <- (map_id (tasks r)) at 1. by apply map_ext. }
  apply Forall_cons in Hrs as [[b Hb] Hrs]. rewrite Hb. unfold recovered_of at 1. rewrite Hb.
  destruct (active (unit_name b)) eqn:Ha.
  - destruct (IH r Hwf Hrs) as (r'&->&?&Ht&?). exists r'. simpl. split_and!; [done|done| |tauto..].
    rewrite Ht. apply map_ext. intros x. unfold crash_gone, gone. simpl. by rewrite Hb, Ha.
  - pose proof (runtime_exited_map r (token b) (kw_tokens _ Hwf)) as Hmap.
    destruct (runtime_exited_same r (token b)) as (Hc&Hn&Hs).
    destruct (IH _ (runtime_exited_wf r (token b) Hwf) Hrs) as (r'&->&?&Ht&?&?&?).
    exists r'. split_and!; [done|done| |congruence..].
    rewrite Ht, Hmap, map_map. apply map_ext. intros x. by apply crash_gone_step.
Qed.

(** Over all resident tasks, the claims are those of the task itself. *)
Lemma crash_gone_resident r x :
  tasks_wf r → x ∈ tasks r →
  crash_gone (List.filter (λ t, TaskState_is_resident (t_state t)) (tasks r)) x = crash_inactive active x.
Proof.
  intros Hwf Hx. pose proof (kw_tasks _ Hwf) as Hts. rewrite Forall_forall in Hts.
  unfold crash_gone, crash_inactive. destruct (gone _ x) eqn:Hg.
  - apply existsb_exists in Hg as (t&Hin&Ht). apply filter_In in Hin as [Hin _]. apply list_elem_of_In in Hin.
    destruct (t_runtime t) as [b|] eqn:Hb; [|done]. unbool_hyps.
    match goal with H : has_token _ x = true |- _ => rename H into Htok end.
    unfold has_token in Htok. destruct (t_runtime x) as [b'|] eqn:Hb'; [|done]. unbool_hyps.
    assert (x = t) as -> by (eapply (unique_by_token r); eauto using kw_tokens).
    rewrite Hb in Hb'. simplify_eq. match goal with H : active _ = false |- _ => by rewrite H end.
  - destruct (t_runtime x) as [b|] eqn:Hb; [|done]. destruct (active (unit_name b)) eqn:Ha; [done|].
    exfalso. assert (gone (List.filter (λ t, TaskState_is_resident (t_state t)) (tasks r)) x = true); [|congruence].
    apply existsb_exists. exists x. split.
    + apply filter_In. rewrite <- list_elem_of_In. split; [done|]. rewrite (tw_resident _ (Hts x Hx)), Hb.
      by apply bool_decide_eq_true_2.
    + rewrite Hb, Ha. unfold has_token. rewrite Hb. simpl. apply Z.eqb_refl.
Qed.

End reconcile.

(** The recovered runtimes are those of the resident tasks whose unit is active. *)
Lemma recovered_filter active l :
  Forall task_wf l →
  omap (recovered_of active) (List.filter (λ t, TaskState_is_resident (t_state t)) l) = omap (recovered_of active) l.
Proof.
  induction 1 as [|t l Ht Hl IH]; csimpl; [done|].
  destruct (TaskState_is_resident (t_state t)) eqn:Hr; csimpl; rewrite IH; [done|].
  pose proof (tw_resident _ Ht) as Hres. rewrite Hr in Hres. symmetry in Hres. unbool_hyps.
  unfold recovered_of at 2. destruct (t_runtime t); [|done]. destruct Hres. by eexists.
Qed.

Definition sample_journal : TaskJournal := TaskJournal_new two_tasks.

(** ** Properties *)

(** After a restart, reconciliation of a valid journal succeeds; it marks
    exactly the tasks whose unit is no longer active as crashed, leaves every
    other task as it was, reports exactly the runtimes that are still active in
    creation order, at most one of them in the foreground, and leaves a valid
    journal. *)
Theorem reconcile_crashes_dead_units j active r :
  TaskJournal_validate j = Ok tt → TaskJournal_restored_registry j = Ok r →
  let run := TaskJournal_reconcile_resident_units j active in
  run.1 = Ok (omap (recovered_of active) (tasks r)) ∧
  TaskJournal_validate run.2 = Ok tt ∧ evictions run.2 = evictions j ∧
  ∃ r', TaskJournal_restored_registry run.2 = Ok r' ∧ tasks r' = map (crash_inactive active) (tasks r) ∧
    (length (List.filter rr_foreground (omap (recovered_of active) (tasks r))) ≤ 1)%nat.
Proof.
  intros Hj Hr. unfold TaskJournal_reconcile_resident_units. rewrite Hr.
  unfold TaskJournal_restored_registry in Hr.
  destruct (TaskRegistry_restore (tj_registry j)) as [r0| |] eqn:Hres; simplify_eq/=.
  apply restore_snapshot_iff in Hres as (Hsnap&Hcap&Hwf).
  destruct (reconcile_loop_spec active (List.filter (λ t, TaskState_is_resident (t_state t)) (tasks r)) r Hwf)
    as (r'&->&Hwf'&Ht&Hc&_).
  { apply Forall_forall. intros t. rewrite list_elem_of_In, filter_In, <- list_elem_of_In. intros [Hin Hst].
    pose proof (kw_tasks _ Hwf) as Hts. rewrite Forall_forall in Hts. rewrite (tw_resident _ (Hts t Hin)) in Hst.
    by unbool_hyps. }
  rewrite recovered_filter by apply Hwf.
  destruct (record_registry_ok j r' Hwf') as [-> Hrr]; [by rewrite Hc|]. simpl.
  split_and!; [done| |done|].
  - apply journal_validate_wf in Hj as [H1 H2 H3 H4 H5 H6]. apply journal_validate_wf.
    constructor; simpl; auto. by rewrite Hrr.
  - exists r'. unfold TaskJournal_restored_registry. simpl. rewrite Hrr. split_and!; [done| |].
    + rewrite Ht. apply map_ext_in. intros x Hx. apply crash_gone_resident; [done|]. by apply list_elem_of_In.
    + etrans; [|apply (kw_foreground _ Hwf)]. unfold count_if. clear. induction (tasks r) as [|t l IH]; csimpl; [done|].
      unfold recovered_of at 1, is_foreground at 1. destruct (t_runtime t) as [b|].
      * destruct (active (unit_name b)); simpl; [|case_bool_decide; simpl; lia].
        case_bool_decide; simpl; lia.
      * case_bool_decide; simpl; lia.
Qed.

Lemma reconcile_crashes_dead_units_witness :
  (TaskJournal_reconcile_resident_units sample_journal (λ u, bool_decide (u = "cardputerzero-app-8.service"))).1
  = Ok (omap (recovered_of (λ u, bool_decide (u = "cardputerzero-app-8.service"))) (tasks two_tasks)).
Proof.
  apply (reconcile_crashes_dead_units sample_journal (λ u, bool_decide (u = "cardputerzero-app-8.service")) two_tasks);
    by vm_compute.
Defined.

(** Recording the eviction of a well-formed task in a valid journal
    succeeds until the event counter runs out, keeps the journal valid with at
    most 64 records, the new one among them, and stores the registry. *)
Theorem eviction_recorded j r evicted :
  TaskJournal_validate j = Ok tt → (0 ≤ next_event_sequence j < u64_max)%Z →
  tasks_wf r → (1 ≤ capacity r ≤ MAX_TASKS)%nat → task_wf (evicted_task evicted) →
  let run := TaskJournal_record_capacity_eviction j r evicted in
  run.1 = Ok tt ∧ TaskJournal_validate run.2 = Ok tt ∧ (length (evictions run.2) ≤ MAX_EVICTION_HISTORY)%nat ∧
  eviction_record (next_event_sequence j) evicted ∈ evictions run.2 ∧
  TaskJournal_restored_registry run.2 = Ok r.
Proof.
  intros [H1 H2 H3 H4 H5 H6]%journal_validate_wf Hmax Hwf Hcap [T1 T2 T3 T4 T5 T6 T7 T8 T9]. simpl.
  unfold TaskJournal_record_capacity_eviction, checked_add_u64. rewrite (proj2 (Z.leb_le _ _)) by lia.
  set (e := eviction_record (next_event_sequence j) evicted).
  destruct (history_suffix MAX_EVICTION_HISTORY (evictions j) e) as (Hlen&Hsub&Hin);
    [unfold MAX_EVICTION_HISTORY; lia|done|]. cbn zeta in *.
  set (h := if (_ <? _)%nat then _ else _) in *. clearbody h.
  set (j1 := mkTaskJournal _ _ _ h). destruct (record_registry_ok j1 r Hwf Hcap) as [-> Hres].
  assert (journal_wf (set_tj_registry (TaskRegistry_snapshot r) j1)) as Hjw.
  { assert (Forall (λ e, eviction_wf e ∧ (0 < event_sequence e < next_event_sequence j + 1)%Z) (evictions j ++ [e])) as Hall.
    { apply Forall_app. split.
      - eapply Forall_impl; [exact H6|]. intros x [? ?]. split; [done|lia].
      - constructor; [|done]. split; [by split_and!|simpl; lia]. }
    constructor; simpl; [done|by rewrite Hres|lia|done| |].
    - eapply sublist_StronglySorted; [exact Hsub|]. apply StronglySorted_snoc; [done|].
      rewrite Forall_forall in H6. intros y Hy. destruct (H6 y Hy). unfold event_lt. simpl. lia.
    - rewrite Forall_forall in *. intros x Hx. by eapply Hall, elem_of_sublist. }
  apply journal_validate_wf in Hjw as Hv. split_and!; [done..|].
  unfold TaskJournal_restored_registry. simpl. by rewrite Hres.
Qed.

Lemma eviction_recorded_witness :
  let evicted := mkEvictedTask (mkTaskRecord 1 "dev.cardputerzero.hello" "0.1.0" Background 1 1 NotRequested None
    (Some (sample_binding 7))) (Unavailable CkTimeout) in
  (TaskJournal_record_capacity_eviction sample_journal two_tasks evicted).1 = Ok tt.
Proof.
  apply (eviction_recorded sample_journal two_tasks (mkEvictedTask (mkTaskRecord 1 "dev.cardputerzero.hello" "0.1.0"
    Background 1 1 NotRequested None (Some (sample_binding 7))) (Unavailable CkTimeout)));
    [by vm_compute|by vm_compute|apply two_tasks_wf|vm_compute; lia|].
  constructor; try by vm_compute. intros b [= <-]. by vm_compute.
Defined.
