(* ===== verification/Checkpoint.v ===== *)
(** * Task checkpoints (crates/cp0-appd/src/checkpoint.rs)

    The state an application leaves before it is stopped.  SHA-256 comes from a
    third-party crate: the digest is a parameter, of which only its length is
    used.  The capture runs on a thread of its own; what the service sees of it
    is [CaptureEvent].

    The theorems: a blob that [new] accepts validates, and restores for the
    same application, version and schema only; the hexadecimal form of a digest
    determines it, so two valid blobs with equal digests text hash to equal
    digests; a blob with a changed payload is refused unless its digest is the
    same; a saved blob loads again. *)

From S2P Require Import Prelude RustStr Bytes Manifest HostFs Tasks.

Definition CHECKPOINT_SCHEMA_VERSION : Z := 1.
Definition MAX_CHECKPOINT_BYTES : nat := 8 * 1024.

Record CheckpointBlob := mkCheckpointBlob {
  format_version : Z;
  cb_app_id : string;
  package_version : string;
  cb_schema_version : Z;
  payload_length : Z;
  payload_sha256 : string;
  payload : list ascii;
}.

Inductive CheckpointInvalid := CkIdentity | CkSchemaZero | CkMetadata | CkFile | CkNoParent | CkFileName.

Inductive CheckpointError :=
  | CkIo (e : IoError)
  | CkJson
  | CkInvalid (why : CheckpointInvalid)
  | CkIncompatible (reason : CheckpointFailure).

(** [DIGITS[n]] for a four-bit [n]. *)
Definition DIGITS : list ascii := bytes "0123456789abcdef".
Definition hex_digit (n : Z) : ascii := default "0"%char (DIGITS !! Z.to_nat n).

Fixpoint lower_hex (l : list ascii) : string :=
  match l with
  | [] => EmptyString
  | b :: l => String (hex_digit (Z.shiftr (byte_of b) 4))
                (String (hex_digit (Z.land (byte_of b) 15)) (lower_hex l))
  end.

Definition checkpoint_atomic_error (e : AtomicError) : CheckpointError :=
  match e with
  | AtomicNoParent => CkInvalid CkNoParent
  | AtomicNoFileName => CkInvalid CkFileName
  | AtomicIo e => CkIo e
  | AtomicJson => CkJson
  end.

Section checkpoint.
  Context (sha256 : list ascii → list ascii).

Definition CheckpointBlob_new (app_id version : string) (schema_version : Z) (payload : list ascii)
    : result CheckpointError CheckpointBlob :=
  if negb (is_valid_app_id app_id) || negb (is_valid_app_version version) then Err (CkInvalid CkIdentity)
  else if (schema_version =? 0)%Z then Err (CkInvalid CkSchemaZero)
  else if (MAX_CHECKPOINT_BYTES <? length payload)%nat then Err (CkIncompatible CkTooLarge)
  else if (u32_max <? Z.of_nat (length payload))%Z then Panicked
  else Ok {| format_version := CHECKPOINT_SCHEMA_VERSION; cb_app_id := app_id; package_version := version;
             cb_schema_version := schema_version; payload_length := Z.of_nat (length payload);
             payload_sha256 := lower_hex (sha256 payload); payload := payload |}.

Definition CheckpointBlob_validate (b : CheckpointBlob) : result CheckpointError unit :=
  if negb (format_version b =? CHECKPOINT_SCHEMA_VERSION)%Z
     || negb (is_valid_app_id (cb_app_id b)) || negb (is_valid_app_version (package_version b))
     || (cb_schema_version b =? 0)%Z || (MAX_CHECKPOINT_BYTES <? length (payload b))%nat
     || negb (payload_length b =? Z.of_nat (length (payload b)))%Z
     || negb (String.length (payload_sha256 b) =? 64)%nat
     || negb (bytes_all (λ c, is_ascii_hexdigit c && negb (is_ascii_uppercase c)) (payload_sha256 b))
     || negb (bool_decide (payload_sha256 b = lower_hex (sha256 (payload b))))
  then Err (CkInvalid CkMetadata)
  else Ok tt.

Definition CheckpointBlob_validate_for_restore (b : CheckpointBlob) (app_id version : string)
    (accepted_schema_versions : list Z) : result CheckpointError unit :=
  let? _ := CheckpointBlob_validate b in
  if negb (bool_decide (cb_app_id b = app_id)) || negb (bool_decide (package_version b = version))
     || negb (bool_decide (cb_schema_version b ∈ accepted_schema_versions))
  then Err (CkIncompatible CkVersionMismatch)
  else Ok tt.

(** What the service learns of the capture thread before the timeout. *)
Inductive CaptureEvent :=
  | CaptureSpawnFailed
  | CaptureFinished (r : result CheckpointFailure (Z * list ascii))
  | CaptureTimeout
  | CaptureDisconnected.

(** The closure the thread runs. *)
Definition capture_result (app_id version : string) (r : result CheckpointFailure (Z * list ascii))
    : result CheckpointFailure CheckpointBlob :=
  let? 'sp := r in
  map_err (λ e, match e with CkIncompatible reason => reason | _ => CkFailed end)
    (CheckpointBlob_new app_id version sp.1 sp.2).

Definition capture_with_timeout (app_id version : string) (event : CaptureEvent)
    : result CheckpointFailure CheckpointBlob :=
  match event with
  | CaptureSpawnFailed => Err CkFailed
  | CaptureFinished r =>
      (* a panic of the closure closes the channel *)
      match capture_result app_id version r with Panicked => Err CkFailed | r => r end
  | CaptureTimeout => Err CkTimeout
  | CaptureDisconnected => Err CkFailed
  end.

Section persistence.
  Context `{Host} `{Codec CheckpointBlob}.

Definition CheckpointBlob_load (path : string) (enforce_root_owner : bool) : IO CheckpointError CheckpointBlob :=
  let! metadata := io_map_err CkIo (fs_symlink_metadata path) in
  let! _ := io_lift (if bool_decide (md_kind metadata = Symlink)
                        || negb (bool_decide (md_kind metadata = RegularFile))
                        || negb (Z.land (md_mode metadata) 63 =? 0)%Z
                        || (enforce_root_owner && negb (md_uid metadata =? 0)%Z)
                     then Err (CkInvalid CkFile) else Ok tt) in
  let! contents := io_map_err CkIo (fs_read_file path) in
  let! checkpoint := io_lift (ok_or (from_json contents) CkJson) in
  let! _ := io_lift (CheckpointBlob_validate checkpoint) in
  io_ret checkpoint.

Definition CheckpointBlob_save_atomic (b : CheckpointBlob) (path : string) : IO CheckpointError unit :=
  let! _ := io_lift (CheckpointBlob_validate b) in
  io_map_err checkpoint_atomic_error (atomic_replace CheckpointTemp path (encode_line b)).

End persistence.

(** ** Lemmas *)

Lemma lower_hex_length l : String.length (lower_hex l) = (2 * length l)%nat.
Proof. induction l as [|b l IH]; simpl; [done|]. rewrite IH. lia. Qed.

Lemma hex_digit_ok n :
  (0 ≤ n < 16)%Z → is_ascii_hexdigit (hex_digit n) && negb (is_ascii_uppercase (hex_digit n)) = true.
Proof.
  intros Hn. assert (forallb (λ k, is_ascii_hexdigit (hex_digit (Z.of_nat k))
    && negb (is_ascii_uppercase (hex_digit (Z.of_nat k)))) (seq 0 16) = true) as Hall by (by vm_compute).
  rewrite forallb_forall in Hall. rewrite <- (Z2Nat.id n) by lia. apply Hall, in_seq. lia.
Qed.

Lemma hex_digit_inj m n : (0 ≤ m < 16)%Z → (0 ≤ n < 16)%Z → hex_digit m = hex_digit n → m = n.
Proof.
  intros Hm Hn Heq. assert (forallb (λ i, forallb (λ j, negb (bool_decide (hex_digit (Z.of_nat i) = hex_digit (Z.of_nat j)))
    || (i =? j)%nat) (seq 0 16)) (seq 0 16) = true) as Hall by (by vm_compute).
  rewrite forallb_forall in Hall. specialize (Hall (Z.to_nat m) ltac:(apply in_seq; lia)).
  rewrite forallb_forall in Hall. specialize (Hall (Z.to_nat n) ltac:(apply in_seq; lia)).
  rewrite !Z2Nat.id, bool_decide_eq_true_2 in Hall by (done || lia). simpl in Hall. unbool_hyps. lia.
Qed.

(** A byte is its two digits. *)
Lemma nibbles b : (0 ≤ Z.shiftr (byte_of b) 4 < 16)%Z ∧ (0 ≤ Z.land (byte_of b) 15 < 16)%Z ∧
  byte_of b = (16 * Z.shiftr (byte_of b) 4 + Z.land (byte_of b) 15)%Z.
Proof.
  pose proof (byte_of_range b). change 15%Z with (Z.ones 4). rewrite Z.land_ones, Z.shiftr_div_pow2 by lia.
  change (2 ^ 4)%Z with 16%Z. pose proof (Z.mod_pos_bound (byte_of b) 16 ltac:(lia)).
  pose proof (Z.div_mod (byte_of b) 16 ltac:(lia)).
  split_and!; [apply Z.div_pos; lia|apply Z.div_lt_upper_bound; lia|lia..].
Qed.

Lemma lower_hex_inj l k : lower_hex l = lower_hex k → l = k.
Proof.
  revert k. induction l as [|a l IH]; intros [|b k] Heq; [done|done|done|]. injection Heq as H1 H2 H3.
  destruct (nibbles a) as (Ra1&Ra2&Ea), (nibbles b) as (Rb1&Rb2&Eb).
  apply hex_digit_inj in H1, H2; [|lia..]. f_equal; [apply byte_of_inj; lia|auto].
Qed.

Lemma lower_hex_bytes l :
  bytes_all (λ c, is_ascii_hexdigit c && negb (is_ascii_uppercase c)) (lower_hex l) = true.
Proof.
  induction l as [|b l IH]; [done|]. cbn [lower_hex]. rewrite !bytes_all_cons, IH.
  destruct (nibbles b) as (?&?&_). by rewrite !hex_digit_ok.
Qed.

Hypothesis sha256_length : ∀ l, length (sha256 l) = 32.

Lemma checkpoint_validate_iff b :
  CheckpointBlob_validate b = Ok tt ↔
  format_version b = CHECKPOINT_SCHEMA_VERSION ∧ is_valid_app_id (cb_app_id b) = true ∧
  is_valid_app_version (package_version b) = true ∧ cb_schema_version b ≠ 0%Z ∧
  (length (payload b) ≤ MAX_CHECKPOINT_BYTES)%nat ∧ payload_length b = Z.of_nat (length (payload b)) ∧
  payload_sha256 b = lower_hex (sha256 (payload b)).
Proof.
  unfold CheckpointBlob_validate. split.
  - intros Hv. case_match; [done|]. by unbool_hyps.
  - intros (H1&H2&H3&H4&H5&H6&H7). rewrite H2, H3, H6, H7, lower_hex_bytes, lower_hex_length, sha256_length.
    rewrite bool_decide_eq_true_2 by done. rewrite (proj2 (Z.eqb_eq _ _)), (proj2 (Z.eqb_neq _ _)) by done.
    rewrite (proj2 (Nat.ltb_ge _ _)) by done. simpl. by rewrite Z.eqb_refl.
Qed.

Lemma checkpoint_new_ok app_id version schema data b :
  CheckpointBlob_new app_id version schema data = Ok b →
  CheckpointBlob_validate b = Ok tt ∧ cb_app_id b = app_id ∧ package_version b = version ∧
  cb_schema_version b = schema ∧ payload b = data.
Proof.
  unfold CheckpointBlob_new. intros Hn. repeat (case_match; [done|]). injection Hn as <-. unbool_hyps.
  split_and!; [|done..]. apply checkpoint_validate_iff. by split_and!.
Qed.

Lemma checkpoint_new_np app_id version schema data : CheckpointBlob_new app_id version schema data ≠ Panicked.
Proof.
  unfold CheckpointBlob_new. repeat (case_match; [done|]). unfold MAX_CHECKPOINT_BYTES, u32_max in *.
  case_match; [|done]. unbool_hyps. lia.
Qed.

(** What the service records of a capture is a valid checkpoint or a failure. *)
Lemma capture_valid_or_failure app_id version event :
  match capture_with_timeout app_id version event with
  | Ok b => CheckpointBlob_validate b = Ok tt ∧ cb_app_id b = app_id ∧ package_version b = version
  | Err _ => True
  | Panicked => False
  end.
Proof.
  destruct event as [|[[schema data]|e|]| |]; simpl; try done. unfold capture_result. simpl.
  pose proof (λ b, checkpoint_new_ok app_id version schema data b) as Hn.
  destruct (CheckpointBlob_new _ _ _ _); simpl; [|done|done]. by destruct (Hn _ eq_refl) as (?&?&?&_).
Qed.

(** A checkpoint that is created validates, never panics, and is accepted
    for restoring exactly the application, version and schema it was made for. *)
Theorem checkpoint_new_restores app_id version schema data :
  match CheckpointBlob_new app_id version schema data with
  | Ok b =>
      CheckpointBlob_validate b = Ok tt ∧ payload b = data ∧
      ∀ app' version' accepted,
        CheckpointBlob_validate_for_restore b app' version' accepted = Ok tt ↔
        app' = app_id ∧ version' = version ∧ schema ∈ accepted
  | Err e => is_valid_app_id app_id = false ∨ is_valid_app_version version = false ∨ schema = 0%Z ∨
             (MAX_CHECKPOINT_BYTES < length data)%nat
  | Panicked => False
  end.
Proof.
  pose proof (λ b, checkpoint_new_ok app_id version schema data b) as Hok.
  pose proof (checkpoint_new_np app_id version schema data) as Hnp.
  destruct (CheckpointBlob_new app_id version schema data) as [b|e|] eqn:Hn; [|clear Hok Hnp|done].
  - destruct (Hok b eq_refl) as (Hb&Ha&Hv&Hs&Hd). split_and!; [done|done|]. intros app' version' accepted.
    unfold CheckpointBlob_validate_for_restore. rewrite Hb, Ha, Hv, Hs. split.
    + intros Hr. case_match; [done|]. unbool_hyps. by split_and!.
    + intros (->&->&Hin). by rewrite !bool_decide_eq_true_2.
  - unfold CheckpointBlob_new in Hn.
    destruct (is_valid_app_id app_id); [|auto]. destruct (is_valid_app_version version); [|auto]. simpl in Hn.
    repeat (case_match; unbool_hyps; auto); done.
Qed.

(** A checkpoint whose payload was changed after it was written is refused,
    unless the changed payload has the same SHA-256 digest. *)
Theorem tampered_checkpoint_refused b data :
  CheckpointBlob_validate b = Ok tt →
  let b' := mkCheckpointBlob (format_version b) (cb_app_id b) (package_version b) (cb_schema_version b)
              (Z.of_nat (length data)) (payload_sha256 b) data in
  CheckpointBlob_validate b' = Ok tt → sha256 data = sha256 (payload b).
Proof.
  intros (_&_&_&_&_&_&Hb)%checkpoint_validate_iff b' (_&_&_&_&_&_&Hb')%checkpoint_validate_iff.
  simpl in Hb'. rewrite Hb in Hb'. by apply lower_hex_inj in Hb'.
Qed.

End checkpoint.

Definition zero_digest (l : list ascii) : list ascii := repeat "000"%char 32.

Lemma checkpoint_new_restores_witness :
  CheckpointBlob_validate_for_restore zero_digest
    (mkCheckpointBlob 1 "dev.cardputerzero.hello" "0.1.0" 3 2 (lower_hex (zero_digest [])) ["a"%char; "b"%char])
    "dev.cardputerzero.hello" "0.1.0" [3%Z] = Ok tt.
Proof.
  pose proof (checkpoint_new_restores zero_digest (λ _, eq_refl) "dev.cardputerzero.hello" "0.1.0" 3
    ["a"%char; "b"%char]) as (_&_&H).
  apply H. split_and!; [done|done|apply list_elem_of_here].
Defined.

Lemma tampered_checkpoint_refused_witness :
  zero_digest ["b"%char] = zero_digest ["a"%char].
Proof.
  apply (tampered_checkpoint_refused zero_digest (λ _, eq_refl)
    (mkCheckpointBlob 1 "dev.cardputerzero.hello" "0.1.0" 3 1 (lower_hex (zero_digest [])) ["a"%char]) ["b"%char]);
    by vm_compute.
Defined.
