(* ===== verification/Sandbox.v ===== *)
(** * The sandbox plan (crates/cp0-appd/src/lib.rs)

    How an application is started: the bubblewrap arguments and the systemd
    properties of its unit.  Paths are strings here, hence UTF-8, so that
    [path_text] cannot fail.

    The theorems: nothing an application controls can be read as an option by
    bubblewrap or systemd-run; the plan is confined to the directories of the
    application; every account of the registry gives a plan, and distinct
    applications give distinct users and units, which the task registry
    accepts. *)

From S2P Require Import Prelude RustStr Manifest HostFs Registry Tasks.

Definition BWRAP_PATH : string := "/usr/bin/bwrap".
Definition STABILITY_ACCEPTANCE_UNIT : string := "cardputerzero-stability-acceptance.service".

Record AppLayout := mkAppLayout {
  apps_root : string;
  data_root : string;
  runtime_path : string;
  broker_socket : string;
  wayland_socket : string;
}.

(** [impl Default for AppLayout]. *)
Definition AppLayout_default : AppLayout :=
  {| apps_root := "/var/lib/cardputerzero/apps"; data_root := "/var/lib/cardputerzero/data";
     runtime_path := "/usr/libexec/cardputerzero/app-runtime";
     broker_socket := "/run/cardputerzero-broker/runtime.sock";
     wayland_socket := "/run/cardputerzero/wayland-0" |}.

Record SandboxPlan := mkSandboxPlan {
  plan_app_id : string;
  plan_app_version : string;
  plan_user : string;
  plan_unit : string;
  memory_max_bytes : Z;
  package_dir : string;
  data_dir : string;
  plan_program : string;
  plan_arguments : list string;
  systemd_properties : list string;
}.

Inductive PlanError :=
  | InvalidAppUser
  | InvalidLayout (field : string)
  | NonUtf8Path (field : string).

Definition valid_app_user (user : string) : bool :=
  match strip_prefix "cp0-app-" user with
  | None => false
  | Some identifier =>
      negb (str_is_empty identifier) && (String.length identifier <=? 5)%nat
      && bytes_all is_ascii_digit identifier && negb (starts_with_char "0" identifier)
  end.

Definition validate_root (path field : string) : result PlanError unit :=
  if negb (path_is_absolute path)
     || existsb (λ c, match c with RootDir | Normal _ => false | _ => true end) (path_components path)
  then Err (InvalidLayout field)
  else Ok tt.

Definition path_text (path field : string) : result PlanError string := Ok path.

(** [&s[n..]]. *)
Definition str_from (n : nat) (s : string) : string := String.string_of_list_ascii (drop n (bytes s)).

Definition unit_of_user (app_user : string) : string :=
  "cardputerzero-app-" +:+ str_from 8 app_user +:+ ".service".

Definition display_mode_text (d : DisplayMode) : string :=
  match d with Standard => "standard" | Immersive => "immersive" end.

Definition bwrap_arguments (runtime package broker wayland app_id display_mode entrypoint : string)
    : list string :=
  ["--unshare-all"; "--die-with-parent"; "--new-session"; "--clearenv";
   "--dir"; "/runtime"; "--dir"; "/app"; "--dir"; "/data"; "--dir"; "/run"; "--dir"; "/run/cardputerzero";
   "--proc"; "/proc"; "--dev"; "/dev"; "--tmpfs"; "/tmp";
   "--ro-bind"; runtime; "/runtime/cardputerzero-app-runtime";
   "--ro-bind"; package; "/app";
   "--ro-bind"; broker; "/run/cardputerzero/broker.sock";
   "--ro-bind"; wayland; "/run/cardputerzero/wayland-0";
   "--chdir"; "/app";
   "--setenv"; "HOME"; "/data";
   "--setenv"; "XDG_DATA_HOME"; "/data";
   "--setenv"; "TMPDIR"; "/tmp";
   "--setenv"; "CP0_BROKER_SOCKET"; "/run/cardputerzero/broker.sock";
   "--setenv"; "XDG_RUNTIME_DIR"; "/run/cardputerzero";
   "--setenv"; "WAYLAND_DISPLAY"; "wayland-0";
   "--setenv"; "CP0_APP_ID"; app_id;
   "--setenv"; "CP0_DISPLAY_MODE"; display_mode;
   "--"; "/runtime/cardputerzero-app-runtime"; entrypoint].

Definition unit_properties (app_user : string) (memory : Z) : list string :=
  ["User=" +:+ app_user; "Group=" +:+ app_user; "SupplementaryGroups=cp0-wayland";
   "MemoryMax=" +:+ decimal memory; "MemorySwapMax=0"; "CPUQuota=60%"; "CPUWeight=50"; "TasksMax=32";
   "Conflicts=" +:+ STABILITY_ACCEPTANCE_UNIT; "UMask=0077"; "NoNewPrivileges=yes"; "PrivateDevices=yes";
   "PrivateTmp=yes"; "ProtectSystem=strict"; "ProtectHome=yes"; "ProtectKernelModules=yes";
   "ProtectControlGroups=yes"; "RestrictAddressFamilies=AF_UNIX AF_NETLINK"; "CapabilityBoundingSet=";
   "AmbientCapabilities="; "LockPersonality=yes"; "RestrictRealtime=yes"; "SystemCallArchitectures=native"].

Definition build_sandbox_plan (m : AppManifest) (app_user : string) (layout : AppLayout)
    : result PlanError SandboxPlan :=
  if negb (valid_app_user app_user) then Err InvalidAppUser
  else
    let? _ := validate_root (apps_root layout) "apps_root" in
    let? _ := validate_root (data_root layout) "data_root" in
    let? _ := validate_root (runtime_path layout) "runtime_path" in
    let? _ := validate_root (broker_socket layout) "broker_socket" in
    let? _ := validate_root (wayland_socket layout) "wayland_socket" in
    let? package := path_text (path_join (path_join (apps_root layout) (m_id m)) (m_version m)) "package_dir" in
    let? data := path_text (path_join (data_root layout) (m_id m)) "data_dir" in
    let? runtime := path_text (runtime_path layout) "runtime_path" in
    let? broker := path_text (broker_socket layout) "broker_socket" in
    let? wayland := path_text (wayland_socket layout) "wayland_socket" in
    let memory := (memory_mb (m_resources m) * 1024 * 1024)%Z in
    Ok {| plan_app_id := m_id m; plan_app_version := m_version m; plan_user := app_user;
          plan_unit := unit_of_user app_user; memory_max_bytes := memory; package_dir := package;
          data_dir := data; plan_program := BWRAP_PATH;
          plan_arguments := bwrap_arguments runtime package broker wayland (m_id m)
            (display_mode_text (m_display m)) ("/app/" +:+ m_entrypoint m);
          systemd_properties := unit_properties app_user memory |}.

Definition systemd_run_arguments (plan : SandboxPlan) : list string :=
  ["--quiet"; "--collect"; "--service-type=exec"; "--unit=" +:+ plan_unit plan]
  ++ map (λ property, "--property=" +:+ property) (systemd_properties plan)
  ++ ["--"; plan_program plan] ++ plan_arguments plan.

(** ** Specification *)

Definition is_option (a : string) : bool := starts_with_char dash a.

(** The bubblewrap options of the plan. *)
Definition PLAN_OPTIONS : list string :=
  ["--unshare-all"; "--die-with-parent"; "--new-session"; "--clearenv"; "--dir"; "--proc"; "--dev"; "--tmpfs";
   "--ro-bind"; "--chdir"; "--setenv"; "--"].

(** What a getopt-style reader takes as its own: everything before [--]. *)
Fixpoint before_separator (l : list string) : list string :=
  match l with
  | [] => []
  | a :: l => if bool_decide (a = "--") then [] else a :: before_separator l
  end.

(** ** Lemmas *)

Lemma string_of_list_app l k :
  String.string_of_list_ascii (l ++ k) = String.string_of_list_ascii l +:+ String.string_of_list_ascii k.
Proof. induction l as [|a l IH]; simpl; [done|]. by rewrite IH. Qed.

Lemma ends_with_app p s : ends_with p (s +:+ p) = true.
Proof.
  unfold ends_with, str_rev. rewrite bytes_app, reverse_app, string_of_list_app. apply starts_with_app.
Qed.

Lemma str_from_prefix p s : str_from (String.length p) (p +:+ s) = s.
Proof.
  unfold str_from. rewrite bytes_app, drop_app_ge; rewrite length_bytes; [|done].
  rewrite Nat.sub_diag, drop_0. unfold bytes. apply String.string_of_list_ascii_of_string.
Qed.

Lemma valid_app_user_inv user :
  valid_app_user user = true →
  ∃ n, user = "cp0-app-" +:+ n ∧ unit_of_user user = "cardputerzero-app-" +:+ n +:+ ".service" ∧
    (String.length n ≤ 5)%nat.
Proof.
  unfold valid_app_user. destruct (strip_prefix _ _) as [n|] eqn:Hs; [|done]. intros. unbool_hyps.
  apply strip_prefix_Some in Hs as ->. exists n. split_and!; [done| |done].
  unfold unit_of_user. do 2 f_equal. apply (str_from_prefix "cp0-app-").
Qed.

Lemma unit_of_user_valid user : valid_app_user user = true → valid_unit (unit_of_user user) = true.
Proof.
  intros (n&_&->&Hn)%valid_app_user_inv. unfold valid_unit. rewrite starts_with_app, andb_true_r.
  rewrite <- str_app_assoc, ends_with_app, andb_true_r. apply Nat.leb_le.
  rewrite !str_length_app. simpl. lia.
Qed.

Lemma str_app_inj_l p s t : p +:+ s = p +:+ t → s = t.
Proof. induction p as [|a p IH]; intros H; [done|]. injection H. apply IH. Qed.

Lemma str_app_inj_r p s t : s +:+ p = t +:+ p → s = t.
Proof.
  intros H. apply (f_equal bytes) in H. rewrite !bytes_app in H. apply app_inv_tail in H.
  unfold bytes in H. rewrite <- (String.string_of_list_ascii_of_string s), H.
  apply String.string_of_list_ascii_of_string.
Qed.

Lemma unit_of_user_inj u v :
  valid_app_user u = true → valid_app_user v = true → unit_of_user u = unit_of_user v → u = v.
Proof.
  intros (n&->&->&_)%valid_app_user_inv (k&->&->&_)%valid_app_user_inv Heq.
  apply str_app_inj_l, str_app_inj_r in Heq. by subst.
Qed.

(** Every account name the registry hands out is an application user. *)
Lemma account_user_valid a : account_wf a → valid_app_user (unix_user a) = true.
Proof.
  intros [Hr Hu _ _ _ _ _ _]. rewrite Hu. unfold FIRST_APP_ACCOUNT_ID, LAST_APP_ACCOUNT_ID in Hr.
  assert (forallb (λ k, valid_app_user (unix_user_of (20000 + Z.of_nat k))) (seq 0 64) = true) as Hall
    by (by vm_compute).
  rewrite forallb_forall in Hall. replace (account_id a) with (20000 + Z.of_nat (Z.to_nat (account_id a - 20000)))%Z by lia.
  apply Hall, in_seq. lia.
Qed.

Lemma absolute_not_option p : path_is_absolute p = true → is_option p = false.
Proof.
  unfold path_is_absolute, is_option, starts_with_char. intros H. unbool_hyps. rewrite H.
  by apply bool_decide_eq_false_2.
Qed.

Lemma app_id_not_option s : is_valid_app_id s = true → is_option s = false.
Proof.
  intros Hs. destruct s as [|b s]; [done|]. unfold is_option, starts_with_char, first_byte. simpl.
  apply bool_decide_eq_false_2. intros [= ->]. apply is_valid_app_id_parts in Hs as (_&_&Hp).
  change (str_split dot (String dash s)) with
    (match str_split dot s with [] => [String dash EmptyString] | p :: ps => String dash p :: ps end) in Hp.
  destruct (str_split dot s) as [|p ps]; apply Forall_cons in Hp as [Hp _]; unfold valid_id_part in Hp;
    unbool_hyps; done.
Qed.

Lemma validate_root_ok p f u : validate_root p f = Ok u → path_is_absolute p = true.
Proof. unfold validate_root. destruct (path_is_absolute p); [done|]. by simpl. Qed.

(** An argument that is no option, or one of the plan's. *)
Definition argument_ok (a : string) : bool := negb (is_option a) || bool_decide (a ∈ PLAN_OPTIONS).

Lemma not_option_ok a : is_option a = false → argument_ok a = true.
Proof. unfold argument_ok. by intros ->. Qed.

Lemma bwrap_arguments_ok runtime package broker wayland app_id mode entrypoint :
  path_is_absolute runtime = true → path_is_absolute package = true → path_is_absolute broker = true →
  path_is_absolute wayland = true → is_valid_app_id app_id = true →
  forallb argument_ok
    (bwrap_arguments runtime package broker wayland app_id (display_mode_text mode) ("/app/" +:+ entrypoint)) = true.
Proof.
  intros Hr Hp Hb Hw Hid. apply forallb_Forall. unfold bwrap_arguments.
  repeat (apply Forall_cons; split); [..|by apply Forall_nil].
  all: first [reflexivity|by apply not_option_ok, absolute_not_option|by apply not_option_ok, app_id_not_option|by destruct mode].
Qed.

(** ** Properties *)

(** Whatever a validated manifest says, every argument of the plan that
    bubblewrap could read as an option is one of the twelve options the service
    writes itself, none of which shares a writable directory, a device or the
    network; the package is mounted from below the package root; and the memory
    limit is the declared one, at most 96 MiB. *)
Theorem sandbox_options_fixed m user layout plan :
  manifest_validate m = Ok tt → build_sandbox_plan m user layout = Ok plan →
  (∀ a, a ∈ plan_arguments plan → is_option a = true → a ∈ PLAN_OPTIONS) ∧
  path_components (package_dir plan)
    = path_components (apps_root layout) ++ [Normal (m_id m); Normal (m_version m)] ∧
  memory_max_bytes plan = (memory_mb (m_resources m) * 2 ^ 20)%Z ∧
  (0 < memory_max_bytes plan ≤ 96 * 2 ^ 20)%Z.
Proof.
  intros Hm%manifest_validate_wf Hb. unfold build_sandbox_plan in Hb. case_match; [done|].
  destruct (validate_root (apps_root layout) _) eqn:Ha; [|done|done].
  destruct (validate_root (data_root layout) _) eqn:Hd; [|done|done].
  destruct (validate_root (runtime_path layout) _) eqn:Hr; [|done|done].
  destruct (validate_root (broker_socket layout) _) eqn:Hs; [|done|done].
  destruct (validate_root (wayland_socket layout) _) eqn:Hw; [|done|done].
  injection Hb as <-. simpl. apply validate_root_ok in Ha, Hr, Hs, Hw.
  pose proof (wf_memory _ Hm) as Hmem. pose proof (wf_id _ Hm) as Hid. pose proof (wf_version _ Hm) as Hver.
  assert (path_is_absolute (path_join (apps_root layout) (m_id m)) = true) as Hj by (by apply path_join_absolute).
  split_and!; [|..|unfold MAX_APP_MEMORY_MB in Hmem; lia|lia|unfold MAX_APP_MEMORY_MB in Hmem; lia].
  - pose proof (bwrap_arguments_ok (runtime_path layout) (path_join (path_join (apps_root layout) (m_id m)) (m_version m))
      (broker_socket layout) (wayland_socket layout) (m_id m) (m_display m) (m_entrypoint m)) as Hall.
    rewrite forallb_Forall, Forall_forall in Hall. intros x Hin Ho.
    specialize (Hall Hr ltac:(by apply path_join_absolute) Hs Hw Hid x Hin). unfold argument_ok in Hall.
    rewrite Ho in Hall. simpl in Hall. by apply bool_decide_eq_true_1 in Hall.
  - rewrite !path_components_join by eauto with rust. by rewrite <- app_assoc.
Qed.

Lemma sandbox_options_fixed_witness :
  ∃ plan, build_sandbox_plan hello_manifest "cp0-app-20000" AppLayout_default = Ok plan ∧
    memory_max_bytes plan = (memory_mb (m_resources hello_manifest) * 2 ^ 20)%Z.
Proof.
  eexists. split; [reflexivity|].
  apply (sandbox_options_fixed hello_manifest "cp0-app-20000" AppLayout_default); [by vm_compute|reflexivity].
Defined.

(** Systemd-run reads its own options up to the separator: the unit and the
    properties of the plan, and runs bubblewrap with exactly the arguments of
    the plan. *)
Theorem systemd_run_separates plan :
  systemd_run_arguments plan
    = before_separator (systemd_run_arguments plan) ++ ["--"; plan_program plan] ++ plan_arguments plan ∧
  before_separator (systemd_run_arguments plan)
    = ["--quiet"; "--collect"; "--service-type=exec"; "--unit=" +:+ plan_unit plan]
      ++ map (λ property, "--property=" +:+ property) (systemd_properties plan).
Proof.
  assert (∀ l k, Forall (λ a, a ≠ "--") l → before_separator (l ++ "--" :: k) = l) as Hb.
  { intros l k. induction 1 as [|a l Ha _ IH]; simpl; [done|]. by rewrite bool_decide_eq_false_2, IH. }
  assert (before_separator (systemd_run_arguments plan)
    = ["--quiet"; "--collect"; "--service-type=exec"; "--unit=" +:+ plan_unit plan]
      ++ map (λ property, "--property=" +:+ property) (systemd_properties plan)) as Heq.
  { unfold systemd_run_arguments. rewrite app_assoc. apply Hb. apply Forall_app. split.
    - repeat (apply Forall_cons; split); [done..|by apply Forall_nil].
    - apply Forall_fmap, Forall_true. done. }
  split; [|done]. rewrite Heq. unfold systemd_run_arguments. by rewrite <- !app_assoc.
Qed.

(** Every installed application of a valid registry can be planned; it
    runs under its own account in a unit the task registry accepts, and no two
    applications share a user or a unit. *)
Theorem installed_apps_isolated r layout k1 k2 a1 a2 m :
  AppRegistry_validate r = Ok tt →
  Forall (λ p, validate_root p.1 p.2 = Ok tt)
    [(apps_root layout, "apps_root"); (data_root layout, "data_root"); (runtime_path layout, "runtime_path");
     (broker_socket layout, "broker_socket"); (wayland_socket layout, "wayland_socket")] →
  apps r !! k1 = Some a1 → apps r !! k2 = Some a2 →
  (∃ plan, build_sandbox_plan m (unix_user a1) layout = Ok plan ∧ plan_user plan = unix_user a1 ∧
     valid_unit (plan_unit plan) = true) ∧
  (k1 ≠ k2 → unix_user a1 ≠ unix_user a2 ∧ unit_of_user (unix_user a1) ≠ unit_of_user (unix_user a2)).
Proof.
  intros Hwf%validate_iff_wf Hl H1 H2.
  destruct (rw_apps _ Hwf _ _ H1) as (_&Hw1&_), (rw_apps _ Hwf _ _ H2) as (_&Hw2&_).
  pose proof (account_user_valid _ Hw1) as Hu1. pose proof (account_user_valid _ Hw2) as Hu2. split.
  - unfold build_sandbox_plan. rewrite Hu1. simpl.
    repeat (apply Forall_cons in Hl as [Hx Hl]; simpl in Hx; rewrite Hx; clear Hx).
    eexists. split; [done|]. split; [done|]. by apply unit_of_user_valid.
  - intros Hne. assert (unix_user a1 ≠ unix_user a2) as Hun.
    { destruct Hw1 as [Hr1 Hx1], Hw2 as [Hr2 Hx2]. rewrite Hx1, Hx2. unfold FIRST_APP_ACCOUNT_ID in *.
      intros Heq%unix_user_of_inj; [|lia..]. apply Hne. by eapply (rw_distinct _ Hwf). }
    split; [done|]. intros Heq. by apply unit_of_user_inj in Heq.
Qed.

Lemma installed_apps_isolated_witness :
  ∃ plan, build_sandbox_plan hello_manifest "cp0-app-20000" AppLayout_default = Ok plan ∧
    plan_user plan = "cp0-app-20000" ∧ valid_unit (plan_unit plan) = true.
Proof.
  apply (installed_apps_isolated sample_registry AppLayout_default "dev.cardputerzero.hello"
    "dev.cardputerzero.hello" (sample_account "0.1.0" []) (sample_account "0.1.0" []));
    [by vm_compute| |by vm_compute|by vm_compute].
  repeat (apply Forall_cons; split); [reflexivity..|by apply Forall_nil].
Defined.
