(* ===== verification/Lifecycle.v ===== *)
(** * The application manager (crates/cp0-appd/src/lifecycle.rs)

    Installed packages on disk, their accounts in the registry and their units
    under systemd.  The commands [systemctl] and [systemd-run] and the password
    database belong to the host: they are the class [System], which answers
    whatever it likes at every call.  A method with [&mut self] returns its
    outcome with the manager it leaves.  Rust's [read_to_string] also checks
    UTF-8, which plays no role for the fields read here.  [logs] is not
    modelled: it formats the output of journalctl.

    The theorems: the registry in memory only changes when the registry on disk
    did; uninstalling removes the package and keeps the account; the unit that
    [stop] and [freeze] act on is the unit that [start] created; a package only
    starts when the manifest on disk is the one the registry names; measuring a
    tree terminates within its bound. *)

From S2P Require Import Prelude RustStr Manifest HostFs Registry Tasks Sandbox.

Definition IMMUTABLE_BUILTIN_APP_IDS : list string := ["dev.cardputerzero.camera"; "dev.cardputerzero.gallery"].
Definition is_removable_app (app_id : string) : bool :=
  negb (bool_decide (app_id ∈ IMMUTABLE_BUILTIN_APP_IDS)).
Definition SYSTEMD_RUN_PATH : string := "/usr/bin/systemd-run".
Definition SYSTEMCTL_PATH : string := "/usr/bin/systemctl".
Definition SYSTEM_SLICE_CGROUP_ROOT : string := "/sys/fs/cgroup/system.slice".
Definition COMPOSITOR_USER : string := "cp0-compositor".
Definition MAX_USAGE_TREE_ENTRIES : nat := Z.to_nat 16384.

Record ManagerPaths := mkManagerPaths { registry_path : string; mp_layout : AppLayout }.

(** [impl Default for ManagerPaths]. *)
Definition ManagerPaths_default : ManagerPaths :=
  {| registry_path := "/var/lib/cardputerzero/registry/apps.json"; mp_layout := AppLayout_default |}.

Record InstalledApp := mkInstalledApp {
  ia_app_id : string;
  ia_version : string;
  ia_account_user : string;
  ia_account_uid : Z;
  ia_installed_at : Z;
}.
Record AppUsage := mkAppUsage { package_bytes : Z; data_bytes : Z }.
Record UninstalledApp := mkUninstalledApp { ua_app_id : string; package_cleanup_pending : bool }.

Inductive HostIdentity :=
  | UidMismatch (user : string) (uid gid expected : Z)
  | NoRegistryParent
  | RuntimeNotExecutable
  | NoBrokerParent
  | BrokerNotSocket
  | NoWaylandParent
  | WaylandNotSocket
  | RegistryNotFile
  | NotADirectory (field : string)
  | NotControlled (field : string) (uid : Z)
  | OwnerMode (field : string)
  | NulInUser
  | CannotResolve (user : string)
  | NoSuchUser (user : string).

Inductive AppManagerError :=
  | AmRegistry (e : RegistryError)
  | AmManifest (e : ManifestError)
  | AmNotInstalled (app_id : string)
  | AmProtectedBuiltin (app_id : string)
  | AmIdentityMismatch
  | AmInvalidPackagePath (field : string)
  | AmInvalidHostIdentity (why : HostIdentity)
  | AmCommandIo (command : string) (e : IoError)
  | AmAlreadyRunning (app_id : string)
  | AmForegroundBusy (app_id : string)
  | AmNotRunning (app_id : string)
  | AmNoRollback (app_id : string)
  | AmUnitFailed (action : string)
  | AmUnitStateIo (e : IoError)
  | AmPackageIo (action : string) (e : IoError)
  | AmPlan (e : PlanError).

Record AppManager := mkAppManager { am_paths : ManagerPaths; am_registry : AppRegistry }.

(** The host's commands (did the command succeed?) and its password database,
    both at a point of time. *)
Class System := {
  run_command : nat → string → list string → IoError + bool;
  getpwnam : nat → string → IoError + option (Z * Z);
}.

Section manager.
  Context `{Host} `{System} `{Codec AppRegistry} (manifest_from_slice : list ascii → option AppManifest).

(** A question to the system takes one tick and leaves the disk alone. *)
Definition io_query {E A} (f : nat → result E A) : IO E A := λ w,
  (f (w_tick w),
   {| w_disk := w_disk w; w_tick := S (w_tick w); w_trace := w_trace w; w_sequence := w_sequence w |}).

(** [Command::new(program).args(args).status()], then [success()]; [name] is
    what the error calls the command. *)
Definition io_command (name program : string) (args : list string) : IO AppManagerError bool :=
  io_query (λ t, match run_command t program args with inl e => Err (AmCommandIo name e) | inr b => Ok b end).

(** ** Checks of the host *)

Definition unit_is_active (unit : string) : IO AppManagerError bool :=
  io_command "systemctl" SYSTEMCTL_PATH ["is-active"; "--quiet"; unit].

Definition lookup_unix_account (user : string) : IO AppManagerError (Z * Z) :=
  if existsb (λ a, bool_decide (a = "000"%char)) (bytes user) then io_err (AmInvalidHostIdentity NulInUser)
  else io_query (λ t,
    match getpwnam t user with
    | inl _ => Err (AmInvalidHostIdentity (CannotResolve user))
    | inr None => Err (AmInvalidHostIdentity (NoSuchUser user))
    | inr (Some entry) => Ok entry
    end).

Definition secure_metadata (path field : string) : IO AppManagerError Metadata :=
  let! metadata := io_map_err (λ _, AmInvalidPackagePath field) (fs_symlink_metadata path) in
  let! _ := io_guard (bool_decide (md_kind metadata = Symlink)) (AmInvalidPackagePath field) in
  io_ret metadata.

Definition require_owner_mode (metadata : Metadata) (expected_uid forbidden_mode : Z) (field : string)
    : IO AppManagerError unit :=
  io_guard (negb (md_uid metadata =? expected_uid)%Z || negb (Z.land (md_mode metadata) forbidden_mode =? 0)%Z)
    (AmInvalidHostIdentity (OwnerMode field)).

Definition require_root_directory (path field : string) : IO AppManagerError unit :=
  let! metadata := secure_metadata path field in
  let! _ := io_guard (negb (bool_decide (md_kind metadata = Directory)))
                     (AmInvalidHostIdentity (NotADirectory field)) in
  require_owner_mode metadata 0 18 field.

Definition require_controlled_directory (path : string) (expected_uid : Z) (field : string)
    : IO AppManagerError unit :=
  let! metadata := secure_metadata path field in
  io_guard (negb (bool_decide (md_kind metadata = Directory)) || negb (md_uid metadata =? expected_uid)%Z
            || negb (Z.land (md_mode metadata) 2 =? 0)%Z)
    (AmInvalidHostIdentity (NotControlled field expected_uid)).

Definition verify_registry_host (path : string) : IO AppManagerError unit :=
  let! metadata := secure_metadata path "application registry" in
  let! _ := io_guard (negb (bool_decide (md_kind metadata = RegularFile)))
                     (AmInvalidHostIdentity RegistryNotFile) in
  let! _ := require_owner_mode metadata 0 63 "application registry" in
  let! parent := io_lift (ok_or (path_parent path) (AmInvalidHostIdentity NoRegistryParent)) in
  require_root_directory parent "registry directory".

Definition verify_kind (kind : FileKind) (path field : string) : IO AppManagerError unit :=
  let! metadata := io_map_err (λ _, AmInvalidPackagePath field) (fs_symlink_metadata path) in
  io_guard (bool_decide (md_kind metadata = Symlink) || negb (bool_decide (md_kind metadata = kind)))
    (AmInvalidPackagePath field).
Definition verify_directory : string → string → IO AppManagerError unit := verify_kind Directory.
Definition verify_regular_file : string → string → IO AppManagerError unit := verify_kind RegularFile.

(** The loop of [verify_relative_file]. *)
Fixpoint verify_components (current : string) (components : list Component) (field : string)
    : IO AppManagerError unit :=
  match components with
  | [] => io_ret tt
  | Normal value :: rest =>
      let current := path_join current value in
      let! _ := match rest with
                | [] => verify_regular_file current field
                | _ => verify_directory current field
                end in
      verify_components current rest field
  | _ :: _ => io_err (AmInvalidPackagePath field)
  end.
Definition verify_relative_file (root relative field : string) : IO AppManagerError unit :=
  verify_components root (path_components relative) field.

(** [cp0_manifest::load_and_validate]. *)
Definition load_and_validate (path : string) : IO AppManagerError AppManifest :=
  let! contents := io_map_err (λ _, AmManifest ManifestIo) (fs_read_file path) in
  io_lift (map_err AmManifest (parse_and_validate manifest_from_slice contents)).

Definition AppManager_load_package_manifest (am : AppManager) (app_id version : string)
    : IO AppManagerError AppManifest :=
  let root := apps_root (mp_layout (am_paths am)) in
  let! _ := verify_directory root "applications root" in
  let app_dir := path_join root app_id in
  let! _ := verify_directory app_dir "application directory" in
  let package_dir := path_join app_dir version in
  let! _ := verify_directory package_dir "version directory" in
  let manifest_path := path_join package_dir "app.json" in
  let! _ := verify_regular_file manifest_path "manifest" in
  let! manifest := load_and_validate manifest_path in
  let! _ := verify_relative_file package_dir (m_entrypoint manifest) "entrypoint" in
  io_ret manifest.

(** ** Loading *)

Definition AppManager_load (paths : ManagerPaths) : IO AppManagerError AppManager :=
  let! _ := verify_registry_host (registry_path paths) in
  let! registry := io_map_err AmRegistry (AppRegistry_load (registry_path paths)) in
  io_ret {| am_paths := paths; am_registry := registry |}.

Definition AppManager_from_registry (paths : ManagerPaths) (registry : AppRegistry)
    : result AppManagerError AppManager :=
  let? _ := map_err AmRegistry (AppRegistry_validate registry) in
  Ok {| am_paths := paths; am_registry := registry |}.

(** ** Queries *)

Definition is_installed (a : AppAccount) : bool := bool_decide (is_Some (installed_version a)).

Definition installed_account (am : AppManager) (app_id : string) : result AppManagerError AppAccount :=
  match AppRegistry_account (am_registry am) app_id with
  | Some a => if is_installed a then Ok a else Err (AmNotInstalled app_id)
  | None => Err (AmNotInstalled app_id)
  end.

Definition installed_app (app_id version : string) (a : AppAccount) : InstalledApp :=
  {| ia_app_id := app_id; ia_version := version; ia_account_user := unix_user a; ia_account_uid := unix_uid a;
     ia_installed_at := default 0%Z (installed_at_unix_seconds a) |}.

Definition AppManager_installed_apps (am : AppManager) : list InstalledApp :=
  omap (λ e, (λ v, installed_app e.1 v e.2) <$> installed_version e.2) (btree_iter str_leb (apps (am_registry am))).

(** The outer option is [Option<InstalledApp>]; the [expect] is the panic. *)
Definition AppManager_installed_app_for_uid (am : AppManager) (uid : Z)
    : result AppManagerError (option InstalledApp) :=
  match AppRegistry_installed_app_for_uid (am_registry am) uid with
  | None => Ok None
  | Some (app_id, a) =>
      match installed_version a with
      | Some v => Ok (Some (installed_app app_id v a))
      | None => Panicked
      end
  end.

Definition AppManager_unit_for_app (am : AppManager) (app_id : string) : result AppManagerError string :=
  let? a := installed_account am app_id in
  Ok ("cardputerzero-app-" +:+ decimal (account_id a) +:+ ".service").

Definition AppManager_installed_manifest (am : AppManager) (app_id : string) : IO AppManagerError AppManifest :=
  let! account := io_lift (ok_or (AppRegistry_account (am_registry am) app_id) (AmNotInstalled app_id)) in
  let! version := io_lift (ok_or (installed_version account) (AmNotInstalled app_id)) in
  let! manifest := AppManager_load_package_manifest am app_id version in
  let! _ := io_guard (negb (bool_decide (m_id manifest = app_id))
                      || negb (bool_decide (m_version manifest = version))) AmIdentityMismatch in
  io_ret manifest.

Definition AppManager_sandbox_plan (am : AppManager) (app_id : string) : IO AppManagerError SandboxPlan :=
  let! account := io_lift (ok_or (AppRegistry_account (am_registry am) app_id) (AmNotInstalled app_id)) in
  let! version := io_lift (ok_or (installed_version account) (AmNotInstalled app_id)) in
  let! manifest := AppManager_load_package_manifest am app_id version in
  let! _ := io_guard (negb (bool_decide (m_id manifest = app_id))
                      || negb (bool_decide (m_version manifest = version))) AmIdentityMismatch in
  io_lift (map_err AmPlan (build_sandbox_plan manifest (unix_user account) (mp_layout (am_paths am)))).

Definition AppManager_is_running (am : AppManager) (app_id : string) : IO AppManagerError bool :=
  let! unit := io_lift (AppManager_unit_for_app am app_id) in
  unit_is_active unit.

(** ** Units *)

(** The loop of [cgroup_is_populated] over the lines of [cgroup.events]. *)
Fixpoint populated_state (lines : list string) : result AppManagerError bool :=
  match lines with
  | [] => Err (AmUnitStateIo OtherIo)
  | line :: lines =>
      match split_ascii_whitespace line with
      | "populated" :: fields =>
          match fields with
          | ["0"] => Ok false
          | ["1"] => Ok true
          | _ => Err (AmUnitStateIo OtherIo)
          end
      | _ => populated_state lines
      end
  end.
Definition cgroup_is_populated (path : string) : IO AppManagerError bool :=
  io_try (fs_read_file (path_join path "cgroup.events")) (λ events,
    match events with
    | Ok events => io_lift (populated_state (str_lines (String.string_of_list_ascii events)))
    | Err NotFound => io_ret false
    | Err e => io_err (AmUnitStateIo e)
    | Panicked => io_lift Panicked
    end).

Definition AppManager_has_resident_process (am : AppManager) (app_id : string) : IO AppManagerError bool :=
  let! unit := io_lift (AppManager_unit_for_app am app_id) in
  cgroup_is_populated (path_join SYSTEM_SLICE_CGROUP_ROOT unit).

(** The polling loop, which ends when the processes of the unit have ended:
    [None] says that they were still there after [fuel] polls. *)
Fixpoint wait_for_cgroup_stopped (fuel : nat) (path : string) : IO AppManagerError (option unit) :=
  match fuel with
  | 0 => io_ret None
  | S fuel =>
      let! populated := cgroup_is_populated path in
      if populated then wait_for_cgroup_stopped fuel path else io_ret (Some tt)
  end.
Definition wait_for_unit_stopped (fuel : nat) (unit : string) : IO AppManagerError (option ()) :=
  wait_for_cgroup_stopped fuel (path_join SYSTEM_SLICE_CGROUP_ROOT unit).

Definition AppManager_verify_launch_host (am : AppManager) (plan : SandboxPlan) (account : AppAccount)
    : IO AppManagerError unit :=
  let layout := mp_layout (am_paths am) in
  let! ids := lookup_unix_account (unix_user account) in
  let! _ := io_guard (negb (ids.1 =? unix_uid account)%Z || negb (ids.2 =? unix_uid account)%Z)
              (AmInvalidHostIdentity (UidMismatch (unix_user account) ids.1 ids.2 (unix_uid account))) in
  let! registry_parent := io_lift (ok_or (path_parent (registry_path (am_paths am)))
                                         (AmInvalidHostIdentity NoRegistryParent)) in
  let! _ := require_root_directory registry_parent "registry directory" in
  let! _ := require_root_directory (apps_root layout) "applications root" in
  let! _ := require_root_directory (path_join (apps_root layout) (plan_app_id plan)) "application directory" in
  let! runtime := secure_metadata (runtime_path layout) "runtime" in
  let! _ := require_owner_mode runtime 0 18 "runtime" in
  let! _ := io_guard (negb (bool_decide (md_kind runtime = RegularFile)) || (Z.land (md_mode runtime) 73 =? 0)%Z)
              (AmInvalidHostIdentity RuntimeNotExecutable) in
  let! broker_parent := io_lift (ok_or (path_parent (broker_socket layout)) (AmInvalidHostIdentity NoBrokerParent)) in
  let! _ := require_root_directory broker_parent "broker socket directory" in
  let! broker := secure_metadata (broker_socket layout) "broker socket" in
  let! _ := io_guard (negb (bool_decide (md_kind broker = Socket)) || negb (md_uid broker =? 0)%Z)
              (AmInvalidHostIdentity BrokerNotSocket) in
  let! wayland_parent := io_lift (ok_or (path_parent (wayland_socket layout)) (AmInvalidHostIdentity NoWaylandParent)) in
  let! compositor := lookup_unix_account COMPOSITOR_USER in
  let! _ := require_controlled_directory wayland_parent compositor.1 "Wayland runtime directory" in
  let! wayland := secure_metadata (wayland_socket layout) "Wayland socket" in
  let! _ := io_guard (negb (bool_decide (md_kind wayland = Socket)) || negb (md_uid wayland =? compositor.1)%Z)
              (AmInvalidHostIdentity WaylandNotSocket) in
  let! package := secure_metadata (package_dir plan) "package directory" in
  let! _ := require_owner_mode package 0 18 "package directory" in
  let! manifest := secure_metadata (path_join (package_dir plan) "app.json") "manifest" in
  let! _ := require_owner_mode manifest 0 18 "manifest" in
  let! installed_manifest := AppManager_load_package_manifest am (plan_app_id plan) (plan_app_version plan) in
  let! entrypoint := secure_metadata (path_join (package_dir plan) (m_entrypoint installed_manifest)) "entrypoint" in
  require_owner_mode entrypoint 0 18 "entrypoint".

(** Run a command and ask afterwards whether the unit is in the state it should
    be in; the second question is only asked after a success. *)
Definition unit_command (name program : string) (args : list string) (unit : string) (active : bool)
    (action : string) : IO AppManagerError () :=
  let! success := io_command name program args in
  if success then
    let! now := unit_is_active unit in
    io_guard (negb (bool_decide (now = active))) (AmUnitFailed action)
  else io_err (AmUnitFailed action).

Definition AppManager_start (am : AppManager) (app_id : string) : IO AppManagerError string :=
  let! plan := AppManager_sandbox_plan am app_id in
  let! account := io_lift (ok_or (AppRegistry_account (am_registry am) app_id) (AmNotInstalled app_id)) in
  let! _ := AppManager_verify_launch_host am plan account in
  let! active := unit_is_active (plan_unit plan) in
  let! _ := io_guard active (AmAlreadyRunning app_id) in
  let! _ := unit_command "systemd-run" SYSTEMD_RUN_PATH (systemd_run_arguments plan) (plan_unit plan) true "start" in
  io_ret (plan_unit plan).

Definition AppManager_stop (am : AppManager) (app_id : string) : IO AppManagerError unit :=
  let! unit := io_lift (AppManager_unit_for_app am app_id) in
  let! active := unit_is_active unit in
  let! _ := io_guard (negb active) (AmNotRunning app_id) in
  unit_command "systemctl" SYSTEMCTL_PATH ["stop"; unit] unit false "stop".

Definition AppManager_set_frozen (am : AppManager) (app_id : string) (frozen : bool) : IO AppManagerError unit :=
  let! unit := io_lift (AppManager_unit_for_app am app_id) in
  let! active := unit_is_active unit in
  let! _ := io_guard (negb active) (AmNotRunning app_id) in
  let action := if frozen then "freeze" else "thaw" in
  unit_command "systemctl" SYSTEMCTL_PATH [action; unit] unit true action.
Definition AppManager_freeze (am : AppManager) (app_id : string) : IO AppManagerError unit :=
  AppManager_set_frozen am app_id true.
Definition AppManager_thaw (am : AppManager) (app_id : string) : IO AppManagerError unit :=
  AppManager_set_frozen am app_id false.

(** ** Measuring *)

(** The [for] loop of [tree_bytes] over the entries of a directory: the state
    is (total, visited, pending), the last entry of [pending] is its head. *)
Fixpoint usage_entries (entries : list string) (st : Z * nat * list string)
    : IO IoError (Z * nat * list string) :=
  match entries with
  | [] => io_ret st
  | entry :: entries =>
      let '(total, visited, pending) := st in
      let visited := S visited in
      if (MAX_USAGE_TREE_ENTRIES <? visited)%nat then io_err OtherIo
      else
        let! metadata := fs_symlink_metadata entry in
        usage_entries entries
          (saturating_add_u64 total (md_len metadata), visited,
           if bool_decide (md_kind metadata = Directory) then entry :: pending else pending)
  end.

(** The [while] loop; running out of fuel is [Panicked]. *)
Fixpoint usage_loop (fuel : nat) (st : Z * nat * list string) : IO IoError Z :=
  match st.2 with
  | [] => io_ret st.1.1
  | directory :: pending =>
      match fuel with
      | 0 => io_lift Panicked
      | S fuel =>
          let! entries := fs_read_dir directory in
          let! st := usage_entries entries (st.1, pending) in
          usage_loop fuel st
      end
  end.

Definition tree_bytes (root : string) : IO IoError Z :=
  let! metadata := fs_symlink_metadata root in
  let! _ := io_guard (bool_decide (md_kind metadata = Symlink) || negb (bool_decide (md_kind metadata = Directory)))
                     OtherIo in
  usage_loop MAX_USAGE_TREE_ENTRIES (md_len metadata, 1%nat, [root]).

Definition AppManager_package_usage (am : AppManager) (app_id : string) : IO AppManagerError Z :=
  let! _ := io_guard (negb (is_valid_app_id app_id)) (AmNotInstalled app_id) in
  let! _ := io_lift (installed_account am app_id) in
  io_map_err (AmPackageIo "measure") (tree_bytes (path_join (apps_root (mp_layout (am_paths am))) app_id)).

Definition AppManager_app_usage (am : AppManager) (app_id : string) : IO AppManagerError AppUsage :=
  let! package := AppManager_package_usage am app_id in
  let data_root := path_join (data_root (mp_layout (am_paths am))) app_id in
  let! data := io_try (fs_symlink_metadata data_root) (λ r,
    match r with
    | Ok _ => io_map_err (AmPackageIo "measure data") (tree_bytes data_root)
    | Err NotFound => io_ret 0%Z
    | Err e => io_err (AmPackageIo "measure data" e)
    | Panicked => io_lift Panicked
    end) in
  io_ret {| package_bytes := package; data_bytes := data |}.

(** ** Changing the registry *)

(** Clone the registry, change it, save it, and only then adopt it. *)
Definition commit_registry {A} (am : AppManager) (change : AppRegistry → result RegistryError A * AppRegistry)
    : World → (result AppManagerError A * AppManager) * World := λ w,
  let '(r, next) := change (am_registry am) in
  match r with
  | Err e => ((Err (AmRegistry e), am), w)
  | Panicked => ((Panicked, am), w)
  | Ok a =>
      let '(saved, w) := AppRegistry_save_atomic next (registry_path (am_paths am)) w in
      match saved with
      | Ok _ => ((Ok a, {| am_paths := am_paths am; am_registry := next |}), w)
      | Err e => ((Err (AmRegistry e), am), w)
      | Panicked => ((Panicked, am), w)
      end
  end.

Definition AppManager_mark_installed (now : Z) (am : AppManager) (m : AppManifest)
    : World → (result AppManagerError InstalledApp * AppManager) * World := λ w,
  match AppManager_load_package_manifest am (m_id m) (m_version m) w with
  | (Ok installed, w) =>
      if negb (bool_decide (installed = m)) then ((Err AmIdentityMismatch, am), w)
      else
        let '((r, am), w) := commit_registry am (λ r, AppRegistry_mark_installed now r m) w in
        ((match r with Ok a => Ok (installed_app (m_id m) (m_version m) a)
                     | Err e => Err e | Panicked => Panicked end, am), w)
  | (Err e, w) => ((Err e, am), w)
  | (Panicked, w) => ((Panicked, am), w)
  end.

Definition AppManager_prepare_account (am : AppManager) (app_id : string)
    : result AppManagerError AppAccount * AppManager :=
  let '(r, registry) := AppRegistry_assign (am_registry am) app_id in
  (map_err AmRegistry r, {| am_paths := am_paths am; am_registry := registry |}).

(** The checks of [rollback] before the registry changes: the target version. *)
Definition rollback_target (am : AppManager) (app_id : string) : IO AppManagerError string :=
  let! account := io_lift (installed_account am app_id) in
  let! active := unit_is_active ("cardputerzero-app-" +:+ decimal (account_id account) +:+ ".service") in
  let! _ := io_guard active (AmAlreadyRunning app_id) in
  let! version := io_lift (ok_or (head (previous_versions account)) (AmNoRollback app_id)) in
  let! manifest := AppManager_load_package_manifest am app_id version in
  let! _ := io_guard (negb (bool_decide (m_id manifest = app_id))
                      || negb (bool_decide (m_version manifest = version))) AmIdentityMismatch in
  io_ret version.

Definition AppManager_rollback (am : AppManager) (app_id : string)
    : World → (result AppManagerError InstalledApp * AppManager) * World := λ w,
  match rollback_target am app_id w with
  | (Ok version, w) =>
      let '((r, am), w) := commit_registry am (λ r, AppRegistry_rollback r app_id) w in
      ((match r with Ok a => Ok (installed_app app_id version a)
                   | Err e => Err e | Panicked => Panicked end, am), w)
  | (Err e, w) => ((Err e, am), w)
  | (Panicked, w) => ((Panicked, am), w)
  end.

Definition app_root_of (am : AppManager) (app_id : string) : string :=
  path_join (apps_root (mp_layout (am_paths am))) app_id.
Definition tombstone_of (am : AppManager) (a : AppAccount) : string :=
  path_join (apps_root (mp_layout (am_paths am))) (".uninstall-" +:+ decimal (account_id a)).

(** The part of [uninstall_stopped] up to the staged directory. *)
Definition stage_removal (am : AppManager) (app_id : string) : IO AppManagerError AppAccount :=
  let! account := io_lift (installed_account am app_id) in
  let! metadata := io_map_err (AmPackageIo "inspect") (fs_symlink_metadata (app_root_of am app_id)) in
  let! _ := io_guard (negb (bool_decide (md_kind metadata = Directory)) || bool_decide (md_kind metadata = Symlink))
                     (AmInvalidPackagePath "application directory") in
  let! _ := io_map_err (AmPackageIo "stage removal")
              (fs_rename_dir (app_root_of am app_id) (tombstone_of am account)) in
  io_ret account.

Definition AppManager_uninstall_stopped (am : AppManager) (app_id : string)
    : World → (result AppManagerError UninstalledApp * AppManager) * World := λ w,
  match stage_removal am app_id w with
  | (Ok account, w) =>
      let '((r, am), w) := commit_registry am (λ r, AppRegistry_uninstall r app_id) w in
      match r with
      | Ok _ =>
          let '(removed, w) := fs_remove_dir_all (tombstone_of am account) w in
          ((Ok {| ua_app_id := app_id; package_cleanup_pending := negb (is_ok removed) |}, am), w)
      | Err e =>
          let '(_, w) := fs_rename_dir (tombstone_of am account) (app_root_of am app_id) w in
          ((Err e, am), w)
      | Panicked => ((Panicked, am), w)
      end
  | (Err e, w) => ((Err e, am), w)
  | (Panicked, w) => ((Panicked, am), w)
  end.

Definition AppManager_uninstall (am : AppManager) (app_id : string)
    : World → (result AppManagerError UninstalledApp * AppManager) * World := λ w,
  if negb (is_removable_app app_id) then ((Err (AmProtectedBuiltin app_id), am), w)
  else match AppManager_is_running am app_id w with
  | (Ok true, w) => ((Err (AmAlreadyRunning app_id), am), w)
  | (Ok false, w) => AppManager_uninstall_stopped am app_id w
  | (Err e, w) => ((Err e, am), w)
  | (Panicked, w) => ((Panicked, am), w)
  end.

(** ** Lemmas *)

Lemma io_guard_Ok {E} b (e : E) w u w' : io_guard b e w = (Ok u, w') → b = false ∧ w' = w.
Proof. intros [Hb ->]%io_lift_Ok. by destruct b. Qed.

Lemma io_command_Ok name program args w b w' :
  io_command name program args w = (Ok b, w') → run_command (w_tick w) program args = inr b.
Proof.
  unfold io_command, io_query. intros [= Hr _]. by destruct (run_command _ _ _); simplify_eq/=.
Qed.

Lemma commit_registry_Ok {A} am (change : AppRegistry → result RegistryError A * AppRegistry) w a am' w' :
  commit_registry am change w = ((Ok a, am'), w') →
  change (am_registry am) = (Ok a, am_registry am') ∧ am_paths am' = am_paths am ∧
  AppRegistry_save_atomic (am_registry am') (registry_path (am_paths am)) w = (Ok tt, w').
Proof.
  unfold commit_registry. destruct (change _) as [[b|e|] next] eqn:Hc; [|done..].
  destruct (AppRegistry_save_atomic _ _ _) as [[[]|e|] w1] eqn:Hs; intros; simplify_eq/=. done.
Qed.

Lemma commit_registry_err {A} am (change : AppRegistry → result RegistryError A * AppRegistry) w :
  is_ok (commit_registry am change w).1.1 = false → (commit_registry am change w).1.2 = am.
Proof.
  unfold commit_registry. destruct (change _) as [[b|e|] next]; [|done..].
  by destruct (AppRegistry_save_atomic _ _ _) as [[[]|e|] w1].
Qed.

Lemma installed_account_Ok am app_id a :
  installed_account am app_id = Ok a → apps (am_registry am) !! app_id = Some a ∧ is_Some (installed_version a).
Proof.
  unfold installed_account, AppRegistry_account. destruct (apps _ !! _) as [b|]; [|done].
  destruct (is_installed b) eqn:Hi; [|done]. intros [= ->]. split; [done|]. by apply bool_decide_eq_true in Hi.
Qed.

Lemma unit_of_account a :
  account_wf a → "cardputerzero-app-" +:+ decimal (account_id a) +:+ ".service" = unit_of_user (unix_user a).
Proof. intros [_ Hu _ _ _ _ _ _]. rewrite Hu. unfold unit_of_user, unix_user_of. by rewrite (str_from_prefix "cp0-app-"). Qed.

(** A saved registry is on disk as the encoder wrote it. *)
Lemma save_atomic_Ok r path parent f w w' :
  quiet _ → disk_wf (w_disk w) → path_is_absolute path = true →
  path_parent path = Some parent → path_file_name path = Some f →
  AppRegistry_save_atomic r path w = (Ok tt, w') →
  ∃ bs, to_json r = Some bs ∧ AppRegistry_validate r = Ok tt ∧
    HostFs.installed (w_disk w) (path_join parent (temporary_name f (w_sequence w RegistryTemp))) path
      (bs ++ [newline]) (w_disk w').
Proof.
  intros Hq Hd Habs Hp Hf Hrun. unfold AppRegistry_save_atomic in Hrun.
  apply io_bind_Ok in Hrun as ([]&w1&[Hv ->]%io_lift_Ok&Hrun). apply io_map_err_Ok in Hrun.
  unfold encode_line in Hrun. destruct (to_json r) as [bs|]; simpl in Hrun.
  - exists bs. split_and!; [done..|].
    destruct (atomic_replace_safe RegistryTemp path parent f (bs ++ [newline]) w Hq Hd Habs Hp Hf)
      as (_&_&_&Hout). by rewrite Hrun in Hout.
  - exfalso. unfold atomic_replace in Hrun. apply io_bind_Ok in Hrun as (?&?&[_ ->]%io_lift_Ok&Hrun).
    apply io_bind_Ok in Hrun as (?&?&[_ ->]%io_lift_Ok&Hrun). apply io_bind_Ok in Hrun as (?&?&_&Hrun).
    revert Hrun. unfold io_try at 1. destruct (replace_steps _ _ _ _ _) as [[u|e|] w2] eqn:Hs.
    + unfold replace_steps in Hs. apply io_bind_Ok in Hs as (?&?&_&Hs).
      by apply io_bind_Ok in Hs as (?&?&[? ->]%io_lift_Ok&Hs).
    + unfold io_try. by destruct (fs_remove_file _ _).
    + done.
Qed.

(** What a successful staging did. *)
Lemma stage_removal_Ok am app_id a w w' :
  quiet _ → app_root_of am app_id ≠ tombstone_of am a → disk_wf (w_disk w) →
  stage_removal am app_id w = (Ok a, w') →
  installed_account am app_id = Ok a ∧ disk_wf (w_disk w') ∧ w_sequence w' = w_sequence w ∧
  ∀ q, under (tombstone_of am a) q = false →
    file_at (w_disk w') q = if under (app_root_of am app_id) q then None else file_at (w_disk w) q.
Proof.
  intros Hq Hne Hd Hrun. unfold stage_removal in Hrun.
  apply io_bind_Ok in Hrun as (acc&?&[Ha ->]%io_lift_Ok&Hrun).
  apply io_bind_Ok in Hrun as (md&w1&Hmd%io_map_err_Ok&Hrun).
  assert (w_disk w1 = w_disk w ∧ w_sequence w1 = w_sequence w) as [Hd1 Hs1].
  { split.
    - apply io_op_Ok in Hmd as (Hmd&_&_). rewrite Hq in Hmd. repeat case_match; simplify_eq/=; congruence.
    - apply (f_equal (w_sequence ∘ snd)) in Hmd. simpl in Hmd. rewrite <- Hmd. apply io_op_sequence. }
  apply io_bind_Ok in Hrun as (?&?&[_ ->]%io_guard_Ok&Hrun).
  apply io_bind_Ok in Hrun as ([]&w2&Hren%io_map_err_Ok&Hrun). injection Hrun as -> ->.
  apply fs_rename_dir_Ok in Hren as (Hf&Hw&Hs); [|done..]. rewrite Hd1 in *.
  split_and!; [done|by apply Hw|congruence|done].
Qed.

Lemma app_root_not_tombstone am app_id a :
  path_is_absolute (apps_root (mp_layout (am_paths am))) = true → is_valid_app_id app_id = true →
  app_root_of am app_id ≠ tombstone_of am a.
Proof.
  intros Habs Hid Heq. pose proof (app_id_plain _ Hid) as Hp.
  assert (plain_name (".uninstall-" +:+ decimal (account_id a))) as Ht.
  { split_and!; [done| | |].
    1,2: intros Hx; apply (f_equal String.length) in Hx; rewrite str_length_app in Hx; simpl in Hx; lia.
    rewrite bytes_all_app. apply andb_true_iff. split; [done|].
    eapply bytes_all_impl, (decimal_digits _). intros b Hb. rewrite bool_decide_eq_false_2; [done|]. by intros ->. }
  apply (f_equal path_file_name) in Heq. unfold app_root_of, tombstone_of in Heq.
  rewrite !path_file_name_join in Heq by done. injection Heq as ->.
  apply is_valid_app_id_parts in Hid as (_&_&Hparts).
  change (".uninstall-" +:+ ?x) with (String dot ("uninstall-" +:+ x)) in Hparts.
  assert (∀ t, str_split dot (String dot t) = EmptyString :: str_split dot t) as Hsplit by done.
  rewrite Hsplit in Hparts. by apply Forall_cons in Hparts as [? _].
Qed.

(** *** Termination of the measurement *)

Lemma usage_entries_visited entries total visited pending w st w' :
  (visited ≤ MAX_USAGE_TREE_ENTRIES)%nat →
  usage_entries entries (total, visited, pending) w = (Ok st, w') →
  (st.1.2 ≤ MAX_USAGE_TREE_ENTRIES ∧ length st.2 + visited ≤ length pending + st.1.2)%nat.
Proof.
  revert total visited pending w. induction entries as [|e l IH]; intros total visited pending w Hv.
  - intros [= <- <-]. simpl. lia.
  - cbn [usage_entries]. destruct (Nat.ltb_spec MAX_USAGE_TREE_ENTRIES (S visited)) as [|Hlt]; [done|].
    intros Hrun. apply io_bind_Ok in Hrun as (md&w1&_&Hrun).
    apply IH in Hrun; [|lia]. case_bool_decide; simpl in *; lia.
Qed.

Lemma usage_entries_np entries st : never_panics (usage_entries entries st).
Proof.
  revert st. induction entries as [|e l IH]; intros [[total visited] pending]; [done|].
  cbn [usage_entries]. case_match; [done|]. apply never_panics_bind; [apply fs_symlink_metadata_np|intros; apply IH].
Qed.

(** Every directory still to read was counted, so the entries left to count and
    the directories left to read bound the rounds of the loop. *)
Lemma usage_loop_np fuel st :
  (st.1.2 ≤ MAX_USAGE_TREE_ENTRIES)%nat →
  (length st.2 + (MAX_USAGE_TREE_ENTRIES - st.1.2) ≤ fuel)%nat → never_panics (usage_loop fuel st).
Proof.
  revert st. induction fuel as [|fuel IH]; intros [[total visited] [|directory pending]] Hv Hm; try done;
    cbn [fst snd length] in *; [lia|]. cbn [usage_loop fst snd].
  apply never_panics_bind; [apply never_panics_op; intros; by repeat case_match|]. intros entries w.
  unfold io_bind. pose proof (usage_entries_np entries (total, visited, pending) w) as Hnp.
  destruct (usage_entries _ _ w) as [[st|e|] w1] eqn:Hrun; [|done..].
  apply usage_entries_visited in Hrun; [|done]. apply IH; lia.
Qed.

(** *** Checks that only read the disk *)

(** The disk stays as it is, and time passes. *)
Definition read_only {E A} (m : IO E A) : Prop :=
  ∀ w, w_disk (m w).2 = w_disk w ∧ (w_tick w ≤ w_tick (m w).2)%nat.

Lemma read_only_bind {E A B} (m : IO E A) (k : A → IO E B) :
  read_only m → (∀ a, read_only (k a)) → read_only (io_bind m k).
Proof.
  intros Hm Hk w. specialize (Hm w). unfold io_bind. destruct (m w) as [[a|e|] w1]; simpl in *; [|done..].
  destruct (Hk a w1), Hm. split; [congruence|lia].
Qed.
Lemma read_only_map_err {E F A} (f : E → F) (m : IO E A) : read_only m → read_only (io_map_err f m).
Proof. intros Hm w. specialize (Hm w). unfold io_map_err. by destruct (m w). Qed.
Lemma read_only_lift {E A} (r : result E A) : read_only (io_lift r).
Proof. done. Qed.
Lemma read_only_query {E A} (f : nat → result E A) : read_only (io_query f).
Proof. intros w. simpl. split; [done|lia]. Qed.
Lemma read_only_op {A} (f : Disk → result IoError A * Disk) :
  quiet _ → (∀ d, (f d).2 = d) → read_only (io_op (λ _ d, d) f).
Proof.
  intros Hq Hf w. unfold io_op. rewrite Hq. destruct (host_fault _) as [[??]|]; [simpl; split; [done|lia]|].
  specialize (Hf (w_disk w)). destruct (f _). simpl in *. split; [done|lia].
Qed.

End manager.

Create HintDb reads discriminated.
#[export] Hint Resolve read_only_bind read_only_map_err read_only_lift read_only_query : reads.
#[export] Hint Extern 1 (read_only (io_guard _ _)) => apply read_only_lift : reads.
#[export] Hint Extern 1 (read_only (io_ret _)) => apply read_only_lift : reads.
#[export] Hint Extern 1 (read_only (io_err _)) => apply read_only_lift : reads.

(** Split the successful binds of a hypothesis. *)
Ltac io_inv H := repeat (let H1 := fresh "Hrun" in
  apply io_bind_Ok in H as (?&?&H1&H);
  first [apply io_lift_Ok in H1 as [H1 ->] | apply io_guard_Ok in H1 as [H1 ->] | idtac]).

Section checks.
  Context `{Host} `{System} (manifest_from_slice : list ascii → option AppManifest) (Hquiet : quiet _).

Lemma read_only_metadata p : read_only (fs_symlink_metadata p).
Proof. apply read_only_op; [done|]. intros d. by repeat case_match. Qed.
Lemma read_only_read_file p : read_only (fs_read_file p).
Proof.
  apply read_only_bind; [|intros i]; (apply read_only_op; [done|]); intros d; by repeat case_match.
Qed.
Hint Resolve read_only_metadata read_only_read_file : reads.

Lemma read_only_secure p f : read_only (secure_metadata p f).
Proof. unfold secure_metadata. auto 6 with reads. Qed.
Lemma read_only_owner md uid mode f : read_only (require_owner_mode md uid mode f).
Proof. unfold require_owner_mode. auto with reads. Qed.
Hint Resolve read_only_secure read_only_owner : reads.
Lemma read_only_root p f : read_only (require_root_directory p f).
Proof. unfold require_root_directory. auto 6 with reads. Qed.
Lemma read_only_controlled p u f : read_only (require_controlled_directory p u f).
Proof. unfold require_controlled_directory. auto 6 with reads. Qed.
Lemma read_only_kind k p f : read_only (verify_kind k p f).
Proof. unfold verify_kind. auto 6 with reads. Qed.
Lemma read_only_account user : read_only (lookup_unix_account user).
Proof. unfold lookup_unix_account. case_match; auto with reads. Qed.
Hint Resolve read_only_root read_only_controlled read_only_kind read_only_account : reads.

Lemma read_only_components current l f : read_only (verify_components current l f).
Proof.
  revert current. induction l as [|c l IH]; intros current; [done|]. destruct c; try done.
  cbn [verify_components]. apply read_only_bind; [|auto]. destruct l; apply read_only_kind.
Qed.
Lemma read_only_manifest am id v : read_only (AppManager_load_package_manifest manifest_from_slice am id v).
Proof.
  unfold AppManager_load_package_manifest, load_and_validate, verify_relative_file, verify_directory, verify_regular_file.
  repeat (apply read_only_bind; [|intros ?]); auto using read_only_components with reads.
Qed.

Lemma read_only_run {E A} (m : IO E A) w r w' : read_only m → m w = (r, w') → w_disk w' = w_disk w.
Proof. intros Hm Hrun. destruct (Hm w) as [Hd _]. by rewrite Hrun in Hd. Qed.
Lemma read_only_tick {E A} (m : IO E A) w r w' : read_only m → m w = (r, w') → (w_tick w ≤ w_tick w')%nat.
Proof. intros Hm Hrun. destruct (Hm w) as [_ Ht]. by rewrite Hrun in Ht. Qed.

Lemma read_only_plan am id : read_only (AppManager_sandbox_plan manifest_from_slice am id).
Proof.
  unfold AppManager_sandbox_plan.
  repeat first [apply read_only_manifest | apply read_only_bind; [|intros ?]]; auto with reads.
Qed.
Lemma read_only_launch_host am plan a : read_only (AppManager_verify_launch_host manifest_from_slice am plan a).
Proof.
  unfold AppManager_verify_launch_host.
  repeat first [apply read_only_manifest | apply read_only_bind; [|intros ?]]; auto with reads.
Qed.

(** The contents a reader of a path gets. *)
Definition contents_at (d : Disk) (p : string) : option (list ascii) :=
  match resolve 40 d p with Some (i, _) => i_data <$> d_inodes d !! i | None => None end.

Lemma fs_read_file_Ok p bs w w' : fs_read_file p w = (Ok bs, w') → contents_at (w_disk w) p = Some bs.
Proof.
  unfold fs_read_file. intros Hrun. apply io_bind_Ok in Hrun as (i&w1&(Hopen&_&_)%io_op_Ok&(Hread&_&_)%io_op_Ok).
  rewrite Hquiet in Hopen, Hread. unfold contents_at.
  destruct (resolve 40 (w_disk w) p) as [[j n]|]; [|done].
  injection Hopen as -> Hd. rewrite <- Hd in Hread. by destruct (d_inodes (w_disk w) !! i); simplify_eq/=.
Qed.

(** The manifest of an installed package on a disk. *)
Definition manifest_on (am : AppManager) (id v : string) (d : Disk) : option AppManifest :=
  contents_at d (path_join (path_join (path_join (apps_root (mp_layout (am_paths am))) id) v) "app.json")
  ≫= manifest_from_slice.

Lemma load_package_manifest_Ok am id v m w w' :
  AppManager_load_package_manifest manifest_from_slice am id v w = (Ok m, w') →
  manifest_validate m = Ok tt ∧ manifest_on am id v (w_disk w) = Some m ∧ w_disk w' = w_disk w.
Proof.
  intros Hrun. pose proof (read_only_run _ _ _ _ (read_only_manifest _ _ _) Hrun) as Hd.
  unfold AppManager_load_package_manifest in Hrun.
  apply io_bind_Ok in Hrun as (?&w1&Hd1%(read_only_run _ _ _ _ (read_only_kind _ _ _))&Hrun).
  apply io_bind_Ok in Hrun as (?&w2&Hd2%(read_only_run _ _ _ _ (read_only_kind _ _ _))&Hrun).
  apply io_bind_Ok in Hrun as (?&w3&Hd3%(read_only_run _ _ _ _ (read_only_kind _ _ _))&Hrun).
  apply io_bind_Ok in Hrun as (?&w4&Hd4%(read_only_run _ _ _ _ (read_only_kind _ _ _))&Hrun).
  apply io_bind_Ok in Hrun as (m'&w5&Hload&Hrun).
  apply io_bind_Ok in Hrun as (?&?&_&Hrun). injection Hrun as -> _.
  unfold load_and_validate in Hload.
  apply io_bind_Ok in Hload as (bs&?&Hbs%io_map_err_Ok%fs_read_file_Ok&[Hload _]%io_lift_Ok).
  unfold parse_and_validate in Hload. destruct (manifest_from_slice bs) as [m1|] eqn:Hm; [|done].
  destruct (manifest_validate m1) as [[]| |] eqn:Hv; simplify_eq/=. split_and!; [done| |done].
  unfold manifest_on. replace (w_disk w) with (w_disk w4) by congruence. by rewrite Hbs.
Qed.

(** A plan is made from the installed version of the application. *)
Lemma sandbox_plan_Ok am id plan w w' :
  AppManager_sandbox_plan manifest_from_slice am id w = (Ok plan, w') →
  ∃ a v m, apps (am_registry am) !! id = Some a ∧ installed_version a = Some v ∧
    manifest_validate m = Ok tt ∧ manifest_on am id v (w_disk w) = Some m ∧ m_id m = id ∧ m_version m = v ∧
    build_sandbox_plan m (unix_user a) (mp_layout (am_paths am)) = Ok plan ∧ w_disk w' = w_disk w.
Proof.
  unfold AppManager_sandbox_plan. intros Hrun.
  apply io_bind_Ok in Hrun as (a&?&[Ha%ok_or_Ok ->]%io_lift_Ok&Hrun).
  apply io_bind_Ok in Hrun as (v&?&[Hv%ok_or_Ok ->]%io_lift_Ok&Hrun).
  apply io_bind_Ok in Hrun as (m&?&(Hm1&Hm2&Hd)%load_package_manifest_Ok&Hrun).
  apply io_bind_Ok in Hrun as (?&?&[Hg ->]%io_guard_Ok&[Hplan ->]%io_lift_Ok).
  exists a, v, m. apply orb_false_iff in Hg as [Hg1 Hg2].
  rewrite negb_false_iff, bool_decide_eq_true in Hg1, Hg2.
  destruct (build_sandbox_plan _ _ _); simplify_eq/=. done.
Qed.

Lemma lookup_account_Ok user ids w w' :
  lookup_unix_account user w = (Ok ids, w') → getpwnam (w_tick w) user = inr (Some ids).
Proof.
  unfold lookup_unix_account. case_match; [done|]. unfold io_query. intros [= Hr _].
  by destruct (getpwnam _ _) as [|[?|]]; simplify_eq/=.
Qed.

(** A command whose outcome was checked: it succeeded, and afterwards the unit
    was in the state asked for. *)
Lemma unit_command_Ok name program args unit active action w w' :
  unit_command name program args unit active action w = (Ok tt, w') →
  run_command (w_tick w) program args = inr true ∧
  run_command (S (w_tick w)) SYSTEMCTL_PATH ["is-active"; "--quiet"; unit] = inr active ∧
  w_tick w' = S (S (w_tick w)).
Proof.
  unfold unit_command. intros Hrun. apply io_bind_Ok in Hrun as ([]&w1&Hcmd&Hrun); [|done].
  apply io_bind_Ok in Hrun as (now&w2&Hnow&[Hg ->]%io_guard_Ok).
  rewrite negb_false_iff, bool_decide_eq_true in Hg. subst.
  assert (w_tick w1 = S (w_tick w)) as Ht by (by injection Hcmd as _ <-).
  assert (w_tick w2 = S (w_tick w1)) as Ht2 by (by injection Hnow as _ <-).
  apply io_command_Ok in Hcmd, Hnow. rewrite Ht in *. done.
Qed.

(** A node that only root can change. *)
Definition root_controlled (d : Disk) (p : string) : Prop :=
  ∃ i n, node_at d p = Some (i, n) ∧ i_kind n ≠ Symlink ∧ i_uid n = 0%Z ∧ Z.land (i_mode n) 18 = 0%Z.

Lemma secure_metadata_Ok p f md w w' :
  secure_metadata p f w = (Ok md, w') →
  w_disk w' = w_disk w ∧ ∃ i n, node_at (w_disk w) p = Some (i, n) ∧ md = metadata_of i n ∧ i_kind n ≠ Symlink.
Proof.
  intros Hrun. split.
  { by apply (read_only_run _ _ _ _ (read_only_secure p f)) in Hrun. }
  unfold secure_metadata in Hrun. apply io_bind_Ok in Hrun as (md'&?&Hmd%io_map_err_Ok&Hrun).
  apply io_bind_Ok in Hrun as (?&?&[Hg ->]%io_guard_Ok&Hrun). injection Hrun as -> _.
  apply io_op_Ok in Hmd as (Hmd&_&_). rewrite Hquiet in Hmd.
  destruct (node_at _ p) as [[i n]|]; simplify_eq/=. apply bool_decide_eq_false in Hg. eauto 6.
Qed.

Lemma require_owner_Ok md f w u w' :
  require_owner_mode md 0 18 f w = (Ok u, w') → w' = w ∧ md_uid md = 0%Z ∧ Z.land (md_mode md) 18 = 0%Z.
Proof. unfold require_owner_mode. intros [Hg ->]%io_guard_Ok. by unbool_hyps. Qed.

Lemma secure_owner_Ok p f md w w1 u w' :
  secure_metadata p f w = (Ok md, w1) → require_owner_mode md 0 18 f w1 = (Ok u, w') →
  w_disk w' = w_disk w ∧ root_controlled (w_disk w) p.
Proof.
  intros (Hd&i&n&Hn&->&Hk)%secure_metadata_Ok (->&Hu&Hm)%require_owner_Ok. split; [done|].
  exists i, n. done.
Qed.

Lemma root_directory_Ok p f w u w' :
  require_root_directory p f w = (Ok u, w') → w_disk w' = w_disk w ∧ root_controlled (w_disk w) p.
Proof.
  unfold require_root_directory. intros Hrun. apply io_bind_Ok in Hrun as (md&w1&Hmd&Hrun).
  apply io_bind_Ok in Hrun as (?&?&[_ ->]%io_guard_Ok&Hrun). eapply secure_owner_Ok; eauto.
Qed.

(** What the launch check establishes about the account and the files. *)
Lemma verify_launch_host_Ok am plan a w w' :
  AppManager_verify_launch_host manifest_from_slice am plan a w = (Ok tt, w') →
  getpwnam (w_tick w) (unix_user a) = inr (Some (unix_uid a, unix_uid a)) ∧
  Forall (root_controlled (w_disk w))
    [apps_root (mp_layout (am_paths am)); path_join (apps_root (mp_layout (am_paths am))) (plan_app_id plan);
     runtime_path (mp_layout (am_paths am)); package_dir plan; path_join (package_dir plan) "app.json"] ∧
  ∃ m, manifest_on am (plan_app_id plan) (plan_app_version plan) (w_disk w) = Some m ∧
    root_controlled (w_disk w) (path_join (package_dir plan) (m_entrypoint m)).
Proof.
  unfold AppManager_verify_launch_host. intros Hrun.
  apply io_bind_Ok in Hrun as ([uid gid]&w1&Hids&Hrun).
  pose proof (read_only_run _ _ _ _ (read_only_account _) Hids) as Hd1. apply lookup_account_Ok in Hids.
  apply io_bind_Ok in Hrun as (?&?&[Hg ->]%io_guard_Ok&Hrun).
  apply io_bind_Ok in Hrun as (?&?&[_ ->]%io_lift_Ok&Hrun).
  apply io_bind_Ok in Hrun as (?&w2&[Hd2 _]%root_directory_Ok&Hrun).
  apply io_bind_Ok in Hrun as (?&w3&[Hd3 Hroot]%root_directory_Ok&Hrun).
  apply io_bind_Ok in Hrun as (?&w4&[Hd4 Happ]%root_directory_Ok&Hrun).
  apply io_bind_Ok in Hrun as (?&w5&Hrt1&Hrun). apply io_bind_Ok in Hrun as (?&w6&Hrt2&Hrun).
  destruct (secure_owner_Ok _ _ _ _ _ _ _ Hrt1 Hrt2) as [Hd6 Hrt]. clear Hrt1 Hrt2.
  apply io_bind_Ok in Hrun as (?&?&[_ ->]%io_guard_Ok&Hrun).
  apply io_bind_Ok in Hrun as (?&?&[_ ->]%io_lift_Ok&Hrun).
  apply io_bind_Ok in Hrun as (?&w7&[Hd7 _]%root_directory_Ok&Hrun).
  apply io_bind_Ok in Hrun as (?&w8&[Hd8 _]%secure_metadata_Ok&Hrun).
  apply io_bind_Ok in Hrun as (?&?&[_ ->]%io_guard_Ok&Hrun).
  apply io_bind_Ok in Hrun as (?&?&[_ ->]%io_lift_Ok&Hrun).
  apply io_bind_Ok in Hrun as (?&w9&Hd9%(read_only_run _ _ _ _ (read_only_account _))&Hrun).
  apply io_bind_Ok in Hrun as (?&w10&Hd10%(read_only_run _ _ _ _ (read_only_controlled _ _ _))&Hrun).
  apply io_bind_Ok in Hrun as (?&w11&[Hd11 _]%secure_metadata_Ok&Hrun).
  apply io_bind_Ok in Hrun as (?&?&[_ ->]%io_guard_Ok&Hrun).
  apply io_bind_Ok in Hrun as (?&w12&Hpk1&Hrun). apply io_bind_Ok in Hrun as (?&w13&Hpk2&Hrun).
  destruct (secure_owner_Ok _ _ _ _ _ _ _ Hpk1 Hpk2) as [Hd13 Hpk]. clear Hpk1 Hpk2.
  apply io_bind_Ok in Hrun as (?&w14&Hmf1&Hrun). apply io_bind_Ok in Hrun as (?&w15&Hmf2&Hrun).
  destruct (secure_owner_Ok _ _ _ _ _ _ _ Hmf1 Hmf2) as [Hd15 Hmf]. clear Hmf1 Hmf2.
  apply io_bind_Ok in Hrun as (m&w16&Hload&Hrun).
  apply load_package_manifest_Ok in Hload as (_&Hm&Hd16). apply io_bind_Ok in Hrun as (?&w17&Hen&Hrun).
  destruct (secure_owner_Ok _ _ _ _ _ _ _ Hen Hrun) as [_ Hentry].
  unbool_hyps. simpl in *. subst. split_and!; [done| |].
  - repeat (apply Forall_cons; split); [congruence..|by apply Forall_nil].
  - exists m. split; congruence.
Qed.

End checks.

(** *** Facts that hold whatever the host does *)

Section any_host.
  Context `{Host} `{System} (manifest_from_slice : list ascii → option AppManifest).

Lemma load_package_manifest_valid am id v m w w' :
  AppManager_load_package_manifest manifest_from_slice am id v w = (Ok m, w') → manifest_validate m = Ok tt.
Proof.
  unfold AppManager_load_package_manifest. intros Hrun.
  do 4 (apply io_bind_Ok in Hrun as (?&?&_&Hrun)). apply io_bind_Ok in Hrun as (m'&w1&Hload&Hrun).
  apply io_bind_Ok in Hrun as (?&?&_&Hrun). injection Hrun as -> _.
  unfold load_and_validate in Hload. apply io_bind_Ok in Hload as (bs&?&_&[Hload _]%io_lift_Ok).
  unfold parse_and_validate in Hload. destruct (manifest_from_slice bs) as [m1|]; [|done].
  by destruct (manifest_validate m1) as [[]| |] eqn:Hv; simplify_eq/=.
Qed.

(** The manifest a query returns is the valid manifest of the installed version. *)
Lemma installed_manifest_Ok am id m w w' :
  AppManager_installed_manifest manifest_from_slice am id w = (Ok m, w') →
  manifest_validate m = Ok tt ∧ m_id m = id ∧
  ∃ a, apps (am_registry am) !! id = Some a ∧ installed_version a = Some (m_version m).
Proof.
  unfold AppManager_installed_manifest. intros Hrun.
  apply io_bind_Ok in Hrun as (a&?&[Ha%ok_or_Ok ->]%io_lift_Ok&Hrun).
  apply io_bind_Ok in Hrun as (v&?&[Hv%ok_or_Ok ->]%io_lift_Ok&Hrun).
  apply io_bind_Ok in Hrun as (m'&?&Hm%load_package_manifest_valid&Hrun).
  apply io_bind_Ok in Hrun as (?&?&[Hg ->]%io_guard_Ok&Hrun). injection Hrun as -> _.
  unbool_hyps. subst. eauto.
Qed.

(** A started unit is the unit of the account. *)
Lemma start_unit am id unit w w' :
  AppManager_start manifest_from_slice am id w = (Ok unit, w') →
  ∃ a, apps (am_registry am) !! id = Some a ∧ unit = unit_of_user (unix_user a) ∧
    valid_app_user (unix_user a) = true.
Proof.
  unfold AppManager_start. intros Hrun. apply io_bind_Ok in Hrun as (plan&w1&Hplan&Hrun).
  assert (∃ a, apps (am_registry am) !! id = Some a ∧ plan_unit plan = unit_of_user (unix_user a) ∧
    valid_app_user (unix_user a) = true) as (a&Ha&Hu&Hv).
  { unfold AppManager_sandbox_plan in Hplan.
    apply io_bind_Ok in Hplan as (a&?&[Ha%ok_or_Ok ->]%io_lift_Ok&Hplan).
    do 3 (apply io_bind_Ok in Hplan as (?&?&_&Hplan)). apply io_lift_Ok in Hplan as [Hplan _].
    exists a. split; [done|]. unfold build_sandbox_plan in Hplan.
    destruct (valid_app_user (unix_user a)); [|done]. split; [|done].
    repeat (case_match; simplify_eq/=; try done). }
  exists a. do 5 (apply io_bind_Ok in Hrun as (?&?&_&Hrun)). injection Hrun as <- _. by rewrite Hu.
Qed.

End any_host.

(** *** Absence of panics *)

Lemma never_panics_query {E A} (f : nat → result E A) : (∀ t, f t ≠ Panicked) → never_panics (io_query f).
Proof. intros Hf w. apply Hf. Qed.
Lemma never_panics_guard {E} b (e : E) : never_panics (io_guard b e).
Proof. by destruct b. Qed.
#[export] Hint Resolve never_panics_query never_panics_guard : rust.

(** One step of a proof that a sequence of operations does not panic. *)
Ltac np_step :=
  match goal with
  | |- never_panics (io_bind _ _) => apply never_panics_bind; [|intros ?]
  | |- never_panics (io_map_err _ _) => apply never_panics_map_err
  | |- never_panics (io_lift (ok_or _ _)) => apply never_panics_lift, ok_or_no_panic
  | |- never_panics (io_lift (map_err _ _)) => apply never_panics_lift
  | |- never_panics (io_guard _ _) => apply never_panics_guard
  | |- never_panics (fs_symlink_metadata _) => apply fs_symlink_metadata_np
  | |- never_panics (fs_read_file _) => apply fs_read_file_np
  | |- never_panics (io_ret _) => apply never_panics_ret
  | |- never_panics (io_err _) => apply never_panics_err
  end.

Section no_panic.
  Context `{Host} `{System} (manifest_from_slice : list ascii → option AppManifest).

Lemma unit_is_active_np unit : never_panics (unit_is_active unit).
Proof. apply never_panics_query. intros t. by destruct (run_command _ _ _). Qed.
Lemma io_command_np name program args : never_panics (io_command name program args).
Proof. apply never_panics_query. intros t. by destruct (run_command _ _ _). Qed.
Lemma lookup_unix_account_np user : never_panics (lookup_unix_account user).
Proof.
  unfold lookup_unix_account. case_match; [np_step|]. apply never_panics_query. intros t.
  by destruct (getpwnam _ _) as [|[]].
Qed.
Lemma secure_metadata_np p f : never_panics (secure_metadata p f).
Proof. unfold secure_metadata. repeat np_step. Qed.
Lemma require_owner_mode_np md uid mode f : never_panics (require_owner_mode md uid mode f).
Proof. apply never_panics_guard. Qed.
Lemma require_root_directory_np p f : never_panics (require_root_directory p f).
Proof. unfold require_root_directory. repeat (apply secure_metadata_np || apply require_owner_mode_np || np_step). Qed.
Lemma verify_kind_np k p f : never_panics (verify_kind k p f).
Proof. unfold verify_kind. repeat np_step. Qed.
Lemma verify_components_np current l f : never_panics (verify_components current l f).
Proof.
  revert current. induction l as [|c l IH]; intros current; [done|]. destruct c; try done.
  cbn [verify_components]. apply never_panics_bind; [|auto]. destruct l; apply verify_kind_np.
Qed.
Lemma load_package_manifest_np am id v :
  never_panics (AppManager_load_package_manifest manifest_from_slice am id v).
Proof.
  unfold AppManager_load_package_manifest, load_and_validate, verify_directory, verify_regular_file, verify_relative_file.
  repeat (apply verify_kind_np || apply verify_components_np || np_step).
  unfold parse_and_validate. destruct (manifest_from_slice _) as [m|]; [|done].
  unfold manifest_validate. by destruct (manifest_issues m).
Qed.
Lemma installed_manifest_np am id : never_panics (AppManager_installed_manifest manifest_from_slice am id).
Proof. unfold AppManager_installed_manifest. repeat (apply load_package_manifest_np || np_step). Qed.
Lemma build_sandbox_plan_np m user layout : build_sandbox_plan m user layout ≠ Panicked.
Proof. unfold build_sandbox_plan, path_text, validate_root. by repeat case_match. Qed.
Lemma sandbox_plan_np am id : never_panics (AppManager_sandbox_plan manifest_from_slice am id).
Proof.
  unfold AppManager_sandbox_plan. repeat (apply load_package_manifest_np || np_step).
  pose proof (build_sandbox_plan_np a1 (unix_user a) (mp_layout (am_paths am))) as Hp. by destruct (build_sandbox_plan _ _ _).
Qed.
Lemma verify_launch_host_np am plan a : never_panics (AppManager_verify_launch_host manifest_from_slice am plan a).
Proof.
  unfold AppManager_verify_launch_host, require_controlled_directory.
  repeat (apply load_package_manifest_np || apply secure_metadata_np || apply require_owner_mode_np
          || apply require_root_directory_np || apply lookup_unix_account_np || np_step).
Qed.
Lemma unit_command_np name program args unit active action :
  never_panics (unit_command name program args unit active action).
Proof.
  unfold unit_command. apply never_panics_bind; [apply io_command_np|intros []]; [|np_step].
  apply never_panics_bind; [apply unit_is_active_np|intros; np_step].
Qed.
Lemma unit_for_app_no_panic am id : AppManager_unit_for_app am id ≠ Panicked.
Proof. unfold AppManager_unit_for_app, installed_account. by repeat case_match. Qed.

Lemma start_np am id : never_panics (AppManager_start manifest_from_slice am id).
Proof.
  unfold AppManager_start. repeat (apply sandbox_plan_np || apply verify_launch_host_np || apply unit_is_active_np
    || apply unit_command_np || np_step).
Qed.
Lemma stop_np am id : never_panics (AppManager_stop am id).
Proof.
  unfold AppManager_stop. repeat (apply unit_is_active_np || apply unit_command_np || np_step).
  apply never_panics_lift, unit_for_app_no_panic.
Qed.
Lemma set_frozen_np am id b : never_panics (AppManager_set_frozen am id b).
Proof.
  unfold AppManager_set_frozen. repeat (apply unit_is_active_np || apply unit_command_np || np_step).
  apply never_panics_lift, unit_for_app_no_panic.
Qed.
Lemma is_running_np am id : never_panics (AppManager_is_running am id).
Proof.
  unfold AppManager_is_running. repeat (apply unit_is_active_np || np_step).
  apply never_panics_lift, unit_for_app_no_panic.
Qed.

End no_panic.

(** ** Properties *)

(** [op] was applied to the registry and the result was saved, with nothing but
    [cleanup] done to the world after that, or the manager did not change. *)
Definition committed `{Host} `{Codec AppRegistry} {A B} (cleanup : World → World → Prop) (am : AppManager)
    (op : AppRegistry → result RegistryError A * AppRegistry)
    (run : (result AppManagerError B * AppManager) * World) : Prop :=
  let '((r, am'), w') := run in
  match r with
  | Ok _ => am_paths am' = am_paths am ∧ (∃ a, op (am_registry am) = (Ok a, am_registry am')) ∧
      ∃ w1 w2, AppRegistry_save_atomic (am_registry am') (registry_path (am_paths am)) w1 = (Ok tt, w2) ∧ cleanup w2 w'
  | _ => am' = am
  end.

(** What an uninstall does after the save: it removes the renamed package. *)
Definition removes_tombstone `{Host} (am : AppManager) (app_id : string) (w w' : World) : Prop :=
  ∃ a, apps (am_registry am) !! app_id = Some a ∧ w' = (fs_remove_dir_all (tombstone_of am a) w).2.

Lemma commit_committed `{Host} `{Codec AppRegistry} {A B} am
    (op : AppRegistry → result RegistryError A * AppRegistry) (f : A → B) w :
  committed eq am op (let '((r, am'), w') := commit_registry am op w in
    ((match r with Ok a => Ok (f a) | Err e => Err e | Panicked => Panicked end, am'), w')).
Proof.
  destruct (commit_registry am op w) as [[[a|e|] am'] w'] eqn:Hc; simpl.
  - apply commit_registry_Ok in Hc as (?&?&?). split_and!; [done|by eexists|by eexists _, _].
  - pose proof (commit_registry_err am op w) as He. rewrite Hc in He. by apply He.
  - pose proof (commit_registry_err am op w) as He. rewrite Hc in He. by apply He.
Qed.

Lemma manager_committed `{Host} `{System} `{Codec AppRegistry} from_slice now am m app_id w :
  committed eq am (λ r, AppRegistry_mark_installed now r m) (AppManager_mark_installed from_slice now am m w) ∧
  committed eq am (λ r, AppRegistry_rollback r app_id) (AppManager_rollback from_slice am app_id w) ∧
  committed (removes_tombstone am app_id) am (λ r, AppRegistry_uninstall r app_id) (AppManager_uninstall am app_id w).
Proof.
  split_and!.
  - unfold AppManager_mark_installed. destruct (AppManager_load_package_manifest _ _ _ _ w) as [[x|e|] w1]; [|done..].
    case_match; [done|]. apply commit_committed.
  - unfold AppManager_rollback. destruct (rollback_target _ _ _ _) as [[v|e|] w1]; [|done..].
    apply commit_committed.
  - unfold AppManager_uninstall. case_match; [done|].
    destruct (AppManager_is_running _ _ _) as [[[]|e|] w1]; [done| |done..].
    unfold AppManager_uninstall_stopped. destruct (stage_removal _ _ _) as [[a|e|] w2] eqn:Hstage; [|done..].
    apply io_bind_Ok in Hstage as (a'&?&[[Ha _]%installed_account_Ok ->]%io_lift_Ok&Hstage).
    io_inv Hstage. injection Hstage as -> _.
    pose proof (commit_committed am (λ r, AppRegistry_uninstall r app_id) (λ _, tt) w2) as Hc.
    destruct (commit_registry _ _ _) as [[[b|e|] am'] w3]; simpl in Hc.
    + destruct Hc as (Hpaths&Hop&w4&w5&Hsave&->). destruct (fs_remove_dir_all _ _) as [removed w6] eqn:Hrm.
      split_and!; [done..|]. eexists _, _. split; [exact Hsave|]. exists a. split; [done|].
      unfold tombstone_of in *. by rewrite <- Hpaths, Hrm.
    + by destruct (fs_rename_dir _ _ _).
    + done.
Qed.

(** A committed registry was validated before it was saved. *)
Lemma committed_wf `{Host} `{Codec AppRegistry} {A B} cleanup am op (run : (result AppManagerError B * AppManager) * World) :
  @committed _ _ A B cleanup am op run → registry_wf (am_registry am) → registry_wf (am_registry run.1.2).
Proof.
  destruct run as [[[b|e|] am'] w]; simpl; [|by intros ->..]. intros (_&_&w1&w2&Hs&_) _.
  unfold AppRegistry_save_atomic in Hs. apply io_bind_Ok in Hs as ([]&?&[Hv _]%io_lift_Ok&_).
  by apply validate_iff_wf.
Qed.

(** Whatever the host does, marking an application installed, rolling one
    back and uninstalling one change the registry in memory only to the result
    of that registry operation and only after that very registry was saved, as
    the last thing they do to the disk (an uninstall still removes the renamed
    package); every other outcome leaves the manager as it was. *)
Theorem manager_commits_after_save `{Host} `{System} `{Codec AppRegistry} from_slice now am m app_id w :
  committed eq am (λ r, AppRegistry_mark_installed now r m) (AppManager_mark_installed from_slice now am m w) ∧
  committed eq am (λ r, AppRegistry_rollback r app_id) (AppManager_rollback from_slice am app_id w) ∧
  committed (removes_tombstone am app_id) am (λ r, AppRegistry_uninstall r app_id) (AppManager_uninstall am app_id w).
Proof. apply manager_committed. Qed.

(** C33: an uninstall that succeeds without pending cleanup removes exactly the
    package: of all files but the registry and its temporary file, those under
    the application directory are gone and all others, private data included,
    are untouched; the registry keeps the account with its identity, now
    without a version, in memory and on disk. *)
Theorem uninstall_removes_only_package `{Host} `{System} `{Codec AppRegistry} am am' app_id parent f w w' :
  quiet _ → disk_wf (w_disk w) → AppRegistry_validate (am_registry am) = Ok tt →
  path_is_absolute (apps_root (mp_layout (am_paths am))) = true →
  path_is_absolute (registry_path (am_paths am)) = true →
  path_parent (registry_path (am_paths am)) = Some parent →
  path_file_name (registry_path (am_paths am)) = Some f →
  AppManager_uninstall am app_id w
  = ((Ok {| ua_app_id := app_id; package_cleanup_pending := false |}, am'), w') →
  ∃ a bs,
    apps (am_registry am) !! app_id = Some a ∧ app_id ∉ IMMUTABLE_BUILTIN_APP_IDS ∧
    am_registry am' = set_apps (<[app_id := set_version None [] None a]> (apps (am_registry am))) (am_registry am) ∧
    to_json (am_registry am') = Some bs ∧
    (under (tombstone_of am a) (registry_path (am_paths am)) = false →
     file_at (w_disk w') (registry_path (am_paths am)) = Some (new_inode (bs ++ [newline]))) ∧
    ∀ q, q ≠ registry_path (am_paths am) →
      q ≠ path_join parent (temporary_name f (w_sequence w RegistryTemp)) →
      file_at (w_disk w') q
      = if under (app_root_of am app_id) q || under (tombstone_of am a) q then None else file_at (w_disk w) q.
Proof.
  intros Hq Hd Hv%validate_iff_wf Hroot Habs Hp Hf. unfold AppManager_uninstall.
  destruct (is_removable_app app_id) eqn:Hrem; [|done]. simpl.
  destruct (AppManager_is_running _ _ _) as [[[]|e|] w1] eqn:Hactive; [done| |done..].
  assert (w_disk w1 = w_disk w ∧ w_sequence w1 = w_sequence w) as [Hd1 Hs1].
  { unfold AppManager_is_running in Hactive. apply io_bind_Ok in Hactive as (?&?&[_ ->]%io_lift_Ok&Hactive).
    by injection Hactive as _ <-. }
  unfold AppManager_uninstall_stopped. destruct (stage_removal am app_id w1) as [[a|e|] w2] eqn:Hstage; [|done..].
  assert (is_valid_app_id app_id = true ∧ apps (am_registry am) !! app_id = Some a ∧ is_Some (installed_version a))
    as (Hid&Ha&[v Hiv]).
  { pose proof Hstage as Hst. unfold stage_removal in Hst.
    apply io_bind_Ok in Hst as (a'&?&[Ha' ->]%io_lift_Ok&Hst). io_inv Hst. injection Hst as -> _.
    apply installed_account_Ok in Ha' as [Ha' Hi]. split; [by apply (rw_apps _ Hv _ _ Ha')|done]. }
  apply stage_removal_Ok in Hstage as (_&Hd2&Hs2&Hfiles); [|done|by apply app_root_not_tombstone|by rewrite Hd1].
  destruct (commit_registry _ _ _) as [[[b|e|] am1] w3] eqn:Hc; [|by destruct (fs_rename_dir _ _ _)|done].
  apply commit_registry_Ok in Hc as (Hop&Hpaths&Hsave).
  rewrite (uninstall_ok _ _ _ _ Hv Ha Hiv) in Hop. injection Hop as _ Hop.
  destruct (fs_remove_dir_all _ _) as [removed w4] eqn:Hrm. intros Hrun.
  injection Hrun as Hok <- <-. destruct removed as [[]| |]; [clear Hok|done..].
  assert (tombstone_of am1 a = tombstone_of am a) as Ht by (unfold tombstone_of; by rewrite Hpaths).
  rewrite Ht in Hrm. pose proof (fs_remove_dir_all_Ok Hq _ _ _ Hrm) as Hgone.
  apply (save_atomic_Ok _ _ parent f) in Hsave as (bs&Hbs&_&Hnew&_&Hother); [|done..].
  exists a, bs. split_and!; [done| |done|done| |].
  - unfold is_removable_app in Hrem. by apply negb_true_iff, bool_decide_eq_false in Hrem.
  - intros Hu. by rewrite Hgone, Hu.
  - intros q Hq1 Hq2. rewrite Hgone. destruct (under (tombstone_of am a) q) eqn:Hut; [by rewrite orb_true_r|].
    rewrite orb_false_r, Hother by (rewrite ?Hs2, ?Hs1; done). rewrite Hfiles, Hd1 by done. done.
Qed.

(** *** A sample device *)

Definition sample_manager : AppManager := {| am_paths := ManagerPaths_default; am_registry := sample_registry |}.

Definition root_dir : Inode := mkInode Directory [] 0 493 true.
Definition root_file (mode : Z) : Inode := mkInode RegularFile ["x"%char] 0 mode true.
Definition SAMPLE_DATA : string := "/var/lib/cardputerzero/data/dev.cardputerzero.hello/state".
Definition sample_files : list (string * Inode) :=
  [("/var/lib/cardputerzero/registry", root_dir);
   ("/var/lib/cardputerzero/registry/apps.json", root_file 384);
   ("/var/lib/cardputerzero/apps", root_dir);
   ("/var/lib/cardputerzero/apps/dev.cardputerzero.hello", root_dir);
   ("/var/lib/cardputerzero/apps/dev.cardputerzero.hello/0.1.0", root_dir);
   ("/var/lib/cardputerzero/apps/dev.cardputerzero.hello/0.1.0/app.json", root_file 420);
   ("/var/lib/cardputerzero/apps/dev.cardputerzero.hello/0.1.0/bin", root_dir);
   ("/var/lib/cardputerzero/apps/dev.cardputerzero.hello/0.1.0/bin/hello-card.wasm", root_file 420);
   (SAMPLE_DATA, mkInode RegularFile ["p"%char] 20000 384 true);
   ("/usr/libexec/cardputerzero/app-runtime", root_file 493);
   ("/run/cardputerzero-broker", root_dir);
   ("/run/cardputerzero-broker/runtime.sock", mkInode Socket [] 0 438 true);
   ("/run/cardputerzero", mkInode Directory [] 990 488 true);
   ("/run/cardputerzero/wayland-0", mkInode Socket [] 990 432 true)].

(** systemd with no active unit until the fiftieth tick, and a password
    database with the accounts of the sample. *)
Definition sample_system : System :=
  {| run_command := λ t program args, inr (bool_decide (program = SYSTEMD_RUN_PATH) || (50 <? t)%nat);
     getpwnam := λ _ user, inr (if bool_decide (user = COMPOSITOR_USER) then Some (990%Z, 990%Z)
                               else Some (20000%Z, 20000%Z)) |}.

Lemma uninstall_removes_only_package_witness :
  let run := @AppManager_uninstall calm_host sample_system sample_codec sample_manager
               "dev.cardputerzero.hello" (world_of sample_files) in
  file_at (w_disk run.2) SAMPLE_DATA = Some (mkInode RegularFile ["p"%char] 20000 384 true) ∧
  file_at (w_disk run.2) "/var/lib/cardputerzero/apps/dev.cardputerzero.hello/0.1.0/app.json" = None.
Proof.
  intros run. assert (run.1.1 = Ok {| ua_app_id := "dev.cardputerzero.hello"; package_cleanup_pending := false |})
    as Hok by (by vm_compute).
  destruct run as [[r am'] w'] eqn:Hrun. unfold run in Hrun. simpl in Hok. subst r. clear run.
  destruct (@uninstall_removes_only_package calm_host sample_system sample_codec sample_manager am'
    "dev.cardputerzero.hello" "/var/lib/cardputerzero/registry" "apps.json" (world_of sample_files) w')
    as (a&bs&Ha&_&_&_&_&Hfiles);
    [by intros ? ?|apply disk_of_wf|by vm_compute|by vm_compute|by vm_compute|by vm_compute|by vm_compute|exact Hrun|].
  assert (a = sample_account "0.1.0" []) as -> by (vm_compute in Ha; by injection Ha as <-).
  split; (rewrite Hfiles; [by vm_compute|..]; vm_compute; congruence).
Defined.

(** C9: when an application is started, the registry has its account with an
    installed version; the plan comes from the valid manifest on disk with that
    id and version; the account's user resolves to exactly the account's UID
    and GID; the directories, the manifest, the entry point and the runtime
    belong to root and nobody else can write them; systemd-run got the plan's
    arguments after the checks, while the unit was inactive, and the unit was
    active at the end of the call; and it is the unit that stop, freeze and thaw act on. *)
Theorem start_runs_verified_plan `{Host} `{System} from_slice am app_id unit w w' :
  quiet _ → AppRegistry_validate (am_registry am) = Ok tt →
  AppManager_start from_slice am app_id w = (Ok unit, w') →
  ∃ a v m plan t u,
    apps (am_registry am) !! app_id = Some a ∧ installed_version a = Some v ∧
    manifest_on from_slice am app_id v (w_disk w) = Some m ∧ manifest_validate m = Ok tt ∧
    m_id m = app_id ∧ m_version m = v ∧
    build_sandbox_plan m (unix_user a) (mp_layout (am_paths am)) = Ok plan ∧ unit = plan_unit plan ∧
    AppManager_unit_for_app am app_id = Ok unit ∧
    getpwnam u (unix_user a) = inr (Some (unix_uid a, unix_uid a)) ∧
    Forall (root_controlled (w_disk w))
      [apps_root (mp_layout (am_paths am)); path_join (apps_root (mp_layout (am_paths am))) app_id;
       runtime_path (mp_layout (am_paths am)); package_dir plan; path_join (package_dir plan) "app.json";
       path_join (package_dir plan) (m_entrypoint m)] ∧
    run_command t SYSTEMCTL_PATH ["is-active"; "--quiet"; unit] = inr false ∧
    run_command (S t) SYSTEMD_RUN_PATH (systemd_run_arguments plan) = inr true ∧
    run_command (S (S t)) SYSTEMCTL_PATH ["is-active"; "--quiet"; unit] = inr true ∧
    (w_tick w ≤ u ≤ t)%nat ∧ w_tick w' = S (S (S t)).
Proof.
  intros Hq Hv%validate_iff_wf Hrun. unfold AppManager_start in Hrun.
  apply io_bind_Ok in Hrun as (plan&w1&Hmake&Hrun).
  pose proof (read_only_tick _ _ _ _ (read_only_plan from_slice Hq _ _) Hmake) as Ht1.
  apply (sandbox_plan_Ok from_slice Hq) in Hmake as (a&v&m&Ha&Hiv&Hm&Hon&Hid&Hver&Hplan&Hd).
  apply io_bind_Ok in Hrun as (a'&?&[Ha'%ok_or_Ok ->]%io_lift_Ok&Hrun).
  unfold AppRegistry_account in Ha'. simplify_eq.
  apply io_bind_Ok in Hrun as ([]&w2&Hhost&Hrun).
  pose proof (read_only_tick _ _ _ _ (read_only_launch_host from_slice Hq _ _ _) Hhost) as Ht2.
  apply (verify_launch_host_Ok from_slice Hq) in Hhost as (Hpw&Hfiles&m2&Hon2&Hentry).
  apply io_bind_Ok in Hrun as (active&w3&Hact&Hrun).
  apply io_bind_Ok in Hrun as (?&?&[-> ->]%io_guard_Ok&Hrun).
  apply io_bind_Ok in Hrun as ([]&w4&(Hcmd&Hnow&Ht4)%unit_command_Ok&Hrun). injection Hrun as <- <-.
  assert (w_tick w3 = S (w_tick w2)) as Ht by (by injection Hact as _ <-). apply io_command_Ok in Hact.
  destruct (rw_apps _ Hv _ _ Ha) as (_&Hwf&_). rewrite Ht in *. rewrite Hd in *.
  assert (plan_app_id plan = m_id m ∧ plan_app_version plan = m_version m ∧ plan_unit plan = unit_of_user (unix_user a))
    as (Hp1&Hp2&Hp3).
  { unfold build_sandbox_plan in Hplan. repeat (case_match; [done|]). repeat case_match; simplify_eq/=; done. }
  rewrite Hp1, Hp2 in *. simplify_eq.
  exists a, (m_version m), m, plan, (w_tick w2), (w_tick w1). split_and!; try done.
  - unfold AppManager_unit_for_app, installed_account, AppRegistry_account, is_installed.
    rewrite Ha, bool_decide_eq_true_2 by (rewrite Hiv; eauto). by rewrite unit_of_account, Hp3.
  - repeat (apply Forall_cons in Hfiles as [? Hfiles]). repeat (apply Forall_cons; split); [done..|by apply Forall_nil].
Qed.

(** A decoder that knows one manifest. *)
Definition hello_from_slice (bs : list ascii) : option AppManifest := Some hello_manifest.

(** systemd that starts the unit of the sample at tick 30. *)
Definition booting_system : System :=
  {| run_command := λ t program args, inr (bool_decide (program = SYSTEMD_RUN_PATH) || (30 <? t)%nat);
     getpwnam := @getpwnam sample_system |}.

Lemma start_runs_verified_plan_witness :
  let run := @AppManager_start calm_host booting_system hello_from_slice sample_manager
               "dev.cardputerzero.hello" (world_of sample_files) in
  run.1 = Ok "cardputerzero-app-20000.service" ∧
  AppManager_unit_for_app sample_manager "dev.cardputerzero.hello" = Ok "cardputerzero-app-20000.service".
Proof.
  intros run. assert (run.1 = Ok "cardputerzero-app-20000.service") as Hok by (vm_compute; reflexivity).
  split; [done|]. destruct run as [r w'] eqn:Hrun. unfold run in Hrun. simpl in Hok. subst r.
  destruct (@start_runs_verified_plan calm_host booting_system hello_from_slice sample_manager
    "dev.cardputerzero.hello" "cardputerzero-app-20000.service" (world_of sample_files) w')
    as (a&v&m&plan&t&u&_&_&_&_&_&_&_&_&Hunit&_); [by intros ? ?|by vm_compute|exact Hrun|exact Hunit].
Defined.

(** C35: measuring an application ends: whatever the directories contain and
    however they change meanwhile, the walk over a tree is over within
    [MAX_USAGE_TREE_ENTRIES] directories, and so are both usage queries. *)
Theorem usage_terminates `{Host} am app_id root :
  never_panics (tree_bytes root) ∧ never_panics (AppManager_package_usage am app_id) ∧
  never_panics (AppManager_app_usage am app_id).
Proof.
  assert (∀ r, never_panics (tree_bytes r)) as Htree.
  { intros r. apply never_panics_bind; [apply fs_symlink_metadata_np|intros md].
    apply never_panics_bind; [by destruct (_ || _)|intros _]. apply usage_loop_np; cbn [fst snd length];
      assert (MAX_USAGE_TREE_ENTRIES = Z.to_nat 16384) as -> by done; lia. }
  assert (never_panics (AppManager_package_usage am app_id)) as Hpackage.
  { apply never_panics_bind; [by destruct (negb _)|intros _].
    apply never_panics_bind; [apply never_panics_lift|intros _; by apply never_panics_map_err].
    unfold installed_account. by repeat case_match. }
  split_and!; [done..|]. apply never_panics_bind; [done|intros p].
  apply never_panics_bind; [|done]. apply never_panics_try; [apply fs_symlink_metadata_np|].
  intros [md|[]|] ?; try done. by apply never_panics_map_err.
Qed.

(** An uninstall refuses while anything is left under the tombstone of the
    account, an earlier uninstall's pending cleanup for instance: the package
    stays installed and nothing changes. *)
Theorem stale_tombstone_blocks_uninstall `{Host} `{System} `{Codec AppRegistry} am app_id a i n q j w :
  quiet _ → no_faults _ → AppRegistry_validate (am_registry am) = Ok tt →
  path_is_absolute (apps_root (mp_layout (am_paths am))) = true →
  apps (am_registry am) !! app_id = Some a → is_Some (installed_version a) →
  node_at (w_disk w) (app_root_of am app_id) = Some (i, n) → i_kind n = Directory →
  below (tombstone_of am a) q = true → d_names (w_disk w) !! q = Some j →
  let run := AppManager_uninstall_stopped am app_id w in
  run.1 = (Err (AmPackageIo "stage removal" OtherIo), am) ∧ w_disk run.2 = w_disk w.
Proof.
  intros Hq Hnf Hv%validate_iff_wf Habs Ha Hi Hn Hk Hb Hj. cbv zeta.
  assert (∃ w2, stage_removal am app_id w = (Err (AmPackageIo "stage removal" OtherIo), w2) ∧ w_disk w2 = w_disk w)
    as (w2&Hs&Hd2); [|unfold AppManager_uninstall_stopped; by rewrite Hs].
  unfold stage_removal, installed_account, AppRegistry_account, is_installed.
  rewrite Ha, bool_decide_eq_true_2 by done. unfold io_bind at 1, io_lift at 1.
  unfold io_bind at 1, io_map_err at 1, fs_symlink_metadata. rewrite io_op_runs, Hn by done. cbn [map_err fst snd].
  unfold io_bind at 1, io_guard, io_lift. cbn [md_kind metadata_of]. rewrite Hk. cbn [bool_decide negb orb].
  unfold io_bind, io_map_err.
  destruct (fs_rename_dir_occupied Hq (app_root_of am app_id) (tombstone_of am a) q j
    (after (w_disk w) w)) as [Hr Hd]; [done| | |done|done|].
  - unfold node_at in Hn. simpl. destruct (d_names _ !! _); [by eexists|done].
  - apply app_root_not_tombstone; [done|]. by apply (rw_apps _ Hv _ _ Ha).
  - destruct (fs_rename_dir _ _ _) as [r w2]. simpl in *. subst. by exists w2.
Qed.

(** The path this takes in practice: the directory of the sample cannot be
    removed, so the uninstall succeeds with pending cleanup; the package is
    installed again; and then it cannot be uninstalled any more. *)
Definition sticky_host : Host :=
  {| host_pid := 1; host_uid := 0; host_env := λ _ d, d;
     host_fault := λ t, if bool_decide (t = 8%nat) then Some (OtherIo, 0%nat) else None |}.
Definition sticky_uninstall : (result AppManagerError UninstalledApp * AppManager) * World :=
  @AppManager_uninstall_stopped sticky_host sample_codec sample_manager "dev.cardputerzero.hello"
    (world_of sample_files).

(** The directory of the package is there again and the registry has it. *)
Definition reinstalled_world : World :=
  let w := sticky_uninstall.2 in
  let d := w_disk w in
  {| w_disk := mkDisk (<["/var/lib/cardputerzero/apps/dev.cardputerzero.hello" := d_next d]> (d_names d))
                      (<[d_next d := root_dir]> (d_inodes d)) (d_next d + 1);
     w_tick := w_tick w; w_trace := w_trace w; w_sequence := w_sequence w |}.
Definition reinstalled_manager : AppManager :=
  {| am_paths := ManagerPaths_default;
     am_registry := (AppRegistry_mark_installed 1800000000 (am_registry sticky_uninstall.1.2) hello_manifest).2 |}.

Lemma stale_tombstone_blocks_uninstall_witness :
  sticky_uninstall.1.1 = Ok {| ua_app_id := "dev.cardputerzero.hello"; package_cleanup_pending := true |} ∧
  (@AppManager_uninstall_stopped calm_host sample_codec reinstalled_manager "dev.cardputerzero.hello"
     reinstalled_world).1 = (Err (AmPackageIo "stage removal" OtherIo), reinstalled_manager).
Proof.
  split; [by vm_compute|].
  destruct (d_names (w_disk reinstalled_world) !! "/var/lib/cardputerzero/apps/.uninstall-20000/0.1.0") as [j|] eqn:Hj;
    [|by vm_compute in Hj].
  destruct (node_at (w_disk reinstalled_world) "/var/lib/cardputerzero/apps/dev.cardputerzero.hello")
    as [[i n]|] eqn:Hn; [|by vm_compute in Hn].
  apply (@stale_tombstone_blocks_uninstall calm_host sample_system sample_codec reinstalled_manager
    "dev.cardputerzero.hello" (mkAppAccount 20000 "cp0-app-20000" 20000 (Some "0.1.0") [] (Some 1800000000%Z))
    i n "/var/lib/cardputerzero/apps/.uninstall-20000/0.1.0" j);
    [by intros ? ?|by intros ?|by vm_compute|by vm_compute|by vm_compute|by eexists|exact Hn| |by vm_compute|exact Hj].
  vm_compute in Hn. by injection Hn as _ <-.
Defined.

(** The polling loop returns at the first poll that finds the unit's processes
    gone, if they are gone from tick [T] on. *)
Lemma wait_returns `{Host} path T fuel w :
  (∀ w0, (cgroup_is_populated path w0).1 = Ok (w_tick w0 <? T)%nat ∧ (w_tick w0 < w_tick (cgroup_is_populated path w0).2)%nat) →
  (T - w_tick w < fuel)%nat → (wait_for_cgroup_stopped fuel path w).1 = Ok (Some tt).
Proof.
  intros Hp. revert w. induction fuel as [|fuel IH]; intros w Hf; [lia|].
  cbn [wait_for_cgroup_stopped]. unfold io_bind. destruct (Hp w) as [Hr Ht].
  destruct (cgroup_is_populated path w) as [r w1]. simpl in *. subst r.
  destruct (Nat.ltb_spec (w_tick w) T); [|done]. apply IH. lia.
Qed.

(** [expect("registry lookup only returns installed applications")] holds. *)
Lemma installed_app_for_uid_no_panic am uid : AppManager_installed_app_for_uid am uid ≠ Panicked.
Proof.
  unfold AppManager_installed_app_for_uid, AppRegistry_installed_app_for_uid.
  destruct (List.find _ _) as [[k a]|] eqn:Hf; [|done]. apply find_some in Hf as [_ Hf].
  apply andb_true_iff in Hf as [_ Hf]. apply bool_decide_eq_true in Hf as [v Hv]. simpl in Hv. by rewrite Hv.
Qed.

(** The states of [cgroup.events] in the tests of lifecycle.rs. *)
Definition LF : string := String newline EmptyString.
Example populated_states :
  map (λ s, populated_state (str_lines s))
    ["populated 1" +:+ LF +:+ "frozen 0" +:+ LF; "populated 0" +:+ LF +:+ "frozen 0" +:+ LF; "frozen 0" +:+ LF]
  = [Ok true; Ok false; Err (AmUnitStateIo OtherIo)].
Proof. vm_compute. reflexivity. Qed.
