(* ===== verification/Package.v ===== *)
(** * Application packages (crates/cp0-package/src/lib.rs)

    The [.capp] container: sorted entries, a developer signature and a Store
    signature over it, and its binary encoding.  A byte array of the source is
    a list of bytes; that it has the length of its type is part of the type
    invariant [capp_typed].  Ed25519 and SHA-256 come from third-party crates
    and are parameters.  [from_directory], which collects files for a new
    package on a build host, is not modelled.

    The theorems: what is encoded decodes to the same package; every accepted
    file is the one encoding of its package; the entries of an accepted package
    lie below the directory it is unpacked to, each at a path of its own, and
    fit the limits; a lookup finds exactly the entry of that path; the signed
    messages of two packages only agree when the packages do, and a developer
    signature is never a Store signature; a package that was signed verifies,
    and signing it again as a developer drops the Store's approval. *)

From S2P Require Import Prelude RustStr Bytes.

Definition FORMAT_VERSION : Z := 1.
Definition MAX_ENTRIES : nat := 256.
Definition MAX_PATH_BYTES : nat := 240.
Definition MAX_ENTRY_BYTES : Z := 16 * 1024 * 1024.
Definition MAX_PAYLOAD_BYTES : Z := 32 * 1024 * 1024.

Definition zero_byte : ascii := Ascii.zero.
Definition MAGIC : list ascii := bytes "CP0CAPP" ++ [zero_byte].
Definition FLAG_DEVELOPER_SIGNATURE : Z := 1.
Definition FLAG_STORE_SIGNATURE : Z := 2.
Definition KNOWN_FLAGS : Z := Z.lor FLAG_DEVELOPER_SIGNATURE FLAG_STORE_SIGNATURE.
Definition DEVELOPER_DOMAIN : list ascii := bytes "CardputerZero developer package signature v1" ++ [zero_byte].
Definition STORE_DOMAIN : list ascii := bytes "CardputerZero store package signature v1" ++ [zero_byte].
Definition FIXED_HEADER_BYTES : nat := 8 + 2 + 2 + 4 + 8 + 32 + 64 + 32 + 64.

Record PackageEntry := mkPackageEntry { pe_name : string; pe_contents : list ascii }.

Record CApp := mkCApp {
  ca_entries : list PackageEntry;
  developer_public_key : option (list ascii);
  developer_signature : option (list ascii);
  store_key_id : option (list ascii);
  store_signature : option (list ascii);
}.

Inductive PackageInvalid :=
  | PkEntryCount | PkNotNormalized | PkNotPortable | PkPathLength | PkNotCanonical (path : string)
  | PkDuplicated (path : string) | PkEntryTooLarge (path : string) | PkSizeOverflow | PkPayloadTooLarge
  | PkNoManifest | PkDeveloperFields | PkStoreFields | PkStoreWithoutDeveloper | PkEncodedSize | PkMagic
  | PkVersion | PkUnknownFlags | PkLengthMismatch | PkEntryLength | PkNotUtf8 | PkTrailing | PkOrder
  | PkAllZero (name : string) | PkUnusedNotZero (name : string) | PkTruncated.

Inductive PackageSignature :=
  | PkDeveloperMissing | PkDeveloperIncomplete | PkDeveloperKey | PkDeveloperMismatch
  | PkStoreMissing | PkStoreKeyId | PkStoreIncomplete | PkStoreKey | PkStoreMismatch.

Inductive PackageError :=
  | PkUnexpectedEof
  | PkInvalid (why : PackageInvalid)
  | PkSignature (why : PackageSignature).

(** ** Entries *)

Definition backslash : ascii := ascii_of_nat 92.

(** The loop of [portable_path] over the components. *)
Fixpoint portable_parts (l : list Component) : result PackageError (list string) :=
  match l with
  | [] => Ok []
  | Normal part :: l =>
      if str_is_empty part || bool_decide (part = ".") || bool_decide (part = "..")
         || existsb (λ c, bool_decide (c = backslash)) (bytes part)
      then Err (PkInvalid PkNotPortable)
      else let? parts := portable_parts l in Ok (part :: parts)
  | _ :: _ => Err (PkInvalid PkNotNormalized)
  end.

Definition portable_path (path : string) : result PackageError string :=
  let? parts := portable_parts (path_components path) in
  let path := str_join slash parts in
  if str_is_empty path || (MAX_PATH_BYTES <? String.length path)%nat then Err (PkInvalid PkPathLength)
  else Ok path.

(** [2 + 4 + entry.path.len() + entry.contents.len()]. *)
Definition entry_size (e : PackageEntry) : Z :=
  6 + Z.of_nat (String.length (pe_name e)) + Z.of_nat (length (pe_contents e)).

(** The loop of [validate_entries]: the paths seen and the size so far. *)
Fixpoint validate_loop (l : list PackageEntry) (paths : gset string) (total : Z)
    : result PackageError (gset string * Z) :=
  match l with
  | [] => Ok (paths, total)
  | e :: l =>
      let? path := portable_path (pe_name e) in
      if negb (bool_decide (path = pe_name e)) then Err (PkInvalid (PkNotCanonical (pe_name e)))
      else if bool_decide (pe_name e ∈ paths) then Err (PkInvalid (PkDuplicated (pe_name e)))
      else if (MAX_ENTRY_BYTES <? Z.of_nat (length (pe_contents e)))%Z
      then Err (PkInvalid (PkEntryTooLarge (pe_name e)))
      else match checked_add_u64 total (entry_size e) with
           | None => Err (PkInvalid PkSizeOverflow)
           | Some total => validate_loop l ({[pe_name e]} ∪ paths) total
           end
  end.

Definition validate_entries (l : list PackageEntry) : result PackageError unit :=
  if (length l =? 0)%nat || (MAX_ENTRIES <? length l)%nat then Err (PkInvalid PkEntryCount)
  else
    let? '(paths, total) := validate_loop l ∅ 0 in
    if (MAX_PAYLOAD_BYTES <? total)%Z then Err (PkInvalid PkPayloadTooLarge)
    else if negb (bool_decide ("app.json" ∈ paths)) then Err (PkInvalid PkNoManifest)
    else Ok tt.

Definition validate_signature_state (p : CApp) : result PackageError unit :=
  if negb (Bool.eqb (bool_decide (is_Some (developer_public_key p))) (bool_decide (is_Some (developer_signature p))))
  then Err (PkInvalid PkDeveloperFields)
  else if negb (Bool.eqb (bool_decide (is_Some (store_key_id p))) (bool_decide (is_Some (store_signature p))))
  then Err (PkInvalid PkStoreFields)
  else if bool_decide (is_Some (store_signature p)) && negb (bool_decide (is_Some (developer_signature p)))
  then Err (PkInvalid PkStoreWithoutDeveloper)
  else Ok tt.

Definition unsigned (l : list PackageEntry) : CApp :=
  {| ca_entries := l; developer_public_key := None; developer_signature := None; store_key_id := None;
     store_signature := None |}.

Definition CApp_new (l : list PackageEntry) : result PackageError CApp :=
  let l := stable_sort (λ a b, str_leb (pe_name a) (pe_name b)) l in
  let? _ := validate_entries l in
  Ok (unsigned l).

(** [entry]: the contents at a path, by binary search. *)
Definition CApp_entry (p : CApp) (path : string) : result unit (option (list ascii)) :=
  match binary_search_by (λ e, String.compare (pe_name e) path) (ca_entries p) with
  | Ok index => let? e := expect (ca_entries p !! index) in Ok (Some (pe_contents e))
  | Err _ => Ok None
  | Panicked => Panicked
  end.

(** ** Encoding *)

Definition encode_entry (e : PackageEntry) : list ascii :=
  le_bytes 2 (Z.of_nat (String.length (pe_name e))) ++ le_bytes 4 (Z.of_nat (length (pe_contents e)))
    ++ bytes (pe_name e) ++ pe_contents e.

Definition encode_payload (p : CApp) : result PackageError (list ascii) :=
  let? _ := validate_entries (ca_entries p) in
  let payload := concat (map encode_entry (ca_entries p)) in
  if (MAX_PAYLOAD_BYTES <? Z.of_nat (length payload))%Z then Err (PkInvalid PkPayloadTooLarge) else Ok payload.

Definition zeros (n : nat) : list ascii := replicate n zero_byte.
Definition flag (b : bool) (f : Z) : Z := if b then f else 0.

Definition CApp_encode (p : CApp) : result PackageError (list ascii) :=
  let? _ := validate_entries (ca_entries p) in
  let? _ := validate_signature_state p in
  let? payload := encode_payload p in
  let flags := Z.lor (flag (bool_decide (is_Some (developer_signature p))) FLAG_DEVELOPER_SIGNATURE)
                     (flag (bool_decide (is_Some (store_signature p))) FLAG_STORE_SIGNATURE) in
  Ok (MAGIC ++ le_bytes 2 FORMAT_VERSION ++ le_bytes 2 flags ++ le_bytes 4 (Z.of_nat (length (ca_entries p)))
        ++ le_bytes 8 (Z.of_nat (length payload))
        ++ default (zeros 32) (developer_public_key p) ++ default (zeros 64) (developer_signature p)
        ++ default (zeros 32) (store_key_id p) ++ default (zeros 64) (store_signature p) ++ payload).

(** ** Decoding *)

Definition truncated {A} (o : option A) : result PackageError A := ok_or o (PkInvalid PkTruncated).

(** The loop of [decode_payload] with [n] entries to go. *)
Fixpoint decode_entries (n : nat) (c : cursor) : result PackageError (list PackageEntry * cursor) :=
  match n with
  | 0 => Ok ([], c)
  | S n =>
      let? '(path_length, c) := truncated (read_le 2 c) in
      let? '(contents_length, c) := truncated (read_le 4 c) in
      if (path_length =? 0)%Z || (Z.of_nat MAX_PATH_BYTES <? path_length)%Z || (MAX_ENTRY_BYTES <? contents_length)%Z
      then Err (PkInvalid PkEntryLength)
      else
        let? '(path, c) := ok_or (read_exact (Z.to_nat path_length) c) PkUnexpectedEof in
        let? path := ok_or (from_utf8 path) (PkInvalid PkNotUtf8) in
        let? '(contents, c) := ok_or (read_exact (Z.to_nat contents_length) c) PkUnexpectedEof in
        let? '(entries, c) := decode_entries n c in
        Ok ({| pe_name := path; pe_contents := contents |} :: entries, c)
  end.

Definition decode_payload (payload : list ascii) (entry_count : nat) : result PackageError (list PackageEntry) :=
  let? '(entries, c) := decode_entries entry_count payload in
  if negb (length c =? 0)%nat then Err (PkInvalid PkTrailing)
  else
    let? _ := validate_entries entries in
    if windows2_any (λ a b, str_leb (pe_name b) (pe_name a)) entries then Err (PkInvalid PkOrder)
    else Ok entries.

Definition optional_field (present : bool) (value : list ascii) (name : string)
    : result PackageError (option (list ascii)) :=
  let zero := bool_decide (value = zeros (length value)) in
  if present then (if zero then Err (PkInvalid (PkAllZero name)) else Ok (Some value))
  else if zero then Ok None
  else Err (PkInvalid (PkUnusedNotZero name)).

Definition CApp_decode (encoded : list ascii) : result PackageError CApp :=
  if (length encoded <? FIXED_HEADER_BYTES)%nat
     || (Z.of_nat FIXED_HEADER_BYTES + MAX_PAYLOAD_BYTES <? Z.of_nat (length encoded))%Z
  then Err (PkInvalid PkEncodedSize)
  else
    let? '(magic, c) := truncated (read_exact 8 encoded) in
    if negb (bool_decide (magic = MAGIC)) then Err (PkInvalid PkMagic)
    else
      let? '(version, c) := truncated (read_le 2 c) in
      if negb (version =? FORMAT_VERSION)%Z then Err (PkInvalid PkVersion)
      else
        let? '(flags, c) := truncated (read_le 2 c) in
        if negb (Z.ldiff flags KNOWN_FLAGS =? 0)%Z then Err (PkInvalid PkUnknownFlags)
        else
          let developer := negb (Z.land flags FLAG_DEVELOPER_SIGNATURE =? 0)%Z in
          let store := negb (Z.land flags FLAG_STORE_SIGNATURE =? 0)%Z in
          if store && negb developer then Err (PkInvalid PkStoreWithoutDeveloper)
          else
            let? '(entry_count, c) := truncated (read_le 4 c) in
            if (entry_count =? 0)%Z || (Z.of_nat MAX_ENTRIES <? entry_count)%Z then Err (PkInvalid PkEntryCount)
            else
              let? '(payload_length, c) := truncated (read_le 8 c) in
              if (MAX_PAYLOAD_BYTES <? payload_length)%Z
                 || negb (Z.of_nat FIXED_HEADER_BYTES + payload_length =? Z.of_nat (length encoded))%Z
              then Err (PkInvalid PkLengthMismatch)
              else
                let? '(developer_public, c) := truncated (read_exact 32 c) in
                let? '(developer_sig, c) := truncated (read_exact 64 c) in
                let? '(store_id, c) := truncated (read_exact 32 c) in
                let? '(store_sig, c) := truncated (read_exact 64 c) in
                let? entries := decode_payload c (Z.to_nat entry_count) in
                let? developer_public := optional_field developer developer_public "developer public key" in
                let? developer_sig := optional_field developer developer_sig "developer signature" in
                let? store_id := optional_field store store_id "store key ID" in
                let? store_sig := optional_field store store_sig "store signature" in
                let package := {| ca_entries := entries; developer_public_key := developer_public;
                                  developer_signature := developer_sig; store_key_id := store_id;
                                  store_signature := store_sig |} in
                let? _ := validate_signature_state package in
                Ok package.

(** ** Signatures *)

Definition signature_message (domain payload : list ascii) : list ascii := domain ++ payload.

(** The Ed25519 and SHA-256 implementations the source calls. *)
Class Crypto := {
  sha256 : list ascii → list ascii;
  (** [SigningKey::from_bytes(k).verifying_key().to_bytes()] *)
  public_key : list ascii → list ascii;
  (** [SigningKey::from_bytes(k).sign(m).to_bytes()] *)
  ed25519_sign : list ascii → list ascii → list ascii;
  (** [VerifyingKey::from_bytes(k).is_ok()] *)
  verifying_key_ok : list ascii → bool;
  (** [key.verify(m, &Signature::from_bytes(s)).is_ok()] *)
  ed25519_verify : list ascii → list ascii → list ascii → bool;
}.

Section signatures.
  Context `{Crypto}.

Definition key_id (key : list ascii) : list ascii := sha256 key.

Definition store_signature_message (p : CApp) (payload : list ascii) : result PackageError (list ascii) :=
  let? developer_public := ok_or (developer_public_key p) (PkSignature PkDeveloperMissing) in
  let? developer_sig := ok_or (developer_signature p) (PkSignature PkDeveloperIncomplete) in
  Ok (STORE_DOMAIN ++ developer_public ++ developer_sig ++ payload).

Definition verify_developer_signature (p : CApp) : result PackageError unit :=
  let? key := ok_or (developer_public_key p) (PkSignature PkDeveloperMissing) in
  let? signature := ok_or (developer_signature p) (PkSignature PkDeveloperIncomplete) in
  if negb (verifying_key_ok key) then Err (PkSignature PkDeveloperKey)
  else
    let? payload := encode_payload p in
    if ed25519_verify key (signature_message DEVELOPER_DOMAIN payload) signature then Ok tt
    else Err (PkSignature PkDeveloperMismatch).

Definition verify_store_signature (p : CApp) (key : list ascii) : result PackageError unit :=
  let? _ := verify_developer_signature p in
  let? expected_key_id := ok_or (store_key_id p) (PkSignature PkStoreMissing) in
  if negb (bool_decide (key_id key = expected_key_id)) then Err (PkSignature PkStoreKeyId)
  else
    let? signature := ok_or (store_signature p) (PkSignature PkStoreIncomplete) in
    if negb (verifying_key_ok key) then Err (PkSignature PkStoreKey)
    else
      let? payload := encode_payload p in
      let? message := store_signature_message p payload in
      if ed25519_verify key message signature then Ok tt else Err (PkSignature PkStoreMismatch).

(** The signing methods change the package they are called on. *)
Definition sign_developer (p : CApp) (key : list ascii) : result PackageError CApp :=
  let? payload := encode_payload p in
  Ok {| ca_entries := ca_entries p; developer_public_key := Some (public_key key);
        developer_signature := Some (ed25519_sign key (signature_message DEVELOPER_DOMAIN payload));
        store_key_id := None; store_signature := None |}.

Definition sign_store (p : CApp) (key : list ascii) : result PackageError CApp :=
  let? _ := verify_developer_signature p in
  let? payload := encode_payload p in
  let? message := store_signature_message p payload in
  Ok {| ca_entries := ca_entries p; developer_public_key := developer_public_key p;
        developer_signature := developer_signature p; store_key_id := Some (key_id (public_key key));
        store_signature := Some (ed25519_sign key message) |}.

End signatures.

(** ** Lemmas on entries *)

Definition payload_size (l : list PackageEntry) : Z := foldr (λ e n, entry_size e + n)%Z 0%Z l.

(** An entry that passes the checks on its own. *)
Definition entry_ok (e : PackageEntry) : Prop :=
  portable_path (pe_name e) = Ok (pe_name e) ∧ (Z.of_nat (length (pe_contents e)) ≤ MAX_ENTRY_BYTES)%Z.

Record entries_ok (l : list PackageEntry) : Prop := {
  eo_count : (1 ≤ length l ≤ MAX_ENTRIES)%nat;
  eo_each : Forall entry_ok l;
  eo_unique : NoDup (map pe_name l);
  eo_size : (payload_size l ≤ MAX_PAYLOAD_BYTES)%Z;
  eo_manifest : "app.json" ∈ map pe_name l;
}.

Lemma entry_size_pos e : (6 ≤ entry_size e)%Z.
Proof. unfold entry_size. lia. Qed.

Lemma payload_size_nonneg l : (0 ≤ payload_size l)%Z.
Proof. induction l as [|e l IH]; simpl; [done|]. pose proof (entry_size_pos e). lia. Qed.

Lemma validate_loop_Ok l paths total paths' total' :
  validate_loop l paths total = Ok (paths', total') →
  Forall entry_ok l ∧ NoDup (map pe_name l) ∧ (∀ e, e ∈ l → pe_name e ∉ paths) ∧
  paths' = list_to_set (map pe_name l) ∪ paths ∧ total' = (total + payload_size l)%Z.
Proof.
  revert paths total. induction l as [|e l IH]; intros paths total; cbn [validate_loop].
  - intros [= <- <-]. simpl. split_and!; [done|constructor|by intros e ?%elem_of_nil|set_solver|lia].
  - destruct (portable_path (pe_name e)) as [path| |] eqn:Hp; [|done..].
    case_bool_decide as Heq; [subst path|done]. case_bool_decide as Hin; [done|]. cbn [negb].
    destruct (MAX_ENTRY_BYTES <? _)%Z eqn:Hsize; [done|]. unfold checked_add_u64.
    destruct (_ <=? u64_max)%Z; [|done]. intros (Hf&Hnd&Hout&->&->)%IH. unbool_hyps. simpl. split_and!.
    + by repeat constructor.
    + constructor; [|done]. rewrite list_elem_of_fmap. intros (e'&Hn&He'). apply (Hout e' He'). set_solver.
    + intros e' [->|He']%elem_of_cons; [done|]. specialize (Hout e' He'). set_solver.
    + set_solver.
    + lia.
Qed.

Lemma validate_loop_runs l paths total :
  Forall entry_ok l → NoDup (map pe_name l) → (∀ e, e ∈ l → pe_name e ∉ paths) →
  (total + payload_size l ≤ u64_max)%Z →
  validate_loop l paths total = Ok (list_to_set (map pe_name l) ∪ paths, (total + payload_size l)%Z).
Proof.
  intros Hf. revert paths total. induction Hf as [|e l [Hp Hs] Hf IH]; intros paths total Hnd Hout Hmax; cbn [validate_loop].
  - simpl. f_equal. f_equal; [set_solver|lia].
  - simpl in Hnd, Hmax. apply NoDup_cons in Hnd as [Hn Hnd]. rewrite Hp.
    rewrite bool_decide_true by done. rewrite bool_decide_false by (apply Hout; set_solver). cbn [negb].
    rewrite (proj2 (Z.ltb_ge _ _)) by lia. unfold checked_add_u64. pose proof (payload_size_nonneg l).
    rewrite (proj2 (Z.leb_le _ _)) by lia. rewrite IH.
    + simpl. f_equal. f_equal; [set_solver|lia].
    + done.
    + intros e' He' [Heq%elem_of_singleton|Hin]%elem_of_union; [|by apply (Hout e'); [set_solver|]].
      apply Hn. rewrite <- Heq. by apply list_elem_of_fmap_2.
    + lia.
Qed.

Lemma validate_entries_iff l : validate_entries l = Ok tt ↔ entries_ok l.
Proof.
  unfold validate_entries. split.
  - destruct (length l =? 0)%nat eqn:H0, (MAX_ENTRIES <? length l)%nat eqn:H1; simpl; try done.
    destruct (validate_loop l ∅ 0) as [[paths total]| |] eqn:Hl; [|done..].
    apply validate_loop_Ok in Hl as (Hf&Hnd&_&->&->). destruct (MAX_PAYLOAD_BYTES <? _)%Z eqn:Hmax; [done|].
    case_bool_decide as Hm; [|done]. intros _. unbool_hyps. split; [lia|done|done|lia|set_solver].
  - intros [Hc Hf Hnd Hs Hm]. rewrite (proj2 (Nat.eqb_neq _ _)) by lia. rewrite (proj2 (Nat.ltb_ge _ _)) by lia. simpl.
    rewrite validate_loop_runs; [|done|done|set_solver|unfold MAX_PAYLOAD_BYTES, u64_max in *; lia].
    rewrite Z.add_0_l. rewrite (proj2 (Z.ltb_ge _ _)) by lia. by rewrite bool_decide_true by set_solver.
Qed.

(** A portable path is not empty and not long. *)
Lemma portable_path_Ok p q :
  portable_path p = Ok q → ∃ parts, portable_parts (path_components p) = Ok parts ∧ q = str_join slash parts ∧
    (1 ≤ String.length q ≤ MAX_PATH_BYTES)%nat.
Proof.
  unfold portable_path. destruct (portable_parts _) as [parts| |]; [|done..].
  destruct (str_is_empty _) eqn:He; [done|]. destruct (MAX_PATH_BYTES <? _)%nat eqn:Hm; [done|]. simpl.
  intros [= <-]. exists parts. unbool_hyps. split_and!; [done..| |done].
  destruct (str_join slash parts); simpl in *; [done|lia].
Qed.

Lemma portable_parts_Ok l parts :
  portable_parts l = Ok parts →
  l = map Normal parts ∧ Forall (λ part, part ≠ EmptyString ∧ part ≠ "." ∧ part ≠ "..") parts.
Proof.
  revert parts. induction l as [|[| | |part] l IH]; intros parts; cbn [portable_parts]; try done.
  - by intros [= <-].
  - destruct (_ || _) eqn:Hbad; [done|]. destruct (portable_parts l) as [ps| |]; [|done..]. intros [= <-].
    destruct (IH ps eq_refl) as [-> Hps]. unbool_hyps. split; [done|]. constructor; [|done].
    destruct part; [done|]. done.
Qed.

Lemma length_encode_entry e : Z.of_nat (length (encode_entry e)) = entry_size e.
Proof.
  unfold encode_entry, entry_size. rewrite !length_app, !length_le_bytes, length_bytes. lia.
Qed.

Lemma length_payload l : Z.of_nat (length (concat (map encode_entry l))) = payload_size l.
Proof.
  induction l as [|e l IH]; [done|]. cbn [map concat payload_size foldr]. fold (payload_size l).
  rewrite length_app. rewrite <- IH, <- length_encode_entry. lia.
Qed.

Lemma encode_payload_iff p payload :
  encode_payload p = Ok payload ↔ entries_ok (ca_entries p) ∧ payload = concat (map encode_entry (ca_entries p)).
Proof.
  unfold encode_payload. rewrite length_payload, <- validate_entries_iff.
  destruct (validate_entries (ca_entries p)) as [[]| |] eqn:Hv.
  - apply validate_entries_iff in Hv as [_ _ _ Hs _]. rewrite (proj2 (Z.ltb_ge _ _)) by lia. naive_solver.
  - naive_solver.
  - naive_solver.
Qed.

(** *** One entry and a list of entries through the encoding *)

(** What the decoder checks of an entry as it reads it. *)
Definition entry_bounds (e : PackageEntry) : Prop :=
  (1 ≤ String.length (pe_name e) ≤ MAX_PATH_BYTES)%nat ∧
  (Z.of_nat (length (pe_contents e)) ≤ MAX_ENTRY_BYTES)%Z ∧ valid_utf8 (bytes (pe_name e)) = true.

Lemma decode_encode_entries l c :
  Forall entry_bounds l → decode_entries (length l) (concat (map encode_entry l) ++ c) = Ok (l, c).
Proof.
  induction 1 as [|e l (Hn&Hc&Hu) Hl IH]; [done|]. cbn [length map concat decode_entries].
  unfold encode_entry. rewrite <- !(app_assoc _ _ _). unfold MAX_PATH_BYTES, MAX_ENTRY_BYTES in *.
  rewrite read_le_app by (simpl; lia). cbn [truncated ok_or]. rewrite read_le_app by (simpl; lia). cbn [truncated ok_or].
  rewrite (proj2 (Z.eqb_neq _ _)), !(proj2 (Z.ltb_ge _ _)) by lia. cbn [orb].
  rewrite !Nat2Z.id, read_exact_app by apply length_bytes. cbn [ok_or]. rewrite from_utf8_bytes by done. cbn [ok_or].
  rewrite read_exact_app by done. cbn [ok_or]. change (map _ l) with (map encode_entry l). rewrite IH. by destruct e.
Qed.

Lemma decode_entries_Ok n c l c' :
  decode_entries n c = Ok (l, c') → c = concat (map encode_entry l) ++ c' ∧ length l = n ∧ Forall entry_bounds l.
Proof.
  revert c l. induction n as [|n IH]; intros c l; cbn [decode_entries].
  - intros [= <- <-]. by split_and!.
  - destruct (read_le 2 c) as [[path_length c1]|] eqn:Hr1; [|done]. cbn [truncated ok_or].
    destruct (read_le 4 c1) as [[contents_length c2]|] eqn:Hr2; [|done]. cbn [truncated ok_or].
    apply read_le_Some in Hr1 as [-> Hr1], Hr2 as [-> Hr2]. destruct (_ || _) eqn:Hb; [done|]. unbool_hyps.
    destruct (read_exact _ c2) as [[path c3]|] eqn:Hr3; [|done]. cbn [ok_or].
    destruct (from_utf8 path) as [name|] eqn:Hu; [|done]. cbn [ok_or].
    destruct (read_exact _ c3) as [[contents c4]|] eqn:Hr4; [|done]. cbn [ok_or].
    destruct (decode_entries n c4) as [[entries c5]| |] eqn:Hrec; [|done..]. intros [= <- <-].
    apply IH in Hrec as (->&<-&Hl). apply from_utf8_Some in Hu as [-> Hu].
    apply read_exact_Some in Hr3 as [-> Hr3], Hr4 as [-> Hr4]. rewrite length_bytes in Hr3.
    cbn [map concat]. unfold encode_entry. cbn [pe_name pe_contents]. split_and!.
    + rewrite Hr3, Hr4, !Z2Nat.id by lia. by rewrite <- !(app_assoc _ _ _).
    + done.
    + constructor; [|done]. split_and!; simpl; [lia|lia|lia|done].
Qed.

(** *** Order *)

Definition name_lt (a b : PackageEntry) : Prop := str_lt (pe_name a) (pe_name b).

Lemma ordered_iff l :
  windows2_any (λ a b, str_leb (pe_name b) (pe_name a)) l = false ↔ StronglySorted name_lt l.
Proof.
  unfold windows2_any. rewrite negb_false_iff. apply (windows2_all_StronglySorted name_lt).
  - intros a b. unfold name_lt, str_leb, String.leb. rewrite negb_true_iff, <- str_compare_Gt.
    by destruct (String.compare (pe_name b) (pe_name a)).
  - intros a b c. unfold name_lt. apply str_lt_trans.
Qed.

(** *** The header *)

(** A byte array of length [n], when present. *)
Definition sized (n : nat) (o : option (list ascii)) : Prop :=
  match o with Some v => length v = n | None => True end.
Definition nonzero (o : option (list ascii)) : Prop :=
  match o with Some v => v ≠ zeros (length v) | None => True end.

(** What the types of the source say of a package. *)
Record capp_typed (p : CApp) : Prop := {
  ct_names : Forall (λ e, valid_utf8 (bytes (pe_name e)) = true) (ca_entries p);
  ct_developer_key : sized 32 (developer_public_key p);
  ct_developer_sig : sized 64 (developer_signature p);
  ct_store_id : sized 32 (store_key_id p);
  ct_store_sig : sized 64 (store_signature p);
}.

(** The order of the entries, and no field that cannot be told from a missing
    one. *)
Record capp_canonical (p : CApp) : Prop := {
  cc_sorted : StronglySorted name_lt (ca_entries p);
  cc_nonzero : nonzero (developer_public_key p) ∧ nonzero (developer_signature p) ∧
               nonzero (store_key_id p) ∧ nonzero (store_signature p);
}.

Lemma optional_field_default n o name :
  sized n o → nonzero o → optional_field (bool_decide (is_Some o)) (default (zeros n) o) name = Ok o.
Proof.
  intros Hs Hz. unfold optional_field. destruct o as [v|]; simpl in *.
  - by rewrite (bool_decide_false (v = zeros (length v))).
  - unfold zeros. by rewrite length_replicate, bool_decide_true.
Qed.

Lemma optional_field_Ok n b v name o :
  length v = n → optional_field b v name = Ok o →
  v = default (zeros n) o ∧ b = bool_decide (is_Some o) ∧ sized n o ∧ nonzero o.
Proof.
  intros <-. unfold optional_field. case_bool_decide as Hz; destruct b; try done; intros [= <-]; by split_and!.
Qed.

Definition capp_flags (p : CApp) : Z :=
  Z.lor (flag (bool_decide (is_Some (developer_signature p))) FLAG_DEVELOPER_SIGNATURE)
        (flag (bool_decide (is_Some (store_signature p))) FLAG_STORE_SIGNATURE).

Lemma flag_bits (a b : bool) :
  let f := Z.lor (flag a FLAG_DEVELOPER_SIGNATURE) (flag b FLAG_STORE_SIGNATURE) in
  (0 ≤ f < 4)%Z ∧ Z.ldiff f KNOWN_FLAGS = 0%Z ∧ negb (Z.land f FLAG_DEVELOPER_SIGNATURE =? 0)%Z = a ∧
  negb (Z.land f FLAG_STORE_SIGNATURE =? 0)%Z = b.
Proof. by destruct a, b; vm_compute. Qed.

Lemma known_flags f :
  (0 ≤ f)%Z → Z.ldiff f KNOWN_FLAGS = 0%Z →
  f = Z.lor (flag (negb (Z.land f FLAG_DEVELOPER_SIGNATURE =? 0)%Z) FLAG_DEVELOPER_SIGNATURE)
            (flag (negb (Z.land f FLAG_STORE_SIGNATURE =? 0)%Z) FLAG_STORE_SIGNATURE).
Proof.
  intros H0 Hf. change KNOWN_FLAGS with (Z.ones 2) in Hf. rewrite Z.ldiff_ones_r in Hf by lia.
  rewrite Z.shiftl_eq_0_iff in Hf by lia. rewrite Z.shiftr_div_pow2 in Hf by lia.
  assert (f = 0 ∨ f = 1 ∨ f = 2 ∨ f = 3)%Z as [->|[->|[->| ->]]]; [|by vm_compute..].
  change (2 ^ 2)%Z with 4%Z in Hf. pose proof (Z.div_mod f 4 ltac:(lia)). pose proof (Z.mod_pos_bound f 4 ltac:(lia)). lia.
Qed.

(** The bytes in front of the payload. *)
Definition header (p : CApp) (n : Z) : list ascii :=
  MAGIC ++ le_bytes 2 FORMAT_VERSION ++ le_bytes 2 (capp_flags p) ++ le_bytes 4 (Z.of_nat (length (ca_entries p)))
    ++ le_bytes 8 n
    ++ default (zeros 32) (developer_public_key p) ++ default (zeros 64) (developer_signature p)
    ++ default (zeros 32) (store_key_id p) ++ default (zeros 64) (store_signature p).

Lemma length_default n o : sized n o → length (default (zeros n) o) = n.
Proof. destruct o; simpl; [done|]. intros _. unfold zeros. apply length_replicate. Qed.

Lemma length_header p n : capp_typed p → length (header p n) = FIXED_HEADER_BYTES.
Proof.
  intros [_ H1 H2 H3 H4]. unfold header. rewrite !length_app, !length_le_bytes, !length_default by done. done.
Qed.

Lemma CApp_encode_iff p bs :
  CApp_encode p = Ok bs ↔
  entries_ok (ca_entries p) ∧ validate_signature_state p = Ok tt ∧
  bs = header p (payload_size (ca_entries p)) ++ concat (map encode_entry (ca_entries p)).
Proof.
  unfold CApp_encode. rewrite <- validate_entries_iff. split.
  - destruct (validate_entries _) as [[]| |] eqn:Hv; [|done..].
    destruct (validate_signature_state p) as [[]| |]; [|done..].
    destruct (encode_payload p) as [payload| |] eqn:Hp; [|done..]. apply encode_payload_iff in Hp as [_ ->].
    intros [= <-]. split_and!; [done..|]. rewrite length_payload. unfold header, capp_flags. by rewrite <- !(app_assoc _ _ _).
  - intros (Hv&Hs&->). rewrite Hv, Hs.
    rewrite (proj2 (encode_payload_iff p _) (conj (proj1 (validate_entries_iff _) Hv) eq_refl)).
    rewrite length_payload. unfold header, capp_flags. by rewrite <- !(app_assoc _ _ _).
Qed.

Lemma signature_state_iff p :
  validate_signature_state p = Ok tt ↔
  bool_decide (is_Some (developer_public_key p)) = bool_decide (is_Some (developer_signature p)) ∧
  bool_decide (is_Some (store_key_id p)) = bool_decide (is_Some (store_signature p)) ∧
  bool_decide (is_Some (store_signature p)) && negb (bool_decide (is_Some (developer_signature p))) = false.
Proof.
  unfold validate_signature_state. rewrite <- !(eqb_true_iff (bool_decide _)).
  destruct (Bool.eqb _ _), (Bool.eqb _ _), (_ && _); simpl; naive_solver.
Qed.

Lemma decode_payload_iff payload n l :
  decode_payload payload n = Ok l ↔
  payload = concat (map encode_entry l) ∧ n = length l ∧ entries_ok l ∧ StronglySorted name_lt l ∧
  Forall (λ e, valid_utf8 (bytes (pe_name e)) = true) l.
Proof.
  unfold decode_payload. split.
  - destruct (decode_entries n payload) as [[entries c]| |] eqn:Hd; [|done..].
    apply decode_entries_Ok in Hd as (->&<-&Hb). destruct c as [|a c]; [|done]. cbn [length negb Nat.eqb].
    destruct (validate_entries entries) as [[]| |] eqn:Hv; [|done..].
    destruct (windows2_any _ _) eqn:Ho; [done|]. intros [= <-]. rewrite app_nil_r. split_and!; [done..| | |].
    + by apply validate_entries_iff.
    + by apply ordered_iff.
    + eapply Forall_impl; [exact Hb|]. by intros e (_&_&?).
  - intros (->&->&Hv&Ho&Hu). rewrite <- (app_nil_r (concat _)), decode_encode_entries.
    + cbn. rewrite (proj2 (validate_entries_iff l) Hv). by rewrite (proj2 (ordered_iff l) Ho).
    + pose proof (eo_each _ Hv) as Heach. rewrite Forall_forall in *. intros e He.
      destruct (Heach e He) as [(_&_&_&Hlen)%portable_path_Ok Hc]. split_and!; [apply Hlen|apply Hlen|done|by apply Hu].
Qed.

(** The next [read] of the decoder in the goal succeeded. *)
Ltac reads_as x c R :=
  match goal with
  | |- context [truncated ?r] => destruct r as [[x c]|] eqn:R; [|done]; cbn [truncated ok_or]
  end.

Lemma CApp_decode_Ok bs p :
  CApp_decode bs = Ok p → CApp_encode p = Ok bs ∧ capp_typed p ∧ capp_canonical p.
Proof.
  unfold CApp_decode. destruct (_ || _) eqn:Hlen; [done|]. clear Hlen. reads_as magic c1 R1.
  case_bool_decide as Hmagic; [|done]. cbn [negb]. subst magic. reads_as version c2 R2.
  destruct (version =? FORMAT_VERSION)%Z eqn:Hver; [|done]. cbn [negb]. reads_as flags c3 R3.
  destruct (Z.ldiff flags KNOWN_FLAGS =? 0)%Z eqn:Hfl; [|done]. cbn [negb].
  destruct (_ && _); [done|]. reads_as count c4 R4. destruct ((count =? 0)%Z || _) eqn:Hcount; [done|].
  reads_as n c5 R5. destruct ((_ <? n)%Z || _) eqn:Hn; [done|].
  reads_as dk c6 R6. reads_as ds c7 R7. reads_as si c8 R8. reads_as ss c9 R9.
  destruct (decode_payload c9 _) as [l| |] eqn:Hl; [|done..].
  destruct (optional_field _ dk _) as [o1| |] eqn:O1; [|done..].
  destruct (optional_field _ ds _) as [o2| |] eqn:O2; [|done..].
  destruct (optional_field _ si _) as [o3| |] eqn:O3; [|done..].
  destruct (optional_field _ ss _) as [o4| |] eqn:O4; [|done..].
  destruct (validate_signature_state _) as [[]| |] eqn:Hs; [|done..]. intros [= <-].
  apply read_exact_Some in R1 as [-> _], R6 as [-> R6], R7 as [-> R7], R8 as [-> R8], R9 as [-> R9].
  apply read_le_Some in R2 as [-> R2], R3 as [-> R3], R4 as [-> R4], R5 as [-> R5].
  apply decode_payload_iff in Hl as (->&Hcnt&Hv&Hsort&Hutf). unbool_hyps. subst version.
  apply (optional_field_Ok _ _ _ _ _ R6) in O1 as (->&_&Hs1&Hz1).
  apply (optional_field_Ok _ _ _ _ _ R7) in O2 as (->&Hb2&Hs2&Hz2).
  apply (optional_field_Ok _ _ _ _ _ R8) in O3 as (->&_&Hs3&Hz3).
  apply (optional_field_Ok _ _ _ _ _ R9) in O4 as (->&Hb4&Hs4&Hz4).
  apply known_flags in Hfl; [|lia]. rewrite Hb2, Hb4 in Hfl.
  split_and!; [|by split|by split]. apply CApp_encode_iff. cbn [ca_entries]. split_and!; [done..|].
  match goal with H : (_ + n)%Z = _ |- _ => rename H into Hsum end.
  assert (n = payload_size l) as ->.
  { rewrite !length_app, !length_le_bytes, !length_default in Hsum by done.
    rewrite <- length_payload. change (length MAGIC) with 8%nat in Hsum. unfold FIXED_HEADER_BYTES in Hsum. lia. }
  unfold header, capp_flags. cbn [ca_entries developer_public_key developer_signature store_key_id store_signature].
  rewrite <- Hfl, <- Hcnt, Z2Nat.id by lia. by rewrite <- !(app_assoc _ _ _).
Qed.

(** ** Properties *)

(** A package that was made in the program decodes from its encoding to
    the very same package. *)
Theorem package_roundtrip p bs :
  capp_typed p → capp_canonical p → CApp_encode p = Ok bs → CApp_decode bs = Ok p.
Proof.
  intros Ht [Hsort (Hz1&Hz2&Hz3&Hz4)] (Hv&Hs&->)%CApp_encode_iff. pose proof Ht as [Hutf Hk1 Hk2 Hk3 Hk4].
  pose proof (payload_size_nonneg (ca_entries p)) as Hpos. destruct Hv as [Hcount Heach Hnd Hsize Hman].
  unfold CApp_decode. rewrite length_app, length_header by done.
  rewrite Nat2Z.inj_add, length_payload. rewrite (proj2 (Nat.ltb_ge _ _)), (proj2 (Z.ltb_ge _ _)) by lia. cbn [orb].
  unfold header. rewrite <- !(app_assoc _ _ _). rewrite read_exact_app by done. cbn [truncated ok_or].
  rewrite bool_decide_true by done. cbn [negb]. rewrite read_le_app by done. cbn [truncated ok_or].
  rewrite Z.eqb_refl. cbn [negb].
  destruct (flag_bits (bool_decide (is_Some (developer_signature p))) (bool_decide (is_Some (store_signature p))))
    as (Hr&Hd&Hfd&Hfs). fold (capp_flags p) in Hr, Hd, Hfd, Hfs.
  rewrite read_le_app by (simpl; lia). cbn [truncated ok_or]. rewrite Hd, Hfd, Hfs. cbn [negb Z.eqb].
  pose proof (proj1 (signature_state_iff p) Hs) as (He1&He2&->).
  unfold MAX_ENTRIES, MAX_PAYLOAD_BYTES in *. rewrite read_le_app by (simpl; lia). cbn [truncated ok_or].
  rewrite (proj2 (Z.eqb_neq _ _)), (proj2 (Z.ltb_ge _ _)) by lia. cbn [orb].
  rewrite read_le_app by (simpl; lia). cbn [truncated ok_or]. rewrite (proj2 (Z.ltb_ge _ _)), Z.eqb_refl by lia. cbn [negb orb].
  do 4 (rewrite read_exact_app by (by apply length_default); cbn [truncated ok_or]).
  rewrite Nat2Z.id, (proj2 (decode_payload_iff _ _ (ca_entries p))); [|by split_and!].
  rewrite <- He1 at 1. rewrite !optional_field_default by done. rewrite <- He2 at 1.
  rewrite !optional_field_default by done.
  destruct p as [l o1 o2 o3 o4]. simpl in *. by rewrite Hs.
Qed.

(** C21: every file that the decoder accepts is the encoding of the package it
    gives, which is well-typed and canonical: no two files hold the same
    package, and nothing in a file is ignored. *)
Theorem package_decode_canonical bs p :
  CApp_decode bs = Ok p → CApp_encode p = Ok bs ∧ capp_typed p ∧ capp_canonical p.
Proof. apply CApp_decode_Ok. Qed.

(** The entries of an accepted package stay below the directory it is
    unpacked to, each at a path of its own that has no [.] and no [..]; there
    are at most 256 of them, among them the manifest, none is larger than
    16 MiB and together they take at most 32 MiB. *)
Theorem package_entries_confined bs p root :
  CApp_decode bs = Ok p → path_is_absolute root = true →
  (∀ e, e ∈ ca_entries p → ∃ parts, parts ≠ [] ∧
     Forall (λ part, part ≠ EmptyString ∧ part ≠ "." ∧ part ≠ "..") parts ∧
     path_components (path_join root (pe_name e)) = path_components root ++ map Normal parts) ∧
  NoDup (map pe_name (ca_entries p)) ∧ "app.json" ∈ map pe_name (ca_entries p) ∧
  (length (ca_entries p) ≤ 256)%nat ∧
  Forall (λ e, Z.of_nat (length (pe_contents e)) ≤ 16777216)%Z (ca_entries p) ∧
  (payload_size (ca_entries p) ≤ 33554432)%Z.
Proof.
  intros (Henc&_&_)%CApp_decode_Ok Hroot. apply CApp_encode_iff in Henc as ([Hc Heach Hnd Hs Hm]&_&_).
  split_and!; [|done|done|apply Hc|eapply Forall_impl; [exact Heach|by intros e [_ ?]]|done].
  intros e He. rewrite Forall_forall in Heach. destruct (Heach e He) as [(parts&Hp&Hj&Hl)%portable_path_Ok _].
  apply portable_parts_Ok in Hp as [Hp Hparts]. exists parts. split_and!; [|done|].
  - intros ->. rewrite Hj in Hl. simpl in Hl. lia.
  - rewrite <- Hp. assert (path_is_absolute (pe_name e) = false) as Hrel.
    { destruct (path_is_absolute (pe_name e)) eqn:Habs; [|done]. unfold path_is_absolute in Habs.
      unfold path_components in Hp. rewrite Habs in Hp. by destruct parts. }
    apply path_components_join_rel; [done..|]. intros Hd. unfold path_components in Hp.
    unfold path_is_absolute in Hrel. rewrite Hrel in Hp.
    destruct (str_split slash (pe_name e)) as [|d ps]; [done|]. injection Hd as ->.
    rewrite bool_decide_true in Hp by done. by destruct parts.
Qed.

(** A package of one manifest and one program. *)
Definition sample_entries : list PackageEntry :=
  [mkPackageEntry "bin/hello.wasm" (bytes "wasm"); mkPackageEntry "app.json" (bytes "manifest")].
Definition sample_package : CApp := unsigned (rev sample_entries).
Definition sample_encoded : list ascii :=
  match CApp_encode sample_package with Ok bs => bs | _ => [] end.

Lemma package_roundtrip_witness : CApp_decode sample_encoded = Ok sample_package.
Proof.
  apply package_roundtrip; [| |by vm_compute].
  - split; try done. by repeat constructor.
  - split; [|done]. by repeat constructor.
Defined.

Lemma package_decode_canonical_witness :
  CApp_encode sample_package = Ok sample_encoded ∧ capp_typed sample_package ∧ capp_canonical sample_package.
Proof. apply package_decode_canonical. by vm_compute. Defined.

Lemma package_entries_confined_witness :
  ∃ parts, path_components (path_join "/var/lib/cardputerzero/apps/x" "bin/hello.wasm")
           = path_components "/var/lib/cardputerzero/apps/x" ++ map Normal parts.
Proof.
  destruct (package_entries_confined sample_encoded sample_package "/var/lib/cardputerzero/apps/x") as [Hpath _];
    [by vm_compute|done|].
  destruct (Hpath (mkPackageEntry "bin/hello.wasm" (bytes "wasm"))) as (parts&_&_&Hp); [|by exists parts].
  right. left.
Defined.

(** Looking up a path in a package with ordered entries finds its entry
    whenever there is one, and no other. *)
Theorem package_entry_lookup p path :
  StronglySorted name_lt (ca_entries p) →
  match CApp_entry p path with
  | Ok (Some contents) => mkPackageEntry path contents ∈ ca_entries p
  | Ok None => path ∉ map pe_name (ca_entries p)
  | _ => False
  end.
Proof.
  intros Hsort. unfold CApp_entry.
  assert (is_ok (binary_search_by (λ e, String.compare (pe_name e) path) (ca_entries p)) = true ↔
          ∃ x, x ∈ ca_entries p ∧ String.compare (pe_name x) path = Eq) as Hok.
  { apply binary_search_by_ok. intros i j x y Hij Hx Hy. rewrite str_compare_Gt.
    pose proof (StronglySorted_lookup_lt _ _ _ _ _ _ Hsort Hij Hx Hy) as Hxy. unfold name_lt in Hxy.
    destruct (String.compare (pe_name x) path) eqn:E; auto; right.
    - apply str_compare_Eq in E as <-. done.
    - apply str_compare_Gt in E. by transitivity (pe_name x). }
  pose proof (binary_search_by_spec (λ e, String.compare (pe_name e) path) (ca_entries p)) as Hspec.
  destruct (binary_search_by _ _) as [i|i|]; simpl in Hok; [| |done].
  - destruct Hspec as (x&Hx&Heq). rewrite Hx. simpl. apply str_compare_Eq in Heq as <-.
    apply list_elem_of_lookup_2 in Hx. by destruct x.
  - rewrite list_elem_of_fmap. intros (x&->&Hx). destruct Hok as [_ Hok]. discriminate Hok.
    exists x. by rewrite str_compare_Eq.
Qed.

Lemma package_entry_lookup_witness : mkPackageEntry "bin/hello.wasm" (bytes "wasm") ∈ ca_entries sample_package.
Proof.
  assert (StronglySorted name_lt (ca_entries sample_package)) as Hs by (by repeat constructor).
  exact (package_entry_lookup sample_package "bin/hello.wasm" Hs).
Defined.

(** ** What a signature covers *)

(** Entries are self-delimiting: a payload is the payload of one list only. *)
Lemma payload_inj l l' :
  Forall entry_bounds l → Forall entry_bounds l' →
  concat (map encode_entry l) = concat (map encode_entry l') → l = l'.
Proof.
  intros Hl. revert l'. induction Hl as [|e l He Hl IH]; intros l' Hl' Heq.
  - destruct Hl' as [|e' l' He' Hl']; [done|]. cbn [map concat] in Heq.
    apply (f_equal length) in Heq. rewrite length_app in Heq.
    pose proof (length_encode_entry e') as Hlen. pose proof (entry_size_pos e'). simpl in Heq. lia.
  - destruct Hl' as [|e' l' He' Hl']; cbn [map concat] in Heq.
    { apply (f_equal length) in Heq. rewrite length_app in Heq.
      pose proof (length_encode_entry e) as Hlen. pose proof (entry_size_pos e). simpl in Heq. lia. }
    pose proof (decode_encode_entries [e] (concat (map encode_entry l)) ltac:(by constructor)) as Hd.
    pose proof (decode_encode_entries [e'] (concat (map encode_entry l')) ltac:(by constructor)) as Hd'.
    cbn [map concat length] in Hd, Hd'. rewrite app_nil_r in Hd, Hd'. rewrite Heq, Hd' in Hd.
    injection Hd as -> Hrest. f_equal. by apply IH.
Qed.

Lemma entries_ok_bounds l :
  entries_ok l → Forall (λ e, valid_utf8 (bytes (pe_name e)) = true) l → Forall entry_bounds l.
Proof.
  intros [_ Heach _ _ _] Hu. rewrite Forall_forall in *. intros e He.
  destruct (Heach e He) as [(_&_&_&Hl)%portable_path_Ok Hc]. split_and!; [apply Hl|apply Hl|done|by apply Hu].
Qed.

Section signature_properties.
  Context `{Crypto}.
  (** Signatures made with a key verify under its public key. *)
  Hypothesis sign_verifies : ∀ k m, ed25519_verify (public_key k) m (ed25519_sign k m) = true.
  Hypothesis public_key_valid : ∀ k, verifying_key_ok (public_key k) = true.

Lemma sign_developer_verifies p k p' :
  sign_developer p k = Ok p' →
  verify_developer_signature p' = Ok tt ∧ ca_entries p' = ca_entries p ∧
  store_key_id p' = None ∧ store_signature p' = None.
Proof.
  unfold sign_developer. destruct (encode_payload p) as [payload| |] eqn:Hp; [|done..]. intros [= <-].
  split_and!; [|done..]. unfold verify_developer_signature. simpl. rewrite public_key_valid. simpl.
  match goal with |- context [encode_payload ?q] => assert (encode_payload q = Ok payload) as -> end.
  { by rewrite encode_payload_iff in *. }
  by rewrite sign_verifies.
Qed.

Lemma sign_store_verifies p k p' :
  sign_store p k = Ok p' → verify_store_signature p' (public_key k) = Ok tt ∧ ca_entries p' = ca_entries p ∧
  developer_public_key p' = developer_public_key p ∧ developer_signature p' = developer_signature p.
Proof.
  unfold sign_store. destruct (verify_developer_signature p) as [[]| |] eqn:Hd; [|done..].
  destruct (encode_payload p) as [payload| |] eqn:Hp; [|done..].
  destruct (store_signature_message p payload) as [message| |] eqn:Hm; [|done..]. intros [= <-].
  split_and!; [|done..]. unfold verify_store_signature.
  assert (encode_payload (mkCApp (ca_entries p) (developer_public_key p) (developer_signature p)
    (Some (key_id (public_key k))) (Some (ed25519_sign k message))) = Ok payload) as Hp'
    by (by rewrite encode_payload_iff in *).
  unfold verify_developer_signature, store_signature_message in *. simpl. rewrite Hp'. rewrite Hp in Hd.
  destruct (developer_public_key p); simpl in *; [|done]. destruct (developer_signature p); simpl in *; [|done].
  rewrite Hd. rewrite bool_decide_true, public_key_valid by done. simpl. injection Hm as ->. by rewrite sign_verifies.
Qed.

End signature_properties.

(** What a developer signs verifies with the developer's key and is not
    approved by the Store any more; what the Store signs after it verifies with
    the Store's key; and neither signature changes an entry. *)
Theorem signed_package_verifies `{Crypto} p dk sk p1 p2 :
  (∀ k m, ed25519_verify (public_key k) m (ed25519_sign k m) = true) →
  (∀ k, verifying_key_ok (public_key k) = true) →
  sign_developer p dk = Ok p1 → sign_store p1 sk = Ok p2 →
  verify_developer_signature p1 = Ok tt ∧ store_signature p1 = None ∧
  verify_store_signature p2 (public_key sk) = Ok tt ∧ ca_entries p2 = ca_entries p.
Proof.
  intros Hs Hv (Hd&He&_&Hn)%(sign_developer_verifies Hs Hv) (Hst&He2&_&_)%(sign_store_verifies Hs Hv).
  split_and!; [done..|congruence].
Qed.

(** A Store signature covers the whole package: a key that accepts one
    signature for two packages signed one message, and then the packages have
    the same entries, the same developer and the same developer signature; and
    no message that a developer signs is one that the Store signs. *)
Theorem store_signature_binds p q mp mq s :
  capp_typed p → capp_typed q → encode_payload p = Ok mp → encode_payload q = Ok mq →
  store_signature_message p mp = Ok s →
  (store_signature_message q mq = Ok s →
     ca_entries p = ca_entries q ∧ developer_public_key p = developer_public_key q ∧
     developer_signature p = developer_signature q) ∧
  signature_message DEVELOPER_DOMAIN mq ≠ s.
Proof.
  intros [Hu1 Hk1 Hd1 _ _] [Hu2 Hk2 Hd2 _ _] [Ho1 ->]%encode_payload_iff [Ho2 ->]%encode_payload_iff.
  unfold store_signature_message.
  destruct (developer_public_key p) as [k1|]; [|done]. destruct (developer_signature p) as [d1|]; [|done].
  cbn [ok_or]. intros [= <-]. split; [|by apply not_eq_sym].
  destruct (developer_public_key q) as [k2|]; [|done]. destruct (developer_signature q) as [d2|]; [|done].
  cbn [ok_or]. intros [= Heq]. apply app_inj_1 in Heq as [-> Heq]; [|simpl in *; congruence].
  apply app_inj_1 in Heq as [-> Heq]; [|simpl in *; congruence].
  by rewrite (payload_inj _ _ (entries_ok_bounds _ Ho2 Hu2) (entries_ok_bounds _ Ho1 Hu1) Heq).
Qed.

(** A signature scheme to run the model with: the signature is the message cut
    to its length, keys are their own public keys. *)
Definition toy_crypto : Crypto :=
  {| sha256 := λ l, take 32 (l ++ replicate 32 "h"%char); public_key := λ k, k;
     ed25519_sign := λ k m, take 64 (reverse m ++ k ++ replicate 64 "s"%char); verifying_key_ok := λ _, true;
     ed25519_verify := λ k m s, bool_decide (s = take 64 (reverse m ++ k ++ replicate 64 "s"%char)) |}.
Definition developer_key : list ascii := replicate 32 "d"%char.
Definition store_key : list ascii := replicate 32 "k"%char.
Definition developer_signed : CApp :=
  match @sign_developer toy_crypto sample_package developer_key with Ok p => p | _ => sample_package end.
Definition store_signed : CApp :=
  match @sign_store toy_crypto developer_signed store_key with Ok p => p | _ => sample_package end.

Lemma signed_package_verifies_witness :
  @verify_store_signature toy_crypto store_signed store_key = Ok tt ∧ ca_entries store_signed = ca_entries sample_package.
Proof.
  destruct (@signed_package_verifies toy_crypto sample_package developer_key store_key developer_signed store_signed)
    as (_&_&Hv&He); [|done|by vm_compute|by vm_compute|by split].
  intros k m. by apply bool_decide_true.
Defined.

Lemma store_signature_binds_witness :
  signature_message DEVELOPER_DOMAIN (concat (map encode_entry (ca_entries sample_package)))
  ≠ STORE_DOMAIN ++ default [] (developer_public_key developer_signed) ++ default [] (developer_signature developer_signed)
      ++ concat (map encode_entry (ca_entries sample_package)).
Proof.
  apply (store_signature_binds developer_signed developer_signed
    (concat (map encode_entry (ca_entries sample_package))) (concat (map encode_entry (ca_entries sample_package))));
    [..|by vm_compute].
  1, 2: split; [by repeat constructor|by vm_compute|by vm_compute|done|done].
  all: by vm_compute.
Defined.
