(* ===== verification/Installer.v ===== *)
(** * The package installer (crates/cp0-appd/src/installer.rs)

    How a package file becomes an installed version: it is read once, checked
    against the Store's announcement, decoded, its signatures are checked
    against the keys on the device ([TrustPolicy]), and its entries are unpacked
    to a hidden directory that a rename turns into the version's directory.
    Disk, faults and interference are those of [HostFs], signatures those of
    [Package].  The recursion over an installed directory has fuel, one more
    than the number of names on the disk; running out of it stands for an
    exhausted stack. *)

From S2P Require Import Prelude RustStr Bytes Manifest HostFs Policy Checkpoint Package Lifecycle.

Definition DEFAULT_STORE_TRUST_DIR : string := "/etc/cardputerzero/trust/store".
Definition DEFAULT_DEVELOPER_TRUST_DIR : string := "/etc/cardputerzero/trust/developers".
Definition DEFAULT_REVOKED_KEYS_DIR : string := "/etc/cardputerzero/trust/revoked".
Definition DEVICE_SDK_MAJOR : Z := 1.
Definition DEVICE_SDK_MINOR : Z := 1.
Definition LEGACY_SDK_VERSIONS : list (Z * Z) := [(0, 1)]%Z.

Record TrustPaths := mkTrustPaths {
  store_keys : string;
  developer_keys : string;
  revoked_keys : string;
  tp_device_policy : string;
  tp_developer_mode : string;
}.

(** [impl Default for TrustPaths]. *)
Definition TrustPaths_default : TrustPaths :=
  mkTrustPaths DEFAULT_STORE_TRUST_DIR DEFAULT_DEVELOPER_TRUST_DIR DEFAULT_REVOKED_KEYS_DIR
    "/etc/cardputerzero/device-policy.json" (mp_developer DeviceModePaths_default).

Inductive TrustDecision := TrustStore | TrustDeveloperMode.
Global Instance TrustDecision_eq_dec : EqDecision TrustDecision.
Proof. solve_decision. Defined.

Record TrustPolicy := mkTrustPolicy { tp_paths : TrustPaths; tp_enforce_root : bool }.

Record PreparedInstall := mkPreparedInstall {
  pi_manifest : AppManifest;
  pi_package_dir : string;
  pi_newly_extracted : bool;
  pi_trust : TrustDecision;
}.

Inductive KeyRole := DeveloperRole | StoreRole.
Inductive InstallInvalid :=
  | InNotRegular | InTooLarge | InOwner | InSize | InChanged | InHash | InNoManifest | InIdentity
  | InNoEntrypoint | InSdkForm | InSdkMajor | InSdkMinor | InSdkIncompatible | InNoParent | InEscaped
  | InNotNormalized | InParentConflict | InSymlink | InNotUtf8 | InUnsupported | InNotDirectory
  | InNotFileOrDirectory | InWritable | InNotRoot.
Inductive InstallUntrusted :=
  | InSignature (e : PackageError) | InDeveloperKeyMissing | InPolicy (e : PolicyError) | InNoDeveloperMode
  | InRevoked (role : KeyRole) | InKeyLength (role : KeyRole) | InKeyName (role : KeyRole) | InKeyContent
  | InKeyMissing | InKeyNotRegular | InBuiltin (app_id : string).
Inductive InstallError :=
  | InIo (e : IoError)
  | InPackage (e : PackageError)
  | InManifest (e : ManifestError)
  | InInvalid (why : InstallInvalid)
  | InUntrusted (why : InstallUntrusted)
  | InAlreadyInstalled (app_id version : string).

Inductive IncomingPolicy :=
  | IncomingRoot
  | IncomingStore (owner_uid : Z) (expected_app_id expected_version : string) (expected_sha256 : list ascii)
      (expected_bytes : Z).

(** ** Checks without the disk *)

Definition validate_secure_metadata (md : Metadata) (enforce_root : bool) : result InstallError unit :=
  if bool_decide (md_kind md = Symlink)
     || (negb (bool_decide (md_kind md = RegularFile)) && negb (bool_decide (md_kind md = Directory)))
  then Err (InInvalid InNotFileOrDirectory)
  else if negb (Z.land (md_mode md) 18 =? 0)%Z then Err (InInvalid InWritable)
  else if enforce_root && negb (md_uid md =? 0)%Z then Err (InInvalid InNotRoot)
  else Ok tt.

(** [component.parse::<u32>()] of a string of digits. *)
Definition digits_value (s : string) : Z := foldl (λ v a, 10 * v + (byte_of a - 48))%Z 0%Z (bytes s).
Definition parse_u32 (s : string) : option Z :=
  if (digits_value s <=? u32_max)%Z then Some (digits_value s) else None.

Definition canonical_component (s : string) : bool :=
  negb (str_is_empty s) && bytes_all is_ascii_digit s
  && (bool_decide (s = "0") || negb (starts_with_char "0"%char s)).

Definition require_compatible_sdk (version : string) : result InstallError unit :=
  let? 'mm := ok_or (split_once "."%char version) (InInvalid InSdkForm) in
  if negb (canonical_component mm.1) || negb (canonical_component mm.2) then Err (InInvalid InSdkForm)
  else
    let? major := ok_or (parse_u32 mm.1) (InInvalid InSdkMajor) in
    let? minor := ok_or (parse_u32 mm.2) (InInvalid InSdkMinor) in
    let is_current_line := (major =? DEVICE_SDK_MAJOR)%Z && (minor <=? DEVICE_SDK_MINOR)%Z in
    let is_supported_legacy := bool_decide ((major, minor) ∈ LEGACY_SDK_VERSIONS) in
    if negb is_current_line && negb is_supported_legacy then Err (InInvalid InSdkIncompatible) else Ok tt.

Definition normalized_relative (path : string) : result InstallError string :=
  if path_is_absolute path
     || existsb (λ c, match c with Normal _ => false | _ => true end) (path_components path)
  then Err (InInvalid InNotNormalized)
  else Ok path.

(** [Path::strip_prefix], on components. *)
Fixpoint strip_components (base l : list Component) : option (list Component) :=
  match base, l with
  | [], _ => Some l
  | b :: base, c :: l => if bool_decide (b = c) then strip_components base l else None
  | _ :: _, [] => None
  end.

(** [as_os_str().to_str()] of every component, joined with slashes. *)
Fixpoint components_utf8 (l : list Component) : result InstallError (list string) :=
  match l with
  | [] => Ok []
  | c :: l =>
      let text := component_text c in
      if negb (valid_utf8 (bytes text)) then Err (InInvalid InNotUtf8)
      else let? texts := components_utf8 l in Ok (text :: texts)
  end.
Definition installed_relative (root path : string) : result InstallError string :=
  let? relative := ok_or (strip_components (path_components root) (path_components path)) (InInvalid InEscaped) in
  let? parts := components_utf8 relative in
  Ok (str_join slash parts).

(** [package.entry(path)]. *)
Definition package_entry (p : CApp) (path : string) : result InstallError (option (list ascii)) :=
  map_err (λ _, InInvalid InNoManifest) (CApp_entry p path).

Section installer.
  Context `{Host} `{Crypto} `{Codec DevicePolicy} (manifest_from_slice : list ascii → option AppManifest).

(** ** Secure files and directories *)

(** [validate_secure_directory] of the installer. *)
Definition check_secure_directory (path : string) (enforce_root : bool) : IO InstallError unit :=
  let! metadata := io_map_err InIo (fs_symlink_metadata path) in
  let! _ := io_guard (negb (bool_decide (md_kind metadata = Directory)) || bool_decide (md_kind metadata = Symlink))
                     (InInvalid InNotDirectory) in
  io_lift (validate_secure_metadata metadata enforce_root).

Definition ensure_secure_directory (path : string) (enforce_root : bool) : IO InstallError unit :=
  let! _ := io_try (fs_create_dir path 493) (λ outcome,
              match outcome with
              | Ok _ => io_ret tt
              | Err AlreadyExists => io_ret tt
              | Err error => io_err (InIo error)
              | Panicked => io_lift Panicked
              end) in
  let! _ := check_secure_directory path enforce_root in
  io_map_err InIo (fs_set_permissions path 493).

Definition read_secure_file (path : string) (enforce_root : bool) : IO InstallError (list ascii) :=
  let! metadata := io_map_err (λ e, if bool_decide (e = NotFound) then InUntrusted InKeyMissing else InIo e)
                     (fs_symlink_metadata path) in
  let! _ := io_guard (negb (bool_decide (md_kind metadata = RegularFile))) (InUntrusted InKeyNotRegular) in
  let! _ := io_lift (validate_secure_metadata metadata enforce_root) in
  io_map_err InIo (fs_read_file path).

(** ** Trust *)

Definition reject_revoked (t : TrustPolicy) (id : list ascii) (role : KeyRole) : IO InstallError unit :=
  let path := path_join (revoked_keys (tp_paths t)) (lower_hex id) in
  io_try (fs_symlink_metadata path) (λ outcome,
    match outcome with
    | Ok metadata =>
        let! _ := io_lift (validate_secure_metadata metadata (tp_enforce_root t)) in
        io_err (InUntrusted (InRevoked role))
    | Err NotFound => io_ret tt
    | Err error => io_err (InIo error)
    | Panicked => io_lift Panicked
    end).

Definition read_trusted_key (t : TrustPolicy) (directory : string) (id : list ascii) (role : KeyRole)
    : IO InstallError (list ascii) :=
  let! _ := check_secure_directory directory (tp_enforce_root t) in
  let path := path_join directory (lower_hex id +:+ ".pub") in
  let! encoded := read_secure_file path (tp_enforce_root t) in
  let! _ := io_guard (negb (length encoded =? 32)%nat) (InUntrusted (InKeyLength role)) in
  let! _ := io_guard (negb (bool_decide (key_id encoded = id))) (InUntrusted (InKeyName role)) in
  io_ret encoded.

Definition require_developer_mode (t : TrustPolicy) : IO InstallError unit :=
  let! enabled := io_map_err (λ e, InUntrusted (InPolicy e))
                    (developer_install_allowed (tp_device_policy (tp_paths t)) (tp_developer_mode (tp_paths t))
                       (tp_enforce_root t)) in
  io_guard (negb enabled) (InUntrusted InNoDeveloperMode).

Definition TrustPolicy_verify (t : TrustPolicy) (package : CApp) : IO InstallError TrustDecision :=
  let! _ := io_lift (map_err (λ e, InUntrusted (InSignature e)) (verify_developer_signature package)) in
  let! developer_key := io_lift (ok_or (developer_public_key package) (InUntrusted InDeveloperKeyMissing)) in
  let developer_id := key_id developer_key in
  let! _ := reject_revoked t developer_id DeveloperRole in
  match store_key_id package with
  | Some store_id =>
      let! _ := reject_revoked t store_id StoreRole in
      let! store_key := read_trusted_key t (store_keys (tp_paths t)) store_id StoreRole in
      let! _ := io_lift (map_err (λ e, InUntrusted (InSignature e)) (verify_store_signature package store_key)) in
      io_ret TrustStore
  | None =>
      let! _ := require_developer_mode t in
      let! trusted_developer := read_trusted_key t (developer_keys (tp_paths t)) developer_id DeveloperRole in
      let! _ := io_guard (negb (bool_decide (trusted_developer = developer_key))) (InUntrusted InKeyContent) in
      io_ret TrustDeveloperMode
  end.

(** ** Unpacking *)

(** One component of [create_directories]. *)
Definition create_component (current : string) : IO InstallError unit :=
  let! _ := io_try (fs_create_dir current 493) (λ outcome,
              match outcome with
              | Ok _ => io_ret tt
              | Err AlreadyExists =>
                  let! metadata := io_map_err InIo (fs_symlink_metadata current) in
                  io_guard (negb (bool_decide (md_kind metadata = Directory))) (InInvalid InParentConflict)
              | Err error => io_err (InIo error)
              | Panicked => io_lift Panicked
              end) in
  io_map_err InIo (fs_set_permissions current 493).

Fixpoint create_components (current : string) (l : list Component) : IO InstallError unit :=
  match l with
  | [] => io_ret tt
  | Normal part :: l =>
      let current := path_join current part in
      let! _ := create_component current in
      create_components current l
  | _ :: _ => io_err (InInvalid InNotNormalized)
  end.

Definition create_directories (root target : string) : IO InstallError unit :=
  let! relative := io_lift (ok_or (strip_components (path_components root) (path_components target))
                              (InInvalid InEscaped)) in
  create_components root relative.

Definition extract_entry (root : string) (e : PackageEntry) : IO InstallError unit :=
  let! relative := io_lift (normalized_relative (pe_name e)) in
  let destination := path_join root relative in
  let! parent := io_lift (ok_or (path_parent destination) (InInvalid InNoParent)) in
  let! _ := create_directories root parent in
  let! file := io_map_err InIo (fs_create_new destination 420) in
  let! _ := io_map_err InIo (fs_write_all file (pe_contents e)) in
  let! _ := io_map_err InIo (fs_file_set_permissions file 420) in
  io_map_err InIo (fs_sync_all file).

Fixpoint extract_entries (root : string) (l : list PackageEntry) : IO InstallError unit :=
  match l with
  | [] => io_ret tt
  | e :: l => let! _ := extract_entry root e in extract_entries root l
  end.

Definition extract_package (root : string) (package : CApp) : IO InstallError unit :=
  extract_entries root (ca_entries package).

(** ** Comparing with an installed directory *)

(** The loop over the entries of one directory; [rec] visits a subdirectory. *)
Fixpoint visit_entries (rec : string → gset string → IO InstallError (gset string)) (root : string)
    (enforce_root : bool) (entries : list string) (files : gset string) : IO InstallError (gset string) :=
  match entries with
  | [] => io_ret files
  | path :: entries =>
      let! _ := io_map_err InIo fs_next_entry in
      let! metadata := io_map_err InIo (fs_symlink_metadata path) in
      let! _ := io_lift (validate_secure_metadata metadata enforce_root) in
      let! _ := io_guard (bool_decide (md_kind metadata = Symlink)) (InInvalid InSymlink) in
      let! files := (if bool_decide (md_kind metadata = Directory) then rec path files
                     else if bool_decide (md_kind metadata = RegularFile) then
                       let! relative := io_lift (installed_relative root path) in
                       io_ret ({[relative]} ∪ files)
                     else io_err (InInvalid InUnsupported)) in
      visit_entries rec root enforce_root entries files
  end.

Fixpoint collect_installed_files (fuel : nat) (root directory : string) (files : gset string) (enforce_root : bool)
    : IO InstallError (gset string) :=
  match fuel with
  | O => io_lift Panicked
  | S fuel =>
      let! entries := io_map_err InIo (fs_read_dir directory) in
      visit_entries (λ path files, collect_installed_files fuel root path files enforce_root) root enforce_root
        entries files
  end.

Fixpoint contents_match (root : string) (l : list PackageEntry) : IO InstallError bool :=
  match l with
  | [] => io_ret true
  | e :: l =>
      let! relative := io_lift (normalized_relative (pe_name e)) in
      let! contents := io_map_err InIo (fs_read_file (path_join root relative)) in
      if negb (bool_decide (contents = pe_contents e)) then io_ret false else contents_match root l
  end.

Definition directory_fuel {E} : IO E nat := λ w, (Ok (S (size (d_names (w_disk w)))), w).

Definition directory_matches (root : string) (package : CApp) (enforce_root : bool) : IO InstallError bool :=
  let! fuel := directory_fuel in
  let! seen := collect_installed_files fuel root root ∅ enforce_root in
  let expected : gset string := list_to_set (map pe_name (ca_entries package)) in
  if negb (bool_decide (seen = expected)) then io_ret false
  else contents_match root (ca_entries package).

(** ** Installing *)

Record PackageInstaller := mkPackageInstaller {
  apps_root : string;
  trust : TrustPolicy;
  in_enforce_root : bool;
}.

(** The first part of [install_inner]: the bytes of the package file. *)
Definition read_incoming (installer : PackageInstaller) (package_path : string) (incoming : IncomingPolicy)
    : IO InstallError (list ascii) :=
  let! file := io_map_err InIo (fs_open_nofollow package_path) in
  let! metadata := io_map_err InIo (fs_file_metadata file) in
  let! _ := io_lift (validate_secure_metadata metadata
              (match incoming with IncomingRoot => in_enforce_root installer | _ => false end)) in
  let! _ := io_guard (negb (bool_decide (md_kind metadata = RegularFile))) (InInvalid InNotRegular) in
  let! _ := io_guard (MAX_PAYLOAD_BYTES + 4096 <? md_len metadata)%Z (InInvalid InTooLarge) in
  let! _ := (match incoming with
             | IncomingStore owner_uid _ _ _ expected_bytes =>
                 let! _ := io_guard (negb (md_uid metadata =? owner_uid)%Z) (InInvalid InOwner) in
                 io_guard (negb (md_len metadata =? expected_bytes)%Z) (InInvalid InSize)
             | IncomingRoot => io_ret tt
             end) in
  let! encoded := io_map_err InIo (fs_read_to_end file) in
  let! _ := io_guard (negb (Z.of_nat (length encoded) =? md_len metadata)%Z) (InInvalid InChanged) in
  let! _ := (match incoming with
             | IncomingStore _ _ _ expected_sha256 _ =>
                 io_guard (negb (bool_decide (sha256 encoded = expected_sha256))) (InInvalid InHash)
             | IncomingRoot => io_ret tt
             end) in
  io_ret encoded.

(** The second part: the package, its trust and its manifest. *)
Definition check_package (installer : PackageInstaller) (incoming : IncomingPolicy) (encoded : list ascii)
    : IO InstallError (CApp * TrustDecision * AppManifest) :=
  let! package := io_lift (map_err InPackage (CApp_decode encoded)) in
  let! decision := TrustPolicy_verify (trust installer) package in
  let! entry := io_lift (package_entry package "app.json") in
  let! contents := io_lift (ok_or entry (InInvalid InNoManifest)) in
  let! manifest := io_lift (map_err InManifest (parse_and_validate manifest_from_slice contents)) in
  let! _ := io_lift (require_compatible_sdk (m_sdk_version manifest)) in
  let! _ := io_guard (bool_decide (decision = TrustDeveloperMode) && negb (is_removable_app (m_id manifest)))
                     (InUntrusted (InBuiltin (m_id manifest))) in
  let! _ := (match incoming with
             | IncomingStore _ expected_app_id expected_version _ _ =>
                 io_guard (negb (bool_decide (m_id manifest = expected_app_id))
                           || negb (bool_decide (m_version manifest = expected_version))) (InInvalid InIdentity)
             | IncomingRoot => io_ret tt
             end) in
  let! entry := io_lift (package_entry package (m_entrypoint manifest)) in
  let! _ := io_guard (negb (bool_decide (is_Some entry))) (InInvalid InNoEntrypoint) in
  io_ret (package, decision, manifest).

Definition staging_name (version : string) (sequence : Z) : string :=
  ".install-" +:+ version +:+ "-" +:+ decimal host_pid +:+ "-" +:+ decimal sequence.

(** The last part: unpack to the staging directory and rename it. *)
Definition unpack (app_dir final_dir version : string) (package : CApp) : IO InstallError unit :=
  let! sequence := fetch_add InstallSequence in
  let staging := path_join app_dir (staging_name version sequence) in
  let! _ := io_map_err InIo (fs_create_dir staging 448) in
  let! _ := io_try (extract_package staging package) (λ outcome,
              match outcome with
              | Err error => io_try (fs_remove_dir_all staging) (λ _, io_err error)
              | _ => io_lift outcome
              end) in
  let! _ := io_map_err InIo (fs_set_permissions staging 493) in
  let! _ := io_map_err InIo (fs_sync_directory staging) in
  let! _ := io_map_err InIo (fs_rename_dir staging final_dir) in
  io_map_err InIo (fs_sync_directory app_dir).

Definition place_package (installer : PackageInstaller) (package : CApp) (decision : TrustDecision)
    (manifest : AppManifest) : IO InstallError PreparedInstall :=
  let app_dir := path_join (apps_root installer) (m_id manifest) in
  let! _ := ensure_secure_directory app_dir (in_enforce_root installer) in
  let final_dir := path_join app_dir (m_version manifest) in
  let! present := fs_exists final_dir in
  if present then
    let! same := directory_matches final_dir package (in_enforce_root installer) in
    if same then io_ret (mkPreparedInstall manifest final_dir false decision)
    else io_err (InAlreadyInstalled (m_id manifest) (m_version manifest))
  else
    let! _ := unpack app_dir final_dir (m_version manifest) package in
    io_ret (mkPreparedInstall manifest final_dir true decision).

Definition install_inner (installer : PackageInstaller) (package_path : string) (incoming : IncomingPolicy)
    : IO InstallError PreparedInstall :=
  let! _ := check_secure_directory (apps_root installer) (in_enforce_root installer) in
  let! encoded := read_incoming installer package_path incoming in
  let! checked := check_package installer incoming encoded in
  place_package installer checked.1.1 checked.1.2 checked.2.

(** [install] and [install_store]. *)
Definition PackageInstaller_install (installer : PackageInstaller) (package_path : string)
    : IO InstallError PreparedInstall :=
  install_inner installer package_path IncomingRoot.
Definition PackageInstaller_install_store (installer : PackageInstaller) (package_path : string) (owner_uid : Z)
    (expected_app_id expected_version : string) (expected_sha256 : list ascii) (expected_bytes : Z)
    : IO InstallError PreparedInstall :=
  install_inner installer package_path
    (IncomingStore owner_uid expected_app_id expected_version expected_sha256 expected_bytes).

End installer.
