(* ===== verification/InstallerTree.v ===== *)
(** * Unpacking a package

    The disk while a package is unpacked: [tree dir l d] says that the files
    below [dir] are exactly those of the entries [l], complete and synced.  The
    unpacking is followed step by step in the triples of [FsLogic]; the rename
    moves the whole tree at once. *)

From S2P Require Import Prelude RustStr Bytes Manifest HostFs FsLogic Policy Checkpoint Sandbox Package Lifecycle Installer.

(** ** Paths *)

(** A path that is neither empty nor ends with a slash. *)
Definition proper_dir (p : string) : Prop := p ≠ EmptyString ∧ ends_with_char slash p = false.

Lemma proper_join base s : plain_name s → proper_dir (path_join base s).
Proof.
  intros Hs. split.
  - rewrite path_join_plain by done. destruct Hs as [Hs _]. by destruct (join_prefix base), s.
  - apply bool_decide_eq_false_2. rewrite path_join_plain by done. rewrite last_byte_app by apply Hs.
    by apply plain_name_last.
Qed.

Lemma path_join_proper base p :
  proper_dir base → path_is_absolute p = false → path_join base p = base +:+ "/" +:+ p.
Proof. intros [Hne He] Hp. unfold path_join. rewrite Hp, He. by destruct base. Qed.

Lemma under_true dir q : under dir q = true ↔ q = dir ∨ ∃ t, q = dir +:+ "/" +:+ t.
Proof.
  unfold under, below, starts_with. rewrite orb_true_iff, !bool_decide_eq_true. split.
  - intros [->|[t Ht]]; [by left|]. apply strip_prefix_Some in Ht as ->. right. exists t. by rewrite str_app_assoc.
  - intros [->|[t ->]]; [by left|]. right. rewrite <- str_app_assoc, strip_prefix_app. eauto.
Qed.

Lemma under_join dir q p :
  proper_dir dir → under dir q = true → path_is_absolute p = false → under dir (path_join q p) = true.
Proof.
  intros Hdir [->|[t ->]]%under_true Hp; apply under_true; right.
  - exists p. by apply path_join_proper.
  - unfold path_join. rewrite Hp. destruct (_ || _); rewrite !str_app_assoc; eauto.
Qed.

Lemma normal_component_plain p s : Normal s ∈ path_components p → plain_name s.
Proof.
  intros Hin. assert (∃ part, part ∈ str_split slash p ∧ component_of part = Some (Normal s)) as (part&Hp&Hc).
  { assert (Normal s ∈ omap component_of (str_split slash p)) as Ho.
    { unfold path_components in Hin. destruct (starts_with_char _ _).
      - by apply elem_of_cons in Hin as [|].
      - destruct (str_split slash p) as [|x ps]; [done|]. case_bool_decide; [|done].
        by apply elem_of_cons in Hin as [|]. }
    apply list_elem_of_omap in Ho as (part&?&?). eauto. }
  pose proof (component_of_Normal _ _ Hc) as ->.
  pose proof (str_split_no_sep slash p) as Hns. rewrite Forall_forall in Hns.
  unfold plain_name. split_and!; [..|by apply Hns]; intros ->; by vm_compute in Hc.
Qed.

Lemma strip_components_Some base l r : strip_components base l = Some r → l = base ++ r.
Proof.
  revert l. induction base as [|b base IH]; intros l; simpl; [by intros [= ->]|].
  destruct l as [|c l]; [done|]. case_bool_decide; [|done]. subst. intros ->%IH. done.
Qed.

(** ** Trees *)

Section tree.
  Context `{Host}.

Definition entry_inode (e : PackageEntry) : Inode := mkInode RegularFile (pe_contents e) host_uid 420 true.
Definition entry_path (dir : string) (e : PackageEntry) : string := path_join dir (pe_name e).

Record tree (dir : string) (l : list PackageEntry) (d : Disk) : Prop := {
  tr_files : ∀ e, e ∈ l → file_at d (entry_path dir e) = Some (entry_inode e);
  tr_only : ∀ q, under dir q = true → is_Some (d_names d !! q) → plain_dir d q ∨ ∃ e, e ∈ l ∧ q = entry_path dir e;
}.

Lemma plain_dir_file d p : plain_dir d p ↔ ∃ n, file_at d p = Some n ∧ i_kind n = Directory.
Proof.
  unfold plain_dir, file_at. split.
  - intros (i&n&->&Hk). exists n. auto.
  - intros (n&Hf&Hk). destruct (node_at d p) as [[i m]|]; simplify_eq/=. eauto.
Qed.

Lemma file_at_new p m d q : disk_wf d → q ≠ p → file_at (new_node p m d) q = file_at d q.
Proof.
  intros [Hn _] Hq. rewrite !file_at_ino. simpl. rewrite lookup_insert_ne by done.
  destruct (d_names d !! q) as [j|] eqn:Hj; [|done]. apply Hn in Hj. by rewrite lookup_insert_ne by lia.
Qed.
Lemma file_at_new_eq p m d : file_at (new_node p m d) p = Some m.
Proof. rewrite file_at_ino. simpl. by rewrite lookup_insert_eq, lookup_insert_eq. Qed.

Lemma file_at_named d q n : file_at d q = Some n → is_Some (d_names d !! q).
Proof. rewrite file_at_ino. destruct (d_names d !! q); [eauto|done]. Qed.

(** A disk that agrees on the tree. *)
Lemma tree_ext dir l d d' :
  (∀ q, is_Some (d_names d' !! q) → is_Some (d_names d !! q)) →
  (∀ q n, file_at d q = Some n → i_kind n = RegularFile → file_at d' q = Some n) →
  (∀ q, plain_dir d q → plain_dir d' q) → tree dir l d → tree dir l d'.
Proof.
  intros Hnames Hfiles Hdirs [Hf Ho]. split.
  - intros e He. by apply Hfiles; [apply Hf|].
  - intros q Hq Hs. destruct (Ho q Hq (Hnames q Hs)); auto.
Qed.

Lemma tree_new_dir dir l d p mode :
  disk_wf d → d_names d !! p = None → tree dir l d →
  tree dir l (new_node p (mkInode Directory [] host_uid mode false) d) ∧
  plain_dir (new_node p (mkInode Directory [] host_uid mode false) d) p.
Proof.
  intros Hwf Hp [Hf Ho]. assert (∀ q n, file_at d q = Some n → q ≠ p) as Hne.
  { intros q n Hq ->. apply file_at_named in Hq. rewrite Hp in Hq. by destruct Hq. }
  split; [split|].
  - intros e He. rewrite file_at_new by (by eauto). by apply Hf.
  - intros q Hq Hs. rewrite plain_dir_file. destruct (decide (q = p)) as [->|Hqp].
    + left. rewrite file_at_new_eq. eauto.
    + simpl in Hs. rewrite lookup_insert_ne in Hs by done.
      destruct (Ho q Hq Hs) as [Hd|?]; [left|by right]. apply plain_dir_file in Hd. by rewrite file_at_new.
  - apply plain_dir_file. rewrite file_at_new_eq. eauto.
Qed.

(** Changing the permissions of a directory. *)
Lemma chmod_dir_files d i n mode q :
  d_inodes d !! i = Some n → i_kind n = Directory →
  (∀ m, file_at d q = Some m → i_kind m = RegularFile → file_at (alter_inode (set_mode mode) i d) q = Some m) ∧
  (plain_dir d q → plain_dir (alter_inode (set_mode mode) i d) q).
Proof.
  intros Hi Hk. rewrite !plain_dir_file. destruct (decide (d_names d !! q = Some i)) as [Hq|Hq].
  - rewrite file_at_alter_inode_eq by done. rewrite file_at_ino, Hq, Hi. simpl. split.
    + intros m [= <-]. by rewrite Hk.
    + intros (m&[= <-]&_). eauto.
  - rewrite file_at_alter_inode by done. auto.
Qed.

Lemma tree_chmod_dir dir l d p i n mode :
  node_at d p = Some (i, n) → i_kind n = Directory → tree dir l d →
  tree dir l (alter_inode (set_mode mode) i d).
Proof.
  intros [_ Hi]%node_at_iff Hk. apply tree_ext; [done|..].
  - intros q m. by apply (chmod_dir_files d i n).
  - intros q. by apply (chmod_dir_files d i n).
Qed.

(** The tree while the file [p] with inode [i] is being written. *)
Record writing (dir : string) (l : list PackageEntry) (p : string) (i : Z) (n : Inode) (d : Disk) : Prop := {
  wr_name : d_names d !! p = Some i;
  wr_inode : d_inodes d !! i = Some n;
  wr_single : ∀ q, d_names d !! q = Some i → q = p;
  wr_files : ∀ e, e ∈ l → entry_path dir e ≠ p ∧ file_at d (entry_path dir e) = Some (entry_inode e);
  wr_only : ∀ q, under dir q = true → is_Some (d_names d !! q) →
    q = p ∨ plain_dir d q ∨ ∃ e, e ∈ l ∧ q = entry_path dir e;
}.

Lemma writing_new dir l d p n :
  disk_wf d → d_names d !! p = None → tree dir l d → writing dir l p (d_next d) n (new_node p n d).
Proof.
  intros Hwf Hp [Hf Ho]. assert (∀ q m, file_at d q = Some m → q ≠ p) as Hne.
  { intros q m Hq ->. apply file_at_named in Hq. rewrite Hp in Hq. by destruct Hq. }
  split; simpl.
  - by rewrite lookup_insert_eq.
  - by rewrite lookup_insert_eq.
  - intros q Hq. destruct (decide (q = p)) as [|Hqp]; [done|]. rewrite lookup_insert_ne in Hq by done.
    apply Hwf in Hq. lia.
  - intros e He. pose proof (Hf e He) as Hfe. assert (entry_path dir e ≠ p) by eauto.
    split; [done|]. by rewrite file_at_new.
  - intros q Hq Hs. destruct (decide (q = p)) as [|Hqp]; [by left|]. rewrite lookup_insert_ne in Hs by done.
    right. destruct (Ho q Hq Hs) as [Hd|?]; [left|by right]. apply plain_dir_file in Hd.
    apply plain_dir_file. by rewrite file_at_new.
Qed.

Lemma writing_alter dir l p i n d f :
  writing dir l p i n d → writing dir l p i (f n) (alter_inode f i d).
Proof.
  intros [Hn Hi Hs Hf Ho]. assert (∀ q, q ≠ p → file_at (alter_inode f i d) q = file_at d q) as Hq.
  { intros q Hq. apply file_at_alter_inode. intros Hqi. by apply Hs in Hqi. }
  split; [done| |done|..].
  - simpl. by rewrite lookup_alter_eq, Hi.
  - intros e He. destruct (Hf e He) as [Hne Hfe]. split; [done|]. by rewrite Hq.
  - intros q Hu Hq'. destruct (decide (q = p)) as [|Hqp]; [by left|]. right.
    destruct (Ho q Hu Hq') as [?|[Hd|?]]; [done|left|by right]. apply plain_dir_file in Hd.
    apply plain_dir_file. by rewrite Hq.
Qed.

Lemma writing_done dir l e i d :
  writing dir l (entry_path dir e) i (entry_inode e) d → tree dir (l ++ [e]) d.
Proof.
  intros [Hn Hi Hs Hf Ho]. split.
  - intros e' [He| ->%list_elem_of_singleton]%elem_of_app; [by apply Hf|].
    rewrite file_at_ino, Hn. done.
  - intros q Hu Hq. destruct (Ho q Hu Hq) as [->|[?|(e'&?&->)]]; [right|by left|right].
    + exists e. split; [|done]. set_solver.
    + exists e'. split; [|done]. set_solver.
Qed.

End tree.

(** ** Unpacking *)

Section unpacking.
  Context `{Host} (Hquiet : quiet _) (I : Disk → Prop) (may : string → Prop) (own : Z → Prop).
  Context (Hframe : frame I may own) (Hwf : ∀ d, I d → disk_wf d).
  Context (dir : string) (Hdir : proper_dir dir) (Hmay : ∀ q, under dir q = true → may q).

Lemma create_component_tree l p :
  under dir p = true → triple I (tree dir l) (create_component p) (λ _, tree dir l).
Proof.
  intros Hp. unfold create_component. eapply (triple_bind _ _ _ _ (λ _ d, tree dir l d ∧ plain_dir d p)).
  - eapply (crash_try _ _ _ _ (λ r d, I d ∧ tree dir l d ∧ (r = Ok tt → plain_dir d p))).
    + apply crash_op; [done|by intros d e n [??]; split_and!|]. intros d [Hd Ht].
      destruct (d_names d !! p) eqn:Hn; simpl; [by split_and!|].
      destruct (tree_new_dir dir l d p 493 (Hwf d Hd) Hn Ht) as [Ht' Hpd].
      pose proof (fr_create _ _ _ Hframe d p (mkInode Directory [] host_uid 493 false) Hd (Hmay p Hp) Hn). auto.
    + intros [[]|e|].
      * apply (triple_pre _ _ (λ d, tree dir l d ∧ plain_dir d p)); [naive_solver|by apply triple_ret].
      * destruct e; [by apply (triple_stop _ _ (Err _)); [intros d []|]| |by apply (triple_stop _ _ (Err _)); [intros d []|]..].
        apply (triple_pre _ _ (tree dir l)); [naive_solver|]. eapply triple_bind; [by apply triple_map_err, triple_metadata|]. intros md. cbv beta.
        eapply triple_post; [apply triple_guard|]. intros [] d _ [[Ht (i&n&Hn&->)] Hk]. unbool_hyps.
        split; [done|]. by exists i, n.
      * by apply (triple_stop _ _ Panicked); [intros d []|].
  - intros []. apply triple_map_err. eapply (frame_chmod_dir Hquiet I may own Hframe); [by apply Hmay|by intros d []|].
    intros d i n Hd [Ht _] Hn Hk. by eapply tree_chmod_dir.
Qed.

Lemma create_components_tree l current parts :
  under dir current = true → (∀ s, Normal s ∈ parts → plain_name s) →
  triple I (tree dir l) (create_components current parts) (λ _, tree dir l).
Proof.
  revert current. induction parts as [|[| | |s] parts IH]; intros current Hc Hs; simpl;
    [by apply triple_ret|apply triple_err..|].
  assert (under dir (path_join current s) = true) as Hj.
  { apply under_join; [done..|]. apply plain_name_not_absolute, Hs. set_solver. }
  eapply triple_bind; [by apply create_component_tree|]. intros []. apply IH; [done|]. intros. apply Hs. set_solver.
Qed.

Lemma create_directories_tree l target :
  triple I (tree dir l) (create_directories dir target) (λ _, tree dir l).
Proof.
  unfold create_directories. eapply (triple_bind _ _ _ _ (λ r d, tree dir l d ∧
    strip_components (path_components dir) (path_components target) = Some r)).
  - apply triple_lift. intros r d Hr _ Ht. split; [done|]. by apply ok_or_Ok in Hr.
  - intros r w (Hw&Ht&Hr). apply strip_components_Some in Hr. eapply create_components_tree; [..|done].
    + apply under_true. by left.
    + intros s Hs. apply (normal_component_plain target). rewrite Hr. set_solver.
Qed.

Lemma extract_entry_tree l e :
  triple I (tree dir l) (extract_entry dir e) (λ _, tree dir (l ++ [e])).
Proof.
  unfold extract_entry. eapply (triple_bind _ _ _ _ (λ r d, (r = pe_name e ∧ path_is_absolute r = false) ∧ tree dir l d)).
  { apply triple_lift. intros r d Hr _ Ht. unfold normalized_relative in Hr.
    destruct (path_is_absolute (pe_name e)) eqn:Ha; [done|]. simpl in Hr. case_match; simplify_eq. auto. }
  intros r. apply triple_pure. intros [-> Habs]. cbv zeta. fold (entry_path dir e).
  assert (may (entry_path dir e)) as Hm.
  { apply Hmay, under_join; [done| |done]. apply under_true. by left. }
  eapply (triple_bind _ _ _ _ (λ _, tree dir l)); [by apply triple_lift|]. intros parent.
  eapply (triple_bind _ _ _ _ (λ _, tree dir l)); [apply create_directories_tree|]. intros [].
  eapply (triple_bind _ _ _ _ (λ i d, own i ∧ writing dir l (entry_path dir e) i (mkInode RegularFile [] host_uid 420 false) d)).
  { apply triple_map_err, triple_op; [done|done|]. intros d Hd Ht.
    destruct (d_names d !! entry_path dir e) eqn:Hn; simpl; [done|]. split.
    - by apply (fr_create _ _ _ Hframe d (entry_path dir e)).
    - intros i [= <-]. split; [by apply (fr_fresh _ _ _ Hframe)|]. by apply writing_new; [apply Hwf|..]. }
  intros i. apply triple_pure. intros Hi.
  assert (∀ (f : Inode → Inode) (partial : nat → Disk → Disk) n,
    (∀ k d, I d → I (partial k d)) → triple I (writing dir l (entry_path dir e) i n)
      (io_op partial (λ d, (Ok tt, alter_inode f i d))) (λ _ : unit, writing dir l (entry_path dir e) i (f n))) as Hstep.
  { intros f partial n Hp. apply triple_op; [done|by intros; apply Hp|]. intros d Hd Hw. split.
    - by apply (fr_alter _ _ _ Hframe).
    - intros _ _. by apply writing_alter. }
  eapply triple_bind; [apply triple_map_err, Hstep; intros; by apply (fr_alter _ _ _ Hframe)|]. intros [].
  eapply triple_bind; [by apply triple_map_err, Hstep|]. intros [].
  apply triple_map_err. eapply triple_post; [by apply Hstep|]. intros [] d _. apply writing_done.
Qed.

Lemma extract_entries_tree l k :
  triple I (tree dir l) (extract_entries dir k) (λ _, tree dir (l ++ k)).
Proof.
  revert l. induction k as [|e k IH]; intros l; simpl.
  - apply triple_ret. intros d _. by rewrite app_nil_r.
  - eapply triple_bind; [apply extract_entry_tree|]. intros []. specialize (IH (l ++ [e])).
    by rewrite <- app_assoc in IH.
Qed.

End unpacking.

(** ** Moving the tree *)

Definition renamed (from to : string) (d : Disk) : Disk :=
  with_names (list_to_map (map (λ e, (moved from to e.1, e.2)) (map_to_list (delete to (d_names d))))) d.

(** A name of the new disk, given the one name that moves there. *)
Lemma renamed_at from to d p q :
  p ≠ to → moved from to p = q → (∀ p', is_Some (d_names d !! p') → p' ≠ to → moved from to p' = q → p' = p) →
  d_names (renamed from to d) !! q = d_names d !! p.
Proof.
  intros Hp Hq Huniq. unfold renamed. cbn [with_names d_names].
  set (l := map (λ e, (moved from to e.1, e.2)) (map_to_list (delete to (d_names d)))).
  assert (∀ x, (q, x) ∈ l ↔ d_names d !! p = Some x) as Hl.
  { intros x. unfold l. rewrite list_elem_of_fmap. split.
    - intros ([p' y]&[= Hp' ->]&Hin). apply elem_of_map_to_list, lookup_delete_Some in Hin as [Hne Hin].
      by rewrite <- (Huniq p') by eauto.
    - intros Hx. exists (p, x). simpl. rewrite Hq. split; [done|]. apply elem_of_map_to_list.
      by rewrite lookup_delete_ne. }
  apply option_eq. intros x. split.
  - by intros Hx%elem_of_list_to_map_2%Hl.
  - intros Hx. apply elem_of_list_to_map'; [|by apply Hl]. intros y _ Hy%Hl. congruence.
Qed.

Section moving.
  Context (from to : string) (d : Disk) (Hne : from ≠ to) (Hfree : rename_refused d from to = false).

Lemma free_below q : below to q = true → d_names d !! q = None.
Proof.
  intros Hq. unfold rename_refused in Hfree. apply orb_false_iff in Hfree as [[_ Hf]%orb_false_iff _].
  destruct (d_names d !! q) as [i|] eqn:Hi; [|done]. exfalso.
  apply not_true_iff_false in Hf. apply Hf, existsb_exists. exists (q, i). split; [|done].
  by apply list_elem_of_In, elem_of_map_to_list.
Qed.

Lemma moved_to p t :
  is_Some (d_names d !! p) → p ≠ to → moved from to p = to +:+ t → t = EmptyString ∨ (∃ r, t = "/" +:+ r) →
  p = from +:+ t.
Proof.
  intros Hs Hp Hm Ht. unfold moved in Hm. case_bool_decide as Hpf.
  - subst. destruct t as [|a t]; [by rewrite str_app_nil_r|]. exfalso.
    apply (f_equal String.length) in Hm. rewrite str_length_app in Hm. simpl in Hm. lia.
  - destruct (strip_prefix (from +:+ "/") p) as [r|] eqn:Hr.
    + apply strip_prefix_Some in Hr as ->. apply str_app_inj_l in Hm as <-. by rewrite str_app_assoc.
    + exfalso. destruct Ht as [->|[r ->]].
      * rewrite str_app_nil_r in Hm. done.
      * rewrite free_below in Hs; [by destruct Hs|]. subst. unfold below. rewrite <- str_app_assoc. apply starts_with_app.
Qed.

Lemma renamed_under t :
  t = EmptyString ∨ (∃ r, t = "/" +:+ r) → from +:+ t ≠ to →
  d_names (renamed from to d) !! (to +:+ t) = d_names d !! (from +:+ t).
Proof.
  intros Ht Hft. apply renamed_at; [done|..].
  - unfold moved. destruct Ht as [->|[r ->]].
    + by rewrite !str_app_nil_r, bool_decide_true.
    + rewrite bool_decide_false.
      * by rewrite <- str_app_assoc, strip_prefix_app.
      * intros Hf. apply (f_equal String.length) in Hf. rewrite !str_length_app in Hf. simpl in Hf. lia.
  - intros p' Hs Hp' Hm. by apply moved_to.
Qed.

End moving.

(** The files of the tree are found at the new place. *)
Lemma tree_renamed `{Host} from to l d :
  proper_dir from → proper_dir to → from ≠ to → under from to = false → under to from = false →
  rename_refused d from to = false → Forall (λ e, path_is_absolute (pe_name e) = false) l →
  tree from l d → tree to l (renamed from to d).
Proof.
  intros Hpf Hpt Hne Hft Htf Hfree Hrel [Hf Ho].
  assert (∀ t, t = EmptyString ∨ (∃ r, t = "/" +:+ r) → from +:+ t ≠ to) as Hnt.
  { intros t Ht Heq. assert (under from to = true); [|congruence]. apply under_true.
    destruct Ht as [->|[r ->]]; [left; by rewrite str_app_nil_r in Heq|right; by exists r]. }
  assert (∀ t, t = EmptyString ∨ (∃ r, t = "/" +:+ r) → file_at (renamed from to d) (to +:+ t) = file_at d (from +:+ t))
    as Hfile.
  { intros t Ht. rewrite !file_at_ino, renamed_under by auto. done. }
  assert (∀ e, e ∈ l → entry_path from e = from +:+ "/" +:+ pe_name e ∧ entry_path to e = to +:+ "/" +:+ pe_name e) as Hep.
  { intros e He. rewrite Forall_forall in Hrel. unfold entry_path. by rewrite !path_join_proper by auto. }
  split.
  - intros e He. destruct (Hep e He) as [Hfe ->]. rewrite Hfile, <- Hfe by eauto. by apply Hf.
  - intros q Hq Hs. assert (∃ t, (t = EmptyString ∨ (∃ r, t = "/" +:+ r)) ∧ q = to +:+ t) as (t&Ht&->).
    { apply under_true in Hq as [->|[r ->]]; [exists EmptyString|exists ("/" +:+ r)]; split; eauto. by rewrite str_app_nil_r. }
    rewrite renamed_under in Hs by auto. destruct (Ho (from +:+ t)) as [Hd|(e&He&Heq)]; [|done|left|right].
    + apply under_true. destruct Ht as [->|[r ->]]; [left; by rewrite str_app_nil_r|right; by exists r].
    + apply plain_dir_file in Hd. apply plain_dir_file. by rewrite Hfile.
    + exists e. split; [done|]. destruct (Hep e He) as [Hfe ->]. rewrite Hfe in Heq. by apply str_app_inj_l in Heq as ->.
Qed.

(** A rename keeps the names that are neither below the source nor the target. *)
Lemma kept_renamed out d0 d from to :
  (∀ q, out q → under from q = false ∧ under to q = false) → kept out d0 d → kept out d0 (renamed from to d).
Proof.
  intros Hout [Hwf Hn Hf Hi]. assert (∀ q, out q → d_names (renamed from to d) !! q = d_names d !! q) as Hsame.
  { intros q [Hqf Hqt]%Hout. unfold renamed. cbn [with_names d_names]. rewrite renamed_lookup by done. by rewrite Hqf. }
  assert (∀ p i, d_names (renamed from to d) !! p = Some i → ∃ p', moved from to p' = p ∧ d_names d !! p' = Some i) as Hpre.
  { intros p i Hp. apply elem_of_list_to_map_2, list_elem_of_fmap in Hp as ([p' i']&[= -> ->]&Hin).
    apply elem_of_map_to_list, lookup_delete_Some in Hin as [_ Hin]. eauto. }
  split.
  - apply disk_wf_names; [done|]. intros p i (p'&_&?)%Hpre. eauto.
  - intros q Hq. rewrite Hsame by done. by apply Hn.
  - intros q Hq. rewrite <- Hf by done. rewrite !file_at_ino, Hsame by done. done.
  - intros p i Hp (p'&Hm&Hp')%Hpre. apply (Hi p'); [|done]. intros Ho. apply Hp. destruct (Hout p' Ho) as [Hf' _].
    rewrite moved_id in Hm by done. by subst.
Qed.

(** ** The directories of an installation *)

Section places.
  Context `{Host} (app_dir version : string).
  Context (Hdir : proper_dir app_dir) (Hplain : plain_name version) (Hdot : starts_with_char dot version = false).

Definition staging (k : Z) : string := path_join app_dir (staging_name version k).
Definition final_dir : string := path_join app_dir version.

Lemma staging_name_plain k : plain_name (staging_name version k).
Proof.
  unfold staging_name. destruct Hplain as (_&_&_&Hs). split_and!; [done..|].
  rewrite !bytes_all_app, Hs, !decimal_no_slash. done.
Qed.

Lemma staging_path k : staging k = app_dir +:+ "/" +:+ staging_name version k.
Proof. apply path_join_proper; [done|]. apply plain_name_not_absolute, staging_name_plain. Qed.
Lemma final_path : final_dir = app_dir +:+ "/" +:+ version.
Proof. apply path_join_proper; [done|]. by apply plain_name_not_absolute. Qed.

Lemma staging_name_ne k : staging_name version k ≠ version.
Proof. intros Heq. rewrite <- Heq in Hdot. done. Qed.

(** Two entries of a directory do not overlap. *)
Lemma entries_apart s t q :
  plain_name s → plain_name t → s ≠ t →
  under (app_dir +:+ "/" +:+ s) q = true → under (app_dir +:+ "/" +:+ t) q = false.
Proof.
  intros (_&_&_&Hs) (_&_&_&Ht) Hne Hq. apply not_true_iff_false. intros Hq'.
  apply under_true in Hq as [->|[r ->]]; apply under_true in Hq' as [Heq|[r' Heq]];
    rewrite ?str_app_assoc in Heq; do 2 apply str_app_inj_l in Heq.
  - done.
  - rewrite Heq in Hs. by apply (plain_no_slash _ t r') in Hs.
  - rewrite <- Heq in Ht. by apply (plain_no_slash _ s r) in Ht.
  - by apply (plain_app_slash s t r r') in Heq as [??].
Qed.

Lemma staging_final k q : under (staging k) q = true → under final_dir q = false.
Proof. rewrite staging_path, final_path. apply entries_apart; [apply staging_name_plain|done|apply staging_name_ne]. Qed.

Lemma entry_not_above s : under (app_dir +:+ "/" +:+ s) app_dir = false.
Proof.
  apply not_true_iff_false. intros [Heq|[r Heq]]%under_true; apply (f_equal String.length) in Heq;
    rewrite !str_length_app in Heq; simpl in Heq; lia.
Qed.

(** Everything but the application directory itself and what may be staged. *)
Definition unstaged (q : string) : Prop := q ≠ app_dir ∧ ∀ k, under (staging k) q = false.
(** ... and the directory of the version. *)
Definition untouched (q : string) : Prop := unstaged q ∧ under final_dir q = false.

End places.

(** ** The disks of an installation *)

Definition no_hard_links (d : Disk) : Prop := ∀ p q i, d_names d !! p = Some i → d_names d !! q = Some i → p = q.
(** Nothing lies below an absolute path that is not there. *)
Definition no_orphans (d : Disk) : Prop :=
  ∀ p q, path_is_absolute p = true → below p q = true → d_names d !! p = None → d_names d !! q = None.

Lemma kept_start out d : disk_wf d → no_hard_links d → kept out d d.
Proof.
  intros Hwf Hl. split; [done..|]. intros p i Hp Hi q Hq Hqi. apply Hp. by rewrite (Hl p q i Hi Hqi).
Qed.

Lemma kept_fewer (out out' : string → Prop) d0 d :
  no_hard_links d0 → (∀ q, out' q → out q) → kept out d0 d → kept out' d0 d.
Proof.
  intros Hl Hsub [Hwf Hn Hf Hi]. split; [done|auto..|]. intros p i Hp Hpi q Hq Hqi.
  refine (Hi p i _ Hpi q (Hsub q Hq) Hqi). intros Ho.
  rewrite Hn in Hpi by done. apply Hp. by rewrite (Hl p q i Hpi Hqi).
Qed.

Section unpack.
  Context `{Host} (Hquiet : quiet _) (d0 : Disk) (Hlinks : no_hard_links d0).
  Context (app_dir version : string) (package : CApp).
  Context (Habs : path_is_absolute app_dir = true).
  Context (Hdir : proper_dir app_dir) (Hplain : plain_name version) (Hdot : starts_with_char dot version = false).
  Context (Hrel : Forall (λ e, path_is_absolute (pe_name e) = false) (ca_entries package)).
  Local Notation staging := (staging app_dir version).
  Local Notation final := (final_dir app_dir version).

(** Before the rename, and after it. *)
Definition pristine (d : Disk) : Prop := kept (unstaged app_dir version) d0 d.
Definition complete (d : Disk) : Prop :=
  kept (untouched app_dir version) d0 d ∧ tree final (ca_entries package) d.

Lemma pristine_frame k :
  frame pristine (λ p, ¬ unstaged app_dir version p) (inside_inode (unstaged app_dir version) d0) ∧
  ∀ q, under (staging k) q = true → ¬ unstaged app_dir version q.
Proof.
  split; [apply kept_frame|]. intros q Hq [_ Ho]. by rewrite Ho in Hq.
Qed.

(** No entry of the application directory has anything below it unless it is there. *)
Definition no_strays (d : Disk) : Prop :=
  ∀ k q, below (staging k) q = true → d_names d !! staging k = None → d_names d !! q = None.

Lemma staging_created k :
  triple pristine no_strays (fs_create_dir (staging k) 448) (λ _, tree (staging k) []).
Proof.
  destruct (pristine_frame k) as [Hframe Hmay]. assert (under (staging k) (staging k) = true) as Hu by (apply under_true; by left).
  apply triple_op; [done|done|]. intros d Hd Hs. destruct (d_names d !! staging k) eqn:Hn; simpl; [done|].
  pose proof (fr_create _ _ _ Hframe d (staging k) (mkInode Directory [] host_uid 448 false) Hd (Hmay _ Hu) Hn) as Hd'.
  split; [done|]. intros _ _. apply tree_new_dir; [apply Hd|done|]. split; [by intros e ?%elem_of_nil|].
  intros q Hq [i Hi]. exfalso. apply under_true in Hq as [->|[t ->]]; [congruence|].
  rewrite (Hs k) in Hi; [done| |done]. unfold below. rewrite <- str_app_assoc. apply starts_with_app.
Qed.

Lemma extracted k :
  triple pristine (tree (staging k) [])
    (io_try (extract_package (staging k) package) (λ outcome,
       match outcome with
       | Err error => io_try (fs_remove_dir_all (staging k)) (λ _, io_err error)
       | _ => io_lift outcome
       end))
    (λ _, tree (staging k) (ca_entries package)).
Proof.
  destruct (pristine_frame k) as [Hframe Hmay].
  eapply (crash_try _ _ _ _ (λ r d, pristine d ∧ ∀ a, r = Ok a → tree (staging k) (ca_entries package) d)).
  - eapply (extract_entries_tree Hquiet pristine _ _ Hframe); [by intros d []|apply proper_join|exact Hmay].
    by apply staging_name_plain.
  - intros [[]|e|].
    + apply (triple_pre _ _ (tree (staging k) (ca_entries package))); [naive_solver|by apply triple_lift].
    + eapply (triple_pre _ _ (λ _, True)); [naive_solver|].
      eapply (triple_post _ _ _ (λ _ _, False)); [|done]. apply safe_triple. eapply safe_or; [by eapply frame_remove_dir_all|]. intros r. apply safe_err.
    + by apply (triple_stop _ _ Panicked); [intros d []|].
Qed.

(** The permissions of the staging directory itself. *)
Lemma staging_opened k :
  triple pristine (tree (staging k) (ca_entries package)) (fs_set_permissions (staging k) 493)
    (λ _, tree (staging k) (ca_entries package)).
Proof.
  destruct (pristine_frame k) as [Hframe Hmay]. assert (under (staging k) (staging k) = true) as Hu by (apply under_true; by left).
  apply triple_op; [done|done|]. intros d Hd Ht. destruct (resolve 40 d (staging k)) as [[i n]|] eqn:Hr; [|done].
  assert (is_Some (d_names d !! staging k)) as Hs.
  { simpl in Hr. unfold node_at in Hr. by destruct (d_names d !! staging k). }
  destruct (tr_only _ _ _ Ht _ Hu Hs) as [(j&m&Hn&Hk)|(e&He&Heq)].
  - rewrite (resolve_node _ _ _ _ _ Hn) in Hr by (by rewrite Hk). injection Hr as <- <-. simpl. split.
    + apply (fr_alter _ _ _ Hframe); [done|]. apply (fr_open _ _ _ Hframe d (staging k) j m); auto.
    + intros _ _. by eapply tree_chmod_dir.
  - exfalso. rewrite Forall_forall in Hrel. unfold entry_path in Heq.
    rewrite path_join_proper in Heq by (apply proper_join, staging_name_plain || auto; done).
    apply (f_equal String.length) in Heq. rewrite !str_length_app in Heq. simpl in Heq. lia.
Qed.

(** The rename: the tree appears at once. *)
Lemma placed k :
  crash_spec (λ d, pristine d ∧ tree (staging k) (ca_entries package) d) (fs_rename_dir (staging k) final)
    (λ d, pristine d ∨ complete d) (λ r d, (pristine d ∨ complete d) ∧ (r = Ok tt → complete d)).
Proof.
  assert (∀ q, under (staging k) q = true → under final q = false) as Hsf by (intros q; by apply staging_final).
  assert (under (staging k) final = false) as Hf1.
  { destruct (under (staging k) final) eqn:Hu; [|done]. apply Hsf in Hu. unfold under in Hu. by rewrite bool_decide_true in Hu. }
  assert (under final (staging k) = false) as Hf2 by (apply Hsf; unfold under; by rewrite bool_decide_true).
  assert (staging k ≠ final) as Hne by (intros Heq; rewrite Heq in Hf1; unfold under in Hf1; by rewrite bool_decide_true in Hf1).
  apply crash_op; [done|intros d e n [Hd _]; split_and!; auto; by intros|]. intros d [Hd Ht].
  destruct (d_names d !! staging k) eqn:Hn; [|by split_and!; auto]. rewrite bool_decide_false by done.
  destruct (rename_refused d (staging k) final) eqn:Hr; [by split_and!; auto|]. cbn [fst snd]. fold (renamed (staging k) final d).
  assert (complete (renamed (staging k) final d)) as Hc; [|by split_and!; auto]. split.
  - apply kept_renamed; [by intros q [[_ Hq] Hq']|].
    eapply (kept_fewer (unstaged app_dir version)); [done|by intros q []|exact Hd].
  - apply tree_renamed; [apply proper_join; by apply staging_name_plain|by apply proper_join|done..].
Qed.

Lemma unpack_atomic :
  crash_spec (λ d, pristine d ∧ no_strays d) (unpack app_dir final version package)
    (λ d, pristine d ∨ complete d) (λ r d, (pristine d ∨ complete d) ∧ (r = Ok tt → complete d)).
Proof.
  unfold unpack. eapply (crash_bind _ _ _ _ (λ r d, (∃ k, r = Ok k) ∧ pristine d ∧ no_strays d));
    [apply crash_fetch_add|..|by intros e d [[??] _]|by intros d [[??] _]].
  intros k. cbv zeta. fold (staging k). destruct (pristine_frame k) as [Hframe Hmay].
  eapply crash_consequence; [|intros d [_ Hd]; exact Hd|intros r d Hr; exact Hr].
  assert (∀ e d, pristine d → (pristine d ∨ complete d) ∧ (Err (A := unit) (e : InstallError) = Ok tt → complete d)) as Hno
    by (intros; split; [by left|done]).
  eapply triple_then; [by apply triple_map_err, staging_created|intros []|by left|done|by intros; split; [left|]].
  eapply triple_then; [by apply extracted|intros []|by left|done|by intros; split; [left|]].
  eapply triple_then; [by apply triple_map_err, staging_opened|intros []|by left|done|by intros; split; [left|]].
  eapply triple_then; [by apply triple_map_err, triple_sync_directory|intros []|by left|done|by intros; split; [left|]].
  eapply (crash_bind _ _ _ _ (λ r d, (pristine d ∨ complete d) ∧ (r = Ok tt → complete d)));
    [apply crash_map_err|intros []|by intros e d []|by intros d []].
  - eapply crash_consequence; [apply placed|done|]. intros r d [Hd Hr]. split; [done|]. intros Ha. apply Hr. by destruct r as [[]| |].
  - eapply crash_consequence; [eapply crash_weaken; [apply (triple_map_err complete), (triple_sync_directory Hquiet complete (λ _, True))|by right]| |].
    + intros d [_ Hd]. split; [by apply Hd|done].
    + intros r d [Hd _]. split; [by right|done].
Qed.

End unpack.
