(* ===== verification/InstallerMatch.v ===== *)
(** * Comparing an installed directory with a package

    [directory_matches] answers yes only when the files below the directory are
    exactly the entries of the package: the walk sees every name, and the
    relative paths it collects determine the names. *)

From S2P Require Import Prelude RustStr Bytes Manifest HostFs FsLogic Policy Checkpoint Sandbox Package Lifecycle Installer InstallerTree.

(** What every file system gives below [dir]: a name with something below it is
    a directory, and no entry is called [.] or [..]. *)
Record shaped (dir : string) (d : Disk) : Prop := {
  sh_dirs : ∀ p q, under dir p = true → below p q = true → is_Some (d_names d !! q) → is_directory d p = true;
  sh_plain : ∀ p s, under dir p = true → is_Some (d_names d !! (p +:+ "/" +:+ s)) →
    bytes_all (λ a, negb (bool_decide (a = slash))) s = true → plain_name s;
}.

(** The files below [dir] are those of the entries [l]. *)
Record holds (dir : string) (l : list PackageEntry) (d : Disk) : Prop := {
  ho_files : ∀ e, e ∈ l → ∃ n, file_at d (entry_path dir e) = Some n ∧ i_kind n = RegularFile ∧ i_data n = pe_contents e;
  ho_only : ∀ q, below dir q = true → is_Some (d_names d !! q) → plain_dir d q ∨ ∃ e, e ∈ l ∧ q = entry_path dir e;
}.

Lemma tree_holds `{Host} dir l d : tree dir l d → holds dir l d.
Proof.
  intros [Hf Ho]. split.
  - intros e He. eexists. by rewrite Hf.
  - intros q Hq. apply Ho. unfold under. by rewrite Hq, orb_true_r.
Qed.

Lemma below_Some dir q : below dir q = true ↔ ∃ t, q = dir +:+ "/" +:+ t.
Proof.
  unfold below, starts_with. rewrite bool_decide_eq_true. split.
  - intros [t Ht]. apply strip_prefix_Some in Ht as ->. exists t. by rewrite str_app_assoc.
  - intros [t ->]. rewrite <- str_app_assoc, strip_prefix_app. eauto.
Qed.

Lemma below_absolute dir q : path_is_absolute dir = true → below dir q = true → path_is_absolute q = true.
Proof. intros Hd [t ->]%below_Some. unfold path_is_absolute in *. rewrite starts_with_char_app; [done|]. by intros ->. Qed.

Lemma below_trans a b c : below a b = true → below b c = true → below a c = true.
Proof. rewrite !below_Some. intros [t ->] [u ->]. exists (t +:+ "/" +:+ u). by rewrite !str_app_assoc. Qed.

(** Below a directory: an entry of it, or below one. *)
Lemma below_child (t : string) :
  ∃ s, bytes_all (λ a, negb (bool_decide (a = slash))) s = true ∧
    (t = s ∨ ∃ u, t = s +:+ "/" +:+ u).
Proof.
  induction t as [|a t (s&Hs&Ht)]; [exists EmptyString; auto|].
  destruct (decide (a = slash)) as [->|Ha]; [exists EmptyString; split; [done|right; by exists t]|].
  exists (String a s). rewrite bytes_all_cons, Hs, bool_decide_eq_false_2 by done. split; [done|].
  destruct Ht as [->|[u ->]]; [by left|right]. by exists u.
Qed.

Lemma resolve_inode fuel d p i n : resolve fuel d p = Some (i, n) → d_inodes d !! i = Some n.
Proof.
  revert p. induction fuel as [|fuel IH]; intros p; simpl; destruct (node_at d p) as [[j m]|] eqn:Hn; try done.
  all: case_bool_decide; [eauto; done|intros [= <- <-]; by apply node_at_iff in Hn as [_ ?]].
Qed.

Lemma components_utf8_no_panic l : components_utf8 l ≠ Panicked.
Proof.
  induction l as [|c l IH]; simpl; [done|]. destruct (negb _); [done|]. by destruct (components_utf8 l).
Qed.
Lemma installed_relative_no_panic root p : installed_relative root p ≠ Panicked.
Proof.
  unfold installed_relative. destruct (strip_components _ _) as [r|]; [|done]. simpl.
  pose proof (components_utf8_no_panic r). by destruct (components_utf8 r).
Qed.

Section walk.
  Context `{Host} (Hquiet : quiet _) (d : Disk) (root : string) (Hshape : shaped root d) (enforce_root : bool).
  Context (Habs : path_is_absolute root = true).
  Local Notation exactly := (safe (λ d', d' = d)).
  Implicit Types files : gset string.

Definition visited (q : string) files : Prop :=
  ∃ n, file_at d q = Some n ∧
    (i_kind n = Directory ∨ i_kind n = RegularFile ∧ ∃ r, installed_relative root q = Ok r ∧ r ∈ files).
Definition genuine (r : string) : Prop :=
  ∃ q n, below root q = true ∧ file_at d q = Some n ∧ i_kind n = RegularFile ∧ installed_relative root q = Ok r.

Record walked (todo : string → Prop) files files' : Prop := {
  wk_more : files ⊆ files';
  wk_all : ∀ q, todo q → is_Some (d_names d !! q) → visited q files';
  wk_genuine : ∀ r, r ∈ files' → r ∈ files ∨ genuine r;
}.

Lemma visited_more q files files' : files ⊆ files' → visited q files → visited q files'.
Proof. intros Hsub (n&Hn&[?|(?&r&?&?)]); exists n; eauto 10. Qed.

Lemma visit_exact rec entries files :
  (∀ p fs, below root p = true → exactly (rec p fs) (walked (λ q, below p q = true) fs)) →
  (∀ p, p ∈ entries → below root p = true) →
  exactly (visit_entries rec root enforce_root entries files)
    (walked (λ q, ∃ p, p ∈ entries ∧ under p q = true) files).
Proof.
  intros Hrec. revert files. induction entries as [|p entries IH]; intros files Hin; simpl.
  - apply safe_ret. split; [done| |by left]. intros q (p&Hp&_). by apply elem_of_nil in Hp.
  - assert (below root p = true) as Hp by (apply Hin; set_solver).
    eapply (safe_bind _ _ _ (λ _, True)); [by apply safe_map_err, safe_fs_next_entry|]. intros _ _.
    eapply safe_bind; [by apply safe_map_err, exact_metadata|]. intros md (i&n&Hn&->).
    assert (file_at d p = Some n) as Hf by (unfold file_at; by rewrite Hn).
    do 2 (eapply (safe_bind _ _ _ (λ _, True)); [by apply safe_lift|intros _ _]). cbn [metadata_of md_kind].
    eapply (safe_bind _ _ _ (walked (λ q, under p q = true) files)).
    + case_bool_decide as Hk; [|case_bool_decide as Hk'; [|apply safe_err]].
      * eapply safe_weaken; [by apply Hrec|]. intros files' [H1 H2 H3]. split; [done| |done].
        intros q Hq Hs. unfold under in Hq. apply orb_true_iff in Hq as [->%bool_decide_eq_true|Hq]; [|by apply H2].
        exists n. auto.
      * eapply (safe_bind _ _ _ (λ r, installed_relative root p = Ok r)); [by apply safe_lift|]. intros r Hr.
        apply safe_ret. split; [set_solver|..].
        -- intros q Hq Hs. unfold under in Hq. apply orb_true_iff in Hq as [->%bool_decide_eq_true|Hq].
           ++ exists n. split; [done|]. right. split; [done|]. exists r. split; [done|set_solver].
           ++ exfalso. apply (sh_dirs _ _ Hshape) in Hq; [|unfold under; by rewrite Hp, orb_true_r|done].
              unfold is_directory in Hq. rewrite Hn in Hq. by rewrite bool_decide_false in Hq.
        -- intros r' [->%elem_of_singleton|?]%elem_of_union; [|by left]. right. by exists p, n.
    + intros files1 [H1 H2 H3]. eapply safe_weaken; [apply IH; intros; apply Hin; set_solver|].
      intros files' [H1' H2' H3']. split; [set_solver|..].
      * intros q (p'&Hp'&Hq) Hs. apply elem_of_cons in Hp' as [->|Hp']; [|by apply H2'; eauto].
        eapply visited_more; [exact H1'|]. by apply H2.
      * intros r Hr. destruct (H3' r Hr) as [Hr'|?]; [|by right]. by apply H3.
Qed.

Lemma collect_exact fuel dir files :
  under root dir = true →
  exactly (collect_installed_files fuel root dir files enforce_root) (walked (λ q, below dir q = true) files).
Proof.
  revert dir files. induction fuel as [|fuel IH]; intros dir files Hd; simpl; [by apply safe_lift|].
  assert (∀ q, below dir q = true → below root q = true) as Hdb.
  { intros q Hq. unfold under in Hd. apply orb_true_iff in Hd as [->%bool_decide_eq_true|Hd]; [done|by eapply below_trans]. }
  eapply safe_bind; [by apply safe_map_err, safe_fs_read_dir|]. intros entries (d'&->&Hent).
  eapply safe_weaken; [apply visit_exact|].
  - intros p fs Hp. apply IH. unfold under. by rewrite Hp, orb_true_r.
  - intros p [_ Hp]%Hent. apply Hdb. unfold child_of in Hp. unfold below, starts_with.
    destruct (strip_prefix _ p); [by rewrite bool_decide_true|done].
  - intros files' [H1 H2 H3]. split; [done| |done]. intros q Hq Hs. apply H2; [|done].
    apply below_Some in Hq as [t ->]. destruct (below_child t) as (s&Hss&Ht).
    exists (dir +:+ "/" +:+ s). assert (is_Some (d_names d !! (dir +:+ "/" +:+ s))) as Hds.
    { destruct Ht as [->|[u ->]]; [done|]. apply (sh_dirs _ _ Hshape (dir +:+ "/" +:+ s)) in Hs.
      - unfold is_directory, node_at in Hs. by destruct (d_names d !! (dir +:+ "/" +:+ s)).
      - unfold under. rewrite Hdb, orb_true_r; [done|]. apply below_Some. eauto.
      - apply below_Some. exists u. by rewrite !str_app_assoc. }
    split.
    + apply Hent. split; [done|]. unfold child_of. rewrite <- str_app_assoc, strip_prefix_app, Hss, andb_true_r.
      apply (sh_plain _ _ Hshape) in Hds as (Hne&_); [|done..]. by destruct s.
    + apply under_true. destruct Ht as [->|[u ->]]; [by left|right]. exists u. by rewrite !str_app_assoc.
Qed.

(** ** The fuel is enough *)

Definition names_below (p : string) : gmap string Z := filter (λ e, below p e.1 = true) (d_names d).

Lemma names_below_child dir p :
  below dir p = true → is_Some (d_names d !! p) → (size (names_below p) < size (names_below dir))%nat.
Proof.
  intros Hp [i Hi]. apply map_subset_size. split.
  - apply map_subseteq_spec. intros q j [Hq Hb]%map_lookup_filter_Some. apply map_lookup_filter_Some.
    split; [done|]. by eapply below_trans.
  - intros Hsub. assert (names_below dir !! p = Some i) as Hin by (by apply map_lookup_filter_Some).
    eapply map_subseteq_spec in Hin; [|exact Hsub]. apply map_lookup_filter_Some in Hin as [_ Hin].
    apply below_Some in Hin as [t Ht]. simpl in Ht. apply (f_equal String.length) in Ht.
    rewrite !str_length_app in Ht. simpl in Ht. lia.
Qed.

Lemma visit_no_panic rec entries files :
  (∀ p fs, p ∈ entries → no_panic_on d (rec p fs)) →
  (∀ p fs, safe (λ d', d' = d) (rec p fs) (λ _, True)) →
  no_panic_on d (visit_entries rec root enforce_root entries files).
Proof.
  intros Hnp Hrec. revert files. induction entries as [|p entries IH]; intros files; simpl; [by intros w _|].
  eapply (no_panic_bind _ _ _ (λ _, True)); [by apply safe_map_err, safe_fs_next_entry| |intros _ _].
  { apply never_panics_on, never_panics_map_err, never_panics_op. done. }
  eapply (no_panic_bind _ _ _ (λ _, True)); [by apply safe_map_err, safe_metadata| |intros md _].
  { apply never_panics_on, never_panics_map_err, fs_symlink_metadata_np. }
  eapply (no_panic_bind _ _ _ (λ _, True)); [by apply safe_lift| |intros _ _].
  { apply never_panics_on, never_panics_lift. unfold validate_secure_metadata. by repeat case_match. }
  eapply (no_panic_bind _ _ _ (λ _, True)); [by apply safe_lift| |intros _ _].
  { apply never_panics_on, never_panics_lift. by case_match. }
  eapply (no_panic_bind _ _ _ (λ _, True)).
  - case_bool_decide; [apply Hrec|]. case_bool_decide; [|apply safe_err].
    eapply (safe_bind _ _ _ (λ _, True)); [by apply safe_lift|]. intros. by apply safe_ret.
  - case_bool_decide; [apply Hnp; set_solver|]. case_bool_decide; [|by intros w _].
    eapply (no_panic_bind _ _ _ (λ _, True)); [by apply safe_lift| |by intros r _ w _].
    apply never_panics_on, never_panics_lift, installed_relative_no_panic.
  - intros fs _. apply IH. intros p' fs' Hp'. apply Hnp. set_solver.
Qed.

Lemma collect_safe fuel dir files : exactly (collect_installed_files fuel root dir files enforce_root) (λ _, True).
Proof.
  revert dir files. induction fuel as [|fuel IH]; intros dir files; simpl; [by apply safe_lift|].
  eapply (safe_bind _ _ _ (λ _, True)); [by apply safe_map_err, safe_list|]. intros entries _. revert files.
  induction entries as [|p entries IHe]; intros files; simpl; [by apply safe_ret|].
  safe_steps. all: try apply IH. all: apply IHe.
Qed.

Lemma collect_no_panic fuel dir files :
  (size (names_below dir) < fuel)%nat →
  no_panic_on d (collect_installed_files fuel root dir files enforce_root).
Proof.
  revert dir files. induction fuel as [|fuel IH]; intros dir files Hf; [lia|]. cbn [collect_installed_files].
  eapply no_panic_bind; [by apply safe_map_err, safe_fs_read_dir| |].
  { apply never_panics_on, never_panics_map_err, never_panics_op. intros d'. by repeat case_match. }
  intros entries (d'&->&Hent). apply visit_no_panic; [|intros; apply collect_safe].
  intros p fs Hp. apply Hent in Hp as [Hs Hc]. apply IH.
  assert (below dir p = true) as Hb.
  { unfold child_of in Hc. unfold below, starts_with. destruct (strip_prefix _ p); [by rewrite bool_decide_true|done]. }
  pose proof (names_below_child dir p Hb Hs). lia.
Qed.

(** ** Relative paths *)

Lemma parts_plain n p t :
  (String.length t < n)%nat → under root p = true → is_Some (d_names d !! (p +:+ "/" +:+ t)) →
  Forall plain_name (str_split slash t).
Proof.
  revert p t. induction n as [|n IH]; intros p t Hn Hp Hs; [lia|].
  destruct (below_child t) as (s&Hss&[->|[u ->]]).
  - rewrite str_split_single by done. constructor; [|done]. by apply (sh_plain _ _ Hshape p).
  - assert (under root (p +:+ "/" +:+ s) = true) as Hps.
    { apply under_true. apply under_true in Hp as [->|[r ->]]; right; [by exists s|].
      exists (r +:+ "/" +:+ s). by rewrite !str_app_assoc. }
    assert (is_Some (d_names d !! (p +:+ "/" +:+ s))) as Hds.
    { apply (sh_dirs _ _ Hshape (p +:+ "/" +:+ s)) in Hs; [|done|apply below_Some; exists u; by rewrite !str_app_assoc].
      unfold is_directory, node_at in Hs. by destruct (d_names d !! (p +:+ "/" +:+ s)). }
    change (s +:+ "/" +:+ u) with (s +:+ String slash u).
    rewrite (str_split_app slash s u), str_split_single by done. constructor; [by apply (sh_plain _ _ Hshape p)|].
    apply (IH (p +:+ "/" +:+ s)); [|done|by rewrite !str_app_assoc].
    rewrite !str_length_app in Hn. simpl in Hn. lia.
Qed.

Lemma normal_components ps :
  Forall plain_name ps → omap component_of ps = map Normal ps.
Proof.
  induction 1 as [|s ps Hs _ IH]; [done|]. cbn [omap list_omap map]. rewrite component_of_plain by done. by f_equal.
Qed.

Lemma components_utf8_Ok ps texts : components_utf8 (map Normal ps) = Ok texts → texts = ps.
Proof.
  revert texts. induction ps as [|s ps IH]; intros texts; simpl; [by intros [= <-]|].
  destruct (negb _); [done|]. destruct (components_utf8 _) as [ts| |]; [|done..]. intros [= <-]. by rewrite (IH ts).
Qed.

Lemma strip_components_app base r : strip_components base (base ++ r) = Some r.
Proof. induction base as [|b base IH]; simpl; [done|]. by rewrite bool_decide_true. Qed.

Lemma installed_relative_path t r :
  proper_dir root → is_Some (d_names d !! (root +:+ "/" +:+ t)) →
  installed_relative root (root +:+ "/" +:+ t) = Ok r → r = t.
Proof.
  intros Hroot Hs. pose proof (parts_plain (S (String.length t)) root t ltac:(lia) ltac:(apply under_true; by left) Hs) as Hps.
  assert (path_is_absolute t = false ∧ head (str_split slash t) ≠ Some ".") as [Hrel Hdot].
  { pose proof (str_split_nonempty slash t) as Hne. pose proof (str_join_split slash t) as Hj.
    destruct (str_split slash t) as [|s ps]; [done|]. apply Forall_cons in Hps as [Hs' _]. split.
    - rewrite <- Hj. apply plain_name_not_absolute in Hs' as Hna. unfold path_is_absolute in *. simpl.
      destruct Hs' as (Hs'&_). destruct ps; [done|]. by rewrite starts_with_char_app.
    - simpl. intros [= ->]. by destruct Hs' as (_&?&_). }
  unfold installed_relative. rewrite <- path_join_proper by done.
  rewrite path_components_join_rel, strip_components_app by done. cbn [ok_or].
  rewrite path_components_relative, normal_components by done.
  destruct (components_utf8 _) as [texts| |] eqn:Ht; [|done..]. apply components_utf8_Ok in Ht as ->.
  intros [= <-]. apply str_join_split.
Qed.

(** ** The comparison *)

Lemma contents_exact l :
  exactly (contents_match root l) (λ b, b = true → ∀ e, e ∈ l →
    ∃ i n, resolve 40 d (entry_path root e) = Some (i, n) ∧ i_data n = pe_contents e).
Proof.
  induction l as [|e l IH]; simpl; [apply safe_ret; by intros _ e ?%elem_of_nil|].
  eapply (safe_bind _ _ _ (λ r, r = pe_name e)).
  { apply safe_lift. intros r Hr. unfold normalized_relative in Hr. by case_match; simplify_eq. }
  intros _ ->. fold (entry_path root e).
  eapply (safe_bind _ _ _ (λ bs, ∃ i n, resolve 40 d (entry_path root e) = Some (i, n) ∧ i_data n = bs)).
  { apply safe_map_err. eapply safe_bind; [by apply exact_open|]. intros i (n&Hr).
    eapply safe_weaken; [by apply exact_read_to_end|]. intros bs (m&Hm&->). exists i, n. split; [done|].
    assert (d_inodes d !! i = Some n) as Hi; [|congruence]. by eapply resolve_inode. }
  intros bs (i&n&Hr&Hd). case_bool_decide as Heq; simpl; [|by apply safe_ret]. subst bs.
  eapply safe_weaken; [apply IH|]. intros b Hb Ht e' [->|He]%elem_of_cons; [|by apply Hb]. by exists i, n.
Qed.

Lemma matches_exact package :
  proper_dir root → Forall (λ e, path_is_absolute (pe_name e) = false) (ca_entries package) →
  exactly (directory_matches root package enforce_root) (λ b, b = true → holds root (ca_entries package) d).
Proof.
  intros Hroot Hrel. unfold directory_matches. rewrite Forall_forall in Hrel.
  assert (∀ e, e ∈ ca_entries package → entry_path root e = root +:+ "/" +:+ pe_name e) as Hep.
  { intros e He. apply path_join_proper; auto. }
  apply (safe_bind _ _ _ (λ _, True)); [by intros w Hw; exists []|]. intros fuel _.
  eapply safe_bind; [apply collect_exact; apply under_true; by left|]. intros seen [_ Hall Hgen].
  case_bool_decide as Hseen; simpl; [|by apply safe_ret]. subst seen.
  eapply safe_weaken; [apply contents_exact|]. intros b Hb Ht. split.
  - intros e He. destruct (Hb Ht e He) as (i&n&Hr&Hd). destruct (Hgen (pe_name e)) as [?|(q&m&Hq&Hf&Hk&Hrq)].
    { rewrite elem_of_list_to_set, list_elem_of_fmap. eauto. }
    { set_solver. }
    apply below_Some in Hq as [t ->]. pose proof (installed_relative_path t _ Hroot (file_at_named _ _ _ Hf) Hrq) as Ht'.
    rewrite Hep in Hr |- * by done. rewrite Ht' in Hr |- *. exists m. split_and!; [done..|].
    unfold file_at in Hf. destruct (node_at d (root +:+ "/" +:+ t)) as [[j m']|] eqn:Hn; [|done]. injection Hf as ->.
    rewrite (resolve_node _ _ _ _ _ Hn) in Hr by (by rewrite Hk). congruence.
  - intros q Hq Hs. destruct (Hall q Hq Hs) as (n&Hf&[Hk|(Hk&r&Hr&Hin)]).
    + left. apply plain_dir_file. eauto.
    + right. apply below_Some in Hq as [t ->]. rewrite elem_of_list_to_set, list_elem_of_fmap in Hin.
      destruct Hin as (e&->&He). exists e. split; [done|]. rewrite Hep by done.
      by rewrite (installed_relative_path t _ Hroot Hs Hr).
Qed.

Lemma contents_no_panic l : never_panics (contents_match root l).
Proof.
  induction l as [|e l IH]; simpl; [apply never_panics_ret|].
  apply never_panics_bind; [apply never_panics_lift; unfold normalized_relative; by case_match|]. intros r.
  apply never_panics_bind; [apply never_panics_map_err, fs_read_file_np|]. intros bs.
  destruct (negb _); [apply never_panics_ret|apply IH].
Qed.

(** Comparing ends: the walk never runs out of its fuel. *)
Lemma matches_no_panic package : no_panic_on d (directory_matches root package enforce_root).
Proof.
  unfold directory_matches. apply (no_panic_bind _ _ _ (λ fuel, fuel = S (size (d_names d)))).
  - intros w Hw. exists []. split_and!; [done|constructor|done|]. intros fuel [= <-]. by rewrite Hw.
  - by intros w Hw.
  - intros fuel ->. eapply (no_panic_bind _ _ _ (λ _, True)); [apply collect_safe|apply collect_no_panic|].
    + pose proof (map_filter_subseteq (λ e : string * Z, below root e.1 = true) (d_names d)) as Hsub.
      apply map_subseteq_size in Hsub. unfold names_below. lia.
    + intros seen _. destruct (negb _); [by intros w _|]. apply never_panics_on, contents_no_panic.
Qed.

End walk.
