(* ===== verification/InstallerLogic.v ===== *)
(** * What the installer lets onto the device

    Properties of [Installer] on a host without interference, whatever fails:
    what a successful installation says about the package and the keys on the
    device, and what the disk holds at every moment of an installation. *)

From S2P Require Import Prelude RustStr Bytes Manifest HostFs FsLogic Policy Checkpoint Package Lifecycle Installer InstallerTree InstallerMatch.

(** ** Trust *)

(** A node that nobody but its owner writes; root, where that is enforced. *)
Definition secure_node (enforce_root : bool) (n : Inode) : Prop :=
  Z.land (i_mode n) 18 = 0%Z ∧ (enforce_root = true → i_uid n = 0%Z).

Section trust.
  Context `{Crypto} `{Codec DevicePolicy} (d : Disk) (t : TrustPolicy).

Definition not_revoked (id : list ascii) : Prop :=
  node_at d (path_join (revoked_keys (tp_paths t)) (lower_hex id)) = None.

(** [key] is the contents of a secure file of the directory, named by its id. *)
Definition device_key (directory : string) (id key : list ascii) : Prop :=
  key_id key = id ∧ length key = 32%nat ∧
  (∃ i n, node_at d directory = Some (i, n) ∧ i_kind n = Directory ∧ secure_node (tp_enforce_root t) n) ∧
  ∃ i n, node_at d (path_join directory (lower_hex id +:+ ".pub")) = Some (i, n) ∧ i_kind n = RegularFile ∧
    secure_node (tp_enforce_root t) n ∧ i_data n = key.

(** Developer mode is on: the marker is there and the policy allows it. *)
Definition developer_mode_on : Prop :=
  (∃ i n, node_at d (tp_developer_mode (tp_paths t)) = Some (i, n) ∧ i_kind n = RegularFile ∧
    secure_node (tp_enforce_root t) n ∧ i_data n = MODE_CONTENTS) ∧
  ∃ i n policy, node_at d (tp_device_policy (tp_paths t)) = Some (i, n) ∧ i_kind n = RegularFile ∧
    secure_node (tp_enforce_root t) n ∧ from_json (i_data n) = Some policy ∧
    DevicePolicy_validate policy = Ok tt ∧ developer_mode_allowed policy = true.

Definition trusted_package (package : CApp) (decision : TrustDecision) : Prop :=
  verify_developer_signature package = Ok tt ∧
  ∃ developer_key, developer_public_key package = Some developer_key ∧ not_revoked (key_id developer_key) ∧
  match decision with
  | TrustStore => ∃ id key, store_key_id package = Some id ∧ not_revoked id ∧
      device_key (store_keys (tp_paths t)) id key ∧ verify_store_signature package key = Ok tt
  | TrustDeveloperMode => store_key_id package = None ∧ developer_mode_on ∧
      device_key (developer_keys (tp_paths t)) (key_id developer_key) developer_key
  end.

End trust.

Lemma validate_secure_metadata_Ok i n enforce :
  validate_secure_metadata (metadata_of i n) enforce = Ok tt →
  (i_kind n = RegularFile ∨ i_kind n = Directory) ∧ secure_node enforce n.
Proof.
  unfold validate_secure_metadata, secure_node. simpl. intros Hv.
  destruct (i_kind n); simpl in Hv; try done; repeat case_match; simplify_eq; unbool_hyps; split; auto;
    (split; [done|]); intros ->; destruct (i_uid n =? 0)%Z eqn:Hu; simplify_eq/=; by apply Z.eqb_eq.
Qed.

Lemma validate_secure_file_Ok i n enforce name :
  validate_secure_file (metadata_of i n) enforce name = Ok tt → i_kind n = RegularFile ∧ secure_node enforce n.
Proof.
  unfold validate_secure_file, insecure_owner, secure_node. simpl. intros Hv.
  repeat case_match; simplify_eq. unbool_hyps. split_and!; auto. intros ->. simpl in *. unbool_hyps. done.
Qed.

Section reading.
  Context `{Host} `{Crypto} `{Codec DevicePolicy} (Hquiet : quiet _) (Hhonest : honest _) (d0 : Disk).
  Local Notation exactly := (safe (λ d, d = d0)).

Lemma exact_check_directory p enforce :
  exactly (check_secure_directory p enforce)
    (λ _, ∃ i n, node_at d0 p = Some (i, n) ∧ i_kind n = Directory ∧ secure_node enforce n).
Proof.
  unfold check_secure_directory. eapply safe_bind; [by apply safe_map_err, exact_metadata|].
  intros md (i&n&Hn&->). eapply safe_bind; [apply safe_guard|]. intros [] Hk. unbool_hyps.
  apply safe_lift. intros [] Hv. apply validate_secure_metadata_Ok in Hv as [_ Hv]. exists i, n. simpl in *. auto.
Qed.

Lemma exact_secure_file p enforce :
  exactly (read_secure_file p enforce)
    (λ bs, ∃ i n, node_at d0 p = Some (i, n) ∧ i_kind n = RegularFile ∧ secure_node enforce n ∧ i_data n = bs).
Proof.
  unfold read_secure_file. eapply safe_bind; [by apply safe_map_err, exact_metadata|].
  intros md (i&n&Hn&->). eapply safe_bind; [apply safe_guard|]. intros [] Hk. unbool_hyps. simpl in Hk.
  eapply (safe_bind _ _ _ (λ _, secure_node enforce n)).
  { apply safe_lift. intros [] Hv. by apply validate_secure_metadata_Ok in Hv as [_ Hv]. }
  intros _ Hs. eapply safe_weaken; [by apply safe_map_err, (exact_read_file Hquiet _ p i n); [|rewrite Hk]|].
  intros bs ->. exists i, n. auto.
Qed.

Lemma exact_reject_revoked t id role : exactly (reject_revoked t id role) (λ _, not_revoked d0 t id).
Proof.
  unfold reject_revoked. apply exact_missing; [done|done|..].
  - intros md _. apply (safe_bind _ _ _ (λ _, True)); [by apply safe_lift|]. intros. apply safe_err.
  - intros Hn. by apply safe_ret.
  - intros [] Hne; done || apply safe_err.
Qed.

Lemma exact_trusted_key t directory id role :
  exactly (read_trusted_key t directory id role) (device_key d0 t directory id).
Proof.
  unfold read_trusted_key. eapply safe_bind; [apply exact_check_directory|]. intros [] Hd. cbv beta in Hd.
  eapply safe_bind; [apply exact_secure_file|]. intros key Hk.
  eapply safe_bind; [apply safe_guard|]. intros [] Hl. eapply safe_bind; [apply safe_guard|]. intros [] Hi.
  unbool_hyps. by apply safe_ret.
Qed.

Lemma exact_policy p enforce :
  exactly (DevicePolicy_load_secure p enforce) (λ policy, ∃ i n, node_at d0 p = Some (i, n) ∧
    i_kind n = RegularFile ∧ secure_node enforce n ∧ from_json (i_data n) = Some policy ∧
    DevicePolicy_validate policy = Ok tt).
Proof.
  unfold DevicePolicy_load_secure, policy_guard. eapply safe_bind; [by apply safe_map_err, exact_metadata|].
  intros md (i&n&Hn&->). eapply (safe_bind _ _ _ (λ _, i_kind n = RegularFile ∧ secure_node enforce n)).
  { apply safe_lift. intros [] Hv. by apply validate_secure_file_Ok in Hv. }
  intros [] [Hk Hs]. eapply (safe_bind _ _ _ (λ _, True)); [by apply safe_lift|]. intros _ _.
  eapply safe_bind; [by apply safe_map_err, exact_open_nofollow|]. intros j (m&Hm&_). rewrite Hn in Hm. injection Hm as <- <-.
  apply node_at_iff in Hn as Hi. destruct Hi as [_ Hi].
  do 5 (eapply (safe_bind _ _ _ (λ _, True)); [first [by apply safe_lift|by apply safe_map_err, safe_fs_file_metadata]|intros ? _]).
  eapply safe_bind; [by apply safe_map_err, exact_read_to_end|]. intros bs (m&Hm&->). rewrite Hi in Hm. injection Hm as <-.
  eapply (safe_bind _ _ _ (λ _, True)); [by apply safe_lift|]. intros _ _.
  eapply (safe_bind _ _ _ (λ policy, from_json (i_data n) = Some policy)).
  { apply safe_lift. intros policy. destruct (from_json _); simpl; congruence. }
  intros policy Hp. eapply (safe_bind _ _ _ (λ _, DevicePolicy_validate policy = Ok tt)).
  { apply safe_lift. by intros []. }
  intros _ Hv. apply safe_ret. exists i, n. auto.
Qed.

Lemma exact_mode_enabled p enforce :
  exactly (mode_enabled p enforce) (λ b, b = true → ∃ i n, node_at d0 p = Some (i, n) ∧
    i_kind n = RegularFile ∧ secure_node enforce n ∧ i_data n = MODE_CONTENTS).
Proof.
  unfold mode_enabled, policy_guard. apply exact_missing; [done|done|..].
  - intros md (i&n&Hn&->). eapply (safe_bind _ _ _ (λ _, i_kind n = RegularFile ∧ secure_node enforce n)).
    { apply safe_lift. intros [] Hv. by apply validate_secure_file_Ok in Hv. }
    intros [] [Hk Hs]. eapply (safe_bind _ _ _ (λ _, True)); [by apply safe_lift|]. intros _ _.
    eapply safe_bind; [by apply safe_map_err, exact_open_nofollow|]. intros j (m&Hm&_). rewrite Hn in Hm. injection Hm as <- <-.
    apply node_at_iff in Hn as Hi. destruct Hi as [_ Hi].
    do 3 (eapply (safe_bind _ _ _ (λ _, True)); [first [by apply safe_lift|by apply safe_map_err, safe_fs_file_metadata]|intros ? _]).
    eapply safe_bind; [by apply safe_map_err, exact_read_to_end|]. intros bs (m&Hm&->). rewrite Hi in Hm. injection Hm as <-.
    apply safe_ret. intros Hb. unbool_hyps. exists i, n. auto.
  - intros _. by apply safe_ret.
  - intros [] Hne; done || apply safe_err.
Qed.

Lemma exact_developer_mode t : exactly (require_developer_mode t) (λ _, developer_mode_on d0 t).
Proof.
  unfold require_developer_mode, developer_install_allowed.
  apply (safe_bind _ _ _ (λ b : bool, b = true → developer_mode_on d0 t)).
  - apply safe_map_err. eapply safe_bind; [apply exact_policy|]. intros policy Hp.
    destruct (developer_mode_allowed policy) eqn:Ha; [|by apply safe_ret].
    eapply safe_weaken; [apply exact_mode_enabled|]. intros b Hb Ht. split; [by apply Hb|].
    destruct Hp as (i&n&?&?&?&?&?). exists i, n, policy. by split_and!.
  - intros b Hb. cbv beta in Hb. eapply safe_weaken; [apply safe_guard|]. intros [] Hg. unbool_hyps. by apply Hb.
Qed.

Lemma exact_verify t package :
  exactly (TrustPolicy_verify t package) (trusted_package d0 t package).
Proof.
  unfold TrustPolicy_verify. eapply (safe_bind _ _ _ (λ _, verify_developer_signature package = Ok tt)).
  { apply safe_lift. intros [] Hv. by destruct (verify_developer_signature package) as [[]| |]. }
  intros [] Hv. cbv beta in Hv. eapply (safe_bind _ _ _ (λ k, developer_public_key package = Some k)).
  { apply safe_lift. intros k. by destruct (developer_public_key package); intros [= ->]. }
  intros dk Hdk. cbv zeta. eapply safe_bind; [apply exact_reject_revoked|]. intros [] Hr. cbv beta in Hr.
  destruct (store_key_id package) as [sid|] eqn:Hsid.
  - eapply safe_bind; [apply exact_reject_revoked|]. intros [] Hr'. cbv beta in Hr'.
    eapply safe_bind; [apply exact_trusted_key|]. intros key Hkey.
    eapply (safe_bind _ _ _ (λ _, verify_store_signature package key = Ok tt)).
    { apply safe_lift. intros [] Hs. by destruct (verify_store_signature package key) as [[]| |]. }
    intros [] Hs. apply safe_ret. split; [done|]. exists dk. split_and!; [done..|]. exists sid, key. auto.
  - eapply safe_bind; [apply exact_developer_mode|]. intros [] Hm. cbv beta in Hm.
    eapply safe_bind; [apply exact_trusted_key|]. intros key Hkey.
    eapply safe_bind; [apply safe_guard|]. intros [] He. unbool_hyps. subst key.
    apply safe_ret. split; [done|]. exists dk. auto.
Qed.

(** ** The package that is installed *)

(** The file the package was read from. *)
Definition incoming_file (installer : PackageInstaller) (incoming : IncomingPolicy) (n : Inode) : Prop :=
  i_kind n = RegularFile ∧ Z.land (i_mode n) 18 = 0%Z ∧
  (Z.of_nat (length (i_data n)) ≤ MAX_PAYLOAD_BYTES + 4096)%Z ∧
  match incoming with
  | IncomingRoot => in_enforce_root installer = true → i_uid n = 0%Z
  | IncomingStore owner_uid _ _ expected_sha256 expected_bytes =>
      i_uid n = owner_uid ∧ Z.of_nat (length (i_data n)) = expected_bytes ∧ sha256 (i_data n) = expected_sha256
  end.

Lemma exact_read_incoming installer package_path incoming :
  exactly (read_incoming installer package_path incoming) (λ encoded, ∃ i n,
    node_at d0 package_path = Some (i, n) ∧ incoming_file installer incoming n ∧ encoded = i_data n).
Proof.
  unfold read_incoming. eapply safe_bind; [by apply safe_map_err, exact_open_nofollow|]. intros i (n&Hn&_).
  eapply safe_bind; [by apply safe_map_err, exact_file_metadata|]. intros md (n'&Hn'&->).
  apply node_at_iff in Hn as Hi. destruct Hi as [_ Hi]. rewrite Hi in Hn'. injection Hn' as <-.
  eapply (safe_bind _ _ _ (λ _, secure_node (match incoming with IncomingRoot => in_enforce_root installer | _ => false end) n)).
  { apply safe_lift. intros [] Hv. by apply validate_secure_metadata_Ok in Hv as [_ Hv]. }
  intros [] [Hm Hu]. eapply safe_bind; [apply safe_guard|]. intros [] Hk.
  eapply safe_bind; [apply safe_guard|]. intros [] Hs. unbool_hyps. simpl in Hk, Hs.
  eapply (safe_bind _ _ _ (λ _, match incoming with IncomingRoot => True | IncomingStore owner_uid _ _ _ expected_bytes =>
    i_uid n = owner_uid ∧ Z.of_nat (length (i_data n)) = expected_bytes end)).
  { destruct incoming; [by apply safe_ret|]. eapply safe_bind; [apply safe_guard|]. intros [] Ho.
    eapply safe_weaken; [apply safe_guard|]. intros [] Hb. unbool_hyps. done. }
  intros [] Hinc. cbv beta in Hinc. eapply safe_bind; [by apply safe_map_err, exact_read_to_end|].
  intros bs (n'&Hn'&->). rewrite Hi in Hn'. injection Hn' as <-.
  eapply (safe_bind _ _ _ (λ _, True)); [by apply safe_lift|]. intros _ _.
  eapply (safe_bind _ _ _ (λ _, match incoming with IncomingRoot => True | IncomingStore _ _ _ expected_sha256 _ =>
    sha256 (i_data n) = expected_sha256 end)).
  { destruct incoming; [by apply safe_ret|]. eapply safe_weaken; [apply safe_guard|]. intros [] Hb. by unbool_hyps. }
  intros [] Hsha. cbv beta in Hsha. apply safe_ret. exists i, n. split_and!; [done| |done].
  split_and!; [done..|]. destruct incoming; [done|]. by destruct Hinc.
Qed.

Context (manifest_from_slice : list ascii → option AppManifest).

(** What the checks establish of the package before anything is written. *)
Record admitted (installer : PackageInstaller) (incoming : IncomingPolicy) (encoded : list ascii) (package : CApp)
    (decision : TrustDecision) (manifest : AppManifest) : Prop := {
  ad_decode : CApp_decode encoded = Ok package;
  ad_trusted : trusted_package d0 (trust installer) package decision;
  ad_manifest : ∃ contents, CApp_entry package "app.json" = Ok (Some contents) ∧
    parse_and_validate manifest_from_slice contents = Ok manifest;
  ad_sdk : require_compatible_sdk (m_sdk_version manifest) = Ok tt;
  ad_builtin : decision = TrustDeveloperMode → is_removable_app (m_id manifest) = true;
  ad_identity : match incoming with
    | IncomingRoot => True
    | IncomingStore _ expected_app_id expected_version _ _ =>
        m_id manifest = expected_app_id ∧ m_version manifest = expected_version
    end;
  ad_entrypoint : ∃ contents, CApp_entry package (m_entrypoint manifest) = Ok (Some contents);
}.

Lemma package_entry_Ok p path o : package_entry p path = Ok o → CApp_entry p path = Ok o.
Proof. unfold package_entry. destruct (CApp_entry p path); simpl; congruence. Qed.

Lemma exact_check_package installer incoming encoded :
  exactly (check_package manifest_from_slice installer incoming encoded)
    (λ r, admitted installer incoming encoded r.1.1 r.1.2 r.2).
Proof.
  unfold check_package. eapply (safe_bind _ _ _ (λ p, CApp_decode encoded = Ok p)).
  { apply safe_lift. intros p Hp. destruct (CApp_decode encoded); simplify_eq/=. done. }
  intros package Hd. eapply safe_bind; [apply exact_verify|]. intros decision Ht.
  eapply (safe_bind _ _ _ (λ o, CApp_entry package "app.json" = Ok o)).
  { apply safe_lift. intros o. apply package_entry_Ok. }
  intros entry He. eapply (safe_bind _ _ _ (λ c, entry = Some c)).
  { apply safe_lift. intros c. by destruct entry; intros [= ->]. }
  intros contents ->. eapply (safe_bind _ _ _ (λ m, parse_and_validate manifest_from_slice contents = Ok m)).
  { apply safe_lift. intros m Hm. destruct (parse_and_validate _ _); simplify_eq/=. done. }
  intros manifest Hm. eapply (safe_bind _ _ _ (λ _, require_compatible_sdk (m_sdk_version manifest) = Ok tt)).
  { apply safe_lift. by intros []. }
  intros [] Hsdk. cbv beta in Hsdk. eapply safe_bind; [apply safe_guard|]. intros [] Hb. cbv beta in Hb.
  eapply (safe_bind _ _ _ (λ _, match incoming with IncomingRoot => True
    | IncomingStore _ expected_app_id expected_version _ _ =>
        m_id manifest = expected_app_id ∧ m_version manifest = expected_version end)).
  { destruct incoming; [by apply safe_ret|]. eapply safe_weaken; [apply safe_guard|]. intros [] Hi. by unbool_hyps. }
  intros [] Hid. cbv beta in Hid.
  eapply (safe_bind _ _ _ (λ o, CApp_entry package (m_entrypoint manifest) = Ok o)).
  { apply safe_lift. intros o. apply package_entry_Ok. }
  intros o Ho. eapply safe_bind; [apply safe_guard|]. intros [] Hs. unbool_hyps. apply safe_ret.
  constructor; simpl; eauto.
  - intros ->. rewrite bool_decide_true in Hb by done. by destruct (is_removable_app _).
  - destruct Hs as [c ->]. eauto.
Qed.

End reading.

(** ** Placing the package *)

Section placing.
  Context `{Host} (Hquiet : quiet _) (d0 : Disk) (Hlinks : no_hard_links d0).
  Context (app_dir version : string) (package : CApp).
  Context (Habs : path_is_absolute app_dir = true).
  Context (Hdir : proper_dir app_dir) (Hplain : plain_name version) (Hdot : starts_with_char dot version = false).
  Context (Hrel : Forall (λ e, path_is_absolute (pe_name e) = false) (ca_entries package)).
  Local Notation final := (final_dir app_dir version).
  Local Notation pristine := (pristine d0 app_dir version).
  Local Notation complete := (complete d0 app_dir version package).

Lemma is_directory_plain d p : is_directory d p = true ↔ plain_dir d p.
Proof.
  unfold is_directory, plain_dir. destruct (node_at d p) as [[i n]|]; [|naive_solver].
  rewrite bool_decide_eq_true. naive_solver.
Qed.

Lemma not_below_self p q : under p q = true → below q p = false.
Proof.
  intros Hq. apply not_true_iff_false. intros [t Ht]%below_Some. apply (f_equal String.length) in Ht.
  apply under_true in Hq as [->|[u ->]]; rewrite !str_length_app in Ht; simpl in Ht; lia.
Qed.

Lemma shaped_created d n :
  disk_wf d → d_names d !! app_dir = None → i_kind n = Directory → shaped app_dir d → shaped app_dir (new_node app_dir n d).
Proof.
  intros Hwf Hn Hk [Hd Hp]. split.
  - intros p q Hu Hb Hs. assert (q ≠ app_dir) as Hq by (intros ->; by rewrite not_below_self in Hb).
    simpl in Hs. rewrite lookup_insert_ne in Hs by done. specialize (Hd p q Hu Hb Hs).
    rewrite is_directory_plain, plain_dir_file in Hd |- *. destruct (decide (p = app_dir)) as [->|].
    + rewrite file_at_new_eq. eauto.
    + by rewrite file_at_new.
  - intros p s Hu Hs. assert (p +:+ "/" +:+ s ≠ app_dir) as Hq.
    { intros Heq. assert (below p app_dir = true) as Hb by (apply below_Some; by exists s).
      by rewrite not_below_self in Hb. }
    simpl in Hs. rewrite lookup_insert_ne in Hs by done. by apply (Hp p s).
Qed.

Lemma shaped_chmod d p i n mode :
  node_at d p = Some (i, n) → i_kind n = Directory → shaped app_dir d → shaped app_dir (alter_inode (set_mode mode) i d).
Proof.
  intros [_ Hi]%node_at_iff Hk [Hd Hp]. split; [|done]. intros q r Hu Hb Hs.
  apply is_directory_plain. apply (chmod_dir_files d i n mode q Hi Hk), is_directory_plain. by apply (Hd q r).
Qed.

Lemma shaped_no_strays d : shaped app_dir d → no_strays app_dir version d.
Proof.
  intros Hs k q Hb Hn. destruct (d_names d !! q) eqn:Hq; [|done]. exfalso.
  assert (is_directory d (staging app_dir version k) = true) as Hd.
  { eapply (sh_dirs _ _ Hs); [|exact Hb|by eauto]. rewrite staging_path by done. apply under_true. right. eauto. }
  unfold is_directory, node_at in Hd. by rewrite Hn in Hd.
Qed.

Lemma shaped_final d : shaped app_dir d → shaped final d.
Proof.
  intros [Hd Hp]. assert (∀ p, under final p = true → under app_dir p = true) as Hu.
  { intros p Hu. apply under_true. rewrite final_path in Hu by done. right. apply under_true in Hu as [->|[t ->]]; [eauto|].
    rewrite !str_app_assoc. eauto. }
  split; eauto.
Qed.

Lemma ensured enforce :
  triple pristine (shaped app_dir) (ensure_secure_directory app_dir enforce) (λ _, shaped app_dir).
Proof.
  pose proof (kept_frame (unstaged app_dir version) d0) as Hframe.
  assert (¬ unstaged app_dir version app_dir) as Hmay by (by intros [? _]).
  unfold ensure_secure_directory. eapply (triple_bind _ _ _ _ (λ _, shaped app_dir)).
  - eapply (crash_try _ _ _ _ (λ r d, pristine d ∧ shaped app_dir d)).
    + apply crash_op; [done|by intros d e n [??]|]. intros d [Hd Hs].
      destruct (d_names d !! app_dir) eqn:Hn; simpl; [by split_and!|].
      pose proof (fr_create _ _ _ Hframe d app_dir (mkInode Directory [] host_uid 493 false) Hd Hmay Hn).
      pose proof (shaped_created d (mkInode Directory [] host_uid 493 false) (cf_wf _ _ _ Hd) Hn eq_refl Hs). by split_and!.
    + intros [[]|[]|]; try (by apply triple_ret); try (by apply triple_err); by apply (triple_lift _ _ Panicked).
  - intros []. eapply (triple_bind _ _ _ _ (λ _ d, shaped app_dir d ∧ plain_dir d app_dir)).
    + unfold check_secure_directory. eapply triple_bind; [by apply triple_map_err, triple_metadata|]. intros md. cbv beta.
      eapply triple_bind; [apply triple_guard|]. intros []. cbv beta. apply triple_lift.
      intros [] d _ _ [[Hs (i&n&Hn&->)] Hk]. split; [done|]. exists i, n. unbool_hyps. auto.
    + intros []. apply triple_map_err. eapply (frame_chmod_dir Hquiet _ _ _ Hframe); [done|by intros d []|].
      intros d i n Hd [Hs _] Hn Hk. by eapply shaped_chmod.
Qed.

Lemma exists_crash {E} P p : crash_spec P (@fs_exists _ E p) P (λ r d, P d).
Proof.
  apply (crash_try _ _ _ _ (λ r d, P d)); [|by intros r; eapply crash_consequence; [apply (crash_lift P)| |by intros ?? []]].
  apply crash_op; [done|by intros|]. intros d HP. by destruct (resolve 40 d p) as [[??]|].
Qed.

(** A directory that is returned holds the package; a new one appeared at once. *)
Definition placed_package (manifest : AppManifest) (decision : TrustDecision) (prepared : PreparedInstall) (d : Disk) : Prop :=
  pi_manifest prepared = manifest ∧ pi_trust prepared = decision ∧ pi_package_dir prepared = final ∧
  holds final (ca_entries package) d ∧ (pi_newly_extracted prepared = true → complete d).

Lemma place_atomic installer decision manifest :
  path_join (apps_root installer) (m_id manifest) = app_dir → m_version manifest = version →
  crash_spec (λ d, pristine d ∧ shaped app_dir d) (place_package installer package decision manifest)
    (λ d, pristine d ∨ complete d)
    (λ r d, (pristine d ∨ complete d) ∧ ∀ prepared, r = Ok prepared → placed_package manifest decision prepared d).
Proof.
  intros Hid Hver. unfold place_package. rewrite Hid, Hver. cbv zeta. fold (final_dir app_dir version).
  eapply triple_then; [apply ensured|intros []|by left|by intros; split; [left|]|by intros; split; [left|]].
  eapply (crash_bind _ _ _ _ (λ r d, pristine d ∧ shaped app_dir d)).
  { eapply crash_weaken; [apply exists_crash|by intros d []; left]. }
  2: by intros e d []; split; [left|]. 2: by intros d []; split; [left|].
  intros [].
  - eapply (crash_bind _ _ _ _ (λ r d, (pristine d ∧ shaped app_dir d) ∧
      ∀ b, r = Ok b → b = true → holds final (ca_entries package) d)).
    + apply (crash_weaken _ _ (λ d, pristine d ∧ shaped app_dir d)); [|by intros d []; left].
      apply (crash_exact _ _ (λ d b, b = true → holds final (ca_entries package) d)). intros d [Hd Hs].
      apply matches_exact; [done|by apply shaped_final|by apply path_join_absolute|by apply proper_join|done].
    + intros [] w [[Hd Hs] Hh].
      * exists []. split_and!; [done|constructor|by left|]. intros prepared [= <-]. split_and!; [done..|by apply (Hh true)|done].
      * exists []. split_and!; [done|constructor|by left|done].
    + by intros e d [[] _]; split; [left|].
    + by intros d [[] _]; split; [left|].
  - eapply (crash_bind _ _ _ _ (λ r d, (pristine d ∨ complete d) ∧ (r = Ok tt → complete d))).
    + eapply crash_consequence; [by apply unpack_atomic| |done]. intros d [Hd Hs]. split; [done|]. by apply shaped_no_strays.
    + intros [] w [Hw Hc]. specialize (Hc eq_refl). exists []. split_and!; [done|constructor|done|].
      intros prepared [= <-]. split_and!; auto. by apply tree_holds, Hc.
    + by intros e d [? _]; split.
    + by intros d [? _]; split.
Qed.

End placing.

(** ** The whole installation *)

Lemma version_no_dot v : is_valid_app_version v = true → starts_with_char dot v = false.
Proof.
  intros Hv. destruct v as [|a v]; [done|]. unfold starts_with_char, first_byte. simpl. apply bool_decide_eq_false_2.
  intros [= ->]. assert (∀ c s, c ≠ dot → match split_once c (String dot s) with
    | Some (l, _) => ∃ l', l = String dot l' | None => True end) as Hsplit.
  { intros c s Hc. simpl. rewrite bool_decide_eq_false_2 by done. destruct (split_once c s) as [[l r]|]; eauto. }
  assert (∀ s, forallb valid_numeric_identifier (str_split dot (String dot s)) = false) as Hcore by done.
  unfold is_valid_app_version in Hv. destruct (_ || _); [done|].
  assert (∃ l o, match split_once "+"%char (String dot v) with Some (l, r) => (l, Some r) | None => (String dot v, None) end
    = (String dot l, o)) as (l&o&Hl).
  { pose proof (Hsplit "+"%char v ltac:(done)) as H1.
    destruct (split_once "+"%char (String dot v)) as [[l r]|]; [destruct H1 as [l' ->]|]; eauto. }
  rewrite Hl in Hv. pose proof (Hsplit dash l ltac:(done)) as H2.
  destruct (split_once dash (String dot l)) as [[l2 r2]|]; [destruct H2 as [l' ->]|];
    by rewrite Hcore, andb_false_r in Hv.
Qed.

Lemma decoded_relative bs p :
  CApp_decode bs = Ok p → Forall (λ e, path_is_absolute (pe_name e) = false) (ca_entries p).
Proof.
  intros (Henc&_&_)%CApp_decode_Ok. apply CApp_encode_iff in Henc as ([_ Heach _ _ _]&_&_).
  eapply Forall_impl; [exact Heach|]. intros e [(parts&Hp&_&_)%portable_path_Ok _].
  apply portable_parts_Ok in Hp as [Hp _]. destruct (path_is_absolute (pe_name e)) eqn:Ha; [|done].
  apply path_components_absolute in Ha as [cs Hcs]. rewrite Hcs in Hp. by destruct parts.
Qed.

Section install.
  Context `{Host} `{Crypto} `{Codec DevicePolicy} (Hquiet : quiet _) (Hhonest : honest _).
  Context (manifest_from_slice : list ascii → option AppManifest) (installer : PackageInstaller).
  Context (package_path : string) (incoming : IncomingPolicy) (d0 : Disk).

(** The package at the incoming path passes every check. *)
Definition admissible (package : CApp) (decision : TrustDecision) (manifest : AppManifest) : Prop :=
  ∃ i n, node_at d0 package_path = Some (i, n) ∧ incoming_file installer incoming n ∧
    admitted d0 manifest_from_slice installer incoming (i_data n) package decision manifest.

Definition install_directory (manifest : AppManifest) : string := path_join (apps_root installer) (m_id manifest).

(** Between two steps of an installation: nothing happened yet, or the package
    passed and its tree is being prepared, or is in place. *)
Definition install_disk (d : Disk) : Prop :=
  d = d0 ∨ ∃ package decision manifest, admissible package decision manifest ∧
    (pristine d0 (install_directory manifest) (m_version manifest) d ∨
     complete d0 (install_directory manifest) (m_version manifest) package d).

Context (Hwf : disk_wf d0) (Hlinks : no_hard_links d0) (Habs : path_is_absolute (apps_root installer) = true).
Context (Hshape : ∀ id, is_valid_app_id id = true → shaped (path_join (apps_root installer) id) d0).

Lemma parse_and_validate_wf contents m : parse_and_validate manifest_from_slice contents = Ok m → manifest_wf m.
Proof.
  unfold parse_and_validate. destruct (manifest_from_slice contents) as [m'|]; [|done].
  destruct (manifest_validate m') as [[]| |] eqn:Hv; [|done..]. simpl. intros [= <-]. by apply manifest_validate_wf.
Qed.

Lemma exact_step {E A} (m : IO E A) φ :
  safe (λ d, d = d0) m φ → crash_spec (λ d, d = d0) m install_disk (λ r d, d = d0 ∧ ∀ a, r = Ok a → φ a).
Proof. intros Hm. apply (crash_weaken _ _ (λ d, d = d0)); [exact Hm|by left]. Qed.

Lemma install_spec :
  crash_spec (λ d, d = d0) (install_inner manifest_from_slice installer package_path incoming) install_disk
    (λ r d, ∀ prepared, r = Ok prepared → ∃ package decision manifest, admissible package decision manifest ∧
      placed_package d0 (install_directory manifest) (m_version manifest) package manifest decision prepared d).
Proof.
  unfold install_inner. eapply crash_bind; [by apply exact_step, exact_check_directory|intros []|done|done].
  eapply crash_bind; [|intros encoded|done|done].
  { eapply crash_consequence; [by apply exact_step, exact_read_incoming|by intros d []|by intros r d Hr; exact Hr]. }
  eapply (crash_bind _ _ _ _ (λ r d, d = d0 ∧ ∀ x, r = Ok x → admissible x.1.1 x.1.2 x.2)); [|intros [[package decision] manifest]|done|done].
  { intros w [Hw Henc]. destruct (Henc encoded eq_refl) as (i&n&Hn&Hf&->).
    destruct (exact_check_package Hquiet Hhonest d0 manifest_from_slice installer incoming (i_data n) w Hw) as (tr&Htr&Hall&Hd&Hr).
    exists tr. split_and!; [done|eapply Forall_impl; [exact Hall|by left]|done|].
    intros x Hx. exists i, n. auto. }
  intros w [Hw Hx]. specialize (Hx _ eq_refl). simpl in Hx. assert (Hadm := Hx). destruct Hx as (i&n&_&_&Had).
  destruct (ad_manifest _ _ _ _ _ _ _ _ Had) as (c&_&Hm%parse_and_validate_wf).
  pose proof (app_id_plain _ (wf_id _ Hm)) as Hid. pose proof (app_version_plain _ (wf_version _ Hm)) as Hver.
  destruct (place_atomic Hquiet d0 Hlinks (install_directory manifest) (m_version manifest) package) with (installer := installer)
    (decision := decision) (manifest := manifest) (w := w) as (tr&Htr&Hall&Hd&Hr).
  - by apply path_join_absolute.
  - by apply proper_join.
  - done.
  - apply version_no_dot, Hm.
  - eapply decoded_relative, Had.
  - done.
  - done.
  - rewrite Hw. split; [by apply kept_start|]. apply Hshape, Hm.
  - exists tr. split_and!; [done| |].
    + eapply Forall_impl; [exact Hall|]. intros d Hd'. right. eauto 6.
    + intros prepared Hp. exists package, decision, manifest. split; [done|]. by apply Hr.
Qed.

End install.

(** ** Properties *)

(** C22: an installation that succeeds installed a package that deserves it.
    The file was a regular one that only its owner may write, with the size,
    owner and digest that the Store announced; its developer signature
    verifies under a key that is not revoked; it carries a Store signature
    under a key of the device's Store directory that is not revoked, or
    developer mode is on, the developer's key is in the developers' directory
    and the application is not a built-in one; its manifest is valid, fits the
    SDK, names the announced application and version, and an entry point of the
    package.  The directory returned then holds exactly the files of that
    package, whether it was just unpacked or was there before. *)
Theorem installed_package_trusted `{Host} `{Crypto} `{Codec DevicePolicy} manifest_from_slice installer package_path incoming
    w prepared w' :
  quiet _ → honest _ → disk_wf (w_disk w) → no_hard_links (w_disk w) → path_is_absolute (apps_root installer) = true →
  (∀ id, is_valid_app_id id = true → shaped (path_join (apps_root installer) id) (w_disk w)) →
  install_inner manifest_from_slice installer package_path incoming w = (Ok prepared, w') →
  ∃ package i n, node_at (w_disk w) package_path = Some (i, n) ∧ incoming_file installer incoming n ∧
    admitted (w_disk w) manifest_from_slice installer incoming (i_data n) package (pi_trust prepared) (pi_manifest prepared) ∧
    pi_package_dir prepared = path_join (install_directory installer (pi_manifest prepared)) (m_version (pi_manifest prepared)) ∧
    holds (pi_package_dir prepared) (ca_entries package) (w_disk w').
Proof.
  intros Hq Hh Hwf Hl Habs Hs Hrun.
  destruct (install_spec Hq Hh manifest_from_slice installer package_path incoming (w_disk w) Hwf Hl Habs Hs w eq_refl)
    as (tr&_&_&Hr). rewrite Hrun in Hr.
  destruct (Hr prepared eq_refl) as (package&decision&manifest&(i&n&Hn&Hf&Had)&Hm&Ht&Hd&Hho&_).
  exists package, i, n. rewrite Hd, Ht, Hm. split_and!; try done.
Qed.

(** C23: an installation is all or nothing, whatever fails and wherever the
    device stops.  At every moment either nothing has changed, or a package
    that passed every check is being installed: then nothing differs from the
    beginning but the application's directory itself and hidden staging
    directories in it, or in addition the directory of the version is complete,
    with exactly the files of the package, all written and synced. *)
Theorem install_atomic `{Host} `{Crypto} `{Codec DevicePolicy} manifest_from_slice installer package_path incoming w :
  quiet _ → honest _ → disk_wf (w_disk w) → no_hard_links (w_disk w) → path_is_absolute (apps_root installer) = true →
  (∀ id, is_valid_app_id id = true → shaped (path_join (apps_root installer) id) (w_disk w)) →
  ∃ tr, w_trace (install_inner manifest_from_slice installer package_path incoming w).2 = tr ++ w_trace w ∧
    ∀ d, d ∈ tr → d = w_disk w ∨ ∃ package decision manifest,
      admissible manifest_from_slice installer package_path incoming (w_disk w) package decision manifest ∧
      (pristine (w_disk w) (install_directory installer manifest) (m_version manifest) d ∨
       complete (w_disk w) (install_directory installer manifest) (m_version manifest) package d).
Proof.
  intros Hq Hh Hwf Hl Habs Hs.
  destruct (install_spec Hq Hh manifest_from_slice installer package_path incoming (w_disk w) Hwf Hl Habs Hs w eq_refl)
    as (tr&Htr&Hall&_).
  exists tr. split; [exact Htr|]. intros d Hd. rewrite Forall_forall in Hall. by apply Hall.
Qed.

(** ** A concrete installation *)

Lemma NoDup_no_hard_links d : NoDup (map snd (map_to_list (d_names d))) → no_hard_links d.
Proof.
  intros Hnd p q i Hp Hq. apply elem_of_map_to_list in Hp, Hq.
  assert (∀ l : list (string * Z), NoDup (map snd l) → (p, i) ∈ l → (q, i) ∈ l → p = q) as Hl; [|by eapply Hl].
  clear. induction l as [|[r j] l IH]; simpl; [by intros _ ?%elem_of_nil|]. intros [Hj Hl]%NoDup_cons.
  assert (∀ s, (s, j) ∈ l → False) as Hno by (intros s Hin; apply Hj, list_elem_of_fmap; by exists (s, j)).
  rewrite !elem_of_cons. intros [[= -> ->]|Hp] [[= Hq]|Hq]; subst; auto; exfalso; eauto.
Qed.

(** A root without applications. *)
Lemma shaped_empty root id d :
  proper_dir root → plain_name id → (∀ q, is_Some (d_names d !! q) → below root q = false) → shaped (path_join root id) d.
Proof.
  intros Hr Hid Hno. rewrite path_join_proper by (done || by apply plain_name_not_absolute).
  assert (∀ p q, under (root +:+ "/" +:+ id) p = true → below p q = true → is_Some (d_names d !! q) → False) as Hx.
  { intros p q Hp Hb Hs. specialize (Hno q Hs). apply not_true_iff_false in Hno. apply Hno.
    apply below_Some in Hb as [t ->]. apply below_Some.
    apply under_true in Hp as [->|[u ->]]; rewrite !str_app_assoc; eauto. }
  split.
  - intros p q Hp Hb Hs. by destruct (Hx p q).
  - intros p s Hp Hs _. destruct (Hx p (p +:+ "/" +:+ s)); [done| |done]. apply below_Some. eauto.
Qed.

Definition hello_package : CApp :=
  let p := unsigned [mkPackageEntry "app.json" (bytes "manifest"); mkPackageEntry "bin/hello-card.wasm" (bytes "wasm")] in
  match @sign_developer toy_crypto p developer_key with
  | Ok p => match @sign_store toy_crypto p store_key with Ok p => p | _ => p end
  | _ => p
  end.
Definition hello_encoded : list ascii := match CApp_encode hello_package with Ok bs => bs | _ => [] end.
Definition directory_node : Inode := mkInode Directory [] 0 493 true.
Definition device_disk : list (string * Inode) :=
  [("/apps", directory_node); ("/trust/store", directory_node);
   ("/trust/store/" +:+ lower_hex (@key_id toy_crypto store_key) +:+ ".pub", mkInode RegularFile store_key 0 420 true);
   ("/run/hello.capp", mkInode RegularFile hello_encoded 0 420 true)].
Definition device_installer : PackageInstaller :=
  mkPackageInstaller "/apps" (mkTrustPolicy (mkTrustPaths "/trust/store" "/trust/developers" "/trust/revoked" "/policy" "/mode") true) true.
Definition no_policy_codec : Codec DevicePolicy := {| to_json := λ _, None; from_json := λ _, None |}.
Definition hello_install : result InstallError PreparedInstall * World :=
  @install_inner calm_host toy_crypto no_policy_codec hello_from_slice device_installer "/run/hello.capp" IncomingRoot (world_of device_disk).

Lemma hello_install_Ok :
  hello_install.1 = Ok (mkPreparedInstall hello_manifest "/apps/dev.cardputerzero.hello/0.1.0" true TrustStore).
Proof. by vm_compute. Qed.

Lemma empty_root_shaped d :
  proper_dir "/apps" → Forall (λ e, below "/apps" e.1 = false) (map_to_list (d_names d)) →
  ∀ id, is_valid_app_id id = true → shaped (path_join (apps_root device_installer) id) d.
Proof.
  intros Hp Hall id Hid. apply shaped_empty; [done|by apply app_id_plain|]. intros q [i Hi].
  rewrite Forall_forall in Hall. apply (Hall (q, i)). by apply elem_of_map_to_list.
Qed.

Lemma device_ready :
  no_hard_links (disk_of device_disk) ∧
  ∀ id, is_valid_app_id id = true → shaped (path_join (apps_root device_installer) id) (disk_of device_disk).
Proof.
  split.
  - apply NoDup_no_hard_links. apply (bool_decide_eq_true_1 _). by vm_compute.
  - apply empty_root_shaped; [by split|]. apply (bool_decide_eq_true_1 _). by vm_compute.
Qed.

Lemma installed_package_trusted_witness :
  ∃ package, @trusted_package toy_crypto no_policy_codec (disk_of device_disk) (trust device_installer) package TrustStore ∧
    holds "/apps/dev.cardputerzero.hello/0.1.0" (ca_entries package) (w_disk hello_install.2).
Proof.
  destruct device_ready as [Hl Hs]. pose proof hello_install_Ok as Hok.
  destruct (@installed_package_trusted calm_host toy_crypto no_policy_codec hello_from_slice device_installer
    "/run/hello.capp" IncomingRoot (world_of device_disk)
    (mkPreparedInstall hello_manifest "/apps/dev.cardputerzero.hello/0.1.0" true TrustStore) hello_install.2)
    as (package&i&n&_&_&Had&_&Hho).
  - intros t d. reflexivity.
  - intros t e n. discriminate.
  - apply disk_of_wf.
  - exact Hl.
  - reflexivity.
  - exact Hs.
  - fold hello_install. destruct hello_install as [r w']. simpl in Hok |- *. by rewrite Hok.
  - exists package. split; [apply Had|exact Hho].
Defined.

Lemma install_atomic_witness :
  ∃ tr, w_trace hello_install.2 = tr ++ [] ∧
    ∀ d, d ∈ tr → d = disk_of device_disk ∨ ∃ package decision manifest,
      @admissible toy_crypto no_policy_codec hello_from_slice device_installer "/run/hello.capp" IncomingRoot
        (disk_of device_disk) package decision manifest ∧
      (@pristine calm_host (disk_of device_disk) (install_directory device_installer manifest) (m_version manifest) d ∨
       @complete calm_host (disk_of device_disk) (install_directory device_installer manifest) (m_version manifest) package d).
Proof.
  destruct device_ready as [Hl Hs].
  destruct (@install_atomic calm_host toy_crypto no_policy_codec hello_from_slice device_installer
    "/run/hello.capp" IncomingRoot (world_of device_disk)) as (tr&Htr&Hall).
  - intros t d. reflexivity.
  - intros t e n. discriminate.
  - apply disk_of_wf.
  - exact Hl.
  - reflexivity.
  - exact Hs.
  - exists tr. split; [exact Htr|exact Hall].
Defined.
