(* ===== verification/Protocol.v ===== *)
(** * The control protocol (crates/cp0-appd/src/protocol.rs)

    The requests and responses of the control socket, the checks on a decoded
    request and the framing (of [Framing]): one JSON document per line, of at
    most [MAX_FRAME_BYTES] bytes.  The JSON encoder and decoder belong to a
    third-party library.  Passing file descriptors along
    ([recv_frame_with_fd]) is not modelled.

    The theorems: what the writer frames the reader gets back, however the
    bytes are split, and nothing of the next frame; a frame is bounded; and
    what a validated request promises to the handlers. *)

From S2P Require Import Prelude RustStr Manifest HostFs Framing Policy Permissions PermissionPrompt Tasks.
From S2P Require Import MediaSession DocumentPrompt.

Definition APPD_PROTOCOL_VERSION : Z := 2.
Definition MAX_FRAME_BYTES : nat := Z.to_nat 8192.
Definition MAX_APP_LIST_PAGE : Z := 8.
Definition MAX_TASK_LIST_PAGE : Z := 10.
Definition MAX_LOG_LINES : Z := 100.
(** [MAX_PAYLOAD_BYTES + 4096] of the package format. *)
Definition MAX_PACKAGE_BYTES : Z := 32 * 1024 * 1024 + 4096.

Inductive AppdCommand :=
  | CmdPing
  | CmdList (offset limit : Z)
  | CmdListTasks (offset limit : Z)
  | CmdActivateTask (task_id : Z)
  | CmdCloseTask (task_id : Z)
  | CmdSetForegroundApp (app_id : option string)
  | CmdStoreListInstalled (offset limit : Z)
  | CmdStart (app_id : string)
  | CmdStop (app_id : string)
  | CmdUninstall (app_id : string)
  | CmdInstall (package_name : string)
  | CmdStoreInstall (package_name app_id version package_sha256 : string) (package_bytes : Z) (automatic : bool)
  | CmdRollback (app_id : string)
  | CmdLogs (app_id : string) (limit : Z)
  | CmdGetPermissionPrompt
  | CmdGetPermissions (app_id : string)
  | CmdResolvePermission (prompt_id : Z) (choice : PermissionChoice)
  | CmdResetPermission (app_id : string) (permission : Permission)
  | CmdGetDeviceSettings
  | CmdSetDeviceMode (mode : DeviceMode) (enabled : bool)
  | CmdTakeNotification
  | CmdGetDocumentPrompt
  | CmdResolveDocument (prompt_id : Z) (document_id : option string)
  | CmdDispatchMediaAction (action : MediaAction)
  | CmdImportScreenshot.

Record AppdRequest := mkAppdRequest {
  protocol_version : Z;
  request_id : Z;
  command : AppdCommand;
}.

Record AppSummary := mkAppSummary {
  as_app_id : string;
  as_name : string;
  as_version : string;
  as_display : DisplayMode;
  as_running : bool;
  as_removable : bool;
  as_installed_at : Z;
  as_package_bytes : Z;
  as_data_bytes : Z;
  as_permissions : list Permission;
}.

Record TaskSummary := mkTaskSummary {
  ts_task_id : Z;
  ts_account_uid : Z;
  ts_app_id : string;
  ts_name : string;
  ts_version : string;
  ts_display : DisplayMode;
  ts_state : TaskState;
  ts_created_sequence : Z;
  ts_last_activated_sequence : Z;
  ts_checkpoint : CheckpointStatus;
  ts_runtime_generation : option Z;
  ts_thumbnail_generation : option Z;
}.

Record StoreInstalledApp := mkStoreInstalledApp {
  si_app_id : string;
  si_version : string;
  si_permissions : list Permission;
}.

Inductive AppPermissionDecision := DecisionAsk | DecisionAllowed | DecisionDenied | DecisionPolicyDenied.
Record AppPermissionState := mkAppPermissionState {
  aps_permission : Permission;
  aps_decision : AppPermissionDecision;
}.

(** A notification of crates/cp0-appd/src/broker.rs. *)
Record Notification := mkNotification {
  notification_id : Z;
  no_app_id : string;
  no_app_name : string;
  no_title : string;
  no_body : string;
}.

Inductive ResponseData :=
  | RdPong
  | RdApplications (apps : list AppSummary) (next_offset : option Z)
  | RdTasks (tasks : list TaskSummary) (next_offset : option Z)
  | RdTaskActivated (task_id : Z) (app_id : string) (runtime_generation : Z)
  | RdTaskClosed (task_id : Z) (app_id : string)
  | RdForegroundAppChanged (app_id : option string)
  | RdStoreApplications (apps : list StoreInstalledApp) (next_offset : option Z)
  | RdStarted (app_id unit_name : string)
  | RdStopped (app_id : string)
  | RdUninstalled (app_id : string) (private_data_retained package_cleanup_pending : bool)
  | RdInstalled (app_id version : string) (previous_version : option string) (trust : string)
  | RdRolledBack (app_id version : string)
  | RdLogs (app_id : string) (lines : list string)
  | RdPendingPermission (prompt : option PermissionPrompt)
  | RdApplicationPermissions (app_id : string) (permissions : list AppPermissionState)
  | RdPermissionResolved (prompt_id : Z) (app_id : string) (permission : Permission) (choice : PermissionChoice)
  | RdPermissionReset (app_id : string) (permission : Permission)
  | RdDeviceSettings (settings : DeviceSettings)
  | RdDeviceModeChanged (settings : DeviceSettings)
  | RdNextNotification (notification : option Notification)
  | RdPendingDocument (prompt : option DocumentPrompt)
  | RdDocumentResolved (prompt_id : Z) (app_id : string) (document_id : option string)
  | RdMediaActionDispatched (app_id : string) (action : MediaAction)
  | RdScreenshotImported (photo_id : Z).

Inductive ErrorCode :=
  | CodeInvalidRequest | CodeUnauthorized | CodeNotFound | CodeAlreadyRunning | CodeNotRunning
  | CodeResourceExhausted | CodeUntrusted | CodeConflict | CodeUnavailable | CodeInternal.

Inductive ProtocolError :=
  | ProtoIo (e : IoError)
  | FrameTooLarge
  | UnterminatedFrame
  | InvalidJson
  | UnsupportedVersion (version : Z)
  | InvalidAppId
  | InvalidPagination
  | InvalidTaskId
  | InvalidPromptId
  | InvalidDocumentId
  | InvalidPackageName
  | InvalidStoreInstall
  | InvalidLogLimit
  | InvalidDescriptor
  | UnexpectedTrailingData.

(** ** Validation *)

(** [name.contains("..")]. *)
Fixpoint contains_dot_dot (s : string) : bool :=
  match s with
  | String a t => starts_with ".." s || contains_dot_dot t
  | EmptyString => false
  end.

Definition package_name_byte (b : ascii) : bool :=
  is_ascii_alphanumeric b || bool_decide (b ∈ [dot; "_"%char; "-"%char]).

Definition is_valid_package_name (name : string) : bool :=
  (6 <=? String.length name)%nat && (String.length name <=? 128)%nat
  && ends_with ".capp" name && negb (starts_with_char dot name) && negb (contains_dot_dot name)
  && bytes_all package_name_byte name.

(** [cp0_store_protocol::is_lower_hex]. *)
Definition is_lower_hex (value : string) (bytes : nat) : bool :=
  (String.length value =? bytes * 2)%nat && bytes_all (λ b, is_ascii_digit b || byte_in 97 102 b) value.

Definition in_range (lo hi x : Z) : bool := (lo <=? x)%Z && (x <=? hi)%Z.

Definition AppdRequest_validate (r : AppdRequest) : result ProtocolError unit :=
  if negb (protocol_version r =? APPD_PROTOCOL_VERSION)%Z then Err (UnsupportedVersion (protocol_version r))
  else match command r with
  | CmdList _ limit | CmdStoreListInstalled _ limit =>
      if in_range 1 MAX_APP_LIST_PAGE limit then Ok tt else Err InvalidPagination
  | CmdListTasks _ limit => if in_range 1 MAX_TASK_LIST_PAGE limit then Ok tt else Err InvalidPagination
  | CmdActivateTask id | CmdCloseTask id => if (id =? 0)%Z then Err InvalidTaskId else Ok tt
  | CmdStart id | CmdStop id | CmdUninstall id | CmdRollback id =>
      if is_valid_app_id id then Ok tt else Err InvalidAppId
  | CmdLogs id limit =>
      if negb (is_valid_app_id id) then Err InvalidAppId
      else if in_range 1 MAX_LOG_LINES limit then Ok tt else Err InvalidLogLimit
  | CmdSetForegroundApp (Some id) => if is_valid_app_id id then Ok tt else Err InvalidAppId
  | CmdResetPermission id _ | CmdGetPermissions id => if is_valid_app_id id then Ok tt else Err InvalidAppId
  | CmdResolvePermission prompt _ => if (prompt =? 0)%Z then Err InvalidPromptId else Ok tt
  | CmdResolveDocument prompt document =>
      if (prompt =? 0)%Z then Err InvalidPromptId
      else match document with
           | Some d => if is_valid_document_id d then Ok tt else Err InvalidDocumentId
           | None => Ok tt
           end
  | CmdInstall name => if is_valid_package_name name then Ok tt else Err InvalidPackageName
  | CmdStoreInstall name id version sha256 size _ =>
      if negb (is_valid_package_name name) || negb (is_valid_app_id id) || negb (is_valid_app_version version)
         || negb (is_lower_hex sha256 32) || negb (in_range 1 MAX_PACKAGE_BYTES size)
      then Err InvalidStoreInstall else Ok tt
  | _ => Ok tt
  end.

(** ** Framing *)

Global Instance protocol_frame_errors : FrameErrors ProtocolError :=
  {| frame_io := ProtoIo; frame_json := InvalidJson; frame_too_large := FrameTooLarge;
     frame_unterminated := UnterminatedFrame |}.

Definition read_request (from_slice : list ascii → option AppdRequest) (r : Reader)
    : result ProtocolError (option AppdRequest) * Reader :=
  read_message MAX_FRAME_BYTES AppdRequest_validate from_slice r.

Definition write_request (to_vec : AppdRequest → option (list ascii)) (request : AppdRequest)
    : result ProtocolError (list ascii) :=
  write_message MAX_FRAME_BYTES AppdRequest_validate to_vec request.

(** ** Lemmas *)

Lemma package_name_plain name : is_valid_package_name name = true → plain_name name.
Proof.
  unfold is_valid_package_name. intros Hv. unbool_hyps. split_and!.
  - by intros ->.
  - by intros ->.
  - by intros ->.
  - eapply bytes_all_impl; [|done]. intros b Hb. apply negb_true_iff, bool_decide_eq_false_2. by intros ->.
Qed.

(** ** Properties *)

(** A request written to the socket and read back is the same request,
    whatever the sizes of the pieces the reader gets, and the reader is left
    at the first byte after it. *)
Theorem request_roundtrip to_vec from_slice request bytes chunks rest :
  line_codec to_vec from_slice → write_request to_vec request = Ok bytes →
  Forall (λ c, c ≠ []) chunks → concat chunks = bytes ++ rest →
  ∃ r', read_request from_slice (reader_of chunks) = (Ok (Some request), r') ∧ reader_bytes r' = rest.
Proof.
  apply message_roundtrip.
Qed.

Lemma request_roundtrip_witness :
  let request := mkAppdRequest 2 42 (CmdStart "dev.cardputerzero.hello") in
  let next := bytes "next" in
  ∃ r', read_request (λ bs, if bool_decide (bs = bytes "start") then Some request else None)
          (reader_of [bytes "st"; bytes "art" ++ newline :: next]) = (Ok (Some request), r') ∧
    reader_bytes r' = next.
Proof.
  intros request next.
  apply (request_roundtrip (λ r, match r with
                                 | mkAppdRequest 2 42 (CmdStart id) =>
                                     if bool_decide (id = "dev.cardputerzero.hello") then Some (bytes "start") else None
                                 | _ => None
                                 end)
    _ request (bytes "start" ++ [newline])).
  - intros r bs Hr. assert (r = request ∧ bs = bytes "start") as [-> ->].
    { revert Hr. destruct r as [v i c]. repeat (case_match; try done). intros [= <-]. unbool_hyps. by subst. }
    split; [by vm_compute|]. by apply (bool_decide_unpack _).
  - by vm_compute.
  - repeat constructor; done.
  - by vm_compute.
Defined.

(** What the handlers may rely on after validation: names of packages stay
    inside their drop directories, application ids and versions are well
    formed, pages, log requests and package sizes are bounded, and no id is
    zero. *)
Theorem validated_request_bounded r :
  AppdRequest_validate r = Ok tt →
  match command r with
  | CmdInstall name =>
      path_components (path_join "/run/cardputerzero-appd" name)
      = path_components "/run/cardputerzero-appd" ++ [Normal name]
  | CmdStoreInstall name id version sha256 size _ =>
      path_components (path_join "/run/cardputerzero-appd/store" name)
      = path_components "/run/cardputerzero-appd/store" ++ [Normal name] ∧
      is_valid_app_id id = true ∧ is_valid_app_version version = true ∧ String.length sha256 = 64%nat ∧
      (1 ≤ size ≤ 33558528)%Z
  | CmdStart id | CmdStop id | CmdUninstall id | CmdRollback id | CmdGetPermissions id
  | CmdResetPermission id _ | CmdSetForegroundApp (Some id) => is_valid_app_id id = true
  | CmdLogs id limit => is_valid_app_id id = true ∧ (1 ≤ limit ≤ 100)%Z
  | CmdList _ limit | CmdStoreListInstalled _ limit => (1 ≤ limit ≤ 8)%Z
  | CmdListTasks _ limit => (1 ≤ limit ≤ 10)%Z
  | CmdActivateTask id | CmdCloseTask id | CmdResolvePermission id _ => id ≠ 0%Z
  | CmdResolveDocument id d => id ≠ 0%Z ∧ (∀ x, d = Some x → is_valid_document_id x = true)
  | _ => True
  end.
Proof.
  assert (∀ base name, path_is_absolute base = true → is_valid_package_name name = true →
    path_components (path_join base name) = path_components base ++ [Normal name]) as Hjoin.
  { intros base name Hb Hn. apply path_components_join; [done|]. by apply package_name_plain. }
  unfold AppdRequest_validate. case_match; [done|].
  destruct (command r) eqn:Hc; try done; repeat case_match; intros; simplify_eq; unfold in_range in *; unbool_hyps;
    unfold MAX_APP_LIST_PAGE, MAX_TASK_LIST_PAGE, MAX_LOG_LINES, MAX_PACKAGE_BYTES in *; try (by auto); try lia.
  - split_and!; [by apply Hjoin|done|done| |lia|lia].
    unfold is_lower_hex in *. unbool_hyps. lia.
  - split; [done|]. intros x [= <-]. done.
Qed.

Lemma validated_request_bounded_witness :
  path_components (path_join "/run/cardputerzero-appd" "hello.capp")
  = path_components "/run/cardputerzero-appd" ++ [Normal "hello.capp"].
Proof.
  apply (validated_request_bounded (mkAppdRequest 2 1 (CmdInstall "hello.capp"))). by vm_compute.
Defined.
