(* ===== verification/Server.v ===== *)
(** * The control server (crates/cp0-appd/src/server.rs)

    The handlers of the control socket, which connect all other components,
    and the identity checks of the broker socket.  The server shares three
    locked things with its other threads: the state, the runtime sessions and
    a token counter.  A handler runs alone while it holds a lock; between two
    locks the other threads act, which is the function [other_threads] of the
    class [Threads].  A lock fails only when a thread panicked while it held
    it; that branch is left out.  A response is its data or its error code;
    texts of errors and request numbers are left out.

    The commands that install a package are in [ServerInstall].  Not modelled:
    the list of applications with its storage usage, logs, screenshots and the
    calls of the capability services. *)

From S2P Require Import Prelude RustStr Bytes Manifest HostFs Registry Policy Permissions PermissionPrompt Tasks.
From S2P Require Import Intent MediaSession DocumentPrompt Sandbox Lifecycle Installer Protocol.

(** ** Notifications (crates/cp0-appd/src/broker.rs) *)

Definition MAX_PENDING_NOTIFICATIONS : nat := 8.

Record NotificationQueue := mkNotificationQueue {
  nq_notifications : list Notification;
  nq_next_id : Z;
}.
Definition NotificationQueue_default : NotificationQueue := {| nq_notifications := []; nq_next_id := 0 |}.

Definition NotificationQueue_enqueue (q : NotificationQueue) (app_id app_name title body : string)
    : option Z * NotificationQueue :=
  if (MAX_PENDING_NOTIFICATIONS <=? length (nq_notifications q))%nat then (None, q)
  else
    let id := wrapping_next_nonzero (nq_next_id q) in
    (Some id,
     {| nq_notifications := nq_notifications q ++ [mkNotification id app_id app_name title body];
        nq_next_id := id |}).

Definition NotificationQueue_take (q : NotificationQueue) : option Notification * NotificationQueue :=
  match nq_notifications q with
  | [] => (None, q)
  | n :: rest => (Some n, {| nq_notifications := rest; nq_next_id := nq_next_id q |})
  end.

(** ** Runtime sessions *)

Record RuntimeSession := mkRuntimeSession {
  rs_token : Z;
  rs_task_id : Z;
  rs_app_id : string;
  rs_version : string;
  explicit_stop : bool;
}.

Record RuntimeState := mkRuntimeState {
  sessions : gmap Z RuntimeSession;
  rt_foreground : option Z;
}.

Definition set_explicit (b : bool) (s : RuntimeSession) : RuntimeSession :=
  {| rs_token := rs_token s; rs_task_id := rs_task_id s; rs_app_id := rs_app_id s; rs_version := rs_version s;
     explicit_stop := b |}.

(** [Some true] is a crash, [Some false] an end that was asked for. *)
Definition take_runtime_end (rt : RuntimeState) (tok : Z) : option bool * RuntimeState :=
  match sessions rt !! tok with
  | None => (None, rt)
  | Some session =>
      (Some (negb (explicit_stop session)),
       {| sessions := delete tok (sessions rt);
          rt_foreground := if bool_decide (rt_foreground rt = Some tok) then None else rt_foreground rt |})
  end.

Definition foreground_session (rt : RuntimeState) : option RuntimeSession :=
  match rt_foreground rt with Some tok => sessions rt !! tok | None => None end.

Definition runtime_app_is_foreground (rt : RuntimeState) (app_id : string) : bool :=
  match foreground_session rt with Some s => bool_decide (rs_app_id s = app_id) | None => false end.

Definition mark_explicit_stop (rt : RuntimeState) (app_id : string) : option Z * RuntimeState :=
  match List.find (λ e, bool_decide (rs_app_id e.2 = app_id)) (btree_iter Z.leb (sessions rt)) with
  | None => (None, rt)
  | Some (key, session) =>
      (Some (rs_token session),
       {| sessions := <[key := set_explicit true session]> (sessions rt); rt_foreground := rt_foreground rt |})
  end.

Definition cancel_explicit_stop (rt : RuntimeState) (tok : option Z) : RuntimeState :=
  match tok with
  | None => rt
  | Some tok => {| sessions := alter (set_explicit false) tok (sessions rt); rt_foreground := rt_foreground rt |}
  end.

Definition finish_explicit_stop (rt : RuntimeState) (tok : option Z) : RuntimeState :=
  match tok with None => rt | Some tok => (take_runtime_end rt tok).2 end.

Definition set_foreground_runtime (rt : RuntimeState) (tok : Z) : RuntimeState :=
  if bool_decide (is_Some (sessions rt !! tok))
  then {| sessions := sessions rt; rt_foreground := Some tok |} else rt.

(** ** The server *)

Record ServerState := mkServerState {
  s_manager : AppManager;
  s_tasks : TaskRegistry;
  s_permissions : PermissionCoordinator;
  s_notifications : NotificationQueue;
  s_documents : DocumentCoordinator;
  s_intents : IntentQueue;
  s_media : MediaSessionBroker;
  s_policy : DevicePolicyEngine;
}.

(** [sv_clock] numbers the points at which other threads may act. *)
Record Server := mkServer {
  sv_state : ServerState;
  sv_runtime : RuntimeState;
  sv_sequence : Z;
  sv_clock : nat;
}.

(** [AppdServer::new_with_capability_services]: the parts that are modelled. *)
Definition AppdServer_new (manager : AppManager) (permissions : PermissionCoordinator) (tasks : TaskRegistry) : Server :=
  {| sv_state := {| s_manager := manager; s_tasks := tasks; s_permissions := permissions;
                    s_notifications := NotificationQueue_default; s_documents := DocumentCoordinator_default;
                    s_intents := IntentQueue_default; s_media := MediaSessionBroker_default;
                    s_policy := DevicePolicyEngine_unmanaged |};
     sv_runtime := {| sessions := ∅; rt_foreground := None |}; sv_sequence := 1; sv_clock := 0 |}.

Class Threads := {
  other_threads : nat → Server → Server;
  spawn_fails : nat → bool;
}.

Definition with_state (f : ServerState → ServerState) (s : Server) : Server :=
  {| sv_state := f (sv_state s); sv_runtime := sv_runtime s; sv_sequence := sv_sequence s; sv_clock := sv_clock s |}.
Definition with_runtime (f : RuntimeState → RuntimeState) (s : Server) : Server :=
  {| sv_state := sv_state s; sv_runtime := f (sv_runtime s); sv_sequence := sv_sequence s; sv_clock := sv_clock s |}.

Definition set_manager (x : AppManager) (s : ServerState) : ServerState :=
  {| s_manager := x; s_tasks := s_tasks s; s_permissions := s_permissions s; s_notifications := s_notifications s;
     s_documents := s_documents s; s_intents := s_intents s; s_media := s_media s; s_policy := s_policy s |}.
Definition set_registry (x : TaskRegistry) (s : ServerState) : ServerState :=
  {| s_manager := s_manager s; s_tasks := x; s_permissions := s_permissions s; s_notifications := s_notifications s;
     s_documents := s_documents s; s_intents := s_intents s; s_media := s_media s; s_policy := s_policy s |}.
Definition set_permissions (x : PermissionCoordinator) (s : ServerState) : ServerState :=
  {| s_manager := s_manager s; s_tasks := s_tasks s; s_permissions := x; s_notifications := s_notifications s;
     s_documents := s_documents s; s_intents := s_intents s; s_media := s_media s; s_policy := s_policy s |}.
Definition set_notifications (x : NotificationQueue) (s : ServerState) : ServerState :=
  {| s_manager := s_manager s; s_tasks := s_tasks s; s_permissions := s_permissions s; s_notifications := x;
     s_documents := s_documents s; s_intents := s_intents s; s_media := s_media s; s_policy := s_policy s |}.
Definition set_documents (x : DocumentCoordinator) (s : ServerState) : ServerState :=
  {| s_manager := s_manager s; s_tasks := s_tasks s; s_permissions := s_permissions s;
     s_notifications := s_notifications s; s_documents := x; s_intents := s_intents s; s_media := s_media s;
     s_policy := s_policy s |}.
Definition set_media (x : MediaSessionBroker) (s : ServerState) : ServerState :=
  {| s_manager := s_manager s; s_tasks := s_tasks s; s_permissions := s_permissions s;
     s_notifications := s_notifications s; s_documents := s_documents s; s_intents := s_intents s; s_media := x;
     s_policy := s_policy s |}.

Definition set_intents (x : IntentQueue) (s : ServerState) : ServerState :=
  {| s_manager := s_manager s; s_tasks := s_tasks s; s_permissions := s_permissions s;
     s_notifications := s_notifications s; s_documents := s_documents s; s_intents := x; s_media := s_media s;
     s_policy := s_policy s |}.

(** The session data of an application that goes when its process goes. *)
Definition clear_app_state (app_id : string) (s : ServerState) : ServerState :=
  set_media (MediaSessionBroker_clear_app (s_media s) app_id)
    (set_documents (DocumentCoordinator_clear_app (s_documents s) app_id)
      (set_permissions (PermissionCoordinator_clear_app_session (s_permissions s) app_id) s)).

(** ** The monad of the handlers *)

Definition SV (E A : Type) : Type := Server → World → (result E A * Server) * World.

Definition sv_lift {E A} (r : result E A) : SV E A := λ s w, ((r, s), w).
Definition sv_ret {E A} (a : A) : SV E A := sv_lift (Ok a).
Definition sv_err {E A} (e : E) : SV E A := sv_lift (Err e).
Definition sv_bind {E A B} (m : SV E A) (k : A → SV E B) : SV E B := λ s w,
  match m s w with
  | ((Ok a, s), w) => k a s w
  | ((Err e, s), w) => ((Err e, s), w)
  | ((Panicked, s), w) => ((Panicked, s), w)
  end.
Definition sv_try {E F A B} (m : SV E A) (k : result E A → SV F B) : SV F B := λ s w,
  let '((r, s), w) := m s w in k r s w.
Definition sv_map_err {E F A} (f : E → F) (m : SV E A) : SV F A := λ s w,
  let '((r, s), w) := m s w in ((map_err f r, s), w).
Definition sv_get {E A} (f : Server → A) : SV E A := λ s w, ((Ok (f s), s), w).
Definition sv_modify {E} (f : Server → Server) : SV E unit := λ s w, ((Ok tt, f s), w).
(** A query of the host through the state. *)
Definition sv_io {E A} (f : ServerState → IO E A) : SV E A := λ s w,
  let '(r, w) := f (sv_state s) w in ((r, s), w).

Notation "'let@' x ':=' m 'in' k" := (sv_bind m (λ x, k))
  (at level 10, x name, m at level 100, k at level 200,
   format "'[v' 'let@'  x  ':='  m  'in' '/' k ']'") : rust_scope.

(** An operation of the task registry on the state. *)
Definition sv_tasks {A} (f : TaskRegistry → result TaskError A * TaskRegistry) : SV TaskError A := λ s w,
  let '(r, tasks) := f (s_tasks (sv_state s)) in ((r, with_state (set_registry tasks) s), w).
(** An operation on the runtime sessions. *)
Definition sv_sessions {E A} (f : RuntimeState → A * RuntimeState) : SV E A := λ s w,
  let '(a, rt) := f (sv_runtime s) in ((Ok a, with_runtime (λ _, rt) s), w).
(** An operation of the application manager that changes it. *)
Definition sv_manager {A} (f : AppManager → World → (result AppManagerError A * AppManager) * World)
    : SV AppManagerError A := λ s w,
  let '((r, am), w) := f (s_manager (sv_state s)) w in ((r, with_state (set_manager am) s), w).
Definition sv_permissions {A}
    (f : PermissionCoordinator → World → (result PermissionPromptError A * PermissionCoordinator) * World)
    : SV PermissionPromptError A := λ s w,
  let '((r, c), w) := f (s_permissions (sv_state s)) w in ((r, with_state (set_permissions c) s), w).

(** ** Errors *)

Inductive CommandError :=
  | CeManager (e : AppManagerError)
  | CeTask (e : TaskError)
  | CeStorage
  | CePermission (e : PermissionPromptError)
  | CeDocument (e : DocumentPromptError)
  | CePolicy (e : PolicyError)
  | CeRestricted.

Definition manager_error_response (e : AppManagerError) : ErrorCode :=
  match e with
  | AmNotInstalled _ => CodeNotFound
  | AmProtectedBuiltin _ => CodeConflict
  | AmAlreadyRunning _ => CodeAlreadyRunning
  | AmForegroundBusy _ => CodeResourceExhausted
  | AmNotRunning _ => CodeNotRunning
  | AmNoRollback _ => CodeNotFound
  | AmRegistry RegExhausted => CodeResourceExhausted
  | _ => CodeInternal
  end.

Definition command_error_response (e : CommandError) : ErrorCode :=
  match e with
  | CeManager e => manager_error_response e
  | CeTask (TaskNotFound _) => CodeNotFound
  | CeTask (TaskNotResident _) => CodeUnavailable
  | CeTask (AppAlreadyResident _) => CodeAlreadyRunning
  | CeTask _ => CodeConflict
  | CeStorage => CodeUnavailable
  | CePermission (NoPendingPrompt | StalePrompt) => CodeNotFound
  | CePermission (PromptBusy _) => CodeResourceExhausted
  | CePermission (PromptPermission _) => CodeInternal
  | CeDocument (DocNoPendingPrompt | DocStalePrompt) => CodeNotFound
  | CeDocument DocInvalidSelection => CodeInvalidRequest
  | CeDocument (DocBusy _) => CodeResourceExhausted
  | CeDocument DocEmptyDocumentList => CodeNotFound
  | CePolicy (PolLocked _) | CeRestricted => CodeUnauthorized
  | CePolicy _ => CodeInternal
  end.

Definition task_blocks_package_change (tasks : TaskRegistry) (app_id : string) : bool :=
  bool_decide (is_Some (TaskRegistry_task_for_app tasks app_id)).

Section server.
  Context `{Host} `{System} `{Threads} `{Codec AppRegistry} `{Codec PermissionStore} `{Codec DevicePolicy}.
  Context (manifest_from_slice : list ascii → option AppManifest).

(** Taking a lock: the other threads acted before. *)
Definition sv_lock {E} : SV E unit := λ s w,
  let s' := other_threads (sv_clock s) s in
  ((Ok tt, {| sv_state := sv_state s'; sv_runtime := sv_runtime s'; sv_sequence := sv_sequence s';
              sv_clock := S (sv_clock s) |}), w).

Definition installed_manifest (app_id : string) : SV CommandError AppManifest :=
  sv_map_err CeManager (sv_io (λ st, AppManager_installed_manifest manifest_from_slice (s_manager st) app_id)).

(** ** Starting and activating *)

Record Activation := mkActivation {
  ac_task_id : Z;
  ac_token : Z;
  ac_unit : string;
  ac_started : bool;
}.

(** The end of [start_or_activate_app] for a task that is resident. *)
Definition activate_resident (app_id : string) (task : TaskRecord) : SV CommandError Activation :=
  let@ _ := (if bool_decide (t_state task = Frozen)
             then let@ _ := sv_lock in
                  sv_map_err CeManager (sv_io (λ st, AppManager_thaw (s_manager st) app_id))
             else sv_ret tt) in
  let@ _ := sv_lock in
  let@ _ := sv_map_err CeTask (sv_tasks (λ r, TaskRegistry_activate r (task_id task))) in
  let@ runtime := sv_lift (expect (t_runtime task)) in
  sv_ret {| ac_task_id := task_id task; ac_token := token runtime; ac_unit := unit_name runtime; ac_started := false |}.

(** The block of [start_or_activate_app] that makes room. *)
Definition evict_victim (victim : TaskRecord) : SV CommandError unit :=
  let checkpoint := if CheckpointStatus_is_available (t_checkpoint victim) then t_checkpoint victim
                    else Unavailable CkUnsupported in
  let@ _ := (if TaskState_is_resident (t_state victim) then
               let@ _ := sv_lock in
               let@ stop_token := sv_sessions (λ rt, mark_explicit_stop rt (t_app_id victim)) in
               let@ _ := sv_lock in
               sv_try (sv_io (λ st, AppManager_stop (s_manager st) (t_app_id victim))) (λ stopped,
                 let@ _ := sv_lock in
                 match stopped with
                 | Err e => let@ _ := sv_modify (with_runtime (λ rt, cancel_explicit_stop rt stop_token)) in
                            sv_err (CeManager e)
                 | Panicked => sv_lift Panicked
                 | Ok _ => sv_modify (with_runtime (λ rt, finish_explicit_stop rt stop_token))
                 end)
             else sv_ret tt) in
  let@ _ := sv_lock in
  let@ _ := sv_map_err CeTask (sv_tasks (λ r, TaskRegistry_evict_capacity_victim r
              {| ev_task_id := task_id victim; ev_status := checkpoint |})) in
  sv_modify (with_state (clear_app_state (t_app_id victim))).

(** [self.runtime_sequence.fetch_add(1, Relaxed)]. *)
Definition next_token {E} : SV E Z := λ s w,
  ((Ok (sv_sequence s),
    {| sv_state := sv_state s; sv_runtime := sv_runtime s; sv_sequence := wrapping_add_u64 (sv_sequence s) 1;
       sv_clock := sv_clock s |}), w).

(** The end of [start_or_activate_app] for an application that is started. *)
Definition start_new (app_id version : string) : SV CommandError Activation :=
  let@ tok := next_token in
  let@ _ := sv_lock in
  let@ unit := sv_map_err CeManager (sv_io (λ st, AppManager_start manifest_from_slice (s_manager st) app_id)) in
  let@ runtime := sv_lift (map_err CeTask (RuntimeBinding_new tok unit)) in
  sv_try (sv_tasks (λ r, TaskRegistry_launch r app_id version runtime None)) (λ launched,
    match launched with
    | Ok outcome =>
        let@ _ := sv_modify (with_state (λ st, set_media (MediaSessionBroker_clear (s_media st)) st)) in
        sv_ret {| ac_task_id := lo_task_id outcome; ac_token := tok; ac_unit := unit; ac_started := true |}
    | Err e => sv_try (sv_io (λ st, AppManager_stop (s_manager st) app_id)) (λ _, sv_err (CeTask e))
    | Panicked => sv_lift Panicked
    end).

Definition start_or_activate_app (app_id : string) : SV CommandError Activation :=
  let@ _ := sv_lock in
  let@ allowed := sv_get (λ s, DevicePolicyEngine_allows_app (s_policy (sv_state s)) app_id) in
  let@ _ := (if allowed then sv_ret tt else sv_err CeRestricted) in
  let@ manifest := installed_manifest app_id in
  let@ tasks := sv_get (λ s, s_tasks (sv_state s)) in
  match TaskRegistry_task_for_app tasks app_id with
  | Some task =>
      if TaskState_is_resident (t_state task) then activate_resident app_id task
      else start_new app_id (m_version manifest)
  | None =>
      let@ _ := (if (length (Tasks.tasks tasks) =? capacity tasks)%nat
                 then let@ victim := sv_lift (expect (TaskRegistry_oldest_task tasks)) in evict_victim victim
                 else sv_ret tt) in
      start_new app_id (m_version manifest)
  end.

(** The session is recorded and comes to the front; without a thread to watch
    it, it is dropped again. *)
Definition start_runtime_monitor (id tok : Z) (app_id version : string) : SV CommandError unit :=
  let@ _ := sv_lock in
  let@ _ := sv_modify (with_runtime (λ rt,
    {| sessions := <[tok := mkRuntimeSession tok id app_id version false]> (sessions rt);
       rt_foreground := Some tok |})) in
  let@ clock := sv_get sv_clock in
  if spawn_fails clock
  then let@ _ := sv_lock in sv_modify (with_runtime (λ rt, (take_runtime_end rt tok).2))
  else sv_ret tt.

Definition after_activation (a : Activation) (name : TaskRecord → string) : SV CommandError unit :=
  if ac_started a then
    let@ _ := sv_lock in
    let@ tasks := sv_get (λ s, s_tasks (sv_state s)) in
    let@ task := sv_lift (expect (TaskRegistry_task tasks (ac_task_id a))) in
    start_runtime_monitor (ac_task_id a) (ac_token a) (name task) (t_version task)
  else
    let@ _ := sv_lock in
    sv_modify (with_runtime (λ rt, set_foreground_runtime rt (ac_token a))).

Definition start_app_control (app_id : string) : SV ErrorCode ResponseData :=
  sv_map_err command_error_response
    (let@ a := start_or_activate_app app_id in
     let@ _ := after_activation a t_app_id in
     sv_ret (RdStarted app_id (ac_unit a))).

Definition activate_task_control (id : Z) : SV ErrorCode ResponseData :=
  let@ _ := sv_lock in
  let@ tasks := sv_get (λ s, s_tasks (sv_state s)) in
  match TaskRegistry_task tasks id with
  | None => sv_err CodeNotFound
  | Some task =>
      sv_map_err command_error_response
        (let@ a := start_or_activate_app (t_app_id task) in
         let@ _ := after_activation a (λ _, t_app_id task) in
         sv_ret (RdTaskActivated (ac_task_id a) (t_app_id task) (ac_token a)))
  end.

(** ** Stopping and switching *)

Definition clear_after_stop (app_id : string) : SV AppManagerError unit :=
  sv_modify (with_state (clear_app_state app_id)).

(** The closure of [stop_app_control], under the state lock. *)
Definition stop_under_lock (app_id : string) : SV AppManagerError ResponseData :=
  let@ task := sv_get (λ s, task_id <$> TaskRegistry_task_for_app (s_tasks (sv_state s)) app_id) in
  let@ running := sv_io (λ st, AppManager_is_running (s_manager st) app_id) in
  let@ _ := (if running then sv_io (λ st, AppManager_stop (s_manager st) app_id)
             else match task with None => sv_err (AmNotRunning app_id) | Some _ => sv_ret tt end) in
  let@ _ := match task with
            | Some id => let@ _ := sv_map_err (λ _, AmNotRunning app_id) (sv_tasks (λ r, TaskRegistry_close r id)) in
                         sv_ret tt
            | None => sv_ret tt
            end in
  let@ _ := clear_after_stop app_id in
  sv_ret (RdStopped app_id).

Definition stop_app_control (app_id : string) : SV ErrorCode ResponseData :=
  let@ _ := sv_lock in
  let@ runtime_token := sv_sessions (λ rt, mark_explicit_stop rt app_id) in
  let@ _ := sv_lock in
  sv_try (stop_under_lock app_id) (λ result,
    let@ _ := sv_lock in
    match result with
    | Ok data => let@ _ := sv_modify (with_runtime (λ rt, finish_explicit_stop rt runtime_token)) in sv_ret data
    | Err e => let@ _ := sv_modify (with_runtime (λ rt, cancel_explicit_stop rt runtime_token)) in
               sv_err (command_error_response (CeManager e))
    | Panicked => sv_lift Panicked
    end).

(** [close_task_control] from the second state lock on. *)
Definition close_under_lock (task : TaskRecord) : SV CommandError unit :=
  let@ _ := (if TaskState_is_resident (t_state task)
             then sv_map_err CeManager (sv_io (λ st, AppManager_stop (s_manager st) (t_app_id task)))
             else sv_ret tt) in
  let@ _ := sv_map_err CeTask (sv_tasks (λ r, TaskRegistry_close r (task_id task))) in
  sv_map_err CeManager (clear_after_stop (t_app_id task)).

Definition close_task_control (id : Z) : SV ErrorCode ResponseData :=
  let@ _ := sv_lock in
  let@ tasks := sv_get (λ s, s_tasks (sv_state s)) in
  match TaskRegistry_task tasks id with
  | None => sv_err CodeNotFound
  | Some task =>
      let runtime_token := token <$> t_runtime task in
      let@ _ := match runtime_token with
                | Some _ => let@ _ := sv_lock in
                            let@ _ := sv_sessions (λ rt, mark_explicit_stop rt (t_app_id task)) in sv_ret tt
                | None => sv_ret tt
                end in
      let@ _ := sv_lock in
      sv_try (close_under_lock task) (λ result,
        let@ _ := sv_lock in
        match result with
        | Ok _ => let@ _ := sv_modify (with_runtime (λ rt, finish_explicit_stop rt runtime_token)) in
                  sv_ret (RdTaskClosed id (t_app_id task))
        | Err e => let@ _ := sv_modify (with_runtime (λ rt, cancel_explicit_stop rt runtime_token)) in
                   sv_err (command_error_response e)
        | Panicked => sv_lift Panicked
        end)
  end.

Definition set_foreground (tok : option Z) : SV ErrorCode unit :=
  sv_modify (with_runtime (λ rt, {| sessions := sessions rt; rt_foreground := tok |})).

(** Both locks are held to the end. *)
Definition set_foreground_app_control (app_id : option string) : SV ErrorCode ResponseData :=
  let@ _ := sv_lock in
  match app_id with
  | None => let@ _ := set_foreground None in sv_ret (RdForegroundAppChanged None)
  | Some app_id =>
      let@ s := sv_get id in
      match TaskRegistry_task_for_app (s_tasks (sv_state s)) app_id with
      | None => sv_err CodeNotFound
      | Some task =>
          match t_runtime task with
          | None => sv_err CodeUnavailable
          | Some binding =>
              let known := match sessions (sv_runtime s) !! token binding with
                           | Some session => bool_decide (rs_app_id session = app_id)
                           | None => false
                           end in
              if negb known then sv_err CodeUnavailable
              else
                let@ _ := (if bool_decide (t_state task = Foreground) then sv_ret tt
                           else sv_map_err (command_error_response ∘ CeTask)
                                  (let@ _ := sv_tasks (λ r, TaskRegistry_activate r (task_id task)) in sv_ret tt)) in
                let@ _ := set_foreground (Some (token binding)) in
                sv_ret (RdForegroundAppChanged (Some app_id))
          end
      end
  end.

Definition dispatch_media_action (action : MediaAction) : SV ErrorCode ResponseData :=
  let@ _ := sv_lock in
  let@ s := sv_get id in
  match foreground_session (sv_runtime s) with
  | None => sv_err CodeUnavailable
  | Some session =>
      let '(r, media) := MediaSessionBroker_dispatch (s_media (sv_state s)) (rs_app_id session) (rs_token session) action in
      let@ _ := sv_modify (with_state (set_media media)) in
      match r with
      | Ok _ => sv_ret (RdMediaActionDispatched (rs_app_id session) action)
      | Err (MediaUnavailable | MediaUnsupported) => sv_err CodeUnavailable
      | Err MediaFull => sv_err CodeResourceExhausted
      | Panicked => sv_lift Panicked
      end
  end.

(** ** The end of a runtime, seen by its monitor *)

(** The two critical sections of [monitor_runtime] after the unit has stopped. *)
Definition monitor_take (tok : Z) (s : Server) : option bool * Server :=
  let '(crashed, rt) := take_runtime_end (sv_runtime s) tok in (crashed, with_runtime (λ _, rt) s).
Definition monitor_clean (tok : Z) (app_id : string) (crashed : bool) (s : Server) : Server :=
  with_state (λ st,
    clear_app_state app_id
      (if crashed then set_registry (TaskRegistry_runtime_exited (s_tasks st) tok).2 st else st)) s.

(** ** Packages *)

Definition uninstall_command (app_id : string) : SV CommandError ResponseData :=
  let@ _ := sv_lock in
  let@ has_task := sv_get (λ s, task_blocks_package_change (s_tasks (sv_state s)) app_id) in
  let@ _ := (if is_removable_app app_id then sv_ret tt else sv_err (CeManager (AmProtectedBuiltin app_id))) in
  let@ running := sv_map_err CeManager (sv_io (λ st, AppManager_is_running (s_manager st) app_id)) in
  let@ _ := (if running || has_task then sv_err (CeManager (AmAlreadyRunning app_id)) else sv_ret tt) in
  let@ _ := sv_map_err CePermission (sv_permissions (λ c, PermissionCoordinator_reset_app c app_id)) in
  let@ _ := sv_modify (with_state (λ st, set_documents (DocumentCoordinator_clear_app (s_documents st) app_id) st)) in
  let@ removed := sv_map_err CeManager (sv_manager (λ am, AppManager_uninstall am app_id)) in
  let@ _ := sv_modify (with_state (λ st, set_media (MediaSessionBroker_clear_app (s_media st) app_id) st)) in
  sv_ret (RdUninstalled (ua_app_id removed) true (package_cleanup_pending removed)).

Definition rollback_command (app_id : string) : SV CommandError ResponseData :=
  let@ _ := sv_lock in
  let@ blocked := sv_get (λ s, task_blocks_package_change (s_tasks (sv_state s)) app_id) in
  if blocked then sv_err (CeManager (AmAlreadyRunning app_id))
  else
    let@ installed := sv_map_err CeManager (sv_manager (λ am, AppManager_rollback manifest_from_slice am app_id)) in
    sv_ret (RdRolledBack (ia_app_id installed) (ia_version installed)).

Definition commit_prepared_install (now : Z) (prepared : PreparedInstall) (allow_replay : bool)
    : SV CommandError ResponseData :=
  let m := pi_manifest prepared in
  let@ _ := sv_lock in
  let@ previous_version := sv_get (λ s, match AppRegistry_account (am_registry (s_manager (sv_state s))) (m_id m) with
                                        | Some a => installed_version a | None => None end) in
  let idempotent_replay := allow_replay && bool_decide (previous_version = Some (m_version m)) in
  let@ blocked := sv_get (λ s, task_blocks_package_change (s_tasks (sv_state s)) (m_id m)) in
  let@ busy := (if bool_decide (is_Some previous_version) && negb idempotent_replay then
                  if blocked then sv_ret true
                  else sv_map_err CeManager (sv_io (λ st, AppManager_is_running (s_manager st) (m_id m)))
                else sv_ret false) in
  let@ _ := (if busy then sv_err (CeManager (AmAlreadyRunning (m_id m))) else sv_ret tt) in
  let@ account := sv_map_err CeManager (sv_manager (λ am w,
                    let '(r, am) := AppManager_prepare_account am (m_id m) in ((r, am), w))) in
  let@ ids := sv_map_err CeManager (sv_io (λ _, lookup_unix_account (unix_user account))) in
  let@ _ := (if negb (ids.1 =? unix_uid account)%Z || negb (ids.2 =? unix_uid account)%Z
             then sv_err (CeManager (AmInvalidHostIdentity
                    (UidMismatch (unix_user account) ids.1 ids.2 (unix_uid account))))
             else sv_ret tt) in
  let@ installed := sv_map_err CeManager (sv_manager (λ am, AppManager_mark_installed manifest_from_slice now am m)) in
  sv_ret (RdInstalled (ia_app_id installed) (ia_version installed)
            (if idempotent_replay then None else previous_version)
            (match pi_trust prepared with TrustStore => "store" | TrustDeveloperMode => "developer-mode" end)).

(** ** Permissions, settings and prompts *)

Definition permission_state (st : ServerState) (m : AppManifest) (request : PermissionRequest)
    : result CommandError AppPermissionState :=
  let? decision :=
    if DevicePolicyEngine_denies_permission (s_policy st) (pr_name request) then Ok DecisionPolicyDenied
    else match PermissionCoordinator_authorization (s_permissions st) m (pr_name request) with
         | AuthAllow => Ok DecisionAllowed
         | AuthDeny => Ok DecisionDenied
         | AuthPrompt => Ok DecisionAsk
         | AuthUndeclared => Panicked
         end in
  Ok (mkAppPermissionState (pr_name request) decision).

Fixpoint collect {E A B} (f : A → result E B) (l : list A) : result E (list B) :=
  match l with
  | [] => Ok []
  | x :: l => let? y := f x in let? ys := collect f l in Ok (y :: ys)
  end.

Definition get_permissions (app_id : string) : SV CommandError ResponseData :=
  let@ _ := sv_lock in
  let@ m := installed_manifest app_id in
  let@ st := sv_get sv_state in
  let@ states := sv_lift (collect (permission_state st m) (m_permissions m)) in
  sv_ret (RdApplicationPermissions app_id states).

Definition resolve_permission (prompt : Z) (choice : PermissionChoice) : SV CommandError ResponseData :=
  let@ _ := sv_lock in
  let@ pending := sv_get (λ s, PermissionCoordinator_pending (s_permissions (sv_state s))) in
  let@ pending := sv_lift (ok_or pending (CePermission NoPendingPrompt)) in
  let@ m := installed_manifest (pp_app_id pending) in
  let@ resolved := sv_map_err CePermission (sv_permissions (λ c, PermissionCoordinator_resolve c prompt m choice)) in
  sv_ret (RdPermissionResolved (prompt_id resolved) (pp_app_id resolved) (pp_permission resolved) choice).

Definition reset_permission (app_id : string) (p : Permission) : SV CommandError ResponseData :=
  let@ _ := sv_lock in
  let@ m := installed_manifest app_id in
  let@ _ := sv_map_err CePermission (sv_permissions (λ c, PermissionCoordinator_reset c m p)) in
  sv_ret (RdPermissionReset app_id p).

Definition get_device_settings : SV CommandError ResponseData :=
  let@ _ := sv_lock in
  let@ settings := sv_map_err CePolicy (sv_io (λ st, DevicePolicyEngine_settings (s_policy st))) in
  sv_ret (RdDeviceSettings settings).

Definition set_device_mode (mode : DeviceMode) (enabled : bool) : SV CommandError ResponseData :=
  let@ _ := sv_lock in
  let@ _ := sv_map_err CePolicy (sv_io (λ st, DevicePolicyEngine_set_mode (s_policy st) mode enabled)) in
  let@ settings := sv_map_err CePolicy (sv_io (λ st, DevicePolicyEngine_settings (s_policy st))) in
  sv_ret (RdDeviceModeChanged settings).

Definition take_notification : SV CommandError ResponseData :=
  let@ _ := sv_lock in
  let@ q := sv_get (λ s, NotificationQueue_take (s_notifications (sv_state s))) in
  let@ _ := sv_modify (with_state (set_notifications q.2)) in
  sv_ret (RdNextNotification q.1).

Definition resolve_document (prompt : Z) (document : option string) : SV CommandError ResponseData :=
  let@ _ := sv_lock in
  let@ r := sv_get (λ s, DocumentCoordinator_resolve (s_documents (sv_state s)) prompt document) in
  let@ _ := sv_modify (with_state (set_documents r.2)) in
  let@ selected := sv_lift (map_err CeDocument r.1) in
  sv_ret (RdDocumentResolved prompt selected.1 selected.2).

(** ** The identity of a broker caller *)

Record PeerCredentials := mkPeerCredentials { peer_pid : Z; peer_uid : Z; peer_gid : Z }.

Inductive BrokerErrorCode :=
  | BkInvalidRequest | BkUnauthorized | BkUndeclared | BkDenied | BkResourceExhausted | BkUnavailable
  | BkBlockedAddress | BkUpstreamUnavailable | BkTimeout | BkTls | BkTooManyRedirects | BkResponseTooLarge
  | BkNotFound | BkAmbiguous | BkInternal.

(** Why a capability call is not carried out: an error or a pending prompt. *)
Inductive BrokerRefusal :=
  | RefusalError (code : BrokerErrorCode)
  | RefusalPermissionPending (prompt_id : Z).

Record AuthorizedApp := mkAuthorizedApp {
  aa_app_id : string;
  aa_app_name : string;
  aa_storage_quota_bytes : Z;
}.

(** [line.splitn(3, ':')], third field. *)
Definition third_field (line : string) : option string :=
  match split_once ":" line with
  | Some (_, rest) => snd <$> split_once ":" rest
  | None => None
  end.

Definition cgroup_contains_unit (cgroup unit : string) : bool :=
  existsb (λ line, match third_field line with
                   | Some path => existsb (λ c, bool_decide (component_text c = unit)) (path_components path)
                   | None => false
                   end) (str_lines cgroup).

(** [std::fs::read_to_string]: a file that is not UTF-8 is an error. *)
Definition fs_read_to_string (path : string) : IO IoError string :=
  let! contents := fs_read_file path in
  io_lift (ok_or (from_utf8 contents) OtherIo).

Definition process_is_in_unit (pid : Z) (unit : string) : IO IoError bool :=
  let! cgroup := fs_read_to_string ("/proc/" +:+ decimal pid +:+ "/cgroup") in
  io_ret (cgroup_contains_unit cgroup unit).

Definition broker_error {A} (code : BrokerErrorCode) : SV BrokerRefusal A := sv_err (RefusalError code).

Definition authenticate_broker_caller (peer : PeerCredentials) : SV BrokerRefusal AuthorizedApp :=
  let@ _ := sv_lock in
  let@ am := sv_get (λ s, s_manager (sv_state s)) in
  let@ installed := sv_lift (map_err (λ _, RefusalError BkInternal) (AppManager_installed_app_for_uid am (peer_uid peer))) in
  match installed with
  | None => broker_error BkUnauthorized
  | Some installed =>
      let app_id := ia_app_id installed in
      let@ unit := sv_lift (map_err (λ _, RefusalError BkInternal) (AppManager_unit_for_app am app_id)) in
      let@ inside := sv_map_err (λ _, RefusalError BkInternal) (sv_io (λ _, process_is_in_unit (peer_pid peer) unit)) in
      if negb inside then broker_error BkUnauthorized
      else
        let@ m := sv_map_err (λ _, RefusalError BkInternal) (installed_manifest app_id) in
        sv_ret {| aa_app_id := m_id m; aa_app_name := m_name m;
                  aa_storage_quota_bytes := storage_mb (m_resources m) * 1048576 |}
  end.

Definition authorize_broker_caller (peer : PeerCredentials) (p : Permission) : SV BrokerRefusal AuthorizedApp :=
  let@ app := authenticate_broker_caller peer in
  let@ _ := sv_lock in
  let@ m := sv_map_err (λ _, RefusalError BkInternal) (installed_manifest (aa_app_id app)) in
  let@ denied := sv_get (λ s, DevicePolicyEngine_denies_permission (s_policy (sv_state s)) p) in
  if denied then broker_error BkDenied
  else
    sv_try (sv_permissions (λ c w, let '(r, c) := PermissionCoordinator_request c m p in ((r, c), w))) (λ r,
      match r with
      | Ok ReqAllow =>
          sv_ret {| aa_app_id := m_id m; aa_app_name := m_name m;
                    aa_storage_quota_bytes := aa_storage_quota_bytes app |}
      | Ok (ReqPrompt prompt) => sv_err (RefusalPermissionPending (prompt_id prompt))
      | Ok ReqDeny => broker_error BkDenied
      | Ok ReqUndeclared => broker_error BkUndeclared
      | Err (PromptBusy _) => broker_error BkResourceExhausted
      | Err _ => broker_error BkInternal
      | Panicked => sv_lift Panicked
      end).

Definition with_current_media_caller {A} (peer : PeerCredentials)
    (operation : string → Z → MediaSessionBroker → A * MediaSessionBroker) : SV BrokerRefusal A :=
  let@ app := authenticate_broker_caller peer in
  let@ _ := sv_lock in
  let@ s := sv_get id in
  match foreground_session (sv_runtime s) with
  | Some session =>
      if bool_decide (rs_app_id session = aa_app_id app) then
        let '(a, media) := operation (aa_app_id app) (rs_token session) (s_media (sv_state s)) in
        let@ _ := sv_modify (with_state (set_media media)) in
        sv_ret a
      else broker_error BkUnavailable
  | None => broker_error BkUnavailable
  end.

End server.

(** ** Who may send which control command *)

Definition control_command_authorized (uid : Z) (c : AppdCommand) (trusted_uids store_installer_uids : gset Z)
    (shell_uid : option Z) : bool :=
  match c with
  | CmdImportScreenshot | CmdSetForegroundApp _ => bool_decide (shell_uid = Some uid)
  | _ =>
      if bool_decide (uid ∈ store_installer_uids) then
        match c with CmdStoreInstall _ _ _ _ _ _ | CmdStoreListInstalled _ _ => true | _ => false end
      else if negb (bool_decide (uid ∈ trusted_uids)) then false
      else match c with
           | CmdInstall _ | CmdRollback _ | CmdLogs _ _ => (uid =? 0)%Z
           | CmdStoreInstall _ _ _ _ _ _ | CmdStoreListInstalled _ _ => false
           | _ => true
           end
  end.

(** ** Receivers of intents *)

Inductive IntentTargetError := TargetNotFound | TargetAmbiguous.

Definition select_intent_target (action : string) (manifests : list AppManifest) : result IntentTargetError string :=
  match List.filter (λ m, existsb (λ candidate, bool_decide (candidate = action)) (m_intents m)) manifests with
  | [] => Err TargetNotFound
  | [first] => Ok (m_id first)
  | _ => Err TargetAmbiguous
  end.
