(* ===== verification/ServerLogic.v ===== *)
(** * Invariants of the control server

    A Hoare logic for the handlers of [Server]: [sv_spec P m Q] says that from
    a server with [P] the handler [m] ends with an outcome and a server in [Q].
    Between two locks the other threads act; what they may do is the step
    relation [env_step], and an assertion survives a lock when it is stable
    under these steps.

    The theorems: the server invariant holds in every reachable state, with
    other threads acting at every lock; handlers of the lifecycle never panic;
    what a successful start has established; who may do what on the two
    sockets; and how a stop that fails half-way leaves a task behind that
    looks alive. *)

From S2P Require Import Prelude RustStr Bytes Manifest HostFs Registry Policy Permissions PermissionPrompt Tasks.
From S2P Require Import Intent MediaSession DocumentPrompt Sandbox Lifecycle Installer Protocol Server.

(** ** The invariant *)

Record server_inv (s : Server) : Prop := {
  si_registry : registry_wf (am_registry (s_manager (sv_state s)));
  si_tasks : tasks_wf (s_tasks (sv_state s));
  si_capacity : (0 < capacity (s_tasks (sv_state s)))%nat;
  si_sequence : (1 ≤ sv_sequence s)%Z;
  si_tokens : ∀ x, x ∈ tokens (tasks (s_tasks (sv_state s))) → (x < sv_sequence s)%Z;
  si_sessions : ∀ k v, sessions (sv_runtime s) !! k = Some v → rs_token v = k ∧ (k < sv_sequence s)%Z;
  si_foreground : ∀ k, rt_foreground (sv_runtime s) = Some k → is_Some (sessions (sv_runtime s) !! k);
}.

(** The 64-bit counters have not run out. *)
Definition room (s : Server) : Prop :=
  counters_left (s_tasks (sv_state s)) ∧ (sv_sequence s < u64_max)%Z.

(** A token that no task and no session has. *)
Definition fresh_token (tok : Z) (s : Server) : Prop :=
  (1 ≤ tok < sv_sequence s)%Z ∧ tok ∉ tokens (tasks (s_tasks (sv_state s))) ∧ sessions (sv_runtime s) !! tok = None.

(** ** The other threads

    Monitors end sessions and clean up after them, in two critical sections;
    the broker asks for permissions and changes queues and sessions of media. *)

Inductive env_step : Server → Server → Prop :=
  | env_take tok s : env_step s (monitor_take tok s).2
  | env_clean tok app_id crashed s : env_step s (monitor_clean tok app_id crashed s)
  | env_request m p s :
      env_step s (with_state (λ st, set_permissions (PermissionCoordinator_request (s_permissions st) m p).2 st) s)
  | env_notify q s : env_step s (with_state (set_notifications q) s)
  | env_documents d s : env_step s (with_state (set_documents d) s)
  | env_media b s : env_step s (with_state (set_media b) s)
  | env_intents q s : rtc intent_step (s_intents (sv_state s)) q → env_step s (with_state (set_intents q) s)
  | env_clock n s :
      env_step s {| sv_state := sv_state s; sv_runtime := sv_runtime s; sv_sequence := sv_sequence s; sv_clock := n |}.

Definition tame (T : Threads) : Prop := ∀ n s, rtc env_step s (other_threads n s).

Definition stable (P : Server → Prop) : Prop := ∀ s s', env_step s s' → P s → P s'.

Lemma stable_and P Q : stable P → stable Q → stable (λ s, P s ∧ Q s).
Proof. intros HP HQ s s' Hs [??]. split; eauto. Qed.
Lemma stable_pure φ : stable (λ _, φ).
Proof. by intros ?. Qed.

(** ** What the steps change *)

Lemma clear_app_tasks app st : s_tasks (clear_app_state app st) = s_tasks st.
Proof. done. Qed.

Lemma exited_tokens r tok x : x ∈ tokens (tasks (TaskRegistry_runtime_exited r tok).2) → x ∈ tokens (tasks r).
Proof.
  unfold TaskRegistry_runtime_exited. destruct (List.find _ _); [|done]. simpl.
  intros (t1&b&Ht&Hb&<-)%tokens_elem. apply update_first_elem in Ht as [Ht|(y&Hy&_&->)]; [|done].
  apply tokens_elem. eauto.
Qed.

Lemma exited_counters r tok :
  let r' := (TaskRegistry_runtime_exited r tok).2 in
  capacity r' = capacity r ∧ next_task_id r' = next_task_id r ∧ next_sequence r' = next_sequence r.
Proof. unfold TaskRegistry_runtime_exited. by destruct (List.find _ _). Qed.

(** The tasks after a step of another thread: unchanged, or one has exited. *)
Lemma env_tasks s s' :
  env_step s s' →
  s_tasks (sv_state s') = s_tasks (sv_state s) ∨
  ∃ tok, s_tasks (sv_state s') = (TaskRegistry_runtime_exited (s_tasks (sv_state s)) tok).2.
Proof.
  destruct 1 as [tok s|tok app crashed s|m p s|q s|d s|b s|q s Hq|n s]; auto.
  - left. unfold monitor_take. by destruct (take_runtime_end _ _).
  - destruct crashed; [right; by exists tok|by left].
Qed.

Lemma env_same s s' :
  env_step s s' →
  s_manager (sv_state s') = s_manager (sv_state s) ∧ s_policy (sv_state s') = s_policy (sv_state s) ∧
  sv_sequence s' = sv_sequence s.
Proof.
  destruct 1 as [tok s|tok app crashed s|m p s|q s|d s|b s|q s Hq|n s]; try done.
  - unfold monitor_take. by destruct (take_runtime_end _ _).
  - by destruct crashed.
Qed.

(** Sessions only disappear, and the foreground is cleared with its session. *)
Lemma take_runtime_end_inv rt tok :
  (∀ k v, sessions (take_runtime_end rt tok).2 !! k = Some v → sessions rt !! k = Some v) ∧
  ((∀ k, rt_foreground rt = Some k → is_Some (sessions rt !! k)) →
   ∀ k, rt_foreground (take_runtime_end rt tok).2 = Some k → is_Some (sessions (take_runtime_end rt tok).2 !! k)).
Proof.
  unfold take_runtime_end. destruct (sessions rt !! tok) as [v|] eqn:Hv; [|done]. simpl. split.
  - intros k v' [_ ?]%lookup_delete_Some. done.
  - intros Hf k. case_bool_decide as Hk; [done|]. intros Hk'.
    rewrite lookup_delete_ne by congruence. auto.
Qed.

Lemma env_runtime s s' :
  env_step s s' → sv_runtime s' = sv_runtime s ∨ ∃ tok, sv_runtime s' = (take_runtime_end (sv_runtime s) tok).2.
Proof.
  destruct 1 as [tok s|tok app crashed s|m p s|q s|d s|b s|q s Hq|n s]; auto.
  right. exists tok. unfold monitor_take. by destruct (take_runtime_end _ _).
Qed.

Lemma stable_inv : stable server_inv.
Proof.
  intros s s' Hs [Hr Ht Hc Hq Htok Hses Hfg].
  pose proof (env_same _ _ Hs) as (Hman&_&Hseq). pose proof (env_tasks _ _ Hs) as Htasks.
  pose proof (env_runtime _ _ Hs) as Hrt.
  assert (tasks_wf (s_tasks (sv_state s')) ∧ capacity (s_tasks (sv_state s')) = capacity (s_tasks (sv_state s)) ∧
          ∀ x, x ∈ tokens (tasks (s_tasks (sv_state s'))) → x ∈ tokens (tasks (s_tasks (sv_state s)))) as (Ht'&Hc'&Htok').
  { destruct Htasks as [->|[tok ->]]; [done|]. split_and!; [by apply runtime_exited_wf|apply exited_counters|].
    intros x. apply exited_tokens. }
  constructor; rewrite ?Hman, ?Hseq, ?Hc'; auto.
  - intros k v Hv. destruct Hrt as [Hrt|[tok Hrt]]; rewrite Hrt in Hv; [auto|].
    apply (take_runtime_end_inv (sv_runtime s) tok) in Hv. auto.
  - intros k. destruct Hrt as [->|[tok ->]]; [auto|]. by apply take_runtime_end_inv.
Qed.

Lemma stable_room : stable room.
Proof.
  intros s s' Hs [[Hc1 Hc2] Hq]. pose proof (env_same _ _ Hs) as (_&_&Hseq). unfold room, counters_left.
  rewrite Hseq. destruct (env_tasks _ _ Hs) as [->|[tok ->]]; [done|].
  by destruct (exited_counters (s_tasks (sv_state s)) tok) as (_&->&->).
Qed.

Lemma stable_fresh tok : stable (fresh_token tok).
Proof.
  intros s s' Hs (Hq&Ht&Hses). pose proof (env_same _ _ Hs) as (_&_&Hseq). unfold fresh_token. rewrite Hseq.
  split_and!; [lia..| |].
  - destruct (env_tasks _ _ Hs) as [->|[tok' ->]]; [done|]. by intros ?%exited_tokens.
  - destruct (env_runtime _ _ Hs) as [->|[tok' ->]]; [done|].
    destruct (sessions (take_runtime_end _ _).2 !! tok) eqn:Hk; [|done].
    apply (take_runtime_end_inv (sv_runtime s) tok') in Hk. congruence.
Qed.

Lemma exited_ids r tok : map task_id (tasks (TaskRegistry_runtime_exited r tok).2) = map task_id (tasks r).
Proof. unfold TaskRegistry_runtime_exited. destruct (List.find _ _); [|done]. by apply map_update_first. Qed.

Definition has_task (id : Z) (s : Server) : Prop := id ∈ map task_id (tasks (s_tasks (sv_state s))).

Lemma stable_has_task id : stable (has_task id).
Proof.
  intros s s' Hs. unfold has_task. destruct (env_tasks _ _ Hs) as [->|[tok ->]]; [done|]. by rewrite exited_ids.
Qed.

(** The task [t0] as it was seen before: it is still of the same application,
    and while it has a runtime it is the same one. *)
Definition tracks (t0 : TaskRecord) (s : Server) : Prop :=
  ∀ t, t ∈ tasks (s_tasks (sv_state s)) → task_id t = task_id t0 →
    t_app_id t = t_app_id t0 ∧ (is_Some (t_runtime t) → t_runtime t = t_runtime t0).

Lemma stable_tracks t0 : stable (tracks t0).
Proof.
  intros s s' Hs Htr t1 Ht1 Hid. destruct (env_tasks _ _ Hs) as [Heq|[tok Heq]]; rewrite Heq in Ht1; [by apply Htr|].
  unfold TaskRegistry_runtime_exited in Ht1. destruct (List.find _ _); [|by apply Htr].
  simpl in Ht1. apply update_first_elem in Ht1 as [Ht1|(y&Hy&_&->)]; [by apply Htr|].
  split; [by apply (Htr y)|]. simpl. by intros [].
Qed.

Lemma tracks_init t0 s : server_inv s → t0 ∈ tasks (s_tasks (sv_state s)) → tracks t0 s.
Proof. intros Hinv Ht0 t1 Ht1 Hid. by rewrite (unique_by_id _ _ _ (si_tasks _ Hinv) Ht1 Ht0 Hid). Qed.

Definition left (s : Server) : Prop := counters_left (s_tasks (sv_state s)).

Lemma stable_left : stable left.
Proof.
  intros s s' Hs [Hc1 Hc2]. unfold left, counters_left. destruct (env_tasks _ _ Hs) as [->|[tok ->]]; [done|].
  by destruct (exited_counters (s_tasks (sv_state s)) tok) as (_&->&->).
Qed.

Definition allows (app_id : string) (s : Server) : Prop :=
  DevicePolicyEngine_allows_app (s_policy (sv_state s)) app_id = true.

Lemma stable_allows app_id : stable (allows app_id).
Proof. intros s s' Hs. unfold allows. by destruct (env_same _ _ Hs) as (_&->&_). Qed.

Definition installed_at (app_id v : string) (s : Server) : Prop :=
  ∃ a, apps (am_registry (s_manager (sv_state s))) !! app_id = Some a ∧ installed_version a = Some v.

Lemma stable_installed app_id v : stable (installed_at app_id v).
Proof. intros s s' Hs. unfold installed_at. by destruct (env_same _ _ Hs) as (->&_&_). Qed.

(** ** The logic *)

(** From a server with [P] the handler ends without a panic, with a value and
    a server in [Q] or an error and a server in [X]. *)
Definition sv_spec {E A} (P : Server → Prop) (m : SV E A) (Q : A → Server → Prop) (X : E → Server → Prop) : Prop :=
  ∀ s w, P s → match (m s w).1 with
               | (Ok a, s') => Q a s'
               | (Err e, s') => X e s'
               | (Panicked, _) => False
               end.

Section logic.
  Context {E : Type} (X : E → Server → Prop).

Lemma spec_ret {A} P (a : A) (Q : A → Server → Prop) : (∀ s, P s → Q a s) → sv_spec P (sv_ret a) Q X.
Proof. intros HQ s w Hs. by apply HQ. Qed.
Lemma spec_err {A} P (e : E) (Q : A → Server → Prop) : (∀ s, P s → X e s) → sv_spec P (sv_err e) Q X.
Proof. intros HQ s w Hs. by apply HQ. Qed.
Lemma spec_bind {A B} P (m : SV E A) (k : A → SV E B) R Q :
  sv_spec P m R X → (∀ a, sv_spec (R a) (k a) Q X) → sv_spec P (sv_bind m k) Q X.
Proof.
  intros Hm Hk s w Hs. specialize (Hm s w Hs). unfold sv_bind.
  destruct (m s w) as [[[a|e|] s'] w']; simpl in *; [by apply Hk|done|done].
Qed.
Lemma spec_conseq {A} P P' (m : SV E A) (Q Q' : A → Server → Prop) :
  sv_spec P m Q X → (∀ s, P' s → P s) → (∀ a s, Q a s → Q' a s) → sv_spec P' m Q' X.
Proof.
  intros Hm HP HQ s w Hs. specialize (Hm s w (HP s Hs)).
  destruct (m s w) as [[[a|e|] s'] w']; simpl in *; auto.
Qed.
Lemma spec_pre {A} P P' (m : SV E A) (Q : A → Server → Prop) :
  sv_spec P m Q X → (∀ s, P' s → P s) → sv_spec P' m Q X.
Proof. intros Hm HP. by eapply spec_conseq. Qed.
Lemma spec_get {A} P (f : Server → A) : sv_spec P (sv_get f) (λ a s, a = f s ∧ P s) X.
Proof. by intros s w Hs. Qed.
Lemma spec_modify P (f : Server → Server) Q : (∀ s, P s → Q (f s)) → sv_spec P (sv_modify f) (λ _, Q) X.
Proof. intros HQ s w Hs. by apply HQ. Qed.
Lemma spec_expect {A} P (o : option A) :
  (∀ s, P s → is_Some o) → sv_spec P (sv_lift (expect o)) (λ a s, o = Some a ∧ P s) X.
Proof. intros Ho s w Hs. destruct (Ho s Hs) as [a ->]. done. Qed.
Lemma spec_lock `{Threads} P : tame _ → stable P → sv_spec P sv_lock (λ _, P) X.
Proof.
  intros Ht HP s w Hs. unfold sv_lock. simpl.
  assert (P (other_threads (sv_clock s) s)) as Ho.
  { specialize (Ht (sv_clock s) s). induction Ht as [|s1 s2 s3 H12 _ IH]; [done|]. eauto. }
  eapply HP; [|exact Ho]. constructor.
Qed.
Lemma spec_io {A} P (f : ServerState → IO E A) :
  (∀ st, never_panics (f st)) → (∀ e s, P s → X e s) →
  sv_spec P (sv_io f) (λ a s, P s ∧ ∃ w w', f (sv_state s) w = (Ok a, w')) X.
Proof.
  intros Hf HX s w Hs. unfold sv_io. specialize (Hf (sv_state s) w).
  destruct (f (sv_state s) w) as [[a|e|] w'] eqn:Hrun; simpl in *; [|auto|done]. eauto.
Qed.
Lemma spec_io_keep {A} P (f : ServerState → IO E A) :
  (∀ st, never_panics (f st)) → (∀ e s, P s → X e s) → sv_spec P (sv_io f) (λ _, P) X.
Proof.
  intros Hf HX. eapply (spec_conseq P); [by apply spec_io|done|]. by intros a s [? _].
Qed.
Lemma spec_lift {A} P (r : result E A) :
  r ≠ Panicked → (∀ e s, P s → X e s) → sv_spec P (sv_lift r) (λ a s, r = Ok a ∧ P s) X.
Proof. intros Hr HX s w Hs. destruct r; simpl; [done|auto|done]. Qed.

End logic.

Lemma spec_map_err {E F A} (f : E → F) P (m : SV E A) Q X :
  sv_spec P m Q (λ e, X (f e)) → sv_spec P (sv_map_err f m) Q X.
Proof.
  intros Hm s w Hs. specialize (Hm s w Hs). unfold sv_map_err. by destruct (m s w) as [[[a|e|] s'] w'].
Qed.
Lemma spec_try {E F A B} P (m : SV E A) (k : result E A → SV F B) R Y Q X :
  sv_spec P m R Y → (∀ a, sv_spec (R a) (k (Ok a)) Q X) → (∀ e, sv_spec (Y e) (k (Err e)) Q X) →
  sv_spec P (sv_try m k) Q X.
Proof.
  intros Hm Hk He s w Hs. specialize (Hm s w Hs). unfold sv_try.
  destruct (m s w) as [[[a|e|] s'] w']; simpl in *; [by apply Hk|by apply He|done].
Qed.
Lemma spec_tasks {A} P (f : TaskRegistry → result TaskError A * TaskRegistry) Q X :
  (∀ s r tasks, P s → f (s_tasks (sv_state s)) = (r, tasks) →
     match r with
     | Ok a => Q a (with_state (set_registry tasks) s)
     | Err e => X e (with_state (set_registry tasks) s)
     | Panicked => False
     end) → sv_spec P (sv_tasks f) Q X.
Proof.
  intros Hf s w Hs. unfold sv_tasks. destruct (f _) as [r tasks] eqn:Hr. specialize (Hf s r tasks Hs Hr).
  by destruct r.
Qed.
Lemma spec_sessions {E A} P (f : RuntimeState → A * RuntimeState) Q (X : E → Server → Prop) :
  (∀ s, P s → Q (f (sv_runtime s)).1 (with_runtime (λ _, (f (sv_runtime s)).2) s)) → sv_spec P (sv_sessions f) Q X.
Proof. intros Hf s w Hs. unfold sv_sessions. specialize (Hf s Hs). by destruct (f _). Qed.

(** ** The invariant and the elementary changes *)

Lemma inv_registry s r :
  server_inv s → tasks_wf r → capacity r = capacity (s_tasks (sv_state s)) →
  (∀ x, x ∈ tokens (tasks r) → (x < sv_sequence s)%Z) → server_inv (with_state (set_registry r) s).
Proof. intros [] Hr Hc Ht. constructor; simpl; auto. by rewrite Hc. Qed.

Lemma inv_state s f :
  server_inv s → s_manager (f (sv_state s)) = s_manager (sv_state s) →
  s_tasks (f (sv_state s)) = s_tasks (sv_state s) → server_inv (with_state f s).
Proof. intros [] Hm Ht. constructor; simpl; rewrite ?Hm, ?Ht; auto. Qed.

Lemma inv_runtime s f :
  server_inv s →
  (∀ k v, sessions (f (sv_runtime s)) !! k = Some v → rs_token v = k ∧ (k < sv_sequence s)%Z) →
  (∀ k, rt_foreground (f (sv_runtime s)) = Some k → is_Some (sessions (f (sv_runtime s)) !! k)) →
  server_inv (with_runtime f s).
Proof. intros [] Hs Hf. constructor; simpl; auto. Qed.

Lemma inv_finish s tok : server_inv s → server_inv (with_runtime (λ rt, finish_explicit_stop rt tok) s).
Proof.
  intros Hinv. destruct tok as [tok|]; [|by apply inv_runtime; [done|apply Hinv..]].
  apply inv_runtime; [done|..]; simpl.
  - intros k v Hv%take_runtime_end_inv. by apply Hinv.
  - apply take_runtime_end_inv, Hinv.
Qed.

Lemma inv_cancel s tok : server_inv s → server_inv (with_runtime (λ rt, cancel_explicit_stop rt tok) s).
Proof.
  intros Hinv. destruct tok as [tok|]; [|by apply inv_runtime; [done|apply Hinv..]].
  apply inv_runtime; [done|..]; simpl.
  - intros k v Hv. apply lookup_alter_Some in Hv as [(<-&v0&Hv0&->)|[_ Hv]]; simpl; by apply Hinv.
  - intros k [v Hv]%Hinv. destruct (decide (tok = k)) as [->|];
      [rewrite lookup_alter_eq|rewrite lookup_alter_ne by done]; rewrite Hv; by eexists.
Qed.

Lemma inv_mark s app : server_inv s → server_inv (with_runtime (λ _, (mark_explicit_stop (sv_runtime s) app).2) s).
Proof.
  intros Hinv. unfold mark_explicit_stop.
  destruct (List.find _ _) as [[key v0]|] eqn:Hf; [|by apply inv_runtime; [done|apply Hinv..]].
  apply find_some_elem in Hf as [Hin _]. apply elem_of_btree_iter in Hin.
  apply inv_runtime; [done|..]; simpl.
  - intros k v [[<- <-]|[_ Hv]]%lookup_insert_Some; simpl; by apply Hinv.
  - intros k Hk. apply lookup_insert_is_Some'. right. by apply Hinv.
Qed.

(** The invariant with everything that survives a lock. *)
Ltac stability :=
  repeat match goal with |- stable (λ s, @?P s ∧ @?Q s) => apply (stable_and P Q) end;
  first [apply stable_inv | apply stable_room | apply stable_left | apply stable_fresh | apply stable_has_task
        | apply stable_tracks | apply stable_allows | apply stable_installed | apply stable_pure].

(** ** Tokens and tasks of the operations *)

Lemma activate_from r id o r' t1 :
  TaskRegistry_activate r id = (Ok o, r') → t1 ∈ tasks r' →
  ∃ t0, t0 ∈ tasks r ∧ task_id t0 = task_id t1 ∧ t_app_id t0 = t_app_id t1 ∧ t_runtime t0 = t_runtime t1.
Proof.
  unfold TaskRegistry_activate. destruct (TaskRegistry_task r id) as [x|]; [|done]. case_match; [done|].
  pose proof (background_from r (Some id)) as Hfrom.
  destruct (TaskRegistry_background_foreground r (Some id)) as [bg r1]. simpl.
  destruct (TaskRegistry_task _ id) as [?|]; [|done]. intros Hr Ht1. injection Hr as _ <-. simpl in Ht1.
  apply update_first_elem in Ht1 as [Ht1|(y&Hy&_&->)].
  - destruct (Hfrom _ Ht1) as (z&?&[->| ->]); by exists z.
  - destruct (Hfrom _ Hy) as (z&?&[->| ->]); by exists z.
Qed.

Lemma activate_tokens r id o r' x :
  TaskRegistry_activate r id = (Ok o, r') → x ∈ tokens (tasks r') → x ∈ tokens (tasks r).
Proof.
  intros Ha (t1&b&Ht1&Hb&<-)%tokens_elem. destruct (activate_from _ _ _ _ _ Ha Ht1) as (t0&?&_&_&?).
  apply tokens_elem. exists t0, b. split_and!; congruence.
Qed.

Lemma launch_tokens r app v b o r' x :
  tasks_wf r → tasks_wf r' → TaskRegistry_launch r app v b None = (Ok o, r') →
  x ∈ tokens (tasks r') → x ∈ tokens (tasks r) ∨ x = token b.
Proof.
  intros Hwf Hwf' Hl (t1&b1&Ht1&Hb1&<-)%tokens_elem.
  destruct (launch_brought _ _ _ _ _ _ _ Hwf Hl) as ([_ Hrest]&t2&Ht2&Hid&_&_&Hb2).
  destruct (decide (task_id t1 = lo_task_id o)) as [Heq|Hne].
  - right. assert (t1 = t2) as -> by (apply (unique_by_id r'); congruence). congruence.
  - left. destruct (Hrest t1 Ht1 Hne) as (_&t0&Ht0&[->| ->]); apply tokens_elem; eauto.
Qed.

Lemma launch_capacity r app v b ev : capacity (TaskRegistry_launch r app v b ev).2 = capacity r.
Proof.
  unfold TaskRegistry_launch, launch_new, TaskRegistry_evict_capacity_victim.
  repeat (case_match; simplify_eq/=; try done).
Qed.

(** ** Starting and activating *)

(** What an activation promises of the server. *)
Definition activated (app_id : string) (a : Activation) (s : Server) : Prop :=
  (∃ t, t ∈ tasks (s_tasks (sv_state s)) ∧ task_id t = ac_task_id a ∧ t_app_id t = app_id ∧
     t_state t = Foreground ∧ t_runtime t = Some (mkRuntimeBinding (ac_token a) (ac_unit a))) ∧
  allows app_id s ∧ (ac_token a < sv_sequence s)%Z ∧
  (ac_started a = true → sessions (sv_runtime s) !! ac_token a = None).

Section handlers.
  Context `{Host} `{System} `{Threads} `{Codec AppRegistry} `{Codec PermissionStore} `{Codec DevicePolicy}.
  Context (from_slice : list ascii → option AppManifest) (Htame : tame _).

(** Every error leaves a server with the invariant. *)
Definition err_inv {E : Type} : E → Server → Prop := λ _, server_inv.

(** Split a sequence of steps; the first step keeps its assertion. *)
Lemma spec_keep {E A B} P (m : SV E A) (k : A → SV E B) Q X :
  sv_spec P m (λ _, P) X → (∀ a, sv_spec P (k a) Q X) → sv_spec P (sv_bind m k) Q X.
Proof. intros Hm Hk. by eapply spec_bind. Qed.

Lemma spec_lock_bind {E B} P (k : unit → SV E B) Q X :
  stable P → (∀ a, sv_spec P (k a) Q X) → sv_spec P (sv_bind sv_lock k) Q X.
Proof. intros HP Hk. apply spec_keep; [by apply spec_lock|done]. Qed.

Lemma activate_resident_spec app_id task :
  t_app_id task = app_id → is_Some (t_runtime task) →
  sv_spec (λ s, (server_inv s ∧ left s) ∧ tracks task s ∧ allows app_id s)
    (activate_resident app_id task) (λ a s, server_inv s ∧ activated app_id a s) err_inv.
Proof.
  intros Happ [b Hb]. unfold activate_resident. apply spec_keep.
  { case_match; [|by apply spec_ret]. apply spec_lock_bind; [stability|]. intros ?. apply spec_map_err.
    apply spec_io_keep; [intros st; apply set_frozen_np|by intros e s [[? _] _]]. }
  intros ?. apply spec_lock_bind; [stability|]. intros ?.
  eapply spec_bind with (R := λ _ s, server_inv s ∧ activated app_id
    {| ac_task_id := task_id task; ac_token := token b; ac_unit := unit_name b; ac_started := false |} s).
  - apply spec_map_err, spec_tasks. intros s r tasks1 [[Hinv Hleft] [Htr Hal]] Hrun.
    pose proof (activate_all_or_nothing (s_tasks (sv_state s)) (task_id task)) as [Hnp Hsame]. rewrite Hrun in *. simpl in *.
    destruct r as [o|e|]; [| |done].
    + pose proof (activate_wf _ (task_id task) (si_tasks _ Hinv) Hleft) as Hwf'. rewrite Hrun in Hwf'. simpl in Hwf'.
      assert (capacity tasks1 = capacity (s_tasks (sv_state s))) as Hcap
        by (pose proof (task_step_capacity _ _ (ts_activate (s_tasks (sv_state s)) (task_id task))) as Hc; by rewrite Hrun in Hc).
      assert (∀ x, x ∈ tokens (tasks tasks1) → (x < sv_sequence s)%Z) as Htok.
      { intros x Hx. apply Hinv. by eapply activate_tokens. }
      split; [by apply inv_registry|].
      destruct (activate_brought _ _ _ _ (si_tasks _ Hinv) Hrun) as [(t1&Ht1&Hid&Hst&_) _].
      destruct (activate_from _ _ _ _ _ Hrun Ht1) as (t0&Ht0&Hid0&Happ0&Hrt0).
      destruct (Htr t0 Ht0) as [Happ1 Hrt1]; [congruence|].
      assert (is_Some (t_runtime t1)) as Hres.
      { pose proof (kw_tasks _ Hwf') as Hall. rewrite Forall_forall in Hall. destruct (Hall t1 Ht1) as [Hr _ _ _ _ _ _ _ _].
        rewrite Hst in Hr. simpl in Hr. symmetry in Hr. by apply bool_decide_eq_true in Hr. }
      rewrite <- Hrt0 in Hres. assert (t_runtime t1 = Some b) as Hb1 by (rewrite <- Hrt0, Hrt1; done).
      split_and!; [|done| |done].
      * exists t1. split_and!; [done|done|congruence|done|]. simpl. by destruct b.
      * simpl. apply Htok, tokens_elem. by exists t1, b.
    + rewrite Hsame by done. by apply inv_registry; [done|apply Hinv|done|apply Hinv].
  - intros o. rewrite Hb. eapply spec_bind; [apply spec_expect; by eexists|]. intros b'. apply spec_ret.
    intros s [[= <-] ?]. done.
Qed.

(** Storing the result of a task operation that only removes tasks. *)
Lemma inv_sublist s r :
  server_inv s → tasks_wf r → capacity r = capacity (s_tasks (sv_state s)) →
  tasks r `sublist_of` tasks (s_tasks (sv_state s)) → server_inv (with_state (set_registry r) s).
Proof.
  intros Hinv Hwf Hc Hsub. apply inv_registry; [done..|]. intros x Hx. apply Hinv.
  eapply elem_of_sublist; [|by apply tokens_sublist]. done.
Qed.

Lemma evict_sublist r e o r' :
  TaskRegistry_evict_capacity_victim r e = (Ok o, r') → tasks r' `sublist_of` tasks r ∧ capacity r' = capacity r ∧
  next_task_id r' = next_task_id r ∧ next_sequence r' = next_sequence r.
Proof.
  unfold TaskRegistry_evict_capacity_victim. destruct (tasks r) as [|t0 rest]; repeat case_match; try done.
  intros [= _ <-]. simpl. split_and!; [by constructor|done..].
Qed.

Lemma close_sublist r id o r' :
  TaskRegistry_close r id = (Ok o, r') → tasks r' `sublist_of` tasks r ∧ capacity r' = capacity r ∧
  next_task_id r' = next_task_id r ∧ next_sequence r' = next_sequence r.
Proof.
  unfold TaskRegistry_close. destruct (position _ _); [|done]. destruct (_ !! _); [|done].
  intros [= _ <-]. simpl. split_and!; [apply sublist_vec_remove|done..].
Qed.

Lemma stop_step app_id P (X : AppManagerError → Server → Prop) :
  (∀ e s, P s → X e s) → sv_spec P (sv_io (λ st, AppManager_stop (s_manager st) app_id)) (λ _, P) X.
Proof. intros HX. apply spec_io_keep; [intros st; apply stop_np|done]. Qed.

(** The assertions about the state outlast a change of the sessions. *)
Lemma inv_left_mark app s :
  server_inv s ∧ left s → server_inv (with_runtime (λ _, (mark_explicit_stop (sv_runtime s) app).2) s) ∧ left s.
Proof. intros [??]. split; [by apply inv_mark|done]. Qed.

Lemma evict_victim_spec app_id v victim :
  sv_spec (λ s, (server_inv s ∧ room s) ∧ allows app_id s ∧ installed_at app_id v s)
    (evict_victim victim) (λ _ s, (server_inv s ∧ room s) ∧ allows app_id s ∧ installed_at app_id v s) err_inv.
Proof.
  unfold evict_victim. apply spec_keep.
  { case_match; [|by apply spec_ret]. apply spec_lock_bind; [stability|intros ?].
    eapply spec_bind with (R := λ _ s, (server_inv s ∧ room s) ∧ allows app_id s ∧ installed_at app_id v s).
    { apply spec_sessions. intros s [[??] ?]. split; [|done]. split; [by apply inv_mark|done]. }
    intros stop_token. apply spec_lock_bind; [stability|intros ?].
    eapply spec_try with (Y := λ _ s, (server_inv s ∧ room s) ∧ allows app_id s ∧ installed_at app_id v s);
      [by apply stop_step|..].
    - intros ?. apply spec_lock_bind; [stability|intros ?]. apply spec_modify. intros s [[??] ?].
      split; [|done]. split; [by apply inv_finish|done].
    - intros e. apply spec_lock_bind; [stability|intros ?].
      eapply spec_bind; [apply spec_modify with (Q := server_inv)|by intros; apply spec_err].
      intros s [[??] ?]. by apply inv_cancel. }
  intros ?. apply spec_lock_bind; [stability|intros ?].
  eapply spec_bind with (R := λ _ s, (server_inv s ∧ room s) ∧ allows app_id s ∧ installed_at app_id v s).
  - apply spec_map_err, spec_tasks. intros s r tasks1 [[Hinv [[Hc1 Hc2] Hroom]] Hrest] Hrun.
    match type of Hrun with TaskRegistry_evict_capacity_victim ?r0 ?e0 = _ =>
      pose proof (evict_all_or_nothing r0 e0 (si_capacity _ Hinv)) as [Hnp Hsame];
      pose proof (evict_wf r0 e0 (si_tasks _ Hinv)) as Hwf' end.
    rewrite Hrun in *. simpl in *. destruct r as [o|e|]; [| |done].
    + apply evict_sublist in Hrun as (Hsub&Hcap&Hn1&Hn2). split; [|done]. split; [by apply inv_sublist|].
      unfold room, counters_left. simpl. by rewrite Hn1, Hn2.
    + rewrite Hsame by done. by apply inv_registry; [done|apply Hinv|done|apply Hinv].
  - intros ?. apply spec_modify. intros s [[??] ?]. split; [|done]. split; [by apply inv_state|done].
Qed.

Lemma wrapping_add_small x : (0 ≤ x < u64_max)%Z → wrapping_add_u64 x 1 = (x + 1)%Z.
Proof. unfold wrapping_add_u64, u64_max. intros ?. apply Z.mod_small. lia. Qed.

Lemma start_new_spec app_id version :
  is_valid_app_id app_id = true → is_valid_app_version version = true →
  sv_spec (λ s, (server_inv s ∧ room s) ∧ allows app_id s ∧ installed_at app_id version s)
    (start_new from_slice app_id version) (λ a s, server_inv s ∧ activated app_id a s) err_inv.
Proof.
  intros Hid Hver. unfold start_new.
  eapply spec_bind with (R := λ tok s, (server_inv s ∧ left s) ∧ allows app_id s ∧ fresh_token tok s).
  { intros s w [[Hinv [Hleft Hroom]] [Hal _]]. simpl.
    destruct Hinv as [Hr Ht Hc Hq Htok Hses Hfg]. rewrite wrapping_add_small by lia.
    unfold fresh_token. split_and!; [constructor; simpl; auto; try lia|done|done|simpl; lia|simpl; lia| |].
    - intros x Hx%Htok. lia.
    - intros k v0 [? ?]%Hses. split; [done|lia].
    - simpl. intros Hx%Htok. lia.
    - simpl. destruct (sessions (sv_runtime s) !! sv_sequence s) as [v0|] eqn:Hk; [|done].
      apply Hses in Hk as [_ Hk]. lia. }
  intros tok. apply spec_lock_bind; [stability|intros ?].
  eapply spec_bind with (R := λ unit s, ((server_inv s ∧ left s) ∧ allows app_id s ∧ fresh_token tok s) ∧ valid_unit unit = true).
  { apply spec_map_err. eapply spec_conseq; [apply spec_io|intros s Hs; exact Hs|].
    - intros st. apply start_np.
    - by intros e s [[? _] _].
    - intros unit s [Hs (w&w'&Hrun)]. split; [done|]. apply start_unit in Hrun as (acc&Ha&->&Hv).
      by apply unit_of_user_valid. }
  intros unit.
  eapply spec_bind with (R := λ b s, ((server_inv s ∧ left s) ∧ allows app_id s ∧ fresh_token tok s) ∧
    valid_unit unit = true ∧ b = mkRuntimeBinding tok unit).
  { eapply spec_conseq; [apply spec_lift|intros s Hs; exact Hs|].
    - unfold RuntimeBinding_new. by repeat case_match.
    - by intros e s [[[? _] _] _].
    - intros b s [Hb [Hs Hu]]. split_and!; [apply Hs..|done|]. unfold RuntimeBinding_new in Hb.
      by repeat case_match; simplify_eq/=. }
  intros b. eapply spec_try with (Y := λ _, server_inv) (R := λ o s, server_inv s ∧ activated app_id
    {| ac_task_id := lo_task_id o; ac_token := tok; ac_unit := unit; ac_started := true |} s).
  - apply spec_tasks. intros s r tasks1 (((Hinv&Hleft)&Hal&Hfresh)&Hu&->) Hrun.
    destruct Hfresh as ([Hq1 Hq2]&Hfresh&Hsess).
    pose proof (launch_all_or_nothing (s_tasks (sv_state s)) app_id version (mkRuntimeBinding tok unit) None (si_capacity _ Hinv))
      as [Hnp Hsame]. rewrite Hrun in *. simpl in *. destruct r as [o|e|]; [| |done].
    + assert (launch_ok (s_tasks (sv_state s)) app_id version (mkRuntimeBinding tok unit)) as Hok by (by constructor).
      pose proof (launch_wf _ _ _ _ None (si_tasks _ Hinv) Hleft Hok) as Hwf'.
      pose proof (launch_capacity (s_tasks (sv_state s)) app_id version (mkRuntimeBinding tok unit) None) as Hcap.
      rewrite Hrun in Hwf', Hcap. simpl in *. split.
      * apply inv_registry; [done..|]. intros x Hx.
        destruct (launch_tokens _ _ _ _ _ _ _ (si_tasks _ Hinv) Hwf' Hrun Hx) as [?| ->]; [by apply Hinv|done].
      * destruct (launch_brought _ _ _ _ _ _ _ (si_tasks _ Hinv) Hrun) as ([(t1&Ht1&Hid1&Hst&_) _]&t2&Ht2&Hid2&Ha2&_&Hb2).
        assert (t1 = t2) as -> by (apply (unique_by_id tasks1); congruence).
        split_and!; [by exists t2|done|done|done].
    + rewrite Hsame by done. by apply inv_registry; [done|apply Hinv|done|apply Hinv].
  - intros o. eapply spec_bind with (R := λ _ s, server_inv s ∧ activated app_id
      {| ac_task_id := lo_task_id o; ac_token := tok; ac_unit := unit; ac_started := true |} s).
    + apply spec_modify. intros s [Hinv Hact]. split; [by apply inv_state|]. exact Hact.
    + intros ?. by apply spec_ret.
  - intros e. eapply spec_try with (Y := λ _, server_inv); [by apply stop_step|..]; intros ?; by apply spec_err.
Qed.

Lemma installed_manifest_spec app_id P X :
  (∀ e s, P s → X e s) →
  sv_spec P (installed_manifest from_slice app_id)
    (λ m s, P s ∧ manifest_validate m = Ok tt ∧ m_id m = app_id ∧ installed_at app_id (m_version m) s) X.
Proof.
  intros HX. apply spec_map_err. eapply spec_conseq; [apply spec_io|intros s Hs; exact Hs|].
  - intros st. apply installed_manifest_np.
  - intros e s. apply HX.
  - intros m s [Hs (w&w'&Hrun)]. apply installed_manifest_Ok in Hrun as (?&?&?). done.
Qed.

Lemma resident_runtime s t0 :
  server_inv s → t0 ∈ tasks (s_tasks (sv_state s)) → TaskState_is_resident (t_state t0) = true → is_Some (t_runtime t0).
Proof.
  intros Hinv Ht Hres. pose proof (kw_tasks _ (si_tasks _ Hinv)) as Hall. rewrite Forall_forall in Hall.
  destruct (Hall t0 Ht) as [Hr _ _ _ _ _ _ _ _]. rewrite Hres in Hr. symmetry in Hr. by apply bool_decide_eq_true in Hr.
Qed.

Lemma manifest_ids_valid m :
  manifest_validate m = Ok tt → is_valid_app_id (m_id m) = true ∧ is_valid_app_version (m_version m) = true.
Proof. intros []%manifest_validate_wf. done. Qed.

(** A successful start or activation leaves the application's task in front,
    bound to the token and unit it returns; the policy allowed it. *)
Lemma start_or_activate_spec app_id :
  sv_spec (λ s, server_inv s ∧ room s) (start_or_activate_app from_slice app_id)
    (λ a s, server_inv s ∧ activated app_id a s) err_inv.
Proof.
  unfold start_or_activate_app. apply spec_lock_bind; [stability|intros ?].
  eapply spec_bind; [apply spec_get|intros allowed]. cbv beta.
  eapply spec_bind with (R := λ _ s, (server_inv s ∧ room s) ∧ allows app_id s).
  { destruct allowed; [apply spec_ret|apply spec_err].
    - intros s [Hal ?]. split; [done|]. by unfold allows.
    - by intros s [_ [? _]]. }
  intros ?. eapply spec_bind; [apply installed_manifest_spec; by intros e s [[? _] _]|intros m].
  eapply spec_bind; [apply spec_get|intros tasks0]. cbv beta.
  destruct (TaskRegistry_task_for_app tasks0 app_id) as [task|] eqn:Htask.
  - destruct (TaskState_is_resident (t_state task)) eqn:Hres.
    + assert (t_app_id task = app_id) as Happ by (apply find_some_elem in Htask as [_ ?]; by unbool_hyps).
      intros s w (->&[[Hinv Hroom] Hal]&_).
      apply find_some_elem in Htask as [Hin _]. pose proof (resident_runtime _ _ Hinv Hin Hres) as Hrt.
      apply (activate_resident_spec app_id task Happ Hrt s w). split; [split; [done|apply Hroom]|].
      split; [by apply tracks_init|done].
    + intros s w (_&Hs&Hm&Hid&Hinst). pose proof (manifest_ids_valid m Hm) as [Hv1 Hv2]. rewrite Hid in Hv1.
      apply (start_new_spec app_id (m_version m) Hv1 Hv2 s w). split; [apply Hs|]. split; [apply Hs|done].
  - intros s w (->&Hs&Hm&Hid&Hinst). pose proof (manifest_ids_valid m Hm) as [Hv1 Hv2]. rewrite Hid in Hv1.
    assert ((server_inv s ∧ room s) ∧ allows app_id s ∧ installed_at app_id (m_version m) s) as HP
      by (split; [apply Hs|split; [apply Hs|done]]).
    assert (((length (tasks (s_tasks (sv_state s))) =? capacity (s_tasks (sv_state s)))%nat = true →
      is_Some (TaskRegistry_oldest_task (s_tasks (sv_state s))))) as Ho.
    { intros Hfull. unbool_hyps. pose proof (si_capacity _ (proj1 (proj1 HP))). unfold TaskRegistry_oldest_task.
      destruct (tasks (s_tasks (sv_state s))); simpl in *; [lia|by eexists]. }
    assert (∀ (b : bool) (o : option TaskRecord), (b = true → is_Some o) →
      sv_spec (λ s, (server_inv s ∧ room s) ∧ allows app_id s ∧ installed_at app_id (m_version m) s)
        (let@ _ := (if b then let@ victim := sv_lift (expect o) in evict_victim victim else sv_ret tt) in
         start_new from_slice app_id (m_version m)) (λ a s, server_inv s ∧ activated app_id a s) err_inv) as Hgoal.
    { intros b o Hb. eapply spec_bind; [|intros ?; by apply start_new_spec].
      destruct b; [|by apply spec_ret]. destruct (Hb eq_refl) as [victim ->].
      eapply spec_bind; [apply spec_expect; by eexists|intros victim']. intros s1 w1 [_ Hs1].
      by apply (evict_victim_spec app_id (m_version m) victim' s1 w1). }
    exact (Hgoal _ _ Ho s w HP).
Qed.

Lemma has_task_lookup s id : has_task id s → is_Some (TaskRegistry_task (s_tasks (sv_state s)) id).
Proof. intros Hin. by apply find_id_iff. Qed.

Lemma start_runtime_monitor_spec id tok app_id version (X : CommandError → Server → Prop) :
  sv_spec (λ s, server_inv s ∧ (tok < sv_sequence s)%Z) (start_runtime_monitor id tok app_id version)
    (λ _, server_inv) X.
Proof.
  assert (stable (λ s, tok < sv_sequence s)%Z) as Hst.
  { intros s s' Hs. by destruct (env_same _ _ Hs) as (_&_&->). }
  unfold start_runtime_monitor. apply spec_lock_bind; [by apply stable_and; [apply stable_inv|]|intros ?].
  eapply spec_bind with (R := λ _, server_inv).
  - apply spec_modify. intros s [Hinv Htok]. apply inv_runtime; [done|..]; simpl.
    + intros k v [[<- <-]|[_ Hv]]%lookup_insert_Some; [done|by apply Hinv].
    + intros k [= <-]. rewrite lookup_insert_eq. by eexists.
  - intros ?. eapply spec_bind; [apply spec_get|intros clock].
    destruct (spawn_fails clock); [|by apply spec_ret; intros s [_ ?]].
    eapply spec_pre with (P := server_inv); [|by intros s [_ ?]].
    apply spec_lock_bind; [apply stable_inv|intros ?]. apply spec_modify. intros s Hinv.
    by apply (inv_finish s (Some tok)).
Qed.

Lemma after_activation_spec app_id a name X :
  sv_spec (λ s, server_inv s ∧ activated app_id a s) (after_activation a name) (λ _, server_inv) X.
Proof.
  unfold after_activation. destruct (ac_started a).
  - assert (stable (λ s, ac_token a < sv_sequence s)%Z) as Hst.
    { intros s s' Hs. by destruct (env_same _ _ Hs) as (_&_&->). }
    eapply spec_pre with (P := λ s, server_inv s ∧ has_task (ac_task_id a) s ∧ (ac_token a < sv_sequence s)%Z).
    2: { intros s [? [(t1&Ht1&Hid&_) [_ [? _]]]]. split_and!; [done| |done]. unfold has_task. rewrite <- Hid.
         by apply list_elem_of_fmap_2. }
    apply spec_lock_bind; [apply stable_and; [apply stable_inv|]; apply stable_and; [apply stable_has_task|done]|intros ?].
    eapply spec_bind; [apply spec_get|intros tasks0]. cbv beta.
    eapply spec_bind; [apply spec_expect|intros t1].
    { intros s (->&_&Hin&_). by apply has_task_lookup. }
    eapply spec_pre; [apply start_runtime_monitor_spec|]. by intros s (_&_&?&_&?).
  - eapply spec_pre with (P := server_inv); [|by intros s [? _]].
    apply spec_lock_bind; [apply stable_inv|intros ?]. apply spec_modify. intros s Hinv. apply inv_runtime; [done|..];
      unfold set_foreground_runtime; case_bool_decide as Hk; simpl; try apply Hinv.
    by intros k [= <-].
Qed.

Lemma start_app_control_spec app_id :
  sv_spec (λ s, server_inv s ∧ room s) (start_app_control from_slice app_id) (λ _, server_inv) err_inv.
Proof.
  apply spec_map_err. eapply spec_bind; [apply start_or_activate_spec|intros a].
  eapply spec_bind; [apply (after_activation_spec app_id)|intros ?]. by apply spec_ret.
Qed.

Lemma activate_task_control_spec id :
  sv_spec (λ s, server_inv s ∧ room s) (activate_task_control from_slice id) (λ _, server_inv) err_inv.
Proof.
  unfold activate_task_control. apply spec_lock_bind; [stability|intros ?].
  eapply spec_bind; [apply spec_get|intros tasks0]. cbv beta.
  destruct (TaskRegistry_task tasks0 id) as [task|]; [|apply spec_err; by intros s (_&?&_)].
  apply spec_map_err. eapply spec_bind; [eapply spec_pre; [apply start_or_activate_spec|by intros s [_ ?]]|intros act].
  eapply spec_bind; [apply (after_activation_spec (t_app_id task))|intros ?]. by apply spec_ret.
Qed.

(** ** Stopping and switching *)

Lemma close_step id X :
  (∀ e s, server_inv s → X e s) → sv_spec server_inv (sv_tasks (λ r, TaskRegistry_close r id)) (λ _, server_inv) X.
Proof.
  intros HX. apply spec_tasks. intros s r tasks1 Hinv Hrun.
  pose proof (close_wf _ id (si_tasks _ Hinv)) as Hwf'. rewrite Hrun in Hwf'. simpl in Hwf'.
  assert (r ≠ Panicked ∧ (is_ok r = false → tasks1 = s_tasks (sv_state s))) as [Hnp Hsame].
  { unfold TaskRegistry_close in Hrun. destruct (position _ _) as [i|] eqn:Hp; [|by injection Hrun as <- <-].
    apply position_lookup in Hp as (x&Hx&_). rewrite Hx in Hrun. by injection Hrun as <- <-. }
  destruct r as [o|e|]; [| |done].
  - apply close_sublist in Hrun as (?&?&_). by apply inv_sublist.
  - rewrite Hsame by done. apply HX. by apply inv_registry; [done|apply Hinv|done|apply Hinv].
Qed.

Lemma clear_step app_id X : sv_spec server_inv (clear_after_stop app_id) (λ _, server_inv) X.
Proof. apply spec_modify. intros s Hinv. by apply inv_state. Qed.

Lemma stop_under_lock_spec app_id :
  sv_spec server_inv (stop_under_lock app_id) (λ _, server_inv) err_inv.
Proof.
  unfold stop_under_lock. eapply spec_bind; [apply spec_get|intros task]. cbv beta.
  eapply spec_pre with (P := server_inv); [|by intros s [_ ?]].
  apply spec_keep; [apply spec_io_keep; [intros st; apply is_running_np|done]|intros running].
  apply spec_keep.
  { destruct running; [by apply stop_step|]. destruct task; [by apply spec_ret|by apply spec_err]. }
  intros ?. apply spec_keep.
  { destruct task; [|by apply spec_ret]. apply spec_keep; [by apply spec_map_err, close_step|intros ?; by apply spec_ret]. }
  intros ?. apply spec_keep; [apply clear_step|intros ?; by apply spec_ret].
Qed.

Lemma mark_step {E} app_id (X : E → Server → Prop) :
  sv_spec server_inv (sv_sessions (λ rt, mark_explicit_stop rt app_id)) (λ _, server_inv) X.
Proof. apply spec_sessions. intros s Hinv. by apply inv_mark. Qed.

Lemma stop_app_control_spec app_id : sv_spec server_inv (stop_app_control app_id) (λ _, server_inv) err_inv.
Proof.
  unfold stop_app_control. apply spec_lock_bind; [apply stable_inv|intros ?].
  apply spec_keep; [apply mark_step|intros tok]. apply spec_lock_bind; [apply stable_inv|intros ?].
  eapply spec_try; [apply stop_under_lock_spec|intros data|intros e]; (apply spec_lock_bind; [apply stable_inv|intros ?]);
    (apply spec_keep; [|intros ?; by first [apply spec_ret|apply spec_err]]);
    apply spec_modify; intros s Hinv; by first [apply inv_finish|apply inv_cancel].
Qed.

Lemma close_task_control_spec id : sv_spec server_inv (close_task_control id) (λ _, server_inv) err_inv.
Proof.
  unfold close_task_control. apply spec_lock_bind; [apply stable_inv|intros ?].
  eapply spec_bind; [apply spec_get|intros tasks0]. cbv beta.
  eapply spec_pre with (P := server_inv); [|by intros s [_ ?]].
  destruct (TaskRegistry_task tasks0 id) as [task|]; [|by apply spec_err].
  apply spec_keep.
  { destruct (token <$> t_runtime task); [|by apply spec_ret]. apply spec_lock_bind; [apply stable_inv|intros ?].
    apply spec_keep; [apply mark_step|intros ?; by apply spec_ret]. }
  intros ?. apply spec_lock_bind; [apply stable_inv|intros ?].
  eapply spec_try with (R := λ _, server_inv) (Y := λ _, server_inv).
  { unfold close_under_lock. apply spec_keep.
    { case_match; [|by apply spec_ret]. by apply spec_map_err, stop_step. }
    intros ?. apply spec_keep; [by apply spec_map_err, close_step|intros ?]. apply spec_map_err, clear_step. }
  all: intros ?; (apply spec_lock_bind; [apply stable_inv|intros ?]);
    (apply spec_keep; [|intros ?; by first [apply spec_ret|apply spec_err]]);
    apply spec_modify; intros s Hinv; by first [apply inv_finish|apply inv_cancel].
Qed.

Lemma set_foreground_spec app_id :
  sv_spec (λ s, server_inv s ∧ left s) (set_foreground_app_control app_id) (λ _, server_inv) err_inv.
Proof.
  unfold set_foreground_app_control, set_foreground. apply spec_lock_bind; [stability|intros ?].
  destruct app_id as [app_id|].
  2: { eapply spec_bind with (R := λ _, server_inv); [|intros ?; by apply spec_ret].
       apply spec_modify. intros s [Hinv _]. by apply inv_runtime; [done|apply Hinv|]. }
  intros s w [Hinv Hleft]. unfold sv_bind at 1, sv_get, id.
  destruct (TaskRegistry_task_for_app _ app_id) as [task|] eqn:Htask; [|done].
  destruct (t_runtime task) as [b|] eqn:Hb; [|done].
  destruct (sessions (sv_runtime s) !! token b) as [v|] eqn:Hv; [|done].
  case_bool_decide as Hap; [|done]. cbn [negb].
  assert (sv_spec (λ s', server_inv s' ∧ left s' ∧ sessions (sv_runtime s') !! token b = Some v)
    (if bool_decide (t_state task = Foreground) then sv_ret tt
     else sv_map_err (command_error_response ∘ CeTask)
            (let@ _ := sv_tasks (λ r, TaskRegistry_activate r (task_id task)) in sv_ret tt))
    (λ _ s', server_inv s' ∧ sessions (sv_runtime s') !! token b = Some v) err_inv) as Hact.
  { case_match; [by apply spec_ret; intros s' (?&_&?)|]. apply spec_map_err.
    eapply spec_bind with (R := λ _ s', server_inv s' ∧ sessions (sv_runtime s') !! token b = Some v);
      [|by intros ?; apply spec_ret].
    apply spec_tasks. intros s1 r tasks1 (Hinv1&Hleft1&Hs1) Hrun.
    pose proof (activate_all_or_nothing (s_tasks (sv_state s1)) (task_id task)) as [Hnp Hsame]. rewrite Hrun in *. simpl in *.
    destruct r as [o|e|]; [| |done].
    - split; [|done]. pose proof (activate_wf _ (task_id task) (si_tasks _ Hinv1) Hleft1) as Hwf'.
      pose proof (task_step_capacity _ _ (ts_activate (s_tasks (sv_state s1)) (task_id task))) as Hc.
      rewrite Hrun in Hwf', Hc. simpl in *. apply inv_registry; [done..|]. intros x Hx. apply Hinv1.
      by eapply activate_tokens.
    - rewrite Hsame by done. by apply inv_registry; [done|apply Hinv1|done|apply Hinv1]. }
  match goal with |- context [?m s w] =>
    assert (sv_spec (λ s', server_inv s' ∧ left s' ∧ sessions (sv_runtime s') !! token b = Some v) m (λ _, server_inv) err_inv)
      as Hm end; [|by apply (Hm s w)].
  eapply spec_bind; [exact Hact|intros ?]. eapply spec_bind with (R := λ _, server_inv); [|intros ?; by apply spec_ret].
  apply spec_modify. intros s1 [Hinv1 Hs1]. apply inv_runtime; [done|apply Hinv1|]. simpl. intros k [= <-]. by eexists.
Qed.

(** ** Handlers that leave tasks and sessions alone *)

Definition keeps {E A} (m : SV E A) : Prop := ∀ s w, server_inv s ∧ room s → server_inv (m s w).1.2 ∧ room (m s w).1.2.

Lemma keeps_bind {E A B} (m : SV E A) (k : A → SV E B) : keeps m → (∀ a, keeps (k a)) → keeps (sv_bind m k).
Proof.
  intros Hm Hk s w Hs. specialize (Hm s w Hs). unfold sv_bind.
  destruct (m s w) as [[[a|e|] s'] w']; simpl in *; [by apply Hk|done|done].
Qed.
Lemma keeps_try {E F A B} (m : SV E A) (k : result E A → SV F B) : keeps m → (∀ r, keeps (k r)) → keeps (sv_try m k).
Proof. intros Hm Hk s w Hs. specialize (Hm s w Hs). unfold sv_try. destruct (m s w) as [[r s'] w']. by apply Hk. Qed.
Lemma keeps_map_err {E F A} (f : E → F) (m : SV E A) : keeps m → keeps (sv_map_err f m).
Proof. intros Hm s w Hs. specialize (Hm s w Hs). unfold sv_map_err. by destruct (m s w) as [[r s'] w']. Qed.
Lemma keeps_lift {E A} (r : result E A) : keeps (sv_lift r).
Proof. by intros s w Hs. Qed.
Lemma keeps_ret {E A} (a : A) : keeps (@sv_ret E A a).
Proof. by intros s w Hs. Qed.
Lemma keeps_err {E A} (e : E) : keeps (@sv_err E A e).
Proof. by intros s w Hs. Qed.
Lemma keeps_get {E A} (f : Server → A) : keeps (@sv_get E A f).
Proof. by intros s w Hs. Qed.
Lemma keeps_io {E A} (f : ServerState → IO E A) : keeps (sv_io f).
Proof. intros s w Hs. unfold sv_io. by destruct (f _ _). Qed.
Lemma keeps_lock {E} : keeps (@sv_lock _ E).
Proof.
  intros s w Hs. pose proof (spec_lock (E := E) (λ _ _, True) (λ s, server_inv s ∧ room s) Htame ltac:(stability) s w Hs) as Hl.
  exact Hl.
Qed.
Lemma keeps_state {E} f :
  (∀ st, s_manager (f st) = s_manager st ∧ s_tasks (f st) = s_tasks st) → keeps (@sv_modify E (with_state f)).
Proof.
  intros Hf s w [Hinv Hroom]. destruct (Hf (sv_state s)) as [Hm Ht]. simpl. split; [by apply inv_state|].
  unfold room. simpl. by rewrite Ht.
Qed.
Lemma keeps_permissions {A} (f : PermissionCoordinator → World → (result PermissionPromptError A * PermissionCoordinator) * World) :
  keeps (sv_permissions f).
Proof.
  intros s w [Hinv Hroom]. unfold sv_permissions. destruct (f _ _) as [[r c] w']. simpl. split; [by apply inv_state|done].
Qed.
Lemma keeps_manager {A} (f : AppManager → World → (result AppManagerError A * AppManager) * World) :
  (∀ am w, registry_wf (am_registry am) → registry_wf (am_registry (f am w).1.2)) → keeps (sv_manager f).
Proof.
  intros Hf s w [[] Hroom]. unfold sv_manager. specialize (Hf (s_manager (sv_state s)) w si_registry0).
  destruct (f _ _) as [[r am] w']. simpl in *. split; [by constructor|done].
Qed.

Create HintDb keeps discriminated.
Hint Resolve keeps_bind keeps_try keeps_map_err keeps_lift keeps_ret keeps_err keeps_get keeps_io keeps_lock
  keeps_permissions : keeps.

(** One step of a proof that a handler leaves tasks and sessions alone. *)
Ltac keep_step :=
  match goal with
  | |- keeps (sv_bind _ _) => apply keeps_bind; [|intros ?]
  | |- keeps (sv_try _ _) => apply keeps_try; [|intros ?]
  | |- keeps (sv_map_err _ _) => apply keeps_map_err
  | |- keeps (sv_modify (with_state _)) => apply keeps_state; by intros []
  | |- keeps (if ?b then _ else _) => destruct b
  | |- keeps (match ?x with _ => _ end) => destruct x
  | |- keeps (broker_error _) => apply keeps_err
  | |- keeps (installed_manifest _ _) => unfold installed_manifest
  | |- keeps _ => solve [auto with keeps nocore]
  end.

Lemma dispatch_media_keeps action : keeps (dispatch_media_action action).
Proof. unfold dispatch_media_action. repeat keep_step. Qed.
Lemma resolve_permission_keeps p c : keeps (resolve_permission from_slice p c).
Proof. unfold resolve_permission. repeat keep_step. Qed.
Lemma reset_permission_keeps a p : keeps (reset_permission from_slice a p).
Proof. unfold reset_permission. repeat keep_step. Qed.
Lemma get_permissions_keeps a : keeps (get_permissions from_slice a).
Proof. unfold get_permissions. repeat keep_step. Qed.
Lemma set_device_mode_keeps m b : keeps (set_device_mode m b).
Proof. unfold set_device_mode. repeat keep_step. Qed.
Lemma take_notification_keeps : keeps take_notification.
Proof. unfold take_notification. repeat keep_step. Qed.
Lemma resolve_document_keeps p d : keeps (resolve_document p d).
Proof. unfold resolve_document. repeat keep_step. Qed.
Lemma authorize_keeps peer p : keeps (authorize_broker_caller from_slice peer p).
Proof. unfold authorize_broker_caller, authenticate_broker_caller. repeat keep_step. Qed.

Lemma uninstall_keeps a : keeps (uninstall_command a).
Proof.
  unfold uninstall_command. repeat keep_step. apply keeps_manager. intros am w Hwf.
  destruct (manager_committed from_slice 0 am hello_manifest a w) as (_&_&Hc). by eapply committed_wf.
Qed.
Lemma rollback_keeps a : keeps (rollback_command from_slice a).
Proof.
  unfold rollback_command. repeat keep_step. apply keeps_manager. intros am w Hwf.
  destruct (manager_committed from_slice 0 am hello_manifest a w) as (_&Hc&_). by eapply committed_wf.
Qed.
Lemma commit_install_keeps now p replay : keeps (commit_prepared_install from_slice now p replay).
Proof.
  unfold commit_prepared_install. repeat keep_step; apply keeps_manager; intros am w Hwf.
  - unfold AppManager_prepare_account. pose proof (assign_wf (am_registry am) (m_id (pi_manifest p)) Hwf) as Ha.
    by destruct (AppRegistry_assign _ _).
  - destruct (manager_committed from_slice now am (pi_manifest p) (m_id (pi_manifest p)) w) as (Hc&_&_). by eapply committed_wf.
Qed.

(** ** Reachable servers *)

(** A handler runs from start to end, or another thread makes a step. *)
Inductive server_step (s : Server) : Server → Prop :=
  | step_env s' : env_step s s' → server_step s s'
  | step_start a w : server_step s (start_app_control from_slice a s w).1.2
  | step_activate i w : server_step s (activate_task_control from_slice i s w).1.2
  | step_stop a w : server_step s (stop_app_control a s w).1.2
  | step_close i w : server_step s (close_task_control i s w).1.2
  | step_set_foreground a w : server_step s (set_foreground_app_control a s w).1.2
  | step_media x w : server_step s (dispatch_media_action x s w).1.2
  | step_uninstall_app a w : server_step s (uninstall_command a s w).1.2
  | step_rollback_app a w : server_step s (rollback_command from_slice a s w).1.2
  | step_install now p b w : server_step s (commit_prepared_install from_slice now p b s w).1.2
  | step_resolve p c w : server_step s (resolve_permission from_slice p c s w).1.2
  | step_reset a p w : server_step s (reset_permission from_slice a p s w).1.2
  | step_mode m b w : server_step s (set_device_mode m b s w).1.2
  | step_notification w : server_step s (take_notification s w).1.2
  | step_document p d w : server_step s (resolve_document p d s w).1.2
  | step_authorize peer p w : server_step s (authorize_broker_caller from_slice peer p s w).1.2.

Lemma spec_inv {E A} P (m : SV E A) s w : sv_spec P m (λ _, server_inv) err_inv → P s → server_inv (m s w).1.2.
Proof. intros Hm Hs. specialize (Hm s w Hs). by destruct (m s w) as [[[a|e|] s'] w']. Qed.

Lemma server_step_inv s s' : server_inv s → room s → server_step s s' → server_inv s'.
Proof.
  intros Hinv Hroom Hs. pose proof (conj Hinv Hroom) as Hboth. destruct Hs.
  - by eapply stable_inv.
  - by eapply spec_inv; [apply start_app_control_spec|].
  - by eapply spec_inv; [apply activate_task_control_spec|].
  - by eapply spec_inv; [apply stop_app_control_spec|].
  - by eapply spec_inv; [apply close_task_control_spec|].
  - eapply spec_inv; [apply set_foreground_spec|]. split; [done|apply Hroom].
  - by apply dispatch_media_keeps.
  - by apply uninstall_keeps.
  - by apply rollback_keeps.
  - by apply commit_install_keeps.
  - by apply resolve_permission_keeps.
  - by apply reset_permission_keeps.
  - by apply set_device_mode_keeps.
  - by apply take_notification_keeps.
  - by apply resolve_document_keeps.
  - by apply authorize_keeps.
Qed.

End handlers.

Lemma new_server_inv manager permissions tasks0 :
  AppRegistry_validate (am_registry manager) = Ok tt → TaskRegistry_new MAX_TASKS = Ok tasks0 →
  server_inv (AppdServer_new manager permissions tasks0).
Proof.
  intros Hv Ht. vm_compute in Ht. injection Ht as <-. constructor; simpl; try done.
  - by apply validate_iff_wf.
  - apply validate_snapshot_wf. by vm_compute.
  - lia.
  - by intros x ?%elem_of_nil.
Qed.

(** ** Broker callers *)

(** What an authorization rests on: the kernel reports the caller under the
    UID of an installed application and inside the unit of that application;
    its valid manifest on the disk declares the capability; no policy denies it
    and the user's decision allows it. *)
Definition authorized (from_slice : list ascii → option AppManifest) (peer : PeerCredentials) (p : Permission)
    (app : AuthorizedApp) (d : Disk) (s : Server) : Prop :=
  ∃ a m cgroup, apps (am_registry (s_manager (sv_state s))) !! aa_app_id app = Some a ∧
    installed_version a = Some (m_version m) ∧ unix_uid a = peer_uid peer ∧
    contents_at d ("/proc/" +:+ decimal (peer_pid peer) +:+ "/cgroup") = Some cgroup ∧
    cgroup_contains_unit (String.string_of_list_ascii cgroup)
      ("cardputerzero-app-" +:+ decimal (account_id a) +:+ ".service") = true ∧
    manifest_on from_slice (s_manager (sv_state s)) (aa_app_id app) (m_version m) d = Some m ∧
    manifest_validate m = Ok tt ∧ m_id m = aa_app_id app ∧ declares m p = true ∧
    DevicePolicyEngine_denies_permission (s_policy (sv_state s)) p = false ∧
    PermissionEngine_authorize (pc_engine (s_permissions (sv_state s))) m p = AuthAllow.

(** The user's decisions allow it. *)
Definition user_allows (s : Server) (m : AppManifest) (p : Permission) : Prop :=
  PermissionEngine_authorize (pc_engine (s_permissions (sv_state s))) m p = AuthAllow.

Lemma request_engine c m p : pc_engine (PermissionCoordinator_request c m p).2 = pc_engine c.
Proof.
  unfold PermissionCoordinator_request. destruct (PermissionEngine_authorize _ _ _); [done..| |done].
  destruct (pc_pending c); [by case_match|]. by destruct (List.find _ _).
Qed.
Lemma clear_session_allows e app m p :
  PermissionEngine_authorize (PermissionEngine_clear_session e app) m p = AuthAllow → PermissionEngine_authorize e m p = AuthAllow.
Proof.
  unfold PermissionEngine_authorize. destruct (negb _); [done|]. cbn [allow_once pe_store PermissionEngine_clear_session].
  case_bool_decide as Hin; [|by case_bool_decide]. apply elem_of_filter in Hin as [_ Hin]. by rewrite bool_decide_true.
Qed.
(** The other threads grant nothing; they can only end the grants of a session. *)
Lemma env_allows s s' m p : env_step s s' → user_allows s' m p → user_allows s m p.
Proof.
  unfold user_allows. destruct 1 as [tok s|tok app crashed s|m' p' s|q s|d s|b s|q s Hq|n s]; try done.
  - unfold monitor_take. by destruct (take_runtime_end _ _).
  - unfold monitor_clean. cbn. intros Ha. revert Ha.
    unfold PermissionCoordinator_clear_app_session. destruct crashed; cbn; repeat case_match; cbn; apply clear_session_allows.
  - cbn. by rewrite request_engine.
Qed.
Lemma authorized_back from_slice peer p app d s s' :
  s_manager (sv_state s') = s_manager (sv_state s) → s_policy (sv_state s') = s_policy (sv_state s) →
  (∀ m, user_allows s' m p → user_allows s m p) → authorized from_slice peer p app d s' → authorized from_slice peer p app d s.
Proof.
  intros Hm Hp Hg (a&m&cg&?&?&?&?&?&?&?&?&?&?&Ha). rewrite Hm, Hp in *. exists a, m, cg. split_and!; try done. by apply Hg.
Qed.

(** *** Successful steps *)

Lemma sv_bind_Ok {E A B} (m : SV E A) (k : A → SV E B) b s s' w w' :
  sv_bind m k s w = ((Ok b, s'), w') → ∃ a s1 w1, m s w = ((Ok a, s1), w1) ∧ k a s1 w1 = ((Ok b, s'), w').
Proof. unfold sv_bind. destruct (m s w) as [[[a|e|] s1] w1]; [eauto|done..]. Qed.
Lemma sv_map_err_Ok {E F A} (f : E → F) (m : SV E A) a s s' w w' :
  sv_map_err f m s w = ((Ok a, s'), w') → m s w = ((Ok a, s'), w').
Proof. unfold sv_map_err. destruct (m s w) as [[[b|e|] s1] w1]; simpl; congruence. Qed.
Lemma sv_io_Ok {E A} (f : ServerState → IO E A) a s s' w w' :
  sv_io f s w = ((Ok a, s'), w') → f (sv_state s) w = (Ok a, w') ∧ s' = s.
Proof. unfold sv_io. destruct (f _ w). intros Hrun. by injection Hrun as -> -> ->. Qed.
Lemma sv_lock_Ok `{Threads} {E} u s s' w w' :
  tame _ → @sv_lock _ E s w = ((Ok u, s'), w') →
  s_manager (sv_state s') = s_manager (sv_state s) ∧ s_policy (sv_state s') = s_policy (sv_state s) ∧ w' = w.
Proof.
  intros Ht Hrun. injection Hrun as _ <- <-. simpl. specialize (Ht (sv_clock s) s).
  induction Ht as [|s1 s2 s3 (Hm&Hp&_)%env_same _ (IHm&IHp&_)]; [done|]. split_and!; congruence.
Qed.

Section broker.
  Context `{Host} `{System} `{Threads} (from_slice : list ascii → option AppManifest).

Lemma installed_manifest_on app_id m s s' w w' :
  quiet _ → installed_manifest from_slice app_id s w = ((Ok m, s'), w') →
  ∃ a, apps (am_registry (s_manager (sv_state s))) !! app_id = Some a ∧ installed_version a = Some (m_version m) ∧
    manifest_validate m = Ok tt ∧ m_id m = app_id ∧
    manifest_on from_slice (s_manager (sv_state s)) app_id (m_version m) (w_disk w) = Some m ∧ s' = s ∧ w_disk w' = w_disk w.
Proof.
  intros Hq [Hrun ->]%sv_map_err_Ok%sv_io_Ok. unfold AppManager_installed_manifest in Hrun.
  apply io_bind_Ok in Hrun as (a&?&[Ha%ok_or_Ok ->]%io_lift_Ok&Hrun).
  apply io_bind_Ok in Hrun as (v&?&[Hv%ok_or_Ok ->]%io_lift_Ok&Hrun).
  apply io_bind_Ok in Hrun as (m'&?&(Hm1&Hm2&Hd)%(load_package_manifest_Ok from_slice Hq)&Hrun).
  apply io_bind_Ok in Hrun as (?&?&[Hg ->]%io_guard_Ok&Hrun). injection Hrun as -> <-.
  unbool_hyps. subst. exists a. by split_and!.
Qed.

Lemma authenticate_Ok peer app s s' w w' :
  tame _ → quiet _ → authenticate_broker_caller from_slice peer s w = ((Ok app, s'), w') →
  s_manager (sv_state s') = s_manager (sv_state s) ∧ w_disk w' = w_disk w ∧
  ∃ a cgroup, apps (am_registry (s_manager (sv_state s))) !! aa_app_id app = Some a ∧ unix_uid a = peer_uid peer ∧
    contents_at (w_disk w) ("/proc/" +:+ decimal (peer_pid peer) +:+ "/cgroup") = Some cgroup ∧
    cgroup_contains_unit (String.string_of_list_ascii cgroup)
      ("cardputerzero-app-" +:+ decimal (account_id a) +:+ ".service") = true.
Proof.
  intros Ht Hq Hrun. unfold authenticate_broker_caller in Hrun.
  apply sv_bind_Ok in Hrun as (?&s1&?&(Hm&_&->)%sv_lock_Ok&Hrun); [|done].
  apply sv_bind_Ok in Hrun as (?&?&?&Hget&Hrun). injection Hget as <- <- <-. rewrite Hm in Hrun.
  apply sv_bind_Ok in Hrun as (installed&?&?&Hlook&Hrun). injection Hlook as Hlook <- <-.
  destruct (AppManager_installed_app_for_uid _ _) as [[i|]| |] eqn:Hi in Hlook; simplify_eq/=.
  apply sv_bind_Ok in Hrun as (unit&?&?&Hunit&Hrun). injection Hunit as Hunit <- <-.
  apply sv_bind_Ok in Hrun as (inside&?&w1&[Hproc ->]%sv_map_err_Ok%sv_io_Ok&Hrun).
  destruct inside; [|done]. cbn [negb] in Hrun.
  apply sv_bind_Ok in Hrun as (m&?&?&(a1&_&_&_&Hid&_&->&Hd)%sv_map_err_Ok%(installed_manifest_on _ _ _ _ _ _ Hq)&Hrun).
  injection Hrun as <- <- <-. unfold process_is_in_unit in Hproc.
  apply io_bind_Ok in Hproc as (text&w2&Hread&Hin). injection Hin as Hin <-.
  apply io_bind_Ok in Hread as (cgroup&w3&Hread&[Htext ->]%io_lift_Ok).
  apply ok_or_Ok in Htext. unfold from_utf8 in Htext. destruct (valid_utf8 cgroup); [|done]. injection Htext as <-.
  pose proof (read_only_run _ _ _ _ (read_only_read_file Hq _) Hread) as Hd1. apply (fs_read_file_Ok Hq) in Hread.
  destruct (AppManager_unit_for_app _ _) as [u0| |] eqn:Hu in Hunit; simplify_eq/=.
  unfold AppManager_unit_for_app in Hu. destruct (installed_account _ _) as [acc| |] eqn:Ha in Hu; simplify_eq/=.
  apply installed_account_Ok in Ha as [Ha _]. split_and!; [done|congruence|]. exists acc, cgroup.
  rewrite Hid. split_and!; [done| |done|done].
  unfold AppManager_installed_app_for_uid, AppRegistry_installed_app_for_uid in Hi.
  destruct (List.find _ _) as [[k b]|] eqn:Hf; [|done]. apply find_some_elem in Hf as [Hin' Hf].
  apply elem_of_btree_iter in Hin'. destruct (installed_version b); simplify_eq/=. unbool_hyps. congruence.
Qed.

Lemma authorize_Ok peer p app s s' w w' :
  tame _ → quiet _ → authorize_broker_caller from_slice peer p s w = ((Ok app, s'), w') →
  authorized from_slice peer p app (w_disk w) s'.
Proof.
  intros Ht Hq Hrun. unfold authorize_broker_caller in Hrun.
  apply sv_bind_Ok in Hrun as (app1&s1&w1&(Hm1&Hd1&a&cg&Ha&Hu&Hcg&Hin)%authenticate_Ok&Hrun); [|done..].
  apply sv_bind_Ok in Hrun as (?&s2&?&(Hm2&_&->)%sv_lock_Ok&Hrun); [|done].
  apply sv_bind_Ok in Hrun as (m&?&?&(a2&Ha2&Hv&Hm&Hid&Hon&->&Hd2)%sv_map_err_Ok%(installed_manifest_on _ _ _ _ _ _ Hq)&Hrun).
  rewrite Hm2, Hm1, Ha in Ha2. injection Ha2 as <-.
  apply sv_bind_Ok in Hrun as (denied&?&?&Hget&Hrun). injection Hget as <- <- <-.
  destruct (DevicePolicyEngine_denies_permission _ _) eqn:Hdeny; [done|]. unfold sv_try, sv_permissions in Hrun.
  unfold PermissionCoordinator_request in Hrun.
  destruct (PermissionEngine_authorize _ m p) eqn:Hauth in Hrun; simplify_eq/=; try done.
  - exists a, m, cg. rewrite Hm2, Hm1, Hd1 in Hon. injection Hrun as <- <- _. simpl. rewrite Hid, Hm2, Hm1. split_and!; try done.
    unfold PermissionEngine_authorize in Hauth. by destruct (declares m p).
  - by repeat (case_match; simplify_eq/=).
Qed.

End broker.

(** ** Sample threads *)

(** No other thread does anything. *)
Definition lone_thread : Threads := {| other_threads := λ _ s, s; spawn_fails := λ _, false |}.
Lemma lone_tame : tame lone_thread.
Proof. by intros n s. Qed.

Definition sample_permission_codec : Codec PermissionStore :=
  {| to_json := λ _, Some []; from_json := λ _, Some PermissionStore_default |}.
Definition sample_coordinator : PermissionCoordinator :=
  PermissionCoordinator_new {| pe_path := "/var/lib/cardputerzero/permissions.json"; pe_store := PermissionStore_default;
                               allow_once := ∅ |}.
Definition empty_tasks : TaskRegistry := mkTaskRegistry MAX_TASKS 1 1 [].
Definition sample_server : Server := AppdServer_new sample_manager sample_coordinator empty_tasks.

(** systemd that starts the unit of the sample at tick 38. *)
Definition slow_system : System :=
  {| run_command := λ t program args, inr (bool_decide (program = SYSTEMD_RUN_PATH) || (38 <? t)%nat);
     getpwnam := @getpwnam sample_system |}.
Definition sample_start : (result ErrorCode ResponseData * Server) * World :=
  @start_app_control calm_host slow_system lone_thread hello_from_slice "dev.cardputerzero.hello" sample_server
    (world_of sample_files).

(** ** Properties *)

(** C8: in every server that control handlers, package changes and broker
    requests can reach from a new one, with monitor and broker threads acting
    at every lock: the application registry is valid; the tasks satisfy their
    invariant; tokens are unique and below the counter; sessions are filed
    under their token; and the foreground token has a session. *)
Theorem server_reachable_inv `{Host} `{System} `{Threads} `{Codec AppRegistry} `{Codec PermissionStore}
    from_slice manager permissions tasks0 s :
  tame _ → AppRegistry_validate (am_registry manager) = Ok tt → TaskRegistry_new MAX_TASKS = Ok tasks0 →
  rtc (λ s s', room s ∧ server_step from_slice s s') (AppdServer_new manager permissions tasks0) s →
  server_inv s.
Proof.
  intros Ht Hv Htasks Hsteps. pose proof (new_server_inv _ permissions _ Hv Htasks) as Hinv.
  induction Hsteps as [|s1 s2 s3 [Hroom Hs] _ IH]; [done|]. apply IH. by eapply server_step_inv.
Qed.

Lemma server_reachable_inv_witness :
  server_inv sample_start.1.2 ∧ rt_foreground (sv_runtime sample_start.1.2) = Some 1%Z.
Proof.
  split; [|by vm_compute].
  apply (@server_reachable_inv calm_host slow_system lone_thread sample_codec sample_permission_codec
    hello_from_slice sample_manager sample_coordinator empty_tasks);
    [apply lone_tame|by vm_compute|by vm_compute|].
  apply rtc_once. split; [split; [split; vm_compute; reflexivity|vm_compute; reflexivity]|]. apply step_start.
Defined.

(** A start never panics, whatever the host, systemd and the other threads
    do.  When it succeeds, the device policy allowed the application, its task
    is the one in the foreground, bound to the token and unit that the caller
    gets, and the token of a new process belongs to no session yet; when it
    fails, the server is still in order. *)
Theorem start_or_activate_sound `{Host} `{System} `{Threads} from_slice app_id s w :
  tame _ → server_inv s → room s →
  match (start_or_activate_app from_slice app_id s w).1 with
  | (Ok a, s') => server_inv s' ∧ activated app_id a s'
  | (Err _, s') => server_inv s'
  | (Panicked, _) => False
  end.
Proof. intros Ht Hinv Hroom. by apply start_or_activate_spec. Qed.

Lemma start_or_activate_sound_witness :
  match (@start_or_activate_app calm_host slow_system lone_thread hello_from_slice "dev.cardputerzero.hello"
           sample_server (world_of sample_files)).1 with
  | (Ok a, s') => server_inv s' ∧ activated "dev.cardputerzero.hello" a s'
  | (Err _, s') => server_inv s'
  | (Panicked, _) => False
  end.
Proof.
  apply (@start_or_activate_sound calm_host slow_system lone_thread); [apply lone_tame| |].
  - by apply new_server_inv; vm_compute.
  - split; [split; vm_compute; reflexivity|vm_compute; reflexivity].
Defined.

(** None of the lifecycle handlers panics: the [expect]s on the oldest
    task, on the runtime of a resident task and on the record of a started
    task hold under every interleaving with the other threads. *)
Theorem lifecycle_never_panics `{Host} `{System} `{Threads} from_slice app_id id target s w :
  tame _ → server_inv s → room s →
  (start_app_control from_slice app_id s w).1.1 ≠ Panicked ∧
  (activate_task_control from_slice id s w).1.1 ≠ Panicked ∧
  (stop_app_control app_id s w).1.1 ≠ Panicked ∧ (close_task_control id s w).1.1 ≠ Panicked ∧
  (set_foreground_app_control target s w).1.1 ≠ Panicked.
Proof.
  intros Ht Hinv Hroom.
  assert (∀ E A P (m : SV E A) Q X, sv_spec P m Q X → P s → (m s w).1.1 ≠ Panicked) as Hnp.
  { intros E A P m Q X Hm HP. specialize (Hm s w HP). by destruct (m s w) as [[[]?]?]. }
  split_and!; eapply Hnp.
  - by apply start_app_control_spec.
  - done.
  - by apply activate_task_control_spec.
  - done.
  - by apply stop_app_control_spec.
  - done.
  - by apply close_task_control_spec.
  - done.
  - by apply set_foreground_spec.
  - split; [done|apply Hroom].
Qed.

Lemma lifecycle_never_panics_witness :
  (@stop_app_control slow_system lone_thread "dev.cardputerzero.hello" sample_server
     (world_of sample_files)).1.1 ≠ Panicked.
Proof.
  destruct (@lifecycle_never_panics calm_host slow_system lone_thread hello_from_slice "dev.cardputerzero.hello" 1%Z None
    sample_server (world_of sample_files)) as (_&_&Hstop&_); [apply lone_tame| | |exact Hstop].
  - by apply new_server_inv; vm_compute.
  - split; [split; vm_compute; reflexivity|vm_compute; reflexivity].
Defined.

(** A broker operation only runs for a process that the kernel reports
    under the UID of an installed application and inside the unit of that very
    application, whose valid manifest on the disk declares the capability, while
    no device policy denies it and the user's decision allows it. *)
Theorem broker_call_authorized `{Host} `{System} `{Threads} from_slice peer p app s s' w w' :
  tame _ → quiet _ → authorize_broker_caller from_slice peer p s w = ((Ok app, s'), w') →
  authorized from_slice peer p app (w_disk w) s'.
Proof. apply authorize_Ok. Qed.

(** The process of the sample application, and the user's consent to sound. *)
Definition sample_peer : PeerCredentials := mkPeerCredentials 77 20000 20000.
Definition peer_files : list (string * Inode) :=
  ("/proc/77/cgroup", mkInode RegularFile
     (String.list_ascii_of_string "0::/system.slice/cardputerzero-app-20000.service") 0 292 true) :: sample_files.
Definition consented_server : Server :=
  AppdServer_new sample_manager
    (PermissionCoordinator_new {| pe_path := "/p"; pe_store := PermissionStore_default;
                                  allow_once := {[("dev.cardputerzero.hello", AudioPlayback)]} |}) empty_tasks.

Lemma broker_call_authorized_witness :
  let run := @authorize_broker_caller calm_host lone_thread hello_from_slice sample_peer AudioPlayback
               consented_server (world_of peer_files) in
  run.1.1 = Ok {| aa_app_id := "dev.cardputerzero.hello"; aa_app_name := "Hello Card";
                  aa_storage_quota_bytes := 8388608 |} ∧
  authorized hello_from_slice sample_peer AudioPlayback
    {| aa_app_id := "dev.cardputerzero.hello"; aa_app_name := "Hello Card"; aa_storage_quota_bytes := 8388608 |}
    (w_disk (world_of peer_files)) run.1.2.
Proof.
  intros run. assert (run.1.1 = Ok {| aa_app_id := "dev.cardputerzero.hello"; aa_app_name := "Hello Card";
    aa_storage_quota_bytes := 8388608 |}) as Hok by (by vm_compute).
  split; [exact Hok|]. destruct run as [[r s'] w'] eqn:Hrun. unfold run in Hrun. simpl in Hok. subst r. clear run.
  exact (@broker_call_authorized calm_host sample_system lone_thread hello_from_slice sample_peer AudioPlayback _ _ s' _ w'
    lone_tame (λ _ _, eq_refl) Hrun).
Defined.

(** ** Roles on the control socket *)

Inductive Role := RoleShell | RoleStore | RoleRoot | RoleTrusted.

(** Who each command is for. *)
Definition role_of (c : AppdCommand) : Role :=
  match c with
  | CmdImportScreenshot | CmdSetForegroundApp _ => RoleShell
  | CmdStoreInstall _ _ _ _ _ _ | CmdStoreListInstalled _ _ => RoleStore
  | CmdInstall _ | CmdRollback _ | CmdLogs _ _ => RoleRoot
  | _ => RoleTrusted
  end.

(** Every command has one role and runs for its holders only: the shell
    imports screenshots and sets the foreground, a store installer does nothing
    but install and list for the store, only root installs local packages,
    rolls back and reads logs, and all other commands are for trusted users who
    are no store installers. *)
Theorem control_roles_separated uid c trusted store shell :
  control_command_authorized uid c trusted store shell = true ↔
  match role_of c with
  | RoleShell => shell = Some uid
  | RoleStore => uid ∈ store
  | RoleRoot => uid = 0%Z ∧ uid ∈ trusted ∧ uid ∉ store
  | RoleTrusted => uid ∈ trusted ∧ uid ∉ store
  end.
Proof.
  unfold control_command_authorized.
  destruct c; simpl; try (by rewrite bool_decide_eq_true); (case_bool_decide; [|case_bool_decide]); simpl;
    rewrite ?Z.eqb_eq; naive_solver.
Qed.

(** ** A stop that fails half-way *)

(** The monitor of [tok] sees the end of its unit at the [n]th lock. *)
Definition ending_at (n : nat) (tok : Z) (app_id : string) : Threads :=
  {| other_threads := λ k s, if (k =? n)%nat then
                               match monitor_take tok s with
                               | (Some crashed, s) => monitor_clean tok app_id crashed s
                               | (None, s) => s
                               end
                             else s;
     spawn_fails := λ _, false |}.

Definition tick (s : Server) : Server :=
  {| sv_state := sv_state s; sv_runtime := sv_runtime s; sv_sequence := sv_sequence s; sv_clock := S (sv_clock s) |}.
Lemma lock_quiet {E} n tok app_id s w :
  sv_clock s ≠ n → @sv_lock (ending_at n tok app_id) E s w = ((Ok tt, tick s), w).
Proof. intros Hne. unfold sv_lock. simpl. by rewrite (proj2 (Nat.eqb_neq _ _) Hne). Qed.

(** The server when the failed stop is over. *)
Definition after_failed_stop (app_id : string) (tok : Z) (s : Server) : Server :=
  let ended := (take_runtime_end (mark_explicit_stop (sv_runtime s) app_id).2 tok).2 in
  {| sv_state := clear_app_state app_id (sv_state s);
     sv_runtime := cancel_explicit_stop ended (Some tok);
     sv_sequence := sv_sequence s; sv_clock := 3 + sv_clock s |}.

Lemma marked_session rt app_id tok :
  (∀ k v, sessions rt !! k = Some v → rs_token v = k) → (mark_explicit_stop rt app_id).1 = Some tok →
  (take_runtime_end (mark_explicit_stop rt app_id).2 tok).1 = Some false ∧
  sessions (take_runtime_end (mark_explicit_stop rt app_id).2 tok).2 !! tok = None.
Proof.
  intros Hkeys. unfold mark_explicit_stop. destruct (List.find _ _) as [[k v]|] eqn:Hf; [|done].
  apply find_some_elem in Hf as [Hin _]. apply elem_of_btree_iter in Hin. apply Hkeys in Hin as Htok.
  intros [= <-]. unfold take_runtime_end. simpl. rewrite Htok, lookup_insert_eq. simpl. by rewrite lookup_delete_eq.
Qed.

Lemma stop_under_lock_fails `{System} app_id s w w1 w2 e :
  AppManager_is_running (s_manager (sv_state s)) app_id w = (Ok true, w1) →
  AppManager_stop (s_manager (sv_state s)) app_id w1 = (Err e, w2) →
  stop_under_lock app_id s w = ((Err e, s), w2).
Proof.
  intros Hrunning Hstop. unfold stop_under_lock. unfold sv_bind at 1, sv_get. unfold sv_bind at 1, sv_io at 1.
  rewrite Hrunning. unfold sv_bind at 1, sv_io. by rewrite Hstop.
Qed.

Lemma failed_stop `{System} app_id tok s w w1 w2 e :
  (∀ k v, sessions (sv_runtime s) !! k = Some v → rs_token v = k) →
  (mark_explicit_stop (sv_runtime s) app_id).1 = Some tok →
  AppManager_is_running (s_manager (sv_state s)) app_id w = (Ok true, w1) →
  AppManager_stop (s_manager (sv_state s)) app_id w1 = (Err e, w2) →
  @stop_app_control _ (ending_at (2 + sv_clock s) tok app_id) app_id s w
  = ((Err (manager_error_response e), after_failed_stop app_id tok s), w2).
Proof.
  intros Hkeys Hmark Hrunning Hstop. destruct (marked_session _ _ _ Hkeys Hmark) as [Hend _].
  unfold stop_app_control, sv_bind at 1. rewrite lock_quiet by lia. unfold sv_bind at 1, sv_sessions. simpl.
  destruct (mark_explicit_stop (sv_runtime s) app_id) as [marked rt] eqn:Hm. simpl in Hmark, Hend. subst marked.
  unfold sv_bind at 1. rewrite lock_quiet by (simpl; lia). unfold sv_try. cbv beta.
  erewrite stop_under_lock_fails by done. unfold sv_bind, sv_lock. simpl.
  rewrite Nat.eqb_refl. unfold monitor_take. simpl.
  unfold after_failed_stop. rewrite Hm. simpl.
  destruct (take_runtime_end rt tok) as [crashed ended]. simpl in Hend. subst crashed. done.
Qed.

Lemma activate_ok r id t :
  TaskRegistry_task r id = Some t → TaskState_is_resident (t_state t) = true →
  ∃ o r', TaskRegistry_activate r id = (Ok o, r').
Proof.
  intros Ht Hres. pose proof (activate_all_or_nothing r id) as [Hnp _]. unfold TaskRegistry_activate in *.
  rewrite Ht, Hres in *. cbn [negb] in *. destruct (TaskRegistry_background_foreground _ _) as [back r1].
  destruct (TaskRegistry_take_sequence r1) as [sequence r2]. destruct (TaskRegistry_task r2 id); [eauto|done].
Qed.

(** Starting an application with a resident task that is not frozen reads its
    manifest and does nothing else on the host. *)
Lemma start_resident `{Host} `{System} from_slice n tok app_id task b m s w w' :
  tasks_wf (s_tasks (sv_state s)) → (n < sv_clock s)%nat →
  DevicePolicyEngine_allows_app (s_policy (sv_state s)) app_id = true →
  AppManager_installed_manifest from_slice (s_manager (sv_state s)) app_id w = (Ok m, w') →
  TaskRegistry_task_for_app (s_tasks (sv_state s)) app_id = Some task →
  TaskState_is_resident (t_state task) = true → t_state task ≠ Frozen → t_runtime task = Some b →
  ∃ s', @start_app_control _ _ (ending_at n tok app_id) from_slice app_id s w
        = ((Ok (RdStarted app_id (unit_name b)), s'), w').
Proof.
  intros Hinv Hn Hallow Hman Htask Hres Hfrozen Hb.
  assert (TaskRegistry_task (s_tasks (sv_state s)) (task_id task) = Some task) as Hid.
  { apply find_some_elem in Htask as [Hin _].
    destruct (TaskRegistry_task (s_tasks (sv_state s)) (task_id task)) as [t1|] eqn:Hf.
    - apply task_elem in Hf as [Hin1 Hid]. by rewrite (unique_by_id _ _ _ Hinv Hin1 Hin Hid).
    - pose proof (find_none_elem _ _ _ Hf Hin) as Hne. unfold has_id in Hne. by unbool_hyps. }
  destruct (activate_ok _ _ _ Hid Hres) as (o&r'&Hact).
  unfold start_app_control, sv_map_err, start_or_activate_app, activate_resident.
  unfold sv_bind at 1 2. rewrite lock_quiet by lia. unfold sv_bind at 1, sv_get at 1. simpl. rewrite Hallow.
  unfold sv_bind at 1, sv_ret at 1, sv_lift at 1. unfold sv_bind at 1, installed_manifest, sv_map_err, sv_io at 1. simpl.
  rewrite Hman. simpl. unfold sv_bind at 1, sv_get at 1. simpl. rewrite Htask, Hres, bool_decide_false by done.
  unfold sv_bind at 1, sv_ret at 1, sv_lift at 1. unfold sv_bind at 1. rewrite lock_quiet by (simpl; lia).
  unfold sv_bind at 1, sv_tasks. simpl. rewrite Hact. simpl. rewrite Hb. unfold sv_bind at 1. simpl.
  by eexists.
Qed.

(** C40: the unit of a running application ends while a stop of it is under
    way, so that systemd refuses the stop.  Its monitor sees the mark of the
    stop and does not report an end of the task, and the failed stop does not
    close it: the task stays resident although its session is gone, and every
    later start answers that the application was started, in a unit that no
    longer exists, without asking systemd anything: the world after the start
    is the one after reading the manifest. *)
Theorem failed_stop_keeps_dead_task `{Host} `{System} from_slice app_id task b s w w1 w2 e :
  server_inv s → (mark_explicit_stop (sv_runtime s) app_id).1 = Some (token b) →
  TaskRegistry_task_for_app (s_tasks (sv_state s)) app_id = Some task →
  TaskState_is_resident (t_state task) = true → t_state task ≠ Frozen → t_runtime task = Some b →
  DevicePolicyEngine_allows_app (s_policy (sv_state s)) app_id = true →
  AppManager_is_running (s_manager (sv_state s)) app_id w = (Ok true, w1) →
  AppManager_stop (s_manager (sv_state s)) app_id w1 = (Err e, w2) →
  let T := ending_at (2 + sv_clock s) (token b) app_id in
  ∃ s', @stop_app_control _ T app_id s w = ((Err (manager_error_response e), s'), w2) ∧
    sessions (sv_runtime s') !! token b = None ∧
    ∀ S' w3 w4 m, AppManager_installed_manifest from_slice (s_manager (sv_state s)) app_id w3 = (Ok m, w4) →
      ∃ s'', @start_app_control _ S' T from_slice app_id s' w3 = ((Ok (RdStarted app_id (unit_name b)), s''), w4).
Proof.
  intros Hinv Hmark Htask Hres Hfrozen Hb Hallow Hrunning Hstop T.
  assert (∀ k v, sessions (sv_runtime s) !! k = Some v → rs_token v = k) as Hkeys
    by (intros k v Hk; apply (si_sessions _ Hinv _ _ Hk)).
  exists (after_failed_stop app_id (token b) s). split_and!.
  - by eapply failed_stop.
  - simpl. rewrite lookup_alter_eq. by rewrite (proj2 (marked_session _ _ _ Hkeys Hmark)).
  - intros S' w3 w4 m Hman. apply (start_resident from_slice _ _ app_id task b m); try done.
    + apply (si_tasks _ Hinv).
    + simpl. lia.
Qed.

(** systemd that reports the unit as active and refuses to stop it. *)
Definition stubborn_system : System :=
  {| run_command := λ _ _ args, inr (bool_decide (head args = Some "is-active")); getpwnam := λ _ _, inr None |}.
(** systemd that has no unit at all. *)
Definition empty_system : System := {| run_command := λ _ _ _, inr false; getpwnam := λ _ _, inr None |}.

Lemma sample_start_inv : server_inv sample_start.1.2.
Proof.
  apply (@server_step_inv calm_host slow_system lone_thread sample_codec sample_permission_codec
    hello_from_slice lone_tame sample_server).
  - by apply new_server_inv; vm_compute.
  - split; [split; vm_compute; reflexivity|vm_compute; reflexivity].
  - apply step_start.
Qed.

Lemma failed_stop_keeps_dead_task_witness :
  let T := ending_at (2 + sv_clock sample_start.1.2) 1 "dev.cardputerzero.hello" in
  ∃ s', (@stop_app_control stubborn_system T "dev.cardputerzero.hello" sample_start.1.2 (world_of sample_files)).1
        = (Err CodeInternal, s') ∧ sessions (sv_runtime s') !! 1%Z = None ∧
  ∃ s'' w'', @start_app_control calm_host empty_system T hello_from_slice "dev.cardputerzero.hello" s' (world_of sample_files)
        = ((Ok (RdStarted "dev.cardputerzero.hello" "cardputerzero-app-20000.service"), s''), w'').
Proof.
  intros T. set (b := mkRuntimeBinding 1 "cardputerzero-app-20000.service").
  set (am := s_manager (sv_state sample_start.1.2)).
  destruct (TaskRegistry_task_for_app (s_tasks (sv_state sample_start.1.2)) "dev.cardputerzero.hello") as [task|] eqn:Htask;
    [|by vm_compute in Htask].
  assert (t_runtime task = Some b ∧ t_state task = Foreground) as [Hb Hstate]
    by (vm_compute in Htask; injection Htask as <-; by vm_compute).
  assert (∀ A B (x : A * B) a, x.1 = a → x = (a, x.2)) as Hpair by (by intros A B [] ? <-).
  set (w1 := (@AppManager_is_running stubborn_system am "dev.cardputerzero.hello" (world_of sample_files)).2).
  destruct (@failed_stop_keeps_dead_task calm_host stubborn_system hello_from_slice "dev.cardputerzero.hello" task b
    sample_start.1.2 (world_of sample_files) w1
    (@AppManager_stop stubborn_system am "dev.cardputerzero.hello" w1).2 (AmUnitFailed "stop")) as (s'&Hrun&Hgone&Hstart).
  - exact sample_start_inv.
  - by vm_compute.
  - done.
  - by rewrite Hstate.
  - by rewrite Hstate.
  - done.
  - by vm_compute.
  - apply Hpair. by vm_compute.
  - apply Hpair. by vm_compute.
  - exists s'. split_and!; [exact (f_equal fst Hrun)|exact Hgone|].
    destruct (Hstart empty_system (world_of sample_files)
      (@AppManager_installed_manifest calm_host hello_from_slice am "dev.cardputerzero.hello" (world_of sample_files)).2 hello_manifest)
      as [s2 Hs2]; [apply Hpair; by vm_compute|]. eexists s2, _. exact Hs2.
Defined.

(** ** Uninstalling *)

Lemma reset_app_forgets `{Host} `{Codec PermissionStore} c app_id w :
  let c' := (PermissionCoordinator_reset_app c app_id w).1.2 in
  (∀ prompt, pc_pending c' = Some prompt → pp_app_id prompt ≠ app_id) ∧
  ∀ m p, PermissionEngine_authorize (pc_engine c') m p
         = if decide (m_id m = app_id) then (if declares m p then AuthPrompt else AuthUndeclared)
           else PermissionEngine_authorize (pc_engine c) m p.
Proof.
  unfold PermissionCoordinator_reset_app, PermissionEngine_reset_app, engine_save. simpl.
  destruct (PermissionStore_save_atomic _ _ w) as [r w'].
  split.
  - intros prompt. simpl. destruct (pc_pending c) as [q|] eqn:Hq; simpl; [|congruence].
    case_bool_decide; simpl; [done|congruence].
  - intros m p. simpl. unfold PermissionEngine_authorize. simpl.
    replace (pc_engine (match pc_pending c with _ => _ end)) with (pc_engine c)
      by (destruct (pc_pending c) as [q|]; [by case_bool_decide|done]).
    rewrite bool_decide_retain, decision_reset_app.
    destruct (declares m p); simpl; [|by destruct (decide _)].
    destruct (decide (m_id m = app_id)) as [->|Hne]; [by rewrite bool_decide_true|by rewrite bool_decide_false].
Qed.

(** An application that was uninstalled is not a built-in one and had no
    task.  Its account keeps its identity and has no version any more; nothing
    else in the registry changed; no prompt of it is left; and whatever the user
    had decided for it is forgotten: a package that comes back under its id has
    to ask again for everything it declares. *)
Theorem uninstalled_app_forgotten `{Host} `{System} `{Threads} `{Codec AppRegistry} `{Codec PermissionStore}
    app_id r s s' w w' :
  tame _ → uninstall_command app_id s w = ((Ok r, s'), w') →
  app_id ∉ IMMUTABLE_BUILTIN_APP_IDS ∧ TaskRegistry_task_for_app (s_tasks (sv_state s')) app_id = None ∧
  (∃ a, apps (am_registry (s_manager (sv_state s))) !! app_id = Some a ∧
     am_registry (s_manager (sv_state s'))
     = set_apps (<[app_id := set_version None [] None a]> (apps (am_registry (s_manager (sv_state s)))))
         (am_registry (s_manager (sv_state s)))) ∧
  (∀ prompt, pc_pending (s_permissions (sv_state s')) = Some prompt → pp_app_id prompt ≠ app_id) ∧
  (∀ m p, m_id m = app_id → declares m p = true →
     PermissionEngine_authorize (pc_engine (s_permissions (sv_state s'))) m p = AuthPrompt).
Proof.
  intros Ht Hrun. unfold uninstall_command in Hrun.
  apply sv_bind_Ok in Hrun as (?&s1&?&(Hm&_&->)%sv_lock_Ok&Hrun); [|done].
  apply sv_bind_Ok in Hrun as (?&?&?&Hget&Hrun). injection Hget as <- <- <-.
  destruct (is_removable_app app_id) eqn:Hrem; [|done].
  apply sv_bind_Ok in Hrun as (?&?&?&Hret&Hrun). injection Hret as _ <- <-.
  apply sv_bind_Ok in Hrun as (running&?&w1&[_ ->]%sv_map_err_Ok%sv_io_Ok&Hrun).
  destruct (running || _) eqn:Hbusy; [done|]. apply orb_false_iff in Hbusy as [_ Htask].
  apply sv_bind_Ok in Hrun as (?&?&?&Hret&Hrun). injection Hret as _ <- <-.
  apply sv_bind_Ok in Hrun as (?&s2&w2&Hreset%sv_map_err_Ok&Hrun). unfold sv_permissions in Hreset.
  pose proof (reset_app_forgets (s_permissions (sv_state s1)) app_id w1) as [Hpending Hforget].
  destruct (PermissionCoordinator_reset_app _ _ _) as [[r2 c] w3]. injection Hreset as -> <- <-.
  apply sv_bind_Ok in Hrun as (?&?&?&Hmod&Hrun). injection Hmod as _ <- <-.
  apply sv_bind_Ok in Hrun as (removed&s3&w4&Hun%sv_map_err_Ok&Hrun). unfold sv_manager in Hun. simpl in Hun.
  pose proof (manager_committed (λ _, None) 0 (s_manager (sv_state s1)) hello_manifest app_id w3) as (_&_&Hcommit).
  rewrite Hm in *. destruct (AppManager_uninstall _ _ _) as [[r3 am'] w5]. injection Hun as -> <- <-.
  destruct Hcommit as (_&[a Hop]&_). injection Hrun as _ <- _. simpl in *. split_and!.
  - unfold is_removable_app in Hrem. by apply negb_true_iff, bool_decide_eq_false in Hrem.
  - unfold task_blocks_package_change in Htask. apply bool_decide_eq_false in Htask. by apply eq_None_not_Some.
  - unfold AppRegistry_uninstall in Hop. destruct (apps _ !! app_id) as [acc|]; [|done].
    case_bool_decide; [done|]. injection Hop as _ <-. eauto.
  - done.
  - intros m p Hid Hdecl. by rewrite Hforget, decide_True, Hdecl.
Qed.

(** The sample application before an uninstall, with a consent of the user. *)
Definition sample_uninstall : (result CommandError ResponseData * Server) * World :=
  @uninstall_command calm_host sample_system lone_thread sample_codec sample_permission_codec "dev.cardputerzero.hello"
    (AppdServer_new sample_manager
       (PermissionCoordinator_new
          {| pe_path := "/var/lib/cardputerzero/registry/permissions.json"; pe_store := PermissionStore_default;
             allow_once := {[("dev.cardputerzero.hello", AudioPlayback)]} |}) empty_tasks) (world_of sample_files).

Lemma uninstalled_app_forgotten_witness :
  sample_uninstall.1.1 = Ok (RdUninstalled "dev.cardputerzero.hello" true false) ∧
  PermissionEngine_authorize (pc_engine (s_permissions (sv_state sample_uninstall.1.2))) hello_manifest AudioPlayback
  = AuthPrompt.
Proof.
  assert (sample_uninstall.1.1 = Ok (RdUninstalled "dev.cardputerzero.hello" true false)) as Hok by (by vm_compute).
  split; [exact Hok|]. destruct sample_uninstall as [[r s'] w'] eqn:Hrun. simpl in Hok. subst r.
  unfold sample_uninstall in Hrun.
  destruct (@uninstalled_app_forgotten calm_host sample_system lone_thread sample_codec sample_permission_codec
    _ _ _ s' _ w' lone_tame Hrun) as (_&_&_&_&Hask).
  apply Hask; by vm_compute.
Defined.
