(* ===== verification/Transparency.v ===== *)
(** * The Store transparency log (crates/cp0-store-transparency/src/lib.rs)

    Every catalogue the Store publishes is a leaf of an append-only Merkle
    tree; a signed checkpoint commits to the tree, and a client that has the
    leaves checks the checkpoint, or that a newer checkpoint extends an older
    one.  SHA-256, Ed25519 and the JSON coding come from third-party crates and
    are parameters ([Crypto] of [Package], [Codec] of [HostFs]).

    The recursion of [tree_hash] halves a slice; the model gives it the length
    of the slice as fuel, and [tree_hash_Some] shows that this is enough for
    every non-empty slice.

    The theorems: the split point is the power of two it should be and the hash
    of a non-empty tree exists; as long as no two different messages that were
    hashed collide, a root belongs to one log only, whatever its size, because
    leaves and nodes are hashed in domains of their own; an accepted newer
    checkpoint therefore extends every log that the older one was issued for;
    an honestly signed log and all its extensions are accepted. *)

From S2P Require Import Prelude RustStr HostFs Bytes Checkpoint Package.

Definition TRANSPARENCY_SCHEMA_VERSION : Z := 1.
Definition MAX_LEAF_BYTES : nat := 4 * 1024.
Definition MAX_LOG_CHECKPOINT_BYTES : nat := 2 * 1024.
Definition MAX_TREE_LEAVES : Z := 1000000.

Definition LEAF_DOMAIN : list ascii := bytes "CardputerZero transparency leaf v1" ++ [zero_byte].
Definition NODE_DOMAIN : list ascii := bytes "CardputerZero transparency node v1" ++ [zero_byte].
Definition EMPTY_DOMAIN : list ascii := bytes "CardputerZero transparency empty tree v1" ++ [zero_byte].
Definition CHECKPOINT_DOMAIN : list ascii := bytes "CardputerZero transparency checkpoint v1" ++ [zero_byte].

Record TransparencyLeaf := mkTransparencyLeaf {
  tl_schema_version : Z;
  tree_index : Z;
  catalog_sequence : Z;
  catalog_sha256 : string;
  catalog_bytes : Z;
  tl_store_key_id : string;
  published_unix_seconds : Z;
  source_event_id : string;
  source_release_id : string;
  job_kind : string;
  release_state : string;
}.

Record LogCheckpoint := mkLogCheckpoint {
  lc_schema_version : Z;
  tree_size : Z;
  root_sha256 : string;
  latest_catalog_sequence : Z;
  issued_unix_seconds : Z;
}.

Record SignedCheckpoint := mkSignedCheckpoint {
  sc_checkpoint : LogCheckpoint;
  sc_key_id : string;
  sc_signature : string;
}.

Global Instance TransparencyLeaf_eq_dec : EqDecision TransparencyLeaf.
Proof. solve_decision. Defined.

Inductive TransparencyInvalid :=
  | TpLeafSchema | TpLeafIndex | TpLeafCatalog | TpLeafDigest | TpLeafSource | TpLeafTransition
  | TpCheckpointSchema | TpCheckpointMetadata | TpNotCanonical | TpTreeBound | TpSignatureFields
  | TpTreeSize | TpNotContiguous | TpEmpty | TpNotCommitted | TpNotPrefix.
Inductive TransparencySignature := TpKeyId | TpSignatureEncoding | TpTrustedKey | TpSignatureMismatch.
Inductive TransparencyError :=
  | TpJson
  | TpInvalid (why : TransparencyInvalid)
  | TpSignature (why : TransparencySignature)
  | TpTooLarge.

(** ** Fields *)

Definition lower_hex_byte (b : ascii) : bool := is_ascii_hexdigit b && negb (is_ascii_uppercase b).

Definition is_lower_hex_text (value : string) (n : nat) : bool :=
  (String.length value =? n * 2)%nat && bytes_all lower_hex_byte value.

Definition valid_prefixed_id (value prefix : string) : bool :=
  (String.length value =? String.length prefix + 32)%nat && starts_with prefix value
  && match strip_prefix prefix value with Some rest => bytes_all lower_hex_byte rest | None => false end.

Definition valid_transition (job_kind release_state : string) : bool :=
  (bool_decide (job_kind = "publish-release") && bool_decide (release_state = "publishing"))
  || (bool_decide (job_kind = "rebuild-catalog")
      && bool_decide (release_state ∈ ["published"; "paused"; "removed"])).

Definition TransparencyLeaf_validate (l : TransparencyLeaf) : result TransparencyError unit :=
  if negb (tl_schema_version l =? TRANSPARENCY_SCHEMA_VERSION)%Z then Err (TpInvalid TpLeafSchema)
  else if (MAX_TREE_LEAVES <=? tree_index l)%Z then Err (TpInvalid TpLeafIndex)
  else if (catalog_sequence l =? 0)%Z || (catalog_bytes l =? 0)%Z || (48 * 1024 <? catalog_bytes l)%Z
          || (published_unix_seconds l =? 0)%Z
  then Err (TpInvalid TpLeafCatalog)
  else if negb (is_lower_hex_text (catalog_sha256 l) 32) || negb (is_lower_hex_text (tl_store_key_id l) 32)
  then Err (TpInvalid TpLeafDigest)
  else if negb (valid_prefixed_id (source_event_id l) "evt_") || negb (valid_prefixed_id (source_release_id l) "rel_")
  then Err (TpInvalid TpLeafSource)
  else if negb (valid_transition (job_kind l) (release_state l)) then Err (TpInvalid TpLeafTransition)
  else Ok tt.

Definition LogCheckpoint_validate (c : LogCheckpoint) : result TransparencyError unit :=
  if negb (lc_schema_version c =? TRANSPARENCY_SCHEMA_VERSION)%Z then Err (TpInvalid TpCheckpointSchema)
  else if (tree_size c =? 0)%Z || (MAX_TREE_LEAVES <? tree_size c)%Z || (latest_catalog_sequence c =? 0)%Z
          || (issued_unix_seconds c =? 0)%Z || negb (is_lower_hex_text (root_sha256 c) 32)
  then Err (TpInvalid TpCheckpointMetadata)
  else Ok tt.

(** ** Hexadecimal *)

Definition hex_value (b : ascii) : option Z :=
  if byte_in 48 57 b then Some (byte_of b - 48)%Z
  else if byte_in 97 102 b then Some (byte_of b - 97 + 10)%Z
  else None.

(** The loop of [decode_hex] over pairs of digits. *)
Fixpoint decode_pairs (l : list ascii) : option (list ascii) :=
  match l with
  | a :: b :: l =>
      match hex_value a, hex_value b, decode_pairs l with
      | Some x, Some y, Some rest => Some (byte_of_Z (Z.lor (Z.shiftl x 4) y) :: rest)
      | _, _, _ => None
      end
  | _ => Some []
  end.
Definition decode_hex (n : nat) (value : string) : option (list ascii) :=
  if is_lower_hex_text value n then decode_pairs (bytes value) else None.

(** ** Hashing *)

Definition largest_power_of_two_less_than (value : nat) : nat :=
  let highest := 2 ^ Nat.log2 value in
  if (highest =? value)%nat then highest `div` 2 else highest.

Definition checkpoint_message (canonical : list ascii) : list ascii :=
  CHECKPOINT_DOMAIN ++ be_bytes 8 (Z.of_nat (length canonical)) ++ canonical.

Section transparency.
  Context `{Crypto} `{Codec TransparencyLeaf} `{Codec LogCheckpoint} `{Codec SignedCheckpoint}.

Definition encode_leaf (l : TransparencyLeaf) : result TransparencyError (list ascii) :=
  let? _ := TransparencyLeaf_validate l in
  let? encoded := ok_or (to_json l) TpJson in
  if (MAX_LEAF_BYTES <? length encoded)%nat then Err TpTooLarge else Ok encoded.

Definition decode_leaf (encoded : list ascii) : result TransparencyError TransparencyLeaf :=
  if (length encoded =? 0)%nat || (MAX_LEAF_BYTES <? length encoded)%nat then Err TpTooLarge
  else
    let? leaf := ok_or (from_json encoded) TpJson in
    let? _ := TransparencyLeaf_validate leaf in
    let? again := ok_or (to_json leaf) TpJson in
    if negb (bool_decide (again = encoded)) then Err (TpInvalid TpNotCanonical) else Ok leaf.

Definition leaf_message (encoded : list ascii) : list ascii :=
  LEAF_DOMAIN ++ be_bytes 8 (Z.of_nat (length encoded)) ++ encoded.
Definition leaf_hash (l : TransparencyLeaf) : result TransparencyError (list ascii) :=
  let? encoded := encode_leaf l in Ok (sha256 (leaf_message encoded)).

Definition node_message (l r : list ascii) : list ascii := NODE_DOMAIN ++ l ++ r.

(** [None] is an empty slice or the end of the fuel. *)
Fixpoint tree_hash_fuel (fuel : nat) (hashes : list (list ascii)) : option (list ascii) :=
  match fuel with
  | 0 => None
  | S fuel =>
      match hashes with
      | [] => None
      | [h] => Some h
      | _ =>
          let split := largest_power_of_two_less_than (length hashes) in
          match tree_hash_fuel fuel (take split hashes), tree_hash_fuel fuel (drop split hashes) with
          | Some l, Some r => Some (sha256 (node_message l r))
          | _, _ => None
          end
      end
  end.
Definition tree_hash (hashes : list (list ascii)) : option (list ascii) := tree_hash_fuel (length hashes) hashes.

Definition merkle_root_from_hashes (hashes : list (list ascii)) : option (list ascii) :=
  match hashes with [] => Some (sha256 EMPTY_DOMAIN) | _ => tree_hash hashes end.

(** [leaves.iter().map(leaf_hash).collect()]. *)
Fixpoint leaf_hashes (l : list TransparencyLeaf) : result TransparencyError (list (list ascii)) :=
  match l with
  | [] => Ok []
  | leaf :: l => let? h := leaf_hash leaf in let? hs := leaf_hashes l in Ok (h :: hs)
  end.

Definition merkle_root (leaves : list TransparencyLeaf) : result TransparencyError (list ascii) :=
  if (MAX_TREE_LEAVES <? Z.of_nat (length leaves))%Z then Err (TpInvalid TpTreeBound)
  else
    let? hashes := leaf_hashes leaves in
    expect (merkle_root_from_hashes hashes).

(** ** Checkpoints *)

Definition sign_checkpoint (c : LogCheckpoint) (signing_key : list ascii) : result TransparencyError SignedCheckpoint :=
  let? _ := LogCheckpoint_validate c in
  let? canonical := ok_or (to_json c) TpJson in
  Ok {| sc_checkpoint := c; sc_key_id := lower_hex (key_id (public_key signing_key));
        sc_signature := lower_hex (ed25519_sign signing_key (checkpoint_message canonical)) |}.

Definition verify_checkpoint (signed : SignedCheckpoint) (key : list ascii) : result TransparencyError unit :=
  let? _ := LogCheckpoint_validate (sc_checkpoint signed) in
  if negb (bool_decide (sc_key_id signed = lower_hex (key_id key))) then Err (TpSignature TpKeyId)
  else
    let? signature := ok_or (decode_hex 64 (sc_signature signed)) (TpSignature TpSignatureEncoding) in
    if negb (verifying_key_ok key) then Err (TpSignature TpTrustedKey)
    else
      let? canonical := ok_or (to_json (sc_checkpoint signed)) TpJson in
      if ed25519_verify key (checkpoint_message canonical) signature then Ok tt
      else Err (TpSignature TpSignatureMismatch).

Definition signature_fields_ok (signed : SignedCheckpoint) : bool :=
  is_lower_hex_text (sc_key_id signed) 32 && is_lower_hex_text (sc_signature signed) 64.

Definition encode_checkpoint (signed : SignedCheckpoint) : result TransparencyError (list ascii) :=
  let? _ := LogCheckpoint_validate (sc_checkpoint signed) in
  if negb (signature_fields_ok signed) then Err (TpInvalid TpSignatureFields)
  else
    let? encoded := ok_or (to_json signed) TpJson in
    if (MAX_LOG_CHECKPOINT_BYTES <? length encoded)%nat then Err TpTooLarge else Ok encoded.

Definition decode_checkpoint (encoded : list ascii) : result TransparencyError SignedCheckpoint :=
  if (length encoded =? 0)%nat || (MAX_LOG_CHECKPOINT_BYTES <? length encoded)%nat then Err TpTooLarge
  else
    let? signed := ok_or (from_json encoded) TpJson in
    let? _ := LogCheckpoint_validate (sc_checkpoint signed) in
    if negb (signature_fields_ok signed) then Err (TpInvalid TpSignatureFields)
    else
      let? again := ok_or (to_json signed) TpJson in
      if negb (bool_decide (again = encoded)) then Err (TpInvalid TpNotCanonical) else Ok signed.

(** ** Logs *)

(** The loop of [verify_log] from index [i] on. *)
Fixpoint check_leaves (i : Z) (l : list TransparencyLeaf) : result TransparencyError unit :=
  match l with
  | [] => Ok tt
  | leaf :: l =>
      let? _ := TransparencyLeaf_validate leaf in
      if negb (tree_index leaf =? i)%Z then Err (TpInvalid TpNotContiguous) else check_leaves (i + 1) l
  end.

Definition verify_log (signed : SignedCheckpoint) (key : list ascii) (leaves : list TransparencyLeaf)
    : result TransparencyError unit :=
  let? _ := verify_checkpoint signed key in
  if negb (Z.of_nat (length leaves) =? tree_size (sc_checkpoint signed))%Z || (length leaves =? 0)%nat
  then Err (TpInvalid TpTreeSize)
  else
    let? _ := check_leaves 0 leaves in
    let? latest := ok_or (last leaves) (TpInvalid TpEmpty) in
    if negb (catalog_sequence latest =? latest_catalog_sequence (sc_checkpoint signed))%Z
    then Err (TpInvalid TpNotCommitted)
    else
      let? root := merkle_root leaves in
      if negb (bool_decide (lower_hex root = root_sha256 (sc_checkpoint signed))) then Err (TpInvalid TpNotCommitted)
      else Ok tt.

Definition verify_append_only_prefix (older newer : SignedCheckpoint) (key : list ascii)
    (leaves : list TransparencyLeaf) : result TransparencyError unit :=
  let old_size := tree_size (sc_checkpoint older) in
  if (tree_size (sc_checkpoint newer) <? old_size)%Z
     || negb (tree_size (sc_checkpoint newer) =? Z.of_nat (length leaves))%Z
  then Err (TpInvalid TpNotPrefix)
  else
    let? _ := verify_log older key (take (Z.to_nat old_size) leaves) in
    verify_log newer key leaves.

End transparency.

(** ** Lemmas on trees *)

Lemma power_of_two_spec n :
  (2 ≤ n)%nat → ∃ k, largest_power_of_two_less_than n = (2 ^ k)%nat ∧ (2 ^ k < n ≤ 2 ^ S k)%nat.
Proof.
  intros Hn. unfold largest_power_of_two_less_than. destruct (Nat.log2_spec n ltac:(lia)) as [Hlo Hhi].
  destruct (2 ^ Nat.log2 n =? n)%nat eqn:Heq; unbool_hyps.
  - destruct (Nat.log2 n) as [|k] eqn:Hk; [simpl in Heq; lia|]. exists k.
    rewrite Nat.pow_succ_r', Nat.mul_comm, Nat.div_mul by lia. split; [done|]. rewrite Nat.pow_succ_r' in *. lia.
  - exists (Nat.log2 n). split; [done|]. lia.
Qed.

Lemma split_bounds n :
  (2 ≤ n)%nat → (1 ≤ largest_power_of_two_less_than n < n)%nat.
Proof.
  intros Hn. destruct (power_of_two_spec n Hn) as (k&->&Hlo&_).
  pose proof (Nat.pow_nonzero 2 k ltac:(lia)). lia.
Qed.

Section trees.
  Context `{Crypto}.

Lemma tree_hash_step fuel l :
  (2 ≤ length l)%nat →
  tree_hash_fuel (S fuel) l =
  (let split := largest_power_of_two_less_than (length l) in
   match tree_hash_fuel fuel (take split l), tree_hash_fuel fuel (drop split l) with
   | Some h1, Some h2 => Some (sha256 (node_message h1 h2))
   | _, _ => None
   end).
Proof. intros Hl. by destruct l as [|a [|b l]]; [simpl in Hl; lia..|]. Qed.

Lemma tree_hash_fuel_Some fuel l :
  (1 ≤ length l ≤ fuel)%nat → tree_hash_fuel fuel l = tree_hash l ∧ is_Some (tree_hash l).
Proof.
  assert (∀ n fuel l, (1 ≤ length l ≤ n)%nat → (length l ≤ fuel)%nat →
            ∃ h, tree_hash_fuel fuel l = Some h ∧ tree_hash_fuel (length l) l = Some h) as Hind.
  { clear. intros n. induction n as [|n IH]; intros fuel l Hl Hf; [lia|].
    destruct fuel as [|fuel]; [lia|]. destruct (length l) as [|m] eqn:Hm; [lia|].
    destruct (decide (m = 0)) as [->|Hm0].
    { destruct l as [|a [|b l]]; [done| |done]. by exists a. }
    rewrite !tree_hash_step by lia. pose proof (split_bounds (length l) ltac:(lia)) as Hs. cbv zeta.
    set (k := largest_power_of_two_less_than (length l)) in *.
    destruct (IH fuel (take k l)) as (h1&E1&F1); [rewrite length_take; lia..|].
    destruct (IH fuel (drop k l)) as (h2&E2&F2); [rewrite length_drop; lia..|].
    destruct (IH m (take k l)) as (h1'&E1'&F1'); [rewrite length_take; lia..|].
    destruct (IH m (drop k l)) as (h2'&E2'&F2'); [rewrite length_drop; lia..|].
    rewrite E1, E2, E1', E2'. simplify_eq. eauto. }
  intros Hl. destruct (Hind (length l) fuel l) as (h&E1&E2); [lia..|]. unfold tree_hash. rewrite E1, E2. eauto.
Qed.

Lemma tree_hash_Some l : l ≠ [] → is_Some (tree_hash l).
Proof. intros Hl. apply (tree_hash_fuel_Some (length l)). destruct l; [done|simpl; lia]. Qed.

(** The equation of the source. *)
Lemma tree_hash_node l :
  (2 ≤ length l)%nat →
  let split := largest_power_of_two_less_than (length l) in
  ∃ hl hr, tree_hash (take split l) = Some hl ∧ tree_hash (drop split l) = Some hr ∧
    tree_hash l = Some (sha256 (node_message hl hr)).
Proof.
  intros Hl split. pose proof (split_bounds (length l) Hl) as Hs. fold split in Hs.
  destruct (tree_hash_fuel_Some (pred (length l)) (take split l)) as [E1 [hl H1]]; [rewrite length_take; lia|].
  destruct (tree_hash_fuel_Some (pred (length l)) (drop split l)) as [E2 [hr H2]]; [rewrite length_drop; lia|].
  exists hl, hr. split_and!; [done..|]. unfold tree_hash at 1.
  replace (length l) with (S (pred (length l))) at 1 by lia. rewrite tree_hash_step by done. cbv zeta. fold split.
  by rewrite E1, E2, H1, H2.
Qed.

(** The messages that the nodes of a tree are the hashes of. *)
Inductive tree_message : list (list ascii) → list ascii → Prop :=
  | tm_root l hl hr :
      (2 ≤ length l)%nat → tree_hash (take (largest_power_of_two_less_than (length l)) l) = Some hl →
      tree_hash (drop (largest_power_of_two_less_than (length l)) l) = Some hr → tree_message l (node_message hl hr)
  | tm_left l m :
      (2 ≤ length l)%nat → tree_message (take (largest_power_of_two_less_than (length l)) l) m → tree_message l m
  | tm_right l m :
      (2 ≤ length l)%nat → tree_message (drop (largest_power_of_two_less_than (length l)) l) m → tree_message l m.

(** All messages hashed for the root over the leaf messages [ms]. *)
Definition hashed (ms : list (list ascii)) (m : list ascii) : Prop := m ∈ ms ∨ tree_message (map sha256 ms) m.

(** No two different messages among those hashed for two trees collide. *)
Definition no_collision (ms ms' : list (list ascii)) : Prop :=
  ∀ x y, hashed ms x → hashed ms' y → sha256 x = sha256 y → x = y.

Lemma leaf_not_node e a b : leaf_message e ≠ node_message a b.
Proof. intros Heq. by apply app_inj_1 in Heq as [Heq _]. Qed.

Context (sha256_length : ∀ m, length (sha256 m) = 32%nat).

Lemma tree_hash_length ms h : tree_hash (map sha256 ms) = Some h → length h = 32%nat.
Proof.
  intros Hh. destruct (decide (2 ≤ length ms)%nat) as [H2|H2].
  - destruct (tree_hash_node (map sha256 ms)) as (hl&hr&_&_&Heq); [by rewrite length_map|].
    rewrite Heq in Hh. injection Hh as <-. apply sha256_length.
  - destruct ms as [|m [|m' ms]]; [done| |simpl in H2; lia]. injection Hh as <-. apply sha256_length.
Qed.

Lemma hashed_take ms m :
  (2 ≤ length ms)%nat → hashed (take (largest_power_of_two_less_than (length ms)) ms) m → hashed ms m.
Proof.
  intros Hl [Hin|Htm]; [left; by eapply subseteq_take|right]. apply tm_left; rewrite length_map; [done|].
  by rewrite <- fmap_take.
Qed.
Lemma hashed_drop ms m :
  (2 ≤ length ms)%nat → hashed (drop (largest_power_of_two_less_than (length ms)) ms) m → hashed ms m.
Proof.
  intros Hl [Hin|Htm]; [left; by eapply subseteq_drop|right]. apply tm_right; rewrite length_map; [done|].
  by rewrite <- fmap_drop.
Qed.

(** The root of a tree of two or more leaves, with its message. *)
Lemma tree_root ms :
  (2 ≤ length ms)%nat →
  let split := largest_power_of_two_less_than (length ms) in
  ∃ hl hr, tree_hash (map sha256 (take split ms)) = Some hl ∧ tree_hash (map sha256 (drop split ms)) = Some hr ∧
    tree_hash (map sha256 ms) = Some (sha256 (node_message hl hr)) ∧ hashed ms (node_message hl hr).
Proof.
  intros Hl split. destruct (tree_hash_node (map sha256 ms)) as (hl&hr&H1&H2&H3); [by rewrite length_map|].
  rewrite length_map in H1, H2. fold split in H1, H2. exists hl, hr.
  rewrite fmap_take, fmap_drop. split_and!; [done..|]. right. apply tm_root; rewrite length_map; done.
Qed.

(** Trees with the same root have the same leaves, or a collision. *)
Lemma tree_hash_inj ms ms' h :
  Forall (λ m, ∃ e, m = leaf_message e) ms → Forall (λ m, ∃ e, m = leaf_message e) ms' →
  tree_hash (map sha256 ms) = Some h → tree_hash (map sha256 ms') = Some h → no_collision ms ms' → ms = ms'.
Proof.
  assert (∀ n ms ms' h, (length ms ≤ n)%nat →
    Forall (λ m, ∃ e, m = leaf_message e) ms → Forall (λ m, ∃ e, m = leaf_message e) ms' →
    tree_hash (map sha256 ms) = Some h → tree_hash (map sha256 ms') = Some h → no_collision ms ms' → ms = ms') as Hind;
    [|by apply (Hind (length ms))].
  clear ms ms' h. intros n. induction n as [|n IH]; intros ms ms' h Hn Hms Hms' Hh Hh' Hcf.
  { by destruct ms; [|simpl in Hn; lia]. }
  destruct (decide (2 ≤ length ms)%nat) as [H2|H2], (decide (2 ≤ length ms')%nat) as [H2'|H2'].
  - destruct (tree_root ms H2) as (hl&hr&Hl&Hr&Hroot&Hin), (tree_root ms' H2') as (hl'&hr'&Hl'&Hr'&Hroot'&Hin').
    assert (node_message hl hr = node_message hl' hr') as Heq by (apply Hcf; [done..|congruence]).
    apply app_inj_1 in Heq as [_ Heq]; [|done].
    apply app_inj_1 in Heq as [-> ->]; [|by rewrite (tree_hash_length _ _ Hl), (tree_hash_length _ _ Hl')].
    pose proof (split_bounds _ H2) as Hb.
    set (k := largest_power_of_two_less_than (length ms)) in *. set (k' := largest_power_of_two_less_than (length ms')) in *.
    rewrite <- (take_drop k ms), <- (take_drop k' ms'). f_equal.
    + apply (IH _ _ hl'); [rewrite length_take; lia|by apply Forall_take..|done|done|].
      intros x y Hx%hashed_take Hy%hashed_take; [|done..]. by apply Hcf.
    + apply (IH _ _ hr'); [rewrite length_drop; lia|by apply Forall_drop..|done|done|].
      intros x y Hx%hashed_drop Hy%hashed_drop; [|done..]. by apply Hcf.
  - destruct (tree_root ms H2) as (hl&hr&_&_&Hroot&Hin). destruct ms' as [|m' [|m'' ms']]; [done| |simpl in H2'; lia].
    apply Forall_cons in Hms' as [[e ->] _]. injection Hh' as <-. rewrite Hroot in Hh. injection Hh as Hh.
    apply Hcf in Hh; [|done|left; by left]. by apply eq_sym, leaf_not_node in Hh.
  - destruct (tree_root ms' H2') as (hl&hr&_&_&Hroot&Hin). destruct ms as [|m [|m1 ms]]; [done| |simpl in H2; lia].
    apply Forall_cons in Hms as [[e ->] _]. injection Hh as <-. rewrite Hroot in Hh'. injection Hh' as Hh'.
    apply eq_sym, Hcf in Hh'; [|left; by left|done]. by apply leaf_not_node in Hh'.
  - destruct ms as [|m [|m1 ms]]; [done| |simpl in H2; lia].
    destruct ms' as [|m' [|m1' ms']]; [done| |simpl in H2'; lia].
    injection Hh as <-. injection Hh' as Hh'. f_equal. apply Hcf; [left; by left..|done].
Qed.

End trees.

(** ** Lemmas on logs *)

Lemma to_json_inj {A} `{Codec A} a b bs :
  codec_roundtrip _ → to_json a = Some bs → to_json b = Some bs → a = b.
Proof.
  intros Hc Ha Hb. destruct (Hc a) as (x&Hx&Hrx), (Hc b) as (y&Hy&Hry). simplify_eq. congruence.
Qed.

Lemma leaf_message_inj e e' : leaf_message e = leaf_message e' → e = e'.
Proof.
  intros Heq. apply app_inj_1 in Heq as [_ Heq]; [|done].
  apply app_inj_1 in Heq as [_ Heq]; [done|]. by rewrite !length_be_bytes.
Qed.

Section logs.
  Context `{Crypto} `{Codec TransparencyLeaf} `{Codec LogCheckpoint} `{Codec SignedCheckpoint}.

(** The message that a leaf is the hash of. *)
Definition message_of (leaf : TransparencyLeaf) : list ascii := leaf_message (default [] (to_json leaf)).
Definition log_messages (leaves : list TransparencyLeaf) : list (list ascii) := map message_of leaves.

Lemma leaf_hashes_Ok leaves hs :
  leaf_hashes leaves = Ok hs →
  hs = map sha256 (log_messages leaves) ∧
  Forall (λ l, TransparencyLeaf_validate l = Ok tt ∧ is_Some (to_json l)) leaves.
Proof.
  revert hs. induction leaves as [|l leaves IH]; intros hs; cbn [leaf_hashes].
  - by intros [= <-].
  - unfold leaf_hash, encode_leaf. destruct (TransparencyLeaf_validate l) as [[]| |] eqn:Hv; [|done..].
    destruct (to_json l) as [e|] eqn:Hj; [|done]. cbn [ok_or]. destruct (MAX_LEAF_BYTES <? length e)%nat; [done|].
    destruct (leaf_hashes leaves) as [hs'| |]; [|done..]. intros [= <-].
    destruct (IH hs' eq_refl) as [-> Hf]. split; [|by constructor; eauto].
    cbn [log_messages map]. f_equal. unfold message_of. by rewrite Hj.
Qed.

Lemma check_leaves_Ok i leaves :
  check_leaves i leaves = Ok tt →
  ∀ k leaf, leaves !! k = Some leaf → TransparencyLeaf_validate leaf = Ok tt ∧ tree_index leaf = (i + Z.of_nat k)%Z.
Proof.
  revert i. induction leaves as [|l leaves IH]; intros i Hc k leaf Hk; [done|]. cbn [check_leaves] in Hc.
  destruct (TransparencyLeaf_validate l) as [[]| |] eqn:Hv; [|done..].
  destruct (tree_index l =? i)%Z eqn:Hi; [|done]. cbn [negb] in Hc. unbool_hyps.
  destruct k as [|k]; simplify_eq/=; [split; [done|lia]|].
  destruct (IH _ Hc k leaf Hk) as [? ->]. split; [done|lia].
Qed.

(** What an accepted log is. *)
Record accepted (signed : SignedCheckpoint) (key : list ascii) (leaves : list TransparencyLeaf) (root : list ascii)
    : Prop := {
  ac_checkpoint : verify_checkpoint signed key = Ok tt;
  ac_size : Z.of_nat (length leaves) = tree_size (sc_checkpoint signed);
  ac_nonempty : leaves ≠ [];
  ac_leaves : ∀ k leaf, leaves !! k = Some leaf →
    TransparencyLeaf_validate leaf = Ok tt ∧ tree_index leaf = Z.of_nat k;
  ac_latest : catalog_sequence <$> last leaves = Some (latest_catalog_sequence (sc_checkpoint signed));
  ac_tree : tree_hash (map sha256 (log_messages leaves)) = Some root;
  ac_root : lower_hex root = root_sha256 (sc_checkpoint signed);
  ac_encodable : Forall (λ l, is_Some (to_json l)) leaves;
}.

Lemma verify_log_Ok signed key leaves :
  verify_log signed key leaves = Ok tt → ∃ root, accepted signed key leaves root.
Proof.
  unfold verify_log. destruct (verify_checkpoint signed key) as [[]| |] eqn:Hv; [|done..].
  destruct (_ =? tree_size _)%Z eqn:Hsize; [|done]. destruct (length leaves =? 0)%nat eqn:Hempty; [done|]. cbn [negb orb].
  destruct (check_leaves 0 leaves) as [[]| |] eqn:Hc; [|done..].
  destruct (last leaves) as [latest|] eqn:Hlast; [|done]. cbn [ok_or].
  destruct (_ =? latest_catalog_sequence _)%Z eqn:Hseq; [|done]. cbn [negb]. unfold merkle_root.
  destruct (MAX_TREE_LEAVES <? _)%Z; [done|]. destruct (leaf_hashes leaves) as [hs| |] eqn:Hh; [|done..].
  apply leaf_hashes_Ok in Hh as [-> Hf]. unfold merkle_root_from_hashes.
  destruct leaves as [|l leaves]; [done|]. set (all := l :: leaves) in *.
  change (map sha256 (log_messages all)) with (sha256 (message_of l) :: map sha256 (log_messages leaves)) at 1.
  cbv iota. change (sha256 (message_of l) :: map sha256 (log_messages leaves)) with (map sha256 (log_messages all)).
  destruct (tree_hash _) as [root|] eqn:Ht; [|done]. cbn [expect]. case_bool_decide as Hroot; [|done]. intros _.
  exists root. unbool_hyps. split; try done.
  - apply (check_leaves_Ok 0 all Hc).
  - rewrite Hlast. simpl. by rewrite Hseq.
  - eapply Forall_impl; [exact Hf|by intros ? [_ ?]].
Qed.

Lemma accepted_same_root signed signed' key key' leaves leaves' root root' :
  (∀ m, length (sha256 m) = 32%nat) → codec_roundtrip (A := TransparencyLeaf) _ →
  accepted signed key leaves root → accepted signed' key' leaves' root' →
  root_sha256 (sc_checkpoint signed) = root_sha256 (sc_checkpoint signed') →
  no_collision (log_messages leaves) (log_messages leaves') → leaves = leaves'.
Proof.
  intros Hlen Hc [_ _ _ _ _ Ht Hr He] [_ _ _ _ _ Ht' Hr' He'] Hroot Hcf.
  assert (root = root') as <- by (apply lower_hex_inj; congruence).
  assert (∀ l, Forall (λ m, ∃ e, m = leaf_message e) (log_messages l)) as Hleaf.
  { intros l. apply Forall_forall. intros m (x&->&_)%list_elem_of_fmap. by eexists. }
  pose proof (tree_hash_inj Hlen _ _ root (Hleaf _) (Hleaf _) Ht Ht' Hcf) as Heq.
  clear - Hc Heq He He'. revert leaves' Heq He' He. induction leaves as [|l leaves IH]; intros [|l' leaves'] Heq He' He; [done..|].
  cbn [log_messages map] in Heq. apply (inj2 cons) in Heq as [Hm Heq]. apply leaf_message_inj in Hm.
  apply Forall_cons in He as [[e He] Hes], He' as [[e' He'] Hes']. rewrite He, He' in Hm. simpl in Hm. subst e'.
  rewrite (to_json_inj l l' e) by done. f_equal. by apply IH.
Qed.

End logs.

(** *** Honest logs *)

Lemma hex_pair b :
  match hex_value (hex_digit (Z.shiftr (byte_of b) 4)), hex_value (hex_digit (Z.land (byte_of b) 15)) with
  | Some x, Some y => byte_of_Z (Z.lor (Z.shiftl x 4) y) = b
  | _, _ => False
  end.
Proof. by destruct b as [[] [] [] [] [] [] [] []]; vm_compute. Qed.

Lemma decode_hex_lower n l : length l = n → decode_hex n (lower_hex l) = Some l.
Proof.
  intros <-. unfold decode_hex, is_lower_hex_text. rewrite lower_hex_length, Nat.mul_comm, Nat.eqb_refl.
  unfold lower_hex_byte. rewrite lower_hex_bytes. cbn [andb]. induction l as [|b l IH]; [done|].
  cbn [lower_hex bytes String.list_ascii_of_string decode_pairs]. unfold bytes in IH. pose proof (hex_pair b) as Hb.
  destruct (hex_value _) as [x|]; [|done]. destruct (hex_value _) as [y|]; [|done]. rewrite IH. by rewrite Hb.
Qed.

Lemma lower_hex_text l n : length l = n → is_lower_hex_text (lower_hex l) n = true.
Proof.
  intros <-. unfold is_lower_hex_text, lower_hex_byte. by rewrite lower_hex_length, Nat.mul_comm, Nat.eqb_refl, lower_hex_bytes.
Qed.

Section honest.
  Context `{Crypto} `{Codec TransparencyLeaf} `{Codec LogCheckpoint}.

(** A log that the publisher may issue. *)
Record publishable (leaves : list TransparencyLeaf) : Prop := {
  pb_bound : (1 ≤ Z.of_nat (length leaves) ≤ MAX_TREE_LEAVES)%Z;
  pb_leaves : ∀ k leaf, leaves !! k = Some leaf → (∃ e, encode_leaf leaf = Ok e) ∧ tree_index leaf = Z.of_nat k;
}.

Lemma publishable_take leaves n : publishable leaves → (1 ≤ n ≤ length leaves)%nat → publishable (take n leaves).
Proof.
  intros [Hb Hl] Hn. split; [rewrite length_take; lia|]. intros k leaf Hk. apply Hl.
  apply lookup_take_Some in Hk. apply Hk.
Qed.

Lemma encode_leaf_valid leaf e : encode_leaf leaf = Ok e → TransparencyLeaf_validate leaf = Ok tt.
Proof. unfold encode_leaf. by destruct (TransparencyLeaf_validate leaf) as [[]| |]. Qed.

Lemma publishable_hashes leaves :
  (∀ k leaf, leaves !! k = Some leaf → ∃ e, encode_leaf leaf = Ok e) → ∃ hs, leaf_hashes leaves = Ok hs.
Proof.
  induction leaves as [|l leaves IH]; intros Hl; cbn [leaf_hashes]; [eauto|].
  destruct (Hl 0%nat l eq_refl) as [e He]. unfold leaf_hash. rewrite He.
  destruct IH as [hs ->]; [|eauto]. intros k leaf. apply (Hl (S k)).
Qed.

Lemma publishable_root leaves :
  publishable leaves → ∃ root, merkle_root leaves = Ok root ∧ tree_hash (map sha256 (log_messages leaves)) = Some root.
Proof.
  intros [Hb Hl]. unfold merkle_root. rewrite (proj2 (Z.ltb_ge _ _)) by lia.
  destruct (publishable_hashes leaves) as [hs Hh]; [intros k leaf Hk; by apply Hl in Hk as [? _]|].
  rewrite Hh. apply leaf_hashes_Ok in Hh as [-> _].
  destruct (tree_hash_Some (map sha256 (log_messages leaves))) as [root Hroot].
  { destruct leaves; [simpl in Hb; lia|done]. }
  exists root. split; [|done]. unfold merkle_root_from_hashes. destruct leaves; [simpl in Hb; lia|].
  cbn [log_messages map] in *. by rewrite Hroot.
Qed.

Lemma check_leaves_runs i leaves :
  (∀ k leaf, leaves !! k = Some leaf → (∃ e, encode_leaf leaf = Ok e) ∧ tree_index leaf = (i + Z.of_nat k)%Z) →
  check_leaves i leaves = Ok tt.
Proof.
  revert i. induction leaves as [|l leaves IH]; intros i Hl; [done|]. cbn [check_leaves].
  destruct (Hl 0%nat l eq_refl) as [[e He%encode_leaf_valid] Hi]. rewrite He, Hi, Z.add_0_r, Z.eqb_refl. cbn [negb].
  apply IH. intros k leaf Hk. destruct (Hl (S k) leaf Hk) as [? ->]. split; [done|lia].
Qed.

Lemma latest_valid leaf e : encode_leaf leaf = Ok e → catalog_sequence leaf ≠ 0%Z.
Proof.
  intros Hv%encode_leaf_valid. unfold TransparencyLeaf_validate in Hv. do 2 (case_match; [done|]).
  destruct (catalog_sequence leaf =? 0)%Z eqn:E; [done|]. by unbool_hyps.
Qed.

(** The checkpoint that the publisher signs for a log. *)
Definition checkpoint_of (leaves : list TransparencyLeaf) (issued : Z) : LogCheckpoint :=
  {| lc_schema_version := TRANSPARENCY_SCHEMA_VERSION; tree_size := Z.of_nat (length leaves);
     root_sha256 := lower_hex (default [] (tree_hash (map sha256 (log_messages leaves))));
     latest_catalog_sequence := default 0%Z (catalog_sequence <$> last leaves); issued_unix_seconds := issued |}.

Hypothesis sign_verifies : ∀ k m, ed25519_verify (public_key k) m (ed25519_sign k m) = true.
Hypothesis public_key_valid : ∀ k, verifying_key_ok (public_key k) = true.
Hypothesis sign_length : ∀ k m, length (ed25519_sign k m) = 64%nat.
Hypothesis digest_length : ∀ m, length (sha256 m) = 32%nat.
Hypothesis checkpoint_codec : codec_roundtrip (A := LogCheckpoint) _.

Lemma honest_log leaves key issued :
  publishable leaves → issued ≠ 0%Z →
  ∃ signed, sign_checkpoint (checkpoint_of leaves issued) key = Ok signed ∧
    sc_checkpoint signed = checkpoint_of leaves issued ∧ verify_log signed (public_key key) leaves = Ok tt.
Proof.
  intros Hp Hissued. pose proof Hp as [Hb Hl]. destruct (publishable_root leaves Hp) as (root&Hroot&Htree).
  pose proof (tree_hash_length digest_length _ _ Htree) as Hrl.
  destruct (last leaves) as [latest|] eqn:Hlast; [|by apply last_None in Hlast as ->].
  pose proof Hlast as Hlk. rewrite last_lookup in Hlk. destruct (Hl _ _ Hlk) as [[e He] _].
  pose proof (latest_valid _ _ He) as Hseq. set (c := checkpoint_of leaves issued).
  destruct (checkpoint_codec c) as (canonical&Hjson&_).
  assert (LogCheckpoint_validate c = Ok tt) as Hvalid.
  { unfold LogCheckpoint_validate, c, checkpoint_of. cbn. rewrite Hlast, Htree. cbn. rewrite lower_hex_text by done.
    rewrite !(proj2 (Z.eqb_neq _ _)), (proj2 (Z.ltb_ge _ _)) by lia. done. }
  unfold sign_checkpoint. rewrite Hvalid, Hjson. cbn [ok_or]. eexists. split_and!; [done..|].
  unfold verify_log, verify_checkpoint. cbn [sc_checkpoint sc_key_id sc_signature]. rewrite Hvalid.
  rewrite bool_decide_true by done. cbn [negb]. rewrite decode_hex_lower by done. cbn [ok_or]. rewrite public_key_valid.
  cbn [negb]. rewrite Hjson. cbn [ok_or]. rewrite sign_verifies.
  unfold c, checkpoint_of. cbn [tree_size latest_catalog_sequence root_sha256]. rewrite Z.eqb_refl.
  rewrite (proj2 (Nat.eqb_neq _ _)) by lia. cbn [negb orb].
  rewrite check_leaves_runs by (intros k leaf Hk; by apply Hl). rewrite Hlast. cbn [ok_or fmap option_fmap option_map default].
  rewrite Z.eqb_refl. cbn [negb]. rewrite Hroot, Htree. cbn [default]. by rewrite bool_decide_true.
Qed.

End honest.

(** ** Properties *)

(** C14: a root belongs to one log.  Two logs that are accepted under
    checkpoints with the same root are the same, whatever their sizes and keys,
    unless two different messages hashed for them collide. *)
Theorem root_identifies_log `{Crypto} `{Codec TransparencyLeaf} `{Codec LogCheckpoint}
    signed signed' key key' leaves leaves' :
  (∀ m, length (sha256 m) = 32%nat) → codec_roundtrip (A := TransparencyLeaf) _ →
  verify_log signed key leaves = Ok tt → verify_log signed' key' leaves' = Ok tt →
  root_sha256 (sc_checkpoint signed) = root_sha256 (sc_checkpoint signed') →
  no_collision (log_messages leaves) (log_messages leaves') → leaves = leaves'.
Proof.
  intros Hlen Hc [root Ha]%verify_log_Ok [root' Ha']%verify_log_Ok. by eapply accepted_same_root.
Qed.

(** C15: the log is append-only.  When a newer checkpoint was accepted as an
    extension of an older one, every log that was ever accepted for the root of
    the older one is a prefix of the newer log, entry by entry, unless hashed
    messages collide; the entries carry the indices of their positions. *)
Theorem accepted_extension_keeps_history `{Crypto} `{Codec TransparencyLeaf} `{Codec LogCheckpoint}
    older newer seen key key' leaves history :
  (∀ m, length (sha256 m) = 32%nat) → codec_roundtrip (A := TransparencyLeaf) _ →
  verify_append_only_prefix older newer key leaves = Ok tt →
  verify_log seen key' history = Ok tt →
  root_sha256 (sc_checkpoint seen) = root_sha256 (sc_checkpoint older) →
  no_collision (log_messages history) (log_messages (take (Z.to_nat (tree_size (sc_checkpoint older))) leaves)) →
  history `prefix_of` leaves ∧ Z.of_nat (length history) = tree_size (sc_checkpoint older) ∧
  Z.of_nat (length leaves) = tree_size (sc_checkpoint newer) ∧
  (∀ k leaf, leaves !! k = Some leaf → tree_index leaf = Z.of_nat k).
Proof.
  intros Hlen Hc Hext [root' Hseen]%verify_log_Ok Hroot Hcf. unfold verify_append_only_prefix in Hext.
  destruct (_ || _); [done|].
  destruct (verify_log older key _) as [[]| |] eqn:Hold; [|done..].
  apply verify_log_Ok in Hold as [root Hold], Hext as [root2 Hnew].
  pose proof (accepted_same_root _ _ _ _ _ _ _ _ Hlen Hc Hseen Hold Hroot Hcf) as ->. split_and!.
  - eexists. by rewrite take_drop.
  - apply (ac_size _ _ _ _ Hold).
  - apply (ac_size _ _ _ _ Hnew).
  - intros k leaf Hk. by apply (ac_leaves _ _ _ _ Hnew) in Hk as [_ ?].
Qed.

(** What an honest publisher does is accepted: every log it may issue gets
    a signed checkpoint that verifies with its public key, and the checkpoint
    of every earlier part of the log is accepted as older than it. *)
Theorem honest_log_accepted `{Crypto} `{Codec TransparencyLeaf} `{Codec LogCheckpoint} leaves n key t t' :
  (∀ k m, ed25519_verify (public_key k) m (ed25519_sign k m) = true) →
  (∀ k, verifying_key_ok (public_key k) = true) → (∀ k m, length (ed25519_sign k m) = 64%nat) →
  (∀ m, length (sha256 m) = 32%nat) → codec_roundtrip (A := LogCheckpoint) _ →
  publishable leaves → (1 ≤ n ≤ length leaves)%nat → t ≠ 0%Z → t' ≠ 0%Z →
  ∃ older newer, sign_checkpoint (checkpoint_of (take n leaves) t) key = Ok older ∧
    sign_checkpoint (checkpoint_of leaves t') key = Ok newer ∧
    verify_log newer (public_key key) leaves = Ok tt ∧
    verify_append_only_prefix older newer (public_key key) leaves = Ok tt.
Proof.
  intros Hs Hk Hsl Hd Hc Hp Hn Ht Ht'.
  destruct (honest_log Hs Hk Hsl Hd Hc (take n leaves) key t) as (older&Ho&Hoc&Hov); [by apply publishable_take|done|].
  destruct (honest_log Hs Hk Hsl Hd Hc leaves key t') as (newer&Hnew&Hnc&Hnv); [done..|].
  exists older, newer. split_and!; [done..|]. unfold verify_append_only_prefix. rewrite Hoc, Hnc.
  cbn [checkpoint_of tree_size]. rewrite !length_take, !Nat.min_l by lia.
  rewrite (proj2 (Z.ltb_ge _ _)), Z.eqb_refl by lia. cbn [negb orb]. rewrite Nat2Z.id.
  rewrite Hov. done.
Qed.

(** Leaves and checkpoints are only read in the one encoding that writing them
    gives. *)
Theorem transparency_decode_canonical `{Crypto} `{Codec TransparencyLeaf} `{Codec SignedCheckpoint} bs leaf signed :
  (decode_leaf bs = Ok leaf → encode_leaf leaf = Ok bs) ∧
  (decode_checkpoint bs = Ok signed → encode_checkpoint signed = Ok bs).
Proof.
  unfold decode_leaf, encode_leaf, decode_checkpoint, encode_checkpoint.
  split; destruct (length bs =? 0)%nat; try done; cbn [orb]; destruct (_ <? length bs)%nat eqn:Hlen; try done;
    destruct (from_json bs) as [x|]; try done; cbn [ok_or].
  - destruct (TransparencyLeaf_validate x) as [[]| |] eqn:Hv; try done. destruct (to_json x) as [again|] eqn:Hj; [|done].
    cbn [ok_or]. case_bool_decide as Heq; [|done]. intros [= <-]. rewrite Hv, Hj. cbn [ok_or]. by rewrite Heq, Hlen.
  - destruct (LogCheckpoint_validate _) as [[]| |] eqn:Hv; try done. destruct (signature_fields_ok x) eqn:Hs; [|done].
    cbn [negb]. destruct (to_json x) as [again|] eqn:Hj; [|done].
    cbn [ok_or]. case_bool_decide as Heq; [|done]. intros [= <-]. rewrite Hv, Hs, Hj. cbn [ok_or negb]. by rewrite Heq, Hlen.
Qed.

(** ** Concrete runs *)

(** A coding of records through lists of numbers, to run the model with. *)
Definition list_codec {A} (f : A → list positive) (g : list positive → option A) : Codec A :=
  {| to_json := λ a, Some (bits_of (positives_flatten (f a)));
     from_json := λ bs, positives_unflatten (of_bits bs) ≫= g |}.

Lemma list_codec_roundtrip {A} (f : A → list positive) g :
  (∀ a, g (f a) = Some a) → codec_roundtrip (list_codec f g).
Proof.
  intros Hg a. eexists. split; [done|]. simpl. rewrite of_bits_of, positives_unflatten_flatten. apply Hg.
Qed.

Definition leaf_codec : Codec TransparencyLeaf :=
  list_codec
    (λ l, [encode (tl_schema_version l); encode (tree_index l); encode (catalog_sequence l); encode (catalog_sha256 l);
           encode (catalog_bytes l); encode (tl_store_key_id l); encode (published_unix_seconds l);
           encode (source_event_id l); encode (source_release_id l); encode (job_kind l); encode (release_state l)])
    (λ l, match l with
          | [a; b; c; d; e; f; g; h; i; j; k] =>
              a ← decode a; b ← decode b; c ← decode c; d ← decode d; e ← decode e; f ← decode f; g ← decode g;
              h ← decode h; i ← decode i; j ← decode j; k ← decode k;
              Some (mkTransparencyLeaf a b c d e f g h i j k)
          | _ => None
          end).
Definition checkpoint_codec : Codec LogCheckpoint :=
  list_codec
    (λ c, [encode (lc_schema_version c); encode (tree_size c); encode (root_sha256 c); encode (latest_catalog_sequence c);
           encode (issued_unix_seconds c)])
    (λ l, match l with
          | [a; b; c; d; e] =>
              a ← decode a; b ← decode b; c ← decode c; d ← decode d; e ← decode e; Some (mkLogCheckpoint a b c d e)
          | _ => None
          end).

Lemma leaf_codec_roundtrip : codec_roundtrip leaf_codec.
Proof. apply list_codec_roundtrip. intros []. cbn -[encode decode]. by rewrite !decode_encode; cbn -[encode decode]. Qed.
Lemma checkpoint_codec_roundtrip : codec_roundtrip checkpoint_codec.
Proof. apply list_codec_roundtrip. intros []. cbn -[encode decode]. by rewrite !decode_encode; cbn -[encode decode]. Qed.

Definition sample_leaf (i : Z) : TransparencyLeaf :=
  {| tl_schema_version := 1; tree_index := i; catalog_sequence := i + 1;
     catalog_sha256 := lower_hex (replicate 32 "a"%char); catalog_bytes := 700;
     tl_store_key_id := lower_hex (replicate 32 "b"%char); published_unix_seconds := 1;
     source_event_id := "evt_" +:+ lower_hex (replicate 16 "c"%char);
     source_release_id := "rel_" +:+ lower_hex (replicate 16 "d"%char); job_kind := "publish-release";
     release_state := "publishing" |}.
Definition sample_log : list TransparencyLeaf := [sample_leaf 0; sample_leaf 1; sample_leaf 2].
Definition sample_signed (n : nat) : SignedCheckpoint :=
  match @sign_checkpoint toy_crypto checkpoint_codec
          (@checkpoint_of toy_crypto leaf_codec (take n sample_log) 9) store_key with
  | Ok signed => signed
  | _ => mkSignedCheckpoint (mkLogCheckpoint 0 0 EmptyString 0 0) EmptyString EmptyString
  end.

Lemma toy_digest_length m : length (@sha256 toy_crypto m) = 32%nat.
Proof. cbn [sha256 toy_crypto]. rewrite length_take, length_app, length_replicate. lia. Qed.
Lemma toy_sign_length k m : length (@ed25519_sign toy_crypto k m) = 64%nat.
Proof. cbn [ed25519_sign toy_crypto]. rewrite length_take, !length_app, length_replicate. lia. Qed.

(** A tree of one leaf hashes one message. *)
Lemma single_no_collision `{Crypto} m : no_collision [m] [m].
Proof.
  assert (∀ x, hashed [m] x → x = m) as Hone.
  { intros x [Hx|Hx]; [by apply list_elem_of_singleton in Hx|]. inversion Hx; simpl in *; lia. }
  intros x y ->%Hone ->%Hone. done.
Qed.

Lemma root_identifies_log_witness :
  let seen := [sample_leaf (3 - 3)] in
  @verify_log toy_crypto leaf_codec checkpoint_codec (sample_signed 1) store_key seen = Ok tt ∧ seen = take 1 sample_log.
Proof.
  split; [by vm_compute|].
  apply (@root_identifies_log toy_crypto leaf_codec checkpoint_codec (sample_signed 1) (sample_signed 1) store_key store_key);
    [apply toy_digest_length|apply leaf_codec_roundtrip|by vm_compute|by vm_compute|done|apply single_no_collision].
Defined.

Lemma accepted_extension_keeps_history_witness : take 1 sample_log `prefix_of` sample_log.
Proof.
  apply (@accepted_extension_keeps_history toy_crypto leaf_codec checkpoint_codec
    (sample_signed 1) (sample_signed 3) (sample_signed 1) store_key store_key sample_log (take 1 sample_log));
    [apply toy_digest_length|apply leaf_codec_roundtrip|by vm_compute|by vm_compute|done|].
  replace (take (Z.to_nat _) sample_log) with (take 1 sample_log) by (by vm_compute). apply single_no_collision.
Defined.

Lemma honest_log_accepted_witness :
  ∃ older newer, @verify_append_only_prefix toy_crypto leaf_codec checkpoint_codec older newer store_key sample_log = Ok tt.
Proof.
  destruct (@honest_log_accepted toy_crypto leaf_codec checkpoint_codec sample_log 2 store_key 5 9)
    as (older&newer&_&_&_&Hv).
  - intros k m. by apply bool_decide_true.
  - done.
  - apply toy_sign_length.
  - apply toy_digest_length.
  - apply checkpoint_codec_roundtrip.
  - split; [by vm_compute|]. intros [|[|[|k]]] leaf Hk; simplify_eq/=;
      (split; [eexists; vm_compute; reflexivity|done]).
  - simpl. lia.
  - done.
  - done.
  - by exists older, newer.
Defined.
