(* ===== verification/OsUpdate.v ===== *)
(** * System updates (crates/cp0-os-update/src/lib.rs)

    The metadata of a system release with its policy, and the A/B boot state:
    which slot is confirmed, which release is being tried and how many attempts
    it has left.  The state is kept in redundant records with a checksum.
    Parsing a version ([Semver]) belongs to a third-party crate.  SHA-256 is
    that of [Crypto] and the JSON coding that of [Codec].  Error messages are constructors of [UpdateError].

    The theorems: what the validators accept; the states of the machine stay
    valid, the confirmed release only moves forward, and only to a release that
    was staged, booted and reported healthy; a release that is never confirmed
    is tried as often as it has attempts left and then, for good, the confirmed
    slot boots; an interrupted write of the two records leaves the old state or
    the new one; an authorised release can be staged and is what boots next. *)

From S2P Require Import Prelude RustStr Bytes Manifest HostFs Checkpoint Package Transparency.

Definition BOARD_ID : string := "cardputerzero-cm0-v0.6".
Definition RELEASE_FORMAT : string := "cp0-os-release-v1".
Definition BOOT_STATE_FORMAT : string := "cp0-ab-state-v1".
Definition BOOT_STATE_RECORD_FORMAT : string := "cp0-ab-state-record-v1".
Definition MAX_BOOT_ATTEMPTS : Z := 3.
Definition STATE_CHECKSUM_DOMAIN : list ascii :=
  bytes "CardputerZero A/B boot state checksum v1" ++ [zero_byte].
Definition BLOCK_SIZE : Z := 4096.
Definition MAX_JSON_INTEGER : Z := 9007199254740991.
Definition MAX_VERITY_DATA_BLOCKS : Z := MAX_JSON_INTEGER / BLOCK_SIZE.

Inductive UpdateError :=
  | UpArtifactDigest | UpArtifactSize
  | UpVerityRoot | UpVeritySalt | UpVerityBlocks | UpVerityOverflow | UpVeritySize
  | UpFitConfiguration
  | UpMetadataTooLarge | UpMetadataJson | UpFormat | UpBoard | UpVersionLength | UpVersion
  | UpVersionBuild | UpSequence | UpLayoutRange
  | UpNotNewer | UpLayout | UpFitSlot
  | UpStateFormat | UpGeneration | UpConfirmedSequence | UpPendingConfirmed | UpPendingOld
  | UpPendingSequence | UpPendingAttempts | UpPendingAttempted | UpLastAttempted
  | UpActiveSlot | UpNotMonotonic | UpUnhealthy | UpNothingPending | UpBootMismatch | UpNotAttempted
  | UpEncode | UpRecordTooLarge | UpRecordJson | UpRecordFormat | UpChecksum
  | UpSplitGeneration | UpNoRecord | UpExhausted.

Inductive BootSlot := SlotA | SlotB.
Global Instance BootSlot_eq_dec : EqDecision BootSlot.
Proof. solve_decision. Defined.

Definition BootSlot_other (s : BootSlot) : BootSlot :=
  match s with SlotA => SlotB | SlotB => SlotA end.

(** ** Release metadata *)

Record Artifact := mkArtifact { art_sha256 : string; art_size : Z }.
Record VerityDescriptor := mkVerityDescriptor {
  root_hash : string;
  salt : string;
  data_blocks : Z;
  hash_tree : Artifact;
}.
Record FitDescriptor := mkFitDescriptor { fit_artifact : Artifact; configuration : string }.
Record ReleaseMetadata := mkReleaseMetadata {
  rm_format : string;
  board_id : string;
  rm_version : string;
  rm_sequence : Z;
  data_layout_min : Z;
  data_layout_max : Z;
  rootfs : Artifact;
  verity : VerityDescriptor;
  fit : FitDescriptor;
}.

Definition update_hex_byte (b : ascii) : bool := is_ascii_digit b || byte_in 97 102 b.
Definition is_lower_hex_any (value : string) : bool :=
  (String.length value mod 2 =? 0)%nat && bytes_all update_hex_byte value.
Definition update_is_lower_hex (value : string) (n : nat) : bool :=
  (String.length value =? n * 2)%nat && is_lower_hex_any value.

Definition Artifact_validate (a : Artifact) : result UpdateError unit :=
  if negb (update_is_lower_hex (art_sha256 a) 32) then Err UpArtifactDigest
  else if (art_size a =? 0)%Z || (MAX_JSON_INTEGER <? art_size a)%Z then Err UpArtifactSize
  else Ok tt.

Definition checked_mul_u64 (a b : Z) : option Z :=
  if (a * b <=? u64_max)%Z then Some (a * b)%Z else None.

Definition VerityDescriptor_validate (v : VerityDescriptor) (rootfs_size : Z) : result UpdateError unit :=
  if negb (update_is_lower_hex (root_hash v) 32) then Err UpVerityRoot
  else if (String.length (salt v) <? 32)%nat || (128 <? String.length (salt v))%nat
          || negb (is_lower_hex_any (salt v)) then Err UpVeritySalt
  else if (data_blocks v =? 0)%Z || (MAX_VERITY_DATA_BLOCKS <? data_blocks v)%Z then Err UpVerityBlocks
  else
    let? data_bytes := ok_or (checked_mul_u64 (data_blocks v) BLOCK_SIZE) UpVerityOverflow in
    if negb (data_bytes =? rootfs_size)%Z then Err UpVeritySize
    else Artifact_validate (hash_tree v).

Definition FitDescriptor_validate (f : FitDescriptor) : result UpdateError unit :=
  let? _ := Artifact_validate (fit_artifact f) in
  if negb (bool_decide (configuration f = "conf-a")) && negb (bool_decide (configuration f = "conf-b"))
  then Err UpFitConfiguration
  else Ok tt.

Section release.
  Context `{Semver}.

Definition ReleaseMetadata_validate (r : ReleaseMetadata) : result UpdateError unit :=
  if negb (bool_decide (rm_format r = RELEASE_FORMAT)) then Err UpFormat
  else if negb (bool_decide (board_id r = BOARD_ID)) then Err UpBoard
  else if (String.length (rm_version r) <? 5)%nat || (64 <? String.length (rm_version r))%nat
  then Err UpVersionLength
  else
    let? parsed_version := ok_or (version_parse (rm_version r)) UpVersion in
    if negb (str_is_empty (version_build parsed_version)) then Err UpVersionBuild
    else if (rm_sequence r =? 0)%Z || (MAX_JSON_INTEGER <? rm_sequence r)%Z then Err UpSequence
    else if (data_layout_min r =? 0)%Z || (data_layout_max r <? data_layout_min r)%Z then Err UpLayoutRange
    else
      let? _ := Artifact_validate (rootfs r) in
      let? _ := VerityDescriptor_validate (verity r) (art_size (rootfs r)) in
      FitDescriptor_validate (fit r).

Definition ReleaseMetadata_decode `{Codec ReleaseMetadata} (encoded : list ascii)
    : result UpdateError ReleaseMetadata :=
  if (16 * 1024 <? Z.of_nat (length encoded))%Z then Err UpMetadataTooLarge
  else
    let? metadata := ok_or (from_json encoded) UpMetadataJson in
    let? _ := ReleaseMetadata_validate metadata in
    Ok metadata.

Definition slot_configuration (s : BootSlot) : string :=
  match s with SlotA => "conf-a" | SlotB => "conf-b" end.

Definition authorize_install (r : ReleaseMetadata) (installed_sequence data_layout : Z) (target_slot : BootSlot)
    : result UpdateError unit :=
  let? _ := ReleaseMetadata_validate r in
  if (rm_sequence r <=? installed_sequence)%Z then Err UpNotNewer
  else if (data_layout <? data_layout_min r)%Z || (data_layout_max r <? data_layout)%Z then Err UpLayout
  else if negb (bool_decide (configuration (fit r) = slot_configuration target_slot)) then Err UpFitSlot
  else Ok tt.

End release.

(** ** The boot state *)

Record PendingBoot := mkPendingBoot { pb_slot : BootSlot; pb_sequence : Z; attempts_remaining : Z }.
Record BootState := mkBootState {
  bs_format : string;
  generation : Z;
  confirmed_slot : BootSlot;
  confirmed_sequence : Z;
  pending : option PendingBoot;
  last_attempted : option BootSlot;
}.
Record BootDecision := mkBootDecision { bd_slot : BootSlot; bd_sequence : Z; bd_pending : bool }.
Record HealthReport := mkHealthReport {
  booted_slot : BootSlot;
  booted_sequence : Z;
  compositor : bool;
  appd : bool;
  data_mount : bool;
}.

Global Instance PendingBoot_eq_dec : EqDecision PendingBoot.
Proof. solve_decision. Defined.
Global Instance BootState_eq_dec : EqDecision BootState.
Proof. solve_decision. Defined.

Definition is_healthy (h : HealthReport) : bool := compositor h && appd h && data_mount h.

Definition BootState_factory (slot : BootSlot) (sequence : Z) : BootState :=
  mkBootState BOOT_STATE_FORMAT 0 slot sequence None None.

Definition BootState_validate (s : BootState) : result UpdateError unit :=
  if negb (bool_decide (bs_format s = BOOT_STATE_FORMAT)) then Err UpStateFormat
  else if (MAX_JSON_INTEGER <? generation s)%Z then Err UpGeneration
  else if (confirmed_sequence s =? 0)%Z || (MAX_JSON_INTEGER <? confirmed_sequence s)%Z
  then Err UpConfirmedSequence
  else match pending s with
  | Some p =>
      if bool_decide (pb_slot p = confirmed_slot s) then Err UpPendingConfirmed
      else if (pb_sequence p <=? confirmed_sequence s)%Z then Err UpPendingOld
      else if (MAX_JSON_INTEGER <? pb_sequence p)%Z then Err UpPendingSequence
      else if (MAX_BOOT_ATTEMPTS <? attempts_remaining p)%Z then Err UpPendingAttempts
      else
        let expected_attempt :=
          if (attempts_remaining p =? MAX_BOOT_ATTEMPTS)%Z then None else Some (pb_slot p) in
        if negb (bool_decide (last_attempted s = expected_attempt)) then Err UpPendingAttempted else Ok tt
  | None =>
      match last_attempted s with
      | Some slot => if negb (bool_decide (slot = confirmed_slot s)) then Err UpLastAttempted else Ok tt
      | None => Ok tt
      end
  end.

Definition with_generation (g : Z) (s : BootState) : BootState :=
  mkBootState (bs_format s) g (confirmed_slot s) (confirmed_sequence s) (pending s) (last_attempted s).
Definition with_attempt (p : option PendingBoot) (a : option BootSlot) (s : BootState) : BootState :=
  mkBootState (bs_format s) (generation s) (confirmed_slot s) (confirmed_sequence s) p a.

Definition next_generation (s : BootState) : result UpdateError BootState :=
  if (MAX_JSON_INTEGER <=? generation s)%Z then Err UpExhausted
  else
    let? g := ok_or (checked_add_u64 (generation s) 1) UpExhausted in
    Ok (with_generation g s).

Definition BootState_stage (s : BootState) (slot : BootSlot) (sequence : Z) : result UpdateError BootState :=
  let? _ := BootState_validate s in
  if bool_decide (slot = confirmed_slot s) then Err UpActiveSlot
  else if (sequence <=? confirmed_sequence s)%Z
          || match pending s with Some p => (sequence <=? pb_sequence p)%Z | None => false end
  then Err UpNotMonotonic
  else
    let? next := next_generation s in
    Ok (with_attempt (Some (mkPendingBoot slot sequence MAX_BOOT_ATTEMPTS)) None next).

Definition prepare_boot (s : BootState) : result UpdateError (BootState * BootDecision) :=
  let? _ := BootState_validate s in
  let? next := next_generation s in
  let fallback :=
    (with_attempt None (Some (confirmed_slot next)) next,
     mkBootDecision (confirmed_slot next) (confirmed_sequence next) false) in
  Ok match pending next with
     | Some p =>
         if (0 <? attempts_remaining p)%Z then
           (with_attempt (Some (mkPendingBoot (pb_slot p) (pb_sequence p) (attempts_remaining p - 1)))
              (Some (pb_slot p)) next,
            mkBootDecision (pb_slot p) (pb_sequence p) true)
         else fallback
     | None => fallback
     end.

Definition BootState_confirm (s : BootState) (health : HealthReport) : result UpdateError BootState :=
  let? _ := BootState_validate s in
  if negb (is_healthy health) then Err UpUnhealthy
  else
    let? p := ok_or (pending s) UpNothingPending in
    if negb (bool_decide (booted_slot health = pb_slot p)) || negb (booted_sequence health =? pb_sequence p)%Z
    then Err UpBootMismatch
    else if negb (bool_decide (last_attempted s = Some (pb_slot p))) then Err UpNotAttempted
    else
      let? next := next_generation s in
      Ok (mkBootState (bs_format next) (generation next) (pb_slot p) (pb_sequence p) None (Some (pb_slot p))).

(** ** Records *)

Record BootStateRecord := mkBootStateRecord { br_format : string; checksum : string; br_state : BootState }.

Section records.
  Context `{Crypto} `{Codec BootState} `{Codec BootStateRecord}.

Definition state_checksum (state : list ascii) : string := lower_hex (sha256 (STATE_CHECKSUM_DOMAIN ++ state)).

Definition encode_record (s : BootState) : result UpdateError (list ascii) :=
  let? _ := BootState_validate s in
  let? state := ok_or (to_json s) UpEncode in
  ok_or (encode_line (mkBootStateRecord BOOT_STATE_RECORD_FORMAT (state_checksum state) s)) UpEncode.

Definition decode_record (encoded : list ascii) : result UpdateError BootState :=
  if (4096 <? Z.of_nat (length encoded))%Z then Err UpRecordTooLarge
  else
    let? record := ok_or (from_json encoded) UpRecordJson in
    if negb (bool_decide (br_format record = BOOT_STATE_RECORD_FORMAT)) then Err UpRecordFormat
    else
      let? _ := BootState_validate (br_state record) in
      let? state := ok_or (to_json (br_state record)) UpEncode in
      if negb (bool_decide (checksum record = state_checksum state)) then Err UpChecksum
      else Ok (br_state record).

(** The loop of [newest_valid_record] with the record [selected] so far. *)
Fixpoint newest_loop (selected : option BootState) (records : list (list ascii))
    : result UpdateError BootState :=
  match records with
  | [] => ok_or selected UpNoRecord
  | encoded :: records =>
      match decode_record encoded with
      | Ok candidate =>
          match selected with
          | Some current =>
              if (generation candidate <? generation current)%Z then newest_loop selected records
              else if (generation current =? generation candidate)%Z then
                if negb (bool_decide (current = candidate)) then Err UpSplitGeneration
                else newest_loop selected records
              else newest_loop (Some candidate) records
          | None => newest_loop (Some candidate) records
          end
      | Err _ => newest_loop selected records
      | Panicked => Panicked
      end
  end.

Definition newest_valid_record (records : list (list ascii)) : result UpdateError BootState :=
  newest_loop None records.

End records.

(** ** Valid states *)

(** The ranges of the field types. *)
Definition boot_typed (s : BootState) : Prop :=
  (0 ≤ generation s ≤ u64_max)%Z ∧ (0 ≤ confirmed_sequence s ≤ u64_max)%Z ∧
  match pending s with
  | Some p => (0 ≤ pb_sequence p ≤ u64_max)%Z ∧ (0 ≤ attempts_remaining p ≤ u8_max)%Z
  | None => True
  end.

Definition boot_wf (s : BootState) : Prop :=
  bs_format s = BOOT_STATE_FORMAT ∧ (0 ≤ generation s ≤ MAX_JSON_INTEGER)%Z ∧
  (1 ≤ confirmed_sequence s ≤ MAX_JSON_INTEGER)%Z ∧
  match pending s with
  | Some p =>
      pb_slot p = BootSlot_other (confirmed_slot s) ∧
      (confirmed_sequence s < pb_sequence p ≤ MAX_JSON_INTEGER)%Z ∧
      (0 ≤ attempts_remaining p ≤ MAX_BOOT_ATTEMPTS)%Z ∧
      last_attempted s = (if (attempts_remaining p =? MAX_BOOT_ATTEMPTS)%Z then None else Some (pb_slot p))
  | None => last_attempted s = None ∨ last_attempted s = Some (confirmed_slot s)
  end.

Lemma BootSlot_other_ne a b : a ≠ b ↔ a = BootSlot_other b.
Proof. destruct a, b; simpl; split; congruence. Qed.

(** Comparisons that the context refutes. *)
Ltac in_bounds :=
  repeat first [rewrite (proj2 (Z.ltb_ge _ _)) by lia | rewrite (proj2 (Z.leb_gt _ _)) by lia
               |rewrite (proj2 (Z.eqb_neq _ 0)) by lia]; cbn [orb].

(** The validator, on the values its types allow, decides [boot_wf]. *)
Lemma BootState_validate_iff s : boot_typed s → BootState_validate s = Ok tt ↔ boot_wf s.
Proof.
  intros (Hg&Hc&Hp). unfold BootState_validate, boot_wf. cbv zeta.
  destruct (pending s) as [p|].
  - rewrite <-BootSlot_other_ne. split.
    + intros Hv. repeat case_match; simplify_eq; unbool_hyps; repeat split; auto; lia.
    + intros (->&?&?&Hslot&?&?&->). rewrite (bool_decide_false (pb_slot p = _)) by done.
      rewrite !bool_decide_true by done. cbn [negb]. by in_bounds.
  - split.
    + intros Hv. repeat case_match; simplify_eq; unbool_hyps; subst; repeat split; auto; lia.
    + intros (->&?&?&Hl). rewrite bool_decide_true by done. cbn [negb].
      in_bounds. destruct Hl as [->| ->]; [done|]. by rewrite bool_decide_true.
Qed.

Lemma boot_wf_typed s : boot_wf s → boot_typed s.
Proof.
  unfold boot_wf, boot_typed, u64_max, u8_max, MAX_JSON_INTEGER, MAX_BOOT_ATTEMPTS.
  intros (_&?&?&Hp). repeat split; try lia. destruct (pending s); [|done]. lia.
Qed.

Lemma boot_wf_validate s : boot_wf s → BootState_validate s = Ok tt.
Proof. intros Hs. apply BootState_validate_iff; [by apply boot_wf_typed|done]. Qed.
#[local] Hint Resolve boot_wf_typed boot_wf_validate : rust.

Lemma next_generation_Ok s :
  (generation s < MAX_JSON_INTEGER)%Z → next_generation s = Ok (with_generation (generation s + 1) s).
Proof.
  intros Hg. unfold next_generation, checked_add_u64, u64_max, MAX_JSON_INTEGER in *.
  rewrite (proj2 (Z.leb_gt _ _)) by lia. by rewrite (proj2 (Z.leb_le _ _)) by lia.
Qed.

Lemma next_generation_inv s s' :
  next_generation s = Ok s' →
  (generation s < MAX_JSON_INTEGER)%Z ∧ s' = with_generation (generation s + 1) s.
Proof.
  intros Hn. destruct (decide (generation s < MAX_JSON_INTEGER)%Z) as [Hg|Hg].
  - rewrite next_generation_Ok in Hn by done. by simplify_eq.
  - unfold next_generation in Hn. by rewrite (proj2 (Z.leb_le _ _)) in Hn by lia.
Qed.

(** ** The operations on valid states *)

Definition pending_decision (p : PendingBoot) : BootDecision := mkBootDecision (pb_slot p) (pb_sequence p) true.
Definition confirmed_decision (s : BootState) : BootDecision :=
  mkBootDecision (confirmed_slot s) (confirmed_sequence s) false.
Definition attempts_left (s : BootState) : nat :=
  match pending s with Some p => Z.to_nat (attempts_remaining p) | None => 0 end.

Lemma stage_inv s slot sequence s' :
  boot_wf s → BootState_stage s slot sequence = Ok s' →
  slot = BootSlot_other (confirmed_slot s) ∧ (confirmed_sequence s < sequence)%Z ∧
  (generation s < MAX_JSON_INTEGER)%Z ∧
  s' = mkBootState (bs_format s) (generation s + 1) (confirmed_slot s) (confirmed_sequence s)
         (Some (mkPendingBoot slot sequence MAX_BOOT_ATTEMPTS)) None.
Proof.
  intros Hs Hst. unfold BootState_stage in Hst. rewrite boot_wf_validate in Hst by done.
  case_bool_decide; [done|]. destruct (_ || _) eqn:Ho; [done|]. unbool_hyps.
  destruct (next_generation s) eqn:Hn; simplify_eq. apply next_generation_inv in Hn as [? ->].
  rewrite <-BootSlot_other_ne. done.
Qed.

Lemma stage_Ok s sequence :
  boot_wf s → pending s = None → (confirmed_sequence s < sequence)%Z → (generation s < MAX_JSON_INTEGER)%Z →
  BootState_stage s (BootSlot_other (confirmed_slot s)) sequence =
  Ok (mkBootState (bs_format s) (generation s + 1) (confirmed_slot s) (confirmed_sequence s)
        (Some (mkPendingBoot (BootSlot_other (confirmed_slot s)) sequence MAX_BOOT_ATTEMPTS)) None).
Proof.
  intros Hs Hp Hc Hg. unfold BootState_stage. rewrite boot_wf_validate, Hp by done.
  rewrite bool_decide_false by (by apply BootSlot_other_ne). rewrite (proj2 (Z.leb_gt _ _)) by lia.
  cbn [orb]. by rewrite next_generation_Ok.
Qed.

Lemma stage_wf s slot sequence s' :
  boot_wf s → (sequence ≤ MAX_JSON_INTEGER)%Z → BootState_stage s slot sequence = Ok s' → boot_wf s'.
Proof.
  intros Hs Hq Hst. apply stage_inv in Hst as (->&?&?&->); [|done]. destruct Hs as (?&?&?&_).
  repeat split; simpl; auto; unfold MAX_BOOT_ATTEMPTS; lia.
Qed.

(** The state that [prepare_boot] must persist. *)
Definition after_boot (s : BootState) : BootState :=
  match pending s with
  | Some p =>
      if (0 <? attempts_remaining p)%Z then
        mkBootState (bs_format s) (generation s + 1) (confirmed_slot s) (confirmed_sequence s)
          (Some (mkPendingBoot (pb_slot p) (pb_sequence p) (attempts_remaining p - 1))) (Some (pb_slot p))
      else mkBootState (bs_format s) (generation s + 1) (confirmed_slot s) (confirmed_sequence s) None
             (Some (confirmed_slot s))
  | None => mkBootState (bs_format s) (generation s + 1) (confirmed_slot s) (confirmed_sequence s) None
              (Some (confirmed_slot s))
  end.
Definition boot_choice (s : BootState) : BootDecision :=
  match pending s with
  | Some p => if (0 <? attempts_remaining p)%Z then pending_decision p else confirmed_decision s
  | None => confirmed_decision s
  end.

Lemma prepare_boot_Ok s :
  boot_wf s → (generation s < MAX_JSON_INTEGER)%Z → prepare_boot s = Ok (after_boot s, boot_choice s).
Proof.
  intros Hs Hg. unfold prepare_boot. rewrite boot_wf_validate, next_generation_Ok by done.
  unfold after_boot, boot_choice. cbn [with_generation pending]. destruct (pending s) as [p|]; [|done].
  by destruct (0 <? attempts_remaining p)%Z.
Qed.

Lemma prepare_boot_inv s s' d :
  boot_wf s → prepare_boot s = Ok (s', d) →
  (generation s < MAX_JSON_INTEGER)%Z ∧ s' = after_boot s ∧ d = boot_choice s.
Proof.
  intros Hs Hb. destruct (decide (generation s < MAX_JSON_INTEGER)%Z) as [Hg|Hg].
  - rewrite prepare_boot_Ok in Hb by done. by simplify_eq.
  - unfold prepare_boot in Hb. rewrite boot_wf_validate in Hb by done.
    destruct (next_generation s) eqn:Hn; simplify_eq. by apply next_generation_inv in Hn as [? _].
Qed.

Lemma after_boot_wf s : boot_wf s → (generation s < MAX_JSON_INTEGER)%Z → boot_wf (after_boot s).
Proof.
  intros (Hf&Hg&Hc&Hp) Hl. unfold after_boot. destruct (pending s) as [p|] eqn:E.
  - destruct Hp as (?&?&?&_). destruct (0 <? attempts_remaining p)%Z eqn:Ha; unbool_hyps.
    + repeat split; simpl; auto; try lia.
      by rewrite (proj2 (Z.eqb_neq _ _)) by (unfold MAX_BOOT_ATTEMPTS in *; lia).
    + repeat split; simpl; auto; lia.
  - repeat split; simpl; auto; lia.
Qed.

Lemma confirm_inv s health s' :
  boot_wf s → BootState_confirm s health = Ok s' →
  ∃ p, pending s = Some p ∧ is_healthy health = true ∧ booted_slot health = pb_slot p ∧
    booted_sequence health = pb_sequence p ∧ (attempts_remaining p < MAX_BOOT_ATTEMPTS)%Z ∧
    (generation s < MAX_JSON_INTEGER)%Z ∧
    s' = mkBootState (bs_format s) (generation s + 1) (pb_slot p) (pb_sequence p) None (Some (pb_slot p)).
Proof.
  intros Hs Hc. unfold BootState_confirm in Hc. rewrite boot_wf_validate in Hc by done.
  destruct (is_healthy health) eqn:Hh; [|done]. destruct (pending s) as [p|] eqn:Hp; [|done].
  cbn [negb ok_or] in Hc. destruct (_ || _) eqn:Hm; [done|]. case_bool_decide as Hl; [|done]. cbn [negb] in Hc.
  destruct (next_generation s) eqn:Hn; simplify_eq. apply next_generation_inv in Hn as [? ->]. unbool_hyps.
  exists p. destruct Hs as (_&_&_&Hs). rewrite Hp in Hs. destruct Hs as (_&_&?&Hla).
  repeat split; auto. rewrite Hla in Hl. destruct (attempts_remaining p =? _)%Z eqn:Ha; [done|]. unbool_hyps. lia.
Qed.

Lemma confirm_wf s health s' : boot_wf s → BootState_confirm s health = Ok s' → boot_wf s'.
Proof.
  intros Hs Hc. apply confirm_inv in Hc as (p&Hp&_&_&_&_&?&->); [|done].
  destruct Hs as (?&?&?&Hs). rewrite Hp in Hs. destruct Hs as (_&?&_).
  repeat split; simpl; auto; lia.
Qed.

(** ** Boots without a confirmation *)

(** The device starts [n] times and nothing else happens. *)
Fixpoint boots (n : nat) (s : BootState) : result UpdateError (BootState * list BootDecision) :=
  match n with
  | O => Ok (s, [])
  | S n =>
      let? 'sd := prepare_boot s in
      let? 'sds := boots n sd.1 in
      Ok (sds.1, sd.2 :: sds.2)
  end.

Lemma after_boot_attempts s :
  boot_wf s → attempts_left (after_boot s) = Nat.pred (attempts_left s) ∧
  generation (after_boot s) = (generation s + 1)%Z ∧
  confirmed_decision (after_boot s) = confirmed_decision s.
Proof.
  intros (_&_&_&Hp). unfold attempts_left, after_boot. destruct (pending s) as [p|]; [|done].
  destruct (0 <? attempts_remaining p)%Z eqn:Ha; unbool_hyps; simpl; repeat split; lia.
Qed.

Lemma after_boot_pending s p :
  boot_wf s → pending s = Some p →
  if (0 <? attempts_remaining p)%Z
  then pending_decision <$> pending (after_boot s) = Some (pending_decision p)
  else pending (after_boot s) = None.
Proof. intros _ Hp. unfold after_boot. rewrite Hp. by destruct (0 <? attempts_remaining p)%Z. Qed.

(** The releases that the next [n] boots choose: the pending one as long as it
    has attempts, the confirmed one from then on. *)
Definition boot_choices (s : BootState) (n : nat) : list BootDecision :=
  match pending s with
  | Some p => take n (replicate (attempts_left s) (pending_decision p) ++ replicate n (confirmed_decision s))
  | None => replicate n (confirmed_decision s)
  end.

Lemma boot_choices_S s n :
  boot_wf s → boot_choices s (S n) = boot_choice s :: boot_choices (after_boot s) n.
Proof.
  intros Hs. destruct (after_boot_attempts s Hs) as (Ha&_&Hc). destruct (pending s) as [p|] eqn:Hp.
  - pose proof (after_boot_pending s p Hs Hp) as Hp'. unfold boot_choices, boot_choice. rewrite Hp.
    unfold attempts_left in Ha at 2. unfold attempts_left at 1. rewrite Hp in *.
    destruct (0 <? attempts_remaining p)%Z eqn:E; unbool_hyps.
    + destruct (pending (after_boot s)) as [p'|]; [|done]. apply (inj Some) in Hp'. rewrite Ha, Hc, Hp'.
      destruct (Z.to_nat (attempts_remaining p)) as [|k] eqn:Hk; [lia|]. simpl. f_equal.
      change (confirmed_decision s :: replicate n (confirmed_decision s))
        with (replicate (S n) (confirmed_decision s)).
      rewrite replicate_S_end, (assoc_L (++)). apply take_app_le. rewrite length_app, !length_replicate. lia.
    + replace (Z.to_nat (attempts_remaining p)) with 0%nat by lia. rewrite Hp', Hc. simpl.
      f_equal. by rewrite take_ge by (by rewrite length_replicate).
  - unfold boot_choices, boot_choice. rewrite Hp. unfold after_boot in *. rewrite Hp in *. simpl. by rewrite Hc.
Qed.

Lemma after_boot_exhausted s : boot_wf s → attempts_left s = 0%nat → pending (after_boot s) = None.
Proof.
  intros Hs Ha. destruct (pending s) as [p|] eqn:Hp; [|by unfold after_boot; rewrite Hp].
  pose proof (after_boot_pending s p Hs Hp) as Hp'. unfold attempts_left in Ha. rewrite Hp in Ha.
  by rewrite (proj2 (Z.ltb_ge _ _)) in Hp' by lia.
Qed.

Lemma boots_Ok n s :
  boot_wf s → (generation s + Z.of_nat n ≤ MAX_JSON_INTEGER)%Z →
  ∃ s', boots n s = Ok (s', boot_choices s n) ∧ boot_wf s' ∧ confirmed_decision s' = confirmed_decision s ∧
    ((attempts_left s < n)%nat → pending s' = None).
Proof.
  revert s. induction n as [|n IH]; intros s Hs Hg; cbn [boots].
  - exists s. split_and!; [|done..|lia]. unfold boot_choices. by destruct (pending s).
  - rewrite prepare_boot_Ok by (done || lia). cbn [fst snd]. destruct (after_boot_attempts s Hs) as (Ha&Hg'&Hc).
    destruct (IH (after_boot s)) as (s'&Hb&?&Hc'&Hn); [by apply after_boot_wf; [|lia]|lia|].
    exists s'. rewrite Hb, boot_choices_S by done. cbn [fst snd]. rewrite Hc', Hc. split_and!; auto.
    intros Hl. destruct n as [|n]; [|apply Hn; lia]. injection Hb as <-. apply after_boot_exhausted; [done|lia].
Qed.

Lemma boot_choices_last s n :
  (attempts_left s < n)%nat → last (boot_choices s n) = Some (confirmed_decision s).
Proof.
  intros Hn. destruct n as [|n]; [lia|]. unfold boot_choices. destruct (pending s) as [p|].
  - rewrite take_app, length_replicate, take_ge by (rewrite length_replicate; lia). rewrite take_replicate.
    replace (_ `min` _)%nat with (S (n - attempts_left s)) by lia.
    by rewrite replicate_S_end, (assoc_L (++)), last_snoc.
  - by rewrite replicate_S_end, last_snoc.
Qed.

(** ** Histories of a device *)

Section history.
  Context `{Semver}.

(** What happened to a device, newest first: a release was authorised and
    staged, the device started, a start was reported healthy. *)
Inductive BootEvent :=
  | Staged (r : ReleaseMetadata) (slot : BootSlot)
  | Booted (d : BootDecision)
  | Confirmed (health : HealthReport).

Inductive boot_history (s0 : BootState) : list BootEvent → BootState → Prop :=
  | history_factory : boot_history s0 [] s0
  | history_stage h s r slot data_layout s' :
      boot_history s0 h s →
      authorize_install r (confirmed_sequence s) data_layout slot = Ok tt →
      BootState_stage s slot (rm_sequence r) = Ok s' →
      boot_history s0 (Staged r slot :: h) s'
  | history_boot h s s' d :
      boot_history s0 h s → prepare_boot s = Ok (s', d) → boot_history s0 (Booted d :: h) s'
  | history_confirm h s health s' :
      boot_history s0 h s → BootState_confirm s health = Ok s' → boot_history s0 (Confirmed health :: h) s'.

(** The release [slot], [sequence] was staged and booted [k] times since. *)
Definition tried (slot : BootSlot) (sequence : Z) (k : nat) (h : list BootEvent) : Prop :=
  ∃ r h', rm_sequence r = sequence ∧ ReleaseMetadata_validate r = Ok tt ∧
    configuration (fit r) = slot_configuration slot ∧
    h = replicate k (Booted (mkBootDecision slot sequence true)) ++ Staged r slot :: h'.

(** The confirmed release is the one of the factory or it was staged, booted
    one to three times and then reported healthy. *)
Definition confirmed_justified (s0 s : BootState) (h : list BootEvent) : Prop :=
  (confirmed_decision s = confirmed_decision s0) ∨
  ∃ h1 health h2 k, h = h1 ++ Confirmed health :: h2 ∧ is_healthy health = true ∧
    booted_slot health = confirmed_slot s ∧ booted_sequence health = confirmed_sequence s ∧
    (1 ≤ k ≤ 3)%nat ∧ tried (confirmed_slot s) (confirmed_sequence s) k h2.

Record history_inv (s0 : BootState) (h : list BootEvent) (s : BootState) : Prop := {
  hi_wf : boot_wf s;
  hi_generation : generation s = (generation s0 + Z.of_nat (length h))%Z;
  hi_forward : (confirmed_sequence s0 ≤ confirmed_sequence s)%Z;
  hi_pending p : pending s = Some p →
    tried (pb_slot p) (pb_sequence p) (Z.to_nat (MAX_BOOT_ATTEMPTS - attempts_remaining p)) h;
  hi_confirmed : confirmed_justified s0 s h;
}.

Lemma confirmed_justified_cons s0 s s' e h :
  confirmed_decision s' = confirmed_decision s → confirmed_justified s0 s h → confirmed_justified s0 s' (e :: h).
Proof.
  intros Hc [Hj|(h1&health&h2&k&->&Hj)]; [left; congruence|]. right. injection Hc as -> ->.
  by exists (e :: h1), health, h2, k.
Qed.

Lemma authorize_install_Ok r installed data_layout slot :
  authorize_install r installed data_layout slot = Ok tt →
  ReleaseMetadata_validate r = Ok tt ∧ (installed < rm_sequence r ≤ MAX_JSON_INTEGER)%Z ∧
  (data_layout_min r ≤ data_layout ≤ data_layout_max r)%Z ∧ configuration (fit r) = slot_configuration slot.
Proof.
  unfold authorize_install. destruct (ReleaseMetadata_validate r) as [[]| |] eqn:Hv; [|done..].
  intros Ha. repeat case_match; simplify_eq. unbool_hyps. split_and!; auto.
  unfold ReleaseMetadata_validate in Hv. repeat case_match; simplify_eq. unbool_hyps. lia.
Qed.

Lemma history_inv_stage s0 h s r slot data_layout s' :
  history_inv s0 h s → authorize_install r (confirmed_sequence s) data_layout slot = Ok tt →
  BootState_stage s slot (rm_sequence r) = Ok s' → history_inv s0 (Staged r slot :: h) s'.
Proof.
  intros IH Ha Hst. apply authorize_install_Ok in Ha as (Hv&Hr&_&Hf). pose proof (hi_wf _ _ _ IH) as Hs.
  pose proof (stage_wf _ _ _ _ Hs (proj2 Hr) Hst) as Hs'. apply stage_inv in Hst as (->&?&?&->); [|done].
  constructor; [done|..]; simpl.
  - rewrite (hi_generation _ _ _ IH). lia.
  - apply (hi_forward _ _ _ IH).
  - intros p [= <-]. by exists r, h.
  - eapply confirmed_justified_cons; [|apply (hi_confirmed _ _ _ IH)]. done.
Qed.

Lemma history_inv_boot s0 h s s' d :
  history_inv s0 h s → prepare_boot s = Ok (s', d) → history_inv s0 (Booted d :: h) s'.
Proof.
  intros IH Hb. pose proof (hi_wf _ _ _ IH) as Hs. apply prepare_boot_inv in Hb as (Hg&->&->); [|done].
  destruct (after_boot_attempts s Hs) as (_&Hg'&Hc). constructor.
  - by apply after_boot_wf.
  - rewrite Hg', (hi_generation _ _ _ IH). simpl. lia.
  - injection Hc as _ ->. apply (hi_forward _ _ _ IH).
  - intros p' Hp'. unfold after_boot, boot_choice in *. destruct (pending s) as [p|] eqn:Hp; [|done].
    destruct (0 <? attempts_remaining p)%Z eqn:E; [|done]. simplify_eq/=. unbool_hyps.
    destruct (hi_pending _ _ _ IH p Hp) as (r&h'&?&?&?&->). exists r, h'. split_and!; auto.
    destruct Hs as (_&_&_&Hs). rewrite Hp in Hs. destruct Hs as (_&_&Hat&_).
    replace (Z.to_nat (MAX_BOOT_ATTEMPTS - (attempts_remaining p - 1)))
      with (S (Z.to_nat (MAX_BOOT_ATTEMPTS - attempts_remaining p))) by lia. done.
  - by eapply confirmed_justified_cons; [|apply (hi_confirmed _ _ _ IH)].
Qed.

Lemma history_inv_confirm s0 h s health s' :
  history_inv s0 h s → BootState_confirm s health = Ok s' → history_inv s0 (Confirmed health :: h) s'.
Proof.
  intros IH Hc. pose proof (hi_wf _ _ _ IH) as Hs. pose proof (confirm_wf _ _ _ Hs Hc) as Hs'.
  apply confirm_inv in Hc as (p&Hp&Hh&Hsl&Hsq&Hat&Hg&->); [|done].
  assert (Hw := Hs). destruct Hw as (_&_&_&Hw). rewrite Hp in Hw. destruct Hw as (_&Hseq&Hatt&_).
  pose proof (hi_forward _ _ _ IH). constructor; simpl; [done|..].
  - rewrite (hi_generation _ _ _ IH). lia.
  - lia.
  - done.
  - right. exists [], health, h, (Z.to_nat (MAX_BOOT_ATTEMPTS - attempts_remaining p)).
    unfold MAX_BOOT_ATTEMPTS in *. split_and!; auto; [lia..|]. by apply (hi_pending _ _ _ IH).
Qed.

Lemma history_inv_holds s0 h s : boot_wf s0 → pending s0 = None → boot_history s0 h s → history_inv s0 h s.
Proof.
  intros Hs0 Hp0. induction 1 as [| | |]; eauto using history_inv_stage, history_inv_boot, history_inv_confirm.
  constructor; [done|simpl; lia|done|congruence|by left].
Qed.

End history.

(** ** Records *)

Section record_lemmas.
  Context `{Crypto} `{Codec BootState} {CR : Codec BootStateRecord}.

Lemma BootState_validate_no_panic s : BootState_validate s ≠ Panicked.
Proof. unfold BootState_validate. cbv zeta. by repeat case_match. Qed.

Lemma decode_record_no_panic encoded : decode_record encoded ≠ Panicked.
Proof.
  unfold decode_record. destruct (4096 <? _)%Z; [done|]. destruct (from_json encoded) as [r|]; [|done]. cbn [ok_or].
  destruct (negb _); [done|]. destruct (BootState_validate (br_state r)) eqn:Hv; [|done|by apply BootState_validate_no_panic in Hv].
  destruct (to_json (br_state r)); [|done]. cbn [ok_or]. by destruct (negb _).
Qed.

Lemma decode_encode_record s encoded :
  codec_roundtrip CR → encode_record s = Ok encoded → (Z.of_nat (length encoded) ≤ 4096)%Z →
  decode_record encoded = Ok s.
Proof.
  intros HC He Hl. unfold encode_record in He. destruct (BootState_validate s) as [[]| |] eqn:Hv; [|done..].
  destruct (to_json s) as [state|] eqn:Hs; [|done]. cbn [ok_or] in He.
  set (record := mkBootStateRecord _ _ _) in He. destruct (HC record) as (bs&Hj&Hr).
  unfold encode_line in He. rewrite Hj in He. simpl in He. simplify_eq.
  unfold decode_record. rewrite (proj2 (Z.ltb_ge _ _)) by lia. rewrite Hr. cbn [ok_or br_format br_state checksum record].
  rewrite !bool_decide_true by done. cbn [negb]. rewrite Hv, Hs. cbn [ok_or]. by rewrite bool_decide_true.
Qed.

(** The states that the records hold. *)
Definition decoded_states (records : list (list ascii)) : list BootState :=
  omap (λ encoded, match decode_record encoded with Ok s => Some s | _ => None end) records.

(** Records that agree within a generation: the newest one is selected. *)
Lemma newest_loop_max selected records :
  let l := option_list selected ++ decoded_states records in
  (∀ s t, s ∈ l → t ∈ l → generation s = generation t → s = t) → l ≠ [] →
  ∃ s, newest_loop selected records = Ok s ∧ s ∈ l ∧ ∀ t, t ∈ l → (generation t ≤ generation s)%Z.
Proof.
  revert selected. induction records as [|encoded records IH]; intros selected; cbv zeta.
  - unfold decoded_states. simpl. rewrite app_nil_r. destruct selected as [s|]; [|done]. intros _ _. exists s.
    split; [done|]. split; [set_solver|]. intros t ->%list_elem_of_singleton. lia.
  - unfold decoded_states. cbn [newest_loop omap list_omap]. pose proof (decode_record_no_panic encoded) as Hnp.
    fold (decoded_states records). destruct (decode_record encoded) as [c|e|]; [|apply IH|done]. intros Heq Hne.
    destruct selected as [s|]; [|by apply (IH (Some c))]. simpl in *.
    assert (∀ a b, s :: c :: decoded_states records ≡ₚ a :: b :: decoded_states records →
      (generation b ≤ generation a)%Z → ∃ u, newest_loop (Some a) records = Ok u ∧ u ∈ s :: c :: decoded_states records ∧
      ∀ t, t ∈ s :: c :: decoded_states records → (generation t ≤ generation u)%Z) as Hgo.
    { intros a b Hp Hab. destruct (IH (Some a)) as (u&Hu&Hin&Hmax); [|done|].
      { intros x y Hx Hy. apply Heq; rewrite Hp; simpl in *; rewrite !elem_of_cons in *; tauto. }
      simpl in *. exists u. split; [done|]. setoid_rewrite Hp. rewrite !elem_of_cons in *. split; [tauto|].
      intros t. rewrite !elem_of_cons. pose proof (Hmax a ltac:(set_solver)). intros [->|[->|Ht]]; [lia..|].
      apply Hmax. set_solver. }
    destruct (generation c <? generation s)%Z eqn:E1; [|destruct (generation s =? generation c)%Z eqn:E2]; unbool_hyps.
    + apply (Hgo s c); [done|lia].
    + assert (s = c) as <- by (apply Heq; [set_solver..|done]). rewrite bool_decide_true by done. cbn [negb].
      apply (Hgo s s); [done|lia].
    + apply (Hgo c s); [apply Permutation_swap|lia].
Qed.

Lemma newest_of_two records s :
  decoded_states records = [s] ∨ decoded_states records = [s; s] ∨
  (∃ t, decoded_states records = [s; t] ∧ (generation t < generation s)%Z) →
  newest_valid_record records = Ok s.
Proof.
  intros Hd. destruct (newest_loop_max None records) as (u&Hu&Hin&Hmax); unfold newest_valid_record; simpl in *.
  - intros x y. destruct Hd as [->|[->|(t&->&Ht)]]; rewrite ?elem_of_cons, ?elem_of_nil; intuition (subst; auto; lia).
  - by destruct Hd as [->|[->|(t&->&Ht)]].
  - rewrite Hu. f_equal. destruct Hd as [Hd|[Hd|(t&Hd&Ht)]]; rewrite Hd in *; [set_solver..|].
    specialize (Hmax s ltac:(set_solver)). apply elem_of_cons in Hin as [->| ->%list_elem_of_singleton]; [done|lia].
Qed.

(** One operation of the machine. *)
Inductive boot_step (s : BootState) : BootState → Prop :=
  | step_stage slot sequence s' : BootState_stage s slot sequence = Ok s' → boot_step s s'
  | step_boot s' d : prepare_boot s = Ok (s', d) → boot_step s s'
  | step_confirm health s' : BootState_confirm s health = Ok s' → boot_step s s'.

Ltac generation_step :=
  repeat (case_match; simplify_eq/=); match goal with
  | Hn : next_generation _ = Ok _ |- _ => by apply next_generation_inv in Hn as [_ ->]
  end.

Lemma boot_step_generation s s' : boot_step s s' → generation s' = (generation s + 1)%Z.
Proof.
  destruct 1 as [slot sequence s' Hs|s' d Hs|health s' Hs].
  - unfold BootState_stage in Hs. generation_step.
  - unfold prepare_boot in Hs. generation_step.
  - unfold BootState_confirm in Hs. generation_step.
Qed.

End record_lemmas.

(** The product of a block count within its bound does not overflow. *)
Lemma VerityDescriptor_validate_Ok v n u :
  VerityDescriptor_validate v n = Ok u →
  n = (data_blocks v * BLOCK_SIZE)%Z ∧ Artifact_validate (hash_tree v) = Ok u.
Proof.
  unfold VerityDescriptor_validate, checked_mul_u64. intros Hv. repeat case_match; simplify_eq/=. unbool_hyps. done.
Qed.

Lemma verity_never_overflows v n :
  (0 ≤ data_blocks v)%Z → VerityDescriptor_validate v n ≠ Err UpVerityOverflow.
Proof.
  intros Hb. unfold VerityDescriptor_validate. destruct (negb _); [done|]. destruct (_ || _ || _); [done|].
  destruct ((data_blocks v =? 0)%Z || _) eqn:Hbl; [done|]. unbool_hyps. unfold checked_mul_u64.
  rewrite (proj2 (Z.leb_le _ _)).
  - cbn [ok_or]. destruct (negb _); [done|]. unfold Artifact_validate. by repeat case_match.
  - unfold MAX_VERITY_DATA_BLOCKS, MAX_JSON_INTEGER, BLOCK_SIZE, u64_max in *.
    assert (9007199254740991 / 4096 = 2199023255551)%Z as Hd by done. rewrite Hd in *. lia.
Qed.

Lemma release_rootfs_size `{Semver} r :
  ReleaseMetadata_validate r = Ok tt → art_size (rootfs r) = (data_blocks (verity r) * BLOCK_SIZE)%Z.
Proof.
  unfold ReleaseMetadata_validate. intros Hv. repeat case_match; simplify_eq/=.
  match goal with Hd : VerityDescriptor_validate _ _ = _ |- _ => by apply VerityDescriptor_validate_Ok in Hd as [? _] end.
Qed.

Lemma confirm_Ok s p health :
  boot_wf s → pending s = Some p → (attempts_remaining p < MAX_BOOT_ATTEMPTS)%Z →
  (generation s < MAX_JSON_INTEGER)%Z → is_healthy health = true →
  booted_slot health = pb_slot p → booted_sequence health = pb_sequence p →
  BootState_confirm s health =
    Ok (mkBootState (bs_format s) (generation s + 1) (pb_slot p) (pb_sequence p) None (Some (pb_slot p))).
Proof.
  intros Hs Hp Ha Hg Hh Hsl Hsq. unfold BootState_confirm. rewrite boot_wf_validate, Hh, Hp, Hsl, Hsq by done.
  cbn [negb ok_or]. destruct Hs as (_&_&_&Hs). rewrite Hp in Hs. destruct Hs as (_&_&_&->).
  rewrite (proj2 (Z.eqb_neq (attempts_remaining p) _)) by lia. rewrite !bool_decide_true by done.
  rewrite Z.eqb_refl. cbn [negb orb]. by rewrite next_generation_Ok.
Qed.

(** ** Properties *)

(** C25: from the factory on, through any history of authorised releases that
    are staged, of starts and of confirmations, the boot state validates, the
    confirmed sequence never falls below that of the factory, and the confirmed
    release is either the factory's or one that was staged after its
    authorisation, then booted one to three times with nothing in between, and
    then reported healthy.  A pending release sits in the other slot, so the
    confirmed system is never overwritten, and it has spent exactly one of its
    three attempts for every boot since it was staged. *)
Theorem boot_history_sound `{Semver} slot sequence h s :
  (1 ≤ sequence ≤ MAX_JSON_INTEGER)%Z → boot_history (BootState_factory slot sequence) h s →
  BootState_validate s = Ok tt ∧ boot_typed s ∧ generation s = Z.of_nat (length h) ∧
  (sequence ≤ confirmed_sequence s)%Z ∧ confirmed_justified (BootState_factory slot sequence) s h ∧
  ∀ p, pending s = Some p → pb_slot p ≠ confirmed_slot s ∧
    tried (pb_slot p) (pb_sequence p) (Z.to_nat (MAX_BOOT_ATTEMPTS - attempts_remaining p)) h.
Proof.
  intros Hq Hh. assert (boot_wf (BootState_factory slot sequence)) as Hf by (repeat split; simpl; auto; lia).
  destruct (history_inv_holds _ _ _ Hf eq_refl Hh) as [Hs Hg Hfw Hp Hc].
  split_and!; auto using boot_wf_validate, boot_wf_typed.
  intros p Hps. split; [|by apply Hp]. destruct Hs as (_&_&_&Hs). rewrite Hps in Hs.
  apply BootSlot_other_ne, Hs.
Qed.

(** C26: a release that is never confirmed cannot keep the device from starting.
    From any valid state, [n] starts in a row succeed and choose the pending
    release as often as it has attempts left and the confirmed release every
    time after that; once the attempts are spent nothing is pending any more
    after the next start, and the confirmed release has not changed. *)
Theorem unconfirmed_update_falls_back n s :
  boot_typed s → BootState_validate s = Ok tt → (generation s + Z.of_nat n ≤ MAX_JSON_INTEGER)%Z →
  ∃ s', boots n s = Ok (s', boot_choices s n) ∧ BootState_validate s' = Ok tt ∧
    confirmed_decision s' = confirmed_decision s ∧
    ((attempts_left s < n)%nat → pending s' = None ∧ last (boot_choices s n) = Some (confirmed_decision s)).
Proof.
  intros Ht Hs Hg. apply BootState_validate_iff in Hs; [|done].
  destruct (boots_Ok n s Hs Hg) as (s'&Hb&Hs'&Hc&Ha). exists s'. split_and!; auto using boot_wf_validate.
  intros Hn. split; [by apply Ha|by apply boot_choices_last].
Qed.

(** C32: the two copies of the boot state survive a loss of power.  While an
    operation's new state is written over the first and then over the second
    copy, with any bytes that do not decode in the copy being written, the
    newest valid record is the old state until the first copy is complete and
    the new state from then on. *)
Theorem boot_records_atomic `{Crypto} `{Codec BootState} {CR : Codec BootStateRecord} s s' old new torn e :
  codec_roundtrip CR → boot_step s s' →
  encode_record s = Ok old → encode_record s' = Ok new →
  (Z.of_nat (length old) ≤ 4096)%Z → (Z.of_nat (length new) ≤ 4096)%Z → decode_record torn = Err e →
  newest_valid_record [old; old] = Ok s ∧ newest_valid_record [torn; old] = Ok s ∧
  newest_valid_record [new; old] = Ok s' ∧ newest_valid_record [new; torn] = Ok s' ∧
  newest_valid_record [new; new] = Ok s'.
Proof.
  intros HC Hstep Hold Hnew Hlo Hln Htorn. apply boot_step_generation in Hstep.
  apply decode_encode_record in Hold, Hnew; [|done..].
  split_and!; apply newest_of_two; unfold decoded_states; simpl; rewrite ?Hold, ?Hnew, ?Htorn; auto 10.
  right. right. exists s. split; [done|lia].
Qed.

(** The update ceremony goes through.  When nothing is pending, a release
    that is authorised for the inactive slot can be staged, the next start
    chooses exactly that slot and release, whose FIT configuration is the one
    of the slot and whose root file system has the size of its verity blocks,
    and a healthy report of that start makes it the confirmed release. *)
Theorem authorized_update_completes `{Semver} s r data_layout health :
  boot_typed s → BootState_validate s = Ok tt → pending s = None →
  (generation s + 3 ≤ MAX_JSON_INTEGER)%Z →
  authorize_install r (confirmed_sequence s) data_layout (BootSlot_other (confirmed_slot s)) = Ok tt →
  is_healthy health = true → booted_slot health = BootSlot_other (confirmed_slot s) →
  booted_sequence health = rm_sequence r →
  ∃ s1 s2 s3 d,
    BootState_stage s (BootSlot_other (confirmed_slot s)) (rm_sequence r) = Ok s1 ∧
    prepare_boot s1 = Ok (s2, d) ∧ d = mkBootDecision (BootSlot_other (confirmed_slot s)) (rm_sequence r) true ∧
    configuration (fit r) = slot_configuration (bd_slot d) ∧
    art_size (rootfs r) = (data_blocks (verity r) * BLOCK_SIZE)%Z ∧
    BootState_confirm s2 health = Ok s3 ∧
    confirmed_slot s3 = bd_slot d ∧ confirmed_sequence s3 = rm_sequence r ∧ pending s3 = None.
Proof.
  intros Ht Hv Hp Hg Ha Hh Hsl Hsq. apply BootState_validate_iff in Hv as Hs; [|done].
  apply authorize_install_Ok in Ha as (Hr&Hseq&_&Hf). pose proof (stage_Ok s (rm_sequence r) Hs Hp) as Hst.
  specialize (Hst ltac:(lia) ltac:(lia)). pose proof (stage_wf _ _ _ _ Hs (proj2 Hseq) Hst) as Hs1.
  eexists _, _, _, _. split; [exact Hst|]. split; [apply prepare_boot_Ok; [done|simpl; lia]|].
  split_and!; [done|done|by apply release_rootfs_size|..].
  - eapply confirm_Ok; simpl; try done; [by apply after_boot_wf; simpl; [|lia]|..]; simpl; lia.
  - done.
  - done.
  - done.
Qed.

(** ** Examples *)

Definition plain_semver : Semver :=
  {| Version := string; version_parse v := if is_valid_app_version v then Some v else None;
     version_build v := match split_once "+"%char v with Some (_, build) => build | None => EmptyString end;
     version_lt := str_ltb |}.
Definition hex64 : string := "aaaaaaaaaaaaaaaaaaaaaaaaaaaaaaaaaaaaaaaaaaaaaaaaaaaaaaaaaaaaaaaa".
Definition sample_release : ReleaseMetadata :=
  mkReleaseMetadata RELEASE_FORMAT BOARD_ID "1.2.3" 7 1 1 (mkArtifact hex64 409600)
    (mkVerityDescriptor hex64 hex64 100 (mkArtifact hex64 16384)) (mkFitDescriptor (mkArtifact hex64 1048576) "conf-b").
Definition ok_state (r : result UpdateError BootState) : BootState :=
  match r with Ok s => s | _ => BootState_factory SlotA 1 end.
Definition factory_a : BootState := BootState_factory SlotA 6.
Definition staged_b : BootState := ok_state (BootState_stage factory_a SlotB 7).
Definition healthy_b : HealthReport := mkHealthReport SlotB 7 true true true.

Lemma sample_history : @boot_history plain_semver factory_a
  [Confirmed healthy_b; Booted (mkBootDecision SlotB 7 true); Staged sample_release SlotB]
  (mkBootState BOOT_STATE_FORMAT 3 SlotB 7 None (Some SlotB)).
Proof.
  eapply history_confirm; [eapply history_boot; [eapply (history_stage _ _ _ _ _ 1); [constructor|by vm_compute..]
    |by vm_compute]|by vm_compute].
Qed.

Lemma boot_history_sound_witness :
  @confirmed_justified plain_semver factory_a (mkBootState BOOT_STATE_FORMAT 3 SlotB 7 None (Some SlotB))
    [Confirmed healthy_b; Booted (mkBootDecision SlotB 7 true); Staged sample_release SlotB].
Proof.
  destruct (@boot_history_sound plain_semver SlotA 6 _ _ ltac:(by vm_compute) sample_history) as (_&_&_&_&Hc&_).
  exact Hc.
Defined.

Lemma unconfirmed_update_falls_back_witness :
  boot_choices staged_b 5 = replicate 3 (mkBootDecision SlotB 7 true) ++ replicate 2 (mkBootDecision SlotA 6 false) ∧
  ∃ s', boots 5 staged_b = Ok (s', boot_choices staged_b 5) ∧ pending s' = None.
Proof.
  split; [by vm_compute|].
  destruct (unconfirmed_update_falls_back 5 staged_b) as (s'&Hb&_&_&Hn); [|by vm_compute..|].
  - repeat split; by vm_compute.
  - exists s'. split; [exact Hb|]. apply Hn. vm_compute. lia.
Defined.

Global Instance BootSlot_countable : Countable BootSlot.
Proof.
  refine (inj_countable' (λ s, bool_decide (s = SlotA)) (λ b : bool, if b then SlotA else SlotB) _).
  by intros [].
Defined.
Global Instance PendingBoot_countable : Countable PendingBoot.
Proof.
  refine (inj_countable' (λ p, (pb_slot p, pb_sequence p, attempts_remaining p)) (λ e, mkPendingBoot e.1.1 e.1.2 e.2) _).
  by intros [].
Defined.
Global Instance BootState_countable : Countable BootState.
Proof.
  refine (inj_countable' (λ s, (bs_format s, (generation s, confirmed_slot s, confirmed_sequence s, pending s, last_attempted s)))
    (λ e, mkBootState e.1 e.2.1.1.1.1 e.2.1.1.1.2 e.2.1.1.2 e.2.1.2 e.2.2) _).
  by intros [].
Defined.
Global Instance BootStateRecord_eq_dec : EqDecision BootStateRecord.
Proof. solve_decision. Defined.
Global Instance BootStateRecord_countable : Countable BootStateRecord.
Proof.
  refine (inj_countable' (λ r, (checksum r, (br_format r, br_state r)))
    (λ e, mkBootStateRecord e.2.1 e.1 e.2.2) _).
  by intros [].
Defined.
Definition bits_encode_record (s : BootState) : list ascii :=
  match @encode_record toy_crypto bits_codec bits_codec s with Ok l => l | _ => [] end.

Lemma boot_records_atomic_witness :
  @newest_valid_record toy_crypto bits_codec bits_codec [[]; bits_encode_record factory_a] = Ok factory_a ∧
  @newest_valid_record toy_crypto bits_codec bits_codec [bits_encode_record staged_b; []] = Ok staged_b.
Proof.
  destruct (@boot_records_atomic toy_crypto bits_codec bits_codec factory_a staged_b (bits_encode_record factory_a)
    (bits_encode_record staged_b) [] UpRecordJson) as (_&H1&_&H2&_); [..|by split].
  - apply bits_codec_roundtrip.
  - by apply (step_stage _ SlotB 7).
  - by vm_compute.
  - by vm_compute.
  - by vm_compute.
  - by vm_compute.
  - by vm_compute.
Defined.

Lemma authorized_update_completes_witness :
  ∃ s1 s2 s3 d, BootState_stage factory_a SlotB 7 = Ok s1 ∧ prepare_boot s1 = Ok (s2, d) ∧
    BootState_confirm s2 healthy_b = Ok s3 ∧ confirmed_slot s3 = SlotB.
Proof.
  destruct (@authorized_update_completes plain_semver factory_a sample_release 1 healthy_b)
    as (s1&s2&s3&d&Hs&Hb&->&_&_&Hc&Hsl&_); [by repeat split; vm_compute|by vm_compute..|].
  exists s1, s2, s3, (mkBootDecision SlotB 7 true). split_and!; [exact Hs|exact Hb|exact Hc|exact Hsl].
Defined.
