(* ===== verification/ServerInstall.v ===== *)
(** * Installing through the control server (crates/cp0-appd/src/server.rs)

    The two commands that install a package: [Install] for the operator and
    [StoreInstall] for the Store service.  Both unpack the package with the
    installer, without a lock, and then commit it to the registry under the
    lock; the Store's command first asks the device policy and refuses to go
    back to an older version.  The order of versions is that of [Semver].

    The theorem composes the installer with the server: what is registered in
    the end is exactly the application, version and file that the Store
    announced. *)

From S2P Require Import Prelude RustStr Bytes Manifest HostFs FsLogic Registry Policy Permissions PermissionPrompt Tasks.
From S2P Require Import Intent MediaSession DocumentPrompt Checkpoint Sandbox Lifecycle Package Installer InstallerTree InstallerMatch.
From S2P Require Import InstallerLogic Protocol Server ServerLogic Transparency OsUpdate.

Section install.
  Context `{Host} `{System} `{Threads} `{Codec AppRegistry} `{Codec DevicePolicy} `{Crypto} `{Semver}.
  Context (manifest_from_slice : list ascii → option AppManifest) (installer : PackageInstaller).

Definition store_version_is_upgrade (current : option string) (candidate : string) : bool :=
  match version_parse candidate with
  | None => false
  | Some candidate =>
      match current with
      | None => true
      | Some current => match version_parse current with Some current => version_lt current candidate | None => false end
      end
  end.

Definition store_version_is_acceptable (current : option string) (candidate : string) : bool :=
  bool_decide (is_Some (version_parse candidate))
  && (bool_decide (current = Some candidate) || store_version_is_upgrade current candidate).

Definition install_error_response (e : InstallError) : ErrorCode :=
  match e with
  | InUntrusted _ => CodeUntrusted
  | InAlreadyInstalled _ _ => CodeConflict
  | InInvalid _ | InPackage _ | InManifest _ => CodeInvalidRequest
  | InIo _ => CodeInternal
  end.

Definition install_package (now : Z) (package_name : string) : SV ErrorCode ResponseData :=
  let path := path_join "/run/cardputerzero-appd" package_name in
  let@ prepared := sv_map_err install_error_response
                     (sv_io (λ _, PackageInstaller_install manifest_from_slice installer path)) in
  sv_map_err command_error_response (commit_prepared_install manifest_from_slice now prepared false).

Definition store_package_path (package_name : string) : string :=
  path_join "/run/cardputerzero-appd/store" package_name.

(** The version that is installed of an application. *)
Definition current_version (am : AppManager) (app_id : string) : option string :=
  ia_version <$> List.find (λ installed, bool_decide (ia_app_id installed = app_id)) (AppManager_installed_apps am).

Definition install_store_package (now peer_uid : Z) (package_name app_id version package_sha256 : string)
    (package_bytes : Z) (automatic : bool) : SV ErrorCode ResponseData :=
  let@ _ := sv_lock in
  let@ allowed := sv_get (λ s, if automatic
                               then DevicePolicyEngine_allows_store_auto_update (s_policy (sv_state s)) app_id
                               else DevicePolicyEngine_allows_store_install (s_policy (sv_state s)) app_id) in
  let@ _ := (if negb allowed then sv_err CodeUnauthorized else sv_ret tt) in
  let@ current := sv_get (λ s, current_version (s_manager (sv_state s)) app_id) in
  let@ _ := (if negb (store_version_is_acceptable current version) then sv_err CodeConflict else sv_ret tt) in
  let@ sha := sv_lift (ok_or (decode_hex 32 package_sha256) CodeInvalidRequest) in
  let@ prepared := sv_map_err install_error_response
                     (sv_io (λ _, PackageInstaller_install_store manifest_from_slice installer
                                    (store_package_path package_name) peer_uid app_id version sha package_bytes)) in
  sv_map_err command_error_response (commit_prepared_install manifest_from_slice now prepared true).

(** ** Lemmas *)

Lemma sv_guard_Ok {E} (b : bool) (e : E) u s s' w w' :
  (if b then sv_err e else sv_ret tt) s w = ((Ok u, s'), w') → b = false ∧ s' = s ∧ w' = w.
Proof. destruct b; [done|]. by intros [= _ -> ->]. Qed.

Lemma sv_get_Ok {E A} (f : Server → A) a s s' w w' : @sv_get E A f s w = ((Ok a, s'), w') → a = f s ∧ s' = s ∧ w' = w.
Proof. by intros [= <- -> ->]. Qed.

Lemma sv_lift_Ok {E A} (r : result E A) a s s' w w' : sv_lift r s w = ((Ok a, s'), w') → r = Ok a ∧ s' = s ∧ w' = w.
Proof. by intros [= -> -> ->]. Qed.

Lemma sv_manager_Ok {A} f (a : A) s s' w w' :
  sv_manager f s w = ((Ok a, s'), w') →
  ∃ am, f (s_manager (sv_state s)) w = ((Ok a, am), w') ∧ s_manager (sv_state s') = am.
Proof. unfold sv_manager. destruct (f _ w) as [[r am] w1]. intros [= -> <- ->]. by exists am. Qed.

(** A commit registers the version of the manifest and answers with it. *)
Lemma commit_prepared_Ok now prepared replay data s s' w w' :
  commit_prepared_install manifest_from_slice now prepared replay s w = ((Ok data, s'), w') →
  (∃ previous trust, data = RdInstalled (m_id (pi_manifest prepared)) (m_version (pi_manifest prepared)) previous trust) ∧
  ∃ a, apps (am_registry (s_manager (sv_state s'))) !! m_id (pi_manifest prepared) = Some a ∧
    installed_version a = Some (m_version (pi_manifest prepared)).
Proof.
  unfold commit_prepared_install. cbv zeta. do 8 (intros (?&?&?&_&Hrun)%sv_bind_Ok; revert Hrun).
  intros (installed&s1&w1&Hm%sv_map_err_Ok&Hrun)%sv_bind_Ok. injection Hrun as <- <- <-.
  apply sv_manager_Ok in Hm as (am&Hm&->). set (m := pi_manifest prepared) in *. unfold AppManager_mark_installed in Hm.
  destruct (AppManager_load_package_manifest _ _ _ _ _) as [[m'|e|] w2]; [|done..].
  destruct (negb _); [done|]. unfold commit_registry in Hm.
  destruct (AppRegistry_mark_installed now _ m) as [r next] eqn:Hr. destruct r as [a|e|]; [|done..].
  destruct (AppRegistry_save_atomic _ _ _) as [saved w3]. destruct saved as [[]|e|]; [|done..].
  injection Hm as <- <- <-. simpl. split; [eauto|].
  unfold AppRegistry_mark_installed in Hr. destruct (manifest_validate m); [|done..].
  destruct (AppRegistry_assign _ (m_id m)) as [[account|e|] r']; [|done..]. injection Hr as <- <-.
  eexists. simpl. rewrite lookup_insert_eq. split; [done|].
  unfold account_mark_installed. by case_bool_decide.
Qed.

(** The version found is the one in the registry. *)
Lemma current_version_lookup am app_id :
  current_version am app_id = apps (am_registry am) !! app_id ≫= installed_version.
Proof.
  assert (∀ i, i ∈ AppManager_installed_apps am ↔ ∃ a v, apps (am_registry am) !! ia_app_id i = Some a ∧
    installed_version a = Some v ∧ i = installed_app (ia_app_id i) v a) as Hin.
  { intros i. unfold AppManager_installed_apps. rewrite list_elem_of_omap. split.
    - intros ([id a]&Ha%elem_of_btree_iter&(v&Hv&Heq)%fmap_Some_1). subst i. simpl in *. eauto.
    - intros (a&v&Ha&Hv&->). exists (ia_app_id i, a). split; [by apply elem_of_btree_iter|]. simpl. by rewrite Hv. }
  unfold current_version. destruct (List.find _ _) as [i|] eqn:Hf; simpl.
  - apply List.find_some in Hf as [Hi%list_elem_of_In Heq]. unbool_hyps. subst app_id.
    apply Hin in Hi as (a&v&Ha&Hv&Hi). rewrite Ha. simpl. rewrite Hv. by rewrite Hi.
  - destruct (apps (am_registry am) !! app_id) as [a|] eqn:Ha; [|done]. simpl.
    destruct (installed_version a) as [v|] eqn:Hv; [|done]. exfalso.
    pose proof (List.find_none _ _ Hf (installed_app app_id v a)) as Hno. rewrite <- list_elem_of_In in Hno.
    simpl in Hno. rewrite bool_decide_eq_true_2 in Hno by done. discriminate Hno.
    apply Hin. eauto.
Qed.

Lemma store_version_is_acceptable_iff current candidate :
  store_version_is_acceptable current candidate = true ↔
  ∃ v, version_parse candidate = Some v ∧
    ∀ installed, current = Some installed → installed = candidate ∨
      ∃ u, version_parse installed = Some u ∧ version_lt u v = true.
Proof.
  unfold store_version_is_acceptable, store_version_is_upgrade.
  rewrite andb_true_iff, orb_true_iff, !bool_decide_eq_true.
  destruct (version_parse candidate) as [v|]; [|split; [intros [[? [=]] _]|intros (?&[=]&_)]].
  split.
  - intros [_ [->|Hup]]; exists v; (split; [done|]); intros i [= ->]; [by left|]. right.
    destruct (version_parse i) as [u|]; [eauto|done].
  - intros (v'&[= <-]&Hi). split; [eauto|]. destruct current as [i|]; [|by right].
    destruct (Hi i eq_refl) as [->|(u&Hu&Hlt)]; [by left|]. right. by rewrite Hu.
Qed.

End install.

(** ** Properties *)

(** C24: what the Store installs is what it announced.  When the Store's command
    succeeds, the device policy allowed the installation (the automatic one, if
    it was), the version is a semantic version and not older than the one
    installed, the file in the Store's directory belongs to the calling account
    and has the announced size and digest, it is a package that the device
    trusts, whose manifest names the announced application and version; the
    answer says so, and the registry has that version installed. *)
Theorem store_install_verified `{Host} `{System} `{Threads} `{Codec AppRegistry} `{Codec DevicePolicy} `{Crypto} `{Semver}
    manifest_from_slice installer now peer_uid package_name app_id version package_sha256 package_bytes automatic
    data s s' w w' :
  tame _ → quiet _ → honest _ → disk_wf (w_disk w) → no_hard_links (w_disk w) →
  path_is_absolute (apps_root installer) = true →
  (∀ id, is_valid_app_id id = true → shaped (path_join (apps_root installer) id) (w_disk w)) →
  install_store_package manifest_from_slice installer now peer_uid package_name app_id version package_sha256
    package_bytes automatic s w = ((Ok data, s'), w') →
  (if automatic then DevicePolicyEngine_allows_store_auto_update (s_policy (sv_state s)) app_id
   else DevicePolicyEngine_allows_store_install (s_policy (sv_state s)) app_id) = true ∧
  (∃ v, version_parse version = Some v ∧
     ∀ installed, apps (am_registry (s_manager (sv_state s))) !! app_id ≫= installed_version = Some installed →
       installed = version ∨ ∃ u, version_parse installed = Some u ∧ version_lt u v = true) ∧
  (∃ package decision manifest i n, node_at (w_disk w) (store_package_path package_name) = Some (i, n) ∧
     i_kind n = RegularFile ∧ i_uid n = peer_uid ∧ Z.of_nat (length (i_data n)) = package_bytes ∧
     decode_hex 32 package_sha256 = Some (sha256 (i_data n)) ∧ CApp_decode (i_data n) = Ok package ∧
     trusted_package (w_disk w) (trust installer) package decision ∧
     m_id manifest = app_id ∧ m_version manifest = version ∧
     ∃ contents, CApp_entry package "app.json" = Ok (Some contents) ∧
       parse_and_validate manifest_from_slice contents = Ok manifest) ∧
  (∃ previous trust, data = RdInstalled app_id version previous trust) ∧
  ∃ a, apps (am_registry (s_manager (sv_state s'))) !! app_id = Some a ∧ installed_version a = Some version.
Proof.
  intros Ht Hq Hh Hwf Hl Habs Hs Hrun. unfold install_store_package in Hrun.
  apply sv_bind_Ok in Hrun as (?&s1&?&(Hm&Hp&->)%sv_lock_Ok&Hrun); [|done].
  apply sv_bind_Ok in Hrun as (allowed&?&?&(->&->&->)%sv_get_Ok&Hrun).
  apply sv_bind_Ok in Hrun as (?&?&?&(Hallowed&->&->)%sv_guard_Ok&Hrun).
  apply sv_bind_Ok in Hrun as (current&?&?&(->&->&->)%sv_get_Ok&Hrun).
  apply sv_bind_Ok in Hrun as (?&?&?&(Hver&->&->)%sv_guard_Ok&Hrun).
  apply sv_bind_Ok in Hrun as (sha&?&?&(Hsha&->&->)%sv_lift_Ok&Hrun).
  apply sv_bind_Ok in Hrun as (prepared&?&w1&[Hinst ->]%sv_map_err_Ok%sv_io_Ok&Hrun).
  apply sv_map_err_Ok, commit_prepared_Ok in Hrun as (Hdata&Hreg).
  unfold PackageInstaller_install_store in Hinst.
  destruct (install_spec Hq Hh manifest_from_slice installer (store_package_path package_name)
    (IncomingStore peer_uid app_id version sha package_bytes) (w_disk w) Hwf Hl Habs Hs w eq_refl) as (tr&_&_&Hr).
  rewrite Hinst in Hr. destruct (Hr prepared eq_refl) as (package&decision&manifest&(i&n&Hn&Hf&Had)&Hman&_).
  rewrite Hman in *. destruct Hf as (Hk&_&_&Huid&Hlen&Hdig), Had as [Hdec Htr Hc _ _ [Hid Hv] _].
  rewrite negb_false_iff in Hallowed, Hver. rewrite Hp in Hallowed. rewrite Hm, store_version_is_acceptable_iff in Hver.
  rewrite current_version_lookup, Hid, Hv in *. split_and!; [done..| |done|done].
  exists package, decision, manifest, i, n. split_and!; try done.
  rewrite Hdig. by destruct (decode_hex 32 package_sha256); simplify_eq/=.
Qed.

(** ** A concrete installation *)

Definition store_disk : list (string * Inode) :=
  [("/apps", directory_node); ("/registry", directory_node); ("/trust/store", directory_node);
   ("/trust/store/" +:+ lower_hex (@key_id toy_crypto store_key) +:+ ".pub", mkInode RegularFile store_key 0 420 true);
   ("/run/cardputerzero-appd/store/hello.capp", mkInode RegularFile hello_encoded 977 420 true)].
Definition store_manager : AppManager :=
  {| am_paths := mkManagerPaths "/registry/apps.json" (mkAppLayout "/apps" "/data" "/runtime" "/broker" "/wayland"); am_registry := AppRegistry_default |}.
Definition hello_sha256 : string := lower_hex (@sha256 toy_crypto hello_encoded).
Definition hello_bytes : Z := Z.of_nat (length hello_encoded).
Definition store_install : (result ErrorCode ResponseData * Server) * World :=
  @install_store_package calm_host sample_system lone_thread sample_codec no_policy_codec toy_crypto plain_semver
    hello_from_slice device_installer 5 977 "hello.capp" "dev.cardputerzero.hello" "0.1.0" hello_sha256 hello_bytes true
    (AppdServer_new store_manager sample_coordinator empty_tasks) (world_of store_disk).

Lemma store_install_Ok : store_install.1.1 = Ok (RdInstalled "dev.cardputerzero.hello" "0.1.0" None "store").
Proof. by vm_compute. Qed.

Lemma store_install_verified_witness :
  (∃ i n, node_at (w_disk (world_of store_disk)) (store_package_path "hello.capp") = Some (i, n) ∧ i_uid n = 977%Z) ∧
  ∃ a, apps (am_registry (s_manager (sv_state store_install.1.2))) !! "dev.cardputerzero.hello" = Some a ∧
    installed_version a = Some "0.1.0".
Proof.
  pose proof store_install_Ok as Hok. destruct store_install as [[r s'] w'] eqn:Hrun. simpl in Hok. subst r.
  destruct (@store_install_verified calm_host sample_system lone_thread sample_codec no_policy_codec toy_crypto plain_semver
    hello_from_slice device_installer 5 977 "hello.capp" "dev.cardputerzero.hello" "0.1.0" hello_sha256 hello_bytes true
    (RdInstalled "dev.cardputerzero.hello" "0.1.0" None "store")
    (AppdServer_new store_manager sample_coordinator empty_tasks) s' (world_of store_disk) w')
    as (_&_&(package&decision&manifest&i&n&Hn&_&Hu&_)&_&Ha).
  - apply lone_tame.
  - intros t d. reflexivity.
  - intros t e n. discriminate.
  - apply disk_of_wf.
  - apply NoDup_no_hard_links. apply (bool_decide_eq_true_1 _). by vm_compute.
  - reflexivity.
  - apply empty_root_shaped; [by split|]. apply (bool_decide_eq_true_1 _). by vm_compute.
  - exact Hrun.
  - split; [exists i, n; exact (conj Hn Hu)|exact Ha].
Defined.
