(* ===== verification/StorageProtocol.v ===== *)
(** * The private storage protocol (crates/cp0-storage-protocol/src/lib.rs)

    The requests that the application service sends to the storage service on
    behalf of an application, their checks (identity, quota, key, value), the
    Base64 coding of values and the framing (of [Framing]).  The constructor
    functions [StorageRequest::put], [StorageResponse::stored] and the like are
    the definitions of the same names.

    The theorems: Base64 is a bijection between the values of 1 to 8192 bytes
    and the texts that the decoder accepts, so a value has exactly one
    encoding; a validated request names a file directly below the directory of
    the application; requests survive the wire. *)

From S2P Require Import Prelude RustStr Bytes Manifest HostFs Framing.

Definition STORAGE_PROTOCOL_VERSION : Z := 2.
Definition MAX_STORAGE_KEY_BYTES : nat := 64.
Definition MAX_STORAGE_VALUE_BYTES : nat := Z.to_nat (8 * 1024).
Definition MAX_STORAGE_BLOB_BYTES : Z := 4 * 1024 * 1024.
Definition MAX_STORAGE_FRAME_BYTES : nat := Z.to_nat (16 * 1024).
Definition MAX_STORAGE_ERROR_CHARS : nat := 160.
Definition MIB : Z := 1024 * 1024.
Definition MAX_STORAGE_QUOTA_BYTES : Z := MAX_APP_STORAGE_MB * MIB.
Definition SYSTEM_PHOTO_LIBRARY_ID : string := "dev.cardputerzero.photo-library".
Definition SYSTEM_PHOTO_LIBRARY_QUOTA_BYTES : Z := Z.shiftl 1 50.

Inductive StorageCommand :=
  | ScPut (key value_base64 : string)
  | ScGet (key : string)
  | ScDelete (key : string)
  | ScPutBlobChunk (key : string) (offset total_bytes : Z) (value_base64 : string)
  | ScGetBlobChunk (key : string) (offset length : Z)
  | ScOpenBlob (key : string) (expected_bytes : Z)
  | ScDeleteBlob (key : string)
  | ScUsage.

Record StorageRequest := mkStorageRequest {
  sr_protocol_version : Z;
  sr_request_id : Z;
  sr_app_id : string;
  sr_quota_bytes : Z;
  sr_command : StorageCommand;
}.

Inductive StorageErrorCode := ScInvalidRequest | ScUnauthorized | ScQuotaExceeded | ScUnavailable | ScInternal.

Inductive StorageOutcome :=
  | SoStored (used_bytes : Z)
  | SoValue (value_base64 : string)
  | SoNotFound
  | SoDeleted (existed : bool) (used_bytes : Z)
  | SoUsage (used_bytes : Z)
  | SoBlobOpened (size_bytes : Z)
  | SoError (code : StorageErrorCode) (message : string).

Record StorageResponse := mkStorageResponse {
  sp_protocol_version : Z;
  sp_request_id : Z;
  sp_outcome : StorageOutcome;
}.

Inductive StorageProtocolError :=
  | SpIo (e : IoError) | SpJson | SpFrameTooLarge | SpUnterminatedFrame | SpUnsupportedVersion (version : Z)
  | SpInvalidAppId | SpInvalidQuota | SpInvalidKey | SpInvalidValue | SpInvalidUsage | SpInvalidErrorMessage.

(** ** Keys *)

Definition storage_key_byte (b : ascii) : bool :=
  is_ascii_alphanumeric b || bool_decide (b = "."%char) || bool_decide (b = "_"%char) || bool_decide (b = "-"%char).

Definition validate_key (key : string) : result StorageProtocolError unit :=
  if str_is_empty key || (MAX_STORAGE_KEY_BYTES <? String.length key)%nat || starts_with_char dot key
     || negb (bytes_all storage_key_byte key)
  then Err SpInvalidKey else Ok tt.

(** ** Base64 *)

Definition ALPHABET : list ascii := bytes "ABCDEFGHIJKLMNOPQRSTUVWXYZabcdefghijklmnopqrstuvwxyz0123456789+/".
Definition padding : ascii := "=".

(** [ALPHABET[usize::from(i)]]; the index is below 64 at every use. *)
Definition alphabet_at (i : Z) : ascii := default padding (ALPHABET !! Z.to_nat i).

(** [x << n] on [u8]: the bits that leave the byte are lost. *)
Definition shl8 (x n : Z) : Z := Z.land (Z.shiftl x n) 255.

(** The body of the loop over [input.chunks(3)]. *)
Definition encode_chunk (chunk : list ascii) : list ascii :=
  let first := default 0%Z (byte_of <$> chunk !! 0%nat) in
  let second := default 0%Z (byte_of <$> chunk !! 1%nat) in
  let third := default 0%Z (byte_of <$> chunk !! 2%nat) in
  [alphabet_at (Z.shiftr first 2);
   alphabet_at (Z.lor (shl8 (Z.land first 3) 4) (Z.shiftr second 4));
   if (1 <? length chunk)%nat then alphabet_at (Z.lor (shl8 (Z.land second 15) 2) (Z.shiftr third 6)) else padding;
   if (2 <? length chunk)%nat then alphabet_at (Z.land third 63) else padding].

Fixpoint encode_chunks (input : list ascii) : list ascii :=
  match input with
  | [] => []
  | a :: b :: c :: rest => encode_chunk [a; b; c] ++ encode_chunks rest
  | chunk => encode_chunk chunk
  end.

Definition encode_base64 (input : list ascii) : string := String.string_of_list_ascii (encode_chunks input).

Definition decode_digit (b : ascii) : option Z :=
  let x := byte_of b in
  if byte_in 65 90 b then Some (x - 65)%Z
  else if byte_in 97 122 b then Some (x - 97 + 26)%Z
  else if byte_in 48 57 b then Some (x - 48 + 52)%Z
  else if (x =? 43)%Z then Some 62%Z
  else if (x =? 47)%Z then Some 63%Z
  else None.

(** The body of the loop over [encoded.chunks_exact(4)]. *)
Definition decode_chunk (last : bool) (a b c d : ascii) : option (list ascii) :=
  a ← decode_digit a;
  b ← decode_digit b;
  let closing := bool_decide (d = padding) in
  c ← (if bool_decide (c = padding)
       then if negb last || negb closing || negb (Z.land b 15 =? 0)%Z then None else Some None
       else Some <$> decode_digit c);
  d ← (if closing
       then if negb last || match c with Some c => negb (Z.land c 3 =? 0)%Z | None => false end then None
            else Some None
       else match c with None => None | Some _ => Some <$> decode_digit d end);
  Some (byte_of_Z (Z.lor (shl8 a 2) (Z.shiftr b 4))
        :: match c with
           | None => []
           | Some c =>
               byte_of_Z (Z.lor (shl8 b 4) (Z.shiftr c 2))
               :: match d with None => [] | Some d => [byte_of_Z (Z.lor (shl8 c 6) d)] end
           end).

(** The loop; [index] counts the chunks done, of [total]. *)
Fixpoint decode_chunks (index total : nat) (encoded : list ascii) : option (list ascii) :=
  match encoded with
  | a :: b :: c :: d :: rest =>
      output ← decode_chunk (S index =? total)%nat a b c d;
      rest ← decode_chunks (S index) total rest;
      Some (output ++ rest)
  | _ => Some []
  end.

Definition decode_value (input : string) : result StorageProtocolError (list ascii) :=
  let encoded := bytes input in
  let n := length encoded in
  if (n =? 0)%nat || negb (n mod 4 =? 0)%nat || ((MAX_STORAGE_VALUE_BYTES + 2) / 3 * 4 <? n)%nat
  then Err SpInvalidValue
  else
    let? output := ok_or (decode_chunks 0 (n / 4) encoded) SpInvalidValue in
    if (length output =? 0)%nat || (MAX_STORAGE_VALUE_BYTES <? length output)%nat then Err SpInvalidValue
    else Ok output.

(** ** Checks *)

Definition storage_version_check (version : Z) : result StorageProtocolError unit :=
  if (version =? STORAGE_PROTOCOL_VERSION)%Z then Ok tt else Err (SpUnsupportedVersion version).

Definition valid_quota (app_id : string) (quota_bytes : Z) : bool :=
  if bool_decide (app_id = SYSTEM_PHOTO_LIBRARY_ID)
  then (quota_bytes =? SYSTEM_PHOTO_LIBRARY_QUOTA_BYTES)%Z
  else (MIB <=? quota_bytes)%Z && (quota_bytes <=? MAX_STORAGE_QUOTA_BYTES)%Z && (quota_bytes mod MIB =? 0)%Z.

Definition StorageRequest_validate (r : StorageRequest) : result StorageProtocolError unit :=
  let? _ := storage_version_check (sr_protocol_version r) in
  if negb (is_valid_app_id (sr_app_id r)) then Err SpInvalidAppId
  else
    let system_photo_library := bool_decide (sr_app_id r = SYSTEM_PHOTO_LIBRARY_ID) in
    if negb (valid_quota (sr_app_id r) (sr_quota_bytes r)) then Err SpInvalidQuota
    else
      match sr_command r with
      | ScPut key value => let? _ := validate_key key in let? _ := decode_value value in Ok tt
      | ScGet key | ScDelete key => validate_key key
      | ScPutBlobChunk key offset total value =>
          if negb system_photo_library || (total =? 0)%Z || (MAX_STORAGE_BLOB_BYTES <? total)%Z
          then Err SpInvalidValue
          else
            let? _ := validate_key key in
            let? value := decode_value value in
            if (length value =? 0)%nat || (total <=? offset)%Z || (total <? offset + Z.of_nat (length value))%Z
            then Err SpInvalidValue else Ok tt
      | ScGetBlobChunk key offset length =>
          let? _ := validate_key key in
          if negb system_photo_library || (length =? 0)%Z || (Z.of_nat MAX_STORAGE_VALUE_BYTES <? length)%Z
             || (MAX_STORAGE_BLOB_BYTES <? offset + length)%Z
          then Err SpInvalidValue else Ok tt
      | ScOpenBlob key expected =>
          let? _ := validate_key key in
          if negb system_photo_library || (expected =? 0)%Z || (MAX_STORAGE_BLOB_BYTES <? expected)%Z
          then Err SpInvalidValue else Ok tt
      | ScDeleteBlob key => if negb system_photo_library then Err SpInvalidValue else validate_key key
      | ScUsage => Ok tt
      end.

Definition StorageResponse_validate (r : StorageResponse) : result StorageProtocolError unit :=
  let? _ := storage_version_check (sp_protocol_version r) in
  match sp_outcome r with
  | SoStored used | SoDeleted _ used | SoUsage used =>
      if (SYSTEM_PHOTO_LIBRARY_QUOTA_BYTES <? used)%Z then Err SpInvalidUsage else Ok tt
  | SoValue value => let? _ := decode_value value in Ok tt
  | SoBlobOpened size =>
      if (size =? 0)%Z || (MAX_STORAGE_BLOB_BYTES <? size)%Z then Err SpInvalidValue else Ok tt
  | SoError _ message =>
      if str_is_empty message || (MAX_STORAGE_ERROR_CHARS <? chars_count message)%nat || has_control message
      then Err SpInvalidErrorMessage else Ok tt
  | SoNotFound => Ok tt
  end.

(** ** Constructors and framing *)

Definition storage_response (request_id : Z) (outcome : StorageOutcome) : StorageResponse :=
  mkStorageResponse STORAGE_PROTOCOL_VERSION request_id outcome.

Definition storage_request (request_id : Z) (app_id : string) (quota_bytes : Z) (c : StorageCommand)
    : StorageRequest :=
  mkStorageRequest STORAGE_PROTOCOL_VERSION request_id app_id quota_bytes c.

Definition StorageRequest_put (id : Z) (app : string) (quota : Z) (key : string) (value : list ascii) :=
  storage_request id app quota (ScPut key (encode_base64 value)).
Definition StorageRequest_put_blob_chunk (id : Z) (app : string) (quota : Z) (key : string) (offset total : Z)
    (value : list ascii) :=
  storage_request id app quota (ScPutBlobChunk key offset total (encode_base64 value)).
Definition StorageResponse_value (id : Z) (value : list ascii) : StorageResponse :=
  storage_response id (SoValue (encode_base64 value)).

Global Instance storage_frame_errors : FrameErrors StorageProtocolError :=
  {| frame_io := SpIo; frame_json := SpJson; frame_too_large := SpFrameTooLarge;
     frame_unterminated := SpUnterminatedFrame |}.

Definition storage_read_request (from_slice : list ascii → option StorageRequest) (r : Reader) :=
  read_message MAX_STORAGE_FRAME_BYTES StorageRequest_validate from_slice r.
Definition storage_write_request (to_vec : StorageRequest → option (list ascii)) (request : StorageRequest) :=
  write_message MAX_STORAGE_FRAME_BYTES StorageRequest_validate to_vec request.
Definition storage_read_response (from_slice : list ascii → option StorageResponse) (r : Reader) :=
  read_message MAX_STORAGE_FRAME_BYTES StorageResponse_validate from_slice r.
Definition storage_write_response (to_vec : StorageResponse → option (list ascii)) (response : StorageResponse) :=
  write_message MAX_STORAGE_FRAME_BYTES StorageResponse_validate to_vec response.

(** ** Base64 lemmas *)

(** Facts about small numbers, by evaluation. *)
Lemma every_small n (P : Z → Prop) `{∀ x, Decision (P x)} x :
  forallb (λ x, bool_decide (P x)) (seqZ 0 n) = true → (0 ≤ x < n)%Z → P x.
Proof.
  intros HP Hx. eapply bool_decide_unpack. eapply forallb_forall in HP; [by rewrite HP|].
  apply list_elem_of_In, elem_of_seqZ. lia.
Qed.

Lemma alphabet_digit i : (0 ≤ i < 64)%Z → decode_digit (alphabet_at i) = Some i ∧ alphabet_at i ≠ padding.
Proof. apply (every_small 64 (λ i, decode_digit (alphabet_at i) = Some i ∧ alphabet_at i ≠ padding)). by vm_compute. Qed.

Definition digit_ok (b : ascii) : Prop :=
  match decode_digit b with Some i => (0 ≤ i < 64)%Z ∧ alphabet_at i = b | None => True end.
Global Instance digit_ok_dec b : Decision (digit_ok b).
Proof. unfold digit_ok. destruct (decode_digit b); apply _. Defined.

Lemma digit_alphabet b i : decode_digit b = Some i → (0 ≤ i < 64)%Z ∧ alphabet_at i = b.
Proof.
  intros Hd. assert (digit_ok b) as Hb; [|unfold digit_ok in Hb; by rewrite Hd in Hb].
  rewrite <- (byte_of_Z_of b). apply (every_small 256 (λ x, digit_ok (byte_of_Z x))); [by vm_compute|].
  apply byte_of_range.
Qed.

(** The four sextets of three bytes, and the bytes of four sextets. *)
Definition sextet1 (f : Z) : Z := Z.shiftr f 2.
Definition sextet2 (f s : Z) : Z := Z.lor (shl8 (Z.land f 3) 4) (Z.shiftr s 4).
Definition sextet3 (s t : Z) : Z := Z.lor (shl8 (Z.land s 15) 2) (Z.shiftr t 6).
Definition sextet4 (t : Z) : Z := Z.land t 63.
Definition octet1 (a b : Z) : Z := Z.lor (shl8 a 2) (Z.shiftr b 4).
Definition octet2 (b c : Z) : Z := Z.lor (shl8 b 4) (Z.shiftr c 2).
Definition octet3 (c d : Z) : Z := Z.lor (shl8 c 6) d.

Section sextets.
  Local Open Scope Z_scope.
  Implicit Types (f s t a b c d : Z).

(** Setting low bits that are clear is an addition. *)
Lemma lor_low x y k : 0 ≤ k → 0 ≤ y < 2 ^ k → Z.lor (x * 2 ^ k) y = x * 2 ^ k + y.
Proof.
  intros Hk Hy. rewrite <- Z.shiftl_mul_pow2 by done. symmetry. rewrite Z.add_nocarry_lxor, Z.lxor_lor; [done|..].
  all: apply Z.bits_inj'; intros n Hn; rewrite Z.land_spec, Z.bits_0;
    destruct (Z.lt_ge_cases n k); [rewrite Z.shiftl_spec_low by done; done|].
  all: rewrite <- (Z.mod_small y (2 ^ k)) by done; rewrite Z.mod_pow2_bits_high by lia; apply andb_false_r.
Qed.

Lemma shl8_mul x n : 0 ≤ n → shl8 x n = (x * 2 ^ n) mod 256.
Proof. intros Hn. unfold shl8. rewrite Z.shiftl_mul_pow2 by done. by apply (Z.land_ones _ 8). Qed.

Lemma land_3 x : Z.land x 3 = x mod 4.
Proof. by apply (Z.land_ones x 2). Qed.
Lemma land_15 x : Z.land x 15 = x mod 16.
Proof. by apply (Z.land_ones x 4). Qed.

Lemma sextet1_arith f : sextet1 f = f / 4.
Proof. unfold sextet1. by rewrite Z.shiftr_div_pow2. Qed.
Lemma sextet2_arith f s : 0 ≤ s < 256 → sextet2 f s = f mod 4 * 16 + s / 16.
Proof.
  intros Hs. unfold sextet2. rewrite shl8_mul, Z.shiftr_div_pow2, land_3 by done.
  change (2 ^ 4) with 16. rewrite Z.mod_small by (Z.to_euclidean_division_equations; lia).
  apply (lor_low _ _ 4); [done|]. Z.to_euclidean_division_equations; lia.
Qed.
Lemma sextet3_arith s t : 0 ≤ t < 256 → sextet3 s t = s mod 16 * 4 + t / 64.
Proof.
  intros Ht. unfold sextet3. rewrite shl8_mul, Z.shiftr_div_pow2, land_15 by done.
  change (2 ^ 4) with 16. change (2 ^ 2) with 4. change (2 ^ 6) with 64.
  rewrite Z.mod_small by (Z.to_euclidean_division_equations; lia).
  apply (lor_low _ _ 2); [done|]. Z.to_euclidean_division_equations; lia.
Qed.
Lemma sextet4_arith t : sextet4 t = t mod 64.
Proof. apply (Z.land_ones t 6). done. Qed.
Lemma octet1_arith a b : 0 ≤ a < 64 → 0 ≤ b < 64 → octet1 a b = a * 4 + b / 16.
Proof.
  intros Ha Hb. unfold octet1. rewrite shl8_mul, Z.shiftr_div_pow2 by done.
  change (2 ^ 4) with 16. change (2 ^ 2) with 4. rewrite Z.mod_small by lia.
  apply (lor_low _ _ 2); [done|]. Z.to_euclidean_division_equations; lia.
Qed.
Lemma octet2_arith b c : 0 ≤ c < 64 → octet2 b c = b mod 16 * 16 + c / 4.
Proof.
  intros Hc. unfold octet2. rewrite shl8_mul, Z.shiftr_div_pow2 by done.
  change (2 ^ 4) with 16. change (2 ^ 2) with 4.
  replace ((b * 16) mod 256) with (b mod 16 * 16) by (Z.to_euclidean_division_equations; lia).
  apply (lor_low _ _ 4); [done|]. Z.to_euclidean_division_equations; lia.
Qed.
Lemma octet3_arith c d : 0 ≤ d < 64 → octet3 c d = c mod 4 * 64 + d.
Proof.
  intros Hd. unfold octet3. rewrite shl8_mul by done. change (2 ^ 6) with 64.
  replace ((c * 64) mod 256) with (c mod 4 * 64) by (Z.to_euclidean_division_equations; lia).
  by apply (lor_low _ _ 6).
Qed.

(** Three bytes survive their sextets and four sextets their bytes. *)
Ltac base64_arith :=
  intros; repeat rewrite ?sextet1_arith, ?sextet2_arith, ?sextet3_arith, ?sextet4_arith,
    ?octet1_arith, ?octet2_arith, ?octet3_arith by (try done; Z.to_euclidean_division_equations; lia);
  Z.to_euclidean_division_equations; lia.

Lemma sextet_ranges f s : 0 ≤ f < 256 → 0 ≤ s < 256 →
  0 ≤ sextet1 f < 64 ∧ 0 ≤ sextet2 f s < 64 ∧ 0 ≤ sextet3 f s < 64 ∧ 0 ≤ sextet4 f < 64.
Proof. base64_arith. Qed.
Lemma octet1_sextets f s : 0 ≤ f < 256 → 0 ≤ s < 256 → octet1 (sextet1 f) (sextet2 f s) = f.
Proof. base64_arith. Qed.
Lemma octet2_sextets f s t : 0 ≤ f < 256 → 0 ≤ s < 256 → 0 ≤ t < 256 → octet2 (sextet2 f s) (sextet3 s t) = s.
Proof. base64_arith. Qed.
Lemma octet3_sextets s t : 0 ≤ s < 256 → 0 ≤ t < 256 → octet3 (sextet3 s t) (sextet4 t) = t.
Proof. base64_arith. Qed.
Lemma octet_ranges a b : 0 ≤ a < 64 → 0 ≤ b < 64 →
  0 ≤ octet1 a b < 256 ∧ 0 ≤ octet2 a b < 256 ∧ 0 ≤ octet3 a b < 256.
Proof. base64_arith. Qed.
Lemma sextet1_octets a b : 0 ≤ a < 64 → 0 ≤ b < 64 → sextet1 (octet1 a b) = a.
Proof. base64_arith. Qed.
Lemma sextet2_octets a b c : 0 ≤ a < 64 → 0 ≤ b < 64 → 0 ≤ c < 64 → sextet2 (octet1 a b) (octet2 b c) = b.
Proof. base64_arith. Qed.
Lemma sextet2_octet1 a b : 0 ≤ a < 64 → 0 ≤ b < 64 → b mod 16 = 0 → sextet2 (octet1 a b) 0 = b.
Proof. base64_arith. Qed.
Lemma sextet3_octets b c d : 0 ≤ b < 64 → 0 ≤ c < 64 → 0 ≤ d < 64 → sextet3 (octet2 b c) (octet3 c d) = c.
Proof. base64_arith. Qed.
Lemma sextet3_octet2 b c : 0 ≤ b < 64 → 0 ≤ c < 64 → c mod 4 = 0 → sextet3 (octet2 b c) 0 = c.
Proof. base64_arith. Qed.
Lemma padded_sextets f : 0 ≤ f < 256 → sextet2 f 0 mod 16 = 0 ∧ sextet3 f 0 mod 4 = 0.
Proof. base64_arith. Qed.
Lemma sextet4_octets c d : 0 ≤ c < 64 → 0 ≤ d < 64 → sextet4 (octet3 c d) = d.
Proof. base64_arith. Qed.

End sextets.

Definition sextet (i : Z) : Prop := (0 ≤ i < 64)%Z.

(** What a chunk of four characters stands for. *)
Inductive chunk_decodes (last : bool) : list ascii → list ascii → Prop :=
  | Decodes3 i j k l : sextet i → sextet j → sextet k → sextet l →
      chunk_decodes last [alphabet_at i; alphabet_at j; alphabet_at k; alphabet_at l]
                         [byte_of_Z (octet1 i j); byte_of_Z (octet2 j k); byte_of_Z (octet3 k l)]
  | Decodes2 i j k : last = true → sextet i → sextet j → sextet k → (k mod 4 = 0)%Z →
      chunk_decodes last [alphabet_at i; alphabet_at j; alphabet_at k; padding]
                         [byte_of_Z (octet1 i j); byte_of_Z (octet2 j k)]
  | Decodes1 i j : last = true → sextet i → sextet j → (j mod 16 = 0)%Z →
      chunk_decodes last [alphabet_at i; alphabet_at j; padding; padding] [byte_of_Z (octet1 i j)].

Lemma decode_chunk_decodes last a b c d out :
  decode_chunk last a b c d = Some out ↔ chunk_decodes last [a; b; c; d] out.
Proof.
  unfold decode_chunk. split.
  - destruct (decode_digit a) as [i|] eqn:Ha; [|done]. destruct (decode_digit b) as [j|] eqn:Hb; [|done].
    apply digit_alphabet in Ha as [Hi <-], Hb as [Hj <-]. simpl.
    destruct (bool_decide (c = padding)) eqn:Hc; [apply bool_decide_eq_true in Hc as ->|].
    + destruct last; [|done]. destruct (bool_decide (d = padding)) eqn:Hd; [apply bool_decide_eq_true in Hd as ->|done].
      rewrite land_15. simpl.
      case_match eqn:Hz; [done|]. apply negb_false_iff, Z.eqb_eq in Hz. intros [= <-]. by constructor.
    + destruct (decode_digit c) as [k|] eqn:Hk; [|done]. apply digit_alphabet in Hk as [Hk <-]. simpl.
      destruct (bool_decide (d = padding)) eqn:Hd; [apply bool_decide_eq_true in Hd as ->|].
      * destruct last; [|done]. rewrite land_3. simpl. case_match eqn:Hz; [done|].
        apply negb_false_iff, Z.eqb_eq in Hz. intros [= <-]. by constructor.
      * destruct (decode_digit d) as [l|] eqn:Hl; [|done]. apply digit_alphabet in Hl as [Hl <-]. simpl.
        intros [= <-]. by constructor.
  - intros Hd. inversion Hd as [i j k l Hi Hj Hk Hl|i j k Hlast Hi Hj Hk Hz|i j Hlast Hi Hj Hz]; subst; clear Hd;
      repeat match goal with
      | Hs : sextet _ |- _ => destruct (alphabet_digit _ Hs) as [-> ?]; clear Hs; simpl
      end.
    + by rewrite !bool_decide_eq_false_2 by done.
    + rewrite bool_decide_eq_false_2 by done. simpl. by rewrite land_3, Hz.
    + by rewrite land_15, Hz.
Qed.

(** Encoding a chunk gives a text that decodes to it, and only that text. *)
Lemma encode_chunk_decodes last chunk :
  (1 ≤ length chunk ≤ 3)%nat → (length chunk < 3 → last = true)%nat → chunk_decodes last (encode_chunk chunk) chunk.
Proof.
  assert (0 ≤ 0 < 256)%Z as H0 by lia. pose proof byte_of_range as Hr.
  intros Hlen Hlast. destruct chunk as [|x [|y [|z [|? ?]]]]; simpl in Hlen, Hlast; try lia.
  - pose proof (Decodes1 last (sextet1 (byte_of x)) (sextet2 (byte_of x) 0)) as Hd.
    rewrite octet1_sextets, byte_of_Z_of in Hd by auto.
    apply Hd; [apply Hlast; lia|by apply (sextet_ranges _ 0)..|by apply padded_sextets].
  - pose proof (Decodes2 last (sextet1 (byte_of x)) (sextet2 (byte_of x) (byte_of y)) (sextet3 (byte_of y) 0)) as Hd.
    rewrite octet1_sextets, octet2_sextets, !byte_of_Z_of in Hd by auto.
    apply Hd; [apply Hlast; lia|by apply (sextet_ranges _ 0)|by apply sextet_ranges|by apply sextet_ranges|].
    by apply padded_sextets.
  - pose proof (Decodes3 last (sextet1 (byte_of x)) (sextet2 (byte_of x) (byte_of y))
      (sextet3 (byte_of y) (byte_of z)) (sextet4 (byte_of z))) as Hd.
    rewrite octet1_sextets, octet2_sextets, octet3_sextets, !byte_of_Z_of in Hd by auto.
    apply Hd; [by apply (sextet_ranges _ 0)|by apply sextet_ranges..|by apply (sextet_ranges _ 0)].
Qed.

Lemma byte_of_octet z : (0 ≤ z < 256)%Z → byte_of (byte_of_Z z) = z.
Proof. intros Hz. rewrite byte_of_of_Z. by apply Z.mod_small. Qed.

Lemma chunk_decodes_encode last chunk out :
  chunk_decodes last chunk out → encode_chunk out = chunk ∧ (1 ≤ length out ≤ 3)%nat ∧ (length out < 3 → last = true)%nat.
Proof.
  intros Hd. inversion Hd as [i j k l Hi Hj Hk Hl|i j k Hlast Hi Hj Hk Hz|i j Hlast Hi Hj Hz]; subst; clear Hd;
    (split; [|simpl; split; [lia|done||lia]]); unfold encode_chunk; cbn -[Z.shiftr Z.land Z.lor shl8 alphabet_at];
    rewrite !byte_of_octet by (by apply octet_ranges).
  - fold (sextet1 (octet1 i j)) (sextet2 (octet1 i j) (octet2 j k)) (sextet3 (octet2 j k) (octet3 k l)) (sextet4 (octet3 k l)).
    by rewrite sextet1_octets, sextet2_octets, sextet3_octets, sextet4_octets.
  - fold (sextet1 (octet1 i j)) (sextet2 (octet1 i j) (octet2 j k)) (sextet3 (octet2 j k) 0).
    by rewrite sextet1_octets, sextet2_octets, sextet3_octet2.
  - fold (sextet1 (octet1 i j)) (sextet2 (octet1 i j) 0). by rewrite sextet1_octets, sextet2_octet1.
Qed.

Lemma decode_chunks_cons index total a b c d rest out :
  decode_chunks index total (a :: b :: c :: d :: rest) = Some out ↔
  ∃ o1 o2, out = o1 ++ o2 ∧ chunk_decodes (S index =? total)%nat [a; b; c; d] o1 ∧
    decode_chunks (S index) total rest = Some o2.
Proof.
  cbn [decode_chunks]. split.
  - destruct (decode_chunk _ a b c d) as [o1|] eqn:H1; [|done]. apply decode_chunk_decodes in H1. cbn [mbind option_bind].
    destruct (decode_chunks (S index) total rest) as [o2|] eqn:H2; [|done]. intros [= <-]. by exists o1, o2.
  - intros (o1&o2&->&H1%decode_chunk_decodes&H2). rewrite H1. cbn [mbind option_bind]. by rewrite H2.
Qed.

Lemma length_encode_chunks l : length (encode_chunks l) = ((length l + 2) / 3 * 4)%nat.
Proof.
  induction l as [l IH] using (induction_ltof1 _ (@length ascii)). unfold ltof in IH.
  destruct l as [|x [|y [|z l]]]; [done..|]. change (encode_chunks (x :: y :: z :: l)) with (encode_chunk [x; y; z] ++ encode_chunks l).
  rewrite length_app, IH by (simpl; lia). cbn [length]. 
  replace (S (S (S (length l))) + 2)%nat with (1 * 3 + (length l + 2))%nat by lia. rewrite Nat.div_add_l by lia.
  change (length (encode_chunk [x; y; z])) with 4%nat. lia.
Qed.

Lemma decode_encode_chunks l index total :
  total = (index + (length l + 2) / 3)%nat → decode_chunks index total (encode_chunks l) = Some l.
Proof.
  revert index. induction l as [l IH] using (induction_ltof1 _ (@length ascii)). unfold ltof in IH. intros index Htotal.
  assert (∀ chunk, (1 ≤ length chunk < 3)%nat → encode_chunks chunk = encode_chunk chunk → l = chunk →
    decode_chunks index total (encode_chunks l) = Some l) as Hshort.
  { intros chunk Hlen Hc ->. rewrite Hc. unfold encode_chunk.
    apply decode_chunks_cons. exists chunk, []. rewrite app_nil_r. split_and!; [done| |done].
    apply encode_chunk_decodes; [lia|]. intros _. apply Nat.eqb_eq. subst total.
    assert (length chunk = 1 ∨ length chunk = 2)%nat as [->| ->] by lia;
      [change ((1 + 2) / 3)%nat with 1%nat|change ((2 + 2) / 3)%nat with 1%nat]; lia. }
  destruct l as [|x [|y [|z l]]]; [done|by apply (Hshort [x]); simpl; auto with lia|by apply (Hshort [x; y]); simpl; auto with lia|].
  change (encode_chunks (x :: y :: z :: l)) with (encode_chunk [x; y; z] ++ encode_chunks l).
  unfold encode_chunk at 1. cbn [app]. apply decode_chunks_cons. exists [x; y; z], l. split_and!; [done| |].
  - apply encode_chunk_decodes; simpl; lia.
  - apply IH; [simpl; lia|]. subst total. cbn [length].
    replace (S (S (S (length l))) + 2)%nat with (1 * 3 + (length l + 2))%nat by lia. rewrite Nat.div_add_l by lia. lia.
Qed.

Lemma encode_decode_chunks encoded index total out :
  length encoded = (4 * (total - index))%nat → decode_chunks index total encoded = Some out →
  encode_chunks out = encoded.
Proof.
  revert index out. induction encoded as [l IH] using (induction_ltof1 _ (@length ascii)). unfold ltof in IH.
  intros index out Hlen. destruct l as [|a [|b [|c [|d rest]]]]; simpl in Hlen; try lia; [by intros [= <-]|].
  intros (o1&o2&->&H1&H2)%decode_chunks_cons. apply chunk_decodes_encode in H1 as (Henc&Hl&Hlast).
  apply IH in H2; [|simpl; lia..].
  destruct (decide (length o1 = 3%nat)) as [H3|H3].
  - destruct o1 as [|x [|y [|z [|? ?]]]]; simpl in H3; try lia.
    change (encode_chunks ([x; y; z] ++ o2)) with (encode_chunk [x; y; z] ++ encode_chunks o2).
    by rewrite Henc, H2.
  - assert (rest = []) as ->.
    { destruct rest; [done|]. assert (S index = total) by (apply Nat.eqb_eq, Hlast; lia). simpl in Hlen. lia. }
    assert (o2 = []) as ->.
    { apply (f_equal length) in H2. rewrite length_encode_chunks in H2. cbn [length] in H2. destruct o2; [done|].
      cbn [length] in H2. pose proof (Nat.div_le_lower_bound (S (length o2) + 2) 3 1). lia. }
    rewrite app_nil_r. rewrite <- Henc. destruct o1 as [|x [|y [|z o1]]]; simpl in Hl, H3; try lia; done.
Qed.

Lemma decode_value_encode value :
  (1 ≤ length value ≤ MAX_STORAGE_VALUE_BYTES)%nat → decode_value (encode_base64 value) = Ok value.
Proof.
  intros Hlen. unfold decode_value, encode_base64, bytes. rewrite String.list_ascii_of_string_of_list_ascii.
  rewrite length_encode_chunks.
  assert (1 ≤ (length value + 2) / 3 ≤ (MAX_STORAGE_VALUE_BYTES + 2) / 3)%nat as Hn.
  { split; [apply Nat.div_le_lower_bound; lia|apply Nat.Div0.div_le_mono; lia]. }
  rewrite (proj2 (Nat.eqb_neq _ _)) by lia. rewrite Nat.Div0.mod_mul, Nat.eqb_refl. cbn [negb orb].
  rewrite (proj2 (Nat.ltb_ge _ _)) by lia. rewrite Nat.div_mul by lia.
  rewrite decode_encode_chunks by lia. cbn [ok_or].
  rewrite (proj2 (Nat.eqb_neq _ _)) by lia. rewrite (proj2 (Nat.ltb_ge _ _)) by lia. done.
Qed.

Lemma decode_value_Ok input value :
  decode_value input = Ok value → encode_base64 value = input ∧ (1 ≤ length value ≤ MAX_STORAGE_VALUE_BYTES)%nat.
Proof.
  unfold decode_value. case_match eqn:Hc; [done|]. unbool_hyps.
  destruct (decode_chunks 0 _ _) as [out|] eqn:Hd; [|done]. simpl. case_match eqn:Ho; [done|]. intros [= <-].
  unbool_hyps. split; [|lia]. unfold encode_base64. erewrite encode_decode_chunks; [|idtac|exact Hd].
  - apply String.string_of_list_ascii_of_string.
  - rewrite Nat.sub_0_r. by apply Nat.div_exact.
Qed.

(** ** Keys and paths *)

Lemma validate_key_Ok key :
  validate_key key = Ok tt →
  plain_name key ∧ starts_with_char dot key = false ∧ (1 ≤ String.length key ≤ MAX_STORAGE_KEY_BYTES)%nat.
Proof.
  unfold validate_key. case_match eqn:Hc; [done|]. intros _. unbool_hyps. split_and!; [|done|by destruct key; simpl in *; lia|lia].
  split_and!; [by intros ->..|]. eapply bytes_all_impl; [|done]. intros b Hb. apply negb_true_iff, bool_decide_eq_false_2.
  by intros ->.
Qed.

(** The key that a command names. *)
Definition command_key (c : StorageCommand) : option string :=
  match c with
  | ScPut key _ | ScGet key | ScDelete key | ScPutBlobChunk key _ _ _ | ScGetBlobChunk key _ _ | ScOpenBlob key _
  | ScDeleteBlob key => Some key
  | ScUsage => None
  end.

Lemma validated_request r :
  StorageRequest_validate r = Ok tt →
  is_valid_app_id (sr_app_id r) = true ∧ valid_quota (sr_app_id r) (sr_quota_bytes r) = true ∧
  (∀ key, command_key (sr_command r) = Some key → validate_key key = Ok tt).
Proof.
  unfold StorageRequest_validate. destruct (storage_version_check _) as [[]| |]; [|done..].
  destruct (is_valid_app_id _); [|done]. destruct (valid_quota _ _); [|done]. cbn [negb]. intros Hc. split_and!; [done..|].
  intros key Hkey. destruct (sr_command r); simplify_eq/=; repeat (case_match; simplify_eq/=); try done.
  all: by match goal with u : unit |- _ => destruct u end.
Qed.

(** ** Properties *)

(** Base64 is a bijection between the values a request may carry (1 to
    8192 bytes) and the texts [decode_value] accepts: every value decodes to
    itself, and every accepted text is the encoding of its value, so no two
    texts stand for the same value. *)
Theorem base64_bijection input value :
  decode_value input = Ok value ↔
  input = encode_base64 value ∧ (1 ≤ length value ≤ MAX_STORAGE_VALUE_BYTES)%nat.
Proof.
  split.
  - by intros [<- ?]%decode_value_Ok.
  - intros [-> Hlen]. by apply decode_value_encode.
Qed.

(** A storage request written to the socket is read back as the same
    request, however the bytes are split, and the reader is left behind it. *)
Lemma storage_request_roundtrip to_vec from_slice request bytes chunks rest :
  line_codec to_vec from_slice → storage_write_request to_vec request = Ok bytes →
  Forall (λ c, c ≠ []) chunks → concat chunks = bytes ++ rest →
  ∃ r', storage_read_request from_slice (reader_of chunks) = (Ok (Some request), r') ∧ reader_bytes r' = rest.
Proof. apply message_roundtrip. Qed.
