(* ===== verification/Storage.v ===== *)
(** * The private storage service (crates/cp0-storaged/src/lib.rs)

    Every application has one directory below the storage root, which holds a
    file per key; the system photo library may also hold blobs, which arrive in
    chunks and are staged under a hidden name.  Every operation here is the
    method of [StorageService] of the same name, on the disk of [HostFs]: any
    step may fail and the device may stop after any step.  [Space] stands for
    the kernel's [statvfs] and the system clock.  The connection loop and the
    passing of a descriptor are not modelled: [handle_request] is the decision
    [handle_connection] takes for a request that was read. *)

From S2P Require Import Prelude RustStr Bytes Manifest HostFs Framing StorageProtocol.

Definition DEFAULT_STORAGE_ROOT : string := "/var/lib/cardputerzero/data".
Definition MAX_STORAGE_KEYS : nat := 256.
Definition SYSTEM_FREE_SPACE_RESERVE_BYTES : Z := 64 * 1024 * 1024.

Inductive StorageServiceError :=
  | SsIo (e : IoError) | SsInsecureRoot | SsInsecureAppDirectory | SsInvalidEntry | SsTooManyKeys
  | SsQuotaExceeded | SsValueTooLarge | SsStatePoisoned.

Record StorageService := mkStorageService {
  ss_root : string;
  ss_owner_uid : Z;
  ss_poisoned : bool;
}.

(** [statvfs]: the free blocks and their size, as 64-bit numbers, for the
    current disk; the system clock in nanoseconds at a step of the run. *)
Class Space := {
  statvfs : Disk → Z * Z;
  clock_nanos : nat → Z;
}.

Notation io := (io_map_err SsIo).

(** [metadata.mode() & 0o077 != 0]. *)
Definition shared_mode (metadata : Metadata) : bool := negb (Z.land (md_mode metadata) 63 =? 0)%Z.
Definition file_len (value : list ascii) : Z := Z.of_nat (length value).

Section operations.
  Context `{Host} `{Space} (service : StorageService).

(** ** Helpers *)

Definition monotonic_nonce {E} : IO E Z := λ w, (Ok (clock_nanos (w_tick w)), w).

Definition verify_directory_metadata (metadata : Metadata) : result StorageServiceError unit :=
  if negb (bool_decide (md_kind metadata = Directory)) || negb (md_uid metadata =? ss_owner_uid service)%Z
     || shared_mode metadata
  then Err SsInsecureAppDirectory else Ok tt.

Definition verify_root : IO StorageServiceError unit :=
  let! metadata := io (fs_symlink_metadata (ss_root service)) in
  io_guard (negb (bool_decide (md_kind metadata = Directory)) || negb (md_uid metadata =? ss_owner_uid service)%Z
            || shared_mode metadata) SsInsecureRoot.

Definition ensure_app_directory (app_id : string) (create : bool) : IO StorageServiceError string :=
  let! _ := verify_root in
  let directory := path_join (ss_root service) app_id in
  io_try (fs_symlink_metadata directory) (λ found,
    match found with
    | Ok metadata => let! _ := io_lift (verify_directory_metadata metadata) in io_ret directory
    | Err NotFound =>
        if create then
          let! _ := io (fs_create_dir directory 448 (* 0o700 *)) in
          let! metadata := io (fs_symlink_metadata directory) in
          let! _ := io_lift (verify_directory_metadata metadata) in
          let! _ := io (fs_sync_directory (ss_root service)) in
          io_ret directory
        else io_err (SsIo NotFound)
    | Err e => io_err (SsIo e)
    | Panicked => io_lift Panicked
    end).

Definition app_directory (app_id : string) : IO StorageServiceError (option string) :=
  io_try (ensure_app_directory app_id false) (λ found,
    match found with
    | Ok directory => io_ret (Some directory)
    | Err (SsIo NotFound) => io_ret None
    | Err e => io_err e
    | Panicked => io_lift Panicked
    end).

(** The check that [open_value] and [open_blob] share, with the size limit. *)
Definition open_checked (path : string) (limit : Z) : IO StorageServiceError (option Z) :=
  io_try (fs_open_nofollow path) (λ opened,
    match opened with
    | Ok file =>
        let! metadata := io (fs_file_metadata file) in
        let! _ := io_guard (negb (bool_decide (md_kind metadata = RegularFile))
                            || negb (md_uid metadata =? ss_owner_uid service)%Z || shared_mode metadata
                            || (md_len metadata =? 0)%Z || (limit <? md_len metadata)%Z) SsInvalidEntry in
        io_ret (Some file)
    | Err NotFound => io_ret None
    | Err e => io_err (SsIo e)
    | Panicked => io_lift Panicked
    end).
Definition open_value (path : string) : IO StorageServiceError (option Z) :=
  open_checked path (Z.of_nat MAX_STORAGE_VALUE_BYTES).
Definition open_blob (path : string) : IO StorageServiceError (option Z) :=
  open_checked path MAX_STORAGE_BLOB_BYTES.

Definition remove_stale_blob (path : string) : IO StorageServiceError unit :=
  io_try (fs_symlink_metadata path) (λ found,
    match found with
    | Ok metadata =>
        let! _ := io_guard (negb (bool_decide (md_kind metadata = RegularFile))
                            || negb (md_uid metadata =? ss_owner_uid service)%Z || shared_mode metadata
                            || (MAX_STORAGE_BLOB_BYTES <? md_len metadata)%Z) SsInvalidEntry in
        io (fs_remove_file path)
    | Err NotFound => io_ret tt
    | Err e => io_err (SsIo e)
    | Panicked => io_lift Panicked
    end).

Definition saturating_mul_u64 (a b : Z) : Z := Z.min (a * b) u64_max.

Definition require_free_space (path : string) (write_bytes : Z) : IO StorageServiceError unit :=
  let! _ := io_guard (existsb (λ b, bool_decide (b = Ascii.zero)) (bytes path)) SsInvalidEntry in
  let! status := io (io_op (λ _ d, d) (λ d, (Ok (statvfs d), d))) in
  let available := saturating_mul_u64 status.1 status.2 in
  io_guard (available <? saturating_add_u64 write_bytes SYSTEM_FREE_SPACE_RESERVE_BYTES)%Z SsQuotaExceeded.

(** [entry.file_name().into_string()] for an entry of [directory]. *)
Definition entry_name (directory entry : string) : result StorageServiceError string :=
  match strip_prefix (directory +:+ "/") entry with
  | Some name => if valid_utf8 (bytes name) then Ok name else Err SsInvalidEntry
  | None => Err SsInvalidEntry
  end.

Definition TMP_PREFIX : string := ".cp0-tmp-".
Definition BLOB_PREFIX : string := ".cp0-blob-".

Fixpoint inspect_entries (directory : string) (allow_blobs : bool) (entries : list string) (used_bytes : Z)
    (keys : nat) : IO StorageServiceError (Z * nat) :=
  match entries with
  | [] => let! _ := io fs_next_entry in io_ret (used_bytes, keys)
  | entry :: entries =>
      let! _ := io fs_next_entry in
      let! name := io_lift (entry_name directory entry) in
      let! metadata := io (fs_symlink_metadata entry) in
      let staging_blob := starts_with BLOB_PREFIX name in
      let temporary_value := starts_with TMP_PREFIX name in
      let size_limit :=
        if allow_blobs && (staging_blob || (Z.of_nat MAX_STORAGE_VALUE_BYTES <? md_len metadata)%Z)
        then MAX_STORAGE_BLOB_BYTES else Z.of_nat MAX_STORAGE_VALUE_BYTES in
      let! _ := io_guard (negb (bool_decide (md_kind metadata = RegularFile))
                          || negb (md_uid metadata =? ss_owner_uid service)%Z || shared_mode metadata
                          || (md_len metadata =? 0)%Z || (size_limit <? md_len metadata)%Z) SsInvalidEntry in
      let! used_bytes := io_lift (ok_or (checked_add_u64 used_bytes (md_len metadata)) SsQuotaExceeded) in
      if temporary_value || staging_blob then inspect_entries directory allow_blobs entries used_bytes keys
      else
        let! _ := io_lift (map_err (λ _, SsInvalidEntry) (validate_key name)) in
        let keys := S keys in
        let! _ := io_guard (negb allow_blobs && (MAX_STORAGE_KEYS <? keys)%nat) SsTooManyKeys in
        inspect_entries directory allow_blobs entries used_bytes keys
  end.

Definition inspect_directory (directory : string) (allow_blobs : bool) : IO StorageServiceError (Z * nat) :=
  let! entries := io (fs_read_dir directory) in
  inspect_entries directory allow_blobs entries 0 0.

Fixpoint cleanup_entries (directory : string) (entries : list string) (removed : bool) : IO StorageServiceError bool :=
  match entries with
  | [] => let! _ := io fs_next_entry in io_ret removed
  | entry :: entries =>
      let! _ := io fs_next_entry in
      let! name := io_lift (entry_name directory entry) in
      match strip_prefix BLOB_PREFIX name with
      | None => cleanup_entries directory entries removed
      | Some key =>
          let! _ := io_lift (map_err (λ _, SsInvalidEntry) (validate_key key)) in
          let! _ := remove_stale_blob entry in
          cleanup_entries directory entries true
      end
  end.

Definition cleanup_staging_blobs (directory : string) : IO StorageServiceError unit :=
  let! entries := io (fs_read_dir directory) in
  let! removed := cleanup_entries directory entries false in
  if removed then io (fs_sync_directory directory) else io_ret tt.

Definition StorageService_initialize : IO StorageServiceError unit :=
  if ss_poisoned service then io_err SsStatePoisoned
  else
    let! _ := verify_root in
    let! directory := app_directory SYSTEM_PHOTO_LIBRARY_ID in
    match directory with
    | None => io_ret tt
    | Some directory => cleanup_staging_blobs directory
    end.

(** ** Values *)

Definition is_library (app_id : string) : bool := bool_decide (app_id = SYSTEM_PHOTO_LIBRARY_ID).
Definition checked_key (key : string) : IO StorageServiceError unit :=
  io_lift (map_err (λ _, SsInvalidEntry) (validate_key key)).

(** The size of the file that [open] finds, 0 when there is none. *)
Definition existing_size (opened : IO StorageServiceError (option Z)) : IO StorageServiceError Z :=
  let! found := opened in
  match found with
  | Some file => let! metadata := io (fs_file_metadata file) in io_ret (md_len metadata)
  | None => io_ret 0%Z
  end.

(** [used.checked_sub(existing).and_then(|used| used.checked_add(new))]. *)
Definition projected_usage (used existing new : Z) : result StorageServiceError Z :=
  if (used <? existing)%Z then Err SsQuotaExceeded
  else ok_or (checked_add_u64 (used - existing) new) SsQuotaExceeded.

Definition atomic_to_io (e : AtomicError) : StorageServiceError :=
  match e with AtomicIo e => SsIo e | _ => SsInvalidEntry end.

Definition temporary_value_name (nonce : Z) : string :=
  TMP_PREFIX +:+ decimal host_pid +:+ "-" +:+ decimal nonce.

Definition StorageService_put (app_id : string) (quota_bytes : Z) (key : string) (value : list ascii)
    : IO StorageServiceError Z :=
  let! _ := checked_key key in
  let! directory := ensure_app_directory app_id true in
  let system_library := is_library app_id in
  let! inspected := inspect_directory directory system_library in
  let destination := path_join directory key in
  let! existing := existing_size (open_value destination) in
  let! _ := io_guard (negb system_library && (existing =? 0)%Z && (MAX_STORAGE_KEYS <=? inspected.2)%nat) SsTooManyKeys in
  let! projected := io_lift (projected_usage inspected.1 existing (file_len value)) in
  let! _ := io_guard (quota_bytes <? projected)%Z SsQuotaExceeded in
  let! _ := require_free_space directory (file_len value) in
  let! nonce := monotonic_nonce in
  let temporary := path_join directory (temporary_value_name nonce) in
  io_try (io_map_err atomic_to_io (replace_steps temporary destination directory (Some value))) (λ result,
    match result with
    | Ok _ => io_ret projected
    | Err e => io_try (fs_remove_file temporary) (λ _, io_err e)
    | Panicked => io_lift Panicked
    end).

Definition StorageService_get (app_id key : string) : IO StorageServiceError (option (list ascii)) :=
  let! _ := checked_key key in
  let! directory := app_directory app_id in
  match directory with
  | None => io_ret None
  | Some directory =>
      let! file := open_value (path_join directory key) in
      match file with
      | None => io_ret None
      | Some file =>
          let! metadata := io (fs_file_metadata file) in
          let size := md_len metadata in
          let! _ := io_guard ((size =? 0)%Z || (Z.of_nat MAX_STORAGE_VALUE_BYTES <? size)%Z) SsValueTooLarge in
          let! contents := io (fs_read_to_end file) in
          let value := take (MAX_STORAGE_VALUE_BYTES + 1) contents in
          let! _ := io_guard (negb (file_len value =? size)%Z) SsInvalidEntry in
          io_ret (Some value)
      end
  end.

Definition StorageService_delete (app_id key : string) : IO StorageServiceError (bool * Z) :=
  let! _ := checked_key key in
  let! directory := app_directory app_id in
  match directory with
  | None => io_ret (false, 0%Z)
  | Some directory =>
      let path := path_join directory key in
      let! file := open_value path in
      match file with
      | None =>
          let! inspected := inspect_directory directory (is_library app_id) in
          io_ret (false, inspected.1)
      | Some _ =>
          let! _ := io (fs_remove_file path) in
          let! _ := io (fs_sync_directory directory) in
          let! inspected := inspect_directory directory (is_library app_id) in
          io_ret (true, inspected.1)
      end
  end.

Definition StorageService_usage (app_id : string) : IO StorageServiceError Z :=
  let! directory := app_directory app_id in
  match directory with
  | None => io_ret 0%Z
  | Some directory =>
      let! inspected := inspect_directory directory (is_library app_id) in
      io_ret inspected.1
  end.

(** ** Blobs of the photo library *)

(** The branch of [put_blob_chunk] for the first chunk. *)
Definition begin_blob (directory destination temporary : string) (quota_bytes total_bytes : Z)
    : IO StorageServiceError Z :=
  let! _ := remove_stale_blob temporary in
  let! inspected := inspect_directory directory true in
  let! existing := existing_size (open_blob destination) in
  let! projected := io_lift (projected_usage inspected.1 existing total_bytes) in
  let! _ := io_guard (quota_bytes <? projected)%Z SsQuotaExceeded in
  let! _ := require_free_space directory total_bytes in
  io_ret projected.

Definition StorageService_put_blob_chunk (app_id : string) (quota_bytes : Z) (key : string)
    (offset total_bytes : Z) (value : list ascii) : IO StorageServiceError Z :=
  let! _ := io_guard (negb (is_library app_id) || (length value =? 0)%nat || (total_bytes =? 0)%Z
                      || (MAX_STORAGE_BLOB_BYTES <? total_bytes)%Z || (total_bytes <? offset + file_len value)%Z)
                     SsInvalidEntry in
  let! _ := checked_key key in
  let! directory := ensure_app_directory app_id true in
  let destination := path_join directory key in
  let temporary := path_join directory (BLOB_PREFIX +:+ key) in
  let! projected := (if (offset =? 0)%Z then begin_blob directory destination temporary quota_bytes total_bytes
                     else io_ret (Z.min quota_bytes total_bytes)) in
  let! file := io (if (offset =? 0)%Z then fs_create_new temporary 384 (* 0o600 *) else fs_open_write_nofollow temporary) in
  let! metadata := io (fs_file_metadata file) in
  let! _ := io_guard (negb (bool_decide (md_kind metadata = RegularFile))
                      || negb (md_uid metadata =? ss_owner_uid service)%Z || shared_mode metadata
                      || negb (md_len metadata =? offset)%Z) SsInvalidEntry in
  let! _ := io (fs_write_at file (Z.to_nat offset) value) in
  if (offset + file_len value =? total_bytes)%Z then
    let! _ := io (fs_sync_all file) in
    let! _ := io (fs_rename temporary destination) in
    let! _ := io (fs_sync_directory directory) in
    StorageService_usage app_id
  else io_ret projected.

Definition StorageService_get_blob_chunk (app_id key : string) (offset length : Z)
    : IO StorageServiceError (option (list ascii)) :=
  let! _ := io_guard (negb (is_library app_id) || (length =? 0)%Z || (Z.of_nat MAX_STORAGE_VALUE_BYTES <? length)%Z)
                     SsInvalidEntry in
  let! _ := checked_key key in
  let! directory := app_directory app_id in
  match directory with
  | None => io_ret None
  | Some directory =>
      let! file := open_blob (path_join directory key) in
      match file with
      | None => io_ret None
      | Some file =>
          let! metadata := io (fs_file_metadata file) in
          let! _ := io_guard (md_len metadata <? offset + length)%Z SsInvalidEntry in
          let! value := io (fs_read_at file (Z.to_nat offset) (Z.to_nat length)) in
          io_ret (Some value)
      end
  end.

(** The descriptor is the inode that was opened. *)
Definition StorageService_open_blob_descriptor (app_id key : string) (expected_bytes : Z)
    : IO StorageServiceError (option Z) :=
  let! _ := io_guard (negb (is_library app_id) || (expected_bytes =? 0)%Z || (MAX_STORAGE_BLOB_BYTES <? expected_bytes)%Z)
                     SsInvalidEntry in
  let! _ := checked_key key in
  let! directory := app_directory app_id in
  match directory with
  | None => io_ret None
  | Some directory =>
      let! file := open_blob (path_join directory key) in
      match file with
      | None => io_ret None
      | Some file =>
          let! metadata := io (fs_file_metadata file) in
          let! _ := io_guard (negb (md_len metadata =? expected_bytes)%Z) SsInvalidEntry in
          io_ret (Some file)
      end
  end.

Definition StorageService_delete_blob (app_id key : string) : IO StorageServiceError (bool * Z) :=
  let! _ := io_guard (negb (is_library app_id)) SsInvalidEntry in
  let! _ := checked_key key in
  let! directory := app_directory app_id in
  match directory with
  | None => io_ret (false, 0%Z)
  | Some directory =>
      let destination := path_join directory key in
      let temporary := path_join directory (BLOB_PREFIX +:+ key) in
      let! found := open_blob destination in
      let! existed := (match found with
                       | Some _ => let! _ := io (fs_remove_file destination) in io_ret true
                       | None => io_ret false
                       end) in
      let! _ := io_try (fs_symlink_metadata temporary) (λ staged,
                  match staged with Ok _ => remove_stale_blob temporary | _ => io_ret tt end) in
      let! _ := (if existed then io (fs_sync_directory directory) else io_ret tt) in
      let! used_bytes := StorageService_usage app_id in
      io_ret (existed, used_bytes)
  end.

End operations.

(** ** Requests *)

Definition storage_error_response (request_id : Z) (error : StorageServiceError) : StorageResponse :=
  let '(code, message) :=
    match error with
    | SsQuotaExceeded | SsTooManyKeys => (ScQuotaExceeded, "private storage quota or key limit was reached")
    | SsIo PermissionDenied | SsIo NotFound => (ScUnavailable, "private storage is unavailable")
    | SsValueTooLarge => (ScInvalidRequest, "private storage value is invalid")
    | SsIo _ | SsInsecureRoot | SsInsecureAppDirectory | SsInvalidEntry | SsStatePoisoned =>
        (ScInternal, "private storage service failed internally")
    end in
  storage_response request_id (SoError code message).

Section dispatch.
  Context `{Host} `{Space} (service : StorageService).

Definition decoded (value_base64 : string) : IO StorageServiceError (list ascii) :=
  io_lift (map_err (λ _, SsValueTooLarge) (decode_value value_base64)).

Definition value_outcome (value : option (list ascii)) : StorageOutcome :=
  match value with Some value => SoValue (encode_base64 value) | None => SoNotFound end.

(** The [match] on the command; the descriptor is that of [OpenBlob]. *)
Definition run_storage_command (request : StorageRequest) : IO StorageServiceError (StorageOutcome * option Z) :=
  let app_id := sr_app_id request in
  match sr_command request with
  | ScPut key value_base64 =>
      let! value := decoded value_base64 in
      let! used := StorageService_put service app_id (sr_quota_bytes request) key value in
      io_ret (SoStored used, None)
  | ScGet key =>
      let! value := StorageService_get service app_id key in
      io_ret (value_outcome value, None)
  | ScDelete key =>
      let! deleted := StorageService_delete service app_id key in
      io_ret (SoDeleted deleted.1 deleted.2, None)
  | ScPutBlobChunk key offset total_bytes value_base64 =>
      let! value := decoded value_base64 in
      let! used := StorageService_put_blob_chunk service app_id (sr_quota_bytes request) key offset total_bytes value in
      io_ret (SoStored used, None)
  | ScGetBlobChunk key offset length =>
      let! value := StorageService_get_blob_chunk service app_id key offset length in
      io_ret (value_outcome value, None)
  | ScOpenBlob key expected_bytes =>
      let! descriptor := StorageService_open_blob_descriptor service app_id key expected_bytes in
      io_ret (match descriptor with Some _ => SoBlobOpened expected_bytes | None => SoNotFound end, descriptor)
  | ScDeleteBlob key =>
      let! deleted := StorageService_delete_blob service app_id key in
      io_ret (SoDeleted deleted.1 deleted.2, None)
  | ScUsage =>
      let! used := StorageService_usage service app_id in
      io_ret (SoUsage used, None)
  end.

(** [dispatch_with_descriptor]: the response and the descriptor.  An error
    never reaches the caller as such. *)
Definition StorageService_dispatch (request : StorageRequest) : IO StorageServiceError (StorageResponse * option Z) :=
  let request_id := sr_request_id request in
  if ss_poisoned service then io_ret (storage_error_response request_id SsStatePoisoned, None)
  else
    io_try (run_storage_command request) (λ result,
      match result with
      | Ok (outcome, descriptor) => io_ret (storage_response request_id outcome, descriptor)
      | Err e => io_ret (storage_error_response request_id e, None)
      | Panicked => io_lift Panicked
      end).

(** [handle_connection] after the request was read: only trusted peers are served. *)
Definition handle_request (trusted_uids : gset Z) (uid : Z) (request : result StorageProtocolError StorageRequest)
    : IO StorageServiceError (StorageResponse * option Z) :=
  match request with
  | Ok request =>
      if decide (uid ∈ trusted_uids) then StorageService_dispatch request
      else io_ret (storage_response (sr_request_id request)
                     (SoError ScUnauthorized "peer UID is not authorized for private storage access"), None)
  | Err _ => io_ret (storage_response 0 (SoError ScInvalidRequest "invalid storage service request"), None)
  | Panicked => io_lift Panicked
  end.

(** [serve]: connections are handled one after the other.  A connection is the
    peer and what was read from it. *)
Fixpoint serve (trusted_uids : gset Z) (connections : list (Z * result StorageProtocolError StorageRequest))
    : IO StorageServiceError (list StorageResponse) :=
  match connections with
  | [] => io_ret []
  | (uid, request) :: connections =>
      let! response := handle_request trusted_uids uid request in
      let! responses := serve trusted_uids connections in
      io_ret (response.1 :: responses)
  end.

End dispatch.
