(* ===== verification/StorageLogic.v ===== *)
(** * What the storage service never touches

    Two safety properties of [Storage], for any faults and any stop of the
    device, from one proof over all operations (the frames of [FsLogic]): a
    request changes nothing outside the directory of its application, and no
    request removes the empty temporary file that an interrupted [put] leaves,
    which is why the application cannot store anything from then on. *)

From S2P Require Import Prelude RustStr Bytes Manifest HostFs Framing FsLogic StorageProtocol Storage.

Section framed.
  Context `{Host} `{Space} (Hquiet : quiet _) (service : StorageService) (app_id : string).
  Context (I : Disk → Prop) (may : string → Prop) (own : Z → Prop) (Hframe : frame I may own).
Let dir : string := path_join (ss_root service) app_id.
  Context (Hdir : may dir).
  Context (Hkey : ∀ key, validate_key key = Ok tt → may (path_join dir key) ∧ may (path_join dir (BLOB_PREFIX +:+ key))).
  Context (Htmp : ∀ lib, safe I (inspect_directory service dir lib)
                            (λ _, ∀ nonce, may (path_join dir (temporary_value_name nonce)))).
  Local Notation safe := (safe I).

Lemma safe_verify_root : safe (verify_root service) (λ _, True).
Proof. unfold verify_root. safe_steps. Qed.

Lemma safe_ensure_app_directory create :
  safe (ensure_app_directory service app_id create) (λ directory, directory = dir).
Proof.
  unfold ensure_app_directory. fold dir. apply safe_then; [apply safe_verify_root|intros _]. cbv zeta.
  safe_steps. by apply (frame_create_dir Hquiet _ _ _ Hframe).
Qed.

Lemma safe_app_directory :
  safe (app_directory service app_id) (λ o, ∀ directory, o = Some directory → directory = dir).
Proof.
  unfold app_directory. eapply safe_try; [apply safe_ensure_app_directory|]. intros r Hr.
  safe_steps. apply safe_ret. intros ? [= <-]. by apply Hr.
Qed.

Lemma safe_open_checked path limit : safe (open_checked service path limit) (λ _, True).
Proof. unfold open_checked. safe_steps. Qed.

Lemma safe_existing_size opened : safe opened (λ _, True) → safe (existing_size opened) (λ _, True).
Proof. intros Ho. unfold existing_size. apply safe_then; [done|intros ?]. safe_steps. Qed.

Lemma safe_remove_stale_blob path : may path → safe (remove_stale_blob service path) (λ _, True).
Proof. intros Hp. unfold remove_stale_blob. safe_steps. by apply (frame_remove_file Hquiet _ _ _ Hframe). Qed.

Lemma safe_require_free_space path n : safe (require_free_space path n) (λ _, True).
Proof. unfold require_free_space. safe_steps. Qed.

Lemma safe_inspect lib : safe (inspect_directory service dir lib) (λ _, True).
Proof. eapply safe_any, Htmp. Qed.

(** The key was checked: the rest may rely on it. *)
Lemma safe_checked {A} key (k : unit → IO StorageServiceError A) ψ :
  (validate_key key = Ok tt → safe (k tt) ψ) → safe (io_bind (checked_key key) k) ψ.
Proof.
  intros Hk. eapply (safe_bind _ _ _ (λ _, validate_key key = Ok tt)).
  - apply safe_lift. intros [] ?. by destruct (validate_key key) as [[]| |].
  - intros [] ?. by apply Hk.
Qed.

Lemma safe_put quota key value : safe (StorageService_put service app_id quota key value) (λ _, True).
Proof.
  unfold StorageService_put. apply safe_checked. intros Hvalid.
  eapply safe_bind; [apply safe_ensure_app_directory|]. intros ? ->. cbv zeta.
  eapply safe_bind; [apply Htmp|]. intros inspected Hmay.
  apply safe_then; [apply safe_existing_size, safe_open_checked|intros existing].
  do 3 (apply safe_then; [safe_steps|intros ?]).
  apply safe_then; [apply safe_require_free_space|intros _].
  eapply (safe_bind _ _ _ (λ _, True)).
  { intros w Hw. exists []. split_and!; [done|constructor|done|done]. }
  intros nonce _. cbv zeta. apply safe_or.
  - apply safe_map_err. apply (frame_replace_steps Hquiet _ _ _ Hframe); [apply Hmay|by apply Hkey].
  - intros [[]|e|]; safe_steps. by apply (frame_remove_file Hquiet _ _ _ Hframe).
Qed.

Lemma safe_get key : safe (StorageService_get service app_id key) (λ _, True).
Proof.
  unfold StorageService_get. apply safe_checked. intros Hvalid.
  apply safe_then; [eapply safe_any, safe_app_directory|intros o]. safe_steps. apply safe_open_checked.
Qed.

Lemma safe_usage : safe (StorageService_usage service app_id) (λ _, True).
Proof.
  unfold StorageService_usage. eapply safe_bind; [apply safe_app_directory|]. intros [directory|] Ho; [|safe_steps].
  rewrite (Ho _ eq_refl). safe_steps. apply safe_inspect.
Qed.

Lemma safe_delete key : safe (StorageService_delete service app_id key) (λ _, True).
Proof.
  unfold StorageService_delete. apply safe_checked. intros Hvalid.
  eapply safe_bind; [apply safe_app_directory|]. intros [directory|] Ho; [|safe_steps].
  rewrite (Ho _ eq_refl). cbv zeta. apply safe_then; [apply safe_open_checked|intros file].
  destruct file; safe_steps; try apply safe_inspect. by apply (frame_remove_file Hquiet _ _ _ Hframe), Hkey.
Qed.

Lemma safe_begin_blob destination temporary quota total :
  may temporary → safe (begin_blob service dir destination temporary quota total) (λ _, True).
Proof.
  intros Ht. unfold begin_blob. apply safe_then; [by apply safe_remove_stale_blob|intros _].
  apply safe_then; [apply safe_inspect|intros ?].
  apply safe_then; [apply safe_existing_size, safe_open_checked|intros ?].
  do 2 (apply safe_then; [safe_steps|intros ?]).
  apply safe_then; [apply safe_require_free_space|intros _]. safe_steps.
Qed.

Lemma safe_put_blob_chunk quota key offset total value :
  safe (StorageService_put_blob_chunk service app_id quota key offset total value) (λ _, True).
Proof.
  unfold StorageService_put_blob_chunk. apply safe_then; [safe_steps|intros _].
  apply safe_checked. intros Hvalid. destruct (Hkey key Hvalid) as [Hmk Hmb].
  eapply safe_bind; [apply safe_ensure_app_directory|]. intros ? ->. cbv zeta.
  apply safe_then; [case_match; [by apply safe_begin_blob|safe_steps]|intros projected].
  eapply (safe_bind _ _ _ own).
  { apply safe_map_err. case_match; [by apply (frame_create_new Hquiet _ _ _ Hframe)|].
    by apply (frame_open_write Hquiet _ _ _ Hframe). }
  intros file Hown. do 2 (apply safe_then; [safe_steps|intros ?]).
  apply safe_then; [by apply safe_map_err, (frame_write_at Hquiet _ _ _ Hframe)|intros _].
  case_match; [|safe_steps].
  apply safe_then; [by apply safe_map_err, (frame_sync_all Hquiet _ _ _ Hframe)|intros _].
  apply safe_then; [by apply safe_map_err, (frame_rename Hquiet _ _ _ Hframe)|intros _].
  apply safe_then; [safe_steps|intros _]. apply safe_usage.
Qed.

Lemma safe_get_blob_chunk key offset length :
  safe (StorageService_get_blob_chunk service app_id key offset length) (λ _, True).
Proof.
  unfold StorageService_get_blob_chunk. apply safe_then; [safe_steps|intros _].
  apply safe_checked. intros Hvalid.
  apply safe_then; [eapply safe_any, safe_app_directory|intros o]. safe_steps. apply safe_open_checked.
Qed.

Lemma safe_open_blob_descriptor key expected :
  safe (StorageService_open_blob_descriptor service app_id key expected) (λ _, True).
Proof.
  unfold StorageService_open_blob_descriptor. apply safe_then; [safe_steps|intros _].
  apply safe_checked. intros Hvalid.
  apply safe_then; [eapply safe_any, safe_app_directory|intros o]. safe_steps. apply safe_open_checked.
Qed.

Lemma safe_delete_blob key : safe (StorageService_delete_blob service app_id key) (λ _, True).
Proof.
  unfold StorageService_delete_blob. apply safe_then; [safe_steps|intros _].
  apply safe_checked. intros Hvalid. destruct (Hkey key Hvalid) as [Hmk Hmb].
  eapply safe_bind; [apply safe_app_directory|]. intros [directory|] Ho; [|safe_steps].
  rewrite (Ho _ eq_refl). cbv zeta. apply safe_then; [apply safe_open_checked|intros found].
  apply safe_then; [destruct found; safe_steps; by apply (frame_remove_file Hquiet _ _ _ Hframe)|intros existed].
  apply safe_then; [safe_steps; by apply safe_remove_stale_blob|intros _].
  apply safe_then; [safe_steps|intros _]. safe_steps. apply safe_usage.
Qed.

Lemma safe_cleanup_entries entries removed :
  (∀ key, validate_key key = Ok tt → may (dir +:+ "/" +:+ BLOB_PREFIX +:+ key)) →
  safe (cleanup_entries service dir entries removed) (λ _, True).
Proof.
  intros Hblob. revert removed. induction entries as [|entry entries IH]; intros removed; cbn [cleanup_entries]; [safe_steps|].
  apply safe_then; [safe_steps|intros _].
  eapply (safe_bind _ _ _ (λ name, entry = dir +:+ "/" +:+ name)).
  { apply safe_lift. intros name Hn. unfold entry_name in Hn.
    destruct (strip_prefix _ entry) as [t|] eqn:Hs; [|done]. apply strip_prefix_Some in Hs. case_match; simplify_eq.
    by rewrite str_app_assoc. }
  intros name ->. destruct (strip_prefix BLOB_PREFIX name) as [key|] eqn:Hs; [|apply IH].
  apply strip_prefix_Some in Hs as ->. apply (safe_checked key). intros Hk.
  apply safe_then; [by apply safe_remove_stale_blob, Hblob|intros _]. apply IH.
Qed.

Lemma safe_initialize :
  app_id = SYSTEM_PHOTO_LIBRARY_ID →
  (∀ key, validate_key key = Ok tt → may (dir +:+ "/" +:+ BLOB_PREFIX +:+ key)) →
  safe (StorageService_initialize service) (λ _, True).
Proof.
  intros Hlib Hblob. unfold StorageService_initialize. case_match; [safe_steps|].
  apply safe_then; [apply safe_verify_root|intros _]. rewrite <- Hlib.
  eapply safe_bind; [apply safe_app_directory|]. intros [directory|] Ho; [|safe_steps]. rewrite (Ho _ eq_refl).
  unfold cleanup_staging_blobs. apply safe_then; [safe_steps|intros entries].
  apply safe_then; [by apply safe_cleanup_entries|intros removed]. safe_steps.
Qed.

Lemma safe_dispatch request :
  sr_app_id request = app_id → safe (StorageService_dispatch service request) (λ _, True).
Proof.
  intros Happ. unfold StorageService_dispatch. cbv zeta. case_match; [safe_steps|]. apply safe_or.
  - unfold run_storage_command. rewrite Happ. cbv zeta.
    case_match; safe_steps; try (by apply safe_lift); eauto using safe_put, safe_get, safe_delete, safe_usage,
      safe_put_blob_chunk, safe_get_blob_chunk, safe_open_blob_descriptor, safe_delete_blob.
  - intros [[]| |]; safe_steps.
Qed.

End framed.

(** ** Names *)

Lemma key_plain key : validate_key key = Ok tt → plain_name key.
Proof. intros Hk. by apply validate_key_Ok. Qed.

Lemma prefixed_plain p s :
  (2 < String.length p)%nat → bytes_all (λ a, negb (bool_decide (a = slash))) p = true →
  bytes_all (λ a, negb (bool_decide (a = slash))) s = true → plain_name (p +:+ s).
Proof.
  intros Hlen Hp Hs. split_and!; [..|by rewrite bytes_all_app, Hp, Hs];
    intros Heq; apply (f_equal String.length) in Heq; rewrite str_length_app in Heq; simpl in Heq; lia.
Qed.

Lemma blob_plain key : validate_key key = Ok tt → plain_name (BLOB_PREFIX +:+ key).
Proof. intros Hk. apply prefixed_plain; [by vm_compute; lia|by vm_compute|]. by apply key_plain. Qed.

Lemma temporary_value_plain `{Host} nonce : plain_name (temporary_value_name nonce).
Proof.
  apply prefixed_plain; [by vm_compute; lia|by vm_compute|]. rewrite !bytes_all_app.
  by rewrite !decimal_no_slash.
Qed.

(** Paths in the directories of two applications are equal only for the same
    application and name. *)
Lemma app_paths_inj root a b s t :
  plain_name a → plain_name b → path_join root a +:+ "/" +:+ s = path_join root b +:+ "/" +:+ t → a = b ∧ s = t.
Proof.
  intros Ha Hb. rewrite !path_join_plain, !str_app_assoc by done. intros Heq. apply (inj _) in Heq.
  apply plain_app_slash in Heq; [done|apply Ha|apply Hb].
Qed.

Lemma under_cases dir q : under dir q = true → q = dir ∨ ∃ s, q = dir +:+ "/" +:+ s.
Proof.
  unfold under, below, starts_with. rewrite orb_true_iff, !bool_decide_eq_true. intros [->|[s Hs]]; [by left|].
  apply strip_prefix_Some in Hs. right. exists s. by rewrite Hs, str_app_assoc.
Qed.
Lemma under_entry dir s : under dir (dir +:+ "/" +:+ s) = true.
Proof. unfold under, below. rewrite <- str_app_assoc, starts_with_app. apply orb_true_r. Qed.
Lemma under_refl dir : under dir dir = true.
Proof. unfold under. by rewrite bool_decide_eq_true_2. Qed.

Lemma app_directories_disjoint root a b q :
  plain_name a → plain_name b → a ≠ b → under (path_join root a) q = true → under (path_join root b) q = false.
Proof.
  intros Ha Hb Hne H1. destruct (under (path_join root b) q) eqn:H2; [|done]. destruct Hne.
  rewrite path_join_plain in H1, H2 by done.
  apply under_cases in H1 as [->|[s ->]], H2 as [Heq|[t Heq]]; rewrite ?str_app_assoc in Heq; apply (inj _) in Heq.
  - done.
  - by apply plain_no_slash in Heq; [|apply Ha].
  - symmetry in Heq. by apply plain_no_slash in Heq; [|apply Hb].
  - by apply plain_app_slash in Heq as [-> _]; [|apply Ha|apply Hb].
Qed.

(** ** Isolation *)

(** No file of the directory is also linked from outside of it. *)
Definition unshared (dir : string) (d : Disk) : Prop :=
  ∀ p q i, under dir p = true → under dir q = false → d_names d !! p = Some i → d_names d !! q ≠ Some i.

Lemma confined_start dir d : disk_wf d → unshared dir d → confined dir d d.
Proof.
  intros Hwf Hu. split; [done..|]. intros p i Hp Hi q Hq. apply (Hu p); [|done..].
  unfold outside in Hp. by destruct (under dir p).
Qed.

Section isolation.
  Context `{Host} `{Space} (Hquiet : quiet _) (service : StorageService).

(** What a frame of the directory needs holds for the paths below it. *)
Lemma entry_paths app_id :
  is_valid_app_id app_id = true →
  let dir := path_join (ss_root service) app_id in
  (∀ key, validate_key key = Ok tt →
     path_join dir key = dir +:+ "/" +:+ key ∧ path_join dir (BLOB_PREFIX +:+ key) = dir +:+ "/" +:+ (BLOB_PREFIX +:+ key)) ∧
  (∀ nonce, path_join dir (temporary_value_name nonce) = dir +:+ "/" +:+ temporary_value_name nonce).
Proof.
  intros Happ dir. pose proof (app_id_plain _ Happ). split.
  - intros key Hk. split; apply path_join_entry; auto using key_plain, blob_plain.
  - intros nonce. apply path_join_entry; auto using temporary_value_plain.
Qed.

(** Inspecting a directory only reads. *)
Lemma inspect_reads I dir lib : safe I (inspect_directory service dir lib) (λ _, True).
Proof.
  unfold inspect_directory. apply safe_then; [safe_steps|]. intros entries.
  generalize 0%Z 0%nat. induction entries as [|entry entries IH]; intros used keys; cbn [inspect_entries]; [safe_steps|].
  safe_steps; apply IH.
Qed.

Lemma dispatch_confined request d0 :
  StorageRequest_validate request = Ok tt →
  safe (confined (path_join (ss_root service) (sr_app_id request)) d0) (StorageService_dispatch service request) (λ _, True).
Proof.
  intros (Happ&_&_)%validated_request. set (dir := path_join _ _).
  destruct (entry_paths _ Happ) as [Hkeys Htmps]. fold dir in Hkeys, Htmps.
  assert (∀ s, ¬ outside dir (dir +:+ "/" +:+ s)) as Hin by (intros s; unfold outside; by rewrite under_entry).
  eapply (safe_dispatch Hquiet service (sr_app_id request)); [apply kept_frame|..]; fold dir.
  - intros Ho. unfold outside in Ho. by rewrite under_refl in Ho.
  - intros key Hk. destruct (Hkeys key Hk) as [-> ->]. auto.
  - intros lib. eapply safe_weaken; [apply inspect_reads|]. intros _ _ nonce. rewrite Htmps. apply Hin.
  - done.
Qed.

(** ** An interrupted [put] *)

Lemma storage_key_not_hidden key s : validate_key key = Ok tt → key ≠ String dot s.
Proof.
  intros (_&Hd&_)%validate_key_Ok ->. by apply bool_decide_eq_false in Hd.
Qed.

Section stale.
  Context (app_id : string) (Happ : is_valid_app_id app_id = true) (nonce : Z).
Let dir : string := path_join (ss_root service) app_id.
Let stale : string := path_join dir (temporary_value_name nonce).
  Context (i : Z) (n : Inode) (Hempty : i_data n = []).

Lemma stale_path : stale = dir +:+ "/" +:+ temporary_value_name nonce.
Proof. by apply entry_paths. Qed.

(** No inspection of the directory succeeds: the empty entry is invalid. *)
Lemma inspect_entries_stale lib entries used keys :
  safe (pinned stale i n) (inspect_entries service dir lib entries used keys) (λ _, stale ∉ entries).
Proof.
  revert used keys. induction entries as [|entry entries IH]; intros used keys; cbn [inspect_entries].
  { safe_steps. apply safe_ret. apply not_elem_of_nil. }
  apply safe_then; [safe_steps|intros _]. apply safe_then; [safe_steps|intros name].
  eapply safe_bind; [by apply safe_map_err, safe_fs_symlink_metadata|]. intros md (d&j&m&Hd&Hn&Hmd). cbv zeta.
  eapply safe_bind; [apply safe_guard|]. intros [] Hguard. cbv beta in Hguard.
  assert (stale ≠ entry) as Hne.
  { intros Heq. rewrite <- Heq in Hn. unfold node_at in Hn. rewrite (pn_name _ _ _ _ Hd), (pn_inode _ _ _ _ Hd) in Hn.
    injection Hn as _ Hm. assert (md_len md = 0%Z) as Hlen by (by rewrite Hmd, <- Hm; simpl; rewrite Hempty).
    rewrite Hlen in Hguard. unbool_hyps. done. }
  assert (∀ u k, safe (pinned stale i n) (inspect_entries service dir lib entries u k) (λ _, stale ∉ entry :: entries)) as Hrest.
  { intros u k. eapply safe_weaken; [apply IH|]. intros ? Hnot. cbv beta in Hnot. by apply not_elem_of_cons. }
  safe_steps; apply Hrest.
Qed.

Lemma inspect_stale lib : safe (pinned stale i n) (inspect_directory service dir lib) (λ _, False).
Proof.
  unfold inspect_directory. eapply safe_bind; [by apply safe_map_err, safe_fs_read_dir|].
  intros entries (d&Hd&Hl). eapply safe_weaken; [apply inspect_entries_stale|]. intros ? Hnot. cbv beta in Hnot. apply Hnot, Hl.
  split; [rewrite (pn_name _ _ _ _ Hd); eauto|]. rewrite stale_path. unfold child_of.
  rewrite <- str_app_assoc, strip_prefix_app. pose proof (temporary_value_plain nonce) as (Hne&_&_&Hs).
  rewrite Hs. by destruct (temporary_value_name nonce).
Qed.

Lemma app_directory_not_stale app : is_valid_app_id app = true → path_join (ss_root service) app ≠ stale.
Proof.
  intros Hreq. pose proof (app_id_plain _ Happ) as Hpa. pose proof (app_id_plain _ Hreq) as Hpr.
  rewrite stale_path. intros Heq. assert (under dir (path_join (ss_root service) app) = true) as Hu
    by (rewrite Heq; apply under_entry).
  destruct (decide (app = app_id)) as [Hsame|Hdiff].
  - apply (f_equal String.length) in Heq. rewrite Hsame, str_length_app in Heq. simpl in Heq. unfold dir in Heq. lia.
  - apply (app_directories_disjoint (ss_root service) _ app) in Hu; [|done..|done]. by rewrite under_refl in Hu.
Qed.

(** Nothing that a request of any application does removes or fills the file. *)
Lemma dispatch_stale request :
  StorageRequest_validate request = Ok tt →
  safe (pinned stale i n) (StorageService_dispatch service request) (λ _, True).
Proof.
  intros (Hreq&_&_)%validated_request. destruct (entry_paths _ Hreq) as [Hkeys Htmps].
  pose proof (app_id_plain _ Happ) as Hpa. pose proof (app_id_plain _ Hreq) as Hpr.
  assert (∀ s, path_join (ss_root service) (sr_app_id request) +:+ "/" +:+ s = stale →
    sr_app_id request = app_id ∧ s = temporary_value_name nonce) as Hinj.
  { intros s. rewrite stale_path. by apply app_paths_inj. }
  eapply (safe_dispatch Hquiet service (sr_app_id request)); [apply pinned_frame| | | |done].
  - by apply app_directory_not_stale.
  - intros key Hk. destruct (Hkeys key Hk) as [-> ->]. split; intros [_ Heq]%Hinj.
    + by apply (storage_key_not_hidden key) in Heq.
    + done.
  - intros lib. destruct (decide (sr_app_id request = app_id)) as [->|Hdiff].
    + eapply safe_weaken; [apply inspect_stale|]. done.
    + eapply safe_weaken; [apply inspect_reads|]. intros _ _ m. rewrite Htmps. by intros [? _]%Hinj.
Qed.

(** A restart does not remove it either: only staged blobs are cleaned up. *)
Lemma initialize_stale : safe (pinned stale i n) (StorageService_initialize service) (λ _, True).
Proof.
  assert (is_valid_app_id SYSTEM_PHOTO_LIBRARY_ID = true) as Hlib by (by vm_compute).
  apply (safe_initialize Hquiet service SYSTEM_PHOTO_LIBRARY_ID _ _ _ (pinned_frame stale i n)); [|done|].
  - by apply app_directory_not_stale.
  - intros key _. rewrite stale_path. by intros [_ Heq]%app_paths_inj; [|by apply app_id_plain..].
Qed.

Lemma put_stale quota key value :
  safe (pinned stale i n) (StorageService_put service app_id quota key value) (λ _, False).
Proof.
  unfold StorageService_put. apply safe_checked. intros _.
  eapply safe_bind; [apply (safe_ensure_app_directory Hquiet service app_id _ _ _ (pinned_frame stale i n))|].
  { by apply app_directory_not_stale. }
  intros ? ->. cbv zeta. eapply safe_bind; [apply inspect_stale|]. done.
Qed.

Definition refused (response : StorageResponse) : Prop := ∃ code message, sp_outcome response = SoError code message.
Definition is_put (c : StorageCommand) : bool := match c with ScPut _ _ => true | _ => false end.

Lemma error_refused id e : refused (storage_error_response id e).
Proof. unfold refused, storage_error_response. destruct e as [[]| | | | | | |]; simpl; eauto. Qed.

Lemma dispatch_put_stale request :
  sr_app_id request = app_id → is_put (sr_command request) = true →
  safe (pinned stale i n) (StorageService_dispatch service request) (λ r, refused r.1).
Proof.
  intros Hreq Hput. unfold StorageService_dispatch. cbv zeta. case_match; [apply safe_ret, error_refused|].
  eapply (safe_try _ _ _ (λ _, False)).
  - unfold run_storage_command. destruct (sr_command request); try done. rewrite Hreq.
    apply safe_then; [by apply safe_lift|intros value]. eapply safe_bind; [apply put_stale|]. done.
  - intros [r|e|] Hr; [by destruct (Hr r)|apply safe_ret, error_refused|by apply safe_lift].
Qed.

(** What is read from a connection passed the check of [read_request]. *)
Definition validated (request : result StorageProtocolError StorageRequest) : Prop :=
  ∀ r, request = Ok r → StorageRequest_validate r = Ok tt.

Lemma handle_stale trusted uid request :
  validated request →
  safe (pinned stale i n) (handle_request service trusted uid request)
    (λ response, ∀ r, request = Ok r → sr_app_id r = app_id → is_put (sr_command r) = true → refused response.1).
Proof.
  intros Hv. unfold handle_request. destruct request as [r|e|]; [|by apply safe_ret|by apply safe_lift].
  case_decide.
  - destruct (decide (sr_app_id r = app_id ∧ is_put (sr_command r) = true)) as [[??]|Hno].
    + eapply safe_weaken; [by apply dispatch_put_stale|]. intros a Ha ? [= <-]. done.
    + eapply safe_weaken; [by apply dispatch_stale, Hv|]. intros a _ ? [= <-] ??. by destruct Hno.
  - apply safe_ret. intros ? [= <-] _ _. unfold refused. simpl. eauto.
Qed.

Lemma serve_stale trusted connections :
  Forall (λ c, validated c.2) connections →
  safe (pinned stale i n) (serve service trusted connections)
    (λ responses, ∀ k uid r response, connections !! k = Some (uid, Ok r) → responses !! k = Some response →
       sr_app_id r = app_id → is_put (sr_command r) = true → refused response).
Proof.
  induction connections as [|[uid request] connections IH]; intros Hv; cbn [serve]; [by apply safe_ret|].
  apply Forall_cons in Hv as [Hv Hvs]. eapply safe_bind; [by apply handle_stale|]. intros response Hresponse.
  eapply safe_bind; [by apply IH|]. intros responses Hrest. apply safe_ret.
  intros [|k] uid' r response' Hc Hr; simplify_eq/=; [by apply Hresponse|by apply (Hrest k uid')].
Qed.
End stale.

End isolation.

(** ** Properties *)

(** C10: whatever operation fails and wherever the device stops, serving a
    validated storage request leaves every file outside the directory of its
    application as it was: the files of the system and those of every other
    application. *)
Theorem storage_confined `{Host} `{Space} service request w :
  let dir := path_join (ss_root service) (sr_app_id request) in
  let run := StorageService_dispatch service request w in
  quiet _ → disk_wf (w_disk w) → unshared dir (w_disk w) → StorageRequest_validate request = Ok tt →
  ∃ tr, w_trace run.2 = tr ++ w_trace w ∧ ∀ d, d ∈ w_disk run.2 :: tr →
    (∀ q, under dir q = false → file_at d q = file_at (w_disk w) q) ∧
    (∀ other q, is_valid_app_id other = true → other ≠ sr_app_id request →
       under (path_join (ss_root service) other) q = true → file_at d q = file_at (w_disk w) q).
Proof.
  intros dir run Hq Hwf Hu Hv. destruct (validated_request _ Hv) as (Happ&_&_).
  destruct (dispatch_confined Hq service request (w_disk w) Hv w (confined_start _ _ Hwf Hu)) as (tr&Htr&Hall&Hend&_).
  exists tr. split; [done|]. intros d Hd.
  assert (confined dir (w_disk w) d) as Hconf.
  { apply elem_of_cons in Hd as [->|Hd]; [done|]. by eapply Forall_forall in Hall. }
  split; [apply Hconf|]. intros other q Ho Hne Hin. apply Hconf.
  by eapply (app_directories_disjoint _ other); [apply app_id_plain..| |].
Qed.

(** C37: a [put] that stops after it created its temporary file leaves an empty
    file that no request and no restart of the service removes; from then on
    every [put] of the application is refused, because the inspection of the
    directory takes the empty file for an invalid entry. *)
Theorem interrupted_put_blocks_app `{Host} `{Space} service trusted app_id nonce i n connections w :
  let stale := path_join (path_join (ss_root service) app_id) (temporary_value_name nonce) in
  let run := serve service trusted connections w in
  quiet _ → is_valid_app_id app_id = true → pinned stale i n (w_disk w) → i_data n = [] →
  Forall (λ c, validated c.2) connections →
  pinned stale i n (w_disk (StorageService_initialize service w).2) ∧ pinned stale i n (w_disk run.2) ∧
  ∀ responses, run.1 = Ok responses → ∀ k uid request response,
    connections !! k = Some (uid, Ok request) → responses !! k = Some response →
    sr_app_id request = app_id → is_put (sr_command request) = true → refused response.
Proof.
  intros stale run Hq Happ Hp Hn Hv.
  destruct (serve_stale Hq service app_id Happ nonce i n Hn trusted connections Hv w Hp) as (tr&_&_&Hend&Hr).
  destruct (initialize_stale Hq service app_id Happ nonce i n w Hp) as (tr'&_&_&Hinit&_).
  split_and!; [done..|]. intros responses Hok. by apply Hr.
Qed.

(** ** A run *)

Definition roomy : Space := {| statvfs := λ _, (2 ^ 40, 1)%Z; clock_nanos := λ t, Z.of_nat t |}.
Definition sample_service : StorageService := mkStorageService DEFAULT_STORAGE_ROOT 0 false.
Definition sample_root : World := world_of [(DEFAULT_STORAGE_ROOT, mkInode Directory [] 0 448 true)].
Definition sample_put (key : string) : StorageRequest :=
  StorageRequest_put 7 "dev.cardputerzero.notes" MIB key (bytes "hello").

(** Decidable forms of the conditions on a concrete disk. *)
Lemma disk_wf_check d :
  bool_decide (map_Forall (λ _ i, (i < d_next d)%Z) (d_names d)) = true →
  bool_decide (map_Forall (λ i _, (i < d_next d)%Z) (d_inodes d)) = true → disk_wf d.
Proof. intros H1%bool_decide_eq_true H2%bool_decide_eq_true. by split. Qed.

Lemma pinned_single_check (p : string) (i : Z) (names : gmap string Z) :
  forallb (λ e, bool_decide (e.2 ≠ i ∨ e.1 = p)) (map_to_list names) = true → ∀ q, names !! q = Some i → q = p.
Proof.
  intros Hall q Hq. eapply forallb_forall in Hall; [|by apply list_elem_of_In, (elem_of_map_to_list names q i)].
  apply bool_decide_eq_true in Hall as [?|?]; done.
Qed.

Lemma storage_confined_witness :
  let run := @StorageService_dispatch calm_host roomy sample_service (sample_put "draft") sample_root in
  (∃ tr, w_trace run.2 = tr ++ w_trace sample_root ∧ ∀ d, d ∈ w_disk run.2 :: tr →
    (∀ q, under "/var/lib/cardputerzero/data/dev.cardputerzero.notes" q = false → file_at d q = file_at (w_disk sample_root) q) ∧
    (∀ other q, is_valid_app_id other = true → other ≠ "dev.cardputerzero.notes" →
       under (path_join DEFAULT_STORAGE_ROOT other) q = true → file_at d q = file_at (w_disk sample_root) q)) ∧
  run.1 = Ok (storage_response 7 (SoStored 5), None).
Proof.
  intros run. split; [|by vm_compute].
  apply (@storage_confined calm_host roomy sample_service (sample_put "draft") sample_root).
  - done.
  - apply disk_of_wf.
  - intros p q i Hp Hq Hi. exfalso. simpl in Hi. apply lookup_insert_Some in Hi as [[<- _]|[_ Hi]]; [|done].
    by vm_compute in Hp.
  - by vm_compute.
Defined.

(** The disk on which a [put] finds itself after its first step: the temporary
    file was created and nothing was written to it yet. *)
Definition interrupted_disk : Disk :=
  default (mkDisk ∅ ∅ 0) (w_trace (@StorageService_dispatch calm_host roomy sample_service (sample_put "draft") sample_root).2 !! 5%nat).
Definition restarted : World := mkWorld interrupted_disk 100 [] (λ _, 0%Z).
Definition interrupted_nonce : Z := 10.

Lemma interrupted_put_blocks_app_witness :
  let connections := [(0%Z, Ok (sample_put "draft"))] in
  let run := @serve calm_host roomy sample_service {[0%Z]} connections restarted in
  (∀ responses, run.1 = Ok responses → ∀ k uid request response,
     connections !! k = Some (uid, Ok request) → responses !! k = Some response →
     sr_app_id request = "dev.cardputerzero.notes" → is_put (sr_command request) = true → refused response) ∧
  is_ok run.1 = true.
Proof.
  intros connections run. split; [|by vm_compute].
  destruct (@interrupted_put_blocks_app calm_host roomy sample_service {[0%Z]} "dev.cardputerzero.notes"
    interrupted_nonce 2 (mkInode RegularFile [] 0 384 false) connections restarted) as (_&_&Hrefused); [..|exact Hrefused].
  - done.
  - by vm_compute.
  - split; [by apply disk_wf_check; vm_compute|by vm_compute|by vm_compute|].
    apply pinned_single_check. by vm_compute.
  - done.
  - constructor; [|constructor]. intros r [= <-]. by vm_compute.
Defined.

(** ** A crash during [put] *)

Lemma crash_weaken_C {E A} P (m : IO E A) (C C' : Disk → Prop) Q :
  crash_spec P m C Q → (∀ d, C d → C' d) → crash_spec P m C' Q.
Proof.
  intros Hm HC w Hw. destruct (Hm w Hw) as (tr&?&Hall&?). exists tr. split_and!; [done| |done].
  eapply Forall_impl; [exact Hall|done].
Qed.

Lemma crash_safe_bind {E A B} (I : Disk → Prop) (m : IO E A) (k : A → IO E B) φ (C : Disk → Prop) Q :
  safe I m φ → (∀ d, I d → C d) → (∀ d, I d → ∀ r, r = Panicked ∨ (∃ e, r = Err e) → Q r d) →
  (∀ a, φ a → crash_spec I (k a) C Q) → crash_spec I (io_bind m k) C Q.
Proof.
  intros Hm HC HQ Hk. eapply crash_bind; [eapply crash_weaken_C; [exact Hm|exact HC]|..].
  - intros a w [Hw Ha]. by apply (Hk a (Ha a eq_refl)).
  - intros e d [Hd _]. apply HQ; eauto.
  - intros d [Hd _]. apply HQ; eauto.
Qed.

Section put_crash.
  Context `{Host} `{Space} (Hquiet : quiet _) (service : StorageService) (app_id key : string) (value : list ascii).
  Context (Happ : is_valid_app_id app_id = true) (Hkey : validate_key key = Ok tt) (d0 : Disk) (Hwf : disk_wf d0).
Let dir : string := path_join (ss_root service) app_id.
Let destination : string := path_join dir key.
Let node : Inode := mkInode Directory [] host_uid 448 false.

(** Before the value is written: the disk as it was, or with the directory of
    the application added. *)
Definition prepared (d : Disk) : Prop := d = d0 ∨ (d_names d0 !! dir = None ∧ d = new_node dir node d0).

(** What every disk during the operation satisfies: the key holds the old value
    or the complete new one, and other files are as they were. *)
Definition old_or_new_value (d : Disk) : Prop :=
  (file_at d destination = file_at d0 destination ∨ file_at d destination = Some (new_inode value)) ∧
  ∀ q, q ≠ destination → q ≠ dir → (∀ nonce, q ≠ path_join dir (temporary_value_name nonce)) → file_at d q = file_at d0 q.

Lemma new_node_file_at p n d q : disk_wf d → q ≠ p → file_at (new_node p n d) q = file_at d q.
Proof.
  intros Hd Hq. rewrite !file_at_ino. simpl. rewrite lookup_insert_ne by done.
  destruct (d_names d !! q) as [j|] eqn:Hj; [|done]. apply (proj1 Hd) in Hj. by rewrite lookup_insert_ne by lia.
Qed.

Lemma destination_ne : destination ≠ dir.
Proof.
  unfold destination. destruct (entry_paths service app_id Happ) as [Hk _]. destruct (Hk key Hkey) as [Heq _].
  fold dir in Heq. rewrite Heq. intros Hd. apply (f_equal String.length) in Hd. rewrite str_length_app in Hd. simpl in Hd. lia.
Qed.

Lemma prepared_wf d : prepared d → disk_wf d ∧ ∀ q, q ≠ dir → file_at d q = file_at d0 q.
Proof.
  intros [->|[_ ->]]; [done|]. split; [by apply disk_wf_new|]. intros q Hq. by apply new_node_file_at.
Qed.

Lemma prepared_value d : prepared d → old_or_new_value d.
Proof. intros [_ Hq]%prepared_wf. split; [left; apply Hq, destination_ne|]. intros q _ Hd _. by apply Hq. Qed.

Lemma prepared_ensure :
  safe prepared (ensure_app_directory service app_id true) (λ directory, directory = dir).
Proof.
  unfold ensure_app_directory. fold dir. apply safe_then; [apply safe_verify_root; done|intros _]. cbv zeta.
  safe_steps. apply safe_op; [done|done| |done].
  intros d Hd. case_match eqn:Hn; [done|]. destruct Hd as [->|[Hfree ->]].
  - right. by split.
  - simpl in Hn. by rewrite lookup_insert_eq in Hn.
Qed.

Lemma replace_value d nonce x :
  prepared d → old_or_new d (path_join dir (temporary_value_name nonce)) destination value x → old_or_new_value x.
Proof.
  intros [_ Hq]%prepared_wf [Hd Ho]. split.
  - rewrite <- (Hq destination) by apply destination_ne. exact Hd.
  - intros q H1 H2 H3. rewrite <- (Hq q) by done. by apply Ho.
Qed.

(** The outcome: an acknowledged value is on the disk. *)
Definition put_outcome (r : result StorageServiceError Z) (d : Disk) : Prop :=
  old_or_new_value d ∧ ∀ used, r = Ok used → file_at d destination = Some (new_inode value).

Lemma put_crash_spec quota :
  crash_spec prepared (StorageService_put service app_id quota key value) old_or_new_value put_outcome.
Proof.
  assert (∀ d, prepared d → ∀ r, r = Panicked ∨ (∃ e, r = Err e) → put_outcome r d) as Hfail.
  { intros d Hd r Hr. split; [by apply prepared_value|]. intros used ->. by destruct Hr as [|[? ?]]. }
  pose proof prepared_value as HC. unfold StorageService_put. eapply crash_safe_bind; [by apply (safe_lift _ _ (λ _, True))|done..|]. intros _ _.
  eapply crash_safe_bind; [apply prepared_ensure|done..|]. intros ? ->. cbv zeta.
  eapply crash_safe_bind; [by apply inspect_reads|done..|]. intros inspected _.
  eapply crash_safe_bind; [by apply safe_existing_size, safe_open_checked|done..|]. intros existing _.
  eapply crash_safe_bind; [apply safe_guard|done..|]. intros _ _.
  eapply crash_safe_bind; [by apply (safe_lift _ _ (λ _, True))|done..|]. intros projected _.
  eapply crash_safe_bind; [apply safe_guard|done..|]. intros _ _.
  eapply crash_safe_bind; [by apply safe_require_free_space|done..|]. intros _ _.
  eapply (crash_safe_bind _ _ _ (λ _, True)); [|done..|].
  { intros w Hw. exists []. split_and!; [done|constructor|done|done]. }
  intros nonce _. cbv zeta. fold destination. set (temporary := path_join dir (temporary_value_name nonce)).
  assert (temporary ≠ destination) as Hne.
  { unfold temporary, destination. destruct (entry_paths service app_id Happ) as [Hk Ht]. destruct (Hk key Hkey) as [Heq _].
    fold dir in Heq, Ht. rewrite Heq, Ht. intros [_ Hx]%app_paths_inj; [|by apply app_id_plain..].
    exact (storage_key_not_hidden _ _ Hkey (eq_sym Hx)). }
  intros w Hw. destruct (prepared_wf _ Hw) as [Hwfw _].
  eapply (crash_try (λ d, d = w_disk w) _ _ old_or_new_value
    (λ r d, match r with Ok _ => put_outcome (Ok projected) d | Err _ => old_or_new (w_disk w) temporary destination value d
            | Panicked => False end)); [| |reflexivity].
  - apply crash_map_err. eapply crash_consequence with (P := λ d, d = w_disk w); [|done|].
    + eapply crash_weaken_C; [by apply (crash_replace_steps Hquiet (w_disk w) Hwfw temporary destination dir Hne value)|].
      intros d. by apply replace_value.
    + intros [u|e|] d Hd; simpl in *; [|by apply (replaced_Err_old_or_new _ _ _ Hne value e)|done].
      split; [|by intros; apply Hd]. by eapply replace_value, installed_old_or_new.
  - intros [u|e|].
    + intros w' Hw'. exists []. split_and!; [done|constructor|]. destruct Hw' as [? Hv]. split; [done|]. intros used _. by eapply Hv.
    + eapply crash_consequence; [eapply crash_weaken_C; [by apply (crash_cleanup Hquiet (w_disk w) temporary destination Hne value e)|]|done|].
      * intros d. by apply replace_value.
      * intros r d [-> Hd]. split; [by eapply replace_value|done].
    + by intros w' [].
Qed.

End put_crash.

(** C11: whatever operation of a [put] fails and wherever the device stops, the
    key holds the value it had or the complete new one, on stable storage; no
    other file changes but the directory of the application, when it is
    created, and the temporary file; and when the [put] succeeds the key holds
    the new value. *)
Theorem put_crash_safe `{Host} `{Space} service app_id quota key value w :
  let dir := path_join (ss_root service) app_id in
  let destination := path_join dir key in
  let run := StorageService_put service app_id quota key value w in
  quiet _ → disk_wf (w_disk w) → is_valid_app_id app_id = true → validate_key key = Ok tt →
  ∃ tr, w_trace run.2 = tr ++ w_trace w ∧
    (∀ d, d ∈ w_disk run.2 :: tr →
      (file_at d destination = file_at (w_disk w) destination ∨ file_at d destination = Some (new_inode value)) ∧
      ∀ q, q ≠ destination → q ≠ dir → (∀ nonce, q ≠ path_join dir (temporary_value_name nonce)) →
        file_at d q = file_at (w_disk w) q) ∧
    ∀ used, run.1 = Ok used → file_at (w_disk run.2) destination = Some (new_inode value).
Proof.
  intros dir destination run Hq Hwf Happ Hkey.
  destruct (put_crash_spec Hq service app_id key value Happ Hkey (w_disk w) Hwf quota w (or_introl eq_refl)) as (tr&Htr&Hall&Hend&Hok).
  exists tr. split; [done|]. split; [|exact Hok]. intros d Hd. apply elem_of_cons in Hd as [->|Hd]; [exact Hend|].
  by eapply Forall_forall in Hall.
Qed.

Lemma put_crash_safe_witness :
  let destination := "/var/lib/cardputerzero/data/dev.cardputerzero.notes/draft" in
  let run := @StorageService_put calm_host roomy sample_service "dev.cardputerzero.notes" MIB "draft" (bytes "hello") sample_root in
  (∀ used, run.1 = Ok used → file_at (w_disk run.2) destination = Some (@new_inode calm_host (bytes "hello"))) ∧ is_ok run.1 = true.
Proof.
  intros destination run. split; [|by vm_compute].
  destruct (@put_crash_safe calm_host roomy sample_service "dev.cardputerzero.notes" MIB "draft" (bytes "hello") sample_root)
    as (tr&_&_&Hok); [done|apply disk_of_wf|by vm_compute|by vm_compute|]. exact Hok.
Defined.
