(* ===== verification/StorageRefine.v ===== *)
(** * The storage service as a map with a quota

    The abstract store of an application is a finite map from names to values,
    [None] while the application has no directory; a blob that is being
    uploaded sits under its staging name.  [spec_command] says what every
    command answers and how it changes the map.  On a host without faults and
    interference the service, working on the disk, implements it:
    [represents] relates a disk to a map and every request keeps the relation
    and gives the specified answer. *)

From S2P Require Import Prelude RustStr Bytes Manifest HostFs Framing FsLogic StorageProtocol Storage StorageLogic.

(** ** The abstract store *)

Notation store := (gmap string (list ascii)).

Definition total_of (l : list (string * list ascii)) : Z := foldr (λ e n, file_len e.2 + n)%Z 0%Z l.
Definition total (m : store) : Z := total_of (map_to_list m).
Definition hidden (name : string) : bool := starts_with TMP_PREFIX name || starts_with BLOB_PREFIX name.
Definition key_count (m : store) : nat := count_if (λ e, negb (hidden e.1)) (map_to_list m).

Definition spec_inspect (m : store) : result StorageServiceError (Z * nat) :=
  if (total m <=? u64_max)%Z then Ok (total m, key_count m) else Err SsQuotaExceeded.

(** The size of the value that is replaced, 0 for a new key; an entry larger
    than [limit] cannot be replaced. *)
Definition spec_existing (m : store) (key : string) (limit : Z) : result StorageServiceError Z :=
  match m !! key with
  | Some v => if (limit <? file_len v)%Z then Err SsInvalidEntry else Ok (file_len v)
  | None => Ok 0%Z
  end.

(** The size of the directory after the change, when the quota allows it. *)
Definition spec_projected (used existing new quota : Z) : result StorageServiceError Z :=
  let? projected := projected_usage used existing new in
  if (quota <? projected)%Z then Err SsQuotaExceeded else Ok projected.

Definition spec_put (lib : bool) (m : store) (quota : Z) (key : string) (value : list ascii)
    : result StorageServiceError Z * store :=
  let outcome :=
    let? inspected := spec_inspect m in
    let? existing := spec_existing m key (Z.of_nat MAX_STORAGE_VALUE_BYTES) in
    if negb lib && (existing =? 0)%Z && (MAX_STORAGE_KEYS <=? inspected.2)%nat then Err SsTooManyKeys
    else spec_projected inspected.1 existing (file_len value) quota in
  (outcome, if is_ok outcome then <[key := value]> m else m).

Definition spec_get (m : store) (key : string) : result StorageServiceError (option (list ascii)) :=
  let? _ := spec_existing m key (Z.of_nat MAX_STORAGE_VALUE_BYTES) in
  Ok (m !! key).

Definition spec_delete (m : store) (key : string) : result StorageServiceError (bool * Z) * store :=
  match spec_existing m key (Z.of_nat MAX_STORAGE_VALUE_BYTES) with
  | Ok _ =>
      let m' := delete key m in
      (let? inspected := spec_inspect m' in Ok (bool_decide (is_Some (m !! key)), inspected.1), m')
  | Err e => (Err e, m)
  | Panicked => (Panicked, m)
  end.

(** The staged bytes after a chunk, and the size to report while the blob is
    incomplete. *)
Definition spec_stage (m : store) (quota : Z) (key : string) (offset total_bytes : Z) (value : list ascii)
    : result StorageServiceError (Z * list ascii) * store :=
  if (offset =? 0)%Z then
    let m' := delete (BLOB_PREFIX +:+ key) m in
    (let? inspected := spec_inspect m' in
     let? existing := spec_existing m' key MAX_STORAGE_BLOB_BYTES in
     let? projected := spec_projected inspected.1 existing total_bytes quota in
     Ok (projected, value), m')
  else
    (match m !! (BLOB_PREFIX +:+ key) with
     | None => Err (SsIo NotFound)
     | Some staged =>
         if negb (file_len staged =? offset)%Z then Err SsInvalidEntry
         else Ok (Z.min quota total_bytes, staged ++ value)
     end, m).

Definition spec_put_blob_chunk (m : store) (quota : Z) (key : string) (offset total_bytes : Z) (value : list ascii)
    : result StorageServiceError Z * store :=
  match spec_stage m quota key offset total_bytes value with
  | (Ok (projected, staged), m) =>
      if (offset + file_len value =? total_bytes)%Z then
        let m := <[key := staged]> (delete (BLOB_PREFIX +:+ key) m) in
        (let? inspected := spec_inspect m in Ok inspected.1, m)
      else (Ok projected, <[BLOB_PREFIX +:+ key := staged]> m)
  | (Err e, m) => (Err e, m)
  | (Panicked, m) => (Panicked, m)
  end.

Definition spec_get_blob_chunk (m : store) (key : string) (offset length : Z)
    : result StorageServiceError (option (list ascii)) :=
  match m !! key with
  | None => Ok None
  | Some v =>
      if (file_len v <? offset + length)%Z then Err SsInvalidEntry
      else Ok (Some (take (Z.to_nat length) (drop (Z.to_nat offset) v)))
  end.

Definition spec_open_blob (m : store) (key : string) (expected : Z) : result StorageServiceError StorageOutcome :=
  match m !! key with
  | None => Ok SoNotFound
  | Some v => if (file_len v =? expected)%Z then Ok (SoBlobOpened expected) else Err SsInvalidEntry
  end.

Definition spec_delete_blob (m : store) (key : string) : result StorageServiceError (bool * Z) * store :=
  let m' := delete (BLOB_PREFIX +:+ key) (delete key m) in
  (let? inspected := spec_inspect m' in Ok (bool_decide (is_Some (m !! key)), inspected.1), m').

(** What a request answers and does to the store of its application; a command
    that writes creates the store. *)
Definition outcome_of {A} (f : A → StorageOutcome) (r : result StorageServiceError A) : result StorageServiceError StorageOutcome :=
  let? a := r in Ok (f a).

Definition spec_command (lib : bool) (quota : Z) (o : option store) (c : StorageCommand)
    : result StorageServiceError StorageOutcome * option store :=
  let m := default ∅ o in
  match c with
  | ScPut key value64 =>
      match decode_value value64 with
      | Ok value => let '(r, m) := spec_put lib m quota key value in (outcome_of SoStored r, Some m)
      | _ => (Err SsValueTooLarge, o)
      end
  | ScGet key => (outcome_of value_outcome (spec_get m key), o)
  | ScDelete key =>
      match o with
      | None => (Ok (SoDeleted false 0), None)
      | Some m => let '(r, m) := spec_delete m key in (outcome_of (λ p, SoDeleted p.1 p.2) r, Some m)
      end
  | ScPutBlobChunk key offset total_bytes value64 =>
      match decode_value value64 with
      | Ok value =>
          let '(r, m) := spec_put_blob_chunk m quota key offset total_bytes value in (outcome_of SoStored r, Some m)
      | _ => (Err SsValueTooLarge, o)
      end
  | ScGetBlobChunk key offset length => (outcome_of value_outcome (spec_get_blob_chunk m key offset length), o)
  | ScOpenBlob key expected => (spec_open_blob m key expected, o)
  | ScDeleteBlob key =>
      match o with
      | None => (Ok (SoDeleted false 0), None)
      | Some m => let '(r, m) := spec_delete_blob m key in (outcome_of (λ p, SoDeleted p.1 p.2) r, Some m)
      end
  | ScUsage => (outcome_of (λ p, SoUsage p.1) (match o with None => Ok (0%Z, 0%nat) | Some m => spec_inspect m end), o)
  end.

Definition spec_response (id : Z) (r : result StorageServiceError StorageOutcome) : StorageResponse :=
  match r with
  | Ok outcome => storage_response id outcome
  | Err e => storage_error_response id e
  | Panicked => storage_error_response id SsStatePoisoned
  end.

(** ** Runs without faults *)

Section evals.
  Context `{Host} (Hquiet : quiet _) (Hnf : no_faults _).

(** From disk [d] the program gives [r] and leaves disk [d']. *)
Definition evals {E A} (d : Disk) (m : IO E A) (r : result E A) (d' : Disk) : Prop :=
  ∀ w, w_disk w = d → (m w).1 = r ∧ w_disk (m w).2 = d'.

Lemma evals_lift {E A} d (r : result E A) : evals d (io_lift r) r d.
Proof. by intros w ?. Qed.
Lemma evals_ret {E A} d (a : A) : evals d (@io_ret E A a) (Ok a) d.
Proof. by intros w ?. Qed.
Lemma evals_err {E A} d (e : E) : evals d (@io_err E A e) (Err e) d.
Proof. by intros w ?. Qed.
Lemma evals_bind {E A B} d (m : IO E A) (k : A → IO E B) a d1 r d2 :
  evals d m (Ok a) d1 → evals d1 (k a) r d2 → evals d (io_bind m k) r d2.
Proof.
  intros Hm Hk w Hw. unfold io_bind. destruct (Hm w Hw) as [H1 H2]. destruct (m w) as [r1 w1]. simpl in *. subst r1.
  by apply Hk.
Qed.
Lemma evals_bind_err {E A B} d (m : IO E A) (k : A → IO E B) e d1 :
  evals d m (Err e) d1 → evals d (io_bind m k) (Err e) d1.
Proof. intros Hm w Hw. unfold io_bind. destruct (Hm w Hw) as [H1 H2]. destruct (m w) as [r1 w1]. simpl in *. by subst r1. Qed.
Lemma evals_try {E F A B} d (m : IO E A) (k : result E A → IO F B) r1 d1 r d2 :
  evals d m r1 d1 → evals d1 (k r1) r d2 → evals d (io_try m k) r d2.
Proof.
  intros Hm Hk w Hw. unfold io_try. destruct (Hm w Hw) as [H1 H2]. destruct (m w) as [r' w1]. simpl in *. subst r'.
  by apply Hk.
Qed.
Lemma evals_map_err {E F A} (f : E → F) d (m : IO E A) r d' :
  evals d m r d' → evals d (io_map_err f m) (map_err f r) d'.
Proof. intros Hm w Hw. unfold io_map_err. destruct (Hm w Hw) as [H1 H2]. destruct (m w) as [r' w1]. simpl in *. by subst r'. Qed.
Lemma evals_op {A} d partial (f : Disk → result IoError A * Disk) : evals d (io_op partial f) (f d).1 (f d).2.
Proof. intros w <-. by rewrite io_op_runs. Qed.
Lemma evals_op' {A} d partial (f : Disk → result IoError A * Disk) r d' : f d = (r, d') → evals d (io_op partial f) r d'.
Proof. intros Hf. pose proof (evals_op d partial f) as He. by rewrite Hf in He. Qed.
Lemma evals_guard {E} d (b : bool) (e : E) : b = false → evals d (io_guard b e) (Ok tt) d.
Proof. intros ->. apply evals_lift. Qed.
Lemma evals_guard_err {E} d (b : bool) (e : E) : b = true → evals d (io_guard b e) (Err e) d.
Proof. intros ->. apply evals_lift. Qed.

Lemma evals_sync_directory d p : evals d (fs_sync_directory p) (Ok tt) d.
Proof. eapply evals_bind; by apply evals_op'. Qed.
Lemma evals_next_entry d : evals d fs_next_entry (Ok tt) d.
Proof. by apply evals_op'. Qed.

(** From disk [d] the outcome and the final disk satisfy [Q]. *)
Definition wp {E A} (d : Disk) (m : IO E A) (Q : result E A → Disk → Prop) : Prop :=
  ∀ w, w_disk w = d → Q (m w).1 (w_disk (m w).2).

(** What remains after the outcome [r] of a step. *)
Definition wp_next {E A B} (k : A → IO E B) (Q : result E B → Disk → Prop) (r : result E A) (d : Disk) : Prop :=
  match r with Ok a => wp d (k a) Q | Err e => Q (Err e) d | Panicked => Q Panicked d end.

Lemma wp_evals {E A} d (m : IO E A) r d' (Q : result E A → Disk → Prop) : evals d m r d' → Q r d' → wp d m Q.
Proof. intros Hm HQ w Hw. by destruct (Hm w Hw) as [-> ->]. Qed.
Lemma wp_weaken {E A} d (m : IO E A) (Q R : result E A → Disk → Prop) : wp d m R → (∀ r d', R r d' → Q r d') → wp d m Q.
Proof. intros Hm HQ w Hw. by apply HQ, Hm. Qed.
Lemma wp_bind {E A B} d (m : IO E A) (k : A → IO E B) R Q :
  wp d m R → (∀ r d1, R r d1 → wp_next k Q r d1) → wp d (io_bind m k) Q.
Proof.
  intros Hm Hk w Hw. unfold io_bind. specialize (Hm w Hw). destruct (m w) as [r w1]. simpl in *.
  specialize (Hk r _ Hm). destruct r; simpl in *; [by apply Hk|done..].
Qed.
Lemma wp_step {E A B} d (m : IO E A) (k : A → IO E B) r d1 Q :
  evals d m r d1 → wp_next k Q r d1 → wp d (io_bind m k) Q.
Proof.
  intros Hm Hk. eapply (wp_bind _ _ _ (λ r' d', r' = r ∧ d' = d1)); [by eapply wp_evals|]. by intros ? ? [-> ->].
Qed.

Lemma wp_try {E F A B} d (m : IO E A) (k : result E A → IO F B) R Q :
  wp d m R → (∀ r d1, R r d1 → wp d1 (k r) Q) → wp d (io_try m k) Q.
Proof.
  intros Hm Hk w Hw. unfold io_try. specialize (Hm w Hw). destruct (m w) as [r w1]. simpl in *. by apply (Hk r _ Hm).
Qed.
Lemma wp_ret {E A} d (a : A) (Q : result E A → Disk → Prop) : Q (Ok a) d → wp d (io_ret a) Q.
Proof. intros HQ. by eapply wp_evals; [apply evals_ret|]. Qed.

End evals.

(** ** Disks that represent a store *)

Definition valid_entry (lib : bool) (name : string) (v : list ascii) : Prop :=
  (0 < file_len v)%Z ∧
  ((validate_key name = Ok tt ∧ (file_len v ≤ if lib then MAX_STORAGE_BLOB_BYTES else Z.of_nat MAX_STORAGE_VALUE_BYTES)%Z) ∨
   (lib = true ∧ ∃ key, name = BLOB_PREFIX +:+ key ∧ validate_key key = Ok tt ∧ (file_len v ≤ MAX_STORAGE_BLOB_BYTES)%Z)).

Record store_ok (lib : bool) (m : store) : Prop := {
  so_entries : ∀ name v, m !! name = Some v → valid_entry lib name v;
  so_count : lib = false → (key_count m ≤ MAX_STORAGE_KEYS)%nat;
}.

Section represents.
  Context (owner : Z).

Definition secure (kind : FileKind) (n : Inode) : Prop :=
  i_kind n = kind ∧ i_uid n = owner ∧ Z.land (i_mode n) 63 = 0%Z.

(** The names directly below [dir] are those of the map, each a private file of
    its own with the value of the map. *)
Record dir_holds (d : Disk) (dir : string) (m : store) : Prop := {
  dh_dir : ∃ n, file_at d dir = Some n ∧ secure Directory n;
  dh_entries : ∀ name v, m !! name = Some v →
    ∃ i n, d_names d !! (dir +:+ "/" +:+ name) = Some i ∧ d_inodes d !! i = Some n ∧ i_data n = v ∧ secure RegularFile n ∧
      ∀ q, d_names d !! q = Some i → q = dir +:+ "/" +:+ name;
  dh_only : ∀ name, plain_name name → m !! name = None → d_names d !! (dir +:+ "/" +:+ name) = None;
  dh_plain : ∀ p, is_Some (d_names d !! p) → child_of dir p = true → ∃ name, plain_name name ∧ p = dir +:+ "/" +:+ name;
}.

Record represents (d : Disk) (root dir : string) (o : option store) : Prop := {
  rp_wf : disk_wf d;
  rp_root : ∃ n, file_at d root = Some n ∧ secure Directory n;
  rp_dir : match o with
           | Some m => dir_holds d dir m
           | None => d_names d !! dir = None ∧ ∀ p, child_of dir p = true → d_names d !! p = None
           end;
}.

End represents.

Lemma app_slash_ne dir name : dir +:+ "/" +:+ name ≠ dir.
Proof. intros Heq. apply (f_equal String.length) in Heq. rewrite str_length_app in Heq. simpl in Heq. lia. Qed.

Lemma child_entry dir name : plain_name name → child_of dir (dir +:+ "/" +:+ name) = true.
Proof.
  intros (Hne&_&_&Hs). unfold child_of. rewrite <- str_app_assoc, strip_prefix_app, Hs. by destruct name.
Qed.

(** Names of valid entries are ASCII, and only keys are not hidden. *)
Lemma ascii_utf8 l : forallb (byte_in 0 127) l = true → valid_utf8 l = true.
Proof. induction l as [|a l IH]; [done|]. cbn [forallb valid_utf8]. by intros [-> ?]%andb_true_iff; auto. Qed.

Lemma key_bytes key : validate_key key = Ok tt → bytes_all (byte_in 0 127) key = true.
Proof.
  unfold validate_key. case_match eqn:Hc; [done|]. intros _. unbool_hyps.
  eapply bytes_all_impl; [|done]. intros b Hb. destruct b as [[] [] [] [] [] [] [] []]; done.
Qed.

Lemma key_not_hidden key : validate_key key = Ok tt → hidden key = false.
Proof.
  intros Hk. assert (∀ p s, key ≠ String dot p +:+ s) as Hd by (intros; by apply storage_key_not_hidden).
  unfold hidden, starts_with. rewrite !bool_decide_eq_false_2; [done|..];
    intros [s Hs]; apply strip_prefix_Some in Hs; [by apply (Hd "cp0-blob-" s)|by apply (Hd "cp0-tmp-" s)].
Qed.

Lemma entry_facts lib name v :
  valid_entry lib name v →
  plain_name name ∧ valid_utf8 (bytes name) = true ∧ (0 < file_len v ≤ MAX_STORAGE_BLOB_BYTES)%Z ∧
  (if hidden name then starts_with BLOB_PREFIX name = true ∧ lib = true else validate_key name = Ok tt).
Proof.
  intros [Hpos [[Hk Hle]|(->&key&->&Hk&Hle)]].
  - split_and!; [by apply key_plain|by apply ascii_utf8, key_bytes|done|..].
    + destruct lib; unfold MAX_STORAGE_BLOB_BYTES, MAX_STORAGE_VALUE_BYTES in *; lia.
    + by rewrite key_not_hidden.
  - split_and!; [by apply blob_plain| |done|done|].
    + apply ascii_utf8. change (bytes_all (byte_in 0 127) (BLOB_PREFIX +:+ key) = true).
      rewrite bytes_all_app, (key_bytes key) by done. by vm_compute.
    + unfold hidden. rewrite starts_with_app. by rewrite orb_true_r.
Qed.

Lemma entry_limit lib name v :
  valid_entry lib name v →
  (file_len v ≤ if lib && (starts_with BLOB_PREFIX name || (Z.of_nat MAX_STORAGE_VALUE_BYTES <? file_len v)%Z)
                then MAX_STORAGE_BLOB_BYTES else Z.of_nat MAX_STORAGE_VALUE_BYTES)%Z.
Proof.
  intros Hv. pose proof (entry_facts _ _ _ Hv) as (_&_&Hlen&_). destruct Hv as [_ [[_ Hle]|(->&key&->&_&Hle)]].
  - destruct lib; cbn [andb]; [|done]. destruct (starts_with _ _); cbn [orb]; [done|].
    destruct (Z.ltb_spec (Z.of_nat MAX_STORAGE_VALUE_BYTES) (file_len v)); lia.
  - by rewrite starts_with_app.
Qed.

(** Totals and counts do not depend on the order. *)
Lemma total_of_perm l1 l2 : l1 ≡ₚ l2 → total_of l1 = total_of l2.
Proof. unfold total_of. induction 1; simpl; lia. Qed.
Lemma count_if_perm {A} (f : A → bool) l1 l2 : l1 ≡ₚ l2 → count_if f l1 = count_if f l2.
Proof. unfold count_if. induction 1; simpl; repeat case_match; simpl; lia. Qed.

Lemma total_insert (m : store) name v : m !! name = None → total (<[name := v]> m) = (file_len v + total m)%Z.
Proof. intros Hm. unfold total. by rewrite (total_of_perm _ _ (map_to_list_insert m name v Hm)). Qed.
Lemma total_delete (m : store) name v : m !! name = Some v → total m = (file_len v + total (delete name m))%Z.
Proof. intros Hm. rewrite <- (insert_delete_id m name v Hm) at 1. apply total_insert, lookup_delete_eq. Qed.
Lemma key_count_insert (m : store) name v :
  m !! name = None → key_count (<[name := v]> m) = ((if hidden name then 0 else 1) + key_count m)%nat.
Proof.
  intros Hm. unfold key_count. rewrite (count_if_perm _ _ _ (map_to_list_insert m name v Hm)).
  unfold count_if. simpl. by destruct (hidden name).
Qed.
Lemma key_count_delete (m : store) name : (key_count (delete name m) ≤ key_count m)%nat.
Proof.
  destruct (m !! name) as [v|] eqn:Hm; [|by rewrite delete_id].
  rewrite <- (insert_delete_id m name v Hm) at 2. rewrite key_count_insert by apply lookup_delete_eq. lia.
Qed.

Section changes.
  Context (owner : Z) (root dir : string) (Hroot : ∀ s, dir +:+ "/" +:+ s ≠ root).
  Implicit Types (d : Disk) (m : store) (n : Inode).
  Local Notation path name := (dir +:+ "/" +:+ name).
  Local Notation represents := (represents owner).

Lemma path_inj a b : path a = path b → a = b.
Proof. rewrite <- !str_app_assoc. apply (inj _). Qed.

Lemma holds_lookup d m name v :
  represents d root dir (Some m) → m !! name = Some v →
  ∃ i n, d_names d !! path name = Some i ∧ node_at d (path name) = Some (i, n) ∧ d_inodes d !! i = Some n ∧ i_data n = v ∧
    secure owner RegularFile n.
Proof.
  intros Hr Hm. destruct (dh_entries _ _ _ _ (rp_dir _ _ _ _ _ Hr) name v Hm) as (i&n&Hn&Hi&Hv&Hs&_).
  exists i, n. split_and!; [done| |done..]. unfold node_at. by rewrite Hn, Hi.
Qed.
Lemma holds_lookup_None d m name :
  represents d root dir (Some m) → plain_name name → m !! name = None → node_at d (path name) = None.
Proof.
  intros Hr Hp Hm. unfold node_at. by rewrite (dh_only _ _ _ _ (rp_dir _ _ _ _ _ Hr) name Hp Hm).
Qed.

(** The inode of an entry is not that of the directory or the root. *)
Lemma entry_inode_other d m name i q :
  represents d root dir (Some m) → is_Some (m !! name) → d_names d !! path name = Some i → q ≠ path name →
  d_names d !! q ≠ Some i.
Proof.
  intros Hr [v Hm] Hi Hq Hqi. destruct (dh_entries _ _ _ _ (rp_dir _ _ _ _ _ Hr) name v Hm) as (j&n&Hn&_&_&_&Hs).
  rewrite Hi in Hn. injection Hn as <-. by apply Hq, Hs.
Qed.

Definition private_file (n : Inode) : Prop := secure owner RegularFile n.

(** A new file. *)
Lemma represents_create d m name n :
  represents d root dir (Some m) → plain_name name → m !! name = None → private_file n →
  represents (new_node (path name) n d) root dir (Some (<[name := i_data n]> m)).
Proof.
  intros Hr Hp Hm Hn. pose proof (rp_wf _ _ _ _ _ Hr) as Hwf. destruct (rp_dir _ _ _ _ _ Hr) as [Hd He Ho Hpl].
  assert (∀ q, q ≠ path name → file_at (new_node (path name) n d) q = file_at d q) as Hsame.
  { intros q Hq. rewrite !file_at_ino. simpl. rewrite lookup_insert_ne by done.
    destruct (d_names d !! q) as [j|] eqn:Hj; [|done]. apply (proj1 Hwf) in Hj. by rewrite lookup_insert_ne by lia. }
  split; [by apply disk_wf_new|rewrite Hsame by (apply not_eq_sym, Hroot); apply Hr|].
  split.
  - rewrite Hsame by (apply not_eq_sym, app_slash_ne). done.
  - intros name' v [[<- <-]|[Hne Hv]]%lookup_insert_Some; simpl.
    + exists (d_next d), n. rewrite !lookup_insert_eq. split_and!; try done.
      intros q [[<- _]|[_ Hq]]%lookup_insert_Some; [done|]. apply (proj1 Hwf) in Hq. lia.
    + destruct (He name' v Hv) as (i&n'&Hi&Hn'&Hv'&Hs&Hu). exists i, n'.
      rewrite lookup_insert_ne by (by intros ?%path_inj). split_and!; [done| |done..|].
      * apply (proj1 Hwf) in Hi. by rewrite lookup_insert_ne by lia.
      * intros q [[_ Hj]|[_ Hq]]%lookup_insert_Some; [|by apply Hu]. apply (proj1 Hwf) in Hi. lia.
  - intros name' Hp' [Hv Hne]%lookup_insert_None. simpl. rewrite lookup_insert_ne by (by intros ?%path_inj). by apply Ho.
  - simpl. intros p [i Hi] Hc. apply lookup_insert_Some in Hi as [[<- _]|[_ Hi]]; [by exists name|]. apply Hpl; eauto.
Qed.

(** New contents of a file. *)
Lemma represents_alter d m name i f n :
  represents d root dir (Some m) → is_Some (m !! name) → d_names d !! path name = Some i → d_inodes d !! i = Some n →
  private_file (f n) → represents (alter_inode f i d) root dir (Some (<[name := i_data (f n)]> m)).
Proof.
  intros Hr Hm Hi Hn Hf. pose proof (rp_wf _ _ _ _ _ Hr) as Hwf.
  pose proof (entry_inode_other d m name i) as Hother. destruct (rp_dir _ _ _ _ _ Hr) as [Hd He Ho Hpl].
  assert (∀ q, q ≠ path name → file_at (alter_inode f i d) q = file_at d q) as Hsame.
  { intros q Hq. apply file_at_alter_inode. by apply Hother. }
  split; [by apply disk_wf_alter|rewrite Hsame by (apply not_eq_sym, Hroot); apply Hr|].
  split.
  - rewrite Hsame by (apply not_eq_sym, app_slash_ne). done.
  - intros name' v [[<- <-]|[Hne Hv]]%lookup_insert_Some; simpl.
    + exists i, (f n). rewrite lookup_alter_eq, Hn. split_and!; try done.
      destruct Hm as [v Hv]. destruct (He name v Hv) as (j&n'&Hj&_&_&_&Hu). rewrite Hi in Hj. by injection Hj as <-.
    + destruct (He name' v Hv) as (j&n'&Hj&Hn'&Hv'&Hs&Hu). exists j, n'. split_and!; [done| |done..].
      rewrite lookup_alter_ne; [done|]. intros ->. apply (Hother (path name')); [done..| |done]. by intros ?%path_inj.
  - intros name' Hp' [Hv Hne]%lookup_insert_None. by apply Ho.
  - done.
Qed.

(** Changes of the names below the directory only. *)
Lemma file_at_names names d q : names !! q = d_names d !! q → file_at (with_names names d) q = file_at d q.
Proof. intros Hn. rewrite !file_at_ino. simpl. by rewrite Hn. Qed.

Lemma represents_remove d m name :
  represents d root dir (Some m) → plain_name name →
  represents (with_names (delete (path name) (d_names d)) d) root dir (Some (delete name m)).
Proof.
  intros Hr Hp. pose proof (rp_wf _ _ _ _ _ Hr) as Hwf. destruct (rp_dir _ _ _ _ _ Hr) as [Hd He Ho Hpl].
  assert (∀ q, q ≠ path name → delete (path name) (d_names d) !! q = d_names d !! q) as Hsame
    by (intros; by apply lookup_delete_ne).
  split; [|rewrite file_at_names by (by apply Hsame, not_eq_sym, Hroot); apply Hr|split].
  - apply disk_wf_names; [done|]. intros q j [_ ?]%lookup_delete_Some. eauto.
  - rewrite file_at_names by (by apply Hsame, not_eq_sym, app_slash_ne). done.
  - intros name' v [Hne Hv]%lookup_delete_Some. destruct (He name' v Hv) as (j&n'&Hj&Hn'&Hv'&Hs&Hu). exists j, n'.
    simpl. rewrite Hsame by (by intros ?%path_inj). split_and!; [done..|].
    intros q [_ Hq]%lookup_delete_Some. by apply Hu.
  - intros name' Hp' Hm'. simpl. destruct (decide (name' = name)) as [->|Hne]; [by rewrite lookup_delete_eq|].
    apply lookup_delete_None in Hm' as [?|Hm']; [congruence|]. rewrite Hsame by (by intros ?%path_inj). by apply Ho.
  - simpl. intros p [i [_ Hi]%lookup_delete_Some] Hc. apply Hpl; eauto.
Qed.

Lemma represents_rename d m a b v i :
  represents d root dir (Some m) → a ≠ b → plain_name a → plain_name b → m !! a = Some v → d_names d !! path a = Some i →
  represents (with_names (<[path b := i]> (delete (path a) (d_names d))) d) root dir (Some (<[b := v]> (delete a m))).
Proof.
  intros Hr Hab Hpa Hpb Hm Hi. pose proof (rp_wf _ _ _ _ _ Hr) as Hwf. destruct (rp_dir _ _ _ _ _ Hr) as [Hd He Ho Hpl].
  destruct (He a v Hm) as (i'&n&Hi'&Hn&Hv&Hs&Hu). rewrite Hi in Hi'. injection Hi' as <-.
  assert (∀ q, q ≠ path a → q ≠ path b → <[path b := i]> (delete (path a) (d_names d)) !! q = d_names d !! q) as Hsame
    by (intros; by rewrite lookup_insert_ne, lookup_delete_ne).
  split; [|rewrite file_at_names by (apply Hsame; apply not_eq_sym, Hroot); apply Hr|split].
  - apply disk_wf_names; [done|]. intros q j. by apply renamed_names.
  - rewrite file_at_names by (apply Hsame; apply not_eq_sym, app_slash_ne). done.
  - simpl. intros name' v' [[<- <-]|[Hne [Hne' Hv']%lookup_delete_Some]]%lookup_insert_Some.
    + exists i, n. rewrite lookup_insert_eq. split_and!; try done.
      intros q [[<- _]|[_ [Hq1 Hq2]%lookup_delete_Some]]%lookup_insert_Some; [done|]. by apply Hu in Hq2.
    + destruct (He name' v' Hv') as (j&n'&Hj&Hn'&Hvn&Hsn&Hun). exists j, n'.
      rewrite Hsame by (by intros ?%path_inj). split_and!; [done..|].
      intros q [[_ Hij]|[_ [_ Hq]%lookup_delete_Some]]%lookup_insert_Some; [|by apply Hun].
      subst j. apply Hu in Hj. by apply path_inj in Hj.
  - simpl. intros name' Hp' [Hm' Hne]%lookup_insert_None. rewrite lookup_insert_ne by (by intros ?%path_inj).
    destruct (decide (name' = a)) as [->|Hna]; [by rewrite lookup_delete_eq|].
    apply lookup_delete_None in Hm' as [?|Hm']; [congruence|]. rewrite lookup_delete_ne by (by intros ?%path_inj). by apply Ho.
  - simpl. intros p [j Hj] Hc. apply lookup_insert_Some in Hj as [[<- _]|[_ [_ Hj]%lookup_delete_Some]];
      [by exists b|]. apply Hpl; eauto.
Qed.

End changes.

(** ** The operations *)

Section refinement.
  Context `{Host} `{Space} (Hquiet : quiet _) (Hnf : no_faults _) (service : StorageService) (app_id : string).
  Context (Happ : is_valid_app_id app_id = true) (Huid : host_uid = ss_owner_uid service).
  Context (Hspace : ∀ d, (MAX_STORAGE_BLOB_BYTES + SYSTEM_FREE_SPACE_RESERVE_BYTES ≤ saturating_mul_u64 (statvfs d).1 (statvfs d).2)%Z).
Let root : string := ss_root service.
Let dir : string := path_join root app_id.
Let lib : bool := is_library app_id.
  Context (Hnul : existsb (λ b, bool_decide (b = Ascii.zero)) (bytes dir) = false).
  Local Notation path name := (dir +:+ "/" +:+ name).
  Local Notation represents d o := (represents (ss_owner_uid service) d root dir o).
  Implicit Types (m : store) (d : Disk).

Lemma dir_not_root s : path s ≠ root.
Proof.
  unfold dir. rewrite path_join_plain by (by apply app_id_plain). unfold join_prefix. intros Heq.
  apply (f_equal String.length) in Heq. destruct (_ || _); rewrite !str_length_app in Heq; simpl in Heq; lia.
Qed.

Lemma root_not_dir : dir ≠ root.
Proof.
  clear Hnul.
  unfold dir. pose proof (app_id_plain _ Happ) as Hp. rewrite path_join_plain by done. unfold join_prefix. intros Heq.
  apply (f_equal String.length) in Heq. assert (String.length app_id ≠ 0)%nat by (destruct Hp as [Hp _]; by destruct app_id).
  destruct (_ || _); rewrite !str_length_app in Heq; simpl in Heq; lia.
Qed.

Lemma node_file_at d p n : file_at d p = Some n → ∃ i, node_at d p = Some (i, n).
Proof. unfold file_at. destruct (node_at d p) as [[i n']|]; [|done]. intros [= <-]. eauto. Qed.

Lemma evals_metadata d p i n : node_at d p = Some (i, n) → evals d (fs_symlink_metadata p) (Ok (metadata_of i n)) d.
Proof. intros Hn. apply evals_op'; [done..|]. by rewrite Hn. Qed.
Lemma evals_metadata_None d p : node_at d p = None → evals d (fs_symlink_metadata p) (Err NotFound) d.
Proof. intros Hn. apply evals_op'; [done..|]. by rewrite Hn. Qed.

(** The guards on a secure node pass. *)
Lemma secure_guard kind i n :
  secure (ss_owner_uid service) kind n →
  negb (bool_decide (md_kind (metadata_of i n) = kind)) || negb (md_uid (metadata_of i n) =? ss_owner_uid service)%Z
  || shared_mode (metadata_of i n) = false.
Proof.
  intros (Hk&Hu&Hm). unfold shared_mode. simpl. rewrite Hk, Hu, Hm, Z.eqb_refl. by rewrite bool_decide_eq_true_2.
Qed.

Lemma evals_verify_root d o : represents d o → evals d (verify_root service) (Ok tt) d.
Proof.
  intros Hr. destruct (rp_root _ _ _ _ _ Hr) as (n&Hn&Hs). apply node_file_at in Hn as [i Hn].
  eapply evals_bind; [apply (evals_map_err _ _ _ (Ok _)), (evals_metadata _ _ _ _ Hn)|].
  apply evals_guard. by apply secure_guard.
Qed.

Lemma evals_verify_directory d n i :
  secure (ss_owner_uid service) Directory n → evals d (io_lift (verify_directory_metadata service (metadata_of i n))) (Ok tt) d.
Proof.
  intros Hs. pose proof (evals_lift d (verify_directory_metadata service (metadata_of i n))) as He.
  unfold verify_directory_metadata in He |- *. by rewrite secure_guard in He |- * by done.
Qed.

Lemma evals_ensure d m create : represents d (Some m) → evals d (ensure_app_directory service app_id create) (Ok dir) d.
Proof.
  intros Hr. unfold ensure_app_directory. eapply evals_bind; [by eapply evals_verify_root|]. cbv zeta. fold root dir.
  destruct (dh_dir _ _ _ _ (rp_dir _ _ _ _ _ Hr)) as (n&Hn&Hs). apply node_file_at in Hn as [i Hn].
  eapply evals_try; [by eapply evals_metadata|]. cbv beta iota.
  eapply evals_bind; [by eapply evals_verify_directory|]. apply evals_ret.
Qed.

Lemma evals_ensure_None d : represents d None → evals d (ensure_app_directory service app_id false) (Err (SsIo NotFound)) d.
Proof.
  intros Hr. unfold ensure_app_directory. eapply evals_bind; [by eapply evals_verify_root|]. cbv zeta. fold root dir.
  destruct (rp_dir _ _ _ _ _ Hr) as [Hd _].
  eapply evals_try; [apply evals_metadata_None; unfold node_at; by rewrite Hd|]. apply evals_err.
Qed.

Definition app_node : Inode := mkInode Directory [] host_uid 448 false.

Lemma evals_ensure_create d : represents d None →
  evals d (ensure_app_directory service app_id true) (Ok dir) (new_node dir app_node d) ∧
  represents (new_node dir app_node d) (Some ∅).
Proof.
  intros Hr. destruct (rp_dir _ _ _ _ _ Hr) as [Hd Hc].
  assert (secure (ss_owner_uid service) Directory app_node) as Hs by (split_and!; [done|done|by vm_compute]).
  assert (∀ i q, d_names d !! q = Some i → d_inodes (new_node dir app_node d) !! i = d_inodes d !! i) as Hold.
  { intros i q Hi. apply (proj1 (rp_wf _ _ _ _ _ Hr)) in Hi. simpl. by rewrite lookup_insert_ne by lia. }
  assert (node_at (new_node dir app_node d) dir = Some (d_next d, app_node)) as Hn.
  { unfold node_at. simpl. by rewrite !lookup_insert_eq. }
  split.
  - unfold ensure_app_directory. eapply evals_bind; [by eapply evals_verify_root|]. cbv zeta. fold root dir.
    eapply evals_try; [apply evals_metadata_None; unfold node_at; by rewrite Hd|]. cbv beta iota.
    eapply evals_bind. { apply (evals_map_err _ _ _ (Ok tt)), evals_op'; [done..|]. by rewrite Hd. }
    eapply evals_bind; [apply (evals_map_err _ _ _ (Ok _)); by eapply evals_metadata|].
    eapply evals_bind; [by apply evals_verify_directory|].
    eapply evals_bind; [by apply (evals_map_err _ _ _ (Ok tt)), evals_sync_directory|]. apply evals_ret.
  - split; [by apply disk_wf_new, Hr| |split].
    + destruct (rp_root _ _ _ _ _ Hr) as (n&Hn'&Hs'). exists n. split; [|done]. rewrite <- Hn'. rewrite !file_at_ino. simpl.
      rewrite lookup_insert_ne by apply root_not_dir. destruct (d_names d !! root) as [j|] eqn:Hj; [|done].
      by apply (Hold j root).
    + exists app_node. unfold file_at. by rewrite Hn.
    + done.
    + intros name Hp _. simpl. rewrite lookup_insert_ne by (apply not_eq_sym, app_slash_ne). by apply Hc, child_entry.
    + simpl. intros p [j Hj] Hp. exfalso. apply lookup_insert_Some in Hj as [[<- _]|[_ Hj]].
      * unfold child_of in Hp. destruct (strip_prefix (dir +:+ "/") dir) as [s|] eqn:Hs'; [|done].
        apply strip_prefix_Some in Hs'. rewrite str_app_assoc in Hs'. by apply eq_sym, app_slash_ne in Hs'.
      * by rewrite (Hc p Hp) in Hj.
Qed.

Lemma evals_app_directory d o :
  represents d o → evals d (app_directory service app_id) (Ok (match o with Some _ => Some dir | None => None end)) d.
Proof.
  intros Hr. unfold app_directory. destruct o as [m|].
  - eapply evals_try; [by eapply evals_ensure|]. apply evals_ret.
  - eapply evals_try; [by apply evals_ensure_None|]. apply evals_ret.
Qed.

(** Opening an entry: [Some] with its inode when it is within the limit. *)
Lemma evals_open_checked d m name limit :
  represents d (Some m) → plain_name name → (∀ v, m !! name = Some v → (0 < file_len v)%Z) →
  match m !! name with
  | None => evals d (open_checked service (path name) limit) (Ok None) d
  | Some v => ∃ i n, d_names d !! path name = Some i ∧ d_inodes d !! i = Some n ∧ i_data n = v ∧
      evals d (open_checked service (path name) limit)
        (if (limit <? file_len v)%Z then Err SsInvalidEntry else Ok (Some i)) d
  end.
Proof.
  intros Hr Hp Hpos. destruct (m !! name) as [v|] eqn:Hm.
  - destruct (holds_lookup _ _ _ _ _ _ _ Hr Hm) as (i&n&Hi&Hnode&Hn&Hv&Hs). exists i, n. split_and!; [done..|].
    unfold open_checked. eapply evals_try.
    { apply (evals_op' Hquiet Hnf _ _ _ (Ok i) d). rewrite Hnode. destruct Hs as [-> _]. done. }
    cbv beta iota. eapply evals_bind.
    { apply (evals_map_err _ _ _ (Ok _)), (evals_op' Hquiet Hnf _ _ _ (Ok (metadata_of i n)) d). by rewrite Hn. }
    assert (md_len (metadata_of i n) = file_len v) as Hlen by (simpl; by rewrite Hv).
    rewrite secure_guard, Hlen by done. rewrite (proj2 (Z.eqb_neq _ _)) by (specialize (Hpos v eq_refl); lia).
    cbn [orb]. destruct (limit <? file_len v)%Z.
    + by eapply evals_bind_err, evals_guard_err.
    + by eapply evals_bind; [apply evals_guard|apply evals_ret].
  - unfold open_checked. eapply (evals_try _ _ _ (Err NotFound) d); [|apply evals_ret].
    apply (evals_op' Hquiet Hnf). by rewrite (holds_lookup_None _ _ _ _ _ _ Hr Hp Hm).
Qed.

Lemma evals_existing d m name limit :
  represents d (Some m) → plain_name name → (∀ v, m !! name = Some v → (0 < file_len v)%Z) →
  evals d (existing_size (open_checked service (path name) limit)) (spec_existing m name limit) d.
Proof.
  intros Hr Hp Hpos. pose proof (evals_open_checked d m name limit Hr Hp Hpos) as Ho. unfold existing_size, spec_existing.
  destruct (m !! name) as [v|] eqn:Hm.
  - destruct Ho as (i&n&Hi&Hn&Hv&Ho). destruct (limit <? file_len v)%Z; [by eapply evals_bind_err|].
    eapply evals_bind; [exact Ho|]. cbv beta iota. eapply evals_bind.
    { apply (evals_map_err _ _ _ (Ok _)), (evals_op' Hquiet Hnf _ _ _ (Ok (metadata_of i n)) d). by rewrite Hn. }
    simpl. rewrite Hv. apply evals_ret.
  - eapply evals_bind; [exact Ho|]. apply evals_ret.
Qed.

Lemma evals_remove_file d m name v :
  represents d (Some m) → m !! name = Some v →
  evals d (fs_remove_file (path name)) (Ok tt) (with_names (delete (path name) (d_names d)) d).
Proof.
  intros Hr Hm. destruct (holds_lookup _ _ _ _ _ _ _ Hr Hm) as (i&n&Hi&Hnode&Hn&Hv&Hs).
  apply (evals_op' Hquiet Hnf). rewrite Hnode. destruct Hs as [-> _]. done.
Qed.

(** Removing a staged blob that may be there. *)
Lemma wp_remove_stale d m name (Q : result StorageServiceError unit → Disk → Prop) :
  represents d (Some m) → plain_name name → (∀ v, m !! name = Some v → (file_len v ≤ MAX_STORAGE_BLOB_BYTES)%Z) →
  (∀ d', represents d' (Some (delete name m)) → Q (Ok tt) d') → wp d (remove_stale_blob service (path name)) Q.
Proof.
  intros Hr Hp Hle HQ. pose proof (represents_remove _ _ _ dir_not_root d m name Hr Hp) as Hafter.
  destruct (m !! name) as [v|] eqn:Hm.
  - destruct (holds_lookup _ _ _ _ _ _ _ Hr Hm) as (i&n&Hi&Hnode&Hn&Hv&Hs).
    eapply wp_evals; [|by apply HQ]. unfold remove_stale_blob. eapply evals_try; [by eapply evals_metadata|]. cbv beta iota.
    eapply evals_bind; [apply evals_guard|by apply (evals_map_err _ _ _ (Ok tt)), (evals_remove_file d m name v)].
    rewrite secure_guard by done. simpl. apply Z.ltb_ge. rewrite Hv. apply (Hle v eq_refl).
  - eapply wp_evals; [eapply evals_try; [by apply evals_metadata_None, (holds_lookup_None _ _ _ _ _ _ Hr)|apply evals_ret]|].
    apply HQ. rewrite delete_id by done. done.
Qed.

Lemma evals_free_space d n : (n ≤ MAX_STORAGE_BLOB_BYTES)%Z → evals d (require_free_space dir n) (Ok tt) d.
Proof.
  intros Hn. unfold require_free_space. eapply evals_bind; [by apply evals_guard|].
  eapply evals_bind; [by apply (evals_map_err _ _ _ (Ok (statvfs d))), (evals_op' Hquiet Hnf)|].
  apply evals_guard, Z.ltb_ge. specialize (Hspace d). unfold saturating_add_u64. lia.
Qed.

Lemma total_of_nonneg es : (0 ≤ total_of es)%Z.
Proof. induction es as [|e es IH]; simpl; [done|]. unfold file_len. lia. Qed.

Lemma evals_inspect_entries d m es used keys :
  represents d (Some m) → store_ok lib m → Forall (λ e, m !! e.1 = Some e.2) es →
  (0 ≤ used ≤ u64_max)%Z → (lib = false → keys + count_if (λ e, negb (hidden e.1)) es ≤ MAX_STORAGE_KEYS)%nat →
  evals d (inspect_entries service dir lib (map (λ e, path e.1) es) used keys)
    (if (used + total_of es <=? u64_max)%Z then Ok ((used + total_of es)%Z, (keys + count_if (λ e, negb (hidden e.1)) es)%nat)
     else Err SsQuotaExceeded) d.
Proof.
  intros Hr Hok. revert used keys. induction es as [|[name v] es IH]; intros used keys Hes Hu Hk; cbn [map inspect_entries].
  { cbn [total_of foldr count_if List.filter length]. rewrite Z.add_0_r, Nat.add_0_r, (proj2 (Z.leb_le _ _)) by lia.
    eapply evals_bind; [by apply (evals_map_err _ _ _ (Ok tt)), evals_next_entry|]. apply evals_ret. }
  apply Forall_cons in Hes as [Hm Hes]. cbn [fst snd] in *.
  destruct (entry_facts _ _ _ (so_entries _ _ Hok name v Hm)) as (Hp&Hutf&Hlen&Hhid).
  pose proof (so_entries _ _ Hok name v Hm) as Hentry.
  destruct (holds_lookup _ _ _ _ _ _ _ Hr Hm) as (i&n&Hi&Hnode&Hn&Hv&Hs).
  eapply evals_bind; [by apply (evals_map_err _ _ _ (Ok tt)), evals_next_entry|].
  eapply (evals_bind _ _ _ name d).
  { assert (entry_name dir (path name) = Ok name) as ->; [|apply evals_lift].
    unfold entry_name. by rewrite <- str_app_assoc, strip_prefix_app, Hutf. }
  eapply evals_bind; [apply (evals_map_err _ _ _ (Ok _)); by eapply evals_metadata|]. cbv zeta.
  assert (md_len (metadata_of i n) = file_len v) as Hmd by (simpl; by rewrite Hv). rewrite !Hmd.
  eapply evals_bind; [apply evals_guard|].
  { rewrite secure_guard by done. rewrite (proj2 (Z.eqb_neq _ _)) by lia. cbn [orb]. apply Z.ltb_ge.
    by apply entry_limit. }
  unfold checked_add_u64. cbn [total_of foldr snd]. fold (total_of es). pose proof (total_of_nonneg es).
  destruct (Z.leb_spec (used + file_len v) u64_max) as [Hle|Hgt].
  - eapply evals_bind; [apply evals_lift|]. fold (hidden name).
    assert (count_if (λ e, negb (hidden e.1)) ((name, v) :: es)
      = ((if hidden name then 0 else 1) + count_if (λ e, negb (hidden e.1)) es)%nat) as Hcount.
    { unfold count_if. cbn [List.filter fst]. by destruct (hidden name). }
    rewrite Hcount in Hk |- *. cbn [fst snd]. rewrite Z.add_assoc.
    destruct (hidden name).
    + apply IH; [done|lia|]. intros Hl. specialize (Hk Hl). lia.
    + eapply (evals_bind _ _ _ tt d); [rewrite Hhid; apply evals_lift|].
      replace (keys + (1 + count_if (λ e, negb (hidden e.1)) es))%nat with (S keys + count_if (λ e, negb (hidden e.1)) es)%nat by lia.
      eapply evals_bind; [apply evals_guard|apply IH; [done|lia|]].
      * destruct lib; [done|]. apply Nat.ltb_ge. specialize (Hk eq_refl). lia.
      * intros Hl. specialize (Hk Hl). lia.
  - rewrite (proj2 (Z.leb_gt _ _)) by lia. eapply evals_bind_err, evals_lift.
Qed.

(** The inspection of a directory sums up its map. *)
Lemma evals_inspect d m : represents d (Some m) → store_ok lib m → evals d (inspect_directory service dir lib) (spec_inspect m) d.
Proof.
  intros Hr Hok. destruct (rp_dir _ _ _ _ _ Hr) as [(n&Hn&Hs) He Ho Hpl]. apply node_file_at in Hn as [i Hn].
  set (l := List.filter (child_of dir) (map_to_list (d_names d)).*1).
  assert (l ≡ₚ map (λ e, path e.1) (map_to_list m)) as Hl.
  { apply NoDup_Permutation.
    - apply NoDup_ListNoDup, List.NoDup_filter, NoDup_ListNoDup, NoDup_fst_map_to_list.
    - assert (map (λ e : string * list ascii, path e.1) (map_to_list m) = (λ name, path name) <$> (map_to_list m).*1) as ->
        by (by rewrite <- list_fmap_compose).
      apply NoDup_fmap_2; [intros ??; apply path_inj|apply NoDup_fst_map_to_list].
    - intros p. unfold l. rewrite list_elem_of_In, filter_In, <- list_elem_of_In.
      rewrite !list_elem_of_fmap. split.
      + intros [([q j]&->&Hj) Hc]. apply elem_of_map_to_list in Hj. simpl in *.
        destruct (Hpl q) as (name&Hp&->); [eauto|done|]. destruct (m !! name) as [v|] eqn:Hm.
        * exists (name, v). by rewrite elem_of_map_to_list.
        * by rewrite (Ho name Hp Hm) in Hj.
      + intros ([name v]&->&Hm). apply elem_of_map_to_list in Hm. destruct (He name v Hm) as (j&n'&Hj&_). split.
        * exists (path name, j). by rewrite elem_of_map_to_list.
        * apply child_entry. by eapply entry_facts, so_entries. }
  apply Permutation_map_inv in Hl as (es&Hl&Hes).
  unfold inspect_directory. eapply evals_bind.
  { apply (evals_map_err _ _ _ (Ok l)), (evals_op' Hquiet Hnf). rewrite Hn. destruct Hs as [-> _]. done. }
  rewrite Hl.
  assert (total m = total_of es ∧ key_count m = count_if (λ e, negb (hidden e.1)) es) as [Ht Hc].
  { split; [by apply total_of_perm|by apply count_if_perm]. }
  pose proof (evals_inspect_entries d m es 0 0 Hr Hok) as Hrun. unfold spec_inspect. rewrite Ht, Hc. apply Hrun.
  - apply Forall_forall. intros [name v] Hin. rewrite <- Hes in Hin. by apply elem_of_map_to_list in Hin.
  - done.
  - intros Hlib. rewrite <- Hc. by apply (so_count _ _ Hok).
Qed.

(** *** Writing *)

Lemma key_path key : plain_name key → path_join dir key = path key.
Proof. intros Hk. unfold dir. by rewrite path_join_entry by (done || by apply app_id_plain). Qed.

Lemma wp_ensure d o Q :
  represents d o → (∀ d', represents d' (Some (default ∅ o)) → Q (Ok dir) d') →
  wp d (ensure_app_directory service app_id true) Q.
Proof.
  intros Hr HQ. destruct o as [m|].
  - eapply wp_evals; [by eapply evals_ensure|]. by apply HQ.
  - destruct (evals_ensure_create d Hr) as [He Hr']. eapply wp_evals; [exact He|]. by apply HQ.
Qed.

(** Appending to and syncing a file of the directory. *)
Lemma represents_write d m name v i f n :
  represents d (Some m) → m !! name = Some v → d_names d !! path name = Some i → d_inodes d !! i = Some n →
  i_kind (f n) = i_kind n → i_uid (f n) = i_uid n → i_mode (f n) = i_mode n →
  represents (alter_inode f i d) (Some (<[name := i_data (f n)]> m)) ∧
  d_names (alter_inode f i d) !! path name = Some i ∧ d_inodes (alter_inode f i d) !! i = Some (f n).
Proof.
  intros Hr Hm Hi Hn Hk Hu Hmo. destruct (holds_lookup _ _ _ _ _ _ _ Hr Hm) as (i'&n'&Hi'&_&Hn'&_&Hs).
  rewrite Hi in Hi'. injection Hi' as <-. rewrite Hn in Hn'. injection Hn' as <-. split_and!; [|done|].
  - apply (represents_alter _ _ _ dir_not_root d m name i f n); [done|by eexists|done..|].
    unfold private_file, secure. by rewrite Hk, Hu, Hmo.
  - simpl. by rewrite lookup_alter_eq, Hn.
Qed.

Lemma private_new bs : private_file (ss_owner_uid service) (mkInode RegularFile bs host_uid 384 false).
Proof. unfold private_file, secure. simpl. rewrite Huid. done. Qed.

Lemma wp_replace d m temporary key value :
  represents d (Some m) → plain_name temporary → plain_name key → temporary ≠ key → m !! temporary = None →
  wp d (io_map_err atomic_to_io (replace_steps (path temporary) (path key) dir (Some value)))
    (λ r d', r = Ok tt ∧ represents d' (Some (<[key := value]> m))).
Proof.
  intros Hr Hpt Hpk Hne Hfree. set (n := mkInode RegularFile [] host_uid 384 false).
  pose proof (represents_create _ _ _ dir_not_root d m temporary n Hr Hpt Hfree (private_new [])) as Hr1.
  destruct (represents_write _ _ temporary _ (d_next d) (append_data value) n Hr1 (lookup_insert_eq _ _ _)) as (Hr2&Hn2&Hi2);
    [by simpl; rewrite lookup_insert_eq..|done|done|done|].
  rewrite insert_insert_eq in Hr2. set (d2 := alter_inode (append_data value) (d_next d) _) in *.
  destruct (represents_write _ _ temporary _ (d_next d) set_synced (append_data value n) Hr2 (lookup_insert_eq _ _ _) Hn2 Hi2)
    as (Hr3&Hn3&Hi3); [done..|]. rewrite insert_insert_eq in Hr3.
  pose proof (represents_rename _ _ _ dir_not_root _ _ temporary key value (d_next d) Hr3 Hne Hpt Hpk) as Hr4.
  rewrite lookup_insert_eq in Hr4. specialize (Hr4 eq_refl Hn3). rewrite delete_insert_id in Hr4 by done.
  eapply wp_evals; [|split; [|exact Hr4]; reflexivity].
  apply (evals_map_err atomic_to_io _ _ (Ok tt)). unfold replace_steps.
  eapply evals_bind.
  { apply (evals_map_err _ _ _ (Ok (d_next d))), (evals_op' Hquiet Hnf). 
    by rewrite (dh_only _ _ _ _ (rp_dir _ _ _ _ _ Hr) temporary Hpt Hfree). }
  eapply evals_bind; [apply (evals_lift _ (Ok value))|].
  eapply evals_bind; [by apply (evals_map_err _ _ _ (Ok tt)), (evals_op' Hquiet Hnf)|].
  eapply evals_bind; [by apply (evals_map_err _ _ _ (Ok tt)), (evals_op' Hquiet Hnf)|].
  eapply evals_bind.
  { apply (evals_map_err _ _ _ (Ok tt)), (evals_op' Hquiet Hnf). fold n. fold (new_node (path temporary) n d). fold d2.
    by rewrite Hn3. }
  by apply (evals_map_err _ _ _ (Ok tt)), evals_sync_directory.
Qed.

Lemma temporary_not_stored m nonce : store_ok lib m → m !! temporary_value_name nonce = None.
Proof.
  intros Hok. destruct (m !! _) as [v|] eqn:Hm; [|done]. exfalso.
  destruct (so_entries _ _ Hok _ _ Hm) as [_ [[Hk _]|(_&key&Heq&_)]]; [|done]. exact (storage_key_not_hidden _ _ Hk eq_refl).
Qed.

Lemma stored_positive m name v : store_ok lib m → m !! name = Some v → (0 < file_len v)%Z.
Proof. intros Hok Hm. apply (so_entries _ _ Hok _ _ Hm). Qed.

Lemma wp_nonce {E A} d (k : Z → IO E A) Q : (∀ nonce, wp d (k nonce) Q) → wp d (io_bind monotonic_nonce k) Q.
Proof. intros Hk w Hw. by apply Hk. Qed.

(** A step whose outcome is a specified result. *)
Lemma wp_result {E A B} d (p : IO E A) (k : A → IO E B) (r : result E A) Q :
  evals d p r d → r ≠ Panicked → (∀ a, r = Ok a → wp d (k a) Q) → (∀ e, r = Err e → Q (Err e) d) → wp d (io_bind p k) Q.
Proof. intros Hp Hr Hok Herr. eapply wp_step; [exact Hp|]. destruct r; simpl; auto. done. Qed.

Lemma spec_inspect_np m : spec_inspect m ≠ Panicked.
Proof. unfold spec_inspect. by case_match. Qed.
Lemma spec_existing_np m key limit : spec_existing m key limit ≠ Panicked.
Proof. unfold spec_existing. by repeat case_match. Qed.
Lemma projected_np a b c : projected_usage a b c ≠ Panicked.
Proof. unfold projected_usage, checked_add_u64. by repeat case_match. Qed.

(** The answer [r] with the store [m] on the final disk. *)
Definition answers {A} (s : result StorageServiceError A * store) (r : result StorageServiceError A) (d : Disk) : Prop :=
  r = s.1 ∧ represents d (Some s.2).

Lemma wp_put d o quota key value :
  represents d o → store_ok lib (default ∅ o) → validate_key key = Ok tt → (file_len value ≤ Z.of_nat MAX_STORAGE_VALUE_BYTES)%Z →
  wp d (StorageService_put service app_id quota key value) (answers (spec_put lib (default ∅ o) quota key value)).
Proof.
  intros Hr Hok Hk Hv. set (m := default ∅ o) in *. pose proof (key_plain _ Hk) as Hp. unfold StorageService_put.
  eapply wp_step; [unfold checked_key; rewrite Hk; apply evals_lift|]. cbn [wp_next map_err].
  eapply wp_bind; [apply (wp_ensure d o (λ r d', r = Ok dir ∧ represents d' (Some m))); auto|].
  intros ? d1 [-> Hr1]. cbn [wp_next map_err]. cbv zeta. rewrite (key_path key) by done. fold lib.
  unfold answers, spec_put.
  eapply wp_result; [by apply evals_inspect|apply spec_inspect_np| |by intros e ->].
  intros inspected ->. eapply wp_result;
    [apply evals_existing; [done..|]; intros; by eapply stored_positive|apply spec_existing_np| |by intros e ->].
  intros existing ->.
  destruct (negb lib && (existing =? 0)%Z && (MAX_STORAGE_KEYS <=? inspected.2)%nat) eqn:Hfull.
  { eapply wp_step; [by apply evals_guard_err|]. done. }
  eapply wp_step; [by apply evals_guard|]. cbn [wp_next map_err]. unfold spec_projected.
  eapply wp_result; [apply evals_lift|apply projected_np| |by intros e ->].
  intros projected ->. destruct (quota <? projected)%Z eqn:Hq.
  { eapply wp_step; [by apply evals_guard_err|]. done. }
  eapply wp_step; [by apply evals_guard|]. cbn [wp_next map_err is_ok fst snd].
  eapply wp_step; [apply evals_free_space; unfold MAX_STORAGE_BLOB_BYTES, MAX_STORAGE_VALUE_BYTES in *; lia|]. cbn [wp_next map_err].
  apply wp_nonce. intros nonce. cbv zeta. pose proof (temporary_value_plain nonce) as Hpt.
  rewrite (key_path (temporary_value_name nonce)) by done. eapply wp_try.
  { apply (wp_replace d1 m); [done..| |by apply temporary_not_stored].
    intros Heq. rewrite <- Heq in Hk. exact (storage_key_not_hidden _ _ Hk eq_refl). }
  intros ? d2 [-> Hr2]. by apply wp_ret.
Qed.

(** *** Reading and deleting *)

Lemma evals_get d o key :
  represents d o → store_ok lib (default ∅ o) → validate_key key = Ok tt →
  evals d (StorageService_get service app_id key) (spec_get (default ∅ o) key) d.
Proof.
  intros Hr Hok Hk. pose proof (key_plain _ Hk) as Hp. unfold StorageService_get.
  eapply evals_bind; [unfold checked_key; rewrite Hk; apply evals_lift|].
  eapply evals_bind; [by apply evals_app_directory|]. destruct o as [m|]; [|apply evals_ret]. cbn [from_option id] in Hok.
  rewrite key_path by done. unfold spec_get, spec_existing. cbn [from_option id].
  pose proof (evals_open_checked d m key (Z.of_nat MAX_STORAGE_VALUE_BYTES) Hr Hp) as Ho.
  specialize (Ho (λ v, stored_positive m key v Hok)).
  destruct (m !! key) as [v|] eqn:Hm; [|by eapply evals_bind; [exact Ho|apply evals_ret]].
  destruct Ho as (i&n&Hi&Hn&Hv&Ho). pose proof (stored_positive m key v Hok Hm) as Hpos.
  destruct (Z.ltb_spec (Z.of_nat MAX_STORAGE_VALUE_BYTES) (file_len v)) as [|Hle]; [by eapply evals_bind_err|].
  eapply evals_bind; [exact Ho|]. cbv beta iota.
  eapply evals_bind.
  { apply (evals_map_err _ _ _ (Ok (metadata_of i n))), (evals_op' Hquiet Hnf). by rewrite Hn. }
  cbv zeta. assert (md_len (metadata_of i n) = file_len v) as -> by (simpl; by rewrite Hv).
  eapply evals_bind; [apply evals_guard|].
  { rewrite (proj2 (Z.eqb_neq _ _)) by lia. by apply Z.ltb_ge. }
  eapply evals_bind.
  { apply (evals_map_err _ _ _ (Ok v)), (evals_op' Hquiet Hnf). by rewrite Hn, Hv. }
  rewrite take_ge by (unfold file_len in *; lia).
  eapply evals_bind; [apply evals_guard; by rewrite Z.eqb_refl|]. apply evals_ret.
Qed.

Lemma evals_usage d o :
  represents d o → store_ok lib (default ∅ o) →
  evals d (StorageService_usage service app_id)
    (let? inspected := match o with None => Ok (0%Z, 0%nat) | Some m => spec_inspect m end in Ok inspected.1) d.
Proof.
  intros Hr Hok. unfold StorageService_usage. eapply evals_bind; [by apply evals_app_directory|].
  destruct o as [m|]; [|apply evals_ret]. pose proof (evals_inspect d m Hr Hok) as Hi. fold lib.
  unfold spec_inspect in *. case_match; [by eapply evals_bind; [exact Hi|apply evals_ret]|by eapply evals_bind_err].
Qed.

(** Inspecting what is left, and the answer with it. *)
Lemma wp_inspect_then {A} d m (f : Z * nat → A) :
  represents d (Some m) → store_ok lib m →
  wp d (let! inspected := inspect_directory service dir lib in io_ret (f inspected))
    (answers (let? inspected := spec_inspect m in Ok (f inspected), m)).
Proof.
  intros Hr Hok. eapply wp_result; [by apply evals_inspect|apply spec_inspect_np| |by intros e ->].
  intros inspected ->. by apply wp_ret.
Qed.

Lemma store_ok_delete m name : store_ok lib m → store_ok lib (delete name m).
Proof.
  intros [He Hc]. split; [|intros Hl; pose proof (key_count_delete m name); specialize (Hc Hl); lia].
  intros name' v [_ Hv]%lookup_delete_Some. by apply He.
Qed.

Lemma wp_delete d m key :
  represents d (Some m) → store_ok lib m → validate_key key = Ok tt →
  wp d (StorageService_delete service app_id key) (answers (spec_delete m key)).
Proof.
  intros Hr Hok Hk. pose proof (key_plain _ Hk) as Hp. unfold StorageService_delete.
  eapply wp_step; [unfold checked_key; rewrite Hk; apply evals_lift|]. cbn [wp_next map_err].
  eapply wp_step; [by apply (evals_app_directory d (Some m))|]. cbn [wp_next map_err]. cbv zeta. rewrite key_path by done. fold lib.
  pose proof (evals_open_checked d m key (Z.of_nat MAX_STORAGE_VALUE_BYTES) Hr Hp (λ v, stored_positive m key v Hok)) as Ho.
  unfold spec_delete, spec_existing. destruct (m !! key) as [v|] eqn:Hm.
  - destruct Ho as (i&n&_&_&_&Ho). destruct (Z.of_nat MAX_STORAGE_VALUE_BYTES <? file_len v)%Z.
    { eapply wp_step; [exact Ho|]. done. }
    eapply wp_step; [exact Ho|]. cbn [wp_next map_err].
    eapply wp_step; [by apply (evals_map_err _ _ _ (Ok tt)), (evals_remove_file d m key v)|]. cbn [wp_next map_err].
    eapply wp_step; [by apply (evals_map_err _ _ _ (Ok tt)), evals_sync_directory|]. cbn [wp_next map_err].
    rewrite bool_decide_eq_true_2 by eauto. apply (wp_inspect_then _ _ (λ inspected, (true, inspected.1))).
    + by apply (represents_remove _ _ _ dir_not_root).
    + by apply store_ok_delete.
  - eapply wp_step; [exact Ho|]. cbn [wp_next map_err]. rewrite bool_decide_eq_false_2 by (by intros []). rewrite delete_id by done.
    by apply (wp_inspect_then _ _ (λ inspected, (false, inspected.1))).
Qed.

(** *** Blobs *)

Section blobs.
  Context (Hlib : lib = true) (key : string) (Hk : validate_key key = Ok tt).
Let staging : string := BLOB_PREFIX +:+ key.

Lemma staging_plain : plain_name staging.
Proof. by apply blob_plain. Qed.
Lemma staging_not_key : staging ≠ key.
Proof. intros Heq. unfold staging in Heq. apply (f_equal String.length) in Heq. rewrite str_length_app in Heq. simpl in Heq. lia. Qed.

Lemma store_ok_insert_blob m name v :
  store_ok lib m → (name = key ∨ name = staging) → (0 < file_len v ≤ MAX_STORAGE_BLOB_BYTES)%Z → store_ok lib (<[name := v]> m).
Proof.
  intros [He _] Hname Hv. split; [|by rewrite Hlib].
  intros name' v' [[<- <-]|[_ ?]]%lookup_insert_Some; [|by apply He]. split; [lia|].
  destruct Hname as [->| ->]; [left|right].
  - rewrite Hlib. split; [done|apply Hv].
  - split; [done|]. exists key. split_and!; [done..|apply Hv].
Qed.

(** The part of [put_blob_chunk] after the staging file was opened. *)
Definition blob_tail (file : Z) (projected offset total_bytes : Z) (value : list ascii) : IO StorageServiceError Z :=
  let! metadata := io (fs_file_metadata file) in
  let! _ := io_guard (negb (bool_decide (md_kind metadata = RegularFile))
                      || negb (md_uid metadata =? ss_owner_uid service)%Z || shared_mode metadata
                      || negb (md_len metadata =? offset)%Z) SsInvalidEntry in
  let! _ := io (fs_write_at file (Z.to_nat offset) value) in
  if (offset + file_len value =? total_bytes)%Z then
    let! _ := io (fs_sync_all file) in
    let! _ := io (fs_rename (path staging) (path key)) in
    let! _ := io (fs_sync_directory dir) in
    StorageService_usage service app_id
  else io_ret projected.

Lemma write_data_append s value n : i_data n = s → i_data (write_data (length s) value n) = s ++ value.
Proof.
  intros Hn. simpl. rewrite Hn, take_ge, Nat.sub_diag, drop_ge by lia. simpl. by rewrite app_nil_r.
Qed.

Lemma wp_blob_tail d m i s projected offset total_bytes value :
  represents d (Some m) → store_ok lib (delete staging m) → m !! staging = Some s → d_names d !! path staging = Some i →
  (0 ≤ offset)%Z → (0 < file_len value)%Z → (offset + file_len value ≤ total_bytes ≤ MAX_STORAGE_BLOB_BYTES)%Z →
  wp d (blob_tail i projected offset total_bytes value)
    (answers (if negb (file_len s =? offset)%Z then (Err SsInvalidEntry, m)
              else if (offset + file_len value =? total_bytes)%Z
              then (let? inspected := spec_inspect (<[key := s ++ value]> (delete staging m)) in Ok inspected.1,
                    <[key := s ++ value]> (delete staging m))
              else (Ok projected, <[staging := s ++ value]> m))).
Proof.
  intros Hr Hok Hm Hi Hoff Hval Htot. unfold blob_tail.
  destruct (holds_lookup _ _ _ _ _ _ _ Hr Hm) as (i'&n&Hi'&_&Hn&Hs&Hsec). rewrite Hi in Hi'. injection Hi' as <-.
  eapply wp_step.
  { apply (evals_map_err _ _ _ (Ok (metadata_of i n))), (evals_op' Hquiet Hnf). by rewrite Hn. }
  cbn [wp_next map_err]. rewrite secure_guard by done. assert (md_len (metadata_of i n) = file_len s) as -> by (simpl; by rewrite Hs).
  cbn [orb]. destruct (Z.eqb_spec (file_len s) offset) as [Hlen|Hlen]; cbn [negb].
  2: { eapply wp_step; [by apply evals_guard_err|]. done. }
  eapply wp_step; [by apply evals_guard|]. cbn [wp_next map_err].
  destruct (represents_write d m staging s i (write_data (Z.to_nat offset) value) n) as (Hr1&Hn1&Hi1); [done..|].
  assert (Z.to_nat offset = length s) as Hnat by (unfold file_len in Hlen; lia).
  rewrite Hnat, write_data_append in Hr1 by done. rewrite Hnat in Hn1, Hi1 |- *.
  eapply wp_step; [by apply (evals_map_err _ _ _ (Ok tt)), (evals_op' Hquiet Hnf)|]. cbn [wp_next map_err].
  set (d1 := alter_inode _ i d) in *. set (n1 := write_data _ value n) in *.
  destruct (Z.eqb_spec (offset + file_len value) total_bytes) as [Hfull|Hpart]; [|by apply wp_ret].
  destruct (represents_write d1 _ staging (s ++ value) i set_synced n1 Hr1 (lookup_insert_eq _ _ _) Hn1 Hi1)
    as (Hr2&Hn2&Hi2); [done..|].
  assert (i_data (set_synced n1) = s ++ value) as Hdata by (by apply write_data_append).
  rewrite Hdata, insert_insert_eq in Hr2.
  eapply wp_step; [by apply (evals_map_err _ _ _ (Ok tt)), (evals_op' Hquiet Hnf)|]. cbn [wp_next map_err].
  pose proof (represents_rename _ _ _ dir_not_root _ _ staging key (s ++ value) i Hr2 staging_not_key staging_plain (key_plain _ Hk)
    (lookup_insert_eq _ _ _) Hn2) as Hr3.
  rewrite delete_insert_eq in Hr3.
  eapply wp_step. { apply (evals_map_err _ _ _ (Ok tt)), (evals_op' Hquiet Hnf). by rewrite Hn2. }
  cbn [wp_next map_err]. eapply wp_step; [by apply (evals_map_err _ _ _ (Ok tt)), evals_sync_directory|]. cbn [wp_next map_err].
  eapply wp_evals; [eapply evals_usage; [exact Hr3|]|by split].
  apply store_ok_insert_blob; [done|by left|]. unfold file_len in *. rewrite length_app. lia.
Qed.

Lemma staging_positive m v : store_ok lib m → m !! staging = Some v → (file_len v ≤ MAX_STORAGE_BLOB_BYTES)%Z.
Proof. intros Hok Hm. by apply (entry_facts _ _ _ (so_entries _ _ Hok _ _ Hm)). Qed.

(** The first chunk: a stale upload is dropped and the quota checked. *)
Lemma wp_begin_blob d m quota total_bytes Q :
  represents d (Some m) → store_ok lib m → (total_bytes ≤ MAX_STORAGE_BLOB_BYTES)%Z →
  let m' := delete staging m in
  let r := (let? inspected := spec_inspect m' in
            let? existing := spec_existing m' key MAX_STORAGE_BLOB_BYTES in
            spec_projected inspected.1 existing total_bytes quota) in
  (∀ d', represents d' (Some m') → r ≠ Panicked → Q r d') →
  wp d (begin_blob service dir (path key) (path staging) quota total_bytes) Q.
Proof.
  intros Hr Hok Htot m' r HQ. unfold begin_blob. eapply wp_bind.
  { apply (wp_remove_stale d m staging (λ r d', r = Ok tt ∧ represents d' (Some m'))); [done|apply staging_plain| |done].
    intros v. by apply staging_positive. }
  intros ? d1 [-> Hr1]. cbn [wp_next map_err]. specialize (HQ d1 Hr1).
  assert (store_ok lib m') as Hok' by (by apply store_ok_delete).
  pose proof (evals_inspect d1 m' Hr1 Hok') as Hinspect. rewrite Hlib in Hinspect.
  unfold r in HQ. eapply wp_result; [exact Hinspect|apply spec_inspect_np| |intros e Heq; rewrite Heq in HQ; by apply HQ].
  intros inspected Heq. rewrite Heq in HQ. eapply wp_result;
    [apply evals_existing; [done|by apply key_plain|intros; by eapply stored_positive]|apply spec_existing_np
    | |intros e Heq'; rewrite Heq' in HQ; by apply HQ].
  intros existing Heq'. rewrite Heq' in HQ. unfold spec_projected in HQ. eapply wp_result;
    [apply evals_lift|apply projected_np| |intros e Hp; rewrite Hp in HQ; by apply HQ].
  intros projected Hp. rewrite Hp in HQ. destruct (quota <? projected)%Z eqn:Hq.
  { eapply wp_step; [by apply evals_guard_err|]. by apply HQ. }
  eapply wp_step; [by apply evals_guard|]. cbn [wp_next map_err].
  eapply wp_step; [by apply evals_free_space|]. apply wp_ret. by apply HQ.
Qed.

Lemma wp_put_blob_chunk d o quota offset total_bytes value :
  represents d o → store_ok lib (default ∅ o) → (0 ≤ offset)%Z → (0 < file_len value)%Z →
  (offset + file_len value ≤ total_bytes ≤ MAX_STORAGE_BLOB_BYTES)%Z →
  wp d (StorageService_put_blob_chunk service app_id quota key offset total_bytes value)
    (answers (spec_put_blob_chunk (default ∅ o) quota key offset total_bytes value)).
Proof.
  intros Hr Hok Hoff Hval Htot. set (m := default ∅ o) in *. unfold StorageService_put_blob_chunk.
  eapply wp_step; [apply evals_guard|].
  { fold lib. rewrite Hlib. unfold file_len in *. cbn [negb orb].
    rewrite (proj2 (Nat.eqb_neq _ _)), (proj2 (Z.eqb_neq _ _)), !(proj2 (Z.ltb_ge _ _)) by lia. done. }
  cbn [wp_next map_err]. eapply wp_step; [unfold checked_key; rewrite Hk; apply evals_lift|]. cbn [wp_next map_err].
  eapply wp_bind; [apply (wp_ensure d o (λ r d', r = Ok dir ∧ represents d' (Some m))); auto|].
  intros ? d1 [-> Hr1]. cbn [wp_next map_err]. cbv zeta. rewrite (key_path key) by (by apply key_plain).
  rewrite (key_path (BLOB_PREFIX +:+ key)) by apply staging_plain. fold staging.
  unfold spec_put_blob_chunk, spec_stage. fold staging. destruct (Z.eqb_spec offset 0) as [->|Hoffset].
  - eapply wp_bind; [apply (wp_begin_blob d1 m quota total_bytes
      (λ r d', r ≠ Panicked ∧ represents d' (Some (delete staging m)) ∧
         r = (let? inspected := spec_inspect (delete staging m) in
              let? existing := spec_existing (delete staging m) key MAX_STORAGE_BLOB_BYTES in
              spec_projected inspected.1 existing total_bytes quota))); [done|done|lia|by intros]|].
    intros r d2 (Hnp&Hr2&Hreq). assert (Hspec : (let? inspected := spec_inspect (delete staging m) in
        let? existing := spec_existing (delete staging m) key MAX_STORAGE_BLOB_BYTES in
        let? projected := spec_projected inspected.1 existing total_bytes quota in Ok (projected, value))
      = (let? projected := r in Ok (projected, value))) by (rewrite Hreq; by repeat case_match).
    rewrite Hspec. destruct r as [projected|e|]; cbn [wp_next map_err]; [|done|done].
    set (n := mkInode RegularFile [] host_uid 384 false).
    assert (delete staging m !! staging = None) as Hfree by apply lookup_delete_eq.
    pose proof (represents_create _ _ _ dir_not_root d2 _ staging n Hr2 staging_plain Hfree (private_new [])) as Hr3.
    eapply wp_step.
    { apply (evals_map_err _ _ _ (Ok (d_next d2))), (evals_op' Hquiet Hnf).
      by rewrite (dh_only _ _ _ _ (rp_dir _ _ _ _ _ Hr2) staging staging_plain Hfree). }
    cbn [wp_next map_err]. eapply wp_weaken.
    { apply (wp_blob_tail _ (<[staging := []]> (delete staging m)) (d_next d2) [] projected 0 total_bytes value Hr3);
        [|apply lookup_insert_eq|simpl; apply lookup_insert_eq|done..].
      rewrite delete_insert_id by done. by apply store_ok_delete. }
    rewrite delete_insert_id by done. rewrite delete_delete_eq. cbn [file_len length]. rewrite Z.eqb_refl. cbn [negb app].
    rewrite insert_insert_eq. intros r d' Ha. by case_match.
  - eapply wp_step; [apply evals_ret|]. cbn [wp_next map_err]. destruct (m !! staging) as [s|] eqn:Hm.
    + destruct (holds_lookup _ _ _ _ _ _ _ Hr1 Hm) as (i&n&Hi&Hnode&Hn&Hs&Hsec).
      eapply wp_step.
      { apply (evals_map_err _ _ _ (Ok i)), (evals_op' Hquiet Hnf). rewrite Hnode. destruct Hsec as [-> _]. done. }
      cbn [wp_next map_err]. eapply wp_weaken.
      { apply (wp_blob_tail _ m i s (quota `min` total_bytes)%Z offset total_bytes value Hr1); try done. by apply store_ok_delete. }
      intros r d' Ha. by destruct (file_len s =? offset)%Z.
    + eapply wp_step; [apply (evals_map_err _ _ _ (Err NotFound)), (evals_op' Hquiet Hnf)|done].
      by rewrite (holds_lookup_None _ _ _ _ _ _ Hr1 staging_plain Hm).
Qed.

Lemma evals_open_blob d m :
  represents d (Some m) → store_ok lib m →
  match m !! key with
  | None => evals d (open_blob service (path key)) (Ok None) d
  | Some v => ∃ i n, d_names d !! path key = Some i ∧ d_inodes d !! i = Some n ∧ i_data n = v ∧
      evals d (open_blob service (path key)) (Ok (Some i)) d
  end.
Proof.
  intros Hr Hok. pose proof (evals_open_checked d m key MAX_STORAGE_BLOB_BYTES Hr (key_plain _ Hk)
    (λ v, stored_positive m key v Hok)) as Ho.
  destruct (m !! key) as [v|] eqn:Hm; [|done]. destruct Ho as (i&n&Hi&Hn&Hv&Ho). exists i, n. split_and!; [done..|].
  destruct (Z.ltb_spec MAX_STORAGE_BLOB_BYTES (file_len v)) as [Hlt|]; [|done].
  destruct (entry_facts _ _ _ (so_entries _ _ Hok _ _ Hm)) as (_&_&Hle&_). lia.
Qed.

Lemma evals_get_blob_chunk d o offset n :
  represents d o → store_ok lib (default ∅ o) → (0 ≤ offset)%Z → (0 < n ≤ Z.of_nat MAX_STORAGE_VALUE_BYTES)%Z →
  evals d (StorageService_get_blob_chunk service app_id key offset n) (spec_get_blob_chunk (default ∅ o) key offset n) d.
Proof.
  intros Hr Hok Hoff Hn. unfold StorageService_get_blob_chunk.
  eapply evals_bind; [apply evals_guard|].
  { fold lib. rewrite Hlib. cbn [negb orb]. rewrite (proj2 (Z.eqb_neq _ _)), (proj2 (Z.ltb_ge _ _)) by lia. done. }
  eapply evals_bind; [unfold checked_key; rewrite Hk; apply evals_lift|].
  eapply evals_bind; [by apply evals_app_directory|]. destruct o as [m|]; [|apply evals_ret].
  cbn [from_option id] in Hok |- *. rewrite key_path by (by apply key_plain). unfold spec_get_blob_chunk.
  pose proof (evals_open_blob d m Hr Hok) as Ho. destruct (m !! key) as [v|] eqn:Hm.
  2: { eapply evals_bind; [exact Ho|]. apply evals_ret. }
  destruct Ho as (i&node&Hi&Hnode&Hv&Ho). eapply evals_bind; [exact Ho|]. cbv beta iota.
  eapply evals_bind. { apply (evals_map_err _ _ _ (Ok (metadata_of i node))), (evals_op' Hquiet Hnf). by rewrite Hnode. }
  assert (md_len (metadata_of i node) = file_len v) as -> by (simpl; by rewrite Hv).
  destruct (Z.ltb_spec (file_len v) (offset + n)) as [Hlt|Hge].
  { by eapply evals_bind_err, evals_guard_err. }
  eapply evals_bind; [by apply evals_guard|].
  eapply evals_bind; [|apply evals_ret].
  apply (evals_map_err _ _ _ (Ok (take (Z.to_nat n) (drop (Z.to_nat offset) v)))), (evals_op' Hquiet Hnf).
  rewrite Hnode, Hv. cbv zeta. rewrite (proj2 (Nat.ltb_ge _ _)); [done|].
  rewrite length_take, length_drop. unfold file_len in *. lia.
Qed.

Lemma evals_open_descriptor d o expected :
  represents d o → store_ok lib (default ∅ o) → (0 < expected ≤ MAX_STORAGE_BLOB_BYTES)%Z →
  ∃ descriptor,
    evals d (StorageService_open_blob_descriptor service app_id key expected) descriptor d ∧
    (let? found := descriptor in Ok (match found with Some _ => SoBlobOpened expected | None => SoNotFound end))
    = spec_open_blob (default ∅ o) key expected ∧
    (∀ i, descriptor = Ok (Some i) → ∃ node, d_inodes d !! i = Some node ∧ default ∅ o !! key = Some (i_data node)).
Proof.
  intros Hr Hok He. unfold spec_open_blob.
  assert (∀ r, evals d (let! _ := checked_key key in
     let! directory := app_directory service app_id in
     match directory with
     | None => io_ret None
     | Some directory =>
         let! file := open_blob service (path_join directory key) in
         match file with
         | None => io_ret None
         | Some file =>
             let! metadata := io (fs_file_metadata file) in
             let! _ := io_guard (negb (md_len metadata =? expected)%Z) SsInvalidEntry in
             io_ret (Some file)
         end
     end) r d → evals d (StorageService_open_blob_descriptor service app_id key expected) r d) as Hbody.
  { intros r Hbody. eapply evals_bind; [apply evals_guard|exact Hbody]. fold lib. rewrite Hlib. cbn [negb orb].
    rewrite (proj2 (Z.eqb_neq _ _)), (proj2 (Z.ltb_ge _ _)) by lia. done. }
  assert (evals d (checked_key key) (Ok tt) d) as Hcheck by (unfold checked_key; rewrite Hk; apply evals_lift).
  pose proof (evals_app_directory d o Hr) as Hdir. destruct o as [m|]; cbn [from_option id] in *.
  2: { exists (Ok None). split; [|done]. apply Hbody. do 2 (eapply evals_bind; [eassumption|]). cbv beta iota. apply evals_ret. }
  pose proof (evals_open_blob d m Hr Hok) as Ho. destruct (m !! key) as [v|] eqn:Hm.
  2: { exists (Ok None). split; [|done]. apply Hbody. do 2 (eapply evals_bind; [eassumption|]). cbv beta iota.
       rewrite key_path by (by apply key_plain). eapply evals_bind; [exact Ho|]. apply evals_ret. }
  destruct Ho as (i&node&Hi&Hnode&Hv&Ho). exists (if (file_len v =? expected)%Z then Ok (Some i) else Err SsInvalidEntry).
  split; [|split; [by destruct (file_len v =? expected)%Z|]].
  2: { intros j. destruct (file_len v =? expected)%Z; [|done]. intros [= <-]. exists node. by rewrite Hv. }
  apply Hbody. do 2 (eapply evals_bind; [eassumption|]). cbv beta iota. rewrite key_path by (by apply key_plain).
  eapply evals_bind; [exact Ho|]. cbv beta iota.
  eapply evals_bind. { apply (evals_map_err _ _ _ (Ok (metadata_of i node))), (evals_op' Hquiet Hnf). by rewrite Hnode. }
  assert (md_len (metadata_of i node) = file_len v) as -> by (simpl; by rewrite Hv).
  destruct (file_len v =? expected)%Z; cbn [negb].
  - eapply evals_bind; [by apply evals_guard|]. apply evals_ret.
  - by eapply evals_bind_err, evals_guard_err.
Qed.

Lemma wp_delete_blob d m :
  represents d (Some m) → store_ok lib m →
  wp d (StorageService_delete_blob service app_id key) (answers (spec_delete_blob m key)).
Proof.
  intros Hr Hok. unfold StorageService_delete_blob.
  eapply wp_step; [apply evals_guard; fold lib; by rewrite Hlib|]. cbn [wp_next map_err].
  eapply wp_step; [unfold checked_key; rewrite Hk; apply evals_lift|]. cbn [wp_next map_err].
  eapply wp_step; [by apply (evals_app_directory d (Some m))|]. cbn [wp_next map_err]. cbv zeta.
  rewrite (key_path key) by (by apply key_plain). rewrite (key_path (BLOB_PREFIX +:+ key)) by apply staging_plain. fold staging.
  pose proof (evals_open_blob d m Hr Hok) as Ho.
  set (b := bool_decide (is_Some (m !! key))).
  assert (∃ found d1, evals d (open_blob service (path key)) (Ok found) d ∧ represents d1 (Some (delete key m)) ∧
    evals d (match found with
             | Some _ => let! _ := io (fs_remove_file (path key)) in io_ret true
             | None => io_ret false
             end) (Ok b) d1) as (found&d1&Hfound&Hr1&Hremove).
  { pose proof (represents_remove _ _ _ dir_not_root d m key Hr (key_plain _ Hk)) as Hafter. unfold b.
    destruct (m !! key) as [v|] eqn:Hm.
    - destruct Ho as (i&node&_&_&_&Ho). eexists (Some i), _. split_and!; [exact Ho|exact Hafter|].
      rewrite bool_decide_eq_true_2 by eauto. eapply evals_bind; [|apply evals_ret].
      by apply (evals_map_err _ _ _ (Ok tt)), (evals_remove_file d m key v).
    - exists None, d. split_and!; [exact Ho|by rewrite delete_id|]. rewrite bool_decide_eq_false_2 by (by intros []).
      apply evals_ret. }
  eapply wp_step; [exact Hfound|]. cbn [wp_next map_err]. eapply wp_step; [exact Hremove|]. cbn [wp_next map_err].
  assert (store_ok lib (delete key m)) as Hok1 by (by apply store_ok_delete).
  eapply wp_bind with (R := λ r d', r = Ok tt ∧ represents d' (Some (delete staging (delete key m)))).
  { destruct (delete key m !! staging) as [v|] eqn:Hm.
    - destruct (holds_lookup _ _ _ _ _ _ _ Hr1 Hm) as (i&n&_&Hnode&_).
      eapply wp_try; [eapply wp_evals with (Q := λ r d', r = Ok (metadata_of i n) ∧ d' = d1); [by apply evals_metadata|done]|].
      intros ? ? [-> ->]. apply (wp_remove_stale d1 (delete key m)); [done|apply staging_plain| |done].
      intros v'. by apply staging_positive.
    - eapply wp_try; [eapply wp_evals with (Q := λ r d', r = Err NotFound ∧ d' = d1);
        [by apply evals_metadata_None, (holds_lookup_None _ _ _ _ _ _ Hr1 staging_plain)|done]|].
      intros ? ? [-> ->]. apply wp_ret. by rewrite delete_id. }
  intros ? d2 [-> Hr2]. cbn [wp_next map_err].
  eapply (wp_step _ _ _ (Ok tt) d2).
  { destruct b; [by apply (evals_map_err _ _ _ (Ok tt)), evals_sync_directory|apply evals_ret]. }
  cbn [wp_next map_err]. unfold answers, spec_delete_blob. fold staging b.
  pose proof (evals_usage d2 (Some (delete staging (delete key m))) Hr2 (store_ok_delete _ _ Hok1)) as Hu.
  cbn [from_option id] in Hu. destruct (spec_inspect (delete staging (delete key m))) as [p|e|] eqn:Hsp.
  - eapply wp_step; [exact Hu|]. by apply wp_ret.
  - eapply wp_step; [exact Hu|]. done.
  - by apply spec_inspect_np in Hsp.
Qed.

End blobs.

End refinement.

(** ** Requests *)

Definition no_nul (p : string) : bool := bytes_all (λ b, negb (bool_decide (b = Ascii.zero))) p.

Lemma no_nul_existsb p : no_nul p = true → existsb (λ b, bool_decide (b = Ascii.zero)) (bytes p) = false.
Proof.
  unfold no_nul, bytes_all. induction (bytes p) as [|a l IH]; simpl; [done|]. intros [Ha Hl]%andb_true_iff.
  apply negb_true_iff in Ha as ->. by apply IH.
Qed.

Lemma app_id_no_nul app_id : is_valid_app_id app_id = true → no_nul app_id = true.
Proof.
  intros (_&_&Hparts)%is_valid_app_id_parts. unfold no_nul.
  eapply (bytes_all_impl (λ b, is_ascii_lowercase b || is_ascii_digit b || bool_decide (b = dash) || bool_decide (b = dot))).
  { intros b Hb. apply negb_true_iff, bool_decide_eq_false_2. by intros ->. }
  apply str_split_bytes_all. eapply Forall_impl; [exact Hparts|]. intros p Hp. by apply valid_id_part_bytes.
Qed.

Lemma app_directory_no_nul root app_id :
  is_valid_app_id app_id = true → no_nul root = true → no_nul (path_join root app_id) = true.
Proof.
  intros Happ Hroot. rewrite path_join_plain by (by apply app_id_plain). unfold no_nul in *.
  rewrite bytes_all_app. apply andb_true_iff. split; [|by apply app_id_no_nul].
  unfold join_prefix. case_match; [done|]. by rewrite bytes_all_app, Hroot.
Qed.

(** Numbers of a decoded request are unsigned. *)
Definition command_typed (c : StorageCommand) : Prop :=
  match c with
  | ScPutBlobChunk _ offset total_bytes _ => 0 ≤ offset ∧ 0 ≤ total_bytes
  | ScGetBlobChunk _ offset length => 0 ≤ offset ∧ 0 ≤ length
  | ScOpenBlob _ expected => 0 ≤ expected
  | _ => True
  end%Z.

(** The specification keeps the store well formed. *)
Lemma store_ok_put lib m quota key value :
  store_ok lib m → validate_key key = Ok tt → (0 < file_len value ≤ Z.of_nat MAX_STORAGE_VALUE_BYTES)%Z →
  store_ok lib (spec_put lib m quota key value).2.
Proof.
  intros Hok Hk Hv. unfold spec_put. cbn [snd]. case_match eqn:Hput; [|done].
  destruct (spec_inspect m) as [[used keys]| |] eqn:Hi; [|done..]. unfold spec_inspect in Hi.
  destruct (total m <=? u64_max)%Z; [|done]. injection Hi as <- <-. unfold spec_existing in Hput.
  split.
  - intros name v [[<- <-]|[_ ?]]%lookup_insert_Some; [|by apply Hok]. split; [lia|]. left. split; [done|].
    destruct lib; unfold MAX_STORAGE_BLOB_BYTES, MAX_STORAGE_VALUE_BYTES in *; lia.
  - intros ->. pose proof (so_count _ _ Hok eq_refl) as Hcount. destruct (m !! key) as [old|] eqn:Hm.
    + rewrite <- insert_delete_eq, key_count_insert by apply lookup_delete_eq.
      rewrite <- (insert_delete_id m key old Hm), key_count_insert in Hcount by apply lookup_delete_eq. done.
    + cbn [negb andb snd] in Hput. rewrite key_count_insert by done.
      destruct (Nat.leb_spec MAX_STORAGE_KEYS (key_count m)); [done|]. destruct (hidden key); lia.
Qed.

Lemma store_ok_blob_chunk m quota key offset total_bytes value :
  store_ok true m → validate_key key = Ok tt → (0 ≤ offset)%Z → (0 < file_len value)%Z →
  (offset + file_len value ≤ total_bytes ≤ MAX_STORAGE_BLOB_BYTES)%Z →
  store_ok true (spec_put_blob_chunk m quota key offset total_bytes value).2.
Proof.
  intros Hok Hk Hoff Hval Htot. unfold spec_put_blob_chunk.
  assert (∀ m' name, store_ok true m' → store_ok true (delete name m')) as Hdel.
  { intros m' name [He _]. split; [|done]. intros name' v [_ Hv]%lookup_delete_Some. by apply He. }
  assert (store_ok true (spec_stage m quota key offset total_bytes value).2 ∧
    ∀ projected staged, (spec_stage m quota key offset total_bytes value).1 = Ok (projected, staged) →
      (0 < file_len staged ≤ MAX_STORAGE_BLOB_BYTES)%Z) as [Hstage Hstaged].
  { unfold spec_stage. destruct (Z.eqb_spec offset 0) as [->|Hne]; cbn [fst snd].
    - split; [by apply Hdel|]. intros projected staged Heq. repeat (case_match; simplify_eq/=). lia.
    - split; [done|]. intros projected staged Heq. destruct (m !! _) as [s|]; [|done].
      destruct (Z.eqb_spec (file_len s) offset); [|done]. injection Heq as _ <-. unfold file_len in *.
      rewrite length_app. lia. }
  destruct (spec_stage m quota key offset total_bytes value) as [[[projected staged]|e|] m']; [|done..].
  cbn [fst snd] in *. specialize (Hstaged _ _ eq_refl).
  assert (∀ m'' name, store_ok true m'' → (name = key ∨ name = BLOB_PREFIX +:+ key) → store_ok true (<[name := staged]> m'')) as Hins.
  { intros m'' name [He _] Hname. split; [|done]. intros name' v' [[<- <-]|[_ ?]]%lookup_insert_Some; [|by apply He].
    split; [lia|]. destruct Hname as [->| ->]; [by left; split; [|apply Hstaged]|right]. split; [done|].
    exists key. by split_and!; [..|apply Hstaged]. }
  case_match; cbn [snd]; apply Hins; auto.
Qed.

(** What the validation of a request says about its command. *)
Lemma validated_command request :
  StorageRequest_validate request = Ok tt → command_typed (sr_command request) →
  let lib := is_library (sr_app_id request) in
  match sr_command request with
  | ScPut key value64 => ∃ value, decode_value value64 = Ok value
  | ScPutBlobChunk key offset total_bytes value64 =>
      lib = true ∧ ∃ value, decode_value value64 = Ok value ∧ (offset + file_len value ≤ total_bytes ≤ MAX_STORAGE_BLOB_BYTES)%Z
  | ScGetBlobChunk key offset length => lib = true ∧ (0 < length ≤ Z.of_nat MAX_STORAGE_VALUE_BYTES)%Z
  | ScOpenBlob key expected => lib = true ∧ (0 < expected ≤ MAX_STORAGE_BLOB_BYTES)%Z
  | ScDeleteBlob key => lib = true
  | _ => True
  end.
Proof.
  unfold StorageRequest_validate, is_library, command_typed, file_len.
  destruct (storage_version_check _) as [[]| |]; [|done..].
  destruct (is_valid_app_id _); [|done]. destruct (valid_quota _ _); [|done]. cbn [negb].
  destruct (sr_command request) as [key value|key|key|key offset total_bytes value|key offset n|key expected|key|]; try done.
  - destruct (validate_key key) as [[]| |]; [|done..]. destruct (decode_value value) as [v| |]; [|done..]. eauto.
  - destruct (bool_decide _) eqn:Hlib; [|done]. cbn [negb orb]. case_match eqn:Htot; [done|].
    destruct (validate_key key) as [[]| |]; [|done..]. destruct (decode_value value) as [v| |]; [|done..].
    case_match eqn:Hlen; [done|]. intros _ _. unbool_hyps. split; [done|]. exists v. split; [done|]. lia.
  - destruct (validate_key key) as [[]| |]; [|done..]. case_match eqn:Hlen; [done|]. intros _ Htyped. unbool_hyps.
    split; [by apply bool_decide_eq_true_2|lia].
  - destruct (validate_key key) as [[]| |]; [|done..]. case_match eqn:Hlen; [done|]. intros _ Htyped. unbool_hyps.
    split; [by apply bool_decide_eq_true_2|lia].
  - by destruct (bool_decide _).
Qed.

(** No specified answer is a panic. *)
Local Ltac no_panic :=
  repeat match goal with
  | Hp : context [match ?x with _ => _ end] |- _ ≠ Panicked => destruct x eqn:?; try done
  | |- context [match ?x with _ => _ end] => destruct x eqn:?; try done
  | Hp : spec_inspect _ = Panicked |- _ => by apply spec_inspect_np in Hp
  | Hp : spec_existing _ _ _ = Panicked |- _ => by apply spec_existing_np in Hp
  | Hp : projected_usage _ _ _ = Panicked |- _ => by apply projected_np in Hp
  end.

Lemma spec_put_np lib m quota key value : (spec_put lib m quota key value).1 ≠ Panicked.
Proof. unfold spec_put, spec_projected. cbn [fst]. no_panic. Qed.
Lemma spec_get_np m key : spec_get m key ≠ Panicked.
Proof. unfold spec_get. no_panic. Qed.
Lemma spec_delete_np m key : (spec_delete m key).1 ≠ Panicked.
Proof. unfold spec_delete. no_panic. Qed.
Lemma spec_stage_np m quota key offset total_bytes value : (spec_stage m quota key offset total_bytes value).1 ≠ Panicked.
Proof. unfold spec_stage, spec_projected. no_panic. Qed.
Lemma spec_put_blob_chunk_np m quota key offset total_bytes value :
  (spec_put_blob_chunk m quota key offset total_bytes value).1 ≠ Panicked.
Proof.
  unfold spec_put_blob_chunk. pose proof (spec_stage_np m quota key offset total_bytes value) as Hs.
  destruct (spec_stage _ _ _ _ _ _) as [[[]| |] m']; [|done|done]. no_panic.
Qed.
Lemma spec_delete_blob_np m key : (spec_delete_blob m key).1 ≠ Panicked.
Proof. unfold spec_delete_blob. no_panic. Qed.
Lemma outcome_of_np {A} (f : A → StorageOutcome) r : r ≠ Panicked → outcome_of f r ≠ Panicked.
Proof. by destruct r. Qed.

Lemma spec_command_np lib quota o c : (spec_command lib quota o c).1 ≠ Panicked.
Proof.
  destruct c as [key value|key|key|key offset total_bytes value|key offset n|key expected|key|]; cbn [spec_command]; cbv zeta.
  - destruct (decode_value value) as [v| |]; [|done..]. pose proof (spec_put_np lib (default ∅ o) quota key v) as Hp.
    destruct (spec_put _ _ _ _ _). by apply outcome_of_np.
  - by apply outcome_of_np, spec_get_np.
  - destruct o as [m|]; [|done]. pose proof (spec_delete_np m key) as Hp. destruct (spec_delete m key). by apply outcome_of_np.
  - destruct (decode_value value) as [v| |]; [|done..].
    pose proof (spec_put_blob_chunk_np (default ∅ o) quota key offset total_bytes v) as Hp.
    destruct (spec_put_blob_chunk _ _ _ _ _ _). by apply outcome_of_np.
  - apply outcome_of_np. unfold spec_get_blob_chunk. no_panic.
  - unfold spec_open_blob. cbn [fst]. no_panic.
  - destruct o as [m|]; [|done]. pose proof (spec_delete_blob_np m key) as Hp. destruct (spec_delete_blob m key). by apply outcome_of_np.
  - apply outcome_of_np. destruct o as [m|]; [apply spec_inspect_np|done].
Qed.

(** A host on which the service works undisturbed. *)
Record storage_host `{Host} `{Space} (service : StorageService) : Prop := {
  sh_quiet : quiet _;
  sh_no_faults : no_faults _;
  sh_uid : host_uid = ss_owner_uid service;
  sh_lock : ss_poisoned service = false;
  sh_root : no_nul (ss_root service) = true;
  sh_space : ∀ d, (MAX_STORAGE_BLOB_BYTES + SYSTEM_FREE_SPACE_RESERVE_BYTES ≤ saturating_mul_u64 (statvfs d).1 (statvfs d).2)%Z;
}.

Section requests.
  Context `{Host} `{Space} (service : StorageService) (Hhost : storage_host service) (request : StorageRequest).
  Context (Hvalid : StorageRequest_validate request = Ok tt) (Htyped : command_typed (sr_command request)).
Let app_id : string := sr_app_id request.
Let root : string := ss_root service.
Let dir : string := path_join root app_id.
Let lib : bool := is_library app_id.
  Local Notation represents d o := (represents (ss_owner_uid service) d root dir o).

(** The command ran as specified, with some descriptor. *)
Definition ran (s : result StorageServiceError StorageOutcome * option store) (r : result StorageServiceError (StorageOutcome * option Z))
    (d : Disk) : Prop :=
  (∃ descriptor, r = let? outcome := s.1 in Ok (outcome, descriptor)) ∧ represents d s.2.

Lemma wp_ran_write {A} d (p : IO StorageServiceError A) (f : A → StorageOutcome) (s : result StorageServiceError A * store) :
  wp d p (λ r d', r = s.1 ∧ represents d' (Some s.2)) →
  wp d (let! a := p in io_ret (f a, None)) (ran (outcome_of f s.1, Some s.2)).
Proof.
  intros Hp. eapply wp_bind; [exact Hp|]. intros r d' [-> Hr]. destruct s as [[a|e|] m]; simpl.
  - apply wp_ret. split; [by exists None|done].
  - split; [by exists None|done].
  - split; [by exists None|done].
Qed.
Lemma wp_ran_read {A} d o (p : IO StorageServiceError A) (f : A → StorageOutcome) (r : result StorageServiceError A) :
  represents d o → evals d p r d → wp d (let! a := p in io_ret (f a, None)) (ran (outcome_of f r, o)).
Proof.
  intros Hr Hp. eapply wp_step; [exact Hp|]. destruct r as [a|e|]; simpl.
  - apply wp_ret. split; [by exists None|done].
  - split; [by exists None|done].
  - split; [by exists None|done].
Qed.

Lemma wp_run_command d o :
  represents d o → store_ok lib (default ∅ o) →
  wp d (run_storage_command service request) (ran (spec_command lib (sr_quota_bytes request) o (sr_command request))).
Proof.
  intros Hr Hok. destruct Hhost as [Hq Hnf Hu Hl Hnul Hsp]. destruct (validated_request _ Hvalid) as (Happ&_&Hkeys).
  pose proof (validated_command _ Hvalid Htyped) as Hcmd. cbv zeta in Hcmd. fold app_id lib in Hcmd.
  assert (existsb (λ b, bool_decide (b = Ascii.zero)) (bytes dir) = false) as Hdir
    by (by apply no_nul_existsb, app_directory_no_nul).
  unfold run_storage_command. cbv zeta. fold app_id.
  destruct (sr_command request) as [key value|key|key|key offset total_bytes value|key offset n|key expected|key|];
    cbn [spec_command] in *; cbv zeta; try (specialize (Hkeys _ eq_refl)).
  - destruct Hcmd as [v Hv]. pose proof (decode_value_Ok _ _ Hv) as [_ Hlen]. unfold decoded. rewrite Hv.
    eapply wp_step; [apply evals_lift|]. cbn [wp_next].
    pose proof (wp_put Hq Hnf service app_id Happ Hu Hsp Hdir d o (sr_quota_bytes request) key v Hr Hok Hkeys) as Hput.
    destruct (spec_put _ _ _ _ _) as [r m]. apply (wp_ran_write d _ SoStored (r, m)), Hput. unfold file_len. lia.
  - apply wp_ran_read; [done|]. by apply (evals_get Hq Hnf service app_id Happ).
  - destruct o as [m|].
    + pose proof (wp_delete Hq Hnf service app_id Happ d m key Hr Hok Hkeys) as Hdelete. destruct (spec_delete m key) as [r m'].
      by apply (wp_ran_write d _ (λ p, SoDeleted p.1 p.2) (r, m')).
    + apply (wp_ran_read d None _ (λ p, SoDeleted p.1 p.2) (Ok (false, 0%Z))); [done|]. unfold StorageService_delete.
      eapply evals_bind; [unfold checked_key; rewrite Hkeys; apply evals_lift|].
      eapply evals_bind; [by apply (evals_app_directory Hq Hnf service app_id d None)|]. apply evals_ret.
  - destruct Hcmd as (Hlib&v&Hv&Htot). pose proof (decode_value_Ok _ _ Hv) as [_ Hlen]. unfold decoded. rewrite Hv.
    eapply wp_step; [apply evals_lift|]. cbn [wp_next].
    pose proof (wp_put_blob_chunk Hq Hnf service app_id Happ Hu Hsp Hdir Hlib key Hkeys d o (sr_quota_bytes request) offset
      total_bytes v Hr Hok) as Hput.
    destruct (spec_put_blob_chunk _ _ _ _ _ _) as [r m]. apply (wp_ran_write d _ SoStored (r, m)), Hput;
      [apply Htyped|unfold file_len; lia|lia].
  - destruct Hcmd as [Hlib Hn]. apply wp_ran_read; [done|].
    by apply (evals_get_blob_chunk Hq Hnf service app_id Happ Hlib key Hkeys); [..|apply Htyped|].
  - destruct Hcmd as [Hlib Hn].
    destruct (evals_open_descriptor Hq Hnf service app_id Happ Hlib key Hkeys d o expected Hr Hok Hn) as (r&He&Hspec&_).
    eapply wp_step; [exact He|]. rewrite <- Hspec. destruct r as [found|e|]; simpl.
    + apply wp_ret. split; [by exists found|done].
    + split; [by exists None|done].
    + split; [by exists None|done].
  - destruct o as [m|].
    + pose proof (wp_delete_blob Hq Hnf service app_id Happ Hcmd key Hkeys d m Hr Hok) as Hdelete.
      destruct (spec_delete_blob m key) as [r m']. by apply (wp_ran_write d _ (λ p, SoDeleted p.1 p.2) (r, m')).
    + apply (wp_ran_read d None _ (λ p, SoDeleted p.1 p.2) (Ok (false, 0%Z))); [done|]. unfold StorageService_delete_blob.
      eapply evals_bind; [apply evals_guard; fold lib; by rewrite Hcmd|].
      eapply evals_bind; [unfold checked_key; rewrite Hkeys; apply evals_lift|].
      eapply evals_bind; [by apply (evals_app_directory Hq Hnf service app_id d None)|]. apply evals_ret.
  - pose proof (evals_usage Hq Hnf service app_id d o Hr Hok) as He.
    pose proof (wp_ran_read d o _ SoUsage _ Hr He) as Hw. eapply wp_weaken; [exact Hw|].
    intros r d' [[desc Hr'] Hd']. split; [|done]. exists desc. rewrite Hr'. by destruct o as [m|]; [destruct (spec_inspect m)|].
Qed.

Lemma spec_command_ok o :
  store_ok lib (default ∅ o) → store_ok lib (default ∅ (spec_command lib (sr_quota_bytes request) o (sr_command request)).2).
Proof.
  intros Hok. destruct (validated_request _ Hvalid) as (_&_&Hkeys).
  pose proof (validated_command _ Hvalid Htyped) as Hcmd. cbv zeta in Hcmd. fold app_id lib in Hcmd.
  destruct (sr_command request) as [key value|key|key|key offset total_bytes value|key offset n|key expected|key|];
    cbn [spec_command] in *; cbv zeta; try (specialize (Hkeys _ eq_refl)); try done.
  - destruct Hcmd as [v Hv]. pose proof (decode_value_Ok _ _ Hv) as [_ Hlen]. rewrite Hv.
    pose proof (store_ok_put lib (default ∅ o) (sr_quota_bytes request) key v Hok Hkeys) as Hput.
    destruct (spec_put _ _ _ _ _). apply Hput. unfold file_len. lia.
  - destruct o as [m|]; [|done]. unfold spec_delete. cbn [from_option id] in Hok. destruct (spec_existing _ _ _); [|done..].
    by apply (store_ok_delete app_id).
  - destruct Hcmd as (Hlib&v&Hv&Htot). pose proof (decode_value_Ok _ _ Hv) as [_ Hlen]. rewrite Hv. rewrite Hlib in *.
    pose proof (store_ok_blob_chunk (default ∅ o) (sr_quota_bytes request) key offset total_bytes v Hok Hkeys) as Hput.
    destruct (spec_put_blob_chunk _ _ _ _ _ _). apply Hput; [apply Htyped|unfold file_len; lia|done].
  - destruct o as [m|]; [|done]. by apply (store_ok_delete app_id), (store_ok_delete app_id).
Qed.

End requests.

(** ** All applications together *)

(** The abstract service: a store per application. *)
Definition spec_dispatch (σ : gmap string store) (request : StorageRequest) : StorageResponse * gmap string store :=
  let app_id := sr_app_id request in
  let '(r, o) := spec_command (is_library app_id) (sr_quota_bytes request) (σ !! app_id) (sr_command request) in
  (spec_response (sr_request_id request) r, partial_alter (λ _, o) app_id σ).

Definition spec_handle (trusted_uids : gset Z) (uid : Z) (request : result StorageProtocolError StorageRequest)
    (σ : gmap string store) : StorageResponse * gmap string store :=
  match request with
  | Ok request =>
      if decide (uid ∈ trusted_uids) then spec_dispatch σ request
      else (storage_response (sr_request_id request)
              (SoError ScUnauthorized "peer UID is not authorized for private storage access"), σ)
  | _ => (storage_response 0 (SoError ScInvalidRequest "invalid storage service request"), σ)
  end.

Fixpoint spec_serve (trusted_uids : gset Z) (connections : list (Z * result StorageProtocolError StorageRequest))
    (σ : gmap string store) : list StorageResponse * gmap string store :=
  match connections with
  | [] => ([], σ)
  | (uid, request) :: connections =>
      let '(response, σ) := spec_handle trusted_uids uid request σ in
      let '(responses, σ) := spec_serve trusted_uids connections σ in
      (response :: responses, σ)
  end.

(** The disk holds the stores of all applications. *)
Record holds_all (service : StorageService) (d : Disk) (σ : gmap string store) : Prop := {
  ha_stores : ∀ app, is_valid_app_id app = true →
    represents (ss_owner_uid service) d (ss_root service) (path_join (ss_root service) app) (σ !! app) ∧
    store_ok (is_library app) (default ∅ (σ !! app));
  ha_unshared : ∀ app, is_valid_app_id app = true → unshared (path_join (ss_root service) app) d;
}.

Lemma child_under dir p : child_of dir p = true → under dir p = true.
Proof.
  unfold child_of. destruct (strip_prefix (dir +:+ "/") p) as [s|] eqn:Hs; [|done]. intros _.
  apply strip_prefix_Some in Hs as ->. rewrite str_app_assoc. apply under_entry.
Qed.

(** A store survives what is confined to another directory. *)
Lemma represents_confined owner root dir other o d0 d :
  confined other d0 d → (∀ p, under dir p = true → outside other p) → outside other root →
  represents owner d0 root dir o → represents owner d root dir o.
Proof.
  intros Hc Hout Hroot [Hwf Hr Hd]. split; [apply Hc|by rewrite (cf_files _ _ _ Hc)|].
  assert (∀ s, outside other (dir +:+ "/" +:+ s)) as Hpath by (intros s; apply Hout, under_entry).
  assert (outside other dir) as Hdir by (apply Hout, under_refl).
  destruct o as [m|].
  - destruct Hd as [Hn He Ho Hpl]. split.
    + by rewrite (cf_files _ _ _ Hc).
    + intros name v Hv. destruct (He name v Hv) as (i&n&Hi&Hnode&Hdata&Hs&Hu). exists i, n.
      rewrite (cf_names _ _ _ Hc) by done. split_and!; [done| |done..|].
      * pose proof (cf_files _ _ _ Hc _ (Hpath name)) as Hf. rewrite !file_at_ino, (cf_names _ _ _ Hc), Hi in Hf by done.
        by rewrite Hf.
      * intros q Hq. destruct (under other q) eqn:Hin.
        -- exfalso. apply (cf_inside _ _ _ Hc q i) in Hq; [|unfold outside; by rewrite Hin]. by apply (Hq _ (Hpath name)).
        -- rewrite (cf_names _ _ _ Hc) in Hq by done. by apply Hu.
    + intros name Hp Hm. rewrite (cf_names _ _ _ Hc) by done. by apply Ho.
    + intros p Hp Hch. rewrite (cf_names _ _ _ Hc) in Hp by (by apply Hout, child_under). by apply Hpl.
  - destruct Hd as [Hn Hch]. split; [by rewrite (cf_names _ _ _ Hc)|]. intros p Hp.
    rewrite (cf_names _ _ _ Hc) by (by apply Hout, child_under). by apply Hch.
Qed.

Lemma unshared_confined dir other d0 d :
  confined other d0 d → (dir = other ∨ ∀ p, under dir p = true → outside other p) → unshared dir d0 → unshared dir d.
Proof.
  intros Hc Hdir Hu p q i Hp Hq Hpi Hqi. destruct Hdir as [->|Hout].
  - apply (cf_inside _ _ _ Hc p) in Hpi; [|unfold outside; by rewrite Hp]. apply (Hpi q Hq).
    by rewrite <- (cf_names _ _ _ Hc).
  - rewrite (cf_names _ _ _ Hc) in Hpi by auto. destruct (under other q) eqn:Hin.
    + apply (cf_inside _ _ _ Hc q) in Hqi; [|unfold outside; by rewrite Hin]. by apply (Hqi p); [apply Hout|].
    + rewrite (cf_names _ _ _ Hc) in Hqi by done. by apply (Hu p q i).
Qed.

(** Changing the store of one application inside its directory. *)
Lemma holds_all_update service app o d d' σ :
  is_valid_app_id app = true → holds_all service d σ → confined (path_join (ss_root service) app) d d' →
  represents (ss_owner_uid service) d' (ss_root service) (path_join (ss_root service) app) o →
  store_ok (is_library app) (default ∅ o) → holds_all service d' (partial_alter (λ _, o) app σ).
Proof.
  intros Happ Hall Hconf Hr Hok.
  assert (∀ other p, is_valid_app_id other = true → other ≠ app → under (path_join (ss_root service) other) p = true →
    outside (path_join (ss_root service) app) p) as Hout.
  { intros other p Ho Hne Hp. by apply (app_directories_disjoint (ss_root service) other app); [apply app_id_plain..| |]. }
  split; intros other Hother; destruct (decide (other = app)) as [Heq|Hne].
  - subst other. by rewrite lookup_partial_alter_eq.
  - rewrite lookup_partial_alter_ne by done. destruct (ha_stores _ _ _ Hall other Hother) as [Hrep Hok1]. split; [|done].
    eapply represents_confined; [exact Hconf|by intros p; apply Hout| |exact Hrep].
    apply under_false. split; [apply not_eq_sym, root_not_dir, Happ|].
    destruct (strip_prefix _ _) as [s|] eqn:Hs; [|done]. apply strip_prefix_Some in Hs. rewrite str_app_assoc in Hs.
    exfalso. by apply (dir_not_root service app Happ s).
  - subst other. eapply unshared_confined; [exact Hconf|by left|by apply Hall].
  - eapply unshared_confined; [exact Hconf|right; by intros p; apply Hout|by apply Hall].
Qed.

Lemma dispatch_refines `{Host} `{Space} service request σ w :
  storage_host service → StorageRequest_validate request = Ok tt → command_typed (sr_command request) →
  holds_all service (w_disk w) σ →
  ∃ descriptor w', StorageService_dispatch service request w = (Ok ((spec_dispatch σ request).1, descriptor), w') ∧
    holds_all service (w_disk w') (spec_dispatch σ request).2.
Proof.
  intros Hhost Hv Ht Hall. destruct (validated_request _ Hv) as (Happ&_&_).
  destruct (ha_stores _ _ _ Hall _ Happ) as [Hr Hok].
  pose proof (wp_run_command service Hhost request Hv Ht _ _ Hr Hok w eq_refl) as Hrun.
  pose proof (spec_command_ok request Hv Ht _ Hok) as Hok'.
  pose proof (spec_command_np (is_library (sr_app_id request)) (sr_quota_bytes request)
    (σ !! sr_app_id request) (sr_command request)) as Hnp.
  destruct (dispatch_confined (sh_quiet _ Hhost) service request (w_disk w) Hv w) as (tr&_&_&Hconf&_).
  { apply confined_start; [apply Hr|by apply Hall]. }
  unfold StorageService_dispatch, spec_dispatch in *. cbv zeta in *. rewrite (sh_lock _ Hhost) in *.
  unfold io_try in *. destruct (run_storage_command service request w) as [r w1]. cbn [fst snd] in Hrun.
  destruct (spec_command _ _ _ _) as [s o']. destruct Hrun as [[descriptor Hreq] Hr']. cbn [fst snd] in *.
  destruct s as [outcome|e|]; [| |done]; subst r; cbn in Hconf |- *;
    (eexists _, w1; split; [done|]; by eapply holds_all_update).
Qed.

Lemma serve_refines `{Host} `{Space} service trusted connections σ w :
  storage_host service →
  Forall (λ c, c.2 ≠ Panicked ∧ validated c.2 ∧ ∀ r, c.2 = Ok r → command_typed (sr_command r)) connections →
  holds_all service (w_disk w) σ →
  ∃ w', serve service trusted connections w = (Ok (spec_serve trusted connections σ).1, w') ∧
    holds_all service (w_disk w') (spec_serve trusted connections σ).2.
Proof.
  intros Hhost. revert σ w. induction connections as [|[uid request] connections IH]; intros σ w Hc Hall; cbn [serve spec_serve].
  { by exists w. }
  apply Forall_cons in Hc as [(Hnp&Hv&Ht) Hc]. cbn [snd] in *.
  assert (∃ descriptor w1, handle_request service trusted uid request w
      = (Ok ((spec_handle trusted uid request σ).1, descriptor), w1) ∧
    holds_all service (w_disk w1) (spec_handle trusted uid request σ).2) as (descriptor&w1&Hrun&Hall1).
  { unfold handle_request, spec_handle. destruct request as [r|e|]; [|by eexists _, w|done].
    case_decide; [by apply dispatch_refines; auto|by eexists _, w]. }
  unfold io_bind. rewrite Hrun. destruct (spec_handle trusted uid request σ) as [response σ1]. cbn [fst snd] in *.
  destruct (IH σ1 w1 Hc Hall1) as (w2&Hrest&Hall2). rewrite Hrest.
  destruct (spec_serve trusted connections σ1) as [responses σ2]. by exists w2.
Qed.

(** ** Properties *)

(** What an accepted [put] did to the store. *)
Lemma spec_put_Ok lib m quota key value used :
  (spec_put lib m quota key value).1 = Ok used →
  (spec_put lib m quota key value).2 = <[key := value]> m ∧ total (<[key := value]> m) = used ∧ (used ≤ quota)%Z ∧
  (used ≤ u64_max)%Z.
Proof.
  unfold spec_put. cbn [fst snd]. set (outcome := match spec_inspect m with Ok _ => _ | Err _ => _ | Panicked => _ end).
  intros Hout. rewrite Hout. cbn [is_ok]. split; [done|]. unfold outcome in Hout. clear outcome.
  destruct (spec_inspect m) as [[u keys]| |] eqn:Hi; [|done..]. unfold spec_inspect in Hi.
  destruct (total m <=? u64_max)%Z eqn:Hmax; [|done].
  injection Hi as <- <-. unfold spec_existing, spec_projected, projected_usage, checked_add_u64 in Hout.
  destruct (m !! key) as [old|] eqn:Hm.
  - rewrite <- insert_delete_eq, total_insert by apply lookup_delete_eq. pose proof (total_delete m key old Hm).
    repeat (case_match; simplify_eq/=). unbool_hyps. lia.
  - rewrite total_insert by done. repeat (case_match; simplify_eq/=). unbool_hyps. lia.
Qed.

(** C5: on a host without faults and interference the storage service is a map
    from applications to maps from keys to values, with quotas: serving any
    sequence of checked requests gives exactly the answers of the abstract
    service [spec_serve] and leaves the disk with its stores. *)
Theorem storage_refines_map `{Host} `{Space} service trusted connections σ w :
  storage_host service →
  Forall (λ c, c.2 ≠ Panicked ∧ validated c.2 ∧ ∀ r, c.2 = Ok r → command_typed (sr_command r)) connections →
  holds_all service (w_disk w) σ →
  ∃ w', serve service trusted connections w = (Ok (spec_serve trusted connections σ).1, w') ∧
    holds_all service (w_disk w') (spec_serve trusted connections σ).2.
Proof. apply serve_refines. Qed.

(** A [put] that is acknowledged stayed within the quota of the
    application, reports the space the application then uses, and the value is
    what the next [get] of the key returns. *)
Theorem stored_value_is_read `{Host} `{Space} service σ app quota key value n used w descriptor w1 :
  let request c := storage_request n app quota c in
  storage_host service → holds_all service (w_disk w) σ →
  StorageRequest_validate (request (ScPut key (encode_base64 value))) = Ok tt →
  StorageService_dispatch service (request (ScPut key (encode_base64 value))) w
    = (Ok (storage_response n (SoStored used), descriptor), w1) →
  (used ≤ quota)%Z ∧
  (∃ desc w2, StorageService_dispatch service (request ScUsage) w1 = (Ok (storage_response n (SoUsage used), desc), w2)) ∧
  (∃ desc w2, StorageService_dispatch service (request (ScGet key)) w1
     = (Ok (storage_response n (SoValue (encode_base64 value)), desc), w2)).
Proof.
  intros request Hhost Hall Hv Hput. pose proof (validated_command _ Hv I) as [v Hdec]. cbn in Hdec.
  destruct (decode_value_Ok _ _ Hdec) as [Henc Hlen].
  destruct (dispatch_refines service _ σ w Hhost Hv I Hall) as (desc&w'&Hrun&Hall'). rewrite Hput in Hrun.
  injection Hrun as Hresp _ ->.
  assert (StorageRequest_validate (request ScUsage) = Ok tt ∧ StorageRequest_validate (request (ScGet key)) = Ok tt) as [Hvu Hvg].
  { unfold StorageRequest_validate in *. cbn [request storage_request sr_app_id sr_quota_bytes sr_command sr_protocol_version] in *.
    destruct (storage_version_check _) as [[]| |]; [|done..]. destruct (is_valid_app_id app); [|done].
    destruct (valid_quota app quota); [|done]. cbn [negb] in *. split; [done|].
    by destruct (validate_key key) as [[]| |]. }
  destruct (dispatch_refines service (request ScUsage) _ w' Hhost Hvu I Hall') as (du&wu&Hru&_).
  destruct (dispatch_refines service (request (ScGet key)) _ w' Hhost Hvg I Hall') as (dg&wg&Hrg&_).
  unfold spec_dispatch in *. cbv zeta in *.
  cbn [request storage_request sr_app_id sr_quota_bytes sr_command sr_request_id spec_command] in *. rewrite Hdec in *.
  destruct (spec_put (is_library app) (default ∅ (σ !! app)) quota key v) as [r m'] eqn:Hsp.
  destruct r as [used'|e|]; cbn in Hresp; [|by destruct e as [[]| | | | | | |]|done].
  injection Hresp as <-. pose proof (spec_put_Ok (is_library app) (default ∅ (σ !! app)) quota key v used) as Hok.
  rewrite Hsp in Hok. destruct (Hok eq_refl) as (Hm'&Htotal&Hquota&Hmax). cbn [snd] in Hm'. subst m'.
  cbn [fst snd] in *. rewrite lookup_partial_alter_eq in Hru, Hrg. cbn [from_option id fst] in Hru, Hrg. split; [done|]. split.
  - exists du, wu. rewrite Hru. unfold spec_inspect. rewrite Htotal, (proj2 (Z.leb_le _ _)) by done. done.
  - exists dg, wg. rewrite Hrg. unfold spec_get, spec_existing. rewrite lookup_insert_eq.
    rewrite (proj2 (Z.ltb_ge _ _)) by (unfold file_len; lia). cbn. by rewrite Henc.
Qed.

(** ** A run *)

Lemma sample_host : @storage_host calm_host roomy sample_service.
Proof.
  split; [done..|by vm_compute|]. intros d. vm_compute. congruence.
Qed.

(** A fresh root holds no stores. *)
Lemma sample_root_holds : holds_all sample_service (w_disk sample_root) ∅.
Proof.
  assert (∀ p i, d_names (w_disk sample_root) !! p = Some i → p = DEFAULT_STORAGE_ROOT) as Hnames.
  { intros p i Hp. simpl in Hp. apply lookup_insert_Some in Hp as [[<- _]|[_ Hp]]; done. }
  split; intros app Happ.
  - rewrite lookup_empty. split; [|split; [done|intros _; by vm_compute; lia]]. split.
    + apply disk_of_wf.
    + by eexists.
    + split.
      * destruct (d_names _ !! _) as [i|] eqn:Hi; [|done]. exfalso. apply Hnames in Hi. by apply (root_not_dir sample_service app Happ).
      * intros p Hp. destruct (d_names _ !! p) as [i|] eqn:Hi; [|done]. exfalso. apply Hnames in Hi as ->.
        apply child_under in Hp. apply under_cases in Hp as [Hp|[s Hp]].
        -- by apply (root_not_dir sample_service app Happ).
        -- by apply (dir_not_root sample_service app Happ s).
  - intros p q i Hp Hq Hpi. apply Hnames in Hpi as ->. exfalso. apply under_cases in Hp as [Hp|[s Hp]].
    + by apply (root_not_dir sample_service app Happ).
    + by apply (dir_not_root sample_service app Happ s).
Qed.

Definition sample_session : list (Z * result StorageProtocolError StorageRequest) :=
  let request c := Ok (storage_request 7 "dev.cardputerzero.notes" MIB c) in
  let photo c := Ok (storage_request 8 SYSTEM_PHOTO_LIBRARY_ID SYSTEM_PHOTO_LIBRARY_QUOTA_BYTES c) in
  [(0, request (ScPut "draft" (encode_base64 (bytes "hello")))); (0, request (ScGet "draft"));
   (1, request (ScDelete "draft")); (0, photo (ScPutBlobChunk "p1" 0 6 (encode_base64 (bytes "abcd"))));
   (0, photo (ScPutBlobChunk "p1" 4 6 (encode_base64 (bytes "ef")))); (0, photo (ScGetBlobChunk "p1" 2 3));
   (0, photo ScUsage); (0, request (ScDelete "draft"))]%Z.

Lemma storage_refines_map_witness :
  ∃ w', @serve calm_host roomy sample_service {[0%Z]} sample_session sample_root
    = (Ok (map (λ e, storage_response e.1 e.2)
         [(7, SoStored 5); (7, SoValue (encode_base64 (bytes "hello")));
          (7, SoError ScUnauthorized "peer UID is not authorized for private storage access");
          (8, SoStored 6); (8, SoStored 6); (8, SoValue (encode_base64 (bytes "cde"))); (8, SoUsage 6);
          (7, SoDeleted true 0)]%Z), w') ∧
    holds_all sample_service (w_disk w') (spec_serve {[0%Z]} sample_session ∅).2.
Proof.
  destruct (@storage_refines_map calm_host roomy sample_service {[0%Z]} sample_session ∅ sample_root) as (w'&Hrun&Hall).
  - apply sample_host.
  - repeat constructor; try done; intros r [= <-]; vm_compute; done.
  - apply sample_root_holds.
  - exists w'. split; [|exact Hall]. rewrite Hrun. f_equal.
Defined.

Lemma stored_value_is_read_witness :
  let request c := storage_request 7 "dev.cardputerzero.notes" MIB c in
  let w1 := (@StorageService_dispatch calm_host roomy sample_service (sample_put "draft") sample_root).2 in
  ∃ desc w2, @StorageService_dispatch calm_host roomy sample_service (request (ScGet "draft")) w1
     = (Ok (storage_response 7 (SoValue (encode_base64 (bytes "hello"))), desc), w2).
Proof.
  intros request w1.
  destruct (@stored_value_is_read calm_host roomy sample_service ∅ "dev.cardputerzero.notes" MIB "draft" (bytes "hello") 7 5
    sample_root None w1) as (_&_&Hget).
  - apply sample_host.
  - apply sample_root_holds.
  - by vm_compute.
  - unfold w1. assert ((@StorageService_dispatch calm_host roomy sample_service (sample_put "draft") sample_root).1
      = Ok (storage_response 7 (SoStored 5), None)) as Hr by (by vm_compute).
    change (storage_request 7 "dev.cardputerzero.notes" MIB (ScPut "draft" (encode_base64 (bytes "hello")))) with (sample_put "draft").
    by destruct (@StorageService_dispatch calm_host roomy sample_service (sample_put "draft") sample_root) as [r w'];
      simpl in *; rewrite Hr.
  - exact Hget.
Defined.
