(* ===== verification/StoreMetadata.v ===== *)
(** * Store listings and images (crates/cp0-store-metadata/src/lib.rs)

    What a developer submits beside a package: the listing with its texts and
    image descriptors, and the PNG files themselves; and the states that a
    submission and a release go through, which [StoreControl] uses.  An error
    message of the listing validator is a constructor of [ListingIssue]; the
    order of the issues is that of the source.  The JSON decoder is a
    parameter.

    The theorems: the listing validator decides [listing_wf], and the paths of
    the images of a valid listing are distinct and stay below the directory of
    the submission; the PNG validator accepts exactly the files that a grammar
    of chunks generates, each with its CRC. *)

From S2P Require Import Prelude RustStr Bytes Manifest.

Definition STORE_LISTING_SCHEMA_VERSION : Z := 1.
Definition MAX_STORE_LISTING_BYTES : Z := 32 * 1024.
Definition MAX_LOCALIZATIONS : nat := 8.
Definition MAX_KEYWORDS : nat := 8.
Definition MAX_SCREENSHOTS : nat := 5.
Definition MAX_ICON_BYTES : Z := 64 * 1024.
Definition MAX_SCREENSHOT_BYTES : Z := 512 * 1024.

(** ** Data *)

Inductive StoreCategory :=
  DeveloperTools | Education | Entertainment | Games | HardwareCategory | Media | Productivity | Utilities.
Inductive AgeRating := FourPlus | NinePlus | TwelvePlus | SeventeenPlus.

Record ImageAsset := mkImageAsset {
  ass_path : string;
  ass_sha256 : string;
  ass_bytes : Z;
  ass_width : Z;
  ass_height : Z;
}.

Record LocalizedListing := mkLocalizedListing {
  ll_locale : string;
  ll_name : string;
  ll_subtitle : string;
  ll_description : string;
  ll_keywords : list string;
  ll_release_notes : string;
}.

Record StoreListing := mkStoreListing {
  sl_schema_version : Z;
  sl_app_id : string;
  sl_version : string;
  sl_default_locale : string;
  sl_category : StoreCategory;
  sl_age_rating : AgeRating;
  sl_privacy_url : string;
  sl_support_url : string;
  sl_icon : ImageAsset;
  sl_screenshots : list ImageAsset;
  sl_localizations : list LocalizedListing;
}.

(** ** States of submissions and releases *)

Inductive SubmissionState :=
  Draft | Uploading | Processing | ReadyForReview | InReview | PendingSecondaryReview
| NeedsChanges | Approved | Rejected | Withdrawn.
#[global] Instance submission_state_eq_dec : EqDecision SubmissionState.
Proof. solve_decision. Defined.

Definition SubmissionState_as_str (s : SubmissionState) : string :=
  match s with
  | Draft => "draft"
  | Uploading => "uploading"
  | Processing => "processing"
  | ReadyForReview => "ready-for-review"
  | InReview => "in-review"
  | PendingSecondaryReview => "pending-secondary-review"
  | NeedsChanges => "needs-changes"
  | Approved => "approved"
  | Rejected => "rejected"
  | Withdrawn => "withdrawn"
  end.

Definition submission_can_transition (s next : SubmissionState) : bool :=
  match s, next with
  | Draft, (Uploading | Withdrawn)
  | Uploading, (Processing | Withdrawn)
  | Processing, (ReadyForReview | NeedsChanges | Rejected | Withdrawn)
  | ReadyForReview, (InReview | Withdrawn)
  | InReview, (PendingSecondaryReview | NeedsChanges | Approved | Rejected | Withdrawn)
  | PendingSecondaryReview, (InReview | Withdrawn) => true
  | _, _ => false
  end.

Inductive ReleaseState := Ready | Scheduled | Publishing | PublishFailed | Published | Paused | Removed.
#[global] Instance release_state_eq_dec : EqDecision ReleaseState.
Proof. solve_decision. Defined.

Definition ReleaseState_as_str (s : ReleaseState) : string :=
  match s with
  | Ready => "ready"
  | Scheduled => "scheduled"
  | Publishing => "publishing"
  | PublishFailed => "publish-failed"
  | Published => "published"
  | Paused => "paused"
  | Removed => "removed"
  end.

Definition release_can_transition (s next : ReleaseState) : bool :=
  match s, next with
  | Ready, (Scheduled | Publishing | Removed)
  | Scheduled, (Ready | Publishing | Removed)
  | Publishing, (Published | PublishFailed)
  | PublishFailed, (Publishing | Removed)
  | Published, (Paused | Removed)
  | Paused, (Published | Removed) => true
  | _, _ => false
  end.

(** ** The listing validator *)

Inductive AssetField := IconField | ScreenshotField (index : nat).
Inductive TextField := NameField | SubtitleField | DescriptionField | ReleaseNotesField | KeywordField.
Inductive ListingIssue :=
| LiSchema | LiAppId | LiVersion | LiDefaultLocale | LiPrivacyUrl | LiSupportUrl
| LiAssetPath (field : AssetField) | LiAssetSha256 (field : AssetField)
| LiAssetBytes (field : AssetField) (max : Z) | LiAssetDimensions (field : AssetField)
| LiScreenshotCount | LiDuplicateAsset (index : nat)
| LiLocalizationCount | LiLocale (index : nat) | LiLocaleOrder
| LiText (index : nat) (field : TextField)
| LiKeywordCount (index : nat) | LiKeywordBytes (index : nat) | LiKeywordOrder (index : nat)
| LiNoDefault.

Definition issue_if (b : bool) (issue : ListingIssue) : list ListingIssue := if b then [issue] else [].

Definition listing_hex_byte (b : ascii) : bool := is_ascii_digit b || byte_in 97 102 b.
Definition listing_is_lower_hex (value : string) (n : nat) : bool :=
  (String.length value =? n * 2)%nat && bytes_all listing_hex_byte value.

Definition asset_path_byte (b : ascii) : bool :=
  is_ascii_alphanumeric b || bool_decide (b = "_"%char) || bool_decide (b = "-"%char).
Definition asset_path_part (part : string) : bool :=
  negb (str_is_empty part)
  && match first_byte part with Some b => is_ascii_alphanumeric b | None => false end
  && bytes_all asset_path_byte part.
(** [path.strip_suffix(suffix)]. *)
Definition strip_suffix (suffix s : string) : option string :=
  str_rev <$> strip_prefix (str_rev suffix) (str_rev s).
Definition is_valid_asset_path (path : string) : bool :=
  if str_is_empty path || (128 <? String.length path)%nat || bool_decide ("\"%char ∈ bytes path)
     || negb (ends_with ".png" path)
  then false
  else match strip_suffix ".png" path with
       | Some stem => forallb asset_path_part (str_split slash stem)
       | None => false
       end.

Definition listing_script (part : string) : bool :=
  match bytes part with
  | a :: rest => is_ascii_uppercase a && forallb is_ascii_lowercase rest
  | [] => false
  end.
Definition listing_region (region : string) : bool :=
  ((String.length region =? 2)%nat && bytes_all is_ascii_uppercase region)
  || ((String.length region =? 3)%nat && bytes_all is_ascii_digit region).
Definition listing_is_valid_locale (locale : string) : bool :=
  if (16 <? String.length locale)%nat then false
  else
    match str_split "-"%char locale with
    | [] => false
    | language :: parts =>
        if negb ((2 <=? String.length language)%nat && (String.length language <=? 3)%nat)
           || negb (bytes_all is_ascii_lowercase language)
        then false
        else
          let after_script :=
            match parts with
            | script :: rest =>
                if (String.length script =? 4)%nat then (if listing_script script then Some rest else None)
                else Some parts
            | [] => Some []
            end in
          match after_script with
          | None => false
          | Some [] => true
          | Some (region :: rest) => if negb (listing_region region) then false else bool_decide (rest = [])
          end
    end.

(** [url[8..]]: the first eight bytes are a prefix already checked. *)
Definition listing_is_valid_https_url (url : string) : bool :=
  (String.length url <=? 2048)%nat && starts_with "https://" url
  && negb (bool_decide ("@"%char ∈ bytes url)) && negb (bool_decide ("#"%char ∈ bytes url))
  && negb (has_control url || whitespace_in (bytes url))
  && match strip_prefix "https://" url with
     | Some rest => match str_split slash rest with
                    | host :: _ => bool_decide ("."%char ∈ bytes host)
                    | [] => false
                    end
     | None => false
     end.

Definition chars_between (low high : nat) (value : string) : bool :=
  (low <=? chars_count value)%nat && (chars_count value <=? high)%nat.
Definition inline_ok (value : string) (low high : nat) : bool :=
  chars_between low high value && is_trimmed value && negb (has_control value).
Definition newline_byte : ascii := ascii_of_nat 10.
Definition prose_ok (value : string) (low high : nat) : bool :=
  chars_between low high value && is_trimmed value
  && negb (control_in (List.filter (λ b, negb (bool_decide (b = newline_byte))) (bytes value))).

Definition validate_asset (asset : ImageAsset) (field : AssetField) (max_bytes width height : Z) : list ListingIssue :=
  issue_if (negb (is_valid_asset_path (ass_path asset))) (LiAssetPath field)
  ++ issue_if (negb (listing_is_lower_hex (ass_sha256 asset) 32)) (LiAssetSha256 field)
  ++ issue_if (negb ((1 <=? ass_bytes asset)%Z && (ass_bytes asset <=? max_bytes)%Z)) (LiAssetBytes field max_bytes)
  ++ issue_if (negb ((ass_width asset =? width)%Z && (ass_height asset =? height)%Z)) (LiAssetDimensions field).

Fixpoint validate_screenshots (index : nat) (paths : gset string) (l : list ImageAsset) : list ListingIssue :=
  match l with
  | [] => []
  | screenshot :: l =>
      validate_asset screenshot (ScreenshotField index) MAX_SCREENSHOT_BYTES 320 170
      ++ issue_if (bool_decide (ass_path screenshot ∈ paths)) (LiDuplicateAsset index)
      ++ validate_screenshots (S index) ({[ass_path screenshot]} ∪ paths) l
  end.

(** [previous.is_some_and(|previous| previous >= value)]. *)
Definition not_after (previous : option string) (value : string) : bool :=
  match previous with Some p => negb (str_ltb p value) | None => false end.

Fixpoint validate_keywords (index : nat) (previous : option string) (l : list string) : list ListingIssue :=
  match l with
  | [] => []
  | keyword :: l =>
      issue_if (negb (inline_ok keyword 1 24)) (LiText index KeywordField)
      ++ issue_if (48 <? String.length keyword)%nat (LiKeywordBytes index)
      ++ issue_if (not_after previous keyword) (LiKeywordOrder index)
      ++ validate_keywords index (Some keyword) l
  end.

Definition validate_localization (index : nat) (previous : option string) (loc : LocalizedListing) : list ListingIssue :=
  issue_if (negb (listing_is_valid_locale (ll_locale loc))) (LiLocale index)
  ++ issue_if (not_after previous (ll_locale loc)) LiLocaleOrder
  ++ issue_if (negb (inline_ok (ll_name loc) 1 32)) (LiText index NameField)
  ++ issue_if (negb (inline_ok (ll_subtitle loc) 1 48)) (LiText index SubtitleField)
  ++ issue_if (negb (prose_ok (ll_description loc) 1 1024)) (LiText index DescriptionField)
  ++ issue_if (negb (prose_ok (ll_release_notes loc) 1 512)) (LiText index ReleaseNotesField)
  ++ issue_if (MAX_KEYWORDS <? length (ll_keywords loc))%nat (LiKeywordCount index)
  ++ validate_keywords index None (ll_keywords loc).

(** The issues of the localizations and whether one has the default locale. *)
Fixpoint validate_localizations (default_locale : string) (index : nat) (previous : option string) (has_default : bool)
    (l : list LocalizedListing) : list ListingIssue * bool :=
  match l with
  | [] => ([], has_default)
  | loc :: l =>
      let '(issues, has_default) := validate_localizations default_locale (S index) (Some (ll_locale loc))
                                      (has_default || bool_decide (ll_locale loc = default_locale)) l in
      (validate_localization index previous loc ++ issues, has_default)
  end.

Definition listing_issues (l : StoreListing) : list ListingIssue :=
  let '(localization_issues, has_default) :=
    validate_localizations (sl_default_locale l) 0 None false (sl_localizations l) in
  issue_if (negb (sl_schema_version l =? STORE_LISTING_SCHEMA_VERSION)%Z) LiSchema
  ++ issue_if (negb (is_valid_app_id (sl_app_id l))) LiAppId
  ++ issue_if (negb (is_valid_app_version (sl_version l))) LiVersion
  ++ issue_if (negb (listing_is_valid_locale (sl_default_locale l))) LiDefaultLocale
  ++ issue_if (negb (listing_is_valid_https_url (sl_privacy_url l))) LiPrivacyUrl
  ++ issue_if (negb (listing_is_valid_https_url (sl_support_url l))) LiSupportUrl
  ++ validate_asset (sl_icon l) IconField MAX_ICON_BYTES 48 48
  ++ issue_if (negb ((1 <=? length (sl_screenshots l))%nat && (length (sl_screenshots l) <=? MAX_SCREENSHOTS)%nat))
       LiScreenshotCount
  ++ validate_screenshots 0 {[ass_path (sl_icon l)]} (sl_screenshots l)
  ++ issue_if (negb ((1 <=? length (sl_localizations l))%nat && (length (sl_localizations l) <=? MAX_LOCALIZATIONS)%nat))
       LiLocalizationCount
  ++ localization_issues
  ++ issue_if (negb has_default) LiNoDefault.

Definition listing_validate (l : StoreListing) : result (list ListingIssue) unit :=
  match listing_issues l with [] => Ok tt | issues => Err issues end.

Inductive ListingError := LeTooLarge | LeJson | LeInvalid (issues : list ListingIssue).

Definition listing_parse_and_validate (from_slice : list ascii → option StoreListing) (encoded : list ascii)
    : result ListingError StoreListing :=
  if (MAX_STORE_LISTING_BYTES <? Z.of_nat (length encoded))%Z then Err LeTooLarge
  else
    let? listing := ok_or (from_slice encoded) LeJson in
    let? _ := map_err LeInvalid (listing_validate listing) in
    Ok listing.

(** ** PNG files *)

Inductive PngError :=
| PngSignature | PngHeaderTruncated | PngLength | PngChunkType | PngCrc | PngIhdr | PngDimensions (width height : Z)
| PngIhdrFields | PngPalette | PngData | PngIend | PngCritical | PngNoIend.

Definition PNG_SIGNATURE : list ascii := map byte_of_Z [137; 80; 78; 71; 13; 10; 26; 10]%Z.

(** One round of the inner loop of [png_crc32]. *)
Definition crc_round (crc : Z) : Z :=
  if negb (Z.land crc 1 =? 0)%Z then Z.lxor (Z.shiftr crc 1) 3988292384 (* 0xedb8_8320 *) else Z.shiftr crc 1.
Definition crc_byte (crc : Z) (b : ascii) : Z := Nat.iter 8 crc_round (Z.lxor crc (byte_of b)).
Definition png_crc32 (l : list ascii) : Z := Z.lxor (fold_left crc_byte l u32_max) u32_max.

(** [u32::from_be_bytes]. *)
Definition be_value (l : list ascii) : Z := le_value (reverse l).

Definition is_ascii_alphabetic (b : ascii) : bool := is_ascii_lowercase b || is_ascii_uppercase b.

Record PngState := mkPngState {
  png_first : bool;
  seen_header : bool;
  seen_data : bool;
  data_ended : bool;
}.

(** The depth and colour type of an IHDR. *)
Definition valid_depth (depth colour : Z) : bool :=
  match colour with
  | 0 => bool_decide (depth ∈ [1; 2; 4; 8; 16])
  | 2 | 4 | 6 => bool_decide (depth ∈ [8; 16])
  | 3 => bool_decide (depth ∈ [1; 2; 4; 8])
  | _ => false
  end%Z.

Definition byte_at (l : list ascii) (i : nat) : Z := match l !! i with Some b => byte_of b | None => 0 end.

Definition validate_ihdr (s : PngState) (data : list ascii) (width height : Z) : result PngError unit :=
  if seen_header s || negb (png_first s) || negb (length data =? 13)%nat then Err PngIhdr
  else if negb (be_value (take 4 data) =? width)%Z || negb (be_value (take 4 (drop 4 data)) =? height)%Z
  then Err (PngDimensions width height)
  else if negb (valid_depth (byte_at data 8) (byte_at data 9)) || negb (byte_at data 10 =? 0)%Z
          || negb (byte_at data 11 =? 0)%Z || negb (bool_decide (byte_at data 12 ∈ [0; 1]%Z))
  then Err PngIhdrFields
  else Ok tt.

Definition IHDR : list ascii := bytes "IHDR".
Definition PLTE : list ascii := bytes "PLTE".
Definition IDAT : list ascii := bytes "IDAT".
Definition IEND : list ascii := bytes "IEND".

(** What one chunk does to the state; [None] is the [return Ok] at IEND. *)
Definition png_chunk (s : PngState) (kind data : list ascii) (last : bool) (width height : Z)
    : result PngError (option PngState) :=
  if bool_decide (kind = IHDR) then
    let? _ := validate_ihdr s data width height in
    Ok (Some (mkPngState false true (seen_data s) (data_ended s || seen_data s)))
  else if bool_decide (kind = PLTE) then
    if negb (seen_header s) || seen_data s || bool_decide (data = []) || (768 <? length data)%nat
       || negb (length data mod 3 =? 0)%nat
    then Err PngPalette
    else Ok (Some (mkPngState false (seen_header s) (seen_data s) (data_ended s || seen_data s)))
  else if bool_decide (kind = IDAT) then
    if negb (seen_header s) || data_ended s then Err PngData
    else Ok (Some (mkPngState false (seen_header s) true (data_ended s)))
  else if bool_decide (kind = IEND) then
    if negb (seen_header s) || negb (seen_data s) || negb (bool_decide (data = [])) || negb last then Err PngIend
    else Ok None
  else if match kind with b :: _ => is_ascii_uppercase b | [] => false end then Err PngCritical
  else Ok (Some (mkPngState false (seen_header s) (seen_data s) (data_ended s || seen_data s))).

(** The loop over the bytes from [offset] on. *)
Fixpoint png_loop (fuel : nat) (s : PngState) (rest : list ascii) (width height : Z) : result PngError unit :=
  match rest with
  | [] => Err PngNoIend
  | _ :: _ =>
      match fuel with
      | O => Panicked
      | S fuel =>
          if (length rest <? 8)%nat then Err PngHeaderTruncated
          else
            let declared := be_value (take 4 rest) in
            if (Z.of_nat (length rest) <? 8 + declared + 4)%Z then Err PngLength
            else
              let length_field := Z.to_nat declared in
              let kind := take 4 (drop 4 rest) in
              let data := take length_field (drop 8 rest) in
              let crc := take 4 (drop (8 + length_field) rest) in
              let after := drop (8 + length_field + 4) rest in
              if negb (forallb is_ascii_alphabetic kind) then Err PngChunkType
              else if negb (png_crc32 (take (4 + length_field) (drop 4 rest)) =? be_value crc)%Z then Err PngCrc
              else
                let? next := png_chunk s kind data (bool_decide (after = [])) width height in
                match next with
                | None => Ok tt
                | Some s => png_loop fuel s after width height
                end
      end
  end.

Definition validate_png_structure (encoded : list ascii) (width height : Z) : result PngError unit :=
  if negb (bool_decide (take 8 encoded = PNG_SIGNATURE)) then Err PngSignature
  else png_loop (length encoded) (mkPngState true false false false) (drop 8 encoded) width height.

(** ** The grammar of PNG files *)

#[local] Arguments Nat.modulo : simpl never.

Record PngChunk := mkPngChunk { pk_kind : list ascii; pk_data : list ascii }.

Definition chunk_bytes (c : PngChunk) : list ascii :=
  be_bytes 4 (Z.of_nat (length (pk_data c))) ++ (pk_kind c ++ pk_data c) ++ be_bytes 4 (png_crc32 (pk_kind c ++ pk_data c)).

Record chunk_wf (c : PngChunk) : Prop := {
  cw_kind : length (pk_kind c) = 4;
  cw_letters : Forall (λ b, is_ascii_alphabetic b = true) (pk_kind c);
  cw_data : (Z.of_nat (length (pk_data c)) ≤ u32_max)%Z;
}.

(** A chunk that a decoder may ignore: its first letter is a small one. *)
Definition ancillary (c : PngChunk) : Prop :=
  ∃ b, head (pk_kind c) = Some b ∧ is_ascii_uppercase b = false.
Definition palette (c : PngChunk) : Prop :=
  pk_kind c = PLTE ∧ pk_data c ≠ [] ∧ length (pk_data c) ≤ 768 ∧ length (pk_data c) mod 3 = 0.
Definition image_header (width height : Z) (c : PngChunk) : Prop :=
  pk_kind c = IHDR ∧ length (pk_data c) = 13 ∧
  be_value (take 4 (pk_data c)) = width ∧ be_value (take 4 (drop 4 (pk_data c))) = height ∧
  valid_depth (byte_at (pk_data c) 8) (byte_at (pk_data c) 9) = true ∧
  byte_at (pk_data c) 10 = 0%Z ∧ byte_at (pk_data c) 11 = 0%Z ∧
  (byte_at (pk_data c) 12 = 0 ∨ byte_at (pk_data c) 12 = 1)%Z.
Definition end_chunk : PngChunk := mkPngChunk IEND [].

(** A header, palettes and ignorable chunks, the image data in one run,
    ignorable chunks, the end. *)
Definition png_body (width height : Z) (cs : list PngChunk) : Prop :=
  ∃ header before image after, cs = [header] ++ before ++ image ++ after ++ [end_chunk] ∧
    image_header width height header ∧ Forall (λ c, ancillary c ∨ palette c) before ∧
    image ≠ [] ∧ Forall (λ c, pk_kind c = IDAT) image ∧ Forall ancillary after.

Definition png_file (width height : Z) (encoded : list ascii) : Prop :=
  ∃ cs, encoded = PNG_SIGNATURE ++ concat (map chunk_bytes cs) ∧ Forall chunk_wf cs ∧ png_body width height cs.

(** *** Bytes of a chunk *)

Lemma be_value_bytes n z : (0 ≤ z < 256 ^ Z.of_nat n)%Z → be_value (be_bytes n z) = z.
Proof. intros Hz. unfold be_value, be_bytes. rewrite reverse_involutive. by apply le_value_bytes. Qed.

Lemma be_bytes_value l : be_bytes (length l) (be_value l) = l.
Proof.
  unfold be_value, be_bytes. rewrite <- (length_reverse l), le_bytes_value. apply reverse_involutive.
Qed.

Lemma be_value_range l : (0 ≤ be_value l < 256 ^ Z.of_nat (length l))%Z.
Proof. unfold be_value. rewrite <- (length_reverse l). apply le_value_range. Qed.

Definition u32_range (z : Z) : Prop := (0 ≤ z < 2 ^ 32)%Z.

Lemma u32_range_lxor a b : u32_range a → u32_range b → u32_range (Z.lxor a b).
Proof.
  unfold u32_range. intros [Ha Ha'] [Hb Hb']. assert (0 ≤ Z.lxor a b)%Z as Hn by (apply Z.lxor_nonneg; lia).
  split; [done|]. destruct (Z.eq_dec (Z.lxor a b) 0%Z) as [->|Hz]; [lia|].
  apply Z.log2_lt_pow2; [lia|]. eapply Z.le_lt_trans; [by apply Z.log2_lxor|].
  apply Z.max_lub_lt; (destruct (Z.eq_dec a 0%Z) as [->|]; destruct (Z.eq_dec b 0%Z) as [->|]; try done;
    apply Z.log2_lt_pow2; lia).
Qed.

Lemma crc_round_range z : u32_range z → u32_range (crc_round z).
Proof.
  intros Hz. unfold crc_round. assert (u32_range (Z.shiftr z 1)) as Hs.
  { unfold u32_range in *. rewrite Z.shiftr_div_pow2 by done. split; [apply Z.div_pos; lia|].
    apply Z.div_lt_upper_bound; lia. }
  destruct (negb _); [|done]. by apply u32_range_lxor.
Qed.

Lemma png_crc32_range l : u32_range (png_crc32 l).
Proof.
  unfold png_crc32. apply u32_range_lxor; [|done].
  assert (∀ z, u32_range z → u32_range (fold_left crc_byte l z)) as Hl; [|by apply Hl].
  induction l as [|b l IH]; simpl; [done|]. intros z Hz. apply IH. unfold crc_byte.
  assert (∀ n x, u32_range x → u32_range (Nat.iter n crc_round x)) as Hit.
  { intros n x Hx. induction n; simpl; [done|]. by apply crc_round_range. }
  apply Hit, u32_range_lxor; [done|]. pose proof (byte_of_range b). unfold u32_range. lia.
Qed.

Lemma length_chunk_bytes c : chunk_wf c → length (chunk_bytes c) = (8 + length (pk_data c) + 4)%nat.
Proof. intros [Hk _ _]. unfold chunk_bytes. rewrite !length_app, !length_be_bytes. lia. Qed.

(** What the loop reads from the bytes of a chunk. *)
Lemma chunk_fields c rest :
  chunk_wf c → let l := chunk_bytes c ++ rest in let n := length (pk_data c) in
  take 4 l = be_bytes 4 (Z.of_nat n) ∧ take 4 (drop 4 l) = pk_kind c ∧ take n (drop 8 l) = pk_data c ∧
  take 4 (drop (8 + n) l) = be_bytes 4 (png_crc32 (pk_kind c ++ pk_data c)) ∧
  take (4 + n) (drop 4 l) = pk_kind c ++ pk_data c ∧ drop (8 + n + 4) l = rest.
Proof.
  intros [Hk _ _]. unfold chunk_bytes. cbv zeta. set (n := length (pk_data c)).
  pose proof (length_be_bytes 4 (Z.of_nat n)) as H1.
  pose proof (length_be_bytes 4 (png_crc32 (pk_kind c ++ pk_data c))) as H2.
  set (a := be_bytes 4 _) in *. set (z := be_bytes 4 (png_crc32 _)) in *.
  rewrite <- !(assoc_L (++)). split_and!.
  - by rewrite take_app_length'.
  - rewrite drop_app_length' by done. by rewrite take_app_length'.
  - rewrite (assoc_L (++)), drop_app_length' by (rewrite length_app; lia). by rewrite take_app_length'.
  - rewrite (assoc_L (++) a), (assoc_L (++) (a ++ _)), drop_app_length' by (rewrite !length_app; lia).
    by rewrite take_app_length'.
  - rewrite drop_app_length' by done. rewrite (assoc_L (++)), take_app_length'; [done|]. rewrite length_app. lia.
  - rewrite (assoc_L (++) a), (assoc_L (++) (a ++ _)), (assoc_L (++) ((a ++ _) ++ _)), drop_app_length'; [done|].
    rewrite !length_app. lia.
Qed.

(** *** The loop as a run over chunks *)

Section png.
  Context (width height : Z).

Fixpoint png_run (s : PngState) (cs : list PngChunk) : result PngError unit :=
  match cs with
  | [] => Err PngNoIend
  | c :: cs =>
      let? next := png_chunk s (pk_kind c) (pk_data c) (bool_decide (cs = [])) width height in
      match next with None => Ok tt | Some s => png_run s cs end
  end.

Lemma concat_chunks_nil cs : Forall chunk_wf cs → concat (map chunk_bytes cs) = [] ↔ cs = [].
Proof.
  intros Hcs. split; [|by intros ->]. destruct Hcs as [|c cs Hc _]; [done|]. cbn [map concat].
  intros [Hnil _]%app_nil. apply (f_equal length) in Hnil. rewrite length_chunk_bytes in Hnil by done. simpl in Hnil. lia.
Qed.

Lemma png_loop_chunk fuel s c rest :
  chunk_wf c → png_loop (S fuel) s (chunk_bytes c ++ rest) width height =
    let? next := png_chunk s (pk_kind c) (pk_data c) (bool_decide (rest = [])) width height in
    match next with None => Ok tt | Some s => png_loop fuel s rest width height end.
Proof.
  intros Hc. pose proof (length_chunk_bytes c Hc) as Hlen. pose proof (chunk_fields c rest Hc) as (H1&H2&H3&H4&H5&H6).
  destruct Hc as [_ Hletters Hdata]. set (l := chunk_bytes c ++ rest) in *.
  assert (length l = 8 + length (pk_data c) + 4 + length rest)%nat as Hl by (unfold l; rewrite length_app; lia).
  cbn [png_loop]. destruct l as [|b l'] eqn:El; [simpl in Hl; lia|]. rewrite <- El in *.
  rewrite H1, be_value_bytes by (unfold u32_max in Hdata; simpl; lia). rewrite Nat2Z.id.
  rewrite (proj2 (Nat.ltb_ge _ _)), (proj2 (Z.ltb_ge _ _)) by lia.
  rewrite H2, H3, H4, H5, H6, (proj2 (forallb_Forall _ _)) by done.
  rewrite be_value_bytes, Z.eqb_refl; [done|]. pose proof (png_crc32_range (pk_kind c ++ pk_data c)).
  unfold u32_range in *. simpl. lia.
Qed.

(** Whatever the loop gets past is a chunk. *)
Lemma png_loop_parse fuel s l :
  png_loop (S fuel) s l width height = Ok tt → ∃ c rest, chunk_wf c ∧ l = chunk_bytes c ++ rest.
Proof.
  cbn [png_loop]. destruct l as [|b l'] eqn:El; [done|]. rewrite <- El. clear El b l'.
  destruct (length l <? 8)%nat eqn:H8; [done|]. destruct (_ <? _)%Z eqn:Hn; [done|].
  destruct (negb (forallb _ _)) eqn:Hletters; [done|]. destruct (negb (_ =? _)%Z) eqn:Hcrc; [done|]. intros _.
  apply Nat.ltb_ge in H8. apply Z.ltb_ge in Hn. apply negb_false_iff, forallb_Forall in Hletters.
  apply negb_false_iff, Z.eqb_eq in Hcrc.
  pose proof (be_value_range (take 4 l)) as Hrange. rewrite length_take_le in Hrange by lia.
  set (n := Z.to_nat (be_value (take 4 l))) in *. assert (8 + n + 4 ≤ length l)%nat as Hlen by lia.
  assert (take (4 + n) (drop 4 l) = take 4 (drop 4 l) ++ take n (drop 8 l)) as Hkd.
  { replace (drop 8 l) with (drop 4 (drop 4 l)) by (by rewrite drop_drop). by rewrite take_take_drop. }
  exists (mkPngChunk (take 4 (drop 4 l)) (take n (drop 8 l))), (drop (8 + n + 4) l).
  assert (length (take n (drop 8 l)) = n) as Hdl by (rewrite length_take_le; [done|rewrite length_drop; lia]).
  split; [split; simpl|].
  - rewrite length_take_le; [done|]. rewrite length_drop. lia.
  - done.
  - rewrite Hdl. unfold u32_max. simpl in Hrange. lia.
  - unfold chunk_bytes. simpl pk_kind. simpl pk_data. rewrite Hdl, <- Hkd, Hcrc.
    replace (Z.of_nat n) with (be_value (take 4 l)) by lia.
    assert (be_bytes 4 (be_value (take 4 l)) = take 4 l) as ->.
    { rewrite <- (be_bytes_value (take 4 l)) at 2. rewrite length_take_le by lia. done. }
    assert (be_bytes 4 (be_value (take 4 (drop (8 + n) l))) = take 4 (drop (8 + n) l)) as ->.
    { rewrite <- (be_bytes_value (take 4 (drop (8 + n) l))) at 2. rewrite length_take_le; [done|]. rewrite length_drop. lia. }
    replace (drop (8 + n) l) with (drop (4 + n) (drop 4 l)) by (rewrite drop_drop; f_equal; lia).
    replace (drop (8 + n + 4) l) with (drop 4 (drop (4 + n) (drop 4 l))) by (rewrite !drop_drop; f_equal; lia).
    rewrite <- !(assoc_L (++)), (take_drop 4), take_drop, take_drop. done.
Qed.

Lemma png_loop_iff fuel s l :
  (length l ≤ fuel)%nat →
  png_loop fuel s l width height = Ok tt ↔
  ∃ cs, Forall chunk_wf cs ∧ l = concat (map chunk_bytes cs) ∧ png_run s cs = Ok tt.
Proof.
  revert s l. induction fuel as [|fuel IH]; intros s l Hf.
  { destruct l; simpl in Hf; [|lia]. simpl. split; [done|]. intros ([|c cs]&Hcs&Hl&Hrun); [done|].
    symmetry in Hl. by apply concat_chunks_nil in Hl. }
  assert (∀ c rest, chunk_wf c → l = chunk_bytes c ++ rest → (length rest ≤ fuel)%nat) as Hrest.
  { intros c rest Hc ->. rewrite length_app, length_chunk_bytes in Hf by done. lia. }
  split.
  - intros Hok. destruct (png_loop_parse fuel s l Hok) as (c&rest&Hc&->). specialize (Hrest c rest Hc eq_refl).
    rewrite png_loop_chunk in Hok by done. destruct (png_chunk _ _ _ _ _ _) as [[s'|]|e|] eqn:Hstep; [|clear Hok|done..].
    + apply IH in Hok as (cs&Hcs&->&Hrun); [|done]. exists (c :: cs). split_and!; [by constructor|done|].
      cbn [png_run]. rewrite <- (bool_decide_ext _ _ (concat_chunks_nil cs Hcs)), Hstep. done.
    + assert (rest = []) as ->.
      { unfold png_chunk in Hstep. repeat (case_match; try done). destruct rest; [done|].
        repeat match goal with H : context [bool_decide (_ :: _ = [])] |- _ => rewrite bool_decide_eq_false_2 in H by done end.
        simplify_eq/=. rewrite !orb_true_r in *. done. }
      exists [c]. split_and!; [by constructor|cbn [map concat]; done|]. cbn [png_run].
      rewrite bool_decide_eq_true_2 in Hstep by done. rewrite bool_decide_eq_true_2 by done. by rewrite Hstep.
  - intros ([|c cs]&Hcs&->&Hrun); [done|]. inversion Hcs as [|? ? Hc Hcs']; subst. cbn [map concat]. specialize (Hrest c _ Hc eq_refl).
    rewrite png_loop_chunk, (bool_decide_ext _ _ (concat_chunks_nil cs Hcs')) by done. cbn [png_run] in Hrun.
    destruct (png_chunk _ _ _ _ _ _) as [[s'|]|e|]; [|done..]. apply IH; [done|]. eauto.
Qed.

(** *** The run as a grammar *)

(** The states after the header: before, within and after the image data. *)
Definition phase (data ended : bool) : PngState := mkPngState false true data ended.

Lemma ancillary_kind c k : ancillary c → k ∈ [IHDR; PLTE; IDAT; IEND] → pk_kind c ≠ k.
Proof.
  intros (b&Hb&Hu) Hk Heq. rewrite Heq in Hb. rewrite !elem_of_cons in Hk.
  destruct Hk as [->|[->|[->|[->|Hk]]]]; [simplify_eq/=; done..|by apply elem_of_nil in Hk].
Qed.

Lemma png_chunk_ancillary s c l :
  ancillary c →
  png_chunk s (pk_kind c) (pk_data c) l width height =
    Ok (Some (mkPngState false (seen_header s) (seen_data s) (data_ended s || seen_data s))).
Proof.
  intros Ha. unfold png_chunk. rewrite !bool_decide_eq_false_2 by (apply (ancillary_kind c); [done|set_solver]).
  destruct Ha as (b&Hb&Hu). destruct (pk_kind c); simplify_eq/=. by rewrite Hu.
Qed.

(** The five kinds of chunk. *)
Lemma chunk_cases c :
  chunk_wf c → pk_kind c = IHDR ∨ pk_kind c = PLTE ∨ pk_kind c = IDAT ∨ pk_kind c = IEND ∨ ancillary c ∨
  ∀ s l, png_chunk s (pk_kind c) (pk_data c) l width height = Err PngCritical.
Proof.
  intros [Hk _ _]. destruct (decide (pk_kind c = IHDR)); [auto|]. destruct (decide (pk_kind c = PLTE)); [auto|].
  destruct (decide (pk_kind c = IDAT)); [auto|]. destruct (decide (pk_kind c = IEND)); [auto 6|].
  destruct (pk_kind c) as [|b k] eqn:Hc; [done|]. do 4 right.
  destruct (is_ascii_uppercase b) eqn:Hb; [right|left; exists b; by rewrite Hc].
  intros s l. unfold png_chunk. rewrite !bool_decide_eq_false_2 by done. by rewrite Hb.
Qed.

Lemma run_ended cs :
  Forall chunk_wf cs →
  png_run (phase true true) cs = Ok tt ↔ ∃ after, cs = after ++ [end_chunk] ∧ Forall ancillary after.
Proof.
  induction 1 as [|c cs Hc Hcs IH]; simpl; [split; [done|by intros ([|]&?&_)]|]. split.
  - destruct (chunk_cases c Hc) as [Hk|[Hk|[Hk|[Hk|[Ha|Hx]]]]]; [unfold png_chunk; rewrite Hk; try done..| |by rewrite Hx].
    + simpl. repeat case_bool_decide; try done; intros _. subst cs. exists []. split; [|done].
      destruct c; simplify_eq/=. done.
    + rewrite png_chunk_ancillary by done. simpl. fold (phase true true). rewrite IH. intros (after&->&Haf).
      exists (c :: after). split; [done|by constructor].
  - intros ([|a after]&Heq&Haf).
    + injection Heq as -> ->. done.
    + injection Heq as -> ->. inversion Haf; subst. rewrite png_chunk_ancillary by done. simpl.
      fold (phase true true). apply IH. eauto.
Qed.

Lemma run_image cs :
  Forall chunk_wf cs →
  png_run (phase true false) cs = Ok tt ↔
  ∃ image after, cs = image ++ after ++ [end_chunk] ∧ Forall (λ c, pk_kind c = IDAT) image ∧ Forall ancillary after.
Proof.
  induction 1 as [|c cs Hc Hcs IH]; simpl; [split; [done|by intros ([|]&[|]&?&_)]|]. split.
  - destruct (chunk_cases c Hc) as [Hk|[Hk|[Hk|[Hk|[Ha|Hx]]]]]; [unfold png_chunk; rewrite Hk; try done..| |by rewrite Hx].
    + simpl. fold (phase true false). rewrite IH. intros (image&after&->&Hi&Ha). exists (c :: image), after.
      split_and!; [done|by constructor|done].
    + simpl. repeat case_bool_decide; try done; intros _. subst cs. exists [], []. split_and!; [|done..].
      destruct c; simplify_eq/=. done.
    + rewrite png_chunk_ancillary by done. simpl. fold (phase true true). rewrite run_ended by done.
      intros (after&->&Haf). exists [], (c :: after). split_and!; [done..|by constructor].
  - intros ([|a image]&after&Heq&Hi&Haf).
    + destruct after as [|a after]; injection Heq as -> ->; [done|]. inversion Haf; subst.
      rewrite png_chunk_ancillary by done. simpl. fold (phase true true). apply run_ended; [done|]. eauto.
    + injection Heq as -> ->. inversion Hi as [|? ? Hk Hi']; subst. unfold png_chunk. rewrite Hk. simpl.
      fold (phase true false). apply IH. eauto.
Qed.

Lemma run_header cs :
  Forall chunk_wf cs →
  png_run (phase false false) cs = Ok tt ↔
  ∃ before image after, cs = before ++ image ++ after ++ [end_chunk] ∧
    Forall (λ c, ancillary c ∨ palette c) before ∧ image ≠ [] ∧
    Forall (λ c, pk_kind c = IDAT) image ∧ Forall ancillary after.
Proof.
  induction 1 as [|c cs Hc Hcs IH]; simpl; [split; [done|by intros ([|]&[|]&[|]&?&_)]|]. split.
  - destruct (chunk_cases c Hc) as [Hk|[Hk|[Hk|[Hk|[Ha|Hx]]]]]; [unfold png_chunk; rewrite Hk; try done..| |by rewrite Hx].
    + simpl. destruct (bool_decide (pk_data c = [])) eqn:Hd; [done|]. destruct (768 <? _)%nat eqn:H768; [done|].
      destruct (negb (_ =? _)%nat) eqn:H3; [done|]. simpl. fold (phase false false). rewrite IH.
      intros (before&image&after&->&Hb&?&?&?). exists (c :: before), image, after. split_and!; try done.
      constructor; [|done]. right. apply bool_decide_eq_false in Hd. apply Nat.ltb_ge in H768. apply negb_false_iff, Nat.eqb_eq in H3. by split_and!.
    + simpl. fold (phase true false). rewrite run_image by done. intros (image&after&->&Hi&Ha).
      exists [], (c :: image), after. split_and!; try done. by constructor.
    + rewrite png_chunk_ancillary by done. simpl. fold (phase false false). rewrite IH.
      intros (before&image&after&->&Hb&?&?&?). exists (c :: before), image, after. split_and!; try done.
      constructor; [by left|done].
  - intros ([|b before]&image&after&Heq&Hb&Hne&Hi&Haf).
    + destruct image as [|i image]; [done|]. injection Heq as -> ->. inversion Hi as [|? ? Hk Hi']; subst.
      unfold png_chunk. rewrite Hk. simpl. fold (phase true false). apply run_image; [done|]. eauto.
    + injection Heq as -> ->. inversion Hb as [|? ? [Ha|(Hk&Hd&H768&H3)] Hb']; subst.
      * rewrite png_chunk_ancillary by done. simpl. fold (phase false false). apply IH. eauto 10.
      * unfold png_chunk. rewrite Hk. simpl. rewrite bool_decide_eq_false_2 by done.
        rewrite (proj2 (Nat.ltb_ge _ _)), H3 by done. simpl. fold (phase false false). apply IH. eauto 10.
Qed.

(** Without a header in front nothing is accepted. *)
Lemma run_headless cs b : Forall chunk_wf cs → png_run (mkPngState false false false b) cs ≠ Ok tt.
Proof.
  intros Hcs. revert b. induction Hcs as [|c cs Hc Hcs IH]; intros b; simpl; [done|].
  destruct (chunk_cases c Hc) as [Hk|[Hk|[Hk|[Hk|[Ha|Hx]]]]]; [unfold png_chunk; rewrite Hk; try done..| |by rewrite Hx].
  rewrite png_chunk_ancillary by done. simpl. apply IH.
Qed.

Lemma run_start cs :
  Forall chunk_wf cs → png_run (mkPngState true false false false) cs = Ok tt ↔ png_body width height cs.
Proof.
  intros Hcs. destruct Hcs as [|c cs Hc Hcs]; simpl; [split; [done|by intros (?&?&?&?&?&_)]|].
  unfold png_body. split.
  - destruct (chunk_cases c Hc) as [Hk|[Hk|[Hk|[Hk|[Ha|Hx]]]]]; [unfold png_chunk; rewrite Hk; try done..| |by rewrite Hx].
    + simpl. destruct (validate_ihdr _ _ _ _) as [[]| |] eqn:Hv; [|done..]. fold (phase false false).
      rewrite run_header by done. intros (before&image&after&->&?&?&?&?). exists c, before, image, after.
      split_and!; try done. unfold validate_ihdr in Hv. simpl in Hv.
      repeat (case_match; [done|]). unbool_hyps. unfold image_header. split_and!; try done.
      match goal with H : byte_at _ 12 ∈ _ |- _ => rewrite !elem_of_cons, elem_of_nil in H; tauto end.
    + rewrite png_chunk_ancillary by done. simpl. intros H. by apply run_headless in H.
  - intros (header&before&image&after&[= -> ->]&(Hk&Hl&Hw&Hh&Hd&H10&H11&H12)&?&?&?&?).
    unfold png_chunk. rewrite Hk. simpl. unfold validate_ihdr. simpl. rewrite Hl, Hw, Hh, Hd, H10, H11, !Z.eqb_refl. simpl.
    rewrite bool_decide_eq_true_2 by (rewrite !elem_of_cons; tauto). simpl. fold (phase false false).
    apply run_header; [done|]. eauto 10.
Qed.

End png.

(** C34: the image check accepts exactly the PNG files of the announced size: the
    signature, then chunks that each carry their length and CRC, of which the
    first is a valid header, palettes come before the image data, the image
    data is one uninterrupted run, unknown chunks are ignorable ones, and the
    file ends with the end chunk and nothing behind it. *)
Theorem png_structure_iff encoded width height :
  validate_png_structure encoded width height = Ok tt ↔ png_file width height encoded.
Proof.
  unfold validate_png_structure, png_file. case_bool_decide as Hs; cbn [negb].
  - rewrite png_loop_iff by (rewrite length_drop; lia). split.
    + intros (cs&Hcs&Hd&Hrun). exists cs. rewrite <- Hs, <- Hd, take_drop. split_and!; [done..|]. by apply run_start.
    + intros (cs&He&Hcs&Hb). exists cs. split_and!; [done| |by apply run_start].
      rewrite He. by rewrite drop_app_length' by done.
  - split; [done|]. intros (cs&->&_). by destruct Hs.
Qed.

(** ** Valid listings *)

Record asset_wf (max_bytes width height : Z) (a : ImageAsset) : Prop := {
  aw_path : is_valid_asset_path (ass_path a) = true;
  aw_sha256 : listing_is_lower_hex (ass_sha256 a) 32 = true;
  aw_bytes : (1 ≤ ass_bytes a ≤ max_bytes)%Z;
  aw_size : ass_width a = width ∧ ass_height a = height;
}.

Record localization_wf (l : LocalizedListing) : Prop := {
  lw_locale : listing_is_valid_locale (ll_locale l) = true;
  lw_name : inline_ok (ll_name l) 1 32 = true;
  lw_subtitle : inline_ok (ll_subtitle l) 1 48 = true;
  lw_description : prose_ok (ll_description l) 1 1024 = true;
  lw_release_notes : prose_ok (ll_release_notes l) 1 512 = true;
  lw_keyword_count : length (ll_keywords l) ≤ MAX_KEYWORDS;
  lw_keywords : Forall (λ k, inline_ok k 1 24 = true ∧ String.length k ≤ 48) (ll_keywords l);
  lw_keyword_order : Sorted str_lt (ll_keywords l);
}.

Record listing_wf (l : StoreListing) : Prop := {
  sw_schema : sl_schema_version l = STORE_LISTING_SCHEMA_VERSION;
  sw_app_id : is_valid_app_id (sl_app_id l) = true;
  sw_version : is_valid_app_version (sl_version l) = true;
  sw_default_locale : listing_is_valid_locale (sl_default_locale l) = true;
  sw_privacy_url : listing_is_valid_https_url (sl_privacy_url l) = true;
  sw_support_url : listing_is_valid_https_url (sl_support_url l) = true;
  sw_icon : asset_wf MAX_ICON_BYTES 48 48 (sl_icon l);
  sw_screenshot_count : 1 ≤ length (sl_screenshots l) ≤ MAX_SCREENSHOTS;
  sw_screenshots : Forall (asset_wf MAX_SCREENSHOT_BYTES 320 170) (sl_screenshots l);
  sw_distinct : NoDup (map ass_path (sl_icon l :: sl_screenshots l));
  sw_localization_count : 1 ≤ length (sl_localizations l) ≤ MAX_LOCALIZATIONS;
  sw_localizations : Forall localization_wf (sl_localizations l);
  sw_locale_order : Sorted str_lt (map ll_locale (sl_localizations l));
  sw_default : sl_default_locale l ∈ map ll_locale (sl_localizations l);
}.

Lemma issue_if_nil b issue : issue_if b issue = [] ↔ b = false.
Proof. by destruct b. Qed.

Lemma between_iff a b n : negb ((a <=? n)%nat && (n <=? b)%nat) = false ↔ a ≤ n ≤ b.
Proof. rewrite negb_false_iff, andb_true_iff, !Nat.leb_le. done. Qed.

Lemma validate_asset_nil a field max_bytes width height :
  validate_asset a field max_bytes width height = [] ↔ asset_wf max_bytes width height a.
Proof.
  unfold validate_asset. rewrite !app_nil, !issue_if_nil, !negb_false_iff, !andb_true_iff, !Z.leb_le, !Z.eqb_eq.
  split; [intros (?&?&?&?); constructor; assumption|intros []; split_and!; assumption || tauto].
Qed.

Lemma validate_screenshots_nil index paths l :
  validate_screenshots index paths l = [] ↔
  Forall (asset_wf MAX_SCREENSHOT_BYTES 320 170) l ∧ NoDup (map ass_path l) ∧ (∀ a, a ∈ l → ass_path a ∉ paths).
Proof.
  revert index paths. induction l as [|a l IH]; intros index paths; simpl.
  { split; [|done]. intros _. split_and!; [constructor|constructor|]. by intros a ?%elem_of_nil. }
  rewrite !app_nil, issue_if_nil, bool_decide_eq_false, validate_asset_nil, IH, Forall_cons, NoDup_cons.
  split.
  - intros (Ha&Hp&Hl&Hnd&Hdisj). split_and!; try done.
    + intros (b&Hb&Hin)%list_elem_of_fmap. apply (Hdisj b Hin). set_solver.
    + intros b [->|Hb]%elem_of_cons; [done|]. specialize (Hdisj b Hb). set_solver.
  - intros ((Ha&Hl)&(Hn&Hnd)&Hdisj). split_and!; try done.
    + apply Hdisj. by left.
    + intros b Hb. specialize (Hdisj b (list_elem_of_further _ _ _ Hb)). rewrite not_elem_of_union, not_elem_of_singleton.
      split; [|done]. intros Heq. apply Hn, list_elem_of_fmap. by exists b.
Qed.

Lemma not_after_false previous value :
  not_after previous value = false ↔ ∀ p, previous = Some p → str_lt p value.
Proof.
  destruct previous as [p|]; simpl; [|done]. rewrite negb_false_iff, str_ltb_lt. split; [by intros ? ? [= <-]|auto].
Qed.

(** The thread of [previous] through a loop makes the list sorted. *)
Lemma sorted_thread previous value l :
  Sorted str_lt (option_list previous ++ value :: l) ↔ (∀ p, previous = Some p → str_lt p value) ∧ Sorted str_lt (value :: l).
Proof.
  destruct previous as [p|]; simpl; [|naive_solver]. split.
  - intros Hs. apply Sorted_inv in Hs as [Hs Hh]. inversion Hh; subst. split; [by intros ? [= <-]|done].
  - intros [Hp Hs]. constructor; [done|]. constructor. by apply Hp.
Qed.

Lemma validate_keywords_nil index previous l :
  validate_keywords index previous l = [] ↔
  Forall (λ k, inline_ok k 1 24 = true ∧ String.length k ≤ 48) l ∧ (l ≠ [] → Sorted str_lt (option_list previous ++ l)).
Proof.
  revert previous. induction l as [|k l IH]; intros previous; simpl; [split; [|done]; by split|].
  rewrite !app_nil, !issue_if_nil, negb_false_iff, Nat.ltb_ge, not_after_false, IH, Forall_cons, sorted_thread.
  split.
  - intros (Hi&Hlen&Hp&Hl&Hs). split_and!; try done. intros _. split; [done|].
    destruct l; [repeat constructor|]. by apply Hs.
  - intros (((Hi&Hlen)&Hl)&Hs). destruct Hs as [Hp Hs]; [done|]. split_and!; done.
Qed.

Lemma validate_localization_nil index previous l :
  validate_localization index previous l = [] ↔ localization_wf l ∧ ∀ p, previous = Some p → str_lt p (ll_locale l).
Proof.
  unfold validate_localization.
  rewrite !app_nil, !issue_if_nil, !negb_false_iff, Nat.ltb_ge, not_after_false, validate_keywords_nil. simpl. split.
  - intros (?&?&?&?&?&?&?&?&Hs). split; [|done]. split; try done. destruct (ll_keywords l); [constructor|by apply Hs].
  - intros [[] Hp]. by split_and!.
Qed.

Lemma validate_localizations_nil default_locale index previous has l :
  let r := validate_localizations default_locale index previous has l in
  (r.1 = [] ↔ Forall localization_wf l ∧ (l ≠ [] → Sorted str_lt (option_list previous ++ map ll_locale l))) ∧
  (r.2 = true ↔ has = true ∨ default_locale ∈ map ll_locale l).
Proof.
  revert index previous has. induction l as [|x l IH]; intros index previous has; simpl.
  { split; [split; [|done]; by split|]. rewrite elem_of_nil. tauto. }
  specialize (IH (S index) (Some (ll_locale x)) (has || bool_decide (ll_locale x = default_locale))).
  destruct (validate_localizations _ _ _ _ _) as [issues has']. simpl in *. destruct IH as [IH1 IH2]. split.
  - rewrite app_nil, validate_localization_nil, IH1, Forall_cons, sorted_thread. split.
    + intros ((Hx&Hp)&Hl&Hs). split_and!; try done. intros _. split; [done|].
      destruct l; [repeat constructor|]. by apply Hs.
    + intros ((Hx&Hl)&Hs). destruct Hs as [Hp Hs]; [done|]. split_and!; done.
  - rewrite IH2, orb_true_iff, bool_decide_eq_true, elem_of_cons. intuition congruence.
Qed.

Lemma listing_validate_wf l : listing_validate l = Ok tt ↔ listing_wf l.
Proof.
  unfold listing_validate. transitivity (listing_issues l = []); [by destruct (listing_issues l)|].
  unfold listing_issues.
  pose proof (validate_localizations_nil (sl_default_locale l) 0 None false (sl_localizations l)) as [H1 H2].
  destruct (validate_localizations _ _ _ _ _) as [issues has]. simpl in H1, H2.
  rewrite !app_nil, !issue_if_nil, !between_iff, !negb_false_iff, !Z.eqb_eq, validate_asset_nil,
    validate_screenshots_nil, H1, H2. split.
  - intros (?&?&?&?&?&?&?&?&(?&?&Hdisj)&Hn&(?&Hs)&[|]); [done|]. split; try done.
    + simpl. apply NoDup_cons. split; [|done]. intros (a&Ha&Hin)%list_elem_of_fmap. apply (Hdisj a Hin). set_solver.
    + apply Hs. intros Hnil. rewrite Hnil in Hn. simpl in Hn. lia.
  - intros []. apply NoDup_cons in sw_distinct0 as [Hn Hnd]. split_and!; try done; try lia; [|by right].
    intros a Ha Hp. apply Hn, list_elem_of_fmap. exists a. split; [set_solver|done].
Qed.

(** The listing validator accepts exactly the well-formed listings: known
    schema, valid identity, locale and links, an icon and one to five
    screenshots of the right sizes at distinct paths, one to eight
    localizations sorted by locale, each with bounded, trimmed texts without
    control characters and sorted keywords, one of them for the default
    locale.  No other rule is applied, and none of these is missed. *)
Theorem listing_validate_iff l : listing_validate l = Ok tt ↔ listing_wf l.
Proof. apply listing_validate_wf. Qed.

(** *** Where the images of a listing are *)

Lemma bytes_of_list l : bytes (String.string_of_list_ascii l) = l.
Proof. apply String.list_ascii_of_string_of_list_ascii. Qed.
Lemma bytes_inj s t : bytes s = bytes t → s = t.
Proof.
  intros Heq. rewrite <- (String.string_of_list_ascii_of_string s), <- (String.string_of_list_ascii_of_string t).
  by f_equal.
Qed.

Lemma strip_suffix_Some suffix s t : strip_suffix suffix s = Some t → s = t +:+ suffix.
Proof.
  unfold strip_suffix. intros (r&Hr%strip_prefix_Some&->)%fmap_Some_1. apply bytes_inj.
  apply (f_equal bytes) in Hr. rewrite bytes_app in *. unfold str_rev in *. rewrite !bytes_of_list in *.
  apply (f_equal reverse) in Hr. by rewrite reverse_app, !reverse_involutive in Hr.
Qed.

Lemma str_split_suffix c s t :
  bytes_all (λ a, negb (bool_decide (a = c))) t = true → ∃ ps p, str_split c s = ps ++ [p] ∧ str_split c (s +:+ t) = ps ++ [p +:+ t].
Proof.
  intros Ht. induction s as [|a s (ps&p&Hs&Hst)]; simpl.
  - exists [], EmptyString. split; [done|]. simpl. by apply str_split_single.
  - case_bool_decide; [exists (EmptyString :: ps), p; by rewrite Hs, Hst|]. rewrite Hs, Hst.
    destruct ps as [|q ps]; simpl; [by exists [], (String a p)|]. by exists (String a q :: ps), p.
Qed.

Lemma asset_part_component part rest :
  asset_path_part part = true →
  component_of (part +:+ rest) = Some (Normal (part +:+ rest)) ∧ starts_with_char dot (part +:+ rest) = false ∧
  starts_with_char slash (part +:+ rest) = false.
Proof.
  unfold asset_path_part. intros Hp. destruct part as [|a part]; [done|]. unfold first_byte in Hp. simpl in Hp. unbool_hyps.
  assert (a ≠ dot ∧ a ≠ slash) as [Hdot Hslash] by (split; intros ->; done).
  unfold component_of, starts_with_char, first_byte, dot, slash in *. simpl. rewrite !bool_decide_eq_false_2 by (simpl; intros [=]; done). done.
Qed.

Lemma asset_path_components path :
  is_valid_asset_path path = true →
  path_components path = Normal <$> str_split slash path ∧ path_is_absolute path = false.
Proof.
  unfold is_valid_asset_path. destruct (_ || _); [done|].
  destruct (strip_suffix ".png" path) as [stem|] eqn:Hs; [|done]. apply strip_suffix_Some in Hs as ->.
  intros Hparts%forallb_Forall.
  destruct (str_split_suffix slash stem ".png") as (ps&p&Hsp&Hsuf); [done|].
  rewrite Hsp, Forall_app, Forall_singleton in Hparts. destruct Hparts as [Hps Hp].
  assert (Forall (λ q, component_of q = Some (Normal q) ∧ starts_with_char dot q = false ∧ starts_with_char slash q = false)
    (str_split slash (stem +:+ ".png"))) as Hall.
  { rewrite Hsuf, Forall_app, Forall_singleton. split; [|by apply asset_part_component].
    eapply Forall_impl; [exact Hps|]. intros q Hq. rewrite <- (str_app_nil_r q). by apply asset_part_component. }
  pose proof (str_join_split slash (stem +:+ ".png")) as Hjoin.
  set (path := stem +:+ ".png") in *. set (parts := str_split slash path) in *.
  assert (path_is_absolute path = false) as Habs.
  { unfold path_is_absolute. rewrite <- Hjoin. clear -Hall. destruct Hall as [|q qs (Hc&_&Hq) _]; [done|].
    destruct q as [|a q]; [done|]. by destruct qs. }
  split; [|done]. rewrite path_components_relative; [|done|].
  - clear -Hall. fold parts. induction Hall as [|q qs (Hq&_) _ IH]; [done|]. csimpl. rewrite Hq. by f_equal.
  - fold parts. destruct Hall as [|q qs (_&Hq&_)]; [done|]. simpl. intros [= ->]. done.
Qed.

(** The images of a valid listing lie below the directory of the submission,
    each at a path of its own. *)
Theorem listing_images_confined l :
  listing_validate l = Ok tt →
  NoDup (map ass_path (sl_icon l :: sl_screenshots l)) ∧
  ∀ a, a ∈ sl_icon l :: sl_screenshots l →
    path_components (ass_path a) = Normal <$> str_split slash (ass_path a) ∧ path_is_absolute (ass_path a) = false.
Proof.
  intros Hl. assert (listing_wf l) as [] by (by apply listing_validate_wf). split; [done|].
  intros a [->|Ha]%elem_of_cons; apply asset_path_components.
  - by apply (aw_path _ _ _ _ sw_icon0).
  - rewrite Forall_forall in sw_screenshots0. by apply (aw_path _ _ _ _ (sw_screenshots0 a Ha)).
Qed.

(** ** Samples *)

(** The CRC that ends every PNG file. *)
Example iend_crc : png_crc32 IEND = 2923585666%Z.
Proof. by vm_compute. Qed.

Definition sample_png (width height : Z) : list ascii :=
  PNG_SIGNATURE ++ concat (map chunk_bytes
    [mkPngChunk IHDR (be_bytes 4 width ++ be_bytes 4 height ++ map byte_of_Z [8; 6; 0; 0; 0]%Z);
     mkPngChunk (bytes "tEXt") (bytes "hello"); mkPngChunk IDAT (map byte_of_Z [120; 1]%Z); end_chunk]).
Example sample_png_accepted : validate_png_structure (sample_png 48 48) 48 48 = Ok tt.
Proof. by vm_compute. Qed.
Example sample_png_wrong_size : validate_png_structure (sample_png 48 49) 48 48 = Err (PngDimensions 48 48).
Proof. by vm_compute. Qed.
Example sample_png_trailing : validate_png_structure (sample_png 48 48 ++ bytes "x") 48 48 = Err PngIend.
Proof. by vm_compute. Qed.
