(* ===== verification/StoreControl.v ===== *)
(** * The Store control core (crates/cp0-store-control/src/lib.rs)

    The rules of the Store's control plane: teams and their roles, permanent
    application ids, submissions with their review, releases with their
    publication, and around every mutation an idempotency record, an audit
    event and an outbox event.  A method with [&mut self] is a function in the
    monad [CP], from the control plane to its outcome and the control plane it
    leaves.  A map of the source is a finite map; the source only ever counts,
    searches or takes a maximum over the values, so their order plays no role.
    The message of an [InvalidInput] is the text of the source.  Counters wrap
    as in a release build.  SHA-256 is that of [Crypto]. *)

From S2P Require Import Prelude RustStr Bytes Manifest HostFs Checkpoint Package StoreMetadata.

Definition CONTROL_MAX_PACKAGE_BYTES : Z := 8392704.
Definition CONTROL_MAX_LISTING_BYTES : Z := 32768.
Definition MAX_ASSET_BYTES : Z := 512 * 1024.

(** ** Data *)

Inductive TeamRole := RoleOwner | RoleDeveloper | RoleReleaseManager | RoleViewer.
#[global] Instance team_role_eq_dec : EqDecision TeamRole.
Proof. solve_decision. Defined.
Definition TeamRole_as_str (r : TeamRole) : string :=
  match r with
  | RoleOwner => "owner"
  | RoleDeveloper => "developer"
  | RoleReleaseManager => "release-manager"
  | RoleViewer => "viewer"
  end.

Record TeamMember := mkTeamMember {
  tm_member_id : string;
  tm_email : string;
  tm_role : TeamRole;
  two_factor_enabled : bool;
}.
Record TeamRecord := mkTeamRecord {
  tr_team_id : string;
  tr_name : string;
  tr_members : gmap string TeamMember;
  tr_resource_version : Z;
}.
Record UserIdentity := mkUserIdentity { ui_team_id : string; ui_member_id : string }.
Inductive ServiceRole := Scanner | Reviewer | Publisher.
#[global] Instance service_role_eq_dec : EqDecision ServiceRole.
Proof. solve_decision. Defined.
Record ServiceIdentity := mkServiceIdentity { si_service_id : string; si_role : ServiceRole }.
Record MutationContext := mkMutationContext {
  idempotency_key : string;
  mc_request_id : string;
  now_unix_seconds : Z;
}.
Record AppRecord := mkAppRecord {
  ar_app_id : string;
  owner_team_id : string;
  ar_default_locale : string;
  ar_resource_version : Z;
}.
Record SubmissionSpec := mkSubmissionSpec {
  ss_version : string;
  ss_package_sha256 : string;
  ss_package_bytes : Z;
  ss_listing_sha256 : string;
  ss_listing_bytes : Z;
  ss_assets : list ImageAsset;
}.
Record SubmissionRecord := mkSubmissionRecord {
  sub_id : string;
  sub_app_id : string;
  sub_version : string;
  sub_revision : Z;
  sub_state : SubmissionState;
  sub_package_sha256 : string;
  sub_package_bytes : Z;
  sub_listing_sha256 : string;
  sub_listing_bytes : Z;
  sub_assets : list ImageAsset;
  sub_resource_version : Z;
  sub_created : Z;
}.
Record ReleaseRecord := mkReleaseRecord {
  rel_id : string;
  rel_submission_id : string;
  rel_app_id : string;
  rel_version : string;
  rel_state : ReleaseState;
  rollout_percent : Z;
  scheduled_unix_seconds : option Z;
  catalog_sequence : option Z;
  rel_resource_version : Z;
}.
Inductive ReleaseCommand :=
| RcSchedule (publish_unix_seconds : Z) | RcCancelSchedule | RcPublish | RcPause | RcResume
| RcRemove (reason_code note : string).
Inductive MutationResult :=
| MrTeam (t : TeamRecord) | MrApp (a : AppRecord) | MrSubmission (s : SubmissionRecord) | MrRelease (r : ReleaseRecord).
Record AuditEvent := mkAuditEvent {
  ae_sequence : Z;
  ae_occurred : Z;
  ae_actor_id : string;
  ae_action : string;
  ae_object_kind : string;
  ae_object_id : string;
  ae_before : option string;
  ae_after : option string;
  ae_resource_version : Z;
  ae_request_id : string;
  ae_request_sha256 : string;
  ae_key_sha256 : string;
}.
Record OutboxEvent := mkOutboxEvent {
  oe_event_id : string;
  oe_topic : string;
  oe_aggregate_kind : string;
  oe_aggregate_id : string;
  oe_aggregate_version : Z;
  oe_request_sha256 : string;
  oe_created : Z;
}.
Record IdempotencyRecord := mkIdempotencyRecord { ir_request_sha256 : string; ir_result : MutationResult }.
Inductive ControlError :=
| CtlInvalidInput (message : string) | CtlNotFound | CtlConflict | CtlForbidden | CtlTwoFactorRequired
| CtlPreconditionFailed | CtlInvalidTransition | CtlIdempotencyConflict.

Record ControlPlane := mkControlPlane {
  cp_teams : gmap string TeamRecord;
  cp_apps : gmap string AppRecord;
  cp_submissions : gmap string SubmissionRecord;
  cp_releases : gmap string ReleaseRecord;
  cp_idempotency : gmap (string * string) IdempotencyRecord;
  cp_audit : list AuditEvent;
  cp_outbox : list OutboxEvent;
  next_object_id : Z;
  next_event_sequence : Z;
}.

(** ** Checks of values *)

(** The hexadecimal digits without capitals. *)
Definition control_hex_byte (b : ascii) : bool := is_ascii_hexdigit b && negb (is_ascii_uppercase b).
Definition control_prefixed_id (value prefix : string) : bool :=
  match strip_prefix prefix value with
  | Some suffix => (String.length suffix =? 32)%nat && bytes_all control_hex_byte suffix
  | None => false
  end.
Definition valid_sha256 (value : string) : bool := (String.length value =? 64)%nat && bytes_all control_hex_byte value.
Definition valid_name (value : string) (low high : nat) : bool :=
  chars_between low high value && is_trimmed value && negb (has_control value).
Definition valid_prose (value : string) (low high : nat) : bool :=
  chars_between low high value && is_trimmed value
  && negb (control_in (List.filter (λ b, negb (bool_decide (b = newline_byte))) (bytes value))).
Definition in_range_Z (low high n : Z) : bool := (low <=? n)%Z && (n <=? high)%Z.
Definition len_in (low high : nat) (s : string) : bool := (low <=? String.length s)%nat && (String.length s <=? high)%nat.
Definition valid_reason (value : string) : bool :=
  len_in 1 64 value
  && match bytes value with
     | b :: rest => is_ascii_lowercase b
                    && forallb (λ b, is_ascii_lowercase b || is_ascii_digit b || bool_decide (b = "-"%char)) rest
     | [] => false
     end.
Definition service_id_bytes (l : list ascii) : bool :=
  match l with
  | b :: rest => (is_ascii_lowercase b || is_ascii_digit b)
                 && forallb (λ b, is_ascii_lowercase b || is_ascii_digit b || bool_decide (b = "-"%char)) rest
  | [] => true
  end.
Definition valid_service (actor : ServiceIdentity) (expected_role : ServiceRole) : bool :=
  bool_decide (si_role actor = expected_role) && len_in 1 64 (si_service_id actor)
  && service_id_bytes (bytes (si_service_id actor)).
Definition valid_member (m : TeamMember) : bool :=
  control_prefixed_id (tm_member_id m) "member_" && (String.length (tm_email m) <=? 254)%nat
  && match split_once "@"%char (tm_email m) with
     | Some (local, host) => negb (str_is_empty local) && bool_decide ("."%char ∈ bytes host)
     | None => false
     end.

Definition is_ascii_text (s : string) : bool := bytes_all (byte_in 0 127) s.
Definition control_script (part : string) : bool :=
  (String.length part =? 4)%nat
  && match bytes part with b :: rest => is_ascii_uppercase b && forallb is_ascii_lowercase rest | [] => false end.
Definition control_region (region : string) : bool :=
  ((String.length region =? 2)%nat && bytes_all is_ascii_uppercase region)
  || ((String.length region =? 3)%nat && bytes_all is_ascii_digit region).
(** [index] is the number of parts read: the rest of the list is what is left. *)
Definition is_valid_locale (locale : string) : bool :=
  if negb (len_in 2 16 locale) || negb (is_ascii_text locale) then false
  else
    match str_split "-"%char locale with
    | [] => false
    | language :: parts =>
        if (3 <? S (length parts))%nat || negb (len_in 2 3 language) || negb (bytes_all is_ascii_lowercase language)
        then false
        else
          let parts := match parts with script :: rest => if control_script script then rest else parts | [] => [] end in
          match parts with
          | [] => true
          | region :: rest => if negb (control_region region) then false else bool_decide (rest = [])
          end
    end.

Definition context_key_byte (b : ascii) : bool := is_ascii_alphanumeric b || bool_decide (b ∈ bytes "._~-").
Definition validate_context (c : MutationContext) : result ControlError unit :=
  if negb (len_in 16 128 (idempotency_key c)) || negb (bytes_all context_key_byte (idempotency_key c))
     || str_is_empty (mc_request_id c) || (128 <? String.length (mc_request_id c))%nat
     || negb (bytes_all (byte_in 33 126) (mc_request_id c))
     || str_contains (idempotency_key c) (mc_request_id c) || (now_unix_seconds c =? 0)%Z
  then Err (CtlInvalidInput "mutation context is invalid")
  else Ok tt.

Definition control_asset_bad (paths : gset string) (a : ImageAsset) : bool :=
  bool_decide (ass_path a ∈ paths) || str_is_empty (ass_path a) || (128 <? String.length (ass_path a))%nat
  || starts_with_char slash (ass_path a) || str_contains ".." (ass_path a) || bool_decide ("\"%char ∈ bytes (ass_path a))
  || negb (valid_sha256 (ass_sha256 a)) || negb (in_range_Z 1 MAX_ASSET_BYTES (ass_bytes a))
  || negb (in_range_Z 1 320 (ass_width a)) || negb (in_range_Z 1 170 (ass_height a)).
Fixpoint control_assets_bad (paths : gset string) (l : list ImageAsset) : bool :=
  match l with
  | [] => false
  | a :: l => control_asset_bad paths a || control_assets_bad ({[ass_path a]} ∪ paths) l
  end.
Definition validate_submission_spec (s : SubmissionSpec) : result ControlError unit :=
  if negb (is_valid_app_version (ss_version s)) || negb (valid_sha256 (ss_package_sha256 s))
     || negb (valid_sha256 (ss_listing_sha256 s)) || negb (in_range_Z 1 CONTROL_MAX_PACKAGE_BYTES (ss_package_bytes s))
     || negb (in_range_Z 1 CONTROL_MAX_LISTING_BYTES (ss_listing_bytes s))
     || negb ((2 <=? length (ss_assets s))%nat && (length (ss_assets s) <=? 6)%nat)
  then Err (CtlInvalidInput "submission descriptor is invalid")
  else if control_assets_bad ∅ (ss_assets s) then Err (CtlInvalidInput "submission asset is invalid")
  else Ok tt.

Definition validate_release_command (c : ReleaseCommand) (now : Z) : result ControlError unit :=
  match c with
  | RcSchedule publish =>
      if (publish <=? now)%Z then Err (CtlInvalidInput "release schedule must be in the future") else Ok tt
  | RcRemove reason_code note =>
      if negb (valid_reason reason_code) || negb (valid_prose note 1 2000)
      then Err (CtlInvalidInput "removal reason is invalid") else Ok tt
  | _ => Ok tt
  end.

(** The target state, the action and the topic of a command. *)
Definition release_command_transition (c : ReleaseCommand) : ReleaseState * string * string :=
  match c with
  | RcSchedule _ => (Scheduled, "release.scheduled", "release.scheduled")
  | RcCancelSchedule => (Ready, "release.schedule-cancelled", "release.schedule-cancelled")
  | RcPublish => (Publishing, "release.publish-requested", "release.publish-requested")
  | RcPause => (Paused, "release.paused", "catalog.rebuild-requested")
  | RcResume => (Published, "release.resumed", "catalog.rebuild-requested")
  | RcRemove _ _ => (Removed, "release.removed", "catalog.rebuild-requested")
  end.

(** ** Requests and their digests *)

(** What [RequestDigest] hashes: the domain, a zero byte, and every field with
    its length in front. *)
Definition digest_field (value : string) : list ascii := be_bytes 8 (Z.of_nat (String.length value)) ++ bytes value.
Definition request_message (domain : string) (fields : list string) : list ascii :=
  bytes domain ++ [zero] ++ concat (map digest_field fields).

Definition bool_str (b : bool) : string := if b then "true" else "false".

Section digests.
  Context `{Crypto}.

Definition sha256_hex (l : list ascii) : string := lower_hex (sha256 l).
Definition request_digest (domain : string) (fields : list string) : string := sha256_hex (request_message domain fields).

Definition register_app_fields (team_id app_id default_locale : string) : list string := [team_id; app_id; default_locale].
Definition register_app_request_sha256 (team_id app_id default_locale : string) : string :=
  request_digest "app.register.v1" (register_app_fields team_id app_id default_locale).

Definition asset_fields (a : ImageAsset) : list string :=
  [ass_path a; ass_sha256 a; decimal (ass_bytes a); decimal (ass_width a); decimal (ass_height a)].
Definition create_submission_fields (app_id : string) (s : SubmissionSpec) : list string :=
  [app_id; ss_version s; ss_package_sha256 s; decimal (ss_package_bytes s); ss_listing_sha256 s;
   decimal (ss_listing_bytes s)] ++ concat (map asset_fields (ss_assets s)).
Definition create_submission_request_sha256 (app_id : string) (s : SubmissionSpec) : string :=
  request_digest "submission.create.v1" (create_submission_fields app_id s).

Definition member_fields (team_id : string) (m : TeamMember) (expected_version : Z) : list string :=
  [team_id; tm_member_id m; tm_email m; TeamRole_as_str (tm_role m); bool_str (two_factor_enabled m);
   decimal expected_version].
Definition release_command_fields (c : ReleaseCommand) : list string :=
  match c with
  | RcSchedule publish => ["schedule"; decimal publish]
  | RcCancelSchedule => ["cancel-schedule"]
  | RcPublish => ["publish"]
  | RcPause => ["pause"]
  | RcResume => ["resume"]
  | RcRemove reason_code note => ["remove"; reason_code; note]
  end.

(** ** The monad of the control plane *)

Definition CP (A : Type) : Type := ControlPlane → result ControlError A * ControlPlane.
Definition cp_ret {A} (a : A) : CP A := λ p, (Ok a, p).
Definition cp_err {A} (e : ControlError) : CP A := λ p, (Err e, p).
Definition cp_bind {A B} (m : CP A) (k : A → CP B) : CP B := λ p,
  let '(r, p) := m p in
  match r with Ok a => k a p | Err e => (Err e, p) | Panicked => (Panicked, p) end.
Definition cp_lift {A} (r : result ControlError A) : CP A := λ p, (r, p).
Definition cp_guard (b : bool) (e : ControlError) : CP unit := if b then cp_err e else cp_ret tt.
Definition cp_get {A} (f : ControlPlane → A) : CP A := λ p, (Ok (f p), p).
Definition cp_modify (f : ControlPlane → ControlPlane) : CP unit := λ p, (Ok tt, f p).

End digests.

Notation "'let^' x ':=' m 'in' k" := (cp_bind m (λ x, k))
  (at level 10, x name, m at level 100, k at level 200,
   format "'[v' 'let^'  x  ':='  m  'in' '/' k ']'") : rust_scope.

Definition map_values {A} (m : gmap string A) : list A := (map_to_list m).*2.

Definition with_teams (f : gmap string TeamRecord → gmap string TeamRecord) (p : ControlPlane) : ControlPlane :=
  mkControlPlane (f (cp_teams p)) (cp_apps p) (cp_submissions p) (cp_releases p) (cp_idempotency p) (cp_audit p)
    (cp_outbox p) (next_object_id p) (next_event_sequence p).
Definition with_apps (f : gmap string AppRecord → gmap string AppRecord) (p : ControlPlane) : ControlPlane :=
  mkControlPlane (cp_teams p) (f (cp_apps p)) (cp_submissions p) (cp_releases p) (cp_idempotency p) (cp_audit p)
    (cp_outbox p) (next_object_id p) (next_event_sequence p).
Definition with_submissions (f : gmap string SubmissionRecord → gmap string SubmissionRecord) (p : ControlPlane)
    : ControlPlane :=
  mkControlPlane (cp_teams p) (cp_apps p) (f (cp_submissions p)) (cp_releases p) (cp_idempotency p) (cp_audit p)
    (cp_outbox p) (next_object_id p) (next_event_sequence p).
Definition with_releases (f : gmap string ReleaseRecord → gmap string ReleaseRecord) (p : ControlPlane) : ControlPlane :=
  mkControlPlane (cp_teams p) (cp_apps p) (cp_submissions p) (f (cp_releases p)) (cp_idempotency p) (cp_audit p)
    (cp_outbox p) (next_object_id p) (next_event_sequence p).
Definition with_outbox (f : list OutboxEvent → list OutboxEvent) (p : ControlPlane) : ControlPlane :=
  mkControlPlane (cp_teams p) (cp_apps p) (cp_submissions p) (cp_releases p) (cp_idempotency p) (cp_audit p)
    (f (cp_outbox p)) (next_object_id p) (next_event_sequence p).

(** [format!("{prefix}{:032x}", n)] of a 128-bit number. *)
Definition hex_id (prefix : string) (n : Z) : string := prefix +:+ lower_hex (be_bytes 16 n).
Definition next_id (prefix : string) : CP string := λ p,
  (Ok (hex_id prefix (next_object_id p)),
   mkControlPlane (cp_teams p) (cp_apps p) (cp_submissions p) (cp_releases p) (cp_idempotency p) (cp_audit p)
     (cp_outbox p) ((next_object_id p + 1) mod 2 ^ 128)%Z (next_event_sequence p)).

Definition expect_team (r : MutationResult) : result ControlError TeamRecord :=
  match r with MrTeam v => Ok v | _ => Err CtlIdempotencyConflict end.
Definition expect_app (r : MutationResult) : result ControlError AppRecord :=
  match r with MrApp v => Ok v | _ => Err CtlIdempotencyConflict end.
Definition expect_submission (r : MutationResult) : result ControlError SubmissionRecord :=
  match r with MrSubmission v => Ok v | _ => Err CtlIdempotencyConflict end.
Definition expect_release (r : MutationResult) : result ControlError ReleaseRecord :=
  match r with MrRelease v => Ok v | _ => Err CtlIdempotencyConflict end.

Definition etag (resource_version : Z) : string := String (ascii_of_nat 34) (decimal resource_version) +:+ String (ascii_of_nat 34) EmptyString.

(** ** Operations *)

Section operations.
  Context `{Crypto}.

Definition bootstrap (team_id team_name : string) (owner : TeamMember) : result ControlError ControlPlane :=
  if negb (control_prefixed_id team_id "team_") then Err (CtlInvalidInput "team_id is not canonical")
  else if negb (valid_name team_name 1 80) || negb (valid_member owner) || negb (bool_decide (tm_role owner = RoleOwner))
  then Err (CtlInvalidInput "owner team metadata is invalid")
  else Ok (mkControlPlane {[team_id := mkTeamRecord team_id team_name {[tm_member_id owner := owner]} 1]}
             ∅ ∅ ∅ ∅ [] [] 1 1).

Definition replay (actor_id : string) (context : MutationContext) (request_sha256 : string)
    : CP (option MutationResult) :=
  let^ _ := cp_lift (validate_context context) in
  let key_sha256 := sha256_hex (bytes (idempotency_key context)) in
  let^ found := cp_get (λ p, cp_idempotency p !! (actor_id, key_sha256)) in
  match found with
  | Some record =>
      if bool_decide (ir_request_sha256 record = request_sha256) then cp_ret (Some (ir_result record))
      else cp_err CtlIdempotencyConflict
  | None => cp_ret None
  end.

Definition commit (actor_id : string) (context : MutationContext) (request_sha256 action object_kind object_id : string)
    (before_state after_state : option string) (resource_version : Z) (r : MutationResult) : CP unit := λ p,
  let key_sha256 := sha256_hex (bytes (idempotency_key context)) in
  let sequence := next_event_sequence p in
  (Ok tt,
   mkControlPlane (cp_teams p) (cp_apps p) (cp_submissions p) (cp_releases p)
     (<[(actor_id, key_sha256) := mkIdempotencyRecord request_sha256 r]> (cp_idempotency p))
     (cp_audit p ++ [mkAuditEvent sequence (now_unix_seconds context) actor_id action object_kind object_id before_state
                       after_state resource_version (mc_request_id context) request_sha256 key_sha256])
     (cp_outbox p ++ [mkOutboxEvent (hex_id "evt_" sequence) action object_kind object_id resource_version
                        request_sha256 (now_unix_seconds context)])
     (next_object_id p) (wrapping_add_u64 sequence 1)).

(** [self.outbox.last_mut().unwrap().topic = topic.to_owned()]. *)
Fixpoint retopic (topic : string) (l : list OutboxEvent) : list OutboxEvent :=
  match l with
  | [] => []
  | [e] => [mkOutboxEvent (oe_event_id e) topic (oe_aggregate_kind e) (oe_aggregate_id e) (oe_aggregate_version e)
              (oe_request_sha256 e) (oe_created e)]
  | e :: l => e :: retopic topic l
  end.
Definition set_last_topic (topic : string) : CP unit := λ p,
  match cp_outbox p with [] => (Panicked, p) | _ => (Ok tt, with_outbox (retopic topic) p) end.

Definition require_user (actor : UserIdentity) (roles : list TeamRole) : CP TeamMember :=
  let^ team := cp_get (λ p, cp_teams p !! ui_team_id actor) in
  let^ team := cp_lift (ok_or team CtlForbidden) in
  let^ member := cp_lift (ok_or (tr_members team !! ui_member_id actor) CtlForbidden) in
  let^ _ := cp_guard (negb (bool_decide (tm_role member ∈ roles))) CtlForbidden in
  let^ _ := cp_guard (negb (two_factor_enabled member)) CtlTwoFactorRequired in
  cp_ret member.

Definition require_app_owner (actor : UserIdentity) (app_id : string) : CP unit :=
  let^ app := cp_get (λ p, cp_apps p !! app_id) in
  let^ app := cp_lift (ok_or app CtlNotFound) in
  cp_guard (negb (bool_decide (owner_team_id app = ui_team_id actor))) CtlForbidden.

Definition require_submission_owner (actor : UserIdentity) (submission_id : string) : CP unit :=
  let^ submission := cp_get (λ p, cp_submissions p !! submission_id) in
  let^ submission := cp_lift (ok_or submission CtlNotFound) in
  require_app_owner actor (sub_app_id submission).

Definition other_owners (current : TeamRecord) (member : TeamMember) : nat :=
  count_if (λ m, negb (bool_decide (tm_member_id m = tm_member_id member)) && bool_decide (tm_role m = RoleOwner))
    (map_values (tr_members current)).
Definition email_taken (current : TeamRecord) (member : TeamMember) : bool :=
  existsb (λ m, negb (bool_decide (tm_member_id m = tm_member_id member)) && bool_decide (tm_email m = tm_email member))
    (map_values (tr_members current)).

Definition add_or_update_member (actor : UserIdentity) (context : MutationContext) (member : TeamMember)
    (expected_version : Z) : CP TeamRecord :=
  let^ _ := require_user actor [RoleOwner] in
  let^ _ := cp_guard (negb (valid_member member)) (CtlInvalidInput "team member is invalid") in
  let request_sha256 := request_digest "team.member.upsert.v1" (member_fields (ui_team_id actor) member expected_version) in
  let^ replayed := replay (ui_member_id actor) context request_sha256 in
  match replayed with
  | Some r => cp_lift (expect_team r)
  | None =>
      let^ current := cp_get (λ p, cp_teams p !! ui_team_id actor) in
      let^ current := cp_lift (ok_or current CtlNotFound) in
      let^ _ := cp_guard (negb (tr_resource_version current =? expected_version)%Z) CtlPreconditionFailed in
      let owner_count := (other_owners current member + if bool_decide (tm_role member = RoleOwner) then 1 else 0)%nat in
      let^ _ := cp_guard ((owner_count =? 0)%nat || email_taken current member) CtlConflict in
      let updated := mkTeamRecord (tr_team_id current) (tr_name current) (<[tm_member_id member := member]> (tr_members current))
                       (wrapping_add_u64 (tr_resource_version current) 1) in
      let^ _ := cp_modify (with_teams (<[ui_team_id actor := updated]>)) in
      let^ _ := commit (ui_member_id actor) context request_sha256 "team.member-upserted" "team" (tr_team_id updated)
                  None None (tr_resource_version updated) (MrTeam updated) in
      cp_ret updated
  end.

Definition register_app (actor : UserIdentity) (context : MutationContext) (app_id default_locale : string) : CP AppRecord :=
  let^ _ := require_user actor [RoleOwner; RoleDeveloper] in
  let^ _ := cp_guard (negb (is_valid_app_id app_id) || negb (is_valid_locale default_locale))
              (CtlInvalidInput "App ID or locale is invalid") in
  let request_sha256 := register_app_request_sha256 (ui_team_id actor) app_id default_locale in
  let^ replayed := replay (ui_member_id actor) context request_sha256 in
  match replayed with
  | Some r => cp_lift (expect_app r)
  | None =>
      let^ taken := cp_get (λ p, bool_decide (is_Some (cp_apps p !! app_id))) in
      let^ _ := cp_guard taken CtlConflict in
      let app := mkAppRecord app_id (ui_team_id actor) default_locale 1 in
      let^ _ := cp_modify (with_apps (<[app_id := app]>)) in
      let^ _ := commit (ui_member_id actor) context request_sha256 "app.registered" "app" app_id None None
                  (ar_resource_version app) (MrApp app) in
      cp_ret app
  end.

(** The highest revision of a version of an application. *)
Definition max_revision (app_id version : string) (p : ControlPlane) : Z :=
  foldr (λ s best, if bool_decide (sub_app_id s = app_id) && bool_decide (sub_version s = version)
                   then Z.max (sub_revision s) best else best) 0%Z (map_values (cp_submissions p)).
Definition checked_add_u32 (a b : Z) : option Z := if (a + b <=? u32_max)%Z then Some (a + b)%Z else None.

Definition create_submission (actor : UserIdentity) (context : MutationContext) (app_id : string) (spec : SubmissionSpec)
    : CP SubmissionRecord :=
  let^ _ := require_user actor [RoleOwner; RoleDeveloper] in
  let^ _ := require_app_owner actor app_id in
  let^ _ := cp_lift (validate_submission_spec spec) in
  let request_sha256 := create_submission_request_sha256 app_id spec in
  let^ replayed := replay (ui_member_id actor) context request_sha256 in
  match replayed with
  | Some r => cp_lift (expect_submission r)
  | None =>
      let^ highest := cp_get (max_revision app_id (ss_version spec)) in
      let^ revision := cp_lift (ok_or (checked_add_u32 highest 1) CtlConflict) in
      let^ submission_id := next_id "sub_" in
      let submission := mkSubmissionRecord submission_id app_id (ss_version spec) revision Uploading
                          (ss_package_sha256 spec) (ss_package_bytes spec) (ss_listing_sha256 spec) (ss_listing_bytes spec)
                          (ss_assets spec) 1 (now_unix_seconds context) in
      let^ _ := cp_modify (with_submissions (<[submission_id := submission]>)) in
      let^ _ := commit (ui_member_id actor) context request_sha256 "submission.created" "submission" submission_id None
                  (Some (SubmissionState_as_str (sub_state submission))) (sub_resource_version submission)
                  (MrSubmission submission) in
      cp_ret submission
  end.

Definition advance_submission (target : SubmissionState) (s : SubmissionRecord) : SubmissionRecord :=
  mkSubmissionRecord (sub_id s) (sub_app_id s) (sub_version s) (sub_revision s) target (sub_package_sha256 s)
    (sub_package_bytes s) (sub_listing_sha256 s) (sub_listing_bytes s) (sub_assets s)
    (wrapping_add_u64 (sub_resource_version s) 1) (sub_created s).

Definition transition_submission (actor_id : string) (context : MutationContext) (submission_id : string)
    (expected_version : Z) (target : SubmissionState) (action topic : string) : CP SubmissionRecord :=
  let request_sha256 := request_digest "submission.transition.v1"
                          [submission_id; decimal expected_version; SubmissionState_as_str target] in
  let^ replayed := replay actor_id context request_sha256 in
  match replayed with
  | Some r => cp_lift (expect_submission r)
  | None =>
      let^ submission := cp_get (λ p, cp_submissions p !! submission_id) in
      let^ submission := cp_lift (ok_or submission CtlNotFound) in
      let^ _ := cp_guard (negb (sub_resource_version submission =? expected_version)%Z) CtlPreconditionFailed in
      let^ _ := cp_guard (negb (submission_can_transition (sub_state submission) target)) CtlInvalidTransition in
      let updated := advance_submission target submission in
      let^ _ := cp_modify (with_submissions (<[submission_id := updated]>)) in
      let^ _ := commit actor_id context request_sha256 action "submission" submission_id
                  (Some (SubmissionState_as_str (sub_state submission))) (Some (SubmissionState_as_str (sub_state updated)))
                  (sub_resource_version updated) (MrSubmission updated) in
      let^ _ := (if negb (bool_decide (topic = action)) then set_last_topic topic else cp_ret tt) in
      cp_ret updated
  end.

Definition finalize_submission (actor : UserIdentity) (context : MutationContext) (submission_id : string)
    (expected_version : Z) : CP SubmissionRecord :=
  let^ _ := require_user actor [RoleOwner; RoleDeveloper] in
  let^ _ := require_submission_owner actor submission_id in
  transition_submission (ui_member_id actor) context submission_id expected_version Processing
    "submission.finalized" "submission.scan-requested".

Definition withdraw_submission (actor : UserIdentity) (context : MutationContext) (submission_id : string)
    (expected_version : Z) : CP SubmissionRecord :=
  let^ _ := require_user actor [RoleOwner; RoleDeveloper] in
  let^ _ := require_submission_owner actor submission_id in
  transition_submission (ui_member_id actor) context submission_id expected_version Withdrawn
    "submission.withdrawn" "submission.withdrawn".

Definition scan_submission (actor : ServiceIdentity) (context : MutationContext) (submission_id : string)
    (expected_version : Z) (target : SubmissionState) : CP SubmissionRecord :=
  let^ _ := cp_guard (negb (valid_service actor Scanner)
                      || negb (bool_decide (target ∈ [ReadyForReview; NeedsChanges; Rejected]))) CtlForbidden in
  transition_submission (si_service_id actor) context submission_id expected_version target
    "submission.scan-completed" "submission.scan-completed".

Definition begin_review (actor : ServiceIdentity) (context : MutationContext) (submission_id : string)
    (expected_version : Z) : CP SubmissionRecord :=
  let^ _ := cp_guard (negb (valid_service actor Reviewer)) CtlForbidden in
  transition_submission (si_service_id actor) context submission_id expected_version InReview
    "submission.review-begun" "submission.review-begun".

Definition decide_review (actor : ServiceIdentity) (context : MutationContext) (submission_id : string)
    (expected_version : Z) (decision : SubmissionState) : CP SubmissionRecord :=
  let^ _ := cp_guard (negb (valid_service actor Reviewer)
                      || negb (bool_decide (decision ∈ [PendingSecondaryReview; Approved; NeedsChanges; Rejected])))
              CtlForbidden in
  transition_submission (si_service_id actor) context submission_id expected_version decision
    "submission.review-decided" "submission.review-decided".

Definition create_release (actor : UserIdentity) (context : MutationContext) (submission_id : string) (rollout : Z)
    : CP ReleaseRecord :=
  let^ _ := require_user actor [RoleOwner; RoleReleaseManager] in
  let^ _ := cp_guard (negb (in_range_Z 1 100 rollout)) (CtlInvalidInput "rollout_percent is outside 1-100") in
  let^ submission := cp_get (λ p, cp_submissions p !! submission_id) in
  let^ submission := cp_lift (ok_or submission CtlNotFound) in
  let^ _ := require_app_owner actor (sub_app_id submission) in
  let^ _ := cp_guard (negb (bool_decide (sub_state submission = Approved))) CtlInvalidTransition in
  let request_sha256 := request_digest "release.create.v1" [submission_id; decimal rollout] in
  let^ replayed := replay (ui_member_id actor) context request_sha256 in
  match replayed with
  | Some r => cp_lift (expect_release r)
  | None =>
      let^ exists_ := cp_get (λ p, existsb (λ r, bool_decide (rel_submission_id r = submission_id)
                                                 && negb (bool_decide (rel_state r = Removed))) (map_values (cp_releases p))) in
      let^ _ := cp_guard exists_ CtlConflict in
      let^ release_id := next_id "rel_" in
      let release := mkReleaseRecord release_id submission_id (sub_app_id submission) (sub_version submission) Ready rollout
                       None None 1 in
      let^ _ := cp_modify (with_releases (<[release_id := release]>)) in
      let^ _ := commit (ui_member_id actor) context request_sha256 "release.created" "release" release_id None
                  (Some (ReleaseState_as_str (rel_state release))) (rel_resource_version release) (MrRelease release) in
      cp_ret release
  end.

(** The release after a command of its team. *)
Definition apply_release_command (c : ReleaseCommand) (r : ReleaseRecord) : ReleaseRecord :=
  mkReleaseRecord (rel_id r) (rel_submission_id r) (rel_app_id r) (rel_version r) (release_command_transition c).1.1
    (rollout_percent r)
    (match c with
     | RcSchedule publish => Some publish
     | RcCancelSchedule | RcPublish => None
     | RcPause | RcResume | RcRemove _ _ => scheduled_unix_seconds r
     end)
    (catalog_sequence r) (wrapping_add_u64 (rel_resource_version r) 1).

Definition mutate_release (actor : UserIdentity) (context : MutationContext) (release_id : string) (expected_version : Z)
    (command : ReleaseCommand) : CP ReleaseRecord :=
  let^ _ := require_user actor [RoleOwner; RoleReleaseManager] in
  let^ existing := cp_get (λ p, cp_releases p !! release_id) in
  let^ existing := cp_lift (ok_or existing CtlNotFound) in
  let^ _ := require_app_owner actor (rel_app_id existing) in
  let^ _ := cp_lift (validate_release_command command (now_unix_seconds context)) in
  let target := (release_command_transition command).1.1 in
  let action := (release_command_transition command).1.2 in
  let topic := (release_command_transition command).2 in
  let request_sha256 := request_digest "release.mutate.v1"
                          ([release_id; decimal expected_version] ++ release_command_fields command) in
  let^ replayed := replay (ui_member_id actor) context request_sha256 in
  match replayed with
  | Some r => cp_lift (expect_release r)
  | None =>
      let^ release := cp_get (λ p, cp_releases p !! release_id) in
      let^ release := cp_lift (ok_or release CtlNotFound) in
      let^ _ := cp_guard (negb (rel_resource_version release =? expected_version)%Z) CtlPreconditionFailed in
      let^ _ := cp_guard (negb (release_can_transition (rel_state release) target)) CtlInvalidTransition in
      let updated := apply_release_command command release in
      let^ _ := cp_modify (with_releases (<[release_id := updated]>)) in
      let^ _ := commit (ui_member_id actor) context request_sha256 action "release" release_id
                  (Some (ReleaseState_as_str (rel_state release))) (Some (ReleaseState_as_str (rel_state updated)))
                  (rel_resource_version updated) (MrRelease updated) in
      let^ _ := (if negb (bool_decide (topic = action)) then set_last_topic topic else cp_ret tt) in
      cp_ret updated
  end.

(** The release after the publisher's report. *)
Definition apply_publication (target : ReleaseState) (sequence : option Z) (r : ReleaseRecord) : ReleaseRecord :=
  mkReleaseRecord (rel_id r) (rel_submission_id r) (rel_app_id r) (rel_version r) target (rollout_percent r)
    (scheduled_unix_seconds r) sequence (wrapping_add_u64 (rel_resource_version r) 1).

Definition sequence_used (sequence : Z) (p : ControlPlane) : bool :=
  existsb (λ r, match catalog_sequence r with Some existing => (sequence <=? existing)%Z | None => false end)
    (map_values (cp_releases p)).

Definition complete_publication (actor : ServiceIdentity) (context : MutationContext) (release_id : string)
    (expected_version : Z) (published : bool) (sequence : option Z) : CP ReleaseRecord :=
  let^ _ := cp_guard (negb (valid_service actor Publisher)
                      || negb (Bool.eqb published (bool_decide (is_Some sequence)))) CtlForbidden in
  let target := if published then Published else PublishFailed in
  let request_sha256 := request_digest "release.publication-complete.v1"
                          [release_id; decimal expected_version; bool_str published; decimal (default 0%Z sequence)] in
  let^ replayed := replay (si_service_id actor) context request_sha256 in
  match replayed with
  | Some r => cp_lift (expect_release r)
  | None =>
      let^ clash := cp_get (λ p, match sequence with
                                 | Some sequence => (sequence =? 0)%Z || sequence_used sequence p
                                 | None => false
                                 end) in
      let^ _ := cp_guard clash CtlConflict in
      let^ release := cp_get (λ p, cp_releases p !! release_id) in
      let^ release := cp_lift (ok_or release CtlNotFound) in
      let^ _ := cp_guard (negb (rel_resource_version release =? expected_version)%Z) CtlPreconditionFailed in
      let^ _ := cp_guard (negb (release_can_transition (rel_state release) target)) CtlInvalidTransition in
      let updated := apply_publication target sequence release in
      let^ _ := cp_modify (with_releases (<[release_id := updated]>)) in
      let^ _ := commit (si_service_id actor) context request_sha256 "release.publication-completed" "release" release_id
                  (Some (ReleaseState_as_str (rel_state release))) (Some (ReleaseState_as_str (rel_state updated)))
                  (rel_resource_version updated) (MrRelease updated) in
      cp_ret updated
  end.

End operations.

(** ** Requests *)

Inductive ControlRequest :=
| ReqMember (actor : UserIdentity) (c : MutationContext) (member : TeamMember) (expected_version : Z)
| ReqRegister (actor : UserIdentity) (c : MutationContext) (app_id default_locale : string)
| ReqSubmit (actor : UserIdentity) (c : MutationContext) (app_id : string) (spec : SubmissionSpec)
| ReqFinalize (actor : UserIdentity) (c : MutationContext) (submission_id : string) (expected_version : Z)
| ReqWithdraw (actor : UserIdentity) (c : MutationContext) (submission_id : string) (expected_version : Z)
| ReqScan (actor : ServiceIdentity) (c : MutationContext) (submission_id : string) (expected_version : Z)
    (target : SubmissionState)
| ReqBegin (actor : ServiceIdentity) (c : MutationContext) (submission_id : string) (expected_version : Z)
| ReqDecide (actor : ServiceIdentity) (c : MutationContext) (submission_id : string) (expected_version : Z)
    (decision : SubmissionState)
| ReqRelease (actor : UserIdentity) (c : MutationContext) (submission_id : string) (rollout : Z)
| ReqMutate (actor : UserIdentity) (c : MutationContext) (release_id : string) (expected_version : Z)
    (command : ReleaseCommand)
| ReqComplete (actor : ServiceIdentity) (c : MutationContext) (release_id : string) (expected_version : Z)
    (published : bool) (sequence : option Z).

Definition request_actor (q : ControlRequest) : string :=
  match q with
  | ReqMember a _ _ _ | ReqRegister a _ _ _ | ReqSubmit a _ _ _ | ReqFinalize a _ _ _ | ReqWithdraw a _ _ _
  | ReqRelease a _ _ _ | ReqMutate a _ _ _ _ => ui_member_id a
  | ReqScan a _ _ _ _ | ReqBegin a _ _ _ | ReqDecide a _ _ _ _ | ReqComplete a _ _ _ _ _ => si_service_id a
  end.
Definition request_context (q : ControlRequest) : MutationContext :=
  match q with
  | ReqMember _ c _ _ | ReqRegister _ c _ _ | ReqSubmit _ c _ _ | ReqFinalize _ c _ _ | ReqWithdraw _ c _ _
  | ReqRelease _ c _ _ | ReqMutate _ c _ _ _ | ReqScan _ c _ _ _ | ReqBegin _ c _ _ | ReqDecide _ c _ _ _
  | ReqComplete _ c _ _ _ _ => c
  end.
(** The transition that a request makes of a submission. *)
Definition transition_fields (submission_id : string) (expected_version : Z) (target : SubmissionState) : list string :=
  [submission_id; decimal expected_version; SubmissionState_as_str target].
(** The domain and the fields that the digest of a request covers. *)
Definition request_parts (q : ControlRequest) : string * list string :=
  match q with
  | ReqMember a _ m v => ("team.member.upsert.v1", member_fields (ui_team_id a) m v)
  | ReqRegister a _ app locale => ("app.register.v1", register_app_fields (ui_team_id a) app locale)
  | ReqSubmit _ _ app spec => ("submission.create.v1", create_submission_fields app spec)
  | ReqFinalize _ _ s v => ("submission.transition.v1", transition_fields s v Processing)
  | ReqWithdraw _ _ s v => ("submission.transition.v1", transition_fields s v Withdrawn)
  | ReqScan _ _ s v target => ("submission.transition.v1", transition_fields s v target)
  | ReqBegin _ _ s v => ("submission.transition.v1", transition_fields s v InReview)
  | ReqDecide _ _ s v decision => ("submission.transition.v1", transition_fields s v decision)
  | ReqRelease _ _ s rollout => ("release.create.v1", [s; decimal rollout])
  | ReqMutate _ _ r v command => ("release.mutate.v1", [r; decimal v] ++ release_command_fields command)
  | ReqComplete _ _ r v published sequence =>
      ("release.publication-complete.v1", [r; decimal v; bool_str published; decimal (default 0%Z sequence)])
  end.

Section requests.
  Context `{Crypto}.

Definition cp_map {A B} (f : A → B) (m : CP A) : CP B := let^ a := m in cp_ret (f a).

Definition run (q : ControlRequest) : CP MutationResult :=
  match q with
  | ReqMember a c m v => cp_map MrTeam (add_or_update_member a c m v)
  | ReqRegister a c app locale => cp_map MrApp (register_app a c app locale)
  | ReqSubmit a c app spec => cp_map MrSubmission (create_submission a c app spec)
  | ReqFinalize a c s v => cp_map MrSubmission (finalize_submission a c s v)
  | ReqWithdraw a c s v => cp_map MrSubmission (withdraw_submission a c s v)
  | ReqScan a c s v target => cp_map MrSubmission (scan_submission a c s v target)
  | ReqBegin a c s v => cp_map MrSubmission (begin_review a c s v)
  | ReqDecide a c s v decision => cp_map MrSubmission (decide_review a c s v decision)
  | ReqRelease a c s rollout => cp_map MrRelease (create_release a c s rollout)
  | ReqMutate a c r v command => cp_map MrRelease (mutate_release a c r v command)
  | ReqComplete a c r v published sequence => cp_map MrRelease (complete_publication a c r v published sequence)
  end.

Definition request_sha256 (q : ControlRequest) : string := request_digest (request_parts q).1 (request_parts q).2.
Definition key_sha256 (q : ControlRequest) : string := sha256_hex (bytes (idempotency_key (request_context q))).
Definition request_key (q : ControlRequest) : string * string := (request_actor q, key_sha256 q).

(** ** What a request may do: the specification *)

(** The books after a change: one audit event, one outbox event, one
    idempotency record. *)
Definition booked (q : ControlRequest) (action topic kind id : string) (before after : option string) (version : Z)
    (r : MutationResult) (p : ControlPlane) : ControlPlane :=
  let c := request_context q in
  mkControlPlane (cp_teams p) (cp_apps p) (cp_submissions p) (cp_releases p)
    (<[request_key q := mkIdempotencyRecord (request_sha256 q) r]> (cp_idempotency p))
    (cp_audit p ++ [mkAuditEvent (next_event_sequence p) (now_unix_seconds c) (request_actor q) action kind id before after
                      version (mc_request_id c) (request_sha256 q) (key_sha256 q)])
    (cp_outbox p ++ [mkOutboxEvent (hex_id "evt_" (next_event_sequence p)) topic kind id version (request_sha256 q)
                       (now_unix_seconds c)])
    (next_object_id p) (wrapping_add_u64 (next_event_sequence p) 1).

Definition user_may (p : ControlPlane) (actor : UserIdentity) (roles : list TeamRole) : Prop :=
  ∃ team member, cp_teams p !! ui_team_id actor = Some team ∧ tr_members team !! ui_member_id actor = Some member ∧
    tm_role member ∈ roles ∧ two_factor_enabled member = true.
Definition owns_app (p : ControlPlane) (actor : UserIdentity) (app_id : string) : Prop :=
  ∃ app, cp_apps p !! app_id = Some app ∧ owner_team_id app = ui_team_id actor.
Definition owns_submission (p : ControlPlane) (actor : UserIdentity) (submission_id : string) : Prop :=
  ∃ s, cp_submissions p !! submission_id = Some s ∧ owns_app p actor (sub_app_id s).

(** Which transition of a submission a request may make, with its names. *)
Inductive may_move (p : ControlPlane) : ControlRequest → string → Z → SubmissionState → string → string → Prop :=
| move_finalize a c s v :
    user_may p a [RoleOwner; RoleDeveloper] → owns_submission p a s →
    may_move p (ReqFinalize a c s v) s v Processing "submission.finalized" "submission.scan-requested"
| move_withdraw a c s v :
    user_may p a [RoleOwner; RoleDeveloper] → owns_submission p a s →
    may_move p (ReqWithdraw a c s v) s v Withdrawn "submission.withdrawn" "submission.withdrawn"
| move_scan a c s v target :
    valid_service a Scanner = true → target ∈ [ReadyForReview; NeedsChanges; Rejected] →
    may_move p (ReqScan a c s v target) s v target "submission.scan-completed" "submission.scan-completed"
| move_begin a c s v :
    valid_service a Reviewer = true →
    may_move p (ReqBegin a c s v) s v InReview "submission.review-begun" "submission.review-begun"
| move_decide a c s v decision :
    valid_service a Reviewer = true → decision ∈ [PendingSecondaryReview; Approved; NeedsChanges; Rejected] →
    may_move p (ReqDecide a c s v decision) s v decision "submission.review-decided" "submission.review-decided".

(** The change that a request makes of the resources, before it is booked. *)
Inductive effect (p : ControlPlane) : ControlRequest → MutationResult → ControlPlane → Prop :=
| effect_member a c m v team updated :
    user_may p a [RoleOwner] → valid_member m = true → cp_teams p !! ui_team_id a = Some team →
    tr_resource_version team = v → (other_owners team m ≠ 0 ∨ tm_role m = RoleOwner) → email_taken team m = false →
    updated = mkTeamRecord (tr_team_id team) (tr_name team) (<[tm_member_id m := m]> (tr_members team))
                (wrapping_add_u64 (tr_resource_version team) 1) →
    effect p (ReqMember a c m v) (MrTeam updated)
      (booked (ReqMember a c m v) "team.member-upserted" "team.member-upserted" "team" (tr_team_id updated) None None
         (tr_resource_version updated) (MrTeam updated) (with_teams (<[ui_team_id a := updated]>) p))
| effect_register a c app_id locale app :
    user_may p a [RoleOwner; RoleDeveloper] → is_valid_app_id app_id = true → is_valid_locale locale = true →
    cp_apps p !! app_id = None → app = mkAppRecord app_id (ui_team_id a) locale 1 →
    effect p (ReqRegister a c app_id locale) (MrApp app)
      (booked (ReqRegister a c app_id locale) "app.registered" "app.registered" "app" app_id None None 1 (MrApp app)
         (with_apps (<[app_id := app]>) p))
| effect_submit a c app_id spec id revision s p' :
    user_may p a [RoleOwner; RoleDeveloper] → owns_app p a app_id → validate_submission_spec spec = Ok tt →
    checked_add_u32 (max_revision app_id (ss_version spec) p) 1 = Some revision → next_id "sub_" p = (Ok id, p') →
    s = mkSubmissionRecord id app_id (ss_version spec) revision Uploading (ss_package_sha256 spec) (ss_package_bytes spec)
          (ss_listing_sha256 spec) (ss_listing_bytes spec) (ss_assets spec) 1 (now_unix_seconds c) →
    effect p (ReqSubmit a c app_id spec) (MrSubmission s)
      (booked (ReqSubmit a c app_id spec) "submission.created" "submission.created" "submission" id None
         (Some "uploading") 1 (MrSubmission s) (with_submissions (<[id := s]>) p'))
| effect_move q id v target action topic s :
    may_move p q id v target action topic → cp_submissions p !! id = Some s → sub_resource_version s = v →
    submission_can_transition (sub_state s) target = true →
    effect p q (MrSubmission (advance_submission target s))
      (booked q action topic "submission" id (Some (SubmissionState_as_str (sub_state s)))
         (Some (SubmissionState_as_str target)) (sub_resource_version (advance_submission target s))
         (MrSubmission (advance_submission target s)) (with_submissions (<[id := advance_submission target s]>) p))
| effect_release a c sid rollout s id r p' :
    user_may p a [RoleOwner; RoleReleaseManager] → in_range_Z 1 100 rollout = true → cp_submissions p !! sid = Some s →
    owns_app p a (sub_app_id s) → sub_state s = Approved →
    (∀ (k : string) other, cp_releases p !! k = Some other → rel_submission_id other = sid → rel_state other = Removed) →
    next_id "rel_" p = (Ok id, p') →
    r = mkReleaseRecord id sid (sub_app_id s) (sub_version s) Ready rollout None None 1 →
    effect p (ReqRelease a c sid rollout) (MrRelease r)
      (booked (ReqRelease a c sid rollout) "release.created" "release.created" "release" id None (Some "ready") 1
         (MrRelease r) (with_releases (<[id := r]>) p'))
| effect_mutate a c id v command r target action topic :
    user_may p a [RoleOwner; RoleReleaseManager] → cp_releases p !! id = Some r → owns_app p a (rel_app_id r) →
    validate_release_command command (now_unix_seconds c) = Ok tt → rel_resource_version r = v →
    release_command_transition command = (target, action, topic) → release_can_transition (rel_state r) target = true →
    effect p (ReqMutate a c id v command) (MrRelease (apply_release_command command r))
      (booked (ReqMutate a c id v command) action topic "release" id (Some (ReleaseState_as_str (rel_state r)))
         (Some (ReleaseState_as_str target)) (rel_resource_version (apply_release_command command r))
         (MrRelease (apply_release_command command r)) (with_releases (<[id := apply_release_command command r]>) p))
| effect_complete a c id v (published : bool) (sequence : option Z) r target :
    valid_service a Publisher = true → target = (if published then Published else PublishFailed) →
    (published = true ↔ is_Some sequence) →
    (∀ n, sequence = Some n → n ≠ 0%Z ∧ ∀ (k : string) other m, cp_releases p !! k = Some other → catalog_sequence other = Some m → (m < n)%Z) →
    cp_releases p !! id = Some r → rel_resource_version r = v → release_can_transition (rel_state r) target = true →
    effect p (ReqComplete a c id v published sequence) (MrRelease (apply_publication target sequence r))
      (booked (ReqComplete a c id v published sequence) "release.publication-completed" "release.publication-completed"
         "release" id (Some (ReleaseState_as_str (rel_state r))) (Some (ReleaseState_as_str target))
         (rel_resource_version (apply_publication target sequence r)) (MrRelease (apply_publication target sequence r))
         (with_releases (<[id := apply_publication target sequence r]>) p)).

(** A request is refused and nothing changes, or it was done before and its
    result is repeated, or it takes effect. *)
Inductive outcome (p : ControlPlane) (q : ControlRequest) : result ControlError MutationResult → ControlPlane → Prop :=
| outcome_refused e : outcome p q (Err e) p
| outcome_replayed r :
    validate_context (request_context q) = Ok tt →
    cp_idempotency p !! request_key q = Some (mkIdempotencyRecord (request_sha256 q) r) → outcome p q (Ok r) p
| outcome_fresh r p' :
    validate_context (request_context q) = Ok tt → cp_idempotency p !! request_key q = None →
    effect p q r p' → outcome p q (Ok r) p'.

End requests.
