(* ===== verification/StoreControlLogic.v ===== *)
(** * What the Store control core guarantees

    Every operation of [StoreControl] is shown to be refused without a trace,
    to repeat an earlier result, or to have one of the effects that the
    relation [effect] lists ([run_outcome]); the invariants and the history
    theorems then follow by induction over these effects. *)

From S2P Require Import Prelude RustStr Bytes Manifest HostFs Checkpoint Package StoreMetadata StoreControl.

(** ** Every operation has one of the listed outcomes *)

Section rules.
  Context `{Crypto} (p : ControlPlane) (q : ControlRequest) {A : Type} (f : A → MutationResult).

(** [m], run on [p] as the rest of the request [q], ends as the specification
    says. *)
Definition ends (m : CP A) : Prop := outcome p q (cp_map f m p).1 (cp_map f m p).2.

Lemma ends_refused m e : m p = (Err e, p) → ends m.
Proof. intros Hm. unfold ends, cp_map, cp_bind. rewrite Hm. constructor. Qed.

Lemma ends_same m m' : m p = m' p → ends m' → ends m.
Proof. unfold ends, cp_map, cp_bind. by intros ->. Qed.

Lemma ends_guard b e (k : unit → CP A) : (b = false → ends (k tt)) → ends (cp_bind (cp_guard b e) k).
Proof. intros Hk. destruct b; [by eapply ends_refused|]. by eapply ends_same, Hk. Qed.

Lemma ends_lift {B} (r : result ControlError B) (k : B → CP A) :
  r ≠ Panicked → (∀ b, r = Ok b → ends (k b)) → ends (cp_bind (cp_lift r) k).
Proof.
  intros Hp Hk. destruct r as [b|e|]; [|by eapply ends_refused|done]. eapply ends_same, Hk; reflexivity.
Qed.

Lemma ends_some {B} (o : option B) e (k : B → CP A) :
  (∀ b, o = Some b → ends (k b)) → ends (cp_bind (cp_lift (ok_or o e)) k).
Proof. intros Hk. apply ends_lift; [by destruct o|]. intros b. destruct o; [|done]. intros [= ->]. by apply Hk. Qed.

Lemma ends_get {B} (g : ControlPlane → B) (k : B → CP A) : ends (k (g p)) → ends (cp_bind (cp_get g) k).
Proof. by apply ends_same. Qed.

Lemma ends_owner actor app_id (k : unit → CP A) :
  (owns_app p actor app_id → ends (k tt)) → ends (cp_bind (require_app_owner actor app_id) k).
Proof.
  intros Hk. unfold require_app_owner. destruct (cp_apps p !! app_id) as [app|] eqn:Ha.
  2:{ eapply ends_refused. unfold cp_bind, cp_get. by rewrite Ha. }
  destruct (decide (owner_team_id app = ui_team_id actor)) as [Ho|Ho].
  - eapply ends_same, Hk; [|by exists app]. unfold cp_bind, cp_get, cp_lift, cp_guard. rewrite Ha. simpl.
    by rewrite bool_decide_eq_true_2.
  - eapply ends_refused. unfold cp_bind, cp_get, cp_lift, cp_guard. rewrite Ha. simpl. by rewrite bool_decide_eq_false_2.
Qed.

Lemma ends_submission_owner actor id (k : unit → CP A) :
  (owns_submission p actor id → ends (k tt)) → ends (cp_bind (require_submission_owner actor id) k).
Proof.
  intros Hk. unfold require_submission_owner. destruct (cp_submissions p !! id) as [s|] eqn:Hs.
  2:{ eapply ends_refused. unfold cp_bind, cp_get. by rewrite Hs. }
  eapply ends_same; [|apply (ends_owner actor (sub_app_id s) k)].
  - unfold cp_bind, cp_get, cp_lift. by rewrite Hs.
  - intros Ho. apply Hk. by exists s.
Qed.

Lemma ends_user actor roles (k : TeamMember → CP A) :
  (user_may p actor roles → ∀ m, ends (k m)) → ends (cp_bind (require_user actor roles) k).
Proof.
  intros Hk. assert ((∃ e, require_user actor roles p = (Err e, p)) ∨
    ∃ m, require_user actor roles p = (Ok m, p) ∧ user_may p actor roles) as [[e He]|(m&Hm&Hu)].
  - unfold require_user, cp_bind, cp_get, cp_lift, cp_guard, user_may.
    destruct (cp_teams p !! ui_team_id actor) as [team|]; simpl; [|by left; eauto].
    destruct (tr_members team !! ui_member_id actor) as [m|] eqn:Hm; simpl; [|by left; eauto].
    case_bool_decide; simpl; [|by left; eauto]. destruct (two_factor_enabled m) eqn:Htf; simpl; [|by left; eauto].
    right. exists m. split; [done|]. by exists team, m.
  - eapply ends_refused. unfold cp_bind. by rewrite He.
  - eapply ends_same, (Hk Hu m). unfold cp_bind. by rewrite Hm.
Qed.

Lemma ends_replay actor_id c digest (k : option MutationResult → CP A) :
  actor_id = request_actor q → c = request_context q → digest = request_sha256 q →
  (∀ r, validate_context c = Ok tt → cp_idempotency p !! request_key q = Some (mkIdempotencyRecord digest r) →
     ends (k (Some r))) →
  (validate_context c = Ok tt → cp_idempotency p !! request_key q = None → ends (k None)) →
  ends (cp_bind (replay actor_id c digest) k).
Proof.
  intros -> -> -> Hr Hf. unfold replay. change (sha256_hex _) with (key_sha256 q). fold (request_key q).
  assert (validate_context (request_context q) ≠ Panicked) as Hnp by (unfold validate_context; by repeat case_match).
  destruct (validate_context (request_context q)) as [[]|e|] eqn:Hv; [|by eapply ends_refused|done].
  destruct (cp_idempotency p !! request_key q) as [[d r]|] eqn:Hi.
  - destruct (decide (d = request_sha256 q)) as [->|Hd].
    + eapply ends_same, (Hr r); [|done..]. unfold cp_bind, cp_lift, cp_get. fold (request_key q).
      change (request_actor q, key_sha256 q) with (request_key q). rewrite Hi. simpl. by rewrite bool_decide_eq_true_2.
    + eapply ends_refused. unfold cp_bind, cp_lift, cp_get. change (request_actor q, key_sha256 q) with (request_key q).
      rewrite Hi. simpl. by rewrite bool_decide_eq_false_2.
  - eapply ends_same, Hf; [|done..]. unfold cp_bind, cp_lift, cp_get.
    change (request_actor q, key_sha256 q) with (request_key q). by rewrite Hi.
Qed.

Lemma ends_repeat (expect : MutationResult → result ControlError A) r :
  (∀ r a, expect r = Ok a → f a = r) → (∀ r, expect r ≠ Panicked) →
  validate_context (request_context q) = Ok tt →
  cp_idempotency p !! request_key q = Some (mkIdempotencyRecord (request_sha256 q) r) → ends (cp_lift (expect r)).
Proof.
  intros He Hp Hv Hi. unfold ends, cp_map, cp_bind, cp_lift. specialize (He r). specialize (Hp r).
  destruct (expect r) as [a|e|]; simpl; [|constructor|done]. rewrite (He a eq_refl). by constructor.
Qed.

Lemma ends_effect m a p' :
  validate_context (request_context q) = Ok tt → cp_idempotency p !! request_key q = None →
  m p = (Ok a, p') → effect p q (f a) p' → ends m.
Proof. intros Hv Hi Hm He. unfold ends, cp_map, cp_bind. rewrite Hm. by apply outcome_fresh. Qed.

End rules.

Section outcomes.
  Context `{Crypto}.

Lemma existsb_values_false {A} (g : A → bool) (m : gmap string A) :
  existsb g (map_values m) = false ↔ ∀ k x, m !! k = Some x → g x = false.
Proof.
  unfold map_values. split.
  - intros He k x Hx. apply not_true_iff_false. intros Hg. apply not_true_iff_false in He. apply He, existsb_exists.
    exists x. split; [|done]. apply list_elem_of_In, list_elem_of_fmap. exists (k, x). split; [done|]. by apply elem_of_map_to_list.
  - intros Hall. apply not_true_iff_false. intros (x&Hx&Hg)%existsb_exists.
    apply list_elem_of_In, list_elem_of_fmap in Hx as ([k y]&->&Hk%elem_of_map_to_list). simpl in Hg. by rewrite (Hall k y Hk) in Hg.
Qed.

Lemma expect_submission_inv r s : expect_submission r = Ok s → MrSubmission s = r.
Proof. destruct r; simpl; congruence. Qed.
Lemma expect_release_inv r s : expect_release r = Ok s → MrRelease s = r.
Proof. destruct r; simpl; congruence. Qed.

Lemma retopic_snoc topic l e :
  retopic topic (l ++ [e]) =
  l ++ [mkOutboxEvent (oe_event_id e) topic (oe_aggregate_kind e) (oe_aggregate_id e) (oe_aggregate_version e)
          (oe_request_sha256 e) (oe_created e)].
Proof. induction l as [|x l IH]; [done|]. simpl. rewrite IH. by destruct l. Qed.

Lemma commit_booked {A} q action kind id before after version r (x : A) p :
  (let^ _ := commit (request_actor q) (request_context q) (request_sha256 q) action kind id before after version r in
   cp_ret x) p = (Ok x, booked q action action kind id before after version r p).
Proof. done. Qed.

Lemma commit_topic_booked {A} q action topic kind id before after version r (x : A) p :
  (let^ _ := commit (request_actor q) (request_context q) (request_sha256 q) action kind id before after version r in
   let^ _ := (if negb (bool_decide (topic = action)) then set_last_topic topic else cp_ret tt) in
   cp_ret x) p = (Ok x, booked q action topic kind id before after version r p).
Proof.
  case_bool_decide as Ht; [by subst|]. unfold cp_bind, commit, set_last_topic, with_outbox, booked. simpl.
  destruct (cp_outbox p ++ _) eqn:Ho; [by destruct (cp_outbox p)|]. rewrite <- Ho, retopic_snoc. done.
Qed.

(** The rules of a transition, once for the five requests that use it. *)
Lemma ends_move p q id v target action topic :
  may_move p q id v target action topic →
  request_sha256 q = request_digest "submission.transition.v1" (transition_fields id v target) →
  ends p q MrSubmission (transition_submission (request_actor q) (request_context q) id v target action topic).
Proof.
  intros Hmay Hsha. unfold transition_submission. fold (transition_fields id v target). rewrite <- Hsha.
  cbv zeta. apply ends_replay; [done..| |].
  - intros r Hv Hi. by apply (ends_repeat p q _ expect_submission); [apply expect_submission_inv|by intros []|..].
  - intros Hv Hi. apply ends_get, ends_some. intros s Hs. apply ends_guard. intros Hver. apply ends_guard. intros Hcan.
    apply negb_false_iff in Hver, Hcan. apply Z.eqb_eq in Hver.
    eapply ends_effect; [done..| |by eapply effect_move]. apply commit_topic_booked.
Qed.

Lemma ends_member p a c m v : ends p (ReqMember a c m v) MrTeam (add_or_update_member a c m v).
Proof.
  set (rq := ReqMember a c m v). unfold add_or_update_member. cbv zeta.
  apply ends_user. intros Hu _. apply ends_guard. intros Hm. apply negb_false_iff in Hm. apply ends_replay; [done..| |].
  { intros r Hv Hi. apply (ends_repeat p rq _ expect_team); [by intros [] ? [= <-]|by intros []|done..]. }
  intros Hv Hi. apply ends_get, ends_some. intros team Ht. apply ends_guard. intros Hver. apply ends_guard. intros Hc.
  apply negb_false_iff, Z.eqb_eq in Hver. apply orb_false_iff in Hc as [Ho He]. apply Nat.eqb_neq in Ho.
  eapply ends_effect; [done..| |eapply (effect_member p a c m v team); try done].
  + apply (commit_booked rq).
  + case_bool_decide; [by right|]. left. lia.
Qed.

Lemma ends_register p a c app locale : ends p (ReqRegister a c app locale) MrApp (register_app a c app locale).
Proof.
  set (rq := ReqRegister a c app locale). unfold register_app. cbv zeta.
  apply ends_user. intros Hu _. apply ends_guard. intros [Happ Hloc]%orb_false_iff. apply negb_false_iff in Happ, Hloc.
  apply ends_replay; [done..| |].
  { intros r Hv Hi. apply (ends_repeat p rq _ expect_app); [by intros [] ? [= <-]|by intros []|done..]. }
  intros Hv Hi. apply ends_get, ends_guard. intros Hfree%bool_decide_eq_false. apply eq_None_not_Some in Hfree.
  eapply ends_effect; [done..|apply (commit_booked rq)|]. by eapply effect_register.
Qed.

Lemma ends_submit p a c app spec : ends p (ReqSubmit a c app spec) MrSubmission (create_submission a c app spec).
Proof.
  set (rq := ReqSubmit a c app spec). unfold create_submission. cbv zeta.
  apply ends_user. intros Hu _. apply ends_owner. intros Ho. apply ends_lift.
  { unfold validate_submission_spec. by repeat case_match. }
  intros [] Hspec. apply ends_replay; [done..| |].
  { intros r Hv Hi. by apply (ends_repeat p rq _ expect_submission); [apply expect_submission_inv|by intros []|..]. }
  intros Hv Hi. apply ends_get, ends_some. intros revision Hrev.
  eapply ends_effect; [done..|apply (commit_booked rq)|]. by eapply effect_submit.
Qed.

Lemma ends_release p a c s rollout : ends p (ReqRelease a c s rollout) MrRelease (create_release a c s rollout).
Proof.
  set (rq := ReqRelease a c s rollout). unfold create_release. cbv zeta.
  apply ends_user. intros Hu _. apply ends_guard. intros Hr%negb_false_iff. apply ends_get, ends_some. intros sub Hsub.
  apply ends_owner. intros Ho. apply ends_guard. intros Happ%negb_false_iff%bool_decide_eq_true. apply ends_replay; [done..| |].
  { intros r Hv Hi. by apply (ends_repeat p rq _ expect_release); [apply expect_release_inv|by intros []|..]. }
  intros Hv Hi. apply ends_get, ends_guard. intros Hx. eapply ends_effect; [done..|apply (commit_booked rq)|].
  eapply effect_release; try done. intros k other Hk Hs. rewrite existsb_values_false in Hx. specialize (Hx k other Hk).
  rewrite (bool_decide_eq_true_2 _ Hs) in Hx. simpl in Hx. by apply negb_false_iff, bool_decide_eq_true in Hx.
Qed.

Lemma ends_mutate p a c r v command : ends p (ReqMutate a c r v command) MrRelease (mutate_release a c r v command).
Proof.
  set (rq := ReqMutate a c r v command). unfold mutate_release. cbv zeta.
  apply ends_user. intros Hu _. apply ends_get, ends_some. intros rel Hrel. apply ends_owner. intros Ho. apply ends_lift.
  { unfold validate_release_command. by repeat case_match. }
  intros [] Hvc. apply ends_replay; [done..| |].
  { intros r' Hv Hi. by apply (ends_repeat p rq _ expect_release); [apply expect_release_inv|by intros []|..]. }
  intros Hv Hi. apply ends_get, ends_some. intros rel' Hrel'. rewrite Hrel in Hrel'. injection Hrel' as <-.
  apply ends_guard. intros Hver%negb_false_iff%Z.eqb_eq. apply ends_guard. intros Hcan%negb_false_iff.
  destruct (release_command_transition command) as [[target action] topic] eqn:Htr. simpl in Hcan |- *.
  eapply ends_effect; [done..|apply (commit_topic_booked rq)|]. rewrite Htr. by eapply effect_mutate.
Qed.

Lemma ends_complete p a c r v published sequence : ends p (ReqComplete a c r v published sequence) MrRelease (complete_publication a c r v published sequence).
Proof.
  set (rq := ReqComplete a c r v published sequence). unfold complete_publication. cbv zeta.
  apply ends_guard. intros [Hs Hpub]%orb_false_iff. apply negb_false_iff in Hs, Hpub. apply Bool.eqb_prop in Hpub.
  apply ends_replay; [done..| |].
  { intros r' Hv Hi. by apply (ends_repeat p rq _ expect_release); [apply expect_release_inv|by intros []|..]. }
  intros Hv Hi. apply ends_get, ends_guard. intros Hclash. apply ends_get, ends_some. intros rel Hrel.
  apply ends_guard. intros Hver%negb_false_iff%Z.eqb_eq. apply ends_guard. intros Hcan%negb_false_iff.
  eapply ends_effect; [done..|apply (commit_booked rq)|]. eapply effect_complete; try done.
  + rewrite Hpub. by rewrite bool_decide_eq_true.
  + intros n ->. apply orb_false_iff in Hclash as [Hn%Z.eqb_neq Hused]. split; [done|].
    unfold sequence_used in Hused. rewrite existsb_values_false in Hused. intros k other m Hk Hm.
    specialize (Hused k other Hk). rewrite Hm in Hused. by apply Z.leb_gt in Hused.
Qed.

(** Every request is refused, repeats its result, or has one of the listed
    effects. *)
Lemma run_outcome q p : outcome p q (run q p).1 (run q p).2.
Proof.
  destruct q as [a c m v|a c app locale|a c app spec|a c s v|a c s v|a c s v target|a c s v|a c s v d|a c s rollout
    |a c r v command|a c r v published sequence];
    match goal with |- outcome ?p ?q _ _ => set (rq := q) end.
  - apply ends_member.
  - apply ends_register.
  - apply ends_submit.
  - change (ends p rq MrSubmission (finalize_submission a c s v)). unfold finalize_submission.
    apply ends_user. intros Hu _. apply ends_submission_owner. intros Ho. by apply (ends_move p rq); [constructor|].
  - change (ends p rq MrSubmission (withdraw_submission a c s v)). unfold withdraw_submission.
    apply ends_user. intros Hu _. apply ends_submission_owner. intros Ho. by apply (ends_move p rq); [constructor|].
  - change (ends p rq MrSubmission (scan_submission a c s v target)). unfold scan_submission. apply ends_guard.
    intros [Hs Ht]%orb_false_iff. apply negb_false_iff in Hs, Ht. apply bool_decide_eq_true in Ht.
    by apply (ends_move p rq); [constructor|].
  - change (ends p rq MrSubmission (begin_review a c s v)). unfold begin_review. apply ends_guard.
    intros Hs%negb_false_iff. by apply (ends_move p rq); [constructor|].
  - change (ends p rq MrSubmission (decide_review a c s v d)). unfold decide_review. apply ends_guard.
    intros [Hs Ht]%orb_false_iff. apply negb_false_iff in Hs, Ht. apply bool_decide_eq_true in Ht.
    by apply (ends_move p rq); [constructor|].
  - apply ends_release.
  - apply ends_mutate.
  - apply ends_complete.
Qed.

End outcomes.

(** ** Books *)

Section books.
  Context `{Crypto}.

(** An audit event and an outbox event that tell of the same change. *)
Definition tells (a : AuditEvent) (o : OutboxEvent) : Prop :=
  oe_event_id o = hex_id "evt_" (ae_sequence a) ∧ oe_aggregate_kind o = ae_object_kind a ∧ oe_aggregate_id o = ae_object_id a ∧
  oe_aggregate_version o = ae_resource_version a ∧ oe_request_sha256 o = ae_request_sha256 a ∧ oe_created o = ae_occurred a.

(** The event of a request. *)
Definition event_of (q : ControlRequest) (a : AuditEvent) : Prop :=
  ae_actor_id a = request_actor q ∧ ae_request_sha256 a = request_sha256 q ∧ ae_key_sha256 a = key_sha256 q.

Lemma effect_books p q r p' :
  effect p q r p' →
  cp_idempotency p' = <[request_key q := mkIdempotencyRecord (request_sha256 q) r]> (cp_idempotency p) ∧
  next_event_sequence p' = wrapping_add_u64 (next_event_sequence p) 1 ∧
  ∃ a o, cp_audit p' = cp_audit p ++ [a] ∧ cp_outbox p' = cp_outbox p ++ [o] ∧ tells a o ∧ event_of q a ∧
    ae_sequence a = next_event_sequence p.
Proof.
  intros He; inversion He; subst; try match goal with Hn : next_id _ _ = _ |- _ => injection Hn as <- <- end;
    (split; [done|split; [done|]]); do 2 eexists; (split; [done|split; [done|]]); done.
Qed.

(** The audit trail is numbered from one, every event is in the outbox too, and
    every idempotency record belongs to an event. *)
Record books_ok (p : ControlPlane) : Prop := {
  bo_next : next_event_sequence p = (1 + Z.of_nat (length (cp_audit p)))%Z;
  bo_sequence : ∀ i a, cp_audit p !! i = Some a → ae_sequence a = (1 + Z.of_nat i)%Z;
  bo_outbox : Forall2 tells (cp_audit p) (cp_outbox p);
  bo_idempotency : ∀ actor key record, cp_idempotency p !! (actor, key) = Some record →
    ∃ a, a ∈ cp_audit p ∧ ae_actor_id a = actor ∧ ae_key_sha256 a = key ∧ ae_request_sha256 a = ir_request_sha256 record;
}.

Definition room (p : ControlPlane) : Prop := (Z.of_nat (length (cp_audit p)) < u64_max - 1)%Z.

Lemma effect_books_ok p q r p' : room p → books_ok p → effect p q r p' → books_ok p'.
Proof.
  intros Hroom [Hnext Hseq Hout Hidem] (Hi&Hn&a&o&Ha&Ho&Htells&(Hactor&Hsha&Hkey)&Hs)%effect_books. split.
  - rewrite Hn, Hnext, Ha, length_app. unfold wrapping_add_u64, room, u64_max in *. simpl. rewrite Z.mod_small; lia.
  - intros i x. rewrite Ha. intros [Hx|(Hlen&Hx)]%lookup_app_Some; [by apply Hseq|].
    apply list_lookup_singleton_Some in Hx as [Hz <-]. rewrite Hs, Hnext. lia.
  - rewrite Ha, Ho. by apply Forall2_app; [|constructor].
  - intros actor key record. rewrite Hi. destruct (decide ((actor, key) = request_key q)) as [Heq|Hne].
    + rewrite Heq, lookup_insert_eq. intros [= <-]. injection Heq as -> ->. exists a. rewrite Ha. split; [set_solver|done].
    + rewrite lookup_insert_ne by done. intros (x&Hx&?)%Hidem. exists x. rewrite Ha. split; [set_solver|done].
Qed.

End books.

(** ** Resources *)

Record team_ok (t : string) (team : TeamRecord) : Prop := {
  to_id : tr_team_id team = t;
  to_members : ∀ k m, tr_members team !! k = Some m → tm_member_id m = k ∧ valid_member m = true;
  to_owner : ∃ k m, tr_members team !! k = Some m ∧ tm_role m = RoleOwner;
  to_emails : ∀ k1 k2 m1 m2, tr_members team !! k1 = Some m1 → tr_members team !! k2 = Some m2 →
    tm_email m1 = tm_email m2 → k1 = k2;
}.

Lemma other_owners_exists team m :
  other_owners team m ≠ 0 → ∃ k x, tr_members team !! k = Some x ∧ tm_member_id x ≠ tm_member_id m ∧ tm_role x = RoleOwner.
Proof.
  unfold other_owners, count_if. intros Hn. destruct (List.filter _ _) as [|x l] eqn:Hf; [done|].
  assert (In x (x :: l)) as Hin by (by left). rewrite <- Hf in Hin. apply List.filter_In in Hin as [Hin Hx].
  apply list_elem_of_In, list_elem_of_fmap in Hin as ([k y]&->&Hk%elem_of_map_to_list). simpl in *. unbool_hyps. eauto.
Qed.

Lemma member_upsert_ok t team m version :
  team_ok t team → valid_member m = true → (other_owners team m ≠ 0 ∨ tm_role m = RoleOwner) → email_taken team m = false →
  team_ok t (mkTeamRecord (tr_team_id team) (tr_name team) (<[tm_member_id m := m]> (tr_members team)) version).
Proof.
  intros [Hid Hmem (k0&m0&Hk0&Hr0) Hem] Hv Hown Htaken.
  assert (∀ k x, tr_members team !! k = Some x → tm_email x = tm_email m → k = tm_member_id m) as Hfree.
  { intros k x Hx He. unfold email_taken in Htaken. rewrite existsb_values_false in Htaken. specialize (Htaken k x Hx).
    rewrite (bool_decide_eq_true_2 _ He), andb_true_r in Htaken. apply negb_false_iff, bool_decide_eq_true in Htaken.
    destruct (Hmem k x Hx) as [<- _]. done. }
  split; simpl; [done| | |].
  - intros k x [[<- <-]|[_ Hx]]%lookup_insert_Some; [done|by apply Hmem].
  - destruct Hown as [(k&x&Hx&Hne&Hr)%other_owners_exists|Hr].
    + exists k, x. split; [|done]. rewrite lookup_insert_ne; [done|]. intros <-. by destruct (Hmem _ _ Hx).
    + exists (tm_member_id m), m. by rewrite lookup_insert_eq.
  - intros k1 k2 m1 m2 [[<- <-]|[_ H1]]%lookup_insert_Some [[<- <-]|[_ H2]]%lookup_insert_Some He; [done|..].
    + symmetry. by apply (Hfree k2 m2).
    + by apply (Hfree k1 m1).
    + by apply (Hem k1 k2 m1 m2).
Qed.

(** The descriptor a submission was created with. *)
Definition spec_of (s : SubmissionRecord) : SubmissionSpec :=
  mkSubmissionSpec (sub_version s) (sub_package_sha256 s) (sub_package_bytes s) (sub_listing_sha256 s) (sub_listing_bytes s)
    (sub_assets s).

(** An id that [next_id] gave out. *)
Definition issued (p : ControlPlane) (prefix k : string) : Prop :=
  ∃ n, k = hex_id prefix n ∧ (1 ≤ n < next_object_id p)%Z.

Lemma hex_id_inj prefix m n : (0 ≤ m < 2 ^ 128)%Z → (0 ≤ n < 2 ^ 128)%Z → hex_id prefix m = hex_id prefix n → m = n.
Proof.
  unfold hex_id. intros Hm Hn Heq%(inj (String.app prefix))%lower_hex_inj. apply be_bytes_inj in Heq; [done|simpl; lia..].
Qed.

(** *** The parts of the invariant *)

Record subs_ok (p : ControlPlane) : Prop := {
  so_each : ∀ k s, cp_submissions p !! k = Some s →
    sub_id s = k ∧ issued p "sub_" k ∧ is_Some (cp_apps p !! sub_app_id s) ∧ validate_submission_spec (spec_of s) = Ok tt;
  so_revisions : ∀ k1 k2 s1 s2, cp_submissions p !! k1 = Some s1 → cp_submissions p !! k2 = Some s2 →
    sub_app_id s1 = sub_app_id s2 → sub_version s1 = sub_version s2 → sub_revision s1 = sub_revision s2 → k1 = k2;
}.

Record rels_ok (p : ControlPlane) : Prop := {
  ro_each : ∀ k r, cp_releases p !! k = Some r → rel_id r = k ∧ issued p "rel_" k ∧ (1 ≤ rollout_percent r ≤ 100)%Z;
  ro_approved : ∀ k r, cp_releases p !! k = Some r → ∃ s, cp_submissions p !! rel_submission_id r = Some s ∧
    sub_state s = Approved ∧ sub_app_id s = rel_app_id r ∧ sub_version s = rel_version r;
  ro_live : ∀ k1 k2 r1 r2, cp_releases p !! k1 = Some r1 → cp_releases p !! k2 = Some r2 →
    rel_submission_id r1 = rel_submission_id r2 → rel_state r1 ≠ Removed → rel_state r2 ≠ Removed → k1 = k2;
  ro_published : ∀ k r n, cp_releases p !! k = Some r → catalog_sequence r = Some n →
    n ≠ 0%Z ∧ rel_state r ∈ [Published; Paused; Removed];
  ro_sequences : ∀ k1 k2 r1 r2 n, cp_releases p !! k1 = Some r1 → cp_releases p !! k2 = Some r2 →
    catalog_sequence r1 = Some n → catalog_sequence r2 = Some n → k1 = k2;
}.

Section inv.
  Context `{Crypto}.

Record control_inv (p : ControlPlane) : Prop := {
  ci_books : books_ok p;
  ci_next : (1 ≤ next_object_id p ≤ 1 + Z.of_nat (length (cp_audit p)))%Z;
  ci_teams : ∀ t team, cp_teams p !! t = Some team → team_ok t team;
  ci_apps : ∀ a x, cp_apps p !! a = Some x →
    ar_app_id x = a ∧ is_valid_app_id a = true ∧ is_Some (cp_teams p !! owner_team_id x);
  ci_subs : subs_ok p;
  ci_rels : rels_ok p;
}.

Lemma next_id_fresh p prefix id p' :
  (1 ≤ next_object_id p)%Z → (next_object_id p < 2 ^ 128 - 1)%Z → next_id prefix p = (Ok id, p') →
  next_object_id p' = (next_object_id p + 1)%Z ∧ issued p' prefix id ∧ ∀ k, issued p prefix k → k ≠ id.
Proof.
  intros H1 H2 Hn. unfold next_id in Hn. injection Hn as <- <-. unfold issued. cbn [next_object_id].
  rewrite Z.mod_small by lia. split_and!; [done| |].
  - exists (next_object_id p). split; [done|lia].
  - intros k (n&->&Hn) Heq%hex_id_inj; lia.
Qed.

Lemma issued_mono p p' prefix k : (next_object_id p ≤ next_object_id p')%Z → issued p prefix k → issued p' prefix k.
Proof. intros Hle (n&->&Hn). exists n. split; [done|lia]. Qed.

Lemma max_revision_spec app_id version p k s :
  cp_submissions p !! k = Some s → sub_app_id s = app_id → sub_version s = version →
  (sub_revision s ≤ max_revision app_id version p)%Z.
Proof.
  intros Hk <- <-. unfold max_revision. assert (s ∈ map_values (cp_submissions p)) as Hin.
  { apply list_elem_of_fmap. exists (k, s). split; [done|]. by apply elem_of_map_to_list. }
  induction (map_values (cp_submissions p)) as [|x l IH]; [by apply elem_of_nil in Hin|]. simpl.
  apply elem_of_cons in Hin as [<-|Hin]; [rewrite !bool_decide_eq_true_2 by done; simpl; lia|].
  specialize (IH Hin). destruct (_ && _); lia.
Qed.

(** *** Every effect keeps them *)

Lemma advance_content target s : spec_of (advance_submission target s) = spec_of s.
Proof. done. Qed.

Lemma approved_final target : submission_can_transition Approved target = false.
Proof. done. Qed.

Lemma effect_subs_ok p q r p' :
  (1 ≤ next_object_id p < 2 ^ 128 - 1)%Z → subs_ok p → effect p q r p' → subs_ok p'.
Proof.
  intros Hnext [Heach Hrev] He. inversion He; subst; clear He; try (split; [exact Heach|exact Hrev]).
  - split; [|exact Hrev]. intros k s Hs. destruct (Heach k s Hs) as (?&?&Happ&?). split_and!; try done. simpl.
    apply lookup_insert_is_Some'. by right.
  - match goal with Hn : next_id _ _ = _ |- _ => apply next_id_fresh in Hn as Hf; [|lia..]; injection Hn as <- <- end.
    destruct Hf as (Hn&Hissued&Hfresh). simpl in Hn, Hissued |- *.
    match goal with Ho : owns_app _ _ _ |- _ => destruct Ho as (app&Happ&_) end.
    split; simpl.
    + intros k s [[<- <-]|[_ Hs]]%lookup_insert_Some; simpl.
      * split_and!; [done|done|by rewrite Happ|]. by destruct spec.
      * destruct (Heach k s Hs) as (?&Hk&?&?). split_and!; try done. eapply issued_mono; [|exact Hk]. simpl. lia.
    + assert (∀ k s, cp_submissions p !! k = Some s → sub_app_id s = app_id → sub_version s = ss_version spec →
        sub_revision s ≠ revision) as Hnew.
      { intros k s Hs Ha Hv Hr. pose proof (max_revision_spec _ _ _ _ _ Hs Ha Hv).
        match goal with Hc : checked_add_u32 _ _ = _ |- _ => unfold checked_add_u32 in Hc; case_match; [|done]; injection Hc as Hc end.
        lia. }
      intros k1 k2 s1 s2 [[<- <-]|[_ H1']]%lookup_insert_Some [[<- <-]|[_ H2']]%lookup_insert_Some; simpl; [done|..].
      * intros Ha Hv Hr. by destruct (Hnew k2 s2).
      * intros Ha Hv Hr. by destruct (Hnew k1 s1).
      * by apply Hrev.
  - match goal with Hs : cp_submissions p !! id = Some s |- _ => rename Hs into Hs0 end.
    split; simpl.
    + intros k x [[<- <-]|[_ Hx]]%lookup_insert_Some; [|by apply Heach]. destruct (Heach id s Hs0) as (?&?&?&?). done.
    + intros k1 k2 s1 s2 [[<- <-]|[_ H1']]%lookup_insert_Some [[<- <-]|[_ H2']]%lookup_insert_Some; simpl; [done|..];
        by apply Hrev.
  - match goal with Hn : next_id _ _ = _ |- _ => apply next_id_fresh in Hn as Hf; [|lia..]; injection Hn as <- <- end.
    destruct Hf as (Hn&_&_). simpl in Hn. split; [|exact Hrev]. intros k x Hx. simpl in Hx. destruct (Heach k x Hx) as (?&Hk&?&?).
    split_and!; try done. eapply issued_mono; [|exact Hk]. simpl. lia.
Qed.

(** A published release stays one of the published kind. *)
Lemma transition_published s t :
  release_can_transition s t = true → s ∈ [Published; Paused; Removed] → t ∈ [Published; Paused; Removed].
Proof. rewrite !elem_of_cons, !elem_of_nil. intros Ht [->|[->|[->|[]]]]; destruct t; try done; tauto. Qed.

(** A release that changes in place. *)
Lemma rels_update p k r r' :
  rels_ok p → cp_releases p !! k = Some r → rel_state r ≠ Removed →
  rel_id r' = rel_id r → rel_submission_id r' = rel_submission_id r → rel_app_id r' = rel_app_id r →
  rel_version r' = rel_version r → rollout_percent r' = rollout_percent r →
  (∀ n, catalog_sequence r' = Some n → n ≠ 0%Z ∧ rel_state r' ∈ [Published; Paused; Removed] ∧
     (catalog_sequence r = Some n ∨ ∀ j other m, cp_releases p !! j = Some other → catalog_sequence other = Some m → (m < n)%Z)) →
  rels_ok (with_releases (<[k := r']>) p).
Proof.
  intros [Heach Happ Hlive Hpub Hseq] Hk Hst Hid Hsub Ha Hv Hro Hcat. split; simpl.
  - intros j x [[<- <-]|[_ Hx]]%lookup_insert_Some; [|by apply Heach]. rewrite Hid, Hro. by apply (Heach k r).
  - intros j x [[<- <-]|[_ Hx]]%lookup_insert_Some; [|by apply (Happ j x)]. rewrite Hsub, Ha, Hv. by apply (Happ k r).
  - intros k1 k2 r1 r2 [[<- <-]|[Hn1 H1]]%lookup_insert_Some [[<- <-]|[Hn2 H2]]%lookup_insert_Some Heq Hl1 Hl2; [done|..].
    + rewrite Hsub in Heq. by apply (Hlive k k2 r r2).
    + rewrite Hsub in Heq. by apply (Hlive k1 k r1 r).
    + by apply (Hlive k1 k2 r1 r2).
  - intros j x n [[<- <-]|[_ Hx]]%lookup_insert_Some Hn; [|by apply (Hpub j x)]. by destruct (Hcat n Hn) as (?&?&_).
  - assert (∀ j x n, cp_releases p !! j = Some x → catalog_sequence x = Some n → catalog_sequence r' = Some n → k = j) as Hnew.
    { intros j x n Hx Hxn Hn. destruct (Hcat n Hn) as (_&_&[Hr|Hall]); [by apply (Hseq k j r x n)|].
      specialize (Hall j x n Hx Hxn). lia. }
    intros k1 k2 r1 r2 n [[<- <-]|[_ H1]]%lookup_insert_Some [[<- <-]|[_ H2]]%lookup_insert_Some E1 E2; [done|..].
    + by apply (Hnew k2 r2 n).
    + symmetry. by apply (Hnew k1 r1 n).
    + by apply (Hseq k1 k2 r1 r2 n).
Qed.

(** The books are no part of the resources. *)
Lemma rels_ok_booked q action topic kind id before after version r p :
  rels_ok p → rels_ok (booked q action topic kind id before after version r p).
Proof. by intros [Heach Happ Hlive Hpub Hseq]. Qed.

Lemma effect_rels_ok p q r p' :
  (1 ≤ next_object_id p < 2 ^ 128 - 1)%Z → subs_ok p → rels_ok p → effect p q r p' → rels_ok p'.
Proof.
  intros Hnext Hsubs Hok He. assert (Hok' := Hok). destruct Hok' as [Heach Happ Hlive Hpub Hseq].
  inversion He; subst; clear He; apply rels_ok_booked.
  - by split.
  - by split.
  - match goal with Hn : next_id _ _ = _ |- _ => apply next_id_fresh in Hn as Hf; [|lia..]; injection Hn as <- <- end.
    destruct Hf as (Hn&_&Hfresh). simpl in Hn. split; simpl; try done.
    + intros k x Hx. destruct (Heach k x Hx) as (?&Hk&?). split_and!; try done; try lia. eapply issued_mono; [|exact Hk]. simpl. lia.
    + intros k x Hx. destruct (Happ k x Hx) as (s&Hs&?). exists s. rewrite lookup_insert_ne; [done|].
      intros Heq. destruct (so_each _ Hsubs _ _ Hs) as (_&Hi&_). by destruct (Hfresh _ Hi).
  - split; simpl; try done. intros k x Hx. destruct (Happ k x Hx) as (s'&Hs'&Hst&?&?).
    destruct (decide (id = rel_submission_id x)) as [->|Hne]; [|exists s'; by rewrite lookup_insert_ne].
    match goal with Hs : cp_submissions p !! _ = Some s, Hc : submission_can_transition _ _ = true |- _ =>
      rewrite Hs in Hs'; injection Hs' as ->; by rewrite Hst in Hc end.
  - match goal with Hn : next_id _ _ = _ |- _ => apply next_id_fresh in Hn as Hf; [|lia..]; injection Hn as <- <- end.
    destruct Hf as (Hn&Hissued&Hfresh). simpl in Hn, Hissued |- *.
    match goal with Hr : in_range_Z _ _ _ = true |- _ => unfold in_range_Z in Hr; apply andb_true_iff in Hr as [Hr1%Z.leb_le Hr2%Z.leb_le] end.
    split; simpl.
    + intros k x [[<- <-]|[_ Hx]]%lookup_insert_Some; [done|]. destruct (Heach k x Hx) as (?&Hk&?).
      split_and!; try done; try lia. eapply issued_mono; [|exact Hk]. simpl. lia.
    + intros k x [[<- <-]|[_ Hx]]%lookup_insert_Some; [|by apply (Happ k x)]. simpl. by exists s.
    + intros k1 k2 r1 r2 [[<- <-]|[_ Hx1]]%lookup_insert_Some [[<- <-]|[_ Hx2]]%lookup_insert_Some; simpl; [done|..|by apply Hlive].
      * intros Heq _ Hl. by destruct Hl; eauto.
      * intros Heq Hl _. by destruct Hl; eauto.
    + intros k x n [[<- <-]|[_ Hx]]%lookup_insert_Some; [done|by apply (Hpub k)].
    + intros k1 k2 r1 r2 n [[<- <-]|[_ Hx1]]%lookup_insert_Some [[<- <-]|[_ Hx2]]%lookup_insert_Some; simpl; [done..|]. by apply (Hseq k1 k2 r1 r2).
  - match goal with Hr : cp_releases p !! id = Some _ |- _ => rename Hr into Hr0 end.
    match goal with Hc : release_can_transition _ _ = true |- _ => rename Hc into Hcan end.
    eapply rels_update; try done; [by intros Hrm; rewrite Hrm in Hcan|].
    intros n Hn. simpl in Hn. destruct (Hpub id _ n Hr0 Hn) as [Hz Hst]. split_and!; [done| |by left].
    simpl. match goal with Ht : release_command_transition _ = _ |- _ => rewrite Ht end. by eapply transition_published.
  - match goal with Hr : cp_releases p !! id = Some _ |- _ => rename Hr into Hr0 end.
    match goal with Hc : release_can_transition _ _ = true |- _ => rename Hc into Hcan end.
    eapply rels_update; try done; [by intros Hrm; rewrite Hrm in Hcan; destruct published|].
    intros n Hn. simpl in Hn. subst sequence.
    match goal with Hs : ∀ n0, Some n = Some n0 → _ |- _ => destruct (Hs n eq_refl) as [Hz Hlt] end.
    assert (published = true) as -> by naive_solver. split_and!; [done| |by right]. simpl. set_solver.
Qed.

Lemma effect_inv p q r p' : room p → control_inv p → effect p q r p' → control_inv p'.
Proof.
  intros Hroom [Hbooks Hnext Hteams Happs Hsubs Hrels] He.
  assert (1 ≤ next_object_id p < 2 ^ 128 - 1)%Z as Hn by (unfold room, u64_max in Hroom; lia).
  destruct (effect_books p q r p' He) as (_&_&a&o&Haudit&_). split.
  - by eapply effect_books_ok.
  - rewrite Haudit, length_app. simpl. inversion He; subst; simpl; try lia;
      match goal with Hi : next_id _ _ = _ |- _ => apply next_id_fresh in Hi as (Hi&_); lia end.
  - inversion He; subst; simpl; try exact Hteams.
    + intros t x [[<- <-]|[_ Hx]]%lookup_insert_Some; [|by apply Hteams]. apply member_upsert_ok; [by apply Hteams|done..].
    + match goal with Hi : next_id _ _ = _ |- _ => injection Hi as _ <- end. exact Hteams.
    + match goal with Hi : next_id _ _ = _ |- _ => injection Hi as _ <- end. exact Hteams.
  - inversion He; subst; simpl; try exact Happs; try (match goal with Hi : next_id _ _ = _ |- _ => injection Hi as _ <- end; exact Happs).
    + intros b x Hx. destruct (Happs b x Hx) as (?&?&?). split_and!; try done. apply lookup_insert_is_Some'. by right.
    + intros b x [[<- <-]|[_ Hx]]%lookup_insert_Some; [|by apply Happs]. simpl.
      match goal with Hu : user_may _ _ _ |- _ => destruct Hu as (team&_&Ht&_) end. by rewrite Ht.
  - by eapply effect_subs_ok.
  - by eapply effect_rels_ok.
Qed.

End inv.

(** ** The effects are all that is needed *)

Section complete.
  Context `{Crypto}.

Lemma bind_Ok {A B} (m : CP A) (k : A → CP B) a p p' : m p = (Ok a, p') → cp_bind m k p = k a p'.
Proof. unfold cp_bind. by intros ->. Qed.

Lemma require_user_ok p a roles : user_may p a roles → ∃ m, require_user a roles p = (Ok m, p).
Proof.
  intros (team&m&Ht&Hm&Hr&Hf). exists m. unfold require_user, cp_bind, cp_get, cp_lift, cp_guard.
  rewrite Ht. simpl. rewrite Hm. simpl. rewrite bool_decide_eq_true_2 by done. by rewrite Hf.
Qed.
Lemma require_app_owner_ok p a app : owns_app p a app → require_app_owner a app p = (Ok tt, p).
Proof.
  intros (x&Hx&Ho). unfold require_app_owner, cp_bind, cp_get, cp_lift, cp_guard. rewrite Hx. simpl.
  by rewrite bool_decide_eq_true_2.
Qed.
Lemma require_submission_owner_ok p a id : owns_submission p a id → require_submission_owner a id p = (Ok tt, p).
Proof.
  intros (s&Hs&Ho). unfold require_submission_owner, cp_bind at 1 2, cp_get, cp_lift. rewrite Hs. simpl.
  by apply require_app_owner_ok.
Qed.
Lemma replay_fresh p q :
  validate_context (request_context q) = Ok tt → cp_idempotency p !! request_key q = None →
  replay (request_actor q) (request_context q) (request_sha256 q) p = (Ok None, p).
Proof.
  intros Hv Hi. unfold replay, cp_bind, cp_lift, cp_get. rewrite Hv.
  change (request_actor q, sha256_hex _) with (request_key q). by rewrite Hi.
Qed.
Lemma guard_ok b e p : b = false → cp_guard b e p = (Ok tt, p).
Proof. by intros ->. Qed.
Lemma lift_ok {A} (r : result ControlError A) a p : r = Ok a → cp_lift r p = (Ok a, p).
Proof. by intros ->. Qed.
Lemma get_ok {A} (g : ControlPlane → A) p : cp_get g p = (Ok (g p), p).
Proof. done. Qed.

Lemma move_run p q id v target action topic s :
  validate_context (request_context q) = Ok tt → cp_idempotency p !! request_key q = None →
  request_sha256 q = request_digest "submission.transition.v1" (transition_fields id v target) →
  cp_submissions p !! id = Some s → sub_resource_version s = v → submission_can_transition (sub_state s) target = true →
  transition_submission (request_actor q) (request_context q) id v target action topic p =
    (Ok (advance_submission target s),
     booked q action topic "submission" id (Some (SubmissionState_as_str (sub_state s)))
       (Some (SubmissionState_as_str target)) (sub_resource_version (advance_submission target s))
       (MrSubmission (advance_submission target s)) (with_submissions (<[id := advance_submission target s]>) p)).
Proof.
  intros Hv Hi Hsha Hs Hver Hcan. unfold transition_submission. fold (transition_fields id v target). rewrite <- Hsha.
  cbv zeta. erewrite bind_Ok; [|by apply replay_fresh]. cbv beta iota. erewrite bind_Ok; [|apply get_ok].
  erewrite bind_Ok; [|by apply lift_ok; rewrite Hs]. erewrite bind_Ok; [|by apply guard_ok; rewrite Hver, Z.eqb_refl].
  erewrite bind_Ok; [|by apply guard_ok; rewrite Hcan]. erewrite bind_Ok by done. apply commit_topic_booked.
Qed.

Ltac cp_go :=
  repeat (first
    [ erewrite bind_Ok; [|by apply replay_fresh]; cbv beta iota
    | erewrite bind_Ok; [|apply get_ok]
    | erewrite bind_Ok; [|by apply require_app_owner_ok]
    | erewrite bind_Ok; [|by apply require_submission_owner_ok] ]).

Lemma map_Ok {A B} (f : A → B) (m : CP A) a p p' : m p = (Ok a, p') → cp_map f m p = (Ok (f a), p').
Proof. unfold cp_map, cp_bind. by intros ->. Qed.

Lemma effect_run_move p q r p' id v target action topic s :
  validate_context (request_context q) = Ok tt → cp_idempotency p !! request_key q = None →
  may_move p q id v target action topic → cp_submissions p !! id = Some s → sub_resource_version s = v →
  submission_can_transition (sub_state s) target = true → r = MrSubmission (advance_submission target s) →
  p' = booked q action topic "submission" id (Some (SubmissionState_as_str (sub_state s)))
         (Some (SubmissionState_as_str target)) (sub_resource_version (advance_submission target s))
         (MrSubmission (advance_submission target s)) (with_submissions (<[id := advance_submission target s]>) p) →
  run q p = (Ok r, p').
Proof.
  intros Hv Hi Hmay Hs Hver Hcan -> ->. destruct Hmay as [a c id v Hu Ho|a c id v Hu Ho|a c id v target Hsv Ht|a c id v Hsv|a c id v target Hsv Ht];
    apply map_Ok; match type of Hv with validate_context (request_context ?q) = _ => set (rq := q) in * end.
  - destruct (require_user_ok _ _ _ Hu) as [m Hm]. unfold finalize_submission. erewrite bind_Ok by exact Hm. cp_go. by apply (move_run p rq).
  - destruct (require_user_ok _ _ _ Hu) as [m Hm]. unfold withdraw_submission. erewrite bind_Ok by exact Hm. cp_go. by apply (move_run p rq).
  - unfold scan_submission. rewrite Hsv, bool_decide_eq_true_2 by done. erewrite bind_Ok by done. by apply (move_run p rq).
  - unfold begin_review. rewrite Hsv. erewrite bind_Ok by done. by apply (move_run p rq).
  - unfold decide_review. rewrite Hsv, bool_decide_eq_true_2 by done. erewrite bind_Ok by done. by apply (move_run p rq).
Qed.

Lemma effect_run p q r p' :
  validate_context (request_context q) = Ok tt → cp_idempotency p !! request_key q = None → effect p q r p' →
  run q p = (Ok r, p').
Proof.
  intros Hv Hi He. destruct He as [a c m v team updated Hu Hm Ht Hver Hown Hem ->|a c app_id locale app Hu Hid Hloc Hfree ->
    |a c app_id spec id revision s p' Hu Ho Hspec Hrev Hnext ->|q id v target action topic s Hmay Hs Hver Hcan
    |a c sid rollout s id r p' Hu Hr Hs Ho Hst Hlive Hnext ->|a c id v command r target action topic Hu Hr Ho Hvc Hver Htr Hcan
    |a c id v published sequence r target Hsv -> Hpub Hseq Hr Hver Hcan];
    try (by eapply effect_run_move); apply map_Ok;
    match type of Hv with validate_context (request_context ?q) = _ => set (rq := q) in * end;
    try (destruct (require_user_ok _ _ _ Hu) as [mem Hmem]).
  - unfold add_or_update_member. cbv zeta. erewrite bind_Ok by exact Hmem. erewrite bind_Ok; [|by apply guard_ok; rewrite Hm].
    erewrite bind_Ok; [|by apply (replay_fresh p rq)]. cbv beta iota. cp_go. erewrite bind_Ok; [|by apply lift_ok; rewrite Ht].
    erewrite bind_Ok; [|by apply guard_ok; rewrite Hver, Z.eqb_refl].
    erewrite bind_Ok; [|apply guard_ok; rewrite Hem, orb_false_r; apply Nat.eqb_neq;
      destruct Hown as [|Hrole]; [lia|rewrite (bool_decide_eq_true_2 _ Hrole); lia]]. done.
  - unfold register_app. cbv zeta. erewrite bind_Ok by exact Hmem. erewrite bind_Ok; [|by apply guard_ok; rewrite Hid, Hloc].
    erewrite bind_Ok; [|by apply (replay_fresh p rq)]. cbv beta iota. cp_go.
    erewrite bind_Ok; [|apply guard_ok, bool_decide_eq_false_2; rewrite Hfree; apply is_Some_None]. done.
  - unfold create_submission. cbv zeta. erewrite bind_Ok by exact Hmem. cp_go. erewrite bind_Ok; [|by apply lift_ok].
    erewrite bind_Ok; [|by apply (replay_fresh p rq)]. cbv beta iota. cp_go. erewrite bind_Ok; [|by apply lift_ok; rewrite Hrev].
    erewrite bind_Ok by exact Hnext. done.
  - unfold create_release. cbv zeta. erewrite bind_Ok by exact Hmem. erewrite bind_Ok; [|by apply guard_ok; rewrite Hr]. cp_go.
    erewrite bind_Ok; [|by apply lift_ok; rewrite Hs]. cp_go. erewrite bind_Ok; [|by apply guard_ok; rewrite bool_decide_eq_true_2].
    erewrite bind_Ok; [|by apply (replay_fresh p rq)]. cbv beta iota. cp_go.
    erewrite bind_Ok; [|apply guard_ok, existsb_values_false; intros k x Hx].
    2:{ destruct (decide (rel_submission_id x = sid)) as [Hsid|Hsid].
        - by rewrite (bool_decide_eq_true_2 _ (Hlive k x Hx Hsid)), andb_false_r.
        - by rewrite (bool_decide_eq_false_2 _ Hsid). }
    erewrite bind_Ok by exact Hnext. done.
  - unfold mutate_release. cbv zeta. erewrite bind_Ok by exact Hmem. cp_go. erewrite bind_Ok; [|by apply lift_ok; rewrite Hr]. cp_go.
    erewrite bind_Ok; [|by apply lift_ok]. erewrite bind_Ok; [|by apply (replay_fresh p rq)]. cbv beta iota. cp_go.
    erewrite bind_Ok; [|by apply lift_ok; rewrite Hr]. erewrite bind_Ok; [|by apply guard_ok; rewrite Hver, Z.eqb_refl].
    erewrite bind_Ok; [|by apply guard_ok; rewrite Htr; simpl; rewrite Hcan]. erewrite bind_Ok by done.
    rewrite Htr. simpl rel_state. rewrite Htr. apply (commit_topic_booked rq).
  - unfold complete_publication. cbv zeta.
    erewrite bind_Ok; [|apply guard_ok; rewrite Hsv; simpl; apply negb_false_iff, eqb_true_iff].
    2:{ apply eq_bool_prop_intro. destruct published; case_bool_decide as Hs; naive_solver. }
    erewrite bind_Ok; [|by apply (replay_fresh p rq)]. cbv beta iota. cp_go. erewrite bind_Ok; [|apply guard_ok].
    2:{ destruct sequence as [n|]; [|done]. destruct (Hseq n eq_refl) as [Hn Hlt]. rewrite (proj2 (Z.eqb_neq _ _) Hn). simpl.
        apply existsb_values_false. intros k x Hx. destruct (catalog_sequence x) as [m|] eqn:Hm; [|done].
        apply Z.leb_gt. by eapply Hlt. }
    cp_go. erewrite bind_Ok; [|by apply lift_ok; rewrite Hr]. erewrite bind_Ok; [|by apply guard_ok; rewrite Hver, Z.eqb_refl].
    erewrite bind_Ok; [|by apply guard_ok; rewrite Hcan]. done.
Qed.

End complete.

(** ** Histories *)

Section histories.
  Context `{Crypto}.

Fixpoint runs (qs : list ControlRequest) (p : ControlPlane) : ControlPlane :=
  match qs with [] => p | q :: qs => runs qs (run q p).2 end.

(** The requests that took effect, the latest first, with their results. *)
Inductive history (p0 : ControlPlane) : list (ControlRequest * MutationResult) → ControlPlane → Prop :=
| history_start : history p0 [] p0
| history_step h p q r p' :
    history p0 h p → cp_idempotency p !! request_key q = None → effect p q r p' → history p0 ((q, r) :: h) p'.

Lemma run_history p0 h p q : history p0 h p → ∃ h', history p0 h' (run q p).2 ∧ suffix h h' ∧ length h' ≤ S (length h).
Proof.
  intros Hh. destruct (run_outcome q p) as [e|r Hv Hi|r p' Hv Hi He]; [exists h; split_and!; [done..|lia]| |].
  - exists h. split_and!; [done..|lia].
  - exists ((q, r) :: h). split_and!; [by eapply history_step|by exists [(q, r)]|done].
Qed.

Lemma runs_history p0 h p qs :
  history p0 h p → ∃ h', history p0 h' (runs qs p) ∧ suffix h h' ∧ length h' ≤ length h + length qs.
Proof.
  revert h p. induction qs as [|q qs IH]; intros h p Hh; simpl; [exists h; split_and!; [done..|lia]|].
  destruct (run_history p0 h p q Hh) as (h1&Hh1&Hs1&Hl1). destruct (IH _ _ Hh1) as (h2&Hh2&Hs2&Hl2).
  exists h2. split_and!; [done|by trans h1|lia].
Qed.

Lemma history_audit p0 h p : history p0 h p → length (cp_audit p) = length (cp_audit p0) + length h.
Proof.
  induction 1 as [|h p q r p' _ IH _ (_&_&a&o&Ha&_)%effect_books]; simpl; [lia|]. rewrite Ha, length_app. simpl. lia.
Qed.

Lemma history_inv p0 h p :
  control_inv p0 → (Z.of_nat (length (cp_audit p0) + length h) < u64_max)%Z → history p0 h p → control_inv p.
Proof.
  intros H0 Hb Hh. induction Hh as [|h p q r p' Hh IH Hi He]; [done|]. simpl in Hb. eapply effect_inv; [|apply IH; lia|done].
  apply history_audit in Hh. unfold room. rewrite Hh. lia.
Qed.

Lemma bootstrap_inv team_id name owner p0 : bootstrap team_id name owner = Ok p0 → control_inv p0 ∧ cp_audit p0 = [].
Proof.
  unfold bootstrap. intros Hb. repeat case_match; simplify_eq. unbool_hyps. split; [|done]. split; simpl.
  - split; simpl; done.
  - lia.
  - intros t x [<- <-]%lookup_singleton_Some. split; simpl; [done|..].
    + by intros k m [<- <-]%lookup_singleton_Some.
    + exists (tm_member_id owner), owner. by rewrite lookup_singleton_eq.
    + by intros k1 k2 m1 m2 [<- <-]%lookup_singleton_Some [<- <-]%lookup_singleton_Some.
  - done.
  - by split.
  - by split.
Qed.

(** The planes that requests lead to. *)
Lemma runs_inv team_id name owner p0 qs :
  bootstrap team_id name owner = Ok p0 → (Z.of_nat (length qs) < u64_max)%Z →
  control_inv (runs qs p0) ∧ ∃ h, history p0 h (runs qs p0) ∧ length h ≤ length qs.
Proof.
  intros [H0 Ha]%bootstrap_inv Hl. destruct (runs_history p0 [] p0 qs) as (h&Hh&_&Hlen); [constructor|].
  simpl in Hlen. split; [|eauto]. eapply history_inv; [done| |done]. rewrite Ha. simpl. lia.
Qed.

(** *** What never changes *)

Record extends (p p' : ControlPlane) : Prop := {
  ex_teams : ∀ t team, cp_teams p !! t = Some team → is_Some (cp_teams p' !! t);
  ex_apps : cp_apps p ⊆ cp_apps p';
  ex_submissions : ∀ k s, cp_submissions p !! k = Some s → ∃ s', cp_submissions p' !! k = Some s' ∧
    spec_of s' = spec_of s ∧ sub_app_id s' = sub_app_id s ∧ sub_revision s' = sub_revision s ∧
    rtc (λ x y, submission_can_transition x y = true) (sub_state s) (sub_state s');
  ex_releases : ∀ k r, cp_releases p !! k = Some r → ∃ r', cp_releases p' !! k = Some r' ∧
    rel_submission_id r' = rel_submission_id r ∧ rel_app_id r' = rel_app_id r ∧ rel_version r' = rel_version r ∧
    rtc (λ x y, release_can_transition x y = true) (rel_state r) (rel_state r') ∧
    (∀ n, catalog_sequence r = Some n → ∃ n', catalog_sequence r' = Some n' ∧ (n ≤ n')%Z);
  ex_sequences : ∀ k r' n, cp_releases p' !! k = Some r' → catalog_sequence r' = Some n →
    (∃ r, cp_releases p !! k = Some r ∧ catalog_sequence r = Some n) ∨
    ∀ j other m, cp_releases p !! j = Some other → catalog_sequence other = Some m → (m < n)%Z;
  ex_audit : cp_audit p `prefix_of` cp_audit p';
  ex_idempotency : cp_idempotency p ⊆ cp_idempotency p';
}.

#[global] Instance extends_refl : Reflexive extends.
Proof.
  intros p. split; try done.
  - intros k s Hs. exists s. by split_and!.
  - intros k r Hr. exists r. split_and!; try done. eauto with lia.
  - intros k r n Hr Hn. left. eauto.
Qed.

#[global] Instance extends_trans : Transitive extends.
Proof.
  intros p1 p2 p3 [T1 A1 S1 R1 N1 D1 I1] [T2 A2 S2 R2 N2 D2 I2]. split.
  - intros t team Ht. destruct (T1 t team Ht) as [team' Ht']. by apply (T2 t team').
  - by trans (cp_apps p2).
  - intros k s Hs. destruct (S1 k s Hs) as (s'&Hs'&?&?&?&?). destruct (S2 k s' Hs') as (s''&Hs''&?&?&?&?).
    exists s''. split_and!; try congruence. by trans (sub_state s').
  - intros k r Hr. destruct (R1 k r Hr) as (r'&Hr'&?&?&?&?&Hc1). destruct (R2 k r' Hr') as (r''&Hr''&?&?&?&?&Hc2).
    exists r''. split_and!; try congruence; [by trans (rel_state r')|]. intros n Hn.
    destruct (Hc1 n Hn) as (n1&Hn1&?). destruct (Hc2 n1 Hn1) as (n2&?&?). exists n2. split; [done|lia].
  - intros k r3 n Hr3 Hn. destruct (N2 k r3 n Hr3 Hn) as [(r2&Hr2&Hn2)|Hnew].
    + by apply (N1 k r2 n).
    + right. intros j other m Ho Hm. destruct (R1 j other Ho) as (other'&Ho'&_&_&_&_&Hc).
      destruct (Hc m Hm) as (m'&Hm'&?). specialize (Hnew j other' m' Ho' Hm'). lia.
  - by trans (cp_audit p2).
  - by trans (cp_idempotency p2).
Qed.

(** A release keeps its place in the catalogues when it is published again. *)
Lemma completion_sequence p k r (published : bool) sequence :
  rels_ok p → cp_releases p !! k = Some r →
  release_can_transition (rel_state r) (if published then Published else PublishFailed) = true →
  (published = true ↔ is_Some sequence) →
  (∀ n, sequence = Some n → n ≠ 0%Z ∧ ∀ (j : string) other m, cp_releases p !! j = Some other → catalog_sequence other = Some m → (m < n)%Z) →
  ∀ n, catalog_sequence r = Some n → ∃ n', sequence = Some n' ∧ (n ≤ n')%Z.
Proof.
  intros Hok Hr Hcan Hpub Hseq n Hn. destruct (ro_published _ Hok k r n Hr Hn) as [_ Hst].
  rewrite !elem_of_cons, elem_of_nil in Hst.
  assert (published = true) as Hp by (destruct Hst as [Hst|[Hst|[Hst|[]]]]; rewrite Hst in Hcan; by destruct published).
  apply Hpub in Hp as [m ->]. exists m. split; [done|]. destruct (Hseq m eq_refl) as [_ Hlt]. specialize (Hlt k r n Hr Hn). lia.
Qed.

(** The maps that one effect changes at one place. *)
Lemma insert_submission_extends (m : gmap string SubmissionRecord) id s s' :
  m !! id = Some s → submission_can_transition (sub_state s) (sub_state s') = true → spec_of s' = spec_of s →
  sub_app_id s' = sub_app_id s → sub_revision s' = sub_revision s →
  ∀ k x, m !! k = Some x → ∃ x', <[id := s']> m !! k = Some x' ∧ spec_of x' = spec_of x ∧ sub_app_id x' = sub_app_id x ∧
    sub_revision x' = sub_revision x ∧ rtc (λ x y, submission_can_transition x y = true) (sub_state x) (sub_state x').
Proof.
  intros Hs Hcan ? ? ? k x Hx. destruct (decide (id = k)) as [<-|Hne].
  - rewrite Hs in Hx. injection Hx as <-. exists s'. rewrite lookup_insert_eq. split_and!; try done. by apply rtc_once.
  - exists x. by rewrite lookup_insert_ne.
Qed.

Lemma insert_release_extends (m : gmap string ReleaseRecord) id r r' :
  m !! id = Some r → release_can_transition (rel_state r) (rel_state r') = true → rel_submission_id r' = rel_submission_id r →
  rel_app_id r' = rel_app_id r → rel_version r' = rel_version r →
  (∀ n, catalog_sequence r = Some n → ∃ n', catalog_sequence r' = Some n' ∧ (n ≤ n')%Z) →
  ∀ k x, m !! k = Some x → ∃ x', <[id := r']> m !! k = Some x' ∧ rel_submission_id x' = rel_submission_id x ∧
    rel_app_id x' = rel_app_id x ∧ rel_version x' = rel_version x ∧
    rtc (λ x y, release_can_transition x y = true) (rel_state x) (rel_state x') ∧
    (∀ n, catalog_sequence x = Some n → ∃ n', catalog_sequence x' = Some n' ∧ (n ≤ n')%Z).
Proof.
  intros Hr Hcan ? ? ? Hcat k x Hx. destruct (decide (id = k)) as [<-|Hne].
  - rewrite Hr in Hx. injection Hx as <-. exists r'. rewrite lookup_insert_eq. split_and!; try done. by apply rtc_once.
  - exists x. rewrite lookup_insert_ne by done. split_and!; try done. eauto with lia.
Qed.

Lemma effect_extends p q r p' :
  room p → control_inv p → cp_idempotency p !! request_key q = None → effect p q r p' → extends p p'.
Proof.
  intros Hroom [Hbooks Hnext Hteams Happs Hsubs Hrels] Hi He.
  assert (1 ≤ next_object_id p < 2 ^ 128 - 1)%Z as Hn by (unfold room, u64_max in Hroom; lia).
  destruct (effect_books p q r p' He) as (Hidem&_&a&o&Haudit&_).
  pose proof (reflexivity (R := extends) p) as [HT HA HS HR HN _ _]. split.
  6:{ rewrite Haudit. by apply prefix_app_r. } 6:{ rewrite Hidem. by apply insert_subseteq. }
  all: inversion He; subst; simpl; try match goal with Hx : next_id _ _ = _ |- _ =>
    apply next_id_fresh in Hx as Hf; [|lia..]; injection Hx as <- <-; destruct Hf as (_&_&Hfresh) end; try done.
  - intros t team' Ht. apply lookup_insert_is_Some'. right. eauto.
  - by apply insert_subseteq.
  - intros k x Hx. destruct (so_each _ Hsubs k x Hx) as (_&Hk&_). exists x. rewrite lookup_insert_ne by (by apply not_eq_sym, Hfresh).
    by split_and!.
  - by eapply insert_submission_extends.
  - intros k x Hx. destruct (ro_each _ Hrels k x Hx) as (_&Hk&_). exists x. rewrite lookup_insert_ne by (by apply not_eq_sym, Hfresh).
    split_and!; try done. eauto with lia.
  - eapply insert_release_extends; try done; [|eauto with lia]. simpl.
    match goal with Ht : release_command_transition _ = _ |- _ => by rewrite Ht end.
  - eapply insert_release_extends; try done. by eapply completion_sequence.
  - intros k x n [[<- <-]|[_ Hx]]%lookup_insert_Some; [done|by apply HN].
  - intros k x n [[<- <-]|[_ Hx]]%lookup_insert_Some; [|by apply HN]. simpl. intros Hc. left. eauto.
  - intros k x n [[<- <-]|[_ Hx]]%lookup_insert_Some; [|by apply HN]. simpl. intros Hc. right.
    match goal with Hs : ∀ n0, sequence = Some n0 → _ |- _ => by destruct (Hs n Hc) end.
Qed.

Lemma runs_extends qs p :
  control_inv p → (Z.of_nat (length (cp_audit p) + length qs) < u64_max)%Z → control_inv (runs qs p) ∧ extends p (runs qs p).
Proof.
  revert p. induction qs as [|q qs IH]; intros p Hp Hl; simpl in *; [done|].
  destruct (run_outcome q p) as [e|r Hv Hi|r p' Hv Hi He]; simpl; [apply IH; [done|lia]..|].
  assert (room p) as Hroom by (unfold room; lia). destruct (effect_books _ _ _ _ He) as (_&_&a&o&Ha&_).
  destruct (IH p') as [Hinv Hext]; [by eapply effect_inv|rewrite Ha, length_app; simpl; lia|].
  split; [done|]. trans p'; [by eapply effect_extends|done].
Qed.

Lemma runs_runs_extends team_id name owner p0 qs qs' :
  bootstrap team_id name owner = Ok p0 → (Z.of_nat (length qs + length qs') < u64_max - 1)%Z →
  extends (runs qs p0) (runs qs' (runs qs p0)).
Proof.
  intros Hb Hl. assert (Hb' := Hb). apply bootstrap_inv in Hb' as [Hinv Ha].
  destruct (runs_history p0 [] p0 qs) as (h&Hh&_&Hlen); [constructor|]. apply history_audit in Hh. rewrite Ha in Hh. simpl in *.
  apply runs_extends; [|rewrite Hh; lia]. apply runs_extends; [done|]. rewrite Ha. simpl. lia.
Qed.

(** *** The way to an approval *)

Definition event : Type := ControlRequest * MutationResult.

(** The events of a list occur in a history, in this order. *)
Fixpoint in_order (Ps : list (event → Prop)) (h : list event) : Prop :=
  match Ps with
  | [] => True
  | P :: Ps => ∃ h1 e h2, h = h1 ++ e :: h2 ∧ P e ∧ in_order Ps h2
  end.

Definition ev_submitted (id : string) (e : event) : Prop :=
  ∃ a c app_id spec s, e = (ReqSubmit a c app_id spec, MrSubmission s) ∧ sub_id s = id.
Definition ev_finalized (id : string) (e : event) : Prop := ∃ a c v r, e = (ReqFinalize a c id v, r).
Definition ev_scanned (id : string) (e : event) : Prop :=
  ∃ a c v r, e = (ReqScan a c id v ReadyForReview, r) ∧ valid_service a Scanner = true.
Definition ev_begun (id : string) (e : event) : Prop :=
  ∃ a c v r, e = (ReqBegin a c id v, r) ∧ valid_service a Reviewer = true.
Definition ev_approved (id : string) (e : event) : Prop :=
  ∃ a c v r, e = (ReqDecide a c id v Approved, r) ∧ valid_service a Reviewer = true.

(** What must have happened, the latest first, to a submission in a state. *)
Definition trail (id : string) (s : SubmissionState) : list (event → Prop) :=
  match s with
  | Uploading => [ev_submitted id]
  | Processing => [ev_finalized id; ev_submitted id]
  | ReadyForReview => [ev_scanned id; ev_finalized id; ev_submitted id]
  | InReview | PendingSecondaryReview => [ev_begun id; ev_scanned id; ev_finalized id; ev_submitted id]
  | Approved => [ev_approved id; ev_begun id; ev_scanned id; ev_finalized id; ev_submitted id]
  | Draft | NeedsChanges | Rejected | Withdrawn => []
  end.

Lemma in_order_cons Ps e h : in_order Ps h → in_order Ps (e :: h).
Proof.
  destruct Ps as [|P Ps]; [done|]. intros (h1&x&h2&->&HP&Hrest). exists (e :: h1), x, h2. done.
Qed.
Lemma in_order_here P Ps e h : P e → in_order Ps h → in_order (P :: Ps) (e :: h).
Proof. intros HP Hh. by exists [], e, h. Qed.
Lemma in_order_weaken P Ps h : in_order (P :: Ps) h → in_order Ps h.
Proof.
  intros (h1&e&h2&->&_&Hh). induction h1 as [|x h1 IH]; simpl; by apply in_order_cons.
Qed.

(** A transition extends the trail of the submission. *)
Lemma move_trail p q id v target action topic s r h :
  may_move p q id v target action topic → submission_can_transition s target = true → in_order (trail id s) h →
  in_order (trail id target) ((q, r) :: h).
Proof.
  intros Hmay Hcan Hh. destruct Hmay as [a c id v Hu Ho|a c id v Hu Ho|a c id v target Hsv Ht|a c id v Hsv|a c id v target Hsv Ht];
    try (rewrite !elem_of_cons, elem_of_nil in Ht); simpl trail.
  - destruct s; try done. apply in_order_here; [by exists a, c, v, r|done].
  - done.
  - destruct Ht as [->|[->|[->|[]]]]; [|done..]. destruct s; try done. apply in_order_here; [by exists a, c, v, r|done].
  - apply in_order_here; [by exists a, c, v, r|]. destruct s; try done. by apply (in_order_weaken (ev_begun id)).
  - destruct Ht as [->|[->|[->|[->|[]]]]]; [..|done|done]; destruct s; try done; simpl trail in *.
    + by apply in_order_cons.
    + apply in_order_here; [by exists a, c, v, r|done].
Qed.

Lemma history_trail p0 h p :
  (∀ k, cp_submissions p0 !! k = None) → history p0 h p →
  ∀ k s, cp_submissions p !! k = Some s → in_order (trail k (sub_state s)) h.
Proof.
  intros H0 Hh. induction Hh as [|h p q r p' Hh IH Hi He]; [by intros k s Hs; rewrite H0 in Hs|].
  intros k s Hs. inversion He; subst; clear He; simpl in Hs;
    try match goal with Hx : next_id _ _ = _ |- _ => injection Hx as <- <- end; try (by apply in_order_cons, IH).
  - apply lookup_insert_Some in Hs as [[<- <-]|[_ Hs]]; [|by apply in_order_cons, IH]. simpl sub_state. simpl trail.
    apply in_order_here; [|done]. by do 5 eexists.
  - apply lookup_insert_Some in Hs as [[<- <-]|[_ Hs]]; [|by apply in_order_cons, IH]. by eapply move_trail; [| |apply IH].
Qed.

End histories.

(** ** Digests *)

Definition short (s : string) : Prop := (Z.of_nat (String.length s) < 2 ^ 64)%Z.
#[global] Instance short_dec s : Decision (short s).
Proof. unfold short. apply _. Defined.

Lemma before_zero_inj (l k x y : list ascii) :
  zero ∉ l → zero ∉ k → l ++ [zero] ++ x = k ++ [zero] ++ y → l = k ∧ x = y.
Proof.
  revert k. induction l as [|a l IH]; intros [|b k] Hl Hk; simpl.
  - by intros [= ->].
  - intros [= <- _]. set_solver.
  - intros [= -> _]. set_solver.
  - intros [= -> Heq]. apply IH in Heq as [-> ->]; [done|set_solver..].
Qed.

Lemma digest_field_inj s t x y : short s → short t → digest_field s ++ x = digest_field t ++ y → s = t ∧ x = y.
Proof.
  unfold digest_field, short. intros Hs Ht. rewrite <- !(assoc_L (++)).
  intros [Hlen Heq]%app_inj_1; [|by rewrite !length_be_bytes]. apply be_bytes_inj in Hlen; [|simpl; lia..].
  apply app_inj_1 in Heq as [Hb ->]; [|rewrite !length_bytes; lia]. split; [by apply bytes_inj|done].
Qed.

Lemma digest_fields_inj fs gs :
  Forall short fs → Forall short gs → concat (map digest_field fs) = concat (map digest_field gs) → fs = gs.
Proof.
  intros Hf. revert gs. induction Hf as [|s fs Hs Hf IH]; intros [|t gs] Hg Heq; cbn [map concat] in Heq.
  - done.
  - apply (f_equal length) in Heq. unfold digest_field in Heq. rewrite !length_app, length_be_bytes in Heq. simpl in Heq. lia.
  - apply (f_equal length) in Heq. unfold digest_field in Heq. rewrite !length_app, length_be_bytes in Heq. simpl in Heq. lia.
  - inversion Hg; subst. apply digest_field_inj in Heq as [-> Heq]; [|done..]. f_equal. by apply IH.
Qed.

(** The digests of two requests differ, but for a collision of SHA-256: the
    message determines the kind of request and all its fields. *)
Lemma request_message_inj d1 d2 f1 f2 :
  zero ∉ bytes d1 → zero ∉ bytes d2 → Forall short f1 → Forall short f2 →
  request_message d1 f1 = request_message d2 f2 → d1 = d2 ∧ f1 = f2.
Proof.
  unfold request_message. intros H1 H2 Hf1 Hf2 [Hd Heq]%before_zero_inj; [|done..]. split; [by apply bytes_inj|].
  by apply digest_fields_inj.
Qed.

Lemma request_domain_zero q : zero ∉ bytes (request_parts q).1.
Proof. destruct q; simpl; apply (bool_decide_eq_true_1 _); by vm_compute. Qed.

(** ** The two locale checks *)

(** The parts of a locale as the listing validator reads them. *)
Definition listing_parts (parts : list string) : bool :=
  match (match parts with
         | script :: rest =>
             if (String.length script =? 4)%nat then (if listing_script script then Some rest else None) else Some parts
         | [] => Some []
         end) with
  | None => false
  | Some [] => true
  | Some (region :: rest) => if negb (listing_region region) then false else bool_decide (rest = [])
  end.
Definition control_parts (parts : list string) : bool :=
  match (match parts with script :: rest => if control_script script then rest else parts | [] => [] end) with
  | [] => true
  | region :: rest => if negb (control_region region) then false else bool_decide (rest = [])
  end.

Lemma region_length region : listing_region region = true → String.length region = 2 ∨ String.length region = 3.
Proof.
  unfold listing_region. intros [Hr|Hr]%orb_true_iff; apply andb_true_iff in Hr as [Hr%Nat.eqb_eq _]; auto.
Qed.

Lemma parts_agree parts : control_parts parts = listing_parts parts.
Proof.
  unfold control_parts, listing_parts. destruct parts as [|script rest]; [done|]. unfold control_script.
  change (match bytes script with b :: l => is_ascii_uppercase b && forallb is_ascii_lowercase l | [] => false end)
    with (listing_script script).
  destruct (String.length script =? 4)%nat eqn:H4; simpl; [|done]. destruct (listing_script script); simpl; [done|].
  apply Nat.eqb_eq in H4. change (control_region script) with (listing_region script).
  destruct (listing_region script) eqn:Hr; [|done]. apply region_length in Hr. lia.
Qed.

(** Accepted parts are few and of ASCII bytes. *)
Lemma parts_shape parts :
  listing_parts parts = true → length parts ≤ 2 ∧ Forall (λ x, bytes_all (byte_in 0 127) x = true) parts.
Proof.
  assert (∀ f s, (∀ b, f b = true → byte_in 0 127 b = true) → bytes_all f s = true → bytes_all (byte_in 0 127) s = true) as Hascii.
  { intros f s Hf. by apply bytes_all_impl. }
  assert (∀ b, is_ascii_lowercase b = true ∨ is_ascii_uppercase b = true ∨ is_ascii_digit b = true → byte_in 0 127 b = true) as Hclass.
  { unfold is_ascii_lowercase, is_ascii_uppercase, is_ascii_digit, byte_in. intros b. rewrite !andb_true_iff, !Z.leb_le. lia. }
  assert (∀ x, listing_region x = true → bytes_all (byte_in 0 127) x = true) as Hregion.
  { intros x [Hx|Hx]%orb_true_iff; apply andb_true_iff in Hx as [_ Hx]; (eapply Hascii; [|exact Hx]); auto. }
  unfold listing_parts. destruct parts as [|a rest]; [intros _; split; [simpl; lia|constructor]|]. destruct (String.length a =? 4)%nat.
  - destruct (listing_script a) eqn:Ha; [|done]. assert (bytes_all (byte_in 0 127) a = true) as Hasc.
    { unfold listing_script, bytes_all in *. destruct (bytes a) as [|b l]; [done|]. simpl in *.
      apply andb_true_iff in Ha as [Hb Hl]. rewrite Hclass by auto. simpl. apply forallb_Forall in Hl. apply forallb_Forall.
      eapply Forall_impl; [exact Hl|]. auto. }
    destruct rest as [|r rest]; [intros _; split; [simpl; lia|by constructor]|].
    destruct (listing_region r) eqn:Hr; [|done]. simpl. intros ->%bool_decide_eq_true. split; [simpl; lia|].
    constructor; [done|]. constructor; [by apply Hregion|constructor].
  - destruct (listing_region a) eqn:Hr; [|done]. simpl. intros ->%bool_decide_eq_true. split; [simpl; lia|].
    constructor; [by apply Hregion|constructor].
Qed.

(** The control core and the listing validator check locales with different
    code; they accept the same ones. *)
Theorem locale_checks_agree locale : is_valid_locale locale = listing_is_valid_locale locale.
Proof.
  unfold is_valid_locale, listing_is_valid_locale. unfold len_in at 1.
  destruct (16 <? String.length locale)%nat eqn:Hlong.
  { apply Nat.ltb_lt in Hlong. rewrite (proj2 (Nat.leb_gt _ 16)) by lia. by rewrite andb_false_r. }
  apply Nat.ltb_ge in Hlong. rewrite (proj2 (Nat.leb_le _ 16)) by lia. rewrite andb_true_r.
  destruct (str_split "-" locale) as [|language parts] eqn:Hsplit; [by destruct (_ || _)|].
  change (match match parts with script :: rest => if control_script script then rest else parts | [] => [] end with
          | [] => true
          | region :: rest => if negb (control_region region) then false else bool_decide (rest = [])
          end) with (control_parts parts).
  fold (listing_parts parts). rewrite parts_agree. fold (len_in 2 3 language).
  assert (len_in 2 3 language = true → bytes_all is_ascii_lowercase language = true → listing_parts parts = true →
    (2 <=? String.length locale)%nat = true ∧ is_ascii_text locale = true ∧ (3 <? S (length parts))%nat = false) as Hshape.
  { intros Hl Hlow Hparts. apply parts_shape in Hparts as [Hn Hasc]. unfold len_in in Hl.
    apply andb_true_iff in Hl as [Hl%Nat.leb_le _]. split_and!.
    - apply Nat.leb_le. pose proof (str_join_split "-" locale) as Hj. rewrite Hsplit in Hj. rewrite <- Hj.
      destruct parts; simpl; [lia|]. rewrite !str_length_app. lia.
    - unfold is_ascii_text. eapply bytes_all_impl, str_split_bytes_all; [|rewrite Hsplit; constructor; [|exact Hasc]].
      + intros b [Hb|Hb]%orb_true_iff; [done|]. apply bool_decide_eq_true in Hb as ->. done.
      + eapply bytes_all_impl; [|exact Hlow]. unfold is_ascii_lowercase, byte_in. intros b. rewrite !andb_true_iff, !Z.leb_le. lia.
    - apply Nat.ltb_ge. lia. }
  destruct (2 <=? _)%nat, (is_ascii_text locale), (3 <? _)%nat, (len_in 2 3 language), (bytes_all _ language),
    (listing_parts parts); simpl; try done; by destruct Hshape as (?&?&?).
Qed.

(** ** Retries *)

Section retries.
  Context `{Crypto}.

(** The author of a request still has a role that may make it. *)
Definition still_may (p : ControlPlane) (q : ControlRequest) : Prop :=
  match q with
  | ReqMember a _ _ _ => user_may p a [RoleOwner]
  | ReqRegister a _ _ _ | ReqSubmit a _ _ _ | ReqFinalize a _ _ _ | ReqWithdraw a _ _ _ => user_may p a [RoleOwner; RoleDeveloper]
  | ReqRelease a _ _ _ | ReqMutate a _ _ _ _ => user_may p a [RoleOwner; RoleReleaseManager]
  | ReqScan _ _ _ _ _ | ReqBegin _ _ _ _ | ReqDecide _ _ _ _ _ | ReqComplete _ _ _ _ _ _ => True
  end.

Lemma owns_app_extends p p' a app : extends p p' → owns_app p a app → owns_app p' a app.
Proof. intros Hx (x&Hx'&Ho). exists x. split; [|done]. by eapply lookup_weaken, ex_apps. Qed.

Lemma owns_submission_extends p p' a id : extends p p' → owns_submission p a id → owns_submission p' a id.
Proof.
  intros Hx (s&Hs&Ho). destruct (ex_submissions _ _ Hx id s Hs) as (s'&Hs'&_&Happ&_). exists s'. split; [done|].
  rewrite Happ. by eapply owns_app_extends.
Qed.

Lemma replay_hit p q r :
  validate_context (request_context q) = Ok tt →
  cp_idempotency p !! request_key q = Some (mkIdempotencyRecord (request_sha256 q) r) →
  replay (request_actor q) (request_context q) (request_sha256 q) p = (Ok (Some r), p).
Proof.
  intros Hv Hi. unfold replay, cp_bind, cp_lift, cp_get. rewrite Hv.
  change (request_actor q, sha256_hex _) with (request_key q). rewrite Hi. simpl. by rewrite bool_decide_eq_true_2.
Qed.

Lemma move_retry p q id v target action topic s :
  validate_context (request_context q) = Ok tt →
  cp_idempotency p !! request_key q = Some (mkIdempotencyRecord (request_sha256 q) (MrSubmission s)) →
  request_sha256 q = request_digest "submission.transition.v1" (transition_fields id v target) →
  transition_submission (request_actor q) (request_context q) id v target action topic p = (Ok s, p).
Proof.
  intros Hv Hi Hsha. unfold transition_submission. fold (transition_fields id v target). rewrite <- Hsha. cbv zeta.
  by erewrite bind_Ok by (by apply replay_hit).
Qed.

Lemma retry_run_move p p2 q id v target action topic s :
  extends p p2 → may_move p q id v target action topic → validate_context (request_context q) = Ok tt →
  cp_idempotency p2 !! request_key q = Some (mkIdempotencyRecord (request_sha256 q) (MrSubmission s)) → still_may p2 q →
  run q p2 = (Ok (MrSubmission s), p2).
Proof.
  intros Hx Hmay Hv Hi Hstill. destruct Hmay as [a c id v Hu Ho|a c id v Hu Ho|a c id v target Hsv Ht|a c id v Hsv|a c id v target Hsv Ht];
    apply map_Ok; match type of Hv with validate_context (request_context ?q) = _ => set (rq := q) in * end.
  - destruct (require_user_ok _ _ _ Hstill) as [m Hm]. unfold finalize_submission. erewrite bind_Ok by exact Hm.
    erewrite bind_Ok by (by eapply require_submission_owner_ok, owns_submission_extends). by apply (move_retry p2 rq).
  - destruct (require_user_ok _ _ _ Hstill) as [m Hm]. unfold withdraw_submission. erewrite bind_Ok by exact Hm.
    erewrite bind_Ok by (by eapply require_submission_owner_ok, owns_submission_extends). by apply (move_retry p2 rq).
  - unfold scan_submission. rewrite Hsv, bool_decide_eq_true_2 by done. erewrite bind_Ok by done. by apply (move_retry p2 rq).
  - unfold begin_review. rewrite Hsv. erewrite bind_Ok by done. by apply (move_retry p2 rq).
  - unfold decide_review. rewrite Hsv, bool_decide_eq_true_2 by done. erewrite bind_Ok by done. by apply (move_retry p2 rq).
Qed.

Lemma approved_stays s t : rtc (λ x y, submission_can_transition x y = true) s t → s = Approved → t = Approved.
Proof. induction 1 as [|x y z Hxy _ IH]; [done|]. by intros ->. Qed.

Lemma retry_run p p2 q r p1 :
  extends p p2 → effect p q r p1 → validate_context (request_context q) = Ok tt →
  cp_idempotency p2 !! request_key q = Some (mkIdempotencyRecord (request_sha256 q) r) → still_may p2 q →
  run q p2 = (Ok r, p2).
Proof.
  intros Hx He Hv Hi Hstill. destruct He as [a c m v team updated Hu Hm Ht Hver Hown Hem ->|a c app_id locale app Hu Hid Hloc Hfree ->
    |a c app_id spec id revision s p' Hu Ho Hspec Hrev Hnext ->|q id v target action topic s Hmay Hs Hver Hcan
    |a c sid rollout s id r p' Hu Hr Hs Ho Hst Hlive Hnext ->|a c id v command r target action topic Hu Hr Ho Hvc Hver Htr Hcan
    |a c id v published sequence r target Hsv -> Hpub Hseq Hr Hver Hcan];
    try (by eapply retry_run_move); apply map_Ok;
    match type of Hv with validate_context (request_context ?q) = _ => set (rq := q) in * end;
    try (destruct (require_user_ok _ _ _ Hstill) as [mem Hmem]).
  - unfold add_or_update_member. cbv zeta. erewrite bind_Ok by exact Hmem. erewrite bind_Ok; [|by apply guard_ok; rewrite Hm].
    by erewrite bind_Ok by (by apply (replay_hit p2 rq)).
  - unfold register_app. cbv zeta. erewrite bind_Ok by exact Hmem. erewrite bind_Ok; [|by apply guard_ok; rewrite Hid, Hloc].
    by erewrite bind_Ok by (by apply (replay_hit p2 rq)).
  - unfold create_submission. cbv zeta. erewrite bind_Ok by exact Hmem.
    erewrite bind_Ok by (by eapply require_app_owner_ok, owns_app_extends). erewrite bind_Ok; [|by apply lift_ok].
    by erewrite bind_Ok by (by apply (replay_hit p2 rq)).
  - destruct (ex_submissions _ _ Hx _ _ Hs) as (s'&Hs'&_&Happ&_&Hrtc).
    unfold create_release. cbv zeta. erewrite bind_Ok by exact Hmem. erewrite bind_Ok; [|by apply guard_ok; rewrite Hr].
    erewrite bind_Ok; [|apply get_ok]. erewrite bind_Ok; [|by apply lift_ok; rewrite Hs'].
    erewrite bind_Ok by (rewrite Happ; by eapply require_app_owner_ok, owns_app_extends).
    erewrite bind_Ok; [|by apply guard_ok; rewrite bool_decide_eq_true_2 by (by eapply approved_stays)].
    by erewrite bind_Ok by (by apply (replay_hit p2 rq)).
  - destruct (ex_releases _ _ Hx _ _ Hr) as (r'&Hr'&_&Happ&_).
    unfold mutate_release. cbv zeta. erewrite bind_Ok by exact Hmem. erewrite bind_Ok; [|apply get_ok].
    erewrite bind_Ok; [|by apply lift_ok; rewrite Hr'].
    erewrite bind_Ok by (rewrite Happ; by eapply require_app_owner_ok, owns_app_extends).
    erewrite bind_Ok; [|by apply lift_ok]. by erewrite bind_Ok by (by apply (replay_hit p2 rq)).
  - unfold complete_publication. cbv zeta.
    erewrite bind_Ok; [|apply guard_ok; rewrite Hsv; simpl; apply negb_false_iff, eqb_true_iff].
    2:{ apply eq_bool_prop_intro. destruct published; case_bool_decide as Hs; naive_solver. }
    by erewrite bind_Ok by (by apply (replay_hit p2 rq)).
Qed.

Lemma runs_idempotency qs p : cp_idempotency p ⊆ cp_idempotency (runs qs p).
Proof.
  revert p. induction qs as [|q qs IH]; intros p; simpl; [done|]. etrans; [|apply IH].
  destruct (run_outcome q p) as [e|r Hv Hi|r p' Hv Hi He]; simpl; [done..|].
  destruct (effect_books _ _ _ _ He) as (->&_). by apply insert_subseteq.
Qed.

Lemma run_recorded q p r p' :
  run q p = (Ok r, p') → validate_context (request_context q) = Ok tt ∧
  cp_idempotency p' !! request_key q = Some (mkIdempotencyRecord (request_sha256 q) r).
Proof.
  intros Hrun. pose proof (run_outcome q p) as Ho. rewrite Hrun in Ho. simpl in Ho. inversion Ho; subst; [done|]. split; [done|].
  match goal with He : effect p q r p' |- _ => destruct (effect_books _ _ _ _ He) as (->&_) end. by rewrite lookup_insert_eq.
Qed.

End retries.
