(* ===== verification/StoreControlProps.v ===== *)
(** * The Store control core: properties

    The theorems about [StoreControl], from the outcomes, invariants and
    histories of [StoreControlLogic], with a sample run that takes a submission
    to a published release.  Two theorems show where the core admits more than
    its documents say. *)

From S2P Require Import Prelude RustStr Bytes Manifest HostFs Checkpoint Package StoreMetadata StoreControl StoreControlLogic.

(** ** A sample run *)

(** SHA-256 without collisions: the identity. *)
Definition plain_crypto : Crypto :=
  {| sha256 := λ l, l; public_key := λ k, k; ed25519_sign := λ _ m, m; verifying_key_ok := λ _, true;
     ed25519_verify := λ _ m s, bool_decide (m = s) |}.

Definition TEAM_ID : string := "team_35d07f00000000000000000000000001".
Definition OWNER_ID : string := "member_00000000000000000000000000000001".
Definition sample_owner : TeamMember := mkTeamMember OWNER_ID "owner@example.dev" RoleOwner true.
Definition sample_user : UserIdentity := mkUserIdentity TEAM_ID OWNER_ID.
Definition sample_context (key : string) (now : Z) : MutationContext := mkMutationContext key "req-0001" now.
Definition sample_hex (c : ascii) : string := String.string_of_list_ascii (replicate 64 c).
Definition sample_spec : SubmissionSpec :=
  mkSubmissionSpec "1.0.0" (sample_hex "c") 4096 (sample_hex "d") 1024
    [mkImageAsset "assets/icon.png" (sample_hex "a") 512 48 48; mkImageAsset "assets/screen.png" (sample_hex "b") 1024 320 170].
Definition sample_scanner : ServiceIdentity := mkServiceIdentity "scanner-primary" Scanner.
Definition sample_reviewer : ServiceIdentity := mkServiceIdentity "reviewer-primary" Reviewer.
Definition sample_publisher : ServiceIdentity := mkServiceIdentity "publisher-primary" Publisher.
Definition sample_plane : ControlPlane :=
  match bootstrap TEAM_ID "M5 Labs" sample_owner with Ok p => p | _ => mkControlPlane ∅ ∅ ∅ ∅ ∅ [] [] 1 1 end.
Definition SUB_ID : string := hex_id "sub_" 1.
Definition REL_ID : string := hex_id "rel_" 2.

Definition to_review : list ControlRequest :=
  [ReqRegister sample_user (sample_context "register-app-0001" 100) "dev.cardputerzero.notes" "en-US";
   ReqSubmit sample_user (sample_context "create-submission-01" 101) "dev.cardputerzero.notes" sample_spec;
   ReqFinalize sample_user (sample_context "finalize-submit-001" 102) SUB_ID 1;
   ReqScan sample_scanner (sample_context "scan-complete-0001" 103) SUB_ID 2 ReadyForReview].
Definition to_approval : list ControlRequest :=
  to_review ++
  [ReqBegin sample_reviewer (sample_context "begin-review-0001" 104) SUB_ID 3;
   ReqDecide sample_reviewer (sample_context "decide-review-0001" 105) SUB_ID 4 Approved].
Definition to_publishing : list ControlRequest :=
  to_approval ++
  [ReqRelease sample_user (sample_context "create-release-0001" 106) SUB_ID 25;
   ReqMutate sample_user (sample_context "publish-release-001" 107) REL_ID 1 RcPublish].
Definition to_published : list ControlRequest :=
  to_publishing ++
  [ReqComplete sample_publisher (sample_context "finish-release-0001" 108) REL_ID 2 true (Some 18000000001%Z)].

Lemma sample_bootstrap : bootstrap TEAM_ID "M5 Labs" sample_owner = Ok sample_plane.
Proof. by vm_compute. Qed.

(** Every request of the sample run takes effect. *)
Example sample_run :
  (length (cp_audit (@runs plain_crypto to_published sample_plane)),
   (λ r, (rel_state r, catalog_sequence r)) <$> cp_releases (@runs plain_crypto to_published sample_plane) !! REL_ID)
  = (9, Some (Published, Some 18000000001%Z)).
Proof. by vm_compute. Qed.

(** ** Requests *)

(** C17: the core does exactly what its rules list.  A request succeeds in two
    ways only: it repeats the recorded result of the same request and changes
    nothing, or its key is unused and it has the one effect that the rules give
    it (who may do it, on which version, in which state; what changes, and
    which event is booked).  It fails only when no rule applies, and then the
    control plane is exactly as it was.  It never panics. *)
Theorem control_request_refines `{Crypto} q p :
  match run q p with
  | (Ok r, p') =>
      validate_context (request_context q) = Ok tt ∧
      ((p' = p ∧ cp_idempotency p !! request_key q = Some (mkIdempotencyRecord (request_sha256 q) r)) ∨
       (cp_idempotency p !! request_key q = None ∧ effect p q r p'))
  | (Err _, p') =>
      p' = p ∧ ¬ (validate_context (request_context q) = Ok tt ∧ cp_idempotency p !! request_key q = None ∧
                  ∃ r p'', effect p q r p'')
  | (Panicked, _) => False
  end.
Proof.
  destruct (run q p) as [x p'] eqn:Hrun. pose proof (run_outcome q p) as Ho. rewrite Hrun in Ho. simpl in Ho.
  destruct Ho as [e|r Hv Hi|r p' Hv Hi He]; [|auto..]. split; [done|].
  intros (Hv&Hi&r&p''&He). by rewrite (effect_run _ _ _ _ Hv Hi He) in Hrun.
Qed.

(** C18: in every state that requests lead to, each team has an owner, members
    with valid data and no e-mail twice; each application belongs to a team;
    submissions have valid descriptors and no revision twice; each release is
    of an approved submission of the same application and version, at most one
    per submission is not removed, and catalogue sequences are nonzero, never
    given twice, and only held by releases that were published; the audit trail
    is numbered without gaps, agrees with the outbox, and covers every
    idempotency record. *)
Theorem control_plane_reachable_inv `{Crypto} team_id name owner p0 qs :
  bootstrap team_id name owner = Ok p0 → (Z.of_nat (length qs) < u64_max)%Z → control_inv (runs qs p0).
Proof. intros Hb Hl. by destruct (runs_inv _ _ _ _ _ Hb Hl). Qed.

Lemma control_plane_reachable_inv_witness :
  control_inv (@runs plain_crypto to_published sample_plane) ∧
  is_Some (cp_releases (@runs plain_crypto to_published sample_plane) !! REL_ID).
Proof.
  split; [|apply (bool_decide_eq_true_1 _); by vm_compute].
  apply (@control_plane_reachable_inv plain_crypto TEAM_ID "M5 Labs" sample_owner); [apply sample_bootstrap|].
  unfold u64_max. simpl. lia.
Defined.

(** C20: what the core has recorded stays.  Whatever requests follow, an
    application keeps its owner, a submission its application, revision and
    descriptor, a release its submission, application and version; states only
    move along the two state machines; a catalogue sequence is never lost or
    lowered, and a new one is above all that were given before; no audit event
    and no idempotency record is ever removed or changed. *)
Theorem control_history_permanent `{Crypto} team_id name owner p0 qs qs' :
  bootstrap team_id name owner = Ok p0 → (Z.of_nat (length qs + length qs') < u64_max - 1)%Z →
  extends (runs qs p0) (runs qs' (runs qs p0)).
Proof. by apply runs_runs_extends. Qed.

Lemma control_history_permanent_witness :
  extends (@runs plain_crypto to_review sample_plane)
    (@runs plain_crypto (drop 4 to_published) (@runs plain_crypto to_review sample_plane)).
Proof.
  apply (@control_history_permanent plain_crypto TEAM_ID "M5 Labs" sample_owner); [apply sample_bootstrap|].
  unfold u64_max. simpl. lia.
Defined.

(** C19: whatever is released was submitted, finalized by its team, passed by a
    scanner, taken into review by a reviewer and approved by a reviewer, in
    this order. *)
Theorem released_was_reviewed `{Crypto} team_id name owner p0 qs k r :
  bootstrap team_id name owner = Ok p0 → (Z.of_nat (length qs) < u64_max)%Z → cp_releases (runs qs p0) !! k = Some r →
  ∃ h, history p0 h (runs qs p0) ∧
    let id := rel_submission_id r in
    in_order [ev_approved id; ev_begun id; ev_scanned id; ev_finalized id; ev_submitted id] h.
Proof.
  intros Hb Hl Hr. destruct (runs_inv _ _ _ _ _ Hb Hl) as [Hinv (h&Hh&_)]. exists h. split; [done|].
  destruct (ro_approved _ (ci_rels _ Hinv) k r Hr) as (s&Hs&Hst&_).
  change (in_order (trail (rel_submission_id r) Approved) h). rewrite <- Hst. eapply history_trail; [|done|done].
  unfold bootstrap in Hb. by repeat case_match; simplify_eq.
Qed.

Lemma released_was_reviewed_witness :
  ∃ h, @history plain_crypto sample_plane h (@runs plain_crypto to_published sample_plane) ∧
    in_order [ev_approved SUB_ID; ev_begun SUB_ID; ev_scanned SUB_ID; ev_finalized SUB_ID; ev_submitted SUB_ID] h.
Proof.
  assert (rel_submission_id <$> cp_releases (@runs plain_crypto to_published sample_plane) !! REL_ID = Some SUB_ID) as Hs
    by (by vm_compute).
  destruct (cp_releases (@runs plain_crypto to_published sample_plane) !! REL_ID) as [r|] eqn:Hr; [|discriminate Hs].
  destruct (@released_was_reviewed plain_crypto TEAM_ID "M5 Labs" sample_owner sample_plane to_published REL_ID r)
    as (h&Hh&Hin); [apply sample_bootstrap|unfold u64_max; simpl; lia|exact Hr|].
  exists h. split; [exact Hh|]. injection Hs as Hs. rewrite Hs in Hin. exact Hin.
Defined.

(** A request that took effect can be repeated at any time: as long as its
    author still has the role, the repetition returns the original result and
    changes nothing; otherwise it is refused and changes nothing. *)
Theorem retry_repeats_result `{Crypto} team_id name owner p0 qs q r p1 qs' :
  bootstrap team_id name owner = Ok p0 → (Z.of_nat (length qs + length qs') < u64_max - 2)%Z →
  cp_idempotency (runs qs p0) !! request_key q = None → run q (runs qs p0) = (Ok r, p1) →
  let p2 := runs qs' p1 in
  (run q p2).2 = p2 ∧ (still_may p2 q → run q p2 = (Ok r, p2)) ∧ ((run q p2).1 = Ok r ∨ ∃ e, (run q p2).1 = Err e).
Proof.
  intros Hb Hl Hfresh Hrun p2. destruct (run_recorded _ _ _ _ Hrun) as [Hv Hrec].
  assert (cp_idempotency p2 !! request_key q = Some (mkIdempotencyRecord (request_sha256 q) r)) as Hrec2
    by (by eapply lookup_weaken, runs_idempotency).
  assert (runs (q :: qs') (runs qs p0) = p2) as Hp2 by (unfold p2; simpl; by rewrite Hrun).
  pose proof (run_outcome q (runs qs p0)) as Ho. rewrite Hrun in Ho. simpl in Ho.
  inversion Ho as [|? ? Hi|? ? _ _ He]; subst; [congruence|].
  pose proof (runs_runs_extends team_id name owner p0 qs (q :: qs') Hb) as Hx. rewrite Hp2 in Hx.
  split_and!.
  - destruct (run_outcome q p2) as [|? ? ?|? ? ? Hi]; simpl; [done..|]. by rewrite Hrec2 in Hi.
  - intros Hstill. eapply retry_run; [apply Hx; simpl; lia|done..].
  - destruct (run_outcome q p2) as [|r' ? Hi|? ? ? Hi]; simpl; [eauto| |]; rewrite Hrec2 in Hi; [|done].
    injection Hi as <-. by left.
Qed.

Definition scan_request : ControlRequest := ReqScan sample_scanner (sample_context "scan-complete-0001" 103) SUB_ID 2 ReadyForReview.

Definition before_scan : ControlPlane := @runs plain_crypto (take 3 to_review) sample_plane.
Definition after_scan : ControlPlane := (@run plain_crypto scan_request before_scan).2.
Definition long_after : ControlPlane := @runs plain_crypto (drop 4 to_published) after_scan.
Definition scanned : MutationResult :=
  match (@run plain_crypto scan_request before_scan).1 with Ok r => r | _ => MrApp (mkAppRecord SUB_ID SUB_ID SUB_ID 0) end.

Lemma scan_run : @run plain_crypto scan_request before_scan = (Ok scanned, after_scan).
Proof.
  unfold scanned, after_scan. destruct (@run plain_crypto scan_request before_scan) as [[r|e|] p] eqn:Hrun; [done|exfalso..];
    apply (f_equal (λ x, is_ok x.1)) in Hrun; by vm_compute in Hrun.
Qed.

Lemma retry_repeats_result_witness :
  (λ s, sub_state s) <$> cp_submissions long_after !! SUB_ID = Some Approved ∧
  @run plain_crypto scan_request long_after = (Ok scanned, long_after).
Proof.
  split; [by vm_compute|].
  destruct (@retry_repeats_result plain_crypto TEAM_ID "M5 Labs" sample_owner sample_plane (take 3 to_review) scan_request
    scanned after_scan (drop 4 to_published)) as (_&Hsame&_);
    [apply sample_bootstrap|unfold u64_max; simpl; lia|by vm_compute|exact scan_run|].
  apply Hsame. exact I.
Defined.

(** An idempotency key serves one request only.  Once a request took effect,
    a different request (another operation, or any other field) of the same
    author with the same key is refused and changes nothing, now and after any
    further requests, unless SHA-256 has a collision between the two. *)
Theorem key_serves_one_request `{Crypto} q p r p1 q' qs :
  let message (q : ControlRequest) := request_message (request_parts q).1 (request_parts q).2 in
  run q p = (Ok r, p1) → request_key q' = request_key q → request_parts q' ≠ request_parts q →
  Forall short (request_parts q).2 → Forall short (request_parts q').2 →
  (sha256 (message q') = sha256 (message q) → message q' = message q) →
  ∃ e, run q' (runs qs p1) = (Err e, runs qs p1).
Proof.
  intros message Hrun Hkey Hdiff Hs Hs' Hcoll. destruct (run_recorded _ _ _ _ Hrun) as [_ Hrec].
  assert (cp_idempotency (runs qs p1) !! request_key q' = Some (mkIdempotencyRecord (request_sha256 q) r)) as Hrec2
    by (rewrite Hkey; by eapply lookup_weaken, runs_idempotency).
  assert (request_sha256 q' ≠ request_sha256 q) as Hsha.
  { unfold request_sha256, request_digest, sha256_hex. intros Heq%lower_hex_inj%Hcoll. apply Hdiff.
    apply request_message_inj in Heq as [H1 H2]; [|apply request_domain_zero|apply request_domain_zero|done..].
    by destruct (request_parts q'), (request_parts q); simplify_eq/=. }
  destruct (run q' (runs qs p1)) as [x p'] eqn:Hrun'. pose proof (run_outcome q' (runs qs p1)) as Ho. rewrite Hrun' in Ho. simpl in Ho.
  destruct Ho as [e|r' _ Hi|r' p' _ Hi _]; [eauto|..]; rewrite Hrec2 in Hi; [|done]. injection Hi as Hi _. congruence.
Qed.

Definition other_scan : ControlRequest := ReqScan sample_scanner (sample_context "scan-complete-0001" 109) SUB_ID 2 Rejected.

Lemma key_serves_one_request_witness :
  ∃ e, @run plain_crypto other_scan long_after = (Err e, long_after).
Proof.
  apply (@key_serves_one_request plain_crypto scan_request before_scan scanned after_scan other_scan (drop 4 to_published)).
  - exact scan_run.
  - reflexivity.
  - discriminate.
  - apply (bool_decide_eq_true_1 _). by vm_compute.
  - apply (bool_decide_eq_true_1 _). by vm_compute.
  - intros Heq. exact Heq.
Defined.

(** ** Where the core admits more than its documents say *)

(** A team can declare its own release published.  [Resume] only looks at
    the state machine, where a release that is being published may become
    published, so its release manager can take it there without the publisher:
    the release is then published without a place in any catalogue, and the
    report of the publisher, who still works on it, is refused. *)
Theorem resume_skips_publisher `{Crypto} p id r a c :
  control_inv p → user_may p a [RoleOwner; RoleReleaseManager] → cp_releases p !! id = Some r → owns_app p a (rel_app_id r) →
  rel_state r = Publishing → (0 ≤ rel_resource_version r < u64_max)%Z → validate_context c = Ok tt →
  let q := ReqMutate a c id (rel_resource_version r) RcResume in
  cp_idempotency p !! request_key q = None →
  ∃ r' p', run q p = (Ok (MrRelease r'), p') ∧ cp_releases p' !! id = Some r' ∧ rel_state r' = Published ∧
    catalog_sequence r' = None ∧
    ∀ publisher c' sequence result p'', ¬ effect p' (ReqComplete publisher c' id (rel_resource_version r) true sequence) result p''.
Proof.
  intros Hinv Hu Hr Ho Hst Hver Hv q Hi. exists (apply_release_command RcResume r). eexists. split_and!.
  - apply effect_run; [done|done|]. eapply (effect_mutate p a c id (rel_resource_version r) RcResume r); try done. by rewrite Hst.
  - simpl. by rewrite lookup_insert_eq.
  - done.
  - simpl. destruct (catalog_sequence r) as [n|] eqn:Hn; [|done].
    destruct (ro_published _ (ci_rels _ Hinv) id r n Hr Hn) as [_ Hx]. rewrite Hst in Hx. set_solver.
  - intros publisher c' sequence result p'' He.
    inversion He as [| | |? ? ? ? ? ? ? Hm| | |? ? ? ? ? ? r1 ? _ _ _ _ Hr1 Hv1 _]; [by inversion Hm|].
    simpl in Hr1. rewrite lookup_insert_eq in Hr1. injection Hr1 as <-. simpl in Hv1. unfold wrapping_add_u64, u64_max in *.
    rewrite Z.mod_small in Hv1; lia.
Qed.

Definition publishing_plane : ControlPlane := @runs plain_crypto to_publishing sample_plane.
Definition resume_request : ControlRequest := ReqMutate sample_user (sample_context "resume-release-0001" 108) REL_ID 2 RcResume.

Lemma sample_user_may : user_may publishing_plane sample_user [RoleOwner; RoleReleaseManager].
Proof.
  assert ((λ m, (tm_role m, two_factor_enabled m)) <$> (cp_teams publishing_plane !! TEAM_ID ≫= λ t, tr_members t !! OWNER_ID)
    = Some (RoleOwner, true)) as Hm by (by vm_compute).
  unfold user_may. cbn [ui_team_id ui_member_id sample_user].
  destruct (cp_teams publishing_plane !! TEAM_ID) as [t|]; [|discriminate Hm]. cbn [mbind option_bind] in Hm.
  destruct (tr_members t !! OWNER_ID) as [m|] eqn:Ht; [|discriminate Hm]. injection Hm as Hr Hf.
  exists t, m. rewrite Hr. split_and!; [done|done|constructor|done].
Qed.

Lemma sample_owns_app : owns_app publishing_plane sample_user "dev.cardputerzero.notes".
Proof.
  assert (owner_team_id <$> cp_apps publishing_plane !! "dev.cardputerzero.notes" = Some TEAM_ID) as Ha by (by vm_compute).
  unfold owns_app. destruct (cp_apps publishing_plane !! _) as [app|]; [|discriminate Ha]. injection Ha as Ha. by exists app.
Qed.

Lemma resume_skips_publisher_witness :
  ∃ r' p', @run plain_crypto resume_request publishing_plane = (Ok (MrRelease r'), p') ∧ rel_state r' = Published ∧
    catalog_sequence r' = None.
Proof.
  assert ((λ r, (rel_app_id r, rel_state r, rel_resource_version r)) <$> cp_releases publishing_plane !! REL_ID
    = Some ("dev.cardputerzero.notes", Publishing, 2%Z)) as Hs by (by vm_compute).
  destruct (cp_releases publishing_plane !! REL_ID) as [r|] eqn:Hr; [|discriminate Hs].
  injection Hs as Happ Hst Hver.
  destruct (@resume_skips_publisher plain_crypto publishing_plane REL_ID r sample_user (sample_context "resume-release-0001" 108))
    as (r'&p'&Hrun&_&H1&H2&_); [| |exact Hr| |exact Hst|rewrite Hver; unfold u64_max; lia|by vm_compute| |].
  - apply (runs_inv TEAM_ID "M5 Labs" sample_owner sample_plane to_publishing sample_bootstrap). unfold u64_max. simpl. lia.
  - exact sample_user_may.
  - rewrite Happ. exact sample_owns_app.
  - rewrite Hver. by vm_compute.
  - exists r', p'. rewrite Hver in Hrun. split; [exact Hrun|]. split; [exact H1|exact H2].
Defined.

(** One reviewer is enough.  The documents require a second, different
    reviewer before an approval; in the core the reviewer who takes a submission
    into review can approve it at once, alone. *)
Theorem one_reviewer_approves `{Crypto} p id s a c1 c2 :
  cp_submissions p !! id = Some s → sub_state s = ReadyForReview → (0 ≤ sub_resource_version s < u64_max)%Z →
  valid_service a Reviewer = true → validate_context c1 = Ok tt → validate_context c2 = Ok tt →
  let q1 := ReqBegin a c1 id (sub_resource_version s) in
  let q2 := ReqDecide a c2 id (sub_resource_version s + 1) Approved in
  cp_idempotency p !! request_key q1 = None → cp_idempotency p !! request_key q2 = None → request_key q1 ≠ request_key q2 →
  ∃ s', cp_submissions (runs [q1; q2] p) !! id = Some s' ∧ sub_state s' = Approved ∧ spec_of s' = spec_of s.
Proof.
  intros Hs Hst Hver Ha Hv1 Hv2 q1 q2 Hi1 Hi2 Hne. cbn [runs].
  rewrite (effect_run p q1 _ _ Hv1 Hi1 (effect_move p q1 id _ InReview _ _ s (move_begin p a c1 id _ Ha) Hs eq_refl ltac:(by rewrite Hst))).
  cbn [snd]. set (p1 := booked _ _ _ _ _ _ _ _ _ _).
  assert (cp_submissions p1 !! id = Some (advance_submission InReview s)) as Hs1 by apply lookup_insert_eq.
  assert (cp_idempotency p1 !! request_key q2 = None) as Hi2'
    by (etrans; [by apply lookup_insert_ne|done]).
  assert (sub_resource_version (advance_submission InReview s) = sub_resource_version s + 1)%Z as Hver1.
  { simpl. unfold wrapping_add_u64, u64_max in *. rewrite Z.mod_small; lia. }
  rewrite (effect_run p1 q2 _ _ Hv2 Hi2' (effect_move p1 q2 id _ Approved _ _ _ (move_decide p1 a c2 id _ Approved Ha ltac:(set_solver)) Hs1 Hver1 eq_refl)).
  simpl. rewrite lookup_insert_eq. by eexists.
Qed.

Definition reviewable_plane : ControlPlane := @runs plain_crypto to_review sample_plane.

Lemma one_reviewer_approves_witness :
  ∃ s', cp_submissions (@runs plain_crypto
      [ReqBegin sample_reviewer (sample_context "begin-review-0001" 104) SUB_ID 3;
       ReqDecide sample_reviewer (sample_context "decide-review-0001" 105) SUB_ID (3 + 1) Approved] reviewable_plane) !! SUB_ID = Some s' ∧
    sub_state s' = Approved.
Proof.
  assert ((λ s, (sub_state s, sub_resource_version s)) <$> cp_submissions reviewable_plane !! SUB_ID
    = Some (ReadyForReview, 3%Z)) as Hs by (by vm_compute).
  destruct (cp_submissions reviewable_plane !! SUB_ID) as [s|] eqn:Hsub; [|discriminate Hs].
  injection Hs as Hst Hver.
  destruct (@one_reviewer_approves plain_crypto reviewable_plane SUB_ID s sample_reviewer
    (sample_context "begin-review-0001" 104) (sample_context "decide-review-0001" 105))
    as (s'&Hs'&Hst'&_); [exact Hsub|exact Hst|rewrite Hver; unfold u64_max; lia|by vm_compute..|discriminate|].
  exists s'. rewrite Hver in Hs'. split; [exact Hs'|exact Hst'].
Defined.
