(* ===== verification/NetworkProtocol.v ===== *)
(** * The network protocol (crates/cp0-network-protocol/src/lib.rs)

    The requests that the application service sends to the network service on
    behalf of an application, the responses, their checks, the Base64 coding of
    bodies and the framing (of [Framing]).  The coding loops are the ones of
    [StorageProtocol]: the source has the same functions in both crates. *)

From S2P Require Import Prelude RustStr Bytes HostFs Framing StorageProtocol.

Definition NETWORK_PROTOCOL_VERSION : Z := 1.
Definition MAX_NETWORK_FRAME_BYTES : nat := Z.to_nat (16 * 1024).
Definition MAX_NETWORK_URL_BYTES : nat := 1024.
Definition MAX_NETWORK_BODY_BYTES : nat := Z.to_nat (2 * 1024).
Definition MAX_NETWORK_RANGE_BYTES : nat := Z.to_nat (8 * 1024).
Definition MAX_NETWORK_RESOURCE_BYTES : Z := 256 * 1024 * 1024.
Definition MAX_NETWORK_ERROR_CHARS : nat := 160.

Inductive NetworkCommand :=
  | HttpGet (url : string)
  | HttpGetRange (url : string) (offset length : Z).

Record NetworkRequest := mkNetworkRequest {
  nr_protocol_version : Z;
  nr_request_id : Z;
  nr_command : NetworkCommand;
}.

Inductive NetworkErrorCode :=
  | NcInvalidRequest | NcUnauthorized | NcBlockedAddress | NcUnavailable | NcTimeout | NcTls | NcTooManyRedirects
  | NcResponseTooLarge | NcInternal.

Inductive NetworkOutcome :=
  | NoOk (status_code : Z) (body_base64 : string)
  | NoError (code : NetworkErrorCode) (message : string).

Record NetworkResponse := mkNetworkResponse {
  np_protocol_version : Z;
  np_request_id : Z;
  np_outcome : NetworkOutcome;
}.

Inductive NetworkProtocolError :=
  | NpIo (e : IoError) | NpJson | NpFrameTooLarge | NpUnterminatedFrame | NpUnsupportedVersion (version : Z)
  | NpInvalidUrl | NpInvalidRange | NpInvalidStatusCode | NpInvalidBodyEncoding | NpInvalidErrorMessage.

(** ** Checks *)

Definition is_valid_https_url (url : string) : bool :=
  starts_with "https://" url && (String.length url <=? MAX_NETWORK_URL_BYTES)%nat
  && (String.length "https://" <? String.length url)%nat && negb (has_control url).

Definition network_version_check (version : Z) : result NetworkProtocolError unit :=
  if (version =? NETWORK_PROTOCOL_VERSION)%Z then Ok tt else Err (NpUnsupportedVersion version).

Definition command_url (c : NetworkCommand) : string := match c with HttpGet url | HttpGetRange url _ _ => url end.

(** [length == 0 || length > MAX || offset.checked_add(length).is_none_or(..)]. *)
Definition range_bad (offset length : Z) : bool :=
  (length =? 0)%Z || (Z.of_nat MAX_NETWORK_RANGE_BYTES <? length)%Z
  || match checked_add_u64 offset length with Some e => (MAX_NETWORK_RESOURCE_BYTES <? e)%Z | None => true end.

Definition NetworkRequest_validate (r : NetworkRequest) : result NetworkProtocolError unit :=
  let? _ := network_version_check (nr_protocol_version r) in
  if negb (is_valid_https_url (command_url (nr_command r))) then Err NpInvalidUrl
  else
    match nr_command r with
    | HttpGetRange _ offset length => if range_bad offset length then Err NpInvalidRange else Ok tt
    | HttpGet _ => Ok tt
    end.

Definition network_decode_base64 (input : string) : result NetworkProtocolError (list ascii) :=
  let encoded := bytes input in
  let n := length encoded in
  if negb (n mod 4 =? 0)%nat || ((MAX_NETWORK_RANGE_BYTES + 2) / 3 * 4 <? n)%nat then Err NpInvalidBodyEncoding
  else
    let? output := ok_or (decode_chunks 0 (n / 4) encoded) NpInvalidBodyEncoding in
    if (MAX_NETWORK_RANGE_BYTES <? length output)%nat then Err NpInvalidBodyEncoding else Ok output.

Definition NetworkResponse_validate (r : NetworkResponse) : result NetworkProtocolError unit :=
  let? _ := network_version_check (np_protocol_version r) in
  match np_outcome r with
  | NoOk status_code body =>
      if negb ((100 <=? status_code)%Z && (status_code <=? 599)%Z) then Err NpInvalidStatusCode
      else let? _ := network_decode_base64 body in Ok tt
  | NoError _ message =>
      if str_is_empty message || (MAX_NETWORK_ERROR_CHARS <? chars_count message)%nat || has_control message
      then Err NpInvalidErrorMessage else Ok tt
  end.

(** ** Constructors and framing *)

Definition NetworkRequest_http_get (request_id : Z) (url : string) : NetworkRequest :=
  mkNetworkRequest NETWORK_PROTOCOL_VERSION request_id (HttpGet url).
Definition NetworkRequest_http_get_range (request_id : Z) (url : string) (offset length : Z) : NetworkRequest :=
  mkNetworkRequest NETWORK_PROTOCOL_VERSION request_id (HttpGetRange url offset length).
Definition NetworkResponse_success (request_id status_code : Z) (body : list ascii) : NetworkResponse :=
  mkNetworkResponse NETWORK_PROTOCOL_VERSION request_id (NoOk status_code (encode_base64 body)).
Definition NetworkResponse_error (request_id : Z) (code : NetworkErrorCode) (message : string) : NetworkResponse :=
  mkNetworkResponse NETWORK_PROTOCOL_VERSION request_id (NoError code message).

Global Instance network_frame_errors : FrameErrors NetworkProtocolError :=
  {| frame_io := NpIo; frame_json := NpJson; frame_too_large := NpFrameTooLarge;
     frame_unterminated := NpUnterminatedFrame |}.

Definition network_read_request (from_slice : list ascii → option NetworkRequest) (r : Reader) :=
  read_message MAX_NETWORK_FRAME_BYTES NetworkRequest_validate from_slice r.
Definition network_write_request (to_vec : NetworkRequest → option (list ascii)) (request : NetworkRequest) :=
  write_message MAX_NETWORK_FRAME_BYTES NetworkRequest_validate to_vec request.
Definition network_read_response (from_slice : list ascii → option NetworkResponse) (r : Reader) :=
  read_message MAX_NETWORK_FRAME_BYTES NetworkResponse_validate from_slice r.
Definition network_write_response (to_vec : NetworkResponse → option (list ascii)) (response : NetworkResponse) :=
  write_message MAX_NETWORK_FRAME_BYTES NetworkResponse_validate to_vec response.

(** ** Lemmas *)

(** Bodies of at most 8192 bytes, the empty one included, have exactly one
    encoding. *)
Lemma network_base64_bijection input body :
  network_decode_base64 input = Ok body ↔ input = encode_base64 body ∧ (length body ≤ MAX_NETWORK_RANGE_BYTES)%nat.
Proof.
  unfold network_decode_base64. split.
  - case_match eqn:Hc; [done|]. unbool_hyps.
    destruct (decode_chunks 0 _ _) as [out|] eqn:Hd; [|done]. simpl. case_match eqn:Ho; [done|]. intros [= <-].
    unbool_hyps. split; [|lia]. unfold encode_base64. erewrite encode_decode_chunks; [|idtac|exact Hd].
    + symmetry. apply String.string_of_list_ascii_of_string.
    + rewrite Nat.sub_0_r. by apply Nat.div_exact.
  - intros [-> Hlen]. unfold encode_base64, bytes. rewrite String.list_ascii_of_string_of_list_ascii, length_encode_chunks.
    pose proof (Nat.Div0.div_le_mono (length body + 2) (MAX_NETWORK_RANGE_BYTES + 2) 3 ltac:(lia)) as Hn.
    rewrite Nat.Div0.mod_mul, Nat.eqb_refl. cbn [negb orb].
    rewrite (proj2 (Nat.ltb_ge _ _)) by lia. rewrite Nat.div_mul by lia.
    rewrite decode_encode_chunks by lia. cbn [ok_or]. by rewrite (proj2 (Nat.ltb_ge _ _)) by lia.
Qed.

(** What a request that passed its check asks for. *)
Lemma network_validated r :
  NetworkRequest_validate r = Ok tt →
  is_valid_https_url (command_url (nr_command r)) = true ∧
  ∀ url offset length, nr_command r = HttpGetRange url offset length →
    (length ≠ 0 ∧ length ≤ Z.of_nat MAX_NETWORK_RANGE_BYTES ∧ offset + length ≤ MAX_NETWORK_RESOURCE_BYTES)%Z.
Proof.
  unfold NetworkRequest_validate, range_bad. destruct (network_version_check _) as [[]| |]; [|done..].
  destruct (is_valid_https_url _); [|done]. cbn [negb]. intros Hv. split; [done|]. intros url offset n Hc. rewrite Hc in Hv.
  case_match eqn:Hb; [done|]. unfold checked_add_u64 in Hb. unbool_hyps. repeat case_match; unbool_hyps; simplify_eq; lia.
Qed.
