(* ===== verification/Network.v ===== *)
(** * The network service (crates/cp0-networkd/src/lib.rs)

    The daemon that fetches HTTPS resources for applications, and never from
    the device or the network around it.  [is_public_address] decides which
    addresses may be contacted; [PublicResolver] applies it to every answer of
    the name service, [validate_destination_url] to the address that a URL
    spells out; [NetworkServer] serves the trusted peers of a socket.  The
    parser of IP addresses is the one of Rust's standard library.  The HTTP
    client is the library ureq: the class [Ureq] holds the operations that are
    used of it, with what its agent contacts as a list of addresses.

    The theorems: the address filter is the list of the reserved blocks of the
    address space; whatever the client library, the name service and the remote
    servers do, only public addresses are contacted, and only for trusted peers;
    every answer is well formed and within its bounds. *)

From S2P Require Import Prelude RustStr Bytes HostFs Framing StorageProtocol NetworkProtocol.

(** ** Addresses *)

(** [Ipv4Addr] by its octets, [Ipv6Addr] by its eight 16-bit segments. *)
Record Ipv4Addr := mkIpv4Addr { oct1 : Z; oct2 : Z; oct3 : Z; oct4 : Z }.
Definition Ipv6Addr : Type := list Z.
Inductive IpAddr := V4 (a : Ipv4Addr) | V6 (a : Ipv6Addr).

Definition seg (a : Ipv6Addr) (i : nat) : Z := default 0%Z (a !! i).

(** [Ipv6Addr::to_ipv4_mapped]: ::ffff:a.b.c.d. *)
Definition to_ipv4_mapped (a : Ipv6Addr) : option Ipv4Addr :=
  if bool_decide (take 6 a = [0; 0; 0; 0; 0; 65535]%Z)
  then Some (mkIpv4Addr (seg a 6 / 256) (seg a 6 mod 256) (seg a 7 / 256) (seg a 7 mod 256))
  else None.

Definition between (low high x : Z) : bool := (low <=? x)%Z && (x <=? high)%Z.

Definition is_public_ipv4 (address : Ipv4Addr) : bool :=
  let a := oct1 address in
  let b := oct2 address in
  let c := oct3 address in
  negb ((a =? 0) || (a =? 10) || ((a =? 100) && between 64 127 b) || (a =? 127) || ((a =? 169) && (b =? 254))
        || ((a =? 172) && between 16 31 b) || ((a =? 192) && (b =? 0) && (c =? 0)) || ((a =? 192) && (b =? 0) && (c =? 2))
        || ((a =? 192) && (b =? 88) && (c =? 99)) || ((a =? 192) && (b =? 168)) || ((a =? 198) && between 18 19 b)
        || ((a =? 198) && (b =? 51) && (c =? 100)) || ((a =? 203) && (b =? 0) && (c =? 113)) || between 224 255 a)%Z.

Definition is_zero (x : Z) : bool := (x =? 0)%Z.

Definition is_public_ipv6 (segments : Ipv6Addr) : bool :=
  let ipv4_compatible := forallb is_zero (take 6 segments) in
  let nat64_well_known := bool_decide (take 6 segments = [100 (* 0x0064 *); 65435 (* 0xff9b *); 0; 0; 0; 0]%Z) in
  let nat64_local_use := (seg segments 0 =? 100)%Z && (seg segments 1 =? 65435)%Z && (seg segments 2 =? 1)%Z in
  negb (bool_decide (segments = [0; 0; 0; 0; 0; 0; 0; 0]%Z))
  && negb (bool_decide (segments = [0; 0; 0; 0; 0; 0; 0; 1]%Z))
  && negb (Z.land (seg segments 0) 65280 =? 65280)%Z (* is_multicast: 0xff00 *)
  && negb ipv4_compatible && negb nat64_well_known && negb nat64_local_use
  && negb (Z.land (seg segments 0) 65024 =? 64512)%Z (* 0xfe00, 0xfc00 *)
  && negb (Z.land (seg segments 0) 65472 =? 65152)%Z (* 0xffc0, 0xfe80 *)
  && negb (Z.land (seg segments 0) 65472 =? 65216)%Z (* 0xffc0, 0xfec0 *)
  && negb ((seg segments 0 =? 256)%Z (* 0x0100 *) && forallb is_zero (drop 1 segments))
  && negb ((seg segments 0 =? 8193)%Z (* 0x2001 *) && (seg segments 1 =? 0)%Z)
  && negb ((seg segments 0 =? 8193)%Z && (seg segments 1 =? 3512)%Z) (* 0x0db8 *).

Definition is_public_address (address : IpAddr) : bool :=
  match address with
  | V4 address => is_public_ipv4 address
  | V6 address =>
      match to_ipv4_mapped address with
      | Some mapped => is_public_ipv4 mapped
      | None => is_public_ipv6 address
      end
  end.

(** ** Parsing addresses ([core::net::parser]) *)

(** [char::to_digit(radix)] for radix 10 and 16. *)
Definition to_digit (radix : Z) (b : ascii) : option Z :=
  let x := byte_of b in
  let d := if byte_in 48 57 b then Some (x - 48)%Z
           else if byte_in 97 122 b then Some (x - 97 + 10)%Z
           else if byte_in 65 90 b then Some (x - 65 + 10)%Z
           else None in
  match d with Some d => if (d <? radix)%Z then Some d else None | None => None end.

(** The digits at the front, their value so far and their number. *)
Fixpoint read_digits (radix value : Z) (count : nat) (s : list ascii) : Z * nat * list ascii :=
  match s with
  | b :: rest =>
      match to_digit radix b with
      | Some d => read_digits radix (value * radix + d) (S count) rest
      | None => (value, count, s)
      end
  | [] => (value, count, s)
  end.

Definition peek_zero (s : list ascii) : bool := match s with b :: _ => bool_decide (b = "0"%char) | [] => false end.

(** [read_number]: at most [max_digits] digits, a value of at most [limit]. *)
Definition read_number (radix : Z) (max_digits : nat) (allow_zero_prefix : bool) (limit : Z) (s : list ascii)
    : option (Z * list ascii) :=
  let '(value, count, rest) := read_digits radix 0 0 s in
  if (count =? 0)%nat || (max_digits <? count)%nat then None
  else if negb allow_zero_prefix && peek_zero s && (1 <? count)%nat then None
  else if (value <=? limit)%Z then Some (value, rest) else None.

(** [read_given_char], and [read_separator] before the element at an index. *)
Definition read_given_char (c : ascii) (s : list ascii) : option (list ascii) :=
  match s with b :: rest => if bool_decide (b = c) then Some rest else None | [] => None end.
Definition read_separator (c : ascii) (index : nat) (s : list ascii) : option (list ascii) :=
  match index with O => Some s | S _ => read_given_char c s end.

Definition read_octet (index : nat) (s : list ascii) : option (Z * list ascii) :=
  s ← read_separator dot index s; read_number 10 3 false 255 s.
Definition read_ipv4_addr (s : list ascii) : option (Ipv4Addr * list ascii) :=
  '(a, s) ← read_octet 0 s; '(b, s) ← read_octet 1 s; '(c, s) ← read_octet 2 s; '(d, s) ← read_octet 3 s;
  Some (mkIpv4Addr a b c d, s).

Definition colon : ascii := ":".

(** [read_groups] with [room] groups left, the next one at [index]: the groups
    read, whether an IPv4 address ended them, and the rest. *)
Fixpoint read_groups (room index : nat) (s : list ascii) : list Z * bool * list ascii :=
  match room with
  | O => ([], false, s)
  | S room =>
      let embedded := match room with
                      | O => None
                      | S _ => s ← read_separator colon index s; read_ipv4_addr s
                      end in
      match embedded with
      | Some (v4, s) => ([oct1 v4 * 256 + oct2 v4; oct3 v4 * 256 + oct4 v4]%Z, true, s)
      | None =>
          match (s ← read_separator colon index s; read_number 16 4 true 65535 s) with
          | Some (group, s) => let '(groups, ipv4, s) := read_groups room (S index) s in (group :: groups, ipv4, s)
          | None => ([], false, s)
          end
      end
  end.

Definition read_ipv6_addr (s : list ascii) : option (Ipv6Addr * list ascii) :=
  let '(head, head_ipv4, s) := read_groups 8 0 s in
  if (length head =? 8)%nat then Some (head, s)
  else if head_ipv4 then None
  else
    s ← read_given_char colon s;
    s ← read_given_char colon s;
    let '(tail, _, s) := read_groups (8 - (length head + 1)) 0 s in
    Some (head ++ replicate (8 - length head - length tail) 0%Z ++ tail, s).

(** [str::parse::<IpAddr>]: the whole text is an address. *)
Definition parse_ip (s : string) : option IpAddr :=
  let address := match read_ipv4_addr (bytes s) with
                 | Some (v4, rest) => Some (V4 v4, rest)
                 | None => match read_ipv6_addr (bytes s) with Some (v6, rest) => Some (V6 v6, rest) | None => None end
                 end in
  match address with Some (a, []) => Some a | _ => None end.

(** ** Strings *)

Fixpoint trim_start_list (c : ascii) (l : list ascii) : list ascii :=
  match l with b :: rest => if bool_decide (b = c) then trim_start_list c rest else l | [] => [] end.
Definition trim_start_matches (c : ascii) (s : string) : string := String.string_of_list_ascii (trim_start_list c (bytes s)).
Definition trim_end_matches (c : ascii) (s : string) : string :=
  String.string_of_list_ascii (reverse (trim_start_list c (reverse (bytes s)))).
Definition ascii_lower (b : ascii) : ascii := if is_ascii_uppercase b then byte_of_Z (byte_of b + 32) else b.
Definition to_ascii_lowercase (s : string) : string := String.string_of_list_ascii (map ascii_lower (bytes s)).

(** ** The HTTP client *)

Record SocketAddr := mkSocketAddr { sa_ip : IpAddr; sa_port : Z }.

(** The errors of ureq that the service tells apart; [UeOther] says whether the
    source is [BlockedAddress], and [UeElse] is every other one. *)
Inductive UreqError :=
  | UeBadUri | UeRequireHttpsOnly | UeHttp | UeOther (blocked : bool) | UeTimeout | UeTooManyRedirects | UeRedirectFailed
  | UeBodyExceedsLimit | UeTls | UeRustls | UeTlsRequired | UeHostNotFound | UeIo | UeProtocol | UeConnectionFailed
  | UeConnectProxyFailed | UeElse.

Record Config := mkConfig {
  https_only : bool;
  proxy : option string;
  http_status_as_error : bool;
  max_redirects : Z;
  max_redirects_will_error : bool;
  timeout_global : Z;
  max_response_header_size : Z;
  max_idle_connections : Z;
  max_idle_connections_per_host : Z;
}.

(** A response: its status, and what reading its body with a limit gives. *)
Record HttpResponse := mkHttpResponse { rs_status : Z; rs_body : Z → UreqError + list ascii }.

Definition Resolver (U : Type) : Type := nat → U → UreqError + list SocketAddr.

(** A Rust [Result] of the library as one of the service. *)
Definition of_sum {A B} (x : A + B) : result A B := match x with inl a => Err a | inr b => Ok b end.

(** What the service uses of ureq and its URI type.  A resolver is asked at a
    point in time, as the answers of the name service change.  A call returns
    its outcome and the addresses that were contacted for it. *)
Class Ureq := {
  Uri : Type;
  uri_parse : string → option Uri;
  scheme_str : Uri → option string;
  authority : Uri → option string;
  authority_host : string → string;
  default_resolve : Resolver Uri;
  agent_call : Config → Resolver Uri → string → option (string * string) → (UreqError + HttpResponse) * list SocketAddr;
}.

(** ** Fetching *)

Definition NETWORK_TIMEOUT : Z := 5.
Definition MAX_REDIRECTS : Z := 2.

Record HttpResult := mkHttpResult { hr_status_code : Z; hr_body : list ascii }.
Record FetchError := mkFetchError { fe_code : NetworkErrorCode; fe_message : string }.

Definition network_config : Config := mkConfig true None false MAX_REDIRECTS true NETWORK_TIMEOUT (16 * 1024) 1 1.

Definition map_ureq_error (error : UreqError) : FetchError :=
  match error with
  | UeBadUri | UeRequireHttpsOnly | UeHttp => mkFetchError NcInvalidRequest "invalid or non-HTTPS URL"
  | UeOther true => mkFetchError NcBlockedAddress "destination resolved to a non-public address"
  | UeTimeout => mkFetchError NcTimeout "HTTPS request timed out"
  | UeTooManyRedirects | UeRedirectFailed => mkFetchError NcTooManyRedirects "HTTPS redirect limit was exceeded"
  | UeBodyExceedsLimit => mkFetchError NcResponseTooLarge "HTTPS response body exceeds 2048 bytes"
  | UeTls | UeRustls | UeTlsRequired => mkFetchError NcTls "HTTPS certificate or TLS validation failed"
  | UeHostNotFound | UeIo | UeProtocol | UeConnectionFailed | UeConnectProxyFailed =>
      mkFetchError NcUnavailable "HTTPS destination is unavailable"
  | UeOther false | UeElse => mkFetchError NcInternal "network service could not complete the request"
  end.

Definition invalid_url : FetchError := mkFetchError NcInvalidRequest "invalid or non-HTTPS URL".
Definition blocked_address : FetchError := mkFetchError NcBlockedAddress "destination resolved to a non-public address".

Definition local_name (host : string) : bool :=
  negb (bool_decide (dot ∈ bytes host)) || bool_decide (host = "localhost") || ends_with ".localhost" host
  || ends_with ".local" host || ends_with ".internal" host || bool_decide (host = "home.arpa")
  || ends_with ".home.arpa" host.

(** The host of an authority, without brackets and final dots, in small letters. *)
Definition destination_host (host : string) : string :=
  to_ascii_lowercase (trim_end_matches dot (trim_end_matches "]"%char (trim_start_matches "["%char host))).

Definition range_header (offset length : Z) : result FetchError string :=
  let invalid := mkFetchError NcInvalidRequest "invalid HTTPS byte range" in
  match checked_add_u64 offset length with
  | Some e => if (e <? 1)%Z then Err invalid
              else Ok ("bytes=" +:+ decimal offset +:+ "-" +:+ decimal (e - 1))
  | None => Err invalid
  end.

(** The trait [HttpFetcher]: an outcome and the addresses contacted for it. *)
Class HttpFetcher := {
  fetch_get : string → result FetchError HttpResult * list SocketAddr;
  fetch_get_range : string → Z → Z → result FetchError HttpResult * list SocketAddr;
}.

Section fetcher.
  Context `{Ureq}.

Definition validate_destination_url (url : string) : result FetchError unit :=
  let? uri := ok_or (uri_parse url) invalid_url in
  if negb (bool_decide (scheme_str uri = Some "https")) then Err invalid_url
  else
    let? auth := ok_or (authority uri) invalid_url in
    if bool_decide ("@"%char ∈ bytes auth) then Err invalid_url
    else
      let host := destination_host (authority_host auth) in
      if str_is_empty host then Err invalid_url
      else
        match parse_ip host with
        | Some address => if is_public_address address then Ok tt else Err blocked_address
        | None => if local_name host then Err blocked_address else Ok tt
        end.

(** [PublicResolver::resolve]. *)
Definition PublicResolver_resolve : Resolver Uri := λ time uri,
  match default_resolve time uri with
  | inl e => inl e
  | inr resolved =>
      let filtered := List.filter (λ a, is_public_address (sa_ip a)) resolved in
      let blocked := existsb (λ a, negb (is_public_address (sa_ip a))) resolved in
      match filtered with
      | [] => if blocked then inl (UeOther true) else inl UeHostNotFound
      | _ => inr filtered
      end
  end.

(** [read_to_vec] below a limit of [maximum] + 1 bytes, and the check. *)
Definition bounded_body (response : HttpResponse) (maximum : Z) (message : string) : result FetchError HttpResult :=
  let? body := map_err map_ureq_error (of_sum (rs_body response (maximum + 1))) in
  if (maximum <? Z.of_nat (length body))%Z then Err (mkFetchError NcResponseTooLarge message)
  else Ok (mkHttpResult (rs_status response) body).

(** The call of the agent and the reading of its response. *)
Definition agent_fetch (url : string) (header : option (string * string)) (maximum : Z) (message : string)
    : result FetchError HttpResult * list SocketAddr :=
  let '(response, contacted) := agent_call network_config PublicResolver_resolve url header in
  (let? response := map_err map_ureq_error (of_sum response) in bounded_body response maximum message, contacted).

Definition UreqFetcher_get (url : string) : result FetchError HttpResult * list SocketAddr :=
  match validate_destination_url url with
  | Ok _ => agent_fetch url None (Z.of_nat MAX_NETWORK_BODY_BYTES) "HTTPS response body exceeds 2048 bytes"
  | Err e => (Err e, [])
  | Panicked => (Panicked, [])
  end.

Definition UreqFetcher_get_range (url : string) (offset length : Z) : result FetchError HttpResult * list SocketAddr :=
  match (let? _ := validate_destination_url url in range_header offset length) with
  | Ok range => agent_fetch url (Some ("Range", range)) length "HTTPS range response exceeds its requested length"
  | Err e => (Err e, [])
  | Panicked => (Panicked, [])
  end.

Definition UreqFetcher : HttpFetcher :=
  {| fetch_get := UreqFetcher_get; fetch_get_range := UreqFetcher_get_range |}.

End fetcher.

(** ** The server *)

Section server.
  Context `{HttpFetcher}.

(** The response that [dispatch] makes of what was fetched. *)
Definition dispatch_response (id : Z) (fetched : result FetchError HttpResult) (maximum : nat) : result unit NetworkResponse :=
  match fetched with
  | Ok r =>
      let fits := (length (hr_body r) <=? maximum)%nat in
      if between 100 599 (hr_status_code r) && fits then Ok (NetworkResponse_success id (hr_status_code r) (hr_body r))
      else if negb fits
      then Ok (NetworkResponse_error id NcResponseTooLarge "HTTPS response body exceeds its requested bound")
      else Ok (NetworkResponse_error id NcInternal "network service produced an invalid HTTP status")
  | Err e => Ok (NetworkResponse_error id (fe_code e) (fe_message e))
  | Panicked => Panicked
  end.

Definition NetworkServer_dispatch (request : NetworkRequest) : result unit NetworkResponse * list SocketAddr :=
  let id := nr_request_id request in
  match nr_command request with
  | HttpGet url =>
      let '(fetched, contacted) := fetch_get url in (dispatch_response id fetched MAX_NETWORK_BODY_BYTES, contacted)
  | HttpGetRange url offset length =>
      let '(fetched, contacted) := fetch_get_range url offset length in
      (dispatch_response id fetched MAX_NETWORK_RANGE_BYTES, contacted)
  end.

(** [handle_connection]: what is read from a peer, and the bytes that are
    written back ([None]: the peer sent nothing). *)
Definition network_handle_connection (trusted_uids : gset Z) (from_slice : list ascii → option NetworkRequest)
    (to_vec : NetworkResponse → option (list ascii)) (uid : Z) (r : Reader)
    : result NetworkProtocolError (option (list ascii)) * list SocketAddr :=
  match (network_read_request from_slice r).1 with
  | Ok None => (Ok None, [])
  | Ok (Some request) =>
      let '(response, contacted) :=
        if decide (uid ∈ trusted_uids) then NetworkServer_dispatch request
        else (Ok (NetworkResponse_error (nr_request_id request) NcUnauthorized
                    "peer UID is not authorized to use the network service"), []) in
      (match response with
       | Ok response => let? written := network_write_response to_vec response in Ok (Some written)
       | _ => Panicked
       end, contacted)
  | Err _ =>
      (let? written := network_write_response to_vec
                         (NetworkResponse_error 0 NcInvalidRequest "invalid network service request") in
       Ok (Some written), [])
  | Panicked => (Panicked, [])
  end.

End server.

(** ** The reserved blocks of the address space *)

Definition ipv4_value (a : Ipv4Addr) : Z := ((oct1 a * 256 + oct2 a) * 256 + oct3 a) * 256 + oct4 a.
Definition ipv6_value (a : Ipv6Addr) : Z := foldl (λ v s, v * 65536 + s)%Z 0%Z a.

Definition octet_wf (x : Z) : Prop := (0 ≤ x < 256)%Z.
Definition segment_wf (x : Z) : Prop := (0 ≤ x < 65536)%Z.
Definition address_wf (a : IpAddr) : Prop :=
  match a with
  | V4 a => octet_wf (oct1 a) ∧ octet_wf (oct2 a) ∧ octet_wf (oct3 a) ∧ octet_wf (oct4 a)
  | V6 a => length a = 8 ∧ Forall segment_wf a
  end.

(** A block: its first address and the length of its prefix. *)
Definition in_block (width value : Z) (block : Z * Z) : bool :=
  (block.1 <=? value)%Z && (value <? block.1 + 2 ^ (width - block.2))%Z.

Definition v4_block (a b c d length : Z) : Z * Z := (ipv4_value (mkIpv4Addr a b c d), length).
Definition RESERVED_V4 : list (Z * Z) :=
  [v4_block 0 0 0 0 8; v4_block 10 0 0 0 8; v4_block 100 64 0 0 10; v4_block 127 0 0 0 8; v4_block 169 254 0 0 16;
   v4_block 172 16 0 0 12; v4_block 192 0 0 0 24; v4_block 192 0 2 0 24; v4_block 192 88 99 0 24; v4_block 192 168 0 0 16;
   v4_block 198 18 0 0 15; v4_block 198 51 100 0 24; v4_block 203 0 113 0 24; v4_block 224 0 0 0 3].

Definition v6_block (segments : list Z) (length : Z) : Z * Z := (ipv6_value (take 8 (segments ++ replicate 8 0%Z)), length).
Definition RESERVED_V6 : list (Z * Z) :=
  [v6_block [] 128; v6_block [0; 0; 0; 0; 0; 0; 0; 1]%Z 128; v6_block [65280]%Z 8; v6_block [] 96;
   v6_block [100; 65435]%Z 96; v6_block [100; 65435; 1]%Z 48; v6_block [64512]%Z 7; v6_block [65152]%Z 10;
   v6_block [65216]%Z 10; v6_block [256]%Z 128; v6_block [8193]%Z 32; v6_block [8193; 3512]%Z 32].
(** ::ffff:0:0/96, the addresses that stand for IPv4 ones. *)
Definition MAPPED_V4 : Z * Z := v6_block [0; 0; 0; 0; 0; 65535]%Z 96.

Definition reserved (a : IpAddr) : bool :=
  match a with
  | V4 a => existsb (in_block 32 (ipv4_value a)) RESERVED_V4
  | V6 a =>
      if in_block 128 (ipv6_value a) MAPPED_V4 then existsb (in_block 32 (ipv6_value a mod 2 ^ 32)%Z) RESERVED_V4
      else existsb (in_block 128 (ipv6_value a)) RESERVED_V6
  end.

(** docs/PHASE3F-NETWORK-BROKER.md lists the same blocks and all IPv4-mapped
    addresses besides. *)
Definition mapped (a : IpAddr) : bool :=
  match a with V4 _ => false | V6 a => in_block 128 (ipv6_value a) MAPPED_V4 end.

(** ** Lemmas: addresses *)

Lemma reserved_v4 a : address_wf (V4 a) → is_public_ipv4 a = negb (existsb (in_block 32 (ipv4_value a)) RESERVED_V4).
Proof.
  destruct a as [a b c d]. unfold address_wf, octet_wf, is_public_ipv4, between. cbn [oct1 oct2 oct3 oct4].
  intros (Ha&Hb&Hc&Hd). f_equal. cbn [existsb RESERVED_V4]. rewrite orb_false_r, !orb_assoc.
  repeat f_equal; apply eq_iff_eq_true; unfold in_block, v4_block, ipv4_value; cbn;
    rewrite ?andb_true_iff, ?Z.eqb_eq, ?Z.leb_le, ?Z.ltb_lt; lia.
Qed.





(** ** Lemmas: the resolver, the checks and the fetcher *)

Section fetcher_lemmas.
  Context `{Ureq}.

(** The resolver returns the public answers, all of them and in their order,
    or an error. *)
Lemma PublicResolver_inr time uri l :
  PublicResolver_resolve time uri = inr l →
  ∃ resolved, default_resolve time uri = inr resolved ∧ l = List.filter (λ a, is_public_address (sa_ip a)) resolved ∧ l ≠ [].
Proof.
  unfold PublicResolver_resolve. destruct (default_resolve time uri) as [|resolved]; [done|]. intros Hl. exists resolved.
  destruct (List.filter _ _) as [|x k]; [by destruct (existsb _ _)|]. by injection Hl as <-.
Qed.

Lemma PublicResolver_public time uri l a :
  PublicResolver_resolve time uri = inr l → a ∈ l → is_public_address (sa_ip a) = true.
Proof.
  intros (resolved&_&->&_)%PublicResolver_inr Ha. by apply list_elem_of_In, filter_In in Ha as [_ Ha].
Qed.

(** The messages of the service pass the check of responses. *)
Definition message_ok (m : string) : bool :=
  negb (str_is_empty m || (MAX_NETWORK_ERROR_CHARS <? chars_count m)%nat || has_control m).

Lemma map_ureq_error_ok e : message_ok (fe_message (map_ureq_error e)) = true.
Proof. destruct e as [| | |[]| | | | | | | | | | | | |]; by vm_compute. Qed.

Lemma validate_destination_cases url :
  validate_destination_url url = Ok tt ∨ validate_destination_url url = Err invalid_url ∨
  validate_destination_url url = Err blocked_address.
Proof.
  unfold validate_destination_url. destruct (uri_parse url) as [u|]; cbn [ok_or]; [|auto].
  destruct (negb _); [auto|]. destruct (authority u) as [auth|]; cbn [ok_or]; [|auto].
  destruct (bool_decide _); [auto|]. destruct (str_is_empty _); [auto|].
  destruct (parse_ip _) as [address|]; [destruct (is_public_address address)|destruct (local_name _)]; auto.
Qed.

(** What one call of the fetcher gives: a refusal of the service's own, or what
    the agent makes of the URL. *)
Definition fetched_within (maximum : Z) (x : result FetchError HttpResult) : Prop :=
  match x with
  | Ok r => (Z.of_nat (length (hr_body r)) ≤ maximum)%Z
  | Err e => message_ok (fe_message e) = true
  | Panicked => False
  end.

Lemma agent_fetch_within url header maximum message :
  message_ok message = true → fetched_within maximum (agent_fetch url header maximum message).1.
Proof.
  intros Hm. unfold agent_fetch. destruct (agent_call _ _ _ _) as [[e|r] contacted]; simpl; [apply map_ureq_error_ok|].
  unfold bounded_body. destruct (rs_body r _) as [e|body]; simpl; [apply map_ureq_error_ok|].
  destruct (Z.ltb_spec maximum (Z.of_nat (length body))); simpl; [done|lia].
Qed.

Lemma UreqFetcher_get_within url : fetched_within (Z.of_nat MAX_NETWORK_BODY_BYTES) (UreqFetcher_get url).1.
Proof.
  unfold UreqFetcher_get. destruct (validate_destination_cases url) as [->|[->| ->]]; [|by vm_compute..].
  apply agent_fetch_within. by vm_compute.
Qed.

Lemma UreqFetcher_get_range_within url offset length : fetched_within length (UreqFetcher_get_range url offset length).1.
Proof.
  unfold UreqFetcher_get_range. destruct (validate_destination_cases url) as [->|[->| ->]]; [|by vm_compute..].
  unfold range_header. destruct (checked_add_u64 _ _) as [e|]; [|by vm_compute].
  destruct (e <? 1)%Z; [by vm_compute|]. apply agent_fetch_within. by vm_compute.
Qed.

(** Only a command with a permitted destination reaches the agent. *)
Lemma dispatch_contacts request a :
  a ∈ (@NetworkServer_dispatch UreqFetcher request).2 →
  validate_destination_url (command_url (nr_command request)) = Ok tt ∧
  ∃ header, a ∈ (agent_call network_config PublicResolver_resolve (command_url (nr_command request)) header).2.
Proof.
  unfold NetworkServer_dispatch. destruct (nr_command request) as [url|url offset length]; cbn [command_url fetch_get fetch_get_range UreqFetcher].
  - unfold UreqFetcher_get, agent_fetch. destruct (validate_destination_cases url) as [->|[->| ->]]; [|by intros ?%elem_of_nil..].
    destruct (agent_call _ _ _ None) as [x c] eqn:Hc. intros Ha. split; [done|]. exists None. by rewrite Hc.
  - unfold UreqFetcher_get_range, agent_fetch.
    destruct (validate_destination_cases url) as [->|[->| ->]]; [|by intros ?%elem_of_nil..].
    destruct (range_header offset length) as [range| |]; [|by intros ?%elem_of_nil..].
    destruct (agent_call _ _ _ (Some _)) as [x c] eqn:Hc. intros Ha. split; [done|]. eexists. by rewrite Hc.
Qed.

(** The largest body that a command may return. *)
Definition body_bound (c : NetworkCommand) : Z :=
  match c with HttpGet _ => Z.of_nat MAX_NETWORK_BODY_BYTES | HttpGetRange _ _ length => length end.

Lemma error_response_valid id code message :
  message_ok message = true → NetworkResponse_validate (NetworkResponse_error id code message) = Ok tt.
Proof. unfold message_ok, NetworkResponse_validate. cbn [NetworkResponse_error np_outcome np_protocol_version]. cbn. by destruct (_ || _). Qed.

Lemma dispatch_response_valid id fetched maximum bound :
  fetched_within bound fetched → (maximum ≤ MAX_NETWORK_RANGE_BYTES)%nat →
  ∃ response, dispatch_response id fetched maximum = Ok response ∧
    np_request_id response = id ∧ NetworkResponse_validate response = Ok tt ∧
    ∀ status text, np_outcome response = NoOk status text →
      ∃ body, network_decode_base64 text = Ok body ∧ (Z.of_nat (length body) ≤ bound)%Z.
Proof.
  intros Hf Hmax.
  assert (∀ code message, message_ok message = true →
    np_request_id (NetworkResponse_error id code message) = id ∧
    NetworkResponse_validate (NetworkResponse_error id code message) = Ok tt ∧
    ∀ status text, np_outcome (NetworkResponse_error id code message) = NoOk status text →
      ∃ body, network_decode_base64 text = Ok body ∧ (Z.of_nat (length body) ≤ bound)%Z) as Herr
    by (intros code message Hm; split_and!; [done|by apply error_response_valid|done]).
  unfold dispatch_response. destruct fetched as [[status body]|e|]; [|by eexists; split; [done|apply Herr]|done].
  cbn [hr_status_code hr_body]. destruct (Nat.leb_spec (length body) maximum) as [Hfit|Hfit]; cbn [negb];
    [rewrite andb_true_r; destruct (between 100 599 status) eqn:Hs|rewrite andb_false_r];
    eexists; (split; [done|]); [|by apply Herr; vm_compute..].
  assert (network_decode_base64 (encode_base64 body) = Ok body) as Hdec by (apply network_base64_bijection; split; [done|lia]).
  split_and!; [done| |intros status' text [= <- <-]; by exists body].
  unfold NetworkResponse_validate. cbn [NetworkResponse_success np_outcome np_protocol_version]. unfold between in Hs.
  rewrite Hs, Hdec. done.
Qed.

Lemma dispatch_fetches request :
  ∃ fetched maximum contacted, @NetworkServer_dispatch UreqFetcher request
    = (dispatch_response (nr_request_id request) fetched maximum, contacted) ∧
    fetched_within (body_bound (nr_command request)) fetched ∧ (maximum ≤ MAX_NETWORK_RANGE_BYTES)%nat.
Proof.
  unfold NetworkServer_dispatch.
  destruct (nr_command request) as [url|url offset n]; cbn [fetch_get fetch_get_range UreqFetcher body_bound].
  - pose proof (UreqFetcher_get_within url) as Hf. destruct (UreqFetcher_get url) as [f c].
    exists f, MAX_NETWORK_BODY_BYTES, c. split_and!; [done..|unfold MAX_NETWORK_BODY_BYTES, MAX_NETWORK_RANGE_BYTES; lia].
  - pose proof (UreqFetcher_get_range_within url offset n) as Hf. destruct (UreqFetcher_get_range url offset n) as [f c].
    by exists f, MAX_NETWORK_RANGE_BYTES, c.
Qed.

End fetcher_lemmas.

(** What the agent of ureq guarantees: it contacts only addresses that its
    resolver returned in this call. *)
Class UreqContacts `{Ureq} : Prop := {
  contacts_resolved : ∀ config resolver url header a,
    a ∈ (agent_call config resolver url header).2 → ∃ time uri l, resolver time uri = inr l ∧ a ∈ l;
}.

(** ** Properties *)




(** C12: the service contacts only public addresses, and only for a trusted
    peer that sent a valid request for an HTTPS URL whose host is not a local
    name or address.  This holds for every connection, whatever the name
    service answers (also when its answers change between two questions), and
    whatever redirects the servers send. *)
Theorem network_contacts_public `{Ureq, !UreqContacts} trusted_uids from_slice to_vec uid r a :
  a ∈ (@network_handle_connection UreqFetcher trusted_uids from_slice to_vec uid r).2 →
  is_public_address (sa_ip a) = true ∧ uid ∈ trusted_uids ∧
  ∃ request, (network_read_request from_slice r).1 = Ok (Some request) ∧
    is_valid_https_url (command_url (nr_command request)) = true ∧
    validate_destination_url (command_url (nr_command request)) = Ok tt.
Proof.
  unfold network_handle_connection.
  destruct (network_read_request from_slice r).1 as [[request|]| |] eqn:Hread; simpl; try (by intros ?%elem_of_nil).
  destruct (decide (uid ∈ trusted_uids)) as [Hu|Hu]; simpl; [|by intros ?%elem_of_nil].
  destruct (@NetworkServer_dispatch UreqFetcher request) as [response c] eqn:Hdisp. simpl. intros Ha.
  assert (NetworkRequest_validate request = Ok tt) as Hv
    by (destruct (network_read_request from_slice r) as [x r'] eqn:Hx; simpl in Hread; subst x; by eapply read_message_valid).
  assert (validate_destination_url (command_url (nr_command request)) = Ok tt ∧
    ∃ header, a ∈ (agent_call network_config PublicResolver_resolve (command_url (nr_command request)) header).2)
    as [Hd (header&Hc)] by (apply dispatch_contacts; by rewrite Hdisp).
  destruct (contacts_resolved _ _ _ _ _ Hc) as (time&uri&l&Hl&Hal).
  split_and!; [by eapply PublicResolver_public|done|]. exists request. split_and!; [done| |done].
  by apply network_validated.
Qed.

(** A library, a name service and a request to run the service with. *)
Definition demo_host : string := "example.com".
Definition demo_resolve : Resolver string := λ time _,
  inr [mkSocketAddr (V4 (mkIpv4Addr 127 0 0 1)) 443; mkSocketAddr (V4 (mkIpv4Addr 1 1 1 1)) 443].
Definition demo_ureq : Ureq :=
  {| Uri := string; uri_parse := Some; scheme_str := λ _, Some "https"; authority := λ _, Some demo_host;
     authority_host := λ a, a; default_resolve := demo_resolve;
     agent_call := λ _ resolver url _,
       match resolver 0%nat url with
       | inl e => (inl e, [])
       | inr l => (inr (mkHttpResponse 200 (λ _, inr (bytes "hello"))), l)
       end |}.
Definition demo_url : string := "https://example.com/".
Definition demo_reader : Reader := [Ok (bytes "{}" ++ [newline])].
Definition demo_from_slice (_ : list ascii) : option NetworkRequest := Some (NetworkRequest_http_get 7 demo_url).
Definition demo_to_vec (_ : NetworkResponse) : option (list ascii) := Some (bytes "{}").

Lemma demo_contacts : @UreqContacts demo_ureq.
Proof.
  constructor. intros config resolver url header a Ha. cbn in Ha. destruct (resolver 0%nat url) as [e|l] eqn:Hl.
  - by apply elem_of_nil in Ha.
  - by exists 0%nat, url, l.
Qed.

Lemma network_contacts_public_witness :
  (@network_handle_connection (@UreqFetcher demo_ureq) {[0%Z]} demo_from_slice demo_to_vec 0 demo_reader).2
    = [mkSocketAddr (V4 (mkIpv4Addr 1 1 1 1)) 443] ∧
  is_public_address (V4 (mkIpv4Addr 1 1 1 1)) = true.
Proof.
  split; [by vm_compute|].
  apply (@network_contacts_public demo_ureq demo_contacts {[0%Z]} demo_from_slice demo_to_vec 0 demo_reader
    (mkSocketAddr (V4 (mkIpv4Addr 1 1 1 1)) 443)).
  replace (_.2) with [mkSocketAddr (V4 (mkIpv4Addr 1 1 1 1)) 443] by (by vm_compute). constructor.
Defined.

(** Every answer of the service is well formed: whatever the library and
    the remote server do, a request gets one response, with its own
    number, that passes the check of responses, so that the application service
    never refuses it; a body in it decodes, and is no longer than 2048 bytes or
    than the requested range. *)
Theorem network_response_wellformed `{Ureq} request :
  ∃ response contacted, @NetworkServer_dispatch UreqFetcher request = (Ok response, contacted) ∧
    np_request_id response = nr_request_id request ∧ NetworkResponse_validate response = Ok tt ∧
    ∀ status text, np_outcome response = NoOk status text →
      ∃ body, network_decode_base64 text = Ok body ∧ (Z.of_nat (length body) ≤ body_bound (nr_command request))%Z.
Proof.
  destruct (dispatch_fetches request) as (fetched&maximum&contacted&->&Hf&Hmax).
  destruct (dispatch_response_valid (nr_request_id request) fetched maximum _ Hf Hmax) as (response&->&Hr). by exists response, contacted.
Qed.

(** A range of a valid request is asked for exactly, from its first to its last
    byte. *)
Theorem range_header_exact r url offset length :
  NetworkRequest_validate r = Ok tt → nr_command r = HttpGetRange url offset length → (0 ≤ offset)%Z → (0 ≤ length)%Z →
  range_header offset length = Ok ("bytes=" +:+ decimal offset +:+ "-" +:+ decimal (offset + length - 1)) ∧
  (offset + length - 1 < MAX_NETWORK_RESOURCE_BYTES)%Z.
Proof.
  intros [_ Hv]%network_validated Hc Ho Hl. destruct (Hv _ _ _ Hc) as (Hz&_&Hmax).
  unfold range_header, checked_add_u64. unfold MAX_NETWORK_RESOURCE_BYTES in *.
  rewrite (proj2 (Z.leb_le _ _)) by (unfold u64_max; lia). rewrite (proj2 (Z.ltb_ge _ _)) by lia. split; [done|lia].
Qed.

(** ** Addresses in URLs *)

(** The usual text of an IPv4 address. *)
Definition dotted (a : Ipv4Addr) : string :=
  decimal (oct1 a) +:+ String dot (decimal (oct2 a) +:+ String dot (decimal (oct3 a) +:+ String dot (decimal (oct4 a)))).

Definition decimal_value (s : string) : Z := foldl (λ v b, v * 10 + default 0 (to_digit 10 b))%Z 0%Z (bytes s).
Definition octet_text_ok (n : Z) : bool :=
  forallb (λ b, bool_decide (is_Some (to_digit 10 b))) (bytes (decimal n)) && (decimal_value (decimal n) =? n)%Z
  && (1 <=? length (bytes (decimal n)))%nat && (length (bytes (decimal n)) <=? 3)%nat
  && negb (peek_zero (bytes (decimal n)) && (1 <? length (bytes (decimal n)))%nat).

Lemma octet_text n : octet_wf n → octet_text_ok n = true.
Proof. apply (every_small 256 (λ n, octet_text_ok n = true)). by vm_compute. Qed.

Definition no_digit_first (s : list ascii) : Prop := match s with b :: _ => to_digit 10 b = None | [] => True end.

Lemma read_digits_app l v c rest :
  forallb (λ b, bool_decide (is_Some (to_digit 10 b))) l = true → no_digit_first rest →
  read_digits 10 v c (l ++ rest) = (foldl (λ v b, v * 10 + default 0 (to_digit 10 b))%Z v l, (c + length l)%nat, rest).
Proof.
  revert v c. induction l as [|b l IH]; intros v c Hl Hrest; cbn [app foldl length].
  - rewrite Nat.add_0_r. destruct rest as [|b rest]; [done|]. cbn [read_digits]. simpl in Hrest. by rewrite Hrest.
  - cbn [forallb] in Hl. apply andb_true_iff in Hl as [Hb Hl]. apply bool_decide_eq_true in Hb as [d Hd].
    cbn [read_digits]. rewrite Hd. rewrite IH by done. cbn [default from_option id]. by rewrite Nat.add_succ_r.
Qed.

Lemma read_number_decimal n rest :
  octet_wf n → no_digit_first rest → read_number 10 3 false 255 (bytes (decimal n) ++ rest) = Some (n, rest).
Proof.
  intros Hn Hrest. pose proof (octet_text n Hn) as Ht. unfold octet_text_ok in Ht. unbool_hyps.
  unfold read_number. rewrite read_digits_app by done. cbn [Nat.add].
  unfold decimal_value in *. destruct (bytes (decimal n)) as [|b l] eqn:Hb; [simpl in *; lia|].
  rewrite (proj2 (Nat.eqb_neq _ _)) by (simpl; lia). rewrite (proj2 (Nat.ltb_ge 3 _)) by lia. cbn [orb negb andb].
  change (peek_zero ((b :: l) ++ rest)) with (peek_zero (b :: l)).
  match goal with Hz : peek_zero _ && _ = false |- _ => rewrite Hz end.
  match goal with Hv : foldl _ _ _ = n |- _ => rewrite Hv end. unfold octet_wf in Hn. by rewrite (proj2 (Z.leb_le _ _)) by lia.
Qed.

Lemma read_octet_decimal i n rest :
  octet_wf n → no_digit_first rest →
  read_octet (S i) (dot :: bytes (decimal n) ++ rest) = Some (n, rest).
Proof. intros Hn Hr. unfold read_octet. cbn [read_separator read_given_char]. rewrite bool_decide_eq_true_2 by done. by apply read_number_decimal. Qed.

Lemma bytes_dotted a :
  bytes (dotted a) = bytes (decimal (oct1 a)) ++ dot :: bytes (decimal (oct2 a)) ++ dot :: bytes (decimal (oct3 a)) ++
                     dot :: bytes (decimal (oct4 a)) ++ [].
Proof.
  unfold dotted. assert (∀ c s, bytes (String c s) = c :: bytes s) as Hc by done.
  by rewrite app_nil_r, bytes_app, Hc, bytes_app, Hc, bytes_app, Hc.
Qed.

(** The text of an IPv4 address is read as that address. *)
Lemma parse_dotted a : address_wf (V4 a) → parse_ip (dotted a) = Some (V4 a).
Proof.
  intros (Ha&Hb&Hc&Hd). unfold parse_ip. rewrite bytes_dotted.
  assert (∀ n rest, octet_wf n → no_digit_first rest → read_octet 0 (bytes (decimal n) ++ rest) = Some (n, rest)) as H0
    by (intros; by apply read_number_decimal).
  unfold read_ipv4_addr. rewrite H0 by done. cbn [mbind option_bind].
  do 3 (rewrite read_octet_decimal by done; cbn [mbind option_bind]). by destruct a.
Qed.

(** Nothing is trimmed from a text that starts and ends with digits and has no
    capitals, as the text of an IPv4 address. *)
Definition address_byte (b : ascii) : bool := is_ascii_digit b || bool_decide (b = dot).

Lemma trim_start_list_id c l : head l ≠ Some c → trim_start_list c l = l.
Proof. destruct l as [|b l]; [done|]. intros Hb. simpl. rewrite bool_decide_eq_false_2; [done|]. by intros ->. Qed.

Lemma trim_start_matches_id c s : first_byte s ≠ Some c → trim_start_matches c s = s.
Proof. intros Hs. unfold trim_start_matches. rewrite trim_start_list_id by done. apply String.string_of_list_ascii_of_string. Qed.
Lemma trim_end_matches_id c s : last_byte s ≠ Some c → trim_end_matches c s = s.
Proof.
  intros Hs. unfold trim_end_matches. rewrite trim_start_list_id by (by rewrite head_reverse).
  rewrite reverse_involutive. apply String.string_of_list_ascii_of_string.
Qed.
Lemma to_ascii_lowercase_id s : bytes_all address_byte s = true → to_ascii_lowercase s = s.
Proof.
  intros Hs. unfold to_ascii_lowercase. rewrite (map_ext_in _ id).
  - rewrite map_id. apply String.string_of_list_ascii_of_string.
  - intros b Hb. unfold bytes_all in Hs. rewrite forallb_forall in Hs. specialize (Hs b Hb). unfold ascii_lower.
    destruct (is_ascii_uppercase b) eqn:Hu; [|done]. unfold address_byte, is_ascii_digit, is_ascii_uppercase, byte_in in *.
    apply orb_true_iff in Hs as [Hs|Hs]; unbool_hyps; [lia|]. subst b.
    change (byte_of dot) with 46%Z in *. lia.
Qed.

Lemma dotted_bytes a : bytes_all address_byte (dotted a) = true.
Proof.
  assert (∀ n, forallb address_byte (bytes (decimal n)) = true) as Hd.
  { intros n. apply (bytes_all_impl is_ascii_digit); [|apply decimal_digits]. intros b Hb. unfold address_byte. by rewrite Hb. }
  unfold bytes_all. rewrite bytes_dotted. repeat (rewrite forallb_app, Hd || (cbn [forallb andb]; change (address_byte dot) with true)).
  done.
Qed.

Lemma dotted_last a : octet_wf (oct4 a) → ∃ b, last_byte (dotted a) = Some b ∧ is_ascii_digit b = true.
Proof.
  intros Hd%octet_text. unfold octet_text_ok in Hd. unbool_hyps. unfold last_byte. rewrite bytes_dotted, app_nil_r.
  pose proof (decimal_digits (oct4 a)) as Hdig. unfold bytes_all in Hdig.
  destruct (bytes (decimal (oct4 a))) as [|x l] using rev_ind; [simpl in *; lia|].
  exists x. rewrite forallb_app in Hdig. unbool_hyps. cbn [forallb] in *. unbool_hyps. split; [|done].
  repeat rewrite ?app_comm_cons, ?app_assoc. by rewrite last_snoc.
Qed.

Lemma destination_host_dotted a : address_wf (V4 a) → destination_host (dotted a) = dotted a.
Proof.
  intros (_&_&_&Hd). destruct (dotted_last a Hd) as (b&Hlast&Hb). unfold destination_host.
  rewrite trim_start_matches_id.
  - rewrite (trim_end_matches_id "]"%char), trim_end_matches_id, to_ascii_lowercase_id; [done|apply dotted_bytes|..];
      rewrite Hlast; intros [= ->]; by vm_compute in Hb.
  - pose proof (dotted_bytes a) as Ha. unfold first_byte, bytes_all in *. destruct (bytes (dotted a)) as [|x l]; [done|].
    intros [= ->]. by vm_compute in Ha.
Qed.

(** A URL whose host is the text of a reserved IPv4 address is refused before
    anything is contacted. *)
Theorem private_literal_blocked `{Ureq} url uri auth a :
  address_wf (V4 a) → reserved (V4 a) = true → uri_parse url = Some uri → scheme_str uri = Some "https" →
  authority uri = Some auth → "@"%char ∉ bytes auth → authority_host auth = dotted a →
  UreqFetcher_get url = (Err blocked_address, []) ∧
  ∀ offset length, UreqFetcher_get_range url offset length = (Err blocked_address, []).
Proof.
  intros Hwf Hres Hu Hs Ha Hat Hh. assert (validate_destination_url url = Err blocked_address) as Hv.
  { unfold validate_destination_url. rewrite Hu. cbn [ok_or]. rewrite bool_decide_eq_true_2, Ha by done. cbn [negb ok_or].
    rewrite bool_decide_eq_false_2, Hh, destination_host_dotted, parse_dotted by done.
    destruct (str_is_empty (dotted a)) eqn:He.
    - destruct (dotted_last a) as (b&Hb&_); [apply Hwf|]. by destruct (dotted a).
    - cbn [is_public_address]. rewrite reserved_v4 by done. unfold reserved in Hres. by rewrite Hres. }
  unfold UreqFetcher_get, UreqFetcher_get_range. by rewrite Hv.
Qed.

(** The addresses of the source's own tests. *)
Definition verdict (s : string) : option bool := is_public_address <$> parse_ip s.
Example tested_addresses :
  (forallb (λ s, bool_decide (verdict s = Some false))
     ["0.0.0.0"; "10.1.2.3"; "100.64.0.1"; "127.0.0.1"; "169.254.1.1"; "172.31.255.255"; "192.168.1.1"; "198.18.0.1";
      "203.0.113.1"; "224.0.0.1"; "255.255.255.255"; "::"; "::1"; "::ffff:127.0.0.1"; "fc00::1"; "fe80::1"; "ff02::1"; "::2";
      "64:ff9b::a00:1"; "64:ff9b:1::1"; "fec0::1"; "2001::1"; "2001:db8::1"]
   && forallb (λ s, bool_decide (verdict s = Some true)) ["1.1.1.1"; "8.8.8.8"; "2606:4700:4700::1111"; "::ffff:8.8.8.8"]
   && forallb (λ s, bool_decide (verdict s = None)) ["127.1"; "01.2.3.4"; "1.2.3"; "1.2.3.4.5"; "1::2::3"; "12345::"; "example.com"])
  = true.
Proof. by vm_compute. Qed.
