(* ===== verification/StorageClient.v ===== *)
(** * The client of the private storage service (crates/cp0-appd/src/storage_client.rs)

    How the application service talks to the storage daemon: one request per
    connection, a response that must carry the number of the request and an
    outcome of the right kind.  The daemon is a parameter: what it answers to
    the bytes of a request, from and to a state of its own.  Opening a blob as a
    file descriptor is not modelled. *)

From S2P Require Import Prelude RustStr Bytes HostFs Framing StorageProtocol.

(** ** State and errors *)

Definition SM (S E A : Type) : Type := S → result E A * S.
Definition sm_ret {S E A} (a : A) : SM S E A := λ s, (Ok a, s).
Definition sm_err {S E A} (e : E) : SM S E A := λ s, (Err e, s).
Definition sm_lift {S E A} (r : result E A) : SM S E A := λ s, (r, s).
Definition sm_bind {S E A B} (m : SM S E A) (k : A → SM S E B) : SM S E B := λ s,
  let '(r, s) := m s in match r with Ok a => k a s | Err e => (Err e, s) | Panicked => (Panicked, s) end.
Definition sm_map_err {S E F A} (f : E → F) (m : SM S E A) : SM S F A := λ s, let '(r, s) := m s in (map_err f r, s).
(** Run [m] and look at its outcome. *)
Definition sm_try {S E F A B} (m : SM S E A) (k : result E A → SM S F B) : SM S F B := λ s, let '(r, s) := m s in k r s.

Notation "'let+' x ':=' m 'in' k" := (sm_bind m (λ x, k))
  (at level 200, x pattern, m at level 200, k at level 200, right associativity).

Inductive StorageClientError :=
  | CeIo (e : IoError) | CeProtocol (e : StorageProtocolError) | CeEmptyResponse | CeMismatchedRequestId
  | CeMismatchedOutcome | CeMissingDescriptor | CeUnexpectedDescriptor | CeInvalidDescriptor
  | CeService (code : StorageErrorCode).

(** ** One exchange *)

Section wire.
  Context {S : Type} (daemon : list ascii → SM S IoError Reader).
  Context (to_vec : StorageRequest → option (list ascii)) (from_slice : list ascii → option StorageResponse).

Definition StorageClient_exchange (request : StorageRequest) : SM S StorageClientError StorageOutcome :=
  let+ written := sm_lift (map_err CeProtocol (storage_write_request to_vec request)) in
  let+ reader := sm_map_err CeIo (daemon written) in
  let+ read := sm_lift (map_err CeProtocol (storage_read_response from_slice reader).1) in
  let+ response := sm_lift (ok_or read CeEmptyResponse) in
  if negb (sp_request_id response =? sr_request_id request)%Z then sm_err CeMismatchedRequestId
  else sm_ret (sp_outcome response).

End wire.

(** ** Calls *)

Section client.
  Context {S : Type} (exchange : StorageRequest → SM S StorageClientError StorageOutcome).

Definition StorageClient_put (id : Z) (app : string) (quota : Z) (key : string) (value : list ascii)
    : SM S StorageClientError Z :=
  let+ outcome := exchange (StorageRequest_put id app quota key value) in
  match outcome with
  | SoStored used => sm_ret used
  | SoError code _ => sm_err (CeService code)
  | _ => sm_err CeMismatchedOutcome
  end.

Definition value_of_outcome (outcome : StorageOutcome) : SM S StorageClientError (option (list ascii)) :=
  match outcome with
  | SoValue value64 => let+ value := sm_lift (map_err CeProtocol (decode_value value64)) in sm_ret (Some value)
  | SoNotFound => sm_ret None
  | SoError code _ => sm_err (CeService code)
  | _ => sm_err CeMismatchedOutcome
  end.

Definition StorageClient_get (id : Z) (app : string) (quota : Z) (key : string)
    : SM S StorageClientError (option (list ascii)) :=
  let+ outcome := exchange (storage_request id app quota (ScGet key)) in value_of_outcome outcome.

Definition deleted_of_outcome (outcome : StorageOutcome) : SM S StorageClientError bool :=
  match outcome with
  | SoDeleted existed _ => sm_ret existed
  | SoError code _ => sm_err (CeService code)
  | _ => sm_err CeMismatchedOutcome
  end.

Definition StorageClient_delete (id : Z) (app : string) (quota : Z) (key : string) : SM S StorageClientError bool :=
  let+ outcome := exchange (storage_request id app quota (ScDelete key)) in deleted_of_outcome outcome.

Definition StorageClient_usage (id : Z) (app : string) (quota : Z) : SM S StorageClientError Z :=
  let+ outcome := exchange (storage_request id app quota ScUsage) in
  match outcome with
  | SoUsage used => sm_ret used
  | SoError code _ => sm_err (CeService code)
  | _ => sm_err CeMismatchedOutcome
  end.

Definition StorageClient_put_blob_chunk (id : Z) (app : string) (quota : Z) (key : string) (offset total_bytes : Z)
    (value : list ascii) : SM S StorageClientError Z :=
  let+ outcome := exchange (StorageRequest_put_blob_chunk id app quota key offset total_bytes value) in
  match outcome with
  | SoStored used => sm_ret used
  | SoError code _ => sm_err (CeService code)
  | _ => sm_err CeMismatchedOutcome
  end.

Definition StorageClient_get_blob_chunk (id : Z) (app : string) (quota : Z) (key : string) (offset length : Z)
    : SM S StorageClientError (option (list ascii)) :=
  let+ outcome := exchange (storage_request id app quota (ScGetBlobChunk key offset length)) in value_of_outcome outcome.

Definition StorageClient_delete_blob (id : Z) (app : string) (quota : Z) (key : string) : SM S StorageClientError bool :=
  let+ outcome := exchange (storage_request id app quota (ScDeleteBlob key)) in deleted_of_outcome outcome.

End client.

(** A successful sequence of two steps. *)
Lemma sm_bind_Ok {S E A B} (m : SM S E A) (k : A → SM S E B) b s s' :
  sm_bind m k s = (Ok b, s') → ∃ a s1, m s = (Ok a, s1) ∧ k a s1 = (Ok b, s').
Proof. unfold sm_bind. destruct (m s) as [[a|e|] s1]; [eauto|done..]. Qed.
