(* ===== verification/PhotoLibrary.v ===== *)
(** * The photo library (crates/cp0-appd/src/photo_library.rs)

    The photos that all applications share, kept in the private storage of the
    system: a head record, an index of pages of 256 photo numbers, and for every
    photo its picture, and for camera photos the original with a metadata
    record.  The operations are written over the trait [PhotoStorage]; the class
    of that name has its operations on a state, and [PhotoStorageLaws] what the
    library relies on, which the storage service provides
    ([PhotoLibraryProps]).  Reading a photo through a file descriptor
    ([read_photo_export]) is not modelled. *)

From S2P Require Import Prelude RustStr Bytes Manifest HostFs Checkpoint Package StorageProtocol StorageClient.

Definition PHOTO_LIBRARY_ID : string := SYSTEM_PHOTO_LIBRARY_ID.
Definition PHOTO_LIBRARY_QUOTA_BYTES : Z := SYSTEM_PHOTO_LIBRARY_QUOTA_BYTES.
Definition PHOTO_LIBRARY_HEAD_KEY : string := "head.v2".
Definition PHOTO_LIBRARY_LEGACY_INDEX_KEY : string := "index.v1".
Definition PHOTO_WIDTH : nat := 320.
Definition PHOTO_HEIGHT : nat := 170.
Definition PHOTO_FRAME_BYTES : nat := PHOTO_WIDTH * PHOTO_HEIGHT * 2.
Definition HEAD_BYTES : nat := 32.
Definition HEAD_MAGIC : list ascii := bytes "CP0H".
Definition INDEX_PAGE_PHOTOS : nat := 256.
Definition PAGE_HEADER_BYTES : nat := 16.
Definition PAGE_BYTES : nat := PAGE_HEADER_BYTES + INDEX_PAGE_PHOTOS * 8.
Definition PAGE_MAGIC : list ascii := bytes "CP0G".
Definition LEGACY_MAX_PHOTOS : nat := 32.
Definition LEGACY_HEADER_BYTES : nat := 8.
Definition LEGACY_MAGIC : list ascii := bytes "CP0P".
Definition CHUNK_BYTES : nat := MAX_STORAGE_VALUE_BYTES.
Definition CHUNK_COUNT : nat := (PHOTO_FRAME_BYTES + CHUNK_BYTES - 1) / CHUNK_BYTES.
Definition MAX_PHOTO_ID : Z := 2 ^ 63 - 1.
Definition PHOTO_METADATA_BYTES : nat := 56.
Definition PHOTO_METADATA_MAGIC : list ascii := bytes "CP0M".
Definition PHOTO_METADATA_VERSION : Z := 1.
Definition PHOTO_KIND_CAMERA : Z := 1.
Definition CAMERA_PHOTO_WIDTH : Z := 1280.
Definition CAMERA_PHOTO_HEIGHT : Z := 720.
Definition MAX_CAMERA_JPEG_BYTES : nat := Z.to_nat (4 * 1024 * 1024).

Record CameraOriginal := mkCameraOriginal {
  co_width : Z;
  co_height : Z;
  co_jpeg_size_bytes : Z;
  co_captured_milliseconds : Z;
  co_sha256 : list ascii;
}.

Inductive PhotoImportError := PiInvalidFrame | PiInvalidIndex | PiResourceExhausted | PiStorage (e : StorageClientError).

Inductive PhotoExportKind := CameraJpeg | ScreenshotRgb565.
Record PhotoExport := mkPhotoExport {
  px_id : Z;
  px_kind : PhotoExportKind;
  px_width : Z;
  px_height : Z;
  px_size_bytes : Z;
  px_captured_milliseconds : option Z;
  px_sha256 : option (list ascii);
}.

Record Head := mkHead { head_active_count : Z; head_slot_count : Z; head_last_id : Z }.
Record IndexPage := mkIndexPage { page_active_count : Z; page_ids : list Z }.
Definition IndexPage_empty : IndexPage := mkIndexPage 0 (replicate INDEX_PAGE_PHOTOS 0%Z).
(** [ids[..count]] of the source's [LegacyIndex]. *)
Record LegacyIndex := mkLegacyIndex { legacy_ids : list Z }.

(** ** Keys *)

Definition page_key (page_number : Z) : string := "index.v2." +:+ lower_hex (be_bytes 4 page_number).
Definition photo_prefix (id : Z) : string := "p" +:+ lower_hex (be_bytes 8 id).
Definition blob_key (id : Z) : string := photo_prefix id +:+ ".rgb565".
Definition photo_blob_key (id : Z) : string := blob_key id.
Definition original_blob_key (id : Z) : string := photo_prefix id +:+ ".jpg".
Definition metadata_key (id : Z) : string := photo_prefix id +:+ ".meta".
Definition two_digits (n : nat) : string := if (n <? 10)%nat then "0" +:+ decimal (Z.of_nat n) else decimal (Z.of_nat n).
Definition legacy_chunk_key (id : Z) (chunk : nat) : string := photo_prefix id +:+ ".c" +:+ two_digits chunk.

(** ** Records *)

(** [u64::from_le_bytes(encoded[start..start + n])]. *)
Definition le_at (start n : nat) (encoded : list ascii) : Z := le_value (take n (drop start encoded)).

Definition encode_head (h : Head) : list ascii :=
  HEAD_MAGIC ++ [byte_of_Z 2; zero; zero; zero] ++ le_bytes 8 (head_active_count h) ++ le_bytes 8 (head_slot_count h)
  ++ le_bytes 8 (head_last_id h).

Definition decode_head (encoded : list ascii) : result PhotoImportError Head :=
  if negb (length encoded =? HEAD_BYTES)%nat || negb (bool_decide (take 4 encoded = HEAD_MAGIC))
     || negb (le_at 4 1 encoded =? 2)%Z || negb (le_at 5 3 encoded =? 0)%Z
  then Err PiInvalidIndex
  else
    let head := mkHead (le_at 8 8 encoded) (le_at 16 8 encoded) (le_at 24 8 encoded) in
    if (head_slot_count head <? head_active_count head)%Z
       || negb (Bool.eqb (head_slot_count head =? 0)%Z (head_last_id head =? 0)%Z)
       || (negb (head_active_count head =? 0)%Z && (head_last_id head =? 0)%Z)
    then Err PiInvalidIndex
    else Ok head.

Definition encode_page (page_number : Z) (page : IndexPage) : list ascii :=
  PAGE_MAGIC ++ [byte_of_Z 2; zero] ++ le_bytes 2 (page_active_count page) ++ le_bytes 4 page_number
  ++ [zero; zero; zero; zero] ++ concat (map (le_bytes 8) (page_ids page)).

(** The loop over the numbers of a page: the numbers, and how many are in use;
    those in use ascend. *)
Fixpoint decode_ids (n : nat) (previous : Z) (encoded : list ascii) : result PhotoImportError (list Z * Z) :=
  match n with
  | O => Ok ([], 0%Z)
  | S n =>
      let id := le_value (take 8 encoded) in
      if negb (id =? 0)%Z && (id <=? previous)%Z then Err PiInvalidIndex
      else
        let? rest := decode_ids n (if (id =? 0)%Z then previous else id) (drop 8 encoded) in
        Ok (id :: rest.1, (rest.2 + if (id =? 0)%Z then 0 else 1)%Z)
  end.

Definition decode_page (page_number : Z) (encoded : list ascii) : result PhotoImportError IndexPage :=
  if negb (length encoded =? PAGE_BYTES)%nat || negb (bool_decide (take 4 encoded = PAGE_MAGIC))
     || negb (le_at 4 1 encoded =? 2)%Z || negb (le_at 5 1 encoded =? 0)%Z
     || negb (le_at 8 4 encoded =? page_number)%Z || negb (le_at 12 4 encoded =? 0)%Z
  then Err PiInvalidIndex
  else
    let? ids := decode_ids INDEX_PAGE_PHOTOS 0 (drop PAGE_HEADER_BYTES encoded) in
    if negb (ids.2 =? le_at 6 2 encoded)%Z then Err PiInvalidIndex
    else Ok (mkIndexPage (le_at 6 2 encoded) ids.1).

Fixpoint decode_legacy_ids (n : nat) (previous : Z) (encoded : list ascii) : result PhotoImportError (list Z) :=
  match n with
  | O => Ok []
  | S n =>
      let id := le_value (take 8 encoded) in
      if (id =? 0)%Z || (id <=? previous)%Z then Err PiInvalidIndex
      else let? rest := decode_legacy_ids n id (drop 8 encoded) in Ok (id :: rest)
  end.

Definition decode_legacy_index (encoded : list ascii) : result PhotoImportError LegacyIndex :=
  if (length encoded <? LEGACY_HEADER_BYTES)%nat || negb (bool_decide (take 4 encoded = LEGACY_MAGIC))
     || negb (le_at 4 1 encoded =? 1)%Z || negb (le_at 6 1 encoded =? 0)%Z || negb (le_at 7 1 encoded =? 0)%Z
  then Err PiInvalidIndex
  else
    let count := Z.to_nat (le_at 5 1 encoded) in
    if (LEGACY_MAX_PHOTOS <? count)%nat || negb (length encoded =? LEGACY_HEADER_BYTES + count * 8)%nat
    then Err PiInvalidIndex
    else let? ids := decode_legacy_ids count 0 (drop LEGACY_HEADER_BYTES encoded) in Ok (mkLegacyIndex ids).

Definition encode_camera_metadata `{Crypto} (jpeg : list ascii) (captured_milliseconds : Z) : list ascii :=
  PHOTO_METADATA_MAGIC ++ [byte_of_Z PHOTO_METADATA_VERSION; byte_of_Z PHOTO_KIND_CAMERA; zero; zero]
  ++ le_bytes 2 CAMERA_PHOTO_WIDTH ++ le_bytes 2 CAMERA_PHOTO_HEIGHT ++ le_bytes 4 (Z.of_nat (length jpeg))
  ++ le_bytes 8 captured_milliseconds ++ sha256 jpeg.

Definition decode_camera_metadata (metadata : list ascii) : result PhotoImportError CameraOriginal :=
  if negb (length metadata =? PHOTO_METADATA_BYTES)%nat || negb (bool_decide (take 4 metadata = PHOTO_METADATA_MAGIC))
     || negb (le_at 4 1 metadata =? PHOTO_METADATA_VERSION)%Z || negb (le_at 5 1 metadata =? PHOTO_KIND_CAMERA)%Z
     || negb (le_at 6 2 metadata =? 0)%Z
  then Err PiInvalidFrame
  else
    let original := mkCameraOriginal (le_at 8 2 metadata) (le_at 10 2 metadata) (le_at 12 4 metadata) (le_at 16 8 metadata)
                      (drop 24 metadata) in
    if negb (co_width original =? CAMERA_PHOTO_WIDTH)%Z || negb (co_height original =? CAMERA_PHOTO_HEIGHT)%Z
       || (co_jpeg_size_bytes original =? 0)%Z || (Z.of_nat MAX_CAMERA_JPEG_BYTES <? co_jpeg_size_bytes original)%Z
    then Err PiInvalidFrame
    else Ok original.

(** ** The storage *)

Class PhotoStorage (S : Type) := {
  storage_put : Z → string → list ascii → SM S StorageClientError unit;
  storage_get : Z → string → SM S StorageClientError (option (list ascii));
  storage_delete : Z → string → SM S StorageClientError bool;
  storage_put_blob_chunk : Z → string → nat → nat → list ascii → SM S StorageClientError unit;
  storage_delete_blob : Z → string → SM S StorageClientError bool;
}.

(** The implementation by the storage client. *)
Definition sm_unit {S E A} (m : SM S E A) : SM S E unit := let+ _ := m in sm_ret tt.
Definition client_photo_storage {S} (exchange : StorageRequest → SM S StorageClientError StorageOutcome) : PhotoStorage S :=
  {| storage_put := λ id key value, sm_unit (StorageClient_put exchange id PHOTO_LIBRARY_ID PHOTO_LIBRARY_QUOTA_BYTES key value);
     storage_get := λ id key, StorageClient_get exchange id PHOTO_LIBRARY_ID PHOTO_LIBRARY_QUOTA_BYTES key;
     storage_delete := λ id key, StorageClient_delete exchange id PHOTO_LIBRARY_ID PHOTO_LIBRARY_QUOTA_BYTES key;
     storage_put_blob_chunk := λ id key offset total value,
       if (u32_max <? Z.of_nat offset)%Z || (u32_max <? Z.of_nat total)%Z then sm_lift Panicked
       else sm_unit (StorageClient_put_blob_chunk exchange id PHOTO_LIBRARY_ID PHOTO_LIBRARY_QUOTA_BYTES key
                       (Z.of_nat offset) (Z.of_nat total) value);
     storage_delete_blob := λ id key, StorageClient_delete_blob exchange id PHOTO_LIBRARY_ID PHOTO_LIBRARY_QUOTA_BYTES key |}.

(** ** The operations *)

Section library.
  Context `{Crypto} {S : Type} `{PhotoStorage S} (request_id : Z).

Notation PM A := (SM S PhotoImportError A).

(** The [?] on a storage error. *)
Definition from_storage {A} (m : SM S StorageClientError A) : PM A := sm_map_err PiStorage m.

Definition div_ceil_page (slots : Z) : Z := ((slots + Z.of_nat INDEX_PAGE_PHOTOS - 1) / Z.of_nat INDEX_PAGE_PHOTOS)%Z.
(** [slot_count.saturating_sub(page_number * 256).min(256)]. *)
Definition page_slots (head : Head) (page_number : Z) : nat :=
  Z.to_nat (Z.min (Z.max 0 (head_slot_count head - page_number * Z.of_nat INDEX_PAGE_PHOTOS)) (Z.of_nat INDEX_PAGE_PHOTOS)).
Definition page_number_u32 (n : Z) : result PhotoImportError Z := if (u32_max <? n)%Z then Err PiResourceExhausted else Ok n.

Definition load_page (page_number : Z) : PM (option IndexPage) :=
  let+ encoded := from_storage (storage_get request_id (page_key page_number)) in
  match encoded with
  | Some encoded => let+ page := sm_lift (decode_page page_number encoded) in sm_ret (Some page)
  | None => sm_ret None
  end.
Definition store_page (page_number : Z) (page : IndexPage) : PM unit :=
  from_storage (storage_put request_id (page_key page_number) (encode_page page_number page)).
Definition store_head (head : Head) : PM unit :=
  from_storage (storage_put request_id PHOTO_LIBRARY_HEAD_KEY (encode_head head)).

(** [let _ = ...]: whatever comes of it. *)
Definition sm_ignore {E F A} (m : SM S E A) : SM S F unit := sm_try m (λ r, match r with Panicked => sm_lift Panicked | _ => sm_ret tt end).

Definition rollback_page (page_number : Z) (old_page : option IndexPage) : PM unit :=
  match old_page with
  | Some page => sm_ignore (store_page page_number page)
  | None => sm_ignore (storage_delete request_id (page_key page_number))
  end.

Definition in_use (ids : list Z) : list Z := List.filter (λ id, negb (id =? 0)%Z) ids.
Definition canonicalize_page (page : IndexPage) (committed_slots : nat) : IndexPage :=
  mkIndexPage (Z.of_nat (length (in_use (take committed_slots (page_ids page)))))
    (take committed_slots (page_ids page) ++ replicate (length (page_ids page) - committed_slots) 0%Z).

(** The loop over the numbers of a page in [reconcile_head]. *)
Fixpoint reconcile_ids (last_id : Z) (ids : list Z) (active previous : Z) : result PhotoImportError (Z * Z) :=
  match ids with
  | [] => Ok (active, previous)
  | id :: ids =>
      if (id =? 0)%Z then reconcile_ids last_id ids active previous
      else if (id <=? previous)%Z || (last_id <? id)%Z then Err PiInvalidIndex
      else
        let? active := ok_or (checked_add_u64 active 1) PiResourceExhausted in
        reconcile_ids last_id ids active id
  end.

(** The loop over [pages] pages from [page_number] on. *)
Fixpoint reconcile_pages (pages : nat) (page_number : Z) (head : Head) (active previous : Z) : PM Z :=
  match pages with
  | O => sm_ret active
  | Datatypes.S pages =>
      let+ page_number_u32 := sm_lift (page_number_u32 page_number) in
      let+ page := load_page page_number_u32 in
      let+ page := sm_lift (ok_or page PiInvalidIndex) in
      let slots := page_slots head page_number in
      let page := canonicalize_page page slots in
      let+ counted := sm_lift (reconcile_ids (head_last_id head) (take slots (page_ids page)) active previous) in
      reconcile_pages pages (page_number + 1) head counted.1 counted.2
  end.

Definition reconcile_head (head : Head) : PM Head :=
  let+ active := reconcile_pages (Z.to_nat (div_ceil_page (head_slot_count head))) 0 head 0 0 in
  sm_ret (mkHead active (head_slot_count head) (head_last_id head)).

Definition migrate_legacy (legacy : LegacyIndex) : PM Head :=
  let ids := legacy_ids legacy in
  let count := Z.of_nat (length ids) in
  let head := mkHead count count (List.last ids 0%Z) in
  if negb (count =? 0)%Z then
    let page := mkIndexPage count (ids ++ replicate (INDEX_PAGE_PHOTOS - length ids) 0%Z) in
    let+ _ := store_page 0 page in
    sm_try (store_head head) (λ r,
      match r with
      | Ok _ => sm_ret head
      | Err e => let+ _ := sm_ignore (storage_delete request_id (page_key 0)) in sm_err e
      | Panicked => sm_lift Panicked
      end)
  else
    let+ _ := store_head head in
    sm_ret head.

Definition load_head_for_update : PM Head :=
  let+ encoded := from_storage (storage_get request_id PHOTO_LIBRARY_HEAD_KEY) in
  match encoded with
  | Some encoded =>
      let+ head := sm_lift (decode_head encoded) in
      reconcile_head head
  | None =>
      let+ encoded := from_storage (storage_get request_id PHOTO_LIBRARY_LEGACY_INDEX_KEY) in
      let+ legacy := match encoded with
                     | Some encoded => sm_lift (decode_legacy_index encoded)
                     | None => sm_ret (mkLegacyIndex [])
                     end in
      migrate_legacy legacy
  end.

(** The chunks of a blob, from [offset] on; [fuel] bounds their number. *)
Fixpoint put_chunks (fuel : nat) (key : string) (offset total : nat) (value : list ascii) : PM unit :=
  match value with
  | [] => sm_ret tt
  | _ :: _ =>
      match fuel with
      | O => sm_lift Panicked
      | Datatypes.S fuel =>
          let+ _ := from_storage (storage_put_blob_chunk request_id key offset total (take CHUNK_BYTES value)) in
          put_chunks fuel key (offset + CHUNK_BYTES) total (drop CHUNK_BYTES value)
      end
  end.
Definition put_blob (key : string) (value : list ascii) : PM unit :=
  if bool_decide (value = []) || (MAX_STORAGE_BLOB_BYTES <? Z.of_nat (length value))%Z then sm_err PiInvalidFrame
  else put_chunks (length value) key 0 (length value) value.

Fixpoint delete_chunks (chunks : list nat) (id : Z) (existed : bool) : SM S StorageClientError bool :=
  match chunks with
  | [] => sm_ret existed
  | chunk :: chunks =>
      let+ b := storage_delete request_id (legacy_chunk_key id chunk) in
      delete_chunks chunks id (existed || b)
  end.
Definition delete_photo_storage (id : Z) : SM S StorageClientError bool :=
  let+ b1 := storage_delete_blob request_id (blob_key id) in
  let+ b2 := storage_delete_blob request_id (original_blob_key id) in
  let+ b3 := storage_delete request_id (metadata_key id) in
  delete_chunks (seq 0 CHUNK_COUNT) id (b1 || b2 || b3).
Definition cleanup_photo (id : Z) : PM unit := sm_ignore (delete_photo_storage id).

(** What the source does on an error of [m]: clean up, then return it. *)
Definition or_cleanup {A} (m : PM A) (cleanup : PM unit) : PM A :=
  sm_try m (λ r,
    match r with
    | Ok a => sm_ret a
    | Err e => let+ _ := cleanup in sm_err e
    | Panicked => sm_lift Panicked
    end).

Definition JPEG_START : list ascii := map byte_of_Z [255; 216]%Z.
Definition JPEG_END : list ascii := map byte_of_Z [255; 217]%Z.
Definition jpeg_ok (jpeg : list ascii) : bool :=
  negb (bool_decide (jpeg = [])) && (length jpeg <=? MAX_CAMERA_JPEG_BYTES)%nat
  && bool_decide (JPEG_START `prefix_of` jpeg) && bool_decide (JPEG_END `suffix_of` jpeg).

(** The picture, the original and its metadata of a new photo. *)
Definition put_photo (id : Z) (frame : list ascii) (original : option (list ascii * Z)) : PM unit :=
  let+ _ := or_cleanup (put_blob (blob_key id) frame) (cleanup_photo id) in
  match original with
  | Some (jpeg, captured_milliseconds) =>
      let+ _ := or_cleanup (put_blob (original_blob_key id) jpeg) (cleanup_photo id) in
      or_cleanup (from_storage (storage_put request_id (metadata_key id) (encode_camera_metadata jpeg captured_milliseconds)))
        (cleanup_photo id)
  | None => sm_ret tt
  end.

Definition page_of_slot (head : Head) (page_number : Z) (position : nat) : PM (option IndexPage) :=
  if (position =? 0)%nat then sm_ret None
  else
    let+ page := load_page page_number in
    let+ page := sm_lift (ok_or page PiInvalidIndex) in
    sm_ret (Some (canonicalize_page page position)).

Definition checked_add_u16 (a b : Z) : option Z := if (a + b <=? u16_max)%Z then Some (a + b)%Z else None.
Definition checked_sub (a b : Z) : option Z := if (a <? b)%Z then None else Some (a - b)%Z.

Definition import_frame_with_original (frame : list ascii) (original : option (list ascii * Z)) : PM Z :=
  if negb (length frame =? PHOTO_FRAME_BYTES)%nat then sm_err PiInvalidFrame
  else if match original with Some (jpeg, _) => negb (jpeg_ok jpeg) | None => false end then sm_err PiInvalidFrame
  else
    let+ head := load_head_for_update in
    let+ next_id := sm_lift (ok_or (checked_add_u64 (head_last_id head) 1) PiResourceExhausted) in
    let id := Z.max next_id 1 in
    if (MAX_PHOTO_ID <? id)%Z then sm_err PiResourceExhausted
    else
      let+ page_number := sm_lift (page_number_u32 (head_slot_count head / Z.of_nat INDEX_PAGE_PHOTOS)%Z) in
      let position := Z.to_nat (head_slot_count head mod Z.of_nat INDEX_PAGE_PHOTOS)%Z in
      let+ old_page := page_of_slot head page_number position in
      let page := default IndexPage_empty old_page in
      let+ _ := put_photo id frame original in
      let+ active := sm_lift (ok_or (checked_add_u16 (page_active_count page) 1) PiInvalidIndex) in
      let page := mkIndexPage active (<[position := id]> (page_ids page)) in
      let+ _ := or_cleanup (store_page page_number page) (cleanup_photo id) in
      let+ active := sm_lift (ok_or (checked_add_u64 (head_active_count head) 1) PiResourceExhausted) in
      let+ slots := sm_lift (ok_or (checked_add_u64 (head_slot_count head) 1) PiResourceExhausted) in
      let+ _ := or_cleanup (store_head (mkHead active slots id))
                  (let+ _ := rollback_page page_number old_page in cleanup_photo id) in
      sm_ret id.

Definition import_frame (frame : list ascii) (suggested_id : Z) : PM Z := import_frame_with_original frame None.
Definition import_screenshot (frame : list ascii) (suggested_id : Z) : PM Z := import_frame frame suggested_id.
Definition import_app_photo (frame : list ascii) (suggested_id : Z) : PM Z := import_frame frame suggested_id.
Definition import_camera_photo (thumbnail jpeg : list ascii) (captured_milliseconds : Z) : PM Z :=
  import_frame_with_original thumbnail (Some (jpeg, captured_milliseconds)).

(** The page that holds a photo is found and written back without it. *)
Definition remove_from_page (head : Head) (page_number : Z) (page : IndexPage) (position : nat) (id : Z) : PM bool :=
  let+ active := sm_lift (ok_or (checked_sub (page_active_count page) 1) PiInvalidIndex) in
  let+ _ := store_page page_number (mkIndexPage active (<[position := 0%Z]> (page_ids page))) in
  let+ active := sm_lift (ok_or (checked_sub (head_active_count head) 1) PiInvalidIndex) in
  let+ _ := or_cleanup (store_head (mkHead active (head_slot_count head) (head_last_id head)))
              (sm_ignore (store_page page_number page)) in
  let+ _ := from_storage (delete_photo_storage id) in
  sm_ret true.

Fixpoint remove_pages (pages : nat) (page_number : Z) (head : Head) (id : Z) : PM bool :=
  match pages with
  | O => sm_ret false
  | Datatypes.S pages =>
      let+ page_number := sm_lift (page_number_u32 page_number) in
      let+ page := load_page page_number in
      let+ page := sm_lift (ok_or page PiInvalidIndex) in
      let slots := page_slots head page_number in
      let page := canonicalize_page page slots in
      match position (λ entry, (entry =? id)%Z) (take slots (page_ids page)) with
      | None => remove_pages pages (page_number + 1) head id
      | Some position => remove_from_page head page_number page position id
      end
  end.

Definition remove_frame (id : Z) : PM bool :=
  if (id =? 0)%Z || (MAX_PHOTO_ID <? id)%Z then sm_err PiInvalidFrame
  else
    let+ head := load_head_for_update in
    remove_pages (Z.to_nat (div_ceil_page (head_slot_count head))) 0 head id.
Definition remove_photo (id : Z) : PM bool := remove_frame id.

(** The loop over the numbers of a page: found, passed, or go on. *)
Fixpoint scan_ids (id : Z) (ids : list Z) : option bool :=
  match ids with
  | [] => None
  | entry :: ids => if (entry =? id)%Z then Some true else if (id <? entry)%Z then Some false else scan_ids id ids
  end.

Fixpoint active_pages (pages : nat) (page_number : Z) (head : Head) (id : Z) : PM bool :=
  match pages with
  | O => sm_ret false
  | Datatypes.S pages =>
      let+ page_number := sm_lift (page_number_u32 page_number) in
      let+ page := load_page page_number in
      let+ page := sm_lift (ok_or page PiInvalidIndex) in
      match scan_ids id (take (page_slots head page_number) (page_ids page)) with
      | Some found => sm_ret found
      | None => active_pages pages (page_number + 1) head id
      end
  end.

Definition photo_is_active (id : Z) : PM bool :=
  if (id =? 0)%Z || (MAX_PHOTO_ID <? id)%Z then sm_err PiInvalidFrame
  else
    let+ encoded := from_storage (storage_get request_id PHOTO_LIBRARY_HEAD_KEY) in
    match encoded with
    | None =>
        let+ encoded := from_storage (storage_get request_id PHOTO_LIBRARY_LEGACY_INDEX_KEY) in
        match encoded with
        | Some encoded =>
            let+ legacy := sm_lift (decode_legacy_index encoded) in
            sm_ret (bool_decide (id ∈ legacy_ids legacy))
        | None => sm_ret false
        end
    | Some encoded =>
        let+ head := sm_lift (decode_head encoded) in
        active_pages (Z.to_nat (div_ceil_page (head_slot_count head))) 0 head id
    end.

Fixpoint load_chunks (chunks : list nat) (id : Z) : PM (option (list ascii)) :=
  match chunks with
  | [] => sm_ret (Some [])
  | chunk :: chunks =>
      let start := (chunk * CHUNK_BYTES)%nat in
      let stop := Nat.min (start + CHUNK_BYTES) PHOTO_FRAME_BYTES in
      let+ value := from_storage (storage_get request_id (legacy_chunk_key id chunk)) in
      match value with
      | None => sm_ret None
      | Some value =>
          if negb (length value =? stop - start)%nat then sm_err PiInvalidFrame
          else
            let+ rest := load_chunks chunks id in
            sm_ret (app value <$> rest)
      end
  end.
Definition load_legacy_photo (id : Z) : PM (option (list ascii)) :=
  if (id =? 0)%Z || (MAX_PHOTO_ID <? id)%Z then sm_err PiInvalidFrame else load_chunks (seq 0 CHUNK_COUNT) id.

Definition camera_original (id : Z) : PM (option CameraOriginal) :=
  if (id =? 0)%Z || (MAX_PHOTO_ID <? id)%Z then sm_err PiInvalidFrame
  else
    let+ metadata := from_storage (storage_get request_id (metadata_key id)) in
    match metadata with
    | None => sm_ret None
    | Some metadata => let+ original := sm_lift (decode_camera_metadata metadata) in sm_ret (Some original)
    end.

Fixpoint list_pages (pages : nat) (page_number : Z) (head : Head) : PM (list Z) :=
  match pages with
  | O => sm_ret []
  | Datatypes.S pages =>
      let+ page_number := sm_lift (page_number_u32 page_number) in
      let+ page := load_page page_number in
      let+ page := sm_lift (ok_or page PiInvalidIndex) in
      let+ rest := list_pages pages (page_number + 1) head in
      sm_ret (in_use (take (page_slots head page_number) (page_ids page)) ++ rest)
  end.

Definition listed_ids : PM (list Z) :=
  let+ encoded := from_storage (storage_get request_id PHOTO_LIBRARY_HEAD_KEY) in
  match encoded with
  | Some encoded =>
      let+ head := sm_lift (decode_head encoded) in
      let+ ids := list_pages (Z.to_nat (div_ceil_page (head_slot_count head))) 0 head in
      if negb (Z.of_nat (length ids) =? head_active_count head)%Z then sm_err PiInvalidIndex else sm_ret ids
  | None =>
      let+ encoded := from_storage (storage_get request_id PHOTO_LIBRARY_LEGACY_INDEX_KEY) in
      match encoded with
      | Some encoded => let+ index := sm_lift (decode_legacy_index encoded) in sm_ret (legacy_ids index)
      | None => sm_ret []
      end
  end.

Fixpoint export_entries (ids : list Z) : PM (list PhotoExport) :=
  match ids with
  | [] => sm_ret []
  | id :: ids =>
      let+ original := camera_original id in
      let entry := match original with
                   | Some o => mkPhotoExport id CameraJpeg (co_width o) (co_height o) (co_jpeg_size_bytes o)
                                 (Some (co_captured_milliseconds o)) (Some (co_sha256 o))
                   | None => mkPhotoExport id ScreenshotRgb565 (Z.of_nat PHOTO_WIDTH) (Z.of_nat PHOTO_HEIGHT)
                               (Z.of_nat PHOTO_FRAME_BYTES) None None
                   end in
      let+ rest := export_entries ids in
      sm_ret (entry :: rest)
  end.
Definition list_photo_exports : PM (list PhotoExport) :=
  let+ ids := listed_ids in
  export_entries ids.

End library.
