(* ===== verification/PhotoLibraryLogic.v ===== *)
(** * The photo library: representation and program logic

    [PhotoStorageLaws] is what the library relies on of its storage.  [ptriple]
    is a Hoare logic for its operations with an invariant of every state that
    the storage passes through, which are the states a power loss can leave.
    [Library] relates a store to the slots of the index: the photo numbers in
    their order, 0 for a removed one. *)

From S2P Require Import Prelude RustStr Bytes Manifest HostFs Checkpoint Package StorageProtocol StorageClient PhotoLibrary.

Notation pstore := (gmap string (list ascii)).

(** The name under which an unfinished blob is kept. *)
Definition staged_key (key : string) : string := ".cp0-blob-" +:+ key.

(** Everything but a blob and its unfinished form is as before. *)
Definition same_but (key : string) (m m' : pstore) : Prop :=
  ∀ k, k ≠ key → k ≠ staged_key key → m' !! k = m !! k.

Definition chunk_effect (key : string) (offset total : nat) (value : list ascii) (m m' : pstore) : Prop :=
  ∃ before, (if (offset =? 0)%nat then before = [] else m !! staged_key key = Some before ∧ length before = offset) ∧
    m' !! (if (offset + length value =? total)%nat then key else staged_key key) = Some (before ++ value).

(** What an operation leaves: the store, and for a write of a value that was
    carried out although it reported an error, its key.  This happens when the
    reply is lost, or when the service fails after the write. *)
Definition PhotoEvent : Type := option string * pstore.

(** [view] is the store of the library, [trail] what the operations left, one
    after the other.  A write that fails had no effect or its whole effect. *)
Class PhotoStorageLaws (S : Type) `{PhotoStorage S} := {
  view : S → pstore;
  trail : S → list PhotoEvent;
  law_put : ∀ id k v s, ∃ lost,
    trail (storage_put id k v s).2 = trail s ++ [(lost, view (storage_put id k v s).2)] ∧
    match storage_put id k v s with
    | (Ok _, s') => lost = None ∧ view s' = <[k := v]> (view s)
    | (Err _, s') => lost = None ∧ view s' = view s ∨ lost = Some k ∧ view s' = <[k := v]> (view s)
    | (Panicked, _) => False
    end;
  law_get : ∀ id k s,
    trail (storage_get id k s).2 = trail s ++ [(None, view (storage_get id k s).2)] ∧
    view (storage_get id k s).2 = view s ∧
    match (storage_get id k s).1 with Ok o => o = view s !! k | Err _ => True | Panicked => False end;
  law_delete : ∀ id k s,
    trail (storage_delete id k s).2 = trail s ++ [(None, view (storage_delete id k s).2)] ∧
    match storage_delete id k s with
    | (Ok b, s') => view s' = delete k (view s) ∧ b = bool_decide (is_Some (view s !! k))
    | (Err _, s') => view s' = view s ∨ view s' = delete k (view s)
    | (Panicked, _) => False
    end;
  law_chunk : ∀ id k offset total v s,
    (Z.of_nat offset ≤ u32_max)%Z → (Z.of_nat total ≤ u32_max)%Z →
    trail (storage_put_blob_chunk id k offset total v s).2
      = trail s ++ [(None, view (storage_put_blob_chunk id k offset total v s).2)] ∧
    same_but k (view s) (view (storage_put_blob_chunk id k offset total v s).2) ∧
    match (storage_put_blob_chunk id k offset total v s).1 with
    | Ok _ => chunk_effect k offset total v (view s) (view (storage_put_blob_chunk id k offset total v s).2)
    | Err _ => True
    | Panicked => False
    end;
  law_delete_blob : ∀ id k s,
    trail (storage_delete_blob id k s).2 = trail s ++ [(None, view (storage_delete_blob id k s).2)] ∧
    same_but k (view s) (view (storage_delete_blob id k s).2) ∧
    match storage_delete_blob id k s with
    | (Ok b, s') => view s' !! k = None ∧ view s' !! staged_key k = None ∧ b = bool_decide (is_Some (view s !! k))
    | (Err _, _) => True
    | (Panicked, _) => False
    end;
}.

(** ** Runs

    The head is the commit point of every update, so a run is told apart by
    whether a write of the head was carried out and reported an error: up to
    there [I] holds of every store, from there on [D]. *)

Definition head_kept (I : pstore → Prop) (e : PhotoEvent) : Prop := e.1 ≠ Some PHOTO_LIBRARY_HEAD_KEY ∧ I e.2.
(** The events from the lost write of the head on. *)
Definition head_lost (D : pstore → Prop) (tr : list PhotoEvent) : Prop :=
  head (fst <$> tr) = Some (Some PHOTO_LIBRARY_HEAD_KEY) ∧ Forall (λ e, D e.2) tr.

(** No write of the head was lost, and the outcome is [O]; or one was lost, an
    error is reported, and the store that is left satisfies [D]. *)
Definition run_ends {E A} (I D : pstore → Prop) (tr : list PhotoEvent) (r : result E A) (m : pstore) (O : Prop) : Prop :=
  Forall (head_kept I) tr ∧ O ∨
  ∃ before after, tr = before ++ after ∧ Forall (head_kept I) before ∧ head_lost D after ∧ (∃ e, r = Err e) ∧ D m.

(** ** Triples *)

Definition ptriple {S} `{PhotoStorage S, !PhotoStorageLaws S} (I D : pstore → Prop) {E A} (P : pstore → Prop) (m : SM S E A)
    (Q : A → pstore → Prop) (X : E → pstore → Prop) : Prop :=
  ∀ s, P (view s) → ∃ tr, trail (m s).2 = trail s ++ tr ∧
    run_ends I D tr (m s).1 (view (m s).2)
      match (m s).1 with
      | Ok a => Q a (view (m s).2)
      | Err e => X e (view (m s).2)
      | Panicked => False
      end.

Definition never : pstore → Prop := λ _, False.

Lemma run_ends_Ok {E A} (I D : pstore → Prop) tr (a : A) m O : @run_ends E A I D tr (Ok a) m O → Forall (head_kept I) tr ∧ O.
Proof. intros [?|(_&_&_&_&_&[e He]&_)]; done. Qed.
Lemma run_ends_never {E A} I tr (r : result E A) m O : run_ends I never tr r m O → Forall (head_kept I) tr ∧ O.
Proof. intros [?|(_&_&_&_&_&_&[])]; done. Qed.

Lemma ptriple_Ok {S} `{PhotoStorage S, !PhotoStorageLaws S} I D {E A} P (m : SM S E A) Q X s s' a :
  ptriple I D P m Q X → P (view s) → m s = (Ok a, s') →
  ∃ tr, trail s' = trail s ++ tr ∧ Forall (head_kept I) tr ∧ Q a (view s').
Proof.
  intros Hm HP Hrun. destruct (Hm s HP) as (tr&Htr&Hr). rewrite Hrun in *. simpl in *. exists tr. split; [done|].
  by eapply run_ends_Ok.
Qed.

(** Successful steps. *)
Lemma sm_bind_lift_Ok {S E A B} (r : result E A) (k : A → SM S E B) b s s' :
  sm_bind (sm_lift r) k s = (Ok b, s') → ∃ a, r = Ok a ∧ k a s = (Ok b, s').
Proof. unfold sm_bind, sm_lift. destruct r; [eauto|done..]. Qed.
Lemma or_cleanup_Ok {S} `{PhotoStorage S} {A} (m : SM S PhotoImportError A) c a s s' : or_cleanup m c s = (Ok a, s') → m s = (Ok a, s').
Proof. unfold or_cleanup, sm_try, sm_bind, sm_ret, sm_err, sm_lift. destruct (m s) as [[b|e|] s1]; [done| |done]. by destruct (c s1) as [[]]. Qed.
Lemma from_put_Ok {S} `{PhotoStorage S, !PhotoStorageLaws S} id k v u s s' :
  from_storage (storage_put id k v) s = (Ok u, s') → trail s' = trail s ++ [(None, view s')].
Proof.
  unfold from_storage, sm_map_err. destruct (law_put id k v s) as (lost&Htr&Hl). destruct (storage_put id k v s) as [[x|e|] s1]; [|done..].
  intros [= _ <-]. destruct Hl as [-> _]. done.
Qed.

Lemma head_kept_weaken (I J : pstore → Prop) tr : (∀ m, I m → J m) → Forall (head_kept I) tr → Forall (head_kept J) tr.
Proof. intros HIJ Hall. eapply Forall_impl; [exact Hall|]. intros e [? ?]. split; auto. Qed.
Lemma head_lost_app D tr tr' : head_lost D tr → Forall (λ e, D e.2) tr' → head_lost D (tr ++ tr').
Proof. intros [Hh Hd] Hd'. split; [|by apply Forall_app]. by destruct tr. Qed.

Section triples.
  Context {S : Type} `{PhotoStorage S, !PhotoStorageLaws S}.
  Context (I D : pstore → Prop).

Lemma pt_lift {E A} P (r : result E A) Q X :
  (∀ m, P m → match r with Ok a => Q a m | Err e => X e m | Panicked => False end) → ptriple I D P (sm_lift r) Q X.
Proof. intros Hr s HP. exists []. rewrite app_nil_r. split; [done|]. left. split; [constructor|by apply Hr]. Qed.
Lemma pt_ret {E A} P (a : A) Q (X : E → pstore → Prop) : (∀ m, P m → Q a m) → ptriple I D P (sm_ret a) Q X.
Proof. apply (pt_lift P (Ok a)). Qed.
Lemma pt_err {E A} P (e : E) (Q : A → pstore → Prop) X : (∀ m, P m → X e m) → ptriple I D P (sm_err e) Q X.
Proof. apply (pt_lift P (Err e)). Qed.
Lemma pt_false {E A} P (m : SM S E A) Q X : (∀ m, ¬ P m) → ptriple I D P m Q X.
Proof. intros HP s Hs. by apply HP in Hs. Qed.

(** What follows a lost write of the head. *)
Lemma run_after_loss {E A} tr r (x : result E A) m before after :
  Forall (head_kept I) before → head_lost D after → tr = before ++ after →
  run_ends D D r x m (match x with Err _ => D m | _ => False end) → run_ends I D (tr ++ r) x m False.
Proof.
  intros Hb Ha -> Hr. right. destruct Hr as [[Hk Ho]|(b2&a2&->&Hb2&[_ Ha2]&He&Hm)].
  - exists before, (after ++ r). rewrite app_assoc. split_and!; [done|done| | |by destruct x].
    + apply head_lost_app; [done|]. eapply Forall_impl; [exact Hk|]. by intros e [_ ?].
    + destruct x; [done|by eexists|done].
  - exists before, (after ++ b2 ++ a2). rewrite !app_assoc. split_and!; [done|done| |done|done].
    rewrite <- app_assoc. apply head_lost_app; [done|]. apply Forall_app. split; [|done].
    eapply Forall_impl; [exact Hb2|]. by intros e [_ ?].
Qed.
Lemma run_ends_weaken {E A} tr (x : result E A) m (O O' : Prop) : (O → O') → run_ends I D tr x m O → run_ends I D tr x m O'.
Proof. intros HO [[? ?]|?]; [left|by right]. auto. Qed.

Lemma pt_try {E F A B} P (m : SM S E A) (k : result E A → SM S F B) R Y Q X :
  ptriple I D P m R Y → (∀ a, ptriple I D (R a) (k (Ok a)) Q X) → (∀ e, ptriple I D (Y e) (k (Err e)) Q X) →
  (∀ e, ptriple D D D (k (Err e)) (λ _, never) (λ _, D)) → ptriple I D P (sm_try m k) Q X.
Proof.
  intros Hm Hk He Hl s HP. destruct (Hm s HP) as (tr&Htr&Hr). unfold sm_try. destruct (m s) as [r s1]. simpl in *.
  destruct Hr as [[Hall Hr]|(before&after&Hsplit&Hb&Ha&[e ->]&HD)].
  - assert (∃ R', ptriple I D R' (k r) Q X ∧ R' (view s1)) as (R'&Ht&HR) by (destruct r; eauto; done).
    destruct (Ht s1 HR) as (tr2&Htr2&Hr2). exists (tr ++ tr2). rewrite Htr2, Htr, app_assoc. split; [done|].
    destruct Hr2 as [[Hall2 Ho]|(b2&a2&->&Hb2&Hrest)].
    + left. split; [by apply Forall_app|done].
    + right. exists (tr ++ b2), a2. rewrite app_assoc. split_and!; [done|by apply Forall_app|apply Hrest..].
  - destruct (Hl e s1 HD) as (tr2&Htr2&Hr2). exists (tr ++ tr2). rewrite Htr2, Htr, app_assoc. split; [done|].
    apply (run_ends_weaken _ _ _ False); [done|]. eapply run_after_loss; [exact Hb|exact Ha|exact Hsplit|].
    destruct Hr2 as [[? Ho]|?]; [left|by right]. split; [done|]. by destruct (k (Err e) s1).1.
Qed.
Lemma pt_bind {E A B} P (m : SM S E A) (k : A → SM S E B) R Q X :
  ptriple I D P m R X → (∀ a, ptriple I D (R a) (k a) Q X) → ptriple I D P (sm_bind m k) Q X.
Proof.
  intros Hm Hk s HP.
  assert (ptriple I D P (sm_try m (λ r, match r with Ok a => k a | Err e => sm_err e | Panicked => sm_lift Panicked end)) Q X) as Ht.
  { eapply pt_try; [exact Hm|exact Hk|intros e; by apply pt_err|]. intros e s1 HD. exists []. rewrite app_nil_r. split; [done|].
    left. split; [constructor|done]. }
  destruct (Ht s HP) as (tr&Htr&Hr). exists tr. unfold sm_try, sm_bind in *. destruct (m s) as [[a|e|] s1]; done.
Qed.
Lemma pt_map_err {E F A} P (f : E → F) (m : SM S E A) Q X : ptriple I D P m Q (λ e, X (f e)) → ptriple I D P (sm_map_err f m) Q X.
Proof.
  intros Hm s HP. destruct (Hm s HP) as (tr&Htr&Hr). exists tr. unfold sm_map_err. destruct (m s) as [r s1]; simpl in *. split; [done|].
  destruct Hr as [[? Ho]|(b&a&?&?&?&[e ->]&?)]; [left; by destruct r|]. right. exists b, a. split_and!; try done. by eexists.
Qed.
Lemma pt_conseq {E A} (P P' : pstore → Prop) (m : SM S E A) Q Q' X X' :
  ptriple I D P' m Q' X' → (∀ m, P m → P' m) → (∀ a m, Q' a m → Q a m) → (∀ e m, X' e m → X e m) → ptriple I D P m Q X.
Proof.
  intros Hm HP HQ HX s Hs. destruct (Hm s (HP _ Hs)) as (tr&Htr&Hr). exists tr. split; [done|].
  eapply run_ends_weaken; [|exact Hr]. destruct (m s).1; auto.
Qed.
Lemma pt_pure {E A} (φ : Prop) P (m : SM S E A) Q X : (φ → ptriple I D P m Q X) → ptriple I D (λ m, φ ∧ P m) m Q X.
Proof. intros Hm s [Hφ HP]. by apply Hm. Qed.
Lemma pt_exists {E A B} (P : B → pstore → Prop) (m : SM S E A) Q X :
  (∀ x, ptriple I D (P x) m Q X) → ptriple I D (λ m, ∃ x, P x m) m Q X.
Proof. intros Hm s [x HP]. by apply (Hm x). Qed.
(** From what holds after a loss to something weaker. *)
Lemma pt_loss {E A} (D' : pstore → Prop) P (m : SM S E A) Q X :
  (∀ m, D' m → D m) → ptriple I D' P m Q X → ptriple I D P m Q X.
Proof.
  intros HD Hm s HP. destruct (Hm s HP) as (tr&Htr&Hr). exists tr. split; [done|].
  destruct Hr as [?|(b&a&?&?&[? Ha]&?&?)]; [by left|right]. exists b, a. split_and!; try done; [|by apply HD].
  split; [done|]. eapply Forall_impl; [exact Ha|]. intros e. apply HD.
Qed.
End triples.

Section cleanup.
  Context {S : Type} `{PhotoStorage S, !PhotoStorageLaws S}.
  Context (I D : pstore → Prop).

Lemma pt_kept {E A} P (m : SM S E A) Q X : ptriple I never P m Q X → ptriple I D P m Q X.
Proof. by apply (pt_loss I D never). Qed.
(** An operation that writes no head may be ignored. *)
Lemma pt_ignore {E F A} P (m : SM S E A) Q (X : F → pstore → Prop) :
  ptriple I never P m (λ _, Q) (λ _, Q) → ptriple I D P (sm_ignore m) (λ _, Q) X.
Proof.
  intros Hm. apply pt_kept. eapply pt_try; [exact Hm|intros a; by apply pt_ret|intros e; by apply pt_ret|].
  intros e. apply pt_false. by intros ? [].
Qed.
Lemma pt_cleanup {A} P (m : SM S PhotoImportError A) cleanup Q Y X :
  ptriple I D P m Q Y → (∀ e, ptriple I D (Y e) cleanup (λ _, X e) X) → ptriple D D D cleanup (λ _, D) (λ _, D) →
  ptriple I D P (or_cleanup m cleanup) Q X.
Proof.
  intros Hm Hc Hl. eapply pt_try; [done|intros a; by apply pt_ret| |]; intros e.
  - eapply pt_bind; [apply Hc|]. intros u. by apply pt_err.
  - eapply pt_bind; [apply Hl|]. intros u. by apply pt_err.
Qed.
(** The same when no head is written. *)
Lemma pt_cleanup_kept {A} P (m : SM S PhotoImportError A) cleanup Q Y X :
  ptriple I never P m Q Y → (∀ e, ptriple I never (Y e) cleanup (λ _, X e) X) → ptriple I D P (or_cleanup m cleanup) Q X.
Proof.
  intros Hm Hc. apply pt_kept. eapply pt_try; [done|intros a; by apply pt_ret| |]; intros e.
  - eapply pt_bind; [apply Hc|]. intros u. by apply pt_err.
  - apply pt_false. by intros ? [].
Qed.

(** ** The storage operations *)

Lemma one_event lost m' {E A} (x : result E A) m (O : Prop) :
  lost ≠ Some PHOTO_LIBRARY_HEAD_KEY → I m' → O → run_ends I D [(lost, m')] x m O.
Proof. intros He HI HO. left. split; [|done]. by apply Forall_singleton. Qed.

Lemma pt_put id k v P Q (X : StorageClientError → pstore → Prop) :
  k ≠ PHOTO_LIBRARY_HEAD_KEY →
  (∀ m, P m → I m ∧ I (<[k := v]> m) ∧ Q tt (<[k := v]> m) ∧ ∀ e, X e m ∧ X e (<[k := v]> m)) → ptriple I D P (storage_put id k v) Q X.
Proof.
  intros Hk Hx s HP. destruct (Hx _ HP) as (HI&HI'&HQ&HX). destruct (law_put id k v s) as (lost&Htr&Hl).
  eexists. split; [exact Htr|]. destruct (storage_put id k v s) as [[[]|e|] s']; simpl in *; [| |done].
  - destruct Hl as [-> ->]. by apply one_event.
  - destruct (HX e) as [HX1 HX2]. destruct Hl as [[-> ->]|[-> ->]]; (apply one_event; [|done|done]); [done|]. congruence.
Qed.
Lemma pt_put_head id v P Q (X : StorageClientError → pstore → Prop) :
  (∀ m, P m → I m ∧ I (<[PHOTO_LIBRARY_HEAD_KEY := v]> m) ∧ Q tt (<[PHOTO_LIBRARY_HEAD_KEY := v]> m) ∧ (∀ e, X e m) ∧
              D (<[PHOTO_LIBRARY_HEAD_KEY := v]> m)) →
  ptriple I D P (storage_put id PHOTO_LIBRARY_HEAD_KEY v) Q X.
Proof.
  intros Hx s HP. destruct (Hx _ HP) as (HI&HI'&HQ&HX&HD). destruct (law_put id PHOTO_LIBRARY_HEAD_KEY v s) as (lost&Htr&Hl).
  eexists. split; [exact Htr|]. destruct (storage_put _ _ v s) as [[[]|e|] s']; simpl in *; [| |done].
  - destruct Hl as [-> ->]. by apply one_event.
  - destruct Hl as [[-> ->]|[-> ->]]; [by apply one_event|]. right. eexists [], _.
    split_and!; [done|constructor|split; [done|by apply Forall_singleton]|by eexists|done].
Qed.
Lemma pt_get id k P Q (X : StorageClientError → pstore → Prop) :
  (∀ m, P m → I m ∧ Q (m !! k) m ∧ ∀ e, X e m) → ptriple I D P (storage_get id k) Q X.
Proof.
  intros Hx s HP. destruct (Hx _ HP) as (HI&HQ&HX). destruct (law_get id k s) as (Htr&Hv&Hl). eexists. split; [exact Htr|].
  destruct (storage_get id k s) as [[o|e|] s']; simpl in *; [| |done]; rewrite Hv in *; subst; by apply one_event.
Qed.
Lemma pt_delete id k P Q (X : StorageClientError → pstore → Prop) :
  (∀ m, P m → I m ∧ I (delete k m) ∧ Q (bool_decide (is_Some (m !! k))) (delete k m) ∧ ∀ e, X e m ∧ X e (delete k m)) →
  ptriple I D P (storage_delete id k) Q X.
Proof.
  intros Hx s HP. destruct (Hx _ HP) as (HI&HI'&HQ&HX). destruct (law_delete id k s) as [Htr Hl]. eexists. split; [exact Htr|].
  destruct (storage_delete id k s) as [[b|e|] s']; simpl in *; [| |done].
  - destruct Hl as [Hl ->]. rewrite Hl in *. by apply one_event.
  - destruct (HX e). destruct Hl as [Hl|Hl]; rewrite Hl in *; by apply one_event.
Qed.
Lemma pt_chunk id k offset total v P Q (X : StorageClientError → pstore → Prop) :
  (Z.of_nat offset ≤ u32_max)%Z → (Z.of_nat total ≤ u32_max)%Z →
  (∀ m m', P m → same_but k m m' → I m' ∧ (chunk_effect k offset total v m m' → Q tt m') ∧ ∀ e, X e m') →
  ptriple I D P (storage_put_blob_chunk id k offset total v) Q X.
Proof.
  intros Ho Ht Hx s HP. destruct (law_chunk id k offset total v s Ho Ht) as (Htr&Hs&Hl).
  destruct (Hx _ _ HP Hs) as (HI&HQ&HX). eexists. split; [exact Htr|]. apply one_event; [done|done|].
  destruct (storage_put_blob_chunk id k offset total v s).1 as [[]|e|]; auto.
Qed.
Lemma pt_delete_blob id k P Q (X : StorageClientError → pstore → Prop) :
  (∀ m m', P m → same_but k m m' →
     I m' ∧ (m' !! k = None → m' !! staged_key k = None → Q (bool_decide (is_Some (m !! k))) m') ∧ ∀ e, X e m') →
  ptriple I D P (storage_delete_blob id k) Q X.
Proof.
  intros Hx s HP. destruct (law_delete_blob id k s) as (Htr&Hs&Hl).
  destruct (Hx _ _ HP Hs) as (HI&HQ&HX). eexists. split; [exact Htr|]. apply one_event; [done|done|].
  destruct (storage_delete_blob id k s) as [[b|e|] s']; simpl in *; [|by auto|done]. destruct Hl as (Hn&Hs'&->). by apply HQ.
Qed.
End cleanup.

(** ** Slots *)

(** The numbers in use ascend, from above [prev]. *)
Fixpoint asc (prev : Z) (ids : list Z) : Prop :=
  match ids with
  | [] => True
  | id :: ids => if (id =? 0)%Z then asc prev ids else (prev < id)%Z ∧ asc id ids
  end.
(** The last number in use. *)
Fixpoint top (prev : Z) (ids : list Z) : Z :=
  match ids with
  | [] => prev
  | id :: ids => top (if (id =? 0)%Z then prev else id) ids
  end.

Lemma asc_app prev a b : asc prev (a ++ b) ↔ asc prev a ∧ asc (top prev a) b.
Proof. revert prev. induction a as [|x a IH]; intros prev; simpl; [tauto|]. destruct (x =? 0)%Z; rewrite IH; tauto. Qed.
Lemma top_app prev a b : top prev (a ++ b) = top (top prev a) b.
Proof. revert prev. induction a as [|x a IH]; intros prev; simpl; [done|]. by rewrite IH. Qed.
Lemma asc_zeros prev n : asc prev (replicate n 0%Z).
Proof. induction n; simpl; done. Qed.
Lemma asc_mono prev prev' ids : (prev' ≤ prev)%Z → asc prev ids → asc prev' ids.
Proof.
  revert prev prev'. induction ids as [|x ids IH]; intros prev prev' Hp; simpl; [done|].
  destruct (x =? 0)%Z; [by apply IH|]. intros [Hx Ha]. split; [lia|done].
Qed.
Lemma asc_clear prev ids i : asc prev ids → asc prev (<[i := 0%Z]> ids).
Proof.
  revert prev i. induction ids as [|x ids IH]; intros prev [|i]; simpl; [done..| |].
  - destruct (x =? 0)%Z; [done|]. intros [Hx Ha]. by eapply asc_mono; [|exact Ha]; lia.
  - destruct (x =? 0)%Z; [by apply IH|]. intros [Hx Ha]. split; [done|by apply IH].
Qed.
Lemma top_le prev ids bound : (prev ≤ bound)%Z → Forall (λ x, x ≤ bound)%Z ids → (top prev ids ≤ bound)%Z.
Proof.
  revert prev. induction ids as [|x ids IH]; intros prev Hp Hall; simpl; [done|]. apply Forall_cons in Hall as [Hx Hall].
  apply IH; [|done]. by destruct (x =? 0)%Z.
Qed.
Lemma top_ge prev ids : asc prev ids → (prev ≤ top prev ids)%Z.
Proof.
  revert prev. induction ids as [|x ids IH]; intros prev; simpl; [lia|].
  destruct (x =? 0)%Z; [by apply IH|]. intros [Hx Ha]. specialize (IH x Ha). lia.
Qed.
Lemma in_use_app a b : in_use (a ++ b) = in_use a ++ in_use b.
Proof. apply List.filter_app. Qed.
Lemma in_use_zeros n : in_use (replicate n 0%Z) = [].
Proof. induction n; simpl; done. Qed.
Lemma length_in_use ids : (length (in_use ids) ≤ length ids)%nat.
Proof. induction ids as [|x ids IH]; simpl; [done|]. destruct (negb _); simpl; lia. Qed.
Lemma elem_of_in_use x ids : x ∈ in_use ids ↔ x ∈ ids ∧ x ≠ 0%Z.
Proof.
  unfold in_use. rewrite list_elem_of_In, filter_In, <- list_elem_of_In. rewrite negb_true_iff, Z.eqb_neq. done.
Qed.
Lemma asc_above prev ids x : asc prev ids → x ∈ in_use ids → (prev < x)%Z.
Proof.
  revert prev. induction ids as [|y ids IH]; intros prev Ha Hx; [by apply elem_of_nil in Hx|].
  apply elem_of_in_use in Hx as [Hx Hne]. simpl in Ha. apply elem_of_cons in Hx as [->|Hx].
  - destruct (Z.eqb_spec y 0); [done|]. by destruct Ha.
  - assert (x ∈ in_use ids) as Hu by (by apply elem_of_in_use). destruct (y =? 0)%Z; [by apply IH|].
    destruct Ha as [Hy Ha]. specialize (IH y Ha Hu). lia.
Qed.

(** Clearing the slot of a number removes this number only. *)
Lemma in_use_clear prev ids i id :
  asc prev ids → ids !! i = Some id → id ≠ 0%Z → in_use (<[i := 0%Z]> ids) = List.filter (λ x, negb (x =? id)%Z) (in_use ids).
Proof.
  assert (∀ p l, asc p l → (id ≤ p)%Z → List.filter (λ x, negb (x =? id)%Z) (in_use l) = in_use l) as Hkeep.
  { intros p l Ha Hle. apply forallb_filter_id, forallb_forall. intros x Hx%list_elem_of_In.
    pose proof (asc_above p l x Ha Hx). destruct (Z.eqb_spec x id); [lia|done]. }
  revert prev i. induction ids as [|x ids IH]; intros prev [|i] Ha Hi Hne; simpl in Hi; [done..| |].
  - injection Hi as ->. simpl in *. destruct (Z.eqb_spec id 0); [done|]. simpl. rewrite Z.eqb_refl. simpl.
    destruct Ha as [_ Ha]. by rewrite (Hkeep id ids Ha).
  - simpl in *. destruct (Z.eqb_spec x 0) as [->|Hx]; simpl; [by eapply IH|]. destruct Ha as [Hp Ha].
    assert (x < id)%Z. { apply (asc_above x ids id Ha). apply elem_of_in_use. split; [by eapply list_elem_of_lookup_2|done]. }
    destruct (Z.eqb_spec x id); [lia|]. simpl. f_equal. by eapply IH.
Qed.

(** ** Records *)

Definition u64 (z : Z) : Prop := (0 ≤ z ≤ u64_max)%Z.

Lemma le_at_skip a start n l : (length a ≤ start)%nat → le_at start n (a ++ l) = le_at (start - length a) n l.
Proof. intros Ha. unfold le_at. by rewrite drop_app, (drop_ge a) by done. Qed.
Lemma le_at_here n z r : (0 ≤ z < 256 ^ Z.of_nat n)%Z → le_at 0 n (le_bytes n z ++ r) = z.
Proof. intros Hz. unfold le_at. rewrite drop_0, take_app_length' by (by rewrite length_le_bytes). by apply le_value_bytes. Qed.
Lemma le_at_pre pre n z r start : length pre = start → (0 ≤ z < 256 ^ Z.of_nat n)%Z → le_at start n (pre ++ le_bytes n z ++ r) = z.
Proof. intros <- Hz. rewrite le_at_skip by done. rewrite Nat.sub_diag. by apply le_at_here. Qed.
Lemma u64_bytes z : u64 z → (0 ≤ z < 256 ^ Z.of_nat 8)%Z.
Proof. unfold u64, u64_max. simpl. lia. Qed.

Record head_wf (h : Head) : Prop := {
  hw_active : (0 ≤ head_active_count h ≤ head_slot_count h)%Z;
  hw_slots : u64 (head_slot_count h);
  hw_last : u64 (head_last_id h);
  hw_zero : head_slot_count h = 0%Z ↔ head_last_id h = 0%Z;
}.

Lemma decode_encode_head h : head_wf h → decode_head (encode_head h) = Ok h.
Proof.
  intros [Ha Hs Hl Hz]. destruct h as [active slots last]. unfold decode_head.
  cbn [head_active_count head_slot_count head_last_id] in *. set (e := encode_head _).
  set (magic := HEAD_MAGIC ++ [byte_of_Z 2; zero; zero; zero]).
  assert (e = magic ++ le_bytes 8 active ++ le_bytes 8 slots ++ le_bytes 8 last) as He by done.
  assert (length e = 32%nat) as -> by (rewrite He, !length_app, !length_le_bytes; done).
  assert (take 4 e = HEAD_MAGIC) as -> by done. assert (le_at 4 1 e = 2%Z) as -> by done.
  assert (le_at 5 3 e = 0%Z) as -> by done.
  assert (le_at 8 8 e = active) as ->. { rewrite He. apply le_at_pre; [done|]. apply u64_bytes. unfold u64 in *. lia. }
  assert (le_at 16 8 e = slots) as ->.
  { rewrite He, (app_assoc magic). apply le_at_pre; [by rewrite length_app, length_le_bytes|by apply u64_bytes]. }
  assert (le_at 24 8 e = last) as ->.
  { rewrite He, (app_assoc magic), (app_assoc (magic ++ _)), <- (app_nil_r (le_bytes 8 last)).
    apply le_at_pre; [by rewrite !length_app, !length_le_bytes|by apply u64_bytes]. }
  rewrite bool_decide_eq_true_2 by done. cbn [negb orb Nat.eqb HEAD_BYTES Z.eqb Pos.eqb head_active_count head_slot_count head_last_id].
  destruct (Z.ltb_spec slots active); [lia|]. destruct (Z.eqb_spec slots 0), (Z.eqb_spec last 0), (Z.eqb_spec active 0);
    simpl; try done; lia.
Qed.

(** What [decode_head] accepts. *)
Lemma decode_head_wf e h : decode_head e = Ok h → head_wf h.
Proof.
  unfold decode_head. case_match eqn:E1; [done|]. cbn [head_active_count head_slot_count head_last_id].
  assert (∀ a, 0 ≤ le_at a 8 e ≤ u64_max)%Z as Hr.
  { intros a. unfold le_at. pose proof (le_value_range (take 8 (drop a e))) as Hr.
    assert (256 ^ Z.of_nat (length (take 8 (drop a e))) ≤ 256 ^ 8)%Z.
    { apply Z.pow_le_mono_r; [lia|]. rewrite length_take. lia. }
    unfold u64_max. simpl in *. lia. }
  case_match eqn:E2; [done|]. intros Hh. injection Hh as <-.
  apply orb_false_iff in E2 as [[E2 E3]%orb_false_iff E4]. apply Z.ltb_ge in E2. apply negb_false_iff, eqb_prop in E3.
  split; cbn [head_active_count head_slot_count head_last_id]; unfold u64.
  - pose proof (Hr 8%nat). lia.
  - apply Hr.
  - apply Hr.
  - rewrite <- !Z.eqb_eq, E3. done.
Qed.

(** *** Pages *)

Record page_wf (p : IndexPage) : Prop := {
  pw_length : length (page_ids p) = INDEX_PAGE_PHOTOS;
  pw_ids : Forall u64 (page_ids p);
  pw_asc : asc 0 (page_ids p);
  pw_active : page_active_count p = Z.of_nat (length (in_use (page_ids p)));
}.

Lemma decode_ids_encoded ids prev :
  Forall u64 ids → asc prev ids →
  decode_ids (length ids) prev (concat (map (le_bytes 8) ids)) = Ok (ids, Z.of_nat (length (in_use ids))).
Proof.
  revert prev. induction ids as [|x ids IH]; intros prev Hall Ha; [done|]. apply Forall_cons in Hall as [Hx Hall].
  simpl in Ha. cbn [length decode_ids map concat]. rewrite take_app_length' by (by rewrite length_le_bytes).
  rewrite drop_app_length' by (by rewrite length_le_bytes). rewrite le_value_bytes by (by apply u64_bytes).
  unfold in_use. cbn [List.filter]. fold (in_use ids). destruct (Z.eqb_spec x 0) as [->|Hne]; cbn [negb andb].
  - rewrite (IH prev) by done. simpl. do 2 f_equal. lia.
  - destruct Ha as [Hp Ha]. destruct (Z.leb_spec x prev); [lia|]. rewrite (IH x) by done. cbn [fst snd length]. simpl. do 2 f_equal. lia.
Qed.

Lemma decode_encode_page k p : (0 ≤ k ≤ u32_max)%Z → page_wf p → decode_page k (encode_page k p) = Ok p.
Proof.
  intros Hk [Hn Hu Ha Hc]. destruct p as [active ids]. cbn [page_ids page_active_count] in *. unfold decode_page.
  set (e := encode_page _ _). set (magic := PAGE_MAGIC ++ [byte_of_Z 2; zero]).
  assert (e = magic ++ le_bytes 2 active ++ le_bytes 4 k ++ le_bytes 4 0 ++ concat (map (le_bytes 8) ids)) as He by done.
  assert (length (concat (map (le_bytes 8) ids)) = 2048%nat) as Hlen.
  { transitivity (8 * length ids)%nat; [|by rewrite Hn]. clear. induction ids as [|x ids IH]; [done|].
    cbn [map concat length]. rewrite length_app, length_le_bytes, IH. lia. }
  assert (length e = PAGE_BYTES) as ->. { rewrite He, !length_app, !length_le_bytes, Hlen. done. }
  assert (take 4 e = PAGE_MAGIC) as -> by done. assert (le_at 4 1 e = 2%Z) as -> by done. assert (le_at 5 1 e = 0%Z) as -> by done.
  assert (le_at 8 4 e = k) as ->.
  { rewrite He, (app_assoc magic). apply le_at_pre; [by rewrite length_app, length_le_bytes|]. unfold u32_max in Hk. simpl. lia. }
  assert (le_at 12 4 e = 0%Z) as ->.
  { rewrite He, (app_assoc magic), (app_assoc (magic ++ _)). apply le_at_pre; [by rewrite !length_app, !length_le_bytes|done]. }
  assert (le_at 6 2 e = active) as ->.
  { rewrite He. apply le_at_pre; [done|]. rewrite Hc. pose proof (length_in_use ids) as Hi. rewrite Hn in Hi.
    unfold INDEX_PAGE_PHOTOS in Hi. simpl. lia. }
  assert (drop PAGE_HEADER_BYTES e = concat (map (le_bytes 8) ids)) as ->.
  { rewrite He, !app_assoc. rewrite drop_app_length'; [done|]. rewrite !length_app, !length_le_bytes. done. }
  rewrite Nat.eqb_refl, bool_decide_eq_true_2, !Z.eqb_refl by done. cbn [negb orb].
  rewrite <- Hn, decode_ids_encoded by done. cbn [snd fst]. rewrite Hc, Z.eqb_refl. done.
Qed.

Lemma le_value_u64 l : (length l ≤ 8)%nat → u64 (le_value l).
Proof.
  intros Hl. pose proof (le_value_range l) as Hr.
  assert (256 ^ Z.of_nat (length l) ≤ 256 ^ 8)%Z by (apply Z.pow_le_mono_r; lia).
  unfold u64, u64_max. simpl in *. lia.
Qed.

Lemma decode_ids_Ok n prev e ids c :
  decode_ids n prev e = Ok (ids, c) →
  length ids = n ∧ Forall u64 ids ∧ asc prev ids ∧ c = Z.of_nat (length (in_use ids)).
Proof.
  revert prev e ids c. induction n as [|n IH]; intros prev e ids c; simpl; [by intros [= <- <-]|].
  case_match eqn:E1; [done|]. case_match eqn:E2; [|done..]. destruct a as [ids' c']. intros [= <- <-].
  apply IH in E2 as (Hn&Hu&Ha&Hc). simpl. pose proof (le_value_u64 (take 8 e) ltac:(rewrite length_take; lia)) as H64.
  destruct (Z.eqb_spec (le_value (take 8 e)) 0) as [H0|H0]; cbn [negb andb] in *; cbn [negb length].
  - split_and!; [lia|by constructor|done|lia].
  - apply Z.leb_gt in E1. split_and!; [lia|by constructor|done|done|lia].
Qed.

Lemma decode_page_wf k e p : decode_page k e = Ok p → page_wf p.
Proof.
  unfold decode_page. case_match; [done|]. case_match eqn:E1; [|done..]. case_match eqn:E2; [done|]. intros [= <-].
  destruct a as [ids c]. apply decode_ids_Ok in E1 as (Hn&Hu&Ha&Hc). apply negb_false_iff, Z.eqb_eq in E2. simpl in *.
  split; simpl; [done..|congruence].
Qed.
Lemma decode_ids_np n prev e : decode_ids n prev e ≠ Panicked.
Proof.
  revert prev e. induction n as [|n IH]; intros prev e; simpl; [done|]. case_match; [done|].
  case_match eqn:E; [done..|]. by apply IH in E.
Qed.
Lemma decode_page_np k e : decode_page k e ≠ Panicked.
Proof.
  unfold decode_page. case_match; [done|]. case_match eqn:E; [by case_match|done|]. by apply decode_ids_np in E.
Qed.
Lemma decode_head_np e : decode_head e ≠ Panicked.
Proof. unfold decode_head. case_match; [done|]. by case_match. Qed.

Lemma last_default (l : list Z) d d' : l ≠ [] → List.last l d = List.last l d'.
Proof. induction l as [|x [|y l] IH]; simpl; [done..|]. intros _. by apply IH. Qed.
Lemma decode_legacy_ids_Ok n prev e ids :
  (0 ≤ prev)%Z → decode_legacy_ids n prev e = Ok ids →
  length ids = n ∧ Forall u64 ids ∧ asc prev ids ∧ in_use ids = ids ∧ List.last ids prev = top prev ids.
Proof.
  revert prev e ids. induction n as [|n IH]; intros prev e ids Hp; simpl; [by intros [= <-]|].
  case_match eqn:E1; [done|]. case_match eqn:E2; [|done..]. intros [= <-]. apply orb_false_iff in E1 as [E0 E1].
  pose proof (le_value_u64 (take 8 e) ltac:(rewrite length_take; lia)) as H64. apply Z.leb_gt in E1.
  apply IH in E2 as (Hn&Hu&Ha&Hi&Ht); [|unfold u64 in *; lia]. simpl. rewrite E0. cbn [negb]. rewrite Hi, <- Ht.
  split_and!; [lia|by constructor|done|done|done|]. destruct a; [done|]. by apply last_default.
Qed.
Lemma decode_legacy_ids_np n prev e : decode_legacy_ids n prev e ≠ Panicked.
Proof.
  revert prev e. induction n as [|n IH]; intros prev e; simpl; [done|]. case_match; [done|].
  case_match eqn:E; [done..|]. by apply IH in E.
Qed.
Lemma decode_legacy_np e : decode_legacy_index e ≠ Panicked.
Proof.
  unfold decode_legacy_index. case_match; [done|]. case_match; [done|]. case_match eqn:E; [done..|].
  by apply decode_legacy_ids_np in E.
Qed.
Lemma decode_legacy_Ok e l :
  decode_legacy_index e = Ok l →
  (length (legacy_ids l) ≤ LEGACY_MAX_PHOTOS)%nat ∧ Forall u64 (legacy_ids l) ∧ asc 0 (legacy_ids l) ∧
  in_use (legacy_ids l) = legacy_ids l ∧ List.last (legacy_ids l) 0%Z = top 0 (legacy_ids l).
Proof.
  unfold decode_legacy_index. case_match; [done|]. case_match eqn:E; [done|]. case_match eqn:E2; [|done..]. intros [= <-].
  apply orb_false_iff in E as [E _]. apply Nat.ltb_ge in E. apply decode_legacy_ids_Ok in E2 as (Hn&?); [|done].
  simpl. by rewrite Hn.
Qed.
