(* ===== verification/PhotoLibraryRep.v ===== *)
(** * The photo library: what a store represents

    [Library m slots last] says that the store [m] holds the index whose slots
    are [slots], the photo numbers in their order with 0 for a removed photo,
    [last] being the highest number ever given.  The keys of the index and of
    the photos are disjoint, so that storing pictures leaves the index alone. *)

From S2P Require Import Prelude RustStr Bytes Manifest HostFs Checkpoint Package StorageProtocol StorageClient PhotoLibrary PhotoLibraryLogic.

(** ** Keys *)

(** Every key that belongs to a photo. *)
Definition photo_keys (id : Z) : list string :=
  [blob_key id; staged_key (blob_key id); original_blob_key id; staged_key (original_blob_key id); metadata_key id]
  ++ map (legacy_chunk_key id) (seq 0 CHUNK_COUNT).

Lemma string_app_same_length (a b c d : string) :
  String.length a = String.length b → a +:+ c = b +:+ d → a = b.
Proof.
  revert b. induction a as [|x a IH]; intros [|y b] Hl He; cbn [String.length String.append] in *; [done..|].
  injection He as -> He. f_equal. apply IH; [lia|done].
Qed.

Lemma photo_keys_shape id k :
  k ∈ photo_keys id → ∃ suffix, k = photo_prefix id +:+ suffix ∨ k = staged_key (photo_prefix id +:+ suffix).
Proof.
  unfold photo_keys. intros [Hk|Hk]%elem_of_app.
  - apply elem_of_cons in Hk as [->|Hk]; [exists ".rgb565"; left; reflexivity|].
    apply elem_of_cons in Hk as [->|Hk]; [exists ".rgb565"; right; reflexivity|].
    apply elem_of_cons in Hk as [->|Hk]; [exists ".jpg"; left; reflexivity|].
    apply elem_of_cons in Hk as [->|Hk]; [exists ".jpg"; right; reflexivity|].
    apply list_elem_of_singleton in Hk as ->. exists ".meta". left; reflexivity.
  - revert Hk. generalize (seq 0 CHUNK_COUNT). intros chunks Hk. apply list_elem_of_In, in_map_iff in Hk as (c&<-&_). exists (".c" +:+ two_digits c). left; reflexivity.
Qed.
Lemma photo_key_first id k : k ∈ photo_keys id → String.get 0 k = Some "p"%char ∨ String.get 0 k = Some "."%char.
Proof. intros (suffix&[->| ->])%photo_keys_shape; [by left|by right]. Qed.

Lemma photo_prefix_length id : String.length (photo_prefix id) = 17%nat.
Proof. unfold photo_prefix. by rewrite str_length_app, lower_hex_length, length_be_bytes. Qed.
Lemma photo_prefix_inj a b : u64 a → u64 b → photo_prefix a = photo_prefix b → a = b.
Proof.
  intros Ha Hb He. unfold photo_prefix in He. apply (inj (String.app "p")), lower_hex_inj in He.
  by apply be_bytes_inj in He; [|by apply u64_bytes..].
Qed.
(** The keys of two photos are disjoint. *)
Lemma photo_keys_disjoint a b k : u64 a → u64 b → k ∈ photo_keys a → k ∈ photo_keys b → a = b.
Proof.
  intros Ha Hb Hka Hkb. apply photo_keys_shape in Hka as (x&Hka), Hkb as (y&Hkb).
  assert (photo_prefix a +:+ x = photo_prefix b +:+ y) as He.
  { destruct Hka as [->| ->], Hkb as [He|He]; [done|discriminate He|discriminate He|]. by apply (inj (String.app ".cp0-blob-")) in He. }
  apply (photo_prefix_inj a b Ha Hb). eapply string_app_same_length; [|exact He]. by rewrite !photo_prefix_length.
Qed.

Lemma page_key_inj a b : (0 ≤ a ≤ u32_max)%Z → (0 ≤ b ≤ u32_max)%Z → page_key a = page_key b → a = b.
Proof.
  intros Ha Hb He. unfold page_key in He. apply (inj (String.app "index.v2.")), lower_hex_inj in He.
  by apply be_bytes_inj in He; [|unfold u32_max in *; simpl; lia..].
Qed.

Lemma page_key_ne_head n : page_key n ≠ PHOTO_LIBRARY_HEAD_KEY.
Proof. done. Qed.
Lemma page_key_ne_legacy n : page_key n ≠ PHOTO_LIBRARY_LEGACY_INDEX_KEY.
Proof. done. Qed.
Lemma head_not_photo id : PHOTO_LIBRARY_HEAD_KEY ∉ photo_keys id.
Proof. by intros [|]%photo_key_first. Qed.
Lemma legacy_not_photo id : PHOTO_LIBRARY_LEGACY_INDEX_KEY ∉ photo_keys id.
Proof. by intros [|]%photo_key_first. Qed.
Lemma page_not_photo n id : page_key n ∉ photo_keys id.
Proof. by intros [|]%photo_key_first. Qed.

(** ** The index *)

(** The slots of a page. *)
Definition page_of (k : nat) (slots : list Z) : list Z := take INDEX_PAGE_PHOTOS (drop (INDEX_PAGE_PHOTOS * k) slots).

Record slots_wf (slots : list Z) (last : Z) : Prop := {
  sw_asc : asc 0 slots;
  sw_range : Forall (λ x, 0 ≤ x ≤ last)%Z slots;
  sw_last : u64 last;
  sw_length : (Z.of_nat (length slots) ≤ (u32_max + 1) * Z.of_nat INDEX_PAGE_PHOTOS)%Z;
  sw_zero : length slots = 0%nat ↔ last = 0%Z;
}.

(** Page [k] is stored and agrees with the slots; what it has beyond them is of
    no account. *)
Definition page_stored (m : pstore) (slots : list Z) (k : nat) : Prop :=
  ∃ e p, m !! page_key (Z.of_nat k) = Some e ∧ decode_page (Z.of_nat k) e = Ok p ∧ page_of k slots `prefix_of` page_ids p.
Definition pages_stored (m : pstore) (slots : list Z) : Prop :=
  ∀ k, (INDEX_PAGE_PHOTOS * k < length slots)%nat → page_stored m slots k.

Definition committed (m : pstore) (slots : list Z) (last : Z) : Prop :=
  ∃ e h, m !! PHOTO_LIBRARY_HEAD_KEY = Some e ∧ decode_head e = Ok h ∧
    head_slot_count h = Z.of_nat (length slots) ∧ head_last_id h = last ∧ pages_stored m slots.
(** Not yet migrated from the first format, or empty. *)
Definition unmigrated (m : pstore) (slots : list Z) (last : Z) : Prop :=
  m !! PHOTO_LIBRARY_HEAD_KEY = None ∧
  match m !! PHOTO_LIBRARY_LEGACY_INDEX_KEY with
  | Some e => ∃ l, decode_legacy_index e = Ok l ∧ slots = legacy_ids l
  | None => slots = []
  end ∧ last = List.last slots 0%Z.

Definition Library (m : pstore) (slots : list Z) (last : Z) : Prop :=
  slots_wf slots last ∧ (committed m slots last ∨ unmigrated m slots last).

(** The head as an update writes it, with the number of photos in use. *)
Definition exact_head (slots : list Z) (last : Z) : Head := mkHead (Z.of_nat (length (in_use slots))) (Z.of_nat (length slots)) last.
Definition head_exact (m : pstore) (slots : list Z) (last : Z) : Prop :=
  m !! PHOTO_LIBRARY_HEAD_KEY = Some (encode_head (exact_head slots last)).

(** The head counts slots of a page that is not there. *)
Definition pages_lost (m : pstore) : Prop :=
  ∃ e h k, m !! PHOTO_LIBRARY_HEAD_KEY = Some e ∧ decode_head e = Ok h ∧ (Z.of_nat k ≤ u32_max)%Z ∧
    (Z.of_nat (INDEX_PAGE_PHOTOS * k) < head_slot_count h)%Z ∧ m !! page_key (Z.of_nat k) = None.

(** Only the keys of the index matter. *)
Lemma committed_agree m m' slots last :
  m' !! PHOTO_LIBRARY_HEAD_KEY = m !! PHOTO_LIBRARY_HEAD_KEY →
  (∀ k, (INDEX_PAGE_PHOTOS * k < length slots)%nat → page_stored m slots k → page_stored m' slots k) →
  committed m slots last → committed m' slots last.
Proof. intros Hh Hp (e&h&He&Hd&Hs&Hl&Hall). exists e, h. rewrite Hh. split_and!; [done..|]. intros k Hk. by apply Hp, Hall. Qed.
Lemma page_stored_agree m m' slots k :
  m' !! page_key (Z.of_nat k) = m !! page_key (Z.of_nat k) → page_stored m slots k → page_stored m' slots k.
Proof. unfold page_stored. by intros ->. Qed.
Lemma Library_agree m m' slots last :
  m' !! PHOTO_LIBRARY_HEAD_KEY = m !! PHOTO_LIBRARY_HEAD_KEY →
  m' !! PHOTO_LIBRARY_LEGACY_INDEX_KEY = m !! PHOTO_LIBRARY_LEGACY_INDEX_KEY →
  (∀ n, m' !! page_key n = m !! page_key n) → Library m slots last → Library m' slots last.
Proof.
  intros Hh Hg Hp [Hw [Hc|Hu]]; (split; [done|]); [left|right].
  - eapply committed_agree; [done| |done]. intros k _. by apply page_stored_agree.
  - unfold unmigrated. by rewrite Hh, Hg.
Qed.

Lemma pages_lost_agree m m' :
  m' !! PHOTO_LIBRARY_HEAD_KEY = m !! PHOTO_LIBRARY_HEAD_KEY →
  (∀ n, m !! page_key n = None → m' !! page_key n = None) → pages_lost m → pages_lost m'.
Proof. intros Hh Hp (e&h&k&He&Hd&Hk&Hc&Hn). exists e, h, k. rewrite Hh. split_and!; auto. Qed.

Lemma page_slots_of h k slots : head_slot_count h = Z.of_nat (length slots) → page_slots h (Z.of_nat k) = length (page_of k slots).
Proof. intros Hh. unfold page_slots, page_of. rewrite Hh, length_take, length_drop. unfold INDEX_PAGE_PHOTOS. lia. Qed.
Lemma page_of_length k slots : (length (page_of k slots) ≤ INDEX_PAGE_PHOTOS)%nat.
Proof. unfold page_of. rewrite length_take. lia. Qed.
Lemma page_of_step k (slots : list Z) : drop (INDEX_PAGE_PHOTOS * k) slots = page_of k slots ++ drop (INDEX_PAGE_PHOTOS * S k) slots.
Proof.
  unfold page_of. rewrite <- (take_drop INDEX_PAGE_PHOTOS (drop _ slots)) at 1. f_equal. rewrite drop_drop. f_equal. lia.
Qed.
Lemma page_of_all k (slots : list Z) : (length slots ≤ INDEX_PAGE_PHOTOS * k)%nat → drop (INDEX_PAGE_PHOTOS * k) slots = [].
Proof. apply drop_ge. Qed.
Lemma div_ceil_pages (slots : list Z) :
  let n := Z.to_nat (div_ceil_page (Z.of_nat (length slots))) in
  (length slots ≤ INDEX_PAGE_PHOTOS * n)%nat ∧ ∀ k, (k < n)%nat → (INDEX_PAGE_PHOTOS * k < length slots)%nat.
Proof.
  unfold div_ceil_page. change (Z.of_nat INDEX_PAGE_PHOTOS) with 256%Z.
  set (q := ((Z.of_nat (length slots) + 256 - 1) / 256)%Z). assert (0 ≤ q)%Z by (apply Z.div_pos; lia).
  pose proof (Z.mul_div_le (Z.of_nat (length slots) + 256 - 1) 256 ltac:(lia)) as H1.
  pose proof (Z.mul_succ_div_gt (Z.of_nat (length slots) + 256 - 1) 256 ltac:(lia)) as H2. fold q in H1, H2.
  unfold INDEX_PAGE_PHOTOS. split; [lia|]. intros k Hk. lia.
Qed.
Lemma page_number_fits k slots last : slots_wf slots last → (INDEX_PAGE_PHOTOS * k < length slots)%nat → page_number_u32 (Z.of_nat k) = Ok (Z.of_nat k).
Proof.
  intros [_ _ _ Hl _] Hk. unfold page_number_u32, INDEX_PAGE_PHOTOS, u32_max in *. destruct (Z.ltb_spec (2 ^ 32 - 1) (Z.of_nat k)); [lia|done].
Qed.
