(* ===== verification/PhotoLibraryTriples.v ===== *)
(** * The photo library: its operations on the index

    What each operation does to a store that represents an index, under any
    invariants [I] of the stores passed through and [D] of those that follow a
    lost write of the head. *)

From S2P Require Import Prelude RustStr Bytes Manifest HostFs Checkpoint Package StorageProtocol StorageClient PhotoLibrary PhotoLibraryLogic PhotoLibraryRep.

(** ** Pages *)

Lemma canonical_ids p c :
  page_wf p → c `prefix_of` page_ids p →
  canonicalize_page p (length c) = mkIndexPage (Z.of_nat (length (in_use c))) (c ++ replicate (INDEX_PAGE_PHOTOS - length c) 0%Z).
Proof.
  intros [Hn _ _ _] [r Hr]. unfold canonicalize_page. rewrite Hn, Hr, take_app_length. done.
Qed.
Lemma canonical_wf slots last c n :
  slots_wf slots last → (∀ x, x ∈ c → x ∈ slots) → asc 0 c → (length c + n)%nat = INDEX_PAGE_PHOTOS →
  page_wf (mkIndexPage (Z.of_nat (length (in_use c))) (c ++ replicate n 0%Z)).
Proof.
  intros [_ Hr Hl _ _] Hs Ha Hn. split; cbn [page_ids page_active_count].
  - by rewrite length_app, length_replicate.
  - apply Forall_app. split; [|by apply Forall_replicate; unfold u64, u64_max; lia].
    apply Forall_forall. intros x Hx. rewrite Forall_forall in Hr. specialize (Hr x (Hs x Hx)). unfold u64 in *. lia.
  - apply asc_app. split; [done|apply asc_zeros].
  - by rewrite in_use_app, in_use_zeros, app_nil_r.
Qed.

Lemma reconcile_ids_Ok last ids active prev :
  asc prev ids → Forall (λ x, x ≤ last)%Z ids → (0 ≤ active)%Z → (active + Z.of_nat (length (in_use ids)) ≤ u64_max)%Z →
  reconcile_ids last ids active prev = Ok ((active + Z.of_nat (length (in_use ids)))%Z, top prev ids).
Proof.
  revert active prev. induction ids as [|x ids IH]; intros active prev Ha Hall H0 Hmax.
  - simpl. do 2 f_equal. lia.
  - apply Forall_cons in Hall as [Hx Hall]. unfold in_use in *. cbn [reconcile_ids asc top List.filter] in *.
    destruct (Z.eqb_spec x 0) as [->|Hne]; cbn [negb length] in *; [by apply IH|].
    destruct Ha as [Hp Ha]. destruct (Z.leb_spec x prev); [lia|]. destruct (Z.ltb_spec last x); [lia|]. cbn [orb].
    unfold checked_add_u64. destruct (Z.leb_spec (active + 1) u64_max); [|lia]. cbn [ok_or]. rewrite IH by (done || lia).
    do 2 f_equal. lia.
Qed.

Section operations.
  Context {S : Type} `{PhotoStorage S, !PhotoStorageLaws S} (I D : pstore → Prop) (request_id : Z).

Lemma pt_store_page k p P Q X :
  (∀ m, P m → I m ∧ I (<[page_key k := encode_page k p]> m) ∧ Q tt (<[page_key k := encode_page k p]> m) ∧
     ∀ e, X e m ∧ X e (<[page_key k := encode_page k p]> m)) →
  ptriple I D P (store_page request_id k p) Q X.
Proof. intros Hx. apply pt_map_err, pt_put; [apply page_key_ne_head|]. intros m HP. destruct (Hx m HP) as (?&?&?&HX). split_and!; try done; intros e; apply HX. Qed.
Lemma pt_store_head h P Q X :
  (∀ m, P m → I m ∧ I (<[PHOTO_LIBRARY_HEAD_KEY := encode_head h]> m) ∧ Q tt (<[PHOTO_LIBRARY_HEAD_KEY := encode_head h]> m) ∧
     (∀ e, X e m) ∧ D (<[PHOTO_LIBRARY_HEAD_KEY := encode_head h]> m)) →
  ptriple I D P (store_head request_id h) Q X.
Proof. intros Hx. apply pt_map_err, pt_put_head. intros m HP. destruct (Hx m HP) as (?&?&?&?&?). split_and!; auto. Qed.
Lemma pt_from_get k P Q X :
  (∀ m, P m → I m ∧ Q (m !! k) m ∧ ∀ e, X (PiStorage e) m) → ptriple I D P (from_storage (storage_get request_id k)) Q X.
Proof. intros Hx. apply pt_map_err, pt_get. intros m HP. destruct (Hx m HP) as (?&?&?). auto. Qed.

Lemma pt_load_page k P Q X :
  (∀ m, P m → I m ∧ (∀ e, X (PiStorage e) m) ∧
     match m !! page_key k with
     | Some e => ∃ p, decode_page k e = Ok p ∧ Q (Some p) m
     | None => Q None m
     end) →
  ptriple I D P (load_page request_id k) Q X.
Proof.
  intros Hx. eapply pt_bind; [apply (pt_from_get _ _ (λ o m, P m ∧ o = m !! page_key k))|].
  - intros m HP. destruct (Hx m HP) as (?&?&?). auto.
  - intros [e|].
    + eapply pt_bind with (R := λ p m, Q (Some p) m); [|intros p; by apply pt_ret].
      apply pt_lift. intros m [HP He]. destruct (Hx m HP) as (_&_&Hm). rewrite <- He in Hm. by destruct Hm as (p&->&HQ).
    + apply pt_ret. intros m [HP He]. destruct (Hx m HP) as (_&_&Hm). by rewrite <- He in Hm.
Qed.

(** The three lines that open the loops over the pages. *)
Lemma pt_page_then {A} slots last k P (body : Z → IndexPage → SM S PhotoImportError A) Q X :
  slots_wf slots last → (INDEX_PAGE_PHOTOS * k < length slots)%nat →
  (∀ m, P m → I m ∧ page_stored m slots k ∧ ∀ e, X (PiStorage e) m) →
  (∀ p, page_wf p → page_of k slots `prefix_of` page_ids p → ptriple I D P (body (Z.of_nat k) p) Q X) →
  ptriple I D P (let+ n := sm_lift (page_number_u32 (Z.of_nat k)) in
              let+ page := load_page request_id n in
              let+ page := sm_lift (ok_or page PiInvalidIndex) in
              body n page) Q X.
Proof.
  intros Hw Hk HP Hb. rewrite (page_number_fits k slots last) by done.
  eapply pt_bind with (R := λ n m, n = Z.of_nat k ∧ P m); [by apply pt_lift|]. intros n. apply pt_pure. intros ->.
  eapply pt_bind with (R := λ o m, (∃ p, o = Some p ∧ page_wf p ∧ page_of k slots `prefix_of` page_ids p) ∧ P m).
  - apply pt_load_page. intros m Hm. destruct (HP m Hm) as (HI&(e&p&->&Hd&Hpre)&HX). split_and!; [done..|].
    exists p. split; [done|]. split; [|done]. exists p. split_and!; [done|by eapply decode_page_wf|done].
  - intros o. apply pt_pure. intros (p&->&Hp&Hpre).
    eapply pt_bind with (R := λ q m, q = p ∧ P m); [by apply pt_lift|]. intros q. apply pt_pure. intros ->. by apply Hb.
Qed.

(** ** Loading the head *)

(** Reading leaves the store alone. *)
Lemma pt_reconcile_pages slots last h P X n k active prev :
  slots_wf slots last → head_slot_count h = Z.of_nat (length slots) → head_last_id h = last →
  (∀ m, P m → I m ∧ pages_stored m slots ∧ ∀ e, X e m) →
  (length slots ≤ INDEX_PAGE_PHOTOS * (k + n))%nat → (∀ j, (j < k + n)%nat → (INDEX_PAGE_PHOTOS * j < length slots)%nat) →
  prev = top 0 (take (INDEX_PAGE_PHOTOS * k) slots) → active = Z.of_nat (length (in_use (take (INDEX_PAGE_PHOTOS * k) slots))) →
  ptriple I D P (reconcile_pages request_id n (Z.of_nat k) h active prev) (λ a m, a = Z.of_nat (length (in_use slots)) ∧ P m) X.
Proof.
  intros Hw Hh Hl HP. revert k active prev. induction n as [|n IH]; intros k active prev Hend Hin Hprev Hact.
  { apply pt_ret. intros m Hm. split; [|done]. rewrite Hact, take_ge by (rewrite Nat.add_0_r in Hend; done). done. }
  assert (INDEX_PAGE_PHOTOS * k < length slots)%nat as Hk by (apply Hin; lia).
  cbn [reconcile_pages]. eapply (pt_page_then slots last k); [done|done| |].
  { intros m Hm. destruct (HP m Hm) as (?&Hs&?). split_and!; [done|by apply Hs|done]. }
  intros p Hp Hpre. rewrite (page_slots_of h k slots Hh), canonical_ids by done. cbn [page_ids]. rewrite take_app_length.
  assert (take (INDEX_PAGE_PHOTOS * Datatypes.S k) slots = take (INDEX_PAGE_PHOTOS * k) slots ++ page_of k slots) as Hstep.
  { unfold page_of. rewrite take_take_drop. f_equal. lia. }
  destruct Hw as [Ha Hr Hu Hlen Hz]. assert (asc 0 (take (INDEX_PAGE_PHOTOS * Datatypes.S k) slots)) as Ha'.
  { rewrite <- (take_drop (INDEX_PAGE_PHOTOS * Datatypes.S k) slots) in Ha. by apply asc_app in Ha as [Ha _]. }
  rewrite Hstep in Ha'. apply asc_app in Ha' as [_ Ha']. rewrite <- Hprev in Ha'.
  assert (length (in_use (take (INDEX_PAGE_PHOTOS * k) slots)) + length (in_use (page_of k slots)) ≤ length slots)%nat as Hsum.
  { rewrite <- length_app, <- in_use_app, <- Hstep. etrans; [apply length_in_use|]. rewrite length_take. lia. }
  rewrite (reconcile_ids_Ok (head_last_id h)).
  - eapply pt_bind with (R := λ c m, c = (_, _) ∧ P m); [apply pt_lift; intros m Hm; split; [reflexivity|done]|].
    intros c. apply pt_pure. intros ->. cbn [fst snd]. replace (Z.of_nat k + 1)%Z with (Z.of_nat (Datatypes.S k)) by lia.
    apply IH; [by replace (Datatypes.S k + n)%nat with (k + Datatypes.S n)%nat by lia|intros j Hj; apply Hin; lia|by rewrite Hstep, top_app, <- Hprev|].
    rewrite Hact, Hstep, in_use_app, length_app. lia.
  - done.
  - unfold page_of. apply Forall_take, Forall_drop. rewrite Hl. eapply Forall_impl; [exact Hr|]. simpl. lia.
  - lia.
  - unfold u32_max, u64_max, INDEX_PAGE_PHOTOS in *. lia.
Qed.

Lemma pt_reconcile_head slots last h P X :
  slots_wf slots last → head_slot_count h = Z.of_nat (length slots) → head_last_id h = last →
  (∀ m, P m → I m ∧ pages_stored m slots ∧ ∀ e, X e m) →
  ptriple I D P (reconcile_head request_id h)
    (λ h' m, h' = exact_head slots last ∧ P m) X.
Proof.
  intros Hw Hh Hl HP. unfold reconcile_head. rewrite Hh. destruct (div_ceil_pages slots) as [Hend Hin].
  eapply pt_bind; [eapply (pt_reconcile_pages slots last h P X _ 0); try done|].
  intros a. apply pt_pure. intros ->. apply pt_ret. intros m Hm. by rewrite Hl.
Qed.

End operations.

(** ** Migration *)

Lemma unmigrated_agree m m' slots last :
  m' !! PHOTO_LIBRARY_HEAD_KEY = m !! PHOTO_LIBRARY_HEAD_KEY →
  m' !! PHOTO_LIBRARY_LEGACY_INDEX_KEY = m !! PHOTO_LIBRARY_LEGACY_INDEX_KEY → unmigrated m slots last → unmigrated m' slots last.
Proof. unfold unmigrated. by intros -> ->. Qed.

(** A predicate that does not look at the head and the pages. *)
Definition index_frame (F : pstore → Prop) : Prop :=
  ∀ m m', (∀ k, k ≠ PHOTO_LIBRARY_HEAD_KEY → (∀ n, k ≠ page_key n) → m' !! k = m !! k) → F m → F m'.
Lemma index_frame_put_page F n v m : index_frame F → F m → F (<[page_key n := v]> m).
Proof. intros HF. apply HF. intros k _ Hk. by rewrite lookup_insert_ne by (by apply not_eq_sym). Qed.
Lemma index_frame_delete_page F n m : index_frame F → F m → F (delete (page_key n) m).
Proof. intros HF. apply HF. intros k _ Hk. by rewrite lookup_delete_ne by (by apply not_eq_sym). Qed.
Lemma index_frame_put_head F v m : index_frame F → F m → F (<[PHOTO_LIBRARY_HEAD_KEY := v]> m).
Proof. intros HF. apply HF. intros k Hk _. by rewrite lookup_insert_ne by (by apply not_eq_sym). Qed.

Lemma in_use_head_wf slots last :
  slots_wf slots last → head_wf (exact_head slots last).
Proof.
  intros [Ha Hr Hu Hl Hz]. pose proof (length_in_use slots). unfold u64, u32_max, u64_max, INDEX_PAGE_PHOTOS in *.
  split; cbn [head_active_count head_slot_count head_last_id exact_head]; unfold u64, u64_max; [lia..|]. rewrite <- Hz. lia.
Qed.
(** Writing the head commits the slots whose pages are stored. *)
Lemma commit_head m slots last :
  slots_wf slots last → pages_stored m slots →
  committed (<[PHOTO_LIBRARY_HEAD_KEY := encode_head (exact_head slots last)]> m) slots last.
Proof.
  intros Hw Hp. eexists _, _. split; [apply lookup_insert_eq|]. split; [by apply decode_encode_head, in_use_head_wf|].
  split_and!; [done..|]. intros k Hk. eapply page_stored_agree; [|by apply Hp]. by rewrite lookup_insert_ne.
Qed.
Lemma store_page_stored m k p slots :
  (Z.of_nat k ≤ u32_max)%Z → page_wf p → page_of k slots `prefix_of` page_ids p →
  page_stored (<[page_key (Z.of_nat k) := encode_page (Z.of_nat k) p]> m) slots k.
Proof. intros Hk Hp Hpre. eexists _, p. split; [apply lookup_insert_eq|]. split; [by apply decode_encode_page; [lia|]|done]. Qed.

Section load_head.
  Context {S : Type} `{PhotoStorage S, !PhotoStorageLaws S} (I : pstore → Prop) (request_id : Z).
  Context (slots : list Z) (last : Z) (F : pstore → Prop) (HF : index_frame F) (Hw : slots_wf slots last).
  Context (HI : ∀ m, Library m slots last → F m → I m).

Lemma library_unmigrated m : unmigrated m slots last → F m → I m.
Proof. intros Hu HFm. apply HI; [|done]. split; [done|by right]. Qed.

(** A write of the head whose reply is lost commits the index; then its first
    page is deleted. *)
Definition migration_lost (m : pstore) : Prop := (committed m slots last ∨ pages_lost m) ∧ F m.
Lemma migration_lost_delete m : (0 < length slots)%nat → migration_lost m → migration_lost (delete (page_key 0) m).
Proof.
  intros Hne [Hm HFm]. split; [right|by apply index_frame_delete_page]. destruct Hm as [(e&h&He&Hd&Hs&_)|Hm].
  - exists e, h, 0%nat. rewrite lookup_delete_ne, lookup_delete_eq by done. split_and!; [done..|unfold u32_max; lia| |done]. rewrite Hs. lia.
  - eapply pages_lost_agree; [by rewrite lookup_delete_ne| |exact Hm]. intros n Hn. by apply lookup_delete_None; right.
Qed.

Lemma pt_migrate l :
  slots = legacy_ids l → last = List.last slots 0%Z → (length slots ≤ LEGACY_MAX_PHOTOS)%nat → in_use slots = slots →
  ptriple I migration_lost (λ m, unmigrated m slots last ∧ F m) (migrate_legacy request_id l)
    (λ h m, h = exact_head slots last ∧ committed m slots last ∧ F m)
    (λ _ m, Library m slots last ∧ F m).
Proof.
  intros Hs Hl Hmax Huse. unfold migrate_legacy. rewrite <- Hs, <- Hl. set (h := mkHead _ _ _).
  assert (h = exact_head slots last) as Hh by (unfold h, exact_head; by rewrite Huse).
  assert (∀ m, pages_stored m slots → F m →
    committed (<[PHOTO_LIBRARY_HEAD_KEY := encode_head h]> m) slots last ∧ F (<[PHOTO_LIBRARY_HEAD_KEY := encode_head h]> m) ∧
    I (<[PHOTO_LIBRARY_HEAD_KEY := encode_head h]> m) ∧ migration_lost (<[PHOTO_LIBRARY_HEAD_KEY := encode_head h]> m)) as Hcommit.
  { intros m Hp HFm. assert (committed (<[PHOTO_LIBRARY_HEAD_KEY := encode_head h]> m) slots last) as Hc by (rewrite Hh; by apply commit_head).
    assert (F (<[PHOTO_LIBRARY_HEAD_KEY := encode_head h]> m)) as HF' by (by apply index_frame_put_head).
    split_and!; [done|done| |split; [by left|done]]. apply HI; [|done]. split; [done|by left]. }
  assert (∀ m, unmigrated m slots last ∧ F m → Library m slots last ∧ F m) as HX by (intros m [? ?]; split; [split; [done|by right]|done]).
  destruct (Z.eqb_spec (Z.of_nat (length slots)) 0) as [H0|H0]; cbn [negb].
  - assert (∀ m, pages_stored m slots) as Hp by (intros m k Hk; lia).
    eapply pt_bind with (R := λ _ m, committed m slots last ∧ F m).
    + apply pt_store_head. intros m [Hu HFm]. destruct (Hcommit m (Hp m) HFm) as (?&?&?&?).
      split_and!; [by apply library_unmigrated|done..|by intros _; apply HX|done].
    + intros _. apply pt_ret. intros m [Hc HFm]. done.
  - set (p := mkIndexPage _ _). assert (page_of 0 slots = slots) as Hpage.
    { unfold page_of. rewrite Nat.mul_0_r, drop_0. apply take_ge. unfold LEGACY_MAX_PHOTOS, INDEX_PAGE_PHOTOS in *. lia. }
    assert (page_wf p) as Hpw.
    { unfold p. rewrite <- Huse at 1. eapply canonical_wf; [done|done|by destruct Hw|]. unfold LEGACY_MAX_PHOTOS, INDEX_PAGE_PHOTOS in *. lia. }
    assert (∀ v m, unmigrated m slots last ∧ F m → unmigrated (<[page_key 0 := v]> m) slots last ∧ F (<[page_key 0 := v]> m)) as Hput.
    { intros v m [Hu HFm]. split; [|by apply index_frame_put_page]. eapply unmigrated_agree; [..|exact Hu]; by rewrite lookup_insert_ne. }
    eapply pt_bind with (R := λ _ m, pages_stored m slots ∧ unmigrated m slots last ∧ F m).
    + apply pt_store_page. intros m Hm. pose proof (Hput (encode_page 0 p) m Hm) as Hm'.
      split_and!; [apply library_unmigrated; apply Hm|apply library_unmigrated; apply Hm'| |apply Hm'|apply Hm'|by intros _; split; apply HX].
      intros k Hk. assert (k = 0%nat) as -> by (unfold LEGACY_MAX_PHOTOS, INDEX_PAGE_PHOTOS in *; lia).
      apply (store_page_stored m 0); [done|done|]. rewrite Hpage. by eexists.
    + intros _. eapply (pt_try _ _ _ _ _ (λ _ m, committed m slots last ∧ F m) (λ _ m, unmigrated m slots last ∧ F m)).
      * apply pt_store_head. intros m (Hp&Hu&HFm). destruct (Hcommit m Hp HFm) as (?&?&?&?). split_and!; [by apply library_unmigrated|done..].
      * intros _. apply pt_ret. by intros m [Hc HFm].
      * intros e. eapply pt_bind with (R := λ _ m, unmigrated m slots last ∧ F m); [|intros _; by apply pt_err].
        apply pt_ignore, pt_delete. intros m [Hu HFm].
        assert (unmigrated (delete (page_key 0) m) slots last) by (eapply unmigrated_agree; [..|done]; by rewrite lookup_delete_ne).
        assert (F (delete (page_key 0) m)) by (by apply index_frame_delete_page).
        split_and!; [by apply library_unmigrated|by apply library_unmigrated|done..].
      * intros e. eapply pt_bind with (R := λ _, migration_lost); [|intros _; by apply pt_err].
        apply pt_ignore, pt_delete. intros m Hm. assert (migration_lost (delete (page_key 0) m)) by (apply migration_lost_delete; [lia|done]). done.
Qed.

(** The head to update, and the index committed: nothing is written if it is. *)
Lemma pt_load_committed :
  ptriple I never (λ m, committed m slots last ∧ F m) (load_head_for_update request_id)
    (λ h m, h = exact_head slots last ∧ committed m slots last ∧ F m)
    (λ _ m, Library m slots last ∧ F m).
Proof.
  assert (∀ m, committed m slots last ∧ F m → Library m slots last ∧ F m) as HX by (intros m [? ?]; split; [split; [done|by left]|done]).
  eapply pt_bind with (R := λ o m, ∃ e h, (o = Some e ∧ decode_head e = Ok h ∧ head_slot_count h = Z.of_nat (length slots) ∧ head_last_id h = last) ∧
    committed m slots last ∧ F m).
  { apply pt_from_get. intros m Hm. split; [by apply HI; apply HX|]. split; [|by intros _; apply HX].
    destruct Hm as [(e&h&He&Hd&Hs&Hl&Hp) HFm]. exists e, h. split_and!; [done..| |done]. exists e, h. done. }
  intros o. apply pt_exists; intros e. apply pt_exists; intros h. apply pt_pure. intros (->&Hd&Hs&Hl).
  eapply pt_bind with (R := λ h' m, h' = h ∧ committed m slots last ∧ F m); [apply pt_lift; intros m Hm; by rewrite Hd|].
  intros h'. apply pt_pure. intros ->. apply pt_reconcile_head; [done..|]. intros m Hm.
  split; [by apply HI; apply HX|]. split; [by destruct Hm as [(?&?&?&?&?&?&?) _]|]. by intros _; apply HX.
Qed.
Lemma pt_load_unmigrated :
  ptriple I migration_lost (λ m, unmigrated m slots last ∧ F m) (load_head_for_update request_id)
    (λ h m, h = exact_head slots last ∧ committed m slots last ∧ F m)
    (λ _ m, Library m slots last ∧ F m).
Proof.
  set (U := λ m, unmigrated m slots last ∧ F m).
  assert (∀ m, U m → Library m slots last ∧ F m) as HX by (intros m [? ?]; split; [split; [done|by right]|done]).
  assert (∀ m, U m → I m) as HUI by (intros m [? ?]; by apply library_unmigrated).
  eapply pt_bind with (R := λ o m, o = None ∧ U m).
  { apply pt_from_get. intros m HU. split; [by apply HUI|]. split; [split; [apply HU|done]|by intros _; apply HX]. }
  intros o. apply pt_pure. intros ->.
  eapply pt_bind with (R := λ o m, o = m !! PHOTO_LIBRARY_LEGACY_INDEX_KEY ∧ U m).
  { apply pt_from_get. intros m HU. split; [by apply HUI|]. split; [by split|by intros _; apply HX]. }
  intros o.
  eapply pt_bind with (R := λ l m, (slots = legacy_ids l ∧ last = List.last slots 0%Z ∧ (length slots ≤ LEGACY_MAX_PHOTOS)%nat ∧ in_use slots = slots) ∧ U m).
  2: { intros l. apply pt_pure. intros (?&?&?&?). by apply pt_migrate. }
  destruct o as [e|]; [apply pt_lift|apply pt_ret]; intros m [He HU]; pose proof HU as [(_&Hm&Hl) _]; rewrite <- He in Hm.
  - destruct Hm as (l&Hd&->). rewrite Hd. split; [|done]. apply decode_legacy_Ok in Hd as (?&?&?&?&?). by split_and!.
  - subst slots. split; [|done]. split_and!; [done|done|simpl; lia|done].
Qed.
End load_head.

Section data.
  Context {S : Type} `{PhotoStorage S, !PhotoStorageLaws S} (I D : pstore → Prop) (request_id : Z).

(** ** Blobs *)

Lemma pt_put_chunks key total value fuel before R X :
  (∀ m, R m → I m) → (∀ m m', same_but key m m' → R m → R m') → (∀ e m, R m → X e m) →
  (length before + length value)%nat = total → (Z.of_nat total ≤ u32_max)%Z → (length value ≤ fuel)%nat →
  value ≠ [] →
  ptriple I D (λ m, R m ∧ (before ≠ [] → m !! staged_key key = Some before)) (put_chunks request_id fuel key (length before) total value)
    (λ _ m, R m ∧ m !! key = Some (before ++ value)) X.
Proof.
  intros HRI HRk HRX Htot Hu32. revert value before Htot.
  induction fuel as [|fuel IH]; intros value before Htot Hfuel Hne; [destruct value; simpl in *; lia || done|].
  destruct value as [|b rest]; [done|]. set (value := b :: rest) in *. cbn [put_chunks]. fold value.
  assert (0 < CHUNK_BYTES)%nat as Hpos by (apply Nat.ltb_lt; by vm_compute).
  set (chunk := take CHUNK_BYTES value). set (later := drop CHUNK_BYTES value).
  assert (value = chunk ++ later) as Hsplit by (symmetry; apply take_drop).
  assert (length value = length chunk + length later)%nat as Hlen by (rewrite <- length_app; congruence).
  assert (0 < length chunk)%nat as Hc0.
  { unfold chunk. rewrite length_take. assert (0 < length value)%nat by (unfold value; cbn [length]; lia). lia. }
  eapply pt_bind with (R := λ _ m, R m ∧ if bool_decide (later = []) then m !! key = Some (before ++ value)
    else m !! staged_key key = Some (before ++ chunk)).
  - apply pt_map_err, pt_chunk; [lia|lia|]. intros m m' [HR Hst] Hsame.
    assert (R m') as HR' by (by eapply HRk). split; [by apply HRI|]. split; [|intros e; by apply HRX].
    intros (before'&Hb&Heff). split; [done|].
    assert (before' = before) as ->.
    { destruct (Nat.eqb_spec (length before) 0) as [H0|H0]; [apply nil_length_inv in H0; congruence|].
      destruct Hb as [Hb _]. rewrite Hst in Hb by (by intros ->). congruence. }
    destruct (Nat.eqb_spec (length before + length chunk) total) as [He|He].
    + assert (later = []) as Hl by (apply nil_length_inv; lia). rewrite bool_decide_eq_true_2 by done.
      rewrite Heff, Hsplit, Hl, app_nil_r. done.
    + rewrite bool_decide_eq_false_2; [done|]. intros Hl. assert (length later = 0%nat) by (by rewrite Hl). lia.
  - intros _. case_bool_decide as Hl.
    + fold chunk later. rewrite Hl. destruct fuel; apply pt_ret; intros m [HR Hm]; done.
    + assert (length chunk = CHUNK_BYTES) as Hfull.
      { unfold chunk. rewrite length_take. assert (length later ≠ 0%nat) as Hl' by (intros Hz; apply Hl; by apply nil_length_inv).
        unfold later in Hl'. rewrite length_drop in Hl'. lia. }
      fold later. replace (length before + CHUNK_BYTES)%nat with (length (before ++ chunk)) by (rewrite length_app; lia).
      eapply pt_conseq; [apply (IH later (before ++ chunk))| | |done].
      * rewrite length_app. lia.
      * lia.
      * done.
      * intros m [HR Hm]. split; [done|]. by intros _.
      * intros [] m [HR Hm]. split; [done|]. rewrite Hm, Hsplit, app_assoc. done.
Qed.

Lemma pt_put_blob key value R X :
  (∀ m, R m → I m) → (∀ m m', same_but key m m' → R m → R m') → (∀ e m, R m → X e m) →
  value ≠ [] → (Z.of_nat (length value) ≤ MAX_STORAGE_BLOB_BYTES)%Z →
  ptriple I D R (put_blob request_id key value) (λ _ m, R m ∧ m !! key = Some value) X.
Proof.
  intros HRI HRk HRX Hne Hmax. unfold put_blob. rewrite bool_decide_eq_false_2 by done.
  destruct (Z.ltb_spec MAX_STORAGE_BLOB_BYTES (Z.of_nat (length value))); [lia|]. cbn [orb].
  eapply pt_conseq; [apply (pt_put_chunks key (length value) value (length value) [] R X)| |done|done]; try done.
  - assert (MAX_STORAGE_BLOB_BYTES ≤ u32_max)%Z by (by apply Z.leb_le; vm_compute). lia.
Qed.

(** ** The data of a photo *)

(** A predicate that does not look at the data of a photo. *)
Definition photo_frame (id : Z) (R : pstore → Prop) : Prop :=
  ∀ m m', (∀ k, k ∉ photo_keys id → m' !! k = m !! k) → R m → R m'.
Lemma photo_frame_same_but id key R m m' :
  photo_frame id R → key ∈ photo_keys id → staged_key key ∈ photo_keys id → same_but key m m' → R m → R m'.
Proof. intros HR Hk Hs Hsame. apply HR. intros k Hnk. apply Hsame; by intros ->. Qed.
Lemma photo_frame_delete id key R m : photo_frame id R → key ∈ photo_keys id → R m → R (delete key m).
Proof. intros HR Hk. apply HR. intros k Hnk. rewrite lookup_delete_ne; [done|]. by intros ->. Qed.

Definition gone (keys : list string) (m : pstore) : Prop := ∀ k, k ∈ keys → m !! k = None.
Lemma gone_delete keys k m : gone keys m → gone (k :: keys) (delete k m).
Proof.
  intros Hg k' [->|Hk']%elem_of_cons; [apply lookup_delete_eq|]. destruct (decide (k' = k)) as [->|Hne]; [apply lookup_delete_eq|].
  rewrite lookup_delete_ne by done. by apply Hg.
Qed.
Lemma gone_delete_blob keys k m m' :
  same_but k m m' → m' !! k = None → m' !! staged_key k = None → gone keys m → gone (k :: staged_key k :: keys) m'.
Proof.
  intros Hs Hk Hst Hg k' [->|[->|Hk']%elem_of_cons]%elem_of_cons; [done..|].
  destruct (decide (k' = k)) as [->|H1]; [done|]. destruct (decide (k' = staged_key k)) as [->|H2]; [done|].
  rewrite Hs by done. by apply Hg.
Qed.
Lemma gone_incl keys keys' m : (∀ k, k ∈ keys' → k ∈ keys) → gone keys m → gone keys' m.
Proof. intros Hi Hg k Hk. by apply Hg, Hi. Qed.

Section erase.
  Context (id : Z) (R : pstore → Prop) (HR : photo_frame id R) (HRI : ∀ m, R m → I m).

Lemma pt_erase_key keys k :
  k ∈ photo_keys id →
  ptriple I D (λ m, R m ∧ gone keys m) (storage_delete request_id k) (λ _ m, R m ∧ gone (k :: keys) m) (λ _, R).
Proof.
  intros Hk. apply pt_delete. intros m [HRm Hg]. assert (R (delete k m)) by exact (photo_frame_delete id k R m HR Hk HRm).
  split_and!; [auto|auto|done|by apply gone_delete|done].
Qed.
Lemma pt_erase_blob keys k :
  k ∈ photo_keys id → staged_key k ∈ photo_keys id →
  ptriple I D (λ m, R m ∧ gone keys m) (storage_delete_blob request_id k) (λ _ m, R m ∧ gone (k :: staged_key k :: keys) m) (λ _, R).
Proof.
  intros Hk Hs. apply pt_delete_blob. intros m m' [HRm Hg] Hsame. assert (R m') by exact (photo_frame_same_but id k R m m' HR Hk Hs Hsame HRm).
  split; [auto|]. split; [|done]. intros Hn Hn'. split; [done|]. by eapply gone_delete_blob.
Qed.
Lemma pt_erase_chunks chunks keys b :
  (∀ c, c ∈ chunks → legacy_chunk_key id c ∈ photo_keys id) →
  ptriple I D (λ m, R m ∧ gone keys m) (delete_chunks request_id chunks id b)
    (λ _ m, R m ∧ gone (keys ++ map (legacy_chunk_key id) chunks) m) (λ _, R).
Proof.
  revert keys b. induction chunks as [|c chunks IH]; intros keys b Hin; cbn [delete_chunks map].
  - apply pt_ret. intros m Hm. by rewrite app_nil_r.
  - eapply pt_bind; [apply (pt_erase_key keys (legacy_chunk_key id c)), (Hin c), elem_of_cons; by left|]. intros b'.
    eapply pt_conseq; [apply (IH (legacy_chunk_key id c :: keys))|done| |done].
    + intros c' Hc'. apply (Hin c'), elem_of_cons. by right.
    + intros _ m [HRm Hg]. split; [done|]. eapply gone_incl; [|exact Hg]. intros k. rewrite !elem_of_app, !elem_of_cons. tauto.
Qed.

Lemma chunk_in_photo_keys c : c ∈ seq 0 CHUNK_COUNT → legacy_chunk_key id c ∈ photo_keys id.
Proof.
  unfold photo_keys. generalize (seq 0 CHUNK_COUNT). intros l Hl. apply elem_of_app. right.
  apply list_elem_of_In, in_map. by apply list_elem_of_In.
Qed.

Lemma photo_keys_first : ∀ k, k ∈ [blob_key id; staged_key (blob_key id); original_blob_key id; staged_key (original_blob_key id); metadata_key id] →
  k ∈ photo_keys id.
Proof. intros k Hk. apply elem_of_app. by left. Qed.

Lemma pt_erase :
  ptriple I D R (delete_photo_storage request_id id) (λ _ m, R m ∧ gone (photo_keys id) m) (λ _, R).
Proof.
  eapply pt_conseq with (P' := λ m, R m ∧ gone [] m) (X' := λ _, R); [|intros m Hm; by split; [|intros k ?%elem_of_nil]|intros b m Hm; exact Hm|done].
  eapply pt_bind; [apply (pt_erase_blob [] (blob_key id)); apply photo_keys_first; rewrite !elem_of_cons; tauto|intros b1].
  eapply pt_bind; [eapply pt_erase_blob; apply photo_keys_first; rewrite !elem_of_cons; tauto|intros b2].
  eapply pt_bind; [eapply pt_erase_key; apply photo_keys_first; rewrite !elem_of_cons; tauto|intros b3].
  eapply pt_conseq; [apply pt_erase_chunks, chunk_in_photo_keys|intros m Hm; exact Hm| |done].
  intros _ m [HRm Hg]. split; [done|]. eapply gone_incl; [|exact Hg]. intros k.
  unfold photo_keys. generalize (map (legacy_chunk_key id) (seq 0 CHUNK_COUNT)). intros chunks. rewrite !elem_of_app, !elem_of_cons. tauto.
Qed.
End erase.
End data.

Lemma pt_cleanup_photo {S} `{PhotoStorage S, !PhotoStorageLaws S} (I D : pstore → Prop) request_id id R :
  photo_frame id R → (∀ m, R m → I m) → ptriple I D R (cleanup_photo request_id id) (λ _, R) (λ _ : PhotoImportError, R).
Proof.
  intros HR HRI. apply pt_ignore. eapply pt_conseq; [by apply (pt_erase I never request_id id R)|done| |done]. by intros _ m [? _].
Qed.
