(* ===== verification/PhotoLibraryImport.v ===== *)
(** * The photo library: adding a photo

    An import writes the data of the photo, then its page of the index, then
    the head; the head is the commit point.  [import_inv] is what holds of the
    store after each of these writes, [import_lost] and [import_damage] what
    holds from the write of the head on when its reply is lost and the import
    rolls back what is committed. *)

From S2P Require Import Prelude RustStr Bytes Manifest HostFs Checkpoint Package StorageProtocol StorageClient PhotoLibrary PhotoLibraryLogic PhotoLibraryRep PhotoLibraryTriples.

(** ** Frames *)

(** Nothing but [keys], the head and the pages differs from [m0]. *)
Definition changed_only (keys : list string) (m0 m : pstore) : Prop :=
  ∀ k, k ∉ keys → k ≠ PHOTO_LIBRARY_HEAD_KEY → (∀ n, k ≠ page_key n) → m !! k = m0 !! k.

Lemma changed_only_index keys m0 : index_frame (changed_only keys m0).
Proof. intros m m' Hm Hc k Hk Hh Hp. rewrite Hm by done. by apply Hc. Qed.
Lemma changed_only_photo id m0 : photo_frame id (changed_only (photo_keys id) m0).
Proof. intros m m' Hm Hc k Hk Hh Hp. rewrite Hm by done. by apply Hc. Qed.
Lemma changed_only_weaken keys keys' m0 m : (∀ k, k ∈ keys → k ∈ keys') → changed_only keys m0 m → changed_only keys' m0 m.
Proof. intros Hi Hc k Hk. apply Hc. intros ?. by apply Hk, Hi. Qed.
Lemma changed_only_refl keys m : changed_only keys m m.
Proof. done. Qed.

Lemma committed_photo id slots last : photo_frame id (λ m, committed m slots last).
Proof.
  intros m m' Hm. apply committed_agree; [apply Hm, head_not_photo|]. intros k _. apply page_stored_agree, Hm, page_not_photo.
Qed.

(** The photo as it was given. *)
Definition stored `{Crypto} (m0 : pstore) (id : Z) (frame : list ascii) (original : option (list ascii * Z)) (m : pstore) : Prop :=
  m !! blob_key id = Some frame ∧
  match original with
  | Some (jpeg, captured) =>
      m !! original_blob_key id = Some jpeg ∧ m !! metadata_key id = Some (encode_camera_metadata jpeg captured)
  | None => m !! metadata_key id = m0 !! metadata_key id
  end.

Lemma suffix_ne id a b : a ≠ b → photo_prefix id +:+ a ≠ photo_prefix id +:+ b.
Proof. intros Hab He. by apply (inj (String.app _)) in He. Qed.
Lemma blob_ne_original id : blob_key id ≠ original_blob_key id.
Proof. unfold blob_key, original_blob_key, metadata_key. apply suffix_ne. discriminate. Qed.
Lemma blob_ne_metadata id : blob_key id ≠ metadata_key id.
Proof. unfold blob_key, original_blob_key, metadata_key. apply suffix_ne. discriminate. Qed.
Lemma original_ne_metadata id : original_blob_key id ≠ metadata_key id.
Proof. unfold blob_key, original_blob_key, metadata_key. apply suffix_ne. discriminate. Qed.
Lemma blob_ne_staged id key : blob_key id ≠ staged_key key.
Proof. discriminate. Qed.
Lemma original_ne_staged id key : original_blob_key id ≠ staged_key key.
Proof. discriminate. Qed.
Lemma metadata_ne_staged id key : metadata_key id ≠ staged_key key.
Proof. discriminate. Qed.

Lemma head_not_metadata id : PHOTO_LIBRARY_HEAD_KEY ≠ metadata_key id.
Proof. discriminate. Qed.

Lemma jpeg_limit : Z.of_nat MAX_CAMERA_JPEG_BYTES = MAX_STORAGE_BLOB_BYTES.
Proof. apply (Z2Nat.id (4 * 1024 * 1024)). lia. Qed.
Lemma jpeg_ok_size jpeg : jpeg_ok jpeg = true → jpeg ≠ [] ∧ (Z.of_nat (length jpeg) ≤ MAX_STORAGE_BLOB_BYTES)%Z.
Proof.
  unfold jpeg_ok. intros [[[Hne Hlen]%andb_prop _]%andb_prop _]%andb_prop. apply negb_true_iff, bool_decide_eq_false in Hne.
  apply Nat.leb_le in Hlen. split; [done|]. rewrite <- jpeg_limit. lia.
Qed.
Lemma frame_bytes : Z.of_nat PHOTO_FRAME_BYTES = 108800%Z.
Proof. unfold PHOTO_FRAME_BYTES. by rewrite !Nat2Z.inj_mul. Qed.
Lemma frame_size (frame : list ascii) : length frame = PHOTO_FRAME_BYTES → frame ≠ [] ∧ (Z.of_nat (length frame) ≤ MAX_STORAGE_BLOB_BYTES)%Z.
Proof.
  intros Hf. apply (f_equal Z.of_nat) in Hf. rewrite frame_bytes in Hf. unfold MAX_STORAGE_BLOB_BYTES. split; [by intros ->|lia].
Qed.
Definition original_ok (original : option (list ascii * Z)) : Prop :=
  match original with Some (jpeg, _) => jpeg_ok jpeg = true | None => True end.

(** ** The new slot *)

Section slot.
  Context (slots : list Z) (last id : Z) (Hw : slots_wf slots last) (Hid : id = (last + 1)%Z).
  Context (Hmax : (id ≤ MAX_PHOTO_ID)%Z).

Definition slot_page : nat := length slots / INDEX_PAGE_PHOTOS.
Definition slot_position : nat := length slots mod INDEX_PAGE_PHOTOS.
Lemma slot_split : length slots = (INDEX_PAGE_PHOTOS * slot_page + slot_position)%nat ∧ (slot_position < INDEX_PAGE_PHOTOS)%nat.
Proof. split; [apply Nat.div_mod_eq|by apply Nat.mod_upper_bound]. Qed.
Context (Hfits : (Z.of_nat slot_page ≤ u32_max)%Z).

Lemma page_of_slot_length : page_of slot_page slots = drop (INDEX_PAGE_PHOTOS * slot_page) slots ∧ length (page_of slot_page slots) = slot_position.
Proof.
  destruct slot_split as [Hl Hp]. assert (length (drop (INDEX_PAGE_PHOTOS * slot_page) slots) = slot_position) as Hd by (rewrite length_drop; lia).
  unfold page_of. rewrite take_ge by lia. done.
Qed.
Lemma page_of_new : page_of slot_page (slots ++ [id]) = page_of slot_page slots ++ [id].
Proof.
  destruct slot_split as [Hl Hp], page_of_slot_length as [Hd Hn]. unfold page_of at 1. rewrite drop_app_le by lia. rewrite <- Hd.
  apply take_ge. rewrite length_app. simpl. lia.
Qed.
Lemma page_of_before k : (k < slot_page)%nat → page_of k (slots ++ [id]) = page_of k slots.
Proof.
  intros Hk. destruct slot_split as [Hl Hp]. unfold page_of, INDEX_PAGE_PHOTOS in *. rewrite drop_app_le by lia.
  rewrite take_app_le; [done|]. rewrite length_drop. lia.
Qed.

Lemma slots_wf_new : slots_wf (slots ++ [id]) id.
Proof.
  destruct Hw as [Ha Hr Hu Hl Hz], slot_split as [Hs Hp]. unfold u64, MAX_PHOTO_ID, u32_max, INDEX_PAGE_PHOTOS in *. split.
  - apply asc_app. split; [done|]. simpl. destruct (Z.eqb_spec id 0); [lia|]. split; [|done].
    assert (top 0 slots ≤ last)%Z; [|lia]. apply top_le; [lia|]. eapply Forall_impl; [exact Hr|]. simpl. lia.
  - apply Forall_app. split; [|constructor; [lia|done]]. eapply Forall_impl; [exact Hr|]. simpl. lia.
  - unfold u64, u64_max. lia.
  - rewrite length_app. unfold u32_max, INDEX_PAGE_PHOTOS. simpl length. lia.
  - rewrite length_app. simpl. lia.
Qed.

(** The number of the new slot may be left unused. *)
Lemma slots_wf_gap : slots_wf (slots ++ [0%Z]) id.
Proof.
  destruct slots_wf_new as [Ha Hr Hu Hl Hz]. split; [|by apply Forall_app in Hr as [Hr _]; apply Forall_app; split; [|constructor; [unfold u64 in Hu; lia|done]]|done|by rewrite !length_app in *..].
  apply asc_app in Ha as [Ha _]. apply asc_app. by split.
Qed.

(** The page before and after. *)
Definition old_ids : list Z := page_of slot_page slots ++ replicate (INDEX_PAGE_PHOTOS - slot_position) 0%Z.
Definition old_page : IndexPage := mkIndexPage (Z.of_nat (length (in_use (page_of slot_page slots)))) old_ids.
Definition new_page : IndexPage := mkIndexPage (page_active_count old_page + 1) (<[slot_position := id]> old_ids).

Lemma page_asc : asc 0 (page_of slot_page slots ++ [id]) ∧ asc 0 (page_of slot_page slots).
Proof.
  assert (asc 0 (page_of slot_page slots ++ [id])) as Ha; [|split; [done|by apply asc_app in Ha as [Ha _]]].
  destruct slots_wf_new as [Ha _ _ _ _]. destruct page_of_slot_length as [-> _].
  rewrite <- (take_drop (INDEX_PAGE_PHOTOS * slot_page) slots), <- app_assoc in Ha. apply asc_app in Ha as [Ht Ha].
  by eapply asc_mono; [|exact Ha]; apply top_ge.
Qed.
Lemma page_of_incl k (l : list Z) x : x ∈ page_of k l → x ∈ l.
Proof. unfold page_of. intros (i&Hi&_)%elem_of_take. rewrite lookup_drop in Hi. by eapply list_elem_of_lookup_2. Qed.
Lemma old_page_wf : page_wf old_page.
Proof.
  destruct slot_split as [Hs Hp], page_of_slot_length as [_ Hn]. apply (canonical_wf slots last); [done|apply page_of_incl|apply page_asc|].
  rewrite Hn. lia.
Qed.
Lemma new_page_eq :
  new_page = mkIndexPage (Z.of_nat (length (in_use (page_of slot_page slots ++ [id]))))
    ((page_of slot_page slots ++ [id]) ++ replicate (INDEX_PAGE_PHOTOS - slot_position - 1) 0%Z).
Proof.
  destruct slot_split as [Hs Hp], page_of_slot_length as [_ Hn]. unfold new_page, old_page, old_ids. cbn [page_active_count].
  assert (id ≠ 0)%Z as Hne by (destruct Hw as [_ _ Hu _ _]; unfold u64 in Hu; lia). f_equal.
  - rewrite in_use_app, length_app. unfold in_use at 3. cbn [List.filter]. rewrite (proj2 (Z.eqb_neq id 0) Hne). simpl. lia.
  - rewrite <- Hn at 1. rewrite <- (Nat.add_0_r (length _)), insert_app_r.
    destruct (INDEX_PAGE_PHOTOS - slot_position)%nat as [|n] eqn:Hrest; [lia|].
    replace (Datatypes.S n - 1)%nat with n by lia. rewrite <- app_assoc. done.
Qed.
Lemma new_page_wf : page_wf new_page.
Proof.
  rewrite new_page_eq. destruct slot_split as [Hs Hp], page_of_slot_length as [_ Hn].
  apply (canonical_wf (slots ++ [id]) id); [apply slots_wf_new| |apply page_asc|rewrite length_app, Hn; simpl; lia].
  intros x [Hx|Hx]%elem_of_app; apply elem_of_app; [left; by eapply page_of_incl|by right].
Qed.
Lemma new_page_prefix : page_of slot_page slots `prefix_of` page_ids new_page ∧ page_of slot_page (slots ++ [id]) `prefix_of` page_ids new_page.
Proof. rewrite new_page_eq, page_of_new. cbn [page_ids]. rewrite <- app_assoc at 1. by split; eexists. Qed.
Lemma pages_stored_new m : pages_stored m slots → page_stored m (slots ++ [id]) slot_page → pages_stored m (slots ++ [id]).
Proof.
  intros Hold Hnew k Hk. destruct slot_split as [Hl Hp]. rewrite length_app in Hk. simpl in Hk.
  destruct (decide (k = slot_page)) as [->|Hne]; [done|]. assert (k < slot_page)%nat by (unfold INDEX_PAGE_PHOTOS in *; lia).
  destruct (Hold k) as (e&p&?&?&?); [unfold INDEX_PAGE_PHOTOS in *; lia|]. exists e, p. by rewrite page_of_before.
Qed.
(** Writing page [slot_page] keeps the other pages. *)
Lemma pages_stored_put m p :
  page_wf p → page_of slot_page slots `prefix_of` page_ids p → pages_stored m slots →
  pages_stored (<[page_key (Z.of_nat slot_page) := encode_page (Z.of_nat slot_page) p]> m) slots.
Proof.
  intros Hp Hpre Hold k Hk. destruct (decide (k = slot_page)) as [->|Hne]; [by apply store_page_stored|].
  eapply page_stored_agree; [|by apply Hold]. rewrite lookup_insert_ne; [done|]. intros He.
  apply page_key_inj in He; [lia..|]. destruct Hw as [_ _ _ Hlen _]. unfold u32_max, INDEX_PAGE_PHOTOS in *. lia.
Qed.
End slot.

(** Before the head is written the index is the old one; from then on it has the
    new photo, and the photo is there as given.  All the while nothing of
    another photo changes. *)
Definition import_inv `{Crypto} (m0 : pstore) (slots : list Z) (last : Z) (frame : list ascii) (original : option (list ascii * Z)) (m : pstore)
    : Prop :=
  changed_only (photo_keys (last + 1)) m0 m ∧
  (Library m slots last ∨ (Library m (slots ++ [(last + 1)%Z]) (last + 1) ∧ stored m0 (last + 1) frame original m)).

Section photo.
  Context `{Crypto} {S : Type} `{PhotoStorage S, !PhotoStorageLaws S} (I D : pstore → Prop) (request_id : Z).

Lemma pt_put_photo id frame original m0 (R : pstore → Prop) :
  photo_frame id R → (∀ m, R m → I m) → length frame = PHOTO_FRAME_BYTES → original_ok original →
  ptriple I D (λ m, R m ∧ m !! metadata_key id = m0 !! metadata_key id) (put_photo request_id id frame original)
    (λ _ m, R m ∧ stored m0 id frame original m) (λ _, R).
Proof.
  intros HR HRI Hframe Hor. unfold put_photo. destruct (frame_size frame Hframe) as [Hne Hmax].
  assert (∀ k, k ∈ [blob_key id; staged_key (blob_key id); original_blob_key id; staged_key (original_blob_key id); metadata_key id] →
    k ∈ photo_keys id) as Hin by (intros k Hk; apply elem_of_app; by left).
  assert (∀ m m', same_but (blob_key id) m m' → R m → R m') as HRb.
  { intros m m' Hs. eapply photo_frame_same_but; [exact HR|..|exact Hs]; apply Hin; rewrite !elem_of_cons; tauto. }
  assert (∀ m m', same_but (original_blob_key id) m m' → R m → R m') as HRo.
  { intros m m' Hs. eapply photo_frame_same_but; [exact HR|..|exact Hs]; apply Hin; rewrite !elem_of_cons; tauto. }
  eapply pt_bind with (R := λ _ m, (R m ∧ m !! metadata_key id = m0 !! metadata_key id) ∧ m !! blob_key id = Some frame).
  { eapply pt_cleanup_kept; [apply (pt_put_blob I never request_id _ _ _ (λ _, R)); [by intros m [? _]; auto| |by intros e m [? _]|done..]|].
    - intros m m' Hs [HRm Hm]. split; [by eapply HRb|]. rewrite Hs; [done|apply not_eq_sym, blob_ne_metadata|apply metadata_ne_staged].
    - intros e. by apply pt_cleanup_photo. }
  intros _. destruct original as [[jpeg captured]|]; [|by apply pt_ret; intros m [[? ?] ?]].
  destruct (jpeg_ok_size jpeg Hor) as [Hjne Hjmax].
  eapply pt_bind with (R := λ _ m, (R m ∧ m !! blob_key id = Some frame) ∧ m !! original_blob_key id = Some jpeg).
  { eapply pt_cleanup_kept; [|intros e; by apply (pt_cleanup_photo I never request_id id R)].
    eapply pt_conseq; [apply (pt_put_blob I never request_id _ _ (λ m, R m ∧ m !! blob_key id = Some frame) (λ _, R))|..]; try done.
    - by intros m [? _]; auto.
    - intros m m' Hs [HRm Hm]. split; [by eapply HRo|]. rewrite Hs; [done|apply blob_ne_original|apply blob_ne_staged].
    - by intros e m [? _].
    - by intros m [[? _] ?]. }
  intros _. eapply pt_cleanup_kept; [|intros e; by apply (pt_cleanup_photo I never request_id id R)].
  apply pt_map_err, pt_put; [apply not_eq_sym, head_not_metadata|]. intros m [[HRm Hb] Ho].
  assert (R (<[metadata_key id := encode_camera_metadata jpeg captured]> m)) as HR'.
  { eapply HR; [|exact HRm]. intros k Hk. apply lookup_insert_ne. intros <-. apply Hk, Hin. rewrite !elem_of_cons. tauto. }
  split_and!; [auto|auto|done| |done].
  unfold stored. rewrite lookup_insert_eq. rewrite !lookup_insert_ne by (apply not_eq_sym; first [apply blob_ne_metadata|apply original_ne_metadata]). done.
Qed.

(** The record of the original is written last. *)
Lemma put_photo_passes id frame jpeg captured u s s' :
  length frame = PHOTO_FRAME_BYTES → jpeg_ok jpeg = true → put_photo request_id id frame (Some (jpeg, captured)) s = (Ok u, s') →
  ∃ tr, trail s' = trail s ++ tr ++ [(None, view s')].
Proof.
  intros Hframe Hj Hrun. destruct (frame_size frame Hframe) as [Hne Hmax], (jpeg_ok_size jpeg Hj) as [Hjne Hjmax].
  assert (∀ key value s0 s1 u0, value ≠ [] → (Z.of_nat (length value) ≤ MAX_STORAGE_BLOB_BYTES)%Z → put_blob request_id key value s0 = (Ok u0, s1) →
    ∃ tr, trail s1 = trail s0 ++ tr) as Hblob.
  { intros key value s0 s1 u0 Hv Hvm Hb. eapply ptriple_Ok in Hb as (tr&Htr&_); [by exists tr|
      apply (pt_put_blob (λ _, True) never request_id key value (λ _, True) (λ _ _, True)); done|done]. }
  apply sm_bind_Ok in Hrun as (u1&s1&H1%or_cleanup_Ok&Hrun). apply sm_bind_Ok in Hrun as (u2&s2&H2%or_cleanup_Ok&Hrun%or_cleanup_Ok%from_put_Ok).
  apply Hblob in H1 as (tr1&H1); [|done..]. apply Hblob in H2 as (tr2&H2); [|done..].
  exists (tr1 ++ tr2). by rewrite Hrun, H2, H1, <- !app_assoc.
Qed.

Lemma pt_bind_ok {E A B} (a : A) (f : A → SM S E B) P Q X : ptriple I D P (f a) Q X → ptriple I D P (sm_bind (sm_lift (Ok a)) f) Q X.
Proof. intros Hf. exact Hf. Qed.
Lemma pt_bind_err {E A B} (e : E) (f : A → SM S E B) P Q X : (∀ m, P m → X e m) → ptriple I D P (sm_bind (sm_lift (Err e)) f) Q X.
Proof. intros HX. by apply (pt_err I D P e). Qed.

(** The page of the new slot, as it is committed. *)
Lemma pt_page_of_slot slots last P X h :
  slots_wf slots last → (Z.of_nat (slot_page slots) ≤ u32_max)%Z →
  (∀ m, P m → I m ∧ pages_stored m slots ∧ ∀ e, X e m) →
  ptriple I D P (page_of_slot request_id h (Z.of_nat (slot_page slots)) (slot_position slots))
    (λ o m, (o = None ∧ slot_position slots = 0%nat ∨ o = Some (old_page slots) ∧ slot_position slots ≠ 0%nat) ∧ P m) X.
Proof.
  intros Hw Hfits HP. unfold page_of_slot. destruct (Nat.eqb_spec (slot_position slots) 0) as [Hpos0|Hpos0].
  { apply pt_ret. intros m Hm. split; [by left|done]. }
  destruct (slot_split slots) as [Hs _], (page_of_slot_length slots) as [_ Hn].
  eapply pt_bind with (R := λ o m, (∃ p, o = Some p ∧ page_wf p ∧ page_of (slot_page slots) slots `prefix_of` page_ids p) ∧ P m).
  - apply pt_load_page. intros m Hm. destruct (HP m Hm) as (?&Hp&?).
    destruct (Hp (slot_page slots)) as (e&p&->&Hd&Hpre); [lia|]. split_and!; [done..|]. exists p.
    split_and!; [done| |done]. exists p. split_and!; [done|by eapply decode_page_wf|done].
  - intros o. apply pt_pure. intros (p&->&Hp&Hpre). eapply pt_bind with (R := λ q m, q = p ∧ P m); [by apply pt_lift|].
    intros q. apply pt_pure. intros ->. apply pt_ret. intros m Hm. split; [|done]. right. split; [|done].
    unfold old_page, old_ids. rewrite <- Hn at 1 2. by rewrite canonical_ids.
Qed.

End photo.

Section commit.
  Context `{Crypto} {S : Type} `{PhotoStorage S, !PhotoStorageLaws S} (I : pstore → Prop) (request_id : Z).
  Context (slots : list Z) (last : Z) (m0 : pstore) (frame : list ascii) (original : option (list ascii * Z)).
  Context (Hw : slots_wf slots last) (HI : ∀ m, import_inv m0 slots last frame original m → I m).
  Context (Hmax : (last + 1 ≤ MAX_PHOTO_ID)%Z) (Hfits : (Z.of_nat (slot_page slots) ≤ u32_max)%Z).
Notation id := (last + 1)%Z.
Notation k := (slot_page slots).
Definition pending (m : pstore) : Prop := committed m slots last ∧ changed_only (photo_keys id) m0 m.

Lemma pending_inv m : pending m → I m.
Proof. intros [Hc Ho]. apply HI. split; [done|]. left. split; [done|by left]. Qed.
Lemma pending_photo : photo_frame id pending.
Proof.
  intros m m' Hm [Hc Ho]. split; [by apply (committed_photo id slots last m m' Hm)|by apply (changed_only_photo id m0 m m' Hm)].
Qed.
Lemma pending_put_page m p :
  page_wf p → page_of k slots `prefix_of` page_ids p → pending m → pending (<[page_key (Z.of_nat k) := encode_page (Z.of_nat k) p]> m).
Proof.
  intros Hp Hpre [(e&h&He&Hd&Hs&Hl&Hall) Ho]. split; [|by apply (index_frame_put_page _ _ _ _ (changed_only_index _ m0))].
  exists e, h. rewrite lookup_insert_ne by done. split_and!; [done..|]. by apply (pages_stored_put slots last).
Qed.
Lemma pending_delete_page m : slot_position slots = 0%nat → pending m → pending (delete (page_key (Z.of_nat k)) m).
Proof.
  intros Hpos0 [Hc Ho]. split; [|by apply (index_frame_delete_page _ _ _ (changed_only_index _ m0))].
  eapply committed_agree; [by rewrite lookup_delete_ne| |exact Hc]. intros j Hj. apply page_stored_agree.
  rewrite lookup_delete_ne; [done|]. destruct (slot_split slots) as [Hs _]. intros He.
  apply page_key_inj in He; unfold u32_max, INDEX_PAGE_PHOTOS in *; lia.
Qed.

(** From a lost write of the head on: the index has the new photo, or its
    slot was taken back to an unused one, or its page was deleted. *)
Definition import_lost (m : pstore) : Prop :=
  changed_only (photo_keys id) m0 m ∧
  (committed m (slots ++ [id]) id ∨ slot_position slots ≠ 0%nat ∧ committed m (slots ++ [0%Z]) id ∨
   slot_position slots = 0%nat ∧ pages_lost m).
Lemma import_lost_photo : photo_frame id import_lost.
Proof.
  intros m m' Hm [Ho Hc]. split; [by apply (changed_only_photo id m0 m m' Hm)|].
  destruct Hc as [Hc|[[? Hc]|[? Hc]]]; [left|right; left; split; [done|]|right; right; split; [done|]].
  - by apply (committed_photo id _ _ m m' Hm).
  - by apply (committed_photo id _ _ m m' Hm).
  - eapply pages_lost_agree; [apply Hm, head_not_photo| |exact Hc]. intros n Hn. rewrite Hm; [done|apply page_not_photo].
Qed.
Lemma import_lost_put m :
  slot_position slots ≠ 0%nat → import_lost m → import_lost (<[page_key (Z.of_nat k) := encode_page (Z.of_nat k) (old_page slots)]> m).
Proof.
  intros Hpos [Ho Hc]. split; [by apply (index_frame_put_page _ _ _ _ (changed_only_index _ m0))|]. right; left. split; [done|].
  destruct (slot_split slots) as [Hs Hlt], (page_of_slot_length slots) as [_ Hn].
  assert (∃ x, committed m (slots ++ [x]) id) as (x&e&h&He&Hd&Hc'&Hl&Hall) by (destruct Hc as [?|[[_ ?]|[? _]]]; eauto; done).
  exists e, h. rewrite lookup_insert_ne by done. split_and!; [done|done|by rewrite Hc', !length_app|done|]. intros j Hj.
  destruct (decide (j = k)) as [->|Hne].
  - apply store_page_stored; [done|by apply (old_page_wf slots last id)|]. rewrite page_of_new. unfold old_page, old_ids. cbn [page_ids].
    destruct (INDEX_PAGE_PHOTOS - slot_position slots)%nat as [|n] eqn:Hrest; [lia|]. exists (replicate n 0%Z). by rewrite <- app_assoc.
  - rewrite length_app in Hj. simpl in Hj. assert (j < k)%nat by (unfold INDEX_PAGE_PHOTOS in *; lia).
    destruct (Hall j) as (e'&p&He'&Hp); [by rewrite length_app|]. exists e', p.
    rewrite page_of_before in * by done. split; [|done]. rewrite lookup_insert_ne; [done|]. intros Heq. apply page_key_inj in Heq; lia.
Qed.
Lemma import_lost_delete m : slot_position slots = 0%nat → import_lost m → import_lost (delete (page_key (Z.of_nat k)) m).
Proof.
  intros Hpos [Ho Hc]. split; [by apply (index_frame_delete_page _ _ _ (changed_only_index _ m0))|]. right; right. split; [done|].
  destruct Hc as [(e&h&He&Hd&Hs&_)|[[? _]|[_ Hc]]]; [|done|].
  - exists e, h, k. rewrite lookup_delete_ne, lookup_delete_eq by done. split_and!; [done..| |done]. rewrite Hs, length_app.
    destruct (slot_split slots) as [Hl _]. cbn [length]. lia.
  - eapply pages_lost_agree; [by rewrite lookup_delete_ne| |exact Hc]. intros n Hn. apply lookup_delete_None. by right.
Qed.

(** The rollback finds the page not committed, or committed by a lost write. *)
Lemma pt_rollback o :
  (o = None ∧ slot_position slots = 0%nat ∨ o = Some (old_page slots) ∧ slot_position slots ≠ 0%nat) →
  ptriple I import_lost pending (rollback_page request_id (Z.of_nat k) o) (λ _, pending) (λ _ : PhotoImportError, pending) ∧
  ptriple import_lost import_lost import_lost (rollback_page request_id (Z.of_nat k) o) (λ _, import_lost) (λ _ : PhotoImportError, import_lost).
Proof.
  intros [[-> Hpos0]|[-> Hpos]]; split; apply pt_ignore.
  - apply pt_delete. intros m Hm. assert (pending (delete (page_key (Z.of_nat k)) m)) by (by apply pending_delete_page).
    split_and!; [by apply pending_inv|by apply pending_inv|done|done].
  - apply pt_delete. intros m Hm. pose proof (import_lost_delete m Hpos0 Hm). done.
  - apply pt_store_page. intros m Hm.
    assert (pending (<[page_key (Z.of_nat k) := encode_page (Z.of_nat k) (old_page slots)]> m)).
    { apply pending_put_page; [by apply (old_page_wf slots last id)|by eexists|done]. }
    split_and!; [by apply pending_inv|by apply pending_inv|done|done].
  - apply pt_store_page. intros m Hm. pose proof (import_lost_put m Hpos Hm). done.
Qed.

(** The page is written, then the head. *)
Lemma new_page_checked : checked_add_u16 (page_active_count (old_page slots)) 1 = Some (page_active_count (new_page slots id)).
Proof.
  unfold checked_add_u16, new_page, old_page. cbn [page_active_count]. pose proof (page_of_length k slots). pose proof (length_in_use (page_of k slots)).
  unfold INDEX_PAGE_PHOTOS, u16_max in *. destruct (Z.leb_spec (Z.of_nat (length (in_use (page_of k slots))) + 1) (2 ^ 16 - 1)); [done|lia].
Qed.
Definition new_head : Head := mkHead (Z.of_nat (length (in_use slots)) + 1) (Z.of_nat (length slots) + 1) id.
Lemma new_head_eq : new_head = exact_head (slots ++ [id]) id.
Proof.
  assert (id ≠ 0)%Z as Hne by (destruct Hw as [_ _ Hu _ _]; unfold u64 in Hu; lia).
  unfold new_head, exact_head. rewrite in_use_app, !length_app. unfold in_use at 3. cbn [List.filter].
  rewrite (proj2 (Z.eqb_neq _ 0) Hne). simpl. f_equal; lia.
Qed.
Definition paged (m : pstore) : Prop := pending m ∧ stored m0 id frame original m ∧ page_stored m (slots ++ [id]) k.
Definition finished (m : pstore) : Prop :=
  Library m (slots ++ [id]) id ∧ head_exact m (slots ++ [id]) id ∧ stored m0 id frame original m ∧ changed_only (photo_keys id) m0 m.

Lemma stored_put_index key v m :
  key ∉ photo_keys id → stored m0 id frame original m → stored m0 id frame original (<[key := v]> m).
Proof.
  intros Hk. unfold stored.
  assert (∀ k', k' ∈ photo_keys id → <[key := v]> m !! k' = m !! k') as He by (intros k' Hk'; apply lookup_insert_ne; by intros ->).
  rewrite !He; [done|..]; apply elem_of_app; left; rewrite !elem_of_cons; tauto.
Qed.
Lemma paged_commit m : paged m → finished (<[PHOTO_LIBRARY_HEAD_KEY := encode_head new_head]> m).
Proof.
  intros [[Hc Ho] [Hst Hp]]. assert (slots_wf (slots ++ [id]) id) by (by apply (slots_wf_new slots last)).
  split_and!; [|unfold head_exact; by rewrite new_head_eq, lookup_insert_eq|apply stored_put_index; [apply head_not_photo|done]|by apply (index_frame_put_head _ _ _ (changed_only_index _ m0))].
  split; [done|]. left. rewrite new_head_eq. apply commit_head; [done|]. apply pages_stored_new; [|done]. by destruct Hc as (?&?&?&?&?&?&?).
Qed.

Lemma finished_lost m : finished m → import_lost m.
Proof.
  intros ((_&[Hc|[Hn _]])&Hh&_&Ho); [split; [done|by left]|]. unfold head_exact in Hh. congruence.
Qed.

Lemma pt_commit o :
  (o = None ∧ slot_position slots = 0%nat ∨ o = Some (old_page slots) ∧ slot_position slots ≠ 0%nat) →
  ptriple I import_lost paged
    (or_cleanup (store_head request_id new_head) (let+ _ := rollback_page request_id (Z.of_nat k) o in cleanup_photo request_id id))
    (λ _, finished) (λ _, pending).
Proof.
  intros Ho. destruct (pt_rollback o Ho) as [Hback Hlost]. eapply pt_cleanup with (Y := λ _, pending).
  - apply pt_store_head. intros m Hm. pose proof (paged_commit m Hm) as Hf. pose proof Hf as (HL&_&Hst&Hch).
    split; [by apply pending_inv, Hm|]. split; [apply HI; split; [done|by right]|]. split; [exact Hf|].
    split; [intros _; apply Hm|by apply finished_lost].
  - intros e. eapply pt_bind; [exact Hback|]. intros u. apply pt_cleanup_photo; [apply pending_photo|apply pending_inv].
  - eapply pt_bind; [exact Hlost|]. intros u. apply pt_cleanup_photo; [apply import_lost_photo|done].
Qed.
Lemma pt_new_page :
  ptriple I import_lost (λ m, pending m ∧ stored m0 id frame original m)
    (or_cleanup (store_page request_id (Z.of_nat k) (new_page slots id)) (cleanup_photo request_id id)) (λ _, paged) (λ _, pending).
Proof.
  eapply pt_cleanup_kept with (Y := λ _, pending); [|intros e; apply pt_cleanup_photo; [apply pending_photo|apply pending_inv]].
  assert (page_wf (new_page slots id)) as Hpw by (by apply (new_page_wf slots last)). destruct (new_page_prefix slots last id) as [Hold Hnew]; [done..|].
  apply pt_store_page. intros m [Hp Hst].
  assert (pending (<[page_key (Z.of_nat k) := encode_page (Z.of_nat k) (new_page slots id)]> m)) by (by apply pending_put_page).
  split; [by apply pending_inv|]. split; [by apply pending_inv|]. split; [|done].
  split; [done|]. split; [apply stored_put_index; [apply page_not_photo|done]|by apply store_page_stored].
Qed.
End commit.

(** ** The import *)

Section import.
  Context `{Crypto} {S : Type} `{PhotoStorage S, !PhotoStorageLaws S} (I D : pstore → Prop) (request_id : Z).
  Context (slots : list Z) (last : Z) (m0 : pstore) (frame : list ascii) (original : option (list ascii * Z)).
  Context (HL : Library m0 slots last) (HI : ∀ m, import_inv m0 slots last frame original m → I m).

Definition import_ok (id : Z) (m : pstore) : Prop :=
  (id = (last + 1)%Z ∧ (id ≤ MAX_PHOTO_ID)%Z ∧ original_ok original) ∧ finished slots last m0 frame original m.
Definition import_failed (_ : PhotoImportError) (m : pstore) : Prop := Library m slots last ∧ changed_only (photo_keys (last + 1)) m0 m.

(** Up to the write of the photo, and from there on. *)
Lemma changed_nothing m : changed_only [] m0 m → changed_only (photo_keys (last + 1)) m0 m.
Proof. apply changed_only_weaken. intros k Hk. by apply elem_of_nil in Hk. Qed.
Lemma pending_failed e m : pending slots last m0 m → import_failed e m.
Proof. intros [Hc Ho]. split; [split; [apply HL|by left]|done]. Qed.

Definition import_loads : Prop :=
  ptriple I D (λ m, m = m0) (load_head_for_update request_id)
    (λ h m, h = exact_head slots last ∧ committed m slots last ∧ changed_only [] m0 m)
    (λ _ m, Library m slots last ∧ changed_only [] m0 m).

Lemma pt_import_from :
  (∀ m, (last + 1 ≤ MAX_PHOTO_ID)%Z → (Z.of_nat (slot_page slots) ≤ u32_max)%Z → import_lost slots last m0 m → D m) → import_loads →
  ptriple I D (λ m, m = m0) (import_frame_with_original request_id frame original) import_ok import_failed.
Proof.
  intros HD Hload. assert (∀ e, import_failed e m0) as HX0 by (intros e; split; [done|apply changed_only_refl]).
  unfold import_frame_with_original.
  destruct (Nat.eqb_spec (length frame) PHOTO_FRAME_BYTES) as [Hframe|]; cbn [negb]; [|apply pt_err; by intros m ->].
  case_match eqn:Hor; [apply pt_err; by intros m ->|].
  assert (original_ok original) as Hok by (destruct original as [[jpeg t]|]; [by apply negb_false_iff in Hor|done]).
  eapply pt_bind.
  { eapply pt_conseq; [exact Hload|done|intros h m Hm; exact Hm|intros e m [HLm Ho]; split; [done|by apply changed_nothing]]. }
  intros h. apply pt_pure. intros ->. cbn [head_last_id head_slot_count head_active_count exact_head].
  assert (∀ m, committed m slots last ∧ changed_only [] m0 m → pending slots last m0 m) as Hpend by (intros m [Hc Ho]; split; [done|by apply changed_nothing]).
  pose proof HL as [Hw _]. pose proof Hw as [_ _ [Hl0 Hl1] Hlen _]. unfold checked_add_u64 at 1.
  destruct (Z.leb_spec (last + 1) u64_max); [|apply pt_bind_err; intros m Hm; by apply pending_failed, Hpend].
  apply pt_bind_ok. rewrite Z.max_l by lia.
  destruct (Z.ltb_spec MAX_PHOTO_ID (last + 1)) as [|Hmax]; [apply pt_err; intros m Hm; by apply pending_failed, Hpend|].
  assert (Z.of_nat (length slots) / Z.of_nat INDEX_PAGE_PHOTOS = Z.of_nat (slot_page slots))%Z as -> by (by rewrite <- Nat2Z.inj_div).
  assert (Z.to_nat (Z.of_nat (length slots) mod Z.of_nat INDEX_PAGE_PHOTOS) = slot_position slots) as -> by (by rewrite <- Nat2Z.inj_mod, Nat2Z.id).
  unfold page_number_u32. destruct (Z.ltb_spec u32_max (Z.of_nat (slot_page slots))) as [|Hfits]; [apply pt_bind_err; intros m Hm; by apply pending_failed, Hpend|].
  apply pt_bind_ok.
  eapply pt_bind; [apply (pt_page_of_slot I D request_id slots last); [done|done|]|].
  { intros m Hm. split; [by eapply pending_inv; [| |apply Hpend]|]. split; [by destruct Hm as [(?&?&?&?&?&?&?) _]|]. intros e. by apply pending_failed, Hpend. }
  intros o. apply pt_pure. intros Ho.
  assert (default IndexPage_empty o = old_page slots) as ->.
  { destruct Ho as [[-> Hpos]|[-> _]]; [|done]. simpl. destruct (page_of_slot_length slots) as [_ Hn]. rewrite Hpos in Hn. apply nil_length_inv in Hn.
    unfold old_page, old_ids. by rewrite Hn, Hpos. }
  eapply pt_bind.
  { eapply pt_conseq; [apply (pt_put_photo I D request_id (last + 1) frame original m0 (pending slots last m0))|..].
    - apply pending_photo.
    - by apply (pending_inv I slots last m0 frame original).
    - done.
    - done.
    - intros m Hm. split; [by apply Hpend|]. destruct Hm as [_ Hm]. apply Hm; [apply not_elem_of_nil|done|done].
    - intros u m Hm. exact Hm.
    - intros e m Hm. by apply pending_failed. }
  intros u1. rewrite (new_page_checked slots last). apply pt_bind_ok.
  assert (∀ m, import_lost slots last m0 m → D m) as HD' by auto.
  eapply pt_bind; [eapply pt_conseq; [eapply pt_loss, (pt_new_page I request_id slots last m0 frame original); done|done|intros u m Hm; exact Hm|apply pending_failed]|].
  intros u2. pose proof (length_in_use slots) as Huse. unfold checked_add_u64.
  destruct (Z.leb_spec (Z.of_nat (length (in_use slots)) + 1) u64_max); [|unfold u32_max, u64_max, INDEX_PAGE_PHOTOS in *; lia]. apply pt_bind_ok.
  destruct (Z.leb_spec (Z.of_nat (length slots) + 1) u64_max); [|unfold u32_max, u64_max, INDEX_PAGE_PHOTOS in *; lia]. apply pt_bind_ok.
  eapply pt_bind; [eapply pt_conseq; [eapply pt_loss, (pt_commit I request_id slots last m0 frame original); [exact HD'|done..|exact Ho]|done|intros u m Hm; exact Hm|apply pending_failed]|].
  intros u3. apply pt_ret. by intros m Hm.
Qed.
End import.

(** What may be left when the reply to a write of the head is lost: the index
    without or with the new photo, or with an unused number in its place; or a
    page of it is gone, which takes the migration of the first format or a photo
    that begins a page. *)
Definition import_damage (m0 : pstore) (slots : list Z) (last : Z) (m : pstore) : Prop :=
  changed_only (photo_keys (last + 1)) m0 m ∧
  (Library m slots last ∨ Library m (slots ++ [(last + 1)%Z]) (last + 1) ∨ Library m (slots ++ [0%Z]) (last + 1) ∨
   pages_lost m ∧ (m0 !! PHOTO_LIBRARY_HEAD_KEY = None ∨ (length slots mod INDEX_PAGE_PHOTOS = 0)%nat)).

Lemma import_lost_damage m0 slots last m :
  slots_wf slots last → (last + 1 ≤ MAX_PHOTO_ID)%Z → (Z.of_nat (slot_page slots) ≤ u32_max)%Z → import_lost slots last m0 m → import_damage m0 slots last m.
Proof.
  intros Hw Hmax Hfits [Ho Hc]. split; [done|]. right. destruct Hc as [Hc|[[Hpos Hc]|[Hpos Hc]]].
  - left. split; [by apply (slots_wf_new slots last)|by left].
  - right; left. split; [by apply (slots_wf_gap slots last)|by left].
  - right; right. split; [done|by right].
Qed.

Section imports.
  Context `{Crypto} {S : Type} `{PhotoStorage S, !PhotoStorageLaws S} (I : pstore → Prop) (request_id : Z).
  Context (slots : list Z) (last : Z) (m0 : pstore) (frame : list ascii) (original : option (list ascii * Z)).
  Context (HL : Library m0 slots last) (HI : ∀ m, import_inv m0 slots last frame original m → I m).

Lemma loaded_inv m : Library m slots last → changed_only [] m0 m → I m.
Proof. intros HLm Ho. apply HI. split; [by apply changed_nothing|by left]. Qed.
Lemma loads_committed D : committed m0 slots last → import_loads I D request_id slots last m0.
Proof.
  intros Hc. apply pt_kept.
  eapply pt_conseq; [apply (pt_load_committed I request_id slots last (changed_only [] m0))|by intros m ->|done|done].
  - apply HL.
  - apply loaded_inv.
Qed.
Lemma pt_import_committed :
  committed m0 slots last →
  ptriple I (λ m, slots_wf (slots ++ [(last + 1)%Z]) (last + 1) ∧ import_lost slots last m0 m) (λ m, m = m0)
    (import_frame_with_original request_id frame original) (import_ok slots last m0 frame original) (import_failed slots last m0).
Proof.
  intros Hc. apply pt_import_from; [done|done| |by apply loads_committed].
  intros m Hmax Hfits Hm. split; [|done]. by apply (slots_wf_new slots last); [apply HL|..].
Qed.
Lemma loads : import_loads I (import_damage m0 slots last) request_id slots last m0.
Proof.
  pose proof HL as [_ [Hc|Hu]]; [by apply loads_committed|].
  eapply pt_loss; [|eapply pt_conseq; [apply (pt_load_unmigrated I request_id slots last (changed_only [] m0))|by intros m ->|done|done]].
  - intros m [Hm Ho]. split; [by apply changed_nothing|]. destruct Hm as [Hm|Hm]; [left; split; [apply HL|by left]|].
    right; right; right. split; [done|]. left. apply Hu.
  - apply changed_only_index.
  - apply HL.
  - apply loaded_inv.
Qed.
Lemma pt_import :
  ptriple I (import_damage m0 slots last) (λ m, m = m0) (import_frame_with_original request_id frame original)
    (import_ok slots last m0 frame original) (import_failed slots last m0).
Proof. apply pt_import_from; [done|done|intros m Hmax Hfits Hm; apply import_lost_damage; [apply HL|done..]|apply loads]. Qed.

(** A camera photo that was imported: on the way everything of it was stored
    while the index was still the old one. *)
Lemma import_passes_original jpeg captured id s s' :
  original = Some (jpeg, captured) → view s = m0 → import_frame_with_original request_id frame original s = (Ok id, s') →
  ∃ tr e, trail s' = trail s ++ tr ∧ e ∈ tr ∧ pending slots last m0 e.2 ∧ e.2 !! metadata_key (last + 1) = Some (encode_camera_metadata jpeg captured).
Proof.
  intros Horiginal Hview Hrun. unfold import_frame_with_original in Hrun. destruct (negb _) eqn:Hframe; [done|].
  apply negb_false_iff, Nat.eqb_eq in Hframe. rewrite Horiginal in Hrun. destruct (negb (jpeg_ok jpeg)) eqn:Hj; [done|]. apply negb_false_iff in Hj.
  pose proof HL as [Hw _]. pose proof (sw_last _ _ Hw) as [Hl0 _].
  apply sm_bind_Ok in Hrun as (h&s1&Hload&Hrun). destruct (ptriple_Ok _ _ _ _ _ _ _ _ _ loads Hview Hload) as (tr1&Ht1&_&->&Hm1).
  apply sm_bind_lift_Ok in Hrun as (next&Hnext&Hrun). cbn [head_last_id head_slot_count head_active_count exact_head] in *.
  unfold checked_add_u64 in Hnext. destruct (last + 1 <=? u64_max)%Z; [|done]. injection Hnext as <-. rewrite Z.max_l in Hrun by lia.
  destruct (MAX_PHOTO_ID <? last + 1)%Z; [done|]. apply sm_bind_lift_Ok in Hrun as (n&Hn&Hrun).
  rewrite <- Nat2Z.inj_div, <- Nat2Z.inj_mod, Nat2Z.id in *. fold (slot_page slots) (slot_position slots) in *.
  unfold page_number_u32 in Hn. destruct (Z.ltb_spec u32_max (Z.of_nat (slot_page slots))); [done|]. injection Hn as <-.
  assert (pending slots last m0 (view s1)) as Hp1 by (destruct Hm1 as [? ?]; split; [done|by apply changed_nothing]).
  apply sm_bind_Ok in Hrun as (o&s2&Hpage&Hrun).
  assert (∀ m, m = view s1 → True ∧ pages_stored m slots ∧ (PhotoImportError → True)) as Hread.
  { intros m ->. by destruct Hm1 as [(?&?&?&?&?&?&?) _]. }
  pose proof (pt_page_of_slot (λ _, True) never request_id slots last (λ m, m = view s1) (λ _ _, True) (exact_head slots last) Hw ltac:(done) Hread) as Htriple.
  destruct (ptriple_Ok _ _ _ _ _ _ _ _ _ Htriple eq_refl Hpage) as (tr2&Ht2&_&_&Hm2).
  apply sm_bind_Ok in Hrun as ([]&s3&Hput&Hrun).
  assert (∃ tr3, trail s3 = trail s2 ++ tr3 ++ [(None, view s3)]) as (tr3&Ht3) by (by eapply put_photo_passes).
  pose proof (pt_put_photo (λ _, True) never request_id (last + 1) frame (Some (jpeg, captured)) (view s2) (pending slots last m0)
    (pending_photo slots last m0) ltac:(done) Hframe Hj) as Htriple'.
  destruct (ptriple_Ok _ _ _ _ _ _ s2 s3 tt Htriple') as (_&_&_&Hm3&[_ [_ Hmeta]]); [by rewrite Hm2|exact Hput|].
  apply sm_bind_lift_Ok in Hrun as (?&_&Hrun). apply sm_bind_Ok in Hrun as (?&s4&Hrun4%or_cleanup_Ok%from_put_Ok&Hrun).
  apply sm_bind_lift_Ok in Hrun as (?&_&Hrun). apply sm_bind_lift_Ok in Hrun as (?&_&Hrun).
  apply sm_bind_Ok in Hrun as (?&s5&Hrun5%or_cleanup_Ok%from_put_Ok&Hrun). injection Hrun as _ <-.
  eexists (tr1 ++ tr2 ++ tr3 ++ [(None, view s3)] ++ [(None, view s4)] ++ [(None, view s5)]), (None, view s3).
  split; [by rewrite Hrun5, Hrun4, Ht3, Ht2, Ht1, <- !app_assoc|]. split; [|done].
  rewrite !elem_of_app. right; right; right; left. by apply list_elem_of_singleton.
Qed.
End imports.
