(* ===== verification/PhotoLibraryRemove.v ===== *)
(** * The photo library: removing and looking up photos

    A removal clears the slot of the photo in its page, rewrites the head and
    then erases the data.  [remove_inv] is what holds of the store after each of
    these writes, also when the reply to the write of the head is lost.  At the
    end: a store whose head counts a page that is gone fails every operation. *)

From S2P Require Import Prelude RustStr Bytes Manifest HostFs Checkpoint Package StorageProtocol StorageClient PhotoLibrary PhotoLibraryLogic PhotoLibraryRep PhotoLibraryTriples PhotoLibraryImport.

(** ** The cleared slot *)

Section clear.
  Context (slots : list Z) (last : Z) (Hw : slots_wf slots last).
  Context (k pos : nat) (id : Z) (Hpos : page_of k slots !! pos = Some id) (Hid : id ≠ 0%Z).
Notation i := (INDEX_PAGE_PHOTOS * k + pos)%nat.
Notation cleared := (<[i := 0%Z]> slots).

Lemma pos_bound : (pos < INDEX_PAGE_PHOTOS)%nat ∧ slots !! i = Some id.
Proof.
  unfold page_of in Hpos. apply lookup_take_Some in Hpos as [Hp Hlt]. rewrite lookup_drop in Hp. done.
Qed.
Lemma page_of_cleared : page_of k cleared = <[pos := 0%Z]> (page_of k slots).
Proof.
  apply list_eq. intros j. unfold page_of. destruct pos_bound as [Hlt Hs].
  destruct (decide (j < INDEX_PAGE_PHOTOS)%nat) as [Hj|Hj].
  - rewrite lookup_take_lt, lookup_drop by done. destruct (decide (j = pos)) as [->|Hne].
    + rewrite list_lookup_insert_eq by (by eapply lookup_lt_Some). rewrite list_lookup_insert_eq; [done|].
      by eapply lookup_lt_Some, Hpos.
    + rewrite !list_lookup_insert_ne by lia. by rewrite lookup_take_lt, lookup_drop.
  - rewrite !lookup_ge_None_2; [done| |]; rewrite ?length_insert, length_take; lia.
Qed.
Lemma page_of_other j : j ≠ k → page_of j cleared = page_of j slots.
Proof.
  intros Hj. apply list_eq. intros x. unfold page_of. destruct pos_bound as [Hlt _].
  destruct (decide (x < INDEX_PAGE_PHOTOS)%nat) as [Hx|Hx].
  - rewrite !lookup_take_lt, !lookup_drop by done. apply list_lookup_insert_ne. unfold INDEX_PAGE_PHOTOS in *. lia.
  - rewrite !lookup_ge_None_2; [done| |]; rewrite length_take; lia.
Qed.
Lemma slots_wf_cleared : slots_wf cleared last.
Proof.
  destruct Hw as [Ha Hr Hu Hl Hz]. split; [by apply asc_clear| |done|by rewrite length_insert..].
  apply Forall_insert; [done|]. unfold u64 in Hu. lia.
Qed.
Lemma slot_page_fits : (INDEX_PAGE_PHOTOS * k < length slots)%nat ∧ (Z.of_nat k ≤ u32_max)%Z.
Proof.
  destruct pos_bound as [_ Hs]. apply lookup_lt_Some in Hs. destruct Hw as [_ _ _ Hl _]. unfold u32_max, INDEX_PAGE_PHOTOS in *. lia.
Qed.

Notation zeros := (replicate (INDEX_PAGE_PHOTOS - length (page_of k slots)) 0%Z).
(** The page as it is read, and without the photo. *)
Definition full_page : IndexPage := mkIndexPage (Z.of_nat (length (in_use (page_of k slots)))) (page_of k slots ++ zeros).
Definition cleared_page : IndexPage := mkIndexPage (page_active_count full_page - 1) (<[pos := 0%Z]> (page_ids full_page)).

Lemma page_of_asc j : asc 0 (page_of j slots).
Proof.
  destruct Hw as [Ha _ _ _ _]. rewrite <- (take_drop (INDEX_PAGE_PHOTOS * j) slots) in Ha. apply asc_app in Ha as [Ht Ha].
  apply asc_mono with (prev' := 0%Z) in Ha; [|by apply top_ge]. unfold page_of.
  rewrite <- (take_drop INDEX_PAGE_PHOTOS (drop _ _)) in Ha. by apply asc_app in Ha as [Ha _].
Qed.
Lemma full_page_wf : page_wf full_page.
Proof.
  pose proof (page_of_length k slots). apply (canonical_wf slots last); [done|apply page_of_incl|apply page_of_asc|lia].
Qed.
Lemma in_use_clear_length l p : asc 0 l → l !! p = Some id → (length (in_use (<[p := 0%Z]> l)) + 1 = length (in_use l))%nat.
Proof.
  clear Hpos. revert p. generalize 0%Z at 1. induction l as [|x l IH]; intros prev [|p] Ha Hp; simpl in Hp; [done..| |].
  - injection Hp as ->. simpl. destruct (Z.eqb_spec id 0); [done|]. simpl. lia.
  - simpl in *. destruct (Z.eqb_spec x 0) as [->|Hx]; simpl; [by eapply IH|]. destruct Ha as [_ Ha]. specialize (IH x p Ha Hp). lia.
Qed.
Lemma cleared_page_eq :
  cleared_page = mkIndexPage (Z.of_nat (length (in_use (page_of k cleared))))
    (page_of k cleared ++ replicate (INDEX_PAGE_PHOTOS - length (page_of k cleared)) 0%Z).
Proof.
  pose proof (in_use_clear_length _ _ (page_of_asc k) Hpos). rewrite page_of_cleared, length_insert. unfold cleared_page, full_page.
  cbn [page_active_count page_ids]. f_equal; [lia|]. apply insert_app_l. by eapply lookup_lt_Some.
Qed.
Lemma cleared_page_wf : page_wf cleared_page.
Proof.
  rewrite cleared_page_eq. pose proof (page_of_length k cleared).
  apply (canonical_wf cleared last); [apply slots_wf_cleared|apply page_of_incl| |lia].
  rewrite page_of_cleared. apply asc_clear, page_of_asc.
Qed.

(** Writing the page of the slot moves between the two indexes. *)
Lemma committed_put_page m (slots' : list Z) p :
  (∀ j, j ≠ k → page_of j slots' = page_of j slots) → length slots' = length slots →
  page_wf p → page_of k slots' `prefix_of` page_ids p → committed m slots last ∨ committed m cleared last →
  committed (<[page_key (Z.of_nat k) := encode_page (Z.of_nat k) p]> m) slots' last.
Proof.
  intros Hother Hlen Hp Hpre Hc. destruct slot_page_fits as [Hk Hfits].
  assert (∃ e h, m !! PHOTO_LIBRARY_HEAD_KEY = Some e ∧ decode_head e = Ok h ∧ head_slot_count h = Z.of_nat (length slots) ∧ head_last_id h = last ∧
    ∀ j, j ≠ k → (INDEX_PAGE_PHOTOS * j < length slots)%nat → page_stored m slots j) as (e&h&He&Hd&Hs&Hl&Hall).
  { destruct Hc as [(e&h&He&Hd&Hs&Hl&Hall)|(e&h&He&Hd&Hs&Hl&Hall)]; exists e, h; split_and!; try done; [by intros j _; apply Hall|by rewrite length_insert in Hs|].
    intros j Hj Hjl. destruct (Hall j) as (e'&p'&?&?&?); [by rewrite length_insert|]. exists e', p'. by rewrite page_of_other in * by done. }
  exists e, h. rewrite lookup_insert_ne by done. split_and!; [done|done|by rewrite Hlen|done|]. intros j Hj. rewrite Hlen in Hj.
  destruct (decide (j = k)) as [->|Hne]; [by apply store_page_stored|].
  destruct (Hall j Hne Hj) as (e'&p'&He'&Hd'&Hpre'). exists e', p'. rewrite (Hother j Hne), lookup_insert_ne; [done|].
  destruct Hw as [_ _ _ Hlw _]. intros Heq. apply page_key_inj in Heq; unfold u32_max, INDEX_PAGE_PHOTOS in *; lia.
Qed.
End clear.

(** ** Removing *)

(** As long as the index has the photo its data is untouched; nothing of another
    photo changes. *)
Definition remove_inv (m0 : pstore) (slots : list Z) (last id : Z) (m : pstore) : Prop :=
  (Library m slots last ∧ changed_only [] m0 m) ∨
  (∃ i, slots !! i = Some id ∧ Library m (<[i := 0%Z]> slots) last ∧ changed_only (photo_keys id) m0 m).

Lemma checked_sub_one z : (0 < z)%Z → checked_sub z 1 = Some (z - 1)%Z.
Proof. intros Hz. unfold checked_sub. destruct (Z.ltb_spec z 1); [lia|done]. Qed.
Lemma length_in_use_pos l i (id : Z) : l !! i = Some id → id ≠ 0%Z → (0 < length (in_use l))%nat.
Proof.
  intros Hi Hid. assert (id ∈ in_use l) as Hin by (apply elem_of_in_use; split; [by eapply list_elem_of_lookup_2|done]).
  destruct (in_use l); [by apply elem_of_nil in Hin|simpl; lia].
Qed.

Section remove.
  Context {S : Type} `{PhotoStorage S, !PhotoStorageLaws S} (I : pstore → Prop) (request_id : Z).
  Context (slots : list Z) (last id : Z) (m0 : pstore) (Hw : slots_wf slots last) (Hid : id ≠ 0%Z).
  Context (HI : ∀ m, remove_inv m0 slots last id m → I m).

Definition present (m : pstore) : Prop := committed m slots last ∧ changed_only [] m0 m.
Definition removed (m : pstore) : Prop :=
  ∃ i, slots !! i = Some id ∧ Library m (<[i := 0%Z]> slots) last ∧ head_exact m (<[i := 0%Z]> slots) last ∧ gone (photo_keys id) m ∧ changed_only (photo_keys id) m0 m.
Lemma present_inv m : present m → remove_inv m0 slots last id m.
Proof. intros [Hc Ho]. left. split; [split; [done|by left]|done]. Qed.

Section page.
  Context (k pos : nat) (Hpos : page_of k slots !! pos = Some id).
Notation i := (INDEX_PAGE_PHOTOS * k + pos)%nat.
Notation cleared := (<[i := 0%Z]> slots).
Notation full := (full_page slots k).
Notation empty := (cleared_page slots k pos).
Definition unlisted (m : pstore) : Prop := committed m cleared last ∧ changed_only [] m0 m.
Definition erasing (m : pstore) : Prop := committed m cleared last ∧ changed_only (photo_keys id) m0 m.

Lemma unlisted_erasing m : unlisted m → erasing m.
Proof. intros [Hc Ho]. split; [done|]. eapply changed_only_weaken; [|exact Ho]. intros x Hx. by apply elem_of_nil in Hx. Qed.
Lemma erasing_inv m : erasing m → remove_inv m0 slots last id m.
Proof.
  intros [Hc Ho]. right. exists i. split; [by apply (pos_bound slots k pos id)|]. split; [|done].
  split; [by apply (slots_wf_cleared slots last Hw)|by left].
Qed.
Lemma erasing_photo : photo_frame id erasing.
Proof.
  intros m m' Hm [Hc Ho]. split; [by apply (committed_photo id cleared last m m' Hm)|by apply (changed_only_photo id m0 m m' Hm)].
Qed.
Lemma put_cleared m : present m ∨ unlisted m → unlisted (<[page_key (Z.of_nat k) := encode_page (Z.of_nat k) empty]> m).
Proof.
  intros Hm. assert (changed_only [] m0 m) as Ho by (by destruct Hm as [[_ ?]|[_ ?]]).
  split; [|by apply (index_frame_put_page _ _ _ _ (changed_only_index _ m0))].
  eapply (committed_put_page slots last Hw k pos id Hpos); [intros j Hj; by eapply page_of_other|apply length_insert|by eapply cleared_page_wf| |
    destruct Hm as [[? _]|[? _]]; auto].
  rewrite (cleared_page_eq slots last Hw k pos id) by done. by eexists.
Qed.
Lemma put_full m : present m ∨ unlisted m → present (<[page_key (Z.of_nat k) := encode_page (Z.of_nat k) full]> m).
Proof.
  intros Hm. assert (changed_only [] m0 m) as Ho by (by destruct Hm as [[_ ?]|[_ ?]]).
  split; [|by apply (index_frame_put_page _ _ _ _ (changed_only_index _ m0))].
  eapply (committed_put_page slots last Hw k pos id Hpos); [done|done|by eapply full_page_wf|by eexists|destruct Hm as [[? _]|[? _]]; auto].
Qed.

Lemma pt_remove_from_page :
  ptriple I (remove_inv m0 slots last id) present (remove_from_page request_id (exact_head slots last) (Z.of_nat k) full pos id)
    (λ b m, b = true ∧ removed m) (λ _, remove_inv m0 slots last id).
Proof.
  destruct (pos_bound slots k pos id Hpos) as [Hlt Hslot]. unfold remove_from_page. cbn [page_active_count full_page head_active_count head_slot_count head_last_id exact_head].
  pose proof (length_in_use_pos _ _ _ Hpos Hid). rewrite checked_sub_one by lia. apply pt_bind_ok.
  change (mkIndexPage _ _) with empty.
  eapply pt_bind with (R := λ _, unlisted).
  { apply pt_store_page. intros m Hm. pose proof (put_cleared m (or_introl Hm)) as Hu.
    split; [by apply HI, present_inv|]. split; [by apply HI, erasing_inv, unlisted_erasing|]. split; [done|].
    intros _. split; [by apply present_inv|by apply erasing_inv, unlisted_erasing]. }
  intros u1. pose proof (length_in_use_pos _ _ _ Hslot Hid). rewrite checked_sub_one by lia. apply pt_bind_ok.
  assert (Z.of_nat (length (in_use slots)) - 1 = Z.of_nat (length (in_use cleared)))%Z as ->.
  { destruct Hw as [Ha _ _ _ _]. pose proof (in_use_clear_length id Hid slots i Ha Hslot). lia. }
  replace (Z.of_nat (length slots)) with (Z.of_nat (length cleared)) by (by rewrite length_insert).
  change (mkHead _ _ _) with (exact_head cleared last).
  set (E := λ m, erasing m ∧ head_exact m cleared last).
  eapply pt_bind with (R := λ _, E).
  { eapply pt_loss with (D' := λ m, present m ∨ unlisted m).
    { intros m [Hm|Hm]; [by apply present_inv|by apply erasing_inv, unlisted_erasing]. }
    eapply pt_cleanup with (Y := λ _, unlisted).
    - apply pt_store_head. intros m Hm.
      assert (unlisted (<[PHOTO_LIBRARY_HEAD_KEY := encode_head (exact_head cleared last)]> m)) as Hu.
      { split; [|by apply (index_frame_put_head _ _ _ (changed_only_index _ m0)), Hm].
        apply commit_head; [by apply slots_wf_cleared|]. by destruct Hm as [(?&?&?&?&?&?&?) _]. }
      split; [by apply HI, erasing_inv, unlisted_erasing|]. split; [by apply HI, erasing_inv, unlisted_erasing|].
      split; [|by auto]. split; [by apply unlisted_erasing|apply lookup_insert_eq].
    - intros e. apply pt_ignore, pt_store_page. intros m Hm. pose proof (put_full m (or_intror Hm)) as Hp.
      split; [by apply HI, erasing_inv, unlisted_erasing|]. split; [by apply HI, present_inv|]. split; [by apply present_inv|].
      intros e'. split; [by apply erasing_inv, unlisted_erasing|by apply present_inv].
    - apply pt_ignore, pt_store_page. intros m Hm. pose proof (put_full m Hm) as Hp. by auto 10. }
  intros u2. eapply pt_bind.
  { apply pt_map_err. eapply pt_conseq; [apply (pt_erase I _ request_id id E)|done|intros b m Hm; exact Hm|intros e m [Hm _]; by apply erasing_inv].
    - intros m m' Hm [He Hh]. split; [by apply (erasing_photo m m' Hm)|]. unfold head_exact. rewrite Hm; [done|apply head_not_photo].
    - intros m [Hm _]. by apply HI, erasing_inv. }
  intros b. apply pt_ret. intros m [[[Hc Ho] Hh] Hg]. split; [done|]. exists i. split_and!; [done| |done|done|done].
  split; [by apply slots_wf_cleared|by left].
Qed.
End page.

Lemma position_id_None l : position (λ entry, (entry =? id)%Z) l = None → id ∉ l.
Proof.
  induction l as [|x l IH]; simpl; intros Hp; [by apply not_elem_of_nil|]. destruct (Z.eqb_spec x id); [done|].
  destruct (position _ l); [done|]. intros [->|Hin]%elem_of_cons; [done|]. by apply IH.
Qed.
Lemma not_in_step k : id ∉ take (INDEX_PAGE_PHOTOS * k) slots → id ∉ page_of k slots → id ∉ take (INDEX_PAGE_PHOTOS * Datatypes.S k) slots.
Proof.
  intros H1 H2. replace (INDEX_PAGE_PHOTOS * Datatypes.S k)%nat with (INDEX_PAGE_PHOTOS * k + INDEX_PAGE_PHOTOS)%nat by lia.
  rewrite <- take_take_drop. by intros [?|?]%elem_of_app.
Qed.

Lemma pt_remove_pages n k :
  (length slots ≤ INDEX_PAGE_PHOTOS * (k + n))%nat → (∀ j, (j < k + n)%nat → (INDEX_PAGE_PHOTOS * j < length slots)%nat) →
  id ∉ take (INDEX_PAGE_PHOTOS * k) slots →
  ptriple I (remove_inv m0 slots last id) present (remove_pages request_id n (Z.of_nat k) (exact_head slots last) id)
    (λ b m, b = true ∧ removed m ∨ b = false ∧ id ∉ slots ∧ present m) (λ _, remove_inv m0 slots last id).
Proof.
  revert k. induction n as [|n IH]; intros k Hend Hin Hnot.
  { apply pt_ret. intros m Hm. right. split_and!; [done| |done]. rewrite Nat.add_0_r in Hend. by rewrite take_ge in Hnot. }
  cbn [remove_pages]. eapply (pt_page_then I _ request_id slots last k); [done|apply Hin; lia| |].
  { intros m Hm. split; [by apply HI, present_inv|]. split; [destruct Hm as [(?&?&?&?&?&?&Hp) _]; apply Hp, Hin; lia|].
    intros e. by apply present_inv. }
  intros p Hp Hpre. rewrite (page_slots_of _ k slots), canonical_ids by done. cbn [page_ids]. rewrite take_app_length.
  change (mkIndexPage _ _) with (full_page slots k).
  destruct (position _ (page_of k slots)) as [pos|] eqn:Hposition.
  - apply position_lookup in Hposition as (x&Hx&He). apply Z.eqb_eq in He as ->.
    eapply pt_conseq; [by apply pt_remove_from_page|done| |done]. intros b m Hm. by left.
  - replace (Z.of_nat k + 1)%Z with (Z.of_nat (Datatypes.S k)) by lia. apply IH.
    + by replace (Datatypes.S k + n)%nat with (k + Datatypes.S n)%nat by lia.
    + intros j Hj. apply Hin. lia.
    + apply not_in_step; [done|]. by apply position_id_None.
Qed.
End remove.

Section lookup.
  Context {S : Type} `{PhotoStorage S, !PhotoStorageLaws S} (I : pstore → Prop) (request_id : Z).
  Context (slots : list Z) (last : Z) (m0 : pstore) (Hw : slots_wf slots last).

(** What may be left when the reply to a write of the head is lost: as at any
    other time, but for the migration of the first format. *)
Definition remove_damage (id : Z) (m : pstore) : Prop :=
  remove_inv m0 slots last id m ∨ (changed_only [] m0 m ∧ pages_lost m ∧ m0 !! PHOTO_LIBRARY_HEAD_KEY = None).

Lemma pt_remove id :
  Library m0 slots last → (∀ m, remove_inv m0 slots last id m → I m) →
  ptriple I (remove_damage id) (λ m, m = m0) (remove_frame request_id id)
    (λ b m, b = true ∧ removed slots last id m0 m ∨ b = false ∧ id ∉ slots ∧ present slots last m0 m)
    (λ _, remove_inv m0 slots last id).
Proof.
  intros HL HI. unfold remove_frame. case_match eqn:E; [apply pt_err; intros m ->; by left|].
  apply orb_false_iff in E as [Hne%Z.eqb_neq _].
  eapply pt_bind with (R := λ h m, h = exact_head slots last ∧ present slots last m0 m).
  - assert (∀ m, Library m slots last → changed_only [] m0 m → I m) as HIl by (intros m HLm Ho; apply HI; by left).
    pose proof (changed_only_index [] m0) as Hframe. destruct HL as [_ [Hc|Hu]].
    + apply pt_kept. eapply pt_conseq; [apply (pt_load_committed I request_id slots last (changed_only [] m0)); done|by intros m ->|done|by left].
    + eapply pt_loss; [|eapply pt_conseq; [apply (pt_load_unmigrated I request_id slots last (changed_only [] m0)); done|by intros m ->|done|by left]].
      intros m [[Hm|Hm] Ho]; [left; left; split; [split; [done|by left]|done]|right]. split_and!; [done|done|apply Hu].
  - intros h. apply pt_pure. intros ->. destruct (div_ceil_pages slots) as [Hend Hin]. eapply pt_loss; [by left|].
    apply (pt_remove_pages I request_id slots last id m0 Hw Hne HI _ 0); [done|done|apply not_elem_of_nil].
Qed.

(** ** Looking up *)

Lemma scan_ids_spec id ids rest prev :
  (0 < id)%Z → asc prev (ids ++ rest) →
  match scan_ids id ids with
  | Some found => found = bool_decide (id ∈ ids ++ rest)
  | None => id ∉ ids
  end.
Proof.
  intros Hid. revert prev. induction ids as [|x ids IH]; intros prev Ha; cbn [scan_ids]; [by apply not_elem_of_nil|].
  destruct (Z.eqb_spec x id) as [->|Hne]; [symmetry; apply bool_decide_eq_true_2, elem_of_cons; by left|].
  cbn [app asc] in *. destruct (Z.ltb_spec id x) as [Hlt|Hge].
  - destruct (Z.eqb_spec x 0); [lia|]. destruct Ha as [_ Ha]. symmetry. apply bool_decide_eq_false_2.
    rewrite elem_of_cons. intros [?|Hin]; [lia|].
    assert (x < id)%Z; [|lia]. apply (asc_above x (ids ++ rest)); [done|]. apply elem_of_in_use. split; [done|lia].
  - assert (∃ prev', asc prev' (ids ++ rest)) as [prev' Ha'] by (destruct (x =? 0)%Z; [by eexists|destruct Ha; by eexists]).
    specialize (IH prev' Ha'). destruct (scan_ids id ids) as [found|].
    + rewrite IH. apply bool_decide_ext. rewrite elem_of_cons. split; [by right|]. intros [?|?]; [lia|done].
    + rewrite elem_of_cons. intros [?|?]; [lia|done].
Qed.

Section reads.
  Context (HI : I m0).

Lemma pt_active_pages h id n k :
  (0 < id)%Z → pages_stored m0 slots → head_slot_count h = Z.of_nat (length slots) →
  (length slots ≤ INDEX_PAGE_PHOTOS * (k + n))%nat → (∀ j, (j < k + n)%nat → (INDEX_PAGE_PHOTOS * j < length slots)%nat) →
  id ∉ take (INDEX_PAGE_PHOTOS * k) slots →
  ptriple I never (λ m, m = m0) (active_pages request_id n (Z.of_nat k) h id)
    (λ b m, b = bool_decide (id ∈ slots) ∧ m = m0) (λ e m, m = m0 ∧ ∃ e', e = PiStorage e').
Proof.
  intros Hid Hstored Hh. revert k. induction n as [|n IH]; intros k Hend Hin Hnot.
  { apply pt_ret. intros m Hm. split; [|done]. rewrite Nat.add_0_r in Hend. rewrite take_ge in Hnot by done. symmetry.
    by apply bool_decide_eq_false_2. }
  cbn [active_pages]. eapply (pt_page_then I never request_id slots last k); [done|apply Hin; lia| |].
  { intros m ->. split_and!; [done|apply Hstored, Hin; lia|eauto]. }
  intros p Hp [r Hr]. rewrite (page_slots_of h k slots Hh), Hr, take_app_length.
  pose proof (sw_asc _ _ Hw) as Hsplit. rewrite <- (take_drop (INDEX_PAGE_PHOTOS * k) slots), page_of_step in Hsplit.
  apply asc_app in Hsplit as [_ Hsplit]. pose proof (scan_ids_spec id _ _ _ Hid Hsplit) as Hscan.
  destruct (scan_ids id (page_of k slots)) as [found|].
  - apply pt_ret. intros m Hm. split; [|done]. rewrite Hscan, <- page_of_step. apply bool_decide_ext.
    rewrite <- (take_drop (INDEX_PAGE_PHOTOS * k) slots) at 2. rewrite elem_of_app. split; [by right|by intros [?|?]].
  - replace (Z.of_nat k + 1)%Z with (Z.of_nat (Datatypes.S k)) by lia. apply IH.
    + by replace (Datatypes.S k + n)%nat with (k + Datatypes.S n)%nat by lia.
    + intros j Hj. apply Hin. lia.
    + by apply not_in_step.
Qed.

Lemma pt_is_active id :
  (0 < id ≤ MAX_PHOTO_ID)%Z → Library m0 slots last →
  ptriple I never (λ m, m = m0) (photo_is_active request_id id) (λ b m, b = bool_decide (id ∈ slots) ∧ m = m0)
    (λ e m, m = m0 ∧ ∃ e', e = PiStorage e').
Proof.
  intros [Hid Hmax] HL. unfold photo_is_active. destruct (Z.eqb_spec id 0); [lia|]. destruct (Z.ltb_spec MAX_PHOTO_ID id); [lia|]. cbn [orb].
  eapply pt_bind with (R := λ o m, o = m0 !! PHOTO_LIBRARY_HEAD_KEY ∧ m = m0); [apply pt_from_get; intros m ->; by eauto 10|].
  intros o. apply pt_pure. intros ->. destruct HL as [_ [(e&h&He&Hd&Hs&Hl&Hp)|(Hn&Hm&Hl)]].
  - rewrite He, Hd. apply pt_bind_ok. rewrite Hs. destruct (div_ceil_pages slots) as [Hend Hin].
    apply (pt_active_pages h id _ 0); [done..|apply not_elem_of_nil].
  - rewrite Hn.
    eapply pt_bind with (R := λ o m, o = m0 !! PHOTO_LIBRARY_LEGACY_INDEX_KEY ∧ m = m0); [apply pt_from_get; intros m ->; by eauto 10|].
    intros o. apply pt_pure. intros ->. destruct (m0 !! PHOTO_LIBRARY_LEGACY_INDEX_KEY) as [e|].
    + destruct Hm as (l&Hd&->). rewrite Hd. apply pt_bind_ok. by apply pt_ret.
    + rewrite Hm. apply pt_ret. intros m ->. done.
Qed.

Lemma pt_list_pages h n k :
  pages_stored m0 slots → head_slot_count h = Z.of_nat (length slots) →
  (length slots ≤ INDEX_PAGE_PHOTOS * (k + n))%nat → (∀ j, (j < k + n)%nat → (INDEX_PAGE_PHOTOS * j < length slots)%nat) →
  ptriple I never (λ m, m = m0) (list_pages request_id n (Z.of_nat k) h)
    (λ ids m, ids = in_use (drop (INDEX_PAGE_PHOTOS * k) slots) ∧ m = m0) (λ e m, m = m0 ∧ ∃ e', e = PiStorage e').
Proof.
  intros Hstored Hh. revert k. induction n as [|n IH]; intros k Hend Hin.
  { apply pt_ret. intros m Hm. rewrite Nat.add_0_r in Hend. by rewrite drop_ge. }
  cbn [list_pages]. eapply (pt_page_then I never request_id slots last k); [done|apply Hin; lia| |].
  { intros m ->. split_and!; [done|apply Hstored, Hin; lia|eauto]. }
  intros p Hp [r Hr]. rewrite (page_slots_of h k slots Hh), Hr, take_app_length.
  replace (Z.of_nat k + 1)%Z with (Z.of_nat (Datatypes.S k)) by lia.
  eapply pt_bind; [apply (IH (Datatypes.S k))|].
  - by replace (Datatypes.S k + n)%nat with (k + Datatypes.S n)%nat by lia.
  - intros j Hj. apply Hin. lia.
  - intros ids. apply pt_pure. intros ->. apply pt_ret. intros m Hm. by rewrite (page_of_step k slots), in_use_app.
Qed.

(** The listing, unless the count of the head is out of date. *)
Definition stale_head (m : pstore) : Prop :=
  ∃ e h, m !! PHOTO_LIBRARY_HEAD_KEY = Some e ∧ decode_head e = Ok h ∧ head_active_count h ≠ Z.of_nat (length (in_use slots)).
Lemma pt_listed_ids :
  Library m0 slots last →
  ptriple I never (λ m, m = m0) (listed_ids request_id) (λ ids m, ids = in_use slots ∧ ¬ stale_head m0 ∧ m = m0)
    (λ e m, m = m0 ∧ (e = PiInvalidIndex ∧ stale_head m0 ∨ ∃ e', e = PiStorage e')).
Proof.
  intros [_ HL]. unfold listed_ids.
  eapply pt_bind with (R := λ o m, o = m0 !! PHOTO_LIBRARY_HEAD_KEY ∧ m = m0); [apply pt_from_get; intros m ->; by eauto 10|].
  intros o. apply pt_pure. intros ->. destruct HL as [(e&h&He&Hd&Hs&Hl&Hp)|(Hn&Hm&Hl)].
  - rewrite He, Hd. apply pt_bind_ok. rewrite Hs. destruct (div_ceil_pages slots) as [Hend Hin].
    eapply pt_bind; [eapply pt_conseq; [apply (pt_list_pages h _ 0); done|done|intros ids m Hm; exact Hm|intros e' m [? ?]; by auto]|].
    intros ids. apply pt_pure. intros ->. rewrite drop_0.
    destruct (Z.eqb_spec (Z.of_nat (length (in_use slots))) (head_active_count h)) as [Hc|Hc]; cbn [negb].
    + apply pt_ret. intros m Hm. split_and!; [done| |done]. intros (e'&h'&He'&Hd'&Hne). congruence.
    + apply pt_err. intros m Hm. split; [done|]. left. split; [done|]. exists e, h. by split_and!; [..|apply not_eq_sym].
  - assert (¬ stale_head m0) as Hfresh by (intros (e&h&He&_); by rewrite He in Hn). rewrite Hn.
    eapply pt_bind with (R := λ o m, o = m0 !! PHOTO_LIBRARY_LEGACY_INDEX_KEY ∧ m = m0); [apply pt_from_get; intros m ->; by eauto 10|].
    intros o. apply pt_pure. intros ->. destruct (m0 !! PHOTO_LIBRARY_LEGACY_INDEX_KEY) as [e|].
    + destruct Hm as (l&Hd&->). rewrite Hd. apply pt_bind_ok. apply pt_ret. intros m Hm.
      apply decode_legacy_Ok in Hd as (_&_&_&Hu&_). done.
    + rewrite Hm. by apply pt_ret.
Qed.
End reads.
End lookup.

(** ** A missing page *)

Section missing.
  Context {S : Type} `{PhotoStorage S, !PhotoStorageLaws S} (request_id : Z) (m0 : pstore).

(** The operation fails and changes nothing. *)
Definition stuck {E A} (m : SM S E A) : Prop :=
  ptriple (λ _, True) never (λ m, m = m0) m (λ _, never) (λ _ m, m = m0).

Lemma stuck_bind {E A B} (m : SM S E A) (k : A → SM S E B) : stuck m → stuck (sm_bind m k).
Proof. intros Hm. eapply pt_bind; [exact Hm|]. intros a. apply pt_false. by intros ? []. Qed.
Lemma stuck_err {E A} (e : E) : stuck (@sm_err S E A e).
Proof. by apply pt_err. Qed.
(** Reading on the way. *)
Lemma stuck_after {E A B} (m : SM S E A) (φ : A → Prop) (k : A → SM S E B) :
  ptriple (λ _, True) never (λ m, m = m0) m (λ a m, φ a ∧ m = m0) (λ _ m, m = m0) → (∀ a, φ a → stuck (k a)) → stuck (sm_bind m k).
Proof. intros Hm Hk. eapply pt_bind; [exact Hm|]. intros a. by apply pt_pure, Hk. Qed.
Lemma pt_reads {E A} (r : result E A) (φ : A → Prop) :
  (r ≠ Panicked) → (∀ a, r = Ok a → φ a) → ptriple (λ _, True) never (λ m, m = m0) (sm_lift r : SM S E A) (λ a m, φ a ∧ m = m0) (λ _ m, m = m0).
Proof. intros Hnp Hr. apply pt_lift. intros m Hm. destruct r; auto. Qed.

Lemma reconcile_ids_np last ids active prev : reconcile_ids last ids active prev ≠ Panicked.
Proof.
  revert active prev. induction ids as [|x ids IH]; intros active prev; cbn [reconcile_ids]; [done|].
  destruct (x =? 0)%Z; [apply IH|]. destruct (_ || _); [done|]. destruct (checked_add_u64 active 1); [apply IH|done].
Qed.

Lemma pt_load_any k :
  ptriple (λ _, True) never (λ m, m = m0) (load_page request_id k) (λ o m, (m0 !! page_key k = None → o = None) ∧ m = m0) (λ _ m, m = m0).
Proof.
  eapply pt_bind with (R := λ o m, o = m0 !! page_key k ∧ m = m0); [apply pt_from_get; by intros m ->|].
  intros o. apply pt_pure. intros ->. destruct (m0 !! page_key k) as [e|]; [|by apply pt_ret].
  eapply pt_bind with (R := λ _ m, True ∧ m = m0); [by apply pt_reads; [apply decode_page_np|]|]. intros p. apply pt_pure. intros _. by apply pt_ret.
Qed.

Lemma stuck_page {A} K k (body : Z → IndexPage → SM S PhotoImportError A) :
  (Z.of_nat K ≤ u32_max)%Z → m0 !! page_key (Z.of_nat K) = None → (k ≤ K)%nat → (k ≠ K → ∀ p, stuck (body (Z.of_nat k) p)) →
  stuck (let+ n := sm_lift (page_number_u32 (Z.of_nat k)) in
         let+ page := load_page request_id n in
         let+ page := sm_lift (ok_or page PiInvalidIndex) in
         body n page).
Proof.
  intros HK Hnone Hk Hb. unfold page_number_u32. destruct (Z.ltb_spec u32_max (Z.of_nat k)); [lia|].
  apply pt_bind_ok. eapply stuck_after; [apply pt_load_any|]. intros o Ho. destruct (decide (k = K)) as [->|Hne].
  - rewrite (Ho Hnone). by apply pt_bind_err.
  - eapply stuck_after; [by apply (pt_reads _ (λ _, True)); destruct o|]. intros p _. by apply Hb.
Qed.

Lemma stuck_reconcile_pages K h n k active prev :
  (Z.of_nat K ≤ u32_max)%Z → m0 !! page_key (Z.of_nat K) = None → (k ≤ K < k + n)%nat →
  stuck (reconcile_pages request_id n (Z.of_nat k) h active prev).
Proof.
  intros HK Hnone. revert k active prev. induction n as [|n IH]; intros k active prev Hk; [lia|].
  cbn [reconcile_pages]. apply (stuck_page K); [done|done|lia|]. intros Hne p.
  eapply stuck_after; [apply (pt_reads _ (λ _, True)); [apply reconcile_ids_np|done]|]. intros c _.
  replace (Z.of_nat k + 1)%Z with (Z.of_nat (Datatypes.S k)) by lia. apply IH. lia.
Qed.
Lemma stuck_list_pages K h n k :
  (Z.of_nat K ≤ u32_max)%Z → m0 !! page_key (Z.of_nat K) = None → (k ≤ K < k + n)%nat → stuck (list_pages request_id n (Z.of_nat k) h).
Proof.
  intros HK Hnone. revert k. induction n as [|n IH]; intros k Hk; [lia|].
  cbn [list_pages]. apply (stuck_page K); [done|done|lia|]. intros Hne p. apply stuck_bind.
  replace (Z.of_nat k + 1)%Z with (Z.of_nat (Datatypes.S k)) by lia. apply IH. lia.
Qed.
Lemma page_counted h K : (Z.of_nat (INDEX_PAGE_PHOTOS * K) < head_slot_count h)%Z → (0 ≤ K < 0 + Z.to_nat (div_ceil_page (head_slot_count h)))%nat.
Proof.
  unfold div_ceil_page. change (Z.of_nat INDEX_PAGE_PHOTOS) with 256%Z. unfold INDEX_PAGE_PHOTOS. intros Hc.
  assert (Z.of_nat K < (head_slot_count h + 256 - 1) / 256)%Z; [|lia]. assert (Z.of_nat K + 1 ≤ (head_slot_count h + 256 - 1) / 256)%Z; [|lia].
  apply Z.div_le_lower_bound; lia.
Qed.

Context (Hlost : pages_lost m0).

Lemma stuck_load_head : stuck (load_head_for_update request_id).
Proof.
  destruct Hlost as (e&h&K&He&Hd&HK&Hc&Hn). eapply stuck_after with (φ := λ o, o = Some e); [apply pt_from_get; by intros m ->|].
  intros o ->. rewrite Hd. apply pt_bind_ok, stuck_bind. apply (stuck_reconcile_pages K _ _ 0); [done|done|by apply page_counted].
Qed.
Lemma stuck_import `{Crypto} frame original : stuck (import_frame_with_original request_id frame original).
Proof.
  unfold import_frame_with_original. case_match; [apply stuck_err|]. case_match; [apply stuck_err|]. apply stuck_bind, stuck_load_head.
Qed.
Lemma stuck_remove id : stuck (remove_frame request_id id).
Proof. unfold remove_frame. case_match; [apply stuck_err|]. apply stuck_bind, stuck_load_head. Qed.
Lemma stuck_list : stuck (list_photo_exports request_id).
Proof.
  apply stuck_bind. destruct Hlost as (e&h&K&He&Hd&HK&Hc&Hn).
  eapply stuck_after with (φ := λ o, o = Some e); [apply pt_from_get; by intros m ->|].
  intros o ->. rewrite Hd. apply pt_bind_ok, stuck_bind. apply (stuck_list_pages K _ _ 0); [done|done|by apply page_counted].
Qed.
End missing.
