(* ===== verification/PhotoLibraryService.v ===== *)
(** * The storage service as the storage of the photo library

    The photo library reaches the storage service through its client.  Here the
    service is the abstract one of [StorageRefine], which the service on the
    disk implements.  Each request may fail on its way to the service, and each
    reply on its way back, when the service has already done what it was asked:
    this is a connection that times out or breaks, and also a service that
    renamed a value into place and then could not sync the directory.  The laws
    that the library relies on are proved of this composition. *)

From S2P Require Import Prelude RustStr Bytes Manifest HostFs Checkpoint Package StorageProtocol Storage StorageRefine StorageClient PhotoLibrary PhotoLibraryLogic.

(** What happens to a request.  The service handles one connection after the
    other, so a request that the client gave up is done with before the next
    one. *)
Inductive Fault := FtNone | FtBefore (e : StorageClientError) | FtAfter (e : StorageClientError).

(** The stores of the service, what the requests of the library left, and the
    faults of the coming requests. *)
Record PhotoWorld := mkPhotoWorld {
  pw_stores : gmap string pstore;
  pw_trail : list PhotoEvent;
  pw_faults : list Fault;
}.
Definition library_store (σ : gmap string pstore) : pstore := default ∅ (σ !! PHOTO_LIBRARY_ID).
Definition pw_step (w : PhotoWorld) (lost : option string) (σ : gmap string pstore) : PhotoWorld :=
  mkPhotoWorld σ (pw_trail w ++ [(lost, library_store σ)]) (tail (pw_faults w)).

(** The key of the value that was written. *)
Definition written_key (c : StorageCommand) (o : StorageOutcome) : option string :=
  match c, o with ScPut k _, SoStored _ => Some k | _, _ => None end.

(** An exchange with the abstract storage service: a request that is not valid
    is not sent, a response that is not valid is refused. *)
Definition spec_exchange (request : StorageRequest) : SM PhotoWorld StorageClientError StorageOutcome := λ w,
  let fault := default FtNone (head (pw_faults w)) in
  match fault with
  | FtBefore e => (Err e, pw_step w None (pw_stores w))
  | FtNone | FtAfter _ =>
      match StorageRequest_validate request with
      | Ok _ =>
          let '(response, σ) := spec_dispatch (pw_stores w) request in
          match fault with
          | FtAfter e => (Err e, pw_step w (written_key (sr_command request) (sp_outcome response)) σ)
          | _ => (match StorageResponse_validate response with
                  | Ok _ => Ok (sp_outcome response)
                  | Err e => Err (CeProtocol e)
                  | Panicked => Panicked
                  end, pw_step w None σ)
          end
      | Err e => (Err (CeProtocol e), pw_step w None (pw_stores w))
      | Panicked => (Panicked, pw_step w None (pw_stores w))
      end
  end.

Global Instance service_photo_storage : PhotoStorage PhotoWorld := client_photo_storage spec_exchange.

Lemma decode_value_np input : decode_value input ≠ Panicked.
Proof. unfold decode_value. case_match; [done|]. destruct (decode_chunks _ _ _); simpl; [|done]. by case_match. Qed.
Lemma validate_key_np key : validate_key key ≠ Panicked.
Proof. unfold validate_key. by case_match. Qed.
Lemma version_check_np v : storage_version_check v ≠ Panicked.
Proof. unfold storage_version_check. by case_match. Qed.
Lemma request_validate_np request : StorageRequest_validate request ≠ Panicked.
Proof.
  unfold StorageRequest_validate. pose proof (version_check_np (sr_protocol_version request)).
  destruct (storage_version_check _) as [[]| |]; [|done..]. case_match; [done|]. case_match; [done|].
  destruct (sr_command request) as [key value|key|key|key offset total value|key offset n|key expected|key|]; try done;
    pose proof (validate_key_np key) as Hk; try exact Hk; try (pose proof (decode_value_np value) as Hd);
    repeat (case_match; try done).
Qed.
Lemma response_validate_np response : StorageResponse_validate response ≠ Panicked.
Proof.
  unfold StorageResponse_validate. pose proof (version_check_np (sp_protocol_version response)).
  destruct (storage_version_check _) as [[]| |]; [|done..].
  destruct (sp_outcome response) as [u|v| |e u|u|sz|c msg]; try (pose proof (decode_value_np v) as Hd);
    repeat (case_match; try congruence); done.
Qed.

(** Every exchange is one step: it fails before the service, is answered by it,
    or its answer is lost. *)
Lemma spec_exchange_cases request w :
  let x := spec_exchange request w in
  ∃ lost, pw_trail x.2 = pw_trail w ++ [(lost, library_store (pw_stores x.2))] ∧ x.1 ≠ Panicked ∧
  (lost = None ∧ (∃ e, x.1 = Err e) ∧ pw_stores x.2 = pw_stores w ∨
   StorageRequest_validate request = Ok tt ∧ pw_stores x.2 = (spec_dispatch (pw_stores w) request).2 ∧
   ((∃ e, x.1 = Err e) ∧ lost = written_key (sr_command request) (sp_outcome (spec_dispatch (pw_stores w) request).1) ∨
    lost = None ∧
    x.1 = match StorageResponse_validate (spec_dispatch (pw_stores w) request).1 with
          | Ok _ => Ok (sp_outcome (spec_dispatch (pw_stores w) request).1)
          | Err e => Err (CeProtocol e)
          | Panicked => Panicked
          end)).
Proof.
  unfold spec_exchange. pose proof (request_validate_np request).
  destruct (default FtNone _) as [|e|e]; cbn [fst snd pw_step pw_trail pw_stores];
    [|exists None; split_and!; [done|done|left; by eauto]|];
    (destruct (StorageRequest_validate request) as [[]|e'|] eqn:Hv; [|exists None; split_and!; [done..|left; by eauto]|done]);
    (destruct (spec_dispatch (pw_stores w) request) as [response σ]); cbn [fst snd pw_step pw_trail pw_stores].
  - exists None. split; [done|]. split; [|right; split; [done|]; split; [done|by right]]. pose proof (response_validate_np response). by destruct (StorageResponse_validate response).
  - eexists. split; [done|]. split; [done|]. right. split; [done|]. split; [done|]. left. by eauto.
Qed.

Lemma encode_base64_inj a b : encode_base64 a = encode_base64 b → a = b.
Proof.
  intros He. unfold encode_base64 in He. apply (f_equal String.list_ascii_of_string) in He.
  rewrite !String.list_ascii_of_string_of_list_ascii in He.
  assert ((length a + 2) / 3 = (length b + 2) / 3)%nat as Hl.
  { apply (f_equal length) in He. rewrite !length_encode_chunks in He. lia. }
  pose proof (decode_encode_chunks a 0 ((length a + 2) / 3) eq_refl) as Ha.
  pose proof (decode_encode_chunks b 0 ((length a + 2) / 3)) as Hb. rewrite He, Hb in Ha by (by rewrite Hl). congruence.
Qed.
Lemma decoded_is_encoded v v' : decode_value (encode_base64 v) = Ok v' → v' = v.
Proof. intros [He _]%decode_value_Ok. by apply encode_base64_inj. Qed.

(** The service on a request of the library. *)
Definition library_request (id : Z) (c : StorageCommand) : StorageRequest :=
  storage_request id PHOTO_LIBRARY_ID PHOTO_LIBRARY_QUOTA_BYTES c.
Definition library_spec (σ : gmap string pstore) (c : StorageCommand) : result StorageServiceError StorageOutcome * option pstore :=
  spec_command true SYSTEM_PHOTO_LIBRARY_QUOTA_BYTES (σ !! PHOTO_LIBRARY_ID) c.
Lemma library_dispatch σ id c :
  spec_dispatch σ (library_request id c)
  = (spec_response id (library_spec σ c).1, partial_alter (λ _, (library_spec σ c).2) PHOTO_LIBRARY_ID σ).
Proof.
  unfold spec_dispatch, library_spec. change (is_library _) with true. cbn [sr_app_id sr_quota_bytes sr_command sr_request_id library_request storage_request].
  change PHOTO_LIBRARY_QUOTA_BYTES with SYSTEM_PHOTO_LIBRARY_QUOTA_BYTES. by destruct (spec_command _ _ _ _).
Qed.
Lemma library_stepped σ (o : option pstore) : library_store (partial_alter (λ _, o) PHOTO_LIBRARY_ID σ) = default ∅ o.
Proof. unfold library_store. by rewrite lookup_partial_alter_eq. Qed.

(** What the library sees of an exchange. *)
Lemma library_exchange id c w :
  let x := spec_exchange (library_request id c) w in
  ∃ lost, pw_trail x.2 = pw_trail w ++ [(lost, library_store (pw_stores x.2))] ∧
  match x.1 with
  | Ok outcome => lost = None ∧
      StorageRequest_validate (library_request id c) = Ok tt ∧ library_store (pw_stores x.2) = default ∅ (library_spec (pw_stores w) c).2 ∧
      StorageResponse_validate (spec_response id (library_spec (pw_stores w) c).1) = Ok tt ∧
      outcome = sp_outcome (spec_response id (library_spec (pw_stores w) c).1)
  | Err _ =>
      lost = None ∧ library_store (pw_stores x.2) = library_store (pw_stores w) ∨
      StorageRequest_validate (library_request id c) = Ok tt ∧ library_store (pw_stores x.2) = default ∅ (library_spec (pw_stores w) c).2 ∧
      (lost = None ∧ StorageResponse_validate (spec_response id (library_spec (pw_stores w) c).1) ≠ Ok tt ∨
       lost = written_key c (sp_outcome (spec_response id (library_spec (pw_stores w) c).1)))
  | Panicked => False
  end.
Proof.
  intros x. destruct (spec_exchange_cases (library_request id c) w) as (lost&Htr&Hnp&Hx). fold x in Htr, Hnp, Hx. exists lost. split; [done|].
  rewrite library_dispatch in Hx. cbn [fst snd sr_command library_request storage_request] in Hx.
  destruct Hx as [(->&[e ->]&->)|(Hv&Hs&[[[e ->] ->]|[-> Hr]])]; [by left|right; rewrite Hs, library_stepped; by auto|].
  rewrite Hs, library_stepped, Hr. destruct (StorageResponse_validate _) as [[]|e|] eqn:Hresp; [done|right; split; [done|]; split; [done|by left]|by rewrite Hr in Hnp].
Qed.
(** Of one that is not a write of a value. *)
Lemma library_exchange_other id c w :
  (∀ o, written_key c o = None) →
  let x := spec_exchange (library_request id c) w in
  pw_trail x.2 = pw_trail w ++ [(None, library_store (pw_stores x.2))] ∧
  match x.1 with
  | Ok outcome =>
      StorageRequest_validate (library_request id c) = Ok tt ∧ library_store (pw_stores x.2) = default ∅ (library_spec (pw_stores w) c).2 ∧
      StorageResponse_validate (spec_response id (library_spec (pw_stores w) c).1) = Ok tt ∧
      outcome = sp_outcome (spec_response id (library_spec (pw_stores w) c).1)
  | Err _ =>
      library_store (pw_stores x.2) = library_store (pw_stores w) ∨
      StorageRequest_validate (library_request id c) = Ok tt ∧ library_store (pw_stores x.2) = default ∅ (library_spec (pw_stores w) c).2
  | Panicked => False
  end.
Proof.
  intros Hc x. destruct (library_exchange id c w) as (lost&Htr&Hx). fold x in Htr, Hx. rewrite Hc in Hx.
  destruct x.1 as [o|e|]; [destruct Hx as (->&?&?&?&?)|destruct Hx as [[-> ?]|(?&?&[[-> _]| ->])]|done]; by auto.
Qed.

Lemma put_spec σ key v value :
  decode_value (encode_base64 v) = Ok value →
  match (library_spec σ (ScPut key (encode_base64 v))).1 with
  | Ok outcome => (∃ used, outcome = SoStored used ∧ (used ≤ SYSTEM_PHOTO_LIBRARY_QUOTA_BYTES)%Z) ∧
      default ∅ (library_spec σ (ScPut key (encode_base64 v))).2 = <[key := v]> (library_store σ)
  | _ => default ∅ (library_spec σ (ScPut key (encode_base64 v))).2 = library_store σ
  end.
Proof.
  intros Hd. pose proof (decoded_is_encoded _ _ Hd) as ->. unfold library_spec. cbn [spec_command]. rewrite Hd. fold (library_store σ).
  pose proof (spec_put_Ok true (library_store σ) SYSTEM_PHOTO_LIBRARY_QUOTA_BYTES key v) as Hput. unfold spec_put in *. cbn [fst snd] in *.
  destruct (match spec_inspect _ with Ok _ => _ | Err _ => _ | Panicked => _ end) as [used|e|]; cbn [is_ok outcome_of fst snd default]; [|done..].
  destruct (Hput used eq_refl) as (_&_&?&_). by eauto.
Qed.
Lemma validated_value id c : StorageRequest_validate (library_request id c) = Ok tt →
  match c with
  | ScPut _ v | ScPutBlobChunk _ _ _ v => ∃ value, decode_value v = Ok value
  | _ => True
  end.
Proof.
  unfold StorageRequest_validate. cbn [library_request storage_request sr_protocol_version sr_app_id sr_quota_bytes sr_command].
  destruct (storage_version_check _) as [[]| |]; [|done..]. do 2 (case_match; [done|]).
  destruct c as [key value|key|key|key offset total value|key offset n|key expected|key|]; try done.
  - destruct (validate_key key); [|done..]. destruct (decode_value value); [|done..]. eauto.
  - case_match; [done|]. destruct (validate_key key); [|done..]. destruct (decode_value value); [|done..]. eauto.
Qed.
Lemma stored_response_valid id used :
  (used ≤ SYSTEM_PHOTO_LIBRARY_QUOTA_BYTES)%Z → StorageResponse_validate (storage_response id (SoStored used)) = Ok tt.
Proof.
  intros Hu. unfold StorageResponse_validate. cbn [storage_response sp_protocol_version sp_outcome]. change (storage_version_check _) with (@Ok StorageProtocolError unit tt).
  cbn match. destruct (Z.ltb_spec SYSTEM_PHOTO_LIBRARY_QUOTA_BYTES used); [lia|done].
Qed.

Lemma error_outcome id e : ∃ code message, sp_outcome (spec_response id (Err e)) = SoError code message.
Proof. unfold spec_response, storage_error_response. destruct e as [[]| | | | | | |]; eauto. Qed.

Definition pw_view (w : PhotoWorld) : pstore := library_store (pw_stores w).

Lemma service_put id k v (s : PhotoWorld) :
  ∃ lost, pw_trail (storage_put id k v s).2 = pw_trail s ++ [(lost, pw_view (storage_put id k v s).2)] ∧
  match storage_put id k v s with
  | (Ok _, s') => lost = None ∧ pw_view s' = <[k := v]> (pw_view s)
  | (Err _, s') => lost = None ∧ pw_view s' = pw_view s ∨ lost = Some k ∧ pw_view s' = <[k := v]> (pw_view s)
  | (Panicked, _) => False
  end.
Proof.
  set (c := ScPut k (encode_base64 v)). destruct (library_exchange id c s) as (lost&Htr&Hx). exists lost.
  assert (storage_put id k v s = (match (spec_exchange (library_request id c) s).1 with
    | Ok (SoStored used) => Ok tt | Ok (SoError code _) => Err (CeService code) | Ok _ => Err CeMismatchedOutcome
    | Err e => Err e | Panicked => Panicked end, (spec_exchange (library_request id c) s).2)) as ->.
  { unfold storage_put. cbn [service_photo_storage client_photo_storage]. unfold sm_unit, StorageClient_put, sm_bind, sm_ret, sm_err.
    change (StorageRequest_put id PHOTO_LIBRARY_ID PHOTO_LIBRARY_QUOTA_BYTES k v) with (library_request id c).
    destruct (spec_exchange (library_request id c) s) as [[[]| |] s']; done. }
  cbn [fst snd]. split; [done|]. unfold pw_view. destruct (spec_exchange (library_request id c) s).1 as [outcome|e|]; [| |done].
  - destruct Hx as (->&Hv&Hst&Hvalid&->). destruct (validated_value _ _ Hv) as [value Hd]. pose proof (put_spec (pw_stores s) k v value Hd) as Hp.
    fold c in Hp. rewrite Hst. destruct (library_spec (pw_stores s) c).1 as [outcome|e|].
    + destruct Hp as [(used&->&_) Hp]. done.
    + destruct (error_outcome id e) as (code&message&->). by left.
    + by left.
  - destruct Hx as [Hx|(Hv&Hst&Hlost)]; [by left|]. destruct (validated_value _ _ Hv) as [value Hd].
    pose proof (put_spec (pw_stores s) k v value Hd) as Hp. fold c in Hp. rewrite Hst. destruct (library_spec (pw_stores s) c).1 as [outcome|e'|].
    + destruct Hp as [(used&->&Hu) Hp]. destruct Hlost as [[_ []]| ->]; [by apply stored_response_valid|by right].
    + left. split; [|done]. destruct Hlost as [[-> _]| ->]; [done|]. by destruct (error_outcome id e') as (code&message&->).
    + left. split; [|done]. by destruct Hlost as [[-> _]| ->].
Qed.

Definition value_result (outcome : StorageOutcome) : result StorageClientError (option (list ascii)) :=
  match outcome with
  | SoValue value64 => match decode_value value64 with Ok value => Ok (Some value) | Err e => Err (CeProtocol e) | Panicked => Panicked end
  | SoNotFound => Ok None
  | SoError code _ => Err (CeService code)
  | _ => Err CeMismatchedOutcome
  end.
Lemma service_get id k (s : PhotoWorld) :
  pw_trail (storage_get id k s).2 = pw_trail s ++ [(None, pw_view (storage_get id k s).2)] ∧
  pw_view (storage_get id k s).2 = pw_view s ∧
  match (storage_get id k s).1 with Ok o => o = pw_view s !! k | Err _ => True | Panicked => False end.
Proof.
  destruct (library_exchange_other id (ScGet k) s) as [Htr Hx]; [done|].
  assert (storage_get id k s = (match (spec_exchange (library_request id (ScGet k)) s).1 with
    | Ok outcome => value_result outcome | Err e => Err e | Panicked => Panicked end, (spec_exchange (library_request id (ScGet k)) s).2)) as ->.
  { unfold storage_get. cbn [service_photo_storage client_photo_storage]. unfold StorageClient_get, sm_bind.
    change (storage_request id PHOTO_LIBRARY_ID PHOTO_LIBRARY_QUOTA_BYTES (ScGet k)) with (library_request id (ScGet k)).
    destruct (spec_exchange (library_request id (ScGet k)) s) as [[[u|value64| |e u|u|sz|code msg]| |] s']; try done. unfold value_of_outcome, sm_bind, sm_lift, value_result. cbn [fst snd].
    by destruct (decode_value value64). }
  cbn [fst snd]. split; [done|]. unfold pw_view. assert (default ∅ (library_spec (pw_stores s) (ScGet k)).2 = library_store (pw_stores s)) as Hsame by done.
  destruct (spec_exchange (library_request id (ScGet k)) s).1 as [outcome|e|]; [|split; [destruct Hx as [?|(_&->)]; done|done]|done].
  destruct Hx as (_&->&Hvalid&->). split; [done|]. unfold library_spec in *. cbn [spec_command fst snd] in *. fold (library_store (pw_stores s)) in *.
  unfold spec_get in *. destruct (spec_existing _ _ _) as [n|e|]; cbn [outcome_of] in *;
    [|destruct (error_outcome id e) as (code&message&->); done|destruct (error_outcome id SsStatePoisoned) as (code&message&Ho); cbn in Ho |- *; done].
  unfold spec_response in *. cbn [sp_outcome storage_response] in *. unfold value_outcome in *. destruct (library_store (pw_stores s) !! k) as [v|]; [|done].
  unfold StorageResponse_validate in Hvalid. cbn [sp_protocol_version sp_outcome storage_response value_result] in *.
  destruct (storage_version_check _) as [[]| |]; [|done..].
  destruct (decode_value (encode_base64 v)) as [v'|e|] eqn:Hd; [|done..]. by rewrite (decoded_is_encoded v v' Hd).
Qed.

Definition deleted_result (outcome : StorageOutcome) : result StorageClientError bool :=
  match outcome with SoDeleted existed _ => Ok existed | SoError code _ => Err (CeService code) | _ => Err CeMismatchedOutcome end.

Lemma service_delete id k (s : PhotoWorld) :
  pw_trail (storage_delete id k s).2 = pw_trail s ++ [(None, pw_view (storage_delete id k s).2)] ∧
  match storage_delete id k s with
  | (Ok b, s') => pw_view s' = delete k (pw_view s) ∧ b = bool_decide (is_Some (pw_view s !! k))
  | (Err _, s') => pw_view s' = pw_view s ∨ pw_view s' = delete k (pw_view s)
  | (Panicked, _) => False
  end.
Proof.
  destruct (library_exchange_other id (ScDelete k) s) as [Htr Hx]; [done|].
  assert (storage_delete id k s = (match (spec_exchange (library_request id (ScDelete k)) s).1 with
    | Ok outcome => deleted_result outcome | Err e => Err e | Panicked => Panicked end, (spec_exchange (library_request id (ScDelete k)) s).2)) as ->.
  { unfold storage_delete. cbn [service_photo_storage client_photo_storage]. unfold StorageClient_delete, sm_bind.
    change (storage_request id PHOTO_LIBRARY_ID PHOTO_LIBRARY_QUOTA_BYTES (ScDelete k)) with (library_request id (ScDelete k)).
    by destruct (spec_exchange (library_request id (ScDelete k)) s) as [[[]| |] s']. }
  cbn [fst snd]. split; [done|]. unfold pw_view.
  assert (match (library_spec (pw_stores s) (ScDelete k)).1 with
    | Ok outcome => (∃ used, outcome = SoDeleted (bool_decide (is_Some (library_store (pw_stores s) !! k))) used) ∧
        default ∅ (library_spec (pw_stores s) (ScDelete k)).2 = delete k (library_store (pw_stores s))
    | _ => default ∅ (library_spec (pw_stores s) (ScDelete k)).2 = library_store (pw_stores s)
        ∨ default ∅ (library_spec (pw_stores s) (ScDelete k)).2 = delete k (library_store (pw_stores s))
    end) as Hspec.
  { unfold library_spec, library_store. cbn [spec_command]. destruct (pw_stores s !! PHOTO_LIBRARY_ID) as [m|]; cbn [default fst snd].
    - unfold spec_delete. destruct (spec_existing _ _ _) as [n|e|]; cbn [fst snd default outcome_of]; [|by left..].
      destruct (spec_inspect _) as [i|e|]; cbn [fst snd default outcome_of]; [by eauto|by right..].
    - cbn [default fst snd]. split; [|by rewrite delete_empty]. exists 0%Z. rewrite lookup_empty. done. }
  destruct (spec_exchange (library_request id (ScDelete k)) s).1 as [outcome|e|]; [| |done].
  - destruct Hx as (_&->&_&->). destruct (library_spec (pw_stores s) (ScDelete k)).1 as [outcome|e|].
    + by destruct Hspec as [(used&->) ?].
    + destruct (error_outcome id e) as (code&message&->). done.
    + destruct (error_outcome id SsStatePoisoned) as (code&message&Ho). cbn in Ho |- *. done.
  - destruct Hx as [?|(_&->)]; [by left|]. by destruct (library_spec (pw_stores s) (ScDelete k)).1 as [outcome|e'|]; [right; apply Hspec|..].
Qed.

Lemma service_delete_blob id k (s : PhotoWorld) :
  pw_trail (storage_delete_blob id k s).2 = pw_trail s ++ [(None, pw_view (storage_delete_blob id k s).2)] ∧
  same_but k (pw_view s) (pw_view (storage_delete_blob id k s).2) ∧
  match storage_delete_blob id k s with
  | (Ok b, s') => pw_view s' !! k = None ∧ pw_view s' !! staged_key k = None ∧ b = bool_decide (is_Some (pw_view s !! k))
  | (Err _, _) => True
  | (Panicked, _) => False
  end.
Proof.
  destruct (library_exchange_other id (ScDeleteBlob k) s) as [Htr Hx]; [done|].
  assert (storage_delete_blob id k s = (match (spec_exchange (library_request id (ScDeleteBlob k)) s).1 with
    | Ok outcome => deleted_result outcome | Err e => Err e | Panicked => Panicked end, (spec_exchange (library_request id (ScDeleteBlob k)) s).2)) as ->.
  { unfold storage_delete_blob. cbn [service_photo_storage client_photo_storage]. unfold StorageClient_delete_blob, sm_bind.
    change (storage_request id PHOTO_LIBRARY_ID PHOTO_LIBRARY_QUOTA_BYTES (ScDeleteBlob k)) with (library_request id (ScDeleteBlob k)).
    by destruct (spec_exchange (library_request id (ScDeleteBlob k)) s) as [[[]| |] s']. }
  cbn [fst snd]. split; [done|]. unfold pw_view.
  set (m' := delete (staged_key k) (delete k (library_store (pw_stores s)))).
  assert (default ∅ (library_spec (pw_stores s) (ScDeleteBlob k)).2 = m' ∧
    match (library_spec (pw_stores s) (ScDeleteBlob k)).1 with
    | Ok outcome => ∃ used, outcome = SoDeleted (bool_decide (is_Some (library_store (pw_stores s) !! k))) used
    | _ => True
    end) as [Hm Hspec].
  { unfold m', library_spec, library_store. cbn [spec_command]. destruct (pw_stores s !! PHOTO_LIBRARY_ID) as [m|]; cbn [default fst snd].
    - unfold spec_delete_blob. change (BLOB_PREFIX +:+ k) with (staged_key k). split; [done|]. destruct (spec_inspect _) as [i|e|]; [|done..]. by eexists.
    - split; [by rewrite !delete_empty|]. exists 0%Z. by rewrite lookup_empty. }
  assert (same_but k (library_store (pw_stores s)) m') as Hsame.
  { intros k' H1 H2. unfold m'. by rewrite !lookup_delete_ne by done. }
  destruct (spec_exchange (library_request id (ScDeleteBlob k)) s).1 as [outcome|e|]; [| |done].
  - destruct Hx as (_&->&_&->). rewrite Hm. split; [done|]. destruct (library_spec (pw_stores s) (ScDeleteBlob k)).1 as [outcome|e|].
    + destruct Hspec as (used&->). cbn [deleted_result spec_response sp_outcome storage_response]. unfold m'.
      split_and!; [|apply lookup_delete_eq|done]. destruct (decide (staged_key k = k)) as [->|Hne]; [apply lookup_delete_eq|].
      rewrite lookup_delete_ne by done. apply lookup_delete_eq.
    + destruct (error_outcome id e) as (code&message&->). done.
    + destruct (error_outcome id SsStatePoisoned) as (code&message&Ho). cbn in Ho |- *. done.
  - split; [|done]. destruct Hx as [->|(_&->)]; [done|]. by rewrite Hm.
Qed.

Lemma chunk_spec σ key offset total v value :
  decode_value (encode_base64 v) = Ok value →
  let c := ScPutBlobChunk key (Z.of_nat offset) (Z.of_nat total) (encode_base64 v) in
  same_but key (library_store σ) (default ∅ (library_spec σ c).2) ∧
  match (library_spec σ c).1 with
  | Ok outcome => (∃ used, outcome = SoStored used) ∧ chunk_effect key offset total v (library_store σ) (default ∅ (library_spec σ c).2)
  | _ => True
  end.
Proof.
  intros Hd c. pose proof (decoded_is_encoded _ _ Hd) as ->. unfold library_spec, c. cbn [spec_command]. rewrite Hd. fold (library_store σ).
  set (m := library_store σ). unfold spec_put_blob_chunk, spec_stage. change (BLOB_PREFIX +:+ key) with (staged_key key).
  assert (Z.of_nat offset + file_len v =? Z.of_nat total = (offset + length v =? total)%nat)%Z as Hlen.
  { unfold file_len. destruct (Z.eqb_spec (Z.of_nat offset + Z.of_nat (length v)) (Z.of_nat total)), (Nat.eqb_spec (offset + length v) total); lia || done. }
  rewrite Hlen. unfold chunk_effect.
  assert (∀ m1 v1, same_but key m m1 → same_but key m (<[key := v1]> (delete (staged_key key) m1)) ∧ same_but key m (<[staged_key key := v1]> m1)) as Hsame.
  { intros m1 v1 Hs. split; intros k H1 H2; rewrite ?lookup_insert_ne, ?lookup_delete_ne by (by apply not_eq_sym); by apply Hs. }
  destruct (Z.eqb_spec (Z.of_nat offset) 0) as [Ho|Ho].
  - assert (offset = 0%nat) as -> by lia. cbn [Nat.eqb Nat.add]. set (m1 := delete (staged_key key) m).
    assert (same_but key m m1) as Hs1. { intros k H1 H2. unfold m1. by rewrite lookup_delete_ne by (by apply not_eq_sym). }
    destruct (Hsame m1 v Hs1) as [Hs2 Hs3].
    destruct (spec_inspect m1) as [i|e|]; cbn [fst snd default outcome_of]; [|done..].
    destruct (spec_existing m1 key _) as [x|e|]; cbn [fst snd default outcome_of]; [|done..].
    destruct (spec_projected _ _ _ _) as [p|e|]; cbn [fst snd default outcome_of]; [|done..].
    destruct (length v =? total)%nat.
    + destruct (spec_inspect _) as [i'|e|]; cbn [fst snd default outcome_of]; [|done..]. split; [done|]. split; [by eexists|].
      exists []. split; [done|]. apply lookup_insert_eq.
    + cbn [fst snd default outcome_of]. split; [done|]. split; [by eexists|]. exists []. split; [done|]. apply lookup_insert_eq.
  - destruct (Nat.eqb_spec offset 0) as [|Hne]; [lia|]. assert (same_but key m m) as Hs1 by done.
    destruct (m !! staged_key key) as [staged|] eqn:Hst; cbn [fst snd default outcome_of]; [|done].
    destruct (Hsame m (staged ++ v) Hs1) as [Hs2 Hs3].
    change (file_len staged) with (Z.of_nat (length staged)). destruct (Z.eqb_spec (Z.of_nat (length staged)) (Z.of_nat offset)) as [Hl|]; cbn [negb fst snd default outcome_of]; [|done].
    assert (length staged = offset) by lia. destruct (offset + length v =? total)%nat.
    + destruct (spec_inspect _) as [i'|e|]; cbn [fst snd default outcome_of]; [|done..]. split; [done|]. split; [by eexists|].
      exists staged. split; [done|]. apply lookup_insert_eq.
    + cbn [fst snd default outcome_of]. split; [done|]. split; [by eexists|]. exists staged. split; [done|]. apply lookup_insert_eq.
Qed.

Lemma service_put_blob_chunk id k offset total v (s : PhotoWorld) :
  (Z.of_nat offset ≤ u32_max)%Z → (Z.of_nat total ≤ u32_max)%Z →
  pw_trail (storage_put_blob_chunk id k offset total v s).2
    = pw_trail s ++ [(None, pw_view (storage_put_blob_chunk id k offset total v s).2)] ∧
  same_but k (pw_view s) (pw_view (storage_put_blob_chunk id k offset total v s).2) ∧
  match (storage_put_blob_chunk id k offset total v s).1 with
  | Ok _ => chunk_effect k offset total v (pw_view s) (pw_view (storage_put_blob_chunk id k offset total v s).2)
  | Err _ => True
  | Panicked => False
  end.
Proof.
  intros Ho Ht. set (c := ScPutBlobChunk k (Z.of_nat offset) (Z.of_nat total) (encode_base64 v)).
  destruct (library_exchange_other id c s) as [Htr Hx]; [done|].
  assert (storage_put_blob_chunk id k offset total v s = (match (spec_exchange (library_request id c) s).1 with
    | Ok (SoStored used) => Ok tt | Ok (SoError code _) => Err (CeService code) | Ok _ => Err CeMismatchedOutcome
    | Err e => Err e | Panicked => Panicked end, (spec_exchange (library_request id c) s).2)) as ->.
  { unfold storage_put_blob_chunk. cbn [service_photo_storage client_photo_storage].
    destruct (Z.ltb_spec u32_max (Z.of_nat offset)); [lia|]. destruct (Z.ltb_spec u32_max (Z.of_nat total)); [lia|]. cbn [orb].
    unfold sm_unit, StorageClient_put_blob_chunk, sm_bind, sm_ret, sm_err.
    change (StorageRequest_put_blob_chunk id PHOTO_LIBRARY_ID PHOTO_LIBRARY_QUOTA_BYTES k (Z.of_nat offset) (Z.of_nat total) v) with (library_request id c).
    destruct (spec_exchange (library_request id c) s) as [[[]| |] s']; done. }
  cbn [fst snd]. split; [done|]. unfold pw_view. destruct (spec_exchange (library_request id c) s).1 as [outcome|e|]; [| |done].
  - destruct Hx as (Hv&->&_&->). destruct (validated_value _ _ Hv) as [value Hd].
    destruct (chunk_spec (pw_stores s) k offset total v value Hd) as [Hs Hc]. fold c in Hs, Hc. split; [done|].
    destruct (library_spec (pw_stores s) c).1 as [outcome|e|].
    + by destruct Hc as [(used&->) Hc].
    + destruct (error_outcome id e) as (code&message&->). done.
    + destruct (error_outcome id SsStatePoisoned) as (code&message&Hp). cbn in Hp |- *. done.
  - split; [|done]. destruct Hx as [->|(Hv&->)]; [done|]. destruct (validated_value _ _ Hv) as [value Hd].
    by apply (chunk_spec (pw_stores s) k offset total v value Hd).
Qed.

Global Instance service_photo_laws : PhotoStorageLaws PhotoWorld :=
  {| view := pw_view; trail := pw_trail; law_put := service_put; law_get := service_get; law_delete := service_delete;
     law_chunk := service_put_blob_chunk; law_delete_blob := service_delete_blob |}.
