(* ===== verification/PhotoLibraryProps.v ===== *)
(** * The photo library: correctness

    An import and a removal are atomic at every point where the power may fail
    and whatever operations of the storage fail, unless a write of the head is
    carried out and reported as failed; what such a lost reply can leave is
    stated as well.  What was imported is listed and described as it was given.
    The last theorems show two ways in which the library comes to harm: a lost
    reply to the write of the head, and an import that is interrupted. *)

From S2P Require Import Prelude RustStr Bytes Manifest HostFs Checkpoint Package StorageProtocol Storage StorageRefine StorageClient PhotoLibrary PhotoLibraryLogic PhotoLibraryRep PhotoLibraryTriples PhotoLibraryImport PhotoLibraryRemove PhotoLibraryService.

(** ** Records *)

Lemma decode_encode_metadata `{Crypto} jpeg captured :
  (∀ l, length (sha256 l) = 32%nat) → jpeg_ok jpeg = true → u64 captured →
  decode_camera_metadata (encode_camera_metadata jpeg captured)
  = Ok (mkCameraOriginal CAMERA_PHOTO_WIDTH CAMERA_PHOTO_HEIGHT (Z.of_nat (length jpeg)) captured (sha256 jpeg)).
Proof.
  intros Hsha Hj Hc. destruct (jpeg_ok_size jpeg Hj) as [Hne Hmax]. unfold decode_camera_metadata. set (e := encode_camera_metadata _ _).
  set (magic := PHOTO_METADATA_MAGIC ++ [byte_of_Z PHOTO_METADATA_VERSION; byte_of_Z PHOTO_KIND_CAMERA; zero; zero] ++ le_bytes 2 CAMERA_PHOTO_WIDTH ++ le_bytes 2 CAMERA_PHOTO_HEIGHT).
  assert (e = magic ++ le_bytes 4 (Z.of_nat (length jpeg)) ++ le_bytes 8 captured ++ sha256 jpeg) as He by done.
  assert (length e = 56%nat) as -> by (rewrite He, !length_app, !length_le_bytes, Hsha; done).
  assert (take 4 e = PHOTO_METADATA_MAGIC) as -> by done. assert (le_at 4 1 e = PHOTO_METADATA_VERSION) as -> by done.
  assert (le_at 5 1 e = PHOTO_KIND_CAMERA) as -> by done. assert (le_at 6 2 e = 0%Z) as -> by done.
  assert (le_at 8 2 e = CAMERA_PHOTO_WIDTH) as -> by done. assert (le_at 10 2 e = CAMERA_PHOTO_HEIGHT) as -> by done.
  assert (le_at 12 4 e = Z.of_nat (length jpeg)) as ->.
  { rewrite He. apply le_at_pre; [done|]. unfold MAX_STORAGE_BLOB_BYTES in Hmax. simpl. lia. }
  assert (le_at 16 8 e = captured) as ->.
  { rewrite He, (app_assoc magic). apply le_at_pre; [by rewrite length_app, length_le_bytes|by apply u64_bytes]. }
  assert (drop 24 e = sha256 jpeg) as ->.
  { rewrite He, (app_assoc magic), (app_assoc (magic ++ _)). apply drop_app_length'. by rewrite !length_app, !length_le_bytes. }
  rewrite bool_decide_eq_true_2 by done. cbn [negb orb Nat.eqb Z.eqb Pos.eqb PHOTO_METADATA_BYTES PHOTO_METADATA_VERSION PHOTO_KIND_CAMERA co_width co_height co_jpeg_size_bytes].
  rewrite !Z.eqb_refl. cbn [negb orb]. rewrite jpeg_limit.
  destruct (Z.eqb_spec (Z.of_nat (length jpeg)) 0) as [Hz|_]; [destruct jpeg; [done|simpl in Hz; lia]|].
  destruct (Z.ltb_spec MAX_STORAGE_BLOB_BYTES (Z.of_nat (length jpeg))); [lia|]. done.
Qed.

(** ** Correctness *)

(** The data of one photo is apart from that of another and from the index. *)
Lemma changed_only_other id id' m0 m k :
  (k ∈ photo_keys id' → k ∉ photo_keys id) → changed_only (photo_keys id) m0 m → k ∈ photo_keys id' → m !! k = m0 !! k.
Proof.
  intros Hdisj Hc Hk. apply Hc.
  - by apply Hdisj.
  - intros ->. by apply head_not_photo in Hk.
  - intros n ->. by apply page_not_photo in Hk.
Qed.
Lemma photo_keys_wrap : photo_keys (2 ^ 64) = photo_keys 0.
Proof.
  assert (photo_prefix (2 ^ 64) = photo_prefix 0) as He by (by vm_compute).
  unfold photo_keys, legacy_chunk_key, blob_key, original_blob_key, metadata_key. by rewrite He.
Qed.
Lemma photo_keys_next last id k : u64 last → (0 < id ≤ last)%Z → k ∈ photo_keys id → k ∉ photo_keys (last + 1).
Proof.
  intros Hl Hid Hk Hk'. unfold u64, u64_max in Hl. destruct (decide (last = 2 ^ 64 - 1)%Z) as [->|Hne].
  - replace (2 ^ 64 - 1 + 1)%Z with (2 ^ 64)%Z in Hk' by lia. rewrite photo_keys_wrap in Hk'.
    assert (id = 0)%Z; [|lia]. eapply photo_keys_disjoint; [..|exact Hk|exact Hk']; unfold u64, u64_max; lia.
  - assert (id = last + 1)%Z; [|lia]. eapply photo_keys_disjoint; [..|exact Hk|exact Hk']; unfold u64, u64_max; lia.
Qed.
Lemma slot_range slots last id : slots_wf slots last → id ∈ in_use slots → (0 < id ≤ last)%Z.
Proof.
  intros [_ Hr _ _ _] [Hin Hne]%elem_of_in_use. rewrite Forall_forall in Hr. specialize (Hr id Hin). lia.
Qed.

(** What holds of the store throughout a removal, in terms of the index. *)
Lemma remove_inv_atomic slots last id m0 m :
  slots_wf slots last → id ≠ 0%Z → remove_inv m0 slots last id m →
  (Library m slots last ∧ (∀ k, k ∈ photo_keys id → m !! k = m0 !! k) ∨
   ∃ i, slots !! i = Some id ∧ in_use (<[i := 0%Z]> slots) = List.filter (λ x, negb (x =? id)%Z) (in_use slots) ∧ Library m (<[i := 0%Z]> slots) last) ∧
  ∀ id' k, id' ∈ in_use slots → id' ≠ id → k ∈ photo_keys id' → m !! k = m0 !! k.
Proof.
  intros Hw Hid0 [[HLm Ho]|(i&Hi&HLm&Ho)].
  - assert (∀ id' k, k ∈ photo_keys id' → m !! k = m0 !! k) as Hsame.
    { intros id' k Hk. apply Ho; [apply not_elem_of_nil|intros ->; by apply head_not_photo in Hk|intros n ->; by apply page_not_photo in Hk]. }
    split; [left|]; eauto.
  - split; [right; exists i; split_and!; [done| |done]; by eapply in_use_clear; [apply Hw|..]|].
    intros id' k Hid' Hne. apply changed_only_other with (id := id); [|done]. intros Hk Hk'. apply Hne.
    assert (id ∈ in_use slots) as Hin by (apply elem_of_in_use; split; [by eapply list_elem_of_lookup_2|done]).
    pose proof (slot_range _ _ _ Hw Hid'). pose proof (slot_range _ _ _ Hw Hin). pose proof (sw_last _ _ Hw) as Hl. unfold u64 in Hl.
    eapply photo_keys_disjoint; [..|exact Hk|exact Hk']; unfold u64; lia.
Qed.

Section properties.
  Context `{Crypto} {S : Type} `{PhotoStorage S, !PhotoStorageLaws S} (request_id : Z).

(** The data of every photo of the index is as before. *)
Definition others_kept (slots : list Z) (m0 m : pstore) : Prop :=
  ∀ id k, id ∈ in_use slots → k ∈ photo_keys id → m !! k = m0 !! k.
Lemma others_kept_new slots last m0 m : slots_wf slots last → changed_only (photo_keys (last + 1)) m0 m → others_kept slots m0 m.
Proof.
  intros Hw Hc id k Hid Hk. eapply changed_only_other; [|exact Hc|exact Hk]. apply photo_keys_next; [by destruct Hw|by eapply slot_range].
Qed.

(** C29: adding a photo is atomic, but for a write of the head that is carried
    out and reported as failed (its reply is lost, or the service fails after
    its rename).  From a store that represents an index, every store that the
    import leaves behind it up to such a write, which is what a power loss at
    that point leaves, still represents the old index or represents the index
    with the new photo at its end and has the picture, and for a camera photo
    the original and its record, exactly as given.  If there is no such write
    the import ends with the new photo, whose number is one above the highest
    ever given, or with an error and the old index.  If there is one the import
    reports an error, and from then on the store represents the old index, the
    index with the new photo or that with an unused slot in its place, or a page
    that the head counts is gone; the last takes an index not yet migrated from
    the first format or a photo that begins a page.  In every case the data of
    every photo of the index is as before, and the import does not panic. *)
Theorem photo_import_atomic (frame : list ascii) (original : option (list ascii * Z)) (slots : list Z) (last : Z) (s : S) :
  Library (view s) slots last →
  let x := import_frame_with_original request_id frame original s in
  let damaged m := Library m slots last ∨ Library m (slots ++ [(last + 1)%Z]) (last + 1) ∨ Library m (slots ++ [0%Z]) (last + 1) ∨
                     pages_lost m ∧ (view s !! PHOTO_LIBRARY_HEAD_KEY = None ∨ (length slots mod INDEX_PAGE_PHOTOS = 0)%nat) in
  ∃ before after, trail x.2 = trail s ++ before ++ after ∧
    Forall (λ e, e.1 ≠ Some PHOTO_LIBRARY_HEAD_KEY ∧
      (Library e.2 slots last ∨ Library e.2 (slots ++ [(last + 1)%Z]) (last + 1) ∧ stored (view s) (last + 1) frame original e.2) ∧
      others_kept slots (view s) e.2) before ∧
    (after = [] ∧ others_kept slots (view s) (view x.2) ∧
       match x.1 with
       | Ok id => id = (last + 1)%Z ∧ Library (view x.2) (slots ++ [id]) id ∧ head_exact (view x.2) (slots ++ [id]) id ∧
           stored (view s) id frame original (view x.2)
       | Err _ => Library (view x.2) slots last
       | Panicked => False
       end
     ∨ head (fst <$> after) = Some (Some PHOTO_LIBRARY_HEAD_KEY) ∧ (∃ e, x.1 = Err e) ∧
       Forall (λ e, damaged e.2 ∧ others_kept slots (view s) e.2) after ∧ damaged (view x.2) ∧ others_kept slots (view s) (view x.2)).
Proof.
  intros HL x damaged. pose proof HL as [Hw _].
  destruct (pt_import (import_inv (view s) slots last frame original) request_id slots last (view s) frame original HL) with (s := s)
    as (tr&Htr&Hr); [done|done|]. fold x in Htr, Hr.
  assert (∀ before, Forall (head_kept (import_inv (view s) slots last frame original)) before →
    Forall (λ e, e.1 ≠ Some PHOTO_LIBRARY_HEAD_KEY ∧
      (Library e.2 slots last ∨ Library e.2 (slots ++ [(last + 1)%Z]) (last + 1) ∧ stored (view s) (last + 1) frame original e.2) ∧
      others_kept slots (view s) e.2) before) as Hbefore.
  { intros before Hall. eapply Forall_impl; [exact Hall|]. intros e (He&Hc&Hm). split_and!; [done|done|by eapply others_kept_new]. }
  assert (∀ m, import_damage (view s) slots last m → damaged m ∧ others_kept slots (view s) m) as Hdamage.
  { intros m [Hc Hm]. split; [exact Hm|by eapply others_kept_new]. }
  destruct Hr as [[Hall Hr]|(before&after&->&Hall&[Hhead Hlost]&He&Hm)].
  - exists tr, []. rewrite app_nil_r. split; [done|]. split; [by apply Hbefore|]. left. split; [done|].
    destruct x.1 as [id|e|]; [|destruct Hr; split; [by eapply others_kept_new|done]|done].
    destruct Hr as ((->&_)&?&?&?&?). split; [by eapply others_kept_new|done].
  - exists before, after. split; [done|]. split; [by apply Hbefore|]. right. split_and!; [done|done| |by apply Hdamage..].
    eapply Forall_impl; [exact Hlost|]. intros e. apply Hdamage.
Qed.

(** C30: removing a photo is atomic.  Every store that the removal leaves behind
    it represents the old index, and then the photo has all its data, or the
    index without this photo and with every other in its place; the data of the
    other photos is as before.  A removal that reports success has erased every
    key of the photo; one that finds nothing has found that the photo is not in
    the index.  This holds even when a write of the head is carried out and
    reported as failed, with one exception: if the index was in the first format
    and this happens to the write with which the removal migrates it, then the
    removal reports an error, and from that write on the first page of the index
    may be gone, the data of all photos being as before. *)
Theorem photo_remove_atomic (id : Z) (slots : list Z) (last : Z) (s : S) :
  Library (view s) slots last →
  let x := remove_frame request_id id s in
  let without m := ∃ i, slots !! i = Some id ∧ in_use (<[i := 0%Z]> slots) = List.filter (λ x, negb (x =? id)%Z) (in_use slots) ∧
                     Library m (<[i := 0%Z]> slots) last in
  let atomic m := (Library m slots last ∧ (∀ k, k ∈ photo_keys id → m !! k = view s !! k) ∨ without m) ∧
                  ∀ id' k, id' ∈ in_use slots → id' ≠ id → k ∈ photo_keys id' → m !! k = view s !! k in
  let unmigrated_lost m := view s !! PHOTO_LIBRARY_HEAD_KEY = None ∧ pages_lost m ∧ ∀ id' k, k ∈ photo_keys id' → m !! k = view s !! k in
  ∃ before after, trail x.2 = trail s ++ before ++ after ∧ Forall (λ e, e.1 ≠ Some PHOTO_LIBRARY_HEAD_KEY ∧ atomic e.2) before ∧
    (after = [] ∧
       match x.1 with
       | Ok true => without (view x.2) ∧ ∀ k, k ∈ photo_keys id → view x.2 !! k = None
       | Ok false => id ∉ slots ∧ Library (view x.2) slots last
       | Err _ => Library (view x.2) slots last ∨ without (view x.2)
       | Panicked => False
       end
     ∨ head (fst <$> after) = Some (Some PHOTO_LIBRARY_HEAD_KEY) ∧ (∃ e, x.1 = Err e) ∧
       Forall (λ e, atomic e.2 ∨ unmigrated_lost e.2) after ∧ (atomic (view x.2) ∨ unmigrated_lost (view x.2))).
Proof.
  intros HL x without atomic unmigrated_lost. pose proof HL as [Hw _]. destruct (decide (id = 0%Z)) as [->|Hid0].
  { exists [], []. rewrite app_nil_r. split; [done|]. split; [constructor|]. left. split; [done|]. by left. }
  assert (∀ m, changed_only [] (view s) m → ∀ id' k, k ∈ photo_keys id' → m !! k = view s !! k) as Hsame.
  { intros m Ho id' k Hk. apply Ho; [apply not_elem_of_nil|intros ->; by apply head_not_photo in Hk|intros n ->; by apply page_not_photo in Hk]. }
  assert (∀ m, remove_inv (view s) slots last id m → atomic m) as Hinv by (intros m Hm; by apply (remove_inv_atomic slots last id (view s) m)).
  assert (∀ m, remove_damage slots last (view s) id m → atomic m ∨ unmigrated_lost m) as Hdamage.
  { intros m [Hm|(Ho&Hl&Hn)]; [left; by apply Hinv|right]. split_and!; [done|done|by apply Hsame]. }
  assert (∀ before, Forall (head_kept (remove_inv (view s) slots last id)) before →
    Forall (λ e, e.1 ≠ Some PHOTO_LIBRARY_HEAD_KEY ∧ atomic e.2) before) as Hbefore.
  { intros before Hall. eapply Forall_impl; [exact Hall|]. intros e [He Hm]. split; [done|by apply Hinv]. }
  destruct (pt_remove (remove_inv (view s) slots last id) request_id slots last (view s) Hw id) with (s := s)
    as (tr&Htr&Hr); [done|done|done|]. fold x in Htr, Hr.
  destruct Hr as [[Hall Hr]|(before&after&->&Hall&[Hhead Hlost]&He&Hm)].
  - exists tr, []. rewrite app_nil_r. split; [done|]. split; [by apply Hbefore|]. left. split; [done|].
    destruct x.1 as [b|e|]; [|apply Hinv in Hr as [[[? _]|?] _]; auto|done].
    destruct Hr as [[-> (i&Hi&HLx&_&Hg&_)]|(->&Hn&Hc&_)].
    + split; [|exact Hg]. exists i. split_and!; [done| |done]. by eapply in_use_clear; [apply Hw|..].
    + split; [done|]. split; [done|by left].
  - exists before, after. split; [done|]. split; [by apply Hbefore|]. right. split_and!; [done|done| |by apply Hdamage].
    eapply Forall_impl; [exact Hlost|]. intros e. apply Hdamage.
Qed.

Lemma import_Ok frame original slots last id s s1 :
  Library (view s) slots last → import_frame_with_original request_id frame original s = (Ok id, s1) →
  import_ok slots last (view s) frame original id (view s1).
Proof.
  intros HL He. pose proof (pt_import (λ _, True) request_id slots last (view s) frame original HL (λ _ _, I)) as Ht.
  by destruct (ptriple_Ok _ _ _ _ _ _ _ _ _ Ht eq_refl He) as (_&_&_&Hok).
Qed.
Lemma import_library frame original slots last id s s1 :
  Library (view s) slots last → import_frame_with_original request_id frame original s = (Ok id, s1) → Library (view s1) (slots ++ [id]) id.
Proof. intros HL He. by destruct (import_Ok _ _ _ _ _ _ _ HL He) as ((->&_)&?&_). Qed.

(** ** Reading *)

(** The operation answers [a], or the storage fails; the store stays as it is. *)
Definition answers_or_fails {A} (x : result PhotoImportError A * S) (s : S) (P : A → Prop) : Prop :=
  view x.2 = view s ∧ match x.1 with Ok a => P a | Err e => ∃ e', e = PiStorage e' | Panicked => False end.
Lemma pt_answers {A} (m : SM S PhotoImportError A) (P : A → Prop) s :
  ptriple (λ _, True) never (λ m', m' = view s) m (λ a m', P a ∧ m' = view s) (λ e m', m' = view s ∧ ∃ e', e = PiStorage e') →
  answers_or_fails (m s) s P.
Proof.
  intros Ht. destruct (Ht s eq_refl) as (_&_&[_ Hr]%run_ends_never). unfold answers_or_fails.
  destruct (m s).1; [by destruct Hr as [? ->]|by destruct Hr as [-> ?]|done].
Qed.

(** The lookup of a photo is by its number in the index. *)
Lemma photo_is_active_spec id slots last s :
  Library (view s) slots last → (0 < id ≤ MAX_PHOTO_ID)%Z →
  answers_or_fails (photo_is_active request_id id s) s (λ b, b = bool_decide (id ∈ slots)).
Proof. intros HL Hid. pose proof HL as [Hw _]. apply pt_answers. by apply (pt_is_active _ request_id slots last (view s) Hw). Qed.

Lemma listed_ids_spec slots last s :
  Library (view s) slots last → head_exact (view s) slots last →
  answers_or_fails (listed_ids request_id s) s (λ ids, ids = in_use slots).
Proof.
  intros HL Hh. pose proof HL as [Hw _]. apply pt_answers.
  assert (¬ stale_head slots (view s)) as Hfresh.
  { intros (e&h&He&Hd&Hne). rewrite Hh in He. injection He as <-. rewrite decode_encode_head in Hd by (by apply in_use_head_wf).
    injection Hd as <-. by apply Hne. }
  eapply pt_conseq; [apply (pt_listed_ids _ request_id slots last (view s) Hw); done|done|by intros ids m (?&_&?)|].
  by intros e m [? [[_ ?]|?]].
Qed.

Definition described (original : option (list ascii * Z)) : option CameraOriginal :=
  match original with
  | Some (jpeg, captured) =>
      Some (mkCameraOriginal CAMERA_PHOTO_WIDTH CAMERA_PHOTO_HEIGHT (Z.of_nat (length jpeg)) captured (sha256 jpeg))
  | None => None
  end.
Lemma camera_original_spec id original s :
  (∀ l, length (sha256 l) = 32%nat) → original_ok original → match original with Some (_, t) => u64 t | None => True end →
  (0 < id ≤ MAX_PHOTO_ID)%Z →
  view s !! metadata_key id = match original with Some (jpeg, t) => Some (encode_camera_metadata jpeg t) | None => None end →
  answers_or_fails (camera_original request_id id s) s (λ o, o = described original).
Proof.
  intros Hsha Hor Ht Hid Hm. apply pt_answers. unfold camera_original.
  destruct (Z.eqb_spec id 0); [lia|]. destruct (Z.ltb_spec MAX_PHOTO_ID id); [lia|]. cbn [orb].
  eapply pt_bind with (R := λ o m, o = view s !! metadata_key id ∧ m = view s); [apply pt_from_get; intros m ->; by eauto 10|].
  intros o. apply pt_pure. intros ->. rewrite Hm. destruct original as [[jpeg t]|]; [|by apply pt_ret].
  rewrite decode_encode_metadata by done. apply pt_bind_ok. by apply pt_ret.
Qed.

(** C31: what was imported is found again.  After an import that reports success
    the picture is stored under the number it returned, the number is active, it
    is listed after all the photos there were, and the description of a camera
    photo is its size, its time and the digest of its original, and that of
    another photo is none, provided no earlier import of that number was cut
    short.  Reading changes nothing and fails only with the storage. *)
Theorem imported_photo_found (frame : list ascii) (original : option (list ascii * Z)) (slots : list Z) (last id : Z) (s s1 : S) :
  (∀ l, length (sha256 l) = 32%nat) →
  Library (view s) slots last →
  match original with Some (_, captured) => u64 captured | None => view s !! metadata_key (last + 1) = None end →
  import_frame_with_original request_id frame original s = (Ok id, s1) →
  view s1 !! blob_key id = Some frame ∧
  answers_or_fails (photo_is_active request_id id s1) s1 (λ b, b = true) ∧
  answers_or_fails (listed_ids request_id s1) s1 (λ ids, ids = in_use slots ++ [id]) ∧
  answers_or_fails (camera_original request_id id s1) s1 (λ o, o = described original).
Proof.
  intros Hsha HL Hor Himport. pose proof HL as [Hw _].
  destruct (import_Ok _ _ _ _ _ _ _ HL Himport) as ((->&Hmax&Hok)&HL1&Hexact&[Hblob Hmeta]&_).
  pose proof (sw_last _ _ Hw) as [Hl0 _]. assert (0 < last + 1)%Z by lia.
  split; [done|]. split; [|split].
  - assert (true = bool_decide (last + 1 ∈ slots ++ [last + 1])%Z) as ->; [|by eapply photo_is_active_spec].
    symmetry. apply bool_decide_eq_true_2, elem_of_app. right. by apply list_elem_of_singleton.
  - assert (in_use slots ++ [(last + 1)%Z] = in_use (slots ++ [(last + 1)%Z])) as ->; [|by eapply listed_ids_spec].
    rewrite in_use_app. f_equal. unfold in_use. cbn [List.filter]. destruct (Z.eqb_spec (last + 1) 0); [lia|done].
  - apply camera_original_spec; [done|done|by destruct original as [[jpeg t]|]|lia|].
    destruct original as [[jpeg t]|]; [apply Hmeta|by rewrite Hmeta].
Qed.
(** ** How the library comes to harm *)

(** What applications and the system ask of the library, with their requests'
    numbers; every outcome of a sequence of operations. *)
Inductive LibraryOp :=
  | OpImport (frame : list ascii) (original : option (list ascii * Z))
  | OpRemove (id : Z)
  | OpList.
Definition discard {A} (m : SM S PhotoImportError A) : SM S PhotoImportError unit := sm_bind m (λ _, sm_ret tt).
Definition library_op (o : Z * LibraryOp) : SM S PhotoImportError unit :=
  match o.2 with
  | OpImport frame original => discard (import_frame_with_original o.1 frame original)
  | OpRemove id => discard (remove_frame o.1 id)
  | OpList => discard (list_photo_exports o.1)
  end.
Fixpoint attempts (ops : list (Z * LibraryOp)) (s : S) : list (result PhotoImportError unit) * S :=
  match ops with
  | [] => ([], s)
  | o :: ops => let '(r, s) := library_op o s in let '(rs, s) := attempts ops s in (r :: rs, s)
  end.

Lemma attempts_fail m ops s :
  pages_lost m → view s = m → Forall (λ r, ∃ e, r = Err e) (attempts ops s).1 ∧ view (attempts ops s).2 = m.
Proof.
  intros Hm. revert s. induction ops as [|o ops IH]; intros s Hs; simpl; [split; [constructor|done]|].
  assert (stuck m (library_op o)) as Ht.
  { destruct o as [n [frame original|id|]]; apply stuck_bind; [by apply stuck_import|by apply stuck_remove|by apply stuck_list]. }
  destruct (Ht s Hs) as (_&_&[_ Hr]%run_ends_never). destruct (library_op o s) as [r s1]. cbn [fst snd] in Hr.
  destruct r as [a|e|]; [done| |done]. destruct (IH s1 Hr) as [Hall Hv]. destruct (attempts ops s1) as [rs s2]. cbn [fst snd] in *.
  split; [|done]. constructor; [by eexists|done].
Qed.

(** C38: a lost reply breaks the library for good.  When the import of a photo
    that begins a page of the index writes the head and this write is reported
    as failed although it was carried out, the import takes the head for not
    written and deletes the page, which the head now counts.  The import reports
    an error.  Unless the deletion failed as well, in which case the index has
    the photo, every later import, removal or listing of photos fails, in any
    sequence and whatever else happens, and changes nothing: the library does
    not recover. *)
Theorem lost_reply_breaks_library (frame : list ascii) (original : option (list ascii * Z)) (slots : list Z) (last : Z) (s : S) :
  Library (view s) slots last → view s !! PHOTO_LIBRARY_HEAD_KEY ≠ None → (length slots mod INDEX_PAGE_PHOTOS = 0)%nat →
  let x := import_frame_with_original request_id frame original s in
  (∃ tr, trail x.2 = trail s ++ tr ∧ Some PHOTO_LIBRARY_HEAD_KEY ∈ fst <$> tr) →
  let page := view x.2 !! page_key (Z.of_nat (length slots / INDEX_PAGE_PHOTOS)) in
  (∃ e, x.1 = Err e) ∧
  (page ≠ None ∧ Library (view x.2) (slots ++ [(last + 1)%Z]) (last + 1) ∨
   ∀ ops s', view s' = view x.2 → Forall (λ r, ∃ e, r = Err e) (attempts ops s').1 ∧ view (attempts ops s').2 = view x.2).
Proof.
  intros HL Hhead Hpos x (tr&Htr&Hlost) page. pose proof HL as [Hw [Hc|[Hn _]]]; [|done].
  destruct (pt_import_committed (λ _, True) request_id slots last (view s) frame original HL) with (s := s) as (tr'&Htr'&Hr); [done|done|done|].
  fold x in Htr', Hr. assert (tr' = tr) as -> by (rewrite Htr in Htr'; by apply app_inv_head in Htr').
  destruct Hr as [[Hall _]|(before&after&_&_&_&He&(Hw'&_&Hm))].
  - apply list_elem_of_fmap in Hlost as (e&He&Hin). rewrite Forall_forall in Hall. by destruct (Hall e Hin) as [Hne _].
  - split; [done|]. destruct Hm as [Hm|[[Hne _]|[_ Hm]]]; [left| |right; intros ops s'; by apply attempts_fail].
    + destruct Hm as (e&h&?&?&?&?&Hp). destruct (slot_split slots) as [Hl _]. split.
      * destruct (Hp (slot_page slots)) as (e'&p&He'&_); [rewrite length_app; cbn [length]; lia|]. unfold page. fold (slot_page slots). by rewrite He'.
      * split; [done|]. left. by exists e, h.
    + by destruct Hne.
Qed.

(** C39: a screenshot can take on the original of another picture.  On the way of
    every import of a camera photo that succeeds there is a point at which its
    record is stored and the index does not have the photo.  If the power fails there, so that this store is what the library
    starts from again, then the next screenshot that is stored gets the number
    of the lost photo and is listed with it, the original and the record being
    still there: it is described as a camera photo with the size, the time and
    the digest of the picture that was lost. *)
Theorem screenshot_adopts_original (thumbnail jpeg : list ascii) (captured : Z) (slots : list Z) (last id : Z) (s s' : S) :
  (∀ l, length (sha256 l) = 32%nat) →
  Library (view s) slots last → u64 captured →
  import_camera_photo request_id thumbnail jpeg captured s = (Ok id, s') →
  ∃ tr e, trail s' = trail s ++ tr ∧ e ∈ tr ∧ Library e.2 slots last ∧ e.2 !! metadata_key id = Some (encode_camera_metadata jpeg captured) ∧
    ∀ frame suggested id1 s1 s2, view s1 = e.2 → import_screenshot request_id frame suggested s1 = (Ok id1, s2) →
      id1 = id ∧ view s2 !! blob_key id1 = Some frame ∧
      answers_or_fails (listed_ids request_id s2) s2 (λ ids, ids = in_use slots ++ [id1]) ∧
      answers_or_fails (camera_original request_id id1 s2) s2
        (λ o, o = Some (mkCameraOriginal CAMERA_PHOTO_WIDTH CAMERA_PHOTO_HEIGHT (Z.of_nat (length jpeg)) captured (sha256 jpeg))).
Proof.
  intros Hsha HL Hu64 Hrun. pose proof HL as [Hw _]. destruct (import_Ok _ _ _ _ _ _ _ HL Hrun) as ((->&Hmax&Hok)&_).
  destruct (import_passes_original (λ _, True) request_id slots last (view s) thumbnail (Some (jpeg, captured)) HL (λ _ _, I) jpeg captured _ s s' eq_refl eq_refl Hrun)
    as (tr&e&Htr&Hin&[Hc Ho]&Hmeta).
  assert (Library e.2 slots last) as HLe by (split; [done|by left]). exists tr, e. split_and!; [done..|].
  intros frame suggested id1 s1 s2 Hv Hshot. rewrite <- Hv in HLe, Hmeta.
  destruct (import_Ok _ _ _ _ _ _ _ HLe Hshot) as ((->&_)&HL2&Hexact&[Hblob Hmeta2]&_).
  pose proof (sw_last _ _ Hw) as [Hl0 _]. split_and!; [done|done| |].
  - assert (in_use slots ++ [(last + 1)%Z] = in_use (slots ++ [(last + 1)%Z])) as ->; [|by eapply listed_ids_spec].
    rewrite in_use_app. f_equal. unfold in_use. cbn [List.filter]. destruct (Z.eqb_spec (last + 1) 0); [lia|done].
  - apply (camera_original_spec (last + 1) (Some (jpeg, captured))); [done..|lia|]. by rewrite Hmeta2, Hmeta.
Qed.
End properties.

(** ** A storage in memory *)

(** A store, what the operations left, and the faults of the coming ones. *)
Record MemWorld := mkMemWorld { mw_store : pstore; mw_trail : list PhotoEvent; mw_faults : list Fault }.
Definition mem_op {A} (written : option string) (f : pstore → result StorageClientError A * pstore) : SM MemWorld StorageClientError A := λ w,
  let '(r, lost, m) := match default FtNone (head (mw_faults w)) with
                       | FtNone => ((f (mw_store w)).1, None, (f (mw_store w)).2)
                       | FtBefore e => (Err e, None, mw_store w)
                       | FtAfter e => (Err e, written, (f (mw_store w)).2)
                       end in
  (r, mkMemWorld m (mw_trail w ++ [(lost, m)]) (tail (mw_faults w))).
Definition mem_stage (key : string) (offset : nat) (m : pstore) : option (list ascii) :=
  if (offset =? 0)%nat then Some []
  else match m !! staged_key key with Some b => if (length b =? offset)%nat then Some b else None | None => None end.
Definition mem_chunk (key : string) (offset total : nat) (v : list ascii) (m : pstore) : result StorageClientError unit * pstore :=
  match mem_stage key offset m with
  | Some before =>
      (Ok tt, if (offset + length v =? total)%nat then <[key := before ++ v]> (delete (staged_key key) m)
              else <[staged_key key := before ++ v]> m)
  | None => (Err CeMismatchedOutcome, m)
  end.
Global Instance mem_photo_storage : PhotoStorage MemWorld :=
  {| storage_put := λ _ k v, mem_op (Some k) (λ m, (Ok tt, <[k := v]> m));
     storage_get := λ _ k, mem_op None (λ m, (Ok (m !! k), m));
     storage_delete := λ _ k, mem_op None (λ m, (Ok (bool_decide (is_Some (m !! k))), delete k m));
     storage_put_blob_chunk := λ _ k offset total v, mem_op None (mem_chunk k offset total v);
     storage_delete_blob := λ _ k, mem_op None (λ m, (Ok (bool_decide (is_Some (m !! k))), delete (staged_key k) (delete k m))) |}.

Lemma mem_chunk_effect k offset total v m :
  same_but k m (mem_chunk k offset total v m).2 ∧
  match (mem_chunk k offset total v m).1 with
  | Ok _ => chunk_effect k offset total v m (mem_chunk k offset total v m).2
  | Err _ => True
  | Panicked => False
  end.
Proof.
  unfold mem_chunk. destruct (mem_stage k offset m) as [before|] eqn:Hb; cbn [fst snd]; [|done].
  assert (if (offset =? 0)%nat then before = [] else m !! staged_key k = Some before ∧ length before = offset) as Hbefore.
  { unfold mem_stage in Hb. destruct (Nat.eqb_spec offset 0); [congruence|]. destruct (m !! staged_key k) as [b|]; [|done].
    destruct (Nat.eqb_spec (length b) offset); [|done]. by injection Hb as ->. }
  split.
  - intros k' H1 H2. destruct (offset + length v =? total)%nat; rewrite ?lookup_insert_ne, ?lookup_delete_ne by (by apply not_eq_sym); done.
  - exists before. split; [done|]. destruct (offset + length v =? total)%nat; apply lookup_insert_eq.
Qed.
Lemma mem_deleted k m :
  same_but k m (delete (staged_key k) (delete k m)) ∧
  delete (staged_key k) (delete k m) !! k = None ∧ delete (staged_key k) (delete k m) !! staged_key k = None.
Proof.
  split; [intros k' H1 H2; by rewrite !lookup_delete_ne by (by apply not_eq_sym)|]. split; [|apply lookup_delete_eq].
  destruct (decide (staged_key k = k)) as [->|Hne]; [apply lookup_delete_eq|]. rewrite lookup_delete_ne by done. apply lookup_delete_eq.
Qed.
Global Instance mem_photo_laws : PhotoStorageLaws MemWorld.
Proof.
  refine {| view := mw_store; trail := mw_trail |}; intros; unfold storage_put, storage_get, storage_delete, storage_put_blob_chunk, storage_delete_blob;
    cbn [mem_photo_storage]; unfold mem_op; destruct (default FtNone _); cbn [fst snd mw_store mw_trail]; try by eauto 10.
  - split; [done|]. destruct (mem_chunk_effect k offset total v (mw_store s)) as [Hs Hc]. done.
  - split; [done|]. destruct (mem_chunk_effect k offset total v (mw_store s)) as [Hs Hc]. done.
  - split; [done|]. destruct (mem_deleted k (mw_store s)) as (?&?&?). done.
  - split; [done|]. destruct (mem_deleted k (mw_store s)) as (?&?&?). done.
Defined.

Definition sample_frame : list ascii := replicate PHOTO_FRAME_BYTES zero.
Definition sample_jpeg : list ascii := JPEG_START ++ JPEG_END.
Definition fresh_world : MemWorld := mkMemWorld ∅ [] [].
Definition with_faults (faults : list Fault) (w : MemWorld) : MemWorld := mkMemWorld (mw_store w) (mw_trail w) faults.

Lemma view_with_faults faults w : view (with_faults faults w) = view w.
Proof. done. Qed.

Lemma fresh_library : Library (view fresh_world) [] 0.
Proof. split; [|by right]. split; [done|done|done|by vm_compute|done]. Qed.

Definition one_photo : result PhotoImportError Z * MemWorld :=
  @import_frame_with_original toy_crypto MemWorld _ 1 sample_frame None fresh_world.
Lemma one_photo_ok : one_photo.1 = Ok 1%Z.
Proof. by vm_compute. Qed.

(** Three results of one evaluation. *)
Lemma all_equal {A B C} (a a' : A) (b b' : B) (c c' : C) : (a, b, c) = (a', b', c') → a = a' ∧ b = b' ∧ c = c'.
Proof. by intros [= -> -> ->]. Qed.
Lemma pair_equal {A B} (a a' : A) (b b' : B) : (a, b) = (a', b') → a = a' ∧ b = b'.
Proof. by intros [= -> ->]. Qed.
Lemma pair_of_fst {A B} (p : A * B) a : p.1 = a → p = (a, p.2).
Proof. destruct p. cbn. by intros ->. Qed.
Lemma one_photo_pair : @import_frame_with_original toy_crypto MemWorld _ 1 sample_frame None fresh_world = (Ok 1%Z, one_photo.2).
Proof. exact (pair_of_fst one_photo _ one_photo_ok). Qed.
Lemma one_photo_library : Library (view one_photo.2) [1%Z] 1.
Proof. exact (import_library 1 sample_frame None [] 0 1 fresh_world one_photo.2 fresh_library one_photo_pair). Qed.

(** The power fails after [n] operations of [m]; the store that is left. *)
Definition cut_after {A} (n : nat) (m : SM MemWorld PhotoImportError A) (w : MemWorld) : MemWorld :=
  with_faults [] (m (with_faults (replicate n FtNone ++ replicate 64 (FtBefore (CeIo OtherIo))) w)).2.

(** One photo, whose removal is cut short before the head is written. *)
Definition cut_removal : MemWorld := cut_after 4 (remove_frame 2 1) one_photo.2.

(** A removal that a power loss cuts short before the head is written leaves
    a count that no longer agrees with the pages; the photos cannot be listed
    from then on, until another import or removal writes the head. *)
Theorem cut_removal_hides_photos :
  (listed_ids 3 cut_removal).1 = Err PiInvalidIndex ∧ (photo_is_active 3 1 cut_removal).1 = Ok false ∧
  (listed_ids 4 (@import_screenshot toy_crypto MemWorld _ 3 sample_frame 0 cut_removal).2).1 = Ok [2%Z].
Proof. apply all_equal. by vm_compute. Qed.

(** ** Witnesses *)

Lemma event_in (l : option string) (tr before after : list PhotoEvent) : head (fst <$> after) = Some l → l ∈ fst <$> tr ++ before ++ after.
Proof. intros Hl. rewrite !fmap_app, !elem_of_app. right; right. destruct after; [done|]. injection Hl as <-. apply elem_of_cons. by left. Qed.

(** The storage service: the first request fails, the others do not. *)
Definition refusing_world : PhotoWorld := mkPhotoWorld ∅ [] [FtBefore (CeIo OtherIo)].
Lemma photo_import_atomic_witness :
  let x := @import_frame_with_original toy_crypto PhotoWorld _ 1 sample_frame (Some (sample_jpeg, 1000%Z)) refusing_world in
  (x.1 = Err (PiStorage (CeIo OtherIo)) ∧ trail x.2 = [(None, ∅)]) ∧ Library (view x.2) [] 0.
Proof.
  intros x. assert (x.1 = Err (PiStorage (CeIo OtherIo)) ∧ trail x.2 = [(None, ∅)]) as [Hx Ht] by (split; by vm_compute).
  split; [by split|]. assert (Library (view refusing_world) [] 0) as HL by exact fresh_library.
  destruct (@photo_import_atomic toy_crypto PhotoWorld _ _ 1 sample_frame (Some (sample_jpeg, 1000%Z)) [] 0 refusing_world HL)
    as (before&after&Htr&Hb&[(_&_&Hr)|(Hhead&_)]); fold x in Htr.
  - fold x in Hr. by rewrite Hx in Hr.
  - clear - Ht Htr Hhead. assert (Some PHOTO_LIBRARY_HEAD_KEY ∈ fst <$> trail x.2) as Hin.
    { rewrite Htr. by apply event_in. }
    rewrite Ht in Hin. by apply list_elem_of_singleton in Hin.
Defined.
Lemma photo_remove_atomic_witness :
  (remove_frame 2 1 one_photo.2).1 = Ok true ∧ view (remove_frame 2 1 one_photo.2).2 !! blob_key 1 = None.
Proof.
  assert ((remove_frame 2 1 one_photo.2).1 = Ok true) as Hok by (by vm_compute).
  pose proof (@photo_remove_atomic MemWorld _ _ 2 1 [1%Z] 1 one_photo.2 one_photo_library) as Hatomic. cbv zeta in Hatomic.
  revert Hok Hatomic. generalize (remove_frame 2 1 one_photo.2). generalize one_photo.2. intros w x Hok (_&_&_&_&[[_ Hr]|(_&[e He]&_)]);
    [|by rewrite Hok in He].
  split; [exact Hok|]. rewrite Hok in Hr. destruct Hr as [_ Hg]. apply Hg, elem_of_app. left. apply elem_of_cons. by left.
Defined.
Lemma imported_photo_found_witness : view one_photo.2 !! blob_key 1 = Some sample_frame.
Proof.
  apply (@imported_photo_found toy_crypto MemWorld _ _ 1 sample_frame None [] 0 1 fresh_world one_photo.2).
  - intros l. change (length (take 32 (l ++ replicate 32 "h"%char)) = 32%nat). rewrite length_take, length_app, length_replicate. lia.
  - exact fresh_library.
  - done.
  - exact one_photo_pair.
Defined.

(** An empty library of the current format; the reply to the last operation of
    the first import, the write of the head, is lost. *)
Definition losing_world : MemWorld :=
  mkMemWorld {[PHOTO_LIBRARY_HEAD_KEY := encode_head (mkHead 0 0 0)]} [] (replicate 16 FtNone ++ [FtAfter (CeIo OtherIo)]).
Definition lost_reply : result PhotoImportError Z * MemWorld :=
  @import_frame_with_original toy_crypto MemWorld _ 1 sample_frame None losing_world.
Lemma losing_library : Library (view losing_world) [] 0.
Proof.
  split; [done|]. left. exists (encode_head (mkHead 0 0 0)), (mkHead 0 0 0).
  split_and!; [by vm_compute|by vm_compute|done|done|]. intros k Hk. cbn [length] in Hk. lia.
Qed.
Lemma lost_reply_run :
  lost_reply.1 = Err (PiStorage (CeIo OtherIo)) ∧
  view lost_reply.2 !! page_key (Z.of_nat (length (@nil Z) / INDEX_PAGE_PHOTOS)) = None ∧
  (bool_decide (Some PHOTO_LIBRARY_HEAD_KEY ∈ fst <$> trail lost_reply.2),
   (@library_op toy_crypto MemWorld _ (2%Z, OpImport sample_frame None) (with_faults [] lost_reply.2)).1) = (true, Err PiInvalidIndex).
Proof. apply all_equal. by vm_compute. Qed.
Lemma lost_reply_breaks_library_witness :
  lost_reply.1 = Err (PiStorage (CeIo OtherIo)) ∧
  (@library_op toy_crypto MemWorld _ (2%Z, OpImport sample_frame None) (with_faults [] lost_reply.2)).1 = Err PiInvalidIndex ∧
  ∀ ops, Forall (λ r, ∃ e, r = Err e) (@attempts toy_crypto MemWorld _ ops (with_faults [] lost_reply.2)).1.
Proof.
  destruct lost_reply_run as (Hr&Hpage&[Hlost Hnext]%pair_equal). split; [exact Hr|]. split; [exact Hnext|]. intros ops.
  destruct (@lost_reply_breaks_library toy_crypto MemWorld _ _ 1 sample_frame None [] 0 losing_world losing_library) as [_ [[Hne _]|Hall]].
  - by vm_compute.
  - reflexivity.
  - exists (trail lost_reply.2). split; [exact (eq_sym (app_nil_l (trail lost_reply.2)))|]. exact (proj1 (bool_decide_eq_true _) Hlost).
  - destruct (Hne Hpage).
  - exact (proj1 (Hall ops (with_faults [] lost_reply.2) (view_with_faults _ _))).
Defined.

Definition camera_photo : result PhotoImportError Z * MemWorld :=
  @import_camera_photo toy_crypto MemWorld _ 1 sample_frame sample_jpeg 1000 fresh_world.
Lemma toy_sha256_length : ∀ l, length (@sha256 toy_crypto l) = 32%nat.
Proof. intros l. change (length (take 32 (l ++ replicate 32 "h"%char)) = 32%nat). rewrite length_take, length_app, length_replicate. lia. Qed.
Lemma screenshot_adopts_original_witness :
  ∃ e, e ∈ trail camera_photo.2 ∧ Library e.2 [] 0 ∧
    ∀ id s2, @import_screenshot toy_crypto MemWorld _ 1 sample_frame 0 (mkMemWorld e.2 [] []) = (Ok id, s2) →
      id = 1%Z ∧ answers_or_fails (camera_original 1 1 s2) s2 (λ o, o = Some (mkCameraOriginal CAMERA_PHOTO_WIDTH CAMERA_PHOTO_HEIGHT 4 1000 (@sha256 toy_crypto sample_jpeg))).
Proof.
  assert (camera_photo.1 = Ok 1%Z) as Hok by (by vm_compute).
  destruct (@screenshot_adopts_original toy_crypto MemWorld _ _ 1 sample_frame sample_jpeg 1000 [] 0 1 fresh_world camera_photo.2
    toy_sha256_length fresh_library) as (tr&e&Htr&Hin&HL&_&Hall).
  - unfold u64, u64_max. lia.
  - exact (pair_of_fst camera_photo _ Hok).
  - exists e. split; [by rewrite Htr|]. split; [exact HL|]. intros id s2 Hshot.
    destruct (Hall sample_frame 0%Z id (mkMemWorld e.2 [] []) s2 eq_refl Hshot) as (->&_&_&Hdescribed). split; [done|exact Hdescribed].
Defined.

(** Such a run: the import of the camera photo is cut short, and the screenshot
    is stored and listed with the camera photo's size, time and digest. *)
Definition cut_import : MemWorld :=
  cut_after 19 (@import_camera_photo toy_crypto MemWorld _ 1 sample_frame sample_jpeg 1000) fresh_world.
Definition after_screenshot : result PhotoImportError Z * MemWorld := @import_screenshot toy_crypto MemWorld _ 2 sample_frame 0 cut_import.
Lemma screenshot_adopts_run :
  (listed_ids 3 cut_import).1 = Ok [] ∧
  after_screenshot.1 = Ok 1%Z ∧
  (list_photo_exports 3 after_screenshot.2).1
    = Ok [mkPhotoExport 1 CameraJpeg CAMERA_PHOTO_WIDTH CAMERA_PHOTO_HEIGHT 4 (Some 1000%Z) (Some (@sha256 toy_crypto sample_jpeg))].
Proof. apply all_equal. by vm_compute. Qed.
