(* ===== verification/Descriptor.v ===== *)
(** * Frames that carry a file descriptor (crates/cp0-document-protocol/src/lib.rs, crates/cp0-camera-protocol/src/lib.rs)

    The two crates have the same [recv_frame_with_fd] and [send_frame_with_fd]:
    a frame of JSON that may come with one descriptor in the control part of
    the message.  They differ in the largest frame and the error type, which are
    parameters here, as in [Framing].  The reader is the list of what successive
    [recvmsg] calls give; a descriptor is what the kernel answers about it.

    The lemmas: a frame is received only if it fits into the buffer of the
    receiver, and then it is the frame that was sent; a frame that fits is
    received however it is cut into pieces. *)

From S2P Require Import Prelude RustStr HostFs Framing.

(** [fstat] (kind and size), [F_GETFL], [F_GET_SEALS] (negative when it fails),
    [F_SETFD] and the bytes from the start to the end. *)
Record OwnedFd := mkOwnedFd {
  fd_fstat : result IoError (FileKind * Z);
  fd_getfl : result IoError Z;
  fd_get_seals : Z;
  fd_set_cloexec : result IoError unit;
  fd_contents : result IoError (list ascii);
}.

Definition O_ACCMODE : Z := 3.
Definition O_RDONLY : Z := 0.
Definition O_RDWR : Z := 2.
(** [F_SEAL_SEAL | F_SEAL_SHRINK | F_SEAL_GROW | F_SEAL_WRITE]. *)
Definition REQUIRED_SEALS : Z := Z.lor (Z.lor 1 2) (Z.lor 4 8).

Definition fully_sealed (fd : OwnedFd) : bool :=
  (0 <=? fd_get_seals fd)%Z && (Z.land (fd_get_seals fd) REQUIRED_SEALS =? REQUIRED_SEALS)%Z.

(** What one [recvmsg] gives: bytes, the descriptors of every [SCM_RIGHTS]
    header, and whether [MSG_CTRUNC] or [MSG_TRUNC] is set. *)
Record RecvMsg := mkRecvMsg {
  rm_bytes : list ascii;
  rm_rights : list (list OwnedFd);
  rm_truncated : bool;
}.

Definition FdReader : Type := list (result IoError RecvMsg).

Class FdFrameErrors (E : Type) := {
  fd_frame_errors :: FrameErrors E;
  frame_trailing : E;
  frame_descriptor : E;
}.

Section fd_frames.
  Context {E : Type} `{FdFrameErrors E} (max : nat).

(** The loop over the headers of a message. *)
Fixpoint take_rights (received : option OwnedFd) (rights : list (list OwnedFd)) : result E (option OwnedFd) :=
  match rights with
  | [] => Ok received
  | [fd] :: rights =>
      match received with
      | Some _ => Err frame_descriptor
      | None => let? _ := map_err frame_io (fd_set_cloexec fd) in take_rights (Some fd) rights
      end
  | _ :: _ => Err frame_descriptor
  end.

(** The loop: [frame] is the filled part of the buffer of [max] bytes. *)
Fixpoint recv_loop (frame : list ascii) (received : option OwnedFd) (r : FdReader)
    : result E (list ascii * option OwnedFd) :=
  if (length frame =? max)%nat then Err frame_too_large
  else
    match r with
    | [] => Err frame_unterminated
    | Err e :: _ => Err (frame_io e)
    | Panicked :: _ => Panicked
    | Ok m :: r =>
        let data := take (max - length frame) (rm_bytes m) in
        if (length data =? 0)%nat then Err frame_unterminated
        else
          let? received := take_rights received (rm_rights m) in
          if rm_truncated m then Err frame_descriptor
          else
            let frame := frame ++ data in
            match position is_newline frame with
            | Some newline =>
                if negb (newline + 1 =? length frame)%nat then Err frame_trailing else Ok (take newline frame, received)
            | None => recv_loop frame received r
            end
    end.

Definition recv_frame_with_fd (r : FdReader) : result E (list ascii * option OwnedFd) := recv_loop [] None r.

(** [encode_frame]: the bytes of a message; [None] is a failing encoder. *)
Definition encode_frame (encoded : option (list ascii)) : result E (list ascii) := write_frame max encoded.

(** What [sendmsg] and the [write_all] of the rest answer. *)
Definition send_frame_with_fd (frame : list ascii) (sendmsg : result IoError nat) (rest : result IoError unit)
    : result E unit :=
  if bool_decide (frame = []) || (max <? length frame)%nat || negb (bool_decide (last frame = Some newline))
  then Err frame_unterminated
  else
    let? count := map_err frame_io sendmsg in
    if (count =? 0)%nat || (length frame <? count)%nat then Err frame_descriptor else map_err frame_io rest.

End fd_frames.

(** ** Lemmas *)

(** The bytes a reader still delivers before the first failure. *)
Fixpoint fd_reader_bytes (r : FdReader) : list ascii :=
  match r with Ok m :: r => rm_bytes m ++ fd_reader_bytes r | _ => [] end.

Definition no_newline (l : list ascii) : Prop := Forall (λ b, is_newline b = false) l.

Section fd_frame_lemmas.
  Context {E : Type} `{FdFrameErrors E} (max : nat).

Lemma recv_loop_Ok r frame received body fd :
  no_newline frame → recv_loop max frame received r = Ok (body, fd) →
  (length body + 1 ≤ max)%nat ∧ no_newline body ∧
  (body ++ [newline]) `prefix_of` (frame ++ fd_reader_bytes r).
Proof.
  revert frame received. induction r as [|[m|e|] r IH]; intros frame received Hn; simpl;
    (destruct (length frame =? max)%nat eqn:Hmax; [done|]); [done| |done..].
  destruct (length (take _ _) =? 0)%nat eqn:Hz; [done|].
  destruct (take_rights received (rm_rights m)) as [rc| |] eqn:Hr; try done. simpl.
  destruct (rm_truncated m); [done|].
  assert (∃ t, frame ++ rm_bytes m ++ fd_reader_bytes r = (frame ++ take (max - length frame) (rm_bytes m)) ++ t ∧
    (length (take (max - length frame) (rm_bytes m)) = max - length frame ∨ t = fd_reader_bytes r)%nat) as (t&Ht&Hfull).
  { exists (drop (max - length frame) (rm_bytes m) ++ fd_reader_bytes r). split.
    - rewrite <- (take_drop (max - length frame) (rm_bytes m)) at 1. by rewrite <- !app_assoc.
    - destruct (decide (length (rm_bytes m) ≤ max - length frame)%nat); [right|left].
      + by rewrite drop_ge.
      + rewrite length_take. lia. }
  destruct (position is_newline (frame ++ _)) as [p|] eqn:Hp.
  - destruct (negb _) eqn:Hlen; [done|]. intros [= <- <-]. unbool_hyps.
    apply position_split in Hp as (a&x&b&Heq&<-&Hx&Ha). apply bool_decide_eq_true in Hx as ->.
    rewrite Heq in *. rewrite length_app in Hlen. simpl in Hlen. destruct b; [|simpl in *; lia].
    rewrite take_app_length. split_and!; [|done|].
    + assert (length (frame ++ take (max - length frame) (rm_bytes m)) ≤ max ∨ max < length frame)%nat as [Hle|Hlt].
      { rewrite length_app, length_take. lia. }
      { rewrite Heq, length_app in Hle. simpl in Hle. lia. }
      unbool_hyps. rewrite length_take in *. lia.
    + rewrite Ht. by exists t.
  - intros Hrun. apply position_None in Hp as Hn'. destruct Hfull as [Hfull| ->].
    + destruct r as [|[? | ? |] ?]; simpl in Hrun; rewrite length_app, Hfull in Hrun;
        (destruct (length frame + (max - length frame) =? max)%nat eqn:Hm; [done|]); unbool_hyps;
        rewrite length_take in *; lia.
    + apply IH in Hrun as (?&?&Hpre); [|done]. split_and!; [done..|]. by rewrite Ht.
Qed.

(** What is received is what was sent, and it fits. *)
Lemma recv_frame_sent r sent rest body fd :
  no_newline sent → fd_reader_bytes r = sent ++ newline :: rest →
  recv_frame_with_fd max r = Ok (body, fd) → body = sent ∧ (length sent + 1 ≤ max)%nat.
Proof.
  intros Hs Hr Hrun. apply recv_loop_Ok in Hrun as (Hl&Hn&t&Ht); [|constructor]. simpl in Ht.
  rewrite Hr, <- app_assoc in Ht. simpl in Ht. apply first_newline_unique in Ht as [-> _]; [|done..]. done.
Qed.

(** A frame sent with [fd], if any, and received in pieces. *)
Definition fd_pieces (fd : option OwnedFd) (first : list ascii) (more : list (list ascii)) : FdReader :=
  Ok (mkRecvMsg first (match fd with Some fd => [[fd]] | None => [] end) false)
  :: map (λ bs, Ok (mkRecvMsg bs [] false)) more.

Lemma recv_step frame received fd bs rights more r body :
  bs ≠ [] → no_newline body → frame ++ bs ++ concat more = body ++ [newline] → (length body + 1 ≤ max)%nat →
  Forall (λ c, c ≠ []) more → take_rights received rights = Ok fd →
  recv_loop max frame received (Ok (mkRecvMsg bs rights false) :: r) =
    match more with [] => Ok (body, fd) | _ => recv_loop max (frame ++ bs) fd r end.
Proof.
  intros Hbs Hn Heq Hlen Hmore Hr. pose proof (f_equal length Heq) as Hl. rewrite !length_app in Hl. simpl in Hl.
  assert (0 < length bs)%nat by (destruct bs; simpl; [done|lia]). simpl.
  rewrite (proj2 (Nat.eqb_neq _ _)) by lia. rewrite take_ge by lia. rewrite (proj2 (Nat.eqb_neq _ _)) by lia.
  rewrite Hr. simpl. destruct more as [|c more].
  - simpl in Heq. rewrite app_nil_r in Heq. rewrite Heq.
    assert (position is_newline (body ++ [newline]) = Some (length body)) as ->.
    { clear -Hn. induction body as [|x l IH]; [done|]. apply Forall_cons in Hn as [Hx Hn]. simpl. by rewrite Hx, IH. }
    rewrite length_app, Nat.eqb_refl. simpl. by rewrite take_app_length.
  - destruct (position is_newline (frame ++ bs)) as [p|] eqn:Hp; [|done].
    apply position_split in Hp as (a&x&b&Hfb&_&Hx&Ha). apply bool_decide_eq_true in Hx as ->. exfalso.
    rewrite app_assoc, Hfb, <- app_assoc in Heq. simpl in Heq. apply first_newline_unique in Heq as [_ Heq]; [|done..].
    apply Forall_cons in Hmore as [Hc _]. destruct c; [done|]. by destruct b.
Qed.

Lemma recv_pieces more frame received body :
  frame ≠ body ++ [newline] → Forall (λ c, c ≠ []) more → no_newline body → frame ++ concat more = body ++ [newline] →
  (length body + 1 ≤ max)%nat →
  recv_loop max frame received (map (λ bs, Ok (mkRecvMsg bs [] false)) more) = Ok (body, received).
Proof.
  revert frame. induction more as [|c more IH]; intros frame Hf Hne Hn Heq Hlen.
  { simpl in Heq. by rewrite app_nil_r in Heq. }
  apply Forall_cons in Hne as [Hc Hne]. cbn [map concat] in *.
  erewrite recv_step; [|done|done|done|done|done|done]. destruct more as [|c' more]; [done|].
  apply IH; try done.
  - intros Hf'. rewrite app_assoc, Hf' in Heq. apply Forall_cons in Hne as [? _].
    apply (f_equal length) in Heq. rewrite length_app in Heq. simpl in Heq. rewrite length_app in Heq. destruct c'; simpl in *; [done|lia].
  - by rewrite <- app_assoc.
Qed.

(** A frame that fits is received with its descriptor, however it is cut. *)
Lemma recv_frame_delivers fd first more body :
  Forall (λ c, c ≠ []) (first :: more) → no_newline body → concat (first :: more) = body ++ [newline] →
  (length body + 1 ≤ max)%nat → (∀ d, fd = Some d → fd_set_cloexec d = Ok tt) →
  recv_frame_with_fd max (fd_pieces fd first more) = Ok (body, fd).
Proof.
  intros [Hc Hne]%Forall_cons Hn Heq Hlen Hfd. unfold recv_frame_with_fd, fd_pieces.
  erewrite (recv_step [] None fd first _ more); [|done|done|done|done|done|].
  2: { destruct fd as [d|]; [|done]. simpl. by rewrite (Hfd d eq_refl). }
  destruct more as [|c' more]; [done|]. apply recv_pieces; try done.
  intros Hf'. simpl in Heq. rewrite app_assoc in Heq. apply Forall_cons in Hne as [? _].
  apply (f_equal length) in Heq. simpl in Hf'. rewrite !length_app, Hf', length_app in Heq. simpl in Heq.
  destruct c'; simpl in *; [done|lia].
Qed.

End fd_frame_lemmas.
