(* ===== verification/DocumentProtocol.v ===== *)
(** * The document protocol (crates/cp0-document-protocol/src/lib.rs)

    The requests to list the documents of the user and to open one of them, the
    responses and their checks.  Frames come with a descriptor ([Descriptor]);
    the grammar of document ids is in [DocumentPrompt]. *)

From S2P Require Import Prelude RustStr HostFs Framing Descriptor DocumentPrompt.

Definition DOCUMENT_PROTOCOL_VERSION : Z := 1.
Definition MAX_DOCUMENT_FRAME_BYTES : nat := Z.to_nat (4 * 1024).
Definition MAX_DOCUMENTS : nat := 16.
Definition MAX_DOCUMENT_NAME_CHARS : nat := 48.
Definition MAX_DOCUMENT_NAME_BYTES : nat := 128.
Definition MAX_DOCUMENT_BYTES : Z := 256 * 1024 * 1024.

Inductive DocumentCommand := DcList | DcOpen (id : string).

Record DocumentRequest := mkDocumentRequest {
  dr_protocol_version : Z;
  dr_request_id : Z;
  dr_command : DocumentCommand;
}.

Inductive DocumentErrorCode := DcInvalidRequest | DcUnauthorized | DcNotFound | DcResourceExhausted | DcInternal.

Inductive DocumentOutcome :=
  | DoDocuments (documents : list DocumentSummary)
  | DoOpened (document : DocumentSummary)
  | DoError (code : DocumentErrorCode) (message : string).

Record DocumentResponse := mkDocumentResponse {
  dp_protocol_version : Z;
  dp_request_id : Z;
  dp_outcome : DocumentOutcome;
}.

Inductive DocumentProtocolError :=
  | DpIo (e : IoError) | DpJson | DpFrameTooLarge | DpUnterminatedFrame | DpUnexpectedTrailingData
  | DpUnsupportedVersion (version : Z) | DpInvalidDocumentId | DpInvalidDocumentList | DpInvalidDescriptor.

Global Instance document_frame_errors : FdFrameErrors DocumentProtocolError :=
  {| fd_frame_errors := {| frame_io := DpIo; frame_json := DpJson; frame_too_large := DpFrameTooLarge;
                           frame_unterminated := DpUnterminatedFrame |};
     frame_trailing := DpUnexpectedTrailingData; frame_descriptor := DpInvalidDescriptor |}.

(** ** Checks *)

Definition document_version_check (version : Z) : result DocumentProtocolError unit :=
  if (version =? DOCUMENT_PROTOCOL_VERSION)%Z then Ok tt else Err (DpUnsupportedVersion version).

Definition is_valid_document_name (value : string) : bool :=
  negb (str_is_empty value) && (String.length value <=? MAX_DOCUMENT_NAME_BYTES)%nat
  && (chars_count value <=? MAX_DOCUMENT_NAME_CHARS)%nat && negb (has_control value)
  && negb (bool_decide (slash ∈ bytes value)).

Definition DocumentSummary_validate (d : DocumentSummary) : bool :=
  is_valid_document_id (document_id d) && is_valid_document_name (document_name d) && (size_bytes d <=? MAX_DOCUMENT_BYTES)%Z.

Definition DocumentRequest_validate (r : DocumentRequest) : result DocumentProtocolError unit :=
  let? _ := document_version_check (dr_protocol_version r) in
  match dr_command r with
  | DcOpen id => if negb (is_valid_document_id id) then Err DpInvalidDocumentId else Ok tt
  | DcList => Ok tt
  end.

Definition DocumentResponse_validate (r : DocumentResponse) : result DocumentProtocolError unit :=
  let? _ := document_version_check (dp_protocol_version r) in
  match dp_outcome r with
  | DoDocuments documents =>
      if (MAX_DOCUMENTS <? length documents)%nat || existsb (λ d, negb (DocumentSummary_validate d)) documents
      then Err DpInvalidDocumentList else Ok tt
  | DoOpened document => if negb (DocumentSummary_validate document) then Err DpInvalidDocumentList else Ok tt
  | DoError _ _ => Ok tt
  end.

(** ** Constructors and framing *)

Definition document_request (request_id : Z) (c : DocumentCommand) : DocumentRequest :=
  mkDocumentRequest DOCUMENT_PROTOCOL_VERSION request_id c.
Definition document_response (request_id : Z) (o : DocumentOutcome) : DocumentResponse :=
  mkDocumentResponse DOCUMENT_PROTOCOL_VERSION request_id o.

Definition document_read_request (from_slice : list ascii → option DocumentRequest) (r : Reader) :=
  read_message MAX_DOCUMENT_FRAME_BYTES DocumentRequest_validate from_slice r.
Definition document_write_request (to_vec : DocumentRequest → option (list ascii)) (request : DocumentRequest) :=
  write_message MAX_DOCUMENT_FRAME_BYTES DocumentRequest_validate to_vec request.
Definition document_decode_response (from_slice : list ascii → option DocumentResponse) (frame : list ascii)
    : result DocumentProtocolError DocumentResponse :=
  let? response := ok_or (from_slice frame) DpJson in
  let? _ := DocumentResponse_validate response in
  Ok response.
Definition document_read_response (from_slice : list ascii → option DocumentResponse) (r : Reader) :=
  read_message MAX_DOCUMENT_FRAME_BYTES DocumentResponse_validate from_slice r.
Definition document_write_response (to_vec : DocumentResponse → option (list ascii)) (response : DocumentResponse) :=
  write_message MAX_DOCUMENT_FRAME_BYTES DocumentResponse_validate to_vec response.

Lemma document_decode_Ok from_slice frame response :
  document_decode_response from_slice frame = Ok response → DocumentResponse_validate response = Ok tt.
Proof.
  unfold document_decode_response. destruct (from_slice frame) as [r|]; [|done]. simpl.
  destruct (DocumentResponse_validate r) as [[]| |] eqn:Hv; [|done..]. by intros [= <-].
Qed.
