(* ===== verification/AudioProtocol.v ===== *)
(** * The audio protocol (crates/cp0-audio-protocol/src/lib.rs)

    The requests that the application service and the system shell send to the
    audio service, the responses, their checks, the coding of samples and the
    framing (of [Framing]).  The Base64 loops are the ones of [StorageProtocol]:
    the source has the same functions in both crates. *)

From S2P Require Import Prelude RustStr Bytes HostFs Framing StorageProtocol.

Definition AUDIO_PROTOCOL_VERSION : Z := 3.
Definition AUDIO_SAMPLE_BYTES : nat := 2.
Definition KEY_CLICK_FRAMES : Z := 192.
Definition MAX_AUDIO_FRAMES : nat := 1024.
Definition MAX_AUDIO_BYTES : nat := MAX_AUDIO_FRAMES * AUDIO_SAMPLE_BYTES.
Definition MUSIC_CHANNELS : nat := 2.
Definition MUSIC_FRAME_BYTES : nat := AUDIO_SAMPLE_BYTES * MUSIC_CHANNELS.
Definition MAX_MUSIC_FRAMES : nat := 1920.
Definition MAX_MUSIC_BYTES : nat := MAX_MUSIC_FRAMES * MUSIC_FRAME_BYTES.
Definition MAX_AUDIO_FRAME_BYTES : nat := Z.to_nat (12 * 1024).
Definition MAX_AUDIO_ERROR_CHARS : nat := 160.

Inductive AudioDirection := Decrease | Increase.

Inductive AudioCommand :=
  | PlayPcmS16le (samples_base64 : string)
  | PlayPcmS16leStereo48k (samples_base64 : string)
  | CapturePcmS16le (frames : Z)
  | GetOutputState
  | SetOutputVolume (percent : Z)
  | AdjustOutputVolume (direction : AudioDirection)
  | SetOutputMuted (muted : bool)
  | SetKeySoundsEnabled (enabled : bool)
  | AudioPlayKeyClick.

Record AudioRequest := mkAudioRequest {
  ar_protocol_version : Z;
  ar_request_id : Z;
  ar_command : AudioCommand;
}.

Record AudioOutputState := mkAudioOutputState {
  ao_available : bool;
  ao_volume_percent : option Z;
  ao_muted : option bool;
}.

Inductive AudioErrorCode := AcInvalidRequest | AcUnauthorized | AcBusy | AcUnavailable | AcDevice | AcInternal.

Inductive AudioOutcome :=
  | AoPlayed (frames : Z)
  | AoCaptured (samples_base64 : string)
  | AoOutputState (state : AudioOutputState)
  | AoKeySoundsState (enabled : bool)
  | AoError (code : AudioErrorCode) (message : string).

Record AudioResponse := mkAudioResponse {
  ap_protocol_version : Z;
  ap_request_id : Z;
  ap_outcome : AudioOutcome;
}.

Inductive AudioProtocolError :=
  | ApIo (e : IoError) | ApJson | ApFrameTooLarge | ApUnterminatedFrame | ApUnsupportedVersion (version : Z)
  | ApInvalidSamples | ApInvalidFrameCount | ApInvalidOutputState | ApInvalidVolume | ApInvalidErrorMessage.

(** ** Samples *)

(** The part that the decoders of sounds and radio packets share: not empty,
    at most [maximum] bytes. *)
Definition decode_bounded (maximum : nat) (input : string) : option (list ascii) :=
  let encoded := bytes input in
  let n := length encoded in
  if (n =? 0)%nat || negb (n mod 4 =? 0)%nat || ((maximum + 2) / 3 * 4 <? n)%nat then None
  else
    output ← decode_chunks 0 (n / 4) encoded;
    if (length output =? 0)%nat || (maximum <? length output)%nat then None else Some output.

Definition decode_bounded_samples (input : string) (maximum_bytes frame_bytes : nat)
    : result AudioProtocolError (list ascii) :=
  match decode_bounded maximum_bytes input with
  | Some output => if negb (length output mod frame_bytes =? 0)%nat then Err ApInvalidSamples else Ok output
  | None => Err ApInvalidSamples
  end.

Definition decode_samples (input : string) := decode_bounded_samples input MAX_AUDIO_BYTES AUDIO_SAMPLE_BYTES.
Definition decode_music_samples (input : string) := decode_bounded_samples input MAX_MUSIC_BYTES MUSIC_FRAME_BYTES.

(** ** Checks *)

Definition audio_version_check (version : Z) : result AudioProtocolError unit :=
  if (version =? AUDIO_PROTOCOL_VERSION)%Z then Ok tt else Err (ApUnsupportedVersion version).

Definition AudioRequest_validate (r : AudioRequest) : result AudioProtocolError unit :=
  let? _ := audio_version_check (ar_protocol_version r) in
  match ar_command r with
  | PlayPcmS16le samples => let? _ := decode_samples samples in Ok tt
  | PlayPcmS16leStereo48k samples => let? _ := decode_music_samples samples in Ok tt
  | CapturePcmS16le frames =>
      if (frames =? 0)%Z || (Z.of_nat MAX_AUDIO_FRAMES <? frames)%Z then Err ApInvalidFrameCount else Ok tt
  | SetOutputVolume percent => if (100 <? percent)%Z then Err ApInvalidVolume else Ok tt
  | GetOutputState | AdjustOutputVolume _ | SetOutputMuted _ | SetKeySoundsEnabled _ | AudioPlayKeyClick => Ok tt
  end.

Definition AudioOutputState_validate (s : AudioOutputState) : result AudioProtocolError unit :=
  match ao_available s, ao_volume_percent s, ao_muted s with
  | true, Some percent, Some _ => if (percent <=? 100)%Z then Ok tt else Err ApInvalidOutputState
  | false, None, None => Ok tt
  | _, _, _ => Err ApInvalidOutputState
  end.

Definition AudioResponse_validate (r : AudioResponse) : result AudioProtocolError unit :=
  let? _ := audio_version_check (ap_protocol_version r) in
  match ap_outcome r with
  | AoPlayed frames =>
      if (frames =? 0)%Z || (Z.of_nat MAX_MUSIC_FRAMES <? frames)%Z then Err ApInvalidFrameCount else Ok tt
  | AoCaptured samples => let? _ := decode_samples samples in Ok tt
  | AoOutputState state => AudioOutputState_validate state
  | AoKeySoundsState _ => Ok tt
  | AoError _ message =>
      if str_is_empty message || (MAX_AUDIO_ERROR_CHARS <? chars_count message)%nat || has_control message
      then Err ApInvalidErrorMessage else Ok tt
  end.

(** ** Constructors and framing *)

Definition audio_request (request_id : Z) (c : AudioCommand) : AudioRequest :=
  mkAudioRequest AUDIO_PROTOCOL_VERSION request_id c.
Definition audio_response (request_id : Z) (o : AudioOutcome) : AudioResponse :=
  mkAudioResponse AUDIO_PROTOCOL_VERSION request_id o.

Definition AudioRequest_playback (request_id : Z) (samples : list ascii) : AudioRequest :=
  audio_request request_id (PlayPcmS16le (encode_base64 samples)).
Definition AudioRequest_playback_stereo_48k (request_id : Z) (samples : list ascii) : AudioRequest :=
  audio_request request_id (PlayPcmS16leStereo48k (encode_base64 samples)).
Definition AudioRequest_capture (request_id frames : Z) : AudioRequest :=
  audio_request request_id (CapturePcmS16le frames).
Definition AudioRequest_play_key_click (request_id : Z) : AudioRequest := audio_request request_id AudioPlayKeyClick.
Definition AudioResponse_captured (request_id : Z) (samples : list ascii) : AudioResponse :=
  audio_response request_id (AoCaptured (encode_base64 samples)).

Global Instance audio_frame_errors : FrameErrors AudioProtocolError :=
  {| frame_io := ApIo; frame_json := ApJson; frame_too_large := ApFrameTooLarge;
     frame_unterminated := ApUnterminatedFrame |}.

Definition audio_read_request (from_slice : list ascii → option AudioRequest) (r : Reader) :=
  read_message MAX_AUDIO_FRAME_BYTES AudioRequest_validate from_slice r.
Definition audio_write_request (to_vec : AudioRequest → option (list ascii)) (request : AudioRequest) :=
  write_message MAX_AUDIO_FRAME_BYTES AudioRequest_validate to_vec request.
Definition audio_read_response (from_slice : list ascii → option AudioResponse) (r : Reader) :=
  read_message MAX_AUDIO_FRAME_BYTES AudioResponse_validate from_slice r.
Definition audio_write_response (to_vec : AudioResponse → option (list ascii)) (response : AudioResponse) :=
  write_message MAX_AUDIO_FRAME_BYTES AudioResponse_validate to_vec response.

(** ** Lemmas *)

(** A text is accepted exactly when it is the encoding of 1 to [maximum] bytes. *)
Lemma decode_bounded_iff maximum input body :
  decode_bounded maximum input = Some body ↔ input = encode_base64 body ∧ (0 < length body ≤ maximum)%nat.
Proof.
  unfold decode_bounded. split.
  - case_match eqn:Hc; [done|]. unbool_hyps.
    destruct (decode_chunks 0 _ _) as [out|] eqn:Hd; [|done]. simpl. case_match eqn:Ho; [done|]. intros [= <-].
    unbool_hyps. split; [|lia]. unfold encode_base64. erewrite encode_decode_chunks; [|idtac|exact Hd].
    + symmetry. apply String.string_of_list_ascii_of_string.
    + rewrite Nat.sub_0_r. by apply Nat.div_exact.
  - intros [-> Hlen]. unfold encode_base64, bytes. rewrite String.list_ascii_of_string_of_list_ascii, length_encode_chunks.
    pose proof (Nat.Div0.div_le_mono (length body + 2) (maximum + 2) 3 ltac:(lia)) as Hn.
    pose proof (Nat.div_le_lower_bound (length body + 2) 3 1 ltac:(lia) ltac:(lia)) as Hp.
    rewrite (proj2 (Nat.eqb_neq _ _)) by lia. rewrite Nat.Div0.mod_mul. cbn [negb orb].
    rewrite (proj2 (Nat.ltb_ge _ _)) by lia. rewrite Nat.div_mul by lia.
    rewrite decode_encode_chunks by lia. simpl. rewrite (proj2 (Nat.eqb_neq _ _)) by lia.
    by rewrite (proj2 (Nat.ltb_ge _ _)) by lia.
Qed.

Lemma decode_bounded_samples_iff input maximum frame body :
  decode_bounded_samples input maximum frame = Ok body ↔
  input = encode_base64 body ∧ (0 < length body ≤ maximum)%nat ∧ (length body mod frame = 0)%nat.
Proof.
  unfold decode_bounded_samples. pose proof (decode_bounded_iff maximum input) as Hb. split.
  - destruct (decode_bounded _ _) as [out|]; [|done]. destruct (negb _) eqn:Hm; [done|]. intros [= <-].
    destruct (proj1 (Hb out) eq_refl). by unbool_hyps.
  - intros (He&Hl&Hm). rewrite (proj2 (Hb body) (conj He Hl)). by rewrite Hm.
Qed.
