(* ===== verification/GpioProtocol.v ===== *)
(** * The GPIO protocol (crates/cp0-gpio-protocol/src/lib.rs)

    The requests to read and set the four lines of the board that applications
    may use, the responses and their checks; the framing is that of [Framing]. *)

From S2P Require Import Prelude RustStr HostFs Framing.

Definition GPIO_PROTOCOL_VERSION : Z := 1.
Definition MAX_GPIO_FRAME_BYTES : nat := Z.to_nat (2 * 1024).
Definition MAX_GPIO_ERROR_CHARS : nat := 160.

Inductive GpioLine := GroveFunction | ExternalUsbFunction | Grove5vPower | External5vPower.
Global Instance GpioLine_eq_dec : EqDecision GpioLine.
Proof. solve_decision. Defined.

Definition GpioLine_ALL : list GpioLine := [GroveFunction; ExternalUsbFunction; Grove5vPower; External5vPower].

Inductive GpioCommand := GpRead (line : GpioLine) | GpWrite (line : GpioLine) (value : bool).

Record GpioRequest := mkGpioRequest {
  gr_protocol_version : Z;
  gr_request_id : Z;
  gr_command : GpioCommand;
}.

Inductive GpioErrorCode := GcInvalidRequest | GcUnauthorized | GcUnavailable | GcDevice | GcInternal.

Inductive GpioOutcome :=
  | GoValue (line : GpioLine) (value : bool)
  | GoWritten (line : GpioLine) (value : bool)
  | GoError (code : GpioErrorCode) (message : string).

Record GpioResponse := mkGpioResponse {
  gp_protocol_version : Z;
  gp_request_id : Z;
  gp_outcome : GpioOutcome;
}.

Inductive GpioProtocolError :=
  | GpIo (e : IoError) | GpJson | GpFrameTooLarge | GpUnterminatedFrame | GpUnsupportedVersion (version : Z)
  | GpInvalidErrorMessage.

Definition gpio_version_check (version : Z) : result GpioProtocolError unit :=
  if (version =? GPIO_PROTOCOL_VERSION)%Z then Ok tt else Err (GpUnsupportedVersion version).

Definition GpioRequest_validate (r : GpioRequest) : result GpioProtocolError unit :=
  gpio_version_check (gr_protocol_version r).

Definition GpioResponse_validate (r : GpioResponse) : result GpioProtocolError unit :=
  let? _ := gpio_version_check (gp_protocol_version r) in
  match gp_outcome r with
  | GoError _ message =>
      if str_is_empty message || (MAX_GPIO_ERROR_CHARS <? chars_count message)%nat || has_control message
      then Err GpInvalidErrorMessage else Ok tt
  | _ => Ok tt
  end.

Definition GpioRequest_read (request_id : Z) (line : GpioLine) : GpioRequest :=
  mkGpioRequest GPIO_PROTOCOL_VERSION request_id (GpRead line).
Definition GpioRequest_write (request_id : Z) (line : GpioLine) (value : bool) : GpioRequest :=
  mkGpioRequest GPIO_PROTOCOL_VERSION request_id (GpWrite line value).
Definition gpio_response (request_id : Z) (o : GpioOutcome) : GpioResponse :=
  mkGpioResponse GPIO_PROTOCOL_VERSION request_id o.

Global Instance gpio_frame_errors : FrameErrors GpioProtocolError :=
  {| frame_io := GpIo; frame_json := GpJson; frame_too_large := GpFrameTooLarge;
     frame_unterminated := GpUnterminatedFrame |}.

Definition gpio_read_request (from_slice : list ascii → option GpioRequest) (r : Reader) :=
  read_message MAX_GPIO_FRAME_BYTES GpioRequest_validate from_slice r.
Definition gpio_write_request (to_vec : GpioRequest → option (list ascii)) (request : GpioRequest) :=
  write_message MAX_GPIO_FRAME_BYTES GpioRequest_validate to_vec request.
Definition gpio_read_response (from_slice : list ascii → option GpioResponse) (r : Reader) :=
  read_message MAX_GPIO_FRAME_BYTES GpioResponse_validate from_slice r.
Definition gpio_write_response (to_vec : GpioResponse → option (list ascii)) (response : GpioResponse) :=
  write_message MAX_GPIO_FRAME_BYTES GpioResponse_validate to_vec response.
