(* ===== verification/RadioProtocol.v ===== *)
(** * The radio protocol (crates/cp0-radio-protocol/src/lib.rs)

    The requests to send and to receive a LoRa packet, the responses, their
    checks and the coding of packets (the loops of [StorageProtocol], the bounds
    of [AudioProtocol.decode_bounded]); the framing is that of [Framing]. *)

From S2P Require Import Prelude RustStr Bytes HostFs Framing StorageProtocol AudioProtocol.

Definition RADIO_PROTOCOL_VERSION : Z := 1.
Definition MAX_LORA_PAYLOAD_BYTES : nat := 64.
Definition MAX_LORA_RECEIVE_TIMEOUT_MS : Z := 1000.
Definition MAX_RADIO_FRAME_BYTES : nat := Z.to_nat (2 * 1024).
Definition MAX_RADIO_ERROR_CHARS : nat := 160.

Inductive RadioCommand := RcSendLora (payload_base64 : string) | RcReceiveLora (timeout_ms : Z).

Record RadioRequest := mkRadioRequest {
  rr_protocol_version : Z;
  rr_request_id : Z;
  rr_command : RadioCommand;
}.

Inductive RadioErrorCode :=
  | RcInvalidRequest | RcUnauthorized | RcDisabled | RcBusy | RcRateLimited | RcUnavailable | RcDevice | RcInternal.

Inductive RadioOutcome :=
  | RoLoraSent (bytes : Z)
  | RoLoraPacket (payload_base64 : string) (rssi_dbm snr_quarter_db : Z)
  | RoLoraNoPacket
  | RoError (code : RadioErrorCode) (message : string).

Record RadioResponse := mkRadioResponse {
  rp_protocol_version : Z;
  rp_request_id : Z;
  rp_outcome : RadioOutcome;
}.

Inductive RadioProtocolError :=
  | RpIo (e : IoError) | RpJson | RpFrameTooLarge | RpUnterminatedFrame | RpUnsupportedVersion (version : Z)
  | RpInvalidPayload | RpInvalidTimeout | RpInvalidMetadata | RpInvalidErrorMessage.

Definition radio_decode_payload (input : string) : result RadioProtocolError (list ascii) :=
  ok_or (decode_bounded MAX_LORA_PAYLOAD_BYTES input) RpInvalidPayload.

Definition radio_version_check (version : Z) : result RadioProtocolError unit :=
  if (version =? RADIO_PROTOCOL_VERSION)%Z then Ok tt else Err (RpUnsupportedVersion version).

Definition RadioRequest_validate (r : RadioRequest) : result RadioProtocolError unit :=
  let? _ := radio_version_check (rr_protocol_version r) in
  match rr_command r with
  | RcSendLora payload => let? _ := radio_decode_payload payload in Ok tt
  | RcReceiveLora timeout =>
      if (timeout =? 0)%Z || (MAX_LORA_RECEIVE_TIMEOUT_MS <? timeout)%Z then Err RpInvalidTimeout else Ok tt
  end.

(** [(-200..=50).contains(rssi_dbm)]. *)
Definition rssi_in_range (rssi_dbm : Z) : bool := (-200 <=? rssi_dbm)%Z && (rssi_dbm <=? 50)%Z.

Definition RadioResponse_validate (r : RadioResponse) : result RadioProtocolError unit :=
  let? _ := radio_version_check (rp_protocol_version r) in
  match rp_outcome r with
  | RoLoraSent n => if (n =? 0)%Z || (Z.of_nat MAX_LORA_PAYLOAD_BYTES <? n)%Z then Err RpInvalidPayload else Ok tt
  | RoLoraPacket payload rssi_dbm _ =>
      let? _ := radio_decode_payload payload in
      if negb (rssi_in_range rssi_dbm) then Err RpInvalidMetadata else Ok tt
  | RoLoraNoPacket => Ok tt
  | RoError _ message =>
      if str_is_empty message || (MAX_RADIO_ERROR_CHARS <? chars_count message)%nat || has_control message
      then Err RpInvalidErrorMessage else Ok tt
  end.

Definition RadioRequest_send_lora (request_id : Z) (payload : list ascii) : RadioRequest :=
  mkRadioRequest RADIO_PROTOCOL_VERSION request_id (RcSendLora (encode_base64 payload)).
Definition RadioRequest_receive_lora (request_id timeout_ms : Z) : RadioRequest :=
  mkRadioRequest RADIO_PROTOCOL_VERSION request_id (RcReceiveLora timeout_ms).
Definition radio_response (request_id : Z) (o : RadioOutcome) : RadioResponse :=
  mkRadioResponse RADIO_PROTOCOL_VERSION request_id o.

Global Instance radio_frame_errors : FrameErrors RadioProtocolError :=
  {| frame_io := RpIo; frame_json := RpJson; frame_too_large := RpFrameTooLarge;
     frame_unterminated := RpUnterminatedFrame |}.

Definition radio_read_request (from_slice : list ascii → option RadioRequest) (r : Reader) :=
  read_message MAX_RADIO_FRAME_BYTES RadioRequest_validate from_slice r.
Definition radio_write_request (to_vec : RadioRequest → option (list ascii)) (request : RadioRequest) :=
  write_message MAX_RADIO_FRAME_BYTES RadioRequest_validate to_vec request.
Definition radio_read_response (from_slice : list ascii → option RadioResponse) (r : Reader) :=
  read_message MAX_RADIO_FRAME_BYTES RadioResponse_validate from_slice r.
Definition radio_write_response (to_vec : RadioResponse → option (list ascii)) (response : RadioResponse) :=
  write_message MAX_RADIO_FRAME_BYTES RadioResponse_validate to_vec response.

Lemma radio_payload_iff input payload :
  radio_decode_payload input = Ok payload ↔ input = encode_base64 payload ∧ (0 < length payload ≤ MAX_LORA_PAYLOAD_BYTES)%nat.
Proof.
  unfold radio_decode_payload. rewrite <- decode_bounded_iff. destruct (decode_bounded _ _); simpl; split; congruence.
Qed.
