(* ===== verification/CameraProtocol.v ===== *)
(** * The camera protocol (crates/cp0-camera-protocol/src/lib.rs)

    The requests for a preview frame and for a photo, the responses and their
    checks, and the payload in which a photo travels: a header, the thumbnail
    and the JPEG.  Frames come with a descriptor ([Descriptor]). *)

From S2P Require Import Prelude RustStr Bytes HostFs Framing Descriptor PhotoLibrary PhotoLibraryLogic.

Definition CAMERA_PROTOCOL_VERSION : Z := 1.
Definition CAMERA_WIDTH : Z := 320.
Definition CAMERA_HEIGHT : Z := 170.
Definition CAMERA_PIXEL_BYTES : Z := 2.
Definition CAMERA_FRAME_BYTES : Z := CAMERA_WIDTH * CAMERA_HEIGHT * CAMERA_PIXEL_BYTES.
Definition CAMERA_PHOTO_HEADER_BYTES : nat := 16.
Definition CAMERA_PHOTO_MAGIC : list ascii := RustStr.bytes "CP0J".
Definition MAX_CAMERA_PROTOCOL_FRAME_BYTES : nat := Z.to_nat (2 * 1024).
Definition MAX_CAMERA_ERROR_CHARS : nat := 160.

Inductive CameraPixelFormat := Rgb565Le.
Inductive CameraCommand := CaptureRgb565 | CamCapturePhoto.

Record CameraRequest := mkCameraRequest {
  cr_protocol_version : Z;
  cr_request_id : Z;
  cr_command : CameraCommand;
}.

Inductive CameraErrorCode := CcInvalidRequest | CcUnauthorized | CcBusy | CcUnavailable | CcCaptureFailed | CcInternal.

Inductive CameraOutcome :=
  | CoCaptured (width height : Z) (pixel_format : CameraPixelFormat) (size_bytes : Z)
  | CoPhotoCaptured (width height thumbnail_size_bytes jpeg_size_bytes : Z)
  | CoError (code : CameraErrorCode) (message : string).

Record CameraResponse := mkCameraResponse {
  cp_protocol_version : Z;
  cp_request_id : Z;
  cp_outcome : CameraOutcome;
}.

Inductive CameraProtocolError :=
  | CpIo (e : IoError) | CpJson | CpFrameTooLarge | CpUnterminatedFrame | CpUnexpectedTrailingData
  | CpUnsupportedVersion (version : Z) | CpInvalidFrameMetadata | CpInvalidErrorMessage | CpInvalidDescriptor.

Global Instance camera_frame_errors : FdFrameErrors CameraProtocolError :=
  {| fd_frame_errors := {| frame_io := CpIo; frame_json := CpJson; frame_too_large := CpFrameTooLarge;
                           frame_unterminated := CpUnterminatedFrame |};
     frame_trailing := CpUnexpectedTrailingData; frame_descriptor := CpInvalidDescriptor |}.

(** ** Checks *)

Definition camera_version_check (version : Z) : result CameraProtocolError unit :=
  if (version =? CAMERA_PROTOCOL_VERSION)%Z then Ok tt else Err (CpUnsupportedVersion version).

Definition CameraRequest_validate (r : CameraRequest) : result CameraProtocolError unit :=
  camera_version_check (cr_protocol_version r).

Definition CameraResponse_validate (r : CameraResponse) : result CameraProtocolError unit :=
  let? _ := camera_version_check (cp_protocol_version r) in
  match cp_outcome r with
  | CoCaptured width height Rgb565Le size =>
      if negb (width =? CAMERA_WIDTH)%Z || negb (height =? CAMERA_HEIGHT)%Z || negb (size =? CAMERA_FRAME_BYTES)%Z
      then Err CpInvalidFrameMetadata else Ok tt
  | CoPhotoCaptured width height thumbnail_size jpeg_size =>
      if negb (width =? CAMERA_PHOTO_WIDTH)%Z || negb (height =? CAMERA_PHOTO_HEIGHT)%Z
         || negb (thumbnail_size =? CAMERA_FRAME_BYTES)%Z || (jpeg_size =? 0)%Z
         || (Z.of_nat MAX_CAMERA_JPEG_BYTES <? jpeg_size)%Z
      then Err CpInvalidFrameMetadata else Ok tt
  | CoError _ message =>
      if str_is_empty message || (MAX_CAMERA_ERROR_CHARS <? chars_count message)%nat || has_control message
      then Err CpInvalidErrorMessage else Ok tt
  end.

(** ** Photo payloads *)

Definition encode_photo_payload (thumbnail jpeg : list ascii) : result CameraProtocolError (list ascii) :=
  if negb (Z.of_nat (length thumbnail) =? CAMERA_FRAME_BYTES)%Z || negb (jpeg_ok jpeg) then Err CpInvalidFrameMetadata
  else
    Ok (CAMERA_PHOTO_MAGIC ++ le_bytes 2 1 ++ le_bytes 2 (Z.of_nat CAMERA_PHOTO_HEADER_BYTES)
        ++ le_bytes 4 CAMERA_FRAME_BYTES ++ le_bytes 4 (Z.of_nat (length jpeg)) ++ thumbnail ++ jpeg).

(** [usize] has 64 bits: the sum of the sizes does not overflow. *)
Definition decode_photo_payload (payload : list ascii) : result CameraProtocolError (list ascii * list ascii) :=
  if (length payload <? CAMERA_PHOTO_HEADER_BYTES)%nat || negb (bool_decide (take 4 payload = CAMERA_PHOTO_MAGIC))
     || negb (le_at 4 2 payload =? 1)%Z || negb (le_at 6 2 payload =? Z.of_nat CAMERA_PHOTO_HEADER_BYTES)%Z
  then Err CpInvalidFrameMetadata
  else
    let thumbnail_size := le_at 8 4 payload in
    let jpeg_size := le_at 12 4 payload in
    let expected := (Z.of_nat CAMERA_PHOTO_HEADER_BYTES + thumbnail_size + jpeg_size)%Z in
    if negb (thumbnail_size =? CAMERA_FRAME_BYTES)%Z || (jpeg_size =? 0)%Z
       || (Z.of_nat MAX_CAMERA_JPEG_BYTES <? jpeg_size)%Z || negb (Z.of_nat (length payload) =? expected)%Z
    then Err CpInvalidFrameMetadata
    else
      let thumbnail := take (Z.to_nat thumbnail_size) (drop CAMERA_PHOTO_HEADER_BYTES payload) in
      let jpeg := drop (Z.to_nat thumbnail_size) (drop CAMERA_PHOTO_HEADER_BYTES payload) in
      if negb (bool_decide (JPEG_START `prefix_of` jpeg)) || negb (bool_decide (JPEG_END `suffix_of` jpeg))
      then Err CpInvalidFrameMetadata
      else Ok (thumbnail, jpeg).

(** ** Constructors and framing *)

Definition camera_request (request_id : Z) (c : CameraCommand) : CameraRequest :=
  mkCameraRequest CAMERA_PROTOCOL_VERSION request_id c.
Definition CameraResponse_captured (request_id : Z) : CameraResponse :=
  mkCameraResponse CAMERA_PROTOCOL_VERSION request_id (CoCaptured CAMERA_WIDTH CAMERA_HEIGHT Rgb565Le CAMERA_FRAME_BYTES).
Definition CameraResponse_photo_captured (request_id jpeg_size_bytes : Z) : CameraResponse :=
  mkCameraResponse CAMERA_PROTOCOL_VERSION request_id
    (CoPhotoCaptured CAMERA_PHOTO_WIDTH CAMERA_PHOTO_HEIGHT CAMERA_FRAME_BYTES jpeg_size_bytes).

Definition camera_read_request (from_slice : list ascii → option CameraRequest) (r : Reader) :=
  read_message MAX_CAMERA_PROTOCOL_FRAME_BYTES CameraRequest_validate from_slice r.
Definition camera_write_request (to_vec : CameraRequest → option (list ascii)) (request : CameraRequest) :=
  write_message MAX_CAMERA_PROTOCOL_FRAME_BYTES CameraRequest_validate to_vec request.
Definition camera_write_response (to_vec : CameraResponse → option (list ascii)) (response : CameraResponse) :=
  write_message MAX_CAMERA_PROTOCOL_FRAME_BYTES CameraResponse_validate to_vec response.
Definition camera_decode_response (from_slice : list ascii → option CameraResponse) (frame : list ascii)
    : result CameraProtocolError CameraResponse :=
  let? response := ok_or (from_slice frame) CpJson in
  let? _ := CameraResponse_validate response in
  Ok response.

(** ** Lemmas *)

Lemma camera_decode_Ok from_slice frame response :
  camera_decode_response from_slice frame = Ok response → CameraResponse_validate response = Ok tt.
Proof.
  unfold camera_decode_response. destruct (from_slice frame) as [r|]; [|done]. simpl.
  destruct (CameraResponse_validate r) as [[]| |] eqn:Hv; [|done..]. by intros [= <-].
Qed.

Lemma le_at_split start n l :
  (start + n ≤ length l)%nat → drop start l = le_bytes n (le_at start n l) ++ drop (start + n) l.
Proof.
  intros Hl. unfold le_at. assert (length (take n (drop start l)) = n) as Hn by (rewrite length_take, length_drop; lia).
  rewrite <- Hn at 1. rewrite le_bytes_value, <- drop_drop. by rewrite take_drop.
Qed.

Lemma jpeg_ok_iff jpeg :
  jpeg_ok jpeg = true ↔ (0 < length jpeg ≤ MAX_CAMERA_JPEG_BYTES)%nat ∧ JPEG_START `prefix_of` jpeg ∧ JPEG_END `suffix_of` jpeg.
Proof.
  unfold jpeg_ok. split.
  - intros Hj. unbool_hyps. split_and!; [destruct jpeg; [done|simpl; lia]|done..].
  - intros ([? ?]&?&?). rewrite !andb_true_iff. split_and!.
    + rewrite bool_decide_eq_false_2; [done|]. intros ->. simpl in *. lia.
    + by apply Nat.leb_le.
    + by apply bool_decide_eq_true_2.
    + by apply bool_decide_eq_true_2.
Qed.

Lemma camera_jpeg_limit : (Z.of_nat MAX_CAMERA_JPEG_BYTES < 256 ^ 4)%Z.
Proof. unfold MAX_CAMERA_JPEG_BYTES. rewrite Z2Nat.id by lia. lia. Qed.

Lemma Ok_inj {E A} (a b : A) : @Ok E A a = Ok b → a = b.
Proof. by intros [= ->]. Qed.

Lemma decode_encode_photo thumbnail jpeg payload :
  encode_photo_payload thumbnail jpeg = Ok payload → decode_photo_payload payload = Ok (thumbnail, jpeg).
Proof.
  unfold encode_photo_payload. destruct (negb _ || negb _) eqn:Hg; [done|]. intros <-%Ok_inj. unbool_hyps.
  match goal with H : jpeg_ok _ = true |- _ => apply jpeg_ok_iff in H as ([Hj1 Hj2]&Hs&He) end.
  pose proof camera_jpeg_limit as Hlim.
  match goal with |- decode_photo_payload ?p = _ => set (payload := p) end.
  assert (take 4 payload = CAMERA_PHOTO_MAGIC) as Hm by (unfold payload; by rewrite take_app_length').
  assert (le_at 4 2 payload = 1%Z) as Hv.
  { unfold payload. rewrite (le_at_pre CAMERA_PHOTO_MAGIC 2 1); [done|done|lia]. }
  assert (le_at 6 2 payload = Z.of_nat CAMERA_PHOTO_HEADER_BYTES) as Hh.
  { unfold payload. rewrite app_assoc. rewrite (le_at_pre _ 2 (Z.of_nat CAMERA_PHOTO_HEADER_BYTES)); [done|done|].
    unfold CAMERA_PHOTO_HEADER_BYTES. lia. }
  assert (le_at 8 4 payload = CAMERA_FRAME_BYTES) as Ht.
  { unfold payload. rewrite 2 app_assoc. rewrite (le_at_pre _ 4 CAMERA_FRAME_BYTES); [done|done|].
    unfold CAMERA_FRAME_BYTES, CAMERA_WIDTH, CAMERA_HEIGHT, CAMERA_PIXEL_BYTES. lia. }
  assert (le_at 12 4 payload = Z.of_nat (length jpeg)) as Hl.
  { unfold payload. rewrite 3 app_assoc. rewrite (le_at_pre _ 4 (Z.of_nat (length jpeg))); [done|done|lia]. }
  assert (drop CAMERA_PHOTO_HEADER_BYTES payload = thumbnail ++ jpeg) as Hd.
  { unfold payload. rewrite !app_assoc. rewrite <- (app_assoc _ thumbnail). apply drop_app_length'.
    by rewrite !length_app, !length_le_bytes. }
  assert (length payload = 16 + length thumbnail + length jpeg)%nat as Hlen.
  { unfold payload. rewrite !length_app, !length_le_bytes. simpl. lia. }
  clearbody payload. unfold decode_photo_payload. rewrite Hm, Hv, Hh, Ht, Hl, Hd, Hlen.
  rewrite (proj2 (Nat.ltb_ge _ _)) by (unfold CAMERA_PHOTO_HEADER_BYTES; lia).
  rewrite bool_decide_eq_true_2 by done. rewrite !Z.eqb_refl. cbn [negb orb].
  rewrite (proj2 (Z.eqb_neq _ _)) by lia. rewrite (proj2 (Z.ltb_ge _ _)) by lia.
  rewrite (proj2 (Z.eqb_eq _ _)) by (unfold CAMERA_PHOTO_HEADER_BYTES; lia). cbn [negb orb].
  rewrite take_app_length', drop_app_length' by lia.
  by rewrite !bool_decide_eq_true_2 by done.
Qed.

Lemma encode_decode_photo thumbnail jpeg payload :
  decode_photo_payload payload = Ok (thumbnail, jpeg) → encode_photo_payload thumbnail jpeg = Ok payload.
Proof.
  unfold decode_photo_payload. destruct (_ || _) eqn:Hg; [done|]. unbool_hyps.
  destruct (negb (le_at 8 4 payload =? CAMERA_FRAME_BYTES)%Z || _ || _ || _) eqn:Hg2; [done|]. unbool_hyps.
  destruct (negb _ || negb _) eqn:Hg3; [done|]. unbool_hyps. intros [= Ht Hj].
  rename H2 into Hm, H1 into Hv, H0 into Hh, H3 into Hts, H4 into Hlen. rewrite Hj in *. rewrite Hts in *.
  assert (0 ≤ le_at 12 4 payload)%Z by apply le_value_range.
  assert (CAMERA_FRAME_BYTES = 108800)%Z as Hf by done. unfold CAMERA_PHOTO_HEADER_BYTES in *.
  assert (length jpeg = Z.to_nat (le_at 12 4 payload)) as Hjl by (rewrite <- Hj, !length_drop; lia).
  assert (length thumbnail = Z.to_nat CAMERA_FRAME_BYTES) as Htl by (rewrite <- Ht, length_take, length_drop; lia).
  assert (jpeg_ok jpeg = true) as Hok by (apply jpeg_ok_iff; split_and!; [lia|lia|done..]).
  unfold encode_photo_payload. rewrite Hok, Htl, Hjl, !Z2Nat.id, Z.eqb_refl by lia. cbn [negb orb]. f_equal.
  assert (payload = take 4 payload ++ le_bytes 2 (le_at 4 2 payload) ++ le_bytes 2 (le_at 6 2 payload)
    ++ le_bytes 4 (le_at 8 4 payload) ++ le_bytes 4 (le_at 12 4 payload) ++ drop 16 payload) as Hp.
  { rewrite <- (le_at_split 12 4), <- (le_at_split 8 4), <- (le_at_split 6 2), <- (le_at_split 4 2) by lia.
    by rewrite take_drop. }
  rewrite Hm, Hv, Hh, Hts, <- (take_drop (Z.to_nat CAMERA_FRAME_BYTES) (drop 16 payload)), Ht, Hj in Hp. by symmetry.
Qed.
