(* ===== verification/CapabilityClients.v ===== *)
(** * The clients of the device services (crates/cp0-appd/src/{audio,camera,document,gpio,network,radio}_client.rs)

    How the application service talks to the services behind the capabilities:
    one request per connection, a response that must carry the number of the
    request and an outcome of the right kind.  Each service is a parameter, an
    instance of [Daemon] or [FdDaemon]: its JSON coding and what it answers to
    the bytes of a request, from and to a state that all services share.
    Opening a blob of the private storage as a descriptor is here as well.

    The lemmas say what an accepted answer is like, whatever the service does:
    it passed the checks of the protocol and it answers the request. *)

From S2P Require Import Prelude RustStr Bytes HostFs Framing StorageProtocol StorageClient PhotoLibrary NetworkProtocol Descriptor DocumentPrompt DocumentProtocol AudioProtocol GpioProtocol RadioProtocol CameraProtocol.

(** A service behind a socket, and one whose answers may carry a descriptor. *)
Class Daemon (C Req Resp : Type) := {
  daemon_to_vec : Req → option (list ascii);
  daemon_from_slice : list ascii → option Resp;
  daemon_call : list ascii → SM C IoError Reader;
}.
Class FdDaemon (C Req Resp : Type) := {
  fd_daemon_to_vec : Req → option (list ascii);
  fd_daemon_from_slice : list ascii → option Resp;
  fd_daemon_call : list ascii → SM C IoError FdReader;
}.

(** ** Network *)

Record NetworkHttpResponse := mkNetworkHttpResponse { nh_status_code : Z; nh_body_base64 : string }.

Inductive NetworkClientError :=
  | NceIo (e : IoError) | NceProtocol (e : NetworkProtocolError) | NceMismatchedRequestId
  | NceService (code : NetworkErrorCode) | NceEmptyResponse.

Section network.
  Context {C : Type} `{!Daemon C NetworkRequest NetworkResponse}.

Definition NetworkClient_exchange (request : NetworkRequest) : SM C NetworkClientError NetworkHttpResponse :=
  let+ written := sm_lift (map_err NceProtocol (network_write_request daemon_to_vec request)) in
  let+ reader := sm_map_err NceIo (daemon_call written) in
  let+ read := sm_lift (map_err NceProtocol (network_read_response daemon_from_slice reader).1) in
  let+ response := sm_lift (ok_or read NceEmptyResponse) in
  if negb (np_request_id response =? nr_request_id request)%Z then sm_err NceMismatchedRequestId
  else
    match np_outcome response with
    | NoOk status_code body => sm_ret (mkNetworkHttpResponse status_code body)
    | NoError code _ => sm_err (NceService code)
    end.

Definition NetworkClient_http_get (id : Z) (url : string) := NetworkClient_exchange (NetworkRequest_http_get id url).
Definition NetworkClient_http_get_range (id : Z) (url : string) (offset length : Z) :=
  NetworkClient_exchange (NetworkRequest_http_get_range id url offset length).

End network.

(** ** Audio *)

Inductive AudioClientError :=
  | AceIo (e : IoError) | AceProtocol (e : AudioProtocolError) | AceEmptyResponse | AceMismatchedRequestId
  | AceMismatchedFrameCount | AceService (code : AudioErrorCode).

Section audio.
  Context {C : Type} `{!Daemon C AudioRequest AudioResponse}.

Definition AudioClient_exchange (request : AudioRequest) : SM C AudioClientError AudioOutcome :=
  let+ written := sm_lift (map_err AceProtocol (audio_write_request daemon_to_vec request)) in
  let+ reader := sm_map_err AceIo (daemon_call written) in
  let+ read := sm_lift (map_err AceProtocol (audio_read_response daemon_from_slice reader).1) in
  let+ response := sm_lift (ok_or read AceEmptyResponse) in
  if negb (ap_request_id response =? ar_request_id request)%Z then sm_err AceMismatchedRequestId
  else sm_ret (ap_outcome response).

(** The answer to a playback of [samples] in frames of [frame_bytes]. *)
Definition played_frames (frame_bytes : nat) (samples : list ascii) (outcome : AudioOutcome) : SM C AudioClientError Z :=
  match outcome with
  | AoPlayed frames =>
      if (frames * Z.of_nat frame_bytes =? Z.of_nat (length samples))%Z then sm_ret frames
      else sm_err AceMismatchedFrameCount
  | AoError code _ => sm_err (AceService code)
  | _ => sm_err AceMismatchedFrameCount
  end.

Definition AudioClient_play (id : Z) (samples : list ascii) : SM C AudioClientError Z :=
  let+ outcome := AudioClient_exchange (AudioRequest_playback id samples) in
  played_frames AUDIO_SAMPLE_BYTES samples outcome.
Definition AudioClient_play_stereo_48k (id : Z) (samples : list ascii) : SM C AudioClientError Z :=
  let+ outcome := AudioClient_exchange (AudioRequest_playback_stereo_48k id samples) in
  played_frames MUSIC_FRAME_BYTES samples outcome.

Definition AudioClient_capture (id frames : Z) : SM C AudioClientError (list ascii) :=
  let+ outcome := AudioClient_exchange (AudioRequest_capture id frames) in
  match outcome with
  | AoCaptured samples64 =>
      let+ samples := sm_lift (map_err AceProtocol (decode_samples samples64)) in
      if negb (Z.of_nat (length samples) =? frames * Z.of_nat AUDIO_SAMPLE_BYTES)%Z then sm_err AceMismatchedFrameCount
      else sm_ret samples
  | AoError code _ => sm_err (AceService code)
  | _ => sm_err AceMismatchedFrameCount
  end.

Definition AudioClient_play_key_click (id : Z) : SM C AudioClientError unit :=
  let+ outcome := AudioClient_exchange (AudioRequest_play_key_click id) in
  match outcome with
  | AoPlayed frames => if (frames =? KEY_CLICK_FRAMES)%Z then sm_ret tt else sm_err AceMismatchedFrameCount
  | AoError code _ => sm_err (AceService code)
  | _ => sm_err AceMismatchedFrameCount
  end.

End audio.

(** ** GPIO *)

Inductive GpioClientError :=
  | GceIo (e : IoError) | GceProtocol (e : GpioProtocolError) | GceEmptyResponse | GceMismatchedRequestId
  | GceMismatchedOutcome | GceService (code : GpioErrorCode).

Section gpio.
  Context {C : Type} `{!Daemon C GpioRequest GpioResponse}.

Definition GpioClient_exchange (request : GpioRequest) : SM C GpioClientError GpioOutcome :=
  let+ written := sm_lift (map_err GceProtocol (gpio_write_request daemon_to_vec request)) in
  let+ reader := sm_map_err GceIo (daemon_call written) in
  let+ read := sm_lift (map_err GceProtocol (gpio_read_response daemon_from_slice reader).1) in
  let+ response := sm_lift (ok_or read GceEmptyResponse) in
  if negb (gp_request_id response =? gr_request_id request)%Z then sm_err GceMismatchedRequestId
  else sm_ret (gp_outcome response).

Definition GpioClient_read (id : Z) (line : GpioLine) : SM C GpioClientError bool :=
  let+ outcome := GpioClient_exchange (GpioRequest_read id line) in
  match outcome with
  | GoValue returned value => if bool_decide (returned = line) then sm_ret value else sm_err GceMismatchedOutcome
  | GoError code _ => sm_err (GceService code)
  | _ => sm_err GceMismatchedOutcome
  end.

Definition GpioClient_write (id : Z) (line : GpioLine) (value : bool) : SM C GpioClientError unit :=
  let+ outcome := GpioClient_exchange (GpioRequest_write id line value) in
  match outcome with
  | GoWritten returned_line returned_value =>
      if bool_decide (returned_line = line) && Bool.eqb returned_value value then sm_ret tt else sm_err GceMismatchedOutcome
  | GoError code _ => sm_err (GceService code)
  | _ => sm_err GceMismatchedOutcome
  end.

End gpio.

(** ** Radio *)

Record ReceivedRadioPacket := mkReceivedRadioPacket { rk_payload : list ascii; rk_rssi_dbm : Z; rk_snr_quarter_db : Z }.

Inductive RadioClientError :=
  | RceIo (e : IoError) | RceProtocol (e : RadioProtocolError) | RceEmptyResponse | RceMismatchedRequestId
  | RceMismatchedOutcome | RceService (code : RadioErrorCode).

Section radio.
  Context {C : Type} `{!Daemon C RadioRequest RadioResponse}.

Definition RadioClient_exchange (request : RadioRequest) : SM C RadioClientError RadioOutcome :=
  let+ written := sm_lift (map_err RceProtocol (radio_write_request daemon_to_vec request)) in
  let+ reader := sm_map_err RceIo (daemon_call written) in
  let+ read := sm_lift (map_err RceProtocol (radio_read_response daemon_from_slice reader).1) in
  let+ response := sm_lift (ok_or read RceEmptyResponse) in
  if negb (rp_request_id response =? rr_request_id request)%Z then sm_err RceMismatchedRequestId
  else sm_ret (rp_outcome response).

Definition RadioClient_send (id : Z) (payload : list ascii) : SM C RadioClientError Z :=
  let+ outcome := RadioClient_exchange (RadioRequest_send_lora id payload) in
  match outcome with
  | RoLoraSent n => if (n =? Z.of_nat (length payload))%Z then sm_ret n else sm_err RceMismatchedOutcome
  | RoError code _ => sm_err (RceService code)
  | _ => sm_err RceMismatchedOutcome
  end.

Definition RadioClient_receive (id timeout_ms : Z) : SM C RadioClientError (option ReceivedRadioPacket) :=
  let+ outcome := RadioClient_exchange (RadioRequest_receive_lora id timeout_ms) in
  match outcome with
  | RoLoraPacket payload64 rssi_dbm snr_quarter_db =>
      let+ payload := sm_lift (map_err RceProtocol (radio_decode_payload payload64)) in
      sm_ret (Some (mkReceivedRadioPacket payload rssi_dbm snr_quarter_db))
  | RoLoraNoPacket => sm_ret None
  | RoError code _ => sm_err (RceService code)
  | _ => sm_err RceMismatchedOutcome
  end.

End radio.

(** ** Documents *)

Record OpenedDocument := mkOpenedDocument { od_summary : DocumentSummary; od_descriptor : OwnedFd }.

Inductive DocumentClientError :=
  | DceIo (e : IoError) | DceProtocol (e : DocumentProtocolError) | DceEmptyResponse | DceMismatchedRequestId
  | DceMissingDescriptor | DceUnexpectedDescriptor | DceMismatchedDocument | DceService (code : DocumentErrorCode).

Section documents.
  Context {C : Type} `{!FdDaemon C DocumentRequest DocumentResponse}.

Definition DocumentClient_exchange (request : DocumentRequest)
    : SM C DocumentClientError (DocumentOutcome * option OwnedFd) :=
  let+ written := sm_lift (map_err DceProtocol (document_write_request fd_daemon_to_vec request)) in
  let+ reader := sm_map_err DceIo (fd_daemon_call written) in
  let+ received := sm_lift (map_err DceProtocol (recv_frame_with_fd MAX_DOCUMENT_FRAME_BYTES reader)) in
  if bool_decide (received.1 = []) then sm_err DceEmptyResponse
  else
    let+ response := sm_lift (map_err DceProtocol (document_decode_response fd_daemon_from_slice received.1)) in
    if negb (dp_request_id response =? dr_request_id request)%Z then sm_err DceMismatchedRequestId
    else sm_ret (dp_outcome response, received.2).

Definition DocumentClient_list (id : Z) : SM C DocumentClientError (list DocumentSummary) :=
  let+ answer := DocumentClient_exchange (document_request id DcList) in
  match answer.2 with
  | Some _ => sm_err DceUnexpectedDescriptor
  | None =>
      match answer.1 with
      | DoDocuments documents => sm_ret documents
      | DoError code _ => sm_err (DceService code)
      | DoOpened _ => sm_err DceUnexpectedDescriptor
      end
  end.

Definition DocumentClient_open (id : Z) (document : string) : SM C DocumentClientError OpenedDocument :=
  let+ answer := DocumentClient_exchange (document_request id (DcOpen document)) in
  match answer.1 with
  | DoOpened summary =>
      if negb (bool_decide (document_id summary = document)) then sm_err DceMismatchedDocument
      else
        let+ descriptor := sm_lift (ok_or answer.2 DceMissingDescriptor) in
        sm_ret (mkOpenedDocument summary descriptor)
  | DoError code _ =>
      match answer.2 with Some _ => sm_err DceUnexpectedDescriptor | None => sm_err (DceService code) end
  | DoDocuments _ => sm_err DceMissingDescriptor
  end.

End documents.

(** ** Camera *)

Record CapturedCameraPhoto := mkCapturedCameraPhoto { cph_descriptor : OwnedFd; cph_jpeg_size_bytes : Z }.

Inductive CameraClientError :=
  | CceIo (e : IoError) | CceProtocol (e : CameraProtocolError) | CceEmptyResponse | CceMismatchedRequestId
  | CceMissingDescriptor | CceUnexpectedDescriptor | CceInvalidDescriptor | CceService (code : CameraErrorCode).

Definition validate_descriptor (descriptor : OwnedFd) (expected_size : Z) : result CameraClientError unit :=
  let? status := map_err CceIo (fd_fstat descriptor) in
  let? flags := map_err CceIo (fd_getfl descriptor) in
  if negb (bool_decide (status.1 = RegularFile)) || (expected_size =? 0)%Z
     || (Z.of_nat CAMERA_PHOTO_HEADER_BYTES + CAMERA_FRAME_BYTES + Z.of_nat MAX_CAMERA_JPEG_BYTES <? expected_size)%Z
     || negb (status.2 =? expected_size)%Z || negb (Z.land flags O_ACCMODE =? O_RDONLY)%Z
  then Err CceInvalidDescriptor
  else if fully_sealed descriptor then Ok tt else Err CceInvalidDescriptor.

(** The size of the file that an outcome announces. *)
Definition announced_size (outcome : CameraOutcome) : option Z :=
  match outcome with
  | CoCaptured _ _ _ _ => Some CAMERA_FRAME_BYTES
  | CoPhotoCaptured _ _ _ jpeg_size => Some (Z.of_nat CAMERA_PHOTO_HEADER_BYTES + CAMERA_FRAME_BYTES + jpeg_size)%Z
  | CoError _ _ => None
  end.

Section camera.
  Context {C : Type} `{!FdDaemon C CameraRequest CameraResponse}.

Definition CameraClient_exchange (request : CameraRequest) : SM C CameraClientError (OwnedFd * CameraOutcome) :=
  let+ written := sm_lift (map_err CceProtocol (camera_write_request fd_daemon_to_vec request)) in
  let+ reader := sm_map_err CceIo (fd_daemon_call written) in
  let+ received := sm_lift (map_err CceProtocol (recv_frame_with_fd MAX_CAMERA_PROTOCOL_FRAME_BYTES reader)) in
  if bool_decide (received.1 = []) then sm_err CceEmptyResponse
  else
    let+ response := sm_lift (map_err CceProtocol (camera_decode_response fd_daemon_from_slice received.1)) in
    if negb (cp_request_id response =? cr_request_id request)%Z then sm_err CceMismatchedRequestId
    else
      match cp_outcome response with
      | CoError code _ =>
          match received.2 with Some _ => sm_err CceUnexpectedDescriptor | None => sm_err (CceService code) end
      | outcome =>
          let+ descriptor := sm_lift (ok_or received.2 CceMissingDescriptor) in
          let+ expected_size := sm_lift (expect (announced_size outcome)) in
          let+ _ := sm_lift (validate_descriptor descriptor expected_size) in
          sm_ret (descriptor, outcome)
      end.

Definition CameraClient_capture (id : Z) : SM C CameraClientError OwnedFd :=
  let+ captured := CameraClient_exchange (camera_request id CaptureRgb565) in
  match captured.2 with
  | CoCaptured _ _ _ _ => sm_ret captured.1
  | _ => sm_err CceInvalidDescriptor
  end.

Definition CameraClient_capture_photo (id : Z) : SM C CameraClientError CapturedCameraPhoto :=
  let+ captured := CameraClient_exchange (camera_request id CamCapturePhoto) in
  match captured.2 with
  | CoPhotoCaptured _ _ _ jpeg_size => sm_ret (mkCapturedCameraPhoto captured.1 jpeg_size)
  | _ => sm_err CceInvalidDescriptor
  end.

End camera.

(** ** Blobs of the private storage as descriptors *)

Definition validate_blob_descriptor (descriptor : OwnedFd) (expected_bytes : Z) : result StorageClientError unit :=
  let? status := map_err CeIo (fd_fstat descriptor) in
  let? flags := map_err CeIo (fd_getfl descriptor) in
  if negb (bool_decide (status.1 = RegularFile)) || negb (status.2 =? expected_bytes)%Z
     || negb (Z.land flags O_ACCMODE =? O_RDONLY)%Z
  then Err CeInvalidDescriptor else Ok tt.

Definition storage_decode_response_frame (from_slice : list ascii → option StorageResponse) (frame : list ascii)
    : result StorageProtocolError StorageResponse :=
  let? response := ok_or (from_slice frame) SpJson in
  let? _ := StorageResponse_validate response in
  Ok response.

Section blobs.
  Context {C : Type} `{!FdDaemon C StorageRequest StorageResponse}.

Definition exchange_open_blob (request : StorageRequest) (expected_bytes : Z)
    : SM C StorageClientError (option OwnedFd) :=
  let+ written := sm_lift (map_err CeProtocol (storage_write_request fd_daemon_to_vec request)) in
  let+ reader := sm_map_err CeIo (fd_daemon_call written) in
  let+ received := sm_lift (map_err (λ _ : DocumentProtocolError, CeIo OtherIo)
                              (recv_frame_with_fd MAX_DOCUMENT_FRAME_BYTES reader)) in
  let+ response := sm_lift (map_err CeProtocol (storage_decode_response_frame fd_daemon_from_slice received.1)) in
  if negb (sp_request_id response =? sr_request_id request)%Z then sm_err CeMismatchedRequestId
  else
    match sp_outcome response with
    | SoBlobOpened size =>
        let+ descriptor := sm_lift (ok_or received.2 CeMissingDescriptor) in
        if negb (size =? expected_bytes)%Z then sm_err CeMismatchedOutcome
        else
          let+ _ := sm_lift (validate_blob_descriptor descriptor expected_bytes) in
          sm_ret (Some descriptor)
    | SoNotFound => match received.2 with Some _ => sm_err CeUnexpectedDescriptor | None => sm_ret None end
    | SoError code _ => match received.2 with Some _ => sm_err CeUnexpectedDescriptor | None => sm_err (CeService code) end
    | _ => sm_err (match received.2 with Some _ => CeUnexpectedDescriptor | None => CeMismatchedOutcome end)
    end.

Definition StorageClient_open_blob (id : Z) (app : string) (quota : Z) (key : string) (expected_bytes : Z)
    : SM C StorageClientError (option OwnedFd) :=
  exchange_open_blob (storage_request id app quota (ScOpenBlob key expected_bytes)) expected_bytes.

End blobs.

(** ** What an accepted answer is like *)

Lemma sm_lift_err_Ok {S E F A} (f : E → F) (r : result E A) a s s' :
  @sm_lift S F A (map_err f r) s = (Ok a, s') → r = Ok a ∧ s' = s.
Proof. unfold sm_lift. destruct r; simpl; intros [= -> ->]; done. Qed.
Lemma sm_lift_opt_Ok {S E A} (o : option A) (e : E) a s s' :
  @sm_lift S E A (ok_or o e) s = (Ok a, s') → o = Some a ∧ s' = s.
Proof. unfold sm_lift. destruct o; simpl; intros [= -> ->]; done. Qed.

(** A message that was read passed its check. *)
Lemma read_message_Ok {E M} `{FrameErrors E} max (validate : M → result E unit) from_slice r m :
  (read_message max validate from_slice r).1 = Ok (Some m) → validate m = Ok tt.
Proof.
  unfold read_message. destruct (read_frame max r) as [[[frame|]|e|] r']; simpl; try done.
  destruct (from_slice frame) as [m'|]; [|done]. simpl. destruct (validate m') as [[]| |] eqn:Hv; [|done..].
  by intros [= <-].
Qed.

(** The common end of an exchange: a checked response to this request. *)
Ltac exchange_ok H :=
  apply sm_bind_Ok in H as (?&?&[_ ->]%sm_lift_err_Ok&H);
  apply sm_bind_Ok in H as (?&?&_&H);
  apply sm_bind_Ok in H as (?&?&[Hread ->]%sm_lift_err_Ok&H);
  apply sm_bind_Ok in H as (response&?&[-> ->]%sm_lift_opt_Ok&H);
  apply read_message_Ok in Hread;
  destruct (negb _) eqn:Hid in H; [done|]; unbool_hyps.

Lemma network_answer_valid {C} `{!Daemon C NetworkRequest NetworkResponse} request answer c c' :
  NetworkClient_exchange request c = (Ok answer, c') →
  (100 ≤ nh_status_code answer ≤ 599)%Z ∧ is_ok (network_decode_base64 (nh_body_base64 answer)) = true.
Proof.
  unfold NetworkClient_exchange. intros H. exchange_ok H. unfold NetworkResponse_validate in Hread.
  destruct (network_version_check _); [|done..]. simpl in Hread.
  destruct (np_outcome response) as [status body|code m]; [|done]. injection H as <- <-. simpl.
  destruct (negb _) eqn:Hs; [done|]. unbool_hyps. by destruct (network_decode_base64 body).
Qed.

Section answers.
  Context {C : Type}.

Lemma audio_answer_valid `{!Daemon C AudioRequest AudioResponse} request outcome c c' :
  AudioClient_exchange request c = (Ok outcome, c') →
  AudioResponse_validate (audio_response (ar_request_id request) outcome) = Ok tt.
Proof.
  unfold AudioClient_exchange. intros H. exchange_ok H. injection H as <- <-.
  unfold AudioResponse_validate in *. cbn. by destruct (audio_version_check (ap_protocol_version response)).
Qed.

Lemma played_valid `{!Daemon C AudioRequest AudioResponse} request frame_bytes samples frames c c' :
  (let+ outcome := AudioClient_exchange request in played_frames frame_bytes samples outcome) c = (Ok frames, c') →
  (0 ≠ frames ∧ frames ≤ Z.of_nat MAX_MUSIC_FRAMES)%Z ∧ (frames * Z.of_nat frame_bytes = Z.of_nat (length samples))%Z.
Proof.
  intros (outcome&c1&Hv%audio_answer_valid&H)%sm_bind_Ok. destruct outcome as [n| | | |]; try done. simpl in H.
  destruct (_ =? _)%Z eqn:Hn; [|done]. injection H as -> _. unfold AudioResponse_validate in Hv. simpl in Hv.
  destruct (_ || _) eqn:Hb in Hv; [done|]. unbool_hyps. split; [lia|done].
Qed.

Lemma captured_valid `{!Daemon C AudioRequest AudioResponse} id frames samples c c' :
  AudioClient_capture id frames c = (Ok samples, c') → decode_samples (encode_base64 samples) = Ok samples.
Proof.
  intros (outcome&c1&_&H)%sm_bind_Ok. destruct outcome; try done.
  apply sm_bind_Ok in H as (s&?&[Hs ->]%sm_lift_err_Ok&H). destruct (negb _); [done|]. injection H as -> _.
  by apply decode_bounded_samples_iff in Hs as Hs'; apply decode_bounded_samples_iff; destruct Hs' as (_&?&?).
Qed.

Lemma radio_answer_valid `{!Daemon C RadioRequest RadioResponse} request outcome c c' :
  RadioClient_exchange request c = (Ok outcome, c') →
  RadioResponse_validate (radio_response (rr_request_id request) outcome) = Ok tt.
Proof.
  unfold RadioClient_exchange. intros H. exchange_ok H. injection H as <- <-.
  unfold RadioResponse_validate in *. cbn. by destruct (radio_version_check (rp_protocol_version response)).
Qed.

Lemma radio_sent_valid `{!Daemon C RadioRequest RadioResponse} id payload n c c' :
  RadioClient_send id payload c = (Ok n, c') →
  (n ≠ 0 ∧ n ≤ Z.of_nat MAX_LORA_PAYLOAD_BYTES ∧ n = Z.of_nat (length payload))%Z.
Proof.
  intros (outcome&c1&Hv%radio_answer_valid&H)%sm_bind_Ok. destruct outcome as [k| | |]; try done.
  destruct (_ =? _)%Z eqn:Hn; [|done]. injection H as -> _. unfold RadioResponse_validate in Hv. simpl in Hv.
  destruct (_ || _) eqn:Hb in Hv; [done|]. unbool_hyps. lia.
Qed.

Lemma radio_packet_valid `{!Daemon C RadioRequest RadioResponse} id timeout packet c c' :
  RadioClient_receive id timeout c = (Ok (Some packet), c') →
  radio_decode_payload (encode_base64 (rk_payload packet)) = Ok (rk_payload packet) ∧ rssi_in_range (rk_rssi_dbm packet) = true.
Proof.
  intros (outcome&c1&Hv%radio_answer_valid&H)%sm_bind_Ok. destruct outcome as [k|p r s| |]; try done.
  apply sm_bind_Ok in H as (payload&?&[Hp ->]%sm_lift_err_Ok&H). injection H as <- _. simpl.
  unfold RadioResponse_validate in Hv. simpl in Hv. rewrite Hp in Hv. simpl in Hv.
  destruct (rssi_in_range r); [|done]. split; [|done]. apply radio_payload_iff in Hp as [_ ?]. by apply radio_payload_iff.
Qed.

Lemma document_answer_valid `{!FdDaemon C DocumentRequest DocumentResponse} request answer c c' :
  DocumentClient_exchange request c = (Ok answer, c') →
  DocumentResponse_validate (document_response (dr_request_id request) answer.1) = Ok tt.
Proof.
  unfold DocumentClient_exchange. intros H. apply sm_bind_Ok in H as (?&?&[_ ->]%sm_lift_err_Ok&H).
  apply sm_bind_Ok in H as (?&?&_&H). apply sm_bind_Ok in H as (received&?&_&H). destruct (bool_decide _); [done|].
  apply sm_bind_Ok in H as (response&?&[Hd ->]%sm_lift_err_Ok&H). destruct (negb _); [done|]. injection H as <- _. simpl.
  apply document_decode_Ok in Hd. unfold DocumentResponse_validate in *. cbn.
  by destruct (document_version_check (dp_protocol_version response)).
Qed.

Lemma document_opened_valid `{!FdDaemon C DocumentRequest DocumentResponse} id document opened c c' :
  DocumentClient_open id document c = (Ok opened, c') →
  document_id (od_summary opened) = document ∧ DocumentSummary_validate (od_summary opened) = true.
Proof.
  intros (answer&c1&Hv%document_answer_valid&H)%sm_bind_Ok. destruct answer as [[docs|summary|code m] fd]; simpl in *.
  - done.
  - destruct (negb (bool_decide _)) eqn:Hd; [done|]. unbool_hyps.
    apply sm_bind_Ok in H as (?&?&[_ ->]%sm_lift_opt_Ok&H). injection H as <- _. simpl. split; [done|].
    unfold DocumentResponse_validate in Hv. simpl in Hv. by destruct (DocumentSummary_validate summary).
  - by destruct fd.
Qed.

(** The answers of the private storage. *)
Lemma storage_answer_valid (daemon : list ascii → SM C IoError Reader) to_vec from_slice request outcome c c' :
  StorageClient_exchange daemon to_vec from_slice request c = (Ok outcome, c') →
  StorageResponse_validate (storage_response (sr_request_id request) outcome) = Ok tt.
Proof.
  unfold StorageClient_exchange. intros H. exchange_ok H. injection H as <- <-.
  unfold StorageResponse_validate in *. cbn. by destruct (storage_version_check (sp_protocol_version response)).
Qed.

Lemma value_of_outcome_valid outcome value (c c' : C) :
  value_of_outcome outcome c = (Ok (Some value), c') → decode_value (encode_base64 value) = Ok value.
Proof.
  destruct outcome; try done. simpl. intros H. apply sm_bind_Ok in H as (v&?&[Hv ->]%sm_lift_err_Ok&H). injection H as -> _.
  apply decode_value_Ok in Hv as [_ Hv]. by apply decode_value_encode.
Qed.

End answers.
