(* ===== verification/PhotoView.v ===== *)
(** * Views of a photo (crates/cp0-appd/src/photo_view.rs)

    The picture that the gallery shows of a camera photo at one of three zoom
    levels, cut out of the original, and the cache of the last original that was
    decoded.  The JPEG decoder (crate jpeg_decoder) is a parameter.

    The theorem: rendering never indexes outside the pixels, the view stays
    inside the picture, and every pixel shown is the pixel of the original that
    the zoom and the pan select. *)

From S2P Require Import Prelude RustStr Bytes HostFs Package StorageProtocol StorageClient PhotoLibrary Descriptor DocumentProtocol CameraProtocol CapabilityClients.

Definition MAX_PHOTO_VIEW_ZOOM_LEVEL : Z := 2.
Definition MIN_PHOTO_VIEW_PAN : Z := -1000.
Definition MAX_PHOTO_VIEW_PAN : Z := 1000.

Inductive PhotoViewError := PvLibrary (e : PhotoImportError) | PvStorage (e : StorageClientError) | PvMissingOriginal | PvInvalidJpeg.

Record DecodedPhoto := mkDecodedPhoto {
  dph_width : Z;
  dph_height : Z;
  dph_channels : Z;
  dph_pixels : list ascii;
}.

Record PhotoViewCache := mkPhotoViewCache { pv_photo_id : Z; pv_decoded : option DecodedPhoto }.
Definition PhotoViewCache_default : PhotoViewCache := mkPhotoViewCache 0 None.

(** ** Rendering *)

Definition fit_dimensions (source_width source_height target_width target_height : Z) : Z * Z :=
  if (source_height * target_width <? source_width * target_height)%Z
  then (target_width, Z.max (source_height * target_width / source_width) 1)
  else (Z.max (source_width * target_height / source_height) 1, target_height).

Definition pan_origin (maximum pan : Z) : Z :=
  let normalized := (Z.min (Z.max pan MIN_PHOTO_VIEW_PAN) MAX_PHOTO_VIEW_PAN - MIN_PHOTO_VIEW_PAN)%Z in
  (maximum * normalized / (MAX_PHOTO_VIEW_PAN - MIN_PHOTO_VIEW_PAN))%Z.

(** [photo.pixels[source]], as a number. *)
Definition sample (photo : DecodedPhoto) (source : Z) : result PhotoViewError Z :=
  match dph_pixels photo !! Z.to_nat source with Some b => Ok (byte_of b) | None => Panicked end.

Definition rgb_at (photo : DecodedPhoto) (source : Z) : result PhotoViewError (Z * Z * Z) :=
  if (dph_channels photo =? 1)%Z then
    let? luminance := sample photo source in
    Ok (luminance, luminance, luminance)
  else
    let? red := sample photo source in
    let? green := sample photo (source + 1) in
    let? blue := sample photo (source + 2) in
    Ok (red, green, blue).

Definition rgb565 (colour : Z * Z * Z) : Z :=
  let '(red, green, blue) := colour in
  Z.lor (Z.lor (Z.shiftl (Z.land red 248) 8) (Z.shiftl (Z.land green 252) 3)) (Z.shiftr blue 3).

(** One axis of the view: the size of the displayed picture, the first
    displayed position and the border. *)
Record Axis := mkAxis { ax_display : Z; ax_origin : Z; ax_letterbox : Z }.
Definition view_axis (display target pan : Z) : Axis :=
  mkAxis display (pan_origin (Z.max 0 (display - target)) pan) (Z.max 0 (target - display) / 2).

(** The position in the original of a position on the screen, if it is not in
    the border. *)
Definition source_position (a : Axis) (size target : Z) : option Z :=
  if (target <? ax_letterbox a)%Z || (ax_letterbox a + ax_display a <=? target)%Z then None
  else Some (Z.min ((ax_origin a + target - ax_letterbox a) * size / ax_display a) (size - 1))%Z.

Definition view_axes (photo : DecodedPhoto) (zoom_level pan_x pan_y : Z) : Axis * Axis :=
  let '(display_width, display_height) :=
    if (zoom_level =? 0)%Z
    then fit_dimensions (dph_width photo) (dph_height photo) (Z.of_nat PHOTO_WIDTH) (Z.of_nat PHOTO_HEIGHT)
    else if (zoom_level =? 1)%Z then ((dph_width photo + 1) / 2, (dph_height photo + 1) / 2)%Z
    else (dph_width photo, dph_height photo) in
  (view_axis display_width (Z.of_nat PHOTO_WIDTH) pan_x, view_axis display_height (Z.of_nat PHOTO_HEIGHT) pan_y).

(** The two bytes that the loops leave at a position: zero in the border. *)
Definition view_pixel (photo : DecodedPhoto) (axes : Axis * Axis) (target_y target_x : nat)
    : result PhotoViewError (list ascii) :=
  match source_position axes.2 (dph_height photo) (Z.of_nat target_y),
        source_position axes.1 (dph_width photo) (Z.of_nat target_x) with
  | Some source_y, Some source_x =>
      let? colour := rgb_at photo ((source_y * dph_width photo + source_x) * dph_channels photo) in
      Ok (le_bytes 2 (rgb565 colour))
  | _, _ => Ok [zero; zero]
  end.

(** The loops fill the frame position by position. *)
Fixpoint collect_bytes {A} (f : A → result PhotoViewError (list ascii)) (l : list A) : result PhotoViewError (list ascii) :=
  match l with
  | [] => Ok []
  | x :: l => let? here := f x in let? rest := collect_bytes f l in Ok (here ++ rest)
  end.

Definition render_view (photo : DecodedPhoto) (zoom_level pan_x pan_y : Z) : result PhotoViewError (list ascii) :=
  let axes := view_axes photo zoom_level pan_x pan_y in
  collect_bytes (λ target_y, collect_bytes (view_pixel photo axes target_y) (seq 0 PHOTO_WIDTH)) (seq 0 PHOTO_HEIGHT).

(** ** The cache *)

Inductive PixelFormat := L8 | L16 | RGB24 | CMYK32.
Record JpegInfo := mkJpegInfo { ji_width : Z; ji_height : Z; ji_pixel_format : PixelFormat }.

(** [Decoder::decode] and [Decoder::info] on the bytes of a file. *)
Class JpegDecoder := { jpeg_decode : result IoError (list ascii) → option (list ascii * option JpegInfo) }.

Section cache.
  Context `{JpegDecoder} {C : Type} `{PhotoStorage C} `{!FdDaemon C StorageRequest StorageResponse}.

(** The pixels of a decoded original, checked against its metadata. *)
Definition decoded_photo (original : CameraOriginal) (file : result IoError (list ascii)) : result PhotoViewError DecodedPhoto :=
  let? decoded := ok_or (jpeg_decode file) PvInvalidJpeg in
  let? info := ok_or decoded.2 PvInvalidJpeg in
  let? channels := match ji_pixel_format info with L8 => Ok 1%Z | RGB24 => Ok 3%Z | _ => Err PvInvalidJpeg end in
  if negb (ji_width info =? co_width original)%Z || negb (ji_height info =? co_height original)%Z
     || negb (Z.of_nat (length decoded.1) =? ji_width info * ji_height info * channels)%Z
  then Err PvInvalidJpeg
  else Ok (mkDecodedPhoto (ji_width info) (ji_height info) channels decoded.1).

(** The decoded original of a photo: the cached one, or a new one to be cached. *)
Definition load_decoded (cache : PhotoViewCache) (request_id photo_id : Z) (original : CameraOriginal)
    : SM C PhotoViewError DecodedPhoto :=
  match pv_decoded cache with
  | Some decoded =>
      if (pv_photo_id cache =? photo_id)%Z then sm_ret decoded
      else
        let+ descriptor := sm_map_err PvStorage (StorageClient_open_blob request_id PHOTO_LIBRARY_ID
                             PHOTO_LIBRARY_QUOTA_BYTES (original_blob_key photo_id) (co_jpeg_size_bytes original)) in
        let+ descriptor := sm_lift (ok_or descriptor PvMissingOriginal) in
        sm_lift (decoded_photo original (fd_contents descriptor))
  | None =>
      let+ descriptor := sm_map_err PvStorage (StorageClient_open_blob request_id PHOTO_LIBRARY_ID
                           PHOTO_LIBRARY_QUOTA_BYTES (original_blob_key photo_id) (co_jpeg_size_bytes original)) in
      let+ descriptor := sm_lift (ok_or descriptor PvMissingOriginal) in
      sm_lift (decoded_photo original (fd_contents descriptor))
  end.

(** The frame, and the cache to keep: an error leaves it as it was. *)
Definition PhotoViewCache_render (cache : PhotoViewCache) (request_id photo_id zoom_level pan_x pan_y : Z)
    : SM C PhotoViewError (option (list ascii) * PhotoViewCache) :=
  let+ original := sm_map_err PvLibrary (camera_original request_id photo_id) in
  match original with
  | None => sm_ret (None, cache)
  | Some original =>
      let+ decoded := load_decoded cache request_id photo_id original in
      let+ frame := sm_lift (render_view decoded zoom_level pan_x pan_y) in
      sm_ret (Some frame, mkPhotoViewCache photo_id (Some decoded))
  end.

End cache.

(** ** Lemmas *)

Section rendering.
  Local Open Scope Z_scope.

Record photo_wf (photo : DecodedPhoto) : Prop := {
  pw_width : 1 ≤ dph_width photo;
  pw_height : 1 ≤ dph_height photo;
  pw_channels : dph_channels photo = 1 ∨ dph_channels photo = 3;
  pw_pixels : Z.of_nat (length (dph_pixels photo)) = dph_width photo * dph_height photo * dph_channels photo;
}.

Lemma pan_origin_range maximum pan : 0 ≤ maximum → 0 ≤ pan_origin maximum pan ≤ maximum.
Proof.
  intros Hm. unfold pan_origin, MIN_PHOTO_VIEW_PAN, MAX_PHOTO_VIEW_PAN. split.
  - apply Z.div_pos; nia.
  - apply Z.div_le_upper_bound; nia.
Qed.

Lemma fit_positive w h tw th : 1 ≤ w → 1 ≤ h → 1 ≤ tw → 1 ≤ th → 1 ≤ (fit_dimensions w h tw th).1 ∧ 1 ≤ (fit_dimensions w h tw th).2.
Proof. intros. unfold fit_dimensions. case_match; simpl; lia. Qed.

(** A position that is shown lies inside the displayed picture and inside the
    original, so the cap of the source never acts. *)
Lemma source_position_in display target_size pan size target source :
  1 ≤ display → 1 ≤ size → 0 ≤ target < target_size →
  source_position (view_axis display target_size pan) size target = Some source →
  ∃ shown, 0 ≤ shown < display ∧ source = shown * size / display ∧ 0 ≤ source < size.
Proof.
  intros Hd Hs Ht. unfold source_position, view_axis. simpl. destruct (_ || _) eqn:Hb; [done|]. unbool_hyps.
  set (o := pan_origin _ _). set (lb := Z.max 0 _ / 2) in *. intros [= <-].
  pose proof (pan_origin_range (Z.max 0 (display - target_size)) pan ltac:(lia)) as Ho. fold o in Ho.
  assert (0 ≤ lb) by (apply Z.div_pos; lia).
  exists (o + target - lb). assert (0 ≤ o + target - lb < display) as Hr.
  { destruct (Z.le_gt_cases target_size display); [|lia].
    assert (lb = 0) by (unfold lb; rewrite Z.max_l by lia; done). lia. }
  assert ((o + target - lb) * size / display < size) by (apply Z.div_lt_upper_bound; nia).
  assert (0 ≤ (o + target - lb) * size / display) by (apply Z.div_pos; nia).
  split; [done|]. rewrite Z.min_l by lia. split; [done|lia].
Qed.

Lemma sample_ok photo source : 0 ≤ source < Z.of_nat (length (dph_pixels photo)) →
  ∃ b, sample photo source = Ok (byte_of b) ∧ dph_pixels photo !! Z.to_nat source = Some b.
Proof.
  intros Hs. destruct (lookup_lt_is_Some_2 (dph_pixels photo) (Z.to_nat source)) as [b Hb]; [lia|].
  exists b. unfold sample. by rewrite Hb.
Qed.

(** The colour of a pixel of the original. *)
Definition colour_of (photo : DecodedPhoto) (y x : Z) : result PhotoViewError (Z * Z * Z) :=
  rgb_at photo ((y * dph_width photo + x) * dph_channels photo).

Lemma colour_of_ok photo y x :
  photo_wf photo → 0 ≤ y < dph_height photo → 0 ≤ x < dph_width photo → ∃ c, colour_of photo y x = Ok c.
Proof.
  intros [Hw Hh Hc Hp] Hy Hx. unfold colour_of, rgb_at.
  assert (0 ≤ y * dph_width photo + x < dph_width photo * dph_height photo) by nia.
  destruct Hc as [Hc|Hc]; rewrite Hc in *; simpl.
  - destruct (sample_ok photo ((y * dph_width photo + x) * 1)) as (b&->&_); [lia|]. by eexists.
  - destruct (sample_ok photo ((y * dph_width photo + x) * 3)) as (b&->&_); [lia|]. simpl.
    destruct (sample_ok photo ((y * dph_width photo + x) * 3 + 1)) as (g&->&_); [lia|]. simpl.
    destruct (sample_ok photo ((y * dph_width photo + x) * 3 + 2)) as (l&->&_); [lia|]. by eexists.
Qed.

Lemma collect_bytes_ok {A} (f : A → result PhotoViewError (list ascii)) (l : list A) (n : nat) :
  (∀ x, x ∈ l → ∃ bs, f x = Ok bs ∧ length bs = n) →
  ∃ out, collect_bytes f l = Ok out ∧ length out = (length l * n)%nat ∧
    ∀ i x, l !! i = Some x → f x = Ok (take n (drop (i * n) out)).
Proof.
  induction l as [|x l IH]; intros Hf; simpl; [by exists []|].
  destruct (Hf x) as (bs&Hx&Hn); [by left|]. destruct IH as (out&->&Hlen&Hat); [intros y Hy; apply Hf; by right|].
  rewrite Hx. simpl. exists (bs ++ out). split_and!; [done|rewrite length_app; lia|]. intros [|i] y; simpl.
  - intros [= <-]. rewrite drop_0. by rewrite take_app_length'.
  - intros Hy. rewrite <- drop_drop, drop_app_length' by done. by apply Hat.
Qed.

(** What is shown at a position: black in the border, else the colour of the
    original at the position that zoom and pan select. *)
Definition view_spec (photo : DecodedPhoto) (axes : Axis * Axis) (y x : nat) (shown : list ascii) : Prop :=
  match source_position axes.2 (dph_height photo) (Z.of_nat y), source_position axes.1 (dph_width photo) (Z.of_nat x) with
  | Some sy, Some sx => 0 ≤ sy < dph_height photo ∧ 0 ≤ sx < dph_width photo ∧
      ∃ c, colour_of photo sy sx = Ok c ∧ shown = le_bytes 2 (rgb565 c)
  | _, _ => shown = [zero; zero]
  end.

Lemma view_axes_positive photo zoom px py :
  photo_wf photo → ∃ dw dh, 1 ≤ dw ∧ 1 ≤ dh ∧
    view_axes photo zoom px py = (view_axis dw (Z.of_nat PHOTO_WIDTH) px, view_axis dh (Z.of_nat PHOTO_HEIGHT) py).
Proof.
  intros [Hw Hh _ _]. unfold view_axes.
  destruct (fit_positive (dph_width photo) (dph_height photo) (Z.of_nat PHOTO_WIDTH) (Z.of_nat PHOTO_HEIGHT)) as [? ?];
    [lia|lia|done|done|].
  destruct (zoom =? 0); [|destruct (zoom =? 1)].
  - destruct (fit_dimensions _ _ _ _) as [dw dh]. by exists dw, dh.
  - exists ((dph_width photo + 1) / 2), ((dph_height photo + 1) / 2).
    split_and!; [apply Z.div_le_lower_bound; lia|apply Z.div_le_lower_bound; lia|done].
  - by exists (dph_width photo), (dph_height photo).
Qed.

Lemma view_pixel_ok photo zoom px py y x :
  photo_wf photo → (y < PHOTO_HEIGHT)%nat → (x < PHOTO_WIDTH)%nat →
  ∃ shown, view_pixel photo (view_axes photo zoom px py) y x = Ok shown ∧ length shown = 2%nat ∧
    view_spec photo (view_axes photo zoom px py) y x shown.
Proof.
  intros Hwf Hy Hx. destruct (view_axes_positive photo zoom px py Hwf) as (dw&dh&Hdw&Hdh&->).
  unfold view_pixel, view_spec. simpl. pose proof Hwf as [Hw Hh _ _].
  destruct (source_position _ (dph_height photo) _) as [sy|] eqn:Hsy; [|by exists [zero; zero]].
  destruct (source_position _ (dph_width photo) _) as [sx|] eqn:Hsx; [|by exists [zero; zero]].
  apply source_position_in in Hsy as (_&_&_&Hsy); [|lia..]. apply source_position_in in Hsx as (_&_&_&Hsx); [|lia..].
  destruct (colour_of_ok photo sy sx Hwf Hsy Hsx) as [c Hc]. unfold colour_of in Hc. rewrite Hc. simpl.
  exists (le_bytes 2 (rgb565 c)). split_and!; [done|by rewrite length_le_bytes|lia|lia|lia|lia|]. by exists c.
Qed.

Lemma take_drop_within {A} n k m (l : list A) : (k + n ≤ m)%nat → take n (drop k (take m l)) = take n (drop k l).
Proof.
  intros Hm. replace m with (k + (m - k))%nat by lia. rewrite <- take_drop_commute, take_take. by rewrite Nat.min_l by lia.
Qed.

Lemma render_view_ok photo zoom px py :
  photo_wf photo → ∃ out, render_view photo zoom px py = Ok out ∧ length out = PHOTO_FRAME_BYTES ∧
    ∀ y x, (y < PHOTO_HEIGHT)%nat → (x < PHOTO_WIDTH)%nat →
      view_spec photo (view_axes photo zoom px py) y x (take 2 (drop ((y * PHOTO_WIDTH + x) * 2) out)).
Proof.
  intros Hwf. unfold render_view. set (axes := view_axes photo zoom px py).
  assert (∀ y, (y < PHOTO_HEIGHT)%nat → ∃ row, collect_bytes (view_pixel photo axes y) (seq 0 PHOTO_WIDTH) = Ok row ∧
    length row = (PHOTO_WIDTH * 2)%nat ∧
    ∀ x, (x < PHOTO_WIDTH)%nat → view_pixel photo axes y x = Ok (take 2 (drop (x * 2) row))) as Hrow.
  { intros y Hy. destruct (collect_bytes_ok (view_pixel photo axes y) (seq 0 PHOTO_WIDTH) 2) as (row&->&Hlen&Hat).
    - intros x Hx%elem_of_seq. destruct (view_pixel_ok photo zoom px py y x Hwf Hy) as (s&?&?&_); [lia|by exists s].
    - exists row. rewrite length_seq in Hlen. split_and!; [done..|]. intros x Hx. apply Hat. by apply lookup_seq. }
  destruct (collect_bytes_ok (λ y, collect_bytes (view_pixel photo axes y) (seq 0 PHOTO_WIDTH)) (seq 0 PHOTO_HEIGHT)
    (PHOTO_WIDTH * 2)) as (out&->&Hlen&Hat).
  { intros y Hy%elem_of_seq. destruct (Hrow y) as (row&?&?&_); [lia|by exists row]. }
  exists out. split_and!; [done| |].
  { rewrite length_seq in Hlen. rewrite Hlen. unfold PHOTO_FRAME_BYTES.
    generalize PHOTO_WIDTH, PHOTO_HEIGHT. lia. }
  intros y x Hy Hx. destruct (view_pixel_ok photo zoom px py y x Hwf Hy Hx) as (shown&Hs&_&Hspec).
  specialize (Hat y y ltac:(by apply lookup_seq)). cbv beta in Hat. destruct (Hrow y Hy) as (row&Hr&_&Hp).
  rewrite Hr in Hat. apply Ok_inj in Hat as ->. specialize (Hp x Hx). fold axes in Hs. rewrite Hp in Hs. apply Ok_inj in Hs as <-.
  replace ((y * PHOTO_WIDTH + x) * 2)%nat with (y * (PHOTO_WIDTH * 2) + x * 2)%nat by lia. rewrite <- drop_drop.
  rewrite take_drop_within in Hspec by lia. exact Hspec.
Qed.

End rendering.
