(* ===== verification/PhotoViewProps.v ===== *)
(** * The photo view shows the original

    What the cache of the photo view promises to the broker: an original that
    passed the decoder's checks is always rendered, inside its bounds and
    pixel by pixel as the zoom and the pan select. *)

From S2P Require Import Prelude RustStr Bytes HostFs Package StorageProtocol StorageClient PhotoLibrary PhotoLibraryLogic PhotoLibraryProps Descriptor CapabilityClients PhotoView.

(** The decoded photo in the cache, if any, has the pixels its size says. *)
Definition cache_wf (cache : PhotoViewCache) : Prop := ∀ photo, pv_decoded cache = Some photo → photo_wf photo.

Section view.
  Context `{JpegDecoder} {C : Type} `{PhotoStorage C} `{!FdDaemon C StorageRequest StorageResponse}.

(** The decoder's result is checked against the description of the photo. *)
Lemma decoded_photo_wf original file photo :
  (1 ≤ co_width original)%Z → (1 ≤ co_height original)%Z → decoded_photo original file = Ok photo → photo_wf photo.
Proof.
  intros Hw Hh. unfold decoded_photo. destruct (jpeg_decode file) as [[pixels [info|]]|]; [|done..]. cbn.
  destruct (ji_pixel_format info); cbn; try done; (destruct (_ || _) eqn:Hb; [done|]); intros [= <-]; unbool_hyps;
    (constructor; cbn; [congruence..|auto|done]).
Qed.

Lemma camera_original_size id photo original c c' :
  camera_original id photo c = (Ok (Some original), c') → (1 ≤ co_width original)%Z ∧ (1 ≤ co_height original)%Z.
Proof.
  unfold camera_original. destruct (_ || _); [done|]. intros ([metadata|]&c1&_&Hrun)%sm_bind_Ok; [|done].
  apply sm_bind_Ok in Hrun as (o&c2&Hd&Hrun). injection Hrun as <- _. unfold sm_lift in Hd. injection Hd as Hd _.
  unfold decode_camera_metadata in Hd. destruct (_ || _) in Hd; [done|]. cbv zeta in Hd.
  destruct (_ || _) eqn:Hb in Hd; [done|]. injection Hd as <-. unbool_hyps. cbn [co_width co_height] in *.
  unfold CAMERA_PHOTO_WIDTH, CAMERA_PHOTO_HEIGHT in *. lia.
Qed.

Lemma load_decoded_wf cache id photo original decoded c c' :
  cache_wf cache → (1 ≤ co_width original)%Z → (1 ≤ co_height original)%Z →
  load_decoded cache id photo original c = (Ok decoded, c') → photo_wf decoded.
Proof.
  intros Hc Hw Hh. unfold load_decoded.
  assert (∀ m, (let+ descriptor := m in let+ descriptor := sm_lift (ok_or descriptor PvMissingOriginal) in
                sm_lift (decoded_photo original (fd_contents descriptor))) c = (Ok decoded, c') → photo_wf decoded) as Hload.
  { intros m (o&c1&_&Hrun)%sm_bind_Ok. apply sm_bind_Ok in Hrun as (d&c2&_&Hrun). unfold sm_lift in Hrun.
    injection Hrun as Hrun _. by eapply decoded_photo_wf. }
  destruct (pv_decoded cache) as [photo'|] eqn:Hp; [|apply Hload]. destruct (_ =? _)%Z; [|apply Hload].
  intros [= <- _]. by apply Hc.
Qed.

(** C28: the view of a camera photo.  Once the description of the photo is read
    and its original is decoded (or already cached), rendering returns a frame
    of exactly 108800 bytes for every zoom and pan: it never reads outside the
    pixels of the original, each position of the screen is black or has the
    colour of the original at the position that zoom and pan select, and the
    cache keeps the decoded original for the next view. *)
Theorem view_shows_original cache id photo zoom pan_x pan_y original decoded c c1 c2 :
  cache_wf cache →
  camera_original id photo c = (Ok (Some original), c1) → load_decoded cache id photo original c1 = (Ok decoded, c2) →
  ∃ frame, PhotoViewCache_render cache id photo zoom pan_x pan_y c
             = (Ok (Some frame, mkPhotoViewCache photo (Some decoded)), c2) ∧
    cache_wf (mkPhotoViewCache photo (Some decoded)) ∧ length frame = PHOTO_FRAME_BYTES ∧
    ∀ y x, (y < PHOTO_HEIGHT)%nat → (x < PHOTO_WIDTH)%nat →
      view_spec decoded (view_axes decoded zoom pan_x pan_y) y x (take 2 (drop ((y * PHOTO_WIDTH + x) * 2) frame)).
Proof.
  intros Hc Ho Hl. destruct (camera_original_size _ _ _ _ _ Ho) as [Hw Hh].
  pose proof (load_decoded_wf _ _ _ _ _ _ _ Hc Hw Hh Hl) as Hwf.
  destruct (render_view_ok decoded zoom pan_x pan_y Hwf) as (frame&Hr&Hlen&Hspec). exists frame. split; [|split; [|by split]].
  - unfold PhotoViewCache_render, sm_bind, sm_map_err. rewrite Ho. cbn [map_err]. rewrite Hl. unfold sm_lift. by rewrite Hr.
  - intros p [= <-]. exact Hwf.
Qed.
End view.

(** ** Witness *)

(** A storage that holds only the description of one camera photo. *)
Definition described_jpeg : list ascii := JPEG_START ++ JPEG_END.
Definition one_description : PhotoStorage unit := {|
  storage_put _ _ _ := sm_ret tt;
  storage_get _ _ := sm_ret (Some (@encode_camera_metadata toy_crypto described_jpeg 1000));
  storage_delete _ _ := sm_ret false;
  storage_put_blob_chunk _ _ _ _ _ := sm_ret tt;
  storage_delete_blob _ _ := sm_ret false;
|}.
Definition silent_daemon : FdDaemon unit StorageRequest StorageResponse :=
  {| fd_daemon_to_vec _ := None; fd_daemon_from_slice _ := None; fd_daemon_call _ := sm_err OtherIo |}.
Definition no_decoder : JpegDecoder := {| jpeg_decode _ := None |}.

(** Two pixels, red and blue, decoded before. *)
Definition two_pixels : DecodedPhoto :=
  mkDecodedPhoto 2 1 3 (map byte_of_Z [255; 0; 0; 0; 0; 255]%Z).

Lemma view_shows_original_witness :
  ∃ frame, @PhotoViewCache_render no_decoder unit one_description silent_daemon (mkPhotoViewCache 5 (Some two_pixels)) 1 5 0 0 0 tt
             = (Ok (Some frame, mkPhotoViewCache 5 (Some two_pixels)), tt) ∧
    length frame = PHOTO_FRAME_BYTES ∧
    (view_spec two_pixels (view_axes two_pixels 0 0 0) 80 0 (take 2 (drop ((80 * PHOTO_WIDTH + 0) * 2) frame))).
Proof.
  assert (∀ l, length (@sha256 toy_crypto l) = 32%nat) as Hsha.
  { intros l. change (length (take 32 (l ++ replicate 32 "h"%char)) = 32%nat). rewrite length_take, length_app, length_replicate. lia. }
  destruct (@view_shows_original no_decoder unit one_description silent_daemon (mkPhotoViewCache 5 (Some two_pixels)) 1 5 0 0 0
    (mkCameraOriginal CAMERA_PHOTO_WIDTH CAMERA_PHOTO_HEIGHT (Z.of_nat (length described_jpeg)) 1000 (@sha256 toy_crypto described_jpeg))
    two_pixels tt tt tt) as (frame&Hr&_&Hlen&Hspec).
  - intros photo [= <-]. constructor; cbn; [lia|lia|by right|done].
  - unfold camera_original. change ((5 =? 0)%Z || (MAX_PHOTO_ID <? 5)%Z) with false. cbn -[encode_camera_metadata decode_camera_metadata].
    unfold sm_bind, sm_lift, sm_ret. cbn -[encode_camera_metadata decode_camera_metadata].
    rewrite (@decode_encode_metadata toy_crypto) by (done || by vm_compute). reflexivity.
  - reflexivity.
  - exists frame. split; [exact Hr|]. split; [exact Hlen|]. apply Hspec; apply Nat.ltb_lt; reflexivity.
Defined.
