(* ===== verification/BrokerProtocol.v ===== *)
(** * The broker protocol (crates/cp0-appd/src/broker.rs)

    What an application may ask of the application service: notifications,
    the network, documents, sound, camera, GPIO, radio, private storage, the
    photo library, intents and media sessions, with the checks of requests and
    responses and the framing.  The texts of error responses are not modelled.
    The queue of notifications is in [Server]. *)

From S2P Require Import Prelude RustStr Bytes Manifest HostFs Framing Intent MediaSession DocumentPrompt Server StorageProtocol NetworkProtocol Descriptor DocumentProtocol AudioProtocol GpioProtocol RadioProtocol PhotoLibrary CameraProtocol PhotoView.

Definition BROKER_PROTOCOL_VERSION : Z := 1.
Definition MAX_BROKER_FRAME_BYTES : nat := Z.to_nat (16 * 1024).
Definition MAX_NOTIFICATION_TITLE_CHARS : nat := 32.
Definition MAX_NOTIFICATION_BODY_CHARS : nat := 160.

Inductive BrokerCommand :=
  | BcPostNotification (title body : string)
  | BcHttpGet (url : string)
  | BcHttpGetRange (url : string) (offset length : Z)
  | BcOpenDocument
  | BcPlayAudio (samples_base64 : string)
  | BcPlayAudioStereo48k (samples_base64 : string)
  | BcPlayKeyClick
  | BcCaptureAudio (frames : Z)
  | BcCaptureCamera
  | BcCapturePhoto
  | BcReadGpio (line : GpioLine)
  | BcWriteGpio (line : GpioLine) (value : bool)
  | BcSendLora (payload_base64 : string)
  | BcReceiveLora (timeout_ms : Z)
  | BcStoragePut (key value_base64 : string)
  | BcStorageGet (key : string)
  | BcStorageDelete (key : string)
  | BcPhotoPut (key value_base64 : string)
  | BcPhotoGet (key : string)
  | BcPhotoIndexGet
  | BcPhotoDelete (key : string)
  | BcPhotoImportRgb565 (suggested_id : Z)
  | BcPhotoLoadRgb565 (photo_id : Z)
  | BcPhotoLoadViewRgb565 (photo_id zoom_level pan_x pan_y : Z)
  | BcPhotoRemove (photo_id : Z)
  | BcSendIntent (action payload_base64 : string)
  | BcTakeIntent
  | BcUpdateMediaSession (state : MediaPlaybackState) (supported_actions : Z)
  | BcTakeMediaAction.

Record BrokerRequest := mkBrokerRequest {
  br_protocol_version : Z;
  br_request_id : Z;
  br_command : BrokerCommand;
}.

Inductive BrokerOutcome :=
  | BoOk (notification_id : Z)
  | BoHttpResponse (status_code : Z) (body_base64 : string)
  | BoPermissionPending (prompt_id : Z)
  | BoDocumentSelectionPending (prompt_id : Z)
  | BoDocumentOpened (id : string) (size : Z)
  | BoAudioPlayed (frames : Z)
  | BoAudioCaptured (samples_base64 : string)
  | BoCameraCaptured (width height : Z) (pixel_format : CameraPixelFormat) (size : Z)
  | BoGpioValue (line : GpioLine) (value : bool)
  | BoGpioWritten (line : GpioLine) (value : bool)
  | BoLoraSent (bytes : Z)
  | BoLoraPacket (payload_base64 : string) (rssi_dbm snr_quarter_db : Z)
  | BoLoraNoPacket
  | BoStorageStored (used_bytes : Z)
  | BoStorageValue (value_base64 : string)
  | BoStorageNotFound
  | BoStorageDeleted (existed : bool)
  | BoPhotoImported (photo_id : Z)
  | BoPhotoLoaded (photo_id size : Z)
  | BoIntentAccepted (id : Z)
  | BoIntentMessage (action payload_base64 : string)
  | BoIntentEmpty
  | BoMediaSessionUpdated (state : MediaPlaybackState) (supported_actions : Z)
  | BoMediaAction (action : MediaAction)
  | BoMediaActionEmpty
  | BoError (code : BrokerErrorCode).

Record BrokerResponse := mkBrokerResponse {
  bp_protocol_version : Z;
  bp_request_id : Z;
  bp_outcome : BrokerOutcome;
}.

Inductive BrokerProtocolError :=
  | BpIo (e : IoError) | BpJson | BpFrameTooLarge | BpUnterminatedFrame | BpUnsupportedVersion (version : Z)
  | BpInvalidNotification | BpInvalidUrl | BpInvalidNetworkResponse | BpInvalidDocumentResponse | BpInvalidAudio
  | BpInvalidCameraResponse | BpInvalidRadio | BpInvalidStorage | BpInvalidIntent | BpInvalidMediaSession.

(** ** Requests *)

Definition broker_version_check (version : Z) : result BrokerProtocolError unit :=
  if (version =? BROKER_PROTOCOL_VERSION)%Z then Ok tt else Err (BpUnsupportedVersion version).

(** [if bad => Err(e), _ => Ok(())]. *)
Definition refuse_if (bad : bool) (e : BrokerProtocolError) : result BrokerProtocolError unit := if bad then Err e else Ok tt.
Definition is_refused {E A} (r : result E A) : bool := negb (is_ok r).

Definition photo_id_bad (photo_id : Z) : bool := (photo_id =? 0)%Z || (MAX_PHOTO_ID <? photo_id)%Z.
Definition pan_bad (pan : Z) : bool := negb ((MIN_PHOTO_VIEW_PAN <=? pan)%Z && (pan <=? MAX_PHOTO_VIEW_PAN)%Z).

(** The checks of an intent in a request and in a response. *)
Definition intent_check (action payload_base64 : string) : result BrokerProtocolError unit :=
  if negb (is_valid_intent_action action) then Err BpInvalidIntent
  else
    let? payload := map_err (λ _, BpInvalidIntent) (network_decode_base64 payload_base64) in
    refuse_if (MAX_INTENT_PAYLOAD_BYTES <? length payload)%nat BpInvalidIntent.

Definition BrokerRequest_validate (r : BrokerRequest) : result BrokerProtocolError unit :=
  let? _ := broker_version_check (br_protocol_version r) in
  match br_command r with
  | BcPostNotification title body =>
      refuse_if (negb ((1 <=? chars_count title)%nat && (chars_count title <=? MAX_NOTIFICATION_TITLE_CHARS)%nat)
                 || (MAX_NOTIFICATION_BODY_CHARS <? chars_count body)%nat || has_control title || has_control body)
        BpInvalidNotification
  | BcHttpGet url => refuse_if (negb (is_valid_https_url url)) BpInvalidUrl
  | BcHttpGetRange url offset length => refuse_if (negb (is_valid_https_url url) || range_bad offset length) BpInvalidUrl
  | BcPlayAudio samples => refuse_if (is_refused (decode_samples samples)) BpInvalidAudio
  | BcPlayAudioStereo48k samples => refuse_if (is_refused (decode_music_samples samples)) BpInvalidAudio
  | BcCaptureAudio frames => refuse_if ((frames =? 0)%Z || (Z.of_nat MAX_AUDIO_FRAMES <? frames)%Z) BpInvalidAudio
  | BcSendLora payload => refuse_if (is_refused (radio_decode_payload payload)) BpInvalidRadio
  | BcReceiveLora timeout => refuse_if ((timeout =? 0)%Z || (MAX_LORA_RECEIVE_TIMEOUT_MS <? timeout)%Z) BpInvalidRadio
  | BcStoragePut key value | BcPhotoPut key value =>
      let? _ := map_err (λ _, BpInvalidStorage) (validate_key key) in
      let? _ := map_err (λ _, BpInvalidStorage) (decode_value value) in
      Ok tt
  | BcStorageGet key | BcStorageDelete key | BcPhotoGet key | BcPhotoDelete key =>
      map_err (λ _, BpInvalidStorage) (validate_key key)
  | BcPhotoLoadRgb565 photo_id | BcPhotoRemove photo_id => refuse_if (photo_id_bad photo_id) BpInvalidStorage
  | BcPhotoLoadViewRgb565 photo_id zoom_level pan_x pan_y =>
      refuse_if (photo_id_bad photo_id || (MAX_PHOTO_VIEW_ZOOM_LEVEL <? zoom_level)%Z || pan_bad pan_x || pan_bad pan_y)
        BpInvalidStorage
  | BcSendIntent action payload => intent_check action payload
  | BcUpdateMediaSession state supported => refuse_if (negb (valid_media_session_update state supported)) BpInvalidMediaSession
  | _ => Ok tt
  end.

(** ** Responses *)

Definition BrokerResponse_validate (r : BrokerResponse) : result BrokerProtocolError unit :=
  let? _ := broker_version_check (bp_protocol_version r) in
  match bp_outcome r with
  | BoHttpResponse status body =>
      refuse_if (negb ((100 <=? status)%Z && (status <=? 599)%Z) || is_refused (network_decode_base64 body)) BpInvalidNetworkResponse
  | BoDocumentOpened id size =>
      refuse_if (negb (is_valid_document_id id) || (MAX_DOCUMENT_BYTES <? size)%Z) BpInvalidDocumentResponse
  | BoAudioPlayed frames => refuse_if ((frames =? 0)%Z || (Z.of_nat MAX_MUSIC_FRAMES <? frames)%Z) BpInvalidAudio
  | BoAudioCaptured samples => refuse_if (is_refused (decode_samples samples)) BpInvalidAudio
  | BoCameraCaptured width height Rgb565Le size =>
      refuse_if (negb (width =? CAMERA_WIDTH)%Z || negb (height =? CAMERA_HEIGHT)%Z || negb (size =? CAMERA_FRAME_BYTES)%Z)
        BpInvalidCameraResponse
  | BoLoraSent n => refuse_if ((n =? 0)%Z || (Z.of_nat MAX_LORA_PAYLOAD_BYTES <? n)%Z) BpInvalidRadio
  | BoLoraPacket payload rssi_dbm _ =>
      refuse_if (is_refused (radio_decode_payload payload) || negb (rssi_in_range rssi_dbm)) BpInvalidRadio
  | BoStorageStored used => refuse_if (SYSTEM_PHOTO_LIBRARY_QUOTA_BYTES <? used)%Z BpInvalidStorage
  | BoStorageValue value => refuse_if (is_refused (decode_value value)) BpInvalidStorage
  | BoPhotoImported photo_id => refuse_if (photo_id =? 0)%Z BpInvalidStorage
  | BoPhotoLoaded photo_id size => refuse_if (photo_id_bad photo_id || negb (size =? CAMERA_FRAME_BYTES)%Z) BpInvalidStorage
  | BoIntentAccepted id => refuse_if (id =? 0)%Z BpInvalidIntent
  | BoIntentMessage action payload => intent_check action payload
  | BoMediaSessionUpdated state supported => refuse_if (negb (valid_media_session_update state supported)) BpInvalidMediaSession
  | _ => Ok tt
  end.

(** [BrokerResponse::success] and the other constructor functions. *)
Definition broker_response (request_id : Z) (outcome : BrokerOutcome) : BrokerResponse :=
  mkBrokerResponse BROKER_PROTOCOL_VERSION request_id outcome.
Definition BrokerResponse_error (request_id : Z) (code : BrokerErrorCode) : BrokerResponse :=
  broker_response request_id (BoError code).
Definition BrokerResponse_camera_captured (request_id : Z) : BrokerResponse :=
  broker_response request_id (BoCameraCaptured CAMERA_WIDTH CAMERA_HEIGHT Rgb565Le CAMERA_FRAME_BYTES).
Definition BrokerResponse_lora_packet (request_id : Z) (payload : list ascii) (rssi_dbm snr_quarter_db : Z) : BrokerResponse :=
  broker_response request_id (BoLoraPacket (encode_base64 payload) rssi_dbm snr_quarter_db).
Definition BrokerResponse_storage_value (request_id : Z) (value : list ascii) : BrokerResponse :=
  broker_response request_id (BoStorageValue (encode_base64 value)).
Definition BrokerResponse_photo_loaded (request_id photo_id : Z) : BrokerResponse :=
  broker_response request_id (BoPhotoLoaded photo_id CAMERA_FRAME_BYTES).
Definition BrokerResponse_intent_message (request_id : Z) (action : string) (payload : list ascii) : BrokerResponse :=
  broker_response request_id (BoIntentMessage action (encode_base64 payload)).

(** ** Framing *)

Global Instance broker_frame_errors : FrameErrors BrokerProtocolError :=
  {| frame_io := BpIo; frame_json := BpJson; frame_too_large := BpFrameTooLarge;
     frame_unterminated := BpUnterminatedFrame |}.

Definition read_broker_request (from_slice : list ascii → option BrokerRequest) (r : Reader) :=
  read_message MAX_BROKER_FRAME_BYTES BrokerRequest_validate from_slice r.
Definition write_broker_request (to_vec : BrokerRequest → option (list ascii)) (request : BrokerRequest) :=
  write_message MAX_BROKER_FRAME_BYTES BrokerRequest_validate to_vec request.
Definition read_broker_response (from_slice : list ascii → option BrokerResponse) (r : Reader) :=
  read_message MAX_BROKER_FRAME_BYTES BrokerResponse_validate from_slice r.
Definition encode_broker_response (to_vec : BrokerResponse → option (list ascii)) (response : BrokerResponse) :=
  write_message MAX_BROKER_FRAME_BYTES BrokerResponse_validate to_vec response.

Definition decode_broker_request (from_slice : list ascii → option BrokerRequest) (frame : list ascii)
    : result BrokerProtocolError BrokerRequest :=
  let? request := ok_or (from_slice frame) BpJson in
  let? _ := BrokerRequest_validate request in
  Ok request.

(** The server receives requests with the function of the document protocol. *)
Definition recv_broker_request_with_fd (from_slice : list ascii → option BrokerRequest) (r : FdReader)
    : result BrokerProtocolError (BrokerRequest * option OwnedFd) :=
  let? received := map_err (λ _ : DocumentProtocolError, BpIo OtherIo) (recv_frame_with_fd MAX_DOCUMENT_FRAME_BYTES r) in
  let? request := decode_broker_request from_slice received.1 in
  Ok (request, received.2).

(** ** Lemmas *)

Lemma decode_broker_request_Ok from_slice frame request :
  decode_broker_request from_slice frame = Ok request →
  from_slice frame = Some request ∧ BrokerRequest_validate request = Ok tt.
Proof.
  unfold decode_broker_request. destruct (from_slice frame) as [r|]; [|done]. simpl.
  destruct (BrokerRequest_validate r) as [[]| |] eqn:Hv; [|done..]. by intros [= <-].
Qed.

Lemma recv_request_valid from_slice incoming request descriptor :
  recv_broker_request_with_fd from_slice incoming = Ok (request, descriptor) → BrokerRequest_validate request = Ok tt.
Proof.
  unfold recv_broker_request_with_fd. destruct (recv_frame_with_fd _ _) as [received|e|]; [|done..]. simpl.
  destruct (decode_broker_request from_slice received.1) as [r|e|] eqn:Hd; [|done..]. intros [= <- _].
  by apply decode_broker_request_Ok in Hd as [_ ?].
Qed.
