(* ===== verification/Broker.v ===== *)
(** * The capability broker (crates/cp0-appd/src/server.rs, the broker socket)

    How a request of an application is carried out: who the caller is and what
    it may do ([Server.authorize_broker_caller] and its siblings), the call of
    the service behind the capability ([CapabilityClients], [PhotoLibrary],
    [PhotoView]), and the response.  [handle_broker_connection] is the whole
    handler of a connection, with the receiver of an intent started once the
    sender has its acknowledgement.

    The services share a state [C] that only their own instances of [Daemon] and
    [FdDaemon] change.  A handler threads it, with the cache of photo views,
    beside the state of the server; an [Err] is an early return of a response.
    The photo library is used under its lock, so one handler at a time has it;
    poisoned locks and the texts of error responses are not modelled. *)

From S2P Require Import Prelude RustStr Bytes Manifest HostFs Framing Lifecycle Permissions PermissionPrompt Intent MediaSession DocumentPrompt Package Protocol Server StorageProtocol StorageClient NetworkProtocol PhotoLibrary Descriptor DocumentProtocol AudioProtocol GpioProtocol RadioProtocol CameraProtocol CapabilityClients PhotoView BrokerProtocol.

(** ** The keys of the photo library that applications may read *)

Fixpoint parse_hex (acc : Z) (l : list ascii) : option Z :=
  match l with
  | [] => Some acc
  | b :: l =>
      digit ← (if byte_in 48 57 b then Some (byte_of b - 48)%Z else if byte_in 97 102 b then Some (byte_of b - 97 + 10)%Z else None);
      product ← (if (acc * 16 <=? u64_max)%Z then Some (acc * 16)%Z else None);
      sum ← checked_add_u64 product digit;
      parse_hex sum l
  end.

Definition photo_chunk_count : nat := (PHOTO_FRAME_BYTES + MAX_STORAGE_VALUE_BYTES - 1) / MAX_STORAGE_VALUE_BYTES.
Definition photo_chunk_length (chunk : Z) : Z :=
  Z.min (Z.of_nat PHOTO_FRAME_BYTES - chunk * Z.of_nat MAX_STORAGE_VALUE_BYTES) (Z.of_nat MAX_STORAGE_VALUE_BYTES).

Definition parse_photo_chunk_key (key : string) : option (Z * Z) :=
  match bytes key with
  | p :: rest =>
      match drop 16 rest with
      | [point; c; tens; ones] =>
          if negb (bool_decide (p = "p"%char)) || negb (bool_decide (point = dot)) || negb (bool_decide (c = "c"%char))
             || negb (is_ascii_digit tens) || negb (is_ascii_digit ones)
          then None
          else
            photo_id ← parse_hex 0 (take 16 rest);
            let chunk := ((byte_of tens - 48) * 10 + (byte_of ones - 48))%Z in
            if negb (photo_id =? 0)%Z && (chunk <? Z.of_nat photo_chunk_count)%Z then Some (photo_id, chunk) else None
      | _ => None
      end
  | [] => None
  end.

Definition valid_photo_metadata_key (key : string) : bool :=
  if bool_decide (key = "head.v2") || bool_decide (key = "index.v1") then true
  else
    match strip_prefix "index.v2." key with
    | None => false
    | Some suffix => (String.length suffix =? 8)%nat && bytes_all (λ b, is_ascii_digit b || byte_in 97 102 b) suffix
    end.

(** ** Descriptors of photos *)

(** [valid_photo_descriptor_access]. *)
Definition valid_photo_descriptor_access (flags : Z) : bool :=
  (Z.land flags O_ACCMODE =? O_RDONLY)%Z || (Z.land flags O_ACCMODE =? O_RDWR)%Z.

Definition read_photo_frame (descriptor : OwnedFd) : result IoError (list ascii) :=
  let? status := fd_fstat descriptor in
  let? flags := fd_getfl descriptor in
  if negb (bool_decide (status.1 = RegularFile)) || negb (status.2 =? Z.of_nat PHOTO_FRAME_BYTES)%Z
     || negb (valid_photo_descriptor_access flags)
  then Err OtherIo
  else if negb (fully_sealed descriptor) then Err OtherIo
  else
    let? contents := fd_contents descriptor in
    if (length contents <? PHOTO_FRAME_BYTES)%nat then Err OtherIo else Ok (take PHOTO_FRAME_BYTES contents).

Definition read_camera_photo (descriptor : OwnedFd) (jpeg_size_bytes : Z) : result IoError (list ascii) :=
  if (jpeg_size_bytes =? 0)%Z || (Z.of_nat MAX_CAMERA_JPEG_BYTES <? jpeg_size_bytes)%Z then Err OtherIo
  else
    let expected := (Z.of_nat CAMERA_PHOTO_HEADER_BYTES + CAMERA_FRAME_BYTES + jpeg_size_bytes)%Z in
    let? status := fd_fstat descriptor in
    if negb (status.2 =? expected)%Z then Err OtherIo
    else
      let? payload := fd_contents descriptor in
      if negb (Z.of_nat (length payload) =? expected)%Z then Err OtherIo else Ok payload.

(** Memory files of the kernel: a failing call, or none. *)
Class Memfd := { memfd_fault : list ascii → option IoError }.

(** The read-only descriptor of a sealed memory file with these contents. *)
Definition sealed_fd (contents : list ascii) : OwnedFd :=
  mkOwnedFd (Ok (RegularFile, Z.of_nat (length contents))) (Ok O_RDONLY) REQUIRED_SEALS (Ok tt) (Ok contents).

Definition sealed_photo_descriptor `{Memfd} (frame : list ascii) : result IoError OwnedFd :=
  if negb (length frame =? PHOTO_FRAME_BYTES)%nat then Err OtherIo
  else match memfd_fault frame with Some e => Err e | None => Ok (sealed_fd frame) end.

(** ** Errors of the services *)

Definition network_error_response (request_id : Z) (e : NetworkClientError) : BrokerResponse :=
  BrokerResponse_error request_id
    match e with
    | NceService NcInvalidRequest => BkInvalidRequest
    | NceService NcBlockedAddress => BkBlockedAddress
    | NceService NcUnavailable => BkUpstreamUnavailable
    | NceService NcTimeout => BkTimeout
    | NceService NcTls => BkTls
    | NceService NcTooManyRedirects => BkTooManyRedirects
    | NceService NcResponseTooLarge => BkResponseTooLarge
    | NceIo _ | NceEmptyResponse => BkUpstreamUnavailable
    | NceProtocol _ | NceMismatchedRequestId | NceService NcUnauthorized | NceService NcInternal => BkInternal
    end.

Definition document_error_response (request_id : Z) (e : DocumentClientError) : BrokerResponse :=
  BrokerResponse_error request_id
    match e with
    | DceService DcInvalidRequest => BkInvalidRequest
    | DceService DcNotFound => BkUnavailable
    | DceService DcResourceExhausted => BkResourceExhausted
    | DceIo _ | DceEmptyResponse => BkUnavailable
    | DceProtocol _ | DceMismatchedRequestId | DceMissingDescriptor | DceUnexpectedDescriptor | DceMismatchedDocument
    | DceService DcUnauthorized | DceService DcInternal => BkInternal
    end.

Definition audio_error_response (request_id : Z) (e : AudioClientError) : BrokerResponse :=
  BrokerResponse_error request_id
    match e with
    | AceService AcInvalidRequest => BkInvalidRequest
    | AceService AcBusy => BkResourceExhausted
    | AceService AcUnavailable | AceService AcDevice | AceIo _ | AceEmptyResponse => BkUnavailable
    | AceProtocol _ | AceMismatchedRequestId | AceMismatchedFrameCount | AceService AcUnauthorized
    | AceService AcInternal => BkInternal
    end.

Definition camera_error_response (request_id : Z) (e : CameraClientError) : BrokerResponse :=
  BrokerResponse_error request_id
    match e with
    | CceService CcInvalidRequest => BkInvalidRequest
    | CceService CcBusy => BkResourceExhausted
    | CceService CcUnavailable | CceService CcCaptureFailed | CceIo _ | CceEmptyResponse => BkUnavailable
    | CceProtocol _ | CceMismatchedRequestId | CceMissingDescriptor | CceUnexpectedDescriptor | CceInvalidDescriptor
    | CceService CcUnauthorized | CceService CcInternal => BkInternal
    end.

Definition gpio_error_response (request_id : Z) (e : GpioClientError) : BrokerResponse :=
  BrokerResponse_error request_id
    match e with
    | GceService GcInvalidRequest => BkInvalidRequest
    | GceService GcUnavailable | GceService GcDevice | GceIo _ | GceEmptyResponse => BkUnavailable
    | GceProtocol _ | GceMismatchedRequestId | GceMismatchedOutcome | GceService GcUnauthorized
    | GceService GcInternal => BkInternal
    end.

Definition radio_error_response (request_id : Z) (e : RadioClientError) : BrokerResponse :=
  BrokerResponse_error request_id
    match e with
    | RceService RcInvalidRequest => BkInvalidRequest
    | RceService RcBusy | RceService RcRateLimited => BkResourceExhausted
    | RceService RcDisabled | RceService RcUnavailable | RceService RcDevice | RceIo _ | RceEmptyResponse => BkUnavailable
    | RceProtocol _ | RceMismatchedRequestId | RceMismatchedOutcome | RceService RcUnauthorized
    | RceService RcInternal => BkInternal
    end.

Definition broker_storage_error_response (request_id : Z) (e : StorageClientError) : BrokerResponse :=
  BrokerResponse_error request_id
    match e with
    | CeService ScInvalidRequest => BkInvalidRequest
    | CeService ScQuotaExceeded => BkResourceExhausted
    | CeService ScUnavailable | CeIo _ | CeEmptyResponse => BkUnavailable
    | CeProtocol _ | CeMismatchedRequestId | CeMismatchedOutcome | CeMissingDescriptor | CeUnexpectedDescriptor
    | CeInvalidDescriptor | CeService ScUnauthorized | CeService ScInternal => BkInternal
    end.

Definition photo_broker_error_response (request_id : Z) (e : PhotoImportError) : BrokerResponse :=
  BrokerResponse_error request_id
    match e with
    | PiResourceExhausted => BkResourceExhausted
    | PiStorage (CeService ScQuotaExceeded) => BkResourceExhausted
    | PiStorage (CeService ScUnavailable) | PiStorage (CeIo _) | PiStorage CeEmptyResponse => BkUnavailable
    | PiInvalidFrame | PiInvalidIndex | PiStorage _ => BkInternal
    end.

Definition photo_view_error_response (request_id : Z) (e : PhotoViewError) : BrokerResponse :=
  match e with
  | PvLibrary e => photo_broker_error_response request_id e
  | PvStorage e => broker_storage_error_response request_id e
  | PvMissingOriginal => BrokerResponse_error request_id BkNotFound
  | PvInvalidJpeg => BrokerResponse_error request_id BkInternal
  end.

(** ** The monad of the handlers *)

Record Services (C : Type) := mkServices { bk_services : C; bk_view : PhotoViewCache }.
Arguments mkServices {C} _ _.
Arguments bk_services {C} _.
Arguments bk_view {C} _.

Definition BV (C E A : Type) : Type := Services C → Server → World → ((result E A * Services C) * Server) * World.

Definition bv_lift {C E A} (r : result E A) : BV C E A := λ c s w, (((r, c), s), w).
Definition bv_ret {C E A} (a : A) : BV C E A := bv_lift (Ok a).
Definition bv_err {C E A} (e : E) : BV C E A := bv_lift (Err e).
Definition bv_bind {C E A B} (m : BV C E A) (k : A → BV C E B) : BV C E B := λ c s w,
  match m c s w with
  | (((Ok a, c), s), w) => k a c s w
  | (((Err e, c), s), w) => (((Err e, c), s), w)
  | (((Panicked, c), s), w) => (((Panicked, c), s), w)
  end.
Definition bv_try {C E F A B} (m : BV C E A) (k : result E A → BV C F B) : BV C F B := λ c s w,
  let '(((r, c), s), w) := m c s w in k r c s w.
(** A step of the server, and a call of a service. *)
Definition bv_server {C E A} (m : SV E A) : BV C E A := λ c s w, let '((r, s), w) := m s w in (((r, c), s), w).
Definition bv_service {C E A} (m : SM C E A) : BV C E A := λ c s w,
  let '(r, services) := m (bk_services c) in (((r, mkServices services (bk_view c)), s), w).

Notation "'let^' x ':=' m 'in' k" := (bv_bind m (λ x, k))
  (at level 200, x pattern, m at level 200, k at level 200, right associativity).

Record IntentTransition := mkIntentTransition { it_intent_id : Z; it_sender_app_id : string; it_target_app_id : string }.

Record BrokerDispatch := mkBrokerDispatch {
  bd_response : BrokerResponse;
  bd_descriptor : option OwnedFd;
  bd_transition : option IntentTransition;
}.
Definition BrokerDispatch_response (response : BrokerResponse) : BrokerDispatch := mkBrokerDispatch response None None.

Definition refusal_response (request_id : Z) (r : BrokerRefusal) : BrokerResponse :=
  match r with
  | RefusalError code => BrokerResponse_error request_id code
  | RefusalPermissionPending prompt_id => broker_response request_id (BoPermissionPending prompt_id)
  end.

(** ** The handlers *)

Section broker.
  Context `{Host} `{System} `{Threads} `{Crypto} `{JpegDecoder} `{Memfd}.
  Context (manifest_from_slice : list ascii → option AppManifest).
  Context {C : Type} `{!Daemon C NetworkRequest NetworkResponse} `{!Daemon C AudioRequest AudioResponse}.
  Context `{!Daemon C GpioRequest GpioResponse} `{!Daemon C RadioRequest RadioResponse}.
  Context `{!Daemon C StorageRequest StorageResponse} `{!FdDaemon C StorageRequest StorageResponse}.
  Context `{!FdDaemon C DocumentRequest DocumentResponse} `{!FdDaemon C CameraRequest CameraResponse}.
  (** The caller, and the number of its request. *)
  Context (peer : PeerCredentials) (request_id : Z).

Notation BR A := (BV C BrokerResponse A).

Definition storage_exchange : StorageRequest → SM C StorageClientError StorageOutcome :=
  StorageClient_exchange daemon_call daemon_to_vec daemon_from_slice.
#[local] Instance broker_photo_storage : PhotoStorage C := client_photo_storage storage_exchange.

Definition refuse {A} (code : BrokerErrorCode) : BR A := bv_err (BrokerResponse_error request_id code).
Definition authenticate : BR AuthorizedApp :=
  bv_server (sv_map_err (refusal_response request_id) (authenticate_broker_caller manifest_from_slice peer)).
Definition authorize (p : Permission) : BR AuthorizedApp :=
  bv_server (sv_map_err (refusal_response request_id) (authorize_broker_caller manifest_from_slice peer p)).
Definition media_caller {A} (operation : string → Z → MediaSessionBroker → A * MediaSessionBroker) : BR A :=
  bv_server (sv_map_err (refusal_response request_id) (with_current_media_caller manifest_from_slice peer operation)).

(** [match call { Ok(answer) => .., Err(error) => .. }]. *)
Definition answer {E A} (m : SM C E A) (ok : A → BrokerResponse) (err : Z → E → BrokerResponse) : BR BrokerResponse :=
  bv_try (bv_service m) (λ r,
    match r with
    | Ok a => bv_ret (ok a)
    | Err e => bv_ret (err request_id e)
    | Panicked => bv_lift Panicked
    end).

(** The answer to a read of a stored value. *)
Definition value_response (value : option (list ascii)) : BrokerResponse :=
  match value with
  | Some value => BrokerResponse_storage_value request_id value
  | None => broker_response request_id BoStorageNotFound
  end.

Definition post_notification (title body : string) : BR BrokerResponse :=
  let^ app := authorize NotificationsPost in
  let^ _ := bv_server sv_lock in
  let^ queue := bv_server (sv_get (λ s, NotificationQueue_enqueue (s_notifications (sv_state s)) (aa_app_id app)
                                          (aa_app_name app) title body)) in
  let^ _ := bv_server (sv_modify (with_state (set_notifications queue.2))) in
  match queue.1 with
  | Some notification_id => bv_ret (broker_response request_id (BoOk notification_id))
  | None => refuse BkResourceExhausted
  end.

Definition http_answer (a : NetworkHttpResponse) : BrokerResponse :=
  broker_response request_id (BoHttpResponse (nh_status_code a) (nh_body_base64 a)).

Definition play_audio (samples : result AudioProtocolError (list ascii)) (play : list ascii → SM C AudioClientError Z)
    : BR BrokerResponse :=
  let^ _ := authorize AudioPlayback in
  match samples with
  | Ok samples => answer (play samples) (λ frames, broker_response request_id (BoAudioPlayed frames)) audio_error_response
  | _ => refuse BkInvalidRequest
  end.

Definition photo_get (key : string) : BR BrokerResponse :=
  let^ _ := authorize PhotosRead in
  match parse_photo_chunk_key key with
  | Some (photo_id, chunk) =>
      answer
        (let+ value := StorageClient_get_blob_chunk storage_exchange request_id PHOTO_LIBRARY_ID PHOTO_LIBRARY_QUOTA_BYTES
                         (photo_blob_key photo_id) (chunk * Z.of_nat MAX_STORAGE_VALUE_BYTES) (photo_chunk_length chunk) in
         match value with
         | Some value => sm_ret (Some value)
         | None => StorageClient_get storage_exchange request_id PHOTO_LIBRARY_ID PHOTO_LIBRARY_QUOTA_BYTES key
         end) value_response broker_storage_error_response
  | None =>
      if valid_photo_metadata_key key
      then answer (StorageClient_get storage_exchange request_id PHOTO_LIBRARY_ID PHOTO_LIBRARY_QUOTA_BYTES key)
             value_response broker_storage_error_response
      else refuse BkInvalidRequest
  end.

Definition take_intent : BR BrokerResponse :=
  let^ app := authenticate in
  let^ _ := bv_server sv_lock in
  let^ taken := bv_server (sv_get (λ s, IntentQueue_take (s_intents (sv_state s)) (aa_app_id app))) in
  let^ _ := bv_server (sv_modify (with_state (set_intents taken.2))) in
  bv_ret match taken.1 with
         | Some intent => BrokerResponse_intent_message request_id (in_action intent) (in_payload intent)
         | None => broker_response request_id BoIntentEmpty
         end.

Definition storage_put_command (key value_base64 : string) : BR BrokerResponse :=
  let^ app := authenticate in
  match decode_value value_base64 with
  | Ok value =>
      answer (StorageClient_put storage_exchange request_id (aa_app_id app) (aa_storage_quota_bytes app) key value)
        (λ used, broker_response request_id (BoStorageStored used)) broker_storage_error_response
  | _ => refuse BkInvalidRequest
  end.

Definition dispatch_broker (command : BrokerCommand) : BR BrokerResponse :=
  match command with
  | BcPostNotification title body => post_notification title body
  | BcHttpGet url =>
      let^ _ := authorize NetworkClient in
      answer (NetworkClient_http_get request_id url) http_answer network_error_response
  | BcHttpGetRange url offset length =>
      let^ _ := authorize NetworkClient in
      answer (NetworkClient_http_get_range request_id url offset length) http_answer network_error_response
  | BcPlayAudio samples => play_audio (decode_samples samples) (AudioClient_play request_id)
  | BcPlayAudioStereo48k samples => play_audio (decode_music_samples samples) (AudioClient_play_stereo_48k request_id)
  | BcPlayKeyClick =>
      let^ _ := media_caller (λ _ _ sessions, (tt, sessions)) in
      answer (AudioClient_play_key_click request_id)
        (λ _, broker_response request_id (BoAudioPlayed KEY_CLICK_FRAMES)) audio_error_response
  | BcCaptureAudio frames =>
      let^ _ := authorize AudioCapture in
      answer (AudioClient_capture request_id frames)
        (λ samples, broker_response request_id (BoAudioCaptured (encode_base64 samples))) audio_error_response
  | BcReadGpio line =>
      let^ _ := authorize HardwareGpio in
      answer (GpioClient_read request_id line) (λ value, broker_response request_id (BoGpioValue line value)) gpio_error_response
  | BcWriteGpio line value =>
      let^ _ := authorize HardwareGpio in
      answer (GpioClient_write request_id line value)
        (λ _, broker_response request_id (BoGpioWritten line value)) gpio_error_response
  | BcSendLora payload =>
      let^ _ := authorize RadioLora in
      match radio_decode_payload payload with
      | Ok payload =>
          answer (RadioClient_send request_id payload) (λ n, broker_response request_id (BoLoraSent n)) radio_error_response
      | _ => refuse BkInvalidRequest
      end
  | BcReceiveLora timeout_ms =>
      let^ _ := authorize RadioLora in
      answer (RadioClient_receive request_id timeout_ms)
        (λ packet, match packet with
                   | Some packet => BrokerResponse_lora_packet request_id (rk_payload packet) (rk_rssi_dbm packet)
                                      (rk_snr_quarter_db packet)
                   | None => broker_response request_id BoLoraNoPacket
                   end) radio_error_response
  | BcStoragePut key value => storage_put_command key value
  | BcStorageGet key =>
      let^ app := authenticate in
      answer (StorageClient_get storage_exchange request_id (aa_app_id app) (aa_storage_quota_bytes app) key)
        value_response broker_storage_error_response
  | BcStorageDelete key =>
      let^ app := authenticate in
      answer (StorageClient_delete storage_exchange request_id (aa_app_id app) (aa_storage_quota_bytes app) key)
        (λ existed, broker_response request_id (BoStorageDeleted existed)) broker_storage_error_response
  | BcPhotoPut _ _ => let^ _ := authorize PhotosWrite in refuse BkInvalidRequest
  | BcPhotoGet key => photo_get key
  | BcPhotoIndexGet =>
      let^ _ := authorize PhotosWrite in
      answer (StorageClient_get storage_exchange request_id PHOTO_LIBRARY_ID PHOTO_LIBRARY_QUOTA_BYTES PHOTO_LIBRARY_HEAD_KEY)
        value_response broker_storage_error_response
  | BcPhotoDelete _ => let^ _ := authorize PhotosWrite in refuse BkInvalidRequest
  | BcPhotoRemove photo_id =>
      let^ _ := authorize PhotosWrite in
      answer (remove_photo request_id photo_id)
        (λ existed, broker_response request_id (BoStorageDeleted existed)) photo_broker_error_response
  | BcTakeIntent => take_intent
  | BcUpdateMediaSession state supported =>
      let^ _ := media_caller (λ app_id tok sessions, (tt, MediaSessionBroker_update sessions app_id tok state supported)) in
      bv_ret (broker_response request_id (BoMediaSessionUpdated state supported))
  | BcTakeMediaAction =>
      let^ action := media_caller (λ app_id tok sessions, MediaSessionBroker_take sessions app_id tok) in
      bv_ret (broker_response request_id match action with Some a => BoMediaAction a | None => BoMediaActionEmpty end)
  | BcOpenDocument | BcCaptureCamera | BcCapturePhoto | BcPhotoImportRgb565 _ | BcPhotoLoadRgb565 _
  | BcPhotoLoadViewRgb565 _ _ _ _ | BcSendIntent _ _ => bv_lift Panicked
  end.

Definition dispatch_photo_import (suggested_id : Z) (descriptor : OwnedFd) : BR BrokerResponse :=
  let^ _ := authorize PhotosWrite in
  match read_photo_frame descriptor with
  | Ok frame =>
      answer (import_app_photo request_id frame suggested_id)
        (λ photo_id, broker_response request_id (BoPhotoImported photo_id)) photo_broker_error_response
  | _ => refuse BkInvalidRequest
  end.

(** [match call { Ok(a) => a, Err(error) => return .. }]. *)
Definition call_or {E A} (m : SM C E A) (err : Z → E → BrokerResponse) : BR A :=
  bv_try (bv_service m) (λ r,
    match r with
    | Ok a => bv_ret a
    | Err e => bv_err (err request_id e)
    | Panicked => bv_lift Panicked
    end).

Definition sealed_or_refuse (frame : list ascii) : BR OwnedFd :=
  match sealed_photo_descriptor frame with Ok descriptor => bv_ret descriptor | _ => refuse BkInternal end.

Definition photo_must_be_active (photo_id : Z) : BR unit :=
  let^ active := call_or (photo_is_active request_id photo_id) photo_broker_error_response in
  if active then bv_ret tt else refuse BkNotFound.

Definition photo_loaded_dispatch (photo_id : Z) (descriptor : OwnedFd) : BrokerDispatch :=
  mkBrokerDispatch (BrokerResponse_photo_loaded request_id photo_id) (Some descriptor) None.

Definition dispatch_photo_load (photo_id : Z) : BR BrokerDispatch :=
  let^ _ := authorize PhotosRead in
  let^ _ := photo_must_be_active photo_id in
  let^ opened := call_or (StorageClient_open_blob request_id PHOTO_LIBRARY_ID PHOTO_LIBRARY_QUOTA_BYTES
                            (photo_blob_key photo_id) (Z.of_nat PHOTO_FRAME_BYTES)) broker_storage_error_response in
  match opened with
  | Some descriptor => bv_ret (photo_loaded_dispatch photo_id descriptor)
  | None =>
      let^ legacy := call_or (load_legacy_photo request_id photo_id) photo_broker_error_response in
      match legacy with
      | Some frame =>
          let^ descriptor := sealed_or_refuse frame in
          bv_ret (photo_loaded_dispatch photo_id descriptor)
      | None => refuse BkNotFound
      end
  end.

(** [cache.render(..)] with the cache behind its lock. *)
Definition render_cached (photo_id zoom_level pan_x pan_y : Z) : BV C PhotoViewError (option (list ascii)) := λ c s w,
  let '(r, services) := PhotoViewCache_render (bk_view c) request_id photo_id zoom_level pan_x pan_y (bk_services c) in
  match r with
  | Ok (frame, cache) => (((Ok frame, mkServices services cache), s), w)
  | Err e => (((Err e, mkServices services (bk_view c)), s), w)
  | Panicked => (((Panicked, mkServices services (bk_view c)), s), w)
  end.

Definition dispatch_photo_view (photo_id zoom_level pan_x pan_y : Z) : BR BrokerDispatch :=
  let^ _ := authorize PhotosRead in
  let^ _ := photo_must_be_active photo_id in
  bv_try (render_cached photo_id zoom_level pan_x pan_y) (λ r,
    match r with
    | Ok (Some frame) =>
        let^ descriptor := sealed_or_refuse frame in
        bv_ret (photo_loaded_dispatch photo_id descriptor)
    | Ok None => dispatch_photo_load photo_id
    | Err e => bv_err (photo_view_error_response request_id e)
    | Panicked => bv_lift Panicked
    end).

(** The manifests of all installed applications. *)
Fixpoint installed_manifests (apps : list InstalledApp) : SV BrokerRefusal (list AppManifest) :=
  match apps with
  | [] => sv_ret []
  | installed :: apps =>
      let@ manifest := sv_map_err (λ _, RefusalError BkInternal) (installed_manifest manifest_from_slice (ia_app_id installed)) in
      let@ rest := installed_manifests apps in
      sv_ret (manifest :: rest)
  end.

Definition dispatch_send_intent (action payload_base64 : string) : BR BrokerDispatch :=
  let^ app := authenticate in
  let^ payload := (match network_decode_base64 payload_base64 with
                   | Ok payload => if (length payload <=? MAX_INTENT_PAYLOAD_BYTES)%nat then bv_ret payload
                                   else refuse BkInvalidRequest
                   | _ => refuse BkInvalidRequest
                   end) in
  let^ _ := bv_server sv_lock in
  let^ am := bv_server (sv_get (λ s, s_manager (sv_state s))) in
  let^ manifests := bv_server (sv_map_err (refusal_response request_id) (installed_manifests (AppManager_installed_apps am))) in
  let^ target := (match select_intent_target action manifests with
                  | Ok target => bv_ret target
                  | Err TargetNotFound => refuse BkNotFound
                  | Err TargetAmbiguous => refuse BkAmbiguous
                  | Panicked => bv_lift Panicked
                  end) in
  let^ queue := bv_server (sv_get (λ s, IntentQueue_enqueue (s_intents (sv_state s)) (aa_app_id app) target action payload)) in
  let^ _ := bv_server (sv_modify (with_state (set_intents queue.2))) in
  match queue.1 with
  | Ok id => bv_ret (mkBrokerDispatch (broker_response request_id (BoIntentAccepted id)) None
                       (Some (mkIntentTransition id (aa_app_id app) target)))
  | _ => refuse BkResourceExhausted
  end.

(** Only the application in front of the user may use the camera. *)
Definition in_foreground (app : AuthorizedApp) : BR unit :=
  let^ _ := bv_server sv_lock in
  let^ foreground := bv_server (sv_get (λ s, runtime_app_is_foreground (sv_runtime s) (aa_app_id app))) in
  if foreground then bv_ret tt else refuse BkUnavailable.

Definition dispatch_camera : BR BrokerDispatch :=
  let^ app := authorize CameraCapture in
  let^ _ := in_foreground app in
  let^ descriptor := call_or (CameraClient_capture request_id) camera_error_response in
  bv_ret (mkBrokerDispatch (BrokerResponse_camera_captured request_id) (Some descriptor) None).

(** [clock] is the time in milliseconds. *)
Definition dispatch_camera_photo (clock : Z) : BR BrokerResponse :=
  let^ app := authorize CameraCapture in
  let^ _ := authorize PhotosWrite in
  let^ _ := in_foreground app in
  let^ captured := call_or (CameraClient_capture_photo request_id) camera_error_response in
  match read_camera_photo (cph_descriptor captured) (cph_jpeg_size_bytes captured) with
  | Ok payload =>
      match decode_photo_payload payload with
      | Ok (thumbnail, jpeg) =>
          answer (import_camera_photo request_id thumbnail jpeg (Z.min clock u64_max))
            (λ photo_id, broker_response request_id (BoPhotoImported photo_id)) photo_broker_error_response
      | _ => refuse BkInternal
      end
  | _ => refuse BkInternal
  end.

Definition open_selected (document : string) : BR BrokerDispatch :=
  let^ opened := call_or (DocumentClient_open request_id document) document_error_response in
  bv_ret (mkBrokerDispatch
            (broker_response request_id (BoDocumentOpened (document_id (od_summary opened)) (size_bytes (od_summary opened))))
            (Some (od_descriptor opened)) None).

Definition selection_pending (prompt : DocumentPrompt) : BrokerDispatch :=
  BrokerDispatch_response (broker_response request_id (BoDocumentSelectionPending (dpr_prompt_id prompt))).

(** An operation on the document prompts, under the lock. *)
Definition with_documents {A} (f : DocumentCoordinator → A * DocumentCoordinator) : BR A :=
  let^ _ := bv_server sv_lock in
  let^ r := bv_server (sv_get (λ s, f (s_documents (sv_state s)))) in
  let^ _ := bv_server (sv_modify (with_state (set_documents r.2))) in
  bv_ret r.1.

Definition dispatch_document : BR BrokerDispatch :=
  let^ app := authorize DocumentsOpen in
  let^ polled := with_documents (λ d, DocumentCoordinator_poll d (aa_app_id app)) in
  match polled with
  | Ok (Selected document) => open_selected document
  | Ok Cancelled => refuse BkDenied
  | Ok (Pending prompt) => bv_ret (selection_pending prompt)
  | Err (DocBusy _) => refuse BkResourceExhausted
  | Err _ => refuse BkInternal
  | Panicked => bv_lift Panicked
  | Ok NeedsDocuments =>
      let^ documents := call_or (DocumentClient_list request_id) document_error_response in
      let^ selection := with_documents (λ d, DocumentCoordinator_request d (aa_app_id app) (aa_app_name app) documents) in
      match selection with
      | Ok (Pending prompt) => bv_ret (selection_pending prompt)
      | Ok (Selected document) => open_selected document
      | Ok Cancelled => refuse BkDenied
      | Ok NeedsDocuments => refuse BkInternal
      | Err DocEmptyDocumentList => refuse BkUnavailable
      | Err (DocBusy prompt) => bv_ret (selection_pending prompt)
      | Err _ => refuse BkInternal
      | Panicked => bv_lift Panicked
      end
  end.

(** The [match] on the command in [handle_broker_connection]. *)
Definition dispatch_command (clock : Z) (command : BrokerCommand) (descriptor : option OwnedFd) : BR BrokerDispatch :=
  let plain (m : BR BrokerResponse) : BR BrokerDispatch := let^ response := m in bv_ret (BrokerDispatch_response response) in
  match command with
  | BcOpenDocument => dispatch_document
  | BcCaptureCamera => dispatch_camera
  | BcCapturePhoto => plain (dispatch_camera_photo clock)
  | BcPhotoImportRgb565 suggested_id =>
      match descriptor with
      | Some descriptor => plain (dispatch_photo_import suggested_id descriptor)
      | None => bv_lift Panicked
      end
  | BcPhotoLoadRgb565 photo_id => dispatch_photo_load photo_id
  | BcPhotoLoadViewRgb565 photo_id zoom_level pan_x pan_y => dispatch_photo_view photo_id zoom_level pan_x pan_y
  | BcSendIntent action payload => dispatch_send_intent action payload
  | _ => plain (dispatch_broker command)
  end.

(** Early returns are responses too. *)
Definition dispatched (clock : Z) (command : BrokerCommand) (descriptor : option OwnedFd) : BV C IoError BrokerDispatch :=
  bv_try (dispatch_command clock command descriptor) (λ r,
    match r with
    | Ok dispatch => bv_ret dispatch
    | Err response => bv_ret (BrokerDispatch_response response)
    | Panicked => bv_lift Panicked
    end).

End broker.

(** ** A connection *)

Section connection.
  Context `{Host} `{System} `{Threads} `{Crypto} `{JpegDecoder} `{Memfd}.
  Context (manifest_from_slice : list ascii → option AppManifest).
  Context {C : Type} `{!Daemon C NetworkRequest NetworkResponse} `{!Daemon C AudioRequest AudioResponse}.
  Context `{!Daemon C GpioRequest GpioResponse} `{!Daemon C RadioRequest RadioResponse}.
  Context `{!Daemon C StorageRequest StorageResponse} `{!FdDaemon C StorageRequest StorageResponse}.
  Context `{!FdDaemon C DocumentRequest DocumentResponse} `{!FdDaemon C CameraRequest CameraResponse}.
  Context (from_slice : list ascii → option BrokerRequest) (to_vec : BrokerResponse → option (list ascii)).

(** What the socket does with a frame to send. *)
Record Outgoing := mkOutgoing { og_write : result IoError unit; og_sendmsg : result IoError nat; og_rest : result IoError unit }.

(** The response is encoded and written, with its descriptor if it has one. *)
Definition send_dispatch (out : Outgoing) (dispatch : BrokerDispatch) : result IoError (list ascii) :=
  let? frame := map_err (λ _, OtherIo) (encode_broker_response to_vec (bd_response dispatch)) in
  match bd_descriptor dispatch with
  | Some _ =>
      let? _ := map_err (λ _ : DocumentProtocolError, OtherIo)
                  (send_frame_with_fd MAX_DOCUMENT_FRAME_BYTES frame (og_sendmsg out) (og_rest out)) in
      Ok frame
  | None => let? _ := og_write out in Ok frame
  end.

Definition cancel_intent (id : Z) : BV C IoError unit :=
  let^ _ := bv_server sv_lock in
  bv_server (sv_modify (with_state (λ st, set_intents (IntentQueue_cancel (s_intents st) id).2 st))).

(** The outcome of the start is only logged. *)
Definition complete_intent_transition (transition : IntentTransition) : BV C IoError unit :=
  bv_try (bv_server (start_app_control manifest_from_slice (it_target_app_id transition))) (λ r,
    match r with Panicked => bv_lift Panicked | _ => bv_ret tt end).

Definition is_photo_import (c : BrokerCommand) : bool := match c with BcPhotoImportRgb565 _ => true | _ => false end.

(** The bytes sent to the application and the descriptor that went along. *)
Definition handle_broker_connection (peer : PeerCredentials) (clock : Z) (incoming : FdReader) (out : Outgoing)
    : BV C IoError (list ascii * option OwnedFd) :=
  match recv_broker_request_with_fd from_slice incoming with
  | Panicked => bv_lift Panicked
  | Err _ =>
      let^ sent := bv_lift (send_dispatch out (BrokerDispatch_response (BrokerResponse_error 0 BkInvalidRequest))) in
      bv_ret (sent, None)
  | Ok (request, descriptor) =>
      let imports_photo := is_photo_import (br_command request) in
      if negb (Bool.eqb imports_photo (bool_decide (is_Some descriptor))) then
        let^ sent := bv_lift (send_dispatch out
                       (BrokerDispatch_response (BrokerResponse_error (br_request_id request) BkInvalidRequest))) in
        bv_ret (sent, None)
      else
        let^ dispatch := dispatched manifest_from_slice peer (br_request_id request) clock (br_command request) descriptor in
        match send_dispatch out dispatch with
        | Panicked => bv_lift Panicked
        | Err e =>
            let^ _ := match bd_transition dispatch with
                      | Some transition => cancel_intent (it_intent_id transition)
                      | None => bv_ret tt
                      end in
            bv_err e
        | Ok sent =>
            let^ _ := match bd_transition dispatch with
                      | Some transition => complete_intent_transition transition
                      | None => bv_ret tt
                      end in
            bv_ret (sent, bd_descriptor dispatch)
        end
  end.

End connection.
