(* ===== verification/BrokerLogic.v ===== *)
(** * What a broker request makes the services do

    [service_step app id command] relates two states of the services: one
    request was sent, and it is a request that the command of the application
    stands for ([stands_for]).  The lemmas show that the handler of a command
    moves the services only by such steps, and only after the caller was
    recognised and holds every permission of the command. *)

From S2P Require Import Prelude RustStr Bytes Manifest HostFs Framing Registry Lifecycle Policy Permissions PermissionPrompt Intent MediaSession DocumentPrompt Package Protocol Server ServerLogic StorageProtocol StorageClient NetworkProtocol PhotoLibrary Descriptor DocumentProtocol AudioProtocol GpioProtocol RadioProtocol CameraProtocol CapabilityClients PhotoView BrokerProtocol Broker.

(** ** Calls of the services *)

Section steps.
  Context {C : Type} (R : C → C → Prop).

(** The state only moves by steps of [R]. *)
Definition sm_moves {E A} (m : SM C E A) : Prop := ∀ c, rtc R c (m c).2.

Lemma moves_lift {E A} (r : result E A) : sm_moves (sm_lift r).
Proof. by intros c. Qed.
Lemma moves_ret {E A} (a : A) : sm_moves (@sm_ret C E A a).
Proof. by intros c. Qed.
Lemma moves_err {E A} (e : E) : sm_moves (@sm_err C E A e).
Proof. by intros c. Qed.
Lemma moves_bind {E A B} (m : SM C E A) (k : A → SM C E B) : sm_moves m → (∀ a, sm_moves (k a)) → sm_moves (sm_bind m k).
Proof.
  intros Hm Hk c. unfold sm_bind. specialize (Hm c). destruct (m c) as [[a|e|] c1]; [|done..].
  by transitivity c1; [|apply Hk].
Qed.
Lemma moves_try {E F A B} (m : SM C E A) (k : result E A → SM C F B) : sm_moves m → (∀ r, sm_moves (k r)) → sm_moves (sm_try m k).
Proof. intros Hm Hk c. unfold sm_try. specialize (Hm c). destruct (m c) as [r c1]. by transitivity c1; [|apply Hk]. Qed.
Lemma moves_map_err {E F A} (f : E → F) (m : SM C E A) : sm_moves m → sm_moves (sm_map_err f m).
Proof. intros Hm c. unfold sm_map_err. specialize (Hm c). by destruct (m c). Qed.
Lemma moves_unit {E A} (m : SM C E A) : sm_moves m → sm_moves (sm_unit m).
Proof. intros Hm. apply moves_bind; [done|]. intros a. apply moves_ret. Qed.
Lemma moves_ignore {E F A} (m : SM C E A) : sm_moves m → sm_moves (@sm_ignore C E F A m).
Proof. intros Hm. apply moves_try; [done|]. intros [a|e|]; [apply moves_ret..|apply moves_lift]. Qed.
Lemma moves_step {E A} (m : SM C E A) : (∀ c, R c (m c).2) → sm_moves m.
Proof. intros Hm c. by apply rtc_once. Qed.
End steps.

(** One step of a proof that an operation moves the services as it may. *)
Ltac moves_step :=
  match goal with
  | |- sm_moves _ (sm_bind _ _) => apply moves_bind; [|intros ?]
  | |- sm_moves _ (sm_try _ _) => apply moves_try; [|intros ?]
  | |- sm_moves _ (sm_map_err _ _) => apply moves_map_err
  | |- sm_moves _ (from_storage _) => apply moves_map_err
  | |- sm_moves _ (sm_lift _) => apply moves_lift
  | |- sm_moves _ (sm_ret _) => apply moves_ret
  | |- sm_moves _ (sm_err _) => apply moves_err
  | |- sm_moves _ (sm_unit _) => apply moves_unit
  | |- sm_moves _ (sm_ignore _) => apply moves_ignore
  | |- sm_moves _ (or_cleanup _ _) => apply moves_try; [|intros ?]
  | |- sm_moves _ (if ?b then _ else _) => destruct b
  | |- sm_moves _ (match ?x with _ => _ end) => destruct x
  | H : context [sm_moves] |- sm_moves _ _ => solve [apply H]
  end.
Ltac moves := repeat moves_step.

(** *** The photo library *)

Section library.
  Context `{Crypto} {C : Type} `{PhotoStorage C} (id : Z) (R : C → C → Prop).
  Hypothesis Hget : ∀ key, sm_moves R (storage_get id key).

Lemma load_page_moves n : sm_moves R (load_page id n).
Proof. unfold load_page. moves. Qed.

Lemma active_pages_moves pages n head photo : sm_moves R (active_pages id pages n head photo).
Proof. pose proof load_page_moves. revert n. induction pages as [|pages IH]; intros n; cbn [active_pages]; moves. Qed.
Lemma photo_is_active_moves photo : sm_moves R (photo_is_active id photo).
Proof. pose proof active_pages_moves. unfold photo_is_active. moves. Qed.
Lemma load_legacy_moves photo : sm_moves R (load_legacy_photo id photo).
Proof.
  assert (∀ chunks, sm_moves R (load_chunks id chunks photo)) as Hl.
  { intros chunks. induction chunks as [|chunk chunks IH]; cbn [load_chunks]; cbv zeta; moves. }
  unfold load_legacy_photo. moves.
Qed.
Lemma camera_original_moves photo : sm_moves R (camera_original id photo).
Proof. unfold camera_original. moves. Qed.

Hypothesis Hput : ∀ key value, sm_moves R (storage_put id key value).
Hypothesis Hdelete : ∀ key, sm_moves R (storage_delete id key).
Hypothesis Hchunk : ∀ key offset total value, sm_moves R (storage_put_blob_chunk id key offset total value).
Hypothesis Hblob : ∀ key, sm_moves R (storage_delete_blob id key).

Lemma store_page_moves n page : sm_moves R (store_page id n page).
Proof. unfold store_page. moves. Qed.
Lemma store_head_moves head : sm_moves R (store_head id head).
Proof. unfold store_head. moves. Qed.
Lemma load_head_moves : sm_moves R (load_head_for_update id).
Proof.
  pose proof load_page_moves. pose proof store_page_moves. pose proof store_head_moves.
  assert (∀ pages n head active previous, sm_moves R (reconcile_pages id pages n head active previous)) as Hr.
  { intros pages. induction pages as [|pages IH]; intros n head active previous; cbn [reconcile_pages]; cbv zeta; moves. }
  unfold load_head_for_update, reconcile_head, migrate_legacy. cbv zeta. moves.
Qed.
Lemma delete_photo_moves photo : sm_moves R (delete_photo_storage id photo).
Proof.
  assert (∀ chunks existed, sm_moves R (delete_chunks id chunks photo existed)) as Hd.
  { intros chunks. induction chunks as [|chunk chunks IH]; intros existed; cbn [delete_chunks]; moves. }
  unfold delete_photo_storage. moves.
Qed.
Lemma put_blob_moves key value : sm_moves R (put_blob id key value).
Proof.
  assert (∀ fuel offset total value, sm_moves R (put_chunks id fuel key offset total value)) as Hp.
  { intros fuel. induction fuel as [|fuel IH]; intros offset total v; cbn [put_chunks]; moves. }
  unfold put_blob. moves.
Qed.
Lemma cleanup_photo_moves photo : sm_moves R (cleanup_photo id photo).
Proof. pose proof delete_photo_moves. unfold cleanup_photo. moves. Qed.

Lemma import_moves frame original : sm_moves R (import_frame_with_original id frame original).
Proof.
  pose proof load_page_moves. pose proof store_page_moves. pose proof store_head_moves. pose proof load_head_moves.
  pose proof put_blob_moves. pose proof cleanup_photo_moves.
  unfold import_frame_with_original, page_of_slot, put_photo, rollback_page. cbv zeta. moves.
Qed.
Lemma remove_moves photo : sm_moves R (remove_photo id photo).
Proof.
  pose proof load_page_moves. pose proof store_page_moves. pose proof store_head_moves. pose proof load_head_moves.
  pose proof delete_photo_moves.
  assert (∀ pages n head, sm_moves R (remove_pages id pages n head photo)) as Hr.
  { intros pages. induction pages as [|pages IH]; intros n head; cbn [remove_pages]; cbv zeta; [moves|].
    unfold remove_from_page. moves. }
  unfold remove_photo, remove_frame. moves.
Qed.
End library.

(** ** What a step of the server leaves alone *)

(** The installed applications, the policy and the disk; the mailboxes change as
    operations of their queue change them, and no permission is granted. *)
Record framed (s s' : Server) (w w' : World) : Prop := {
  fr_manager : s_manager (sv_state s') = s_manager (sv_state s);
  fr_policy : s_policy (sv_state s') = s_policy (sv_state s);
  fr_intents : rtc intent_step (s_intents (sv_state s)) (s_intents (sv_state s'));
  fr_allows : ∀ m p, user_allows s' m p → user_allows s m p;
  fr_disk : w_disk w' = w_disk w;
}.
Definition sv_frame {E A} (m : SV E A) : Prop := ∀ s w, framed s (m s w).1.2 w (m s w).2.

Lemma framed_refl s w : framed s s w w.
Proof. by constructor. Qed.
Lemma framed_trans s1 s2 s3 w1 w2 w3 : framed s1 s2 w1 w2 → framed s2 s3 w2 w3 → framed s1 s3 w1 w3.
Proof. intros [] []. constructor; [congruence..|by etransitivity|by eauto|congruence]. Qed.

Lemma frame_bind {E A B} (m : SV E A) (k : A → SV E B) : sv_frame m → (∀ a, sv_frame (k a)) → sv_frame (sv_bind m k).
Proof.
  intros Hm Hk s w. specialize (Hm s w). unfold sv_bind. destruct (m s w) as [[[a|e|] s1] w1]; simpl in *; [|done..].
  eapply framed_trans; [exact Hm|apply (Hk a s1 w1)].
Qed.
Lemma frame_try {E F A B} (m : SV E A) (k : result E A → SV F B) : sv_frame m → (∀ r, sv_frame (k r)) → sv_frame (sv_try m k).
Proof.
  intros Hm Hk s w. specialize (Hm s w). unfold sv_try. destruct (m s w) as [[r s1] w1]; simpl in *.
  eapply framed_trans; [exact Hm|apply (Hk r s1 w1)].
Qed.
Lemma frame_map_err {E F A} (f : E → F) (m : SV E A) : sv_frame m → sv_frame (sv_map_err f m).
Proof. intros Hm s w. specialize (Hm s w). unfold sv_map_err. by destruct (m s w) as [[r s1] w1]. Qed.
Lemma frame_lift {E A} (r : result E A) : sv_frame (sv_lift r).
Proof. intros s w. apply framed_refl. Qed.
Lemma frame_get {E A} (f : Server → A) : sv_frame (@sv_get E A f).
Proof. intros s w. apply framed_refl. Qed.
Lemma frame_io {E A} (f : ServerState → IO E A) : (∀ st, read_only (f st)) → sv_frame (sv_io f).
Proof.
  intros Hf s w. unfold sv_io. destruct (f (sv_state s) w) as [r w'] eqn:Hr. simpl. constructor; try done.
  by eapply read_only_run.
Qed.
Lemma frame_state {E} f :
  (∀ st, s_manager (f st) = s_manager st ∧ s_policy (f st) = s_policy st ∧ s_permissions (f st) = s_permissions st ∧
         rtc intent_step (s_intents st) (s_intents (f st))) →
  sv_frame (@sv_modify E (with_state f)).
Proof. intros Hf s w. simpl. destruct (Hf (sv_state s)) as (?&?&Hp&?). constructor; try done. unfold user_allows. simpl. by rewrite Hp. Qed.
Lemma frame_request m p : sv_frame (sv_permissions (λ c w, let '(r, c) := PermissionCoordinator_request c m p in ((r, c), w))).
Proof.
  intros s w. unfold sv_permissions. pose proof (request_engine (s_permissions (sv_state s)) m p) as He.
  destruct (PermissionCoordinator_request _ m p) as [r c]. cbn in He |- *. constructor; try done. unfold user_allows. simpl. by rewrite He.
Qed.
Lemma env_mailboxes s s' : env_step s s' → rtc intent_step (s_intents (sv_state s)) (s_intents (sv_state s')).
Proof.
  destruct 1 as [tok s|tok app crashed s|m p s|q s|d s|b s|q s Hq|n s]; try done.
  - unfold monitor_take. by destruct (take_runtime_end _ _).
  - by destruct crashed.
Qed.
Lemma frame_lock `{Threads} {E} : tame _ → sv_frame (@sv_lock _ E).
Proof.
  intros Ht s w. specialize (Ht (sv_clock s) s). unfold sv_lock. simpl. set (clock := S (sv_clock s)). clearbody clock.
  revert Ht. generalize (other_threads (sv_clock s) s). intros s' Ht.
  induction Ht as [|s1 s2 s3 Hs _ IH]; [by constructor|]. eapply framed_trans; [|exact IH].
  destruct (env_same _ _ Hs) as (Hm&Hp&_). constructor; [done..|by apply env_mailboxes|intros m p; by apply env_allows|done].
Qed.

Section frames.
  Context `{Host} `{System} `{Threads} (from_slice : list ascii → option AppManifest).
  Hypothesis (Ht : tame _) (Hq : quiet _).

Ltac frame_step :=
  match goal with
  | |- sv_frame (sv_bind _ _) => apply frame_bind; [|intros ?]
  | |- sv_frame (sv_try _ _) => apply frame_try; [|intros ?]
  | |- sv_frame (sv_map_err _ _) => apply frame_map_err
  | |- sv_frame (sv_modify (with_state _)) => apply frame_state; by intros []
  | |- sv_frame (if ?b then _ else _) => destruct b
  | |- sv_frame (match ?x with _ => _ end) => destruct x
  | |- sv_frame sv_lock => by apply frame_lock
  | |- sv_frame (sv_get _) => apply frame_get
  | |- sv_frame (sv_io _) => apply frame_io; intros ?
  | |- sv_frame _ => apply frame_lift
  end.

Lemma read_only_installed am app_id : read_only (AppManager_installed_manifest from_slice am app_id).
Proof.
  unfold AppManager_installed_manifest. repeat first [apply read_only_manifest; done | apply read_only_bind; [|intros ?]];
    auto with reads.
Qed.
Lemma installed_manifest_frame app_id : sv_frame (installed_manifest from_slice app_id).
Proof. unfold installed_manifest. repeat frame_step. apply read_only_installed. Qed.
Lemma authenticate_frame peer : sv_frame (authenticate_broker_caller from_slice peer).
Proof.
  pose proof installed_manifest_frame. unfold authenticate_broker_caller. repeat (auto; frame_step).
  apply read_only_bind; [|intros ?; apply (read_only_lift (Ok _))]. apply read_only_bind; [by apply read_only_read_file|].
  intros ?. apply read_only_lift.
Qed.
Lemma authorize_frame peer p : sv_frame (authorize_broker_caller from_slice peer p).
Proof.
  pose proof installed_manifest_frame. pose proof authenticate_frame. unfold authorize_broker_caller.
  repeat (auto; frame_step). apply frame_request.
Qed.
Lemma media_caller_frame {A} peer (op : string → Z → MediaSessionBroker → A * MediaSessionBroker) :
  sv_frame (with_current_media_caller from_slice peer op).
Proof.
  pose proof authenticate_frame. unfold with_current_media_caller. repeat (auto; frame_step).
Qed.

(** *** The caller *)

(** The kernel reports the caller under the user of an installed application
    and inside its unit; the quota is that of the valid manifest. *)
Definition recognised (peer : PeerCredentials) (app : AuthorizedApp) (d : Disk) (s : Server) : Prop :=
  ∃ a m cgroup, apps (am_registry (s_manager (sv_state s))) !! aa_app_id app = Some a ∧ unix_uid a = peer_uid peer ∧
    contents_at d ("/proc/" +:+ decimal (peer_pid peer) +:+ "/cgroup") = Some cgroup ∧
    cgroup_contains_unit (String.string_of_list_ascii cgroup)
      ("cardputerzero-app-" +:+ decimal (account_id a) +:+ ".service") = true ∧
    manifest_validate m = Ok tt ∧ m_id m = aa_app_id app ∧
    aa_storage_quota_bytes app = (storage_mb (m_resources m) * 1048576)%Z.

Lemma authenticate_quota peer app s s' w w' :
  authenticate_broker_caller from_slice peer s w = ((Ok app, s'), w') →
  ∃ m, manifest_validate m = Ok tt ∧ m_id m = aa_app_id app ∧
    aa_storage_quota_bytes app = (storage_mb (m_resources m) * 1048576)%Z.
Proof.
  intros Hrun. unfold authenticate_broker_caller in Hrun. apply sv_bind_Ok in Hrun as (?&?&?&_&Hrun).
  apply sv_bind_Ok in Hrun as (?&?&?&_&Hrun). apply sv_bind_Ok in Hrun as ([i|]&?&?&_&Hrun); [|done].
  apply sv_bind_Ok in Hrun as (?&?&?&_&Hrun). apply sv_bind_Ok in Hrun as (inside&?&?&_&Hrun).
  destruct inside; [|done]. cbn [negb] in Hrun.
  apply sv_bind_Ok in Hrun as (m&?&?&(a1&_&_&Hv&Hid&_)%sv_map_err_Ok%(installed_manifest_on _ _ _ _ _ _ _ Hq)&Hrun).
  injection Hrun as <- _ _. by exists m.
Qed.

Lemma authenticate_recognised peer app s s' w w' :
  authenticate_broker_caller from_slice peer s w = ((Ok app, s'), w') → recognised peer app (w_disk w) s.
Proof.
  intros Hrun. destruct (authenticate_quota _ _ _ _ _ _ Hrun) as (m&?&?&?).
  apply authenticate_Ok in Hrun as (_&_&a&cg&?&?&?&?); [|done..]. by exists a, m, cg.
Qed.

Lemma authorize_recognised peer p app s s' w w' :
  authorize_broker_caller from_slice peer p s w = ((Ok app, s'), w') → recognised peer app (w_disk w) s.
Proof.
  intros Hrun. unfold authorize_broker_caller in Hrun.
  apply sv_bind_Ok in Hrun as (app1&s1&w1&Ha&Hrun). apply authenticate_recognised in Ha as (a&m1&cg&Hr1&Hr2&Hr3&Hr4&Hr5&Hr6&Hr7).
  apply sv_bind_Ok in Hrun as (?&s2&?&_&Hrun).
  apply sv_bind_Ok in Hrun as (m&?&?&(a2&_&_&_&Hid&_)%sv_map_err_Ok%(installed_manifest_on _ _ _ _ _ _ _ Hq)&Hrun).
  apply sv_bind_Ok in Hrun as (denied&?&?&_&Hrun). destruct denied; [done|]. unfold sv_try in Hrun.
  destruct (sv_permissions _ _ _) as [[[[]|[]|] s3] w3]; try done. injection Hrun as <- _ _.
  exists a, m1, cg. simpl. rewrite Hid. by split_and!.
Qed.

(** Which application calls is decided by its user and the registry. *)
Lemma authenticate_named peer app s s' w w' :
  authenticate_broker_caller from_slice peer s w = ((Ok app, s'), w') →
  ∃ i, AppManager_installed_app_for_uid (s_manager (sv_state s)) (peer_uid peer) = Ok (Some i) ∧ ia_app_id i = aa_app_id app.
Proof.
  intros Hrun. unfold authenticate_broker_caller in Hrun. apply sv_bind_Ok in Hrun as (?&?&?&(Hm&_&_)%sv_lock_Ok&Hrun); [|done].
  apply sv_bind_Ok in Hrun as (am&?&?&Hget&Hrun). injection Hget as <- <- <-. rewrite Hm in Hrun.
  apply sv_bind_Ok in Hrun as ([i|]&?&?&Hi&Hrun); [|done]. apply sv_bind_Ok in Hrun as (?&?&?&_&Hrun).
  apply sv_bind_Ok in Hrun as ([]&?&?&_&Hrun); [|done]. cbn [negb] in Hrun.
  apply sv_bind_Ok in Hrun as (m&?&?&(a1&_&_&_&Hid&_)%sv_map_err_Ok%(installed_manifest_on _ _ _ _ _ _ _ Hq)&Hrun).
  injection Hrun as <- _ _. exists i. unfold sv_lift in Hi. injection Hi as Hi _ _.
  split; [|done]. by destruct (AppManager_installed_app_for_uid _ _); simplify_eq/=.
Qed.
Lemma authorize_named peer p app s s' w w' :
  authorize_broker_caller from_slice peer p s w = ((Ok app, s'), w') →
  ∃ i, AppManager_installed_app_for_uid (s_manager (sv_state s)) (peer_uid peer) = Ok (Some i) ∧ ia_app_id i = aa_app_id app.
Proof.
  intros Hrun. unfold authorize_broker_caller in Hrun.
  apply sv_bind_Ok in Hrun as (app1&s1&w1&(i&Hi&Hname)%authenticate_named&Hrun). exists i. split; [done|].
  apply sv_bind_Ok in Hrun as (?&s2&?&_&Hrun).
  apply sv_bind_Ok in Hrun as (m&?&?&(a2&_&_&_&Hid&_)%sv_map_err_Ok%(installed_manifest_on _ _ _ _ _ _ _ Hq)&Hrun).
  apply sv_bind_Ok in Hrun as (denied&?&?&_&Hrun). destruct denied; [done|]. unfold sv_try in Hrun.
  destruct (sv_permissions _ _ _) as [[[[]|[]|] s3] w3]; try done. injection Hrun as <- _ _. simpl. congruence.
Qed.

(** The caller is recognised, and holds every permission of the command: the
    decisions of the user and the policy are those of the server [s]. *)
Definition entitled (peer : PeerCredentials) (permissions : list Permission) (app : AuthorizedApp) (d : Disk) (s : Server) : Prop :=
  recognised peer app d s ∧ Forall (λ p, authorized from_slice peer p app d s) permissions.

Lemma authorize_entitled peer p app s s' w w' :
  authorize_broker_caller from_slice peer p s w = ((Ok app, s'), w') → entitled peer [p] app (w_disk w) s.
Proof.
  intros Hrun. split; [by eapply authorize_recognised|]. constructor; [|constructor].
  pose proof (authorize_frame peer p s w) as [Hm Hp _ Hg _]. rewrite Hrun in Hm, Hp, Hg.
  eapply authorized_back; [exact Hm|exact Hp|intros m; apply Hg|by eapply authorize_Ok].
Qed.

(** A second check concerns the same application. *)
Lemma authorize_again peer p q app app' s s1 s2 w w1 w2 :
  authorize_broker_caller from_slice peer p s w = ((Ok app, s1), w1) →
  authorize_broker_caller from_slice peer q s1 w1 = ((Ok app', s2), w2) → entitled peer [p; q] app (w_disk w) s.
Proof.
  intros Hp Hrun. pose proof (authorize_frame peer p s w) as [Hm1 Hp1 _ Hg1 Hd1]. rewrite Hp in Hm1, Hp1, Hg1, Hd1. simpl in *.
  destruct (authorize_named _ _ _ _ _ _ _ Hp) as (i&Hi&Hname). destruct (authorize_named _ _ _ _ _ _ _ Hrun) as (i'&Hi'&Hname').
  rewrite Hm1, Hi in Hi'. injection Hi' as <-. rewrite Hname in Hname'.
  apply authorize_entitled in Hp as [Hrec Hauth]. split; [done|]. apply Forall_cons in Hauth as [Hauth _].
  apply authorize_entitled in Hrun as [_ Hauth']. apply Forall_cons in Hauth' as [Hauth' _].
  constructor; [done|]. constructor; [|constructor].
  eapply authorized_back; [exact Hm1|exact Hp1|intros m; apply Hg1|]. destruct Hauth' as (a&m&cg&Ha). exists a, m, cg.
  by rewrite Hname', <- Hd1.
Qed.
End frames.

(** ** The requests a command stands for *)

Inductive ServiceRequest :=
  | SrNetwork (r : NetworkRequest) | SrAudio (r : AudioRequest) | SrGpio (r : GpioRequest) | SrRadio (r : RadioRequest)
  | SrStorage (r : StorageRequest) | SrOpenBlob (r : StorageRequest) | SrDocument (r : DocumentRequest) | SrCamera (r : CameraRequest).

(** The permissions that the caller must hold. *)
Definition command_permissions (command : BrokerCommand) : list Permission :=
  match command with
  | BcPostNotification _ _ => [NotificationsPost]
  | BcHttpGet _ | BcHttpGetRange _ _ _ => [NetworkClient]
  | BcOpenDocument => [DocumentsOpen]
  | BcPlayAudio _ | BcPlayAudioStereo48k _ => [AudioPlayback]
  | BcCaptureAudio _ => [AudioCapture]
  | BcCaptureCamera => [CameraCapture]
  | BcCapturePhoto => [CameraCapture; PhotosWrite]
  | BcReadGpio _ | BcWriteGpio _ _ => [HardwareGpio]
  | BcSendLora _ | BcReceiveLora _ => [RadioLora]
  | BcPhotoGet _ | BcPhotoLoadRgb565 _ | BcPhotoLoadViewRgb565 _ _ _ _ => [PhotosRead]
  | BcPhotoPut _ _ | BcPhotoIndexGet | BcPhotoDelete _ | BcPhotoImportRgb565 _ | BcPhotoRemove _ => [PhotosWrite]
  | BcPlayKeyClick | BcStoragePut _ _ | BcStorageGet _ | BcStorageDelete _ | BcSendIntent _ _ | BcTakeIntent
  | BcUpdateMediaSession _ _ | BcTakeMediaAction => []
  end.

(** Commands that read the photo library, and those that change it. *)
Definition reads_library (command : BrokerCommand) : bool :=
  match command with
  | BcPhotoGet _ | BcPhotoIndexGet | BcPhotoLoadRgb565 _ | BcPhotoLoadViewRgb565 _ _ _ _ => true
  | _ => false
  end.
Definition writes_library (command : BrokerCommand) : bool :=
  match command with BcPhotoImportRgb565 _ | BcPhotoRemove _ | BcCapturePhoto => true | _ => false end.

(** Requests that leave a store as it is. *)
Definition only_reads (c : StorageCommand) : bool :=
  match c with ScGet _ | ScGetBlobChunk _ _ _ | ScOpenBlob _ _ | ScUsage => true | _ => false end.

Definition photo_request (id : Z) (c : StorageCommand) : StorageRequest :=
  storage_request id PHOTO_LIBRARY_ID PHOTO_LIBRARY_QUOTA_BYTES c.
Definition own_request (id : Z) (app : AuthorizedApp) (c : StorageCommand) : StorageRequest :=
  storage_request id (aa_app_id app) (aa_storage_quota_bytes app) c.

Inductive stands_for (app : AuthorizedApp) (id : Z) : BrokerCommand → ServiceRequest → Prop :=
  | sf_http_get url : stands_for app id (BcHttpGet url) (SrNetwork (NetworkRequest_http_get id url))
  | sf_http_range url o n : stands_for app id (BcHttpGetRange url o n) (SrNetwork (NetworkRequest_http_get_range id url o n))
  | sf_play s samples : decode_samples s = Ok samples →
      stands_for app id (BcPlayAudio s) (SrAudio (AudioRequest_playback id samples))
  | sf_play_stereo s samples : decode_music_samples s = Ok samples →
      stands_for app id (BcPlayAudioStereo48k s) (SrAudio (AudioRequest_playback_stereo_48k id samples))
  | sf_click : stands_for app id BcPlayKeyClick (SrAudio (AudioRequest_play_key_click id))
  | sf_capture n : stands_for app id (BcCaptureAudio n) (SrAudio (AudioRequest_capture id n))
  | sf_gpio_read line : stands_for app id (BcReadGpio line) (SrGpio (GpioRequest_read id line))
  | sf_gpio_write line v : stands_for app id (BcWriteGpio line v) (SrGpio (GpioRequest_write id line v))
  | sf_send s payload : radio_decode_payload s = Ok payload →
      stands_for app id (BcSendLora s) (SrRadio (RadioRequest_send_lora id payload))
  | sf_receive t : stands_for app id (BcReceiveLora t) (SrRadio (RadioRequest_receive_lora id t))
  | sf_put key s value : decode_value s = Ok value →
      stands_for app id (BcStoragePut key s) (SrStorage (own_request id app (ScPut key (encode_base64 value))))
  | sf_get key : stands_for app id (BcStorageGet key) (SrStorage (own_request id app (ScGet key)))
  | sf_delete key : stands_for app id (BcStorageDelete key) (SrStorage (own_request id app (ScDelete key)))
  | sf_read command c : reads_library command = true → only_reads c = true →
      stands_for app id command (SrStorage (photo_request id c))
  | sf_write command c : writes_library command = true → stands_for app id command (SrStorage (photo_request id c))
  | sf_blob command key n : reads_library command = true →
      stands_for app id command (SrOpenBlob (photo_request id (ScOpenBlob key n)))
  | sf_list : stands_for app id BcOpenDocument (SrDocument (document_request id DcList))
  | sf_open document : stands_for app id BcOpenDocument (SrDocument (document_request id (DcOpen document)))
  | sf_camera : stands_for app id BcCaptureCamera (SrCamera (camera_request id CaptureRgb565))
  | sf_photo : stands_for app id BcCapturePhoto (SrCamera (camera_request id CamCapturePhoto)).

Section broker.
  Context `{Host} `{System} `{Threads} `{Crypto} `{JpegDecoder} `{Memfd} (manifest_from_slice : list ascii → option AppManifest).
  Context {C : Type} `{DN : !Daemon C NetworkRequest NetworkResponse} `{DA : !Daemon C AudioRequest AudioResponse}.
  Context `{DG : !Daemon C GpioRequest GpioResponse} `{DR : !Daemon C RadioRequest RadioResponse}.
  Context `{DS : !Daemon C StorageRequest StorageResponse} `{FS : !FdDaemon C StorageRequest StorageResponse}.
  Context `{FD : !FdDaemon C DocumentRequest DocumentResponse} `{FC : !FdDaemon C CameraRequest CameraResponse}.

#[local] Existing Instance broker_photo_storage.

(** A service receives a request: it passed the check and fitted its frame. *)
Inductive receives : ServiceRequest → C → C → Prop :=
  | rx_network r bs c : network_write_request daemon_to_vec r = Ok bs → receives (SrNetwork r) c (@daemon_call _ _ _ DN bs c).2
  | rx_audio r bs c : audio_write_request daemon_to_vec r = Ok bs → receives (SrAudio r) c (@daemon_call _ _ _ DA bs c).2
  | rx_gpio r bs c : gpio_write_request daemon_to_vec r = Ok bs → receives (SrGpio r) c (@daemon_call _ _ _ DG bs c).2
  | rx_radio r bs c : radio_write_request daemon_to_vec r = Ok bs → receives (SrRadio r) c (@daemon_call _ _ _ DR bs c).2
  | rx_storage r bs c : storage_write_request daemon_to_vec r = Ok bs → receives (SrStorage r) c (@daemon_call _ _ _ DS bs c).2
  | rx_blob r bs c : storage_write_request fd_daemon_to_vec r = Ok bs → receives (SrOpenBlob r) c (@fd_daemon_call _ _ _ FS bs c).2
  | rx_document r bs c : document_write_request fd_daemon_to_vec r = Ok bs → receives (SrDocument r) c (@fd_daemon_call _ _ _ FD bs c).2
  | rx_camera r bs c : camera_write_request fd_daemon_to_vec r = Ok bs → receives (SrCamera r) c (@fd_daemon_call _ _ _ FC bs c).2.

Definition service_step (app : AuthorizedApp) (id : Z) (command : BrokerCommand) (c c' : C) : Prop :=
  ∃ r, stands_for app id command r ∧ receives r c c'.

Section allowed.
  Context (app : AuthorizedApp) (id : Z) (command : BrokerCommand).
Notation step := (service_step app id command).

(** The shape of every exchange: write the request, call the service, and look
    at the answer. *)
Lemma exchange_moves {W E F A B} (written : result E W) (f : E → F) (call : W → SM C A B) (g : A → F) {D} (k : B → SM C F D) :
  (∀ bs c, written = Ok bs → step c (call bs c).2) → (∀ b, sm_moves step (k b)) →
  sm_moves step (let+ bs := sm_lift (map_err f written) in let+ reader := sm_map_err g (call bs) in k reader).
Proof.
  intros Hcall Hk c. unfold sm_bind, sm_lift, sm_map_err. destruct written as [bs| |]; simpl; [|done..].
  specialize (Hcall bs c eq_refl). destruct (call bs c) as [[b|a|] c1]; simpl in *; try by apply rtc_once.
  eapply rtc_l; [done|]. apply Hk.
Qed.

Ltac exchange constructor := apply exchange_moves; [intros bs c Hbs; eexists; split; [eassumption|by apply constructor]|intros; moves].

Lemma network_moves r : stands_for app id command (SrNetwork r) → sm_moves step (NetworkClient_exchange r).
Proof. intros Hr. unfold NetworkClient_exchange. exchange rx_network. Qed.
Lemma audio_moves r : stands_for app id command (SrAudio r) → sm_moves step (AudioClient_exchange r).
Proof. intros Hr. unfold AudioClient_exchange. exchange rx_audio. Qed.
Lemma gpio_moves r : stands_for app id command (SrGpio r) → sm_moves step (GpioClient_exchange r).
Proof. intros Hr. unfold GpioClient_exchange. exchange rx_gpio. Qed.
Lemma radio_moves r : stands_for app id command (SrRadio r) → sm_moves step (RadioClient_exchange r).
Proof. intros Hr. unfold RadioClient_exchange. exchange rx_radio. Qed.
Lemma storage_moves r : stands_for app id command (SrStorage r) → sm_moves step (storage_exchange r).
Proof. intros Hr. unfold storage_exchange, StorageClient_exchange. exchange rx_storage. Qed.
Lemma blob_moves r n : stands_for app id command (SrOpenBlob r) → sm_moves step (exchange_open_blob r n).
Proof. intros Hr. unfold exchange_open_blob. exchange rx_blob. Qed.
Lemma document_moves r : stands_for app id command (SrDocument r) → sm_moves step (DocumentClient_exchange r).
Proof. intros Hr. unfold DocumentClient_exchange. exchange rx_document. Qed.
Lemma camera_moves r : stands_for app id command (SrCamera r) → sm_moves step (CameraClient_exchange r).
Proof. intros Hr. unfold CameraClient_exchange. exchange rx_camera. Qed.

(** Reading the photo library, and changing it. *)
Lemma library_get_moves key :
  reads_library command = true ∨ writes_library command = true →
  sm_moves step (storage_get id key).
Proof.
  intros Hc. apply moves_bind; [|intros []; simpl; moves]. apply storage_moves.
  destruct Hc; [by apply sf_read|by apply sf_write].
Qed.

Section writing.
  Hypothesis Hw : writes_library command = true.

Lemma library_put_moves key value : sm_moves step (storage_put id key value).
Proof. apply moves_unit, moves_bind; [|intros []; moves]. by apply storage_moves, sf_write. Qed.
Lemma library_delete_moves key : sm_moves step (storage_delete id key).
Proof. apply moves_bind; [|intros []; simpl; moves]. by apply storage_moves, sf_write. Qed.
Lemma library_chunk_moves key offset total value :
  sm_moves step (storage_put_blob_chunk id key offset total value).
Proof.
  cbn. destruct (_ || _); [moves|]. apply moves_unit, moves_bind; [|intros []; moves]. by apply storage_moves, sf_write.
Qed.
Lemma library_blob_moves key : sm_moves step (storage_delete_blob id key).
Proof. apply moves_bind; [|intros []; simpl; moves]. by apply storage_moves, sf_write. Qed.

Lemma library_import_moves frame original :
  sm_moves step (import_frame_with_original id frame original).
Proof.
  apply import_moves; intros; [apply library_get_moves; by right|apply library_put_moves|apply library_delete_moves
    |apply library_chunk_moves|apply library_blob_moves].
Qed.
Lemma library_remove_moves photo : sm_moves step (remove_photo id photo).
Proof.
  apply remove_moves; intros; [apply library_get_moves; by right|apply library_put_moves|apply library_delete_moves
    |apply library_blob_moves].
Qed.
End writing.

(** *** Handlers *)

Definition bv_moves {E A} (m : BV C E A) : Prop := ∀ c s w, rtc step (bk_services c) (bk_services (m c s w).1.1.2).

Lemma bv_moves_lift {E A} (r : result E A) : bv_moves (bv_lift r).
Proof. by intros c s w. Qed.
Lemma bv_moves_bind {E A B} (m : BV C E A) (k : A → BV C E B) : bv_moves m → (∀ a, bv_moves (k a)) → bv_moves (bv_bind m k).
Proof.
  intros Hm Hk c s w. unfold bv_bind. specialize (Hm c s w). destruct (m c s w) as [[[[a|e|] c1] s1] w1]; [|done..].
  etransitivity; [done|]. apply Hk.
Qed.
Lemma bv_moves_try {E F A B} (m : BV C E A) (k : result E A → BV C F B) :
  bv_moves m → (∀ r, bv_moves (k r)) → bv_moves (bv_try m k).
Proof.
  intros Hm Hk c s w. unfold bv_try. specialize (Hm c s w). destruct (m c s w) as [[[r c1] s1] w1].
  etransitivity; [done|]. apply Hk.
Qed.
Lemma bv_moves_server {E A} (m : SV E A) : bv_moves (bv_server m).
Proof. intros c s w. unfold bv_server. by destruct (m s w) as [[r s1] w1]. Qed.
Lemma bv_moves_service {E A} (m : SM C E A) : sm_moves step m → bv_moves (bv_service m).
Proof. intros Hm c s w. unfold bv_service. specialize (Hm (bk_services c)). by destruct (m (bk_services c)). Qed.
Lemma bv_moves_answer {E A} (m : SM C E A) ok err : sm_moves step m → bv_moves (answer id m ok err).
Proof.
  intros Hm. apply bv_moves_try; [by apply bv_moves_service|]. intros [a|e|]; apply bv_moves_lift.
Qed.
Lemma bv_moves_call {E A} (m : SM C E A) err : sm_moves step m → bv_moves (call_or id m err).
Proof.
  intros Hm. apply bv_moves_try; [by apply bv_moves_service|]. intros [a|e|]; apply bv_moves_lift.
Qed.

Lemma bv_moves_refuse {A} code : bv_moves (@refuse C id A code).
Proof. apply bv_moves_lift. Qed.

(** The calls of the clients. *)
Lemma value_moves o : sm_moves step (value_of_outcome o).
Proof. unfold value_of_outcome. moves. Qed.
Lemma deleted_moves o : sm_moves step (deleted_of_outcome o).
Proof. unfold deleted_of_outcome. moves. Qed.

Section reading.
  Hypothesis Hr : reads_library command = true.

Lemma photo_must_be_active_moves photo : bv_moves (photo_must_be_active id photo).
Proof.
  unfold photo_must_be_active. apply bv_moves_bind; [|intros []; apply bv_moves_lift]. 
  apply bv_moves_call, photo_is_active_moves. intros. apply library_get_moves. by left.
Qed.
Lemma library_open_moves key n :
  sm_moves step (StorageClient_open_blob id PHOTO_LIBRARY_ID PHOTO_LIBRARY_QUOTA_BYTES key n).
Proof. unfold StorageClient_open_blob. by apply blob_moves, sf_blob. Qed.
Lemma library_chunk_read_moves key offset n :
  sm_moves step (StorageClient_get_blob_chunk storage_exchange id PHOTO_LIBRARY_ID PHOTO_LIBRARY_QUOTA_BYTES key offset n).
Proof. unfold StorageClient_get_blob_chunk. apply moves_bind; [by apply storage_moves, sf_read|apply value_moves]. Qed.
Lemma render_cached_moves photo zoom x y : bv_moves (render_cached id photo zoom x y).
Proof.
  intros c s w. unfold render_cached.
  assert (sm_moves step (PhotoViewCache_render (bk_view c) id photo zoom x y)) as Hm.
  { unfold PhotoViewCache_render, load_decoded. pose proof library_open_moves.
    pose proof (camera_original_moves id step (λ key, library_get_moves key (or_introl Hr)) photo). moves. }
  specialize (Hm (bk_services c)). by destruct (PhotoViewCache_render _ _ _ _ _ _ _) as [[[frame cache]|e|] c1].
Qed.
End reading.
End allowed.

Ltac bv_moves_step :=
  match goal with
  | |- bv_moves _ _ _ (bv_bind _ _) => apply bv_moves_bind; [|intros ?]
  | |- bv_moves _ _ _ (bv_try _ _) => apply bv_moves_try; [|intros ?]
  | |- bv_moves _ _ _ (bv_server _) => apply bv_moves_server
  | |- bv_moves _ _ _ (bv_lift _) => apply bv_moves_lift
  | |- bv_moves _ _ _ (bv_ret _) => apply bv_moves_lift
  | |- bv_moves _ _ _ (bv_err _) => apply bv_moves_lift
  | |- bv_moves _ _ _ (refuse _ _) => apply bv_moves_lift
  | |- bv_moves _ _ _ (answer _ _ _ _) => apply bv_moves_answer
  | |- bv_moves _ _ _ (call_or _ _ _) => apply bv_moves_call
  | |- bv_moves _ _ _ (photo_must_be_active _ _) => by apply photo_must_be_active_moves
  | |- bv_moves _ _ _ (render_cached _ _ _ _ _) => by apply render_cached_moves
  | |- bv_moves _ _ _ (sealed_or_refuse _ _) => unfold sealed_or_refuse
  | |- bv_moves _ _ _ (with_documents _) => unfold with_documents
  | |- bv_moves _ _ _ (in_foreground _ _) => unfold in_foreground
  | |- bv_moves _ _ _ (if ?b then _ else _) => destruct b
  | |- bv_moves _ _ _ (match ?x with _ => _ end) => destruct x eqn:?
  end.
Ltac bv_moves := repeat bv_moves_step.

Ltac client exchange :=
  intros; unfold NetworkClient_http_get, NetworkClient_http_get_range, AudioClient_play, AudioClient_play_stereo_48k,
    AudioClient_play_key_click, AudioClient_capture, GpioClient_read, GpioClient_write, RadioClient_send, RadioClient_receive,
    StorageClient_put, StorageClient_get, StorageClient_delete, DocumentClient_list, DocumentClient_open,
    CameraClient_capture, CameraClient_capture_photo;
  apply moves_bind; [eapply exchange; subst; by econstructor
                    |intros [] || intros ?; cbn; first [apply value_moves|apply deleted_moves|moves]].

(** *** Requests are served after the check of the caller *)

Section serving.
  Hypothesis (Ht : tame _) (Hq : quiet _).
  Context (peer : PeerCredentials) (id : Z).

(** The services stay as they are, unless the caller is entitled to the
    command; then they move by requests it stands for. *)
Definition served {E A} (permissions : list Permission) (command : BrokerCommand) (m : BV C E A) : Prop := ∀ c s w,
  bk_services (m c s w).1.1.2 = bk_services c ∨
  ∃ app, entitled manifest_from_slice peer permissions app (w_disk w) s ∧
    rtc (service_step app id command) (bk_services c) (bk_services (m c s w).1.1.2).

Lemma served_try {E F A B} ps command (m : BV C E A) (k : result E A → BV C F B) :
  served ps command m → (∀ r, ∃ r', k r = bv_lift r') → served ps command (bv_try m k).
Proof.
  intros Hm Hk c s w. unfold bv_try. specialize (Hm c s w). destruct (m c s w) as [[[r c1] s1] w1].
  by destruct (Hk r) as [r' ->].
Qed.
Lemma served_plain {E A B} ps command (m : BV C E A) (f : A → B) :
  served ps command m → served ps command (let^ a := m in bv_ret (f a)).
Proof.
  intros Hm c s w. unfold bv_bind. specialize (Hm c s w). by destruct (m c s w) as [[[[a|e|] c1] s1] w1].
Qed.
Lemma served_panic {E A} ps command : served ps command (@bv_lift C E A Panicked).
Proof. intros c s w. by left. Qed.

Lemma served_server {E A B} ps command (m : SV E A) (k : A → BV C E B) :
  (∀ a s s' w w', m s w = ((Ok a, s'), w') → ∃ app, entitled manifest_from_slice peer ps app (w_disk w) s ∧
     ∀ c, rtc (service_step app id command) (bk_services c) (bk_services (k a c s' w').1.1.2)) →
  served ps command (bv_bind (bv_server m) k).
Proof.
  intros Hm c s w. unfold bv_bind, bv_server. destruct (m s w) as [[[a|e|] s1] w1] eqn:Hr; [|by left..].
  right. destruct (Hm _ _ _ _ _ Hr) as (app&Hp&Hk). by exists app.
Qed.

Lemma served_authorize {A} p command (k : AuthorizedApp → BV C BrokerResponse A) :
  (∀ app, bv_moves app id command (k app)) → served [p] command (let^ app := authorize manifest_from_slice peer id p in k app).
Proof.
  intros Hk. apply served_server. intros app s s' w w' Hrun%sv_map_err_Ok. exists app. split; [by eapply authorize_entitled|].
  intros c. apply Hk.
Qed.
Lemma served_authenticate {A} command (k : AuthorizedApp → BV C BrokerResponse A) :
  (∀ app, bv_moves app id command (k app)) → served [] command (let^ app := authenticate manifest_from_slice peer id in k app).
Proof.
  intros Hk. apply served_server. intros app s s' w w' Hrun%sv_map_err_Ok. exists app. split; [|intros c; apply Hk].
  split; [by eapply authenticate_recognised|constructor].
Qed.
Lemma served_media {A B} command op (k : A → BV C BrokerResponse B) :
  (∀ app a, bv_moves app id command (k a)) → served [] command (let^ a := media_caller manifest_from_slice peer id op in k a).
Proof.
  intros Hk. apply served_server. intros a s s' w w' Hrun%sv_map_err_Ok. unfold with_current_media_caller in Hrun.
  apply sv_bind_Ok in Hrun as (app&s1&w1&Ha&_). exists app. split; [|intros c; apply Hk].
  split; [by eapply authenticate_recognised|constructor].
Qed.

(** Two permissions, one after the other. *)
Lemma served_authorize_both {A} p q command (k : AuthorizedApp → BV C BrokerResponse A) :
  (∀ app, bv_moves app id command (k app)) →
  served [p; q] command (let^ app := authorize manifest_from_slice peer id p in
                         let^ _ := authorize manifest_from_slice peer id q in k app).
Proof.
  intros Hk c s w. unfold authorize, bv_bind, bv_server.
  destruct (sv_map_err _ _ s w) as [[[app|e|] s1] w1] eqn:Hp; [|by left..].
  destruct (sv_map_err _ _ s1 w1) as [[[app'|e|] s2] w2] eqn:Hrun; [|by left..].
  apply sv_map_err_Ok in Hp, Hrun. right. exists app. split; [by eapply authorize_again|]. apply Hk.
Qed.

Ltac serve := first [apply served_authorize | apply served_authenticate | apply served_media]; intros; bv_moves; subst.

Lemma dispatch_broker_served command :
  match command with
  | BcOpenDocument | BcCaptureCamera | BcCapturePhoto | BcPhotoImportRgb565 _ | BcPhotoLoadRgb565 _
  | BcPhotoLoadViewRgb565 _ _ _ _ | BcSendIntent _ _ => False
  | _ => True
  end → served (command_permissions command) command (dispatch_broker manifest_from_slice peer id command).
Proof.
  destruct command; cbn [dispatch_broker command_permissions]; intros Hc; try (destruct Hc);
    unfold post_notification, play_audio, photo_get, take_intent, storage_put_command; try serve.
  all: try by (apply network_moves; constructor).
  all: try by client audio_moves.
  all: try by client gpio_moves.
  all: try by client radio_moves.
  all: try by client storage_moves.
  - apply moves_bind; [by apply library_chunk_read_moves|intros []; [apply moves_ret|by client storage_moves]].
  - by apply library_remove_moves.
Qed.

Lemma photo_load_moves app command photo : reads_library command = true →
  bv_moves app id command
    (let^ _ := photo_must_be_active id photo in
     let^ opened := call_or id (StorageClient_open_blob id PHOTO_LIBRARY_ID PHOTO_LIBRARY_QUOTA_BYTES
                                  (photo_blob_key photo) (Z.of_nat PHOTO_FRAME_BYTES)) broker_storage_error_response in
     match opened with
     | Some descriptor => bv_ret (photo_loaded_dispatch id photo descriptor)
     | None =>
         let^ legacy := call_or id (load_legacy_photo id photo) photo_broker_error_response in
         match legacy with
         | Some frame =>
             let^ descriptor := sealed_or_refuse id frame in
             bv_ret (photo_loaded_dispatch id photo descriptor)
         | None => refuse id BkNotFound
         end
     end).
Proof.
  intros Hr. bv_moves; [by apply library_open_moves|].
  apply load_legacy_moves. intros. apply library_get_moves. by left.
Qed.
Lemma open_selected_moves app document : bv_moves app id BcOpenDocument (open_selected id document).
Proof. unfold open_selected. bv_moves. client document_moves. Qed.

Lemma dispatch_command_served clock command descriptor :
  served (command_permissions command) command (dispatch_command manifest_from_slice peer id clock command descriptor).
Proof.
  destruct command; unfold dispatch_command; try (apply served_plain, dispatch_broker_served; exact I).
  - (* open document *) unfold dispatch_document. serve. all: try apply open_selected_moves. client document_moves.
  - (* camera *) unfold dispatch_camera. serve. client camera_moves.
  - (* photo *) apply served_plain. unfold dispatch_camera_photo. apply served_authorize_both. intros app. bv_moves.
    + client camera_moves.
    + by apply library_import_moves.
  - (* import *) destruct descriptor as [d|]; [|apply served_panic]. apply served_plain. unfold dispatch_photo_import. serve.
    by apply library_import_moves.
  - unfold dispatch_photo_load. apply served_authorize. intros app. by apply photo_load_moves.
  - unfold dispatch_photo_view. apply served_authorize. intros app. bv_moves. unfold dispatch_photo_load.
    apply bv_moves_bind; [apply bv_moves_server|]. intros _. by apply photo_load_moves.
  - unfold dispatch_send_intent. serve.
Qed.

Lemma dispatched_served clock command descriptor :
  served (command_permissions command) command (dispatched manifest_from_slice peer id clock command descriptor).
Proof.
  apply served_try; [apply dispatch_command_served|]. intros [d|r|]; by eexists.
Qed.

(** A whole connection: the services are asked only for the request that
    arrived; the answer and the intent that goes with it ask for nothing. *)
Lemma connection_served (from_slice : list ascii → option BrokerRequest) (to_vec : BrokerResponse → option (list ascii))
    clock incoming out c s w :
  let after := bk_services (handle_broker_connection manifest_from_slice from_slice to_vec peer clock incoming out c s w).1.1.2 in
  after = bk_services c ∨
  ∃ request descriptor, recv_broker_request_with_fd from_slice incoming = Ok (request, descriptor) ∧
    after = bk_services (dispatched manifest_from_slice peer (br_request_id request) clock (br_command request) descriptor c s w).1.1.2.
Proof.
  unfold handle_broker_connection.
  destruct (recv_broker_request_with_fd from_slice incoming) as [[request descriptor]|e|]; cbv zeta.
  - destruct (negb _); [left|right; exists request, descriptor; split; [done|]].
    + unfold bv_bind, bv_lift. by destruct (send_dispatch _ _ _).
    + unfold bv_bind at 1. destruct (dispatched _ _ _ _ _ _ c s w) as [[[[dispatch|e|] c1] s1] w1]; [|done..].
      cbn [fst snd]. destruct (send_dispatch _ _ _) as [sent|e|]; [| |done].
      all: destruct (bd_transition dispatch) as [transition|]; [|done].
      * unfold complete_intent_transition, bv_bind, bv_try, bv_server.
        by destruct (start_app_control _ _ _ _) as [[[?|?|] ?] ?].
      * by unfold cancel_intent, bv_bind, bv_server.
  - left. unfold bv_bind, bv_lift. by destruct (send_dispatch _ _ _).
  - by left.
Qed.
End serving.
End broker.
