(* ===== verification/BrokerReplies.v ===== *)
(** * The answers of the broker

    [replies P m]: when the handler [m] returns, it returns a value with [P],
    or returns early with a response that passes the checks of the protocol
    and carries the number of the request; the queue of intents stays well
    formed.  The lemmas follow the handlers of [Broker] and use what the
    clients of the services promise about accepted answers
    ([CapabilityClients]). *)

From S2P Require Import Prelude RustStr Bytes Manifest HostFs Framing Registry Lifecycle Policy Permissions PermissionPrompt Intent MediaSession DocumentPrompt Package Protocol Server ServerLogic StorageProtocol StorageClient NetworkProtocol PhotoLibrary Descriptor DocumentProtocol AudioProtocol GpioProtocol RadioProtocol CameraProtocol CapabilityClients PhotoView BrokerProtocol Broker BrokerLogic.

(** Outcomes that come with a descriptor, and with an intent to deliver. *)
Definition carries_descriptor (o : BrokerOutcome) : bool :=
  match o with BoDocumentOpened _ _ | BoCameraCaptured _ _ _ _ | BoPhotoLoaded _ _ => true | _ => false end.
Definition accepted_intent (o : BrokerOutcome) : option Z :=
  match o with BoIntentAccepted i => Some i | _ => None end.

(** A response that the protocol admits, to the request [id]; one that comes
    alone; and a response with what comes with it. *)
Definition good_response (id : Z) (r : BrokerResponse) : Prop :=
  BrokerResponse_validate r = Ok tt ∧ bp_request_id r = id.
Definition plain_response (id : Z) (r : BrokerResponse) : Prop :=
  BrokerResponse_validate r = Ok tt ∧ bp_request_id r = id ∧
  carries_descriptor (bp_outcome r) = false ∧ accepted_intent (bp_outcome r) = None.
Definition good_dispatch (id : Z) (d : BrokerDispatch) : Prop :=
  good_response id (bd_response d) ∧
  bool_decide (is_Some (bd_descriptor d)) = carries_descriptor (bp_outcome (bd_response d)) ∧
  it_intent_id <$> bd_transition d = accepted_intent (bp_outcome (bd_response d)).

Lemma plain_dispatch id r : plain_response id r → good_dispatch id (BrokerDispatch_response r).
Proof. by intros (?&?&?&?). Qed.

Definition mailboxes_wf (s : Server) : Prop := intent_queue_wf (s_intents (sv_state s)).

Lemma intents_wf q q' : rtc intent_step q q' → intent_queue_wf q → intent_queue_wf q'.
Proof. induction 1; eauto using intent_step_wf. Qed.

Section replies.
  Context {C : Type} (id : Z).

Definition replies {A} (P : A → Prop) (m : BV C BrokerResponse A) : Prop := ∀ c s w,
  mailboxes_wf s → mailboxes_wf (m c s w).1.2 ∧
  match (m c s w).1.1.1 with Ok a => P a | Err r => plain_response id r | Panicked => True end.

Lemma replies_ret {A} (P : A → Prop) a : P a → replies P (bv_ret a).
Proof. by intros Ha c s w Hs. Qed.
Lemma replies_err {A} (P : A → Prop) r : plain_response id r → replies P (bv_err r).
Proof. by intros Ha c s w Hs. Qed.
Lemma replies_panic {A} (P : A → Prop) : replies P (bv_lift Panicked).
Proof. by intros c s w Hs. Qed.
Lemma replies_bind {A B} (P : A → Prop) (Q : B → Prop) (m : BV C BrokerResponse A) k :
  replies P m → (∀ a, P a → replies Q (k a)) → replies Q (bv_bind m k).
Proof.
  intros Hm Hk c s w Hs. unfold bv_bind. destruct (Hm c s w Hs) as [Hs1 Hr].
  destruct (m c s w) as [[[[a|r|] c1] s1] w1]; [|done..]. by apply Hk.
Qed.
Lemma replies_server {A} (m : SV BrokerResponse A) :
  sv_frame m → (∀ s w r, (m s w).1.1 = Err r → plain_response id r) → replies (λ _, True) (bv_server m).
Proof.
  intros Hm He c s w Hs. unfold bv_server. specialize (Hm s w) as [_ _ Hi _ _]. specialize (He s w).
  destruct (m s w) as [[[a|r|] s1] w1]; simpl in *; (split; [by eapply intents_wf|]); auto.
Qed.
(** A change of the state that keeps the mailboxes in order. *)
Lemma replies_modify f :
  (∀ s, mailboxes_wf s → mailboxes_wf (f s)) → replies (λ _, True) (bv_server (sv_modify f)).
Proof. intros Hf c s w Hs. simpl. auto. Qed.

Lemma replies_service {E A B} (m : SM C E A) (P : A → Prop) (Q : B → Prop) (k : result E A → BV C BrokerResponse B) :
  (∀ c a c', m c = (Ok a, c') → P a) → (∀ a, P a → replies Q (k (Ok a))) → (∀ e, replies Q (k (Err e))) →
  replies Q (k Panicked) → replies Q (bv_try (bv_service m) k).
Proof.
  intros Hm Ho He Hp c s w Hs. unfold bv_try, bv_service. specialize (Hm (bk_services c)).
  destruct (m (bk_services c)) as [[a|e|] c1]; [eapply Ho; eauto|by apply He|by apply Hp].
Qed.
Lemma replies_answer {E A} (m : SM C E A) ok err :
  (∀ c a c', m c = (Ok a, c') → plain_response id (ok a)) → (∀ e, plain_response id (err id e)) →
  replies (plain_response id) (answer id m ok err).
Proof.
  intros Hm He. eapply (replies_service m (λ a, plain_response id (ok a))); [done|..].
  - intros a Ha. by apply replies_ret.
  - intros e. by apply replies_ret.
  - apply replies_panic.
Qed.
Lemma replies_call {E A} (P : A → Prop) (m : SM C E A) err :
  (∀ c a c', m c = (Ok a, c') → P a) → (∀ e, plain_response id (err id e)) → replies P (call_or id m err).
Proof.
  intros Hm He. eapply (replies_service m P); [done|..].
  - intros a Ha. by apply replies_ret.
  - intros e. by apply replies_err.
  - apply replies_panic.
Qed.
Lemma replies_refuse {A} (P : A → Prop) code : replies P (@refuse C id A code).
Proof. by apply replies_err. Qed.
End replies.

Lemma refusal_plain id r : plain_response id (refusal_response id r).
Proof. by destruct r. Qed.

Section handlers.
  Context `{Host} `{System} `{Threads} `{Crypto} `{JpegDecoder} `{Memfd} (manifest_from_slice : list ascii → option AppManifest).
  Context {C : Type} `{DN : !Daemon C NetworkRequest NetworkResponse} `{DA : !Daemon C AudioRequest AudioResponse}.
  Context `{DG : !Daemon C GpioRequest GpioResponse} `{DR : !Daemon C RadioRequest RadioResponse}.
  Context `{DS : !Daemon C StorageRequest StorageResponse} `{FS : !FdDaemon C StorageRequest StorageResponse}.
  Context `{FD : !FdDaemon C DocumentRequest DocumentResponse} `{FC : !FdDaemon C CameraRequest CameraResponse}.
  Hypothesis (Ht : tame _) (Hq : quiet _).
  Context (peer : PeerCredentials) (id : Z).

#[local] Existing Instance broker_photo_storage.
Notation plain := (plain_response id).
Notation yields := (@replies C id _).

Lemma refusing {A} (m : SV BrokerRefusal A) : sv_frame m → yields (λ _, True) (bv_server (sv_map_err (refusal_response id) m)).
Proof.
  intros Hm. apply replies_server; [by apply frame_map_err|]. intros s w r. unfold sv_map_err.
  destruct (m s w) as [[[a|e|] s1] w1]; simpl; try done. intros [= <-]. apply refusal_plain.
Qed.
Lemma authorize_replies p : yields (λ _, True) (authorize manifest_from_slice peer id p).
Proof. by apply refusing, authorize_frame. Qed.
Lemma authenticate_replies : yields (λ _, True) (authenticate manifest_from_slice peer id).
Proof. by apply refusing, authenticate_frame. Qed.
Lemma media_replies {A} (op : string → Z → MediaSessionBroker → A * MediaSessionBroker) :
  yields (λ _, True) (media_caller manifest_from_slice peer id op).
Proof. by apply refusing, media_caller_frame. Qed.
Lemma lock_replies : yields (λ _, True) (bv_server sv_lock).
Proof. apply replies_server; [by apply frame_lock|]. by intros s w r. Qed.
Lemma get_replies {A} (f : Server → A) (P : A → Prop) : (∀ s, mailboxes_wf s → P (f s)) → yields P (bv_server (sv_get f)).
Proof. intros Hf c s w Hs. simpl. auto. Qed.

(** One step of a proof about the replies of a handler. *)
Ltac reply_step :=
  match goal with
  | |- replies _ _ (bv_bind (authorize _ _ _ _) _) => eapply replies_bind; [apply authorize_replies|intros ? _]
  | |- replies _ _ (bv_bind (authenticate _ _ _) _) => eapply replies_bind; [apply authenticate_replies|intros ? _]
  | |- replies _ _ (bv_bind (media_caller _ _ _ _) _) => eapply replies_bind; [apply media_replies|intros ? _]
  | |- replies _ _ (bv_bind (bv_server sv_lock) _) => eapply replies_bind; [apply lock_replies|intros ? _]
  | |- replies _ _ (answer _ _ _ _) => apply replies_answer; [|by intros []]
  | |- replies _ _ (refuse _ _) => apply replies_refuse
  | |- replies _ _ (bv_lift Panicked) => apply replies_panic
  | |- replies _ _ (bv_ret _) => apply replies_ret
  | |- replies _ _ (if ?b then _ else _) => destruct b eqn:?
  | |- replies _ _ (match ?x with _ => _ end) => destruct x eqn:?
  end.
Ltac reply := repeat reply_step.

(** *** Answers of the services *)

Lemma http_plain a : (100 ≤ nh_status_code a ≤ 599)%Z ∧ is_ok (network_decode_base64 (nh_body_base64 a)) = true → plain (http_answer id a).
Proof.
  intros [Hs Hb]. split; [|done]. unfold http_answer, BrokerResponse_validate. simpl. unfold is_refused. rewrite Hb.
  destruct Hs. by rewrite !(proj2 (Z.leb_le _ _)).
Qed.
Lemma value_plain key app quota c v c' :
  StorageClient_get (storage_exchange (C := C)) id app quota key c = (Ok v, c') → plain (value_response id v).
Proof.
  intros (o&c1&_&Hv)%sm_bind_Ok. destruct v as [v|]; [|done]. apply value_of_outcome_valid in Hv.
  split; [|done]. unfold BrokerResponse_validate. simpl. unfold is_refused. by rewrite Hv.
Qed.
Lemma played_plain frames : (0 ≠ frames ∧ frames ≤ Z.of_nat MAX_MUSIC_FRAMES)%Z → plain (broker_response id (BoAudioPlayed frames)).
Proof.
  intros [Hz Hm]. split; [|done]. unfold BrokerResponse_validate. simpl. unfold refuse_if.
  rewrite (proj2 (Z.eqb_neq _ _)), (proj2 (Z.ltb_ge _ _)) by done. done.
Qed.
Lemma stored_plain app quota key value c used c' :
  StorageClient_put (storage_exchange (C := C)) id app quota key value c = (Ok used, c') → plain (broker_response id (BoStorageStored used)).
Proof.
  intros (o&c1&Hv%storage_answer_valid&Ho)%sm_bind_Ok. destruct o; try done. injection Ho as <- _.
  split; [|done]. unfold BrokerResponse_validate. simpl. unfold StorageResponse_validate in Hv. simpl in Hv.
  by destruct (_ <? _)%Z.
Qed.
Lemma imported_plain frame original c photo c' :
  import_frame_with_original id frame original c = (Ok photo, c') → plain (broker_response id (BoPhotoImported photo)).
Proof.
  unfold import_frame_with_original. case_match; [done|]. match goal with |- (if ?b then _ else _) _ = _ → _ => destruct b; [done|] end.
  intros (head&?&_&Hrun)%sm_bind_Ok. apply sm_bind_Ok in Hrun as (next&?&_&Hrun). cbv zeta in Hrun.
  assert (1 ≤ Z.max next 1)%Z as Hmax by lia. generalize dependent (Z.max next 1)%Z. intros number Hrun Hmax.
  destruct (_ <? _)%Z; [done|]. do 4 apply sm_bind_Ok in Hrun as (?&?&_&Hrun).
  do 4 apply sm_bind_Ok in Hrun as (?&?&_&Hrun). injection Hrun as <- _.
  split; [|done]. unfold BrokerResponse_validate. simpl. unfold refuse_if. rewrite (proj2 (Z.eqb_neq _ _)); [done|lia].
Qed.
Lemma opened_good document c opened c' :
  DocumentClient_open id document c = (Ok opened, c') →
  good_response id (broker_response id (BoDocumentOpened (document_id (od_summary opened)) (size_bytes (od_summary opened)))).
Proof.
  intros [_ Hv]%document_opened_valid. split; [|done]. unfold BrokerResponse_validate. simpl. unfold refuse_if.
  unfold DocumentSummary_validate in Hv. unbool_hyps. rewrite (proj2 (Z.ltb_ge _ _)) by done.
  match goal with Hd : is_valid_document_id _ = true |- _ => by rewrite Hd end.
Qed.
Lemma sent_plain payload c n c' :
  RadioClient_send id payload c = (Ok n, c') → plain (broker_response id (BoLoraSent n)).
Proof.
  intros (Hz&Hn&_)%radio_sent_valid. split; [|done]. unfold BrokerResponse_validate. simpl. unfold refuse_if.
  by rewrite (proj2 (Z.eqb_neq _ _)), (proj2 (Z.ltb_ge _ _)).
Qed.
Lemma packet_plain timeout c packet c' :
  RadioClient_receive id timeout c = (Ok (Some packet), c') →
  plain (BrokerResponse_lora_packet id (rk_payload packet) (rk_rssi_dbm packet) (rk_snr_quarter_db packet)).
Proof.
  intros [Hp Hr]%radio_packet_valid. split; [|done]. unfold BrokerResponse_validate. simpl. unfold is_refused.
  by rewrite Hp, Hr.
Qed.
Lemma intent_plain i : is_valid_intent_action (in_action i) = true → (length (in_payload i) ≤ MAX_INTENT_PAYLOAD_BYTES)%nat →
  plain (BrokerResponse_intent_message id (in_action i) (in_payload i)).
Proof.
  intros Ha Hl. split; [|done]. unfold BrokerResponse_validate. simpl. unfold intent_check. rewrite Ha. simpl.
  assert (network_decode_base64 (encode_base64 (in_payload i)) = Ok (in_payload i)) as ->.
  { apply network_base64_bijection. split; [done|]. unfold MAX_INTENT_PAYLOAD_BYTES, MAX_NETWORK_RANGE_BYTES in *. lia. }
  simpl. unfold refuse_if. by rewrite (proj2 (Nat.ltb_ge _ _)).
Qed.

(** *** Handlers *)

Lemma set_intents_replies q : intent_queue_wf q → yields (λ _, True) (bv_server (sv_modify (with_state (set_intents q)))).
Proof. intros Hwf. by apply replies_modify. Qed.

Lemma take_intent_replies : yields plain (take_intent manifest_from_slice peer id).
Proof.
  unfold take_intent. reply.
  apply (replies_bind _ (λ taken, intent_queue_wf taken.2 ∧ ∀ i, taken.1 = Some i →
    is_valid_intent_action (in_action i) = true ∧ (length (in_payload i) ≤ MAX_INTENT_PAYLOAD_BYTES)%nat)).
  - apply get_replies. intros s Hs. split; [by eapply intent_step_wf; [apply is_take|]|]. intros i Hi.
    unfold IntentQueue_take in Hi. destruct (position _ _) as [n|]; [|done]. simpl in Hi. apply list_elem_of_lookup_2 in Hi.
    pose proof (iw_items _ Hs) as Hf. rewrite Forall_forall in Hf. by apply Hf in Hi as (_&?&?).
  - intros taken [Hwf Hi]. eapply replies_bind; [by apply set_intents_replies|]. intros _ _. apply replies_ret.
    destruct taken.1 as [i|]; [|done]. by apply intent_plain; apply Hi.
Qed.

Lemma notification_replies title body : yields plain (post_notification manifest_from_slice peer id title body).
Proof.
  unfold post_notification. reply. eapply (replies_bind _ (λ _, True)); [by apply get_replies|intros queue _].
  eapply replies_bind; [by apply replies_modify|intros _ _]. by reply.
Qed.

Lemma photo_get_replies key : yields plain (photo_get manifest_from_slice peer id key).
Proof.
  unfold photo_get. reply.
  - intros c v c' (value&c1&Hget&Hv)%sm_bind_Ok. destruct value as [value|]; [|by eapply value_plain].
    injection Hv as <- _. apply sm_bind_Ok in Hget as (o&c2&_&Hget). apply value_of_outcome_valid in Hget.
    split; [|done]. unfold BrokerResponse_validate. simpl. unfold is_refused. by rewrite Hget.
  - intros c v c' Hv. by eapply value_plain.
Qed.

Lemma dispatch_broker_replies command :
  BrokerRequest_validate (mkBrokerRequest BROKER_PROTOCOL_VERSION id command) = Ok tt →
  yields plain (dispatch_broker manifest_from_slice peer id command).
Proof.
  intros Hvalid. destruct command; cbn [dispatch_broker].
  all: try apply notification_replies.
  all: try apply photo_get_replies.
  all: try apply take_intent_replies.
  all: unfold play_audio, storage_put_command; reply; try done.
  all: try intros c answered c' Hcall.
  - by eapply http_plain, network_answer_valid.
  - by eapply http_plain, network_answer_valid.
  - apply played_valid in Hcall as [? _]. by apply played_plain.
  - apply played_valid in Hcall as [? _]. by apply played_plain.
  - apply captured_valid in Hcall. split; [|done]. unfold BrokerResponse_validate. simpl. unfold is_refused. by rewrite Hcall.
  - by eapply sent_plain.
  - destruct answered; [by eapply packet_plain|done].
  - by eapply stored_plain.
  - by eapply value_plain.
  - by eapply value_plain.
  - by destruct a.
Qed.

(** *** Handlers with a descriptor or an intent *)

Notation whole := (good_dispatch id).

Lemma plain_replies m : yields plain m → yields whole (let^ response := m in bv_ret (BrokerDispatch_response response)).
Proof. intros Hm. eapply replies_bind; [done|]. intros r Hr. apply replies_ret. by apply plain_dispatch. Qed.

Lemma photo_loaded_whole photo descriptor : photo_id_bad photo = false → whole (photo_loaded_dispatch id photo descriptor).
Proof.
  intros Hp. split; [|done]. split; [|done]. unfold BrokerResponse_validate. simpl. unfold refuse_if. by rewrite Hp.
Qed.
Lemma sealed_replies frame : yields (λ _, True) (sealed_or_refuse (C := C) id frame).
Proof. unfold sealed_or_refuse. by reply. Qed.
Lemma active_replies photo : yields (λ _, True) (photo_must_be_active (C := C) id photo).
Proof.
  unfold photo_must_be_active. eapply (replies_bind _ (λ _, True)); [by apply replies_call; [|intros []]|]. intros [] _; by reply.
Qed.
Lemma load_replies photo : photo_id_bad photo = false → yields whole (dispatch_photo_load manifest_from_slice peer id photo).
Proof.
  intros Hp. unfold dispatch_photo_load. reply. eapply replies_bind; [apply active_replies|intros _ _].
  eapply (replies_bind _ (λ _, True)); [by apply replies_call; [|intros []]|]. intros [descriptor|] _.
  { reply. by apply photo_loaded_whole. }
  eapply (replies_bind _ (λ _, True)); [by apply replies_call; [|intros []]|]. intros [frame|] _; [|reply].
  eapply replies_bind; [apply sealed_replies|intros ? _]. reply. by apply photo_loaded_whole.
Qed.
Lemma view_replies photo zoom x y : photo_id_bad photo = false →
  yields whole (dispatch_photo_view manifest_from_slice peer id photo zoom x y).
Proof.
  intros Hp. unfold dispatch_photo_view. reply. eapply replies_bind; [apply active_replies|intros _ _].
  intros c s w Hs. unfold bv_try, render_cached.
  destruct (PhotoViewCache_render _ _ _ _ _ _ _) as [[[[frame|] cache]|e|] c1].
  - apply (replies_bind id (λ _, True)); [apply sealed_replies| |done]. intros d _. apply replies_ret. by apply photo_loaded_whole.
  - by apply load_replies.
  - split; [done|]. by destruct e as [[]|[]| |].
  - done.
Qed.
Lemma foreground_replies app : yields (λ _, True) (in_foreground (C := C) id app).
Proof. unfold in_foreground. reply. eapply (replies_bind _ (λ _, True)); [by apply get_replies|]. intros [] _; by reply. Qed.
Lemma camera_replies : yields whole (dispatch_camera manifest_from_slice peer id).
Proof.
  unfold dispatch_camera. reply. eapply replies_bind; [apply foreground_replies|intros _ _].
  eapply (replies_bind _ (λ _, True)); [by apply replies_call; [|intros []]|]. intros d _. by reply.
Qed.
Lemma camera_photo_replies clock : yields plain (dispatch_camera_photo manifest_from_slice peer id clock).
Proof.
  unfold dispatch_camera_photo. reply. eapply replies_bind; [apply foreground_replies|intros _ _].
  eapply (replies_bind _ (λ _, True)); [by apply replies_call; [|intros []]|]. intros captured _. reply.
  intros c photo c'. apply imported_plain.
Qed.
Lemma import_replies suggested descriptor : yields plain (dispatch_photo_import manifest_from_slice peer id suggested descriptor).
Proof. unfold dispatch_photo_import. reply. intros c photo c'. apply imported_plain. Qed.

Lemma documents_replies {A} (f : DocumentCoordinator → A * DocumentCoordinator) : yields (λ _, True) (with_documents (C := C) f).
Proof.
  unfold with_documents. reply. eapply (replies_bind _ (λ _, True)); [by apply get_replies|intros r _].
  eapply replies_bind; [by apply replies_modify|intros _ _]. by reply.
Qed.
Lemma open_selected_replies document : yields whole (open_selected id document).
Proof.
  unfold open_selected. eapply replies_bind; [apply replies_call; [|by intros []]; intros c a c'; apply opened_good|].
  intros opened Ho. by reply.
Qed.
Lemma document_replies : yields whole (dispatch_document manifest_from_slice peer id).
Proof.
  unfold dispatch_document. reply. eapply replies_bind; [apply documents_replies|intros polled _].
  reply; try apply open_selected_replies; try done.
  eapply (replies_bind _ (λ _, True)); [by apply replies_call; [|intros []]|]. intros documents _.
  eapply replies_bind; [apply documents_replies|intros selection _]. reply; try apply open_selected_replies; done.
Qed.

Lemma manifests_frame apps : sv_frame (installed_manifests manifest_from_slice apps).
Proof.
  induction apps as [|a apps IH]; cbn [installed_manifests]; [apply frame_lift|].
  apply frame_bind; [by apply frame_map_err, installed_manifest_frame|]. intros m. apply frame_bind; [done|].
  intros rest. apply frame_lift.
Qed.
Lemma send_intent_replies action payload : yields whole (dispatch_send_intent manifest_from_slice peer id action payload).
Proof.
  unfold dispatch_send_intent. reply.
  eapply (replies_bind _ (λ _, True)); [by reply|intros bytes _]. reply.
  eapply (replies_bind _ (λ _, True)); [by apply get_replies|intros am _].
  eapply replies_bind; [apply refusing, manifests_frame|intros manifests _].
  eapply (replies_bind _ (λ _, True)); [by reply|intros target _].
  apply (replies_bind _ (λ queue, intent_queue_wf queue.2 ∧ ∀ i, queue.1 = Ok i → i ≠ 0%Z)).
  - apply get_replies. intros s Hs. split; [by apply intent_wf_enqueue|]. intros i. unfold IntentQueue_enqueue.
    do 3 (case_match; [done|]). pose proof (iw_next _ Hs). unfold checked_add_u64. destruct (_ <=? _)%Z; [|done].
    intros [= <-]. lia.
  - intros queue [Hwf Hi]. eapply replies_bind; [by apply set_intents_replies|intros _ _].
    destruct queue.1 as [i|e|]; reply. specialize (Hi i eq_refl). split; [|done]. split; [|done].
    unfold BrokerResponse_validate. simpl. unfold refuse_if. by rewrite (proj2 (Z.eqb_neq _ _)).
Qed.

Lemma dispatch_command_replies clock command descriptor :
  BrokerRequest_validate (mkBrokerRequest BROKER_PROTOCOL_VERSION id command) = Ok tt →
  yields whole (dispatch_command manifest_from_slice peer id clock command descriptor).
Proof.
  intros Hvalid. destruct command; unfold dispatch_command; try (apply plain_replies, dispatch_broker_replies; exact Hvalid).
  - apply document_replies.
  - apply camera_replies.
  - apply plain_replies, camera_photo_replies.
  - destruct descriptor as [d|]; [apply plain_replies, import_replies|reply].
  - apply load_replies. unfold BrokerRequest_validate in Hvalid. simpl in Hvalid. by destruct (photo_id_bad _).
  - apply view_replies. unfold BrokerRequest_validate in Hvalid. simpl in Hvalid. by destruct (photo_id_bad _).
  - apply send_intent_replies.
Qed.
End handlers.
