(* ===== verification/BrokerProps.v ===== *)
(** * What applications can do through the broker

    The theorems about whole connections to the broker socket: which requests
    they make the services act on and for whom, whose private data they can
    change, what the answers are like, and which requests never get through. *)

From S2P Require Import Prelude RustStr Bytes Manifest HostFs Framing Registry Lifecycle Policy Permissions PermissionPrompt Intent MediaSession DocumentPrompt Package Protocol Server ServerLogic Storage StorageProtocol StorageRefine StorageClient NetworkProtocol PhotoLibrary Descriptor DocumentProtocol AudioProtocol GpioProtocol RadioProtocol CameraProtocol CapabilityClients PhotoView BrokerProtocol Broker BrokerLogic BrokerReplies.

Section effects.
  Context `{Host} `{System} `{Threads} `{Crypto} `{JpegDecoder} `{Memfd} (manifest_from_slice : list ascii → option AppManifest).
  Context {C : Type} `{DN : !Daemon C NetworkRequest NetworkResponse} `{DA : !Daemon C AudioRequest AudioResponse}.
  Context `{DG : !Daemon C GpioRequest GpioResponse} `{DR : !Daemon C RadioRequest RadioResponse}.
  Context `{DS : !Daemon C StorageRequest StorageResponse} `{FS : !FdDaemon C StorageRequest StorageResponse}.
  Context `{FD : !FdDaemon C DocumentRequest DocumentResponse} `{FC : !FdDaemon C CameraRequest CameraResponse}.
  Context (from_slice : list ascii → option BrokerRequest) (to_vec : BrokerResponse → option (list ascii)).

Lemma connection_entitled peer clock incoming out c s w :
  tame _ → quiet _ →
  let after := bk_services (handle_broker_connection manifest_from_slice from_slice to_vec peer clock incoming out c s w).1.1.2 in
  after = bk_services c ∨
  ∃ request descriptor app, recv_broker_request_with_fd from_slice incoming = Ok (request, descriptor) ∧
    entitled manifest_from_slice peer (command_permissions (br_command request)) app (w_disk w) s ∧
    rtc (service_step app (br_request_id request) (br_command request)) (bk_services c) after.
Proof.
  intros Ht Hq after.
  destruct (connection_served manifest_from_slice peer from_slice to_vec clock incoming out c s w)
    as [?|(request&descriptor&Hr&Ha)]; [by left|]. fold after in Ha.
  destruct (dispatched_served manifest_from_slice Ht Hq peer (br_request_id request) clock (br_command request) descriptor c s w)
    as [Hsame|(app&He&Hsteps)]; [left; congruence|].
  right. exists request, descriptor, app. by rewrite Ha.
Qed.

(** C6: whatever a process sends to the broker socket, the services behind it
    (network, audio, GPIO, radio, private storage, documents, camera) receive
    nothing, or one well-formed request arrived, the kernel reports its sender
    under the user and inside the unit of an installed application, that
    application holds every permission the command needs (declared in its
    valid manifest, not denied by the policy, and allowed by the user's
    decisions as the server has them when the connection begins), and each
    request that the services received is one that this command stands for.
    While the connection is served other threads may end sessions, ask for
    permissions and use mailboxes; commands of the control socket, with which
    the user decides, are not considered meanwhile. *)
Theorem broker_effects_authorized peer clock incoming out c s w :
  tame _ → quiet _ →
  let after := bk_services (handle_broker_connection manifest_from_slice from_slice to_vec peer clock incoming out c s w).1.1.2 in
  after = bk_services c ∨
  ∃ request descriptor app, recv_broker_request_with_fd from_slice incoming = Ok (request, descriptor) ∧
    entitled manifest_from_slice peer (command_permissions (br_command request)) app (w_disk w) s ∧
    rtc (service_step app (br_request_id request) (br_command request)) (bk_services c) after.
Proof.
  intros Ht Hq. by apply connection_entitled.
Qed.

(** ** Private data *)

(** The storage service keeps a store per application and executes a request
    on them as its abstract specification says, or not at all; the other
    services do not touch the stores. *)
Class StoresBehind (stores : C → gmap string store) := {
  sb_value r bs c : storage_write_request daemon_to_vec r = Ok bs →
    stores (@daemon_call _ _ _ DS bs c).2 = stores c ∨ stores (@daemon_call _ _ _ DS bs c).2 = (spec_dispatch (stores c) r).2;
  sb_blob r bs c : storage_write_request fd_daemon_to_vec r = Ok bs →
    stores (@fd_daemon_call _ _ _ FS bs c).2 = stores c ∨ stores (@fd_daemon_call _ _ _ FS bs c).2 = (spec_dispatch (stores c) r).2;
  sb_network bs c : stores (@daemon_call _ _ _ DN bs c).2 = stores c;
  sb_audio bs c : stores (@daemon_call _ _ _ DA bs c).2 = stores c;
  sb_gpio bs c : stores (@daemon_call _ _ _ DG bs c).2 = stores c;
  sb_radio bs c : stores (@daemon_call _ _ _ DR bs c).2 = stores c;
  sb_document bs c : stores (@fd_daemon_call _ _ _ FD bs c).2 = stores c;
  sb_camera bs c : stores (@fd_daemon_call _ _ _ FC bs c).2 = stores c;
}.

(** Commands that may change the caller's own store. *)
Definition writes_own (command : BrokerCommand) : bool :=
  match command with BcStoragePut _ _ | BcStorageDelete _ => true | _ => false end.

(** The stores a command may change. *)
Definition may_change (app : AuthorizedApp) (command : BrokerCommand) (name : string) : Prop :=
  (name = aa_app_id app ∧ name ≠ PHOTO_LIBRARY_ID ∧ writes_own command = true) ∨
  (name = PHOTO_LIBRARY_ID ∧ writes_library command = true).

Lemma writes_library_permission command : writes_library command = true → PhotosWrite ∈ command_permissions command.
Proof. by destruct command; intros Hc; try discriminate Hc; cbn [command_permissions]; repeat constructor. Qed.

Lemma written_valid to_vec' r bs : storage_write_request to_vec' r = Ok bs → StorageRequest_validate r = Ok tt.
Proof. unfold storage_write_request, write_message. by destruct (StorageRequest_validate r) as [[]| |]. Qed.

(** An application called like the photo library has too small a quota to
    pass for it. *)
Lemma own_not_library to_vec' id peer app d sv c bs :
  recognised peer app d sv → storage_write_request to_vec' (own_request id app c) = Ok bs → aa_app_id app ≠ PHOTO_LIBRARY_ID.
Proof.
  intros (a&m&cg&_&_&_&_&Hv%manifest_validate_wf&_&Hquota) Hw Hid. apply written_valid, validated_request in Hw as (_&Hvalid&_).
  pose proof (wf_storage _ Hv) as [_ Hmax]. unfold MAX_APP_STORAGE_MB in Hmax.
  cbn [own_request storage_request sr_app_id sr_quota_bytes] in Hvalid. rewrite Hid, Hquota in Hvalid.
  unfold valid_quota in Hvalid. rewrite bool_decide_true in Hvalid by done. apply Z.eqb_eq in Hvalid.
  change SYSTEM_PHOTO_LIBRARY_QUOTA_BYTES with 1125899906842624%Z in Hvalid. lia.
Qed.

Lemma dispatch_other σ r name : name ≠ sr_app_id r → (spec_dispatch σ r).2 !! name = σ !! name.
Proof.
  intros Hn. unfold spec_dispatch. cbv zeta. destruct (spec_command _ _ _ _) as [x o]. cbn [snd].
  by rewrite lookup_partial_alter_ne.
Qed.
Lemma dispatch_reads σ r name : only_reads (sr_command r) = true → (spec_dispatch σ r).2 !! name = σ !! name.
Proof.
  intros Hr. destruct (decide (name = sr_app_id r)) as [->|Hn]; [|by apply dispatch_other].
  unfold spec_dispatch. cbv zeta. destruct (sr_command r); try discriminate Hr; cbn [spec_command snd];
    apply lookup_partial_alter_eq.
Qed.

Section stores.
  Context (stores : C → gmap string store) `{SB : !StoresBehind stores}.

Lemma receives_stores r c c' name : receives r c c' →
  stores c' !! name = stores c !! name ∨
  ∃ q to_vec' bs, storage_write_request to_vec' q = Ok bs ∧ stores c' !! name = (spec_dispatch (stores c) q).2 !! name ∧
    (r = SrStorage q ∨ r = SrOpenBlob q).
Proof.
  destruct 1 as [q bs c _|q bs c _|q bs c _|q bs c _|q bs c Hw|q bs c Hw|q bs c _|q bs c _].
  - left. by rewrite sb_network.
  - left. by rewrite sb_audio.
  - left. by rewrite sb_gpio.
  - left. by rewrite sb_radio.
  - destruct (sb_value _ _ c Hw) as [He|He]; rewrite He; [by left|right]. exists q, daemon_to_vec, bs. auto.
  - destruct (sb_blob _ _ c Hw) as [He|He]; rewrite He; [by left|right]. exists q, fd_daemon_to_vec, bs. auto.
  - left. by rewrite sb_document.
  - left. by rewrite sb_camera.
Qed.

Lemma step_stores app id command c c' name peer d sv :
  recognised peer app d sv → service_step app id command c c' →
  stores c' !! name = stores c !! name ∨ may_change app command name.
Proof.
  intros Ha (r&Hs&Hrx). destruct (receives_stores _ _ _ name Hrx) as [?|(q&to_vec'&bs&Hw&He&Hq)]; [by left|].
  rewrite He. clear He Hrx.
  assert (only_reads (sr_command q) = true ∨ (sr_app_id q = aa_app_id app ∧ aa_app_id app ≠ PHOTO_LIBRARY_ID ∧ writes_own command = true)
    ∨ (sr_app_id q = PHOTO_LIBRARY_ID ∧ writes_library command = true)) as Hq'.
  { destruct Hs; destruct Hq as [[= <-]|[= <-]]; cbn [own_request photo_request storage_request sr_command sr_app_id];
      try (by left); try (by right; right).
    all: right; left; split_and!; [done|by eapply own_not_library|done]. }
  destruct Hq' as [Hread|Hown]; [left; by apply dispatch_reads|].
  destruct (decide (name = sr_app_id q)) as [->|Hn]; [right|left; by apply dispatch_other].
  destruct Hown as [(->&?&?)|(->&?)]; [by left|by right].
Qed.

Lemma steps_stores app id command c c' name peer d sv :
  recognised peer app d sv → rtc (service_step app id command) c c' →
  stores c' !! name = stores c !! name ∨ may_change app command name.
Proof.
  intros Ha. induction 1 as [|c1 c2 c3 Hs _ IH]; [by left|].
  destruct (step_stores _ _ _ _ _ name _ _ _ Ha Hs) as [Hsame|?]; [|by right]. destruct IH as [IH|?]; [left; congruence|by right].
Qed.

(** C7: whatever a process sends to the broker socket, a store that changes is
    the store of the calling application itself, changed by a command that
    writes or deletes one of its values, or the photo library, changed by an
    application that holds the permission to write photos: its valid manifest
    declares it, the policy does not deny it and the user's decisions, as the
    server has them when the connection begins, allow it.  An application that
    is named like the photo library cannot reach it as its own store. *)
Theorem broker_isolates_stores peer clock incoming out c s w name :
  tame _ → quiet _ →
  let after := bk_services (handle_broker_connection manifest_from_slice from_slice to_vec peer clock incoming out c s w).1.1.2 in
  stores after !! name ≠ stores (bk_services c) !! name →
  ∃ request descriptor app, recv_broker_request_with_fd from_slice incoming = Ok (request, descriptor) ∧
    entitled manifest_from_slice peer (command_permissions (br_command request)) app (w_disk w) s ∧
    ((name = aa_app_id app ∧ name ≠ PHOTO_LIBRARY_ID ∧ writes_own (br_command request) = true) ∨
     (name = PHOTO_LIBRARY_ID ∧ PhotosWrite ∈ command_permissions (br_command request))).
Proof.
  intros Ht Hq after Hdiff.
  destruct (connection_entitled peer clock incoming out c s w Ht Hq) as [Hsame|(request&descriptor&app&Hr&He&Hsteps)];
    [by rewrite <- Hsame in Hdiff|].
  exists request, descriptor, app. split; [done|]. split; [done|].
  destruct (steps_stores _ _ _ _ _ name _ _ _ (proj1 He) Hsteps) as [?|[?|[??]]]; [done|by left|right].
  split; [done|]. by apply writes_library_permission.
Qed.
End stores.

(** ** Answers *)

Lemma bv_bind_Ok {E A B} (m : BV C E A) (k : A → BV C E B) b c s w c' s' w' :
  bv_bind m k c s w = (((Ok b, c'), s'), w') →
  ∃ a c1 s1 w1, m c s w = (((Ok a, c1), s1), w1) ∧ k a c1 s1 w1 = (((Ok b, c'), s'), w').
Proof. unfold bv_bind. destruct (m c s w) as [[[[a|e|] c1] s1] w1]; [|done..]. intros Hk. by exists a, c1, s1, w1. Qed.
Lemma send_dispatch_Ok out dispatch sent :
  send_dispatch to_vec out dispatch = Ok sent → encode_broker_response to_vec (bd_response dispatch) = Ok sent.
Proof.
  unfold send_dispatch. destruct (encode_broker_response to_vec (bd_response dispatch)) as [frame|e|]; [|done..]. simpl.
  destruct (bd_descriptor dispatch); [destruct (send_frame_with_fd _ _ _ _)|destruct (og_write out)]; simpl; congruence.
Qed.

Lemma dispatched_good peer clock request descriptor c s w dispatch c' s' w' :
  tame _ → quiet _ → mailboxes_wf s → BrokerRequest_validate request = Ok tt →
  dispatched manifest_from_slice peer (br_request_id request) clock (br_command request) descriptor c s w
    = (((Ok dispatch, c'), s'), w') →
  good_dispatch (br_request_id request) dispatch.
Proof.
  intros Ht Hq Hs Hv Hrun.
  assert (BrokerRequest_validate (mkBrokerRequest BROKER_PROTOCOL_VERSION (br_request_id request) (br_command request)) = Ok tt) as Hv'.
  { revert Hv. unfold BrokerRequest_validate. cbn [br_protocol_version br_command].
    by destruct (broker_version_check (br_protocol_version request)). }
  destruct (dispatch_command_replies manifest_from_slice Ht Hq peer (br_request_id request) clock (br_command request) descriptor
              Hv' c s w Hs) as [_ Hd].
  unfold dispatched, bv_try in Hrun. destruct (dispatch_command _ _ _ _ _ _ c s w) as [[[[d|r|] c1] s1] w1]; simpl in Hd.
  - by injection Hrun as <- _ _ _.
  - injection Hrun as <- _ _ _. by apply plain_dispatch.
  - done.
Qed.

(** C27: whenever the server answers on the broker socket, what it wrote is the
    encoding of a response that passes the checks of the protocol, so that a
    client that makes the same checks accepts it; it carries the number of the
    request that arrived (0 and an error when none did), and a descriptor goes
    along exactly when the outcome is an opened document, a camera frame or a
    loaded photo. *)
Theorem broker_answers_valid peer clock incoming out c s w sent fd c' s' w' :
  tame _ → quiet _ → intent_queue_wf (s_intents (sv_state s)) →
  handle_broker_connection manifest_from_slice from_slice to_vec peer clock incoming out c s w = (((Ok (sent, fd), c'), s'), w') →
  ∃ response, encode_broker_response to_vec response = Ok sent ∧ BrokerResponse_validate response = Ok tt ∧
    bool_decide (is_Some fd) = carries_descriptor (bp_outcome response) ∧
    match recv_broker_request_with_fd from_slice incoming with
    | Ok (request, _) => bp_request_id response = br_request_id request
    | _ => response = BrokerResponse_error 0 BkInvalidRequest
    end.
Proof.
  intros Ht Hq Hs Hrun. unfold handle_broker_connection in Hrun.
  destruct (recv_broker_request_with_fd from_slice incoming) as [[request descriptor]|e|] eqn:Hrecv; [| |done].
  - cbv zeta in Hrun. destruct (negb _).
    { unfold bv_bind, bv_lift in Hrun. destruct (send_dispatch _ _ _) as [frame|e|] eqn:Hsend; [|done..].
      injection Hrun as <- <- _ _ _. apply send_dispatch_Ok in Hsend. by eexists. }
    unfold bv_bind at 1 in Hrun. destruct (dispatched _ _ _ _ _ _ c s w) as [[[[dispatch|e|] c1] s1] w1] eqn:Hd; [|done..].
    apply dispatched_good in Hd as ([Hv Hid]&Hfd&_); [|done..|by apply (recv_request_valid from_slice incoming _ descriptor)].
    destruct (send_dispatch _ _ _) as [frame|e|] eqn:Hsend; [|by apply bv_bind_Ok in Hrun as (?&?&?&?&_&Hrun)|done].
    apply send_dispatch_Ok in Hsend. exists (bd_response dispatch).
    assert (sent = frame ∧ fd = bd_descriptor dispatch) as [-> ->]; [|done].
    apply bv_bind_Ok in Hrun as (?&?&?&?&_&Hrun). by injection Hrun as -> -> _ _ _.
  - unfold bv_bind, bv_lift in Hrun. destruct (send_dispatch _ _ _) as [frame|e'|] eqn:Hsend; [|done..].
    injection Hrun as <- <- _ _ _. apply send_dispatch_Ok in Hsend. by eexists.
Qed.
End effects.

(** ** Requests that are too long for the server *)

(** Bytes that arrive in pieces, without a descriptor. *)
Definition in_pieces (pieces : list (list ascii)) : FdReader := map (λ bs, Ok (mkRecvMsg bs [] false)) pieces.

Lemma in_pieces_bytes pieces : fd_reader_bytes (in_pieces pieces) = concat pieces.
Proof. induction pieces as [|c pieces IH]; [done|]. cbn. f_equal. exact IH. Qed.
Lemma in_pieces_np {E} `{FdFrameErrors E} max pieces frame received : recv_loop max frame received (in_pieces pieces) ≠ Panicked.
Proof.
  revert frame. induction pieces as [|c pieces IH]; intros frame; cbn [in_pieces map recv_loop]; (case_match; [done|]); [done|].
  cbn [rm_rights rm_bytes rm_truncated take_rights]. cbv zeta. case_match; [done|]. cbn. case_match; [|apply IH]. by case_match.
Qed.

(** A frame of more than 4096 bytes is refused, however it arrives. *)
Lemma long_frame_refused (from_slice : list ascii → option BrokerRequest) encoded pieces :
  newline ∉ encoded → concat pieces = encoded ++ [newline] → (MAX_DOCUMENT_FRAME_BYTES < length encoded + 1)%nat →
  ∃ e, recv_broker_request_with_fd from_slice (in_pieces pieces) = Err e.
Proof.
  intros Hn Hp Hlen. unfold recv_broker_request_with_fd.
  destruct (recv_frame_with_fd _ _) as [[body fd]|e|] eqn:Hrun; [|by eexists|by apply in_pieces_np in Hrun].
  apply (recv_frame_sent _ _ encoded []) in Hrun as [_ Hfit].
  - by apply Nat.lt_nge in Hlen.
  - apply Forall_forall. intros b Hb. unfold is_newline. apply bool_decide_false. by intros ->.
  - by rewrite in_pieces_bytes, Hp.
Qed.

Section limits.
  Context `{Host} `{System} `{Threads} `{Crypto} `{JpegDecoder} `{Memfd} (manifest_from_slice : list ascii → option AppManifest).
  Context {C : Type} `{DN : !Daemon C NetworkRequest NetworkResponse} `{DA : !Daemon C AudioRequest AudioResponse}.
  Context `{DG : !Daemon C GpioRequest GpioResponse} `{DR : !Daemon C RadioRequest RadioResponse}.
  Context `{DS : !Daemon C StorageRequest StorageResponse} `{FS : !FdDaemon C StorageRequest StorageResponse}.
  Context `{FD : !FdDaemon C DocumentRequest DocumentResponse} `{FC : !FdDaemon C CameraRequest CameraResponse}.
  Context (from_slice : list ascii → option BrokerRequest) (to_vec : BrokerResponse → option (list ascii)).

(** C36: a request to store a value of 3072 to 8192 bytes, which the protocol
    allows and whose frame is within its limit of 16 KiB, is never executed:
    the server receives requests into a buffer of 4 KiB, too short for the
    Base64 text of the value, and answers an invalid request with the number
    0.  The text of a request contains the Base64 text of its value. *)
Theorem large_put_refused request_to_vec id key value frame pieces peer clock out (c : Services C) s w :
  line_codec request_to_vec from_slice →
  (∀ v r encoded, br_command r = BcStoragePut key v → request_to_vec r = Some encoded → (length (bytes v) ≤ length encoded)%nat) →
  (3072 ≤ length value ≤ MAX_STORAGE_VALUE_BYTES)%nat →
  write_broker_request request_to_vec (mkBrokerRequest BROKER_PROTOCOL_VERSION id (BcStoragePut key (encode_base64 value))) = Ok frame →
  concat pieces = frame →
  BrokerRequest_validate (mkBrokerRequest BROKER_PROTOCOL_VERSION id (BcStoragePut key (encode_base64 value))) = Ok tt ∧
  handle_broker_connection manifest_from_slice from_slice to_vec peer clock (in_pieces pieces) out c s w =
    ((((let? sent := send_dispatch to_vec out (BrokerDispatch_response (BrokerResponse_error 0 BkInvalidRequest)) in Ok (sent, None)),
       c), s), w).
Proof.
  intros Hcodec Htext Hlen Hw Hp. unfold write_broker_request, write_message in Hw.
  destruct (BrokerRequest_validate _) as [[]| |]; [|done..]. split; [done|]. simpl in Hw.
  destruct (request_to_vec _) as [encoded|] eqn:Henc; [|done]. unfold write_frame in Hw.
  destruct (_ <? _)%nat; [done|]. apply Ok_inj in Hw. subst frame.
  destruct (long_frame_refused from_slice encoded pieces) as [e He].
  - by apply (Hcodec _ _ Henc).
  - done.
  - apply (Htext (encode_base64 value)) in Henc; [|done]. unfold encode_base64, bytes in Henc.
    rewrite String.list_ascii_of_string_of_list_ascii, length_encode_chunks in Henc.
    assert (1024 ≤ (length value + 2) / 3)%nat by (apply Nat.div_le_lower_bound; lia).
    unfold MAX_DOCUMENT_FRAME_BYTES. lia.
  - unfold handle_broker_connection. rewrite He. unfold bv_bind, bv_lift, bv_ret.
    by destruct (send_dispatch _ _ _).
Qed.
End limits.

(** ** Witnesses

    A machine with the sample application: the storage service is its abstract
    specification, the other services do not answer. *)

Definition hello_app : AuthorizedApp :=
  {| aa_app_id := "dev.cardputerzero.hello"; aa_app_name := "Hello Card"; aa_storage_quota_bytes := 8388608 |}.
Definition hello_put : StorageRequest := own_request 7 hello_app (ScPut "counter" "aGk=").
Definition is_hello_put (r : StorageRequest) : bool :=
  match r with
  | mkStorageRequest version id app quota (ScPut key value) =>
      (version =? STORAGE_PROTOCOL_VERSION)%Z && (id =? 7)%Z && bool_decide (app = "dev.cardputerzero.hello") &&
      (quota =? 8388608)%Z && bool_decide (key = "counter") && bool_decide (value = "aGk=")
  | _ => false
  end.
Definition braces : list ascii := bytes "{}".

Definition silent {Req Resp} : Daemon (gmap string store) Req Resp :=
  {| daemon_to_vec _ := None; daemon_from_slice _ := None; daemon_call _ := sm_err OtherIo |}.
Definition silent_fd {Req Resp} : FdDaemon (gmap string store) Req Resp :=
  {| fd_daemon_to_vec _ := None; fd_daemon_from_slice _ := None; fd_daemon_call _ := sm_err OtherIo |}.
Definition spec_daemon : Daemon (gmap string store) StorageRequest StorageResponse :=
  {| daemon_to_vec r := if is_hello_put r then Some braces else None;
     daemon_from_slice _ := Some (spec_dispatch ∅ hello_put).1;
     daemon_call _ σ := (Ok (reader_of [braces ++ [newline]]), (spec_dispatch σ hello_put).2) |}.

Lemma is_hello_put_iff r : is_hello_put r = true → r = hello_put.
Proof. destruct r as [version id app quota []]; cbn; try done. intros Hr. unbool_hyps. by subst. Qed.
Lemma spec_daemon_backs :
  @StoresBehind (gmap string store) silent silent silent silent spec_daemon silent_fd silent_fd silent_fd (λ σ, σ).
Proof.
  split; [|by left|done..]. intros r bs σ Hw. right. cbn. unfold storage_write_request, write_message in Hw.
  destruct (StorageRequest_validate r) as [[]| |]; [|done..]. cbn in Hw.
  destruct (is_hello_put r) eqn:Hr; [|done]. by apply is_hello_put_iff in Hr as ->.
Qed.

Definition no_jpeg : JpegDecoder := {| jpeg_decode _ := None |}.
Definition no_memfd : Memfd := {| memfd_fault _ := None |}.
Definition hello_request : BrokerRequest := mkBrokerRequest BROKER_PROTOCOL_VERSION 7 (BcStoragePut "counter" "aGk=").
Definition open_socket : Outgoing := mkOutgoing (Ok tt) (Ok 0%nat) (Ok tt).

(** The sample application stores a value. *)
Definition hello_run :=
  @handle_broker_connection calm_host sample_system lone_thread toy_crypto no_jpeg no_memfd hello_from_slice
    (gmap string store) silent silent silent silent spec_daemon silent_fd silent_fd silent_fd
    (λ _, Some hello_request) (λ _, Some braces) sample_peer 0 (in_pieces [braces; [newline]]) open_socket
    (mkServices ∅ PhotoViewCache_default) consented_server (world_of peer_files).

Lemma hello_run_stores : bool_decide (is_Some (bk_services hello_run.1.1.2 !! "dev.cardputerzero.hello")) = true.
Proof. by vm_compute. Qed.

Lemma broker_effects_authorized_witness :
  ∃ request descriptor app,
    recv_broker_request_with_fd (λ _, Some hello_request) (in_pieces [braces; [newline]]) = Ok (request, descriptor) ∧
    entitled hello_from_slice sample_peer (command_permissions (br_command request)) app (w_disk (world_of peer_files)) consented_server.
Proof.
  destruct (@broker_effects_authorized calm_host sample_system lone_thread toy_crypto no_jpeg no_memfd hello_from_slice
    (gmap string store) silent silent silent silent spec_daemon silent_fd silent_fd silent_fd
    (λ _, Some hello_request) (λ _, Some braces) sample_peer 0 (in_pieces [braces; [newline]]) open_socket
    (mkServices ∅ PhotoViewCache_default) consented_server (world_of peer_files) lone_tame (λ _ _, eq_refl))
    as [Hsame|(request&descriptor&app&Hr&He&_)].
  - exfalso. pose proof hello_run_stores as Hs. unfold hello_run in Hs. rewrite Hsame in Hs. discriminate Hs.
  - by exists request, descriptor, app.
Defined.

Lemma broker_isolates_stores_witness :
  ∃ request descriptor app,
    recv_broker_request_with_fd (λ _, Some hello_request) (in_pieces [braces; [newline]]) = Ok (request, descriptor) ∧
    aa_app_id app = "dev.cardputerzero.hello" ∧ writes_own (br_command request) = true.
Proof.
  destruct (@broker_isolates_stores calm_host sample_system lone_thread toy_crypto no_jpeg no_memfd hello_from_slice
    (gmap string store) silent silent silent silent spec_daemon silent_fd silent_fd silent_fd
    (λ _, Some hello_request) (λ _, Some braces) (λ σ, σ) spec_daemon_backs sample_peer 0 (in_pieces [braces; [newline]]) open_socket
    (mkServices ∅ PhotoViewCache_default) consented_server (world_of peer_files) "dev.cardputerzero.hello" lone_tame (λ _ _, eq_refl))
    as (request&descriptor&app&Hr&_&[(Hn&_&Hw)|[Hn _]]).
  - intros Hsame. pose proof hello_run_stores as Hs. unfold hello_run in Hs. rewrite Hsame in Hs. discriminate Hs.
  - exists request, descriptor, app. by split_and!.
  - discriminate Hn.
Defined.

Lemma broker_answers_valid_witness :
  match hello_run.1.1.1 with
  | Ok (sent, fd) => ∃ response, encode_broker_response (λ _, Some braces) response = Ok sent ∧
      BrokerResponse_validate response = Ok tt ∧ bp_request_id response = 7%Z
  | _ => False
  end.
Proof.
  assert (is_ok hello_run.1.1.1 = true) as Hok by (by vm_compute).
  destruct hello_run as [[[[[sent fd]|e|] c'] s'] w'] eqn:Hrun; [|discriminate Hok..]. simpl. unfold hello_run in Hrun.
  destruct (@broker_answers_valid calm_host sample_system lone_thread toy_crypto no_jpeg no_memfd hello_from_slice
    (gmap string store) silent silent silent silent spec_daemon silent_fd silent_fd silent_fd
    (λ _, Some hello_request) (λ _, Some braces) sample_peer 0 (in_pieces [braces; [newline]]) open_socket
    (mkServices ∅ PhotoViewCache_default) consented_server (world_of peer_files) sent fd c' s' w' lone_tame (λ _ _, eq_refl))
    as (response&He&Hv&_&Hid).
  - constructor; cbn; [unfold u64_max; lia|lia|constructor|constructor].
  - exact Hrun.
  - exists response. by split_and!.
Defined.

(** A value of 3072 bytes, and a coding that spends a byte per character. *)
Definition large_value : list ascii := replicate 3072 "a"%char.
Definition large_put : BrokerRequest := mkBrokerRequest BROKER_PROTOCOL_VERSION 9 (BcStoragePut "log" (encode_base64 large_value)).
Definition blanks : list ascii := replicate 4096 " "%char.
Definition large_to_vec (r : BrokerRequest) : option (list ascii) :=
  match r with
  | mkBrokerRequest version id (BcStoragePut key value) =>
      if (version =? BROKER_PROTOCOL_VERSION)%Z && (id =? 9)%Z && bool_decide (key = "log") &&
         bool_decide (value = encode_base64 large_value)
      then Some blanks else None
  | _ => None
  end.
Lemma large_to_vec_Some r encoded : large_to_vec r = Some encoded → r = large_put ∧ encoded = blanks.
Proof.
  destruct r as [version id []]; cbn [large_to_vec]; try done. destruct (_ && _) eqn:Hr; [|done]. intros [= <-].
  unbool_hyps. by subst.
Qed.

Lemma large_put_refused_witness :
  BrokerRequest_validate large_put = Ok tt ∧
  (@handle_broker_connection calm_host sample_system lone_thread toy_crypto no_jpeg no_memfd hello_from_slice
    (gmap string store) silent silent silent silent spec_daemon silent_fd silent_fd silent_fd
    (λ _, Some large_put) (λ _, Some braces) sample_peer 0 (in_pieces [blanks; [newline]]) open_socket
    (mkServices ∅ PhotoViewCache_default) consented_server (world_of peer_files)).1.1.1 = Ok (braces ++ [newline], None).
Proof.
  assert (BrokerRequest_validate large_put = Ok tt) as Hvalid.
  { unfold BrokerRequest_validate, large_put. cbn -[encode_base64 decode_value large_value].
    rewrite decode_value_encode; [done|]. unfold large_value. rewrite length_replicate. unfold MAX_STORAGE_VALUE_BYTES. lia. }
  destruct (@large_put_refused calm_host sample_system lone_thread toy_crypto no_jpeg no_memfd hello_from_slice
    (gmap string store) silent silent silent silent spec_daemon silent_fd silent_fd silent_fd
    (λ _, Some large_put) (λ _, Some braces) large_to_vec 9 "log" large_value (blanks ++ [newline]) [blanks; [newline]]
    sample_peer 0 open_socket (mkServices ∅ PhotoViewCache_default) consented_server (world_of peer_files)) as [_ Hrun].
  - intros r encoded [-> ->]%large_to_vec_Some. split; [done|]. intros [Hb _]%elem_of_replicate. discriminate Hb.
  - intros v r encoded Hr [-> ->]%large_to_vec_Some. injection Hr as <-. unfold encode_base64, bytes.
    rewrite String.list_ascii_of_string_of_list_ascii, length_encode_chunks. unfold large_value, blanks.
    rewrite !length_replicate. apply Nat.leb_le. reflexivity.
  - unfold large_value. rewrite length_replicate. unfold MAX_STORAGE_VALUE_BYTES. lia.
  - unfold write_broker_request, write_message. fold large_put. rewrite Hvalid.
    change (large_to_vec large_put) with (if true && true && bool_decide ("log" = "log") &&
      bool_decide (encode_base64 large_value = encode_base64 large_value) then Some blanks else None).
    rewrite !bool_decide_true by done. cbn [andb]. unfold write_frame, blanks. rewrite length_replicate. reflexivity.
  - reflexivity.
  - split; [exact Hvalid|]. rewrite Hrun. reflexivity.
Defined.
