(* ===== verification/StoreCatalog.v ===== *)
(** * The Store's catalogues (crates/cp0-store-protocol/src/lib.rs)

    The catalogue of applications that the Store publishes, as one signed
    document or as a signed index with up to 16 signed shards: the data, its
    checks, signing and verification, and the check of a whole set of shards
    against its index.  The JSON coding, SHA-256 and Ed25519 are parameters.
    The messages of the errors are kept as texts.  The requests and responses
    of the Store service, in the same crate, are not modelled. *)

From S2P Require Import Prelude RustStr Bytes Manifest HostFs Checkpoint Package Protocol Transparency StoreMetadata.

Definition CATALOG_SCHEMA_VERSION : Z := 1.
Definition RICH_CATALOG_SCHEMA_VERSION : Z := 2.
Definition MEDIA_CATALOG_SCHEMA_VERSION : Z := 3.
Definition EDITORIAL_CATALOG_SCHEMA_VERSION : Z := 4.
Definition CATALOG_INDEX_SCHEMA_VERSION : Z := 1.
Definition CATALOG_SHARD_SCHEMA_VERSION : Z := 1.
Definition APP_DETAILS_SCHEMA_VERSION : Z := 1.
Definition MAX_CATALOG_BYTES : Z := 48 * 1024.
Definition MAX_APP_DETAILS_BYTES : Z := 16 * 1024.
Definition MAX_CATALOG_APPS : nat := 64.
Definition MAX_CATALOG_SHARDS : nat := 16.
Definition MAX_SHARDED_CATALOG_APPS : nat := MAX_CATALOG_APPS * MAX_CATALOG_SHARDS.
Definition STORE_MAX_PACKAGE_BYTES : Z := MAX_PAYLOAD_BYTES + 4096.
Definition MAX_PACKAGE_URL_BYTES : nat := 2048.
Definition MAX_SUMMARY_CHARS : nat := 96.
Definition MAX_EDITORIAL_COLLECTIONS : nat := 2.
Definition MAX_EDITORIAL_COLLECTION_APPS : nat := 4.
Definition MAX_EDITORIAL_HEADLINE_CHARS : nat := 48.
Definition MAX_EDITORIAL_COLLECTION_TITLE_CHARS : nat := 32.
Definition MAX_CATALOG_LIFETIME_SECONDS : Z := 31 * 24 * 60 * 60.

Definition CATALOG_SIGNATURE_DOMAIN : list ascii := bytes "CardputerZero store catalog signature v1" ++ [zero_byte].
Definition CATALOG_INDEX_SIGNATURE_DOMAIN : list ascii := bytes "CardputerZero store catalog index signature v1" ++ [zero_byte].
Definition CATALOG_SHARD_SIGNATURE_DOMAIN : list ascii := bytes "CardputerZero store catalog shard signature v1" ++ [zero_byte].

(** ** Data *)

Record CatalogEditorialCollection := mkCatalogEditorialCollection { cec_title : string; cec_app_ids : list string }.
Record CatalogEditorial := mkCatalogEditorial {
  ce_headline : string;
  featured_app_id : string;
  ce_collections : list CatalogEditorialCollection;
}.

Record CatalogObjectResource := mkCatalogObjectResource { cor_url : string; cor_sha256 : string; cor_bytes : Z }.
Record CatalogImageResource := mkCatalogImageResource {
  cir_url : string;
  cir_sha256 : string;
  cir_bytes : Z;
  cir_width : Z;
  cir_height : Z;
}.
Record CatalogResources := mkCatalogResources { cr_icon : CatalogImageResource; cr_details : CatalogObjectResource }.

Record CatalogDiscovery := mkCatalogDiscovery {
  cd_developer : string;
  cd_subtitle : string;
  cd_category : StoreCategory;
  cd_keywords : list string;
  cd_age_rating : AgeRating;
  cd_privacy_url : string;
  cd_support_url : string;
}.

Record CatalogApp := mkCatalogApp {
  cat_app_id : string;
  cat_name : string;
  cat_version : string;
  cat_sdk_version : string;
  cat_summary : string;
  package_url : string;
  package_sha256 : string;
  package_bytes : Z;
  cat_permissions : list Permission;
  cat_discovery : option CatalogDiscovery;
  cat_resources : option CatalogResources;
}.

Record Catalog := mkCatalog {
  ca_schema_version : Z;
  ca_sequence : Z;
  ca_published : Z;
  ca_expires : Z;
  ca_apps : list CatalogApp;
  ca_editorial : option CatalogEditorial;
}.

Record StoreAppDetails := mkStoreAppDetails {
  sd_schema_version : Z;
  sd_app_id : string;
  sd_version : string;
  sd_description : string;
  sd_release_notes : string;
  sd_screenshots : list CatalogImageResource;
}.

Record CatalogShardDescriptor := mkCatalogShardDescriptor {
  csd_index : Z;
  csd_url : string;
  csd_sha256 : string;
  csd_bytes : Z;
  csd_app_count : Z;
  first_app_id : string;
  last_app_id : string;
}.

Record CatalogCategoryIndex := mkCatalogCategoryIndex { cci_category : StoreCategory; cci_app_count : Z; shard_indices : list Z }.

Record CatalogIndex := mkCatalogIndex {
  ci_schema_version : Z;
  ci_catalog_schema_version : Z;
  ci_sequence : Z;
  ci_published : Z;
  ci_expires : Z;
  total_app_count : Z;
  ci_shards : list CatalogShardDescriptor;
  ci_categories : list CatalogCategoryIndex;
  ci_editorial : option CatalogEditorial;
}.

Record CatalogShard := mkCatalogShard {
  cs_schema_version : Z;
  cs_catalog_schema_version : Z;
  cs_sequence : Z;
  cs_index : Z;
  cs_apps : list CatalogApp;
}.

(** [SignedCatalog], [SignedCatalogIndex] and [SignedCatalogShard]. *)
Record Signed (A : Type) := mkSigned { sg_document : A; sg_key_id : string; sg_signature : string }.
Arguments mkSigned {A} _ _ _.
Arguments sg_document {A} _.
Arguments sg_key_id {A} _.
Arguments sg_signature {A} _.
Definition SignedCatalog : Type := Signed Catalog.
Definition SignedCatalogIndex : Type := Signed CatalogIndex.
Definition SignedCatalogShard : Type := Signed CatalogShard.
Inductive SignedCatalogDocument := ScdCatalog (signed : SignedCatalog) | ScdIndex (signed : SignedCatalogIndex).

Inductive StoreProtocolError :=
  | StIo (e : IoError) | StJson | StFrameTooLarge | StUnterminatedFrame | StInvalid (message : string)
  | StInvalidDescriptor | StSignature (message : string).

Global Instance StoreCategory_eq_dec : EqDecision StoreCategory.
Proof. solve_decision. Defined.
Global Instance CatalogCategoryIndex_eq_dec : EqDecision CatalogCategoryIndex.
Proof. solve_decision. Defined.

Definition StoreCategory_ALL : list StoreCategory :=
  [DeveloperTools; Education; Entertainment; Games; HardwareCategory; Media; Productivity; Utilities].
Definition StoreCategory_as_str (c : StoreCategory) : string :=
  match c with
  | DeveloperTools => "developer-tools" | Education => "education" | Entertainment => "entertainment" | Games => "games"
  | HardwareCategory => "hardware" | Media => "media" | Productivity => "productivity" | Utilities => "utilities"
  end.

(** ** Checks of fields *)

Definition store_is_valid_https_url (url : string) : bool :=
  (String.length url <=? MAX_PACKAGE_URL_BYTES)%nat && starts_with "https://" url
  && negb (bool_decide ("@"%char ∈ bytes url)) && negb (bool_decide ("#"%char ∈ bytes url))
  && negb (has_control url || whitespace_in (bytes url))
  && match strip_prefix "https://" url with Some rest => bool_decide ("."%char ∈ bytes rest) | None => false end.

Definition chars_in (low high : nat) (value : string) : bool := (low <=? chars_count value)%nat && (chars_count value <=? high)%nat.

(** [if bad { return Err(Invalid(message)) }]. *)
Definition invalid_if (bad : bool) (message : string) : result StoreProtocolError unit :=
  if bad then Err (StInvalid message) else Ok tt.

(** [previous.is_some_and(|previous| previous >= value)]. *)
Definition not_after_previous (previous : option string) (value : string) : bool :=
  match previous with Some previous => negb (str_ltb previous value) | None => false end.

(** The loops over names that must be sorted without repetition. *)
Fixpoint sorted_names (bad : string → bool) (message : string) (previous : option string) (names : list string)
    : result StoreProtocolError unit :=
  match names with
  | [] => Ok tt
  | name :: names =>
      let? _ := invalid_if (bad name || not_after_previous previous name) message in
      sorted_names bad message (Some name) names
  end.

Definition validate_catalog_lifetime (published expires : Z) : result StoreProtocolError unit :=
  let lifetime := (expires - published)%Z in
  invalid_if ((expires <? published)%Z || negb ((0 <? lifetime)%Z && (lifetime <=? MAX_CATALOG_LIFETIME_SECONDS)%Z))
    "catalog validity interval is outside limits".

Definition CatalogObjectResource_validate (r : CatalogObjectResource) (max_bytes : Z) (kind : string)
    : result StoreProtocolError unit :=
  invalid_if (negb (store_is_valid_https_url (cor_url r)) || negb (is_lower_hex (cor_sha256 r) 32)
              || negb (in_range 1 max_bytes (cor_bytes r)))
    ("catalog " +:+ kind +:+ " resource is invalid").
Definition CatalogImageResource_validate (r : CatalogImageResource) (max_bytes : Z) (kind : string)
    : result StoreProtocolError unit :=
  CatalogObjectResource_validate (mkCatalogObjectResource (cir_url r) (cir_sha256 r) (cir_bytes r)) max_bytes kind.
Definition validate_icon (r : CatalogImageResource) : result StoreProtocolError unit :=
  let? _ := invalid_if (negb (((cir_width r =? 32)%Z && (cir_height r =? 32)%Z) || ((cir_width r =? 48)%Z && (cir_height r =? 48)%Z)))
              "catalog icon dimensions are invalid" in
  CatalogImageResource_validate r MAX_ICON_BYTES "icon".
Definition validate_screenshot (r : CatalogImageResource) : result StoreProtocolError unit :=
  let? _ := invalid_if (negb ((cir_width r =? 320)%Z && (cir_height r =? 170)%Z)) "catalog screenshot dimensions are invalid" in
  CatalogImageResource_validate r MAX_SCREENSHOT_BYTES "screenshot".
Definition CatalogResources_validate (r : CatalogResources) : result StoreProtocolError unit :=
  let? _ := validate_icon (cr_icon r) in
  CatalogObjectResource_validate (cr_details r) MAX_APP_DETAILS_BYTES "details".

Definition keyword_bad (keyword : string) : bool :=
  negb (chars_in 1 24 keyword) || (48 <? String.length keyword)%nat || has_control keyword.
Definition CatalogDiscovery_validate (d : CatalogDiscovery) (summary : string) : result StoreProtocolError unit :=
  let? _ := invalid_if (negb (chars_in 1 80 (cd_developer d)) || has_control (cd_developer d))
              "catalog developer name is invalid" in
  let? _ := invalid_if (negb (chars_in 1 48 (cd_subtitle d)) || has_control (cd_subtitle d)
                        || negb (bool_decide (cd_subtitle d = summary)))
              "catalog subtitle is invalid or differs from the summary" in
  let? _ := invalid_if (MAX_KEYWORDS <? length (cd_keywords d))%nat "catalog keyword count is outside limits" in
  let? _ := sorted_names keyword_bad "catalog keywords are invalid, duplicated or unsorted" None (cd_keywords d) in
  invalid_if (negb (store_is_valid_https_url (cd_privacy_url d)) || negb (store_is_valid_https_url (cd_support_url d)))
    "catalog privacy and support URLs must be bounded HTTPS URLs".

Definition validate_detail_text (value : string) (max_chars : nat) (kind : string) : result StoreProtocolError unit :=
  invalid_if (negb (prose_ok value 1 max_chars)) ("Store application " +:+ kind +:+ " is invalid").

(** [urls.insert(..)] for every screenshot. *)
Fixpoint details_screenshots (urls : gset string) (screenshots : list CatalogImageResource) : result StoreProtocolError unit :=
  match screenshots with
  | [] => Ok tt
  | screenshot :: screenshots =>
      let? _ := validate_screenshot screenshot in
      let? _ := invalid_if (bool_decide (cir_url screenshot ∈ urls)) "Store application screenshot URLs are duplicated" in
      details_screenshots ({[cir_url screenshot]} ∪ urls) screenshots
  end.
Definition StoreAppDetails_validate (d : StoreAppDetails) : result StoreProtocolError unit :=
  let? _ := invalid_if (negb (sd_schema_version d =? APP_DETAILS_SCHEMA_VERSION)%Z || negb (is_valid_app_id (sd_app_id d))
                        || negb (is_valid_app_version (sd_version d)))
              "Store application details identity is invalid" in
  let? _ := validate_detail_text (sd_description d) 1024 "description" in
  let? _ := validate_detail_text (sd_release_notes d) 512 "release notes" in
  let? _ := invalid_if (negb ((1 <=? length (sd_screenshots d))%nat && (length (sd_screenshots d) <=? MAX_SCREENSHOTS)%nat))
              "Store application screenshot count is outside limits" in
  details_screenshots ∅ (sd_screenshots d).

(** ** Applications *)

(** The loop over the permissions, by name. *)
Definition permissions_sorted (permissions : list Permission) : result StoreProtocolError unit :=
  sorted_names (λ _, false) "catalog permissions are duplicated or unsorted" None (map Permission_as_str permissions).

Definition CatalogApp_validate (a : CatalogApp) : result StoreProtocolError unit :=
  let? _ := invalid_if (negb (is_valid_app_id (cat_app_id a))) "catalog application ID is invalid" in
  let? _ := invalid_if (negb (chars_in 1 32 (cat_name a)) || has_control (cat_name a)) "catalog application name is invalid" in
  let? _ := invalid_if (negb (is_valid_app_version (cat_version a))) "catalog application version is invalid" in
  let? _ := invalid_if (negb (bool_decide (cat_sdk_version a = "1.0") || bool_decide (cat_sdk_version a = "0.1")))
              "catalog SDK version is not supported" in
  let? _ := invalid_if (negb (chars_in 1 MAX_SUMMARY_CHARS (cat_summary a)) || has_control (cat_summary a))
              "catalog application summary is invalid" in
  let? _ := invalid_if (negb (store_is_valid_https_url (package_url a)))
              "catalog package URL must be bounded HTTPS without credentials or fragments" in
  let? _ := invalid_if (negb (is_lower_hex (package_sha256 a) 32)) "catalog package SHA-256 is invalid" in
  let? _ := invalid_if (negb (in_range 1 STORE_MAX_PACKAGE_BYTES (package_bytes a))) "catalog package size is outside limits" in
  let? _ := permissions_sorted (cat_permissions a) in
  let? _ := match cat_discovery a with Some d => CatalogDiscovery_validate d (cat_summary a) | None => Ok tt end in
  match cat_resources a with Some r => CatalogResources_validate r | None => Ok tt end.

(** ** The editor's choice *)

(** The loop over the applications of a collection: each is acceptable and not
    referenced before. *)
Fixpoint reference_apps (acceptable : string → bool) (referenced : gset string) (app_ids : list string)
    : result StoreProtocolError (gset string) :=
  match app_ids with
  | [] => Ok referenced
  | app_id :: app_ids =>
      let? _ := invalid_if (negb (acceptable app_id) || bool_decide (app_id ∈ referenced))
                  "catalog editorial application reference is invalid or duplicated" in
      reference_apps acceptable ({[app_id]} ∪ referenced) app_ids
  end.

Fixpoint collections_structure (titles referenced : gset string) (collections : list CatalogEditorialCollection)
    : result StoreProtocolError unit :=
  match collections with
  | [] => Ok tt
  | collection :: collections =>
      let count := length (cec_app_ids collection) in
      let? _ := invalid_if (negb (chars_in 1 MAX_EDITORIAL_COLLECTION_TITLE_CHARS (cec_title collection))
                            || has_control (cec_title collection) || bool_decide (cec_title collection ∈ titles)
                            || negb ((1 <=? count)%nat && (count <=? MAX_EDITORIAL_COLLECTION_APPS)%nat))
                  "catalog editorial collection is invalid" in
      let? referenced := reference_apps is_valid_app_id referenced (cec_app_ids collection) in
      collections_structure ({[cec_title collection]} ∪ titles) referenced collections
  end.

Definition CatalogEditorial_validate_structure (e : CatalogEditorial) : result StoreProtocolError unit :=
  let count := length (ce_collections e) in
  let? _ := invalid_if (negb (chars_in 1 MAX_EDITORIAL_HEADLINE_CHARS (ce_headline e)) || has_control (ce_headline e))
              "catalog editorial headline is invalid" in
  let? _ := invalid_if (negb (is_valid_app_id (featured_app_id e))
                        || negb ((1 <=? count)%nat && (count <=? MAX_EDITORIAL_COLLECTIONS)%nat))
              "catalog editorial identity or collection count is invalid" in
  collections_structure ∅ {[featured_app_id e]} (ce_collections e).

Fixpoint collections_references (app_ids referenced : gset string) (collections : list CatalogEditorialCollection)
    : result StoreProtocolError unit :=
  match collections with
  | [] => Ok tt
  | collection :: collections =>
      let? referenced := reference_apps (λ id, bool_decide (id ∈ app_ids)) referenced (cec_app_ids collection) in
      collections_references app_ids referenced collections
  end.

Definition CatalogEditorial_validate (e : CatalogEditorial) (app_ids : gset string) : result StoreProtocolError unit :=
  let? _ := CatalogEditorial_validate_structure e in
  let? _ := invalid_if (negb (bool_decide (featured_app_id e ∈ app_ids)))
              "catalog editorial application reference is invalid or duplicated" in
  collections_references app_ids {[featured_app_id e]} (ce_collections e).

(** ** Catalogues, indexes and shards *)

Definition catalog_schema_known (version : Z) : bool :=
  (version =? CATALOG_SCHEMA_VERSION)%Z || (version =? RICH_CATALOG_SCHEMA_VERSION)%Z
  || (version =? MEDIA_CATALOG_SCHEMA_VERSION)%Z || (version =? EDITORIAL_CATALOG_SCHEMA_VERSION)%Z.

(** The metadata that a schema asks of every application. *)
Definition app_metadata (schema : Z) (discovery resources editorial : bool) : result StoreProtocolError unit :=
  if (schema =? CATALOG_SCHEMA_VERSION)%Z
  then invalid_if (discovery || resources || editorial) "Catalog v1 application contains newer metadata"
  else if (schema =? RICH_CATALOG_SCHEMA_VERSION)%Z
  then invalid_if (negb (discovery && negb resources && negb editorial))
         "Catalog v2 application metadata is incomplete or includes v3 resources"
  else if (schema =? MEDIA_CATALOG_SCHEMA_VERSION)%Z
  then invalid_if (negb (discovery && resources && negb editorial))
         "Catalog v3 application metadata is incomplete or includes v4 editorial data"
  else if (schema =? EDITORIAL_CATALOG_SCHEMA_VERSION)%Z
  then invalid_if (negb (discovery && resources && editorial)) "Catalog v4 application or editorial metadata is incomplete"
  else Panicked.

(** The loop over the applications; the result is the set of their names. *)
Fixpoint catalog_apps (schema : Z) (editorial : bool) (ids : gset string) (previous : option string) (apps : list CatalogApp)
    : result StoreProtocolError (gset string) :=
  match apps with
  | [] => Ok ids
  | app :: apps =>
      let? _ := CatalogApp_validate app in
      let? _ := app_metadata schema (bool_decide (is_Some (cat_discovery app))) (bool_decide (is_Some (cat_resources app))) editorial in
      let? _ := invalid_if (bool_decide (cat_app_id app ∈ ids)) "catalog contains a duplicate application ID" in
      let? _ := invalid_if (not_after_previous previous (cat_app_id app)) "catalog applications are not sorted by ID" in
      catalog_apps schema editorial ({[cat_app_id app]} ∪ ids) (Some (cat_app_id app)) apps
  end.

Definition has_editorial (e : option CatalogEditorial) : bool := bool_decide (is_Some e).

Definition Catalog_validate (c : Catalog) : result StoreProtocolError unit :=
  let schema := ca_schema_version c in
  let? _ := invalid_if (negb (catalog_schema_known schema)) "catalog schema must be 1, 2, 3 or 4" in
  let? _ := invalid_if (ca_sequence c =? 0)%Z "catalog sequence must be non-zero" in
  let? _ := validate_catalog_lifetime (ca_published c) (ca_expires c) in
  let? _ := invalid_if (MAX_CATALOG_APPS <? length (ca_apps c))%nat "catalog contains too many applications" in
  let? _ := (if (schema =? EDITORIAL_CATALOG_SCHEMA_VERSION)%Z
             then invalid_if (negb (has_editorial (ca_editorial c))) "Catalog v4 is missing editorial metadata"
             else invalid_if (has_editorial (ca_editorial c)) "older Catalog schema contains v4 editorial metadata") in
  let? ids := catalog_apps schema (has_editorial (ca_editorial c)) ∅ None (ca_apps c) in
  match ca_editorial c with Some e => CatalogEditorial_validate e ids | None => Ok tt end.

(** The loop over the descriptors: the sum of their counts. *)
Fixpoint index_shards (expected_index : Z) (previous_last : option string) (app_count : Z) (shards : list CatalogShardDescriptor)
    : result StoreProtocolError Z :=
  match shards with
  | [] => Ok app_count
  | shard :: shards =>
      let? _ := invalid_if (negb (csd_index shard =? expected_index)%Z || negb (store_is_valid_https_url (csd_url shard))
                            || negb (is_lower_hex (csd_sha256 shard) 32) || negb (in_range 1 MAX_CATALOG_BYTES (csd_bytes shard))
                            || negb (in_range 1 (Z.of_nat MAX_CATALOG_APPS) (csd_app_count shard))
                            || negb (is_valid_app_id (first_app_id shard)) || negb (is_valid_app_id (last_app_id shard))
                            || str_ltb (last_app_id shard) (first_app_id shard)
                            || not_after_previous previous_last (first_app_id shard))
                  "catalog shard descriptor is invalid or unordered" in
      let? app_count := ok_or (checked_add_u64 app_count (csd_app_count shard)) (StInvalid "catalog app count overflow") in
      index_shards (expected_index + 1) (Some (last_app_id shard)) app_count shards
  end.

(** The loop over the categories: the sum of their counts. *)
Fixpoint index_categories (shards : nat) (previous : option string) (total : Z) (categories : list CatalogCategoryIndex)
    : result StoreProtocolError Z :=
  match categories with
  | [] => Ok total
  | category :: categories =>
      let name := StoreCategory_as_str (cci_category category) in
      let indices := shard_indices category in
      let? _ := invalid_if (not_after_previous previous name || (cci_app_count category =? 0)%Z || bool_decide (indices = [])
                            || (shards <? length indices)%nat || windows2_any (λ x y, (y <=? x)%Z) indices
                            || existsb (λ index, (Z.of_nat shards <=? index)%Z) indices)
                  "catalog category index is invalid or unordered" in
      let? total := ok_or (checked_add_u64 total (cci_app_count category)) (StInvalid "category count overflow") in
      index_categories shards (Some name) total categories
  end.

Definition CatalogIndex_validate (i : CatalogIndex) : result StoreProtocolError unit :=
  let schema := ci_catalog_schema_version i in
  let? _ := invalid_if (negb (ci_schema_version i =? CATALOG_INDEX_SCHEMA_VERSION)%Z || negb (catalog_schema_known schema)
                        || (ci_sequence i =? 0)%Z)
              "catalog index identity or schema is invalid" in
  let? _ := validate_catalog_lifetime (ci_published i) (ci_expires i) in
  let shards := length (ci_shards i) in
  let? _ := invalid_if (negb (in_range 1 (Z.of_nat MAX_SHARDED_CATALOG_APPS) (total_app_count i))
                        || negb ((1 <=? shards)%nat && (shards <=? MAX_CATALOG_SHARDS)%nat))
              "catalog index application or shard count is outside limits" in
  let? _ := invalid_if (negb (Bool.eqb (schema =? EDITORIAL_CATALOG_SCHEMA_VERSION)%Z (has_editorial (ci_editorial i))))
              "catalog index editorial metadata is inconsistent with its content schema" in
  let? _ := match ci_editorial i with Some e => CatalogEditorial_validate_structure e | None => Ok tt end in
  let? app_count := index_shards 0 None 0 (ci_shards i) in
  let? _ := invalid_if (negb (app_count =? total_app_count i)%Z) "catalog index total differs from its shard descriptors" in
  let? category_total := index_categories shards None 0 (ci_categories i) in
  invalid_if (negb (category_total =? total_app_count i)%Z) "catalog category total differs from the application total".

Definition CatalogShard_validate (s : CatalogShard) : result StoreProtocolError unit :=
  let schema := cs_catalog_schema_version s in
  let? _ := invalid_if (negb (cs_schema_version s =? CATALOG_SHARD_SCHEMA_VERSION)%Z || (cs_sequence s =? 0)%Z
                        || (Z.of_nat MAX_CATALOG_SHARDS <=? cs_index s)%Z || bool_decide (length (cs_apps s) = 0%nat))
              "catalog shard identity or bounds are invalid" in
  let? validation_schema := (if (schema =? EDITORIAL_CATALOG_SCHEMA_VERSION)%Z then Ok MEDIA_CATALOG_SCHEMA_VERSION
                             else if catalog_schema_known schema then Ok schema
                             else Err (StInvalid "catalog shard content schema is invalid")) in
  Catalog_validate (mkCatalog validation_schema (cs_sequence s) 1 2 (cs_apps s) None).

(** ** Signatures *)

Section signing.
  Context `{Crypto} `{!Codec Catalog} `{!Codec CatalogIndex} `{!Codec CatalogShard}.
  Context `{!Codec SignedCatalog} `{!Codec SignedCatalogIndex} `{!Codec SignedCatalogShard} `{!Codec StoreAppDetails}.
  Context (document_from_slice : list ascii → option SignedCatalogDocument).

Definition canonical_catalog (c : Catalog) : result StoreProtocolError (list ascii) :=
  let? _ := Catalog_validate c in ok_or (to_json c) StJson.
Definition canonical_catalog_index (i : CatalogIndex) : result StoreProtocolError (list ascii) :=
  let? _ := CatalogIndex_validate i in ok_or (to_json i) StJson.
Definition canonical_catalog_shard (s : CatalogShard) : result StoreProtocolError (list ascii) :=
  let? _ := CatalogShard_validate s in ok_or (to_json s) StJson.

Definition store_signature_text (domain canonical : list ascii) : list ascii := domain ++ canonical.

(** The common part of [sign_catalog], [sign_catalog_index] and [sign_catalog_shard]. *)
Definition sign_document {A} (canonical : A → result StoreProtocolError (list ascii)) (domain : list ascii) (document : A)
    (signing_key : list ascii) : result StoreProtocolError (Signed A) :=
  let? text := canonical document in
  Ok (mkSigned document (lower_hex (key_id (public_key signing_key)))
        (lower_hex (ed25519_sign signing_key (store_signature_text domain text)))).

Definition sign_catalog := sign_document canonical_catalog CATALOG_SIGNATURE_DOMAIN.
Definition sign_catalog_index := sign_document canonical_catalog_index CATALOG_INDEX_SIGNATURE_DOMAIN.
Definition sign_catalog_shard := sign_document canonical_catalog_shard CATALOG_SHARD_SIGNATURE_DOMAIN.

Definition verify_signature (key_id_text signature : string) (key domain canonical : list ascii) (kind : string)
    : result StoreProtocolError unit :=
  if negb (bool_decide (key_id_text = lower_hex (key_id key))) then Err (StSignature (kind +:+ " key ID does not match trusted key"))
  else
    let? signature := ok_or (decode_hex 64 signature) (StSignature (kind +:+ " signature is invalid")) in
    if negb (verifying_key_ok key) then Err (StSignature "trusted store key is invalid")
    else if ed25519_verify key (store_signature_text domain canonical) signature then Ok tt
    else Err (StSignature (kind +:+ " signature does not match")).

Definition verify_document {A} (canonical : A → result StoreProtocolError (list ascii)) (domain : list ascii) (kind : string)
    (signed : Signed A) (key : list ascii) : result StoreProtocolError unit :=
  let? text := canonical (sg_document signed) in
  verify_signature (sg_key_id signed) (sg_signature signed) key domain text kind.

Definition verify_catalog := verify_document canonical_catalog CATALOG_SIGNATURE_DOMAIN "catalog".
Definition verify_catalog_index := verify_document canonical_catalog_index CATALOG_INDEX_SIGNATURE_DOMAIN "catalog index".
Definition verify_catalog_shard := verify_document canonical_catalog_shard CATALOG_SHARD_SIGNATURE_DOMAIN "catalog shard".

(** [verify_signed_shape] and its likes. *)
Definition signed_shape {A} (validate : A → result StoreProtocolError unit) (kind : string) (signed : Signed A)
    : result StoreProtocolError unit :=
  let? _ := validate (sg_document signed) in
  invalid_if (negb (is_lower_hex (sg_key_id signed) 32) || negb (is_lower_hex (sg_signature signed) 64))
    (kind +:+ " key ID or signature encoding is invalid").

Definition encode_signed {A} `{!Codec (Signed A)} (validate : A → result StoreProtocolError unit) (kind : string) (signed : Signed A)
    : result StoreProtocolError (list ascii) :=
  let? _ := signed_shape validate kind signed in
  let? encoded := ok_or (to_json signed) StJson in
  if (MAX_CATALOG_BYTES <? Z.of_nat (length encoded))%Z then Err StFrameTooLarge else Ok encoded.
Definition decode_signed {A} `{!Codec (Signed A)} (validate : A → result StoreProtocolError unit) (kind : string) (encoded : list ascii)
    : result StoreProtocolError (Signed A) :=
  if (MAX_CATALOG_BYTES <? Z.of_nat (length encoded))%Z then Err StFrameTooLarge
  else
    let? signed := ok_or (from_json encoded) StJson in
    let? _ := signed_shape validate kind signed in
    Ok signed.

Definition encode_signed_catalog : SignedCatalog → _ := encode_signed Catalog_validate "catalog".
Definition decode_signed_catalog : list ascii → result StoreProtocolError SignedCatalog := decode_signed Catalog_validate "catalog".
Definition encode_signed_catalog_index : SignedCatalogIndex → _ := encode_signed CatalogIndex_validate "catalog index".
Definition decode_signed_catalog_index : list ascii → result StoreProtocolError SignedCatalogIndex :=
  decode_signed CatalogIndex_validate "catalog index".
Definition encode_signed_catalog_shard : SignedCatalogShard → _ := encode_signed CatalogShard_validate "catalog shard".
Definition decode_signed_catalog_shard : list ascii → result StoreProtocolError SignedCatalogShard :=
  decode_signed CatalogShard_validate "catalog shard".

Definition decode_signed_catalog_document (encoded : list ascii) : result StoreProtocolError SignedCatalogDocument :=
  if (MAX_CATALOG_BYTES <? Z.of_nat (length encoded))%Z then Err StFrameTooLarge
  else
    let? document := ok_or (document_from_slice encoded) StJson in
    let? _ := match document with
              | ScdCatalog signed => signed_shape Catalog_validate "catalog" signed
              | ScdIndex signed => signed_shape CatalogIndex_validate "catalog index" signed
              end in
    Ok document.

Definition encode_app_details (d : StoreAppDetails) : result StoreProtocolError (list ascii) :=
  let? _ := StoreAppDetails_validate d in
  let? encoded := ok_or (to_json d) StJson in
  if (MAX_APP_DETAILS_BYTES <? Z.of_nat (length encoded))%Z then Err StFrameTooLarge else Ok encoded.
Definition decode_app_details (encoded : list ascii) : result StoreProtocolError StoreAppDetails :=
  if (MAX_APP_DETAILS_BYTES <? Z.of_nat (length encoded))%Z then Err StFrameTooLarge
  else
    let? details := ok_or (from_json encoded) StJson in
    let? _ := StoreAppDetails_validate details in
    Ok details.

(** ** A set of shards *)

(** The members of a category: how many applications, in which shards. *)
Definition Members : Type := list (StoreCategory * Z * list Z).
Definition no_members : Members := map (λ category, (category, 0%Z, [])) StoreCategory_ALL.

(** The counter of one category; [find(..).expect(..)]. *)
Fixpoint count_member (category : StoreCategory) (shard_index : Z) (members : Members) : result StoreProtocolError Members :=
  match members with
  | [] => Panicked
  | (c, count, indices) :: members =>
      if bool_decide (c = category) then
        if (u16_max <? count + 1)%Z then Err (StInvalid "catalog category count overflow")
        else
          let indices := if bool_decide (last indices = Some shard_index) then indices else indices ++ [shard_index] in
          Ok ((c, (count + 1)%Z, indices) :: members)
      else
        let? rest := count_member category shard_index members in
        Ok ((c, count, indices) :: rest)
  end.

(** What the loops carry: the members, the names and the last name. *)
Record Tally := mkTally { ty_members : Members; ty_ids : gset string; ty_previous : option string }.

Fixpoint tally_apps (shard_index : Z) (apps : list CatalogApp) (t : Tally) : result StoreProtocolError Tally :=
  match apps with
  | [] => Ok t
  | app :: apps =>
      let id := cat_app_id app in
      let? _ := invalid_if (not_after_previous (ty_previous t) id || bool_decide (id ∈ ty_ids t))
                  "catalog shard applications overlap or are unordered" in
      let? discovery := ok_or (cat_discovery app)
                          (StInvalid "sharded catalog application is missing discovery metadata") in
      let? members := count_member (cd_category discovery) shard_index (ty_members t) in
      tally_apps shard_index apps (mkTally members ({[id]} ∪ ty_ids t) (Some id))
  end.

(** The shard is the one the descriptor announces. *)
Definition shard_differs (i : CatalogIndex) (descriptor : CatalogShardDescriptor) (shard : CatalogShard) (first last : CatalogApp)
    : bool :=
  negb (cs_sequence shard =? ci_sequence i)%Z || negb (cs_catalog_schema_version shard =? ci_catalog_schema_version i)%Z
  || negb (cs_index shard =? csd_index descriptor)%Z || negb (Z.of_nat (length (cs_apps shard)) =? csd_app_count descriptor)%Z
  || negb (bool_decide (cat_app_id first = first_app_id descriptor)) || negb (bool_decide (cat_app_id last = last_app_id descriptor)).

Definition verify_shard (i : CatalogIndex) (key : list ascii) (descriptor : CatalogShardDescriptor) (encoded : list ascii)
    : result StoreProtocolError SignedCatalogShard :=
  if negb (Z.of_nat (length encoded) =? csd_bytes descriptor)%Z
     || negb (bool_decide (lower_hex (sha256 encoded) = csd_sha256 descriptor))
  then Err (StInvalid "catalog shard bytes differ from the signed descriptor")
  else
    let? signed := decode_signed_catalog_shard encoded in
    let? _ := verify_catalog_shard signed key in
    let apps := cs_apps (sg_document signed) in
    match head apps, last apps with
    | Some first, Some last =>
        if shard_differs i descriptor (sg_document signed) first last
        then Err (StInvalid "catalog shard identity differs from the signed descriptor") else Ok signed
    | _, _ => Panicked
    end.

Fixpoint verify_shards (i : CatalogIndex) (key : list ascii) (descriptors : list CatalogShardDescriptor) (encoded_shards : list (list ascii))
    (t : Tally) : result StoreProtocolError (list SignedCatalogShard * Tally) :=
  match descriptors, encoded_shards with
  | descriptor :: descriptors, encoded :: encoded_shards =>
      let? signed := verify_shard i key descriptor encoded in
      let? t := tally_apps (cs_index (sg_document signed)) (cs_apps (sg_document signed)) t in
      let? rest := verify_shards i key descriptors encoded_shards t in
      Ok (signed :: rest.1, rest.2)
  | _, _ => Ok ([], t)
  end.

Definition expected_categories (members : Members) : list CatalogCategoryIndex :=
  map (λ m, mkCatalogCategoryIndex m.1.1 m.1.2 m.2) (List.filter (λ m, (0 <? m.1.2)%Z) members).

Definition verify_catalog_shard_set (signed_index : SignedCatalogIndex) (encoded_shards : list (list ascii)) (key : list ascii)
    : result StoreProtocolError (list SignedCatalogShard) :=
  let? _ := verify_catalog_index signed_index key in
  let i := sg_document signed_index in
  let? _ := invalid_if (negb (length encoded_shards =? length (ci_shards i))%nat) "catalog shard set is incomplete" in
  let? verified := verify_shards i key (ci_shards i) encoded_shards (mkTally no_members ∅ None) in
  let t := verified.2 in
  let? _ := invalid_if (negb (Z.of_nat (size (ty_ids t)) =? total_app_count i)%Z)
              "verified shard total differs from the signed index" in
  let? _ := invalid_if (negb (bool_decide (ci_categories i = expected_categories (ty_members t))))
              "catalog category index differs from verified shard contents" in
  let? _ := match ci_editorial i with Some e => CatalogEditorial_validate e (ty_ids t) | None => Ok tt end in
  Ok verified.1.

End signing.
