(* ===== verification/StoreCatalogProps.v ===== *)
(** * A set of catalogue shards is one catalogue

    [shard_set] says, without following the code, which sets of encoded shards
    belong to a signed index.  The theorem shows that the check of the code
    accepts exactly these: nothing can be added, left out, moved between
    shards or hidden from a category, and an honest set is never refused. *)

From S2P Require Import Prelude RustStr Bytes Manifest HostFs Checkpoint Package Protocol Transparency StoreMetadata StoreCatalog.

Section spec.
  Context `{Crypto} `{!Codec CatalogIndex} `{!Codec CatalogShard} `{!Codec SignedCatalogShard}.

(** ** Specification *)

(** The document is signed with the key. *)
Definition authentic {A} (canonical : A → result StoreProtocolError (list ascii)) (domain : list ascii) (key : list ascii)
    (signed : Signed A) : Prop :=
  ∃ text signature, canonical (sg_document signed) = Ok text ∧ sg_key_id signed = lower_hex (key_id key) ∧
    decode_hex 64 (sg_signature signed) = Some signature ∧ verifying_key_ok key = true ∧
    ed25519_verify key (domain ++ text) signature = true.

(** The bytes are those the descriptor announces, and hold a shard signed with
    the key that has the place, the size and the ends announced. *)
Record shard_matches (i : CatalogIndex) (key : list ascii) (d : CatalogShardDescriptor) (encoded : list ascii)
    (signed : SignedCatalogShard) : Prop := {
  sm_bytes : Z.of_nat (length encoded) = csd_bytes d;
  sm_digest : lower_hex (sha256 encoded) = csd_sha256 d;
  sm_decoded : decode_signed_catalog_shard encoded = Ok signed;
  sm_authentic : authentic canonical_catalog_shard CATALOG_SHARD_SIGNATURE_DOMAIN key signed;
  sm_sequence : cs_sequence (sg_document signed) = ci_sequence i;
  sm_schema : cs_catalog_schema_version (sg_document signed) = ci_catalog_schema_version i;
  sm_index : cs_index (sg_document signed) = csd_index d;
  sm_count : Z.of_nat (length (cs_apps (sg_document signed))) = csd_app_count d;
  sm_first : cat_app_id <$> head (cs_apps (sg_document signed)) = Some (first_app_id d);
  sm_last : cat_app_id <$> last (cs_apps (sg_document signed)) = Some (last_app_id d);
}.

Definition shard_apps (signed : SignedCatalogShard) : list CatalogApp := cs_apps (sg_document signed).
Definition all_apps (shards : list SignedCatalogShard) : list CatalogApp := concat (map shard_apps shards).
Definition app_ids (apps : list CatalogApp) : list string := map cat_app_id apps.

Definition in_category (c : StoreCategory) (app : CatalogApp) : bool :=
  match cat_discovery app with Some d => bool_decide (cd_category d = c) | None => false end.
Definition category_count (c : StoreCategory) (apps : list CatalogApp) : Z := Z.of_nat (length (List.filter (in_category c) apps)).
(** The shards with an application of the category. *)
Definition category_shards (c : StoreCategory) (shards : list SignedCatalogShard) : list Z :=
  map (λ s, cs_index (sg_document s)) (List.filter (λ s, existsb (in_category c) (shard_apps s)) shards).
Definition category_index (shards : list SignedCatalogShard) (c : StoreCategory) : CatalogCategoryIndex :=
  mkCatalogCategoryIndex c (category_count c (all_apps shards)) (category_shards c shards).

Record shard_set (key : list ascii) (signed_index : SignedCatalogIndex) (encoded : list (list ascii))
    (shards : list SignedCatalogShard) : Prop := {
  ss_index : authentic canonical_catalog_index CATALOG_INDEX_SIGNATURE_DOMAIN key signed_index;
  ss_shards : Forall3 (shard_matches (sg_document signed_index) key) (ci_shards (sg_document signed_index)) encoded shards;
  ss_sorted : StronglySorted str_lt (app_ids (all_apps shards));
  ss_discovery : Forall (λ app, is_Some (cat_discovery app)) (all_apps shards);
  ss_total : Z.of_nat (length (all_apps shards)) = total_app_count (sg_document signed_index);
  ss_categories : ci_categories (sg_document signed_index) =
    map (category_index shards) (List.filter (λ c, (0 <? category_count c (all_apps shards))%Z) StoreCategory_ALL);
  ss_editorial : match ci_editorial (sg_document signed_index) with
                 | Some e => CatalogEditorial_validate e (list_to_set (app_ids (all_apps shards))) = Ok tt
                 | None => True
                 end;
}.

(** ** Signatures *)

Lemma invalid_if_Ok b message : invalid_if b message = Ok tt ↔ b = false.
Proof. by destruct b. Qed.

Lemma invalid_if_then {A} b message (next : result StoreProtocolError A) value :
  (let? _ := invalid_if b message in next) = Ok value → b = false ∧ next = Ok value.
Proof. by destruct b. Qed.

Lemma verify_document_iff {A} (canonical : A → result StoreProtocolError (list ascii)) domain kind signed key :
  verify_document canonical domain kind signed key = Ok tt ↔ authentic canonical domain key signed.
Proof.
  unfold verify_document, verify_signature, authentic, store_signature_text. split.
  - destruct (canonical _) as [text| |]; [|done..]. cbn. case_bool_decide as Hid; [|done]. cbn [negb].
    destruct (decode_hex 64 _) as [signature|]; [|done]. cbn. destruct (verifying_key_ok key) eqn:Hk; [|done]. cbn [negb].
    destruct (ed25519_verify _ _ _) eqn:Hv; [|done]. intros _. by exists text, signature.
  - intros (text&signature&->&Hid&Hs&Hk&Hv). cbn. rewrite bool_decide_true by done. cbn [negb]. rewrite Hs. cbn.
    by rewrite Hk, Hv.
Qed.

(** ** Shards *)

Lemma verify_shard_iff i key d encoded signed :
  verify_shard i key d encoded = Ok signed ↔ shard_matches i key d encoded signed.
Proof.
  unfold verify_shard. split.
  - destruct (_ || _) eqn:Hb; [done|]. unbool_hyps.
    destruct (decode_signed_catalog_shard encoded) as [s| |] eqn:Hd; [|done..]. cbn.
    destruct (verify_catalog_shard s key) as [[]| |] eqn:Hv; [|done..]. apply verify_document_iff in Hv. cbn.
    destruct (head _) as [first|] eqn:Hf; [|done]. destruct (last _) as [lst|] eqn:Hl; [|done].
    destruct (shard_differs _ _ _ _ _) eqn:Hs; [done|]. intros [= <-]. unfold shard_differs in Hs. unbool_hyps.
    constructor; try done; by rewrite ?Hf, ?Hl; cbn; f_equal.
  - intros [Hb Hg Hd Ha Hs Hc Hi Hn Hf Hl]. rewrite (proj2 (Z.eqb_eq _ _) Hb), bool_decide_true by done. cbn [negb orb].
    rewrite Hd. cbn. assert (verify_catalog_shard signed key = Ok tt) as -> by (by apply verify_document_iff). cbn.
    destruct (head _) as [first|]; [|done]. destruct (last _) as [lst|]; [|done]. cbn in Hf, Hl. simplify_eq.
    unfold shard_differs. rewrite Hs, Hc, Hi, Hn, !Z.eqb_refl, !bool_decide_true by done. done.
Qed.

(** ** The tally *)

(** A count and the shards for every category. *)
Definition Counts : Type := StoreCategory → Z * list Z.
Definition members_of (f : Counts) : Members := map (λ c, (c, (f c).1, (f c).2)) StoreCategory_ALL.
Definition add_index (index : Z) (l : list Z) : list Z := if bool_decide (last l = Some index) then l else l ++ [index].
Definition count_in (index : Z) (f : Counts) (c : StoreCategory) : Counts := λ c',
  if bool_decide (c' = c) then ((f c').1 + 1, add_index index (f c').2)%Z else f c'.

Lemma members_ext f g : (∀ c, f c = g c) → members_of f = members_of g.
Proof. intros Hf. unfold members_of. apply map_ext. intros c. by rewrite Hf. Qed.
Lemma count_member_in c index f l : NoDup l → c ∈ l →
  count_member c index (map (λ c, (c, (f c).1, (f c).2)) l) =
    if (u16_max <? (f c).1 + 1)%Z then Err (StInvalid "catalog category count overflow")
    else Ok (map (λ c', (c', (count_in index f c c').1, (count_in index f c c').2)) l).
Proof.
  induction 1 as [|c' l Hni _ IH]; intros Hc; [by apply not_elem_of_nil in Hc|]. cbn [map count_member].
  destruct (decide (c' = c)) as [->|Hne].
  - rewrite bool_decide_true by done. destruct (u16_max <? _)%Z; [done|]. f_equal. f_equal.
    + unfold count_in, add_index. by rewrite (bool_decide_true (c = c)).
    + apply map_ext_in. intros c' Hc'%list_elem_of_In. unfold count_in. rewrite bool_decide_false; [done|]. by intros ->.
  - rewrite bool_decide_false by done. apply elem_of_cons in Hc as [->|Hc]; [done|]. rewrite (IH Hc).
    destruct (u16_max <? _)%Z; [done|]. cbn. f_equal. f_equal. unfold count_in at 1 2. by rewrite bool_decide_false.
Qed.
Lemma category_all c : NoDup StoreCategory_ALL ∧ c ∈ StoreCategory_ALL.
Proof. split; [by apply (bool_decide_unpack _); vm_compute|]. apply (bool_decide_unpack _). by destruct c; vm_compute. Qed.
Lemma count_member_of c index f :
  count_member c index (members_of f) =
    if (u16_max <? (f c).1 + 1)%Z then Err (StInvalid "catalog category count overflow")
    else Ok (members_of (count_in index f c)).
Proof. apply count_member_in; apply (category_all c). Qed.

Definition tally_of (f : Counts) (done : list string) : Tally := mkTally (members_of f) (list_to_set done) (last done).
Fixpoint counts_after (index : Z) (apps : list CatalogApp) (f : Counts) : Counts :=
  match apps with
  | [] => f
  | app :: apps =>
      counts_after index apps match cat_discovery app with Some d => count_in index f (cd_category d) | None => f end
  end.

(** In a sorted list the next name only has to be compared with the last. *)
Lemma next_sorted seen id :
  StronglySorted str_lt seen →
  not_after_previous (last seen) id || bool_decide (id ∈ (list_to_set seen : gset string)) = false ↔
  StronglySorted str_lt (seen ++ [id]).
Proof.
  intros Hs. split.
  - intros Hb. apply StronglySorted_snoc; [done|]. intros y Hy. destruct (last seen) as [p|] eqn:Hl.
    + cbn in Hb. unbool_hyps. assert (str_lt p id) as Hp by (by apply str_ltb_lt).
      apply last_Some in Hl as [seen' ->]. apply elem_of_app in Hy as [Hy|Hy%list_elem_of_singleton]; [|by subst].
      etransitivity; [|exact Hp]. eapply StronglySorted_app_1_elem_of; [exact Hs|done|by apply list_elem_of_singleton].
    + apply last_None in Hl as ->. by apply not_elem_of_nil in Hy.
  - intros Hs'. apply orb_false_iff. split.
    + destruct (last seen) as [p|] eqn:Hl; [|done]. cbn. apply negb_false_iff, str_ltb_lt.
      apply last_Some in Hl as [seen' ->].
      eapply StronglySorted_app_1_elem_of; [exact Hs'|set_solver|by apply list_elem_of_singleton].
    + apply bool_decide_eq_false. rewrite elem_of_list_to_set. intros Hin.
      assert (str_lt id id) as Hirr by (eapply StronglySorted_app_1_elem_of; [exact Hs'|done|by apply list_elem_of_singleton]).
      by apply (irreflexivity str_lt) in Hirr.
Qed.

(** The loop over a shard, given room in the counters. *)
Lemma tally_apps_iff index apps f seen t :
  StronglySorted str_lt seen → (∀ c, (f c).1 + Z.of_nat (length apps) ≤ u16_max)%Z →
  tally_apps index apps (tally_of f seen) = Ok t ↔
  StronglySorted str_lt (seen ++ app_ids apps) ∧ Forall (λ app, is_Some (cat_discovery app)) apps ∧
  t = tally_of (counts_after index apps f) (seen ++ app_ids apps).
Proof.
  revert f seen. induction apps as [|app apps IH]; intros f seen Hs Hroom.
  { cbn. rewrite app_nil_r. split; [by intros [= <-]|]. by intros (_&_&->). }
  cbn [tally_apps app_ids map counts_after]. cbv zeta. change (map cat_app_id apps) with (app_ids apps).
  change (ty_previous (tally_of f seen)) with (last seen). change (ty_ids (tally_of f seen)) with (list_to_set seen : gset string).
  change (ty_members (tally_of f seen)) with (members_of f).
  assert (∀ rest, seen ++ cat_app_id app :: rest = (seen ++ [cat_app_id app]) ++ rest) as Hmove by (intros; by rewrite <- app_assoc).
  rewrite Hmove. unfold invalid_if. destruct (_ || _) eqn:Hb.
  { split; [done|]. intros (Hss&_). apply StronglySorted_app_1_l, next_sorted in Hss; [|done]. by rewrite Hb in Hss. }
  apply next_sorted in Hb; [|done]. cbn [ok_or].
  destruct (cat_discovery app) as [d|] eqn:Hd; cbn [ok_or].
  2: { split; [done|]. intros (_&Hf&_). apply Forall_cons in Hf as [Hf _]. rewrite Hd in Hf. by apply is_Some_None in Hf. }
  rewrite count_member_of. pose proof (Hroom (cd_category d)) as Hc. cbn [length] in *.
  rewrite (proj2 (Z.ltb_ge _ _)) by lia. cbn [ok_or].
  assert (mkTally (members_of (count_in index f (cd_category d))) ({[cat_app_id app]} ∪ list_to_set seen) (Some (cat_app_id app))
          = tally_of (count_in index f (cd_category d)) (seen ++ [cat_app_id app])) as ->.
  { unfold tally_of. rewrite last_snoc. f_equal. rewrite list_to_set_app_L. cbn. set_solver. }
  rewrite IH; [|done|].
  - rewrite Forall_cons. split; intros H'; intuition eauto.
  - intros c. specialize (Hroom c). unfold count_in. case_bool_decide; cbn [fst]; lia.
Qed.

(** What a shard adds to the tally of the shards before it. *)
Lemma counts_after_shard index apps f :
  Forall (λ app, is_Some (cat_discovery app)) apps → (∀ c, last (f c).2 ≠ Some index) →
  ∀ c, counts_after index apps f c =
    (((f c).1 + category_count c apps)%Z, (f c).2 ++ (if existsb (in_category c) apps then [index] else [])).
Proof.
  intros Hd Hfresh.
  assert (∀ apps g, Forall (λ app, is_Some (cat_discovery app)) apps →
    (∀ c, (g c).2 = (f c).2 ∨ (g c).2 = (f c).2 ++ [index]) →
    ∀ c, counts_after index apps g c = (((g c).1 + category_count c apps)%Z,
      if existsb (in_category c) apps then (f c).2 ++ [index] else (g c).2)) as Hgen.
  { clear Hd apps. intros apps. induction apps as [|app apps IH]; intros g Hd Hg c.
    - cbn. rewrite Z.add_0_r. by destruct (g c).
    - apply Forall_cons in Hd as [[d Ha] Hd]. cbn [counts_after existsb]. rewrite Ha.
      assert (∀ c', (count_in index g (cd_category d) c').2 = (f c').2 ∨ (count_in index g (cd_category d) c').2 = (f c').2 ++ [index]) as Hg'.
      { intros c'. unfold count_in. case_bool_decide; [|apply Hg]. cbn [snd]. right. unfold add_index.
        destruct (Hg c') as [->| ->].
        - by rewrite bool_decide_false by apply Hfresh.
        - by rewrite last_snoc, bool_decide_true. }
      assert (in_category c app = bool_decide (cd_category d = c)) as Hin by (unfold in_category; by rewrite Ha).
      rewrite IH by done. unfold category_count. cbn [List.filter]. rewrite !Hin. unfold count_in.
      destruct (decide (c = cd_category d)) as [->|Hne].
      + rewrite !bool_decide_true by done. cbn [fst snd length orb]. f_equal; [lia|].
        destruct (existsb _ _); [done|]. unfold add_index. destruct (Hg (cd_category d)) as [->| ->].
        * by rewrite bool_decide_false by apply Hfresh.
        * by rewrite last_snoc, bool_decide_true.
      + rewrite !bool_decide_false by congruence. done. }
  intros c. rewrite Hgen by eauto. destruct (existsb _ _); by rewrite ?app_nil_r.
Qed.

(** ** The shards of an index *)

Definition tally_counts (shards : list SignedCatalogShard) : Counts := λ c,
  (category_count c (all_apps shards), category_shards c shards).
Definition tally_done (shards : list SignedCatalogShard) : Tally := tally_of (tally_counts shards) (app_ids (all_apps shards)).

Lemma all_apps_app s1 s2 : all_apps (s1 ++ s2) = all_apps s1 ++ all_apps s2.
Proof. unfold all_apps. by rewrite map_app, concat_app. Qed.
Lemma all_apps_one s : all_apps [s] = shard_apps s.
Proof. unfold all_apps. cbn. by rewrite app_nil_r. Qed.
Lemma category_count_bounds c apps : (0 ≤ category_count c apps ≤ Z.of_nat (length apps))%Z.
Proof. unfold category_count. pose proof (List.filter_length_le (in_category c) apps). lia. Qed.
Lemma category_shards_below c shards k :
  Forall (λ s, cs_index (sg_document s) < k)%Z shards → last (category_shards c shards) ≠ Some k.
Proof.
  intros Hf Hl. apply last_Some_elem_of in Hl. unfold category_shards in Hl.
  apply list_elem_of_In, in_map_iff in Hl as (s&Hk&[Hs _]%filter_In).
  rewrite Forall_forall in Hf. apply list_elem_of_In, Hf in Hs. lia.
Qed.

Lemma app_ids_snoc shards s : app_ids (all_apps (shards ++ [s])) = app_ids (all_apps shards) ++ app_ids (shard_apps s).
Proof. unfold app_ids. by rewrite all_apps_app, all_apps_one, map_app. Qed.

Lemma tally_done_snoc shards s k :
  Forall (λ s, cs_index (sg_document s) < k)%Z shards → cs_index (sg_document s) = k →
  Forall (λ app, is_Some (cat_discovery app)) (shard_apps s) →
  tally_of (counts_after k (shard_apps s) (tally_counts shards)) (app_ids (all_apps shards) ++ app_ids (shard_apps s))
  = tally_done (shards ++ [s]).
Proof.
  intros Hf Hk Hd. unfold tally_done, tally_of. rewrite app_ids_snoc.
  f_equal. apply members_ext. intros c. rewrite counts_after_shard; [|done|intros c'; by apply category_shards_below].
  unfold tally_counts. cbn [fst snd]. rewrite all_apps_app, all_apps_one. unfold category_count, category_shards.
  rewrite !List.filter_app, length_app, map_app. cbn [List.filter].
  destruct (existsb _ _); cbn [map]; rewrite ?Hk; f_equal; lia.
Qed.
(** The outcome of counting one shard more, and of checking the remaining ones. *)
Definition tallied (before : list SignedCatalogShard) (s : SignedCatalogShard) (t : Tally) : Prop :=
  StronglySorted str_lt (app_ids (all_apps (before ++ [s]))) ∧ Forall (λ app, is_Some (cat_discovery app)) (shard_apps s) ∧
  t = tally_done (before ++ [s]).
Definition verified (i : CatalogIndex) (key : list ascii) (ds : list CatalogShardDescriptor) (encoded : list (list ascii))
    (before shards : list SignedCatalogShard) (t : Tally) : Prop :=
  Forall3 (shard_matches i key) ds encoded shards ∧ StronglySorted str_lt (app_ids (all_apps (before ++ shards))) ∧
  Forall (λ app, is_Some (cat_discovery app)) (all_apps shards) ∧ t = tally_done (before ++ shards).
(** A shard moves the tally of the shards before it to that with it. *)
Lemma tally_shard_iff shards s k t :
  Forall (λ s, cs_index (sg_document s) < k)%Z shards → cs_index (sg_document s) = k →
  (Z.of_nat (length (all_apps shards)) + Z.of_nat (length (shard_apps s)) ≤ u16_max)%Z →
  StronglySorted str_lt (app_ids (all_apps shards)) →
  tally_apps k (shard_apps s) (tally_done shards) = Ok t ↔ tallied shards s t.
Proof.
  intros Hf Hk Hroom Hs. unfold tally_done, tallied at 1. rewrite app_ids_snoc, tally_apps_iff; [|done|].
  - split; intros (Hs'&Hd&->); (split_and!; [exact Hs'|exact Hd|]); [|symmetry]; by apply tally_done_snoc.
  - intros c. cbn [tally_counts fst]. pose proof (category_count_bounds c (all_apps shards)). lia.
Qed.

Lemma index_shards_cons k prev n d ds total :
  index_shards k prev n (d :: ds) = Ok total →
  csd_index d = k ∧ (csd_app_count d ≤ Z.of_nat MAX_CATALOG_APPS)%Z ∧
  ∃ n', index_shards (k + 1) (Some (last_app_id d)) n' ds = Ok total.
Proof.
  cbn [index_shards]. unfold invalid_if. destruct (_ || _) eqn:Hb; [done|]. unbool_hyps.
  destruct (checked_add_u64 _ _) as [n'|]; [|done]. cbn [ok_or]. intros Hok.
  split_and!; [done| |by exists n']. unfold in_range in *. unbool_hyps. lia.
Qed.

Lemma verify_shards_iff i key ds encoded shards t before k prev n total :
  length encoded = length ds → index_shards k prev n ds = Ok total →
  Forall (λ s, cs_index (sg_document s) < k)%Z before →
  (Z.of_nat (length (all_apps before)) + Z.of_nat MAX_CATALOG_APPS * Z.of_nat (length ds) ≤ u16_max)%Z →
  StronglySorted str_lt (app_ids (all_apps before)) →
  verify_shards i key ds encoded (tally_done before) = Ok (shards, t) ↔ verified i key ds encoded before shards t.
Proof.
  revert encoded shards before k prev n. induction ds as [|d ds IH];
    intros [|e encoded] shards before k prev n Hlen Hidx Hbelow Hroom Hsorted; [|done..|].
  { cbn [verify_shards]. split.
    - intros [= <- <-]. unfold verified. rewrite app_nil_r. split_and!; [constructor|done|constructor|done].
    - intros (Hf&_&_&->). inversion Hf. by rewrite app_nil_r. }
  apply index_shards_cons in Hidx as (Hk&Hcount&n'&Hidx). cbn [verify_shards]. cbn [length] in Hlen, Hroom.
  assert (∀ s rest, before ++ s :: rest = (before ++ [s]) ++ rest) as Hmove by (intros; by rewrite <- app_assoc).
  assert (∀ s t', shard_matches i key d e s → tally_apps k (shard_apps s) (tally_done before) = Ok t' ↔ tallied before s t') as Hstep.
  { intros s t' Hm. eapply (tally_shard_iff before s k t'); [done| | |done].
    - by rewrite (sm_index _ _ _ _ _ Hm).
    - unfold shard_apps. rewrite (sm_count _ _ _ _ _ Hm). lia. }
  assert (∀ s rest, shard_matches i key d e s → StronglySorted str_lt (app_ids (all_apps (before ++ [s]))) →
    verify_shards i key ds encoded (tally_done (before ++ [s])) = Ok (rest, t) ↔ verified i key ds encoded (before ++ [s]) rest t) as Hrec.
  { intros s rest Hm Hs. eapply (IH encoded rest (before ++ [s])); [congruence|exact Hidx| | |done].
    - apply Forall_app. split; [eapply Forall_impl; [exact Hbelow|cbn; lia]|].
      constructor; [|constructor]. rewrite (sm_index _ _ _ _ _ Hm). lia.
    - rewrite all_apps_app, all_apps_one, length_app. unfold shard_apps. pose proof (sm_count _ _ _ _ _ Hm). lia. }
  clear IH. split.
  - destruct (verify_shard i key d e) as [s| |] eqn:Hs; [|done..]. apply verify_shard_iff in Hs. cbn.
    rewrite (sm_index _ _ _ _ _ Hs), Hk. change (cs_apps (sg_document s)) with (shard_apps s).
    destruct (tally_apps _ _ _) as [t'| |] eqn:Ht; [|done..]. apply Hstep in Ht as (Hss&Hd&->); [|done]. cbn.
    destruct (verify_shards _ _ _ _ _) as [[rest t2]| |] eqn:Hr; [|done..]. cbn. intros [= <- ->].
    apply Hrec in Hr as (Hf&Hss2&Hd2&->); [|done..]. unfold verified. rewrite Hmove. split_and!; [by constructor|done| |done].
    change (all_apps (s :: rest)) with (shard_apps s ++ all_apps rest). by apply Forall_app.
  - intros (Hf&Hss&Hd&->). inversion Hf as [|? ? s ? ? rest Hm Hf']; subst.
    change (all_apps (s :: rest)) with (shard_apps s ++ all_apps rest) in Hd. apply Forall_app in Hd as [Hd1 Hd2].
    rewrite Hmove in Hss.
    assert (StronglySorted str_lt (app_ids (all_apps (before ++ [s])))) as Hs1.
    { rewrite all_apps_app in Hss. unfold app_ids in Hss. rewrite map_app in Hss. by eapply StronglySorted_app_1_l. }
    rewrite (proj2 (verify_shard_iff _ _ _ _ _) Hm). cbn. rewrite (sm_index _ _ _ _ _ Hm).
    change (cs_apps (sg_document s)) with (shard_apps s).
    rewrite (proj2 (Hstep s _ Hm)) by done. cbn. apply (Hrec s rest Hm) in Hs1 as [_ Hr].
    unfold SignedCatalogShard in *. rewrite Hr; [done|]. unfold verified. rewrite <- Hmove in Hss |- *. by split_and!.
Qed.

(** ** A set *)

Lemma canonical_index_valid key signed :
  authentic canonical_catalog_index CATALOG_INDEX_SIGNATURE_DOMAIN key signed → CatalogIndex_validate (sg_document signed) = Ok tt.
Proof.
  intros (text&_&Hc&_). unfold canonical_catalog_index in Hc. by destruct (CatalogIndex_validate _) as [[]| |].
Qed.
Lemma valid_index_shards i : CatalogIndex_validate i = Ok tt →
  (length (ci_shards i) ≤ MAX_CATALOG_SHARDS)%nat ∧ ∃ total, index_shards 0 None 0 (ci_shards i) = Ok total.
Proof.
  unfold CatalogIndex_validate. cbv zeta. intros [_ Hok]%invalid_if_then.
  destruct (validate_catalog_lifetime _ _) as [[]| |]; [|done..]. cbn [ok_or] in Hok.
  apply invalid_if_then in Hok as [Hb Hok]. apply invalid_if_then in Hok as [_ Hok].
  destruct (match ci_editorial i with Some _ => _ | None => _ end) as [[]| |]; [|done..].
  destruct (index_shards _ _ _ _) as [total| |]; [|done..]. split; [|by exists total]. unbool_hyps. lia.
Qed.

Lemma expected_categories_done shards :
  expected_categories (ty_members (tally_done shards)) =
    map (category_index shards) (List.filter (λ c, (0 <? category_count c (all_apps shards))%Z) StoreCategory_ALL).
Proof.
  unfold expected_categories. cbn [ty_members tally_done tally_of]. unfold members_of.
  induction StoreCategory_ALL as [|c l IH]; [done|]. cbn in IH |- *. destruct (0 <? _)%Z; cbn; by rewrite IH.
Qed.
Lemma tally_ids_size shards : StronglySorted str_lt (app_ids (all_apps shards)) →
  size (ty_ids (tally_done shards)) = length (all_apps shards).
Proof.
  intros Hs. cbn. rewrite size_list_to_set; [unfold app_ids; by rewrite length_map|].
  apply (StronglySorted_NoDup_proj str_lt id) in Hs. by rewrite map_id in Hs.
Qed.

(** C16: the check of a set of shards accepts exactly the sets that are one
    catalogue: an index signed with the key of the Store, for each of its
    descriptors the announced bytes with a signed shard of the same sequence
    and schema, all applications in one sorted sequence without repetition and
    with discovery metadata, as many as the index says, and for every category
    the number of its applications and the shards they are in, and an editor's
    choice, where there is one, of applications of the set. *)
Theorem shard_set_iff signed_index encoded key shards :
  verify_catalog_shard_set signed_index encoded key = Ok shards ↔ shard_set key signed_index encoded shards.
Proof.
  unfold verify_catalog_shard_set. set (i := sg_document signed_index). cbv zeta.
  assert (authentic canonical_catalog_index CATALOG_INDEX_SIGNATURE_DOMAIN key signed_index → length encoded = length (ci_shards i) →
    ∀ t, verify_shards i key (ci_shards i) encoded (mkTally no_members ∅ None) = Ok (shards, t) ↔
    verified i key (ci_shards i) encoded [] shards t) as Hshards.
  { intros Ha Hlen t. apply canonical_index_valid, valid_index_shards in Ha as [Hn [total Ht]].
    eapply (verify_shards_iff i key (ci_shards i) encoded shards t [] 0); [done|exact Ht|constructor| |constructor].
    unfold MAX_CATALOG_SHARDS in Hn. fold i in Hn. unfold MAX_CATALOG_APPS, u16_max. cbn [all_apps map concat length]. lia. }
  split.
  - destruct (verify_catalog_index signed_index key) as [[]| |] eqn:Hv; [|done..]. apply verify_document_iff in Hv.
    intros [Hlen Hok]%invalid_if_then. unbool_hyps.
    destruct (verify_shards _ _ _ _ _) as [[shards' t]| |] eqn:Hr; [|done..]. cbn [fst snd ok_or] in Hok.
    apply invalid_if_then in Hok as [Hsize Hok]. apply invalid_if_then in Hok as [Hcat Hok].
    destruct (match ci_editorial i with Some _ => _ | None => _ end) as [[]| |] eqn:Hed; [|done..]. injection Hok as ->.
    destruct (proj1 (Hshards Hv Hlen t) eq_refl) as (Hf&Hs&Hd&->). unbool_hyps. rewrite expected_categories_done in *.
    cbn [app] in *. rewrite tally_ids_size in * by done. constructor; try done. fold i. by destruct (ci_editorial i).
  - intros [Ha Hf Hs Hd Hn Hc He]. assert (verify_catalog_index signed_index key = Ok tt) as -> by (by apply verify_document_iff).
    assert (length encoded = length (ci_shards i)) as Hlen by (symmetry; by eapply Forall3_length_lm).
    rewrite Hlen, Nat.eqb_refl. cbn [invalid_if negb]. rewrite (proj2 (Hshards Ha Hlen (tally_done shards))) by done. cbn [ok_or snd fst].
    rewrite tally_ids_size, expected_categories_done by done. fold i in Hn, Hc, He. rewrite Hn, Z.eqb_refl. cbn.
    rewrite bool_decide_true by done. cbn. destruct (ci_editorial i); [|done]. by rewrite He.
Qed.
End spec.
